(* ===== verification/_CoqProject ===== *)
-Q . S2P
Prelude.v
Worklist.v
Js.v
JsNum.v
JsText.v
JsJson.v
ApiClient.v
AuthSession.v
GraphBrowser.v
GraphModel.v
GraphCommands.v
Samples.v
GraphTheory.v
Invalidation.v
AuthoringState.v
Handles.v
Routes.v
RoutesTheory.v
Canvas.v
NodeLayout.v
InputPlugs.v
NodeCommands.v
ConfigSchema.v
ConfigFields.v
ExecutionPlan.v
Connections.v
LibrarySelection.v
LibraryTree.v
RoomBridge.v
Hydration.v
HydrationTheory.v
RoomBridgeTheory.v
Protocol.v
ProtocolTheory.v
Fingerprints.v
FingerprintTheory.v
ArtifactCards.v
ArtifactDrop.v
LibraryDrag.v
NodeSecrets.v
SecretWrites.v
Lifecycle.v
LifecycleTheory.v
Viewers.v
Grouping.v
GridLayout.v
FieldBoard.v
Docking.v
EdgeRoutes.v
SidePanel.v
Collections.v
Feeds.v
CardConnections.v
NodeCatalog.v
SchemaOutline.v
CardCommands.v
CardTheory.v
RunState.v
RunExecution.v
CommandOutbox.v
OutboxTheory.v
RoomSession.v
SessionTheory.v
RoomView.v
RoomViewTheory.v
RoomSync.v
Connecting.v
CanvasChanges.v
RoomSyncTheory.v
ConnectingTheory.v
CanvasChangesTheory.v
CanvasEdits.v
CanvasEditsTheory.v
Discovery.v
Presence.v
PresenceTheory.v
CursorMotion.v
AgentStream.v
AgentChat.v
AgentChatTheory.v
