(* ===== verification/Prelude.v ===== *)
(** * The Grafy workbench client: a verification library

    Grafy is a collaborative editor for artifact-processing Graphs.  Its web
    client (apps/web/src/features/workbench) keeps an authored Graph document,
    edits it by commands, sends the commands of this person to the Project room
    over a WebSocket, and replays what the room accepted, from anybody, onto a
    confirmed head.  This library models that core and proves what makes it
    correct.

    ** The parts, and how they interact

    - The _document_ (model/graph-document.ts) is a name with nodes, edges,
      origins (values authored at an input) and agents.  A [GraphCommand] is
      applied by [applyGraphCommand], which normalizes its argument and either
      returns the next document or throws.
    - The _invalidation_ (executionDescendants, executionInvalidatedNodeIds of the
      same file) names the nodes whose last run no longer describes their inputs.
    - The _reducer_ (canvas/graph-document-adapter.ts) applies a batch of commands
      to the document and resets the run overlays of the invalidated nodes.
    - The _bridge_ (room/room-command-bridge.ts) turns local commands into Project
      commands for the wire, accepted Project commands back into local ones, and
      replays Project commands onto the Project head.
    - The _protocol_ (room/protocol.ts) parses what the room sends.
    - The _outbox_ (room/command-outbox.ts) queues the batches of this client, has
      at most one in flight, and settles one promise per batch.
    - The _session_ (room/graph-room-session.ts) owns the socket, the confirmed
      head, the presence and run state, reconnects with back-off, and drives the
      outbox: it tells it what head there is and whether it may send, and writes
      the frames it hands out.

    - The _room of a tab_ (room/useProjectRoomSession.ts) makes a session for the open
      Project and keeps what a render reads of it.  The _workbench_ (ui/Workbench.tsx,
      ui/workbench-authoring-commands.ts) puts the two together: it applies a batch to the
      document and hands it to the room, and replays what the room accepted from others.
    - The _canvas_ (canvas/types.ts) shows the document as nodes and edges with the
      operator of each node: it is built from a saved Graph and the registry of
      operators (canvas/saved-graph.ts), and edited by gestures
      (ui/workbench-node-commands.ts, canvas/input-plugs.ts and its neighbours) that
      become commands.  Handle ids and connection routes (canvas/handles.ts) and the
      acceptance of a connection (model/graph-authoring.ts) say what can be connected.
    - A _Run_ is asked for by the Run surface (ui/useRunExecution.ts) once the plan
      (model/execution-plan.ts), the configurations (canvas/config-schema.ts) and the
      stored secrets (canvas/node-secrets.ts) allow it; the surface then follows its
      Run and shows the instance states the server derives (ui/run-execution/state.ts).
    - The _lifecycle_ (ui/useSavedGraphLifecycle.ts) opens, saves and deletes the Graph on
      the canvas, follows the route and the room's head, and says what is unsaved.
    - _Cards_ show artifacts beside the Graph (canvas/artifact-viewer.ts and its edits);
      gestures (ui/workbench-artifact-cards.ts, workbench-artifact-viewers.ts) place, group
      and tidy them (model/artifact-grouping.ts) and collect them into nodes
      (model/collection.ts).
    - What a person does on the canvas (ui/Workbench.tsx): _wires_ are drawn and become edges,
      origins, links or bindings, with the feed they take first (model/connection-feeds.ts,
      canvas/artifact-connections.ts); a wire let go over nothing opens a menu of the _catalog_
      (model/node-catalog.ts); _changes_ that the renderer reports (drags, drops, selections,
      removals, sizes) are taken apart; artifacts are dropped, the selection is duplicated and
      snapped to the _grid_ (canvas/grid-layout.ts).
    - _Presence_ (ui/Workbench.tsx, room/PresenceOverlay.tsx and its neighbours): the tab tells the
      others its pointer, selection and drags, and shows theirs.
    - The _Library panel_ (ui/side-panel/library-tree.ts, library-selection.ts, library-drag.ts) and
      the _agent conversations_ (agents/useAgentChat.ts, agents/stream.ts) stand beside the canvas,
      in a _side panel_ (ui/side-panel/workbench-side-panel-state.ts) whose state is stored.
    - A node shows its configuration as a _board_ of bricks (canvas/nodes/field-footprints.ts) and a
      type as an _outline_ (canvas/nodes/schema-outline.ts); cards that face each other closely are
      _docked_ (canvas/edges/docked-connection.ts), and other edges fan out of their handles and can be
      bent (canvas/edges/edge-path.ts, useEdgeRouteBend.ts).
    - Every call to the server goes through the _API client_ (lib/api/client.ts) behind the _session
      boundary_ (features/auth/AuthSessionBoundary.tsx); the _browser of Graphs_ (features/graphs,
      features/workspaces) keeps its filters in the address and renames and deletes Projects.

    ** The files

    - [Prelude]: outcomes of code that throws ([res]), options, lists as sets and
      as maps, tactics and hint databases.  [Worklist]: the breadth-first work
      list that the client uses, with exactness and a fuel bound.  [Js]: the
      JavaScript values that occur (numbers, JSON values, null and undefined,
      white space, join).  [JsNum]: the order of numbers.  [JsText]: split and join,
      URI components, the reading of numbers from text (with rounding to doubles).
      [JsJson]: the text of a JSON value, and that it determines the value.
    - [GraphModel] (data), [GraphCommands] (operations), [GraphTheory] (theorems):
      graph-document.ts and the generated record types.  [Samples]: a small
      document that the witnesses run on.
    - [Invalidation]: the invalidation.  [AuthoringState]: the reducer.
    - [Handles]: handle ids and validity of connections.  [Routes] and
      [RoutesTheory]: the conversion search and connection routes.
      [Connections]: which connections a canvas accepts.
    - [Canvas] (data of canvas/types.ts), [NodeLayout] (sizes), [InputPlugs] (plugs,
      schema fields, query relations, new nodes), [NodeCommands] (gestures),
      [ConfigSchema] and [ConfigFields] (validation and form fields).
    - [ExecutionPlan]: the plan of a Run.  [NodeSecrets] and [SecretWrites]: stored
      secrets.  [RunState]: instance states and results.  [RunExecution]: the Run surface.
    - [Hydration], [HydrationTheory]: opening a saved Graph.  [Fingerprints],
      [FingerprintTheory]: the texts that decide what is unsaved.  [Lifecycle],
      [LifecycleTheory]: the lifecycle hook.
    - [ArtifactCards], [ArtifactDrop]: values of artifact cards, drops on inputs.
    - [Viewers] (the layer of cards and its edits), [Grouping] (stacks and tidying),
      [Collections] (collection nodes), [CardCommands] (gestures), [CardTheory].
    - [Feeds] (routes and feeds of a connection), [CardConnections] (wires from cards),
      [NodeCatalog] (what pickers offer), [GridLayout] (the grid).
    - [Connecting], [ConnectingTheory]: wires drawn on the canvas.  [Discovery]: wires let go over
      nothing.  [CanvasChanges], [CanvasChangesTheory]: what the renderer reports.  [CanvasEdits],
      [CanvasEditsTheory]: drops, duplicates, snapping, new nodes and annotations.
    - [Presence], [PresenceTheory]: published snapshots, selections and drags of others.
      [CursorMotion]: their cursors.
    - [LibrarySelection], [LibraryTree], [LibraryDrag]: the Library panel.  [AgentStream]: replies.
      [AgentChat], [AgentChatTheory]: conversations.  [SidePanel]: the panel around them.
    - [FieldBoard]: configuration fields as bricks.  [SchemaOutline]: the inspector of a type.
      [Docking]: docked connections.  [EdgeRoutes]: fans, curves and bends of edges.
    - [ApiClient]: requests and failures.  [AuthSession]: the return path and the session.
      [GraphBrowser]: filters, actions on Projects, changes of members.
    - [RoomBridge], [RoomBridgeTheory]: the bridge.
    - [Protocol], [ProtocolTheory]: the parser of room messages.
    - [CommandOutbox], [OutboxTheory]: the outbox.
    - [RoomSession], [SessionTheory]: the session.
    - [RoomView], [RoomViewTheory]: the room of a tab.  [RoomSync], [RoomSyncTheory]: the
      workbench between the document and the room.

    Definitions keep the names of the source; a record field carries a short
    prefix where two types share a field name.  A switch case that is long has a
    definition of its own, and the switch calls it.

    ** What the theorems show

    - Documents ([GraphTheory]): a command succeeds exactly when it is admissible;
      no batch creates a duplicate id, and none that names what exists leaves a
      dangling edge or origin; normalizing
      once per batch is the same as normalizing before each command; reordering
      moves one plug; a draft's presentation keeps exactly the links that resolve.
    - Invalidation: the closure is exactly reachability and terminates by itself;
      after any command a node whose execution inputs changed is invalidated, with
      everything downstream.  [AuthoringState]: batches are atomic, and an overlay
      that survives is about unchanged inputs.
    - Handles and routes: a port is read back from its id; a connection is valid
      exactly when the ports may be connected; the search finds exactly the
      shortest simple conversion paths and gives up only on large registries; an
      offered route delivers an accepted type and survives being persisted and
      replayed.
    - Connections: whatever connections are accepted, replaced and removed, the canvas
      stays without cycles and without two feeds of one input; the search ends.
    - Opening: exactly which documents open; nothing stored is lost by opening, and an
      operator or a port that is gone never keeps a document from opening.
    - Configuration: no issue is reported exactly when the value conforms to the
      schema, stated as a predicate apart from the validator.  Plugs and gestures: the
      plugs of a port follow the fields they stand for; what the gestures send.
    - Runs: a selection with dependencies is closed under what it reads; a Run is asked
      for exactly when it may start; the tab keeps its Run until a read of that Run says
      it ended; the states shown are of the open Graph, for every order of answers;
      results are read at most six at a time, each once; a stored secret's binding is
      ready exactly when nothing it depends on changed.
    - Secret writes, for every order of answers: a write names a head that was read, ends
      once, cannot touch a status that a later one set, and is repeated at most once.
    - Fingerprints: drafts have the same one exactly when they hold the same name, nodes,
      connections and presentation in any order; two lemmas state what they miss.
    - Lifecycle, for every order of events and answers: only the last open begun can reach
      the canvas, and not over an edit; a canvas that is not dirty is what the server
      answered for the Project and Graph it names; at most one save is out, and it is
      addressed to the Graph it began with.  Four traces show where the hook falls short.
    - Drops: an accepted drop leaves its input with one origin that the port can take and
      no enabled connection, and changes nothing else; a drag is read back as written;
      merging cards repeats no artifact and mixes no types.
    - Cards: gestures keep every link, binding and id of the layer sound; the layer survives
      being saved; collected cards become the members of a new node, and a collection taken
      apart reads back; tidied cards do not overlap.
    - Library: the tree holds exactly the artifacts that match and are filed at the root, in no
      listed folder or below the root, each once, with right counts; a drag is grouped by type
      and read back as written.  Replies: the text put together is a beginning of the reply.
    - Wires: an edge that a drawn wire authors fits on the canvas it lands on; an edge that waits
      for a binding is authored once the node is measured.  The catalog offers exactly what can be
      connected, in one order.  The grid: a place snaps to the nearest cell and stays there.
    - Changes: while editing is blocked no report changes the document; drags in progress stay in
      an overlay; dropped nodes land on the grid, and dropped cards stand in the other tabs where
      they stand here.  Edits: duplicates are copies, field by field, with the edges between them; a mixed drag is
      never cut; one card lands for each group.
    - Conversations, once they are listed, for every order of answers: what is shown is of the selected conversation;
      sending again repeats the message and its id.
    - Presence: when nothing is pending, the last snapshot taken by the room shows the tab as it is;
      a due snapshot is not refused for its rate; the previews are exactly the drags of others.
      Cursors: a step never passes its aim; a fade lasts 178.2 ms; exactly the present cursors are
      shown for good.
    - Boards: bricks do not overlap, stay on the board in order and fill their rows.  Outlines:
      references are followed to an end, an outline has at most eleven levels and shows the
      properties of an object; a node is found by its id.  Docking: exactly which edges are docked,
      and no handle twice.  Edges: each leaves its handle in the slot of its place among the others,
      evenly and along the port; the curve is the one of its control points, bent smoothly; a bend
      follows the pointer and leaves no trace when cancelled.  Side panel: its width is in bounds whatever is stored, a drag sets it
      and a cancelled one restores it, collapsing changes one folder.
    - API client: the token goes with unsafe requests to this origin only, a signed upload carries
      no session, an error body is read up to a bound, and the detail kept of it is bounded and
      without the token; a cookie is read back.  Session: whatever the order of answers, one that
      ended is not shown again, and one request to sign out is out at a time; the return path begins
      with a slash.  Browser: changed filters read back and leave other parameters alone; a Project
      with unsaved edits is deleted only after they were saved.
    - The findings of these parts (what is lost, shown late or never done) are theorems beside
      them, each about the trace or the input that shows it.
    - Bridge: a command survives the wire; replaying it onto the head gives the
      document that a canvas applying it shows; a replay leaves all other Graphs
      alone.  Three theorems state where the code falls short of this.
    - Protocol: what is parsed is well formed; what is well formed and written is
      parsed back; instance keys do not collide.
    - Outbox, over every sequence of operations: no batch is lost and no promise is
      settled twice; at most one batch is in flight; the queue is bounded; batches
      are first sent in the order of submission, and a resend repeats the frame.
    - Session, over every sequence of operations, socket events and timers, with
      an arbitrary socket, clock and parser at each step: the state invariant; the
      head never goes back; accepted batches are applied in sequence or not at
      all; frames are written only when permitted; a terminal session stays
      terminal; a lost connection backs off and gives up in the end.
    - Room of a tab, over every sequence of renders, callbacks, socket events and timers: what
      the hook returns is what the session of the open Project holds and allows (its Runs and
      instances while it is ready), and sessions that were left change nothing.
    - Workbench: a canvas that shows a Graph of the head shows it still after an accepted
      batch of another tab, or asks for the whole head; an edit of one tab reaches another tab
      through the wire and the replay; no card link outlives its node.  Four theorems state
      where the code falls short of this.

    ** Conventions, bounds and parameters

    - A thrown [Error] is [Throw msg].  State is passed explicitly; in the session
      an action is a function from a state to the next one and the events it
      emits, in order.  Listeners are events: the model does not let a listener
      call back into the object that is notifying it.
    - A promise is named by its command id; resolving or rejecting it is an event.
    - Strings are sequences of characters below 256; numbers are exact rationals,
      the infinities and NaN; texts of integers are those below [10^21].  Sequence
      numbers are [Z], as the parser admits only integers.
    - Fuel: the work lists ([executionDescendants], [selectedNodeAndAncestorIds],
      [nodeAndDescendantIds]) have one round per node, the search for a cycle one per
      edge and one more, the folder tree and folder paths one level per folder, the
      loops for a free name one round per name in use.  Each is proved to stop by
      itself by then, so the bound is never what ends it.  References of a schema are followed
      once per definition, which is proved enough; the label of a type ([typeLabel]) has no bound
      in the source, and its fuel runs out where the source does not return.  The bounds of the conversion
      search (eight steps, 4096 states, 256 candidates) and the 64 levels of the schema
      validator are the source's own.
    - Parameters: the host's collation [localeCompare], [Date.parse], regular
      expressions, and texts of numbers and of schema types in messages; no theorem
      assumes anything of them but [secret_binding_ready_iff],
      [fingerprint_tells_documents_apart] and [a_clean_canvas_is_on_the_server], which rely on
      the text of a number in JSON to determine it (the class [NumberText], with an
      instance), and one part of the second
      on a collation that tells all strings apart (the class [Collation], likewise).
    - What belongs to the renderer or is approximated by the host is a class with the laws that are
      used and an instance: [FlowLibrary] ([applyNodeChanges]), [MathLibrary] ([Math.exp]), [SquareRoot]
      ([Math.sqrt]).
    - A React hook is a step function: a render is an event, its effects run with it, a
      request is kept with the closure it was sent from, and its answer is an event that
      may come at any later time or never.
    - The casts that the source makes from a checked JSON value to a head or a
      command are the parameters [asHead] and [asCommand]; what the session reads
      of the outside (socket state, clock, whether a constructor or a write throws)
      is the record [World], arbitrary at every step.  The theorems hold for every
      [JSON_parse] and every text of a number in a failure message.
      Ids that the source draws at random are arguments.

    ** What is not modelled, and what is next

    The rendering of React components, the other panels, menus and dialogs, unmounting, the
    functions of lib/api that only name an endpoint, the generated contract beyond the record types
    used here, the pages outside the workbench apart from the three parts above, the sandbox of
    spikes, and the Python services are not modelled: they are views and event wiring over the parts
    above, or another language.  The page itself (what is under the pointer, sizes that are
    measured) and the network (cookies, the answer of [fetch]) enter as arguments. *)

From stdpp Require Export base tactics list strings gmap relations.

#[global] Open Scope string_scope.
#[global] Open Scope list_scope.
#[global] Open Scope nat_scope.

(** ** Outcomes of code that may throw

    A TypeScript function that can [throw new Error(msg)] returns [res A]:
    either its value or the message of the error. *)
Inductive res (A : Type) : Type :=
| Ok (a : A)
| Throw (msg : string).
Arguments Ok {A} _.
Arguments Throw {A} _.

#[export] Instance res_ret : MRet res := @Ok.
#[export] Instance res_bind : MBind res := fun A B f r =>
  match r with Ok a => f a | Throw m => Throw m end.
#[export] Instance res_fmap : FMap res := fun A B f r =>
  match r with Ok a => Ok (f a) | Throw m => Throw m end.

Definition is_ok {A} (r : res A) : bool :=
  match r with Ok _ => true | Throw _ => false end.

(** [Array.prototype.map] with a callback that may throw: the first throw, from
    the left, aborts the traversal. *)
Fixpoint res_map {A B} (f : A → res B) (l : list A) : res (list B) :=
  match l with
  | [] => Ok []
  | a :: l' => b ← f a; bs ← res_map f l'; Ok (b :: bs)
  end.

(** [for (const x of xs) state = f(state, x)] with a body that may throw. *)
Fixpoint res_fold {S A} (f : S → A → res S) (s : S) (l : list A) : res S :=
  match l with
  | [] => Ok s
  | a :: l' => s' ← f s a; res_fold f s' l'
  end.

(** ** Objects with an [id] field

    Nodes, edges, origins, agents, Graphs, viewers and annotations are all
    looked up, updated and removed by id; the class lets the lemmas about these
    traversals be proved once. *)
Class Identified (A : Type) := ident : A → string.

Definition ids {A} `{Identified A} (l : list A) : list string := ident <$> l.

(** [xs.find((x) => x.id === id)] *)
Definition find_id {A} `{Identified A} (i : string) (l : list A) : option A :=
  snd <$> list_find (λ a, ident a = i) l.

(** [xs.some((x) => x.id === id)] *)
Definition some_id {A} `{Identified A} (i : string) (l : list A) : bool :=
  existsb (λ a, bool_decide (ident a = i)) l.

(** [xs.map((x) => x.id === id ? f(x) : x)] *)
Definition map_id {A} `{Identified A} (i : string) (f : A → A) (l : list A) : list A :=
  (λ a, if bool_decide (ident a = i) then f a else a) <$> l.

(** [const removed = new Set(ks); xs.filter((x) => !removed.has(x.id))] *)
Definition remove_ids {A} `{Identified A} (ks : list string) (l : list A) : list A :=
  filter (λ a, ident a ∉ ks) l.

(** ** Automation *)

Create HintDb grafy.
Create Rewrite HintDb project.

(** A closed decidable goal, by evaluation. *)
Ltac by_decide := apply (bool_decide_unpack _); vm_compute; exact I.

(** Case analysis on the first scrutinee found, keeping the equation. *)
Ltac destruct_match :=
  match goal with
  | H : context [match ?x with _ => _ end] |- _ =>
      lazymatch x with context [match _ with _ => _ end] => fail | _ => destruct x eqn:? end
  | |- context [match ?x with _ => _ end] =>
      lazymatch x with context [match _ with _ => _ end] => fail | _ => destruct x eqn:? end
  end.


(** Simplify equations between outcomes. *)
Ltac res_inv :=
  cbv beta in *;
  repeat match goal with
  | H : Ok _ = Ok _ |- _ => inversion H; subst; clear H
  | H : Ok _ = Throw _ |- _ => discriminate H
  | H : Throw _ = Ok _ |- _ => discriminate H
  | H : mret _ = Ok _ |- _ => inversion H; subst; clear H
  | H : mbind ?f ?r = Ok _ |- _ =>
      let a := fresh "a" in let m := fresh "m" in let E := fresh "E" in
      destruct r as [a|m] eqn:E; simpl in H; [|discriminate H]
  end.

(** ** Lemmas on outcomes *)

Lemma is_ok_spec {A} (r : res A) : is_ok r = true ↔ ∃ a, r = Ok a.
Proof. destruct r; naive_solver. Qed.

Lemma bind_ok {A B} (r : res A) (f : A → res B) b :
  (r ≫= f) = Ok b ↔ ∃ a, r = Ok a ∧ f a = Ok b.
Proof. destruct r; simpl; naive_solver. Qed.

Lemma res_map_ok {A B} (f : A → B) l : res_map (λ a, Ok (f a)) l = Ok (f <$> l).
Proof. induction l as [|a l IH]; simpl; [done|]. by rewrite IH. Qed.

Lemma res_map_ext {A B} (f g : A → res B) l :
  (∀ a, a ∈ l → f a = g a) → res_map f l = res_map g l.
Proof.
  induction l as [|a l IH]; intros Hfg; simpl; [done|].
  rewrite Hfg by (by left). destruct (g a); simpl; [|done].
  rewrite IH; [done|]. intros; apply Hfg. by right.
Qed.

Lemma res_map_Forall2 {A B} (f : A → res B) l l' :
  res_map f l = Ok l' ↔ Forall2 (λ a b, f a = Ok b) l l'.
Proof.
  revert l'. induction l as [|a l IH]; intros l'; simpl.
  - split; [intros; res_inv; constructor|by inversion 1].
  - split.
    + intros H. res_inv. constructor; [done|]. by apply IH.
    + inversion 1 as [|? b ? l'' Hb Hl]; subst. rewrite Hb. simpl.
      apply IH in Hl. by rewrite Hl.
Qed.

Lemma res_map_is_ok {A B} (f : A → res B) l :
  is_ok (res_map f l) = true ↔ ∀ a, a ∈ l → is_ok (f a) = true.
Proof.
  induction l as [|a l IH]; simpl.
  - split; [intros _ a Ha; by apply elem_of_nil in Ha|done].
  - split.
    + intros H b [->|Hb]%elem_of_cons.
      * destruct (f a); done.
      * destruct (f a); [|done]. simpl in H. apply IH; [|done].
        by destruct (res_map f l).
    + intros H. pose proof (H a ltac:(by left)) as Ha.
      destruct (f a); [|done]. simpl.
      assert (is_ok (res_map f l) = true) as Hl by (apply IH; intros; apply H; by right).
      by destruct (res_map f l).
Qed.

Lemma res_fold_app {S A} (f : S → A → res S) s l1 l2 :
  res_fold f s (l1 ++ l2) = (s' ← res_fold f s l1; res_fold f s' l2).
Proof.
  revert s. induction l1 as [|a l1 IH]; intros s; simpl; [done|].
  destruct (f s a); simpl; [apply IH|done].
Qed.

(** A property kept by every step of a fold that may throw is kept by the fold. *)
Lemma res_fold_inv {S A} (P : S → Prop) (f : S → A → res S) s l s' :
  (∀ s a s', a ∈ l → P s → f s a = Ok s' → P s') →
  P s → res_fold f s l = Ok s' → P s'.
Proof.
  revert s. induction l as [|a l IH]; intros s Hstep Hs H; simpl in *; res_inv; [done|].
  eapply IH; [|eapply Hstep; [by left| |]; eauto|done].
  intros; eapply Hstep; [by right| |]; eauto.
Qed.

(** A pointwise relation that determines its right side is a map. *)
Lemma Forall2_is_fmap {A B} (P : A → B → Prop) (f : A → B) l k :
  Forall2 P l k → (∀ a b, a ∈ l → P a b → b = f a) → k = f <$> l.
Proof.
  induction 1 as [|a b l k Hab H2 IH]; intros Hf; simpl; [done|].
  f_equal; [apply Hf; [by left|done]|]. apply IH. intros; apply Hf; [by right|done].
Qed.

(** ** Lemmas on filters *)

Lemma filter_iff_in {A} (P Q : A → Prop) `{∀ a, Decision (P a), ∀ a, Decision (Q a)} (l : list A) :
  (∀ a, a ∈ l → P a ↔ Q a) → filter P l = filter Q l.
Proof.
  induction l as [|a l IH]; intros HPQ; [done|]. rewrite !filter_cons.
  specialize (HPQ a ltac:(by left)) as Ha. rewrite IH by (intros; apply HPQ; by right).
  repeat case_decide; naive_solver.
Qed.

Lemma filter_same_length {A} (P : A → Prop) `{∀ a, Decision (P a)} (l : list A) :
  length (filter P l) = length l → filter P l = l.
Proof.
  induction l as [|a l IH]; [done|]. rewrite filter_cons. case_decide; cbn [length].
  - intros [= ?]. f_equal. by apply IH.
  - pose proof (length_filter P l). lia.
Qed.

Lemma elem_of_flat_map {A B} (f : A → list B) l b : b ∈ flat_map f l ↔ ∃ a, a ∈ l ∧ b ∈ f a.
Proof.
  rewrite list_elem_of_In, in_flat_map. split; intros (a & Ha & Hb); exists a; rewrite ?list_elem_of_In in *; done.
Qed.

Lemma existsb_elem {A} (f : A → bool) l : existsb f l = true ↔ ∃ a, a ∈ l ∧ f a = true.
Proof. rewrite existsb_exists. by setoid_rewrite <- list_elem_of_In. Qed.

Lemma existsb_none {A} (f : A → bool) l a : existsb f l = false → a ∈ l → f a = false.
Proof. intros H Ha. destruct (f a) eqn:Hf; [|done]. rewrite <- H. symmetry. apply existsb_elem. eauto. Qed.

Lemma filter_all {A} (P : A → Prop) `{∀ a, Decision (P a)} (l : list A) :
  (∀ a, a ∈ l → P a) → filter P l = l.
Proof.
  induction l as [|a l IH]; intros HP; [done|]. rewrite filter_cons_True by (apply HP; by left).
  f_equal. apply IH. intros; apply HP; by right.
Qed.

(** ** Lemmas on collections of identified objects *)

Section identified.
Context {A : Type} `{Identified A}.
Implicit Types (l : list A) (a : A) (i : string).

Lemma ids_app l1 l2 : ids (l1 ++ l2) = ids l1 ++ ids l2.
Proof. apply fmap_app. Qed.

Lemma elem_of_ids i l : i ∈ ids l ↔ ∃ a, a ∈ l ∧ ident a = i.
Proof. unfold ids. rewrite list_elem_of_fmap. naive_solver. Qed.

Lemma some_id_spec i l : some_id i l = true ↔ i ∈ ids l.
Proof.
  unfold some_id. rewrite existsb_exists, elem_of_ids.
  setoid_rewrite bool_decide_eq_true. setoid_rewrite <- list_elem_of_In. done.
Qed.

Lemma some_id_false i l : some_id i l = false ↔ i ∉ ids l.
Proof. rewrite <- some_id_spec. by destruct (some_id i l). Qed.

Lemma find_id_Some i l a : find_id i l = Some a → a ∈ l ∧ ident a = i.
Proof.
  unfold find_id. rewrite fmap_Some. intros [[k b] [Hf ->]]. simpl.
  apply list_find_Some in Hf as (Hb & Hi & _). split; [|done].
  by eapply list_elem_of_lookup_2.
Qed.

Lemma find_id_None i l : find_id i l = None ↔ i ∉ ids l.
Proof.
  unfold find_id. rewrite fmap_None, list_find_None, Forall_forall, elem_of_ids.
  split; [intros Hn [a [Ha Hi]]; by eapply Hn|naive_solver].
Qed.

Lemma find_id_is_Some i l : is_Some (find_id i l) ↔ i ∈ ids l.
Proof.
  rewrite <- not_eq_None_Some, find_id_None.
  destruct (decide (i ∈ ids l)); naive_solver.
Qed.

(** With unique ids, an element is found under its own id. *)
Lemma find_id_NoDup a l : NoDup (ids l) → a ∈ l → find_id (ident a) l = Some a.
Proof.
  intros Hnd Ha. destruct (find_id (ident a) l) as [b|] eqn:E.
  - apply find_id_Some in E as [Hb Hi]. f_equal.
    apply list_elem_of_lookup in Ha as [k1 Hk1], Hb as [k2 Hk2].
    assert (k1 = k2) as ->; [|congruence].
    eapply (NoDup_lookup (ids l)); [done| |];
      unfold ids; rewrite list_lookup_fmap; [by rewrite Hk1|by rewrite Hk2; simpl; f_equal].
  - apply find_id_None in E. destruct E. apply elem_of_ids. eauto.
Qed.

Lemma find_id_cons i a l :
  find_id i (a :: l) = if decide (ident a = i) then Some a else find_id i l.
Proof.
  unfold find_id. simpl. case_decide; [done|].
  destruct (list_find (λ b, ident b = i) l) as [[k b]|]; done.
Qed.

Lemma find_id_app i l1 l2 :
  find_id i (l1 ++ l2) = match find_id i l1 with Some a => Some a | None => find_id i l2 end.
Proof.
  induction l1 as [|b l1 IH]; simpl; [done|].
  rewrite !find_id_cons. case_decide; [done|]. apply IH.
Qed.

Lemma ids_map_id i f l : (∀ a, ident a = i → ident (f a) = ident a) → ids (map_id i f l) = ids l.
Proof.
  intros Hf. unfold ids, map_id. rewrite <- list_fmap_compose. apply list_fmap_ext.
  intros k a _. simpl. case_bool_decide; [by apply Hf|done].
Qed.

Lemma map_id_absent i f l : i ∉ ids l → map_id i f l = l.
Proof.
  intros Hi. unfold map_id. rewrite <- (list_fmap_id l) at 2. apply list_fmap_ext.
  intros k a Ha. simpl. rewrite bool_decide_false; [done|].
  intros <-. apply Hi, elem_of_ids. eauto using list_elem_of_lookup_2.
Qed.

Lemma find_id_map_id i f l a :
  (∀ a, ident (f a) = ident a) →
  find_id i l = Some a → find_id i (map_id i f l) = Some (f a).
Proof.
  intros Hf. unfold map_id. induction l as [|b l IH]; [done|]. cbn [fmap list_fmap].
  rewrite !find_id_cons. case_decide as Hb.
  - intros [= ->]. rewrite bool_decide_true by done. rewrite decide_True; [done|].
    by rewrite Hf.
  - rewrite bool_decide_false by done. rewrite decide_False by done. exact IH.
Qed.

Lemma find_id_map_id_ne i j f l :
  (∀ a, ident (f a) = ident a) → i ≠ j → find_id j (map_id i f l) = find_id j l.
Proof.
  intros Hf Hne. unfold map_id. induction l as [|b l IH]; [done|]. cbn [fmap list_fmap].
  rewrite !find_id_cons, IH. case_bool_decide as Hb; [|done].
  rewrite !decide_False; [done|congruence|rewrite Hf; congruence].
Qed.

Lemma elem_of_map_id i f l a :
  a ∈ map_id i f l ↔ (a ∈ l ∧ ident a ≠ i) ∨ ∃ b, b ∈ l ∧ ident b = i ∧ a = f b.
Proof.
  unfold map_id. rewrite list_elem_of_fmap. split.
  - intros (b & -> & Hb). case_bool_decide; eauto.
  - intros [[Ha Hne]|(b & Hb & Hi & ->)].
    + exists a. by rewrite bool_decide_false.
    + exists b. by rewrite bool_decide_true.
Qed.

Lemma elem_of_remove_ids ks a l : a ∈ remove_ids ks l ↔ a ∈ l ∧ ident a ∉ ks.
Proof. unfold remove_ids. rewrite list_elem_of_filter. naive_solver. Qed.

Lemma ids_remove_ids ks l i : i ∈ ids (remove_ids ks l) ↔ i ∈ ids l ∧ i ∉ ks.
Proof.
  rewrite !elem_of_ids. setoid_rewrite elem_of_remove_ids. naive_solver.
Qed.

Lemma NoDup_ids_filter (P : A → Prop) `{∀ a, Decision (P a)} l :
  NoDup (ids l) → NoDup (ids (filter P l)).
Proof.
  intros Hnd. unfold ids in *. eapply sublist_NoDup; [done|].
  apply fmap_sublist, sublist_filter.
Qed.

Lemma find_id_filter (P : A → Prop) `{∀ a, Decision (P a)} i l a :
  find_id i l = Some a → P a → find_id i (filter P l) = Some a.
Proof.
  induction l as [|b l IH]; [done|]. rewrite find_id_cons. case_decide as Hb.
  - intros [= ->] Hp. rewrite filter_cons_True by done. rewrite find_id_cons.
    by rewrite decide_True.
  - intros Hf Hp. rewrite filter_cons. case_decide; [|by apply IH].
    rewrite find_id_cons, decide_False by done. by apply IH.
Qed.

Lemma NoDup_ids_snoc l a : NoDup (ids l) → ident a ∉ ids l → NoDup (ids (l ++ [a])).
Proof.
  intros Hl Ha. rewrite ids_app. apply NoDup_app. split; [done|]. split.
  - intros i Hi Hi'. simpl in Hi'. apply list_elem_of_singleton in Hi'. by subst.
  - simpl. apply NoDup_singleton.
Qed.

End identified.

#[export] Hint Resolve NoDup_ids_filter NoDup_ids_snoc : grafy.

(** ** Insertion-ordered sets of strings

    A JavaScript [Set] of strings, iterated in insertion order. *)

(** [new Set(xs)] *)
Definition js_set (l : list string) : list string :=
  foldl (λ s x, if bool_decide (x ∈ s) then s else s ++ [x]) [] l.

Lemma js_set_spec l x : x ∈ js_set l ↔ x ∈ l.
Proof.
  unfold js_set. cut (∀ s, x ∈ foldl (λ s x, if bool_decide (x ∈ s) then s else s ++ [x]) s l ↔ x ∈ s ∨ x ∈ l).
  { intros Hs. rewrite Hs, elem_of_nil. naive_solver. }
  induction l as [|y l IH]; intros s; simpl; [rewrite elem_of_nil; naive_solver|].
  rewrite IH, elem_of_cons. case_bool_decide as Hy.
  - split; [naive_solver|]. intros [?|[->|?]]; auto.
  - rewrite elem_of_app, list_elem_of_singleton. naive_solver.
Qed.

Lemma js_set_NoDup l : NoDup (js_set l).
Proof.
  unfold js_set. cut (∀ s, NoDup s → NoDup (foldl (λ s x, if bool_decide (x ∈ s) then s else s ++ [x]) s l)).
  { intros Hs. apply Hs, NoDup_nil_2. }
  induction l as [|y l IH]; intros s Hs; simpl; [done|].
  apply IH. case_bool_decide as Hy; [done|].
  apply NoDup_app. split; [done|]. split; [|apply NoDup_singleton].
  intros z Hz Hz'. apply list_elem_of_singleton in Hz'. by subst.
Qed.

Lemma js_set_snoc l x : js_set (l ++ [x]) = if bool_decide (x ∈ l) then js_set l else js_set l ++ [x].
Proof.
  assert (bool_decide (x ∈ js_set l) = bool_decide (x ∈ l)) as Heq.
  { apply bool_decide_ext, js_set_spec. }
  rewrite <- Heq. unfold js_set. by rewrite foldl_app.
Qed.
