(* ===== verification/Worklist.v ===== *)
(** * Worklist closures

    The workbench computes sets of nodes by the same loop in several places
    ([executionDescendants] in [model/graph-document.ts],
    [selectedNodeAndAncestorIds] in [model/execution-plan.ts],
    [nodeAndDescendantIds] in [model/graph-authoring.ts]): a queue of pending
    ids, a set of ids already reached, and one scan of the edge list per id
    taken off the queue.  This file holds the loop once, with the edge test as
    a parameter, and proves that with enough fuel it returns exactly the
    reachable ids.  *)

From S2P Require Import Prelude.

Section worklist.
Context {K E : Type} `{EqDecision K}.

(** [skip src]: the loop body starts with a [continue] for this id. *)
Variable skip : K → bool.
(** [target src e]: the id edge [e] leads to from [src], [None] when the loop
    passes the edge over for a reason other than its end being reached already. *)
Variable target : K → E → option K.
Variable edges : list E.

(** The inner [for (const edge of edges)]: every new end is added to the set and
    pushed on the queue. *)
Fixpoint scan (src : K) (es : list E) (seen pending : list K) : list K * list K :=
  match es with
  | [] => (seen, pending)
  | e :: es' =>
      match target src e with
      | None => scan src es' seen pending
      | Some k =>
          if bool_decide (k ∈ seen) then scan src es' seen pending
          else scan src es' (seen ++ [k]) (pending ++ [k])
      end
  end.

(** [while (pending.length)] with [pending.shift()]; [None] is out of fuel. *)
Fixpoint drain (fuel : nat) (seen pending : list K) : option (list K) :=
  match pending with
  | [] => Some seen
  | src :: rest =>
      match fuel with
      | O => None
      | S fuel' =>
          if skip src then drain fuel' seen rest
          else let '(seen', pending') := scan src edges seen rest in
               drain fuel' seen' pending'
      end
  end.

(** One step of the graph the loop walks. *)
Definition wl_step (x y : K) : Prop :=
  skip x = false ∧ ∃ e, e ∈ edges ∧ target x e = Some y.

(** The ids a scan can add. *)
Definition wl_ends (src : K) (es : list E) : list K := omap (target src) es.

Lemma scan_spec src es seen pending :
  ∃ new, scan src es seen pending = (seen ++ new, pending ++ new)
       ∧ (NoDup seen → NoDup (seen ++ new))
       ∧ (∀ k, k ∈ new → k ∈ wl_ends src es)
       ∧ (∀ k, k ∈ wl_ends src es → k ∈ seen ++ new).
Proof.
  revert seen pending. induction es as [|e es IH]; intros seen pending; simpl.
  { exists []. rewrite !app_nil_r. split_and!; try done; intros k Hk; by apply elem_of_nil in Hk. }
  unfold wl_ends. simpl. destruct (target src e) as [k0|] eqn:He; [|apply IH].
  case_bool_decide as Hk0.
  - destruct (IH seen pending) as (new & -> & Hnd & Hin & Hall).
    exists new. split_and!; [done|done| |].
    + intros k Hk. right. by apply Hin.
    + intros k [->|Hk]%elem_of_cons; [|by apply Hall]. apply elem_of_app. by left.
  - destruct (IH (seen ++ [k0]) (pending ++ [k0])) as (new & -> & Hnd & Hin & Hall).
    exists (k0 :: new). rewrite <- !(assoc_L (++)) in *. simpl in *.
    split_and!; [done| | |].
    + intros Hs. apply Hnd. apply NoDup_app. split; [done|]. split; [|apply NoDup_singleton].
      intros z Hz Hz'%list_elem_of_singleton. by subst.
    + intros k [->|Hk]%elem_of_cons; [by left|right; by apply Hin].
    + intros k [->|Hk]%elem_of_cons; [|by apply Hall].
      apply elem_of_app. right. by left.
Qed.

(** The loop invariant: the set is duplicate-free, holds the queue, only holds
    ids reachable from [R], and every id of it that left the queue has all its
    ends in it. *)
Record wl_inv (R seen pending : list K) : Prop := {
  wl_nodup : NoDup seen;
  wl_pending : ∀ k, k ∈ pending → k ∈ seen;
  wl_reach : ∀ k, k ∈ seen → ∃ r, r ∈ R ∧ rtc wl_step r k;
  wl_roots : ∀ k, k ∈ R → k ∈ seen;
  wl_closed : ∀ x y, x ∈ seen → x ∉ pending → wl_step x y → y ∈ seen
}.

Lemma wl_inv_init R : NoDup R → wl_inv R R R.
Proof. intros HR. split; naive_solver eauto using rtc_refl. Qed.

Lemma wl_inv_skip R seen src rest :
  wl_inv R seen (src :: rest) → skip src = true → wl_inv R seen rest.
Proof.
  intros [Hnd Hp Hr Hro Hc] Hs. split; auto; [set_solver|].
  intros x y Hx Hn Hxy. destruct (decide (x = src)) as [->|Hne].
  - destruct Hxy as [? _]. congruence.
  - eapply Hc; [done| |done]. set_solver.
Qed.

Lemma wl_inv_scan R seen src rest :
  wl_inv R seen (src :: rest) → skip src = false →
  let '(seen', pending') := scan src edges seen rest in wl_inv R seen' pending'.
Proof.
  intros [Hnd Hp Hr Hro Hc] Hs.
  destruct (scan_spec src edges seen rest) as (new & -> & Hn & Hin & Hall).
  assert (∀ k, k ∈ new → wl_step src k) as Hnew.
  { intros k Hk. split; [done|]. apply Hin, list_elem_of_omap in Hk as (e & He & Ht). eauto. }
  split.
  - by apply Hn.
  - intros k. rewrite !elem_of_app. intros [Hk|Hk]; [left; apply Hp; by right|by right].
  - intros k [Hk|Hk]%elem_of_app; [by apply Hr|].
    destruct (Hr src ltac:(apply Hp; by left)) as (r & HrR & Hrr).
    exists r. split; [done|]. eapply rtc_r; eauto.
  - intros k Hk. apply elem_of_app. left. by apply Hro.
  - intros x y Hx Hnp Hxy. apply not_elem_of_app in Hnp as [Hnp1 Hnp2].
    apply elem_of_app in Hx as [Hx|Hx]; [|done].
    destruct (decide (x = src)) as [->|Hne].
    + apply Hall. destruct Hxy as (_ & e & He & Ht). apply list_elem_of_omap. eauto.
    + apply elem_of_app. left. eapply Hc; [done| |done]. set_solver.
Qed.

(** Partial correctness: what the loop returns is the closure of the roots. *)
Lemma drain_inv R fuel seen pending r :
  wl_inv R seen pending → drain fuel seen pending = Some r → wl_inv R r [].
Proof.
  revert seen pending. induction fuel as [|fuel IH]; intros seen pending Hinv; simpl.
  - destruct pending; [|done]. by intros [= <-].
  - destruct pending as [|src rest]; [by intros [= <-]|].
    destruct (skip src) eqn:Hs.
    + apply IH. eapply wl_inv_skip; eauto.
    + pose proof (wl_inv_scan R seen src rest Hinv Hs) as Hscan.
      destruct (scan src edges seen rest) as [s' p']. by apply IH.
Qed.

Lemma wl_inv_closed_spec R r :
  wl_inv R r [] → ∀ k, k ∈ r ↔ ∃ x, x ∈ R ∧ rtc wl_step x k.
Proof.
  intros [_ _ Hr Hro Hc] k. split; [apply Hr|].
  intros (x & Hx & Hxk). apply Hro in Hx. clear Hro Hr.
  induction Hxk as [|x y z Hxy _ IH]; [done|].
  apply IH. eapply Hc; [done| |done]. by apply not_elem_of_nil.
Qed.

(** Termination: an id enters the queue at most once, and only ids of [U] do. *)
Lemma drain_enough (U : list K) fuel seen pending :
  NoDup seen → (∀ k, k ∈ seen → k ∈ U) →
  (∀ src e k, e ∈ edges → target src e = Some k → k ∈ U) →
  length pending + (length U - length seen) ≤ fuel →
  ∃ r, drain fuel seen pending = Some r.
Proof.
  intros Hnd HU Hends. revert seen pending Hnd HU.
  induction fuel as [|fuel IH]; intros seen pending Hnd HU Hf; simpl.
  - destruct pending; [eauto|simpl in Hf; lia].
  - destruct pending as [|src rest]; [eauto|]. simpl in Hf.
    destruct (skip src); [apply IH; auto; lia|].
    destruct (scan_spec src edges seen rest) as (new & -> & Hn & Hin & _).
    assert (∀ k, k ∈ seen ++ new → k ∈ U) as HU'.
    { intros k [Hk|Hk]%elem_of_app; [auto|].
      apply Hin, list_elem_of_omap in Hk as (e & He & Ht). eauto. }
    apply IH; [by apply Hn|done|].
    assert (length (seen ++ new) ≤ length U) as Hlen.
    { apply submseteq_length, NoDup_submseteq; [by apply Hn|done]. }
    rewrite !length_app in *. lia.
Qed.

(** The loop from [init], with one round per id it can reach: it stops by itself
    and returns what is reachable, each id once. *)
Lemma drain_exact (U init : list K) :
  NoDup init → (∀ k, k ∈ init → k ∈ U) →
  (∀ src e k, e ∈ edges → target src e = Some k → k ∈ U) →
  ∃ r, drain (length U) init init = Some r ∧ NoDup r ∧ ∀ k, k ∈ r ↔ ∃ x, x ∈ init ∧ rtc wl_step x k.
Proof.
  intros Hnd Hin Ht. assert (length init ≤ length U) as Hlen by by apply submseteq_length, NoDup_submseteq.
  destruct (drain_enough U (length U) init init) as [r Hr]; [done..|lia|].
  exists r. split; [done|]. assert (wl_inv init r []) as Hinv by (eapply drain_inv; [by apply wl_inv_init|exact Hr]).
  split; [apply Hinv|]. by apply wl_inv_closed_spec.
Qed.
End worklist.

Arguments wl_step {K E} skip target edges x y.
