(* ===== verification/Js.v ===== *)
(** * JavaScript values

    The part of the language the modelled code observes: numbers, strings, the
    values [JSON.parse] produces, the nullish values, object property reads
    and spreads.

    Numbers are the finite rationals (every finite double is one), the two
    infinities and NaN; the sign of zero is not observed by the code.  Strings
    are sequences of 8-bit characters, standing for the code units below 256.
    Objects are association lists in insertion order. *)

From S2P Require Import Prelude.
From stdpp Require Import numbers.
From Stdlib Require Export QArith.QArith_base QArith.Qreduction QArith.Qcanon.
From Stdlib Require Import QArith.Qround.
#[global] Open Scope string_scope.
#[global] Open Scope list_scope.
#[global] Open Scope nat_scope.

(** ** Numbers *)

Inductive jsnum : Type :=
| NFin (q : Qc)
| NInf (negative : bool)
| NNaN.

#[export] Instance jsnum_eq_dec : EqDecision jsnum.
Proof. solve_decision. Defined.

Definition num (z : Z) : jsnum := NFin (Q2Qc (inject_Z z)).

(** [Number.isFinite] on a number. *)
Definition num_isFinite (n : jsnum) : bool :=
  match n with NFin _ => true | _ => false end.

(** [Number.isInteger] on a number: the integer it is, when it is one. *)
Definition num_integer (n : jsnum) : option Z :=
  match n with
  | NFin q => if bool_decide (Qden (this q) = 1%positive) then Some (Qnum (this q)) else None
  | _ => None
  end.

(** [Array.prototype.splice]'s reading of [Math.max(0, Math.min(i, len))]: the
    clamped index, truncated; NaN counts as 0. *)
Definition clampIndex (i : jsnum) (len : nat) : nat :=
  match i with
  | NFin q => Z.to_nat (Z.max 0 (Z.min (Qfloor (this q)) (Z.of_nat len)))
  | NInf true => 0
  | NInf false => len
  | NNaN => 0
  end.

(** ** Values *)

Inductive jsval : Type :=
| JUndefined
| JNull
| JBool (b : bool)
| JNum (n : jsnum)
| JStr (s : string)
| JArr (l : list jsval)
| JObj (o : list (string * jsval)).

(** An object used as a string-keyed record ([Record<string, unknown>]). *)
Notation jsobj := (list (string * jsval)).

(** [o[k]] on a plain object: [undefined] when the key is absent. *)
Fixpoint obj_get (k : string) (o : jsobj) : jsval :=
  match o with
  | [] => JUndefined
  | (k', v) :: o' => if bool_decide (k' = k) then v else obj_get k o'
  end.

(** [k in o] *)
Definition obj_has (k : string) (o : jsobj) : bool :=
  existsb (λ kv, bool_decide (kv.1 = k)) o.

(** [{...o, [k]: v}]: an existing key keeps its place. *)
Fixpoint obj_set (k : string) (v : jsval) (o : jsobj) : jsobj :=
  match o with
  | [] => [(k, v)]
  | (k', v') :: o' => if bool_decide (k' = k) then (k, v) :: o' else (k', v') :: obj_set k v o'
  end.

(** [v.k] on a value of object type.  Arrays are objects without any of the
    properties the code reads. *)
Definition js_get (k : string) (v : jsval) : jsval :=
  match v with JObj o => obj_get k o | _ => JUndefined end.

(** [k in v] on a value of object type. *)
Definition js_in (k : string) (v : jsval) : bool :=
  match v with JObj o => obj_has k o | _ => false end.

(** [v === null || v === undefined] *)
Definition is_nullish (v : jsval) : bool :=
  match v with JUndefined | JNull => true | _ => false end.

(** [v ?? d] *)
Definition coalesce (v d : jsval) : jsval := if is_nullish v then d else v.

(** [structuredClone] of JSON-like data: the same value, as a fresh object.  The
    model has no object identity, so nothing is left to copy. *)
Definition structuredClone {A} (a : A) : A := a.

(** ** Optional fields: [T | null | undefined] *)

Inductive jsopt (A : Type) : Type :=
| Undef
| Null
| Val (a : A).
Arguments Undef {A}.
Arguments Null {A}.
Arguments Val {A} _.

#[export] Instance jsopt_eq_dec `{EqDecision A} : EqDecision (jsopt A).
Proof. solve_decision. Defined.

(** [o ?? d] *)
Definition jsopt_or {A} (o : jsopt A) (d : A) : A :=
  match o with Val a => a | _ => d end.

(** [o === null || o === undefined ? null : f(o)], and [o ?? null] for [f] the
    identity. *)
Definition or_null {A B} (f : A → B) (o : jsopt A) : jsopt B :=
  match o with Val a => Val (f a) | _ => Null end.

(** [o === null || o === undefined ? undefined : f(o)] *)
Definition or_undefined {A B} (f : A → B) (o : jsopt A) : jsopt B :=
  match o with Val a => Val (f a) | _ => Undef end.

Definition jsopt_to_option {A} (o : jsopt A) : option A :=
  match o with Val a => Some a | _ => None end.

(** ** Strings *)

(** The characters below 256 that [String.prototype.trim] strips. *)
Definition is_space (c : Ascii.ascii) : bool :=
  let n := Ascii.nat_of_ascii c in
  (9 <=? n) && (n <=? 13) || (n =? 32) || (n =? 160).

Fixpoint drop_spaces (l : list Ascii.ascii) : list Ascii.ascii :=
  match l with
  | [] => []
  | c :: l' => if is_space c then drop_spaces l' else l
  end.

(** [s.trim()] *)
Definition trim (s : string) : string :=
  String.string_of_list_ascii
    (reverse (drop_spaces (reverse (drop_spaces (String.list_ascii_of_string s))))).

(** [xs.join(sep)] *)
Fixpoint join (sep : string) (l : list string) : string :=
  match l with
  | [] => ""
  | [s] => s
  | s :: l' => s +:+ sep +:+ join sep l'
  end.

(** ** Lemmas *)

Lemma num_integer_num z : num_integer (num z) = Some z.
Proof.
  unfold num, num_integer, Q2Qc. simpl. unfold Qred, inject_Z. simpl.
  pose proof (Z.ggcd_gcd z 1) as Hg. pose proof (Z.ggcd_correct_divisors z 1) as Hd.
  destruct (Z.ggcd z 1) as [g [a b]]. simpl in *.
  rewrite Z.gcd_1_r in Hg. subst g. destruct Hd as [Ha Hb].
  assert (b = 1%Z) as -> by lia. simpl. f_equal. lia.
Qed.

Lemma clampIndex_le i len : clampIndex i len ≤ len.
Proof. destruct i as [q|[]|]; simpl; lia. Qed.

Lemma clampIndex_num z len : (0 ≤ z ≤ Z.of_nat len)%Z → clampIndex (num z) len = Z.to_nat z.
Proof.
  intros Hz. unfold num, clampIndex. f_equal.
  assert (Qfloor (this (Q2Qc (inject_Z z))) = z) as ->; [|lia].
  rewrite (Qfloor_comp _ (inject_Z z)); [apply Qfloor_Z|]. simpl. apply Qred_correct.
Qed.

Lemma obj_get_set k k' v o :
  obj_get k' (obj_set k v o) = if bool_decide (k = k') then v else obj_get k' o.
Proof.
  induction o as [|[k0 v0] o IH]; simpl; [done|].
  repeat (case_bool_decide; simpl); naive_solver.
Qed.

Lemma or_null_idem {A} (f : A → A) (o : jsopt A) :
  (∀ a, f (f a) = f a) → or_null f (or_null f o) = or_null f o.
Proof. intros Hf. destruct o; simpl; [done..|]. by rewrite Hf. Qed.

Lemma or_undefined_idem {A} (f : A → A) (o : jsopt A) :
  (∀ a, f (f a) = f a) → or_undefined f (or_undefined f o) = or_undefined f o.
Proof. intros Hf. destruct o; simpl; [done..|]. by rewrite Hf. Qed.

Lemma drop_spaces_idem l : drop_spaces (drop_spaces l) = drop_spaces l.
Proof. induction l as [|c l IH]; simpl; [done|]. destruct (is_space c) eqn:Hc; [done|]. simpl. by rewrite Hc. Qed.

Lemma drop_spaces_split l : ∃ p, l = p ++ drop_spaces l.
Proof.
  induction l as [|c l [p IH]]; simpl; [by exists []|].
  destruct (is_space c); [exists (c :: p); simpl; by f_equal|by exists []].
Qed.

(** Stripping the end keeps a list that starts with no space that way. *)
Lemma drop_spaces_end l :
  drop_spaces l = l → drop_spaces (reverse (drop_spaces (reverse l))) = reverse (drop_spaces (reverse l)).
Proof.
  intros Hl. destruct (drop_spaces_split (reverse l)) as [p Hp].
  set (m := drop_spaces (reverse l)) in *.
  assert (l = reverse m ++ reverse p) as Hl'.
  { rewrite <- reverse_app, <- Hp. by rewrite reverse_involutive. }
  destruct (reverse m) as [|c r]; [done|]. rewrite Hl' in Hl. simpl in *.
  destruct (is_space c) eqn:Hc; [|done].
  exfalso. apply (f_equal length) in Hl. simpl in Hl.
  destruct (drop_spaces_split (r ++ reverse p)) as [p' Hp'].
  apply (f_equal length) in Hp'. rewrite (length_app p') in Hp'. lia.
Qed.

Lemma trim_idem s : trim (trim s) = trim s.
Proof.
  unfold trim. f_equal. rewrite String.list_ascii_of_string_of_list_ascii.
  rewrite (drop_spaces_end (drop_spaces (String.list_ascii_of_string s))) by apply drop_spaces_idem.
  by rewrite reverse_involutive, drop_spaces_idem.
Qed.
