(* ===== verification/JsNum.v ===== *)
(** * Comparison of numbers

    The relational operators and [Math.min] and [Math.max] on the numbers of
    [Js]: every comparison with NaN is false, every minimum with it is NaN. *)

From S2P Require Import Prelude Js.
From stdpp Require Import numbers list.
From Stdlib Require Import QArith.Qround.

(** The order of two numbers; [None] when one is NaN. *)
Definition num_compare (a b : jsnum) : option comparison :=
  match a, b with
  | NNaN, _ | _, NNaN => None
  | NFin p, NFin q => Some (Qcompare (this p) (this q))
  | NInf true, NInf true | NInf false, NInf false => Some Eq
  | NInf true, _ | NFin _, NInf false => Some Lt
  | NInf false, _ | NFin _, NInf true => Some Gt
  end.

(** [a < b], [a <= b], [a > b], [a >= b] *)
Definition num_ltb (a b : jsnum) : bool := match num_compare a b with Some Lt => true | _ => false end.
Definition num_leb (a b : jsnum) : bool := match num_compare a b with Some Lt | Some Eq => true | _ => false end.
Definition num_gtb (a b : jsnum) : bool := num_ltb b a.
Definition num_geb (a b : jsnum) : bool := num_leb b a.

Definition math_min (a b : jsnum) : jsnum :=
  match num_compare a b with Some Gt => b | Some _ => a | None => NNaN end.
Definition math_max (a b : jsnum) : jsnum :=
  match num_compare a b with Some Lt => b | Some _ => a | None => NNaN end.

(** ** Arithmetic, on numbers that are not rounded *)

Definition num_neg (a : jsnum) : jsnum := match a with NFin p => NFin (- p)%Qc | NInf b => NInf (negb b) | NNaN => NNaN end.

Definition num_add (a b : jsnum) : jsnum :=
  match a, b with
  | NNaN, _ | _, NNaN => NNaN
  | NFin p, NFin q => NFin (p + q)%Qc
  | NInf s, NInf t => if Bool.eqb s t then NInf s else NNaN
  | NInf s, _ | _, NInf s => NInf s
  end.

Definition num_sub (a b : jsnum) : jsnum := num_add a (num_neg b).

Definition num_mul (a b : jsnum) : jsnum :=
  match a, b with
  | NNaN, _ | _, NNaN => NNaN
  | NFin p, NFin q => NFin (p * q)%Qc
  | NInf s, NInf t => NInf (xorb s t)
  | NInf s, NFin q | NFin q, NInf s =>
      match Qcompare (this q) 0 with Eq => NNaN | Lt => NInf (negb s) | Gt => NInf s end
  end.

Definition math_abs (a : jsnum) : jsnum :=
  match a with NFin p => if Qle_bool 0 (this p) then NFin p else NFin (- p)%Qc | NInf _ => NInf false | NNaN => NNaN end.

(** [Math.round]: the nearest integer, halves upward. *)
Definition math_round (a : jsnum) : jsnum := match a with NFin p => num (Qfloor (this p + (1 # 2))) | _ => a end.

(** [Math.min(...l)] and [Math.max(...l)] *)
Definition math_mins (l : list jsnum) : jsnum := foldr math_min (NInf false) l.
Definition math_maxs (l : list jsnum) : jsnum := foldr math_max (NInf true) l.

(** [Math.ceil(Math.sqrt(n))] of a count. *)
Definition ceil_sqrt (n : nat) : Z := Z.sqrt_up (Z.of_nat n).

(** ** Lemmas *)

Lemma num_compare_refl a : a ≠ NNaN → num_compare a a = Some Eq.
Proof. destruct a as [q|[]|]; try done. intros _. cbn. f_equal. by apply Qeq_alt. Qed.

Lemma num_compare_Eq a b : num_compare a b = Some Eq → a = b.
Proof.
  destruct a as [p|[]|], b as [q|[]|]; cbn; try done. intros [= H%Qeq_alt]. f_equal. by apply Qc_is_canon.
Qed.

Lemma num_compare_antisym a b : num_compare b a = CompOpp <$> num_compare a b.
Proof. destruct a as [p|[]|], b as [q|[]|]; cbn; try done. f_equal. symmetry. apply Qcompare_antisym. Qed.

Lemma num_leb_trans a b c : num_leb a b = true → num_leb b c = true → num_leb a c = true.
Proof.
  assert (∀ p q : Qc, (match Qcompare (this p) (this q) with Lt | Eq => true | Gt => false end) = true ↔ (this p <= this q)%Q) as Hle.
  { intros p q. rewrite Qle_alt. destruct (Qcompare _ _); naive_solver. }
  unfold num_leb. destruct a as [p|[]|], b as [q|[]|], c as [r|[]|]; cbn; try done.
  intros H1 H2. pose proof (Hle p q) as Hpq. pose proof (Hle q r) as Hqr. pose proof (Hle p r) as Hpr.
  destruct (Qcompare (this p) (this q)), (Qcompare (this q) (this r)); try done;
    destruct (Qcompare (this p) (this r)); try done; exfalso;
    assert (this p <= this r)%Q as Hx by (eapply Qle_trans; [by apply Hpq|by apply Hqr]); by apply Hpr in Hx.
Qed.

Lemma num_leb_refl a : a ≠ NNaN → num_leb a a = true.
Proof. intros Ha. unfold num_leb. by rewrite num_compare_refl. Qed.

Lemma num_leb_total a b : a ≠ NNaN → b ≠ NNaN → num_leb a b = false → num_leb b a = true.
Proof.
  intros Ha Hb. unfold num_leb. rewrite (num_compare_antisym a b).
  destruct a as [p|[]|], b as [q|[]|]; cbn; try done. by destruct (Qcompare _ _).
Qed.

Lemma num_leb_antisym a b : num_leb a b = true → num_leb b a = true → a = b.
Proof.
  unfold num_leb. rewrite (num_compare_antisym a b). destruct (num_compare a b) as [[]|] eqn:H; cbn; try done.
  intros _ _. by apply num_compare_Eq.
Qed.

Lemma math_max_cases a b : a ≠ NNaN → b ≠ NNaN → (math_max a b = a ∧ num_leb b a = true) ∨ (math_max a b = b ∧ num_leb a b = true).
Proof.
  intros Ha Hb. unfold math_max, num_leb. rewrite (num_compare_antisym a b).
  destruct (num_compare a b) as [[]|] eqn:H; cbn; auto. by destruct a as [|[]|], b as [|[]|].
Qed.

Lemma math_min_cases a b : a ≠ NNaN → b ≠ NNaN → (math_min a b = a ∧ num_leb a b = true) ∨ (math_min a b = b ∧ num_leb b a = true).
Proof.
  intros Ha Hb. unfold math_min, num_leb. rewrite (num_compare_antisym a b).
  destruct (num_compare a b) as [[]|] eqn:H; cbn; auto. by destruct a as [|[]|], b as [|[]|].
Qed.

Lemma math_mins_finite l : l ≠ [] → Forall (λ n, num_isFinite n = true) l → num_isFinite (math_mins l) = true.
Proof.
  intros Hl Hf. unfold math_mins. induction Hf as [|n l Hn Hf IH]; [done|]. cbn. destruct l as [|m l].
  - by destruct n as [|[]|].
  - specialize (IH ltac:(done)). set (r := foldr _ _ _) in *. clearbody r. destruct n as [|[]|], r as [|[]|]; try done. cbn. by destruct (Qcompare _ _).
Qed.

Lemma math_maxs_finite l : l ≠ [] → Forall (λ n, num_isFinite n = true) l → num_isFinite (math_maxs l) = true.
Proof.
  intros Hl Hf. unfold math_maxs. induction Hf as [|n l Hn Hf IH]; [done|]. cbn. destruct l as [|m l].
  - by destruct n as [|[]|].
  - specialize (IH ltac:(done)). set (r := foldr _ _ _) in *. clearbody r. destruct n as [|[]|], r as [|[]|]; try done. cbn. by destruct (Qcompare _ _).
Qed.

Lemma math_maxs_le l n : Forall (λ n, num_isFinite n = true) l → n ∈ l → num_leb n (math_maxs l) = true.
Proof.
  intros Hf. induction Hf as [|m l Hm Hf IH]; [by intros ?%not_elem_of_nil|]. intros Hn. cbn.
  assert (math_maxs l ≠ NNaN) as Hr.
  { clear -Hf. destruct l as [|x l]; [done|]. pose proof (math_maxs_finite (x :: l) ltac:(done) Hf) as H. intros E; by rewrite E in H. }
  assert (m ≠ NNaN) as Hm' by by intros ->. fold (math_maxs l).
  apply elem_of_cons in Hn as [->|Hn]; destruct (math_max_cases m (math_maxs l) Hm' Hr) as [[-> H]|[-> H]]; try done.
  - by apply num_leb_refl.
  - eapply num_leb_trans; [by apply IH|done].
  - by apply IH.
Qed.

Lemma ceil_sqrt_pos n : n ≠ 0 → (0 < ceil_sqrt n)%Z.
Proof. intros Hn. apply Z.sqrt_up_pos. lia. Qed.
