(* ===== verification/JsText.v ===== *)
(** * Texts of identifiers and numbers

    The parts of [String.prototype], [Number] and the URI functions that the
    workbench uses to build and read composed identifiers: [split], [join],
    [lastIndexOf], [encodeURIComponent], [decodeURIComponent], [Number(text)]
    and the text of an integer.  Strings are as in [Js]: code units below 256. *)

From Stdlib Require Import Strings.Ascii.
From S2P Require Import Prelude Js.
From stdpp Require Import numbers pretty.

(** ** Operations *)

Definition chr (c : Ascii.ascii) : string := String.String c "".

(** The code of a character. *)
Definition code (c : Ascii.ascii) : nat := Ascii.nat_of_ascii c.
Definition of_code (n : nat) : Ascii.ascii := Ascii.ascii_of_nat n.

(** [s.slice(n)] for [n] from 0. *)
Fixpoint slice_from (n : nat) (s : string) : string :=
  match n, s with
  | S n', String.String _ s' => slice_from n' s'
  | _, _ => s
  end.

(** [s.split(sep)] for a separator that is not empty: occurrences are found from
    the left and do not overlap.  [skip] counts the characters of a separator
    that is being passed; the result is the piece at hand and those after it. *)
Fixpoint split_go (sep : string) (skip : nat) (s : string) : string * list string :=
  match s with
  | EmptyString => ("", [])
  | String.String c s' =>
      match skip with
      | S k => split_go sep k s'
      | O =>
          if String.prefix sep s then
            let '(p, ps) := split_go sep (String.length sep - 1) s' in ("", p :: ps)
          else let '(p, ps) := split_go sep 0 s' in (String.String c p, ps)
      end
  end.

Definition splitOn (sep s : string) : list string :=
  let '(p, ps) := split_go sep 0 s in p :: ps.

(** The text before and after the last occurrence of a character
    ([s.lastIndexOf(c)], then the two slices). *)
Fixpoint split_last (c : Ascii.ascii) (s : string) : option (string * string) :=
  match s with
  | EmptyString => None
  | String.String a s' =>
      match split_last c s' with
      | Some (x, y) => Some (String.String a x, y)
      | None => if bool_decide (a = c) then Some ("", s') else None
      end
  end.

(** [s.replaceAll(a, b)] *)
Definition replaceAll (a b s : string) : string := Js.join b (splitOn a s).

(** [toLowerCase] below 256: the letters A to Z and those of Latin-1. *)
Definition lower_char (c : Ascii.ascii) : Ascii.ascii :=
  let n := code c in
  if ((65 <=? n) && (n <=? 90)) || ((192 <=? n) && (n <=? 222) && negb (n =? 215)) then of_code (n + 32) else c.

Fixpoint toLowerCase (s : string) : string :=
  match s with EmptyString => "" | String.String c s' => String.String (lower_char c) (toLowerCase s') end.

(** Some suffix of the string has the property. *)
Fixpoint some_suffix (f : string → bool) (s : string) : bool :=
  f s || match s with EmptyString => false | String.String _ s' => some_suffix f s' end.

(** [s.includes(t)], [s.endsWith(t)] *)
Definition includes (t s : string) : bool := some_suffix (String.prefix t) s.
Definition endsWith (t s : string) : bool := some_suffix (λ r, bool_decide (r = t)) s.

(** *** URI components *)

Definition is_digit (c : Ascii.ascii) : bool := (48 <=? code c) && (code c <=? 57).

(** The characters [encodeURIComponent] leaves alone: letters, digits and
    [- _ . ! ~ * ' ( )]. *)
Definition unreserved (c : Ascii.ascii) : bool :=
  let n := code c in
  is_digit c || ((65 <=? n) && (n <=? 90)) || ((97 <=? n) && (n <=? 122)) ||
  bool_decide (n ∈ [45; 95; 46; 33; 126; 42; 39; 40; 41]).

Definition hex_char (n : nat) : Ascii.ascii := of_code (if n <? 10 then 48 + n else 55 + n).

Definition hex_value (c : Ascii.ascii) : option nat :=
  let n := code c in
  if is_digit c then Some (n - 48)
  else if (65 <=? n) && (n <=? 70) then Some (n - 55)
  else if (97 <=? n) && (n <=? 102) then Some (n - 87)
  else None.

Definition percent (n : nat) : string :=
  "%" +:+ chr (hex_char (n / 16)) +:+ chr (hex_char (n mod 16)).

(** One code unit: itself, or its UTF-8 octets, each as [%XX]. *)
Definition encode_char (c : Ascii.ascii) : string :=
  if unreserved c then chr c
  else if code c <? 128 then percent (code c)
  else percent (192 + code c / 64) +:+ percent (128 + code c mod 64).

Fixpoint encodeURIComponent (s : string) : string :=
  match s with
  | EmptyString => ""
  | String.String c s' => encode_char c +:+ encodeURIComponent s'
  end.

Definition hex_pair (h l : Ascii.ascii) : option nat :=
  a ← hex_value h; b ← hex_value l; Some (16 * a + b).

(** [None] is a [URIError]; it also stands for octets that decode to a code point
    from 256 on, which the strings here do not have. *)
Fixpoint decodeURIComponent (s : string) : option string :=
  match s with
  | EmptyString => Some ""
  | String.String c s1 =>
      if bool_decide (c = "%"%char) then
        match s1 with
        | String.String h (String.String l s2) =>
            match hex_pair h l with
            | None => None
            | Some b =>
                if b <? 128 then String.String (of_code b) <$> decodeURIComponent s2
                else if (b =? 194) || (b =? 195) then
                  match s2 with
                  | String.String p (String.String h' (String.String l' s3)) =>
                      if bool_decide (p = "%"%char) then
                        match hex_pair h' l' with
                        | None => None
                        | Some b' =>
                            if (128 <=? b') && (b' <? 192)
                            then String.String (of_code ((b - 192) * 64 + (b' - 128))) <$> decodeURIComponent s3
                            else None
                        end
                      else None
                  | _ => None
                  end
                else None
            end
        | _ => None
        end
      else String.String c <$> decodeURIComponent s1
  end.

(** *** Numbers *)

(** The text of an integer below [10^21]. *)
Definition intText (z : Z) : string := pretty z.

(** The integer nearest to [n / d], ties to even. *)
Definition roundQuot (n d : Z) : Z :=
  let q := (n / d)%Z in
  match Z.compare (2 * (n mod d)) d with
  | Lt => q
  | Gt => (q + 1)%Z
  | Eq => if Z.even q then q else (q + 1)%Z
  end.

(** [m * 2 ^ k] *)
Definition scaled (m k : Z) : jsnum :=
  if (0 <=? k)%Z then num (m * 2 ^ k) else NFin (Q2Qc (m # Z.to_pos (2 ^ (- k)))).

(** The double nearest to [n / d], for [0 <= n] and [0 < d]: 53 bits of mantissa,
    the least exponent -1074, overflow to infinity. *)
Definition toDouble (n d : Z) : jsnum :=
  if (n =? 0)%Z then num 0
  else
    let e0 := (Z.log2 n - Z.log2 d)%Z in
    let e := if (d * 2 ^ Z.max 0 e0 <=? n * 2 ^ Z.max 0 (- e0))%Z then e0 else (e0 - 1)%Z in
    let k := Z.max (e - 52) (-1074) in
    let m := if (0 <=? k)%Z then roundQuot n (d * 2 ^ k) else roundQuot (n * 2 ^ (- k)) d in
    if (2 ^ 1024 <=? m * 2 ^ Z.max 0 k)%Z then NInf false else scaled m k.

Definition negate (n : jsnum) : jsnum :=
  match n with
  | NFin q => NFin (- q)%Qc
  | NInf b => NInf (negb b)
  | NNaN => NNaN
  end.

(** Decimal digits from the front: their value after [acc], their number, the rest. *)
Fixpoint take_digits (acc : Z) (l : list Ascii.ascii) : Z * nat * list Ascii.ascii :=
  match l with
  | c :: l' =>
      if is_digit c then
        let '(v, n, r) := take_digits (10 * acc + (Z.of_nat (code c) - 48)) l' in (v, S n, r)
      else (acc, 0, l)
  | [] => (acc, 0, [])
  end.

(** An optional exponent up to the end of the text. *)
Definition exponent (l : list Ascii.ascii) : option Z :=
  match l with
  | [] => Some 0%Z
  | c :: l1 =>
      if bool_decide (c = "e"%char ∨ c = "E"%char) then
        let '(negative, l2) :=
          match l1 with
          | s :: l2 => if bool_decide (s = "-"%char) then (true, l2)
                       else if bool_decide (s = "+"%char) then (false, l2) else (false, l1)
          | [] => (false, l1)
          end in
        match take_digits 0 l2 with
        | (v, S _, []) => Some (if negative then (- v)%Z else v)
        | _ => None
        end
      else None
  end.

(** An unsigned decimal literal: the mantissa without its point, scaled. *)
Definition decimal (l : list Ascii.ascii) : jsnum :=
  let '(i, ni, r) := take_digits 0 l in
  let '(m, nf, r') :=
    match r with
    | c :: r1 => if bool_decide (c = "."%char) then take_digits i r1 else (i, 0, r)
    | [] => (i, 0, r)
    end in
  match ni + nf, exponent r' with
  | S _, Some e =>
      let x := (e - Z.of_nat nf)%Z in
      toDouble (m * 10 ^ Z.max 0 x) (10 ^ Z.max 0 (- x))
  | _, _ => NNaN
  end.

Definition infinity_text : list Ascii.ascii := String.list_ascii_of_string "Infinity".

Definition unsigned_number (l : list Ascii.ascii) : jsnum :=
  if bool_decide (l = infinity_text) then NInf false else decimal l.

(** Digits of a base up to the end of the text, at least one. *)
Definition in_base (base : Z) (l : list Ascii.ascii) : jsnum :=
  match l with
  | [] => NNaN
  | _ =>
      match foldl (λ acc c, v ← acc; x ← hex_value c;
                     if (Z.of_nat x <? base)%Z then Some (base * v + Z.of_nat x)%Z else None) (Some 0%Z) l with
      | Some v => toDouble v 1
      | None => NNaN
      end
  end.

(** [Number(s)] *)
Definition Number (s : string) : jsnum :=
  match String.list_ascii_of_string (trim s) with
  | [] => num 0
  | (c :: l) as all =>
      if bool_decide (c = "-"%char) then negate (unsigned_number l)
      else if bool_decide (c = "+"%char) then unsigned_number l
      else
        match all with
        | z :: b :: l' =>
            if bool_decide (z = "0"%char ∧ (b = "x"%char ∨ b = "X"%char)) then in_base 16 l'
            else if bool_decide (z = "0"%char ∧ (b = "o"%char ∨ b = "O"%char)) then in_base 8 l'
            else if bool_decide (z = "0"%char ∧ (b = "b"%char ∨ b = "B"%char)) then in_base 2 l'
            else unsigned_number all
        | _ => unsigned_number all
        end
  end.

(** ** Separators *)

(** The character does not occur in the string. *)
Fixpoint lacks (c : Ascii.ascii) (s : string) : Prop :=
  match s with
  | EmptyString => True
  | String.String c' s' => c' ≠ c ∧ lacks c s'
  end.

(** A separator that neither prefix contains splits a text in one way. *)
Lemma split_at_separator c x x' r r' :
  lacks c x → lacks c x' → x +:+ chr c +:+ r = x' +:+ chr c +:+ r' → x = x' ∧ r = r'.
Proof.
  revert x'. induction x as [|a x IH]; intros [|a' x'] Hx Hx'; cbn.
  - intros [= Hr]. split; [done|exact Hr].
  - intros [= -> _]. by destruct Hx'.
  - intros [= -> _]. by destruct Hx.
  - intros [= -> Heq]. destruct Hx, Hx'. by destruct (IH x') as [-> ->].
Qed.

Lemma lacks_no_split c x r x' : lacks c x' → x +:+ chr c +:+ r = x' → False.
Proof.
  revert x'. induction x as [|a x IH]; intros [|a' x'] Hx'; cbn; try done.
  - intros [= -> _]. by destruct Hx'.
  - intros [= -> Heq]. destruct Hx'. by eapply IH.
Qed.

Definition segment_ok (c : Ascii.ascii) (s : string) : Prop := s ≠ "" ∧ lacks c s.

Lemma join_inj c (l l' : list string) :
  Forall (segment_ok c) l → Forall (segment_ok c) l' → Js.join (chr c) l = Js.join (chr c) l' → l = l'.
Proof.
  intros Hl. revert l'. induction Hl as [|x l [Hx Hxc] Hl IH]; intros l' Hl' Heq.
  - destruct Hl' as [|x' l' [Hx' _] Hl']; [done|]. destruct l'; cbn in Heq; [by subst|]. by destruct x'.
  - destruct Hl' as [|x' l' [Hx' Hxc'] Hl'].
    { destruct l; cbn in Heq; [by subst|]. by destruct x. }
    destruct l as [|y l], l' as [|y' l'].
    + cbn in Heq. by subst.
    + exfalso. symmetry in Heq. by eapply lacks_no_split in Heq.
    + exfalso. by eapply lacks_no_split in Heq.
    + change (x +:+ chr c +:+ Js.join (chr c) (y :: l) = x' +:+ chr c +:+ Js.join (chr c) (y' :: l')) in Heq.
      apply split_at_separator in Heq as [-> Heq]; [|done..]. f_equal. by apply IH.
Qed.

Lemma lacks_app c x y : lacks c x → lacks c y → lacks c (x +:+ y).
Proof. induction x; cbn; [done|]. naive_solver. Qed.

Lemma lacks_join c sep l : lacks c sep → Forall (lacks c) l → lacks c (Js.join sep l).
Proof.
  intros Hs. induction 1 as [|x l Hx Hl IH]; cbn; [done|]. destruct l; [done|]. by repeat apply lacks_app.
Qed.

Lemma pretty_not_empty (z : Z) : pretty z ≠ "".
Proof.
  assert (∀ n : N, pretty n ≠ "") as HN.
  { intros n Hn. unfold pretty, pretty_N in *. case_decide; [done|]. rewrite pretty_N_go_step in Hn by lia.
    revert Hn. generalize (n `div` 10)%N. intros m.
    assert (∀ m a s, pretty_N_go m (String.String a s) ≠ "") as Hgo.
    { intros m0. induction (N.lt_wf_0 m0) as [m0 _ IH]. intros a s.
      destruct (decide (m0 = 0)%N) as [->|Hm]; [by rewrite pretty_N_go_0|].
      rewrite pretty_N_go_step by lia. apply IH. apply N.div_lt; lia. }
    by apply Hgo. }
  destruct z; cbn; [done|apply HN|done].
Qed.


(** ** Splitting what was joined *)

Lemma str_prefix_app x y : String.prefix x (x +:+ y) = true.
Proof. induction x as [|a x IH]; simpl; [by destruct y|]. by destruct (Ascii.ascii_dec a a). Qed.

Lemma split_go_skip sep x s : split_go sep (String.length x) (x +:+ s) = split_go sep 0 s.
Proof. induction x as [|a x IH]; [done|exact IH]. Qed.

Lemma split_go_piece c r x s :
  lacks c x →
  split_go (String.String c r) 0 (x +:+ String.String c r +:+ s) =
  (x, splitOn (String.String c r) s).
Proof.
  induction x as [|a x IH]; cbn [lacks].
  - intros _. change ("" +:+ ?z) with z.
    change (String.String c r +:+ s) with (String.String c (r +:+ s)). cbn [split_go].
    change (String.String c (r +:+ s)) with (String.String c r +:+ s). rewrite str_prefix_app.
    replace (String.length (String.String c r) - 1) with (String.length r) by (simpl; lia).
    rewrite split_go_skip. unfold splitOn. by destruct (split_go _ 0 s).
  - intros [Ha Hx]. change (String.String a x +:+ ?z) with (String.String a (x +:+ z)). cbn [split_go].
    rewrite (IH Hx). cbn [String.prefix]. destruct (Ascii.ascii_dec c a); [by subst|done].
Qed.

Lemma split_go_last c r x : lacks c x → split_go (String.String c r) 0 x = (x, []).
Proof.
  induction x as [|a x IH]; cbn [lacks split_go]; [done|]. intros [Ha Hx]. rewrite (IH Hx).
  cbn [String.prefix]. destruct (Ascii.ascii_dec c a); [by subst|done].
Qed.

(** Pieces that lack the first character of the separator are read back. *)
Lemma splitOn_join c r l :
  l ≠ [] → Forall (lacks c) l → splitOn (String.String c r) (Js.join (String.String c r) l) = l.
Proof.
  intros Hne Hl. induction Hl as [|x l Hx Hl IH]; [done|]. destruct l as [|y l].
  - cbn [Js.join]. unfold splitOn. by rewrite split_go_last.
  - change (Js.join (String.String c r) (x :: y :: l))
      with (x +:+ String.String c r +:+ Js.join (String.String c r) (y :: l)).
    unfold splitOn at 1. rewrite split_go_piece by done. by rewrite IH.
Qed.

Lemma split_last_app c x y : lacks c y → split_last c (x +:+ chr c +:+ y) = Some (x, y).
Proof.
  intros Hy. assert (split_last c y = None) as Hn.
  { induction y as [|b y IH]; cbn in *; [done|]. destruct Hy as [Hb Hy]. rewrite IH by done.
    by rewrite bool_decide_false. }
  induction x as [|a x IH].
  - change (split_last c (String.String c y) = Some ("", y)). cbn [split_last]. by rewrite Hn, bool_decide_true.
  - change (split_last c (String.String a (x +:+ chr c +:+ y)) = Some (String.String a x, y)).
    cbn [split_last]. by rewrite IH.
Qed.

Lemma slice_prefix x s : slice_from (String.length x) (x +:+ s) = s.
Proof. induction x as [|a x IH]; [by destruct s|exact IH]. Qed.

(** ** URI components *)

Lemma str_app_assoc (x y z : string) : (x +:+ y) +:+ z = x +:+ y +:+ z.
Proof. induction x as [|a x IH]; [done|]. change (String.String a ((x +:+ y) +:+ z) = String.String a (x +:+ y +:+ z)). by rewrite IH. Qed.

Lemma decode_encode_char c s :
  decodeURIComponent (encode_char c +:+ s) = String.String c <$> decodeURIComponent s.
Proof. destruct c as [[] [] [] [] [] [] [] []]; reflexivity. Qed.

Lemma decode_encode s : decodeURIComponent (encodeURIComponent s) = Some s.
Proof. induction s as [|c s IH]; [done|]. cbn [encodeURIComponent]. by rewrite decode_encode_char, IH. Qed.

(** What an encoded component consists of. *)
Definition encoded_char (c : Ascii.ascii) : bool := unreserved c || bool_decide (c = "%"%char).

Fixpoint all_chars (f : Ascii.ascii → bool) (s : string) : bool :=
  match s with EmptyString => true | String.String c s' => f c && all_chars f s' end.

Lemma all_chars_app f x y : all_chars f (x +:+ y) = all_chars f x && all_chars f y.
Proof.
  induction x as [|c x IH]; [done|]. change (String.String c x +:+ y) with (String.String c (x +:+ y)). cbn [all_chars].
  by rewrite IH, andb_assoc.
Qed.

Lemma all_chars_lacks f c s : f c = false → all_chars f s = true → lacks c s.
Proof. intros Hc. induction s as [|a s IH]; cbn; [done|]. intros [Ha Hs]%andb_true_iff. split; [by intros ->; congruence|auto]. Qed.

Lemma all_chars_encode s : all_chars encoded_char (encodeURIComponent s) = true.
Proof.
  induction s as [|c s IH]; [done|]. cbn [encodeURIComponent]. rewrite all_chars_app, IH, andb_true_r.
  destruct c as [[] [] [] [] [] [] [] []]; reflexivity.
Qed.

Lemma encode_lacks c s : encoded_char c = false → lacks c (encodeURIComponent s).
Proof. intros Hc. eapply all_chars_lacks; [done|]. apply all_chars_encode. Qed.

Lemma encoded_pieces_lack {A} c (f : A → string) l :
  encoded_char c = false → Forall (lacks c) ((λ a, encodeURIComponent (f a)) <$> l).
Proof. intros Hc. apply Forall_fmap, Forall_true. intros a. by apply encode_lacks. Qed.

Lemma encode_not_empty s : s ≠ "" → encodeURIComponent s ≠ "".
Proof.
  destruct s as [|c s]; [done|]. intros _ H. apply (f_equal decodeURIComponent) in H. by rewrite decode_encode in H.
Qed.

(** ** Reading the text of an integer *)

Lemma roundQuot_exact a d : (0 < d)%Z → roundQuot (a * d) d = a.
Proof.
  intros Hd. unfold roundQuot. rewrite Z.div_mul, Z.mod_mul by lia.
  by destruct (Z.compare_spec (2 * 0) d); try lia.
Qed.

Lemma scaled_exact z k : (k ≤ 0)%Z → scaled (z * 2 ^ (- k)) k = num z.
Proof.
  intros Hk. unfold scaled. destruct (Z.leb_spec 0 k).
  - replace k with 0%Z by lia. f_equal. lia.
  - unfold num. f_equal. apply Q2Qc_eq_iff. unfold Qeq, inject_Z. simpl.
    rewrite Z2Pos.id by (apply Z.pow_pos_nonneg; lia). lia.
Qed.

(** Integers below [2^53] are doubles. *)
Lemma toDouble_int z : (0 ≤ z < 2 ^ 53)%Z → toDouble z 1 = num z.
Proof.
  intros Hz. unfold toDouble. destruct (Z.eqb_spec z 0) as [->|Hne]; [done|].
  pose proof (Z.log2_spec z ltac:(lia)) as Hl. pose proof (Z.log2_nonneg z) as Hp.
  assert (Z.log2 z < 53)%Z as Hlt by (apply Z.log2_lt_pow2; lia).
  change (Z.log2 1) with 0%Z. rewrite Z.sub_0_r, (Z.max_r 0 (Z.log2 z)) by lia.
  rewrite (Z.max_l 0 (- Z.log2 z)), Z.pow_0_r, Z.mul_1_l, Z.mul_1_r by lia.
  destruct (Z.leb_spec (2 ^ Z.log2 z) z); [|lia].
  rewrite Z.max_l by lia. remember (Z.log2 z - 52)%Z as k eqn:Hkd. assert (k ≤ 0)%Z as Hk by lia.
  assert ((if (0 <=? k)%Z then roundQuot z (1 * 2 ^ k) else roundQuot (z * 2 ^ (- k)) 1) = z * 2 ^ (- k))%Z as ->.
  { destruct (Z.leb_spec 0 k).
    - replace k with 0%Z by lia. rewrite !Z.mul_1_r, <- (Z.mul_1_r z) at 1. by rewrite roundQuot_exact.
    - rewrite <- (Z.mul_1_r (z * 2 ^ (- k))) at 1. by rewrite roundQuot_exact. }
  rewrite (Z.max_l 0 k) by lia. rewrite Z.pow_0_r, Z.mul_1_r.
  assert (z * 2 ^ (- k) < 2 ^ 53)%Z as Hlt2.
  { replace 53%Z with (Z.succ (Z.log2 z) + (- k))%Z by lia. rewrite Z.pow_add_r by lia.
    apply Z.mul_lt_mono_pos_r; [apply Z.pow_pos_nonneg|]; lia. }
  assert (2 ^ 53 < 2 ^ 1024)%Z as Hbig by done.
  destruct (Z.leb_spec (2 ^ 1024) (z * 2 ^ (- k))) as [?|_]; [exfalso; lia|by apply scaled_exact].
Qed.

Lemma take_digits_stop acc l v r : take_digits acc l = (v, 0, r) → v = acc.
Proof.
  destruct l as [|c l]; cbn [take_digits]; [congruence|]. destruct (is_digit c); [|congruence].
  destruct (take_digits _ l) as [[? ?] ?]. congruence.
Qed.

Lemma digit_char d : (d < 10)%N →
  is_digit (pretty_N_char d) = true ∧ (Z.of_nat (code (pretty_N_char d)) - 48 = Z.of_N d)%Z.
Proof.
  intros Hd. assert (d ∈ [0; 1; 2; 3; 4; 5; 6; 7; 8; 9]%N) as Hin by (rewrite !elem_of_cons; lia).
  repeat (apply elem_of_cons in Hin as [->|Hin]; [done|]). by apply elem_of_nil in Hin.
Qed.

Notation chars := String.list_ascii_of_string.

(** Reading the digits of [x] from 0 is starting after them with [x]. *)
Lemma take_digits_pretty x s :
  ∃ n, take_digits 0 (chars (pretty_N_go x s)) =
       (let '(v, m, r) := take_digits (Z.of_N x) (chars s) in (v, n + m, r)).
Proof.
  revert s. induction (N.lt_wf_0 x) as [x _ IH]. intros s. destruct (decide (x = 0)%N) as [->|Hx].
  { exists 0. rewrite pretty_N_go_0. by destruct (take_digits _ _) as [[? ?] ?]. }
  rewrite pretty_N_go_step by lia.
  destruct (IH (x `div` 10)%N (N.div_lt x 10 ltac:(lia) eq_refl) (String.String (pretty_N_char (x `mod` 10)) s)) as [n ->].
  destruct (digit_char (x `mod` 10)%N) as [Hd Hv]; [by apply N.mod_lt|].
  cbn [String.list_ascii_of_string take_digits]. rewrite Hd, Hv.
  replace (10 * Z.of_N (x `div` 10) + Z.of_N (x `mod` 10))%Z with (Z.of_N x).
  2: { rewrite (N.div_mod x 10) at 1 by lia. lia. }
  exists (S n). destruct (take_digits (Z.of_N x) (chars s)) as [[v m] r]. f_equal. f_equal. lia.
Qed.

Lemma all_digits_pretty x s : all_chars is_digit s = true → all_chars is_digit (pretty_N_go x s) = true.
Proof.
  revert s. induction (N.lt_wf_0 x) as [x _ IH]. intros s Hs. destruct (decide (x = 0)%N) as [->|Hx].
  { by rewrite pretty_N_go_0. }
  rewrite pretty_N_go_step by lia. apply IH; [apply N.div_lt; lia|]. cbn [all_chars].
  destruct (digit_char (x `mod` 10)%N) as [-> _]; [by apply N.mod_lt|done].
Qed.

Lemma drop_spaces_none l : Forall (λ c, is_space c = false) l → drop_spaces l = l.
Proof. intros H. destruct H as [|c l Hc Hl]; [done|]. cbn. by rewrite Hc. Qed.

Lemma trim_none s : all_chars (λ c, negb (is_space c)) s = true → trim s = s.
Proof.
  intros H. unfold trim. assert (Forall (λ c, is_space c = false) (chars s)) as Hl.
  { induction s as [|c s IH]; cbn in *; [constructor|]. apply andb_true_iff in H as [Hc Hs].
    constructor; [by apply negb_true_iff|auto]. }
  rewrite (drop_spaces_none (chars s)) by done. rewrite drop_spaces_none by by apply Forall_reverse.
  by rewrite reverse_involutive, String.string_of_list_ascii_of_string.
Qed.

Lemma all_chars_impl f g s : (∀ c, f c = true → g c = true) → all_chars f s = true → all_chars g s = true.
Proof. intros Hfg. induction s as [|c s IH]; cbn; [done|]. rewrite !andb_true_iff. naive_solver. Qed.

Lemma digit_not_space c : is_digit c = true → negb (is_space c) = true.
Proof. destruct c as [[] [] [] [] [] [] [] []]; done. Qed.

(** The decimal reading of the digits of [x]. *)
Lemma decimal_digits (x : N) s :
  (Z.of_N x < 2 ^ 53)%Z → take_digits 0 (chars s) = (Z.of_N x, String.length s, []) → s ≠ "" →
  decimal (chars s) = num (Z.of_N x).
Proof.
  intros Hx Hs Hne. unfold decimal. rewrite Hs. cbn [exponent].
  destruct (String.length s + 0) eqn:Hl; [destruct s; simpl in Hl; [done|lia]|].
  change (10 ^ Z.max 0 (0 - Z.of_nat 0))%Z with 1%Z.
  change (10 ^ Z.max 0 (- (0 - Z.of_nat 0)))%Z with 1%Z. rewrite Z.mul_1_r. apply toDouble_int. lia.
Qed.

Lemma take_digits_all s v n r : all_chars is_digit s = true → take_digits v (chars s) = (n, r) → n.2 = String.length s ∧ r = [].
Proof.
  revert v n r. induction s as [|c s IH]; cbn; intros v n r.
  - intros _ [= <- <-]. done.
  - intros [Hc Hs]%andb_true_iff. rewrite Hc.
    destruct (take_digits _ (chars s)) as [[v' n'] r'] eqn:H. intros [= <- <-].
    apply IH in H as [? ->]; [|done]. simpl in *. auto with lia.
Qed.

(** A positive integer's text: digits only, not empty, read back. *)
Lemma pretty_N_digits (x : N) :
  all_chars is_digit (pretty x) = true ∧ pretty x ≠ "" ∧
  take_digits 0 (chars (pretty x)) = (Z.of_N x, String.length (pretty x), []).
Proof.
  assert (all_chars is_digit (pretty x) = true) as Hd.
  { unfold pretty, pretty_N. case_decide; [done|]. by apply all_digits_pretty. }
  split_and!; [done| |].
  - intros He. apply (pretty_not_empty (Z.of_N x)). by destruct x.
  - destruct (take_digits 0 (chars (pretty x))) as [n r] eqn:Ht.
    pose proof (take_digits_all _ _ _ _ Hd Ht) as [Hn ->]. destruct n as [v n]. simpl in Hn. subst n. f_equal. f_equal.
    revert Ht. unfold pretty, pretty_N. case_decide as Hx; [by subst; intros [= <-]|].
    destruct (take_digits_pretty x "") as [n ->]. cbn. by intros [= <- _].
Qed.

Lemma unsigned_digits s : all_chars is_digit s = true → s ≠ "" → unsigned_number (chars s) = decimal (chars s).
Proof.
  intros Hd Hne. unfold unsigned_number. rewrite bool_decide_false; [done|].
  intros He. destruct s as [|c s]; [done|]. cbn in He, Hd. injection He as -> _. done.
Qed.

Lemma negate_num z : negate (num z) = num (- z).
Proof.
  unfold num, negate. f_equal. apply Q2Qc_eq_iff. simpl. rewrite Qred_correct.
  unfold Qeq, inject_Z. simpl. lia.
Qed.

(** [Number(String(n))] is [n] for a safe integer [n]. *)
Lemma Number_intText z : (- 2 ^ 53 < z < 2 ^ 53)%Z → Number (intText z) = num z.
Proof.
  intros Hz. unfold intText.
  assert (∀ x : N, (Z.of_N x < 2 ^ 53)%Z → unsigned_number (chars (pretty x)) = num (Z.of_N x)) as Hu.
  { intros x Hx. destruct (pretty_N_digits x) as (Hd & Hne & Ht). rewrite unsigned_digits by done. by apply decimal_digits. }
  assert (∀ x : N, (Z.of_N x < 2 ^ 53)%Z → Number (pretty x) = num (Z.of_N x)) as Hpos.
  { intros x Hx. rewrite <- Hu by done. destruct (pretty_N_digits x) as (Hd & Hne & _). unfold Number.
    rewrite trim_none by (by eapply all_chars_impl, Hd; apply digit_not_space).
    assert (∀ c, is_digit c = true → c ≠ "-"%char ∧ c ≠ "+"%char ∧ c ∉ ["x"; "X"; "o"; "O"; "b"; "B"]%char) as Hc.
    { intros [[] [] [] [] [] [] [] []]; try done; intros _; split_and!; try done; by_decide. }
    destruct (pretty x) as [|c1 [|c2 s]]; [done| |]; cbn in Hd |- *; repeat apply andb_true_iff in Hd as [? Hd].
    - destruct (Hc c1) as (? & ? & _); [done|]. by rewrite !bool_decide_false.
    - destruct (Hc c1) as (? & ? & _); [done|]. destruct (Hc c2) as (_ & _ & Hx2); [done|].
      rewrite !elem_of_cons in Hx2. rewrite !bool_decide_false; [done|naive_solver..]. }
  destruct z as [|p|p]; [done|apply (Hpos (N.pos p)); simpl; lia|].
  change (pretty (Z.neg p)) with (String.String "-" (pretty (N.pos p))).
  destruct (pretty_N_digits (N.pos p)) as (Hd & _ & _). unfold Number.
  rewrite trim_none by (cbn [all_chars]; by eapply all_chars_impl, Hd; apply digit_not_space).
  cbn [String.list_ascii_of_string]. rewrite bool_decide_true by done. rewrite Hu by (simpl; lia). apply negate_num.
Qed.

(** ** Pieces of a string *)

Lemma some_suffix_spec f s : some_suffix f s = true ↔ ∃ a b, s = a +:+ b ∧ f b = true.
Proof.
  induction s as [|c s IH]; cbn [some_suffix].
  - rewrite orb_false_r. split; [by exists "", ""|]. intros (a & b & H & Hf). by destruct a, b.
  - rewrite orb_true_iff, IH. split.
    + intros [H|(a & b & -> & H)]; [by exists "", (String.String c s)|by exists (String.String c a), b].
    + intros ([|c' a] & b & H & Hf); [left; by rewrite H|]. injection H as <- ->. right. by exists a, b.
Qed.

Lemma prefix_app p s : String.prefix p s = true ↔ ∃ b, s = p +:+ b.
Proof.
  split; [|intros [b ->]; apply str_prefix_app]. revert s. induction p as [|c p IH]; intros s; [by exists s|].
  destruct s as [|c' s]; [done|]. cbn. destruct (Ascii.ascii_dec c c') as [->|]; [|done]. intros [b ->]%IH. by exists b.
Qed.

Lemma includes_spec t s : includes t s = true ↔ ∃ a b, s = a +:+ t +:+ b.
Proof.
  unfold includes. rewrite some_suffix_spec. setoid_rewrite prefix_app. split.
  - intros (a & _ & -> & b & ->). by exists a, b.
  - intros (a & b & ->). exists a, (t +:+ b). eauto.
Qed.
