(* ===== verification/JsJson.v ===== *)
(** * [JSON.stringify]

    The text of a value parsed from JSON, and that the text determines the value.
    The text of a finite number is a parameter: what is relied on is that it is
    made of digits, signs, the point and the exponent mark, is not empty, and that
    two numbers with the same text are the same number. *)

From Stdlib Require Import Strings.Ascii.
From S2P Require Import Prelude Js JsText.
From stdpp Require Import numbers list pretty.

(** [JSON.stringify]: strings. *)
Definition quote_char (c : Ascii.ascii) : string :=
  let n := code c in
  let backslash := chr (of_code 92) in
  if n =? 34 then backslash +:+ chr c
  else if n =? 92 then backslash +:+ chr c
  else if n =? 8 then backslash +:+ "b"
  else if n =? 9 then backslash +:+ "t"
  else if n =? 10 then backslash +:+ "n"
  else if n =? 12 then backslash +:+ "f"
  else if n =? 13 then backslash +:+ "r"
  else if n <? 32 then
    backslash +:+ "u00" +:+ chr (of_code (48 + n / 16)) +:+
    chr (of_code (let d := n mod 16 in if d <? 10 then 48 + d else 87 + d))
  else chr c.

Fixpoint quote_chars (s : string) : string :=
  match s with EmptyString => "" | String.String c s' => quote_char c +:+ quote_chars s' end.

Definition quote (s : string) : string := chr (of_code 34) +:+ quote_chars s +:+ chr (of_code 34).

Section stringify.
(** [JSON.stringify(n)] of a finite number. *)
Context (numberText : jsnum → string).

(** [None] is [undefined]. *)
Fixpoint stringify (v : jsval) : option string :=
  match v with
  | JUndefined => None
  | JNull => Some "null"
  | JBool b => Some (if b then "true" else "false")
  | JNum n => Some (if num_isFinite n then numberText n else "null")
  | JStr s => Some (quote s)
  | JArr l => Some ("[" +:+ Js.join "," (map (λ x, default "null" (stringify x)) l) +:+ "]")
  | JObj o =>
      Some ("{" +:+ Js.join "," (flat_map (λ kv, match stringify kv.2 with
                                                 | Some t => [quote kv.1 +:+ ":" +:+ t]
                                                 | None => []
                                                 end) o) +:+ "}")
  end.

End stringify.

(** Values are compared as trees. *)
#[export] Instance jsval_eq_dec : EqDecision jsval.
Proof.
  unshelve refine (fix go v w {struct v} : Decision (v = w) :=
    let dec_list := fix dec_list (l l' : list jsval) {struct l} : Decision (l = l') :=
      match l, l' with
      | [], [] => left eq_refl
      | x :: r, y :: r' => match go x y, dec_list r r' with left _, left _ => left _ | _, _ => right _ end
      | _, _ => right _
      end in
    let dec_fields := fix dec_fields (o o' : jsobj) {struct o} : Decision (o = o') :=
      match o, o' with
      | [], [] => left eq_refl
      | (k, x) :: r, (k', y) :: r' =>
          match decide (k = k'), go x y, dec_fields r r' with left _, left _, left _ => left _ | _, _, _ => right _ end
      | _, _ => right _
      end in
    match v, w with
    | JUndefined, JUndefined | JNull, JNull => left eq_refl
    | JBool a, JBool b => cast_if (decide (a = b))
    | JNum a, JNum b => cast_if (decide (a = b))
    | JStr a, JStr b => cast_if (decide (a = b))
    | JArr l, JArr l' => cast_if (dec_list l l')
    | JObj o, JObj o' => cast_if (dec_fields o o')
    | _, _ => right _
    end); try congruence.
Defined.

(** ** Injectivity *)

(** Characters of a number's text. *)
Definition number_char (c : Ascii.ascii) : bool :=
  is_digit c || (code c =? 43) || (code c =? 45) || (code c =? 46) || (code c =? 101).

(** What is relied on of the text of numbers. *)
Class NumberText (numberText : jsnum → string) : Prop := {
  nt_chars n : num_isFinite n = true → all_chars number_char (numberText n) = true;
  nt_not_empty n : num_isFinite n = true → numberText n ≠ "";
  nt_inj m n : num_isFinite m = true → num_isFinite n = true → numberText m = numberText n → m = n
}.

(** A value of JSON: no [undefined], every number finite. *)
Fixpoint json_value (v : jsval) : bool :=
  match v with
  | JUndefined => false
  | JNum n => num_isFinite n
  | JArr l => forallb json_value l
  | JObj o => forallb (λ kv, json_value kv.2) o
  | _ => true
  end.

(** The next character of a quoted string and what follows it; [None] at its end. *)
Definition unquote_char (s : string) : option (Ascii.ascii * string) :=
  match s with
  | String.String c r =>
      if code c =? 34 then None
      else if code c =? 92 then
        match r with
        | String.String e r' =>
            if code e =? 98 then Some (of_code 8, r')
            else if code e =? 116 then Some (of_code 9, r')
            else if code e =? 110 then Some (of_code 10, r')
            else if code e =? 102 then Some (of_code 12, r')
            else if code e =? 114 then Some (of_code 13, r')
            else if code e =? 117 then
              match r' with
              | String.String _ (String.String _ (String.String h (String.String l r''))) =>
                  Some (of_code (16 * (code h - 48) + (if code l <? 58 then code l - 48 else code l - 87)), r'')
              | _ => None
              end
            else Some (e, r')
        | EmptyString => None
        end
      else Some (c, r)
  | EmptyString => None
  end.

Lemma unquote_quote_char c s : unquote_char (quote_char c +:+ s) = Some (c, s).
Proof. by destruct c as [[] [] [] [] [] [] [] []]. Qed.

Definition quote_mark : Ascii.ascii := of_code 34.

Lemma quote_chars_inj s s' r r' :
  quote_chars s +:+ String.String quote_mark r = quote_chars s' +:+ String.String quote_mark r' → s = s' ∧ r = r'.
Proof.
  revert s'. induction s as [|c s IH]; intros [|c' s'] H; cbn [quote_chars] in H; rewrite ?str_app_assoc in H.
  - by injection H as ->.
  - apply (f_equal unquote_char) in H. by rewrite unquote_quote_char in H.
  - apply (f_equal unquote_char) in H. by rewrite unquote_quote_char in H.
  - apply (f_equal unquote_char) in H. rewrite !unquote_quote_char in H. injection H as -> H.
    by destruct (IH _ H) as [-> ->].
Qed.

Lemma quote_inj s s' r r' : quote s +:+ r = quote s' +:+ r' → s = s' ∧ r = r'.
Proof.
  unfold quote. rewrite !str_app_assoc. intros H. injection H as H. apply (quote_chars_inj s s' r r'). exact H.
Qed.

Definition stops (r : string) : Prop :=
  match r with EmptyString => True | String.String c _ => number_char c = false end.

Lemma number_text_inj a b r r' :
  all_chars number_char a = true → all_chars number_char b = true → stops r → stops r' →
  a +:+ r = b +:+ r' → a = b ∧ r = r'.
Proof.
  revert b. induction a as [|c a IH]; intros [|c' b] Ha Hb Hr Hr' H.
  - done.
  - change (r = String.String c' (b +:+ r')) in H. subst r. cbn in *. apply andb_true_iff in Hb as [Hb _]. congruence.
  - change (String.String c (a +:+ r) = r') in H. subst r'. cbn in *. apply andb_true_iff in Ha as [Ha _]. congruence.
  - injection H as -> H. cbn in Ha, Hb. apply andb_true_iff in Ha as [_ Ha], Hb as [_ Hb].
    by destruct (IH b Ha Hb Hr Hr' H) as [-> ->].
Qed.

(** The induction over the values inside a value. *)
Section nested.
Context (P : jsval → Prop) (Hundefined : P JUndefined) (Hnull : P JNull) (Hbool : ∀ b, P (JBool b))
  (Hnum : ∀ n, P (JNum n)) (Hstr : ∀ s, P (JStr s)) (Harr : ∀ l, Forall P l → P (JArr l))
  (Hobj : ∀ o, Forall (λ kv, P kv.2) o → P (JObj o)).

Fixpoint jsval_nested_ind (v : jsval) : P v :=
  match v with
  | JUndefined => Hundefined
  | JNull => Hnull
  | JBool b => Hbool b
  | JNum n => Hnum n
  | JStr s => Hstr s
  | JArr l => Harr l ((fix go (l : list jsval) : Forall P l :=
                         match l with [] => List.Forall_nil _ | x :: r => List.Forall_cons _ _ _ (jsval_nested_ind x) (go r) end) l)
  | JObj o => Hobj o ((fix go (o : jsobj) : Forall (λ kv, P kv.2) o :=
                         match o with [] => List.Forall_nil _ | kv :: r => List.Forall_cons _ _ _ (jsval_nested_ind kv.2) (go r) end) o)
  end.
End nested.

(** Items separated by commas and closed by a bracket. *)
Section items.
Context {A : Type} (f : A → string) (ok : A → bool) (close : Ascii.ascii).
Context (Hclose : number_char close = false) (Hcomma : close ≠ ","%char).

Definition item_inj (a : A) : Prop :=
  ∀ a' r r', ok a = true → ok a' = true → stops r → stops r' → f a +:+ r = f a' +:+ r' → a = a' ∧ r = r'.

Definition opens (s : string) : Prop := match s with EmptyString => False | String.String c _ => c ≠ close end.

Fixpoint commas (l : list A) : string := match l with [] => "" | a :: l => "," +:+ f a +:+ commas l end.

Lemma join_commas a l : Js.join "," (map f (a :: l)) = f a +:+ commas l.
Proof.
  revert a. induction l as [|b l IH]; intros a.
  - change (f a = f a +:+ ""). induction (f a) as [|c s IHs]; [done|].
    change (String.String c s = String.String c (s +:+ "")). by rewrite <- IHs.
  - change (f a +:+ "," +:+ Js.join "," (map f (b :: l)) = f a +:+ "," +:+ f b +:+ commas l). by rewrite IH.
Qed.

Lemma commas_stop l r : stops (commas l +:+ String.String close r).
Proof. by destruct l. Qed.

Lemma commas_inj l l' r r' :
  Forall item_inj l → forallb ok l = true → forallb ok l' = true →
  commas l +:+ String.String close r = commas l' +:+ String.String close r' → l = l' ∧ r = r'.
Proof.
  intros Hl. revert l'. induction Hl as [|a l Ha _ IH]; intros [|a' l'] Hok Hok' H; cbn [commas] in H.
  - injection H as H. by subst.
  - rewrite !str_app_assoc in H. injection H as Hc _. by destruct Hcomma.
  - rewrite !str_app_assoc in H. injection H as Hc _. by destruct Hcomma.
  - rewrite !str_app_assoc in H. injection H as H. cbn in Hok, Hok'. apply andb_true_iff in Hok as [Hoka Hok], Hok' as [Hoka' Hok'].
    destruct (Ha a' _ _ Hoka Hoka' (commas_stop l r) (commas_stop l' r') H) as [-> H'].
    by destruct (IH _ Hok Hok' H') as [-> ->].
Qed.

Lemma join_items_inj l l' r r' :
  Forall item_inj l → forallb ok l = true → forallb ok l' = true → (∀ a, ok a = true → opens (f a)) →
  Js.join "," (map f l) +:+ String.String close r = Js.join "," (map f l') +:+ String.String close r' → l = l' ∧ r = r'.
Proof.
  intros Hl Hok Hok' Hopens H.
  assert (∀ a s t, ok a = true → f a +:+ s ≠ String.String close t) as Hne.
  { intros a s t Ha. specialize (Hopens a Ha). destruct (f a) as [|c u]; [done|]. intros [= -> _]. done. }
  destruct l as [|a l], l' as [|a' l']; rewrite ?join_commas, ?str_app_assoc in H; cbn in Hok, Hok'.
  - injection H as H. by subst.
  - apply andb_true_iff in Hok' as [Ha _]. by destruct (Hne _ _ _ Ha (eq_sym H)).
  - apply andb_true_iff in Hok as [Ha _]. by destruct (Hne _ _ _ Ha H).
  - inversion Hl as [|? ? Ha Hrest]; subst. apply andb_true_iff in Hok as [Hoka Hok], Hok' as [Hoka' Hok'].
    destruct (Ha a' _ _ Hoka Hoka' (commas_stop l r) (commas_stop l' r') H) as [-> H'].
    by destruct (commas_inj _ _ _ _ Hrest Hok Hok' H') as [-> ->].
Qed.
End items.

Section injectivity.
Context (numberText : jsnum → string) `{!NumberText numberText}.

Definition text (v : jsval) : string := default "" (stringify numberText v).

Definition entry_text (kv : string * jsval) : string := quote kv.1 +:+ ":" +:+ text kv.2.

Lemma stringify_text v : json_value v = true → stringify numberText v = Some (text v).
Proof. by destruct v. Qed.

Lemma array_text l : forallb json_value l = true → text (JArr l) = "[" +:+ Js.join "," (map text l) +:+ "]".
Proof.
  intros Hl. unfold text at 1. cbn [stringify default id]. do 3 f_equal. apply map_ext_in. intros v Hv.
  rewrite forallb_forall in Hl. by rewrite stringify_text by by apply Hl.
Qed.

Lemma object_text o : forallb (λ kv, json_value kv.2) o = true → text (JObj o) = "{" +:+ Js.join "," (map entry_text o) +:+ "}".
Proof.
  intros Ho. unfold text at 1. cbn [stringify default id]. do 3 f_equal. induction o as [|[k v] o IH]; [done|].
  cbn in Ho. apply andb_true_iff in Ho as [Hv Ho]. cbn [flat_map map]. cbn [fst snd]. rewrite (stringify_text v) by done.
  cbn [app]. by rewrite IH.
Qed.

(** The first character tells the kind of a value. *)
Inductive leads : jsval → Ascii.ascii → Prop :=
| leads_null : leads JNull "n"
| leads_true : leads (JBool true) "t"
| leads_false : leads (JBool false) "f"
| leads_num n c : number_char c = true → leads (JNum n) c
| leads_str s : leads (JStr s) quote_mark
| leads_arr l : leads (JArr l) "["
| leads_obj o : leads (JObj o) "{".

Lemma text_leads v : json_value v = true → ∃ c s, text v = String.String c s ∧ leads v c.
Proof.
  destruct v as [| |[]|n|s|l|o]; intros Hv; [done|by eexists _, _; split; [reflexivity|constructor]..| | | |].
  - pose proof (nt_chars n Hv) as Hc. pose proof (nt_not_empty n Hv) as Hne.
    unfold text. cbn [stringify default id]. cbn in Hv. rewrite Hv.
    destruct (numberText n) as [|c s]; [done|]. exists c, s. cbn in Hc. apply andb_true_iff in Hc as [Hc _]. by split; [|constructor].
  - by eexists _, _; split; [reflexivity|constructor].
  - rewrite array_text by done. by eexists _, _; split; [reflexivity|constructor].
  - rewrite object_text by done. by eexists _, _; split; [reflexivity|constructor].
Qed.

Lemma text_opens close v : number_char close = false → close ∈ ["]"%char; "}"%char] → json_value v = true → opens close (text v).
Proof.
  intros Hn Hc (c & s & -> & Hl)%text_leads. cbn. intros ->.
  destruct Hl; try congruence; repeat (apply elem_of_cons in Hc as [Hc|Hc]; [discriminate Hc|]); by apply elem_of_nil in Hc.
Qed.

Lemma text_inj v : item_inj text json_value v.
Proof.
  induction v as [| |b|n|s|l IH|o IH] using jsval_nested_ind; intros w r r' Hv Hw Hr Hr' H; [done|..].
  all: destruct (text_leads _ Hv) as (c & t & Ht & Hl), (text_leads _ Hw) as (c' & t' & Ht' & Hl').
  all: assert (c = c') as <- by (rewrite Ht, Ht' in H; by injection H).
  all: inversion Hl; subst; inversion Hl'; subst; try discriminate.
  all: clear Hl Hl' Ht Ht'.
  - split; [done|]. by injection H.
  - split; [done|]. by injection H.
  - split; [done|]. by injection H.
  - unfold text in H. cbn [stringify default id] in H. cbn in Hv, Hw. rewrite Hv, Hw in H.
    destruct (number_text_inj _ _ _ _ (nt_chars _ Hv) (nt_chars _ Hw) Hr Hr' H) as [Heq ->]. by rewrite (nt_inj _ _ Hv Hw Heq).
  - destruct (quote_inj _ _ _ _ H) as [-> ->]. done.
  - rewrite !array_text, !str_app_assoc in H by done. injection H as H.
    destruct (join_items_inj text json_value "]" eq_refl ltac:(done) l l0 r r') as [-> ->]; [done|done|done| |exact H|done].
    intros a. by apply text_opens; [|left].
  - rewrite !object_text, !str_app_assoc in H by done. injection H as H.
    destruct (join_items_inj entry_text (λ kv, json_value kv.2) "}" eq_refl ltac:(done) o o0 r r') as [-> ->]; [|done|done| |exact H|done].
    + eapply Forall_impl; [exact IH|]. intros [k u] Hu [k' u'] q q' Hku Hku' Hq Hq' He. unfold entry_text in He.
      cbn [fst snd] in *. rewrite !str_app_assoc in He. destruct (quote_inj _ _ _ _ He) as [-> He']. injection He' as He'.
      by destruct (Hu u' q q' Hku Hku' Hq Hq' He') as [-> ->].
    + intros [k u] Hku. cbn. done.
Qed.

(** Two values of JSON have the same text exactly when they are the same. *)
Lemma stringify_inj v w : json_value v = true → json_value w = true → stringify numberText v = stringify numberText w ↔ v = w.
Proof.
  intros Hv Hw. split; [|by intros ->]. rewrite !stringify_text by done. intros [= H].
  assert (text v +:+ "" = text w +:+ "") as H' by by rewrite H. by destruct (text_inj v w "" "" Hv Hw I I H').
Qed.
End injectivity.

(** A text of numbers with the three properties: numerator and denominator. *)
Definition fractionText (n : jsnum) : string :=
  match n with NFin q => intText (Qnum (this q)) +:+ chr "e" +:+ intText (Z.pos (Qden (this q))) | _ => "" end.

Lemma intText_chars z : all_chars (λ c, is_digit c || (code c =? 45)) (intText z) = true.
Proof.
  assert (∀ x : N, all_chars (λ c, is_digit c || (code c =? 45)) (pretty x) = true) as HN.
  { intros x. eapply all_chars_impl; [|apply (proj1 (pretty_N_digits x))]. by intros c ->. }
  unfold intText. destruct z as [|p|p]; [done|apply (HN (N.pos p))|]. apply (HN (N.pos p)).
Qed.

Lemma intText_lacks_e z : lacks "e"%char (intText z).
Proof. by apply (all_chars_lacks (λ c, is_digit c || (code c =? 45))), intText_chars. Qed.

#[export] Instance fractionText_NumberText : NumberText fractionText.
Proof.
  assert (∀ z, all_chars number_char (intText z) = true) as Hc.
  { intros z. eapply all_chars_impl; [|apply intText_chars]. intros c Hc. unfold number_char.
    apply orb_true_iff in Hc as [->|Hc]; [done|]. rewrite Hc, !orb_true_r. done. }
  split.
  - intros [q|b|] Hf; try discriminate. unfold fractionText. rewrite !all_chars_app, !Hc. done.
  - intros [q|b|] Hf; try discriminate. unfold fractionText. intros H. apply (f_equal String.length) in H.
    destruct (intText (Qnum (this q))); discriminate H.
  - intros [q|b|] [q'|b'|] Hf Hf'; try discriminate. cbn. intros H.
    destruct (split_at_separator "e" _ _ _ _ (intText_lacks_e _) (intText_lacks_e _) H) as [Hn Hd].
    apply (inj pretty) in Hn, Hd. f_equal. apply Qc_is_canon. destruct q as [[a d] ?], q' as [[a' d'] ?].
    unfold this, Qnum, Qden in *. assert (d = d') as -> by congruence. by subst.
Qed.
