(* ===== verification/ApiClient.v ===== *)
(** * The API client ([lib/api/client.ts], [lib/api/auth.ts])

    How a request is built and its answer read: the CSRF token goes with unsafe requests to this
    origin only, error bodies are read up to a bound and the token is taken out of what is kept.

    What the browser does is given: the cookie text, the answer of [fetch] with its body as the
    chunks that arrive, and [JSON.parse].  A byte of a body is a character. *)

From stdpp Require Import strings list pretty.
From Stdlib Require Import Ascii.
From S2P Require Import Prelude Js JsText.
#[local] Open Scope string_scope.
#[local] Open Scope list_scope.
#[local] Open Scope nat_scope.

Definition API_BASE : string := "/api".

Definition SAFE_METHODS : list string := ["GET"; "HEAD"; "OPTIONS"].
Definition MAX_ERROR_BODY_CHARACTERS : nat := 4096.
Definition MAX_ERROR_DETAIL_CHARACTERS : nat := 2048.
Definition MAX_ERROR_TOKEN_READ_AHEAD : nat := 4096.
Definition MAX_ERROR_CODE_CHARACTERS : nat := 120.

(** [s.slice(0, n)] *)
Fixpoint slice_to (n : nat) (s : string) : string :=
  match n, s with
  | S n', String.String c s' => String.String c (slice_to n' s')
  | _, _ => ""
  end.

(** [toUpperCase] of the letters a to z. *)
Definition upper_char (c : Ascii.ascii) : Ascii.ascii := if (97 <=? code c) && (code c <=? 122) then of_code (code c - 32) else c.
Fixpoint toUpperCase (s : string) : string :=
  match s with EmptyString => "" | String.String c s' => String.String (upper_char c) (toUpperCase s') end.

(** [document.cookie] is [None] outside a browser. *)
Definition readBrowserCookie (cookies : option string) (name : string) : option string :=
  text ← cookies;
  let prefix := name +:+ "=" in
  cookie ← find (λ c, String.prefix prefix c) (map trim (splitOn ";" text));
  let value := slice_from (String.length prefix) cookie in
  Some (default value (decodeURIComponent value)).

Definition isUnsafeMethod (method : string) : bool := negb (bool_decide (toUpperCase method ∈ SAFE_METHODS)).

(** A token that is missing or empty is not sensitive. *)
Definition redactSensitiveValue (value : string) (sensitiveValue : option string) : string :=
  match sensitiveValue with
  | Some t => if bool_decide (t = "") then value else replaceAll t "[REDACTED]" value
  | None => value
  end.

Definition boundedDetail (value : string) (csrfToken : option string) : string :=
  slice_to MAX_ERROR_DETAIL_CHARACTERS (redactSensitiveValue value csrfToken).

(** ** Answers *)

(** The chunks of a body that arrive; [bd_fails]: reading throws after them. *)
Record Body := { bd_chunks : list string; bd_fails : bool }.

Record Response := {
  rs_status : nat;
  rs_statusText : string;
  rs_body : option Body;
  rs_json : res jsval
}.

(** The loop: the text, and whether the stream was read to its end; [None] when reading throws. *)
Fixpoint readChunks (maxBytes bytesRead : nat) (text : string) (chunks : list string) (fails : bool) : option (string * bool) :=
  if maxBytes <=? bytesRead then Some (text, false)
  else
    match chunks with
    | [] => if fails then None else Some (text, true)
    | value :: rest =>
        let remainingBytes := maxBytes - bytesRead in
        let chunk := if remainingBytes <? String.length value then slice_to remainingBytes value else value in
        let text := text +:+ chunk in
        if String.length chunk <? String.length value then Some (text, false)
        else readChunks maxBytes (bytesRead + String.length chunk) text rest fails
    end.

Definition maxBytesFor (csrfToken : option string) : nat :=
  MAX_ERROR_BODY_CHARACTERS + Nat.min (match csrfToken with Some t => String.length t | None => 0 end) MAX_ERROR_TOKEN_READ_AHEAD.

Definition readBoundedResponseText (response : Response) (csrfToken : option string) : option string :=
  match rs_body response with
  | None => Some ""
  | Some b => fst <$> readChunks (maxBytesFor csrfToken) 0 "" (bd_chunks b) (bd_fails b)
  end.

(** Whether the rest of the body is cancelled. *)
Definition bodyCancelled (response : Response) (csrfToken : option string) : bool :=
  match rs_body response with
  | None => false
  | Some b => match readChunks (maxBytesFor csrfToken) 0 "" (bd_chunks b) (bd_fails b) with Some (_, complete) => negb complete | None => true end
  end.

Record ResponseFailure := { fa_detail : string; fa_code : option string }.

Section client.
Context (JSON_parse : string → res jsval).

Definition responseFailure (response : Response) (csrfToken : option string) : ResponseFailure :=
  let fallback := {| fa_detail := pretty (rs_status response) +:+ " " +:+ rs_statusText response; fa_code := None |} in
  match readBoundedResponseText response csrfToken with
  | None => fallback
  | Some body =>
      if bool_decide (body = "") then fallback
      else
        let '(detail, code) :=
          match JSON_parse body with
          | Ok (JStr s) => (s, None)
          | Ok (JObj o) =>
              (match obj_get "detail" o with JStr d => d | _ => body end,
               match obj_get "code" o with JStr c => Some (slice_to MAX_ERROR_CODE_CHARACTERS c) | _ => None end)
          | _ => (body, None)
          end in
        {| fa_detail := boundedDetail detail csrfToken; fa_code := code |}
  end.

Record ApiError := { ae_status : nat; ae_detail : string; ae_code : option string }.

Definition apiErrorMessage (e : ApiError) : string := "API error " +:+ pretty (ae_status e) +:+ ": " +:+ ae_detail e.

(** ** Requests *)

Inductive Credentials := same_origin | omit.

Inductive RequestBody := body_form | body_json (text : string).

Record RequestInit := { ri_url : string; ri_method : string; ri_headers : list (string * string); ri_credentials : Credentials; ri_body : option RequestBody }.

Inductive Outcome := oc_value (v : jsval) | oc_undefined | oc_apiError (e : ApiError) | oc_thrown.

Definition ok (response : Response) : bool := (200 <=? rs_status response) && (rs_status response <=? 299).

Definition failed (response : Response) (csrfToken : option string) : Outcome :=
  let failure := responseFailure response csrfToken in
  oc_apiError {| ae_status := rs_status response; ae_detail := fa_detail failure; ae_code := fa_code failure |}.

Definition csrfHeader (csrfToken : option string) : list (string * string) :=
  match csrfToken with Some t => if bool_decide (t = "") then [] else [("X-CSRF-Token", t)] | None => [] end.

Definition requestToken (method : string) (cookies : option string) : option string :=
  if isUnsafeMethod (toUpperCase method) then readBrowserCookie cookies "grafy_csrf" else None.

Definition requestInit (method path : string) (body : option RequestBody) (cookies : option string) : RequestInit :=
  {| ri_url := API_BASE +:+ path; ri_method := toUpperCase method;
     ri_headers := ("Accept", "application/json") :: csrfHeader (requestToken method cookies) ++
                   match body with Some (body_json _) => [("Content-Type", "application/json")] | _ => [] end;
     ri_credentials := same_origin; ri_body := body |}.

(** What is sent, how often the listeners of [onUnauthorized] are called, and the outcome; the
    answer is [None] when [fetch] rejects. *)
Definition request (method path : string) (body : option RequestBody) (cookies : option string) (listeners : nat) (answer : option Response) : RequestInit * nat * Outcome :=
  let init := requestInit method path body cookies in
  match answer with
  | None => (init, 0, oc_thrown)
  | Some r =>
      if negb (ok r) then
        (init, if (rs_status r =? 401) && negb (bool_decide (path = "/v1/auth/session")) then listeners else 0, failed r (requestToken method cookies))
      else if rs_status r =? 204 then (init, 0, oc_undefined)
      else (init, 0, match rs_json r with Ok v => oc_value v | Throw _ => oc_thrown end)
  end.

Inductive TargetKind := target_api | target_storage.
#[export] Instance TargetKind_eq_dec : EqDecision TargetKind.
Proof. solve_decision. Defined.

Record UploadTarget := { ut_kind : TargetKind; ut_url : string; ut_headers : list (string * string) }.

Definition uploadInit (target : UploadTarget) (contentType : string) (cookies : option string) : RequestInit :=
  let headers := ut_headers target ++
                 (if negb (bool_decide (contentType = "")) && negb (existsb (λ h, bool_decide (h.1 = "Content-Type")) (ut_headers target))
                  then [("Content-Type", contentType)] else []) in
  {| ri_url := ut_url target; ri_method := "PUT"; ri_body := Some body_form;
     ri_headers := match ut_kind target with target_api => headers ++ csrfHeader (readBrowserCookie cookies "grafy_csrf") | target_storage => headers end;
     ri_credentials := match ut_kind target with target_api => same_origin | target_storage => omit end |}.

Definition putUploadBytes (target : UploadTarget) (contentType : string) (cookies : option string) (answer : option Response) : RequestInit * Outcome :=
  (uploadInit target contentType cookies,
   match answer with
   | None => oc_thrown
   | Some r => if ok r then oc_undefined
               else failed r (match ut_kind target with target_api => readBrowserCookie cookies "grafy_csrf" | target_storage => None end)
   end).

Definition getSession := request "GET" "/v1/auth/session" None.
Definition deleteSession := request "DELETE" "/v1/auth/session" None.

End client.

(** ** Reading up to a bound *)

Lemma length_slice n s : String.length (slice_to n s) = Nat.min n (String.length s).
Proof. revert s. induction n as [|n IH]; intros [|c s]; cbn; try done. by rewrite IH. Qed.

Lemma slice_all n s : String.length s <= n → slice_to n s = s.
Proof. revert s. induction n as [|n IH]; intros [|c s]; cbn; try done; [lia|]. intros Hl. rewrite IH; [done|lia]. Qed.

Lemma slice_app n s t : slice_to n (s +:+ t) = slice_to n s +:+ slice_to (n - String.length s) t.
Proof.
  revert s. induction n as [|n IH]; intros [|c s]; cbn [String.length Nat.sub]; try done.
  change (String.String c s +:+ t) with (String.String c (s +:+ t)). cbn [slice_to]. rewrite IH. done.
Qed.

Definition joined (chunks : list string) : string := foldr String.append "" chunks.

Lemma slice_nothing s t : slice_to (String.length s - String.length s) t = "".
Proof. rewrite Nat.sub_diag. done. Qed.

Lemma app_nil_str s : s +:+ "" = s.
Proof. induction s as [|c s IH]; [done|]. change (String.String c s +:+ "") with (String.String c (s +:+ "")). by rewrite IH. Qed.

Lemma length_append s t : String.length (s +:+ t) = String.length s + String.length t.
Proof. induction s as [|c s IH]; [done|]. change (String.String c s +:+ t) with (String.String c (s +:+ t)). cbn. by rewrite IH. Qed.

Lemma chunks_read maxBytes text chunks fails r : String.length text <= maxBytes →
  readChunks maxBytes (String.length text) text chunks fails = Some r → r.1 = slice_to maxBytes (text +:+ joined chunks).
Proof.
  revert text. induction chunks as [|value rest IH]; intros text Hlen; cbn [readChunks joined foldr].
  - destruct (maxBytes <=? String.length text) eqn:E; [|destruct fails; [done|]]; intros [= <-]; cbn; rewrite app_nil_str; symmetry; by apply slice_all.
  - fold (joined rest). destruct (maxBytes <=? String.length text) eqn:E.
    + apply Nat.leb_le in E. intros [= <-]. cbn [fst]. rewrite slice_app, slice_all by done. replace (maxBytes - String.length text) with 0 by lia. by rewrite app_nil_str.
    + apply Nat.leb_gt in E. destruct (maxBytes - String.length text <? String.length value) eqn:Hv; [apply Nat.ltb_lt in Hv|apply Nat.ltb_ge in Hv].
      * rewrite length_slice, Nat.min_l by lia. rewrite (proj2 (Nat.ltb_lt _ _)) by done. intros [= <-]. cbn [fst]. rewrite slice_app, (slice_all maxBytes text) by done.
        rewrite slice_app. replace (maxBytes - String.length text - String.length value) with 0 by lia. by rewrite app_nil_str.
      * rewrite Nat.ltb_irrefl. rewrite <- length_append. intros Hr. rewrite (IH (text +:+ value)) by (done || rewrite length_append; lia). by rewrite str_app_assoc.
Qed.

(** What is kept of a body is the beginning of it, as long as the bound allows, however it
    arrives in chunks. *)
Theorem error_body_is_bounded response csrfToken b text : rs_body response = Some b → readBoundedResponseText response csrfToken = Some text →
  text = slice_to (maxBytesFor csrfToken) (joined (bd_chunks b)) ∧ String.length text <= MAX_ERROR_BODY_CHARACTERS + MAX_ERROR_TOKEN_READ_AHEAD.
Proof.
  intros Hb. unfold readBoundedResponseText. rewrite Hb. intros (r & Hr & ->)%fmap_Some. apply (chunks_read _ "" _ _ _ (Nat.le_0_l _)) in Hr. change ("" +:+ ?s) with s in Hr. rewrite Hr. split; [done|].
  rewrite length_slice. unfold maxBytesFor. lia.
Qed.

(** ** Redaction *)

Lemma split_head sep s p ps : sep ≠ "" → split_go sep 0 s = (p, ps) → (∃ r, s = p +:+ r) ∧ includes sep p = false.
Proof.
  intros Hne. revert p ps. induction s as [|c s IH]; intros p ps; cbn [split_go].
  - intros [= <- <-]. split; [by exists ""|]. by destruct sep.
  - destruct (String.prefix sep (String.String c s)) eqn:Hp.
    + destruct (split_go sep (String.length sep - 1) s). intros [= <- <-]. split; [by exists (String.String c s)|]. by destruct sep.
    + destruct (split_go sep 0 s) as [q qs]. intros [= <- <-]. destruct (IH q qs eq_refl) as [[r ->] Hq]. split; [by exists r|].
      unfold includes in *. cbn [some_suffix]. rewrite Hq, orb_false_r. destruct (String.prefix sep (String.String c q)) eqn:Hq'; [|done].
      apply prefix_app in Hq' as [b Hb]. assert (String.prefix sep (String.String c (q +:+ r)) = true) as Hc; [|congruence].
      apply prefix_app. exists (b +:+ r). change (String.String c (q +:+ r)) with (String.String c q +:+ r). by rewrite Hb, str_app_assoc.
Qed.

Lemma split_skip sep k s : ∃ r, split_go sep k s = split_go sep 0 r.
Proof. revert k. induction s as [|c s IH]; intros k; [by exists ""; destruct k|]. destruct k as [|k]; [by exists (String.String c s)|]. cbn [split_go]. apply IH. Qed.

Lemma split_pieces sep s : sep ≠ "" → Forall (λ p, includes sep p = false) (splitOn sep s).
Proof.
  intros Hne. unfold splitOn. assert (∀ n s, String.length s <= n → Forall (λ p, includes sep p = false) (let '(p, ps) := split_go sep 0 s in p :: ps)) as H.
  2: by apply (H (String.length s)).
  clear s. intros n. induction n as [|n IH]; intros [|c s] Hn; cbn [String.length] in Hn; try lia; [by repeat constructor; destruct sep..|].
  destruct (split_go sep 0 (String.String c s)) as [p ps] eqn:E. destruct (split_head sep _ p ps Hne E) as [_ Hp]. constructor; [done|]. clear Hp. cbn [split_go] in E.
  destruct (String.prefix sep (String.String c s)).
  - destruct (split_go sep (String.length sep - 1) s) as [q qs] eqn:Eq. injection E as <- <-.
    assert (∀ k s, String.length s <= n → Forall (λ p, includes sep p = false) (let '(p, ps) := split_go sep k s in p :: ps)) as Hk.
    { clear - IH. intros k. induction k as [|k IHk]; intros s Hs; [by apply IH|]. destruct s as [|c s]; [apply (IH "" Hs)|]. cbn [split_go]. apply IHk. cbn in Hs. lia. }
    specialize (Hk (String.length sep - 1) s). rewrite Eq in Hk. apply Hk. lia.
  - destruct (split_go sep 0 s) as [q qs] eqn:Eq. injection E as <- <-. specialize (IH s). rewrite Eq in IH. apply Forall_cons in IH as [_ ?]; [done|lia].
Qed.

(** An occurrence does not reach over a character that the text lacks. *)
Lemma occurrence_apart c t x y : t ≠ "" → lacks c t → includes t (x +:+ String.String c y) = true → includes t x = true ∨ includes t y = true.
Proof.
  intros Hne Hl (a & b & Hab)%includes_spec. revert a Hab. induction x as [|d x IH]; intros a Hab.
  - change ("" +:+ ?s) with s in Hab. destruct a as [|e a]; [change ("" +:+ ?s) with s in Hab; destruct t as [|e t]; [done|]; injection Hab as -> _; by destruct Hl|].
    change (String.String e a +:+ t +:+ b) with (String.String e (a +:+ t +:+ b)) in Hab. injection Hab as _ ->. right. apply includes_spec. by exists a, b.
  - change (String.String d x +:+ String.String c y) with (String.String d (x +:+ String.String c y)) in Hab. destruct a as [|e a].
    + change ("" +:+ ?s) with s in Hab. left. assert (∀ t x, lacks c t → x +:+ String.String c y = t +:+ b → String.prefix t x = true) as Hpre.
      { clear. induction t as [|e t IH]; intros x Hl Hx; [by destruct x|]. destruct x as [|d x].
        - injection Hx as -> _. by destruct Hl.
        - change (String.String d x +:+ String.String c y) with (String.String d (x +:+ String.String c y)) in Hx. change (String.String e t +:+ b) with (String.String e (t +:+ b)) in Hx. injection Hx as -> Hx.
          cbn. destruct (Ascii.ascii_dec e e); [|done]. apply IH; [by destruct Hl|done]. }
      unfold includes. cbn [some_suffix]. rewrite (Hpre t (String.String d x) Hl); [done|exact Hab].
    + change (String.String e a +:+ t +:+ b) with (String.String e (a +:+ t +:+ b)) in Hab. injection Hab as _ Hab. destruct (IH a Hab) as [Hx|Hy]; [left|by right].
      unfold includes in *. cbn [some_suffix]. by rewrite Hx, orb_true_r.
Qed.

(** A token that the redaction can take out: it has no bracket and is no part of the mark. *)
Definition token_ok (t : string) : Prop := t ≠ "" ∧ lacks "["%char t ∧ lacks "]"%char t ∧ includes t "REDACTED" = false.

Lemma marked_pieces t l : token_ok t → Forall (λ p, includes t p = false) l → includes t (Js.join "[REDACTED]" l) = false.
Proof.
  intros (Hne & Hl & Hr & Hm). induction 1 as [|p l Hp _ IH]; [by destruct t|]. destruct l as [|q l]; [exact Hp|].
  change (Js.join "[REDACTED]" (p :: q :: l)) with (p +:+ String.String "["%char ("REDACTED" +:+ String.String "]"%char (Js.join "[REDACTED]" (q :: l)))).
  destruct (includes t (p +:+ _)) eqn:E; [|done]. exfalso. apply occurrence_apart in E as [E|E]; [congruence| |done..]. apply occurrence_apart in E as [E|E]; [congruence|congruence|done..].
Qed.

Lemma includes_slice t n s : includes t (slice_to n s) = true → includes t s = true.
Proof.
  intros (a & b & Hab)%includes_spec. apply includes_spec. assert (∃ r, s = slice_to n s +:+ r) as [r Hr].
  { clear. revert s. induction n as [|n IH]; intros [|c s]; cbn [slice_to]; [by eexists..|]. destruct (IH s) as [r Hr]. exists r. change (String.String c (slice_to n s) +:+ r) with (String.String c (slice_to n s +:+ r)). by rewrite <- Hr. }
  exists a, (b +:+ r). rewrite Hr, Hab. by rewrite !str_app_assoc.
Qed.

(** Whatever a failing answer says in its body, the detail that is kept is at most 2048 characters
    long and does not hold the CSRF token that was sent. *)
Theorem error_detail_is_bounded_and_redacted JSON_parse response t text : token_ok t → readBoundedResponseText response (Some t) = Some text → text ≠ "" →
  String.length (fa_detail (responseFailure JSON_parse response (Some t))) <= MAX_ERROR_DETAIL_CHARACTERS ∧
  includes t (fa_detail (responseFailure JSON_parse response (Some t))) = false.
Proof.
  intros Ht Htext Hne. unfold responseFailure. rewrite Htext, bool_decide_false by done.
  assert (∀ v, String.length (boundedDetail v (Some t)) <= MAX_ERROR_DETAIL_CHARACTERS ∧ includes t (boundedDetail v (Some t)) = false) as Hb.
  { intros v. unfold boundedDetail. split; [rewrite length_slice; lia|]. destruct (includes t (slice_to _ _)) eqn:E; [|done]. apply includes_slice in E.
    unfold redactSensitiveValue in E. rewrite bool_decide_false in E by apply Ht. unfold replaceAll in E. rewrite marked_pieces in E; [done|done|]. apply split_pieces, Ht. }
  destruct (match JSON_parse text with Ok (JStr s) => _ | Ok (JObj o) => _ | _ => _ end) as [detail code]. cbn [fa_detail]. apply Hb.
Qed.

(** ** The token *)

(** The token goes with a request exactly when the method may change something and there is a
    token; it then goes to this origin. *)
Theorem token_goes_with_unsafe_requests method path body cookies t :
  ("X-CSRF-Token", t) ∈ ri_headers (requestInit method path body cookies) ↔
  isUnsafeMethod (toUpperCase method) = true ∧ readBrowserCookie cookies "grafy_csrf" = Some t ∧ t ≠ "".
Proof.
  unfold requestInit. cbn [ri_headers]. unfold requestToken, csrfHeader. rewrite elem_of_cons, elem_of_app.
  assert (("X-CSRF-Token", t) ∉ match body with Some (body_json _) => [("Content-Type", "application/json")] | _ => [] end) as Hb by (destruct body as [[]|]; set_solver).
  destruct (isUnsafeMethod (toUpperCase method)); [|set_solver]. destruct (readBrowserCookie cookies "grafy_csrf") as [t'|]; [|set_solver].
  case_bool_decide as E; [subst; split; [set_solver|]; intros (_ & [= <-] & ?); done|].
  rewrite list_elem_of_singleton. split; [intros [[=]|[[= ->]|?]]; done|]. intros (_ & [= ->] & _). auto.
Qed.

Lemma upper_idem c : upper_char (upper_char c) = upper_char c.
Proof. destruct c as [[] [] [] [] [] [] [] []]; reflexivity. Qed.

Lemma toUpperCase_idem s : toUpperCase (toUpperCase s) = toUpperCase s.
Proof. induction s as [|c s IH]; cbn; [done|]. by rewrite upper_idem, IH. Qed.

(** An upload to a store carries the headers of its signed address and the type of its content,
    and neither the session's cookies nor its token, also when the store is on this origin. *)
Theorem storage_uploads_carry_no_session target contentType cookies : ut_kind target = target_storage →
  ri_credentials (uploadInit target contentType cookies) = omit ∧
  ∀ h, h ∈ ri_headers (uploadInit target contentType cookies) → h ∈ ut_headers target ∨ h = ("Content-Type", contentType).
Proof.
  intros Hk. unfold uploadInit. rewrite Hk. cbn [ri_credentials ri_headers]. split; [done|]. intros h [?|Hh]%elem_of_app; [by left|]. right. destruct (_ && _); set_solver.
Qed.

(** ** What is not taken out *)

Definition sampleToken : string := "csrf-sentinel-value".

Definition answerWith (chunk : string) : Response :=
  {| rs_status := 400; rs_statusText := "Bad Request"; rs_body := Some {| bd_chunks := [chunk]; bd_fails := false |}; rs_json := Throw "" |}.

(** The code of a failure is cut but not redacted: an answer that repeats the token there
    puts it into the error. *)
Theorem failure_code_keeps_the_token : ∃ JSON_parse response,
  fa_code (responseFailure JSON_parse response (Some sampleToken)) = Some sampleToken.
Proof. exists (λ _, Ok (JObj [("code", JStr sampleToken)])), (answerWith "{code}"). reflexivity. Qed.

Fixpoint times (n : nat) (s : string) : string := match n with O => "" | S n => s +:+ times n s end.

Definition longToken : string := "abcdefghijklmnopqrstuvwxyzABCDEFGHIJKLMNOPQ".

(** A token that the bound cuts through is not recognised: behind enough tokens that are taken
    out, the beginning of it is kept in the detail. *)
Theorem cut_token_is_kept :
  fa_detail (responseFailure (λ _, Throw "not JSON") (answerWith (times 100 longToken)) (Some longToken)) =
  times 96 "[REDACTED]" +:+ slice_to 11 longToken.
Proof. vm_compute. reflexivity. Qed.

(** ** Cookies *)

Lemma trim_space s : trim (" " +:+ s) = trim s.
Proof. reflexivity. Qed.

Lemma join_spaced p l : Js.join "; " (p :: l) = Js.join ";" (p :: map (String.append " ") l).
Proof.
  revert p. induction l as [|q l IH]; intros p; [done|]. change (Js.join "; " (p :: q :: l)) with (p +:+ ";" +:+ " " +:+ Js.join "; " (q :: l)).
  change (Js.join ";" (p :: map (String.append " ") (q :: l))) with (p +:+ ";" +:+ Js.join ";" ((" " +:+ q) :: map (String.append " ") l)).
  rewrite IH. destruct (map (String.append " ") l); done.
Qed.

Definition cookieText (kv : string * string) : string := kv.1 +:+ "=" +:+ encodeURIComponent kv.2.

Lemma cookie_chars kv : all_chars encoded_char kv.1 = true → all_chars (λ c, encoded_char c || bool_decide (c = "="%char)) (cookieText kv) = true.
Proof.
  intros Hk. unfold cookieText. rewrite !all_chars_app. cbn [all_chars]. rewrite (all_chars_impl encoded_char _ kv.1); [|by intros c ->|done].
  rewrite (all_chars_impl encoded_char _ (encodeURIComponent kv.2)); [done|by intros c ->|apply all_chars_encode].
Qed.

Lemma cookie_pieces l : l ≠ [] → Forall (λ kv, all_chars encoded_char kv.1 = true) l → map trim (splitOn ";" (Js.join "; " (map cookieText l))) = map cookieText l.
Proof.
  intros Hne Hl. destruct l as [|kv l]; [done|]. cbn [map]. rewrite join_spaced.
  assert (∀ kv, all_chars encoded_char kv.1 = true → lacks ";"%char (cookieText kv) ∧ trim (cookieText kv) = cookieText kv) as Hc.
  { intros kv' Hk. pose proof (cookie_chars kv' Hk) as Hch. split; [apply (all_chars_lacks (λ c, encoded_char c || bool_decide (c = "="%char))); [reflexivity|exact Hch]|]. apply trim_none. eapply all_chars_impl; [|exact Hch].
    intros [[] [] [] [] [] [] [] []]; done. }
  apply Forall_cons in Hl as [Hk Hl]. rewrite splitOn_join; [|done|].
  - cbn [map]. rewrite (proj2 (Hc kv Hk)). f_equal. rewrite map_map, map_map. apply map_ext_in. intros kv' Hin%list_elem_of_In. rewrite trim_space. rewrite Forall_forall in Hl. by apply Hc, Hl.
  - constructor; [by apply Hc|]. apply Forall_map, Forall_map. eapply Forall_impl; [exact Hl|]. intros kv' Hk'. split; [done|]. by apply Hc.
Qed.

Lemma cookie_named name kv : all_chars encoded_char name = true → all_chars encoded_char kv.1 = true → String.prefix (name +:+ "=") (cookieText kv) = true → kv.1 = name.
Proof.
  intros Hn Hk (b & Hb)%prefix_app. unfold cookieText in Hb. rewrite str_app_assoc in Hb. change "=" with (chr "="%char) in Hb.
  apply split_at_separator in Hb as [-> _]; [done|by apply (all_chars_lacks encoded_char)..].
Qed.

(** A cookie is read back as it was set, also beside others whose names begin alike. *)
Theorem cookie_is_read_back l name : l ≠ [] → Forall (λ kv, all_chars encoded_char kv.1 = true) l → all_chars encoded_char name = true →
  readBrowserCookie (Some (Js.join "; " (map cookieText l))) name = snd <$> find (λ kv, bool_decide (kv.1 = name)) l.
Proof.
  intros Hne Hl Hn. unfold readBrowserCookie. cbn [mbind option_bind]. rewrite cookie_pieces by done. clear Hne.
  induction Hl as [|kv l Hk _ IH]; cbn [map find]; [done|]. case_bool_decide as E.
  - destruct kv as [k v]. cbn [fst] in E. subst k. assert (String.prefix (name +:+ "=") (cookieText (name, v)) = true) as Hp by (apply prefix_app; exists (encodeURIComponent v); unfold cookieText; cbn; by rewrite str_app_assoc).
    rewrite Hp. cbn [mbind option_bind]. unfold cookieText. cbn [fst snd]. rewrite <- str_app_assoc, slice_prefix, decode_encode. done.
  - destruct (String.prefix (name +:+ "=") (cookieText kv)) eqn:Hp; [by apply cookie_named in Hp|]. exact IH.
Qed.
