(* ===== verification/AuthSession.v ===== *)
(** * The session of a person ([features/auth/AuthSessionBoundary.tsx], [lib/api/auth.ts])

    The boundary around the application: whether somebody is signed in, signing out, and the path
    to come back to after signing in.  What can happen is a step relation: a button is pressed only
    where it is shown, and the answer to a request comes at any later time or never.

    [new URL] is modelled for what begins with a slash: the URL parser's states for paths, queries
    and fragments, with its percent-encoding; an address that names a host is a parameter. *)

From stdpp Require Import strings list pretty relations.
From Stdlib Require Import Ascii.
From S2P Require Import Prelude Js JsText ApiClient.
#[local] Open Scope string_scope.
#[local] Open Scope list_scope.
#[local] Open Scope nat_scope.

(** ** Addresses *)

Record Url := { ur_origin : string; ur_pathname : string; ur_search : string; ur_hash : string }.

Definition DEFAULT_RETURN_PATH : string := "/workspaces".

(** The percent-encode sets: what is encoded besides controls and what is beyond ASCII. *)
Definition queryCodes : list nat := [32; 34; 35; 60; 62; 39].
Definition pathCodes : list nat := [32; 34; 35; 60; 62; 63; 94; 96; 123; 125].
Definition fragmentCodes : list nat := [32; 34; 60; 62; 96].

Definition percentEncode (codes : list nat) (c : ascii) : string :=
  let n := code c in
  if (n <? 32) || (126 <? n) || bool_decide (n ∈ codes)
  then if n <? 128 then percent n else percent (192 + n / 64) +:+ percent (128 + n mod 64)
  else chr c.

Fixpoint percentEncoded (codes : list nat) (s : string) : string :=
  match s with EmptyString => "" | String.String c s' => percentEncode codes c +:+ percentEncoded codes s' end.

Definition isSingleDot (s : string) : bool := bool_decide (toLowerCase s ∈ ["."; "%2e"]).
Definition isDoubleDot (s : string) : bool := bool_decide (toLowerCase s ∈ [".."; ".%2e"; "%2e."; "%2e%2e"]).

(** Tabs and new lines are dropped, and controls and spaces at the end. *)
Definition isTabOrNewline (c : ascii) : bool := bool_decide (code c ∈ [9; 10; 13]).
Fixpoint dropTail (l : list ascii) : list ascii := match l with c :: l' => if code c <=? 32 then dropTail l' else l | [] => [] end.
Definition cleaned (s : string) : string :=
  String.string_of_list_ascii (filter (λ c, isTabOrNewline c = false) (reverse (dropTail (reverse (String.list_ascii_of_string s))))).

(** The text up to one of the characters, and the rest with it. *)
Fixpoint untilAny (stops : list ascii) (s : string) : string * string :=
  match s with
  | EmptyString => ("", "")
  | String.String c s' => if bool_decide (c ∈ stops) then ("", s) else let '(a, b) := untilAny stops s' in (String.String c a, b)
  end.

(** The path state on the segments of a text: all but the last are followed by a slash. *)
Fixpoint pathSegments (path : list string) (segments : list string) : list string :=
  match segments with
  | [] => path
  | s :: rest =>
      let path' :=
        if isDoubleDot s then removelast path ++ (if decide (rest = []) then [""] else [])
        else if isSingleDot s then path ++ (if decide (rest = []) then [""] else [])
        else path ++ [s] in
      pathSegments path' rest
  end.

(** In these addresses a backslash is a slash. *)
Definition isSlash (c : ascii) : bool := bool_decide (c = "/"%char) || bool_decide (code c = 92).
Fixpoint slashed (s : string) : string :=
  match s with EmptyString => "" | String.String c s' => String.String (if isSlash c then "/"%char else c) (slashed s') end.

Section returning.
Context (hostUrl : string → option Url).

Definition pathUrl (rest : string) : Url :=
  let '(path, after) := untilAny ["?"%char; "#"%char] rest in
  let '(query, fragment) := untilAny ["#"%char] after in
  {| ur_origin := "https://grafy.invalid";
     ur_pathname := foldr (λ s t, "/" +:+ s +:+ t) "" (pathSegments [] (map (percentEncoded pathCodes) (splitOn "/" (slashed path))));
     ur_search := if bool_decide (slice_from 1 query = "") then "" else "?" +:+ percentEncoded queryCodes (slice_from 1 query);
     ur_hash := if bool_decide (slice_from 1 fragment = "") then "" else "#" +:+ percentEncoded fragmentCodes (slice_from 1 fragment) |}.

(** [new URL(value, "https://grafy.invalid")] for a value that begins with a slash; [None] where
    it throws. *)
Definition parseUrl (value : string) : option Url :=
  match slice_from 1 (cleaned value) with
  | String.String c rest => if isSlash c then hostUrl value else Some (pathUrl (String.String c rest))
  | EmptyString => Some (pathUrl "")
  end.

Definition safeReturnPath (value : option string) : string :=
  match value with
  | None => DEFAULT_RETURN_PATH
  | Some v =>
      if bool_decide (v = "") || negb (String.prefix "/" v) || String.prefix "//" v then DEFAULT_RETURN_PATH
      else
        match parseUrl v with
        | None => DEFAULT_RETURN_PATH
        | Some u => if bool_decide (ur_origin u = "https://grafy.invalid") then ur_pathname u +:+ ur_search u +:+ ur_hash u else DEFAULT_RETURN_PATH
        end
  end.

Definition oidcLoginUrl (returnPath : option string) : string :=
  API_BASE +:+ "/v1/auth/oidc/login?return_path=" +:+ encodeURIComponent (safeReturnPath returnPath).

End returning.

(** ** The boundary *)

Record PersonSession := { se_id : string; se_user_id : string }.

Inductive AuthState :=
| au_loading
| au_signed_out
| au_authenticated (session : PersonSession)
| au_expired
| au_unavailable
| au_signing_out
| au_logout_failed.

(** [state], [cacheGeneration], the two refs of signing out, and the requests that are out: those
    of [loadSession], and the attempts to sign out. *)
Record Boundary := {
  bo_state : AuthState;
  bo_cacheGeneration : nat;
  bo_logoutAttempt : nat;
  bo_logoutInFlight : bool;
  bo_loads : nat;
  bo_logouts : list nat
}.

Definition with_state (s : AuthState) (b : Boundary) : Boundary :=
  {| bo_state := s; bo_cacheGeneration := bo_cacheGeneration b; bo_logoutAttempt := bo_logoutAttempt b; bo_logoutInFlight := bo_logoutInFlight b; bo_loads := bo_loads b; bo_logouts := bo_logouts b |}.

(** The first render with its effects; a development build may have a stand-in session. *)
Definition mountBoundary (sandbox : option PersonSession) : Boundary :=
  {| bo_state := match sandbox with Some s => au_authenticated s | None => au_loading end; bo_cacheGeneration := 0; bo_logoutAttempt := 0; bo_logoutInFlight := false;
     bo_loads := match sandbox with Some _ => 0 | None => 1 end; bo_logouts := [] |}.

Definition expireSession (b : Boundary) : Boundary :=
  match bo_state b with au_authenticated _ => with_state au_expired b | _ => b end.

(** An answer: a value, an [ApiError] with its status, or another error. *)
Inductive Answer (A : Type) := an_ok (a : A) | an_status (status : nat) | an_error.
Arguments an_ok {A}. Arguments an_status {A}. Arguments an_error {A}.

Definition sessionFailureKind {A} (a : Answer A) : AuthState := match a with an_status status => if status =? 401 then au_signed_out else au_unavailable | _ => au_unavailable end.

Definition loaded (a : Answer PersonSession) (b : Boundary) : Boundary :=
  match a with
  | an_ok session =>
      {| bo_state := au_authenticated session; bo_cacheGeneration := S (bo_cacheGeneration b); bo_logoutAttempt := bo_logoutAttempt b; bo_logoutInFlight := bo_logoutInFlight b; bo_loads := bo_loads b - 1; bo_logouts := bo_logouts b |}
  | _ => {| bo_state := sessionFailureKind a; bo_cacheGeneration := bo_cacheGeneration b; bo_logoutAttempt := bo_logoutAttempt b; bo_logoutInFlight := bo_logoutInFlight b; bo_loads := bo_loads b - 1; bo_logouts := bo_logouts b |}
  end.

Definition retrySession (b : Boundary) : Boundary :=
  {| bo_state := au_loading; bo_cacheGeneration := bo_cacheGeneration b; bo_logoutAttempt := bo_logoutAttempt b; bo_logoutInFlight := bo_logoutInFlight b; bo_loads := S (bo_loads b); bo_logouts := bo_logouts b |}.

Definition logout (b : Boundary) : Boundary :=
  if bo_logoutInFlight b then b
  else {| bo_state := au_signing_out; bo_cacheGeneration := bo_cacheGeneration b; bo_logoutAttempt := S (bo_logoutAttempt b); bo_logoutInFlight := true; bo_loads := bo_loads b;
          bo_logouts := bo_logouts b ++ [S (bo_logoutAttempt b)] |}.

Definition loggedOut (attempt : nat) (a : Answer unit) (b : Boundary) : Boundary :=
  let settled := {| bo_state := bo_state b; bo_cacheGeneration := bo_cacheGeneration b; bo_logoutAttempt := bo_logoutAttempt b;
                    bo_logoutInFlight := if bool_decide (attempt = bo_logoutAttempt b) then false else bo_logoutInFlight b; bo_loads := bo_loads b;
                    bo_logouts := filter (λ k, k ≠ attempt) (bo_logouts b) |} in
  if negb (bool_decide (attempt = bo_logoutAttempt b)) then settled
  else with_state (match a with an_ok _ => au_signed_out | an_status status => if status =? 401 then au_signed_out else au_logout_failed | an_error => au_logout_failed end) settled.

(** Whether the application is rendered, and for whom. *)
Definition shownSession (b : Boundary) : option PersonSession := match bo_state b with au_authenticated s => Some s | _ => None end.

Inductive auth_step : Boundary → Boundary → Prop :=
| as_unauthorized b : auth_step b (expireSession b)
| as_loaded b a : bo_loads b ≠ 0 → auth_step b (loaded a b)
| as_retry b : bo_state b = au_unavailable → auth_step b (retrySession b)
| as_logout b : is_Some (shownSession b) ∨ bo_state b = au_logout_failed → auth_step b (logout b)
| as_logged_out b attempt a : attempt ∈ bo_logouts b → auth_step b (loggedOut attempt a b).

(** ** Returning *)

Lemma path_begins_with_slash segments : segments ≠ [] → String.prefix "/" (foldr (λ s t, "/" +:+ s +:+ t) "" segments) = true.
Proof. destruct segments as [|s l]; [done|]. intros _. cbn [foldr]. apply prefix_app. by eexists. Qed.

Lemma segments_not_empty segments path : segments ≠ [] → pathSegments path segments ≠ [].
Proof.
  revert path. induction segments as [|s rest IH]; intros path Hne; [done|]. cbn [pathSegments]. destruct rest as [|s' rest].
  - cbn [pathSegments]. rewrite decide_True by done. destruct (isDoubleDot s), (isSingleDot s); by apply app_cons_not_nil || (intros E; symmetry in E; by apply app_cons_not_nil in E).
  - by apply IH.
Qed.

Lemma splitOn_not_empty sep s : splitOn sep s ≠ [].
Proof. unfold splitOn. by destruct (split_go sep 0 s). Qed.

Lemma prefix_appended p s t : String.prefix p s = true → String.prefix p (s +:+ t) = true.
Proof. intros (b & ->)%prefix_app. apply prefix_app. exists (b +:+ t). by rewrite str_app_assoc. Qed.

(** The path to come back to begins with a slash, whatever was asked for; of an address that
    names a host only its own origin's path can be kept. *)
Theorem return_path_begins_with_slash hostUrl value : (∀ v u, hostUrl v = Some u → String.prefix "/" (ur_pathname u) = true) →
  String.prefix "/" (safeReturnPath hostUrl value) = true.
Proof.
  intros Hhost. unfold safeReturnPath. destruct value as [v|]; [|done]. destruct (_ || _ || _); [done|]. destruct (parseUrl hostUrl v) as [u|] eqn:Hu; [|done].
  case_bool_decide; [|done]. apply prefix_appended. unfold parseUrl in Hu.
  assert (∀ r, String.prefix "/" (ur_pathname (pathUrl r)) = true) as Hp.
  { intros r. unfold pathUrl. destruct (untilAny _ r) as [path after]. destruct (untilAny _ after). cbn [ur_pathname]. apply path_begins_with_slash, segments_not_empty.
    intros E. apply map_eq_nil in E. by apply splitOn_not_empty in E. }
  destruct (slice_from 1 (cleaned v)) as [|c rest]; [injection Hu as <-; apply Hp|]. destruct (isSlash c); [by eapply Hhost|]. injection Hu as <-. apply Hp.
Qed.

(** A path without dots comes back as it was. *)
Example plain_path_is_kept hostUrl : safeReturnPath hostUrl (Some "/workspaces/acme?tab=members#top") = "/workspaces/acme?tab=members#top".
Proof. vm_compute. reflexivity. Qed.

(** The check for a leading double slash comes before the address is parsed, and parsing takes dot
    segments out: a path that is let through can come out with a double slash, which a browser
    takes for a host. *)
Theorem return_path_can_name_a_host hostUrl : safeReturnPath hostUrl (Some "/.//evil.example/login") = "//evil.example/login".
Proof. vm_compute. reflexivity. Qed.

(** ** Signing in and out *)

(** A session is asked for only while loading, and at most one request to sign out is out, which is
    the one that the refs name. *)
Record boundary_ok (b : Boundary) : Prop := {
  bk_loads : bo_loads b ≠ 0 → bo_loads b = 1 ∧ bo_state b = au_loading;
  bk_flight : bo_logouts b = if bo_logoutInFlight b then [bo_logoutAttempt b] else [];
  bk_out : bo_logoutInFlight b = true ↔ bo_state b = au_signing_out
}.

Lemma boundary_step_ok b b' : boundary_ok b → auth_step b b' → boundary_ok b'.
Proof.
  intros [Hl Hf Ho]. destruct 1 as [b|b a Hn|b Hs|b Hs|b attempt a Ha].
  - unfold expireSession. destruct (bo_state b) eqn:E; try (split; rewrite ?E; done). split; cbn; [naive_solver|done|]. rewrite Ho. done.
  - destruct (Hl Hn) as [H1 H2]. assert (bo_logoutInFlight b = false) as Hff by (destruct (bo_logoutInFlight b); [|done]; rewrite H2 in Ho; naive_solver).
    destruct a as [session|status|]; cbn; split; cbn; rewrite ?H1, ?Hff in *; try done. split; [done|]. by destruct (status =? 401).
  - assert (bo_loads b = 0) as H0 by (destruct (decide (bo_loads b = 0)) as [?|Hn]; [done|]; destruct (Hl Hn); congruence).
    split; cbn; [by rewrite H0|done|]. rewrite Ho, Hs. done.
  - unfold logout. destruct (bo_logoutInFlight b) eqn:E; [split; rewrite ?E; done|]. split; cbn; [|by rewrite Hf|done].
    intros Hn. destruct (Hl Hn) as [_ Hload]. unfold shownSession in Hs. rewrite Hload in Hs. destruct Hs as [[? ?]|?]; done.
  - rewrite Hf in Ha. destruct (bo_logoutInFlight b) eqn:E; [|by apply elem_of_nil in Ha]. apply list_elem_of_singleton in Ha as ->.
    unfold loggedOut. rewrite bool_decide_true by done. cbn [negb]. assert (bo_state b = au_signing_out) as Hst by by apply Ho.
    assert (bo_loads b = 0) as H0 by (destruct (decide (bo_loads b = 0)) as [?|Hn]; [done|]; destruct (Hl Hn); congruence).
    split; cbn; [by rewrite H0| |].
    + rewrite Hf. by rewrite filter_cons_False by (by intros []).
    + split; [done|]. destruct a as [|status|]; try done. by destruct (status =? 401).
Qed.

Lemma boundary_run_ok sandbox b : rtc auth_step (mountBoundary sandbox) b → boundary_ok b.
Proof.
  intros Hr. apply (rtc_ind_r (R:=auth_step) (λ b, boundary_ok b) (mountBoundary sandbox)); [|by intros; eapply boundary_step_ok|done]. destruct sandbox; split; cbn; try done; naive_solver.
Qed.

(** The session is over: it expired, was refused, or is being signed out of. *)
Definition ended (s : AuthState) : bool := match s with au_expired | au_signed_out | au_signing_out | au_logout_failed => true | _ => false end.

Lemma ended_stays b b' : boundary_ok b → ended (bo_state b) = true → auth_step b b' → ended (bo_state b') = true.
Proof.
  intros [Hl Hf Ho] He. destruct 1 as [b|b a Hn|b Hs|b Hs|b attempt a Ha].
  - unfold expireSession. destruct (bo_state b) eqn:E; cbn; by rewrite ?E.
  - destruct (Hl Hn) as [_ H2]. by rewrite H2 in He.
  - by rewrite Hs in He.
  - unfold logout. by destruct (bo_logoutInFlight b).
  - unfold loggedOut. destruct (negb _); [done|]. cbn. destruct a as [|status|]; try done. by destruct (status =? 401).
Qed.

(** Once a session is over, the application is not shown again on this page, in whatever order
    answers, refusals and clicks come: coming back takes a new sign-in. *)
Theorem ended_session_stays_ended sandbox b b' : rtc auth_step (mountBoundary sandbox) b → ended (bo_state b) = true → rtc auth_step b b' → shownSession b' = None.
Proof.
  intros Hr He Hr'. assert (boundary_ok b' ∧ ended (bo_state b') = true) as [_ He'].
  { apply (rtc_ind_r (R:=auth_step) (λ b, boundary_ok b ∧ ended (bo_state b) = true) b); [by split; [eapply boundary_run_ok|]| |done].
    intros x y _ Hxy [Hok Hx]. split; [by eapply boundary_step_ok|by eapply ended_stays]. }
  unfold shownSession. by destruct (bo_state b').
Qed.

(** At most one request to sign out is out at a time. *)
Theorem one_sign_out_at_a_time sandbox b : rtc auth_step (mountBoundary sandbox) b → length (bo_logouts b) <= 1.
Proof. intros Hr. destruct (boundary_run_ok sandbox b Hr) as [_ -> _]. destruct (bo_logoutInFlight b); cbn; lia. Qed.

Definition ada : PersonSession := {| se_id := "s"; se_user_id := "u" |}.

(** Ada signs in, the server refuses a request, and signing out is not offered any more. *)
Lemma ended_session_stays_ended_witness : shownSession (expireSession (loaded (an_ok ada) (mountBoundary None))) = None.
Proof.
  apply (ended_session_stays_ended None (expireSession (loaded (an_ok ada) (mountBoundary None)))).
  - eapply rtc_l; [apply (as_loaded _ (an_ok ada)); done|]. eapply rtc_l; [apply as_unauthorized|]. apply rtc_refl.
  - reflexivity.
  - apply rtc_refl.
Defined.
