(* ===== verification/GraphBrowser.v ===== *)
(** * The browser of Graphs ([features/graphs/browser-filters.ts], [features/workspaces])

    The filters of the list of Graphs live in the address; renaming and deleting a Project from
    the list are conversations with the server ([graph-actions.ts]); a change of a member reloads
    what may have changed ([workspace-member-mutation.ts]).

    [URLSearchParams] is the list of its pairs; its text reads back as the same list. *)

From stdpp Require Import strings list.
From S2P Require Import Prelude Js JsText ApiClient.
#[local] Open Scope string_scope.
#[local] Open Scope list_scope.
#[local] Open Scope nat_scope.

(** ** Parameters of an address *)

Notation Params := (list (string * string)).

Definition params_get (k : string) (p : Params) : option string := snd <$> find (λ kv, bool_decide (kv.1 = k)) p.
Definition params_delete (k : string) (p : Params) : Params := filter (λ kv, kv.1 ≠ k) p.

(** [p.set(k, v)]: the first pair of the key gets the value, the others go. *)
Fixpoint params_set (k v : string) (p : Params) : Params :=
  match p with
  | [] => [(k, v)]
  | kv :: rest => if bool_decide (kv.1 = k) then (k, v) :: params_delete k rest else kv :: params_set k v rest
  end.

(** ** Filters *)

Inductive GraphBrowserView := gv_recent | gv_all.
#[export] Instance GraphBrowserView_eq_dec : EqDecision GraphBrowserView.
Proof. solve_decision. Defined.

Definition graphViewText (v : GraphBrowserView) : string := match v with gv_recent => "recent" | gv_all => "all" end.
Definition GRAPH_BROWSER_VIEWS : list GraphBrowserView := [gv_recent; gv_all].
Definition DEFAULT_GRAPH_BROWSER_VIEW : GraphBrowserView := gv_recent.
Definition GRAPH_BROWSER_QUERY_PARAM : string := "q".
Definition GRAPH_BROWSER_VIEW_PARAM : string := "view".
Definition GRAPH_BROWSER_LOCATION_PARAM : string := "location".
Definition MAX_QUERY_LENGTH : nat := 200.

Record GraphBrowserFilters := { gf_query : string; gf_view : GraphBrowserView }.

Definition parseGraphBrowserQuery (value : option string) : string :=
  match value with
  | None => ""
  | Some v => if MAX_QUERY_LENGTH <? String.length v then slice_to MAX_QUERY_LENGTH v else v
  end.

Definition parseGraphBrowserView (value : option string) : GraphBrowserView :=
  default DEFAULT_GRAPH_BROWSER_VIEW (find (λ v, bool_decide (Some (graphViewText v) = value)) GRAPH_BROWSER_VIEWS).

Definition readGraphBrowserFilters (search : Params) : GraphBrowserFilters :=
  {| gf_query := parseGraphBrowserQuery (params_get GRAPH_BROWSER_QUERY_PARAM search);
     gf_view := parseGraphBrowserView (params_get GRAPH_BROWSER_VIEW_PARAM search) |}.

Definition patchGraphBrowserFilters (search : Params) (patchQuery : option string) (patchView : option GraphBrowserView) : Params :=
  let current := readGraphBrowserFilters search in
  let query := match patchQuery with None => gf_query current | Some q => parseGraphBrowserQuery (Some q) end in
  let view := match patchView with None => gf_view current | Some v => parseGraphBrowserView (Some (graphViewText v)) end in
  let next := if bool_decide (query = "") then params_delete GRAPH_BROWSER_QUERY_PARAM search else params_set GRAPH_BROWSER_QUERY_PARAM query search in
  if bool_decide (view = DEFAULT_GRAPH_BROWSER_VIEW) then params_delete GRAPH_BROWSER_VIEW_PARAM next else params_set GRAPH_BROWSER_VIEW_PARAM (graphViewText view) next.

Definition serializeGraphBrowserSearch (serialized : string) : string := if bool_decide (serialized = "") then "" else "?" +:+ serialized.

Definition readRequestedLocation (search : Params) : option string :=
  slug ← params_get GRAPH_BROWSER_LOCATION_PARAM search; if bool_decide (trim slug = "") then None else Some (trim slug).

Definition searchForChosenLocation (search : Params) : Params := params_delete GRAPH_BROWSER_LOCATION_PARAM search.

(** ** Conversations with the server *)

Record HeadRef := { hr_room_epoch : string; hr_collaboration_sequence : nat; hr_checkpoint_sequence : nat; hr_name : string }.

Inductive ProjectCall :=
| call_head
| call_rename (commandId roomEpoch : string) (observedSequence : nat) (name expectedName : string)
| call_checkpoint (roomEpoch : string) (sequence : nat)
| call_delete (expected : option (string * nat)).

(** The calls that were made, and how it ended. *)
Definition Conversation (A : Type) : Type := list ProjectCall * res A.

Definition call {A B} (c : ProjectCall) (answer : res A) (k : A → Conversation B) : Conversation B :=
  match answer with Ok a => let '(cs, r) := k a in (c :: cs, r) | Throw m => ([c], Throw m) end.

Definition done_with {A} (a : A) : Conversation A := ([], Ok a).

Definition checkpointAt {B} (head : HeadRef) (answer : res unit) (k : unit → Conversation B) : Conversation B :=
  call (call_checkpoint (hr_room_epoch head) (hr_collaboration_sequence head)) answer k.

Definition renameProjectRemote (name commandId : string) (head accepted : res HeadRef) (checkpointed : res unit) : Conversation unit :=
  call call_head head (λ h,
  call (call_rename commandId (hr_room_epoch h) (hr_collaboration_sequence h) name (hr_name h)) accepted (λ a,
  checkpointAt a checkpointed (λ _, done_with tt))).

Definition deleteProjectRemote (confirmed : bool) (head : res HeadRef) (checkpointed : res unit) (settled : res HeadRef) (deleted : res unit) : Conversation bool :=
  if negb confirmed then done_with false
  else
    call call_head head (λ h,
    if hr_checkpoint_sequence h <? hr_collaboration_sequence h then
      checkpointAt h checkpointed (λ _,
      call call_head settled (λ s,
      call (call_delete (Some (hr_room_epoch s, hr_collaboration_sequence s))) deleted (λ _, done_with true)))
    else call (call_delete None) deleted (λ _, done_with true)).

(** ** Changes of members *)

Inductive MemberError := me_operation (status : option nat) | me_refresh.

(** The outcome, and whether the capabilities were reloaded; an operation fails with the status of
    an [ApiError] or with another error. *)
Definition executeMemberMutation (operation : option (option nat)) (refreshFails : bool) : option MemberError * bool :=
  match operation with
  | Some status => (Some (me_operation status), bool_decide (status = Some 403))
  | None => (if refreshFails then Some me_refresh else None, false)
  end.

(** ** Filters and addresses *)

Lemma get_delete_ne k k' p : k ≠ k' → params_get k (params_delete k' p) = params_get k p.
Proof.
  intros Hne. unfold params_get, params_delete. induction p as [|[a v] p IH]; [done|]. rewrite filter_cons. destruct (decide _) as [Ha|Ha]; cbn [find fst] in *.
  - case_bool_decide; [done|exact IH].
  - rewrite bool_decide_false; [exact IH|]. intros ->. apply Ha. cbn. congruence.
Qed.

Lemma get_delete_eq k p : params_get k (params_delete k p) = None.
Proof.
  unfold params_get, params_delete. induction p as [|[a v] p IH]; [done|]. rewrite filter_cons. destruct (decide _) as [Ha|Ha]; [|exact IH]. cbn [find fst] in *. by rewrite bool_decide_false.
Qed.

Lemma get_set_eq k v p : params_get k (params_set k v p) = Some v.
Proof.
  unfold params_get. induction p as [|[a w] p IH]; cbn [params_set find fst]; [by rewrite bool_decide_true|]. case_bool_decide as E; cbn [find fst]; [by rewrite bool_decide_true|]. by rewrite bool_decide_false.
Qed.

Lemma get_set_ne k k' v p : k ≠ k' → params_get k (params_set k' v p) = params_get k p.
Proof.
  intros Hne. induction p as [|[a w] p IH]; cbn [params_set fst]; [unfold params_get; cbn; by rewrite bool_decide_false|]. case_bool_decide as E.
  - subst a. unfold params_get at 1. cbn [find fst]. rewrite bool_decide_false by done. change (params_get k (params_delete k' p) = params_get k ((k', w) :: p)).
    rewrite get_delete_ne by done. unfold params_get. cbn [find fst]. by rewrite bool_decide_false.
  - unfold params_get in *. cbn [find fst]. case_bool_decide; [done|exact IH].
Qed.

Definition others (p : Params) : Params := filter (λ kv, kv.1 ≠ GRAPH_BROWSER_QUERY_PARAM ∧ kv.1 ≠ GRAPH_BROWSER_VIEW_PARAM) p.

Lemma others_delete k p : k = GRAPH_BROWSER_QUERY_PARAM ∨ k = GRAPH_BROWSER_VIEW_PARAM → others (params_delete k p) = others p.
Proof.
  intros Hk. unfold others, params_delete. rewrite list_filter_filter. apply list_filter_iff. intros [a v]. cbn. destruct Hk as [->| ->]; naive_solver.
Qed.

Lemma others_set k v p : k = GRAPH_BROWSER_QUERY_PARAM ∨ k = GRAPH_BROWSER_VIEW_PARAM → others (params_set k v p) = others p.
Proof.
  intros Hk. assert (∀ w, others [(k, w)] = []) as H1 by (intros w; destruct Hk as [->| ->]; reflexivity).
  assert (∀ kv l, others (kv :: l) = others [kv] ++ others l) as Hc by (intros kv l; unfold others; by rewrite <- filter_app).
  induction p as [|[a w] p IH]; cbn [params_set fst]; [apply H1|]. case_bool_decide as E.
  - subst a. rewrite (Hc (k, v)), (Hc (k, w)), !H1. by apply others_delete.
  - by rewrite Hc, IH, (Hc (a, w) p).
Qed.

Lemma parse_again q : parseGraphBrowserQuery (Some (parseGraphBrowserQuery q)) = parseGraphBrowserQuery q.
Proof.
  unfold parseGraphBrowserQuery. destruct q as [q|]; [|done]. destruct (MAX_QUERY_LENGTH <? String.length q) eqn:E; [|by rewrite E].
  rewrite length_slice. rewrite (proj2 (Nat.ltb_ge _ _)) by lia. done.
Qed.

Lemma parse_view v : parseGraphBrowserView (Some (graphViewText v)) = v.
Proof. by destruct v. Qed.

(** What an address says after a change of filters is what the change says, and for the rest what
    it said before; parameters of others travel through untouched. *)
Theorem patched_filters_read_back search patchQuery patchView :
  let next := patchGraphBrowserFilters search patchQuery patchView in
  gf_query (readGraphBrowserFilters next) = (match patchQuery with Some q => parseGraphBrowserQuery (Some q) | None => gf_query (readGraphBrowserFilters search) end) ∧
  gf_view (readGraphBrowserFilters next) = default (gf_view (readGraphBrowserFilters search)) patchView ∧
  others next = others search.
Proof.
  cbn zeta. unfold patchGraphBrowserFilters. set (query := match patchQuery with None => _ | Some q => _ end). set (view := match patchView with None => _ | Some v => _ end).
  assert (default (gf_view (readGraphBrowserFilters search)) patchView = view) as -> by (unfold view; destruct patchView; [by rewrite parse_view|done]).
  assert (parseGraphBrowserQuery (Some query) = query) as Hq by (unfold query; destruct patchQuery; [apply parse_again|cbn [readGraphBrowserFilters gf_query]; apply parse_again]).
  clearbody query view. set (mid := if bool_decide (query = "") then _ else _).
  assert (parseGraphBrowserQuery (params_get GRAPH_BROWSER_QUERY_PARAM mid) = query ∧ others mid = others search) as [Hm1 Hm2].
  { unfold mid. case_bool_decide as E; [subst; split; [by rewrite get_delete_eq|apply others_delete; auto]|]. split; [by rewrite get_set_eq|apply others_set; auto]. }
  clearbody mid. cbn [readGraphBrowserFilters gf_query gf_view]. case_bool_decide as E.
  - rewrite get_delete_ne by done. rewrite get_delete_eq. split; [done|]. split; [by rewrite E|]. rewrite others_delete by auto. done.
  - rewrite get_set_ne by done. rewrite get_set_eq, parse_view. split; [done|]. split; [done|]. rewrite others_set by auto. done.
Qed.

(** A filter on its default leaves the address. *)
Theorem default_filters_leave_the_address search :
  params_get GRAPH_BROWSER_QUERY_PARAM (patchGraphBrowserFilters search (Some "") (Some gv_recent)) = None ∧
  params_get GRAPH_BROWSER_VIEW_PARAM (patchGraphBrowserFilters search (Some "") (Some gv_recent)) = None.
Proof. unfold patchGraphBrowserFilters. cbn zeta. rewrite !bool_decide_true by done. rewrite get_delete_ne by done. by rewrite !get_delete_eq. Qed.

(** ** Projects *)

(** A checkpoint names the sequence that came back from the write, never the one read before. *)
Theorem rename_checkpoints_what_was_accepted name commandId head accepted checkpointed epoch sequence :
  call_checkpoint epoch sequence ∈ (renameProjectRemote name commandId head accepted checkpointed).1 →
  ∃ a, accepted = Ok a ∧ epoch = hr_room_epoch a ∧ sequence = hr_collaboration_sequence a.
Proof.
  unfold renameProjectRemote, checkpointAt, call. destruct head as [h|]; [|set_solver]. destruct accepted as [a|]; [|cbn; set_solver]. exists a. destruct checkpointed; cbn in *; set_solver.
Qed.

(** A Project is deleted only when the person agreed, and one with edits that are not saved only
    after they were saved, at the head that was read after that. *)
Theorem delete_saves_first confirmed head checkpointed settled deleted expected :
  call_delete expected ∈ (deleteProjectRemote confirmed head checkpointed settled deleted).1 →
  confirmed = true ∧ ∃ h, head = Ok h ∧
  if hr_checkpoint_sequence h <? hr_collaboration_sequence h
  then checkpointed = Ok tt ∧ ∃ s, settled = Ok s ∧ expected = Some (hr_room_epoch s, hr_collaboration_sequence s)
  else expected = None.
Proof.
  unfold deleteProjectRemote, checkpointAt, call. destruct confirmed; cbn [negb]; [|set_solver]. destruct head as [h|]; [|set_solver].
  intros Hd. split; [done|]. exists h. split; [done|]. destruct (_ <? _).
  - destruct checkpointed as [[]|]; [|set_solver]. split; [done|]. destruct settled as [s|]; [|cbn in *; set_solver]. exists s. split; [done|]. destruct deleted; cbn in *; set_solver.
  - destruct deleted; cbn in *; set_solver.
Qed.
