(* ===== verification/GraphModel.v ===== *)
(** * The data of an authored Graph

    The records of the API contract ([lib/api/generated/grafy.ts]) that the
    authoring code copies and edits, the authored document and its commands
    ([model/graph-document.ts]).  A field the contract marks optional or
    nullable is a [jsopt]: the code tells [undefined], [null] and a value apart
    and normalizes between them. *)

From S2P Require Import Prelude Js.

(** ** Contract records *)

Record GraphPoint := { pt_x : jsnum; pt_y : jsnum }.

Record GraphNodeLayout := {
  appendix_height : jsopt jsnum;
  body_height : jsopt jsnum;
  width : jsopt jsnum
}.

Record GraphInputPlug := { plug_id : string; plug_port : string }.

Record ArtifactTypeKey := { at_id : string; at_schema_version : jsnum }.

Record GraphArtifactTypeBinding := { variable : string; artifact_type : ArtifactTypeKey }.

Record GraphConversion := { conv_id : string; conv_version : jsnum }.

Record GraphProjection := { path : list string }.

Inductive GraphNodeKind := KBuiltin | KModule | KCall.

Inductive CollectionMode := MDirect | MMap.

Record GraphNode := {
  n_artifact_type_bindings : list GraphArtifactTypeBinding;
  n_config : jsopt jsobj;
  n_id : string;
  n_kind : GraphNodeKind;
  n_input_plugs : list GraphInputPlug;
  n_layout : jsopt GraphNodeLayout;
  n_operator_id : string;
  n_operator_version : jsnum;
  n_position : GraphPoint
}.

Record GraphEdge := {
  e_collection_mode : CollectionMode;
  e_conversion_path : list GraphConversion;
  e_enabled : bool;
  e_from_node : string;
  e_from_port : string;
  e_id : string;
  e_projection : jsopt GraphProjection;
  e_route_offset : jsopt GraphPoint;
  e_to_node : string;
  e_to_plug : jsopt string;
  e_to_port : string
}.

(** The held value is an artifact reference or a sequence of them; the authoring
    code only copies it. *)
Record GraphOrigin := {
  o_conversion_path : list GraphConversion;
  o_id : string;
  o_to_node : string;
  o_to_plug : jsopt string;
  o_to_port : string;
  o_value : jsval;
  o_collection_mode : CollectionMode
}.

Inductive AgentModelChoice :=
| DeploymentModel
| CustomModel (endpoint model : string).

Record GraphAgent := {
  a_id : string;
  a_name : string;
  a_instructions : string;
  a_model : jsopt AgentModelChoice;
  a_position : jsopt GraphPoint;
  a_width : jsnum;
  a_height : jsnum
}.

Record GraphPresentationViewer := {
  v_id : string;
  v_position : GraphPoint;
  v_layout : jsopt GraphNodeLayout;
  v_mode : jsopt string;
  v_artifact_ref : jsval
}.

Record GraphPresentationLink := {
  l_id : string;
  l_source_node_id : string;
  l_source_port_name : string;
  l_target_viewer_id : string;
  l_projection : jsopt GraphProjection;
  l_route_offset : jsopt GraphPoint
}.

Inductive BindingEffect := EffFilter | EffHighlight | EffFocus.

(** [empty_selection] is the constant ["show_all"]. *)
Record GraphPresentationBinding := {
  pb_id : string;
  pb_source_viewer_id : string;
  pb_target_viewer_id : string;
  pb_mappings : list (string * string);
  pb_effects : list BindingEffect
}.

Inductive AnnotationKind := AnnText | AnnRectangle | AnnEllipse.

Record GraphPresentationAnnotation := {
  an_id : string;
  an_kind : AnnotationKind;
  an_position : GraphPoint;
  an_layout : jsnum * jsnum;
  an_text : string;
  an_color : string
}.

Record GraphPresentation := {
  viewers : list GraphPresentationViewer;
  links : list GraphPresentationLink;
  bindings : list GraphPresentationBinding;
  annotations : list GraphPresentationAnnotation
}.

(** The stored document of one Graph.  [agents] is read with [?? []], so it may
    be missing from a stored body; [schema_version] is the constant 7. *)
Record GraphDocument := {
  d_nodes : list GraphNode;
  d_edges : list GraphEdge;
  d_origins : list GraphOrigin;
  d_agents : jsopt (list GraphAgent);
  d_presentation : jsopt GraphPresentation
}.

Record GraphDraft := { draft_name : string; draft_document : GraphDocument }.

(** ** The authored document *)

Record AuthoredGraphDocument := {
  name : string;
  nodes : list GraphNode;
  edges : list GraphEdge;
  origins : list GraphOrigin;
  agents : list GraphAgent
}.

(** A [Partial] update: [None] for a key that is not an own property.  A nullable
    field can be present as [undefined] or [null]. *)
Record SavedGraphEdgeUpdate := {
  u_collection_mode : option CollectionMode;
  u_enabled : option bool;
  u_projection : option (jsopt GraphProjection);
  u_conversion_path : option (jsopt (list GraphConversion));
  u_route_offset : option (jsopt GraphPoint);
  u_to_plug : option (jsopt string);
  u_from_port : option string;
  u_to_port : option string
}.

Record SavedGraphOriginUpdate := {
  uo_to_node : option string;
  uo_to_port : option string;
  uo_to_plug : option (jsopt string);
  uo_value : option jsval;
  uo_collection_mode : option CollectionMode;
  uo_conversion_path : option (jsopt (list GraphConversion))
}.

Record NodePosition := { np_node_id : string; np_x : jsnum; np_y : jsnum }.

Inductive GraphCommand :=
| rename_graph (nm : string)
| add_node (node : GraphNode)
| remove_nodes (node_ids : list string)
| move_nodes (positions : list NodePosition)
| update_node_configuration (node_id field : string) (value : jsval)
| update_node_layout (node_id : string) (layout : jsopt GraphNodeLayout)
| add_input_plug (node_id : string) (plug : GraphInputPlug)
| remove_input_plug (node_id plugId : string)
| reorder_input_plug (node_id port plugId : string) (to_index : jsnum)
| update_node_configuration_and_input_plugs
    (node_id : string) (config : jsobj) (input_plugs : list GraphInputPlug)
| bind_artifact_type (node_id var : string) (atype : ArtifactTypeKey)
| reset_artifact_type_binding (node_id var : string)
| add_edge (edge : GraphEdge)
| update_edge (edge_id : string) (update : SavedGraphEdgeUpdate)
| remove_edges (edge_ids : list string)
| add_origin (origin : GraphOrigin)
| update_origin (origin_id : string) (update : SavedGraphOriginUpdate)
| remove_origins (origin_ids : list string)
| add_agent (agent : GraphAgent)
| configure_agent (agent : GraphAgent)
| remove_agent (agent_id : string)
| replace_document (document : AuthoredGraphDocument).

(** ** Instances *)

#[export] Instance node_identified : Identified GraphNode := n_id.
#[export] Instance edge_identified : Identified GraphEdge := e_id.
#[export] Instance origin_identified : Identified GraphOrigin := o_id.
#[export] Instance agent_identified : Identified GraphAgent := a_id.
#[export] Instance viewer_identified : Identified GraphPresentationViewer := v_id.
#[export] Instance annotation_identified : Identified GraphPresentationAnnotation := an_id.

#[export] Instance point_eq_dec : EqDecision GraphPoint.
Proof. solve_decision. Defined.
#[export] Instance layout_eq_dec : EqDecision GraphNodeLayout.
Proof. solve_decision. Defined.
#[export] Instance plug_eq_dec : EqDecision GraphInputPlug.
Proof. solve_decision. Defined.
#[export] Instance atype_eq_dec : EqDecision ArtifactTypeKey.
Proof. solve_decision. Defined.
#[export] Instance binding_eq_dec : EqDecision GraphArtifactTypeBinding.
Proof. solve_decision. Defined.
#[export] Instance mode_eq_dec : EqDecision CollectionMode.
Proof. solve_decision. Defined.
#[export] Instance kind_eq_dec : EqDecision GraphNodeKind.
Proof. solve_decision. Defined.

(** ** Record updates ([{...x, field: v}]) *)

Definition set_config (c : jsobj) (n : GraphNode) : GraphNode :=
  {| n_artifact_type_bindings := n_artifact_type_bindings n; n_config := Val c; n_id := n_id n;
     n_kind := n_kind n; n_input_plugs := n_input_plugs n; n_layout := n_layout n;
     n_operator_id := n_operator_id n; n_operator_version := n_operator_version n;
     n_position := n_position n |}.

Definition set_plugs (ps : list GraphInputPlug) (n : GraphNode) : GraphNode :=
  {| n_artifact_type_bindings := n_artifact_type_bindings n; n_config := n_config n; n_id := n_id n;
     n_kind := n_kind n; n_input_plugs := ps; n_layout := n_layout n;
     n_operator_id := n_operator_id n; n_operator_version := n_operator_version n;
     n_position := n_position n |}.

Definition set_layout (l : jsopt GraphNodeLayout) (n : GraphNode) : GraphNode :=
  {| n_artifact_type_bindings := n_artifact_type_bindings n; n_config := n_config n; n_id := n_id n;
     n_kind := n_kind n; n_input_plugs := n_input_plugs n; n_layout := l;
     n_operator_id := n_operator_id n; n_operator_version := n_operator_version n;
     n_position := n_position n |}.

Definition set_bindings (bs : list GraphArtifactTypeBinding) (n : GraphNode) : GraphNode :=
  {| n_artifact_type_bindings := bs; n_config := n_config n; n_id := n_id n;
     n_kind := n_kind n; n_input_plugs := n_input_plugs n; n_layout := n_layout n;
     n_operator_id := n_operator_id n; n_operator_version := n_operator_version n;
     n_position := n_position n |}.

Definition set_position (p : GraphPoint) (n : GraphNode) : GraphNode :=
  {| n_artifact_type_bindings := n_artifact_type_bindings n; n_config := n_config n; n_id := n_id n;
     n_kind := n_kind n; n_input_plugs := n_input_plugs n; n_layout := n_layout n;
     n_operator_id := n_operator_id n; n_operator_version := n_operator_version n;
     n_position := p |}.

Definition set_kind (k : GraphNodeKind) (n : GraphNode) : GraphNode :=
  {| n_artifact_type_bindings := n_artifact_type_bindings n; n_config := n_config n; n_id := n_id n;
     n_kind := k; n_input_plugs := n_input_plugs n; n_layout := n_layout n;
     n_operator_id := n_operator_id n; n_operator_version := n_operator_version n;
     n_position := n_position n |}.

Definition with_name (s : string) (d : AuthoredGraphDocument) : AuthoredGraphDocument :=
  {| name := s; nodes := nodes d; edges := edges d; origins := origins d; agents := agents d |}.

Definition with_nodes (ns : list GraphNode) (d : AuthoredGraphDocument) : AuthoredGraphDocument :=
  {| name := name d; nodes := ns; edges := edges d; origins := origins d; agents := agents d |}.

Definition with_edges (es : list GraphEdge) (d : AuthoredGraphDocument) : AuthoredGraphDocument :=
  {| name := name d; nodes := nodes d; edges := es; origins := origins d; agents := agents d |}.

Definition with_origins (os : list GraphOrigin) (d : AuthoredGraphDocument) : AuthoredGraphDocument :=
  {| name := name d; nodes := nodes d; edges := edges d; origins := os; agents := agents d |}.

Definition with_agents (gs : list GraphAgent) (d : AuthoredGraphDocument) : AuthoredGraphDocument :=
  {| name := name d; nodes := nodes d; edges := edges d; origins := origins d; agents := gs |}.
