(* ===== verification/GraphCommands.v ===== *)
(** * Projections and the command transition of an authored Graph

    [model/graph-document.ts]: the projections that normalize a document, the
    draft sent to the server, and [applyGraphCommandNormalized], the transition
    every local gesture and every replayed remote command goes through. *)

From S2P Require Import Prelude Js GraphModel.

(** ** Projections *)

Definition projectSavedGraphLayout (layout : jsopt GraphNodeLayout) : jsopt GraphNodeLayout :=
  or_null (λ l, {| appendix_height := or_null id (appendix_height l);
                   body_height := or_null id (body_height l);
                   width := or_null id (width l) |}) layout.

Definition projectSavedGraphInputPlug (plug : GraphInputPlug) : GraphInputPlug :=
  {| plug_id := plug_id plug; plug_port := plug_port plug |}.

Definition projectArtifactTypeBinding (b : GraphArtifactTypeBinding) : GraphArtifactTypeBinding :=
  {| variable := variable b;
     artifact_type := {| at_id := at_id (artifact_type b);
                         at_schema_version := at_schema_version (artifact_type b) |} |}.

Definition projectSavedGraphNode (node : GraphNode) : GraphNode :=
  {| n_artifact_type_bindings := projectArtifactTypeBinding <$> n_artifact_type_bindings node;
     n_config := Val (structuredClone (jsopt_or (n_config node) []));
     n_id := n_id node;
     n_kind := n_kind node;
     n_input_plugs := projectSavedGraphInputPlug <$> n_input_plugs node;
     n_layout := projectSavedGraphLayout (n_layout node);
     n_operator_id := n_operator_id node;
     n_operator_version := n_operator_version node;
     n_position := {| pt_x := pt_x (n_position node); pt_y := pt_y (n_position node) |} |}.

Definition projectConversion (c : GraphConversion) : GraphConversion :=
  {| conv_id := conv_id c; conv_version := conv_version c |}.

Definition projectPoint (p : GraphPoint) : GraphPoint := {| pt_x := pt_x p; pt_y := pt_y p |}.

Definition projectPath (p : GraphProjection) : GraphProjection := {| path := path p |}.

Definition projectSavedGraphEdge (edge : GraphEdge) : GraphEdge :=
  {| e_collection_mode := e_collection_mode edge;
     e_conversion_path := projectConversion <$> e_conversion_path edge;
     e_enabled := e_enabled edge;
     e_from_node := e_from_node edge;
     e_from_port := e_from_port edge;
     e_id := e_id edge;
     e_projection := or_null projectPath (e_projection edge);
     e_route_offset := or_null projectPoint (e_route_offset edge);
     e_to_node := e_to_node edge;
     e_to_plug := or_null id (e_to_plug edge);
     e_to_port := e_to_port edge |}.

(** Only the update's own properties are projected. *)
Definition projectSavedGraphEdgeUpdate (update : SavedGraphEdgeUpdate) : SavedGraphEdgeUpdate :=
  {| u_collection_mode := u_collection_mode update;
     u_enabled := u_enabled update;
     u_projection := or_null projectPath <$> u_projection update;
     u_conversion_path := (λ c, Val (projectConversion <$> jsopt_or c [])) <$> u_conversion_path update;
     u_route_offset := or_null projectPoint <$> u_route_offset update;
     u_to_plug := or_null id <$> u_to_plug update;
     u_from_port := u_from_port update;
     u_to_port := u_to_port update |}.

Definition projectSavedGraphOrigin (origin : GraphOrigin) : GraphOrigin :=
  {| o_conversion_path := projectConversion <$> o_conversion_path origin;
     o_id := o_id origin;
     o_to_node := o_to_node origin;
     o_to_plug := or_null id (o_to_plug origin);
     o_to_port := o_to_port origin;
     o_value := structuredClone (o_value origin);
     o_collection_mode := o_collection_mode origin |}.

Definition projectSavedGraphOriginUpdate (update : SavedGraphOriginUpdate) : SavedGraphOriginUpdate :=
  {| uo_to_node := uo_to_node update;
     uo_to_port := uo_to_port update;
     uo_to_plug := or_null id <$> uo_to_plug update;
     uo_value := (λ v, if is_nullish v then v else structuredClone v) <$> uo_value update;
     uo_collection_mode := uo_collection_mode update;
     uo_conversion_path := (λ c, Val (projectConversion <$> jsopt_or c [])) <$> uo_conversion_path update |}.

Definition projectAgentModelChoice (choice : jsopt AgentModelChoice) : jsopt AgentModelChoice :=
  or_undefined (λ c, match c with
                     | CustomModel endpoint model => CustomModel endpoint model
                     | DeploymentModel => DeploymentModel
                     end) choice.

Definition projectSavedGraphAgent (agent : GraphAgent) : GraphAgent :=
  {| a_id := a_id agent;
     a_name := a_name agent;
     a_instructions := a_instructions agent;
     a_model := projectAgentModelChoice (a_model agent);
     a_position := or_undefined projectPoint (a_position agent);
     a_width := a_width agent;
     a_height := a_height agent |}.

(** ** Drafts *)

Definition authoredGraphDocument (value : GraphDraft) : AuthoredGraphDocument :=
  {| name := draft_name value;
     nodes := projectSavedGraphNode <$> d_nodes (draft_document value);
     edges := projectSavedGraphEdge <$> d_edges (draft_document value);
     origins := projectSavedGraphOrigin <$> d_origins (draft_document value);
     agents := projectSavedGraphAgent <$> jsopt_or (d_agents (draft_document value)) [] |}.

Definition emptyPresentation : GraphPresentation :=
  {| viewers := []; links := []; bindings := []; annotations := [] |}.

Definition presentationForDocument (presentation : GraphPresentation) (ns : list GraphNode) : GraphPresentation :=
  let nodeIds := ids ns in
  let viewerIds := ids (viewers presentation) in
  let links' := filter (λ l, l_source_node_id l ∈ nodeIds ∧ l_target_viewer_id l ∈ viewerIds) (links presentation) in
  let bindings' := filter (λ b, pb_source_viewer_id b ∈ viewerIds ∧ pb_target_viewer_id b ∈ viewerIds) (bindings presentation) in
  if (length links' =? length (links presentation)) && (length bindings' =? length (bindings presentation))
  then presentation
  else {| viewers := viewers presentation; links := links'; bindings := bindings';
          annotations := annotations presentation |}.

Definition createGraphDraft (document : AuthoredGraphDocument) (presentation : jsopt GraphPresentation) : GraphDraft :=
  {| draft_name := trim (name document);
     draft_document :=
       {| d_nodes := projectSavedGraphNode <$> nodes document;
          d_edges := projectSavedGraphEdge <$> edges document;
          d_origins := projectSavedGraphOrigin <$> origins document;
          d_agents := Val (projectSavedGraphAgent <$> agents document);
          d_presentation := Val (presentationForDocument (jsopt_or presentation emptyPresentation) (nodes document)) |} |}.

(** ** Lookups that throw *)

Definition nodeOrThrow (document : AuthoredGraphDocument) (nodeId : string) : res GraphNode :=
  match find_id nodeId (nodes document) with
  | Some node => Ok node
  | None => Throw ("Graph command targets missing node " +:+ nodeId)
  end.

Definition edgeOrThrow (document : AuthoredGraphDocument) (edgeId : string) : res GraphEdge :=
  match find_id edgeId (edges document) with
  | Some edge => Ok edge
  | None => Throw ("Graph command targets missing edge " +:+ edgeId)
  end.

Definition originOrThrow (document : AuthoredGraphDocument) (originId : string) : res GraphOrigin :=
  match find_id originId (origins document) with
  | Some origin => Ok origin
  | None => Throw ("Graph command targets missing origin " +:+ originId)
  end.

Definition agentOrThrow (document : AuthoredGraphDocument) (agentId : string) : res GraphAgent :=
  match find_id agentId (agents document) with
  | Some agent => Ok agent
  | None => Throw ("Graph command targets missing agent " +:+ agentId)
  end.

(** [updateNode]: every node with the id is replaced; the callback may throw. *)
Definition updateNode (document : AuthoredGraphDocument) (nodeId : string)
    (update : GraphNode → res GraphNode) : res AuthoredGraphDocument :=
  _ ← nodeOrThrow document nodeId;
  ns ← res_map (λ node, if bool_decide (n_id node = nodeId)
                        then update (structuredClone node) else Ok node) (nodes document);
  Ok (with_nodes ns document).

(** ** The transition, one definition per non-trivial case *)

Definition applyRemoveNodes (document : AuthoredGraphDocument) (node_ids : list string) : AuthoredGraphDocument :=
  {| name := name document;
     nodes := remove_ids node_ids (nodes document);
     edges := filter (λ e, e_from_node e ∉ node_ids ∧ e_to_node e ∉ node_ids) (edges document);
     origins := filter (λ o, o_to_node o ∉ node_ids) (origins document);
     agents := agents document |}.

(** [new Map(positions.map((p) => [p.node_id, p])).get(id)]: the last entry for
    an id wins. *)
Definition positionFor (i : string) (positions : list NodePosition) : option NodePosition :=
  snd <$> list_find (λ p, np_node_id p = i) (reverse positions).

Definition applyMoveNodes (document : AuthoredGraphDocument) (positions : list NodePosition) : res AuthoredGraphDocument :=
  _ ← res_map (λ p, nodeOrThrow document (np_node_id p)) positions;
  Ok (with_nodes
        ((λ node, match positionFor (n_id node) positions with
                  | Some p => set_position {| pt_x := np_x p; pt_y := np_y p |} node
                  | None => node
                  end) <$> nodes document) document).

Definition applyRemoveInputPlug (document : AuthoredGraphDocument) (node_id plugId : string) : res AuthoredGraphDocument :=
  next ← updateNode document node_id
    (λ node, Ok (set_plugs (filter (λ p, plug_id p ≠ plugId) (n_input_plugs node)) node));
  Ok {| name := name next; nodes := nodes next;
        edges := filter (λ e, e_to_node e ≠ node_id ∨ e_to_plug e ≠ Val plugId) (edges next);
        origins := filter (λ o, o_to_node o ≠ node_id ∨ o_to_plug o ≠ Val plugId) (origins next);
        agents := agents next |}.

(** The body of the [reorder_input_plug] update: take the plug out, put it back
    at the clamped index. *)
Definition reorderPlugs (port plugId : string) (to_index : jsnum) (plugs : list GraphInputPlug) : res (list GraphInputPlug) :=
  match list_find (λ p, plug_id p = plugId ∧ plug_port p = port) plugs with
  | None => Throw ("Graph command targets missing input plug " +:+ plugId)
  | Some (currentIndex, plug) =>
      let rest := delete currentIndex plugs in
      let k := clampIndex to_index (length rest) in
      Ok (take k rest ++ plug :: drop k rest)
  end.

Definition applyReorderInputPlug (document : AuthoredGraphDocument) (node_id port plugId : string)
    (to_index : jsnum) : res AuthoredGraphDocument :=
  updateNode document node_id
    (λ node, plugs ← reorderPlugs port plugId to_index (n_input_plugs node); Ok (set_plugs plugs node)).

(** An end at [node_id] survives when it names no plug or a retained one. *)
Definition plug_retained (retained : list string) (p : jsopt string) : Prop :=
  match p with Val i => i ∈ retained | _ => True end.

#[export] Instance plug_retained_dec retained p : Decision (plug_retained retained p).
Proof. destruct p; simpl; apply _. Defined.

Definition applyConfigurationAndInputPlugs (document : AuthoredGraphDocument) (node_id : string)
    (config : jsobj) (input_plugs : list GraphInputPlug) : res AuthoredGraphDocument :=
  next ← updateNode document node_id
    (λ node, Ok (set_plugs (projectSavedGraphInputPlug <$> input_plugs) (set_config (structuredClone config) node)));
  let retainedPlugIds := plug_id <$> input_plugs in
  Ok {| name := name next; nodes := nodes next;
        edges := filter (λ e, e_to_node e ≠ node_id ∨ plug_retained retainedPlugIds (e_to_plug e)) (edges next);
        origins := filter (λ o, o_to_node o ≠ node_id ∨ plug_retained retainedPlugIds (o_to_plug o)) (origins next);
        agents := agents next |}.

Definition applyBindArtifactType (document : AuthoredGraphDocument) (node_id var : string)
    (atype : ArtifactTypeKey) : res AuthoredGraphDocument :=
  updateNode document node_id
    (λ node, Ok (set_bindings
      (filter (λ b, variable b ≠ var) (n_artifact_type_bindings node) ++
       [{| variable := var;
           artifact_type := artifact_type (projectArtifactTypeBinding
                              {| variable := var; artifact_type := atype |}) |}]) node)).

Definition applyResetArtifactTypeBinding (document : AuthoredGraphDocument) (node_id var : string) : res AuthoredGraphDocument :=
  updateNode document node_id
    (λ node, Ok (set_bindings (filter (λ b, variable b ≠ var) (n_artifact_type_bindings node)) node)).

(** [{...edge, ...projected}] for a projected update, whose conversion path, when
    present, is a list. *)
Definition spreadEdgeUpdate (edge : GraphEdge) (u : SavedGraphEdgeUpdate) : GraphEdge :=
  {| e_collection_mode := default (e_collection_mode edge) (u_collection_mode u);
     e_conversion_path :=
       match u_conversion_path u with Some c => jsopt_or c [] | None => e_conversion_path edge end;
     e_enabled := default (e_enabled edge) (u_enabled u);
     e_from_node := e_from_node edge;
     e_from_port := default (e_from_port edge) (u_from_port u);
     e_id := e_id edge;
     e_projection := default (e_projection edge) (u_projection u);
     e_route_offset := default (e_route_offset edge) (u_route_offset u);
     e_to_node := e_to_node edge;
     e_to_plug := default (e_to_plug edge) (u_to_plug u);
     e_to_port := default (e_to_port edge) (u_to_port u) |}.

Definition applyUpdateEdge (document : AuthoredGraphDocument) (edge_id : string)
    (update : SavedGraphEdgeUpdate) : res AuthoredGraphDocument :=
  _ ← edgeOrThrow document edge_id;
  Ok (with_edges (map_id edge_id (λ e, spreadEdgeUpdate e (projectSavedGraphEdgeUpdate update)) (edges document)) document).

Definition spreadOriginUpdate (origin : GraphOrigin) (u : SavedGraphOriginUpdate) : GraphOrigin :=
  {| o_conversion_path :=
       match uo_conversion_path u with Some c => jsopt_or c [] | None => o_conversion_path origin end;
     o_id := o_id origin;
     o_to_node := default (o_to_node origin) (uo_to_node u);
     o_to_plug := default (o_to_plug origin) (uo_to_plug u);
     o_to_port := default (o_to_port origin) (uo_to_port u);
     o_value := default (o_value origin) (uo_value u);
     o_collection_mode := default (o_collection_mode origin) (uo_collection_mode u) |}.

Definition applyUpdateOrigin (document : AuthoredGraphDocument) (origin_id : string)
    (update : SavedGraphOriginUpdate) : res AuthoredGraphDocument :=
  _ ← originOrThrow document origin_id;
  Ok (with_origins (map_id origin_id (λ o, spreadOriginUpdate o (projectSavedGraphOriginUpdate update)) (origins document)) document).

Definition applyConfigureAgent (document : AuthoredGraphDocument) (agent : GraphAgent) : res AuthoredGraphDocument :=
  _ ← agentOrThrow document (a_id agent);
  let replacement := projectSavedGraphAgent agent in
  Ok (with_agents (map_id (a_id agent) (λ _, replacement) (agents document)) document).

Definition applyGraphCommandNormalized (document : AuthoredGraphDocument) (command : GraphCommand) : res AuthoredGraphDocument :=
  match command with
  | rename_graph nm => Ok (with_name nm document)
  | add_node node =>
      if some_id (n_id node) (nodes document)
      then Throw ("Graph command adds duplicate node " +:+ n_id node)
      else Ok (with_nodes (nodes document ++ [projectSavedGraphNode node]) document)
  | remove_nodes node_ids => Ok (applyRemoveNodes document node_ids)
  | move_nodes positions => applyMoveNodes document positions
  | update_node_configuration node_id field value =>
      updateNode document node_id
        (λ node, Ok (set_config (obj_set field (structuredClone value) (jsopt_or (n_config node) [])) node))
  | update_node_layout node_id layout =>
      updateNode document node_id (λ node, Ok (set_layout (projectSavedGraphLayout layout) node))
  | add_input_plug node_id plug =>
      updateNode document node_id
        (λ node, Ok (set_plugs (n_input_plugs node ++ [projectSavedGraphInputPlug plug]) node))
  | remove_input_plug node_id plugId => applyRemoveInputPlug document node_id plugId
  | reorder_input_plug node_id port plugId to_index =>
      applyReorderInputPlug document node_id port plugId to_index
  | update_node_configuration_and_input_plugs node_id config input_plugs =>
      applyConfigurationAndInputPlugs document node_id config input_plugs
  | bind_artifact_type node_id var atype => applyBindArtifactType document node_id var atype
  | reset_artifact_type_binding node_id var => applyResetArtifactTypeBinding document node_id var
  | add_edge edge =>
      if some_id (e_id edge) (edges document)
      then Throw ("Graph command adds duplicate edge " +:+ e_id edge)
      else Ok (with_edges (edges document ++ [projectSavedGraphEdge edge]) document)
  | update_edge edge_id update => applyUpdateEdge document edge_id update
  | remove_edges edge_ids => Ok (with_edges (remove_ids edge_ids (edges document)) document)
  | add_origin origin =>
      if some_id (o_id origin) (origins document)
      then Throw ("Graph command adds duplicate origin " +:+ o_id origin)
      else Ok (with_origins (origins document ++ [projectSavedGraphOrigin origin]) document)
  | update_origin origin_id update => applyUpdateOrigin document origin_id update
  | remove_origins origin_ids => Ok (with_origins (remove_ids origin_ids (origins document)) document)
  | add_agent agent =>
      if some_id (a_id agent) (agents document)
      then Throw ("Graph command adds duplicate agent " +:+ a_id agent)
      else Ok (with_agents (agents document ++ [projectSavedGraphAgent agent]) document)
  | configure_agent agent => applyConfigureAgent document agent
  | remove_agent agent_id =>
      Ok (with_agents (filter (λ a, a_id a ≠ agent_id) (agents document)) document)
  | replace_document doc => Ok (authoredGraphDocument (createGraphDraft doc Undef))
  end.

Definition applyGraphCommand (document : AuthoredGraphDocument) (command : GraphCommand) : res AuthoredGraphDocument :=
  applyGraphCommandNormalized (authoredGraphDocument (createGraphDraft document Undef)) command.

(** The normalization both entry points start from. *)
Definition normalize (document : AuthoredGraphDocument) : AuthoredGraphDocument :=
  authoredGraphDocument (createGraphDraft document Undef).
