(* ===== verification/Samples.v ===== *)
(** * Concrete documents

    A two-node document and a few commands on it, the inputs on which the
    properties' hypotheses are shown to hold. *)

From S2P Require Import Prelude Js GraphModel GraphCommands.

Definition pt (x y : Z) : GraphPoint := {| pt_x := num x; pt_y := num y |}.

Definition sample_node (i : string) (plugs : list GraphInputPlug) : GraphNode :=
  {| n_artifact_type_bindings := []; n_config := Val [("k", JBool true)]; n_id := i; n_kind := KBuiltin;
     n_input_plugs := plugs; n_layout := Null; n_operator_id := "op"; n_operator_version := num 1;
     n_position := pt 0 0 |}.

Definition sample_edge (i src dst : string) (plug : jsopt string) : GraphEdge :=
  {| e_collection_mode := MDirect; e_conversion_path := []; e_enabled := true; e_from_node := src;
     e_from_port := "out"; e_id := i; e_projection := Null; e_route_offset := Null; e_to_node := dst;
     e_to_plug := plug; e_to_port := "in" |}.

Definition sample_origin (i dst : string) (plug : jsopt string) : GraphOrigin :=
  {| o_conversion_path := []; o_id := i; o_to_node := dst; o_to_plug := plug; o_to_port := "in";
     o_value := JStr "artifact"; o_collection_mode := MDirect |}.

Definition plug_p : GraphInputPlug := {| plug_id := "p"; plug_port := "in" |}.
Definition plug_q : GraphInputPlug := {| plug_id := "q"; plug_port := "in" |}.

(** [a] feeds plug [p] of [b]; an origin feeds [b]'s plug [q]; [c] is alone. *)
Definition sample_doc : AuthoredGraphDocument :=
  {| name := "graph";
     nodes := [sample_node "a" []; sample_node "b" [plug_p; plug_q]; sample_node "c" []];
     edges := [sample_edge "e" "a" "b" (Val "p")];
     origins := [sample_origin "o" "b" (Val "q")];
     agents := [] |}.

Definition no_edge_update : SavedGraphEdgeUpdate :=
  {| u_collection_mode := None; u_enabled := None; u_projection := None; u_conversion_path := None;
     u_route_offset := None; u_to_plug := None; u_from_port := None; u_to_port := None |}.

Definition no_origin_update : SavedGraphOriginUpdate :=
  {| uo_to_node := None; uo_to_port := None; uo_to_plug := None; uo_value := None;
     uo_collection_mode := None; uo_conversion_path := None |}.
