(* ===== verification/GraphTheory.v ===== *)
(** * Correctness of the authored-document transition

    Normal forms of the projections, the batch shortcut, the id and reference
    invariants, and the exact error conditions of [applyGraphCommandNormalized]
    (GraphCommands).  Claim-level theorems carry their id in their comment. *)

From S2P Require Import Prelude Js GraphModel GraphCommands Samples.

(** ** Projections are idempotent and keep ids

    The promise every stored kind of object makes to the document operations. *)
Class Projection (A : Type) `{Identified A} := {
  project : A → A;
  project_idem : ∀ a, project (project a) = project a;
  project_ident : ∀ a, ident (project a) = ident a
}.

Lemma projectPoint_id p : projectPoint p = p.
Proof. by destruct p. Qed.

Lemma projectPath_id p : projectPath p = p.
Proof. by destruct p. Qed.

Lemma projectConversion_id (l : list GraphConversion) : projectConversion <$> l = l.
Proof. induction l as [|[] l IH]; simpl; [done|]. by f_equal. Qed.

Lemma projectInputPlug_id (l : list GraphInputPlug) : projectSavedGraphInputPlug <$> l = l.
Proof. induction l as [|[] l IH]; simpl; [done|]. by f_equal. Qed.

Lemma projectBinding_id (l : list GraphArtifactTypeBinding) : projectArtifactTypeBinding <$> l = l.
Proof. induction l as [|[? []] l IH]; simpl; [done|]. by f_equal. Qed.

Lemma projectLayout_idem l :
  projectSavedGraphLayout (projectSavedGraphLayout l) = projectSavedGraphLayout l.
Proof.
  unfold projectSavedGraphLayout. apply or_null_idem. intros []; simpl.
  by rewrite !or_null_idem by done.
Qed.

#[export] Hint Rewrite projectPoint_id projectPath_id projectConversion_id projectInputPlug_id
  projectBinding_id projectLayout_idem : project.

Lemma projectNode_idem n : projectSavedGraphNode (projectSavedGraphNode n) = projectSavedGraphNode n.
Proof. destruct n. unfold projectSavedGraphNode. simpl. by autorewrite with project. Qed.

Lemma projectEdge_idem e : projectSavedGraphEdge (projectSavedGraphEdge e) = projectSavedGraphEdge e.
Proof.
  destruct e. unfold projectSavedGraphEdge. simpl. autorewrite with project.
  rewrite (or_null_idem projectPath), (or_null_idem projectPoint), (or_null_idem id); [done..| |];
    intros; by autorewrite with project.
Qed.

Lemma projectOrigin_idem o : projectSavedGraphOrigin (projectSavedGraphOrigin o) = projectSavedGraphOrigin o.
Proof.
  destruct o. unfold projectSavedGraphOrigin. simpl. autorewrite with project.
  by rewrite (or_null_idem id).
Qed.

Lemma projectAgent_idem a : projectSavedGraphAgent (projectSavedGraphAgent a) = projectSavedGraphAgent a.
Proof.
  destruct a. unfold projectSavedGraphAgent, projectAgentModelChoice. simpl.
  rewrite (or_undefined_idem projectPoint) by (intros; by autorewrite with project).
  by rewrite or_undefined_idem by (intros []; done).
Qed.

#[export] Instance node_projection : Projection GraphNode :=
  {| project := projectSavedGraphNode; project_idem := projectNode_idem; project_ident := λ _, eq_refl |}.
#[export] Instance edge_projection : Projection GraphEdge :=
  {| project := projectSavedGraphEdge; project_idem := projectEdge_idem; project_ident := λ _, eq_refl |}.
#[export] Instance origin_projection : Projection GraphOrigin :=
  {| project := projectSavedGraphOrigin; project_idem := projectOrigin_idem; project_ident := λ _, eq_refl |}.
#[export] Instance agent_projection : Projection GraphAgent :=
  {| project := projectSavedGraphAgent; project_idem := projectAgent_idem; project_ident := λ _, eq_refl |}.

Section projection_lists.
Context {A : Type} `{Projection A}.

(** A list whose members are all in projected form. *)
Definition canonical (l : list A) : Prop := ∀ a, a ∈ l → project a = a.

Lemma canonical_project l : canonical (project <$> l).
Proof. intros a (b & -> & _)%list_elem_of_fmap. apply project_idem. Qed.

Lemma project_canonical l : canonical l → project <$> l = l.
Proof.
  intros Hl. rewrite <- (list_fmap_id l) at 2. apply list_fmap_ext.
  intros k a Ha. apply Hl. by eapply list_elem_of_lookup_2.
Qed.

Lemma ids_project l : ids (project <$> l) = ids l.
Proof.
  unfold ids. rewrite <- list_fmap_compose. apply list_fmap_ext. intros; apply project_ident.
Qed.

Lemma canonical_filter (P : A → Prop) `{∀ a, Decision (P a)} l :
  canonical l → canonical (filter P l).
Proof. intros Hl a [_ Ha]%list_elem_of_filter. by apply Hl. Qed.

Lemma canonical_snoc l a : canonical l → canonical (l ++ [project a]).
Proof.
  intros Hl b [Hb|Hb]%elem_of_app; [by apply Hl|].
  apply list_elem_of_singleton in Hb as ->. apply project_idem.
Qed.

Lemma canonical_map_id i f l :
  (∀ a, project a = a → project (f a) = f a) → canonical l → canonical (map_id i f l).
Proof.
  intros Hf Hl a [[Ha _]|(b & Hb & _ & ->)]%elem_of_map_id; [by apply Hl|]. auto.
Qed.

End projection_lists.

#[export] Hint Resolve canonical_project canonical_filter canonical_snoc canonical_map_id : grafy.

(** ** Normal documents *)

Record normal (d : AuthoredGraphDocument) : Prop := {
  normal_nodes : canonical (nodes d);
  normal_edges : canonical (edges d);
  normal_origins : canonical (origins d);
  normal_agents : canonical (agents d)
}.

Lemma normal_normalize d : normal (normalize d).
Proof.
  split; simpl.
  - exact (canonical_project (A := GraphNode) _).
  - exact (canonical_project (A := GraphEdge) _).
  - exact (canonical_project (A := GraphOrigin) _).
  - exact (canonical_project (A := GraphAgent) _).
Qed.

(** On a normal document, normalizing only trims the name. *)
Lemma normalize_normal d : normal d → normalize d = with_name (trim (name d)) d.
Proof.
  intros [Hn He Ho Ha]. unfold normalize, authoredGraphDocument, createGraphDraft, with_name. simpl.
  change projectSavedGraphNode with (project (A := GraphNode)).
  change projectSavedGraphEdge with (project (A := GraphEdge)).
  change projectSavedGraphOrigin with (project (A := GraphOrigin)).
  change projectSavedGraphAgent with (project (A := GraphAgent)).
  by rewrite !project_canonical by (rewrite ?project_canonical; done).
Qed.

Lemma normalize_ids d :
  ids (nodes (normalize d)) = ids (nodes d) ∧ ids (edges (normalize d)) = ids (edges d) ∧
  ids (origins (normalize d)) = ids (origins d) ∧ ids (agents (normalize d)) = ids (agents d).
Proof.
  unfold normalize. simpl. split_and!.
  - etrans; [exact (ids_project (A := GraphNode) _)|exact (ids_project (A := GraphNode) _)].
  - etrans; [exact (ids_project (A := GraphEdge) _)|exact (ids_project (A := GraphEdge) _)].
  - etrans; [exact (ids_project (A := GraphOrigin) _)|exact (ids_project (A := GraphOrigin) _)].
  - etrans; [exact (ids_project (A := GraphAgent) _)|exact (ids_project (A := GraphAgent) _)].
Qed.

(** *** [updateNode] as a pure function on the nodes *)

Lemma updateNode_ok d i f d' :
  updateNode d i f = Ok d' →
  i ∈ ids (nodes d) ∧
  ∃ ns, d' = with_nodes ns d ∧
    Forall2 (λ n n', if bool_decide (n_id n = i) then f n = Ok n' else n' = n) (nodes d) ns.
Proof.
  unfold updateNode, nodeOrThrow. destruct (find_id i (nodes d)) eqn:Hf; simpl; [|done].
  intros H. res_inv. split; [apply find_id_is_Some; eauto|].
  eexists. split; [done|]. apply res_map_Forall2 in E. eapply Forall2_impl; [done|].
  intros n n'. simpl. case_bool_decide; [done|]. by intros [= ->].
Qed.

(** The update of a command that does not throw inside the node. *)
Lemma updateNode_pure d i f :
  updateNode d i (λ n, Ok (f n)) =
  if some_id i (nodes d) then Ok (with_nodes (map_id i f (nodes d)) d)
  else Throw ("Graph command targets missing node " +:+ i).
Proof.
  unfold updateNode, nodeOrThrow. destruct (find_id i (nodes d)) as [n|] eqn:Hf; simpl.
  - assert (some_id i (nodes d) = true) as -> by (apply some_id_spec, find_id_is_Some; eauto).
    rewrite (res_map_ext _ (λ node, Ok (if bool_decide (n_id node = i) then f node else node))).
    + by rewrite res_map_ok.
    + intros n' _. by case_bool_decide.
  - apply find_id_None, some_id_false in Hf. by rewrite Hf.
Qed.

(** *** When an object is in projected form *)

Lemma or_null_fix {A} (f : A → A) (o : jsopt A) :
  (∀ a, f a = a) → or_null f o = o ↔ o ≠ Undef.
Proof. intros Hf. destruct o; simpl; rewrite ?Hf; naive_solver. Qed.

Lemma or_null_not_undef {A B} (f : A → B) (o : jsopt A) : or_null f o ≠ Undef.
Proof. by destruct o. Qed.

Lemma canon_node n :
  project n = n ↔ (∃ c, n_config n = Val c) ∧ projectSavedGraphLayout (n_layout n) = n_layout n.
Proof.
  destruct n as [bs c i k ps l oi ov p]. simpl. unfold projectSavedGraphNode. simpl.
  rewrite projectBinding_id, projectInputPlug_id. change {| pt_x := pt_x p; pt_y := pt_y p |} with (projectPoint p).
  rewrite projectPoint_id. unfold structuredClone. split.
  - intros [= Hc Hl]. eauto.
  - intros [[c' ->] ->]. done.
Qed.

Lemma canon_edge e :
  project e = e ↔ e_projection e ≠ Undef ∧ e_route_offset e ≠ Undef ∧ e_to_plug e ≠ Undef.
Proof.
  rewrite <- (or_null_fix projectPath) by apply projectPath_id.
  rewrite <- (or_null_fix projectPoint) by apply projectPoint_id.
  rewrite <- (or_null_fix id) by done.
  destruct e. simpl. unfold projectSavedGraphEdge. simpl. rewrite projectConversion_id.
  split; [by intros [= -> -> ->]|by intros (-> & -> & ->)].
Qed.

Lemma canon_origin o : project o = o ↔ o_to_plug o ≠ Undef.
Proof.
  rewrite <- (or_null_fix id) by done.
  destruct o. simpl. unfold projectSavedGraphOrigin. simpl. rewrite projectConversion_id.
  unfold structuredClone. split; [by intros [= ->]|by intros ->].
Qed.

(** Node updates made of the record updates keep the projected form. *)
Lemma canon_set_plugs ps n : project n = n → project (set_plugs ps n) = set_plugs ps n.
Proof. rewrite !canon_node. by destruct n. Qed.

Lemma canon_set_bindings bs n : project n = n → project (set_bindings bs n) = set_bindings bs n.
Proof. rewrite !canon_node. by destruct n. Qed.

Lemma canon_set_position p n : project n = n → project (set_position p n) = set_position p n.
Proof. rewrite !canon_node. by destruct n. Qed.

Lemma canon_set_config c n : project n = n → project (set_config c n) = set_config c n.
Proof. rewrite !canon_node. destruct n; simpl. naive_solver. Qed.

Lemma canon_set_layout l n :
  project n = n →
  project (set_layout (projectSavedGraphLayout l) n) = set_layout (projectSavedGraphLayout l) n.
Proof.
  rewrite !canon_node. destruct n; simpl. intros [Hc _]. split; [done|]. apply projectLayout_idem.
Qed.

Lemma canon_spread_edge e u :
  project e = e →
  project (spreadEdgeUpdate e (projectSavedGraphEdgeUpdate u)) = spreadEdgeUpdate e (projectSavedGraphEdgeUpdate u).
Proof.
  rewrite !canon_edge. intros (Hp & Hr & Ht).
  destruct e, u as [?? [?|] ? [?|] [?|] ??]; simpl in *; split_and!; try done; apply or_null_not_undef.
Qed.

Lemma canon_spread_origin o u :
  project o = o →
  project (spreadOriginUpdate o (projectSavedGraphOriginUpdate u)) = spreadOriginUpdate o (projectSavedGraphOriginUpdate u).
Proof.
  rewrite !canon_origin. destruct o, u as [?? [?|] ???]; simpl; eauto using or_null_not_undef.
Qed.

#[export] Hint Resolve canon_set_plugs canon_set_bindings canon_set_position canon_set_config
  canon_set_layout canon_spread_edge canon_spread_origin : grafy.

(** *** Reordering plugs *)

Lemma reorderPlugs_ok port i k ps ps' :
  reorderPlugs port i k ps = Ok ps' →
  ∃ l1 p l2, ps = l1 ++ p :: l2 ∧ plug_id p = i ∧ plug_port p = port ∧
    (∀ q, q ∈ l1 → ¬ (plug_id q = i ∧ plug_port q = port)) ∧
    let rest := l1 ++ l2 in let j := clampIndex k (length rest) in
    ps' = take j rest ++ p :: drop j rest.
Proof.
  unfold reorderPlugs.
  destruct (list_find _ ps) as [[n p]|] eqn:Hf; [|done]. intros [= <-].
  apply list_find_Some in Hf as (Hn & [Hi Hp] & Hbefore).
  exists (take n ps), p, (drop (S n) ps). split_and!; [by rewrite take_drop_middle|done|done| |].
  - intros q Hq [Hqi Hqp]. apply list_elem_of_lookup in Hq as [m Hm].
    apply lookup_take_Some in Hm as [Hm Hlt]. by eapply Hbefore.
  - by rewrite delete_take_drop.
Qed.

(** Normal form is kept by every command. *)
Lemma canonical_updated i f ns ns' :
  (∀ n n', project n = n → f n = Ok n' → project n' = n') →
  canonical ns →
  Forall2 (λ n n', if bool_decide (n_id n = i) then f n = Ok n' else n' = n) ns ns' → canonical ns'.
Proof.
  intros Hf Hns H2 n' Hn'. apply list_elem_of_lookup in Hn' as [k Hk].
  eapply Forall2_lookup_r in H2 as (n & Hn & Hr); [|done].
  apply list_elem_of_lookup_2, Hns in Hn. case_bool_decide; [eauto|by subst].
Qed.

Lemma updateNode_normal d i f d' :
  (∀ n n', project n = n → f n = Ok n' → project n' = n') →
  normal d → updateNode d i f = Ok d' → normal d'.
Proof.
  intros Hf [Hn He Ho Ha] (_ & ns & -> & H2)%updateNode_ok.
  split; simpl; [|done..]. by eapply canonical_updated.
Qed.

Lemma apply_normal d c d' :
  normal d → applyGraphCommandNormalized d c = Ok d' → normal d'.
Proof.
  intros Hd. pose proof Hd as [Hn He Ho Ha].
  destruct c; simpl; intros H;
    try (eapply updateNode_normal; [|exact Hd|exact H]; intros; res_inv; by auto with grafy);
    try (case_match; [discriminate|]); res_inv;
    try (split; simpl; by auto with grafy).
  - split; simpl; unfold remove_ids; by auto with grafy.
  - unfold applyMoveNodes in H. res_inv. split; simpl; [|done..].
    intros n (m & -> & Hm)%list_elem_of_fmap. case_match; auto with grafy.
  - unfold applyRemoveInputPlug in H. res_inv.
    eapply updateNode_normal in E; [|intros; res_inv; by auto with grafy|done].
    destruct E. split; simpl; auto with grafy.
  - unfold applyConfigurationAndInputPlugs in H. res_inv.
    eapply updateNode_normal in E; [|intros; res_inv; by auto with grafy|done].
    destruct E. split; simpl; auto with grafy.
  - unfold applyUpdateEdge in H. res_inv. split; simpl; auto with grafy.
  - split; simpl; unfold remove_ids; by auto with grafy.
  - unfold applyUpdateOrigin in H. res_inv. split; simpl; auto with grafy.
  - split; simpl; unfold remove_ids; by auto with grafy.
  - unfold applyConfigureAgent in H. res_inv. split; simpl; [done..|].
    apply canonical_map_id; [|done]. intros. exact (projectAgent_idem _).
Qed.

(** ** The batch shortcut

    [reduceWorkbenchAuthoringState] normalizes a document once and applies a
    whole batch with [applyGraphCommandNormalized]; the reference semantics
    normalizes before every command ([applyGraphCommand]).  They agree up to
    white space around the Graph's name, which only the next draft trims. *)

Record same_graph (d1 d2 : AuthoredGraphDocument) : Prop := {
  sg_name : trim (name d1) = trim (name d2);
  sg_nodes : nodes d1 = nodes d2;
  sg_edges : edges d1 = edges d2;
  sg_origins : origins d1 = origins d2;
  sg_agents : agents d1 = agents d2
}.

#[export] Instance same_graph_equiv : Equivalence same_graph.
Proof.
  split.
  - intros d. by split.
  - intros d1 d2 []. by split.
  - intros d1 d2 d3 [] []. split; congruence.
Qed.

(** Two outcomes agree: both throw the same message, or both return related
    values. *)
Inductive res_rel {A} (R : A → A → Prop) : res A → res A → Prop :=
| res_rel_ok a b : R a b → res_rel R (Ok a) (Ok b)
| res_rel_throw m : res_rel R (Throw m) (Throw m).

Lemma with_nodes_same ns d1 d2 : same_graph d1 d2 → same_graph (with_nodes ns d1) (with_nodes ns d2).
Proof. intros []. by split. Qed.

Lemma updateNode_same d1 d2 i f :
  same_graph d1 d2 → res_rel same_graph (updateNode d1 i f) (updateNode d2 i f).
Proof.
  intros Hs. pose proof Hs as []. unfold updateNode, nodeOrThrow. rewrite sg_nodes0.
  destruct (find_id i (nodes d2)); simpl; [|constructor].
  destruct (res_map _ (nodes d2)); simpl; constructor. by apply with_nodes_same.
Qed.

(** The transition reads the name only to pass it on. *)
#[export] Instance apply_proper :
  Proper (same_graph ==> eq ==> res_rel same_graph) applyGraphCommandNormalized.
Proof.
  intros d1 d2 Hs c _ <-. pose proof Hs as [Hnm Hn He Ho Ha].
  destruct c; simpl; try (by apply updateNode_same);
    unfold applyMoveNodes, applyRemoveInputPlug, applyConfigurationAndInputPlugs, applyUpdateEdge,
      applyUpdateOrigin, applyConfigureAgent, edgeOrThrow, originOrThrow, agentOrThrow;
    try (rewrite ?Hn, ?He, ?Ho, ?Ha; repeat case_match; simpl; constructor; split; simpl; congruence).
  - rewrite Hn. rewrite (res_map_ext _ (λ p, nodeOrThrow d2 (np_node_id p))).
    2:{ intros p _. unfold nodeOrThrow. by rewrite Hn. }
    destruct (res_map _ positions); simpl; constructor. split; simpl; congruence.
  - match goal with |- res_rel _ (mbind _ (updateNode d1 ?i ?f)) _ =>
      destruct (updateNode_same d1 d2 i f Hs) as [x y []|m] end; simpl; constructor.
    split; simpl; congruence.
  - match goal with |- res_rel _ (mbind _ (updateNode d1 ?i ?f)) _ =>
      destruct (updateNode_same d1 d2 i f Hs) as [x y []|m] end; simpl; constructor.
    split; simpl; congruence.
Qed.

Lemma normalize_same d : normal d → same_graph (normalize d) d.
Proof. intros Hd. rewrite normalize_normal by done. split; simpl; [apply trim_idem|done..]. Qed.

Lemma batch_same cs d1 d2 :
  normal d1 → same_graph d1 (normalize d2) →
  res_rel same_graph (res_fold applyGraphCommandNormalized d1 cs)
                     (normalize <$> res_fold applyGraphCommand d2 cs).
Proof.
  revert d1 d2. induction cs as [|c cs IH]; intros d1 d2 Hd1 Hs; simpl; [by constructor|].
  change (applyGraphCommand d2 c) with (applyGraphCommandNormalized (normalize d2) c).
  pose proof (apply_proper d1 (normalize d2) Hs c c eq_refl) as Hrel.
  inversion Hrel as [x y Hxy Hx Hy|m Hx Hy]; simpl; [|constructor].
  symmetry in Hx, Hy. apply IH; [by eapply apply_normal|].
  transitivity y; [done|]. symmetry. apply normalize_same.
  eapply apply_normal, Hy. apply normal_normalize.
Qed.

(** Normalizing once per batch is the same as normalizing before every
    command: the two runs throw the same error or end in documents that agree
    on everything but white space around the name. *)
Theorem batch_normalizes_once d cs :
  res_rel same_graph (res_fold applyGraphCommandNormalized (normalize d) cs)
                     (normalize <$> res_fold applyGraphCommand d cs).
Proof. apply batch_same; [apply normal_normalize|reflexivity]. Qed.

(** Normalization is idempotent. *)
Theorem normalize_idempotent d : normalize (normalize d) = normalize d.
Proof.
  rewrite normalize_normal by apply normal_normalize.
  unfold with_name, normalize, authoredGraphDocument, createGraphDraft. simpl. by rewrite trim_idem.
Qed.

(** ** Unique ids *)

Record unique_ids (d : AuthoredGraphDocument) : Prop := {
  un_nodes : NoDup (ids (nodes d));
  un_edges : NoDup (ids (edges d));
  un_origins : NoDup (ids (origins d));
  un_agents : NoDup (ids (agents d))
}.

(** Only a whole replacement can bring duplicate ids in. *)
Definition command_unique (c : GraphCommand) : Prop :=
  match c with replace_document doc => unique_ids doc | _ => True end.

Lemma updateNode_ids d i f d' :
  (∀ n n', f n = Ok n' → n_id n' = n_id n) →
  updateNode d i f = Ok d' → ids (nodes d') = ids (nodes d).
Proof.
  intros Hf (_ & ns & -> & H2)%updateNode_ok. simpl. unfold ids.
  induction H2 as [|n n' l l' Hn H2 IH]; simpl; [done|]. f_equal; [|done].
  change (n_id n' = n_id n). case_bool_decide; [by apply Hf|by subst].
Qed.

(** Every update of one node keeps the other components of the document. *)
Lemma updateNode_frame d i f d' :
  updateNode d i f = Ok d' → name d' = name d ∧ edges d' = edges d ∧ origins d' = origins d ∧ agents d' = agents d.
Proof. by intros (_ & ns & -> & _)%updateNode_ok. Qed.

Lemma updateNode_unique d i f d' :
  (∀ n n', f n = Ok n' → n_id n' = n_id n) →
  unique_ids d → updateNode d i f = Ok d' → unique_ids d'.
Proof.
  intros Hf [Hn He Ho Ha] Hu. pose proof (updateNode_frame _ _ _ _ Hu) as (_ & Hed & Hor & Hag).
  apply updateNode_ids in Hu; [|done]. split; by rewrite ?Hu, ?Hed, ?Hor, ?Hag.
Qed.

Lemma ids_fmap_same {A} `{Identified A} (f : A → A) l :
  (∀ a, ident (f a) = ident a) → ids (f <$> l) = ids l.
Proof. intros Hf. unfold ids. rewrite <- list_fmap_compose. apply list_fmap_ext. intros; apply Hf. Qed.

Lemma apply_unique_ids d c d' :
  unique_ids d → command_unique c → applyGraphCommandNormalized d c = Ok d' → unique_ids d'.
Proof.
  intros Hd Hc. pose proof Hd as [Hn He Ho Ha].
  destruct c; simpl; intros H;
    try (eapply updateNode_unique; [|exact Hd|exact H]; by intros; res_inv);
    try (destruct (some_id _ _) eqn:Hs; [discriminate|]; apply some_id_false in Hs); res_inv;
    try (split; simpl; unfold remove_ids; by auto with grafy).
  - unfold applyMoveNodes in H. res_inv. split; simpl; [|done..].
    rewrite (ids_fmap_same (A := GraphNode)); [done|]. intros n. by case_match.
  - unfold applyRemoveInputPlug in H. res_inv.
    eapply updateNode_unique in E; [|by intros; res_inv|done]. destruct E. split; simpl; auto with grafy.
  - unfold applyConfigurationAndInputPlugs in H. res_inv.
    eapply updateNode_unique in E; [|by intros; res_inv|done]. destruct E. split; simpl; auto with grafy.
  - unfold applyUpdateEdge in H. res_inv. split; simpl; [done| |done..]. by rewrite ids_map_id.
  - unfold applyUpdateOrigin in H. res_inv. split; simpl; [done..| |done]. by rewrite ids_map_id.
  - unfold applyConfigureAgent in H. res_inv. split; simpl; [done..|].
    rewrite ids_map_id; [done|]. by intros g ->.
  - change (unique_ids (normalize document)).
    destruct Hc as [? ? ? ?], (normalize_ids document) as (H1 & H2 & H3 & H4).
    split; [by rewrite H1|by rewrite H2|by rewrite H3|by rewrite H4].
Qed.

(** No command makes two nodes, two edges, two origins or two agents of a
    document share an id, whatever the order of the commands (a replacement
    document has to come with unique ids itself). *)
Theorem batch_keeps_unique_ids d cs d' :
  unique_ids d → Forall command_unique cs →
  res_fold applyGraphCommandNormalized d cs = Ok d' → unique_ids d'.
Proof.
  intros Hd Hcs. apply res_fold_inv; [|done]. intros s c s' Hc Hs Happ.
  eapply apply_unique_ids; [done| |done]. by eapply Forall_forall in Hcs.
Qed.

(** ** References *)

(** An input end exists: the node is there and, when the end names a plug, the
    node has it. *)
Definition end_ok (ns : list GraphNode) (n : string) (p : jsopt string) : Prop :=
  ∃ node, node ∈ ns ∧ n_id node = n ∧ plug_retained (plug_id <$> n_input_plugs node) p.

(** No edge and no origin of the document dangles. *)
Record refs_ok (d : AuthoredGraphDocument) : Prop := {
  ro_edges : ∀ e, e ∈ edges d →
    e_from_node e ∈ ids (nodes d) ∧ end_ok (nodes d) (e_to_node e) (e_to_plug e);
  ro_origins : ∀ o, o ∈ origins d → end_ok (nodes d) (o_to_node o) (o_to_plug o)
}.

(** What a command that adds or retargets an end must name. *)
Definition command_refs (d : AuthoredGraphDocument) (c : GraphCommand) : Prop :=
  match c with
  | add_edge e => e_from_node e ∈ ids (nodes d) ∧ end_ok (nodes d) (e_to_node e) (e_to_plug e)
  | update_edge i u =>
      ∀ e p, e ∈ edges d → e_id e = i → u_to_plug u = Some p → end_ok (nodes d) (e_to_node e) p
  | add_origin o => end_ok (nodes d) (o_to_node o) (o_to_plug o)
  | update_origin i u =>
      ∀ o, o ∈ origins d → o_id o = i →
        end_ok (nodes d) (default (o_to_node o) (uo_to_node u)) (default (o_to_plug o) (uo_to_plug u))
  | replace_document doc => refs_ok doc
  | _ => True
  end.

Lemma plug_retained_or_null ks p : plug_retained ks (or_null id p) ↔ plug_retained ks p.
Proof. by destruct p. Qed.

Lemma end_ok_or_null ns n p : end_ok ns n (or_null id p) ↔ end_ok ns n p.
Proof. unfold end_ok. by setoid_rewrite plug_retained_or_null. Qed.

Lemma plug_retained_mono ks ks' p :
  (∀ k, k ∈ ks → k ∈ ks') → plug_retained ks p → plug_retained ks' p.
Proof. destruct p; simpl; auto. Qed.

(** Replacing nodes by nodes with the same id and at least the same plugs keeps
    every end. *)
Definition nodes_cover (ns ns' : list GraphNode) : Prop :=
  ∀ n, n ∈ ns → ∃ n', n' ∈ ns' ∧ n_id n' = n_id n ∧
    ∀ k, k ∈ plug_id <$> n_input_plugs n → k ∈ plug_id <$> n_input_plugs n'.

Lemma end_ok_cover ns ns' n p : nodes_cover ns ns' → end_ok ns n p → end_ok ns' n p.
Proof.
  intros Hc (m & Hm & Hi & Hp). destruct (Hc m Hm) as (m' & Hm' & Hi' & Hk).
  exists m'. split_and!; [done|congruence|]. by eapply plug_retained_mono.
Qed.

Lemma ids_cover ns ns' i : nodes_cover ns ns' → i ∈ ids ns → i ∈ ids ns'.
Proof.
  intros Hc (m & Hm & <-)%elem_of_ids. destruct (Hc m Hm) as (m' & Hm' & Hi' & _).
  apply elem_of_ids. by exists m'.
Qed.

Lemma refs_ok_cover d ns' : nodes_cover (nodes d) ns' → refs_ok d → refs_ok (with_nodes ns' d).
Proof.
  intros Hc [He Ho]. split; simpl.
  - intros e [H1 H2]%He. split; [by eapply ids_cover|by eapply end_ok_cover].
  - intros o H1%Ho. by eapply end_ok_cover.
Qed.

(** Fewer edges and origins keep the invariant. *)
Lemma refs_ok_sub d es os :
  (∀ e, e ∈ es → e ∈ edges d) → (∀ o, o ∈ os → o ∈ origins d) → refs_ok d →
  refs_ok (with_origins os (with_edges es d)).
Proof. intros Hes Hos [He Ho]. split; simpl; auto. Qed.

(** [updateNode] with a callback that keeps the id and the plugs. *)
Lemma updateNode_cover d i f d' :
  (∀ n n', f n = Ok n' → n_id n' = n_id n ∧
     ∀ k, k ∈ plug_id <$> n_input_plugs n → k ∈ plug_id <$> n_input_plugs n') →
  updateNode d i f = Ok d' → nodes_cover (nodes d) (nodes d').
Proof.
  intros Hf (_ & ns & -> & H2)%updateNode_ok n Hn. simpl.
  apply list_elem_of_lookup in Hn as [k Hk]. eapply Forall2_lookup_l in H2 as (n' & Hn' & Hr); [|done].
  exists n'. split; [by eapply list_elem_of_lookup_2|]. case_bool_decide; [by apply Hf|by subst].
Qed.

Lemma updateNode_refs d i f d' :
  (∀ n n', f n = Ok n' → n_id n' = n_id n ∧
     ∀ k, k ∈ plug_id <$> n_input_plugs n → k ∈ plug_id <$> n_input_plugs n') →
  refs_ok d → updateNode d i f = Ok d' → refs_ok d'.
Proof.
  intros Hf Hd Hu. pose proof (updateNode_cover _ _ _ _ Hf Hu) as Hc.
  apply updateNode_ok in Hu as (_ & ns & -> & _). by apply refs_ok_cover.
Qed.

Lemma removeNodes_refs d ks : refs_ok d → refs_ok (applyRemoveNodes d ks).
Proof.
  intros [He Ho].
  assert (∀ n p, n ∉ ks → end_ok (nodes d) n p → end_ok (remove_ids ks (nodes d)) n p) as Hend.
  { intros n p Hn (m & Hm & <- & Hp). exists m. split_and!; [by apply elem_of_remove_ids|done..]. }
  split; simpl.
  - intros e [[Hf Ht] [H1 H2]%He]%list_elem_of_filter. split; [by apply ids_remove_ids|auto].
  - intros o [Ht H1%Ho]%list_elem_of_filter. auto.
Qed.

Lemma moveNodes_refs d ps d' : refs_ok d → applyMoveNodes d ps = Ok d' → refs_ok d'.
Proof.
  intros Hd H. unfold applyMoveNodes in H. res_inv. apply refs_ok_cover; [|done].
  intros n Hn. eexists. split; [apply list_elem_of_fmap; eauto|]. by case_match.
Qed.

(** [updateNode] that sets the plugs, followed by dropping the ends at that node
    whose plug did not stay: no end dangles. *)
Lemma setPlugs_refs d i f d' (keep : jsopt string → Prop) `{∀ p, Decision (keep p)} :
  (∀ n n', n ∈ nodes d → n_id n = i → f n = Ok n' → n_id n' = i ∧
     ∀ p, keep p → plug_retained (plug_id <$> n_input_plugs n) p →
          plug_retained (plug_id <$> n_input_plugs n') p) →
  refs_ok d → updateNode d i f = Ok d' →
  refs_ok {| name := name d'; nodes := nodes d';
             edges := filter (λ e, e_to_node e ≠ i ∨ keep (e_to_plug e)) (edges d');
             origins := filter (λ o, o_to_node o ≠ i ∨ keep (o_to_plug o)) (origins d');
             agents := agents d' |}.
Proof.
  intros Hf [He Ho] (_ & ns & -> & H2)%updateNode_ok. simpl.
  assert (∀ n, n ∈ nodes d → ∃ n', n' ∈ ns ∧ n_id n' = n_id n ∧
            ∀ p, n_id n ≠ i ∨ keep p → plug_retained (plug_id <$> n_input_plugs n) p →
                 plug_retained (plug_id <$> n_input_plugs n') p) as Hcov.
  { intros n Hn. pose proof Hn as Hin. apply list_elem_of_lookup in Hn as [k Hk].
    eapply Forall2_lookup_l in H2 as (n' & Hn' & Hr); [|done].
    exists n'. split; [by eapply list_elem_of_lookup_2|]. case_bool_decide as Hi; [|by subst].
    destruct (Hf n n' Hin Hi Hr) as [Hid Hp]. split; [congruence|].
    intros p [?|Hkeep]; [done|by apply Hp]. }
  assert (∀ n p, n ≠ i ∨ keep p → end_ok (nodes d) n p → end_ok ns n p) as Hend.
  { intros n p Hk (m & Hm & <- & Hp). destruct (Hcov m Hm) as (m' & Hm' & Hi' & Hp').
    exists m'. split_and!; auto. }
  split; simpl.
  - intros e [Hk [H3 H4]%He]%list_elem_of_filter. split; [|auto].
    apply elem_of_ids in H3 as (m & Hm & <-). destruct (Hcov m Hm) as (m' & Hm' & Hi' & _).
    apply elem_of_ids. by exists m'.
  - intros o [Hk H3%Ho]%list_elem_of_filter. auto.
Qed.

Lemma removeInputPlug_refs d i k d' : refs_ok d → applyRemoveInputPlug d i k = Ok d' → refs_ok d'.
Proof.
  intros Hd H. unfold applyRemoveInputPlug in H. res_inv.
  refine (setPlugs_refs d i _ a (λ p, p ≠ Val k) _ Hd E).
  intros n n' _ Hi ?. res_inv. split; [done|]. intros [| |p] Hk Hp; simpl in *; [done..|].
  apply list_elem_of_fmap in Hp as (q & -> & Hq). apply list_elem_of_fmap. exists q.
  split; [done|]. apply list_elem_of_filter. split; [congruence|done].
Qed.

Lemma configurationAndInputPlugs_refs d i c ps d' :
  refs_ok d → applyConfigurationAndInputPlugs d i c ps = Ok d' → refs_ok d'.
Proof.
  intros Hd H. unfold applyConfigurationAndInputPlugs in H. res_inv.
  refine (setPlugs_refs d i _ a (plug_retained (plug_id <$> ps)) _ Hd E).
  intros n n' _ Hi ?. res_inv. split; [done|]. intros p Hk _. simpl. by rewrite projectInputPlug_id.
Qed.

(** Reordering permutes the plugs. *)
Lemma reorderPlugs_perm port i k ps ps' : reorderPlugs port i k ps = Ok ps' → ps' ≡ₚ ps.
Proof.
  intros (l1 & p & l2 & -> & _ & _ & _ & ->)%reorderPlugs_ok. simpl.
  rewrite <- !Permutation_middle. by rewrite take_drop.
Qed.

Lemma updateEdge_refs d i u d' :
  refs_ok d → command_refs d (update_edge i u) → applyUpdateEdge d i u = Ok d' → refs_ok d'.
Proof.
  intros [He Ho] Hc H. unfold applyUpdateEdge in H. res_inv. split; simpl; [|done].
  intros e [[H1 _]|(e0 & H1 & Hi & ->)]%elem_of_map_id; [by apply He|].
  destruct (He e0 H1) as [H2 H3]. split; [done|]. simpl.
  destruct (u_to_plug u) as [p|] eqn:Hp; simpl; [|done].
  apply end_ok_or_null. eapply Hc; eauto.
Qed.

Lemma updateOrigin_refs d i u d' :
  refs_ok d → command_refs d (update_origin i u) → applyUpdateOrigin d i u = Ok d' → refs_ok d'.
Proof.
  intros [He Ho] Hc H. unfold applyUpdateOrigin in H. res_inv. split; simpl; [done|].
  intros o [[H1 _]|(o0 & H1 & Hi & ->)]%elem_of_map_id; [by apply Ho|].
  specialize (Hc o0 H1 Hi). simpl. destruct (uo_to_plug u) as [p|]; simpl in *; [|done].
  by apply end_ok_or_null.
Qed.

Lemma normalize_refs d : refs_ok d → refs_ok (normalize d).
Proof.
  intros [He Ho].
  assert (nodes_cover (nodes d) (nodes (normalize d))) as Hc.
  { intros n Hn. exists (projectSavedGraphNode (projectSavedGraphNode n)).
    split; [|by split; [done|]; simpl; rewrite !projectInputPlug_id].
    simpl. apply list_elem_of_fmap. exists (projectSavedGraphNode n). split; [done|].
    by apply list_elem_of_fmap; eauto. }
  split; simpl.
  - intros e (e1 & -> & (e0 & -> & [H1 H2]%He)%list_elem_of_fmap)%list_elem_of_fmap. simpl.
    rewrite !end_ok_or_null. split; [by eapply ids_cover|by eapply end_ok_cover].
  - intros o (o1 & -> & (o0 & -> & H1%Ho)%list_elem_of_fmap)%list_elem_of_fmap. simpl.
    rewrite !end_ok_or_null. by eapply end_ok_cover.
Qed.

Lemma apply_refs d c d' :
  refs_ok d → command_refs d c → applyGraphCommandNormalized d c = Ok d' → refs_ok d'.
Proof.
  intros Hd Hc. pose proof Hd as [He Ho].
  destruct c; simpl; intros H;
    eauto using moveNodes_refs, removeInputPlug_refs, configurationAndInputPlugs_refs,
      updateEdge_refs, updateOrigin_refs;
    try (eapply updateNode_refs; [|exact Hd|exact H]; intros; res_inv; by (split; [done|])).
  - res_inv. by split.
  - destruct (some_id _ _); res_inv. apply refs_ok_cover; [|done].
    intros n Hn. exists n. split_and!; [apply elem_of_app; by left|done..].
  - res_inv. by apply removeNodes_refs.
  - eapply updateNode_refs; [|exact Hd|exact H]. intros. res_inv. split; [done|].
    simpl. intros k Hk. rewrite fmap_app. apply elem_of_app. by left.
  - eapply updateNode_refs; [|exact Hd|exact H]. intros n n' Hr. res_inv. split; [done|].
    simpl. intros k. apply reorderPlugs_perm in E. by rewrite E.
  - destruct (some_id _ _); res_inv. split; simpl; [|done].
    intros e [Hin|Hin]%elem_of_app; [by apply He|]. apply list_elem_of_singleton in Hin as ->. simpl.
    by rewrite end_ok_or_null.
  - res_inv. apply (refs_ok_sub d _ (origins d)); [|done..]. intros e. by intros [? _]%elem_of_remove_ids.
  - destruct (some_id _ _); res_inv. split; simpl; [done|].
    intros o [Hin|Hin]%elem_of_app; [by apply Ho|]. apply list_elem_of_singleton in Hin as ->. simpl.
    by rewrite end_ok_or_null.
  - res_inv. apply (refs_ok_sub d (edges d)); [done| |done]. intros o. by intros [? _]%elem_of_remove_ids.
  - destruct (some_id _ _); res_inv. by split.
  - unfold applyConfigureAgent in H. res_inv. by split.
  - res_inv. by split.
  - res_inv. by apply normalize_refs.
Qed.

(** Every command of the batch names ends that exist when its turn comes. *)
Fixpoint batch_refs (d : AuthoredGraphDocument) (cs : list GraphCommand) : Prop :=
  match cs with
  | [] => True
  | c :: cs' => command_refs d c ∧ ∀ d', applyGraphCommandNormalized d c = Ok d' → batch_refs d' cs'
  end.

(** C3: what a batch of commands removes leaves no dangling edge or origin behind: removing
    nodes takes their edges and origins along, and removing or replacing input plugs takes the
    ends at those plugs along.  This is a statement of batches that name what exists: the
    document has no dangling end to begin with, each command that adds an edge or an origin or
    moves one to another node or plug names nodes and plugs that exist when its turn comes,
    and a document that replaces the whole has no dangling end itself.  The transition does not
    check this: it takes an edge between nodes that do not exist. *)
Theorem batch_keeps_references d cs d' :
  refs_ok d → batch_refs d cs →
  res_fold applyGraphCommandNormalized d cs = Ok d' → refs_ok d'.
Proof.
  revert d. induction cs as [|c cs IH]; intros d Hd Hb H; simpl in *; res_inv; [done|].
  destruct Hb as [Hc Hb]. eapply IH; [|by apply Hb|done]. by eapply apply_refs.
Qed.

(** ** Errors *)

(** The commands the transition accepts in a document. *)
Definition command_admissible (d : AuthoredGraphDocument) (c : GraphCommand) : bool :=
  match c with
  | rename_graph _ | remove_nodes _ | remove_edges _ | remove_origins _ | remove_agent _
  | replace_document _ => true
  | add_node n => negb (some_id (n_id n) (nodes d))
  | add_edge e => negb (some_id (e_id e) (edges d))
  | add_origin o => negb (some_id (o_id o) (origins d))
  | add_agent g => negb (some_id (a_id g) (agents d))
  | move_nodes ps => forallb (λ p, some_id (np_node_id p) (nodes d)) ps
  | update_node_configuration i _ _ | update_node_layout i _ | add_input_plug i _
  | remove_input_plug i _ | update_node_configuration_and_input_plugs i _ _
  | bind_artifact_type i _ _ | reset_artifact_type_binding i _ => some_id i (nodes d)
  | reorder_input_plug i port k _ =>
      some_id i (nodes d) &&
      forallb (λ n, negb (bool_decide (n_id n = i)) ||
                    existsb (λ p, bool_decide (plug_id p = k) && bool_decide (plug_port p = port)) (n_input_plugs n))
              (nodes d)
  | update_edge i _ => some_id i (edges d)
  | update_origin i _ => some_id i (origins d)
  | configure_agent g => some_id (a_id g) (agents d)
  end.

Lemma some_id_find {A} `{Identified A} i (l : list A) :
  some_id i l = match find_id i l with Some _ => true | None => false end.
Proof.
  destruct (find_id i l) eqn:E; [apply some_id_spec, find_id_is_Some; eauto|].
  by apply some_id_false, find_id_None.
Qed.

Lemma updateNode_is_ok d i f :
  is_ok (updateNode d i f) =
  some_id i (nodes d) && forallb (λ n, negb (bool_decide (n_id n = i)) || is_ok (f n)) (nodes d).
Proof.
  unfold updateNode, nodeOrThrow. rewrite some_id_find. destruct (find_id i (nodes d)); simpl; [|done].
  transitivity (is_ok (res_map (λ n, if bool_decide (n_id n = i) then f (structuredClone n) else Ok n) (nodes d))).
  { by destruct (res_map _ (nodes d)). }
  apply eq_bool_prop_intro. rewrite !Is_true_true, res_map_is_ok, forallb_forall.
  setoid_rewrite list_elem_of_In.
  apply forall_proper. intros n. case_bool_decide; simpl; naive_solver.
Qed.

Lemma reorderPlugs_is_ok port k i ps :
  is_ok (reorderPlugs port k i ps) =
  existsb (λ p, bool_decide (plug_id p = k) && bool_decide (plug_port p = port)) ps.
Proof.
  unfold reorderPlugs. destruct (list_find _ ps) as [[j p]|] eqn:E; simpl; symmetry.
  - apply list_find_Some in E as (Hj & [Hi Hp] & _). apply existsb_exists. exists p.
    split; [by eapply list_elem_of_In, list_elem_of_lookup_2|]. by rewrite !bool_decide_true.
  - apply list_find_None in E. apply not_true_iff_false. rewrite existsb_exists.
    intros (p & Hp & [H1%bool_decide_eq_true H2%bool_decide_eq_true]%andb_true_iff).
    eapply Forall_forall in E; [by apply E|]. by apply list_elem_of_In.
Qed.

Lemma forallb_pointwise {A} (f g : A → bool) l : (∀ a, f a = g a) → forallb f l = forallb g l.
Proof. intros Hfg. induction l; simpl; [done|]. by rewrite Hfg, IHl. Qed.

Lemma updateNode_pure_is_ok d i f : is_ok (updateNode d i (λ n, Ok (f n))) = some_id i (nodes d).
Proof. rewrite updateNode_pure. by destruct (some_id i (nodes d)). Qed.

Lemma is_ok_bind_pure {A B} (r : res A) (f : A → B) : is_ok (x ← r; Ok (f x)) = is_ok r.
Proof. by destruct r. Qed.

(** C37: the transition throws exactly when the command targets an object the
    document does not hold, adds one it already holds, or reorders a plug the
    node does not have; removals and replacements never throw. *)
Theorem apply_ok_iff_admissible d c :
  is_ok (applyGraphCommandNormalized d c) = command_admissible d c.
Proof.
  destruct c; simpl; try done; try (by apply updateNode_pure_is_ok); try (by case_match);
    unfold applyMoveNodes, applyRemoveInputPlug, applyConfigurationAndInputPlugs, applyUpdateEdge,
      applyUpdateOrigin, applyConfigureAgent, edgeOrThrow, originOrThrow, agentOrThrow;
    try (rewrite some_id_find; by case_match).
  - rewrite is_ok_bind_pure. apply eq_bool_prop_intro. rewrite !Is_true_true, res_map_is_ok, forallb_forall.
    setoid_rewrite list_elem_of_In. apply forall_proper. intros p. unfold nodeOrThrow.
    rewrite some_id_find. by case_match.
  - rewrite is_ok_bind_pure. apply updateNode_pure_is_ok.
  - unfold applyReorderInputPlug. rewrite updateNode_is_ok. f_equal. apply forallb_pointwise. intros n.
    by rewrite is_ok_bind_pure, reorderPlugs_is_ok.
  - rewrite is_ok_bind_pure. apply updateNode_pure_is_ok.
Qed.

(** ** Input plug order *)

(** Reordering moves the named plug to the clamped index and keeps the others
    in their order. *)
Theorem reorder_moves_the_plug port k i ps ps' :
  reorderPlugs port k i ps = Ok ps' →
  ps' ≡ₚ ps ∧
  ∃ j p, ps !! j = Some p ∧ plug_id p = k ∧ plug_port p = port ∧
    ps' !! clampIndex i (length ps - 1) = Some p ∧
    delete (clampIndex i (length ps - 1)) ps' = delete j ps.
Proof.
  intros H. split; [by eapply reorderPlugs_perm|].
  apply reorderPlugs_ok in H as (l1 & p & l2 & -> & Hk & Hp & _ & ->). simpl.
  exists (length l1), p. rewrite list_lookup_middle by done.
  replace (length (l1 ++ p :: l2) - 1) with (length (l1 ++ l2)) by (rewrite !length_app; simpl; lia).
  set (j := clampIndex i (length (l1 ++ l2))).
  assert (j ≤ length (l1 ++ l2)) as Hj by apply clampIndex_le.
  assert (length (take j (l1 ++ l2)) = j) as Ht by (rewrite length_take; lia).
  split_and!; [done..| |].
  - by rewrite list_lookup_middle.
  - rewrite <- Ht at 1. rewrite delete_middle, take_drop. by rewrite delete_middle.
Qed.

(** ** Presentation reconciled with the nodes *)

Lemma filter_length_eq {A} (P : A → Prop) `{∀ a, Decision (P a)} l :
  length (filter P l) = length l → filter P l = l.
Proof.
  induction l as [|a l IH]; [done|]. rewrite filter_cons. case_decide; simpl.
  - intros [= Hl]. by rewrite IH.
  - pose proof (length_filter P l). lia.
Qed.

(** The draft's presentation keeps every viewer and annotation, and exactly
    the links whose node and viewer exist and the bindings whose viewers exist
    (the early return of the unchanged presentation included). *)
Theorem presentation_reconciled p ns :
  let p' := presentationForDocument p ns in
  viewers p' = viewers p ∧ annotations p' = annotations p ∧
  links p' = filter (λ l, l_source_node_id l ∈ ids ns ∧ l_target_viewer_id l ∈ ids (viewers p)) (links p) ∧
  bindings p' = filter (λ b, pb_source_viewer_id b ∈ ids (viewers p) ∧ pb_target_viewer_id b ∈ ids (viewers p)) (bindings p).
Proof.
  unfold presentationForDocument. case_match eqn:Heq; simpl; [|done].
  apply andb_true_iff in Heq as [H1%Nat.eqb_eq H2%Nat.eqb_eq].
  by rewrite (filter_length_eq _ _ H1), (filter_length_eq _ _ H2).
Qed.

(** ** The hypotheses hold on concrete documents *)

Lemma sample_unique : unique_ids sample_doc.
Proof. split; by_decide. Qed.

Lemma sample_refs : refs_ok sample_doc.
Proof.
  split; simpl; intros x Hx; apply list_elem_of_singleton in Hx as ->; [split; [by_decide|]|];
    (exists (sample_node "b" [plug_p; plug_q]); split_and!; [by right; left|done|]); simpl; by_decide.
Qed.

Definition sample_batch : list GraphCommand :=
  [move_nodes [{| np_node_id := "b"; np_x := num 3; np_y := num 4 |}]; remove_input_plug "b" "p"; remove_nodes ["a"]].

Lemma batch_keeps_unique_ids_witness :
  ∃ d', res_fold applyGraphCommandNormalized sample_doc sample_batch = Ok d' ∧ unique_ids d'.
Proof.
  eexists. split; [reflexivity|].
  eapply (batch_keeps_unique_ids sample_doc sample_batch); [exact sample_unique| |reflexivity].
  repeat constructor.
Defined.

(** An edge is added, then a plug and a node that another edge ends at are removed. *)
Definition connecting_batch : list GraphCommand :=
  [add_edge (sample_edge "f" "c" "b" (Val "q")); remove_input_plug "b" "p"; add_node (sample_node "d" []);
   add_edge (sample_edge "g" "d" "b" (Val "q")); remove_nodes ["a"; "c"]].

Lemma batch_keeps_references_witness :
  ∃ d', res_fold applyGraphCommandNormalized sample_doc connecting_batch = Ok d' ∧ ids (edges d') = ["g"] ∧ refs_ok d'.
Proof.
  eexists. split; [reflexivity|]. split; [reflexivity|].
  eapply (batch_keeps_references sample_doc connecting_batch); [exact sample_refs| |reflexivity].
  cbn [connecting_batch batch_refs].
  split; [split; [by_decide|]; by exists (sample_node "b" [plug_p; plug_q]); split_and!; [by right; left|done|by_decide]|]. intros d1 [= <-].
  split; [exact I|]. intros d2 H2. vm_compute in H2. injection H2 as <-. split; [exact I|]. intros d3 H3. vm_compute in H3. injection H3 as <-.
  split; [split; [by_decide|]; by eexists; split_and!; [by right; left|done|by_decide]|]. intros d4 _. split; [exact I|]. done.
Defined.

Lemma reorder_moves_the_plug_witness :
  ∃ ps', reorderPlugs "in" "p" (num 5) [plug_p; plug_q] = Ok ps' ∧ ps' ≡ₚ [plug_p; plug_q] ∧
    ps' = [plug_q; plug_p].
Proof.
  eexists. split; [reflexivity|]. split; [|reflexivity].
  exact (proj1 (reorder_moves_the_plug "in" "p" (num 5) [plug_p; plug_q] _ eq_refl)).
Defined.
