(* ===== verification/Invalidation.v ===== *)
(** * Which results an authored command makes stale

    [executionDescendants] and [executionInvalidatedNodeIds] of
    [model/graph-document.ts], proved exact (the descendants are the reachable
    nodes) and complete (a node whose execution inputs a command changes is
    invalidated). *)

From S2P Require Import Prelude Worklist Js GraphModel GraphCommands GraphTheory Samples.

(** ** The code *)

(** The test of the inner loop of [executionDescendants]. *)
Definition descendantTarget (knownNodeIds : list string) (src : string) (edge : GraphEdge) : option string :=
  if negb (e_enabled edge) || negb (bool_decide (e_from_node edge = src)) ||
     negb (bool_decide (e_to_node edge ∈ knownNodeIds))
  then None else Some (e_to_node edge).

(** [if (!sourceNodeId) continue]: the empty id is never expanded. *)
Definition falsyId (i : string) : bool := bool_decide (i = "").

(** The loop runs at most once per known node, the fuel. *)
Definition executionDescendants (document : AuthoredGraphDocument) (roots : list string) : list string :=
  let knownNodeIds := ids (nodes document) in
  let invalidated := js_set (filter (λ i, i ∈ knownNodeIds) roots) in
  default invalidated
    (drain falsyId (descendantTarget knownNodeIds) (edges document) (length (nodes document)) invalidated invalidated).

(** [Object.keys(update).every((key) => key === "route_offset")] *)
Definition onlyRouteOffset (u : SavedGraphEdgeUpdate) : bool :=
  match u with
  | {| u_collection_mode := None; u_enabled := None; u_projection := None; u_conversion_path := None;
       u_route_offset := _; u_to_plug := None; u_from_port := None; u_to_port := None |} => true
  | _ => false
  end.

Definition executionInvalidatedNodeIds (document : AuthoredGraphDocument) (command : GraphCommand) : list string :=
  match command with
  | update_node_configuration node_id _ _
  | update_node_configuration_and_input_plugs node_id _ _
  | add_input_plug node_id _
  | remove_input_plug node_id _
  | reorder_input_plug node_id _ _ _
  | bind_artifact_type node_id _ _
  | reset_artifact_type_binding node_id _ => executionDescendants document [node_id]
  | add_edge edge => executionDescendants document [e_to_node edge]
  | update_edge edge_id update =>
      if onlyRouteOffset update then []
      else match find_id edge_id (edges document) with
           | Some edge => executionDescendants document [e_to_node edge]
           | None => []
           end
  | remove_edges edge_ids =>
      executionDescendants document (e_to_node <$> filter (λ e, e_id e ∈ edge_ids) (edges document))
  | add_origin origin => executionDescendants document [o_to_node origin]
  | update_origin origin_id _ =>
      match find_id origin_id (origins document) with
      | Some origin => executionDescendants document [o_to_node origin]
      | None => []
      end
  | remove_origins origin_ids =>
      executionDescendants document (o_to_node <$> filter (λ o, o_id o ∈ origin_ids) (origins document))
  | remove_nodes node_ids =>
      executionDescendants document
        ((e_to_node <$> filter (λ e, e_from_node e ∈ node_ids) (edges document)) ++
         (o_to_node <$> filter (λ o, o_to_node o ∈ node_ids) (origins document)))
  | rename_graph _ | add_node _ | move_nodes _ | update_node_layout _ _ => []
  | add_agent _ | configure_agent _ | remove_agent _ => []
  | replace_document _ => js_set (ids (nodes document))
  end.

(** ** Exactness of the closure *)

(** One enabled edge between nodes of the document, followed from its source. *)
Definition exec_step (d : AuthoredGraphDocument) (x y : string) : Prop :=
  x ≠ "" ∧ y ∈ ids (nodes d) ∧
  ∃ e, e ∈ edges d ∧ e_enabled e = true ∧ e_from_node e = x ∧ e_to_node e = y.

Lemma descendantTarget_Some known src e k :
  descendantTarget known src e = Some k ↔
  e_enabled e = true ∧ e_from_node e = src ∧ e_to_node e = k ∧ k ∈ known.
Proof.
  unfold descendantTarget. destruct (e_enabled e); simpl; [|naive_solver].
  repeat case_bool_decide; simpl; naive_solver.
Qed.

Lemma wl_step_exec d x y :
  wl_step falsyId (descendantTarget (ids (nodes d))) (edges d) x y ↔ exec_step d x y.
Proof.
  unfold wl_step, exec_step, falsyId. rewrite bool_decide_eq_false.
  setoid_rewrite descendantTarget_Some. naive_solver.
Qed.

Notation descendantsDrain d roots :=
  (drain falsyId (descendantTarget (ids (nodes d))) (edges d) (length (nodes d))
     (js_set (filter (λ i, i ∈ ids (nodes d)) roots)) (js_set (filter (λ i, i ∈ ids (nodes d)) roots))).

(** The fuel is enough, and the result satisfies the loop invariant. *)
Lemma executionDescendants_inv d roots :
  descendantsDrain d roots = Some (executionDescendants d roots) ∧
  wl_inv falsyId (descendantTarget (ids (nodes d))) (edges d)
    (js_set (filter (λ i, i ∈ ids (nodes d)) roots)) (executionDescendants d roots) [].
Proof.
  set (init := js_set (filter (λ i, i ∈ ids (nodes d)) roots)).
  assert (NoDup init) as Hnd by apply js_set_NoDup.
  assert (∀ r, r ∈ init → r ∈ ids (nodes d)) as Hin.
  { intros r. unfold init. rewrite js_set_spec, list_elem_of_filter. naive_solver. }
  assert (length init ≤ length (nodes d)) as Hlen.
  { rewrite <- (length_fmap ident (nodes d)). by apply submseteq_length, NoDup_submseteq. }
  destruct (drain_enough falsyId (descendantTarget (ids (nodes d))) (edges d) (ids (nodes d))
              (length (nodes d)) init init) as [r Hr]; [done..| | |].
  - intros src e k _ Ht. by apply descendantTarget_Some in Ht as (_ & _ & _ & ?).
  - unfold ids in *. rewrite length_fmap. lia.
  - unfold executionDescendants. fold init. rewrite Hr. simpl. split; [done|].
    eapply drain_inv; [by apply wl_inv_init|exact Hr].
Qed.

Lemma executionDescendants_spec d roots x :
  x ∈ executionDescendants d roots ↔
  ∃ r, r ∈ roots ∧ r ∈ ids (nodes d) ∧ rtc (exec_step d) r x.
Proof.
  destruct (executionDescendants_inv d roots) as [_ Hinv].
  rewrite (wl_inv_closed_spec _ _ _ _ _ Hinv).
  setoid_rewrite js_set_spec. setoid_rewrite list_elem_of_filter.
  assert (∀ a b, rtc (wl_step falsyId (descendantTarget (ids (nodes d))) (edges d)) a b ↔ rtc (exec_step d) a b) as Hrtc.
  { intros a b. split; apply rtc_subrel; intros u v; apply wl_step_exec. }
  setoid_rewrite Hrtc. naive_solver.
Qed.

(** [executionDescendants] is total and returns exactly the known roots and
    the nodes reachable from them along enabled edges, each once: the loop stops
    by itself within one round per node. *)
Theorem executionDescendants_exact d roots :
  (∀ x, x ∈ executionDescendants d roots ↔
     ∃ r, r ∈ roots ∧ r ∈ ids (nodes d) ∧ rtc (exec_step d) r x) ∧
  NoDup (executionDescendants d roots) ∧
  descendantsDrain d roots = Some (executionDescendants d roots).
Proof.
  destruct (executionDescendants_inv d roots) as [Hr [Hnd _ _ _ _]].
  split; [intros x; apply executionDescendants_spec|done].
Qed.

(** ** Completeness of invalidation *)

(** What a node's execution depends on besides its ancestors' results: its
    operator, configuration, plugs and bindings, and the ends at its inputs.
    Positions, sizes and edge bends are not part of it. *)
Definition exec_fields (n : GraphNode) :=
  (n_kind n, n_operator_id n, n_operator_version n, n_config n, n_input_plugs n, n_artifact_type_bindings n).

Definition exec_edge (e : GraphEdge) :=
  (e_id e, e_from_node e, e_from_port e, e_to_node e, e_to_port e, e_to_plug e, e_enabled e,
   e_collection_mode e, e_projection e, e_conversion_path e).

Definition exec_view (d : AuthoredGraphDocument) (i : string) :=
  (exec_fields <$> find_id i (nodes d),
   exec_edge <$> filter (λ e, e_to_node e = i) (edges d),
   filter (λ o, o_to_node o = i) (origins d)).

(** An origin update that leaves the origin on its node. *)
Definition stays_put (d : AuthoredGraphDocument) (c : GraphCommand) : Prop :=
  match c with
  | update_origin i u =>
      match find_id i (origins d), uo_to_node u with
      | Some o, Some t => t = o_to_node o
      | _, _ => True
      end
  | _ => True
  end.

Lemma root_invalidated d roots i :
  i ∈ ids (nodes d) → i ∉ executionDescendants d roots → i ∉ roots.
Proof. intros Hi Hn Hr. apply Hn, executionDescendants_spec. eauto using rtc_refl. Qed.

Lemma filter_map_id_ne {A} `{Identified A} (P : A → Prop) `{∀ a, Decision (P a)} i f (l : list A) :
  (∀ a, a ∈ l → ident a = i → ¬ P a ∧ ¬ P (f a)) → filter P (map_id i f l) = filter P l.
Proof.
  unfold map_id. induction l as [|a l IH]; intros Hf; [done|]. cbn [fmap list_fmap].
  rewrite !filter_cons, IH by (intros; apply Hf; [by right|done]).
  case_bool_decide as Hi; [|done]. destruct (Hf a ltac:(by left) Hi).
  by rewrite !decide_False.
Qed.

Lemma filter_filter_keep {A} (P Q : A → Prop) `{∀ a, Decision (P a)} `{∀ a, Decision (Q a)} (l : list A) :
  (∀ a, a ∈ l → P a → Q a) → filter P (filter Q l) = filter P l.
Proof.
  induction l as [|a l IH]; intros Hpq; [done|]. rewrite (filter_cons Q), (filter_cons P a l).
  rewrite <- IH by (intros; apply Hpq; [by right|done]).
  case_decide as HQ; [by rewrite filter_cons|].
  rewrite decide_False; [done|]. intros HP. apply HQ, Hpq; [by left|done].
Qed.

Lemma find_id_updated i j f d d' :
  (∀ n n', f n = Ok n' → n_id n' = n_id n) →
  i ≠ j → updateNode d j f = Ok d' → find_id i (nodes d') = find_id i (nodes d).
Proof.
  intros Hf Hne (_ & ns & -> & H2)%updateNode_ok. simpl.
  induction H2 as [|n n' l l' Hn H2 IH]; [done|]. rewrite !find_id_cons, IH.
  change (ident n) with (n_id n). change (ident n') with (n_id n'). case_bool_decide as Hj; [|by subst].
  apply Hf in Hn. rewrite !decide_False by congruence. done.
Qed.

Lemma view_updateNode i j f d d' :
  (∀ n n', f n = Ok n' → n_id n' = n_id n) →
  i ≠ j → updateNode d j f = Ok d' → exec_view d' i = exec_view d i.
Proof.
  intros Hf Hne Hu. unfold exec_view. rewrite (find_id_updated i j f d d') by done.
  destruct (updateNode_frame _ _ _ _ Hu) as (_ & -> & -> & _). done.
Qed.

(** Node edits that execution does not see. *)
Lemma view_layout i j l d d' :
  updateNode d j (λ n, Ok (set_layout l n)) = Ok d' → exec_view d' i = exec_view d i.
Proof.
  rewrite updateNode_pure. case_match; [|done]. intros [= <-]. unfold exec_view. simpl. f_equal. f_equal.
  destruct (decide (i = j)) as [->|Hne].
  - destruct (find_id j (nodes d)) as [n|] eqn:Hf.
    + by rewrite (find_id_map_id _ _ _ n).
    + by rewrite map_id_absent, Hf by (by apply find_id_None).
  - by rewrite find_id_map_id_ne.
Qed.

Lemma view_move i ps d d' : applyMoveNodes d ps = Ok d' → exec_view d' i = exec_view d i.
Proof.
  intros H. unfold applyMoveNodes in H. res_inv. unfold exec_view. simpl. f_equal. f_equal.
  induction (nodes d) as [|n l IH]; [done|]. cbn [fmap list_fmap]. rewrite !find_id_cons.
  destruct (positionFor (n_id n) ps); simpl; change (ident (set_position ?p ?n)) with (n_id n);
    change (ident n) with (n_id n); case_decide; done.
Qed.

(** Dropping ends at one node leaves the view of the others. *)
Lemma view_drop_ends i j d' (P Q : jsopt string → Prop) `{∀ p, Decision (P p)} `{∀ p, Decision (Q p)} :
  i ≠ j →
  exec_view {| name := name d'; nodes := nodes d';
               edges := filter (λ e, e_to_node e ≠ j ∨ P (e_to_plug e)) (edges d');
               origins := filter (λ o, o_to_node o ≠ j ∨ Q (o_to_plug o)) (origins d');
               agents := agents d' |} i = exec_view d' i.
Proof.
  intros Hne. unfold exec_view. simpl. f_equal; [f_equal; f_equal|].
  - apply filter_filter_keep. intros e _ ->. by left.
  - apply filter_filter_keep. intros o _ ->. by left.
Qed.

Lemma view_removeNodes i ks d :
  i ∈ ids (nodes (applyRemoveNodes d ks)) →
  i ∉ e_to_node <$> filter (λ e, e_from_node e ∈ ks) (edges d) →
  exec_view (applyRemoveNodes d ks) i = exec_view d i.
Proof.
  simpl. rewrite ids_remove_ids. intros [Hi Hks] Hr. unfold exec_view. simpl. f_equal; [f_equal; f_equal|].
  - apply find_id_is_Some in Hi as [n Hn]. rewrite Hn.
    apply find_id_filter; [done|]. apply find_id_Some in Hn as [_ ->]. done.
  - apply filter_filter_keep. intros e He Ht. split; [|by rewrite Ht].
    intros Hf. apply Hr, list_elem_of_fmap. exists e. split; [done|].
    by apply list_elem_of_filter.
  - apply filter_filter_keep. by intros o _ ->.
Qed.

(** With unique ids, an update by id changes one object. *)
Lemma unique_found {A} `{Identified A} i (l : list A) a b :
  NoDup (ids l) → find_id i l = Some a → b ∈ l → ident b = i → b = a.
Proof. intros Hnd Hf Hb <-. rewrite (find_id_NoDup b) in Hf by done. congruence. Qed.

Lemma view_updateEdge i k u d d' :
  unique_ids d → applyUpdateEdge d k u = Ok d' →
  (∀ e, find_id k (edges d) = Some e → onlyRouteOffset u = true ∨ e_to_node e ≠ i) →
  exec_view d' i = exec_view d i.
Proof.
  intros Hun H Hroot. unfold applyUpdateEdge, edgeOrThrow in H.
  destruct (find_id k (edges d)) as [e|] eqn:Hf; simpl in H; [|done]. res_inv.
  unfold exec_view. simpl. f_equal. f_equal.
  destruct (Hroot e eq_refl) as [Honly|Hne].
  - clear Hf Hroot. unfold map_id. induction (edges d) as [|e0 l IH]; [done|]. cbn [fmap list_fmap].
    rewrite !filter_cons. case_bool_decide; [|case_decide; [rewrite !fmap_cons; by f_equal|apply IH]].
    change (e_to_node (spreadEdgeUpdate e0 (projectSavedGraphEdgeUpdate u))) with (e_to_node e0).
    case_decide; [|apply IH]. rewrite !fmap_cons. f_equal; [|apply IH].
    unfold exec_edge. destruct u as [[] [] [] [] ? [] [] []]; done.
  - f_equal. apply filter_map_id_ne. intros e0 He0 Hi.
    rewrite (unique_found k (edges d) e e0) by (done || apply Hun). done.
Qed.

Lemma view_updateOrigin i k u d d' :
  unique_ids d → applyUpdateOrigin d k u = Ok d' →
  (∀ o, find_id k (origins d) = Some o → o_to_node o ≠ i ∧ default (o_to_node o) (uo_to_node u) ≠ i) →
  exec_view d' i = exec_view d i.
Proof.
  intros Hun H Hroot. unfold applyUpdateOrigin, originOrThrow in H.
  destruct (find_id k (origins d)) as [o|] eqn:Hf; simpl in H; [|done]. res_inv.
  unfold exec_view. simpl. f_equal. apply filter_map_id_ne. intros o0 Ho0 Hi.
  rewrite (unique_found k (origins d) o o0) by (done || apply Hun). by apply Hroot.
Qed.

(** A node outside the invalidated set sees the same inputs after the command. *)
Lemma invalidation_view d c d' i :
  unique_ids d → stays_put d c →
  i ∈ ids (nodes d) → i ∈ ids (nodes d') →
  applyGraphCommandNormalized d c = Ok d' →
  i ∉ executionInvalidatedNodeIds d c → exec_view d' i = exec_view d i.
Proof.
  intros Hun Hput Hi Hi' H Hn. pose proof (root_invalidated d) as Hroot.
  destruct c; simpl in H, Hn, Hput;
    try (apply Hroot in Hn; [|done]; apply not_elem_of_cons in Hn as [Hn _]);
    try (eapply view_updateNode; [|exact Hn|exact H]; by intros; res_inv);
    try (eapply view_layout; exact H); try (eapply view_move; exact H); res_inv;
    try done.
  - destruct (some_id _ _); res_inv. unfold exec_view. simpl.
    apply find_id_is_Some in Hi as [n Hf]. by rewrite find_id_app, Hf.
  - apply Hroot in Hn; [|done]. apply not_elem_of_app in Hn as [Hn _]. by apply view_removeNodes.
  - unfold applyRemoveInputPlug in H. res_inv. etrans; [|eapply view_updateNode; [|exact Hn|exact E]; by intros; res_inv].
    exact (view_drop_ends i node_id a (λ p, p ≠ Val plugId) (λ p, p ≠ Val plugId) Hn).
  - unfold applyConfigurationAndInputPlugs in H. res_inv.
    etrans; [|eapply view_updateNode; [|exact Hn|exact E]; by intros; res_inv].
    exact (view_drop_ends i node_id a (plug_retained (plug_id <$> input_plugs)) (plug_retained (plug_id <$> input_plugs)) Hn).
  - destruct (some_id _ _); res_inv. unfold exec_view. simpl. f_equal. f_equal.
    rewrite filter_app, filter_cons_False by (simpl; congruence). by rewrite app_nil_r.
  - eapply view_updateEdge; [done|exact H|]. intros e Hf. destruct (onlyRouteOffset update); [by left|right].
    rewrite Hf in Hn. apply Hroot in Hn; [|done]. by apply not_elem_of_cons in Hn as [? _].
  - apply Hroot in Hn; [|done]. unfold exec_view. simpl. f_equal. f_equal. f_equal.
    apply filter_filter_keep. intros e He Ht Hin. apply Hn, list_elem_of_fmap. exists e. split; [done|].
    by apply list_elem_of_filter.
  - destruct (some_id _ _); res_inv. unfold exec_view. simpl. f_equal.
    rewrite filter_app, filter_cons_False by (simpl; congruence). by rewrite app_nil_r.
  - eapply view_updateOrigin; [done|exact H|]. intros o Hf. rewrite Hf in Hn, Hput.
    apply Hroot in Hn; [|done]. apply not_elem_of_cons in Hn as [Hn _].
    destruct (uo_to_node update); simpl; [by subst|done].
  - apply Hroot in Hn; [|done]. unfold exec_view. simpl. f_equal.
    apply filter_filter_keep. intros o Ho Ht Hin. apply Hn, list_elem_of_fmap. exists o. split; [done|].
    by apply list_elem_of_filter.
  - destruct (some_id _ _); by res_inv.
  - unfold applyConfigureAgent in H. by res_inv.
  - destruct Hn. by apply js_set_spec.
Qed.

(** C10: invalidation is complete.  After any command, a node whose own execution
    inputs changed is in the invalidated set, and with it every node downstream
    of it (origin updates that move an origin to another node aside). *)
Theorem invalidation_complete d c d' i j :
  unique_ids d → stays_put d c →
  i ∈ ids (nodes d) → i ∈ ids (nodes d') → applyGraphCommandNormalized d c = Ok d' →
  exec_view d' i ≠ exec_view d i → rtc (exec_step d) i j →
  j ∈ executionInvalidatedNodeIds d c.
Proof.
  intros Hun Hput Hi Hi' H Hv Hij.
  assert (i ∈ executionInvalidatedNodeIds d c) as Hin.
  { apply dec_stable. intros Hn. apply Hv. by eapply invalidation_view. }
  assert (∀ roots, i ∈ executionDescendants d roots → j ∈ executionDescendants d roots) as Hclosed.
  { intros roots. rewrite !executionDescendants_spec. intros (r & H1 & H2 & H3). exists r. split_and!; [done..|]. by transitivity i. }
  clear Hv Hput H. destruct c; simpl in *; eauto; try (by apply elem_of_nil in Hin).
  - case_match; [by apply elem_of_nil in Hin|]. case_match; [eauto|by apply elem_of_nil in Hin].
  - case_match; [eauto|by apply elem_of_nil in Hin].
  - apply js_set_spec. clear Hi' Hin Hclosed. induction Hij as [|x y z (_ & Hy & _) _ IH]; auto.
Qed.

(** An origin update that names another node is the exception: the node the
    origin moves to is given a new input and is not invalidated. *)
Theorem retargeted_origin_is_not_invalidated :
  ∃ d c d', unique_ids d ∧ applyGraphCommandNormalized d c = Ok d' ∧
    "c" ∈ ids (nodes d) ∧ "c" ∈ ids (nodes d') ∧
    exec_view d' "c" ≠ exec_view d "c" ∧ "c" ∉ executionInvalidatedNodeIds d c.
Proof.
  exists sample_doc, (update_origin "o" {| uo_to_node := Some "c"; uo_to_port := None; uo_to_plug := Some Null;
    uo_value := None; uo_collection_mode := None; uo_conversion_path := None |}).
  eexists. split; [exact sample_unique|]. split; [reflexivity|].
  split_and!; [by_decide|by_decide| |by_decide]. done.
Qed.

Lemma invalidation_complete_witness :
  "b" ∈ executionInvalidatedNodeIds sample_doc (update_node_configuration "a" "k" (JBool false)).
Proof.
  eapply (invalidation_complete sample_doc _ _ "a" "b"); [exact sample_unique|exact I|by_decide| |reflexivity|done|].
  - by_decide.
  - apply rtc_once. split; [done|]. split; [by_decide|].
    exists (sample_edge "e" "a" "b" (Val "p")). split; [by left|done].
Defined.
