(* ===== verification/AuthoringState.v ===== *)
(** * The workbench authoring reducer

    [reduceWorkbenchAuthoringState] of [canvas/graph-document-adapter.ts]: the
    single place a batch of commands changes the open document, and which
    per-node run overlays survive it. *)

From S2P Require Import Prelude Worklist Js GraphModel GraphCommands GraphTheory Invalidation Samples.

(** ** State and actions *)

(** [Pick<WorkflowNodeData, "run" | "execution" | "progress">]: the reducer only
    moves it around. *)
Record NodeOverlay := { ov_run : jsval; ov_execution : jsval; ov_progress : jsval }.

Record WorkbenchAuthoringState := {
  st_document : AuthoredGraphDocument;
  st_nodeOverlays : gmap string NodeOverlay;
  st_error : option string
}.

Inductive WorkbenchAuthoringAction :=
| apply_commands (commands : list GraphCommand)
| replace_state_document (document : AuthoredGraphDocument) (nodeOverlays : gmap string NodeOverlay)
| update_overlays (update : gmap string NodeOverlay)
| clear_error.

(** [{ run: null, execution: { status: "idle" }, progress: null }] *)
Definition idleOverlay : NodeOverlay :=
  {| ov_run := JNull; ov_execution := JObj [("status", JStr "idle")]; ov_progress := JNull |}.

(** One round of the loop over the batch: the invalidated ids are read off the
    document before the command applies. *)
Definition authoringStep (acc : AuthoredGraphDocument * list string) (command : GraphCommand)
    : res (AuthoredGraphDocument * list string) :=
  let '(nextDocument, invalidatedNodeIds) := acc in
  let invalidated' := invalidatedNodeIds ++ executionInvalidatedNodeIds nextDocument command in
  next ← applyGraphCommandNormalized nextDocument command;
  Ok (next, invalidated').

(** The overlays of the nodes that remain, reset where invalidated. *)
Definition survivingOverlays (nodeIds invalidated : list string) (previous : gmap string NodeOverlay)
    : gmap string NodeOverlay :=
  foldl (λ acc i, match previous !! i with
                  | None => acc
                  | Some o => <[i := if bool_decide (i ∈ invalidated) then idleOverlay else o]> acc
                  end) ∅ nodeIds.

Definition reduceWorkbenchAuthoringState (state : WorkbenchAuthoringState) (action : WorkbenchAuthoringAction)
    : WorkbenchAuthoringState :=
  match action with
  | replace_state_document document overlays =>
      {| st_document := authoredGraphDocument (createGraphDraft document Undef);
         st_nodeOverlays := overlays; st_error := None |}
  | update_overlays update =>
      {| st_document := st_document state; st_nodeOverlays := update; st_error := st_error state |}
  | clear_error =>
      {| st_document := st_document state; st_nodeOverlays := st_nodeOverlays state; st_error := None |}
  | apply_commands commands =>
      match res_fold authoringStep
              (authoredGraphDocument (createGraphDraft (st_document state) Undef), []) commands with
      | Ok (nextDocument, invalidated) =>
          {| st_document := nextDocument;
             st_nodeOverlays := survivingOverlays (ids (nodes nextDocument)) invalidated (st_nodeOverlays state);
             st_error := None |}
      | Throw message =>
          {| st_document := st_document state; st_nodeOverlays := st_nodeOverlays state;
             st_error := Some message |}
      end
  end.

(** ** Lemmas *)

Lemma survivingOverlays_lookup is_ inv prev i :
  survivingOverlays is_ inv prev !! i =
  if bool_decide (i ∈ is_)
  then (λ o, if bool_decide (i ∈ inv) then idleOverlay else o) <$> prev !! i else None.
Proof.
  unfold survivingOverlays.
  cut (∀ acc : gmap string NodeOverlay,
    foldl (λ acc i, match prev !! i with
                    | None => acc
                    | Some o => <[i := if bool_decide (i ∈ inv) then idleOverlay else o]> acc
                    end) acc is_ !! i =
    if bool_decide (i ∈ is_) then
      match (λ o, if bool_decide (i ∈ inv) then idleOverlay else o) <$> prev !! i with
      | Some o => Some o | None => acc !! i end
    else acc !! i).
  { intros ->. rewrite lookup_empty. case_bool_decide; [|done]. by destruct (prev !! i). }
  induction is_ as [|j l IH]; intros acc; simpl; [done|].
  rewrite IH. destruct (decide (i = j)) as [->|Hne].
  - rewrite (bool_decide_true (j ∈ j :: l)) by (by left).
    case_bool_decide; destruct (prev !! j); simpl; rewrite ?lookup_insert_eq; done.
  - rewrite (bool_decide_ext (i ∈ j :: l) (i ∈ l)) by (rewrite elem_of_cons; naive_solver).
    case_bool_decide; [destruct (prev !! i); simpl; [done|]|];
      destruct (prev !! j); try done; by rewrite lookup_insert_ne.
Qed.

(** The loop applies the commands and accumulates the invalidated ids. *)
Lemma authoringSteps_document d inv cs d' inv' :
  res_fold authoringStep (d, inv) cs = Ok (d', inv') →
  res_fold applyGraphCommandNormalized d cs = Ok d'.
Proof.
  revert d inv. induction cs as [|c cs IH]; intros d inv H; simpl in *; [by res_inv|].
  destruct (applyGraphCommandNormalized d c) eqn:Hc; simpl in *; res_inv. by eapply IH.
Qed.

Lemma authoringSteps_throw d inv cs m :
  res_fold authoringStep (d, inv) cs = Throw m ↔ res_fold applyGraphCommandNormalized d cs = Throw m.
Proof.
  revert d inv. induction cs as [|c cs IH]; intros d inv; simpl; [done|].
  destruct (applyGraphCommandNormalized d c); simpl; [apply IH|].
  split; by intros [= ->].
Qed.

Lemma authoringSteps_grow d inv cs d' inv' i :
  res_fold authoringStep (d, inv) cs = Ok (d', inv') → i ∈ inv → i ∈ inv'.
Proof.
  revert d inv. induction cs as [|c cs IH]; intros d inv H Hi; simpl in *; [by res_inv|].
  destruct (applyGraphCommandNormalized d c); simpl in *; res_inv.
  eapply IH; [done|]. apply elem_of_app. by left.
Qed.

(** The node is in every document the batch passes through, and no command moves
    an origin to another node. *)
Fixpoint batch_keeps (i : string) (d : AuthoredGraphDocument) (cs : list GraphCommand) : Prop :=
  i ∈ ids (nodes d) ∧
  match cs with
  | [] => True
  | c :: cs' => command_unique c ∧ stays_put d c ∧
                ∀ d', applyGraphCommandNormalized d c = Ok d' → batch_keeps i d' cs'
  end.

Lemma batch_keeps_here i d cs : batch_keeps i d cs → i ∈ ids (nodes d).
Proof. by destruct cs; intros [? _]. Qed.

Lemma authoringSteps_view i d inv cs d' inv' :
  unique_ids d → batch_keeps i d cs →
  res_fold authoringStep (d, inv) cs = Ok (d', inv') → i ∉ inv' →
  exec_view d' i = exec_view d i.
Proof.
  revert d inv. induction cs as [|c cs IH]; intros d inv Hun Hk H Hn; simpl in *; [by res_inv|].
  destruct (applyGraphCommandNormalized d c) as [d1|] eqn:Hc; simpl in *; res_inv.
  destruct Hk as (Hi & Hcu & Hput & Hk). specialize (Hk d1 eq_refl).
  etrans; [eapply IH; [by eapply apply_unique_ids|done|done|done]|].
  eapply invalidation_view; eauto using batch_keeps_here.
  intros Hin. apply Hn. eapply authoringSteps_grow; [done|]. apply elem_of_app. by right.
Qed.

(** ** Properties *)

(** A batch is atomic.  When any of its commands throws, the document and the
    overlays stay as they were and the message is the error; otherwise the
    document is the one the commands produce and the error is cleared. *)
Theorem batch_is_atomic state cs :
  let next := reduceWorkbenchAuthoringState state (apply_commands cs) in
  match res_fold applyGraphCommandNormalized (normalize (st_document state)) cs with
  | Throw m => st_document next = st_document state ∧ st_nodeOverlays next = st_nodeOverlays state ∧
               st_error next = Some m
  | Ok d' => st_document next = d' ∧ st_error next = None
  end.
Proof.
  simpl. change (authoredGraphDocument (createGraphDraft (st_document state) Undef)) with (normalize (st_document state)).
  destruct (res_fold authoringStep (normalize (st_document state), []) cs) as [[d' inv']|m] eqn:H.
  - by rewrite (authoringSteps_document _ _ _ _ _ H).
  - by rewrite (proj1 (authoringSteps_throw _ _ _ _) H).
Qed.

(** A run overlay that survives a batch unchanged is still about the same
    inputs: if a node's overlay was kept and is not the idle one, the node's
    operator, configuration, plugs, bindings, incoming edges and origins are
    those of the document before the batch. *)
Theorem kept_overlay_is_current state cs i o :
  unique_ids (st_document state) →
  batch_keeps i (normalize (st_document state)) cs →
  let next := reduceWorkbenchAuthoringState state (apply_commands cs) in
  st_error next = None →
  st_nodeOverlays next !! i = Some o → o ≠ idleOverlay →
  st_nodeOverlays state !! i = Some o ∧
  exec_view (st_document next) i = exec_view (normalize (st_document state)) i.
Proof.
  intros Hun Hk. simpl.
  change (authoredGraphDocument (createGraphDraft (st_document state) Undef)) with (normalize (st_document state)).
  destruct (res_fold authoringStep (normalize (st_document state), []) cs) as [[d' inv']|m] eqn:H; simpl; [|done].
  intros _. rewrite survivingOverlays_lookup. case_bool_decide as Hi; [|done].
  rewrite fmap_Some. intros (o' & Ho' & ->) Hidle. case_bool_decide as Hin; [done|]. split; [done|].
  eapply authoringSteps_view; [|done|done|done].
  destruct Hun, (normalize_ids (st_document state)) as (H1 & H2 & H3 & H4).
  split; [by rewrite H1|by rewrite H2|by rewrite H3|by rewrite H4].
Qed.

(** Overlays exist only for nodes of the document after the batch. *)
Theorem overlays_name_document_nodes state cs :
  let next := reduceWorkbenchAuthoringState state (apply_commands cs) in
  st_error next = None →
  dom (st_nodeOverlays next) = dom (st_nodeOverlays state) ∩ list_to_set (ids (nodes (st_document next))).
Proof.
  simpl. destruct (res_fold authoringStep _ cs) as [[d' inv']|m] eqn:H; simpl; [|done]. intros _.
  apply set_eq. intros i. rewrite elem_of_intersection, elem_of_list_to_set, !elem_of_dom, survivingOverlays_lookup.
  case_bool_decide; rewrite ?fmap_is_Some; naive_solver.
Qed.

(** ** The hypotheses hold on a concrete state *)

Definition ranOverlay : NodeOverlay := {| ov_run := JBool true; ov_execution := JNull; ov_progress := JNull |}.

Definition sample_state : WorkbenchAuthoringState :=
  {| st_document := sample_doc; st_nodeOverlays := {["a" := ranOverlay]} ∪ {["b" := ranOverlay]}; st_error := None |}.

(** Editing [b]'s configuration leaves [a]'s overlay. *)
Definition edit_b : list GraphCommand := [update_node_configuration "b" "k" (JBool false)].

Lemma kept_overlay_is_current_witness :
  exec_view (st_document (reduceWorkbenchAuthoringState sample_state (apply_commands edit_b))) "a" =
  exec_view (normalize sample_doc) "a".
Proof.
  eapply (kept_overlay_is_current sample_state edit_b "a" ranOverlay); [exact sample_unique| |reflexivity|reflexivity|done].
  split; [by_decide|]. split; [exact I|]. split; [exact I|]. intros d' Hd'. vm_compute in Hd'. injection Hd' as <-. split; [by_decide|exact I].
Defined.

Lemma overlays_name_document_nodes_witness :
  dom (st_nodeOverlays (reduceWorkbenchAuthoringState sample_state (apply_commands [remove_nodes ["a"]]))) =
  dom (st_nodeOverlays sample_state) ∩
  list_to_set (ids (nodes (st_document (reduceWorkbenchAuthoringState sample_state (apply_commands [remove_nodes ["a"]]))))).
Proof. exact (overlays_name_document_nodes sample_state [remove_nodes ["a"]] eq_refl). Defined.
