(* ===== verification/Handles.v ===== *)
(** * Handle ids ([canvas/handles.ts], first part)

    A React Flow handle carries its port in its id: name, artifact type or type
    variable, shape, direction, and optionally a plug, further accepted types and
    a feed, joined by [::].  This file models the encoder, the decoder and the
    checks of a connection that need no registry; it proves that an encoded port
    is read back, and that a canonical id differs from the id by its feed only.

    A decoded handle and a [PortMeta] are structurally the same type in the
    source, and one type here.  Schema versions are integers, as in the API
    contract. *)

From Stdlib Require Import Strings.Ascii.
From S2P Require Import Prelude Js JsText.
From stdpp Require Import numbers pretty.

(** ** Data *)

(** [canvas/artifact-type-key.ts] *)
Record ArtifactTypeIdentity := { ty_id : string; ty_schema_version : Z }.

#[export] Instance ArtifactTypeIdentity_eq_dec : EqDecision ArtifactTypeIdentity.
Proof. solve_decision. Defined.

(** [`${id}@${schema_version}`] *)
Definition artifactTypeKey (t : ArtifactTypeIdentity) : string :=
  ty_id t +:+ "@" +:+ intText (ty_schema_version t).

Inductive PortShape := one | many.
Inductive PortDirection := input | output.
Inductive HandleFeedIntent := whole | projection (path : list string).

(** The union of [PortMeta]: a concrete artifact type, or a type variable. *)
Inductive PortType :=
| Concrete (artifactTypeId : string) (schemaVersion : Z)
| Generic (artifactTypeVariable : string).

Record PortMeta := {
  portName : string;
  portType : PortType;
  shape : PortShape;
  direction : PortDirection;
  plugId : option string;
  feed : option HandleFeedIntent;
  alsoAccepts : option (list ArtifactTypeIdentity)
}.

#[export] Instance PortShape_eq_dec : EqDecision PortShape.
Proof. solve_decision. Defined.
#[export] Instance PortDirection_eq_dec : EqDecision PortDirection.
Proof. solve_decision. Defined.
#[export] Instance HandleFeedIntent_eq_dec : EqDecision HandleFeedIntent.
Proof. solve_decision. Defined.

(** ** Encoding *)

Definition shapeText (s : PortShape) : string := match s with one => "one" | many => "many" end.
Definition directionText (d : PortDirection) : string := match d with input => "input" | output => "output" end.

Definition HANDLE_FEED_PREFIX : string := "feed=".
Definition HANDLE_ALSO_ACCEPTS_PREFIX : string := "also=".

Definition encodeHandleFeedSegment (f : HandleFeedIntent) : string :=
  match f with
  | whole => HANDLE_FEED_PREFIX +:+ "whole"
  | projection path => HANDLE_FEED_PREFIX +:+ "proj/" +:+ Js.join "/" (encodeURIComponent <$> path)
  end.

Definition encodeHandleAlsoAcceptsSegment (accepted : list ArtifactTypeIdentity) : string :=
  HANDLE_ALSO_ACCEPTS_PREFIX +:+ Js.join "," ((λ key, encodeURIComponent (artifactTypeKey key)) <$> accepted).

(** The first five parts.  An empty variable is falsy, and the fields of a
    concrete type that are then read are undefined, which [join] writes as the
    empty text. *)
Definition portParts (port : PortMeta) : list string :=
  match portType port with
  | Concrete artifactTypeId schemaVersion =>
      [portName port; artifactTypeId; intText schemaVersion; shapeText (shape port); directionText (direction port)]
  | Generic v =>
      if bool_decide (v = "") then [portName port; ""; ""; shapeText (shape port); directionText (direction port)]
      else [portName port; encodeURIComponent v; "$generic"; shapeText (shape port); directionText (direction port)]
  end.

(** The optional parts, each pushed when it is truthy. *)
Definition optionalParts (port : PortMeta) : list string :=
  match plugId port with Some p => if bool_decide (p = "") then [] else [p] | None => [] end ++
  match alsoAccepts port with Some (k :: ks) => [encodeHandleAlsoAcceptsSegment (k :: ks)] | _ => [] end ++
  match feed port with Some f => [encodeHandleFeedSegment f] | None => [] end.

Definition encodeHandleId (port : PortMeta) : string :=
  Js.join "::" (portParts port ++ optionalParts port).

(** ** Decoding *)

Definition isHandleFeedSegment (segment : string) : bool := String.prefix HANDLE_FEED_PREFIX segment.
Definition isHandleAlsoAcceptsSegment (segment : string) : bool := String.prefix HANDLE_ALSO_ACCEPTS_PREFIX segment.

Definition decodeHandleFeedSegment (segment : string) : option HandleFeedIntent :=
  if String.prefix HANDLE_FEED_PREFIX segment then
    let body := slice_from (String.length HANDLE_FEED_PREFIX) segment in
    if bool_decide (body = "whole") then Some whole
    else if String.prefix "proj/" body then
      path ← mapM decodeURIComponent
               (filter (λ s, s ≠ "") (splitOn "/" (slice_from (String.length "proj/") body)));
      match path with [] => None | _ => Some (projection path) end
    else None
  else None.

(** One entry of the segment; [None] is the exception that the [catch] turns into
    null.  Without an [@], or with one in front, the index is not positive. *)
Definition decodeAcceptedEntry (entry : string) : option ArtifactTypeIdentity :=
  decoded ← decodeURIComponent entry;
  '(i, v) ← split_last "@"%char decoded;
  if bool_decide (i = "") then None
  else schemaVersion ← num_integer (Number v); Some {| ty_id := i; ty_schema_version := schemaVersion |}.

Definition decodeHandleAlsoAcceptsSegment (segment : string) : option (list ArtifactTypeIdentity) :=
  let body := slice_from (String.length HANDLE_ALSO_ACCEPTS_PREFIX) segment in
  if bool_decide (body = "") then None else mapM decodeAcceptedEntry (splitOn "," body).

Definition decodeShape (s : string) : option PortShape :=
  if bool_decide (s = "one") then Some one else if bool_decide (s = "many") then Some many else None.
Definition decodeDirection (s : string) : option PortDirection :=
  if bool_decide (s = "input") then Some input else if bool_decide (s = "output") then Some output else None.

(** The three variables of the loop over the optional segments. *)
Record Segments := {
  sg_plugId : option string;
  sg_feed : option HandleFeedIntent;
  sg_alsoAccepts : option (list ArtifactTypeIdentity)
}.

Definition decodeSegment (acc : Segments) (segment : string) : option Segments :=
  if isHandleFeedSegment segment then
    match sg_feed acc with
    | Some _ => None
    | None =>
        f ← decodeHandleFeedSegment segment;
        Some {| sg_plugId := sg_plugId acc; sg_feed := Some f; sg_alsoAccepts := sg_alsoAccepts acc |}
    end
  else if isHandleAlsoAcceptsSegment segment then
    match sg_alsoAccepts acc with
    | Some _ => None
    | None =>
        a ← decodeHandleAlsoAcceptsSegment segment;
        Some {| sg_plugId := sg_plugId acc; sg_feed := sg_feed acc; sg_alsoAccepts := Some a |}
    end
  else
    match sg_plugId acc with
    | Some _ => None
    | None =>
        if bool_decide (segment = "") then None
        else Some {| sg_plugId := Some segment; sg_feed := sg_feed acc; sg_alsoAccepts := sg_alsoAccepts acc |}
    end.

Fixpoint decodeSegments (acc : Segments) (segments : list string) : option Segments :=
  match segments with
  | [] => Some acc
  | s :: ss => acc' ← decodeSegment acc s; decodeSegments acc' ss
  end.

Definition decodeHandleId (handle : option string) : option PortMeta :=
  handleId ← handle;
  if bool_decide (handleId = "") then None
  else
    match splitOn "::" handleId with
    | name :: typePart :: versionPart :: shapePart :: directionPart :: rest =>
        if 3 <? length rest then None
        else
          sh ← decodeShape shapePart;
          dir ← decodeDirection directionPart;
          acc ← decodeSegments {| sg_plugId := None; sg_feed := None; sg_alsoAccepts := None |} rest;
          if bool_decide (versionPart = "$generic") then
            v ← decodeURIComponent typePart;
            if bool_decide (v = "") then None
            else Some {| portName := name; portType := Generic v; shape := sh; direction := dir;
                         plugId := sg_plugId acc; feed := sg_feed acc; alsoAccepts := None |}
          else
            schemaVersion ← num_integer (Number versionPart);
            Some {| portName := name; portType := Concrete typePart schemaVersion; shape := sh; direction := dir;
                    plugId := sg_plugId acc; feed := sg_feed acc; alsoAccepts := sg_alsoAccepts acc |}
    | _ => None
    end.

Definition without_feed (p : PortMeta) : PortMeta :=
  {| portName := portName p; portType := portType p; shape := shape p; direction := direction p;
     plugId := plugId p; feed := None; alsoAccepts := alsoAccepts p |}.

Definition canonicalHandleId (handle : option string) : option string :=
  match decodeHandleId handle with
  | None => handle
  | Some decoded =>
      match feed decoded with
      | None => handle
      | Some _ => Some (encodeHandleId (without_feed decoded))
      end
  end.

(** ** Types of a handle and connections *)

Definition decodedHandleArtifactType (handle : PortMeta) : option ArtifactTypeIdentity :=
  match portType handle with
  | Concrete i v => Some {| ty_id := i; ty_schema_version := v |}
  | Generic _ => None
  end.

Definition acceptedHandleArtifactTypes (handle : PortMeta) : list ArtifactTypeIdentity :=
  match decodedHandleArtifactType handle with
  | None => []
  | Some primary => primary :: default [] (alsoAccepts handle)
  end.

Definition handleAcceptsArtifactType (handle : PortMeta) (artifactType : ArtifactTypeIdentity) : bool :=
  existsb (λ candidate, bool_decide (artifactTypeKey candidate = artifactTypeKey artifactType))
    (acceptedHandleArtifactTypes handle).

Record Connection := { sourceHandle : option string; targetHandle : option string }.

Definition connectionIsValid (connection : Connection) : bool :=
  match decodeHandleId (sourceHandle connection), decodeHandleId (targetHandle connection) with
  | Some s, Some t =>
      let sourceArtifactType := decodedHandleArtifactType s in
      let targetArtifactType := decodedHandleArtifactType t in
      if bool_decide (sourceArtifactType = None ∧ targetArtifactType = None) then false
      else
        bool_decide (direction s = output) && bool_decide (direction t = input) &&
        match sourceArtifactType, targetArtifactType with
        | Some st, Some _ => handleAcceptsArtifactType t st
        | _, _ => true
        end && bool_decide (shape s = shape t)
  | _, _ => false
  end.

Definition connectionArtifactContractIsValid (connection : Connection) : bool :=
  match decodeHandleId (sourceHandle connection), decodeHandleId (targetHandle connection) with
  | Some source, Some target =>
      match decodedHandleArtifactType source, decodedHandleArtifactType target with
      | Some st, Some _ =>
          bool_decide (direction source = output) && bool_decide (direction target = input) &&
          handleAcceptsArtifactType target st
      | _, _ => false
      end
  | _, _ => false
  end.

(** ** Which ports an id can carry

    Names and ids without a colon, a plug that does not read as one of the tagged
    segments, further types only on a concrete port, no empty steps in a path. *)

Definition safe (v : Z) : Prop := (- 2 ^ 53 < v < 2 ^ 53)%Z.

Definition feed_ok (f : HandleFeedIntent) : Prop :=
  match f with whole => True | projection path => path ≠ [] ∧ Forall (λ s, s ≠ "") path end.

Definition accepted_ok (t : ArtifactTypeIdentity) : Prop := ty_id t ≠ "" ∧ safe (ty_schema_version t).

Definition plug_ok (k : string) : Prop :=
  k ≠ "" ∧ lacks ":" k ∧ isHandleFeedSegment k = false ∧ isHandleAlsoAcceptsSegment k = false.

Record handle_ok (p : PortMeta) : Prop := {
  ho_name : lacks ":" (portName p);
  ho_type : match portType p with
            | Concrete i v => lacks ":" i ∧ safe v
            | Generic v => v ≠ "" ∧ alsoAccepts p = None
            end;
  ho_plug : ∀ k, plugId p = Some k → plug_ok k;
  ho_accepts : ∀ l, alsoAccepts p = Some l → l ≠ [] ∧ Forall accepted_ok l;
  ho_feed : ∀ f, feed p = Some f → feed_ok f
}.

(** ** Segments are read back *)

Lemma lacks_intText c z : is_digit c = false → c ≠ "-"%char → lacks c (intText z).
Proof.
  intros Hc Hm. unfold intText. assert (∀ x : N, lacks c (pretty x)) as HN.
  { intros x. eapply all_chars_lacks; [done|]. apply pretty_N_digits. }
  destruct z as [|p|p].
  - cbn. split; [|done]. intros <-. done.
  - apply (HN (N.pos p)).
  - change (lacks c (String.String "-" (pretty (N.pos p)))). cbn. split; [congruence|apply HN].
Qed.

Lemma mapM_map_Some {A B} (f : A → B) (g : B → option A) l :
  Forall (λ a, g (f a) = Some a) l → mapM g (f <$> l) = Some l.
Proof. induction 1 as [|a l Ha Hl IH]; [done|]. cbn. by rewrite Ha, IH. Qed.

Lemma feed_segment_round_trip f : feed_ok f → decodeHandleFeedSegment (encodeHandleFeedSegment f) = Some f.
Proof.
  destruct f as [|path]; [done|]. intros [Hne Hp]. unfold decodeHandleFeedSegment, encodeHandleFeedSegment.
  rewrite str_prefix_app, slice_prefix. cbv zeta. rewrite bool_decide_false by done. rewrite str_prefix_app, slice_prefix.
  rewrite (splitOn_join "/" ""); [|by destruct path|by apply (encoded_pieces_lack _ _)].
  rewrite filter_all.
  2: { intros s (x & -> & Hx)%list_elem_of_fmap. apply encode_not_empty. exact (proj1 (Forall_forall _ _) Hp x Hx). }
  rewrite mapM_map_Some by (apply Forall_true; apply decode_encode). by destruct path.
Qed.

Lemma accepted_entry_round_trip t : accepted_ok t → decodeAcceptedEntry (encodeURIComponent (artifactTypeKey t)) = Some t.
Proof.
  intros [Hi Hv]. unfold decodeAcceptedEntry. rewrite decode_encode. cbn [mbind option_bind].
  unfold artifactTypeKey. change "@" with (chr "@"). rewrite split_last_app by by apply lacks_intText.
  cbn [mbind option_bind]. rewrite bool_decide_false by done. rewrite Number_intText, num_integer_num by done. by destruct t.
Qed.

Lemma accepts_segment_round_trip l :
  l ≠ [] → Forall accepted_ok l → decodeHandleAlsoAcceptsSegment (encodeHandleAlsoAcceptsSegment l) = Some l.
Proof.
  intros Hne Hl. unfold decodeHandleAlsoAcceptsSegment, encodeHandleAlsoAcceptsSegment. rewrite slice_prefix. cbv zeta.
  rewrite (splitOn_join "," ""); [|by destruct l|by apply (encoded_pieces_lack _ _)].
  rewrite bool_decide_false.
  - apply mapM_map_Some. eapply Forall_impl; [done|]. apply accepted_entry_round_trip.
  - destruct l as [|t l]; [done|]. intros H. apply (f_equal (splitOn ",")) in H.
    rewrite (splitOn_join "," "") in H; [|done|by apply (encoded_pieces_lack _ _)].
    cbn in H. injection H as H _. apply encode_not_empty in H; [done|]. unfold artifactTypeKey.
    apply Forall_cons in Hl as [[Hi _] _]. by destruct (ty_id t).
Qed.

(** ** The parts lack the separator *)

Lemma lacks_join_encoded sep {A} (f : A → string) l :
  lacks ":" sep → lacks ":" (Js.join sep ((λ a, encodeURIComponent (f a)) <$> l)).
Proof. intros Hs. apply lacks_join; [done|]. by apply (encoded_pieces_lack _ _). Qed.

Lemma portParts_lack p : handle_ok p → Forall (lacks ":") (portParts p).
Proof.
  intros [Hn Ht _ _ _]. unfold portParts.
  assert (lacks ":" (shapeText (shape p)) ∧ lacks ":" (directionText (direction p))) as [Hs Hd].
  { by destruct (shape p), (direction p). }
  destruct (portType p) as [i v|v].
  - destruct Ht. repeat constructor; try done. by apply lacks_intText.
  - rewrite bool_decide_false by apply Ht. repeat constructor; try done. by apply encode_lacks.
Qed.

Lemma optionalParts_lack p : handle_ok p → Forall (lacks ":") (optionalParts p).
Proof.
  intros [_ _ Hp _ _]. unfold optionalParts. rewrite !Forall_app. split_and!.
  - destruct (plugId p) as [k|]; [|done]. case_bool_decide; [done|]. constructor; [by apply Hp|done].
  - destruct (alsoAccepts p) as [[|t l]|]; [done| |done]. constructor; [|done].
    unfold encodeHandleAlsoAcceptsSegment. apply lacks_app; [by cbv|]. by apply lacks_join_encoded.
  - destruct (feed p) as [[|path]|]; [by repeat constructor; cbv| |done]. constructor; [|done].
    unfold encodeHandleFeedSegment. repeat (apply lacks_app; [by cbv|]). by apply (lacks_join_encoded _ id).
Qed.

Lemma decode_optionalParts p :
  handle_ok p →
  decodeSegments {| sg_plugId := None; sg_feed := None; sg_alsoAccepts := None |} (optionalParts p) =
  Some {| sg_plugId := plugId p; sg_feed := feed p; sg_alsoAccepts := alsoAccepts p |}.
Proof.
  intros [_ _ Hp Ha Hf]. unfold optionalParts.
  assert (∀ acc f, feed p = Some f → sg_feed acc = None →
            decodeSegment acc (encodeHandleFeedSegment f) =
            Some {| sg_plugId := sg_plugId acc; sg_feed := Some f; sg_alsoAccepts := sg_alsoAccepts acc |}) as Hfeed.
  { intros acc f Hpf Hacc. unfold decodeSegment. rewrite Hacc, feed_segment_round_trip by auto.
    by destruct f as [|[]]. }
  assert (∀ acc l, alsoAccepts p = Some l → sg_alsoAccepts acc = None →
            decodeSegment acc (encodeHandleAlsoAcceptsSegment l) =
            Some {| sg_plugId := sg_plugId acc; sg_feed := sg_feed acc; sg_alsoAccepts := Some l |}) as Hacc.
  { intros acc l Hpa Hacc. destruct (Ha l Hpa). unfold decodeSegment.
    change (isHandleFeedSegment (encodeHandleAlsoAcceptsSegment l)) with false.
    rewrite Hacc, accepts_segment_round_trip by done.
    unfold isHandleAlsoAcceptsSegment, encodeHandleAlsoAcceptsSegment. by rewrite str_prefix_app. }
  assert (∀ acc k, plugId p = Some k → sg_plugId acc = None →
            decodeSegment acc k =
            Some {| sg_plugId := Some k; sg_feed := sg_feed acc; sg_alsoAccepts := sg_alsoAccepts acc |}) as Hplug.
  { intros acc k Hpk Hk. destruct (Hp k Hpk) as (Hne & _ & Hf1 & Ha1). unfold decodeSegment.
    rewrite Hf1, Ha1, Hk. by rewrite bool_decide_false. }
  destruct (plugId p) as [k|] eqn:Ek;
    [rewrite bool_decide_false by by apply Hp|];
    (destruct (alsoAccepts p) as [l|] eqn:El; [destruct (Ha l eq_refl) as [Hl _]; destruct l as [|t l]; [done|]|]);
    destruct (feed p) as [f|] eqn:Ef;
    cbn [app decodeSegments];
    repeat (first [rewrite Hplug by done|rewrite Hacc by done|rewrite Hfeed by done]; cbn [mbind option_bind decodeSegments sg_plugId sg_feed sg_alsoAccepts]);
    done.
Qed.

Lemma generic_is_no_version z : intText z ≠ "$generic".
Proof. intros H. pose proof (lacks_intText "$" z eq_refl ltac:(done)) as Hl. rewrite H in Hl. by destruct Hl. Qed.

Lemma decode_encoded p : handle_ok p → decodeHandleId (Some (encodeHandleId p)) = Some p.
Proof.
  intros Hok. pose proof (decode_optionalParts p Hok) as Hsegs.
  assert (length (optionalParts p) ≤ 3) as Hlen.
  { unfold optionalParts. rewrite !length_app.
    destruct (plugId p); try case_bool_decide; destruct (alsoAccepts p) as [[]|], (feed p); simpl; lia. }
  assert (Forall (lacks ":") (portParts p ++ optionalParts p)) as Hlack
    by (apply Forall_app; auto using portParts_lack, optionalParts_lack).
  assert (decodeShape (shapeText (shape p)) = Some (shape p) ∧
          decodeDirection (directionText (direction p)) = Some (direction p)) as [Hs Hd]
    by by destruct (shape p), (direction p).
  destruct Hok as [_ Ht _ _ _]. unfold decodeHandleId, encodeHandleId. cbn [mbind option_bind].
  assert (portParts p ++ optionalParts p ≠ []) as Hne.
  { unfold portParts. destruct (portType p); [done|]. by case_bool_decide. }
  rewrite (splitOn_join ":" ":") by done. rewrite bool_decide_false.
  2: { intros H. apply (f_equal (splitOn "::")) in H. rewrite (splitOn_join ":" ":") in H by done.
       apply (f_equal length) in H. rewrite length_app in H. unfold portParts in H. revert H.
       destruct (portType p); [|case_bool_decide]; simpl; lia. }
  destruct p as [nm ty sh dir pl fd al]; cbn [portParts portType portName shape direction] in *.
  destruct ty as [i v|v]; cbn [portParts portType portName app shape direction plugId feed alsoAccepts] in *.
  - destruct (Nat.ltb_spec 3 (length (optionalParts {| portName := nm; portType := Concrete i v; shape := sh;
      direction := dir; plugId := pl; feed := fd; alsoAccepts := al |}))) as [?|_]; [lia|].
    rewrite Hs, Hd, Hsegs. cbn [mbind option_bind]. rewrite bool_decide_false by apply generic_is_no_version.
    rewrite Number_intText, num_integer_num by apply Ht. done.
  - destruct Ht as [Hv ->]. rewrite bool_decide_false by done. cbn [app].
    destruct (Nat.ltb_spec 3 (length (optionalParts {| portName := nm; portType := Generic v; shape := sh;
      direction := dir; plugId := pl; feed := fd; alsoAccepts := None |}))) as [?|_]; [lia|].
    rewrite Hs, Hd, Hsegs. cbn [mbind option_bind]. rewrite bool_decide_true by done.
    rewrite decode_encode. cbn [mbind option_bind]. by rewrite bool_decide_false.
Qed.

(** C38: a port that an id can carry is read back from its id unchanged, and the
    canonical id, which persisted edges keep, is the id of the same port without
    its feed. *)
Theorem handle_round_trip p :
  handle_ok p →
  decodeHandleId (Some (encodeHandleId p)) = Some p ∧
  canonicalHandleId (Some (encodeHandleId p)) = Some (encodeHandleId (without_feed p)).
Proof.
  intros Hok. split; [by apply decode_encoded|]. unfold canonicalHandleId. rewrite decode_encoded by done.
  destruct (feed p) eqn:Hf; [done|]. do 2 f_equal. destruct p; simpl in *. by subst.
Qed.

(** ** Connections of encoded ports *)

Lemma intText_inj z z' : intText z = intText z' → z = z'.
Proof. unfold intText. apply (inj pretty). Qed.

Lemma artifactTypeKey_inj t t' : artifactTypeKey t = artifactTypeKey t' ↔ t = t'.
Proof.
  split; [|by intros ->]. unfold artifactTypeKey. change "@" with (chr "@"). intros H.
  apply (f_equal (split_last "@")) in H. rewrite !split_last_app in H by by apply lacks_intText.
  injection H as Hi Hv%intText_inj. destruct t, t'; simpl in *. by subst.
Qed.

Lemma accepts_spec h t : handleAcceptsArtifactType h t = true ↔ t ∈ acceptedHandleArtifactTypes h.
Proof.
  unfold handleAcceptsArtifactType. rewrite existsb_exists. setoid_rewrite bool_decide_eq_true.
  setoid_rewrite artifactTypeKey_inj. setoid_rewrite <- list_elem_of_In. naive_solver.
Qed.

(** The contract of a connection: from an output to an input of the same shape,
    not both generic, and the source's type, when both have one, among those the
    target accepts. *)
Definition may_connect (s t : PortMeta) : Prop :=
  direction s = output ∧ direction t = input ∧ shape s = shape t ∧
  match portType s, portType t with
  | Concrete i v, Concrete _ _ => {| ty_id := i; ty_schema_version := v |} ∈ acceptedHandleArtifactTypes t
  | Generic _, Generic _ => False
  | _, _ => True
  end.

(** A connection between two encoded handles is valid exactly when the ports
    may be connected: directions, shapes, and an artifact type the target accepts;
    different types never pass as equal because of how their keys are written. *)
Theorem connection_valid_iff s t :
  handle_ok s → handle_ok t →
  connectionIsValid {| sourceHandle := Some (encodeHandleId s); targetHandle := Some (encodeHandleId t) |} = true
  ↔ may_connect s t.
Proof.
  intros Hs Ht. unfold connectionIsValid, may_connect. cbn [sourceHandle targetHandle].
  rewrite !decode_encoded by done. unfold decodedHandleArtifactType.
  destruct (portType s) as [i v|v] eqn:Es, (portType t) as [i' v'|v'] eqn:Et; cbv zeta;
    try (rewrite bool_decide_false by naive_solver); try (rewrite bool_decide_true by done);
    rewrite ?andb_true_iff, ?bool_decide_eq_true, ?accepts_spec; naive_solver.
Qed.

Definition sample_port : PortMeta :=
  {| portName := "text"; portType := Concrete "scalar.text" 1; shape := one; direction := input;
     plugId := Some "p-1"; feed := Some (projection ["a/b"; "c::d"]);
     alsoAccepts := Some [{| ty_id := "table@x"; ty_schema_version := 2 |}] |}.

Definition sample_source : PortMeta :=
  {| portName := "out"; portType := Concrete "table@x" 2; shape := one; direction := output;
     plugId := None; feed := None; alsoAccepts := None |}.

Lemma sample_port_ok : handle_ok sample_port.
Proof.
  split; cbn; try done.
  - intros k [= <-]. by cbv.
  - intros l [= <-]. split; [done|]. by repeat constructor.
  - intros f [= <-]. split; [done|]. by repeat constructor.
Qed.

Lemma sample_source_ok : handle_ok sample_source.
Proof. by split. Qed.

Lemma handle_round_trip_witness :
  decodeHandleId (Some "text::scalar.text::1::one::input::p-1::also=table%40x%402::feed=proj/a%2Fb/c%3A%3Ad") = Some sample_port.
Proof. exact (proj1 (handle_round_trip sample_port sample_port_ok)). Defined.

Lemma connection_valid_iff_witness : connectionIsValid
  {| sourceHandle := Some (encodeHandleId sample_source); targetHandle := Some (encodeHandleId sample_port) |} = true.
Proof.
  apply (connection_valid_iff sample_source sample_port sample_source_ok sample_port_ok).
  split_and!; [done..|]. cbn. by_decide.
Defined.
