(* ===== verification/Routes.v ===== *)
(** * Connection routes ([canvas/handles.ts], second part)

    A connection whose types differ can be made through a field projection of the
    source artifact and a path of registered conversions.  This file models the
    search for conversion paths (breadth first, over simple paths, with bounds on
    depth, expanded states and candidates), the routes offered for a connection,
    and the replay of a persisted selection.

    [localeCompare] is the host's collation and a parameter.  [Array.prototype.sort]
    is a stable sort; on a consistent comparator there is one stably sorted list,
    which is what [js_sort] computes. *)

From S2P Require Import Prelude Js JsText Handles.
From stdpp Require Import numbers list gmap.

(** ** Data *)

(** [ArtifactConversionKeyResponse], and [ArtifactConversionInput] of a selection. *)
Record ConversionKey := { ck_id : string; ck_version : Z }.

Record ArtifactConversionSpec := {
  cv_key : ConversionKey;
  cv_source : ArtifactTypeIdentity;
  cv_target : ArtifactTypeIdentity;
  cv_title : string
}.

Record FieldProjection := {
  fp_path : list string;
  fp_target : ArtifactTypeIdentity;
  fp_title : string
}.

(** The fields of [ArtifactTypeSpec] that routes read. *)
Record ArtifactTypeSpec := {
  as_key : ArtifactTypeIdentity;
  as_field_projections : list FieldProjection
}.

#[export] Instance ConversionKey_eq_dec : EqDecision ConversionKey.
Proof. solve_decision. Defined.
#[export] Instance ArtifactConversionSpec_eq_dec : EqDecision ArtifactConversionSpec.
Proof. solve_decision. Defined.
#[export] Instance FieldProjection_eq_dec : EqDecision FieldProjection.
Proof. solve_decision. Defined.

Inductive RouteEndpoint := atSource | atTarget.

Record ConnectionArtifactTypeBinding := {
  rb_endpoint : RouteEndpoint;
  rb_variable : string;
  rb_artifactType : ArtifactTypeIdentity
}.

(** [ConnectionRoute], with the source's four kinds. *)
Inductive ConnectionRoute :=
| exact_route (conversionPath : list ArtifactConversionSpec) (binding : option ConnectionArtifactTypeBinding)
| projection_route (p : FieldProjection) (conversionPath : list ArtifactConversionSpec)
    (binding : option ConnectionArtifactTypeBinding)
| conversion_route (conversionPath : list ArtifactConversionSpec) (binding : option ConnectionArtifactTypeBinding)
| projection_conversion_route (p : FieldProjection) (conversionPath : list ArtifactConversionSpec)
    (binding : option ConnectionArtifactTypeBinding).

Definition routePath (r : ConnectionRoute) : list ArtifactConversionSpec :=
  match r with
  | exact_route p _ | conversion_route p _ | projection_route _ p _ | projection_conversion_route _ p _ => p
  end.

Record ConnectionRouteSelection := {
  sel_projection : option (list string);
  sel_conversionPath : list ConversionKey
}.

Definition MAX_CONVERSION_PATH_LENGTH : nat := 8.
Definition MAX_CONVERSION_SEARCH_STATES : Z := 4096.
Definition MAX_CONVERSION_PATH_CANDIDATES : nat := 256.

(** ** Sorting *)

(** A stable sort by a comparator: equal elements keep their order. *)
Fixpoint js_insert {A} (cmp : A → A → Z) (x : A) (l : list A) : list A :=
  match l with
  | [] => [x]
  | y :: l' => if (cmp x y <=? 0)%Z then x :: l else y :: js_insert cmp x l'
  end.

Definition js_sort {A} (cmp : A → A → Z) (l : list A) : list A := foldr (js_insert cmp) [] l.

(** [a || b] on numbers. *)
Definition num_or (a b : Z) : Z := if bool_decide (a = 0%Z) then b else a.

(** A loop whose body may leave the function with null. *)
Fixpoint opt_fold {S A} (f : S → A → option S) (s : S) (l : list A) : option S :=
  match l with
  | [] => Some s
  | a :: l' => s' ← f s a; opt_fold f s' l'
  end.

Definition artifactTypeMatches (artifactType : ArtifactTypeIdentity) (i : string) (schemaVersion : Z) : bool :=
  bool_decide (ty_id artifactType = i) && bool_decide (ty_schema_version artifactType = schemaVersion).

Section routes.
Variable localeCompare : string → string → Z.

Definition compareConversions (left right : ArtifactConversionSpec) : Z :=
  num_or (localeCompare (ck_id (cv_key left)) (ck_id (cv_key right)))
         (ck_version (cv_key left) - ck_version (cv_key right)).

Fixpoint compareConversionPaths (left right : list ArtifactConversionSpec) : Z :=
  match left, right with
  | step :: left', other :: right' =>
      let comparison := compareConversions step other in
      if bool_decide (comparison = 0%Z) then compareConversionPaths left' right' else comparison
  | _, _ => (Z.of_nat (length left) - Z.of_nat (length right))%Z
  end.

(** ** The search *)

(** [conversionsBySource]: the sorted conversions grouped by the key they start at. *)
Definition groupBySource (sorted : list ArtifactConversionSpec) : gmap string (list ArtifactConversionSpec) :=
  foldl (λ m c, let sourceKey := artifactTypeKey (cv_source c) in
                <[sourceKey := default [] (m !! sourceKey) ++ [c]]> m) ∅ sorted.

Record SearchState := {
  ss_artifactType : ArtifactTypeIdentity;
  ss_conversionPath : list ArtifactConversionSpec;
  ss_visitedArtifactTypes : list string
}.

(** [expandedStates], [completed] and [nextFrontier] within one depth. *)
Record Level := {
  lv_expanded : Z;
  lv_completed : list (list ArtifactConversionSpec);
  lv_next : list SearchState
}.

(** The body of the innermost loop. *)
Definition expandConversion (target : ArtifactTypeIdentity) (state : SearchState) (lv : Level)
    (conversion : ArtifactConversionSpec) : option Level :=
  let nextArtifactTypeKey := artifactTypeKey (cv_target conversion) in
  if bool_decide (nextArtifactTypeKey ∈ ss_visitedArtifactTypes state) then Some lv
  else
    let conversionPath := ss_conversionPath state ++ [conversion] in
    let expanded := (lv_expanded lv + 1)%Z in
    if (MAX_CONVERSION_SEARCH_STATES <? expanded)%Z then None
    else if bool_decide (nextArtifactTypeKey = artifactTypeKey target) then
      let completed := lv_completed lv ++ [conversionPath] in
      if MAX_CONVERSION_PATH_CANDIDATES <? length completed then None
      else Some {| lv_expanded := expanded; lv_completed := completed; lv_next := lv_next lv |}
    else
      Some {| lv_expanded := expanded; lv_completed := lv_completed lv;
              lv_next := lv_next lv ++
                [{| ss_artifactType := cv_target conversion; ss_conversionPath := conversionPath;
                    ss_visitedArtifactTypes := ss_visitedArtifactTypes state ++ [nextArtifactTypeKey] |}] |}.

Definition expandState (bySource : gmap string (list ArtifactConversionSpec)) (target : ArtifactTypeIdentity)
    (lv : Level) (state : SearchState) : option Level :=
  opt_fold (expandConversion target state) lv (default [] (bySource !! artifactTypeKey (ss_artifactType state))).

(** The loop over the depths that are left. *)
Fixpoint searchDepths (bySource : gmap string (list ArtifactConversionSpec)) (target : ArtifactTypeIdentity)
    (depths : nat) (expanded : Z) (frontier : list SearchState) : option (list (list ArtifactConversionSpec)) :=
  match depths with
  | O => Some []
  | S depths' =>
      lv ← opt_fold (expandState bySource target)
             {| lv_expanded := expanded; lv_completed := []; lv_next := [] |} frontier;
      match lv_completed lv, lv_next lv with
      | _ :: _, _ => Some (js_sort compareConversionPaths (lv_completed lv))
      | [], [] => Some []
      | [], _ :: _ => searchDepths bySource target depths' (lv_expanded lv) (lv_next lv)
      end
  end.

Definition initialState (source : ArtifactTypeIdentity) : SearchState :=
  {| ss_artifactType := source; ss_conversionPath := [];
     ss_visitedArtifactTypes := [artifactTypeKey source] |}.

Definition shortestConversionPaths (source target : ArtifactTypeIdentity)
    (conversions : list ArtifactConversionSpec) : option (list (list ArtifactConversionSpec)) :=
  if bool_decide (artifactTypeKey source = artifactTypeKey target) then Some [[]]
  else
    searchDepths (groupBySource (js_sort compareConversions conversions)) target
      MAX_CONVERSION_PATH_LENGTH 0 [initialState source].

Definition shortestConversionPathsToAny (source : ArtifactTypeIdentity) (targets : list ArtifactTypeIdentity)
    (conversions : list ArtifactConversionSpec) : option (list (list ArtifactConversionSpec)) :=
  opt_fold (λ paths target,
      targetPaths ← shortestConversionPaths source target conversions; Some (paths ++ targetPaths)) [] targets.

(** ** Routes *)

Definition connectionRoute (p : option FieldProjection) (conversionPath : list ArtifactConversionSpec)
    (binding : option ConnectionArtifactTypeBinding) : ConnectionRoute :=
  match p, conversionPath with
  | Some p, [] => projection_route p conversionPath binding
  | Some p, _ => projection_conversion_route p conversionPath binding
  | None, [] => exact_route conversionPath binding
  | None, _ => conversion_route conversionPath binding
  end.

(** [new Map(...)] by key, a later conversion replacing the value of an earlier
    one in place; then sorted. *)
Definition sortedConversionTargetTypes (conversions : list ArtifactConversionSpec) : list ArtifactTypeIdentity :=
  let insert_type (l : list ArtifactTypeIdentity) t :=
    if bool_decide (artifactTypeKey t ∈ artifactTypeKey <$> l)
    then (λ u, if bool_decide (artifactTypeKey u = artifactTypeKey t) then t else u) <$> l
    else l ++ [t] in
  js_sort (λ left right, localeCompare (artifactTypeKey left) (artifactTypeKey right))
    (foldl (λ l c, insert_type l (cv_target c)) [] conversions).

(** Pushing one route at a time, up to the bound. *)
Definition pushRoute (routes : list ConnectionRoute) (r : ConnectionRoute) : option (list ConnectionRoute) :=
  let routes' := routes ++ [r] in
  if MAX_CONVERSION_PATH_CANDIDATES <? length routes' then None else Some routes'.

Definition bindTarget (variable : string) (t : ArtifactTypeIdentity) : option ConnectionArtifactTypeBinding :=
  Some {| rb_endpoint := atTarget; rb_variable := variable; rb_artifactType := t |}.

Definition genericTargetRoutesFrom (sourceArtifactType : ArtifactTypeIdentity) (p : option FieldProjection)
    (variable : string) (conversions : list ArtifactConversionSpec) : option (list ConnectionRoute) :=
  opt_fold (λ routes targetArtifactType,
      if bool_decide (artifactTypeKey sourceArtifactType = artifactTypeKey targetArtifactType) then Some routes
      else
        conversionPaths ← shortestConversionPaths sourceArtifactType targetArtifactType conversions;
        opt_fold (λ rs path, pushRoute rs (connectionRoute p path (bindTarget variable targetArtifactType)))
          routes conversionPaths)
    [connectionRoute p [] (bindTarget variable sourceArtifactType)]
    (sortedConversionTargetTypes conversions).

Definition findArtifact (artifactTypes : list ArtifactTypeSpec) (t : ArtifactTypeIdentity) : option ArtifactTypeSpec :=
  snd <$> list_find (λ a, artifactTypeKey (as_key a) = artifactTypeKey t) artifactTypes.

Definition sortedProjections (artifact : option ArtifactTypeSpec) : list FieldProjection :=
  js_sort (λ left right, num_or (localeCompare (Js.join "." (fp_path left)) (Js.join "." (fp_path right)))
                                (localeCompare (fp_title left) (fp_title right)))
    (match artifact with Some a => as_field_projections a | None => [] end).

(** The loop over the projections: the routes of each are added, or the whole
    answer is empty when a search gives up or the bound is passed. *)
Definition addProjectionRoutes (routesOf : FieldProjection → option (list ConnectionRoute))
    (routes : list ConnectionRoute) (p : FieldProjection) : option (list ConnectionRoute) :=
  projectionRoutes ← routesOf p;
  if MAX_CONVERSION_PATH_CANDIDATES <? length routes + length projectionRoutes then None
  else Some (routes ++ projectionRoutes).

(** The routes through every conversion path to one of the accepted types. *)
Definition routesVia (p : option FieldProjection) (start : ArtifactTypeIdentity) (targets : list ArtifactTypeIdentity)
    (conversions : list ArtifactConversionSpec) : option (list ConnectionRoute) :=
  map (λ path, connectionRoute p path None) <$> shortestConversionPathsToAny start targets conversions.

Definition connectionRoutesFor (connection : Connection) (artifactTypes : list ArtifactTypeSpec)
    (conversions : list ArtifactConversionSpec) : list ConnectionRoute :=
  match decodeHandleId (sourceHandle connection), decodeHandleId (targetHandle connection) with
  | Some source, Some target =>
      if bool_decide (direction source ≠ output ∨ direction target ≠ input) then []
      else
        match portType source, portType target with
        | Generic _, Generic _ => []
        | Generic sourceVariable, Concrete i v =>
            if bool_decide (sourceVariable = "") then []
            else [connectionRoute None []
                    (Some {| rb_endpoint := atSource; rb_variable := sourceVariable;
                             rb_artifactType := {| ty_id := i; ty_schema_version := v |} |})]
        | Concrete i v, Generic targetVariable =>
            let sourceArtifactType := {| ty_id := i; ty_schema_version := v |} in
            if bool_decide (targetVariable = "") then []
            else
              default [] (
                routes ← genericTargetRoutesFrom sourceArtifactType None targetVariable conversions;
                opt_fold (addProjectionRoutes (λ p,
                    genericTargetRoutesFrom (fp_target p) (Some p) targetVariable conversions))
                  routes (sortedProjections (findArtifact artifactTypes sourceArtifactType)))
        | Concrete i v, Concrete _ _ =>
            let sourceArtifactType := {| ty_id := i; ty_schema_version := v |} in
            let targetArtifactTypes := acceptedHandleArtifactTypes target in
            if handleAcceptsArtifactType target sourceArtifactType then [exact_route [] None]
            else
              default [] (
                routes ← routesVia None sourceArtifactType targetArtifactTypes conversions;
                if MAX_CONVERSION_PATH_CANDIDATES <? length routes then None
                else
                  opt_fold (addProjectionRoutes (λ p,
                      routesVia (Some p) (fp_target p) targetArtifactTypes conversions))
                    routes (sortedProjections (findArtifact artifactTypes sourceArtifactType)))
        end
  | _, _ => []
  end.

(** ** Persisted selections *)

Definition connectionRouteSelection (route : ConnectionRoute) : ConnectionRouteSelection :=
  {| sel_projection := match route with
                       | projection_route p _ _ | projection_conversion_route p _ _ => Some (fp_path p)
                       | _ => None
                       end;
     sel_conversionPath := cv_key <$> routePath route |}.

(** [a.length === b.length && a.every((x, i) => x === b[i])] *)
Definition same_elements {A} `{EqDecision A} (a b : list A) : bool := bool_decide (a = b).

Definition connectionRouteMatchesSelection (route : ConnectionRoute) (selection : ConnectionRouteSelection) : bool :=
  let candidate := connectionRouteSelection route in
  match sel_projection candidate, sel_projection selection with
  | Some p, Some q => same_elements p q
  | None, None => true
  | _, _ => false
  end && same_elements (sel_conversionPath candidate) (sel_conversionPath selection).

Definition connectionRouteDeliveredArtifactType (route : ConnectionRoute) : option ArtifactTypeIdentity :=
  match last (routePath route) with
  | Some c => Some (cv_target c)
  | None => match route with projection_route p _ _ => Some (fp_target p) | _ => None end
  end.

(** One requested conversion: the current type, the visited keys and the path so
    far; [None] is the early return of null. *)
Definition replayConversion (conversions : list ArtifactConversionSpec)
    (acc : ArtifactTypeIdentity * list string * list ArtifactConversionSpec) (requested : ConversionKey)
    : option (ArtifactTypeIdentity * list string * list ArtifactConversionSpec) :=
  let '(current, visited, path) := acc in
  conversion ← snd <$> list_find (λ c, cv_key c = requested) conversions;
  if bool_decide (artifactTypeKey (cv_source conversion) ≠ artifactTypeKey current) then None
  else
    let nextKey := artifactTypeKey (cv_target conversion) in
    if bool_decide (nextKey ∈ visited) then None
    else Some (cv_target conversion, visited ++ [nextKey], path ++ [conversion]).

(** The selected projection of the source's artifact; [None] is the early return
    when one is selected and not declared. *)
Definition selectedProjection (artifactTypes : list ArtifactTypeSpec) (sourceArtifactType : ArtifactTypeIdentity)
    (selected : option (list string)) : option (option FieldProjection) :=
  match selected with
  | None => Some None
  | Some path =>
      artifact ← findArtifact artifactTypes sourceArtifactType;
      p ← snd <$> list_find (λ c, same_elements (fp_path c) path = true) (as_field_projections artifact);
      Some (Some p)
  end.

Definition connectionRouteForSelection (connection : Connection) (artifactTypes : list ArtifactTypeSpec)
    (conversions : list ArtifactConversionSpec) (selection : ConnectionRouteSelection) : option ConnectionRoute :=
  source ← decodeHandleId (sourceHandle connection);
  target ← decodeHandleId (targetHandle connection);
  sourceArtifactType ← decodedHandleArtifactType source;
  _ ← decodedHandleArtifactType target;
  if bool_decide (direction source ≠ output ∨ direction target ≠ input ∨
                  MAX_CONVERSION_PATH_LENGTH < length (sel_conversionPath selection)) then None
  else
    p ← selectedProjection artifactTypes sourceArtifactType (sel_projection selection);
    let start := match p with Some p => fp_target p | None => sourceArtifactType end in
    '(current, _, conversionPath) ← opt_fold (replayConversion conversions) (start, [artifactTypeKey start], [])
                                     (sel_conversionPath selection);
    if existsb (λ candidate, artifactTypeMatches current (ty_id candidate) (ty_schema_version candidate))
         (acceptedHandleArtifactTypes target)
    then Some (connectionRoute p conversionPath None) else None.

(** Declared source-field projections that satisfy a typed connection directly. *)
Definition projectionCandidatesForConnection (connection : Connection) (artifactTypes : list ArtifactTypeSpec)
    : list FieldProjection :=
  default [] (
    source ← decodeHandleId (sourceHandle connection);
    target ← decodeHandleId (targetHandle connection);
    sourceArtifactType ← decodedHandleArtifactType source;
    _ ← decodedHandleArtifactType target;
    if bool_decide (direction source ≠ output ∨ direction target ≠ input) then None
    else if handleAcceptsArtifactType target sourceArtifactType then None
    else
      artifact ← findArtifact artifactTypes sourceArtifactType;
      Some (filter (λ p, handleAcceptsArtifactType target (fp_target p) = true) (as_field_projections artifact))).
End routes.
