(* ===== verification/RoutesTheory.v ===== *)
(** * Connection routes: theorems

    The conversion search returns exactly the shortest simple conversion paths; a
    route that is offered can be persisted and replayed to the same route; the
    number of routes is bounded. *)

From S2P Require Import Prelude Js JsText Handles Routes.
From stdpp Require Import numbers list gmap.

(** ** Sorting *)

Lemma js_insert_perm {A} (cmp : A → A → Z) x l : js_insert cmp x l ≡ₚ x :: l.
Proof. induction l as [|y l IH]; simpl; [done|]. case_match; [done|]. rewrite IH. constructor. Qed.

Lemma js_sort_perm {A} (cmp : A → A → Z) l : js_sort cmp l ≡ₚ l.
Proof. induction l as [|x l IH]; simpl; [done|]. by rewrite js_insert_perm, IH. Qed.

Lemma elem_of_js_sort {A} (cmp : A → A → Z) l x : x ∈ js_sort cmp l ↔ x ∈ l.
Proof. by rewrite js_sort_perm. Qed.

Lemma length_js_sort {A} (cmp : A → A → Z) l : length (js_sort cmp l) = length l.
Proof. apply Permutation_length, js_sort_perm. Qed.

(** ** Conversion paths *)

(** The types a path passes, its start apart. *)
Definition stops (p : list ArtifactConversionSpec) : list ArtifactTypeIdentity := cv_target <$> p.

(** [p] leads from [s] to [t] by registered conversions. *)
Fixpoint chain (cs : list ArtifactConversionSpec) (s t : ArtifactTypeIdentity) (p : list ArtifactConversionSpec) : Prop :=
  match p with
  | [] => s = t
  | c :: p' => c ∈ cs ∧ cv_source c = s ∧ chain cs (cv_target c) t p'
  end.

(** ... and passes no type twice. *)
Definition simple_path cs s t p : Prop := chain cs s t p ∧ NoDup (s :: stops p).

(** A simple path that is at most [MAX_CONVERSION_PATH_LENGTH] long and that no
    simple path between its ends is shorter than. *)
Definition shortest_path cs s t p : Prop :=
  simple_path cs s t p ∧ length p ≤ MAX_CONVERSION_PATH_LENGTH ∧ ∀ q, simple_path cs s t q → length p ≤ length q.

Section chains.
Context (cs : list ArtifactConversionSpec).
Implicit Types s t u : ArtifactTypeIdentity.
Implicit Types p q r : list ArtifactConversionSpec.

Lemma chain_app s t p r : chain cs s t (p ++ r) ↔ ∃ u, chain cs s u p ∧ chain cs u t r.
Proof.
  revert s. induction p as [|c p IH]; intros s; simpl; [naive_solver|].
  setoid_rewrite IH. naive_solver.
Qed.

Lemma chain_snoc s t p c : chain cs s t (p ++ [c]) ↔ chain cs s (cv_source c) p ∧ c ∈ cs ∧ cv_target c = t.
Proof. rewrite chain_app. simpl. naive_solver. Qed.

Lemma chain_end s t u p : chain cs s t p → chain cs s u p → t = u.
Proof. revert s. induction p as [|c p IH]; intros s; simpl; [congruence|]. intros (_ & _ & ?) (_ & _ & ?). eauto. Qed.

Lemma chain_end_in s t p : chain cs s t p → p ≠ [] → t ∈ stops p.
Proof.
  destruct p as [|c p _] using rev_ind; [done|]. rewrite chain_snoc. intros (_ & _ & <-) _.
  unfold stops. rewrite fmap_app, elem_of_app. right. by left.
Qed.

Lemma simple_snoc s t p c :
  simple_path cs s t (p ++ [c]) ↔
  simple_path cs s (cv_source c) p ∧ c ∈ cs ∧ cv_target c = t ∧ t ∉ s :: stops p.
Proof.
  unfold simple_path, stops. rewrite chain_snoc, fmap_app, app_comm_cons, NoDup_app. simpl.
  split.
  - intros ((Hc & Hin & <-) & Hnd & Hdis & _). split_and!; auto.
    intros Hi. eapply Hdis; [exact Hi|by left].
  - intros ((Hc & Hnd) & Hin & <- & Hn). split_and!; auto; [|apply NoDup_singleton].
    intros x Hx ->%list_elem_of_singleton. done.
Qed.

(** A path that goes on does not pass its end before. *)
Lemma simple_prefix s t p r :
  simple_path cs s t (p ++ r) → r ≠ [] → (∃ u, simple_path cs s u p) ∧ t ∉ s :: stops p.
Proof.
  intros [Hc Hnd] Hr. unfold stops in Hnd. rewrite fmap_app, app_comm_cons in Hnd. apply NoDup_app in Hnd as (Hp & Hdis & _).
  apply chain_app in Hc as (u & Hcp & Hcr). split; [by exists u; split|].
  intros Hin. eapply Hdis; [exact Hin|]. by apply (chain_end_in u).
Qed.
End chains.

(** ** The search

    The states of the frontier at depth [n] are the simple paths of length [n]
    that do not pass the target. *)

Lemma groupBySource_lookup cs t :
  default [] (groupBySource cs !! artifactTypeKey t) = filter (λ c, cv_source c = t) cs.
Proof.
  unfold groupBySource. induction cs as [|c cs IH] using rev_ind; [done|].
  rewrite foldl_app, filter_app. simpl. set (m := foldl _ ∅ cs) in *.
  destruct (decide (cv_source c = t)) as [Heq|Hne].
  - rewrite filter_cons_True, filter_nil, Heq, lookup_insert_eq by done. simpl. by rewrite IH.
  - rewrite lookup_insert_ne by by intros ?%artifactTypeKey_inj. rewrite IH, filter_cons_False by done.
    by rewrite filter_nil, app_nil_r.
Qed.

Section search.
Context (localeCompare : string → string → Z) (conversions : list ArtifactConversionSpec)
  (s t : ArtifactTypeIdentity).

Let sorted := js_sort (compareConversions localeCompare) conversions.

(** The state of a path. *)
Definition state_of (p : list ArtifactConversionSpec) : SearchState :=
  {| ss_artifactType := default s (last (stops p)); ss_conversionPath := p;
     ss_visitedArtifactTypes := artifactTypeKey <$> s :: stops p |}.

#[local] Instance state_of_inj : Inj (=) (=) state_of.
Proof. intros p p' H. exact (f_equal ss_conversionPath H). Qed.

Lemma state_of_type p u : chain conversions s u p → ss_artifactType (state_of p) = u.
Proof.
  destruct p as [|c p _] using rev_ind; [done|]. rewrite chain_snoc. intros (_ & _ & <-).
  simpl. unfold stops. rewrite fmap_app. cbn [fmap list_fmap]. by rewrite last_snoc.
Qed.

Lemma visited_spec p x : artifactTypeKey x ∈ ss_visitedArtifactTypes (state_of p) ↔ x ∈ s :: stops p.
Proof.
  unfold state_of. cbn [ss_visitedArtifactTypes]. rewrite list_elem_of_fmap. setoid_rewrite artifactTypeKey_inj. naive_solver.
Qed.

(** What one state adds, by the target reached. *)
Lemma expandConversions_spec p l lv lv' :
  opt_fold (expandConversion t (state_of p)) lv l = Some lv' →
  lv_completed lv' = lv_completed lv ++ ((λ c, p ++ [c]) <$> filter (λ c, cv_target c ∉ s :: stops p ∧ cv_target c = t) l) ∧
  lv_next lv' = lv_next lv ++ ((λ c, state_of (p ++ [c])) <$> filter (λ c, cv_target c ∉ s :: stops p ∧ cv_target c ≠ t) l) ∧
  (length (lv_completed lv) ≤ MAX_CONVERSION_PATH_CANDIDATES → length (lv_completed lv') ≤ MAX_CONVERSION_PATH_CANDIDATES).
Proof.
  revert lv. induction l as [|c l IH]; intros lv; cbn [opt_fold].
  { intros [= <-]. by rewrite !filter_nil, !app_nil_r. }
  destruct (expandConversion t (state_of p) lv c) as [lv1|] eqn:Hc; [|done]. cbn [mbind option_bind].
  intros (H1 & H2 & H3)%IH. unfold expandConversion in Hc. cbv zeta in Hc.
  destruct (decide (cv_target c ∈ s :: stops p)) as [Hv|Hv].
  { rewrite bool_decide_true in Hc by by apply visited_spec. injection Hc as <-.
    rewrite !filter_cons_False by naive_solver. done. }
  rewrite bool_decide_false in Hc by by rewrite visited_spec. case_match; [done|].
  destruct (decide (cv_target c = t)) as [Ht|Ht].
  - rewrite bool_decide_true in Hc by by apply artifactTypeKey_inj.
    destruct (Nat.ltb_spec MAX_CONVERSION_PATH_CANDIDATES (length (lv_completed lv ++ [ss_conversionPath (state_of p) ++ [c]]))); [done|].
    injection Hc as <-. cbn in H1, H2, H3.
    rewrite filter_cons_True, filter_cons_False by naive_solver.
    split_and!; [by rewrite H1, <- app_assoc|done|intros _; by apply H3].
  - rewrite bool_decide_false in Hc by by intros ?%artifactTypeKey_inj.
    injection Hc as <-. cbn in H1, H2, H3.
    rewrite filter_cons_False, filter_cons_True by naive_solver.
    split_and!; [done| |done]. rewrite H2, <- app_assoc. cbn. do 2 f_equal. unfold state_of, stops. rewrite fmap_app. cbn.
    by rewrite last_snoc, fmap_app.
Qed.
(** One more conversion at the end of a path of the frontier. *)
Definition extends (ps : list (list ArtifactConversionSpec)) (arrived : Prop → Prop) (q : list ArtifactConversionSpec) : Prop :=
  ∃ p c, p ∈ ps ∧ q = p ++ [c] ∧ chain conversions s (cv_source c) p ∧ c ∈ conversions ∧
         cv_target c ∉ s :: stops p ∧ arrived (cv_target c = t).

Lemma outgoing_spec p u c :
  chain conversions s u p →
  c ∈ default [] (groupBySource sorted !! artifactTypeKey (ss_artifactType (state_of p))) ↔
  c ∈ conversions ∧ chain conversions s (cv_source c) p.
Proof.
  intros Hp. rewrite (state_of_type p u Hp), groupBySource_lookup, list_elem_of_filter. unfold sorted.
  rewrite elem_of_js_sort. split; [by intros [<- ?]|]. intros [? Hc]. by rewrite (chain_end _ _ _ _ _ Hp Hc).
Qed.

Lemma expandLevel_spec ps lv lv' :
  (∀ p, p ∈ ps → ∃ u, chain conversions s u p) →
  opt_fold (expandState (groupBySource sorted) t) lv (state_of <$> ps) = Some lv' →
  (∀ q, q ∈ lv_completed lv' ↔ q ∈ lv_completed lv ∨ extends ps id q) ∧
  (∃ ps', lv_next lv' = lv_next lv ++ (state_of <$> ps') ∧ ∀ q, q ∈ ps' ↔ extends ps not q) ∧
  (length (lv_completed lv) ≤ MAX_CONVERSION_PATH_CANDIDATES → length (lv_completed lv') ≤ MAX_CONVERSION_PATH_CANDIDATES).
Proof.
  revert lv. induction ps as [|p ps IH]; intros lv Hps; cbn [fmap list_fmap opt_fold].
  { intros [= <-]. split_and!; [|exists []; rewrite app_nil_r; split; [done|]|done];
      intros q; unfold extends; setoid_rewrite elem_of_nil; naive_solver. }
  destruct (expandState (groupBySource sorted) t lv (state_of p)) as [lv1|] eqn:H1; [|done]. cbn [mbind option_bind].
  intros (Hc & (ps' & Hn & Hps') & Hb)%IH; [|intros p' Hp'; apply Hps; by right].
  destruct (Hps p) as [u Hu]; [by left|].
  unfold expandState in H1. apply expandConversions_spec in H1 as (H1c & H1n & H1b).
  set (out := default [] _) in *.
  assert (∀ c, c ∈ out ↔ c ∈ conversions ∧ chain conversions s (cv_source c) p) as Hout by (intros c; by apply (outgoing_spec p u c)).
  split_and!.
  - intros q. rewrite Hc, H1c, elem_of_app, list_elem_of_fmap. unfold extends, id. split.
    + intros [[?|(c & -> & [[??] [??]%Hout]%list_elem_of_filter)]|(p' & c & ? & ?)]; [by left|right..];
        [exists p, c|exists p', c]; rewrite elem_of_cons; naive_solver.
    + intros [?|(p' & c & [->|?]%elem_of_cons & -> & ? & ? & ? & ?)]; [by left; left|left; right|right; by exists p', c].
      exists c. split; [done|]. apply list_elem_of_filter. by rewrite Hout.
  - exists (((λ c, p ++ [c]) <$> filter (λ c, cv_target c ∉ s :: stops p ∧ cv_target c ≠ t) out) ++ ps').
    split; [by rewrite Hn, H1n, fmap_app, <- app_assoc, <- list_fmap_compose|].
    intros q. rewrite elem_of_app, Hps', list_elem_of_fmap. unfold extends. split.
    + intros [(c & -> & [[??] [??]%Hout]%list_elem_of_filter)|(p' & c & ? & ?)];
        [exists p, c|exists p', c]; rewrite elem_of_cons; naive_solver.
    + intros (p' & c & [->|?]%elem_of_cons & -> & ? & ? & ? & ?); [left|right; by exists p', c].
      exists c. split; [done|]. apply list_elem_of_filter. by rewrite Hout.
  - auto.
Qed.

(** The frontier of depth [n]. *)
Definition frontier (n : nat) (ps : list (list ArtifactConversionSpec)) : Prop :=
  ∀ p, p ∈ ps ↔ (∃ u, simple_path conversions s u p) ∧ length p = n ∧ t ∉ s :: stops p.

Lemma extends_arrived n ps q :
  frontier n ps → extends ps id q ↔ simple_path conversions s t q ∧ length q = S n.
Proof.
  intros Hf. unfold extends, id. split.
  - intros (p & c & Hp & -> & Hch & Hc & Hn & Ht). apply Hf in Hp as ([u [Hu Hnd]] & Hl & _).
    rewrite simple_snoc, length_app, <- Ht. simpl. split_and!; [by split|done..|lia].
  - intros [Hq Hl]. destruct q as [|c p _] using rev_ind; [done|]. rewrite length_app in Hl. simpl in Hl.
    pose proof Hq as (Hs & Hc & Ht & Hn)%simple_snoc. exists p, c. split_and!; [|done|apply Hs|done|by rewrite Ht|done].
    apply Hf. split_and!; [eauto|lia|done].
Qed.

Lemma extends_next n ps ps' :
  frontier n ps → (∀ q, q ∈ ps' ↔ extends ps not q) → frontier (S n) ps'.
Proof.
  intros Hf Hps' q. rewrite Hps'. unfold extends. split.
  - intros (p & c & Hp & -> & Hch & Hc & Hn & Ht). apply Hf in Hp as ([u [Hu Hnd]] & Hl & Htp).
    rewrite length_app. simpl. split_and!; [|lia|].
    + exists (cv_target c). by apply simple_snoc.
    + unfold stops. rewrite fmap_app, app_comm_cons, elem_of_app. intros [?|Hin]; [done|].
      apply list_elem_of_singleton in Hin. by rewrite Hin in Ht.
  - intros ([u Hq] & Hl & Ht). destruct q as [|c p _] using rev_ind; [done|]. rewrite length_app in Hl. simpl in Hl.
    pose proof Hq as (Hs & Hc & Hu & Hn)%simple_snoc. exists p, c.
    unfold stops in Ht. rewrite fmap_app, app_comm_cons, not_elem_of_app in Ht. destruct Ht as [Ht Htc].
    split_and!; [|done|apply Hs|done|by rewrite Hu|].
    + apply Hf. split_and!; [eauto|lia|done].
    + intros <-. apply Htc. by left.
Qed.
Lemma searchDepths_exact d n ps ex r :
  frontier n ps → (∀ q, simple_path conversions s t q → n < length q) →
  searchDepths localeCompare (groupBySource sorted) t d ex (state_of <$> ps) = Some r →
  (∀ p, p ∈ r ↔ simple_path conversions s t p ∧ length p ≤ n + d ∧
                ∀ q, simple_path conversions s t q → length p ≤ length q) ∧
  length r ≤ MAX_CONVERSION_PATH_CANDIDATES.
Proof.
  revert n ps ex. induction d as [|d IH]; intros n ps ex Hf Hmin; cbn [searchDepths].
  { intros [= <-]. split; [|simpl; lia]. intros p. rewrite elem_of_nil. split; [done|].
    intros (Hp & Hl & _). specialize (Hmin p Hp). lia. }
  destruct (opt_fold _ _ _) as [lv|] eqn:Hlv; [|done]. cbn [mbind option_bind].
  apply expandLevel_spec in Hlv as (Hc & (ps' & Hn & Hps') & Hb);
    [|intros p [[u [? _]] _]%Hf; by exists u].
  assert (∀ q, q ∈ lv_completed lv ↔ simple_path conversions s t q ∧ length q = S n) as Hdone.
  { intros q. rewrite Hc, (extends_arrived n) by done. cbn. rewrite elem_of_nil. tauto. }
  cbn in Hn. specialize (Hb ltac:(simpl; lia)). clear Hc.
  assert (lv_completed lv = [] → ∀ q, simple_path conversions s t q → S n < length q) as Hmin'.
  { intros He q Hq. specialize (Hmin q Hq). destruct (decide (length q = S n)); [|lia].
    assert (q ∈ lv_completed lv) as Hin by by apply Hdone. rewrite He in Hin. by apply elem_of_nil in Hin. }
  destruct (lv_completed lv) as [|p0 done] eqn:Hdl.
  - destruct (lv_next lv) as [|st rest] eqn:Hnext.
    + intros [= <-]. split; [|simpl; lia]. intros p. rewrite elem_of_nil. split; [done|]. intros (Hp & _ & _).
      specialize (Hmin' eq_refl p Hp). rewrite <- (take_drop (S n) p) in Hp.
      apply simple_prefix in Hp as [Hu Ht]; [|intros Hd; apply (f_equal length) in Hd; rewrite length_drop in Hd; simpl in Hd; lia].
      assert (take (S n) p ∈ ps') as Hin.
      { apply (extends_next n ps ps' Hf Hps'). split_and!; [done|rewrite length_take; lia|done]. }
      destruct ps'; [by apply elem_of_nil in Hin|done].
    + rewrite Hn. intros Hr. eapply IH in Hr; [|by apply (extends_next n ps)|by apply Hmin'].
      destruct Hr as [Hr Hb']. split; [|done]. intros p. rewrite Hr. by replace (S n + d) with (n + S d) by lia.
  - intros Hr. assert (r = js_sort (compareConversionPaths localeCompare) (p0 :: done)) as -> by congruence.
    rewrite length_js_sort. split; [|done]. intros p. rewrite elem_of_js_sort, Hdone. split.
    + intros [Hp Hl]. split_and!; [done|lia|]. intros q Hq. specialize (Hmin q Hq). lia.
    + intros (Hp & Hl & Hle). split; [done|]. specialize (Hmin p Hp).
      assert (p0 ∈ p0 :: done) as [Hp0 Hl0]%Hdone by by left. specialize (Hle p0 Hp0). lia.
Qed.

Lemma initial_frontier : s ≠ t → frontier 0 [[]].
Proof.
  intros Hst p. rewrite list_elem_of_singleton. split.
  - intros ->. split_and!; [|done|]; [exists s; split; [done|apply NoDup_singleton]|].
    rewrite list_elem_of_singleton. congruence.
  - intros (_ & Hl & _). by destruct p.
Qed.

Lemma paths_exact r :
  shortestConversionPaths localeCompare s t conversions = Some r →
  (∀ p, p ∈ r ↔ shortest_path conversions s t p) ∧ length r ≤ MAX_CONVERSION_PATH_CANDIDATES.
Proof.
  unfold shortestConversionPaths, shortest_path. case_bool_decide as Hk.
  - apply artifactTypeKey_inj in Hk as Hst. intros [= <-]. split; [|unfold MAX_CONVERSION_PATH_CANDIDATES; simpl; lia].
    assert (simple_path conversions s t []) as Hnil by (split; [exact Hst|apply NoDup_singleton]).
    intros p. rewrite list_elem_of_singleton. split.
    + intros ->. split_and!; [done|simpl; lia|]. intros q _. simpl. lia.
    + intros (_ & _ & Hle). specialize (Hle [] Hnil). by destruct p; simpl in Hle; [|lia].
  - assert (s ≠ t) as Hst by by intros ?%artifactTypeKey_inj.
    change [initialState s] with (state_of <$> [[]]). intros Hr.
    apply (searchDepths_exact _ 0) in Hr; [done|by apply initial_frontier|].
    intros [|c q] [Hch _]; simpl in *; [done|lia].
Qed.
(** *** When the search does not give up

    It counts the paths it makes; with few simple paths it ends before a bound. *)

Definition fresh (p : list ArtifactConversionSpec) : list ArtifactConversionSpec :=
  filter (λ c, cv_target c ∉ s :: stops p)
    (default [] (groupBySource sorted !! artifactTypeKey (ss_artifactType (state_of p)))).

Definition grown (ps : list (list ArtifactConversionSpec)) : list (list ArtifactConversionSpec) :=
  ps ≫= (λ p, (λ c, p ++ [c]) <$> fresh p).

(** Within the bounds, [k] more states are counted and at most [k] completed. *)
Definition counted (lv : Level) (k : nat) (o : option Level) : Prop :=
  (lv_expanded lv + Z.of_nat k ≤ MAX_CONVERSION_SEARCH_STATES)%Z →
  length (lv_completed lv) + k ≤ MAX_CONVERSION_PATH_CANDIDATES →
  ∃ lv', o = Some lv' ∧ lv_expanded lv' = (lv_expanded lv + Z.of_nat k)%Z ∧
         length (lv_completed lv') ≤ length (lv_completed lv) + k.

Lemma expandConversion_counted p lv c :
  counted lv (if decide (cv_target c ∉ s :: stops p) then 1 else 0) (expandConversion t (state_of p) lv c).
Proof.
  intros He Hc. unfold expandConversion. cbv zeta. case_decide as Hv.
  - rewrite bool_decide_false by by intros ?%visited_spec.
    destruct (Z.ltb_spec MAX_CONVERSION_SEARCH_STATES (lv_expanded lv + 1)); [lia|]. case_bool_decide.
    + destruct (Nat.ltb_spec MAX_CONVERSION_PATH_CANDIDATES (length (lv_completed lv ++ [ss_conversionPath (state_of p) ++ [c]])));
        [rewrite length_app in *; simpl in *; lia|].
      eexists. split; [done|]. simpl. rewrite length_app. simpl. auto with lia.
    + eexists. split; [done|]. simpl. auto with lia.
  - rewrite bool_decide_true by by apply visited_spec. exists lv. split; [done|]. lia.
Qed.

Lemma counted_fold {A} (f : Level → A → option Level) (k : A → nat) l :
  (∀ lv a, a ∈ l → counted lv (k a) (f lv a)) → ∀ lv, counted lv (sum_list_with k l) (opt_fold f lv l).
Proof.
  intros Hf. induction l as [|a l IH]; intros lv He Hc; cbn [opt_fold sum_list_with] in *.
  { exists lv. split; [done|]. lia. }
  destruct (Hf lv a (list_elem_of_here _ _)) as (lv1 & -> & He1 & Hc1); [lia..|]. cbn [mbind option_bind].
  destruct (IH (λ lv' a' Ha', Hf lv' a' (list_elem_of_further _ _ _ Ha')) lv1) as (lv' & -> & He' & Hc'); [lia..|].
  exists lv'. split; [done|]. lia.
Qed.

Lemma sum_filter {A} (P : A → Prop) `{∀ a, Decision (P a)} l :
  sum_list_with (λ a, if decide (P a) then 1 else 0) l = length (filter P l).
Proof. induction l as [|a l IH]; [done|]. cbn [sum_list_with]. rewrite filter_cons, IH. by case_decide. Qed.

Lemma level_counted ps lv : counted lv (length (grown ps)) (opt_fold (expandState (groupBySource sorted) t) lv (state_of <$> ps)).
Proof.
  assert (length (grown ps) = sum_list_with (λ st, length (fresh (ss_conversionPath st))) (state_of <$> ps)) as ->.
  { unfold grown. induction ps as [|p ps IH]; [done|]. cbn. by rewrite length_app, length_fmap, IH. }
  apply counted_fold. intros lv1 st (p & -> & _)%list_elem_of_fmap. unfold expandState.
  cbn [ss_conversionPath state_of]. unfold fresh. rewrite <- sum_filter.
  apply counted_fold. intros lv2 c _. apply expandConversion_counted.
Qed.

Lemma level_next ps lv lv' :
  opt_fold (expandState (groupBySource sorted) t) lv (state_of <$> ps) = Some lv' →
  lv_next lv' = lv_next lv ++ (state_of <$> filter (λ q, last (stops q) ≠ Some t) (grown ps)).
Proof.
  revert lv. induction ps as [|p ps IH]; intros lv; cbn [fmap list_fmap opt_fold].
  { intros [= <-]. by rewrite app_nil_r. }
  destruct (expandState (groupBySource sorted) t lv (state_of p)) as [lv1|] eqn:H1; [|done]. cbn [mbind option_bind].
  intros ->%IH. unfold expandState in H1. apply expandConversions_spec in H1 as (_ & -> & _).
  rewrite <- app_assoc. f_equal. unfold grown. cbn [mbind list_bind]. rewrite filter_app, fmap_app. f_equal.
  unfold fresh. set (out := default [] _). clearbody out. induction out as [|c out IHo]; [done|].
  assert (last (stops (p ++ [c])) = Some (cv_target c)) as Hl by (unfold stops; rewrite fmap_app; apply last_snoc).
  rewrite !(filter_cons _ c out). destruct (decide (cv_target c ∉ s :: stops p)) as [Hv|Hv].
  - cbn [fmap list_fmap]. rewrite (filter_cons _ (p ++ [c])), Hl. destruct (decide (cv_target c = t)) as [Ht|Ht].
    + rewrite (decide_False (P := _ ∧ _)), (decide_False (P := Some _ ≠ _)) by naive_solver. exact IHo.
    + rewrite (decide_True (P := _ ∧ _)), (decide_True (P := Some _ ≠ _)) by naive_solver. cbn. f_equal. exact IHo.
  - rewrite (decide_False (P := _ ∧ _)) by naive_solver. exact IHo.
Qed.
Lemma elem_of_grown ps q : q ∈ grown ps ↔ ∃ p c, p ∈ ps ∧ q = p ++ [c] ∧ c ∈ fresh p.
Proof.
  unfold grown. rewrite list_elem_of_bind. setoid_rewrite list_elem_of_fmap. naive_solver.
Qed.

Lemma NoDup_grown ps : NoDup conversions → NoDup ps → NoDup (grown ps).
Proof.
  intros Hcs. induction 1 as [|p ps Hp Hps IH]; [constructor|]. unfold grown in *. cbn [mbind list_bind].
  apply NoDup_app. split_and!; [|intros q (c & -> & _)%list_elem_of_fmap Hin|done].
  - apply NoDup_fmap_2; [intros c c' [_ ?]%app_inj_tail; done|]. apply NoDup_filter.
    rewrite groupBySource_lookup. apply NoDup_filter. unfold sorted. by rewrite js_sort_perm.
  - apply (elem_of_grown ps) in Hin as (p' & c' & Hp' & [-> _]%app_inj_tail & _). done.
Qed.

(** A path the search can make. *)
Definition made (q : list ArtifactConversionSpec) : Prop :=
  (∃ u, simple_path conversions s u q) ∧ 1 ≤ length q ≤ MAX_CONVERSION_PATH_LENGTH.

Lemma grown_made n ps q : frontier n ps → q ∈ grown ps → (∃ u, simple_path conversions s u q) ∧ length q = S n.
Proof.
  intros Hf (p & c & Hp & -> & [Hv Hc]%list_elem_of_filter)%elem_of_grown.
  apply Hf in Hp as ([u Hs] & Hl & _). apply (outgoing_spec p u c) in Hc as [Hc Hch]; [|apply Hs].
  rewrite length_app. simpl. split; [|lia]. exists (cv_target c). apply simple_snoc. split_and!; [|done..]. split; [done|apply Hs].
Qed.

Lemma searchDepths_total d n ps G :
  NoDup conversions → (∀ l, NoDup l → Forall made l → length l ≤ MAX_CONVERSION_PATH_CANDIDATES) →
  frontier n ps → NoDup ps → NoDup G → Forall (λ q, made q ∧ length q ≤ n) G → n + d ≤ MAX_CONVERSION_PATH_LENGTH →
  is_Some (searchDepths localeCompare (groupBySource sorted) t d (Z.of_nat (length G)) (state_of <$> ps)).
Proof.
  intros Hcs Hfew. revert n ps G. induction d as [|d IH]; intros n ps G Hf Hps HG Hmade Hd; cbn [searchDepths]; [done|].
  assert (Forall (λ q, made q ∧ length q ≤ S n) (G ++ grown ps)) as Hall.
  { apply Forall_app. split; [eapply Forall_impl; [done|]; intros q [? ?]; auto with lia|].
    apply Forall_forall. intros q [Hq Hl]%(grown_made n ps q Hf). unfold made. split_and!; [done|lia..]. }
  assert (NoDup (G ++ grown ps)) as Hnd.
  { apply NoDup_app. split_and!; [done| |by apply NoDup_grown]. intros q Hq [_ Hl]%(grown_made n ps q Hf).
    eapply Forall_forall in Hmade as [_ Hle]; [|done]. lia. }
  assert (length (G ++ grown ps) ≤ MAX_CONVERSION_PATH_CANDIDATES) as Hlen.
  { apply Hfew; [done|]. eapply Forall_impl; [done|]. by intros q []. }
  rewrite length_app in Hlen.
  destruct (level_counted ps {| lv_expanded := Z.of_nat (length G); lv_completed := []; lv_next := [] |})
    as (lv & Hlv & He & _).
  { cbn. unfold MAX_CONVERSION_PATH_CANDIDATES, MAX_CONVERSION_SEARCH_STATES in *. lia. }
  { cbn. lia. }
  rewrite Hlv. cbn [mbind option_bind]. pose proof (level_next _ _ _ Hlv) as Hnext. cbn in Hnext, He.
  apply expandLevel_spec in Hlv as (_ & (ps' & Hn & Hps') & _); [|intros p [[u [? _]] _]%Hf; by exists u].
  cbn in Hn. assert (ps' = filter (λ q, last (stops q) ≠ Some t) (grown ps)) as Heq.
  { rewrite Hn in Hnext. by apply (inj (fmap state_of)) in Hnext. }
  destruct (lv_completed lv); [|done]. destruct (lv_next lv) as [|st rest]; [done|].
  rewrite Hn, He. replace (Z.of_nat (length G) + Z.of_nat (length (grown ps)))%Z with (Z.of_nat (length (G ++ grown ps)))
    by (rewrite length_app; lia).
  apply (IH (S n)); [by apply (extends_next n ps)| |done|done|lia]. rewrite Heq. by apply NoDup_filter, NoDup_grown.
Qed.

Lemma paths_total :
  NoDup conversions → (∀ l, NoDup l → Forall made l → length l ≤ MAX_CONVERSION_PATH_CANDIDATES) →
  is_Some (shortestConversionPaths localeCompare s t conversions).
Proof.
  intros Hcs Hfew. unfold shortestConversionPaths. case_bool_decide as Hk; [done|].
  change [initialState s] with (state_of <$> [[]]). change 0%Z with (Z.of_nat (length (A := list ArtifactConversionSpec) [])).
  apply (searchDepths_total _ 0); [done..| |apply NoDup_singleton|constructor|constructor|done].
  apply initial_frontier. by intros ?%artifactTypeKey_inj.
Qed.
End search.

(** Fewer simple paths from [s] than the search keeps. *)
Definition few_paths (cs : list ArtifactConversionSpec) (s : ArtifactTypeIdentity) : Prop :=
  ∀ l, NoDup l → Forall (made cs s) l → length l ≤ MAX_CONVERSION_PATH_CANDIDATES.

(** C29: the conversion search returns exactly the shortest simple conversion paths
    of at most eight steps, whatever the collation; and it does not give up when
    the registry, without duplicates, has few simple paths from the source. *)
Theorem conversion_paths_exact localeCompare cs s t :
  (∀ r, shortestConversionPaths localeCompare s t cs = Some r → ∀ p, p ∈ r ↔ shortest_path cs s t p) ∧
  (NoDup cs → few_paths cs s → is_Some (shortestConversionPaths localeCompare s t cs)).
Proof.
  split; [|apply paths_total]. intros r Hr. exact (proj1 (paths_exact localeCompare cs s t r Hr)).
Qed.

(** ** Routes *)

Lemma opt_fold_inv {S A} (P : S → Prop) (f : S → A → option S) l s s' :
  (∀ x a x', a ∈ l → P x → f x a = Some x' → P x') → P s → opt_fold f s l = Some s' → P s'.
Proof.
  revert s. induction l as [|a l IH]; intros s Hf Hs; cbn [opt_fold]; [by intros [= <-]|].
  destruct (f s a) as [x|] eqn:Hx; [|done]. cbn [mbind option_bind]. apply IH.
  - intros y b y' Hb. apply Hf. by right.
  - by eapply (Hf _ a); [left| |].
Qed.

Section offered.
Context (localeCompare : string → string → Z) (cs : list ArtifactConversionSpec) (types : list ArtifactTypeSpec).
Implicit Types r : ConnectionRoute.

Lemma pathsToAny_spec s targets ps :
  shortestConversionPathsToAny localeCompare s targets cs = Some ps →
  ∀ p, p ∈ ps → ∃ u, u ∈ targets ∧ shortest_path cs s u p.
Proof.
  apply (opt_fold_inv (λ ps, ∀ p, p ∈ ps → ∃ u, u ∈ targets ∧ shortest_path cs s u p)).
  - intros x u x' Hu Hx. destruct (shortestConversionPaths localeCompare s u cs) as [ps'|] eqn:Hps; [|done]. cbn.
    intros [= <-] p [?|Hp]%elem_of_app; [by apply Hx|]. exists u. split; [done|].
    by apply (paths_exact localeCompare cs s u ps' Hps).
  - intros p Hp. by apply elem_of_nil in Hp.
Qed.

(** A route of a connection between concrete types: an optional projection of the
    source's artifact and a shortest path from there to an accepted type. *)
Definition typed_route (src : ArtifactTypeIdentity) (tgt : PortMeta) r : Prop :=
  ∃ p path u, r = connectionRoute p path None ∧ u ∈ acceptedHandleArtifactTypes tgt ∧
    shortest_path cs (match p with Some p => fp_target p | None => src end) u path ∧
    match p with
    | None => True
    | Some p => ∃ a, findArtifact types src = Some a ∧ p ∈ as_field_projections a
    end.

Lemma routesVia_typed src tgt p routes :
  match p with None => True | Some p => ∃ a, findArtifact types src = Some a ∧ p ∈ as_field_projections a end →
  routesVia localeCompare p (match p with Some p => fp_target p | None => src end) (acceptedHandleArtifactTypes tgt) cs = Some routes →
  ∀ r, r ∈ routes → typed_route src tgt r.
Proof.
  intros Hp. unfold routesVia. destruct (shortestConversionPathsToAny _ _ _ _) as [ps|] eqn:Hps; [|done].
  intros [= <-] r (path & -> & Hin)%list_elem_of_fmap. eapply pathsToAny_spec in Hps as (u & Hu & Hs); [|done].
  by exists p, path, u.
Qed.

Lemma addProjections_typed src tgt ps routes routes' :
  (∀ p, p ∈ ps → ∃ a, findArtifact types src = Some a ∧ p ∈ as_field_projections a) →
  (∀ r, r ∈ routes → typed_route src tgt r) →
  opt_fold (addProjectionRoutes (λ p, routesVia localeCompare (Some p) (fp_target p) (acceptedHandleArtifactTypes tgt) cs)) routes ps
    = Some routes' →
  ∀ r, r ∈ routes' → typed_route src tgt r.
Proof.
  intros Hps. apply (opt_fold_inv (λ rs, ∀ r, r ∈ rs → typed_route src tgt r)).
  intros x p x' Hp Hx. unfold addProjectionRoutes. destruct (routesVia _ _ _ _ _) as [prs|] eqn:Hv; [|done]. cbn.
  case_match; [done|]. intros [= <-] r [?|Hr]%elem_of_app; [by apply Hx|].
  eapply (routesVia_typed src tgt (Some p)); [by apply Hps|exact Hv|done].
Qed.

Lemma sortedProjections_in src p :
  p ∈ sortedProjections localeCompare (findArtifact types src) → ∃ a, findArtifact types src = Some a ∧ p ∈ as_field_projections a.
Proof.
  unfold sortedProjections. rewrite elem_of_js_sort. destruct (findArtifact types src) as [a|]; [eauto|].
  by intros ?%elem_of_nil.
Qed.

Lemma simple_nil s : simple_path cs s s [].
Proof. split; [done|apply NoDup_singleton]. Qed.

Lemma routes_typed conn src tgt i v i' v' r :
  decodeHandleId (sourceHandle conn) = Some src → decodeHandleId (targetHandle conn) = Some tgt →
  portType src = Concrete i v → portType tgt = Concrete i' v' →
  r ∈ connectionRoutesFor localeCompare conn types cs →
  direction src = output ∧ direction tgt = input ∧ typed_route {| ty_id := i; ty_schema_version := v |} tgt r.
Proof.
  intros Hs Ht Hst Htt. unfold connectionRoutesFor. rewrite Hs, Ht. case_bool_decide as Hd; [by intros ?%elem_of_nil|].
  rewrite Hst, Htt. cbv zeta. intros Hr.
  assert (direction src = output ∧ direction tgt = input) as [-> ->].
  { by destruct (direction src), (direction tgt); naive_solver. }
  split_and!; [done..|]. set (st := {| ty_id := i; ty_schema_version := v |}) in *.
  destruct (handleAcceptsArtifactType tgt st) eqn:Hacc.
  - apply list_elem_of_singleton in Hr as ->. exists None, [], st. apply accepts_spec in Hacc.
    split_and!; [done|done| |done]. split_and!; [apply simple_nil|simpl; lia|]. intros q _. simpl. lia.
  - destruct (routesVia localeCompare None st (acceptedHandleArtifactTypes tgt) cs) as [routes|] eqn:Hv;
      cbn in Hr; [|by apply elem_of_nil in Hr].
    case_match; [by apply elem_of_nil in Hr|]. destruct (opt_fold _ routes _) as [routes'|] eqn:Hf;
      cbn in Hr; [|by apply elem_of_nil in Hr].
    eapply addProjections_typed; [|by eapply (routesVia_typed st tgt None)|exact Hf|done].
    intros p. apply sortedProjections_in.
Qed.
End offered.

(** ** Replaying a selection *)

Lemma find_unique {A B} `{EqDecision B} (f : A → B) l a :
  NoDup (f <$> l) → a ∈ l → snd <$> list_find (λ x, f x = f a) l = Some a.
Proof.
  induction l as [|x l IH]; [by intros _ ?%elem_of_nil|]. cbn. intros [Hx Hnd]%NoDup_cons Hin.
  case_decide as Heq.
  - apply elem_of_cons in Hin as [->|Hin]; [done|]. destruct Hx. rewrite Heq. by apply list_elem_of_fmap_2.
  - apply elem_of_cons in Hin as [->|Hin]; [done|]. specialize (IH Hnd Hin).
    destruct (list_find _ l) as [[? ?]|]; naive_solver.
Qed.

(** The selection of a path from where the loop stands is followed to its end. *)
Lemma replay_path cs s cur u path path0 :
  NoDup (cv_key <$> cs) → chain cs cur u path → NoDup (s :: stops (path0 ++ path)) →
  ∃ visited, opt_fold (replayConversion cs) (cur, artifactTypeKey <$> s :: stops path0, path0) (cv_key <$> path)
             = Some (u, visited, path0 ++ path).
Proof.
  intros Hcs. revert cur path0. induction path as [|c path IH]; intros cur path0; cbn [chain fmap list_fmap opt_fold].
  { intros -> _. rewrite app_nil_r. eauto. }
  intros (Hc & <- & Hch) Hnd. cbn [replayConversion]. rewrite (find_unique cv_key) by done. cbn [mbind option_bind].
  rewrite bool_decide_false by (intros H; by apply H). cbv zeta. rewrite bool_decide_false.
  - destruct (IH (cv_target c) (path0 ++ [c]) Hch) as [visited Hv]; [by rewrite <- app_assoc|].
    exists visited. rewrite <- app_assoc in Hv. cbn [app] in Hv. rewrite <- Hv. do 3 f_equal.
    unfold stops. by rewrite fmap_app, app_comm_cons, fmap_app.
  - change (artifactTypeKey (cv_target c) ∉ artifactTypeKey <$> s :: stops path0).
    intros (x & Hx%artifactTypeKey_inj & Hin)%list_elem_of_fmap. subst x. unfold stops in *.
    rewrite fmap_app, app_comm_cons in Hnd. apply NoDup_app in Hnd as (_ & Hdis & _). apply (Hdis _ Hin). by left.
Qed.

Lemma selection_of_route p path :
  connectionRouteSelection (connectionRoute p path None) =
  {| sel_projection := fp_path <$> p; sel_conversionPath := cv_key <$> path |}.
Proof. by destruct p, path. Qed.

Lemma delivered_type cs s u p path :
  chain cs (match p with Some p => fp_target p | None => s end) u path →
  default s (connectionRouteDeliveredArtifactType (connectionRoute p path None)) = u.
Proof.
  destruct path as [|c path _] using rev_ind; [by destruct p|]. rewrite chain_snoc. intros (_ & _ & <-).
  assert (∀ r, routePath r = path ++ [c] → default s (connectionRouteDeliveredArtifactType r) = cv_target c) as Hr.
  { intros r Hr. unfold connectionRouteDeliveredArtifactType. by rewrite Hr, last_snoc. }
  apply Hr. by destruct p, path.
Qed.

(** The registries name conversions, and projections of one artifact, once. *)
Definition registry_ok (types : list ArtifactTypeSpec) (cs : list ArtifactConversionSpec) : Prop :=
  NoDup (cv_key <$> cs) ∧ ∀ a, a ∈ types → NoDup (fp_path <$> as_field_projections a).

Lemma projection_replays types st p :
  (∀ a, a ∈ types → NoDup (fp_path <$> as_field_projections a)) →
  match p with None => True | Some p => ∃ a, findArtifact types st = Some a ∧ p ∈ as_field_projections a end →
  selectedProjection types st (fp_path <$> p) = Some p.
Proof.
  intros Htypes. destruct p as [p|]; [|done]. intros (a & Ha & Hin). unfold selectedProjection.
  cbn [fmap option_fmap option_map]. rewrite Ha. cbn [mbind option_bind].
  assert (a ∈ types) as Hat.
  { unfold findArtifact in Ha. apply fmap_Some in Ha as ([k a'] & Hf & ->). apply list_find_Some in Hf as [Hk _].
    by eapply list_elem_of_lookup_2. }
  pose proof (find_unique fp_path _ p (Htypes a Hat) Hin) as Hfind.
  rewrite (list_find_ext _ (λ c, fp_path c = fp_path p)); [by rewrite Hfind|].
  intros c. unfold same_elements. by rewrite bool_decide_eq_true.
Qed.

(** C30: a route that is offered between concrete types delivers a type that the
    target accepts, and persisting it as a selection and replaying the selection
    gives the same route back. *)
Theorem offered_route_replays localeCompare types cs conn src tgt i v i' v' r :
  registry_ok types cs →
  decodeHandleId (sourceHandle conn) = Some src → decodeHandleId (targetHandle conn) = Some tgt →
  portType src = Concrete i v → portType tgt = Concrete i' v' →
  r ∈ connectionRoutesFor localeCompare conn types cs →
  default {| ty_id := i; ty_schema_version := v |} (connectionRouteDeliveredArtifactType r) ∈ acceptedHandleArtifactTypes tgt ∧
  connectionRouteForSelection conn types cs (connectionRouteSelection r) = Some r.
Proof.
  intros [Hcs Htypes] Hs Ht Hst Htt Hr.
  destruct (routes_typed _ _ _ _ _ _ _ _ _ _ _ Hs Ht Hst Htt Hr) as (Hds & Hdt & p & path & u & -> & Hu & Hsp & Hp).
  set (st := {| ty_id := i; ty_schema_version := v |}) in *. destruct Hsp as ([Hch Hnd] & Hl & _).
  split; [by erewrite delivered_type|]. rewrite selection_of_route. unfold connectionRouteForSelection. rewrite Hs, Ht.
  cbn [mbind option_bind]. unfold decodedHandleArtifactType. rewrite Hst, Htt. cbn [mbind option_bind].
  cbn [sel_conversionPath sel_projection]. rewrite bool_decide_false.
  2: { rewrite Hds, Hdt, length_fmap. intros [?|[?|?]]; [done..|lia]. }
  fold st. rewrite (projection_replays types) by done.
  cbn [mbind option_bind]. cbv zeta. set (start := match p with Some p0 => fp_target p0 | None => st end) in *.
  destruct (replay_path cs start start u path [] Hcs Hch Hnd) as [visited Hv].
  change (artifactTypeKey <$> start :: stops []) with [artifactTypeKey start] in Hv. rewrite Hv. cbn [mbind option_bind app].
  assert (existsb (λ c, artifactTypeMatches u (ty_id c) (ty_schema_version c)) (acceptedHandleArtifactTypes tgt) = true) as ->; [|done].
  apply existsb_exists. exists u. rewrite <- list_elem_of_In. split; [done|]. unfold artifactTypeMatches.
  by rewrite !bool_decide_true.
Qed.

(** ** Bounds *)

Lemma pushRoutes_bounded (f : list ArtifactConversionSpec → ConnectionRoute) ps routes routes' :
  length routes ≤ MAX_CONVERSION_PATH_CANDIDATES →
  opt_fold (λ rs path, pushRoute rs (f path)) routes ps = Some routes' →
  length routes' ≤ MAX_CONVERSION_PATH_CANDIDATES.
Proof.
  intros Hr. apply (opt_fold_inv (λ rs, length rs ≤ MAX_CONVERSION_PATH_CANDIDATES)); [|done].
  intros rs path rs' _ _. unfold pushRoute. cbv zeta.
  destruct (Nat.ltb_spec MAX_CONVERSION_PATH_CANDIDATES (length (rs ++ [f path]))); [done|]. by intros [= <-].
Qed.

Lemma addProjections_bounded routesOf ps routes routes' :
  length routes ≤ MAX_CONVERSION_PATH_CANDIDATES →
  opt_fold (addProjectionRoutes routesOf) routes ps = Some routes' →
  length routes' ≤ MAX_CONVERSION_PATH_CANDIDATES.
Proof.
  intros Hr. apply (opt_fold_inv (λ rs, length rs ≤ MAX_CONVERSION_PATH_CANDIDATES)); [|done].
  intros rs p rs' _ _. unfold addProjectionRoutes. destruct (routesOf p) as [prs|]; [|done]. cbn [mbind option_bind].
  destruct (Nat.ltb_spec MAX_CONVERSION_PATH_CANDIDATES (length rs + length prs)); [done|]. intros [= <-].
  by rewrite length_app.
Qed.

Lemma genericRoutes_bounded localeCompare s p var cs routes :
  genericTargetRoutesFrom localeCompare s p var cs = Some routes → length routes ≤ MAX_CONVERSION_PATH_CANDIDATES.
Proof.
  apply (opt_fold_inv (λ rs, length rs ≤ MAX_CONVERSION_PATH_CANDIDATES));
    [|cbn; unfold MAX_CONVERSION_PATH_CANDIDATES; lia].
  intros rs u rs' _ Hrs. case_bool_decide; [by intros [= <-]|].
  destruct (shortestConversionPaths _ _ _ _) as [ps|]; [|done]. cbn. by apply pushRoutes_bounded.
Qed.

(** At most [MAX_CONVERSION_PATH_CANDIDATES] routes are offered for any
    connection and any registry. *)
Theorem routes_are_bounded localeCompare conn types cs :
  length (connectionRoutesFor localeCompare conn types cs) ≤ MAX_CONVERSION_PATH_CANDIDATES.
Proof.
  assert (∀ o : option (list ConnectionRoute), (∀ rs, o = Some rs → length rs ≤ MAX_CONVERSION_PATH_CANDIDATES) →
            length (default [] o) ≤ MAX_CONVERSION_PATH_CANDIDATES) as Hdef.
  { intros [rs|] Ho; [by apply Ho|]. cbn. lia. }
  assert (1 ≤ MAX_CONVERSION_PATH_CANDIDATES) as H1 by (unfold MAX_CONVERSION_PATH_CANDIDATES; lia).
  unfold connectionRoutesFor. destruct (decodeHandleId _) as [src|]; [|cbn; lia].
  destruct (decodeHandleId _) as [tgt|]; [|cbn; lia]. case_bool_decide; [cbn; lia|].
  destruct (portType src) as [i v|v], (portType tgt) as [i' v'|v']; cbv zeta;
    try case_match; try (cbn; lia); apply Hdef; intros rs.
  - destruct (routesVia _ _ _ _ _) as [routes|]; [|done]. cbn [mbind option_bind].
    destruct (Nat.ltb_spec MAX_CONVERSION_PATH_CANDIDATES (length routes)); [done|]. by apply addProjections_bounded.
  - destruct (genericTargetRoutesFrom _ _ _ _ _) as [routes|] eqn:Hg; [|done]. cbn [mbind option_bind].
    apply genericRoutes_bounded in Hg. by apply addProjections_bounded.
Qed.

(** ** The hypotheses hold on a concrete registry *)

Definition text_type : ArtifactTypeIdentity := {| ty_id := "scalar.text"; ty_schema_version := 1 |}.
Definition json_type : ArtifactTypeIdentity := {| ty_id := "json"; ty_schema_version := 1 |}.
Definition table_type : ArtifactTypeIdentity := {| ty_id := "table"; ty_schema_version := 2 |}.

Definition sample_conversion (i : string) (a b : ArtifactTypeIdentity) : ArtifactConversionSpec :=
  {| cv_key := {| ck_id := i; ck_version := 1 |}; cv_source := a; cv_target := b; cv_title := i |}.

Definition sample_conversions : list ArtifactConversionSpec :=
  [sample_conversion "json-to-table" json_type table_type; sample_conversion "text-to-json" text_type json_type].

Definition sample_types : list ArtifactTypeSpec :=
  [{| as_key := text_type;
      as_field_projections := [{| fp_path := ["data"]; fp_target := json_type; fp_title := "Data" |}] |}].

Definition sample_connection : Connection :=
  {| sourceHandle := Some "out::scalar.text::1::one::output"; targetHandle := Some "in::table::2::one::input" |}.

(** Any comparison will do; here by length. *)
Definition by_length (a b : string) : Z := (Z.of_nat (String.length a) - Z.of_nat (String.length b))%Z.

Lemma offered_route_replays_witness :
  map (connectionRouteForSelection sample_connection sample_types sample_conversions ∘ connectionRouteSelection)
    (connectionRoutesFor by_length sample_connection sample_types sample_conversions) =
  map Some (connectionRoutesFor by_length sample_connection sample_types sample_conversions) ∧
  length (connectionRoutesFor by_length sample_connection sample_types sample_conversions) = 2.
Proof.
  split; [|reflexivity]. apply map_ext_in. intros r Hr. apply list_elem_of_In in Hr.
  assert (registry_ok sample_types sample_conversions) as Hok.
  { split; [by_decide|]. intros a ->%list_elem_of_singleton. by_decide. }
  exact (proj2 (offered_route_replays by_length sample_types sample_conversions sample_connection _ _ _ _ _ _ r
                  Hok eq_refl eq_refl eq_refl eq_refl Hr)).
Defined.
