(* ===== verification/Canvas.v ===== *)
(** * The data of the canvas ([canvas/types.ts], [canvas/node-layout.ts])

    What a React Flow node and edge of the workbench carry: the operator's
    contract with its ports, the authored configuration, plugs, bindings and
    layout, and the run overlay.  Callbacks, tooltips and labels are left out.

    A field of the contract that is optional or nullable and only ever read with
    [??], [?.] or as a condition is an [option].  The text of a thrown error is
    cut after the name it is about: nothing reads it. *)

From S2P Require Import Prelude Js JsText GraphModel Handles Routes.
From stdpp Require Import numbers list.

(** ** The contract of an operator *)

Record Port := {
  port_name : string;
  port_title : option string;
  port_direction : PortDirection;
  port_shape : PortShape;
  port_accepted_shapes : list PortShape;
  port_variadic : bool;
  port_required : bool;
  port_instance_plugs : bool;
  port_shape_field : option string;
  port_artifact_type : option ArtifactTypeIdentity;
  port_artifact_type_variable : option string;
  port_also_accepts : list ArtifactTypeIdentity
}.

Record NodeSpec := {
  spec_operator_id : string;
  spec_operator_version : jsnum;
  spec_title : string;
  spec_inputs : list Port;
  spec_outputs : list Port;
  spec_config_schema : jsval;
  spec_secret_inputs : jsval
}.

(** ** Results and states of a node *)

Record RunPortArtifact := {
  ra_artifact_id : string;
  ra_artifact_type : string;
  ra_schema_version : jsnum;
  ra_content_hash : option string
}.

Record ArtifactRef := {
  ar_artifact_id : string;
  ar_artifact_type : string;
  ar_schema_version : jsnum;
  ar_content_hash : jsopt string
}.

(** An artifact reference or a sequence of them. *)
Inductive ArtifactOutputValue :=
| value_ref (ref : ArtifactRef)
| value_sequence (item_refs : list ArtifactRef) (metadata : jsval).

Inductive OutputKind := single | sequence.

Record RunPortOutput := {
  ro_port : string;
  ro_kind : OutputKind;
  ro_artifacts : list RunPortArtifact;
  ro_value : ArtifactOutputValue
}.

Inductive NodeRunStatus := nr_succeeded | nr_failed | nr_skipped.

Record RunNodeResult := {
  rr_node_id : string;
  rr_status : NodeRunStatus;
  rr_error : option string;
  rr_outputs : list RunPortOutput;
  rr_result_fingerprint : option string;
  rr_created_at : option string
}.

Inductive NodeExecutionStatus :=
| st_idle | st_queued | st_running | st_cancelling | st_cancelled | st_succeeded | st_failed | st_skipped.

Record NodeExecution := { x_status : NodeExecutionStatus; x_error : option string }.

Record WorkflowNodeProgressEntry := {
  pe_sequence : Z;
  pe_message : string;
  pe_current : option jsnum;
  pe_total : option jsnum;
  pe_sourceNodePath : list string;
  pe_invocationIndex : option Z;
  pe_invocationPath : list Z
}.

Record WorkflowNodeProgress := { pg_entries : list WorkflowNodeProgressEntry; pg_omittedCount : Z }.

#[export] Instance NodeExecutionStatus_eq_dec : EqDecision NodeExecutionStatus.
Proof. solve_decision. Defined.
#[export] Instance RunPortArtifact_eq_dec : EqDecision RunPortArtifact.
Proof. solve_decision. Defined.

(** ** Nodes and edges *)

Record WorkflowInputPlug := { wp_id : string; wp_portName : string }.

#[export] Instance WorkflowInputPlug_eq_dec : EqDecision WorkflowInputPlug.
Proof. solve_decision. Defined.
#[export] Instance WorkflowInputPlug_id : Identified WorkflowInputPlug := wp_id.

Record WorkflowNodeLayout := {
  wl_width : option jsnum;
  wl_bodyHeight : option jsnum;
  wl_appendixHeight : option jsnum
}.

Record WorkflowCompatibilityEndpoint := { ce_portName : string; ce_plugId : option string }.

(** The status; a node that is not supported keeps its stored form. *)
Inductive WorkflowNodeCompatibility :=
| supported
| unsupported (issues : list string) (inputs outputs : list WorkflowCompatibilityEndpoint) (persistedNode : GraphNode)
| invalid (issues : list string) (inputs outputs : list WorkflowCompatibilityEndpoint) (persistedNode : GraphNode).

(** [nd_x] and [nd_y] are read through the index signature of the source's
    record, as values of unknown type. *)
Record WorkflowNodeData := {
  nd_spec : NodeSpec;
  nd_compatibility : WorkflowNodeCompatibility;
  nd_artifactTypeBindings : list (string * ArtifactTypeIdentity);
  nd_inputPlugs : list WorkflowInputPlug;
  nd_mappedInputPorts : list string;
  nd_config : jsobj;
  nd_layout : option WorkflowNodeLayout;
  nd_run : option RunNodeResult;
  nd_execution : NodeExecution;
  nd_progress : option WorkflowNodeProgress;
  nd_x : jsval;
  nd_y : jsval
}.

Record WorkflowNode := {
  wn_id : string;
  wn_selected : option bool;
  wn_position : GraphPoint;
  wn_data : WorkflowNodeData
}.

#[export] Instance WorkflowNode_id : Identified WorkflowNode := wn_id.

Record WorkflowEdgeData := {
  ed_enabled : bool;
  ed_collectionMode : CollectionMode;
  ed_projection : option GraphProjection;
  ed_conversionPath : option (list GraphConversion);
  ed_routeOffset : option GraphPoint;
  ed_sourcePortName : option string;
  ed_targetPortName : option string;
  ed_targetPlugId : option string;
  ed_compatibilityIssues : option (list string)
}.

Record WorkflowEdge := {
  we_id : string;
  we_source : string;
  we_target : string;
  we_sourceHandle : option string;
  we_targetHandle : option string;
  we_data : option WorkflowEdgeData
}.

#[export] Instance WorkflowEdge_id : Identified WorkflowEdge := we_id.

(** [edge.data?.enabled] and [edge.data?.collectionMode] *)
Definition we_enabled (e : WorkflowEdge) : option bool := ed_enabled <$> we_data e.
Definition we_collectionMode (e : WorkflowEdge) : option CollectionMode := ed_collectionMode <$> we_data e.

(** [node.data.spec] and the fields of it the plan reads. *)
Definition wn_spec (n : WorkflowNode) : NodeSpec := nd_spec (wn_data n).
Definition wn_title (n : WorkflowNode) : string := spec_title (wn_spec n).
Definition wn_inputs (n : WorkflowNode) : list Port := spec_inputs (wn_spec n).
Definition wn_outputs (n : WorkflowNode) : list Port := spec_outputs (wn_spec n).
Definition wn_inputPlugs (n : WorkflowNode) : list WorkflowInputPlug := nd_inputPlugs (wn_data n).

(** Node data with one field replaced. *)
Definition with_mappedInputPorts (ports : list string) (d : WorkflowNodeData) : WorkflowNodeData :=
  {| nd_spec := nd_spec d; nd_compatibility := nd_compatibility d; nd_artifactTypeBindings := nd_artifactTypeBindings d;
     nd_inputPlugs := nd_inputPlugs d; nd_mappedInputPorts := ports; nd_config := nd_config d; nd_layout := nd_layout d;
     nd_run := nd_run d; nd_execution := nd_execution d; nd_progress := nd_progress d; nd_x := nd_x d; nd_y := nd_y d |}.

Definition with_bindings (b : list (string * ArtifactTypeIdentity)) (d : WorkflowNodeData) : WorkflowNodeData :=
  {| nd_spec := nd_spec d; nd_compatibility := nd_compatibility d; nd_artifactTypeBindings := b;
     nd_inputPlugs := nd_inputPlugs d; nd_mappedInputPorts := nd_mappedInputPorts d; nd_config := nd_config d;
     nd_layout := nd_layout d; nd_run := nd_run d; nd_execution := nd_execution d; nd_progress := nd_progress d;
     nd_x := nd_x d; nd_y := nd_y d |}.

Definition with_overlay (r : option RunNodeResult) (x : NodeExecution) (p : option WorkflowNodeProgress)
    (d : WorkflowNodeData) : WorkflowNodeData :=
  {| nd_spec := nd_spec d; nd_compatibility := nd_compatibility d; nd_artifactTypeBindings := nd_artifactTypeBindings d;
     nd_inputPlugs := nd_inputPlugs d; nd_mappedInputPorts := nd_mappedInputPorts d; nd_config := nd_config d;
     nd_layout := nd_layout d; nd_run := r; nd_execution := x; nd_progress := p; nd_x := nd_x d; nd_y := nd_y d |}.

Definition with_data (d : WorkflowNodeData) (n : WorkflowNode) : WorkflowNode :=
  {| wn_id := wn_id n; wn_selected := wn_selected n; wn_position := wn_position n; wn_data := d |}.

(** ** Ports *)

Definition data_is_supported (d : WorkflowNodeData) : bool :=
  match nd_compatibility d with supported => true | _ => false end.

(** [workflowNodeIsSupported(node.data)] *)
Definition workflowNodeIsSupported (n : WorkflowNode) : bool := data_is_supported (wn_data n).

Definition portHasInstancePlugs (port : Port) : bool :=
  bool_decide (port_direction port = input) && port_instance_plugs port.

(** [port.accepted_shapes?.length ? port.accepted_shapes : [port.shape]] *)
Definition acceptedPortShapes (port : Port) : list PortShape :=
  match port_accepted_shapes port with [] => [port_shape port] | shapes => shapes end.

Definition effectivePortShape (d : WorkflowNodeData) (port : Port) : PortShape :=
  match nd_mappedInputPorts d with
  | [] => port_shape port
  | mapped =>
      if bool_decide (port_direction port = output) then many
      else if bool_decide (port_name port ∈ mapped) then many else port_shape port
  end.

Definition portArtifactType (port : Port) : option ArtifactTypeIdentity := port_artifact_type port.
Definition portArtifactTypeVariable (port : Port) : option string := port_artifact_type_variable port.

(** [bindings[variable]] on a record of bindings. *)
Fixpoint binding_get (variable : string) (b : list (string * ArtifactTypeIdentity)) : option ArtifactTypeIdentity :=
  match b with
  | [] => None
  | (k, t) :: b' => if bool_decide (k = variable) then Some t else binding_get variable b'
  end.

Fixpoint binding_set (variable : string) (t : ArtifactTypeIdentity) (b : list (string * ArtifactTypeIdentity))
    : list (string * ArtifactTypeIdentity) :=
  match b with
  | [] => [(variable, t)]
  | (k, t') :: b' => if bool_decide (k = variable) then (k, t) :: b' else (k, t') :: binding_set variable t b'
  end.

(** A string used as a condition: the empty one counts as absent. *)
Definition truthy (s : option string) : option string := s ≫= λ x, if bool_decide (x = "") then None else Some x.

Definition resolvedPortArtifactType (port : Port) (b : list (string * ArtifactTypeIdentity)) : option ArtifactTypeIdentity :=
  match portArtifactType port with
  | Some t => Some t
  | None => truthy (portArtifactTypeVariable port) ≫= λ variable, binding_get variable b
  end.

(** [None] is the thrown error of a port that has neither a type nor a variable. *)
Definition portMetaForPort (port : Port) (shape : PortShape) (plug : option string)
    (b : list (string * ArtifactTypeIdentity)) : option PortMeta :=
  match resolvedPortArtifactType port b with
  | Some t =>
      Some {| portName := port_name port; portType := Concrete (ty_id t) (ty_schema_version t); Handles.shape := shape;
              direction := port_direction port; plugId := truthy plug; feed := None;
              alsoAccepts := match port_also_accepts port with [] => None | l => Some l end |}
  | None =>
      variable ← truthy (portArtifactTypeVariable port);
      Some {| portName := port_name port; portType := Generic variable; Handles.shape := shape;
              direction := port_direction port; plugId := truthy plug; feed := None; alsoAccepts := None |}
  end.

(** The shape a node's configuration chooses for its ports. *)
Definition configured_shape (config : jsobj) (port : Port) : option PortShape :=
  field ← truthy (port_shape_field port);
  match obj_get field config with
  | JStr "one" => Some one
  | JStr "many" => Some many
  | _ => None
  end.

Definition resolvePortShape (config : jsobj) (port : Port) : Port :=
  match configured_shape config port with
  | None => port
  | Some s =>
      {| port_name := port_name port; port_title := port_title port; port_direction := port_direction port;
         port_shape := s; port_accepted_shapes := [s]; port_variadic := port_variadic port;
         port_required := port_required port; port_instance_plugs := port_instance_plugs port;
         port_shape_field := port_shape_field port; port_artifact_type := port_artifact_type port;
         port_artifact_type_variable := port_artifact_type_variable port; port_also_accepts := port_also_accepts port |}
  end.

Definition resolveInstancePortShapes (spec : NodeSpec) (config : jsobj) : NodeSpec :=
  if existsb (λ p, bool_decide (is_Some (truthy (port_shape_field p)))) (spec_inputs spec ++ spec_outputs spec) then
    {| spec_operator_id := spec_operator_id spec; spec_operator_version := spec_operator_version spec;
       spec_title := spec_title spec; spec_inputs := resolvePortShape config <$> spec_inputs spec;
       spec_outputs := resolvePortShape config <$> spec_outputs spec; spec_config_schema := spec_config_schema spec;
       spec_secret_inputs := spec_secret_inputs spec |}
  else spec.

(** The modes an edge may use, the default first. *)
Definition collectionModesForShapes (sourceShape : PortShape) (targetPort : Port) (targetShape : PortShape)
    : list CollectionMode :=
  let instancePlugs := portHasInstancePlugs targetPort in
  (if bool_decide (sourceShape ∈ acceptedPortShapes targetPort) ||
      (negb instancePlugs && bool_decide (sourceShape = targetShape)) then [MDirect] else []) ++
  (if bool_decide (sourceShape = many) && negb instancePlugs &&
      ((bool_decide (targetShape = one) && negb (bool_decide (many ∈ acceptedPortShapes targetPort))) ||
       (bool_decide (port_shape targetPort = many) && negb (port_variadic targetPort)))
   then [MMap] else []).

(** ** Type variables *)

Definition declaredArtifactTypeVariables (spec : NodeSpec) : list string :=
  js_set (omap (λ p, truthy (portArtifactTypeVariable p)) (spec_inputs spec ++ spec_outputs spec)).

(** [variable in data.artifactTypeBindings] *)
Definition binding_has (variable : string) (b : list (string * ArtifactTypeIdentity)) : bool :=
  existsb (λ kt, bool_decide (kt.1 = variable)) b.

Definition idleExecution : NodeExecution := {| x_status := st_idle; x_error := None |}.

Definition resetArtifactTypeBinding (d : WorkflowNodeData) (variable : string) (hasIncidentEdges : bool) : WorkflowNodeData :=
  if hasIncidentEdges || negb (binding_has variable (nd_artifactTypeBindings d)) then d
  else with_overlay None idleExecution None
         (with_bindings (filter (λ kt, kt.1 ≠ variable) (nd_artifactTypeBindings d)) d).

Definition bindArtifactTypeVariable (d : WorkflowNodeData) (variable : string) (t : ArtifactTypeIdentity) : res WorkflowNodeData :=
  if bool_decide (variable ∈ declaredArtifactTypeVariables (nd_spec d)) then
    Ok (with_bindings (binding_set variable t (nd_artifactTypeBindings d)) d)
  else Throw ("Cannot bind artifact type variable " +:+ variable).

(** ** Transport *)

Record WorkflowEdgeTransport := {
  tr_collection_mode : CollectionMode;
  tr_projection : option GraphProjection;
  tr_conversion_path : list GraphConversion
}.

Definition serializeWorkflowEdgeTransport (data : option WorkflowEdgeData) : WorkflowEdgeTransport :=
  {| tr_collection_mode := default MDirect (ed_collectionMode <$> data);
     tr_projection := data ≫= ed_projection;
     tr_conversion_path := default [] (data ≫= ed_conversionPath) |}.

Definition serializeInputPlugs (d : WorkflowNodeData) : list GraphInputPlug :=
  (λ p, {| plug_id := wp_id p; plug_port := wp_portName p |}) <$> nd_inputPlugs d.

Definition read_coordinate (v : jsval) : jsnum :=
  match v with JNum (NFin q) => NFin q | _ => num 0 end.

Definition nodePosition (d : WorkflowNodeData) : GraphPoint :=
  {| pt_x := read_coordinate (nd_x d); pt_y := read_coordinate (nd_y d) |}.

Definition runExecutionStatus (s : NodeRunStatus) : NodeExecutionStatus :=
  match s with nr_succeeded => st_succeeded | nr_failed => st_failed | nr_skipped => st_skipped end.

Definition updateNodeRun (d : WorkflowNodeData) (r : option RunNodeResult) : WorkflowNodeData :=
  with_overlay r (match r with
                  | Some run => {| x_status := runExecutionStatus (rr_status run); x_error := rr_error run |}
                  | None => nd_execution d
                  end) (nd_progress d) d.

Section serialize.
Variable localeCompare : string → string → Z.

Definition serializeArtifactTypeBindings (d : WorkflowNodeData) : list GraphArtifactTypeBinding :=
  (λ kt, {| variable := kt.1; artifact_type := {| at_id := ty_id kt.2; at_schema_version := num (ty_schema_version kt.2) |} |}) <$>
    js_sort (λ left right, localeCompare left.1 right.1) (nd_artifactTypeBindings d).

Definition serializeRunNode (i : string) (d : WorkflowNodeData) (activeInputPlugIds : option (list string)) : res GraphNode :=
  if negb (data_is_supported d) then Throw ("Cannot serialize unsupported node " +:+ i)
  else
    let inputPlugs := serializeInputPlugs d in
    Ok {| n_artifact_type_bindings := serializeArtifactTypeBindings d;
          n_config := Val (nd_config d);
          n_id := i;
          n_kind := KBuiltin;
          n_input_plugs := match activeInputPlugIds with
                           | Some active => filter (λ p, plug_id p ∈ active) inputPlugs
                           | None => inputPlugs
                           end;
          n_layout := Undef;
          n_operator_id := spec_operator_id (nd_spec d);
          n_operator_version := spec_operator_version (nd_spec d);
          n_position := nodePosition d |}.
End serialize.

(** ** Handles of a node that is not supported *)

Definition compatibilityHandleId (dir : PortDirection) (endpoint : WorkflowCompatibilityEndpoint) : string :=
  Js.join "::" ["$compatibility"; directionText dir; encodeURIComponent (ce_portName endpoint);
                match truthy (ce_plugId endpoint) with Some k => encodeURIComponent k | None => "" end].
