(* ===== verification/NodeLayout.v ===== *)
(** * Node sizes ([canvas/node-layout.ts])

    The dimensions a person gave a card: kept within bounds, stored and read back. *)

From S2P Require Import Prelude Js JsNum GraphModel Handles Routes Canvas.
From stdpp Require Import numbers list.

Definition DEFAULT_NODE_WIDTH : jsnum := num 300.
Definition DEFAULT_APPENDIX_HEIGHT : jsnum := num 230.
Definition NODE_WIDTH_MIN : jsnum := num 260.
Definition BODY_HEIGHT_MIN : jsnum := num 96.
Definition APPENDIX_HEIGHT_MIN : jsnum := num 120.
Definition LAYOUT_DIMENSION_MAX : jsnum := num 16384.

(** The stored form; the record of the document. *)
Notation SavedNodeLayout := GraphNodeLayout.

Definition clamp (value : option jsnum) (min max : jsnum) : option jsnum :=
  v ← value; if num_isFinite v then Some (math_min max (math_max min v)) else None.

Definition clampNodeLayout (layout : option WorkflowNodeLayout) : option WorkflowNodeLayout :=
  layout ← layout;
  let width := clamp (wl_width layout) NODE_WIDTH_MIN LAYOUT_DIMENSION_MAX in
  let bodyHeight := clamp (wl_bodyHeight layout) BODY_HEIGHT_MIN LAYOUT_DIMENSION_MAX in
  let appendixHeight := clamp (wl_appendixHeight layout) APPENDIX_HEIGHT_MIN LAYOUT_DIMENSION_MAX in
  match width, bodyHeight, appendixHeight with
  | None, None, None => None
  | _, _, _ => Some {| wl_width := width; wl_bodyHeight := bodyHeight; wl_appendixHeight := appendixHeight |}
  end.

(** [a ?? b] *)
Definition or_else {A} (a b : option A) : option A := match a with Some _ => a | None => b end.

Definition mergeNodeLayout (current : option WorkflowNodeLayout) (patch : WorkflowNodeLayout) : option WorkflowNodeLayout :=
  clampNodeLayout (Some {| wl_width := or_else (wl_width patch) (current ≫= wl_width);
                           wl_bodyHeight := or_else (wl_bodyHeight patch) (current ≫= wl_bodyHeight);
                           wl_appendixHeight := or_else (wl_appendixHeight patch) (current ≫= wl_appendixHeight) |}).

Definition orNull {A} (o : option A) : jsopt A := match o with Some a => Val a | None => Null end.

Definition serializeNodeLayout (layout : option WorkflowNodeLayout) : option SavedNodeLayout :=
  clamped ← clampNodeLayout layout;
  Some {| width := orNull (wl_width clamped); body_height := orNull (wl_bodyHeight clamped);
          appendix_height := orNull (wl_appendixHeight clamped) |}.

Definition hydrateNodeLayout (layout : option SavedNodeLayout) : option WorkflowNodeLayout :=
  layout ← layout;
  clampNodeLayout (Some {| wl_width := jsopt_to_option (width layout); wl_bodyHeight := jsopt_to_option (body_height layout);
                           wl_appendixHeight := jsopt_to_option (appendix_height layout) |}).

Definition resolvedNodeWidth (layout : option WorkflowNodeLayout) : jsnum := default DEFAULT_NODE_WIDTH (layout ≫= wl_width).
Definition resolvedBodyHeight (layout : option WorkflowNodeLayout) : option jsnum := layout ≫= wl_bodyHeight.
Definition resolvedAppendixHeight (layout : option WorkflowNodeLayout) : jsnum := default DEFAULT_APPENDIX_HEIGHT (layout ≫= wl_appendixHeight).

(** ** Theorems *)

Definition within (low high v : jsnum) : Prop := num_isFinite v = true ∧ num_leb low v = true ∧ num_leb v high = true.

Lemma finite_not_NaN v : num_isFinite v = true → v ≠ NNaN.
Proof. by intros H ->. Qed.

Section clamp_theory.
Context (low high : jsnum) (Hlow : num_isFinite low = true) (Hhigh : num_isFinite high = true) (Hle : num_leb low high = true).

Lemma clamp_within value v : clamp value low high = Some v → within low high v.
Proof.
  unfold clamp. intros (x & _ & H)%bind_Some. destruct (num_isFinite x) eqn:Hx; [|done]. injection H as <-.
  pose proof (finite_not_NaN _ Hlow) as Nl. pose proof (finite_not_NaN _ Hhigh) as Nh. pose proof (finite_not_NaN _ Hx) as Nx.
  destruct (math_max_cases low x Nl Nx) as [[-> H1]|[-> H1]].
  - destruct (math_min_cases high low Nh Nl) as [[-> H2]|[-> H2]]; split_and!; try done; by apply num_leb_refl.
  - destruct (math_min_cases high x Nh Nx) as [[-> H2]|[-> H2]]; split_and!; try done; by apply num_leb_refl.
Qed.

Lemma clamp_fixed v : within low high v → clamp (Some v) low high = Some v.
Proof.
  intros (Hv & H1 & H2). unfold clamp. cbn. rewrite Hv. f_equal.
  pose proof (finite_not_NaN _ Hlow) as Nl. pose proof (finite_not_NaN _ Hhigh) as Nh. pose proof (finite_not_NaN _ Hv) as Nv.
  destruct (math_max_cases low v Nl Nv) as [[-> H]|[-> _]].
  - assert (low = v) as -> by by apply num_leb_antisym. destruct (math_min_cases high v Nh Nv) as [[-> H']|[-> _]]; [|done].
    by apply num_leb_antisym.
  - destruct (math_min_cases high v Nh Nv) as [[-> H']|[-> _]]; [|done]. by apply num_leb_antisym.
Qed.

Lemma clamp_idem value : clamp (clamp value low high) low high = clamp value low high.
Proof. destruct (clamp value low high) as [v|] eqn:Hv; [|done]. apply clamp_fixed. by eapply clamp_within. Qed.
End clamp_theory.

Lemma clampNodeLayout_idem l : clampNodeLayout (clampNodeLayout l) = clampNodeLayout l.
Proof.
  destruct l as [l|]; [|done]. unfold clampNodeLayout at 2 3. cbn [mbind option_bind].
  pose proof (clamp_idem NODE_WIDTH_MIN LAYOUT_DIMENSION_MAX eq_refl eq_refl eq_refl (wl_width l)) as Hw.
  pose proof (clamp_idem BODY_HEIGHT_MIN LAYOUT_DIMENSION_MAX eq_refl eq_refl eq_refl (wl_bodyHeight l)) as Hb.
  pose proof (clamp_idem APPENDIX_HEIGHT_MIN LAYOUT_DIMENSION_MAX eq_refl eq_refl eq_refl (wl_appendixHeight l)) as Ha.
  set (w := clamp (wl_width l) _ _) in *. set (b := clamp (wl_bodyHeight l) _ _) in *. set (a := clamp (wl_appendixHeight l) _ _) in *.
  clearbody w b a. destruct w, b, a; try done; unfold clampNodeLayout; cbn [mbind option_bind wl_width wl_bodyHeight wl_appendixHeight]; rewrite Hw, Hb, Ha; done.
Qed.

Lemma or_null_back {A} (o : option A) : jsopt_to_option (orNull o) = o.
Proof. by destruct o. Qed.

Lemma clampNodeLayout_kept l kept :
  clampNodeLayout (Some l) = Some kept →
  kept = {| wl_width := clamp (wl_width l) NODE_WIDTH_MIN LAYOUT_DIMENSION_MAX;
            wl_bodyHeight := clamp (wl_bodyHeight l) BODY_HEIGHT_MIN LAYOUT_DIMENSION_MAX;
            wl_appendixHeight := clamp (wl_appendixHeight l) APPENDIX_HEIGHT_MIN LAYOUT_DIMENSION_MAX |}.
Proof. unfold clampNodeLayout. cbn [mbind option_bind]. repeat case_match; congruence. Qed.

Lemma clampNodeLayout_width l kept w : clampNodeLayout (Some l) = Some kept → wl_width kept = Some w → within NODE_WIDTH_MIN LAYOUT_DIMENSION_MAX w.
Proof. intros ->%clampNodeLayout_kept Hw. cbn in Hw. by eapply clamp_within in Hw. Qed.

Lemma hydrate_serialize layout : hydrateNodeLayout (serializeNodeLayout layout) = clampNodeLayout layout.
Proof.
  unfold serializeNodeLayout. destruct (clampNodeLayout layout) as [[w b a]|] eqn:Hc; [|done].
  cbn [mbind option_bind]. unfold hydrateNodeLayout. cbn -[clampNodeLayout]. rewrite !or_null_back, <- Hc. apply clampNodeLayout_idem.
Qed.

(** A card's size is stored and read back as it is kept: within its bounds, whatever
    was asked for; reading back a stored size, or clamping once more, changes nothing. *)
Theorem node_layout_round_trip layout :
  hydrateNodeLayout (serializeNodeLayout layout) = clampNodeLayout layout ∧
  clampNodeLayout (clampNodeLayout layout) = clampNodeLayout layout ∧
  ∀ kept, clampNodeLayout layout = Some kept →
    (∀ w, wl_width kept = Some w → within NODE_WIDTH_MIN LAYOUT_DIMENSION_MAX w) ∧
    (∀ h, wl_bodyHeight kept = Some h → within BODY_HEIGHT_MIN LAYOUT_DIMENSION_MAX h) ∧
    (∀ h, wl_appendixHeight kept = Some h → within APPENDIX_HEIGHT_MIN LAYOUT_DIMENSION_MAX h).
Proof.
  split_and!; [apply hydrate_serialize|apply clampNodeLayout_idem|].
  - intros kept. destruct layout as [l|]; [|done]. intros ->%clampNodeLayout_kept. cbn.
    split_and!; intros v; by apply clamp_within.
Qed.
