(* ===== verification/InputPlugs.v ===== *)
(** * Input plugs ([canvas/input-plugs.ts], [canvas/query-artifact-tables.ts],
      [canvas/schema-builder.ts])

    A port with instance plugs takes an ordered list of inputs, each with an id
    of its own.  All plugs of a node are in one list; the plugs of one port are a
    subsequence of it.  Two operators derive their plugs from a list in their
    configuration: the fields of a schema builder, the relations of an artifact
    query.  Ids drawn by [createUuid] are arguments. *)

From S2P Require Import Prelude Js JsText GraphModel Handles Routes Canvas.
From stdpp Require Import numbers pretty list.

(** ** Plugs of one port *)

Definition createWorkflowInputPlug (uuid port : string) : WorkflowInputPlug := {| wp_id := uuid; wp_portName := port |}.

(** One draw of [createUuid] per plug: [uuid k] is the [k]-th. *)
Definition initialInputPlugs (uuid : nat → string) (spec : NodeSpec) : list WorkflowInputPlug :=
  imap (λ k port, createWorkflowInputPlug (uuid k) (port_name port))
    (filter (λ port, port_instance_plugs port = true ∧ port_required port = true) (spec_inputs spec)).

Definition inputPlugsForPort (plugs : list WorkflowInputPlug) (port : string) : list WorkflowInputPlug :=
  filter (λ p, wp_portName p = port) plugs.

(** [findLastIndex] *)
Fixpoint last_index {A} (f : A → bool) (l : list A) : option nat :=
  match l with
  | [] => None
  | a :: l' => match last_index f l' with
               | Some k => Some (S k)
               | None => if f a then Some 0 else None
               end
  end.

Definition appendInputPlug (uuid : string) (plugs : list WorkflowInputPlug) (port : string) : list WorkflowInputPlug :=
  let nextPlug := createWorkflowInputPlug uuid port in
  match last_index (λ p, bool_decide (wp_portName p = port)) plugs with
  | None => plugs ++ [nextPlug]
  | Some k => take (S k) plugs ++ [nextPlug] ++ drop (S k) plugs
  end.

Definition removeInputPlug (plugs : list WorkflowInputPlug) (i : string) : list WorkflowInputPlug :=
  filter (λ p, wp_id p ≠ i) plugs.

(** The reordering step that plugs, relations and fields share: find the element,
    clamp the wanted index to the last one, take the element out and put it in
    there.  An index that is no integer is truncated by [splice]; equal to the old
    one after truncation, the move puts the element back in its place. *)
Definition moveTo {A} `{Identified A} (l : list A) (i : string) (toIndex : jsnum) : list A :=
  match list_find (λ a, ident a = i) l with
  | None => l
  | Some (fromIndex, moved) =>
      if length l <? 2 then l
      else
        let boundedIndex := clampIndex toIndex (length l - 1) in
        if boundedIndex =? fromIndex then l
        else
          let rest := delete fromIndex l in
          take boundedIndex rest ++ moved :: drop boundedIndex rest
  end.

(** The closing [map]: the places of a port are filled, in order, by [placed]. *)
Fixpoint placeInSlots (port : string) (placed plugs : list WorkflowInputPlug) : list WorkflowInputPlug :=
  match plugs with
  | [] => []
  | p :: rest =>
      if bool_decide (wp_portName p = port) then
        match placed with
        | q :: placed' => q :: placeInSlots port placed' rest
        | [] => p :: placeInSlots port [] rest
        end
      else p :: placeInSlots port placed rest
  end.

Definition reorderInputPlug (plugs : list WorkflowInputPlug) (port i : string) (toIndex : jsnum) : list WorkflowInputPlug :=
  placeInSlots port (moveTo (inputPlugsForPort plugs port) i toIndex) plugs.

(** The plugs of a port are replaced by [desired], at the place of the first. *)
Definition reconcilePort (plugs desired : list WorkflowInputPlug) (port : string) : list WorkflowInputPlug :=
  let withoutPort := filter (λ p, wp_portName p ≠ port) plugs in
  let insertionIndex :=
    match list_find (λ p, wp_portName p = port) plugs with
    | None => length withoutPort
    | Some (k, _) => length (filter (λ p, wp_portName p ≠ port) (take k plugs))
    end in
  take insertionIndex withoutPort ++ desired ++ drop insertionIndex withoutPort.

(** ** Fields of a schema builder *)

Inductive SchemaFieldKind := fk_string | fk_integer | fk_number | fk_boolean | fk_sequence | fk_schema.
Inductive SchemaSequenceItemKind := ik_string | ik_integer | ik_number | ik_boolean | ik_schema.

#[export] Instance SchemaFieldKind_eq_dec : EqDecision SchemaFieldKind.
Proof. solve_decision. Defined.
#[export] Instance SchemaSequenceItemKind_eq_dec : EqDecision SchemaSequenceItemKind.
Proof. solve_decision. Defined.

Record SchemaBuilderField := {
  sf_id : string;
  sf_name : string;
  sf_kind : SchemaFieldKind;
  sf_required : bool;
  sf_description : string;
  sf_item_kind : option SchemaSequenceItemKind
}.

#[export] Instance SchemaBuilderField_id : Identified SchemaBuilderField := sf_id.

Definition SCHEMA_FIELD_KINDS : list (string * SchemaFieldKind) :=
  [("string", fk_string); ("integer", fk_integer); ("number", fk_number); ("boolean", fk_boolean);
   ("sequence", fk_sequence); ("schema", fk_schema)].

Definition SCHEMA_SEQUENCE_ITEM_KINDS : list (string * SchemaSequenceItemKind) :=
  [("string", ik_string); ("integer", ik_integer); ("number", ik_number); ("boolean", ik_boolean); ("schema", ik_schema)].

(** A member of a list of literals, as the constructor it stands for. *)
Definition literal {A} (table : list (string * A)) (v : jsval) : option A :=
  match v with JStr s => snd <$> find (λ kv, bool_decide (kv.1 = s)) table | _ => None end.

Definition isSchemaFieldKind (v : jsval) : option SchemaFieldKind := literal SCHEMA_FIELD_KINDS v.
Definition isSchemaSequenceItemKind (v : jsval) : option SchemaSequenceItemKind := literal SCHEMA_SEQUENCE_ITEM_KINDS v.

Definition objectRecord (v : jsval) : option jsobj := match v with JObj o => Some o | _ => None end.

Definition as_string (v : jsval) : option string := match v with JStr s => Some s | _ => None end.
Definition as_bool (v : jsval) : option bool := match v with JBool b => Some b | _ => None end.

(** The guards of the loop of [schemaBuilderFields] for one item. *)
Definition schemaBuilderField (seenIds : list string) (item : jsval) : option SchemaBuilderField :=
  field ← objectRecord item;
  i ← truthy (as_string (obj_get "id" field));
  if bool_decide (i ∈ seenIds) then None
  else
    name ← as_string (obj_get "name" field);
    kind ← isSchemaFieldKind (obj_get "kind" field);
    required ← as_bool (obj_get "required" field);
    description ← as_string (obj_get "description" field);
    let parsed item_kind :=
      {| sf_id := i; sf_name := name; sf_kind := kind; sf_required := required;
         sf_description := description; sf_item_kind := item_kind |} in
    if bool_decide (kind = fk_sequence) then
      ik ← isSchemaSequenceItemKind (obj_get "item_kind" field);
      Some (parsed (Some ik))
    else Some (parsed None).

(** A loop that keeps the items it can read, each id once. *)
Fixpoint read_items {A} `{Identified A} (read : list string → jsval → option A) (seenIds : list string) (l : list jsval) : list A :=
  match l with
  | [] => []
  | item :: rest =>
      match read seenIds item with
      | None => read_items read seenIds rest
      | Some a => a :: read_items read (ident a :: seenIds) rest
      end
  end.

Definition schemaBuilderFields (value : jsval) : list SchemaBuilderField :=
  match value with JArr l => read_items schemaBuilderField [] l | _ => [] end.

Definition createSchemaBuilderField (index : nat) (i : string) : SchemaBuilderField :=
  {| sf_id := i; sf_name := "field_" +:+ intText (Z.of_nat index + 1); sf_kind := fk_string; sf_required := false;
     sf_description := ""; sf_item_kind := None |}.

Definition schemaFieldConsumesInput (field : SchemaBuilderField) : bool :=
  bool_decide (sf_kind field = fk_schema) ||
  (bool_decide (sf_kind field = fk_sequence) && bool_decide (sf_item_kind field = Some ik_schema)).

Definition withSchemaFieldKind (field : SchemaBuilderField) (kind : SchemaFieldKind) : SchemaBuilderField :=
  {| sf_id := sf_id field; sf_name := sf_name field; sf_kind := kind; sf_required := sf_required field;
     sf_description := sf_description field;
     sf_item_kind := if bool_decide (kind = fk_sequence) then Some ik_string else None |}.

Definition moveSchemaBuilderField (fields : list SchemaBuilderField) (fieldId : string) (toIndex : jsnum)
    : list SchemaBuilderField := moveTo fields fieldId toIndex.

Definition SCHEMA_BUILDER_INPUT_PORT : string := "schemas".

Definition reconcileSchemaFieldInputPlugs (plugs : list WorkflowInputPlug) (fields : list SchemaBuilderField) (port : string)
    : list WorkflowInputPlug :=
  reconcilePort plugs
    ((λ f, {| wp_id := sf_id f; wp_portName := port |}) <$> filter (λ f, schemaFieldConsumesInput f = true) fields) port.

(** ** Relations of an artifact query *)

Definition ARTIFACT_QUERY_OPERATOR_ID : string := "sql.artifacts.query".
Definition ARTIFACT_QUERY_RELATIONS_PORT : string := "relations".

Record ArtifactQueryRelation := { aq_id : string; aq_alias : string }.

#[export] Instance ArtifactQueryRelation_id : Identified ArtifactQueryRelation := aq_id.

Definition artifactQueryRelation (seenIds : list string) (item : jsval) : option ArtifactQueryRelation :=
  relation ← objectRecord item;
  i ← truthy (as_string (obj_get "id" relation));
  if bool_decide (i ∈ seenIds) then None
  else
    alias ← as_string (obj_get "alias" relation);
    Some {| aq_id := i; aq_alias := alias |}.

Definition artifactQueryRelations (value : jsval) : list ArtifactQueryRelation :=
  match value with JArr l => read_items artifactQueryRelation [] l | _ => [] end.

Definition relationAlias (n : nat) : string := "relation_" +:+ intText (Z.of_nat n).

(** [while (aliases.has(...)) aliasNumber += 1]; [None] is out of fuel. *)
Fixpoint freeAlias (aliases : list string) (fuel aliasNumber : nat) : option nat :=
  if bool_decide (relationAlias aliasNumber ∈ aliases) then
    match fuel with O => None | S fuel' => freeAlias aliases fuel' (S aliasNumber) end
  else Some aliasNumber.

(** One round per alias in use is enough. *)
Definition createArtifactQueryRelation (index : nat) (i : string) (existingRelations : list ArtifactQueryRelation)
    : option ArtifactQueryRelation :=
  let aliases := js_set ((λ r, toLowerCase (aq_alias r)) <$> existingRelations) in
  n ← freeAlias aliases (length aliases) (index + 1);
  Some {| aq_id := i; aq_alias := relationAlias n |}.

Definition removeArtifactQueryRelation (relations : list ArtifactQueryRelation) (relationId : string)
    : list ArtifactQueryRelation :=
  if length relations <=? 1 then relations else filter (λ r, aq_id r ≠ relationId) relations.

Definition moveArtifactQueryRelation (relations : list ArtifactQueryRelation) (relationId : string) (toIndex : jsnum)
    : list ArtifactQueryRelation := moveTo relations relationId toIndex.

Definition reconcileArtifactQueryRelationInputPlugs (plugs : list WorkflowInputPlug) (relations : list ArtifactQueryRelation)
    : list WorkflowInputPlug :=
  reconcilePort plugs ((λ r, {| wp_id := aq_id r; wp_portName := ARTIFACT_QUERY_RELATIONS_PORT |}) <$> relations)
    ARTIFACT_QUERY_RELATIONS_PORT.

(** ** New nodes ([canvas/types.ts]) *)

Definition GIS_COMPOSE_MAP_OPERATOR_ID : string := "gis.map.compose".

Definition defaultNodeLayout (spec : NodeSpec) : option WorkflowNodeLayout :=
  if bool_decide (spec_operator_id spec = GIS_COMPOSE_MAP_OPERATOR_ID)
  then Some {| wl_width := Some (num 620); wl_bodyHeight := None; wl_appendixHeight := Some (num 420) |}
  else None.

Definition schemaRecord (v : jsval) : option jsobj := objectRecord v.

(** The defaults the schema's properties declare, in their order. *)
Definition defaultNodeConfig (spec : NodeSpec) : jsobj :=
  match schemaRecord (spec_config_schema spec) ≫= λ schema, schemaRecord (obj_get "properties" schema) with
  | None => []
  | Some properties =>
      foldl (λ config '(name, propertyValue),
               match schemaRecord propertyValue with
               | Some property =>
                   if obj_has "default" property then obj_set name (obj_get "default" property) config else config
               | None => config
               end) [] properties
  end.

Definition relationJson (r : ArtifactQueryRelation) : jsval := JObj [("id", JStr (aq_id r)); ("alias", JStr (aq_alias r))].

Definition createWorkflowNodeData (uuid : nat → string) (spec : NodeSpec) (savedInputPlugs : option (list GraphInputPlug))
    : option WorkflowNodeData :=
  let inputPlugs :=
    match savedInputPlugs with
    | Some saved => (λ p, {| wp_id := plug_id p; wp_portName := plug_port p |}) <$> saved
    | None => initialInputPlugs uuid spec
    end in
  let config := defaultNodeConfig spec in
  let data config plugs :=
    {| nd_spec := spec; nd_compatibility := supported; nd_artifactTypeBindings := []; nd_inputPlugs := plugs;
       nd_mappedInputPorts := []; nd_config := config; nd_layout := defaultNodeLayout spec; nd_run := None;
       nd_execution := idleExecution; nd_progress := None; nd_x := JUndefined; nd_y := JUndefined |} in
  if bool_decide (savedInputPlugs = None) && bool_decide (spec_operator_id spec = ARTIFACT_QUERY_OPERATOR_ID) then
    let relationId :=
      match find (λ p, bool_decide (wp_portName p = ARTIFACT_QUERY_RELATIONS_PORT)) inputPlugs with
      | Some plug => wp_id plug
      | None => uuid (length inputPlugs)
      end in
    relation ← createArtifactQueryRelation 0 relationId [];
    Some (data (obj_set "relations" (JArr [relationJson relation]) config)
               (reconcileArtifactQueryRelationInputPlugs inputPlugs [relation]))
  else Some (data config inputPlugs).

(** ** Lemmas *)

Lemma moveTo_cases {A} `{Identified A} (l : list A) i k :
  (moveTo l i k = l ∧ (i ∈ ids l → length l ≤ 1 ∨ ∃ a, l !! clampIndex k (length l - 1) = Some a ∧ ident a = i)) ∨
  ∃ l1 a l2, l = l1 ++ a :: l2 ∧ ident a = i ∧ i ∉ ids l1 ∧
             let b := clampIndex k (length l - 1) in
             moveTo l i k = take b (l1 ++ l2) ++ a :: drop b (l1 ++ l2).
Proof.
  unfold moveTo. destruct (list_find _ l) as [[n a]|] eqn:Hf.
  - apply list_find_Some in Hf as (Hn & Hi & Hbefore).
    destruct (Nat.ltb_spec (length l) 2) as [|Hlen]; [left; split; [done|]; intros _; left; lia|].
    cbv zeta. destruct (Nat.eqb_spec (clampIndex k (length l - 1)) n) as [->|Hne].
    { left. split; [done|]. intros _. right. eauto. }
    right. exists (take n l), a, (drop (S n) l). rewrite take_drop_middle by done. split_and!; [done|done| |].
    + intros (b & Hb & Hid)%elem_of_ids. apply list_elem_of_lookup in Hb as [j Hj].
      apply lookup_take_Some in Hj as [Hj Hlt]. by eapply Hbefore.
    + by rewrite delete_take_drop.
  - left. split; [done|]. intros (b & Hb & Hid)%elem_of_ids. apply list_find_None in Hf.
    rewrite Forall_forall in Hf. by destruct (Hf b Hb).
Qed.

Lemma moveTo_perm {A} `{Identified A} (l : list A) i k : moveTo l i k ≡ₚ l.
Proof.
  destruct (moveTo_cases l i k) as [[-> _]|(l1 & a & l2 & Hl & _ & _ & Hm)]; [done|]. cbv zeta in Hm.
  rewrite Hm, <- Permutation_middle, take_drop, Permutation_middle. by rewrite <- Hl.
Qed.

(** With ids that are unique, the element ends up at the wanted index. *)
Lemma moveTo_lands {A} `{Identified A} (l : list A) i k a :
  NoDup (ids l) → a ∈ l → ident a = i →
  moveTo l i k !! clampIndex k (length l - 1) = Some a ∧
  filter (λ b, ident b ≠ i) (moveTo l i k) = filter (λ b, ident b ≠ i) l.
Proof.
  intros Hnd Ha Hi. assert (∀ b, b ∈ l → ident b = i → b = a) as Huniq.
  { intros b Hb Hbi. apply (find_id_NoDup _ _ Hnd) in Ha, Hb. rewrite Hi in Ha. rewrite Hbi in Hb. congruence. }
  destruct (moveTo_cases l i k) as [[-> Hpos]|(l1 & c & l2 & -> & Hc & Hn1 & Hm)].
  - split; [|done]. destruct Hpos as [Hlen|(b & Hb & Hbi)]; [apply elem_of_ids; eauto| |].
    + destruct l as [|b [|]]; [by apply elem_of_nil in Ha| |simpl in Hlen; lia].
      apply list_elem_of_singleton in Ha as ->. pose proof (clampIndex_le k 0) as Hle. simpl in *.
      by replace (clampIndex k 0) with 0 by lia.
    + rewrite Hb. f_equal. apply Huniq; [|done]. by eapply list_elem_of_lookup_2.
  - cbv zeta in Hm. set (b := clampIndex k _) in *.
    assert (b ≤ length (l1 ++ l2)) as Hb.
    { unfold b. etrans; [apply clampIndex_le|]. rewrite !length_app. simpl. lia. }
    rewrite Hm. split.
    + rewrite lookup_app_r by (rewrite length_take; lia). rewrite length_take, Nat.min_l, Nat.sub_diag by done.
      simpl. f_equal. apply Huniq; [|done]. apply elem_of_app. right. by left.
    + rewrite !filter_app, !filter_cons_False by (intros Hx; exact (Hx Hc)). rewrite <- filter_app, take_drop. by rewrite filter_app.
Qed.

Lemma placeInSlots_spec port placed plugs :
  length placed = length (inputPlugsForPort plugs port) → Forall (λ p, wp_portName p = port) placed →
  let r := placeInSlots port placed plugs in
  wp_portName <$> r = wp_portName <$> plugs ∧
  inputPlugsForPort r port = placed ∧
  filter (λ p, wp_portName p ≠ port) r = filter (λ p, wp_portName p ≠ port) plugs.
Proof.
  cbv zeta. revert placed. induction plugs as [|p plugs IH]; intros placed Hlen Hall.
  { destruct placed; [done|simpl in Hlen; lia]. }
  unfold inputPlugsForPort in *. cbn [placeInSlots]. rewrite (filter_cons _ p plugs), (filter_cons _ p plugs) in *.
  case_bool_decide as Hp.
  - rewrite decide_True in Hlen by done. destruct placed as [|q placed]; [simpl in Hlen; lia|].
    apply Forall_cons in Hall as [Hq Hall]. simpl in Hlen. injection Hlen as Hlen.
    destruct (IH placed Hlen Hall) as (IH1 & IH2 & IH3). rewrite !fmap_cons, !filter_cons, IH1, IH2, IH3.
    rewrite (decide_True _ _ Hq), !decide_False by tauto. by rewrite Hp, Hq.
  - rewrite decide_False in Hlen by done. destruct (IH placed Hlen Hall) as (IH1 & IH2 & IH3).
    rewrite !fmap_cons, !filter_cons, IH1, IH2, IH3. rewrite decide_False by done. by rewrite !decide_True.
Qed.

Lemma partition_perm (plugs : list WorkflowInputPlug) port :
  plugs ≡ₚ inputPlugsForPort plugs port ++ filter (λ p, wp_portName p ≠ port) plugs.
Proof. unfold inputPlugsForPort. induction plugs as [|p l IH]; [done|]. rewrite !filter_cons. destruct (decide (wp_portName p = port)) as [H|H].
  - rewrite decide_False by tauto. simpl. by rewrite <- IH.
  - rewrite decide_True by done. rewrite <- Permutation_middle. by rewrite <- IH.
Qed.

Lemma filter_filter_neg {A} (P : A → Prop) `{∀ a, Decision (P a)} (l : list A) : filter P (filter (λ a, ¬ P a) l) = [].
Proof. induction l as [|a l IH]; [done|]. rewrite filter_cons. case_decide; [|done]. rewrite filter_cons. by case_decide. Qed.

Lemma filter_none {A} (P : A → Prop) `{∀ a, Decision (P a)} (l : list A) : Forall (λ a, ¬ P a) l → filter P l = [].
Proof. induction 1 as [|a l Ha _ IH]; [done|]. rewrite filter_cons. by case_decide. Qed.

Lemma NoDup_inputPlugsForPort plugs port : NoDup (ids plugs) → NoDup (ids (inputPlugsForPort plugs port)).
Proof. apply NoDup_ids_filter. Qed.

(** The insertion index of [reconcilePort] cuts the other plugs where the port's
    first plug was. *)
Lemma reconcilePort_cut plugs desired port :
  ∃ before after, reconcilePort plugs desired port = before ++ desired ++ after ∧
    before ++ after = filter (λ p, wp_portName p ≠ port) plugs ∧
    ((Forall (λ p, wp_portName p ≠ port) plugs ∧ after = []) ∨
     ∃ first rest, plugs = before ++ first :: rest ∧ wp_portName first = port).
Proof.
  unfold reconcilePort. cbv zeta. set (others := filter _ plugs).
  destruct (list_find _ plugs) as [[k p]|] eqn:Hf.
  - apply list_find_Some in Hf as (Hk & Hp & Hbefore).
    assert (Forall (λ q, wp_portName q ≠ port) (take k plugs)) as Hall.
    { apply Forall_lookup. intros j q (Hj & Hlt)%lookup_take_Some. by eapply Hbefore. }
    assert (filter (λ q, wp_portName q ≠ port) (take k plugs) = take k plugs) as Htk.
    { apply filter_all. intros q Hq. by rewrite Forall_forall in Hall; apply Hall. }
    assert (others = take k plugs ++ filter (λ q, wp_portName q ≠ port) (drop k plugs)) as Hothers.
    { unfold others. by rewrite <- (take_drop k plugs) at 1; rewrite filter_app, Htk. }
    rewrite Htk. exists (take k plugs), (filter (λ q, wp_portName q ≠ port) (drop k plugs)). rewrite Hothers.
    rewrite take_app_length, drop_app_length. split_and!; [done|done|]. right.
    exists p, (drop (S k) plugs). by rewrite take_drop_middle.
  - apply list_find_None in Hf. exists others, []. rewrite take_ge, drop_ge by lia. split_and!; [done| |by left].
    apply app_nil_r.
Qed.

(** Reordering the plugs of a port moves the plug to the wanted place, clamped to
    the port's own plugs, and moves nothing else: the port's other plugs keep their
    order, the plugs of every other port keep their places in the node's list. *)
Theorem plug_reorder_moves_one plugs port i k a :
  NoDup (ids plugs) → a ∈ plugs → wp_id a = i → wp_portName a = port →
  let mine := inputPlugsForPort plugs port in
  let r := reorderInputPlug plugs port i k in
  r ≡ₚ plugs ∧ wp_portName <$> r = wp_portName <$> plugs ∧
  inputPlugsForPort r port !! clampIndex k (length mine - 1) = Some a ∧
  filter (λ p, wp_id p ≠ i) (inputPlugsForPort r port) = filter (λ p, wp_id p ≠ i) mine ∧
  filter (λ p, wp_portName p ≠ port) r = filter (λ p, wp_portName p ≠ port) plugs.
Proof.
  intros Hnd Ha Hi Hp. cbv zeta. unfold reorderInputPlug. set (mine := inputPlugsForPort plugs port).
  assert (moveTo mine i k ≡ₚ mine) as Hperm by apply moveTo_perm.
  destruct (placeInSlots_spec port (moveTo mine i k) plugs) as (H1 & H2 & H3).
  { by rewrite Hperm. }
  { rewrite Hperm. apply Forall_forall. by intros q [? _]%list_elem_of_filter. }
  cbv zeta in *. destruct (moveTo_lands mine i k a) as [Hl Hf]; [by apply NoDup_inputPlugsForPort| |done|].
  { by apply list_elem_of_filter. }
  rewrite H2. split_and!; [|done..]. etrans; [apply (partition_perm _ port)|].
  etrans; [|symmetry; apply (partition_perm plugs port)]. rewrite H2, H3. by f_equiv.
Qed.

(** Reconciling the plugs of a port with the list that owns them (relations of a
    query, nested fields of a schema) gives the port exactly the owned plugs in
    their order, as one block where its first plug was, at the end when it had
    none; the plugs of all other ports keep their order. *)
Theorem reconcile_aligns_plugs plugs relations :
  let port := ARTIFACT_QUERY_RELATIONS_PORT in
  let r := reconcileArtifactQueryRelationInputPlugs plugs relations in
  wp_id <$> inputPlugsForPort r port = aq_id <$> relations ∧
  filter (λ p, wp_portName p ≠ port) r = filter (λ p, wp_portName p ≠ port) plugs ∧
  ∃ before after, r = before ++ inputPlugsForPort r port ++ after ∧
    ((inputPlugsForPort plugs port = [] ∧ before = plugs ∧ after = []) ∨
     ∃ first rest, plugs = before ++ first :: rest ∧ wp_portName first = port).
Proof.
  cbv zeta. unfold reconcileArtifactQueryRelationInputPlugs. set (port := ARTIFACT_QUERY_RELATIONS_PORT).
  set (desired := _ <$> relations). assert (Forall (λ p, wp_portName p = port) desired) as Hall.
  { apply Forall_fmap, Forall_true. done. }
  destruct (reconcilePort_cut plugs desired port) as (before & after & -> & Hba & Hcut).
  assert (Forall (λ p, wp_portName p ≠ port) (before ++ after)) as Hne.
  { rewrite Hba. apply Forall_forall. by intros q [? _]%list_elem_of_filter. }
  apply Forall_app in Hne as [Hb Haf].
  assert (inputPlugsForPort (before ++ desired ++ after) port = desired) as Hmine.
  { unfold inputPlugsForPort. rewrite !filter_app, (filter_none _ before), (filter_none _ after), app_nil_r by done.
    apply filter_all. by rewrite Forall_forall in Hall. }
  rewrite Hmine. split_and!.
  - unfold desired. by rewrite <- list_fmap_compose.
  - rewrite !filter_app, (filter_none _ desired); [|eapply Forall_impl; [done|]; tauto]. cbn [app].
    rewrite <- filter_app, Hba. apply filter_all. by intros q [? _]%list_elem_of_filter.
  - exists before, after. split; [done|]. destruct Hcut as [[Hall' ->]|Hcut]; [left|by right]. split_and!.
    + by apply filter_none.
    + rewrite app_nil_r in Hba. rewrite Hba. apply filter_all. by rewrite Forall_forall in Hall'.
    + done.
Qed.

(** ** Aliases *)

Lemma relationAlias_inj m n : relationAlias m = relationAlias n → m = n.
Proof.
  unfold relationAlias. intros H. assert (∀ x y z, x +:+ y = x +:+ z → y = z) as Happ.
  { induction x as [|c x IH]; [done|]. intros y z [= ?]. by apply IH. }
  apply Happ in H. apply intText_inj in H. lia.
Qed.

(** The loop: it stops at the least free number from where it starts. *)
Lemma freeAlias_spec aliases fuel n m :
  freeAlias aliases fuel n = Some m →
  n ≤ m ∧ relationAlias m ∉ aliases ∧ ∀ j, n ≤ j < m → relationAlias j ∈ aliases.
Proof.
  revert n. induction fuel as [|fuel IH]; intros n; cbn [freeAlias]; case_bool_decide as Hn; try done.
  1,3: intros [= <-]; split_and!; [lia|done|lia].
  intros (Hle & Hfree & Hused)%IH. split_and!; [lia|done|]. intros j Hj.
  destruct (decide (j = n)) as [->|]; [done|]. apply Hused. lia.
Qed.

(** Out of fuel, as many numbers as rounds are in use. *)
Lemma freeAlias_None aliases fuel n :
  freeAlias aliases fuel n = None → ∀ j, n ≤ j ≤ n + fuel → relationAlias j ∈ aliases.
Proof.
  revert n. induction fuel as [|fuel IH]; intros n; cbn [freeAlias]; case_bool_decide as Hn; try done; intros H j Hj.
  - by replace j with n by lia.
  - destruct (decide (j = n)) as [->|]; [done|]. apply (IH _ H). lia.
Qed.

Lemma freeAlias_enough aliases n : is_Some (freeAlias aliases (length aliases) n).
Proof.
  destruct (freeAlias aliases (length aliases) n) as [m|] eqn:H; [by exists m|]. exfalso.
  set (used := relationAlias <$> seq n (S (length aliases))).
  assert (length used ≤ length aliases) as Hlen; [|unfold used in Hlen; rewrite length_fmap, length_seq in Hlen; lia].
  apply submseteq_length, NoDup_submseteq.
  - apply NoDup_fmap_2; [|apply NoDup_seq]. intros x y. apply relationAlias_inj.
  - intros x (j & -> & Hj)%list_elem_of_fmap. apply elem_of_seq in Hj. eapply freeAlias_None; [done|]. lia.
Qed.

(** A new relation always gets an alias, and no existing relation has it in any
    case of its letters; it is the least free number from the row's own on. *)
Theorem new_relation_alias_is_free index i existing :
  ∃ n, createArtifactQueryRelation index i existing = Some {| aq_id := i; aq_alias := relationAlias n |} ∧
       index < n ∧ (∀ r, r ∈ existing → toLowerCase (aq_alias r) ≠ relationAlias n) ∧
       ∀ m, index < m < n → ∃ r, r ∈ existing ∧ toLowerCase (aq_alias r) = relationAlias m.
Proof.
  unfold createArtifactQueryRelation. cbv zeta. set (aliases := js_set _).
  assert (∀ x, x ∈ aliases ↔ ∃ r, r ∈ existing ∧ toLowerCase (aq_alias r) = x) as Hin.
  { intros x. unfold aliases. rewrite js_set_spec, list_elem_of_fmap. naive_solver. }
  destruct (freeAlias_enough aliases (index + 1)) as [n Hn]. exists n. rewrite Hn. cbn [mbind option_bind].
  apply freeAlias_spec in Hn as (Hle & Hfree & Hused). split_and!; [done|lia| |].
  - intros r Hr Heq. apply Hfree, Hin. eauto.
  - intros m Hm. apply Hin, Hused. lia.
Qed.

(** ** Persisted lists *)

Section read_items.
Context {A} `{Identified A} (read : list string → jsval → option A).
Hypothesis read_fresh : ∀ seen v a, read seen v = Some a → ident a ∉ seen.
(** An item reads the same whatever was read before, unless its id was. *)
Hypothesis read_stable : ∀ seen seen' v a, read seen v = Some a → ident a ∉ seen' → read seen' v = Some a.

Lemma read_items_fresh l seen a : a ∈ read_items read seen l → ident a ∉ seen.
Proof.
  revert seen. induction l as [|v l IH]; intros seen; cbn [read_items]; [by intros ?%elem_of_nil|].
  destruct (read seen v) as [b|] eqn:Hb; [|apply IH]. intros [->|Ha]%elem_of_cons; [by eapply read_fresh|].
  apply IH in Ha. set_solver.
Qed.

Lemma read_items_NoDup l seen : NoDup (ids (read_items read seen l)).
Proof.
  revert seen. induction l as [|v l IH]; intros seen; cbn [read_items]; [constructor|].
  destruct (read seen v) as [b|] eqn:Hb; [|apply IH]. cbn. constructor; [|apply IH].
  intros (a & Ha & Hid)%elem_of_ids. apply read_items_fresh in Ha. rewrite Hid in Ha. apply Ha. by left.
Qed.

Lemma read_items_write (write : A → jsval) l seen :
  (∀ a, a ∈ l → read [] (write a) = Some a) → NoDup (ids l) → (∀ a, a ∈ l → ident a ∉ seen) →
  read_items read seen (write <$> l) = l.
Proof.
  revert seen. induction l as [|a l IH]; intros seen Hw Hnd Hs; [done|]. cbn [fmap list_fmap read_items].
  apply NoDup_cons in Hnd as [Hna Hnd]. rewrite (read_stable [] seen (write a) a); [|apply Hw; by left|apply Hs; by left].
  f_equal. apply IH; [|done|].
  - intros b Hb. apply Hw. by right.
  - intros b Hb [Heq|Hbs]%elem_of_cons; [|by eapply Hs; [right|]]. apply Hna. rewrite <- Heq. apply elem_of_ids. eauto.
Qed.
End read_items.

Lemma truthy_Some o s : truthy o = Some s ↔ o = Some s ∧ s ≠ "".
Proof. unfold truthy. rewrite bind_Some. split; [intros (x & -> & H); by case_bool_decide; simplify_eq|]. intros [-> Hs]. exists s. by rewrite bool_decide_false. Qed.

Lemma relation_read_shape seen v a : artifactQueryRelation seen v = Some a → ident a ∉ seen.
Proof.
  unfold artifactQueryRelation. intros (o & _ & H)%bind_Some. apply bind_Some in H as (i & _ & H).
  case_bool_decide; [done|]. apply bind_Some in H as (al & _ & [= <-]). done.
Qed.

Lemma relation_read_stable seen seen' v a :
  artifactQueryRelation seen v = Some a → ident a ∉ seen' → artifactQueryRelation seen' v = Some a.
Proof.
  unfold artifactQueryRelation. destruct (objectRecord v) as [o|]; [|done]. cbn [mbind option_bind].
  destruct (truthy _) as [i|]; [|done]. cbn [mbind option_bind]. case_bool_decide; [done|].
  destruct (as_string _) as [al|]; [|done]. cbn [mbind option_bind]. intros [= <-] Hi. by rewrite bool_decide_false.
Qed.

Lemma field_read_inv seen v a :
  schemaBuilderField seen v = Some a →
  ident a ∉ seen ∧ ident a ≠ "" ∧ (is_Some (sf_item_kind a) ↔ sf_kind a = fk_sequence) ∧
  ∀ seen', ident a ∉ seen' → schemaBuilderField seen' v = Some a.
Proof.
  unfold schemaBuilderField. destruct (objectRecord v) as [o|]; [|done]. cbn [mbind option_bind].
  destruct (truthy _) as [i|] eqn:Hi; [|done]. cbn [mbind option_bind]. apply truthy_Some in Hi as [_ Hi].
  case_bool_decide; [done|].
  destruct (as_string (obj_get "name" o)), (isSchemaFieldKind _) as [kind|], (as_bool _), (as_string _); cbn [mbind option_bind]; try done.
  case_bool_decide as Hk.
  - destruct (isSchemaSequenceItemKind _); [|done]. cbn [mbind option_bind]. intros [= <-]. split_and!; [done|done|by eauto|].
    intros seen' Hs. by rewrite bool_decide_false.
  - intros [= <-]. split_and!; [done|done| |].
    + cbn. split; [by intros []|done].
    + intros seen' Hs. by rewrite bool_decide_false.
Qed.

Lemma field_ident_fresh seen v a : schemaBuilderField seen v = Some a → ident a ∉ seen.
Proof. by intros (? & _)%field_read_inv. Qed.

Lemma field_ident_stable seen seen' v a :
  schemaBuilderField seen v = Some a → ident a ∉ seen' → schemaBuilderField seen' v = Some a.
Proof. intros (_ & _ & _ & H)%field_read_inv. apply H. Qed.

(** How the workbench stores a field: the kind of the items only for a sequence. *)
Definition kindText (k : SchemaFieldKind) : string :=
  match k with
  | fk_string => "string" | fk_integer => "integer" | fk_number => "number" | fk_boolean => "boolean"
  | fk_sequence => "sequence" | fk_schema => "schema"
  end.

Definition itemKindText (k : SchemaSequenceItemKind) : string :=
  match k with
  | ik_string => "string" | ik_integer => "integer" | ik_number => "number" | ik_boolean => "boolean" | ik_schema => "schema"
  end.

Definition fieldJson (f : SchemaBuilderField) : jsval :=
  JObj ([("id", JStr (sf_id f)); ("name", JStr (sf_name f)); ("kind", JStr (kindText (sf_kind f)));
         ("required", JBool (sf_required f)); ("description", JStr (sf_description f))] ++
        match sf_item_kind f with Some k => [("item_kind", JStr (itemKindText k))] | None => [] end).

(** The fields the editor keeps: ids that are not empty and unique, item kinds for
    sequences only. *)
Definition field_ok (f : SchemaBuilderField) : Prop :=
  sf_id f ≠ "" ∧ (is_Some (sf_item_kind f) ↔ sf_kind f = fk_sequence).

Lemma field_json_read f : field_ok f → schemaBuilderField [] (fieldJson f) = Some f.
Proof.
  intros [Hi Hk]. destruct f as [i nm k rq ds ik]; cbn in Hi, Hk.
  unfold schemaBuilderField, fieldJson. cbn [objectRecord mbind option_bind sf_id sf_name sf_kind sf_required sf_description sf_item_kind].
  set (o := _ ++ _). assert (truthy (as_string (obj_get "id" o)) = Some i) as -> by by apply truthy_Some.
  cbn [mbind option_bind]. rewrite bool_decide_false by by apply not_elem_of_nil.
  destruct k, ik as [[]|]; try reflexivity; exfalso;
    first [pose proof (proj2 Hk eq_refl) as [? [=]]|pose proof (proj1 Hk (ex_intro _ _ eq_refl)) as [=]].
Qed.

(** Reading a persisted list of fields gives fields with unique ids that are not
    empty, whatever is stored; a list of well-formed fields with unique ids is read
    back as it was, and changing a field's kind or moving it keeps it well formed. *)
Theorem schema_fields_round_trip :
  (∀ v, NoDup (ids (schemaBuilderFields v)) ∧ Forall field_ok (schemaBuilderFields v)) ∧
  (∀ fields, NoDup (ids fields) → Forall field_ok fields → schemaBuilderFields (JArr (fieldJson <$> fields)) = fields) ∧
  (∀ f kind, field_ok f → field_ok (withSchemaFieldKind f kind)) ∧
  (∀ fields i k, moveSchemaBuilderField fields i k ≡ₚ fields).
Proof.
  split_and!.
  - intros v. destruct v as [| | | | |l|]; try by split; constructor. split.
    + apply read_items_NoDup; [exact field_ident_fresh|exact field_ident_stable].
    + cbn [schemaBuilderFields]. generalize (@nil string). induction l as [|w l IH]; intros seen; cbn [read_items]; [done|].
      destruct (schemaBuilderField seen w) as [b|] eqn:Hb; [|apply IH]. constructor; [|apply IH].
      by apply field_read_inv in Hb as (_ & ? & ? & _).
  - intros fields Hnd Hok. cbn [schemaBuilderFields]. apply read_items_write; [exact field_ident_stable| |done|].
    + intros a Ha. apply field_json_read. by rewrite Forall_forall in Hok; apply Hok.
    + by intros a _ ?%elem_of_nil.
  - intros f kind [Hi _]. split; [done|]. cbn. case_bool_decide; split; try done; by intros [].
  - intros. apply moveTo_perm.
Qed.

(** ** Witnesses *)

Definition sample_plugs : list WorkflowInputPlug :=
  [{| wp_id := "a"; wp_portName := "tables" |}; {| wp_id := "x"; wp_portName := "layers" |};
   {| wp_id := "b"; wp_portName := "tables" |}; {| wp_id := "c"; wp_portName := "tables" |}].

Lemma plug_reorder_moves_one_witness :
  reorderInputPlug sample_plugs "tables" "a" (num 9) =
    [{| wp_id := "b"; wp_portName := "tables" |}; {| wp_id := "x"; wp_portName := "layers" |};
     {| wp_id := "c"; wp_portName := "tables" |}; {| wp_id := "a"; wp_portName := "tables" |}] ∧
  reorderInputPlug sample_plugs "tables" "a" (num 9) ≡ₚ sample_plugs.
Proof.
  split; [vm_compute; reflexivity|].
  refine (proj1 (plug_reorder_moves_one sample_plugs "tables" "a" (num 9) {| wp_id := "a"; wp_portName := "tables" |} _ _ eq_refl eq_refl));
    by_decide.
Defined.
