(* ===== verification/NodeCommands.v ===== *)
(** * Gestures on a node ([ui/workbench-node-commands.ts])

    The handlers of a card: each turns a gesture into authoring commands and then
    clears the pending connection and the visible run error.  A handler is the
    list of effects it causes, in order; the theorems compose it with the
    document's transition ([applyGraphCommandNormalized]). *)

From S2P Require Import Prelude Js JsText GraphModel GraphCommands GraphTheory Handles Routes Canvas InputPlugs.
From stdpp Require Import numbers list.

(** ** Handlers *)

Inductive NodeEffect :=
| applyAuthoringCommands (commands : list GraphCommand)
| forgetNodeSecretStatuses (nodeId : string)
| setPendingConnectionRoute_null
| setRunError_null.

Section handlers.
Variables (canvasNodes : list WorkflowNode) (canvasEdges : list WorkflowEdge).

Definition hasIncidentEdges (nodeId : string) : bool :=
  existsb (λ e, bool_decide (we_source e = nodeId) || bool_decide (we_target e = nodeId)) canvasEdges.

Definition graphPlug (p : WorkflowInputPlug) : GraphInputPlug := {| plug_id := wp_id p; plug_port := wp_portName p |}.

Definition updateConfigurationAndInputPlugs (nodeId : string) (inputPlugs : list WorkflowInputPlug)
    (configuration : jsobj → jsobj) : list NodeEffect :=
  match find_id nodeId canvasNodes with
  | None => []
  | Some node =>
      [applyAuthoringCommands
         [update_node_configuration_and_input_plugs nodeId (configuration (nd_config (wn_data node))) (graphPlug <$> inputPlugs)];
       setPendingConnectionRoute_null; setRunError_null]
  end.

Definition removeNode (nodeId : string) : list NodeEffect :=
  [applyAuthoringCommands [remove_nodes [nodeId]]; forgetNodeSecretStatuses nodeId;
   setPendingConnectionRoute_null; setRunError_null].

Definition addNodeInputPlug (uuid nodeId port : string) : list NodeEffect :=
  match find_id nodeId canvasNodes with
  | None => []
  | Some node =>
      match last (appendInputPlug uuid (wn_inputPlugs node) port) with
      | None => []
      | Some plug => [applyAuthoringCommands [add_input_plug nodeId (graphPlug plug)]]
      end
  end.

Definition removeNodeInputPlug (nodeId plugId : string) : list NodeEffect :=
  [applyAuthoringCommands [remove_input_plug nodeId plugId]; setPendingConnectionRoute_null; setRunError_null].

Definition reorderNodeInputPlug (nodeId port plugId : string) (toIndex : jsnum) : list NodeEffect :=
  [applyAuthoringCommands [reorder_input_plug nodeId port plugId toIndex]].

Definition updateSchemaBuilderFields (nodeId : string) (fields : list SchemaBuilderField) (inputPlugs : list WorkflowInputPlug)
    : list NodeEffect :=
  updateConfigurationAndInputPlugs nodeId inputPlugs (obj_set "fields" (JArr (fieldJson <$> fields))).

Definition updateArtifactQueryRelations (nodeId : string) (relations : list ArtifactQueryRelation)
    (inputPlugs : list WorkflowInputPlug) : list NodeEffect :=
  updateConfigurationAndInputPlugs nodeId inputPlugs (obj_set "relations" (JArr (relationJson <$> relations))).

Definition resetNodeArtifactTypeBinding (nodeId variable : string) : list NodeEffect :=
  if hasIncidentEdges nodeId then []
  else [applyAuthoringCommands [reset_artifact_type_binding nodeId variable]; setPendingConnectionRoute_null; setRunError_null].

Definition bindNodeArtifactTypeBinding (nodeId variable : string) (artifactType : ArtifactTypeKey) : list NodeEffect :=
  if hasIncidentEdges nodeId then []
  else [applyAuthoringCommands [bind_artifact_type nodeId variable artifactType]; setPendingConnectionRoute_null; setRunError_null].
End handlers.

(** The commands of a list of effects, in order. *)
Definition effect_commands (l : list NodeEffect) : list GraphCommand :=
  flat_map (λ e, match e with applyAuthoringCommands cs => cs | _ => [] end) l.

(** ** Lemmas *)

Lemma last_index_spec {A} (f : A → bool) l :
  match last_index f l with
  | None => Forall (λ a, f a = false) l
  | Some k => ∃ a, l !! k = Some a ∧ f a = true ∧ Forall (λ b, f b = false) (drop (S k) l)
  end.
Proof.
  induction l as [|a l IH]; cbn [last_index]; [done|]. destruct (last_index f l) as [k|].
  - destruct IH as (b & Hb & Hf & Hall). by exists b.
  - destruct (f a) eqn:Hf; [|by constructor]. by exists a.
Qed.

(** The last element after an append at the end of the port's block. *)
Lemma append_last uuid plugs port :
  last (appendInputPlug uuid plugs port) =
  match last plugs with
  | Some p => if bool_decide (wp_portName p = port ∨ inputPlugsForPort plugs port = [])
              then Some (createWorkflowInputPlug uuid port) else Some p
  | None => Some (createWorkflowInputPlug uuid port)
  end.
Proof.
  unfold appendInputPlug. cbv zeta. pose proof (last_index_spec (λ p, bool_decide (wp_portName p = port)) plugs) as Hk.
  destruct (last_index _ plugs) as [k|].
  - destruct Hk as (a & Ha & Hf%bool_decide_eq_true & Hall). assert (inputPlugsForPort plugs port ≠ []) as Hne.
    { intros Hnil. assert (a ∈ inputPlugsForPort plugs port) as Hin.
      { apply list_elem_of_filter. split; [done|]. by eapply list_elem_of_lookup_2. }
      rewrite Hnil in Hin. by apply elem_of_nil in Hin. }
    rewrite last_app. cbn [app]. destruct (drop (S k) plugs) as [|b r] eqn:Hd.
    + cbn. assert (last plugs = Some a) as ->.
      { rewrite <- (take_drop_middle _ _ _ Ha), Hd. by rewrite last_snoc. }
      by rewrite bool_decide_true by by left.
    + rewrite last_cons, <- Hd. rewrite <- (take_drop (S k) plugs) at 2. rewrite last_app.
      destruct (last (drop (S k) plugs)) as [p|] eqn:Hl; [|by rewrite last_None, Hd in Hl].
      rewrite bool_decide_false; [done|]. intros [Hp|?]; [|done]. rewrite <- Hd, Forall_forall in Hall.
      pose proof (Hall p (last_Some_elem_of _ _ Hl)) as Hf'. by rewrite bool_decide_true in Hf'.
  - rewrite last_snoc. destruct (last plugs) as [p|]; [|done]. rewrite bool_decide_true; [done|]. right.
    apply filter_none. eapply Forall_impl; [done|]. cbn. intros q Hq Heq. by rewrite bool_decide_true in Hq.
Qed.

(** The plugs of a node of the document, and of its card. *)
Definition shows (document : AuthoredGraphDocument) (nodeId : string) (plugs : list WorkflowInputPlug) : Prop :=
  ∃ n, find_id nodeId (nodes document) = Some n ∧ n_input_plugs n = graphPlug <$> plugs.

Lemma updateNode_plugs d i n f n' :
  unique_ids d → find_id i (nodes d) = Some n → f n = Ok n' → n_id n' = n_id n →
  ∃ d', updateNode d i f = Ok d' ∧ find_id i (nodes d') = Some n'.
Proof.
  intros [Hnd _ _ _] Hn Hf Hid. assert (n ∈ nodes d ∧ n_id n = i) as [Hin Hi] by exact (find_id_Some _ _ _ Hn).
  set (g := λ a : GraphNode, if bool_decide (n_id a = i) then n' else a).
  assert (∀ a, ident (g a) = ident a) as Hg.
  { intros a. unfold g. case_bool_decide as Ha; [|done]. change (n_id n' = n_id a). by rewrite Hid, Hi. }
  exists (with_nodes (Prelude.map_id i g (nodes d)) d). split.
  - unfold updateNode, nodeOrThrow. rewrite Hn. cbn [mbind res_bind].
    erewrite (res_map_ext _ (λ a, Ok (if bool_decide (ident a = i) then g a else a))), res_map_ok; [done|].
    intros a Ha. unfold structuredClone, g. change (ident a) with (n_id a). case_bool_decide as Hai; [|done].
    assert (a = n) as -> by (apply (find_id_NoDup _ _ Hnd) in Ha; change (ident a) with (n_id a) in Ha; congruence). done.
  - cbn [nodes with_nodes]. rewrite (find_id_map_id i g (nodes d) n Hg Hn). unfold g. by rewrite bool_decide_true.
Qed.

(** ** Theorems *)

(** "add an input": when the port has no plug yet or its plugs end the node's
    list, the document gets one new plug, the drawn one, at its end.  Otherwise the
    handler takes the last plug of the list, which belongs to another port, for the
    new one, and the document gets that plug a second time. *)
Theorem add_plug_gesture document canvas uuid nodeId port n plugs :
  unique_ids document → shows document nodeId plugs → find_id nodeId canvas = Some n → wn_inputPlugs n = plugs →
  ∃ d', res_fold applyGraphCommandNormalized document (effect_commands (addNodeInputPlug canvas uuid nodeId port)) = Ok d' ∧
    match last plugs with
    | Some p =>
        if bool_decide (wp_portName p = port ∨ inputPlugsForPort plugs port = [])
        then shows d' nodeId (plugs ++ [createWorkflowInputPlug uuid port])
        else shows d' nodeId (plugs ++ [p]) ∧ wp_portName p ≠ port
    | None => shows d' nodeId [createWorkflowInputPlug uuid port]
    end.
Proof.
  intros Hu (gn & Hgn & Hplugs) Hn Hnp. unfold addNodeInputPlug. rewrite Hn, Hnp, append_last.
  assert (∀ p, ∃ d', res_fold applyGraphCommandNormalized document
                 (effect_commands [applyAuthoringCommands [add_input_plug nodeId (graphPlug p)]]) = Ok d' ∧
                 shows d' nodeId (plugs ++ [p])) as Hadd.
  { intros p. destruct (updateNode_plugs document nodeId gn
      (λ node, Ok (set_plugs (n_input_plugs node ++ [projectSavedGraphInputPlug (graphPlug p)]) node)) _ Hu Hgn eq_refl eq_refl)
      as (d' & Hd' & Hfind).
    exists d'. split; [cbn; by rewrite Hd'|]. eexists. split; [exact Hfind|]. cbn. by rewrite Hplugs, fmap_app. }
  destruct (last plugs) as [p|] eqn:Hl.
  - case_bool_decide as Hp.
    + apply Hadd.
    + destruct (Hadd p) as (d' & ? & ?). exists d'. split_and!; [done|done|]. tauto.
  - apply last_None in Hl. rewrite Hl in *. apply Hadd.
Qed.

Lemma plug_find plugs i port k p :
  Forall (λ p, wp_portName p = port) plugs →
  list_find (λ q, wp_id q = i) plugs = Some (k, p) →
  list_find (λ q, plug_id q = i ∧ plug_port q = port) (graphPlug <$> plugs) = Some (k, graphPlug p).
Proof.
  intros Hall (Hk & Hp & Hbefore)%list_find_Some. apply list_find_Some. rewrite list_lookup_fmap, Hk. split_and!; [done|done| |].
  - rewrite Forall_forall in Hall. apply Hall. by eapply list_elem_of_lookup_2.
  - intros j q Hq Hlt [Hi _]. rewrite list_lookup_fmap in Hq. apply fmap_Some in Hq as (q' & Hq' & ->). by eapply Hbefore.
Qed.

(** On the plugs of one port, the document's reordering is the canvas's. *)
Lemma reorder_agrees plugs port i k :
  Forall (λ p, wp_portName p = port) plugs → i ∈ ids plugs →
  reorderPlugs port i k (graphPlug <$> plugs) = Ok (graphPlug <$> reorderInputPlug plugs port i k).
Proof.
  intros Hall Hi. unfold reorderInputPlug.
  assert (inputPlugsForPort plugs port = plugs) as Hmine by (apply filter_all; by rewrite Forall_forall in Hall).
  assert (placeInSlots port (moveTo plugs i k) plugs = moveTo plugs i k) as Hplace.
  { destruct (placeInSlots_spec port (moveTo plugs i k) plugs) as (H1 & H2 & _); [by rewrite Hmine, moveTo_perm|by rewrite moveTo_perm|].
    cbv zeta in *. rewrite <- H2 at 2. symmetry. apply filter_all. intros p Hp. apply (list_elem_of_fmap_2 wp_portName) in Hp.
    rewrite H1 in Hp. apply list_elem_of_fmap in Hp as (q & -> & Hq). by rewrite Forall_forall in Hall; apply Hall. }
  rewrite Hmine, Hplace. unfold reorderPlugs, moveTo.
  destruct (list_find (λ a : WorkflowInputPlug, ident a = i) plugs) as [[n p]|] eqn:Hf.
  - change (list_find (λ a, wp_id a = i) plugs = Some (n, p)) in Hf. rewrite (plug_find _ _ _ _ _ Hall Hf).
    apply list_find_Some in Hf as (Hn & _). apply lookup_lt_Some in Hn as Hlt. f_equal. cbv zeta.
    rewrite <- list_fmap_delete, length_fmap, length_delete by by eexists.
    destruct (Nat.ltb_spec (length plugs) 2).
    + assert (length plugs = 1 ∧ n = 0) as [Hlen ->] by lia. destruct plugs as [|p0 [|]]; [done| |done].
      simplify_eq/=. by destruct (clampIndex k 0).
    + destruct (Nat.eqb_spec (clampIndex k (length plugs - 1)) n) as [->|_].
      * rewrite delete_take_drop. rewrite <- fmap_take, <- fmap_drop, <- fmap_cons, <- fmap_app. f_equal.
        rewrite take_app_length', drop_app_length' by (rewrite length_take; lia). by apply take_drop_middle.
      * by rewrite fmap_app, fmap_cons, fmap_take, fmap_drop.
  - exfalso. apply list_find_None in Hf. apply elem_of_ids in Hi as (p & Hp & Hid). rewrite Forall_forall in Hf. by apply (Hf p).
Qed.

Definition two_port_plugs : list WorkflowInputPlug :=
  [{| wp_id := "a1"; wp_portName := "left" |}; {| wp_id := "a2"; wp_portName := "left" |};
   {| wp_id := "b1"; wp_portName := "right" |}; {| wp_id := "b2"; wp_portName := "right" |}].

(** Reordering by drag or arrow: on a node whose plugs all belong to one port the
    document ends up with the order the canvas computes.  The index a card sends is
    relative to the port and the document reads it in the whole list: on a node with
    two such ports, moving an input down by one changes the port's order on the
    canvas and leaves it unchanged in the document. *)
Theorem reorder_gesture :
  (∀ document nodeId port plugs i k,
     unique_ids document → shows document nodeId plugs → Forall (λ p, wp_portName p = port) plugs → i ∈ ids plugs →
     ∃ d', res_fold applyGraphCommandNormalized document (effect_commands (reorderNodeInputPlug nodeId port i k)) = Ok d' ∧
           shows d' nodeId (reorderInputPlug plugs port i k)) ∧
  (let r := reorderInputPlug two_port_plugs "right" "b1" (num 1) in
   wp_id <$> inputPlugsForPort r "right" = ["b2"; "b1"] ∧
   ∃ r', reorderPlugs "right" "b1" (num 1) (graphPlug <$> two_port_plugs) = Ok r' ∧
         plug_id <$> filter (λ p, plug_port p = "right") r' = ["b1"; "b2"]).
Proof.
  split.
  - intros document nodeId port plugs i k Hu (gn & Hgn & Hplugs) Hall Hi.
    destruct (updateNode_plugs document nodeId gn
      (λ node, plugs ← reorderPlugs port i k (n_input_plugs node); Ok (set_plugs plugs node))
      (set_plugs (graphPlug <$> reorderInputPlug plugs port i k) gn) Hu Hgn) as (d' & Hd' & Hfind); [|done|].
    { by rewrite Hplugs, reorder_agrees. }
    exists d'. split; [|by eexists]. cbn. unfold applyReorderInputPlug. by rewrite Hd'.
  - split; [vm_compute; reflexivity|]. eexists. split; vm_compute; reflexivity.
Qed.

(** ** Witnesses *)

Definition gesture_node : GraphNode :=
  {| n_artifact_type_bindings := []; n_config := Undef; n_id := "n"; n_kind := KBuiltin;
     n_input_plugs := graphPlug <$> two_port_plugs; n_layout := Undef; n_operator_id := "op"; n_operator_version := num 1;
     n_position := {| pt_x := num 0; pt_y := num 0 |} |}.

Definition gesture_document : AuthoredGraphDocument :=
  {| name := "g"; nodes := [gesture_node]; edges := []; origins := []; agents := [] |}.

Definition gesture_card : WorkflowNode :=
  {| wn_id := "n"; wn_selected := None; wn_position := {| pt_x := num 0; pt_y := num 0 |};
     wn_data :=
       {| nd_spec := {| spec_operator_id := "op"; spec_operator_version := num 1; spec_title := "Op"; spec_inputs := [];
                        spec_outputs := []; spec_config_schema := JObj []; spec_secret_inputs := JUndefined |};
          nd_compatibility := supported; nd_artifactTypeBindings := []; nd_inputPlugs := two_port_plugs;
          nd_mappedInputPorts := []; nd_config := []; nd_layout := None; nd_run := None; nd_execution := idleExecution;
          nd_progress := None; nd_x := JUndefined; nd_y := JUndefined |} |}.

Lemma gesture_unique : unique_ids gesture_document.
Proof. split; cbn; first [apply NoDup_nil_2|apply NoDup_singleton]. Qed.

Lemma add_plug_gesture_witness :
  ∃ d', res_fold applyGraphCommandNormalized gesture_document
          (effect_commands (addNodeInputPlug [gesture_card] "new" "n" "left")) = Ok d' ∧
        shows d' "n" (two_port_plugs ++ [{| wp_id := "b2"; wp_portName := "right" |}]).
Proof.
  destruct (add_plug_gesture gesture_document [gesture_card] "new" "n" "left" gesture_card two_port_plugs)
    as (d' & Hd' & Hs & _); [exact gesture_unique|by eexists|done|done|].
  exists d'. exact (conj Hd' Hs).
Defined.
