(* ===== verification/ConfigSchema.v ===== *)
(** * Configuration schemas ([canvas/config-schema.ts])

    The validation of a node's configuration against its operator's JSON Schema,
    and the fields a card offers to edit it.

    A schema is a value parsed from JSON, so it is a tree and two objects of it
    are the same object exactly when they are at the same place: the place of a
    schema in the root is carried along to model [reference !== schema].  The
    recursion is bounded by the source's own limit of 64 levels.

    Parameters: the text of a number and of a [type] value in a message, and the
    regular expressions of the host ([None]: the pattern is invalid). *)

From Stdlib Require Import Strings.Ascii.
From S2P Require Import Prelude Js JsNum JsText JsJson GraphModel Handles Routes Canvas InputPlugs.
From stdpp Require Import numbers list.

Record ConfigValidationIssue := { is_fieldName : option string; is_message : string }.

Definition issue (fieldName : option string) (message : string) : ConfigValidationIssue :=
  {| is_fieldName := fieldName; is_message := message |}.

Definition record (v : jsval) : option jsobj := match v with JObj o => Some o | _ => None end.

(** ** Places and references *)

Inductive place_step := at_key (k : string) | at_index (n : nat).

#[export] Instance place_step_eq_dec : EqDecision place_step.
Proof. solve_decision. Defined.

Notation place := (list place_step).

Definition referenceSegments (reference : string) : list string :=
  (λ segment, replaceAll "~0" "~" (replaceAll "~1" "/" segment)) <$> splitOn "/" (slice_from 2 reference).

(** The schema a reference stands for and its place; the schema itself where there
    is no reference or it leads to no object. *)
Definition resolveSchema (here : place) (schema root : jsobj) : place * jsobj :=
  match obj_get "$ref" schema with
  | JStr reference =>
      if String.prefix "#/" reference then
        let segments := referenceSegments reference in
        let target := foldl (λ current segment,
                               match record current with Some o => obj_get segment o | None => JUndefined end)
                            (JObj root) segments in
        match record target with Some o => (at_key <$> segments, o) | None => (here, schema) end
      else (here, schema)
  | _ => (here, schema)
  end.

(** ** Types and values *)

Definition matchesTypeName (type : string) (value : jsval) : bool :=
  if bool_decide (type = "null") then match value with JNull => true | _ => false end
  else if bool_decide (type = "object") then bool_decide (is_Some (record value))
  else if bool_decide (type = "array") then match value with JArr _ => true | _ => false end
  else if bool_decide (type = "string") then match value with JStr _ => true | _ => false end
  else if bool_decide (type = "boolean") then match value with JBool _ => true | _ => false end
  else if bool_decide (type = "integer") then match value with JNum n => bool_decide (is_Some (num_integer n)) | _ => false end
  else if bool_decide (type = "number") then match value with JNum n => num_isFinite n | _ => false end
  else true.

Fixpoint schemaMatchesType (type value : jsval) : bool :=
  match type with
  | JArr l => existsb (λ candidate, schemaMatchesType candidate value) l
  | JStr s => matchesTypeName s value
  | _ => true
  end.

Section validation.
(** [`${n}`] and [JSON.stringify(n)] of a finite number; [String(type)];
    [new RegExp(pattern)] and its [test]. *)
Context (numberText : jsnum → string) (typeText : jsval → string) (regExp : string → option (string → bool)).

Definition is_object (v : jsval) : bool := match v with JArr _ | JObj _ => true | _ => false end.

(** [Object.is] on values that are not objects. *)
Definition same_primitive (left right : jsval) : bool :=
  match left, right with
  | JUndefined, JUndefined | JNull, JNull => true
  | JBool a, JBool b => bool_decide (a = b)
  | JNum a, JNum b => bool_decide (a = b)
  | JStr a, JStr b => bool_decide (a = b)
  | _, _ => false
  end.

Definition sameJsonValue (left right : jsval) : bool :=
  if is_object left && is_object right then bool_decide (stringify numberText left = stringify numberText right) else same_primitive left right.

(** *** The checks of one schema that need no other schema *)

Definition enumIssues (fieldName : option string) (schema : jsobj) (value : jsval) : list ConfigValidationIssue :=
  (match obj_get "enum" schema with
   | JArr l => if existsb (λ candidate, sameJsonValue candidate value) l then []
               else [issue fieldName "Choose one of the allowed values."]
   | _ => []
   end) ++
  (if obj_has "const" schema && negb (sameJsonValue (obj_get "const" schema) value)
   then [issue fieldName "Use the required literal value."] else []).

(** [typeof schema[keyword] === "number" && violated(schema[keyword])] *)
Definition boundIssue (fieldName : option string) (schema : jsobj) (keyword : string) (violated : jsnum → bool)
    (message : string → string) : list ConfigValidationIssue :=
  match obj_get keyword schema with
  | JNum bound => if violated bound then [issue fieldName (message (numberText bound))] else []
  | _ => []
  end.

Definition numberIssues (fieldName : option string) (schema : jsobj) (n : jsnum) : list ConfigValidationIssue :=
  boundIssue fieldName schema "minimum" (λ b, num_ltb n b) (λ t, "Must be at least " +:+ t +:+ ".") ++
  boundIssue fieldName schema "maximum" (λ b, num_gtb n b) (λ t, "Must be at most " +:+ t +:+ ".") ++
  boundIssue fieldName schema "exclusiveMinimum" (λ b, num_leb n b) (λ t, "Must be greater than " +:+ t +:+ ".") ++
  boundIssue fieldName schema "exclusiveMaximum" (λ b, num_geb n b) (λ t, "Must be less than " +:+ t +:+ ".").

Definition count (n : nat) : jsnum := num (Z.of_nat n).

Definition stringIssues (fieldName : option string) (schema : jsobj) (s : string) : list ConfigValidationIssue :=
  boundIssue fieldName schema "minLength" (λ b, num_ltb (count (String.length s)) b) (λ t, "Use at least " +:+ t +:+ " characters.") ++
  boundIssue fieldName schema "maxLength" (λ b, num_gtb (count (String.length s)) b) (λ t, "Use at most " +:+ t +:+ " characters.") ++
  match obj_get "pattern" schema with
  | JStr pattern =>
      match regExp pattern with
      | Some test => if test s then [] else [issue fieldName "Value does not match the required format."]
      | None => [issue fieldName "The schema contains an invalid pattern."]
      end
  | _ => []
  end.

Definition requiredNames (schema : jsobj) : list string :=
  match obj_get "required" schema with JArr l => omap as_string l | _ => [] end.

Definition requiredIssues (schema objectValue : jsobj) : list ConfigValidationIssue :=
  flat_map (λ name, if obj_has name objectValue then [] else [issue (Some name) "This field is required."]) (requiredNames schema).

Definition arrayLengthIssues (fieldName : option string) (schema : jsobj) (length : nat) : list ConfigValidationIssue :=
  boundIssue fieldName schema "minItems" (λ b, num_ltb (count length) b) (λ t, "Provide at least " +:+ t +:+ " items.") ++
  boundIssue fieldName schema "maxItems" (λ b, num_gtb (count length) b) (λ t, "Provide at most " +:+ t +:+ " items.").

(** *** Schemas inside a schema *)

(** [branchIssues.reduce(...)] from the first: the shortest, the first of them. *)
Definition bestBranch (branchIssues : list (list ConfigValidationIssue)) : list ConfigValidationIssue :=
  foldl (λ best current, if length current <? length best then current else best) (default [] (head branchIssues)) branchIssues.

Inductive keyword := allOf | anyOf | oneOf.

Definition keywordText (k : keyword) : string := match k with allOf => "allOf" | anyOf => "anyOf" | oneOf => "oneOf" end.

Definition is_nil {A} (l : list A) : bool := match l with [] => true | _ => false end.

(** What a list of branches contributes, from the issues of each. *)
Definition combineBranches (fieldName : option string) (k : keyword) (branchIssues : list (list ConfigValidationIssue))
    : list ConfigValidationIssue :=
  let matchingBranches := length (filter (λ b, is_nil b = true) branchIssues) in
  let rejected :=
    match bestBranch branchIssues with
    | [] => [issue fieldName "Value must match exactly one schema."]
    | best => best
    end in
  match k with
  | allOf => concat branchIssues
  | anyOf => if matchingBranches =? 0 then rejected else []
  | oneOf => if matchingBranches =? 1 then [] else rejected
  end.

(** [prefixItems[index] ?? schema.items], with its place. *)
Definition itemSchema (here : place) (schema : jsobj) (index : nat) : place * jsval :=
  let prefixItems := match obj_get "prefixItems" schema with JArr l => l | _ => [] end in
  match prefixItems !! index with
  | Some v => if is_nullish v then (here ++ [at_key "items"], obj_get "items" schema)
              else (here ++ [at_key "prefixItems"; at_index index], v)
  | None => (here ++ [at_key "items"], obj_get "items" schema)
  end.

(** [fieldName ?? name] *)
Definition field_or (fieldName : option string) (name : string) : option string :=
  match fieldName with Some f => Some f | None => Some name end.

Variable root : jsobj.

(** [fuel] is 65 minus the source's [depth]. *)
Fixpoint configValueIssues (fuel : nat) (here : place) (schema : jsobj) (value : jsval) (fieldName : option string)
    : list ConfigValidationIssue :=
  match fuel with
  | O => [issue fieldName "Schema nesting is too deep."]
  | S fuel' =>
      let '(there, reference) := resolveSchema here schema root in
      let referenceIssues :=
        if bool_decide (there = here) then [] else configValueIssues fuel' there reference value fieldName in
      if negb (schemaMatchesType (obj_get "type" schema) value) then
        referenceIssues ++ [issue fieldName ("Expected " +:+ typeText (obj_get "type" schema) +:+ ".")]
      else
        let branchesOf k :=
          match obj_get (keywordText k) schema with
          | JArr branches =>
              combineBranches fieldName k
                (imap (λ index branch,
                         match record branch with
                         | Some branchSchema =>
                             configValueIssues fuel' (here ++ [at_key (keywordText k); at_index index]) branchSchema value fieldName
                         | None => [issue fieldName "Invalid schema branch."]
                         end) branches)
          | _ => []
          end in
        referenceIssues ++ branchesOf allOf ++ branchesOf anyOf ++ branchesOf oneOf ++
        enumIssues fieldName schema value ++
        match value with
        | JNum n => numberIssues fieldName schema n
        | JStr s => stringIssues fieldName schema s
        | JObj objectValue =>
            let properties := record (obj_get "properties" schema) in
            requiredIssues schema objectValue ++
            flat_map (λ '(name, propertySchema),
                        if obj_has name objectValue then
                          match record propertySchema with
                          | Some childSchema =>
                              configValueIssues fuel' (here ++ [at_key "properties"; at_key name]) childSchema
                                (obj_get name objectValue) (field_or fieldName name)
                          | None => []
                          end
                        else []) (default [] properties) ++
            flat_map (λ '(name, childValue),
                        if obj_has name (default [] properties) then []
                        else match obj_get "additionalProperties" schema with
                             | JBool false => [issue (Some name) "This key is not allowed."]
                             | extra =>
                                 match record extra with
                                 | Some extraSchema =>
                                     configValueIssues fuel' (here ++ [at_key "additionalProperties"]) extraSchema childValue
                                       (field_or fieldName name)
                                 | None => []
                                 end
                             end) objectValue
        | JArr items =>
            arrayLengthIssues fieldName schema (length items) ++
            concat (imap (λ index item,
                            let '(place, raw) := itemSchema here schema index in
                            match record raw with
                            | Some child => configValueIssues fuel' place child item fieldName
                            | None => []
                            end) items)
        | _ => []
        end
  end.
End validation.

Definition SCHEMA_DEPTH_LIMIT : nat := 64.

Section validate.
Context (numberText : jsnum → string) (typeText : jsval → string) (regExp : string → option (string → bool)).

Definition validateConfig (rawSchema config : jsval) : list ConfigValidationIssue :=
  match record rawSchema with
  | None => []
  | Some schema => configValueIssues numberText typeText regExp schema (S SCHEMA_DEPTH_LIMIT) [] schema config None
  end.
End validate.

(** ** What a configuration must satisfy

    The schema's meaning, without issues: every constraint as a proposition, down
    to a nesting of [fuel] schemas. *)

Section conforms.
Context (numberText : jsnum → string) (typeText : jsval → string) (regExp : string → option (string → bool)) (root : jsobj).

(** The bound that [keyword] declares, when it declares one. *)
Definition bounded (schema : jsobj) (keyword : string) (P : jsnum → Prop) : Prop :=
  ∀ b, obj_get keyword schema = JNum b → P b.

Definition branches (schema : jsobj) (k : keyword) (P : list jsval → Prop) : Prop :=
  ∀ l, obj_get (keywordText k) schema = JArr l → P l.

Fixpoint conforms (fuel : nat) (here : place) (schema : jsobj) (value : jsval) : Prop :=
  match fuel with
  | O => False
  | S fuel' =>
      let branch_holds k i b :=
        ∃ bs, record b = Some bs ∧ conforms fuel' (here ++ [at_key (keywordText k); at_index i]) bs value in
      (let r := resolveSchema here schema root in r.1 = here ∨ conforms fuel' r.1 r.2 value) ∧
      schemaMatchesType (obj_get "type" schema) value = true ∧
      branches schema allOf (λ l, ∀ i b, l !! i = Some b → branch_holds allOf i b) ∧
      branches schema anyOf (λ l, ∃ i b, l !! i = Some b ∧ branch_holds anyOf i b) ∧
      branches schema oneOf (λ l, ∃ i b, l !! i = Some b ∧ branch_holds oneOf i b ∧
                                  ∀ j b', l !! j = Some b' → branch_holds oneOf j b' → j = i) ∧
      (∀ l, obj_get "enum" schema = JArr l → ∃ c, c ∈ l ∧ sameJsonValue numberText c value = true) ∧
      (obj_has "const" schema = true → sameJsonValue numberText (obj_get "const" schema) value = true) ∧
      match value with
      | JNum n =>
          bounded schema "minimum" (λ b, num_ltb n b = false) ∧ bounded schema "maximum" (λ b, num_gtb n b = false) ∧
          bounded schema "exclusiveMinimum" (λ b, num_leb n b = false) ∧ bounded schema "exclusiveMaximum" (λ b, num_geb n b = false)
      | JStr s =>
          bounded schema "minLength" (λ b, num_ltb (count (String.length s)) b = false) ∧
          bounded schema "maxLength" (λ b, num_gtb (count (String.length s)) b = false) ∧
          ∀ p, obj_get "pattern" schema = JStr p → ∃ test, regExp p = Some test ∧ test s = true
      | JObj o =>
          (∀ name, name ∈ requiredNames schema → obj_has name o = true) ∧
          (∀ properties name raw child,
             record (obj_get "properties" schema) = Some properties → (name, raw) ∈ properties → record raw = Some child →
             obj_has name o = true → conforms fuel' (here ++ [at_key "properties"; at_key name]) child (obj_get name o)) ∧
          (∀ name v, (name, v) ∈ o → obj_has name (default [] (record (obj_get "properties" schema))) = false →
             obj_get "additionalProperties" schema ≠ JBool false ∧
             ∀ extra, record (obj_get "additionalProperties" schema) = Some extra →
                      conforms fuel' (here ++ [at_key "additionalProperties"]) extra v)
      | JArr items =>
          bounded schema "minItems" (λ b, num_ltb (count (length items)) b = false) ∧
          bounded schema "maxItems" (λ b, num_gtb (count (length items)) b = false) ∧
          ∀ i item child, items !! i = Some item → record (itemSchema here schema i).2 = Some child →
                          conforms fuel' (itemSchema here schema i).1 child item
      | _ => True
      end
  end.

(** *** No issue, piece by piece *)

Lemma app_nil_iff {A} (l k : list A) : l ++ k = [] ↔ l = [] ∧ k = [].
Proof. split; [apply app_eq_nil|]. by intros [-> ->]. Qed.

Lemma flat_map_nil {A B} (f : A → list B) l : flat_map f l = [] ↔ ∀ a, a ∈ l → f a = [].
Proof.
  induction l as [|a l IH]; cbn [flat_map]; [by split; [intros _ a ?%elem_of_nil|]|].
  rewrite app_nil_iff, IH. setoid_rewrite elem_of_cons. naive_solver.
Qed.

Lemma concat_nil {A} (ls : list (list A)) : concat ls = [] ↔ ∀ i l, ls !! i = Some l → l = [].
Proof.
  induction ls as [|l ls IH]; cbn [concat]; [by split|]. rewrite app_nil_iff, IH. split.
  - intros [-> H] [|i] k; cbn; [by intros [= <-]|by apply H].
  - intros H. split; [by apply (H 0)|]. intros i k Hk. by apply (H (S i)).
Qed.

Lemma if_nil {A} (b : bool) (x : A) (l : list A) : (if b then x :: l else []) = [] ↔ b = false.
Proof. by destruct b. Qed.

Lemma if_nil' {A} (b : bool) (x : A) (l : list A) : (if b then [] else x :: l) = [] ↔ b = true.
Proof. by destruct b. Qed.

Lemma boundIssue_nil fieldName schema keyword violated message :
  boundIssue numberText fieldName schema keyword violated message = [] ↔ bounded schema keyword (λ b, violated b = false).
Proof.
  unfold boundIssue, bounded. destruct (obj_get keyword schema); try naive_solver. rewrite if_nil. naive_solver.
Qed.

Lemma enumIssues_nil fieldName schema value :
  enumIssues numberText fieldName schema value = [] ↔
  (∀ l, obj_get "enum" schema = JArr l → ∃ c, c ∈ l ∧ sameJsonValue numberText c value = true) ∧
  (obj_has "const" schema = true → sameJsonValue numberText (obj_get "const" schema) value = true).
Proof.
  unfold enumIssues. rewrite app_nil_iff, if_nil, andb_false_iff, negb_false_iff. f_equiv.
  - destruct (obj_get "enum" schema) as [| | | | |l|]; try naive_solver. rewrite if_nil', existsb_elem. naive_solver.
  - destruct (obj_has "const" schema); naive_solver.
Qed.

Lemma numberIssues_nil fieldName schema n :
  numberIssues numberText fieldName schema n = [] ↔
  bounded schema "minimum" (λ b, num_ltb n b = false) ∧ bounded schema "maximum" (λ b, num_gtb n b = false) ∧
  bounded schema "exclusiveMinimum" (λ b, num_leb n b = false) ∧ bounded schema "exclusiveMaximum" (λ b, num_geb n b = false).
Proof. unfold numberIssues. by rewrite !app_nil_iff, !boundIssue_nil. Qed.

Lemma stringIssues_nil fieldName schema s :
  stringIssues numberText regExp fieldName schema s = [] ↔
  bounded schema "minLength" (λ b, num_ltb (count (String.length s)) b = false) ∧
  bounded schema "maxLength" (λ b, num_gtb (count (String.length s)) b = false) ∧
  ∀ p, obj_get "pattern" schema = JStr p → ∃ test, regExp p = Some test ∧ test s = true.
Proof.
  unfold stringIssues. rewrite !app_nil_iff, !boundIssue_nil. do 2 f_equiv.
  destruct (obj_get "pattern" schema) as [| | | |p| |]; try naive_solver.
  destruct (regExp p) as [test|] eqn:Ht; [rewrite if_nil'; naive_solver|naive_solver].
Qed.

Lemma requiredIssues_nil schema o :
  requiredIssues schema o = [] ↔ ∀ name, name ∈ requiredNames schema → obj_has name o = true.
Proof. unfold requiredIssues. rewrite flat_map_nil. by setoid_rewrite if_nil'. Qed.

Lemma filter_one {A} (P : A → Prop) `{∀ a, Decision (P a)} (l : list A) :
  length (filter P l) = 1 ↔ ∃ i a, l !! i = Some a ∧ P a ∧ ∀ j b, l !! j = Some b → P b → j = i.
Proof.
  induction l as [|x l IH]; [cbn; split; [done|by intros (i & a & Hi & _)]|]. rewrite filter_cons. case_decide as Hx.
  - cbn [length]. split.
    + intros [= Hl%nil_length_inv]. exists 0, x. split_and!; [done..|]. intros [|j] b Hj Hb; [done|]. cbn in Hj.
      assert (b ∈ filter P l) as Hin by (apply list_elem_of_filter; split; [done|by eapply list_elem_of_lookup_2]).
      rewrite Hl in Hin. by apply elem_of_nil in Hin.
    + intros (i & a & Hi & Ha & Huniq). assert (i = 0) as -> by (symmetry; by apply (Huniq 0 x)).
      f_equal. apply length_zero_iff_nil. destruct (filter P l) as [|b r] eqn:Hf; [done|]. exfalso.
      assert (b ∈ filter P l) as [Hb [j Hj]%list_elem_of_lookup]%list_elem_of_filter by (rewrite Hf; by left).
      by apply (Huniq (S j) b) in Hj.
  - rewrite IH. split.
    + intros (i & a & Hi & Ha & Huniq). exists (S i), a. split_and!; [done..|]. intros [|j] b Hj Hb; [cbn in Hj; congruence|].
      f_equal. by eapply Huniq.
    + intros ([|i] & a & Hi & Ha & Huniq); [cbn in Hi; congruence|]. exists i, a. split_and!; [done..|].
      intros j b Hj Hb. by apply (Huniq (S j) b) in Hj as [= ->].
Qed.

Lemma is_nil_true {A} (l : list A) : is_nil l = true ↔ l = [].
Proof. by destruct l. Qed.

Lemma combineBranches_nil fieldName k bs :
  combineBranches fieldName k bs = [] ↔
  match k with
  | allOf => ∀ i b, bs !! i = Some b → b = []
  | anyOf => ∃ i b, bs !! i = Some b ∧ b = []
  | oneOf => ∃ i b, bs !! i = Some b ∧ b = [] ∧ ∀ j b', bs !! j = Some b' → b' = [] → j = i
  end.
Proof.
  unfold combineBranches. cbv zeta.
  assert (∀ b : bool, (if b then [] else match bestBranch bs with
            | [] => [issue fieldName "Value must match exactly one schema."] | i :: l => i :: l end) = [] ↔ b = true) as Hrej.
  { intros b. by destruct b, (bestBranch bs). }
  destruct k.
  - apply concat_nil.
  - pose proof (Hrej (negb (length (filter (λ b, is_nil b = true) bs) =? 0))) as H.
    rewrite negb_true_iff in H. rewrite (Nat.eqb_neq _ 0) in H.
    replace (if negb (length (filter (λ b, is_nil b = true) bs) =? 0) then _ else _) with
      (if length (filter (λ b, is_nil b = true) bs) =? 0 then match bestBranch bs with
         | [] => [issue fieldName "Value must match exactly one schema."] | i :: l => i :: l end else []) in H
      by by destruct (_ =? 0).
    rewrite H, length_zero_iff_nil. split.
    + intros Hne. destruct (filter _ bs) as [|b r] eqn:Hf; [done|].
      assert (b ∈ filter (λ b, is_nil b = true) bs) as [Hb [i Hi]%list_elem_of_lookup]%list_elem_of_filter by (rewrite Hf; by left).
      exists i, b. split; [done|by apply is_nil_true].
    + intros (i & b & Hi & ->) Hnil. assert ([] ∈ filter (λ b, is_nil b = true) bs) as Hin.
      { apply list_elem_of_filter. split; [done|by eapply list_elem_of_lookup_2]. }
      rewrite Hnil in Hin. by apply elem_of_nil in Hin.
  - rewrite Hrej, Nat.eqb_eq, filter_one. by setoid_rewrite is_nil_true.
Qed.

(** The branches of one keyword, given what the branches themselves mean. *)
Lemma branches_nil fieldName schema k (f : nat → jsval → list ConfigValidationIssue) (P : nat → jsval → Prop) :
  (∀ i b, f i b = [] ↔ P i b) →
  (match obj_get (keywordText k) schema with JArr l => combineBranches fieldName k (imap f l) | _ => [] end) = [] ↔
  branches schema k (λ l,
    match k with
    | allOf => ∀ i b, l !! i = Some b → P i b
    | anyOf => ∃ i b, l !! i = Some b ∧ P i b
    | oneOf => ∃ i b, l !! i = Some b ∧ P i b ∧ ∀ j b', l !! j = Some b' → P j b' → j = i
    end).
Proof.
  intros Hf. unfold branches. destruct (obj_get (keywordText k) schema) as [| | | | |l|]; try naive_solver.
  rewrite combineBranches_nil.
  assert (∀ i r, imap f l !! i = Some r ↔ ∃ b, l !! i = Some b ∧ r = f i b) as Hi.
  { intros i r. rewrite list_lookup_imap, fmap_Some. done. }
  destruct k; setoid_rewrite <- Hf.
  - split; [intros H _ [= <-] i b Hb; apply (H i), Hi; eauto|]. intros H i r (b & Hb & ->)%Hi. by eapply H.
  - split; [intros (i & r & (b & Hb & ->)%Hi & Hr) _ [= <-]; eauto|].
    intros H. destruct (H l eq_refl) as (i & b & Hb & Hr). exists i, (f i b). split; [apply Hi; eauto|done].
  - split.
    + intros (i & r & (b & Hb & ->)%Hi & Hr & Hu) _ [= <-]. exists i, b. split_and!; [done..|].
      intros j b' Hb' Hr'. apply (Hu j (f j b')); [apply Hi; eauto|done].
    + intros H. destruct (H l eq_refl) as (i & b & Hb & Hr & Hu). exists i, (f i b).
      split_and!; [apply Hi; eauto|done|]. intros j r' (b' & Hb' & ->)%Hi Hr'. by eapply Hu.
Qed.

Lemma issues_exact fuel : ∀ here schema value fieldName,
  configValueIssues numberText typeText regExp root fuel here schema value fieldName = [] ↔ conforms fuel here schema value.
Proof.
  induction fuel as [|fuel IH]; intros here schema value fieldName; [done|].
  cbn [configValueIssues conforms]. destruct (resolveSchema here schema root) as [there reference] eqn:Href. cbn [fst snd].
  assert (∀ k i b,
    (match record b with
     | Some bs => configValueIssues numberText typeText regExp root fuel (here ++ [at_key (keywordText k); at_index i]) bs value fieldName
     | None => [issue fieldName "Invalid schema branch."]
     end) = [] ↔ ∃ bs, record b = Some bs ∧ conforms fuel (here ++ [at_key (keywordText k); at_index i]) bs value) as Hb.
  { intros k i b. destruct (record b) as [bs|]; [rewrite IH; naive_solver|naive_solver]. }
  assert ((if bool_decide (there = here) then []
           else configValueIssues numberText typeText regExp root fuel there reference value fieldName) = [] ↔
          there = here ∨ conforms fuel there reference value) as Hr.
  { case_bool_decide; [tauto|]. rewrite IH. tauto. }
  destruct (schemaMatchesType (obj_get "type" schema) value); cbn [negb].
  2: { rewrite app_nil_iff. split; [by intros []|by intros (_ & ? & _)]. }
  rewrite !app_nil_iff, Hr, enumIssues_nil.
  rewrite (branches_nil _ _ allOf _ _ (Hb allOf)), (branches_nil _ _ anyOf _ _ (Hb anyOf)), (branches_nil _ _ oneOf _ _ (Hb oneOf)).
  set (rest := match value with JUndefined => [] | _ => _ end). set (spec := match value with JUndefined => True | _ => _ end).
  assert (rest = [] ↔ spec) as Hrest; [|rewrite Hrest; tauto].
  subst rest spec. destruct value as [| |b|n|s|items|o]; [naive_solver..| | | |].
  - apply numberIssues_nil.
  - apply stringIssues_nil.
  - rewrite app_nil_iff, concat_nil. unfold arrayLengthIssues. rewrite app_nil_iff, !boundIssue_nil.
    assert (∀ A B C : Prop, (A ∧ B) ∧ C ↔ A ∧ B ∧ C) as Has by tauto. rewrite Has. do 2 f_equiv. split.
    + intros H i item child Hi Hc. specialize (H i). rewrite list_lookup_imap, Hi in H. specialize (H _ eq_refl).
      destruct (itemSchema here schema i) as [p raw]. cbn in *. rewrite Hc in H. by apply IH in H.
    + intros H i r Hi. rewrite list_lookup_imap in Hi. apply fmap_Some in Hi as (item & Hi & ->). specialize (H i item).
      destruct (itemSchema here schema i) as [p raw]. cbn in *. destruct (record raw) as [child|]; [|done]. apply IH. by apply H.
  - rewrite !app_nil_iff, requiredIssues_nil, !flat_map_nil. f_equiv. f_equiv.
    + destruct (record (obj_get "properties" schema)) as [properties|]; cbn [default].
      * split.
        -- intros H props name raw child [= <-] Hin Hc Ho. specialize (H _ Hin). cbn in H. rewrite Ho, Hc in H. by apply IH in H.
        -- intros H [name raw] Hin. destruct (obj_has name o) eqn:Ho; [|done]. destruct (record raw) eqn:Hc; [|done].
           apply IH. by eapply H.
      * split; [done|]. by intros _ a ?%elem_of_nil.
    + split.
      * intros H name v Hin Hnp. specialize (H _ Hin). cbn in H. rewrite Hnp in H.
        destruct (obj_get "additionalProperties" schema) as [| |[]| | | |extra]; cbn in *; (split; [done|]);
          intros e He; try done. injection He as <-. by apply IH in H.
      * intros H [name v] Hin. destruct (obj_has name _) eqn:Hnp; [done|]. destruct (H name v Hin Hnp) as [Hx He].
        destruct (obj_get "additionalProperties" schema) as [| |[]| | | |extra]; cbn in *; try done. apply IH. by apply He.
Qed.
End conforms.

Lemma no_issue_iff numberText typeText regExp rawSchema config :
  validateConfig numberText typeText regExp rawSchema config = [] ↔
  ∀ schema, record rawSchema = Some schema → conforms numberText regExp schema (S SCHEMA_DEPTH_LIMIT) [] schema config.
Proof.
  unfold validateConfig. generalize (S SCHEMA_DEPTH_LIMIT) as limit. intros limit.
  destruct (record rawSchema) as [schema|]; [|split; [intros _ schema [=]|reflexivity]].
  rewrite issues_exact. split; [intros H schema' [= <-]; exact H|intros H; exact (H schema eq_refl)].
Qed.

(** C24: a configuration has no issue exactly when it conforms to the operator's
    schema: references, types, the branches of [allOf], [anyOf] and [oneOf], literals,
    bounds, lengths, patterns, required and additional properties and items all hold,
    whatever the order in which the validator reports or stops. *)
Theorem validate_config_exact numberText typeText regExp rawSchema config :
  validateConfig numberText typeText regExp rawSchema config = [] ↔
  ∀ schema, record rawSchema = Some schema → conforms numberText regExp schema (S SCHEMA_DEPTH_LIMIT) [] schema config.
Proof.
  apply no_issue_iff.
Qed.

(** A schema that refers to itself asks nothing; two that refer to each other are
    given up at the limit of nesting. *)
Example reference_cycles :
  let ref s := JObj [("$ref", JStr s)] in
  validateConfig (λ _, "0") (λ _, "type") (λ _, None)
    (JObj [("$ref", JStr "#/$defs/A"); ("$defs", JObj [("A", ref "#/$defs/A")])]) (JObj []) = [] ∧
  validateConfig (λ _, "0") (λ _, "type") (λ _, None)
    (JObj [("$ref", JStr "#/$defs/A"); ("$defs", JObj [("A", ref "#/$defs/B"); ("B", ref "#/$defs/A")])]) (JObj []) =
    [issue None "Schema nesting is too deep."].
Proof. split; vm_compute; reflexivity. Qed.
