(* ===== verification/ConfigFields.v ===== *)
(** * Editable fields of a configuration ([canvas/config-schema.ts], second part)

    The fields a card offers for a schema: scalars, lists of strings and fixed
    tuples of numbers.  Properties whose name reads as a credential are never
    offered. *)

From Stdlib Require Import Strings.Ascii.
From S2P Require Import Prelude Js JsNum JsText GraphModel Handles Routes Canvas InputPlugs ConfigSchema.
From stdpp Require Import numbers list.

(** ** Data *)

Record NumberTupleItem := {
  ti_title : string;
  ti_integer : bool;
  ti_minimum : option jsnum;
  ti_maximum : option jsnum
}.

Inductive ScalarType := sc_string | sc_integer | sc_number | sc_boolean.

Record ScalarSchemaField := {
  sc_type : ScalarType;
  sc_enumValues : option (list jsval);
  sc_textarea : bool;
  sc_sql : bool;
  sc_minimum : option jsnum;
  sc_maximum : option jsnum;
  sc_minLength : option jsnum;
  sc_maxLength : option jsnum;
  sc_pattern : option string
}.

Record StringListConstraints := {
  sl_minItems : option jsnum;
  sl_maxItems : option jsnum;
  sl_itemMinLength : option jsnum;
  sl_itemMaxLength : option jsnum;
  sl_itemPattern : option string
}.

Inductive SchemaFieldBody :=
| scalar_field (f : ScalarSchemaField)
| number_tuple (items : list NumberTupleItem)
| string_list (c : StringListConstraints).

Record SchemaField := {
  cf_name : string;
  cf_title : string;
  cf_description : option string;
  cf_required : bool;
  cf_nullable : bool;
  cf_body : SchemaFieldBody
}.

(** ** Reading *)

Definition as_number (v : jsval) : option jsnum := match v with JNum n => Some n | _ => None end.

Definition has_type (t : string) (schema : jsobj) : bool :=
  match obj_get "type" schema with JStr s => bool_decide (s = t) | _ => false end.

(** The schema behind a reference, or behind [anyOf] of it and [null]. *)
Definition resolved (schema root : jsobj) : jsobj := (resolveSchema [] schema root).2.

Definition editableSchema (schema root : jsobj) : jsobj * bool :=
  let resolvedSchema := resolved schema root in
  match obj_get "anyOf" resolvedSchema with
  | JArr [a; b] =>
      let branches := omap record [a; b] in
      let nullBranches := filter (λ branch, has_type "null" branch = true) branches in
      let valueBranches := filter (λ branch, has_type "null" branch = false) branches in
      if (length branches =? 2) && (length nullBranches =? 1) && (length valueBranches =? 1) then
        match valueBranches with
        | valueBranch :: _ => (resolved valueBranch root, true)
        | [] => (resolvedSchema, false)
        end
      else (resolvedSchema, false)
  | _ => (resolvedSchema, false)
  end.

Definition tupleItem (root : jsobj) (index : nat) (rawItem : jsval) : option NumberTupleItem :=
  itemRecord ← record rawItem;
  let item := resolved itemRecord root in
  if has_type "number" item || has_type "integer" item then
    Some {| ti_title := default ("Value " +:+ intText (Z.of_nat index + 1)) (as_string (obj_get "title" item));
            ti_integer := has_type "integer" item;
            ti_minimum := as_number (obj_get "minimum" item);
            ti_maximum := as_number (obj_get "maximum" item) |}
  else None.

(** [Number.isInteger(schema[keyword])], with the integer. *)
Definition as_integer (v : jsval) : option Z := as_number v ≫= num_integer.

Definition fixedNumberTupleItems (schema root : jsobj) : option (list NumberTupleItem) :=
  match obj_get "prefixItems" schema, as_integer (obj_get "minItems" schema), as_integer (obj_get "maxItems" schema) with
  | JArr prefixItems, Some minItems, Some maxItems =>
      if negb (has_type "array" schema) || negb (bool_decide (minItems = maxItems)) ||
         negb (bool_decide (minItems = Z.of_nat (length prefixItems))) || (length prefixItems =? 0)
      then None
      else mapM id (imap (tupleItem root) prefixItems)
  | _, _, _ => None
  end.

Definition stringListConstraints (schema root : jsobj) : option StringListConstraints :=
  if negb (has_type "array" schema) then None
  else
    rawItems ← record (obj_get "items" schema);
    let items := resolved rawItems root in
    if has_type "string" items then
      Some {| sl_minItems := as_number (obj_get "minItems" schema); sl_maxItems := as_number (obj_get "maxItems" schema);
              sl_itemMinLength := as_number (obj_get "minLength" items); sl_itemMaxLength := as_number (obj_get "maxLength" items);
              sl_itemPattern := as_string (obj_get "pattern" items) |}
    else None.

(** [/api.?key|token|secret/i.test(name)] *)
Definition api_key_at (s : string) : bool :=
  String.prefix "api" s &&
  let rest := slice_from 3 s in
  String.prefix "key" rest ||
  match rest with
  | String.String c rest' => negb ((code c =? 10) || (code c =? 13)) && String.prefix "key" rest'
  | EmptyString => false
  end.

Definition readsAsSecret (name : string) : bool :=
  some_suffix (λ s, api_key_at s || String.prefix "token" s || String.prefix "secret" s) (toLowerCase name).

Definition is_number (v : jsval) : bool := match v with JNum _ => true | _ => false end.
Definition is_text_or_number (v : jsval) : bool := match v with JStr _ | JNum _ => true | _ => false end.

Definition enumOf (property : jsobj) : option (list jsval) :=
  match obj_get "enum" property with
  | JArr l => Some (filter (λ v, is_text_or_number v = true) l)
  | _ => None
  end.

Definition scalarTypeOf (t : string) : option ScalarType :=
  if bool_decide (t = "string") then Some sc_string
  else if bool_decide (t = "integer") then Some sc_integer
  else if bool_decide (t = "number") then Some sc_number
  else if bool_decide (t = "boolean") then Some sc_boolean
  else None.

Definition candidateType (property : jsobj) (enumValues : option (list jsval)) : option string :=
  match obj_get "type" property with
  | JStr t => Some t
  | _ =>
      match enumValues with
      | None => None
      | Some values => if forallb is_number values then Some "number" else if is_nil values then None else Some "string"
      end
  end.

Definition is_text (t : string) (v : jsval) : bool := match v with JStr s => bool_decide (s = t) | _ => false end.

Definition fieldBody (property root : jsobj) : option SchemaFieldBody :=
  match fixedNumberTupleItems property root with
  | Some items => Some (number_tuple items)
  | None =>
      match stringListConstraints property root with
      | Some constraints => Some (string_list constraints)
      | None =>
          let enumValues := enumOf property in
          type ← candidateType property enumValues ≫= scalarTypeOf;
          Some (scalar_field
            {| sc_type := type; sc_enumValues := enumValues;
               sc_textarea := is_text "textarea" (obj_get "format" property);
               sc_sql := is_text "application/sql" (obj_get "contentMediaType" property);
               sc_minimum := as_number (obj_get "minimum" property); sc_maximum := as_number (obj_get "maximum" property);
               sc_minLength := as_number (obj_get "minLength" property); sc_maxLength := as_number (obj_get "maxLength" property);
               sc_pattern := as_string (obj_get "pattern" property) |})
      end
  end.

(** One property: no field for a credential, a property that is no schema, or a
    schema no control edits. *)
Definition schemaField (root : jsobj) (required : list string) (entry : string * jsval) : list SchemaField :=
  let '(name, rawProperty) := entry in
  if readsAsSecret name then []
  else
    match record rawProperty with
    | None => []
    | Some propertyRecord =>
        let propertyMetadata := resolved propertyRecord root in
        let '(property, nullable) := editableSchema propertyMetadata root in
        match fieldBody property root with
        | None => []
        | Some body =>
            [{| cf_name := name;
                cf_title := default (replaceAll "_" " " name) (as_string (obj_get "title" propertyMetadata));
                cf_description := match as_string (obj_get "description" propertyMetadata) with
                                  | Some d => Some d
                                  | None => as_string (obj_get "description" property)
                                  end;
                cf_required := bool_decide (name ∈ required);
                cf_nullable := nullable;
                cf_body := body |}]
        end
    end.

Definition schemaFields (rawSchema : jsval) : list SchemaField :=
  match record rawSchema with
  | None => []
  | Some root =>
      match record (obj_get "properties" root) with
      | None => []
      | Some properties => flat_map (schemaField root (requiredNames root)) properties
      end
  end.

(** ** Theorems *)

(** A string has the piece [p], in any case of its letters. *)
Definition mentions (p name : string) : Prop := ∃ a b, toLowerCase name = a +:+ p +:+ b.

Lemma not_secret_mentions name :
  readsAsSecret name = false → ¬ mentions "token" name ∧ ¬ mentions "secret" name ∧ ¬ mentions "apikey" name ∧ ¬ mentions "api_key" name.
Proof.
  intros Hs. assert (∀ p, (∀ b, api_key_at (p +:+ b) || String.prefix "token" (p +:+ b) || String.prefix "secret" (p +:+ b) = true) →
    ¬ mentions p name) as H.
  { intros p Hp (a & b & Hab). assert (readsAsSecret name = true); [|congruence]. apply some_suffix_spec. by exists a, (p +:+ b). }
  split_and!; apply H; intros b.
  - by rewrite (str_prefix_app "token"), orb_true_r.
  - by rewrite (str_prefix_app "secret"), orb_true_r.
  - unfold api_key_at. change ("apikey" +:+ b) with ("api" +:+ ("key" +:+ b)).
    by rewrite (str_prefix_app "api"), (slice_prefix "api"), (str_prefix_app "key").
  - unfold api_key_at. change ("api_key" +:+ b) with ("api" +:+ ("_key" +:+ b)).
    rewrite (str_prefix_app "api"), (slice_prefix "api"). change ("_key" +:+ b) with (String.String "_" ("key" +:+ b)).
    cbv beta iota zeta. by rewrite (str_prefix_app "key"), orb_true_r.
Qed.

Definition tuple_shape (b : SchemaFieldBody) : Prop := match b with number_tuple items => items ≠ [] | _ => True end.

Lemma tuple_items_count schema root items :
  fixedNumberTupleItems schema root = Some items →
  items ≠ [] ∧ as_integer (obj_get "minItems" schema) = Some (Z.of_nat (length items)) ∧
  as_integer (obj_get "maxItems" schema) = Some (Z.of_nat (length items)).
Proof.
  unfold fixedNumberTupleItems. destruct (obj_get "prefixItems" schema) as [| | | | |l|]; try done.
  destruct (as_integer (obj_get "minItems" schema)) as [mn|], (as_integer (obj_get "maxItems" schema)) as [mx|]; try done.
  destruct (_ || _ || _ || _) eqn:Hg; [done|]. rewrite !orb_false_iff, !negb_false_iff, !bool_decide_eq_true, Nat.eqb_neq in Hg.
  destruct Hg as [[[_ ->] ->] Hne]. intros Hm%mapM_Some%Forall2_length. rewrite length_imap in Hm.
  split_and!; [|by rewrite Hm..]. intros ->. by rewrite Hm in Hne.
Qed.

(** The fields a card offers are properties of the schema in their order, each
    once; none has a name that reads as an API key, a token or a secret; a field is
    required exactly when the schema lists it; a tuple of numbers has a control for
    each of its items and at least one. *)
Theorem offered_fields_are_safe root properties :
  record (obj_get "properties" root) = Some properties →
  let fields := schemaFields (JObj root) in
  (cf_name <$> fields) `sublist_of` properties.*1 ∧
  ∀ f, f ∈ fields →
    ¬ mentions "token" (cf_name f) ∧ ¬ mentions "secret" (cf_name f) ∧
    ¬ mentions "apikey" (cf_name f) ∧ ¬ mentions "api_key" (cf_name f) ∧
    cf_required f = bool_decide (cf_name f ∈ requiredNames root) ∧ tuple_shape (cf_body f).
Proof.
  intros Hprops. cbv zeta. unfold schemaFields. cbn [record]. rewrite Hprops.
  assert (∀ entry, schemaField root (requiredNames root) entry = [] ∨
            ∃ f, schemaField root (requiredNames root) entry = [f] ∧ cf_name f = entry.1 ∧ readsAsSecret entry.1 = false ∧
                 cf_required f = bool_decide (cf_name f ∈ requiredNames root) ∧ tuple_shape (cf_body f)) as Hone.
  { intros [name raw]. unfold schemaField. destruct (readsAsSecret name) eqn:Hs; [by left|].
    destruct (record raw) as [p|]; [|by left]. destruct (editableSchema _ _) as [property nullable].
    destruct (fieldBody property root) as [body|] eqn:Hb; [|by left]. right. eexists. split_and!; [done..|]. cbn.
    unfold fieldBody in Hb. destruct (fixedNumberTupleItems property root) eqn:Ht.
    { injection Hb as <-. by apply tuple_items_count in Ht as [? _]. }
    destruct (stringListConstraints property root); [by injection Hb as <-|].
    by apply bind_Some in Hb as (? & _ & [= <-]). }
  split.
  - clear Hprops. induction properties as [|entry l IH]; cbn [flat_map fmap list_fmap]; [constructor|].
    destruct (Hone entry) as [->|(f & -> & <- & _)]; cbn [app fmap list_fmap]; [by apply sublist_cons|by apply sublist_skip].
  - intros f Hf. rewrite list_elem_of_In, in_flat_map in Hf. destruct Hf as (entry & _ & Hf).
    destruct (Hone entry) as [He|(g & He & Hn & Hsec & Hreq & Htup)]; rewrite He in Hf; [done|]. destruct Hf as [<-|[]].
    rewrite Hn in *. destruct (not_secret_mentions _ Hsec) as (? & ? & ? & ?). done.
Qed.

Definition sample_config_schema : jsobj :=
  [("properties", JObj [("retries", JObj [("type", JStr "integer"); ("minimum", JNum (num 0))]);
                        ("Api-Key", JObj [("type", JStr "string")]);
                        ("size", JObj [("type", JStr "array"); ("minItems", JNum (num 1)); ("maxItems", JNum (num 1));
                                       ("prefixItems", JArr [JObj [("type", JStr "number")]])])]);
   ("required", JArr [JStr "size"])].

Lemma offered_fields_are_safe_witness :
  cf_name <$> schemaFields (JObj sample_config_schema) = ["retries"; "size"] ∧
  (cf_name <$> schemaFields (JObj sample_config_schema)) `sublist_of` ["retries"; "Api-Key"; "size"].
Proof.
  split; [vm_compute; reflexivity|]. exact (proj1 (offered_fields_are_safe sample_config_schema _ eq_refl)).
Defined.
