(* ===== verification/ExecutionPlan.v ===== *)
(** * The plan of a Run ([model/execution-plan.ts])

    Which nodes a Run names, which of their required inputs are not connected, and
    the first reason why a Run cannot start. *)

From S2P Require Import Prelude Worklist Js JsText Handles GraphModel Canvas InputPlugs ConfigSchema.
From stdpp Require Import numbers pretty.

(** ** Data *)

Inductive RunScope := scope_all | scope_selected | scope_selected_with_dependencies.

Record ExecutionSubgraph := {
  ex_nodeIds : list string;
  ex_nodes : list WorkflowNode;
  ex_edges : list WorkflowEdge
}.

Record MissingRequiredInput := { mi_nodeId : string; mi_nodeTitle : string; mi_portName : string }.

(** ** Predicates of [model/collection-spec.ts] and of the plan *)

Definition COLLECTION_OPERATOR_ID : string := "sequence.collect".
Definition COLLECTION_PORT : string := "items".

Definition isCollectionSpec (spec : NodeSpec) : bool := bool_decide (spec_operator_id spec = COLLECTION_OPERATOR_ID).

Definition isCollectionNode (n : WorkflowNode) : bool :=
  workflowNodeIsSupported n && isCollectionSpec (wn_spec n).

(** [edge.data?.enabled !== false] *)
Definition edgeEnabled (e : WorkflowEdge) : bool := negb (bool_decide (we_enabled e = Some false)).

Definition nodeSelected (n : WorkflowNode) : bool := bool_decide (wn_selected n = Some true).

(** ** Scope *)

(** The test of the inner loop of [selectedNodeAndAncestorIds]. *)
Definition ancestorSource (knownNodeIds : list string) (targetNodeId : string) (e : WorkflowEdge) : option string :=
  if negb (edgeEnabled e) || negb (bool_decide (we_target e = targetNodeId)) ||
     negb (bool_decide (we_source e ∈ knownNodeIds))
  then None else Some (we_source e).

Definition selectedIds (nodes : list WorkflowNode) : list string :=
  js_set (wn_id <$> filter (λ n, nodeSelected n = true) nodes).

Definition selectedNodeAndAncestorIds (nodes : list WorkflowNode) (edges : list WorkflowEdge) : list string :=
  let knownNodeIds := ids nodes in
  default (selectedIds nodes)
    (drain (λ _, false) (ancestorSource knownNodeIds) edges (length nodes) (selectedIds nodes) (selectedIds nodes)).

Definition executionSubgraphFor (scope : RunScope) (nodes : list WorkflowNode) (edges : list WorkflowEdge) : ExecutionSubgraph :=
  let activeEdges := filter (λ e, edgeEnabled e = true) edges in
  let nodeIds :=
    match scope with
    | scope_all => js_set (ids nodes)
    | scope_selected_with_dependencies => selectedNodeAndAncestorIds nodes activeEdges
    | scope_selected => selectedIds nodes
    end in
  let executionEdges :=
    match scope with
    | scope_all => activeEdges
    | scope_selected_with_dependencies => filter (λ e, we_source e ∈ nodeIds ∧ we_target e ∈ nodeIds) activeEdges
    | scope_selected => filter (λ e, we_target e ∈ nodeIds) activeEdges
    end in
  {| ex_nodeIds := nodeIds; ex_nodes := filter (λ n, wn_id n ∈ nodeIds) nodes; ex_edges := executionEdges |}.

(** [RunTargetInput]: the node, at the empty call path. *)
Definition runTargetsFor (execution : ExecutionSubgraph) : list (string * list string) :=
  (λ n, (wn_id n, [])) <$> ex_nodes execution.

(** ** Required inputs *)

Definition originSatisfiesSlot (origin : GraphOrigin) (nodeId port : string) (plug : option string) : bool :=
  bool_decide (o_to_node origin = nodeId) && bool_decide (o_to_port origin = port) &&
  bool_decide (jsopt_to_option (o_to_plug origin) = plug).

Definition plugFilled (edges : list WorkflowEdge) (origins : list GraphOrigin) (n : WorkflowNode) (port : Port)
    (plug : WorkflowInputPlug) : bool :=
  existsb (λ e, edgeEnabled e && bool_decide (we_target e = wn_id n) &&
                bool_decide ((decodeHandleId (we_targetHandle e) ≫= plugId) = Some (wp_id plug))) edges ||
  existsb (λ o, originSatisfiesSlot o (wn_id n) (port_name port) (Some (wp_id plug))) origins.

Definition portFilled (edges : list WorkflowEdge) (origins : list GraphOrigin) (n : WorkflowNode) (port : Port) : bool :=
  existsb (λ e, edgeEnabled e && bool_decide (we_target e = wn_id n) &&
                bool_decide ((portName <$> decodeHandleId (we_targetHandle e)) = Some (port_name port))) edges ||
  existsb (λ o, originSatisfiesSlot o (wn_id n) (port_name port) None) origins.

Definition missingAt (n : WorkflowNode) (port : string) : MissingRequiredInput :=
  {| mi_nodeId := wn_id n; mi_nodeTitle := wn_title n; mi_portName := port |}.

(** [plugs.flatMap((plug, index) => ...)] *)
Fixpoint missingPlugs (filled : WorkflowInputPlug → bool) (n : WorkflowNode) (port : Port) (index : nat)
    (plugs : list WorkflowInputPlug) : list MissingRequiredInput :=
  match plugs with
  | [] => []
  | plug :: rest =>
      (if filled plug then []
       else [missingAt n (port_name port +:+ " input " +:+ intText (Z.of_nat index + 1))]) ++
      missingPlugs filled n port (S index) rest
  end.

Definition missingInputsOfPort (edges : list WorkflowEdge) (origins : list GraphOrigin) (n : WorkflowNode) (port : Port)
    : list MissingRequiredInput :=
  if portHasInstancePlugs port then
    if negb (port_required port) then []
    else
      let plugs := inputPlugsForPort (wn_inputPlugs n) (port_name port) in
      match plugs with
      | [] => [missingAt n (port_name port)]
      | _ =>
          let filled := plugFilled edges origins n port in
          if isCollectionNode n then
            if existsb filled plugs then [] else [missingAt n (port_name port)]
          else missingPlugs filled n port 0 plugs
      end
  else if negb (port_required port) then []
  else if portFilled edges origins n port then [] else [missingAt n (port_name port)].

Definition missingRequiredInputsFor (nodes : list WorkflowNode) (edges : list WorkflowEdge) (origins : list GraphOrigin)
    : list MissingRequiredInput :=
  flat_map (λ n, flat_map (missingInputsOfPort edges origins n) (wn_inputs n)) nodes.

(** ** Validation of a Run *)

Record ExecutionValidationIssue := { vi_nodeId : option string; vi_message : string }.

Section validation.
Context (numberText : jsnum → string) (typeText : jsval → string) (regExp : string → option (string → bool)).

(** The issues of a node that cannot run. *)
Definition compatibilityIssue (n : WorkflowNode) : string :=
  match nd_compatibility (wn_data n) with
  | supported => "The node is unavailable."
  | unsupported issues _ _ _ | invalid issues _ _ _ => Js.join " " issues
  end.

(** The first node whose configuration has an issue, with the first issue. *)
Fixpoint firstConfigIssue (nodes : list WorkflowNode) : option (WorkflowNode * ConfigValidationIssue) :=
  match nodes with
  | [] => None
  | n :: rest =>
      match validateConfig numberText typeText regExp (spec_config_schema (wn_spec n)) (JObj (nd_config (wn_data n))) with
      | found :: _ => Some (n, found)
      | [] => firstConfigIssue rest
      end
  end.

(** [edge.data?.compatibilityIssues] *)
Definition edgeIssues (e : WorkflowEdge) : list string := default [] (we_data e ≫= ed_compatibilityIssues).

Definition edgeIsIncompatible (executionNodeIds : list string) (e : WorkflowEdge) : bool :=
  negb (is_nil (edgeIssues e)) && bool_decide (we_source e ∈ executionNodeIds) && bool_decide (we_target e ∈ executionNodeIds).

Definition executionValidationIssue (scope : RunScope) (executionNodes : list WorkflowNode) (executionEdges : list WorkflowEdge)
    (origins : list GraphOrigin) : option ExecutionValidationIssue :=
  match executionNodes with
  | [] =>
      Some {| vi_nodeId := None;
              vi_message := match scope with
                            | scope_all => "Add at least one node before running the workflow."
                            | _ => "Select at least one node before running a selection."
                            end |}
  | _ =>
      match find (λ n, negb (workflowNodeIsSupported n)) executionNodes with
      | Some n => Some {| vi_nodeId := Some (wn_id n);
                          vi_message := "Cannot run " +:+ wn_title n +:+ ": " +:+ compatibilityIssue n |}
      | None =>
          match firstConfigIssue executionNodes with
          | Some (n, found) => Some {| vi_nodeId := Some (wn_id n);
                                       vi_message := "Cannot run " +:+ wn_title n +:+ ": " +:+ is_message found |}
          | None =>
              match find (edgeIsIncompatible (ids executionNodes)) executionEdges with
              | Some e => Some {| vi_nodeId := Some (we_target e);
                                  vi_message := "Cannot run connection " +:+ we_id e +:+ ": " +:+ Js.join " " (edgeIssues e) |}
              | None =>
                  match missingRequiredInputsFor executionNodes executionEdges origins with
                  | [] => None
                  | first :: _ =>
                      Some {| vi_nodeId := Some (mi_nodeId first);
                              vi_message := mi_nodeTitle first +:+ "." +:+ mi_portName first +:+
                                            " is required but unconnected in this run." |}
                  end
              end
          end
      end
  end.
End validation.

(** ** Theorems *)

(** [y] feeds [x]: an enabled edge from a known node [y]. *)
Definition reads_from (nodes : list WorkflowNode) (edges : list WorkflowEdge) (x y : string) : Prop :=
  y ∈ ids nodes ∧ ∃ e, e ∈ edges ∧ edgeEnabled e = true ∧ we_target e = x ∧ we_source e = y.

Lemma ancestorSource_Some known x e y :
  ancestorSource known x e = Some y ↔ edgeEnabled e = true ∧ we_target e = x ∧ we_source e = y ∧ y ∈ known.
Proof.
  unfold ancestorSource. destruct (edgeEnabled e); simpl; [|naive_solver].
  repeat case_bool_decide; simpl; naive_solver.
Qed.

Lemma selectedIds_in nodes i : i ∈ selectedIds nodes ↔ ∃ n, n ∈ nodes ∧ wn_selected n = Some true ∧ wn_id n = i.
Proof.
  unfold selectedIds. rewrite js_set_spec, list_elem_of_fmap. setoid_rewrite list_elem_of_filter.
  unfold nodeSelected. setoid_rewrite bool_decide_eq_true. naive_solver.
Qed.

Lemma ancestors_spec nodes edges :
  let known := ids nodes in
  drain (λ _, false) (ancestorSource known) edges (length nodes) (selectedIds nodes) (selectedIds nodes)
    = Some (selectedNodeAndAncestorIds nodes edges) ∧
  NoDup (selectedNodeAndAncestorIds nodes edges) ∧
  ∀ x, x ∈ selectedNodeAndAncestorIds nodes edges ↔ ∃ r, r ∈ selectedIds nodes ∧ rtc (reads_from nodes edges) r x.
Proof.
  cbv zeta. destruct (drain_exact (λ _, false) (ancestorSource (ids nodes)) edges (ids nodes) (selectedIds nodes))
    as (r & Hr & Hnd & Hspec).
  - apply js_set_NoDup.
  - intros i (n & Hn & _ & <-)%selectedIds_in. by apply (list_elem_of_fmap_2 wn_id).
  - intros src e k _ (_ & _ & _ & ?)%ancestorSource_Some. done.
  - replace (length (ids nodes)) with (length nodes) in Hr by (symmetry; apply length_fmap).
    unfold selectedNodeAndAncestorIds. rewrite Hr. cbn [default]. split_and!; [done..|]. intros x. rewrite Hspec.
    assert (∀ a b, rtc (wl_step (λ _, false) (ancestorSource (ids nodes)) edges) a b ↔ rtc (reads_from nodes edges) a b) as Hrtc.
    { intros a b. split; apply rtc_subrel; intros u w; unfold wl_step, reads_from; setoid_rewrite ancestorSource_Some; naive_solver. }
    by setoid_rewrite Hrtc.
Qed.

Lemma reads_from_active nodes edges x y :
  reads_from nodes (filter (λ e, edgeEnabled e = true) edges) x y ↔ reads_from nodes edges x y.
Proof. unfold reads_from. setoid_rewrite list_elem_of_filter. naive_solver. Qed.

(** A Run of the selection with its dependencies names exactly the selected
    nodes and everything they read from along enabled edges; the plan is closed: an
    enabled edge into it from a node of the canvas is part of it, with its source;
    and the targets are sent in canvas order, a node once. *)
Theorem plan_with_dependencies_is_closed nodes edges :
  let plan := executionSubgraphFor scope_selected_with_dependencies nodes edges in
  (∀ x, x ∈ ex_nodeIds plan ↔ ∃ r, r ∈ selectedIds nodes ∧ rtc (reads_from nodes edges) r x) ∧
  (∀ e, e ∈ edges → edgeEnabled e = true → we_target e ∈ ex_nodeIds plan → we_source e ∈ ids nodes →
        e ∈ ex_edges plan ∧ we_source e ∈ ids (ex_nodes plan)) ∧
  (runTargetsFor plan).*1 `sublist_of` ids nodes ∧
  (∀ x, x ∈ (runTargetsFor plan).*1 ↔ x ∈ ex_nodeIds plan).
Proof.
  cbv zeta. set (plan := executionSubgraphFor _ _ _). set (active := filter (λ e, edgeEnabled e = true) edges).
  assert (∀ x, x ∈ ex_nodeIds plan ↔ ∃ r, r ∈ selectedIds nodes ∧ rtc (reads_from nodes edges) r x) as Hids.
  { intros x. destruct (ancestors_spec nodes active) as (_ & _ & Hspec). change (ex_nodeIds plan) with (selectedNodeAndAncestorIds nodes active).
    rewrite Hspec. assert (∀ a b, rtc (reads_from nodes active) a b ↔ rtc (reads_from nodes edges) a b) as Hrtc.
    { intros a b. split; apply rtc_subrel; intros u w; apply reads_from_active. }
    by setoid_rewrite Hrtc. }
  assert (∀ x, x ∈ ids (ex_nodes plan) ↔ x ∈ ids nodes ∧ x ∈ ex_nodeIds plan) as Hnodes.
  { intros x. rewrite !elem_of_ids.
    change (ex_nodes plan) with (filter (λ n, wn_id n ∈ ex_nodeIds plan) nodes).
    setoid_rewrite list_elem_of_filter. change (ident (A := WorkflowNode)) with wn_id. naive_solver. }
  assert ((runTargetsFor plan).*1 = ids (ex_nodes plan)) as Htargets.
  { unfold runTargetsFor. rewrite <- list_fmap_compose. done. }
  split_and!; [done| | |].
  - intros e He Hen Ht Hs. assert (we_source e ∈ ex_nodeIds plan) as Hsrc.
    { apply Hids in Ht as (r & Hr & Hrt). apply Hids. exists r. split; [done|]. eapply rtc_r; [done|]. split; [done|]. by exists e. }
    split; [|by apply Hnodes].
    change (ex_edges plan) with (filter (λ e, we_source e ∈ ex_nodeIds plan ∧ we_target e ∈ ex_nodeIds plan) active).
    unfold active. by rewrite !list_elem_of_filter.
  - rewrite Htargets. unfold ids. apply fmap_sublist, sublist_filter.
  - intros x. rewrite Htargets, Hnodes. split; [by intros []|]. intros Hx. split; [|done].
    apply Hids in Hx as (r & (n & Hn & _ & <-)%selectedIds_in & Hrt).
    destruct (rtc_inv_r _ _ Hrt) as [<-|(z & _ & [Hx _])]; [|done]. by apply (list_elem_of_fmap_2 wn_id).
Qed.

(** ** Readiness *)

(** Something is connected at a plug: an enabled edge whose handle names the plug,
    or an authored value. *)
Definition plug_fed (edges : list WorkflowEdge) (origins : list GraphOrigin) (n : WorkflowNode) (port : Port)
    (plug : WorkflowInputPlug) : Prop :=
  (∃ e h, e ∈ edges ∧ we_enabled e ≠ Some false ∧ we_target e = wn_id n ∧
          decodeHandleId (we_targetHandle e) = Some h ∧ plugId h = Some (wp_id plug)) ∨
  (∃ o, o ∈ origins ∧ o_to_node o = wn_id n ∧ o_to_port o = port_name port ∧ o_to_plug o = Val (wp_id plug)).

Definition port_fed (edges : list WorkflowEdge) (origins : list GraphOrigin) (n : WorkflowNode) (port : Port) : Prop :=
  (∃ e h, e ∈ edges ∧ we_enabled e ≠ Some false ∧ we_target e = wn_id n ∧
          decodeHandleId (we_targetHandle e) = Some h ∧ portName h = port_name port) ∨
  (∃ o, o ∈ origins ∧ o_to_node o = wn_id n ∧ o_to_port o = port_name port ∧ ∀ k, o_to_plug o ≠ Val k).

(** A required port is ready: a collection needs one member, any other port with
    plugs all of them and at least one, a plain port its connection. *)
Definition port_ready (edges : list WorkflowEdge) (origins : list GraphOrigin) (n : WorkflowNode) (port : Port) : Prop :=
  port_required port = true →
  let plugs := inputPlugsForPort (wn_inputPlugs n) (port_name port) in
  if portHasInstancePlugs port then
    if isCollectionNode n then ∃ plug, plug ∈ plugs ∧ plug_fed edges origins n port plug
    else plugs ≠ [] ∧ ∀ plug, plug ∈ plugs → plug_fed edges origins n port plug
  else port_fed edges origins n port.

Lemma origin_slot o i port plug :
  originSatisfiesSlot o i port plug = true ↔ o_to_node o = i ∧ o_to_port o = port ∧ jsopt_to_option (o_to_plug o) = plug.
Proof. unfold originSatisfiesSlot. rewrite !andb_true_iff, !bool_decide_eq_true. tauto. Qed.

Lemma edge_into e i (P : Prop) `{Decision P} :
  edgeEnabled e && bool_decide (we_target e = i) && bool_decide P = true ↔ we_enabled e ≠ Some false ∧ we_target e = i ∧ P.
Proof. unfold edgeEnabled. rewrite !andb_true_iff, negb_true_iff, bool_decide_eq_false, !bool_decide_eq_true. tauto. Qed.

Lemma plugFilled_spec edges origins n port plug :
  plugFilled edges origins n port plug = true ↔ plug_fed edges origins n port plug.
Proof.
  unfold plugFilled, plug_fed. rewrite orb_true_iff, !existsb_elem. split.
  - intros [(e & He & (Hen & Ht & (h & Hh & Hp)%bind_Some)%edge_into)|(o & Ho & (Hi & Hp & Hk)%origin_slot)].
    + left. by exists e, h.
    + right. exists o. destruct (o_to_plug o); naive_solver.
  - intros [(e & h & He & Hen & Ht & Hh & Hp)|(o & Ho & Hi & Hp & Hk)].
    + left. exists e. rewrite edge_into, Hh. done.
    + right. exists o. rewrite origin_slot, Hk. done.
Qed.

Lemma portFilled_spec edges origins n port :
  portFilled edges origins n port = true ↔ port_fed edges origins n port.
Proof.
  unfold portFilled, port_fed. rewrite orb_true_iff, !existsb_elem. split.
  - intros [(e & He & (Hen & Ht & (h & Hh & Hp)%fmap_Some)%edge_into)|(o & Ho & (Hi & Hp & Hk)%origin_slot)].
    + left. by exists e, h.
    + right. exists o. destruct (o_to_plug o); naive_solver.
  - intros [(e & h & He & Hen & Ht & Hh & Hp)|(o & Ho & Hi & Hp & Hk)].
    + left. exists e. rewrite edge_into, Hh. cbn. by rewrite Hp.
    + right. exists o. rewrite origin_slot. destruct (o_to_plug o) as [| |k]; [done..|]. by destruct (Hk k).
Qed.

Lemma missingPlugs_nil filled n port k plugs :
  missingPlugs filled n port k plugs = [] ↔ ∀ plug, plug ∈ plugs → filled plug = true.
Proof.
  revert k. induction plugs as [|p plugs IH]; intros k; cbn [missingPlugs]; [by setoid_rewrite elem_of_nil|].
  setoid_rewrite elem_of_cons. destruct (filled p) eqn:Hp; [cbn [app]; rewrite IH; naive_solver|]. split; [done|].
  intros H. rewrite (H p) in Hp by by left. done.
Qed.

Lemma missing_port_nil edges origins n port :
  missingInputsOfPort edges origins n port = [] ↔ port_ready edges origins n port.
Proof.
  unfold missingInputsOfPort, port_ready. cbv zeta. destruct (portHasInstancePlugs port), (port_required port); cbn [negb]; try naive_solver.
  - set (plugs := inputPlugsForPort _ _). destruct (isCollectionNode n); setoid_rewrite <- plugFilled_spec.
    + rewrite <- existsb_elem. destruct plugs as [|p ps]; [naive_solver|]. destruct (existsb _ _); naive_solver.
    + destruct plugs as [|p ps]; [naive_solver|]. rewrite missingPlugs_nil. naive_solver.
  - rewrite <- portFilled_spec. destruct (portFilled _ _ _ _); naive_solver.
Qed.

Lemma missingPlugs_at filled n port k plugs m :
  m ∈ missingPlugs filled n port k plugs → mi_nodeId m = wn_id n ∧ mi_nodeTitle m = wn_title n.
Proof.
  revert k. induction plugs as [|p plugs IH]; intros k; cbn [missingPlugs]; [by intros ?%elem_of_nil|].
  rewrite elem_of_app. intros [Hm|Hm]; [|by eapply IH]. destruct (filled p); [by apply elem_of_nil in Hm|].
  by apply list_elem_of_singleton in Hm as ->.
Qed.

Lemma missing_port_at edges origins n port m :
  m ∈ missingInputsOfPort edges origins n port → mi_nodeId m = wn_id n ∧ mi_nodeTitle m = wn_title n.
Proof.
  unfold missingInputsOfPort. cbv zeta.
  repeat case_match; first [by intros ?%elem_of_nil|by intros ->%list_elem_of_singleton|by apply missingPlugs_at].
Qed.

Lemma missing_elem nodes edges origins m :
  m ∈ missingRequiredInputsFor nodes edges origins ↔
  ∃ n port, n ∈ nodes ∧ port ∈ wn_inputs n ∧ m ∈ missingInputsOfPort edges origins n port.
Proof.
  unfold missingRequiredInputsFor. rewrite list_elem_of_In, in_flat_map. setoid_rewrite in_flat_map.
  setoid_rewrite <- list_elem_of_In. naive_solver.
Qed.

Lemma missing_nil nodes edges origins :
  missingRequiredInputsFor nodes edges origins = [] ↔
  ∀ n port, n ∈ nodes → port ∈ wn_inputs n → port_ready edges origins n port.
Proof.
  setoid_rewrite <- missing_port_nil. split.
  - intros Hnil n port Hn Hp. destruct (missingInputsOfPort edges origins n port) as [|m l] eqn:Hm; [done|].
    assert (m ∈ missingRequiredInputsFor nodes edges origins) as H.
    { apply missing_elem. exists n, port. rewrite Hm. split_and!; [done..|by left]. }
    rewrite Hnil in H. by apply elem_of_nil in H.
  - intros Hall. destruct (missingRequiredInputsFor nodes edges origins) as [|m l] eqn:Hl; [done|].
    destruct (proj1 (missing_elem nodes edges origins m)) as (n & port & Hn & Hp & Hm); [rewrite Hl; by left|].
    rewrite (Hall n port Hn Hp) in Hm. by apply elem_of_nil in Hm.
Qed.

(** Nothing is reported missing exactly when every required port of every node
    is ready, and what is reported names a node with a port that is not. *)
Theorem missing_inputs_exact nodes edges origins :
  (missingRequiredInputsFor nodes edges origins = [] ↔
   ∀ n port, n ∈ nodes → port ∈ wn_inputs n → port_ready edges origins n port) ∧
  (∀ m, m ∈ missingRequiredInputsFor nodes edges origins →
        ∃ n port, n ∈ nodes ∧ port ∈ wn_inputs n ∧ ¬ port_ready edges origins n port ∧
                  mi_nodeId m = wn_id n ∧ mi_nodeTitle m = wn_title n).
Proof.
  split; [apply missing_nil|]. intros m (n & port & Hn & Hp & Hm)%missing_elem. exists n, port.
  pose proof (missing_port_at _ _ _ _ _ Hm). split_and!; [done|done| |tauto..].
  rewrite <- missing_port_nil. intros Hnil. rewrite Hnil in Hm. by apply elem_of_nil in Hm.
Qed.

(** ** A Run that may start *)

Lemma find_None_forall {A} (f : A → bool) l : find f l = None ↔ ∀ a, a ∈ l → f a = false.
Proof.
  induction l as [|a l IH]; cbn [find]; [by split; [intros _ a ?%elem_of_nil|]|]. setoid_rewrite elem_of_cons.
  destruct (f a) eqn:Hf; [split; [done|intros H; by rewrite H in Hf by by left]|]. rewrite IH. naive_solver.
Qed.

Section may_start.
Context (numberText : jsnum → string) (typeText : jsval → string) (regExp : string → option (string → bool)).

Definition config_conforms (n : WorkflowNode) : Prop :=
  ∀ schema, record (spec_config_schema (wn_spec n)) = Some schema →
            conforms numberText regExp schema (S SCHEMA_DEPTH_LIMIT) [] schema (JObj (nd_config (wn_data n))).

Lemma firstConfigIssue_None nodes :
  firstConfigIssue numberText typeText regExp nodes = None ↔ ∀ n, n ∈ nodes → config_conforms n.
Proof.
  induction nodes as [|n nodes IH]; cbn [firstConfigIssue]; [by split; [intros _ n ?%elem_of_nil|]|].
  pose proof (no_issue_iff numberText typeText regExp (spec_config_schema (wn_spec n)) (JObj (nd_config (wn_data n)))) as Hn.
  fold (config_conforms n) in Hn. setoid_rewrite elem_of_cons. destruct (validateConfig _ _ _ _ _) as [|i l].
  - rewrite IH. split; [|auto]. intros H m [->|Hm]; [by apply Hn|by apply H].
  - split; [done|]. intros H. apply Hn in H; [done|by left].
Qed.

Record may_start (executionNodes : list WorkflowNode) (executionEdges : list WorkflowEdge) (origins : list GraphOrigin) : Prop := {
  ms_some : executionNodes ≠ [];
  ms_supported : ∀ n, n ∈ executionNodes → nd_compatibility (wn_data n) = supported;
  ms_config : ∀ n, n ∈ executionNodes → config_conforms n;
  ms_edges : ∀ e, e ∈ executionEdges → we_source e ∈ ids executionNodes → we_target e ∈ ids executionNodes → edgeIssues e = [];
  ms_inputs : ∀ n port, n ∈ executionNodes → port ∈ wn_inputs n → port_ready executionEdges origins n port
}.

Lemma validation_passes scope executionNodes executionEdges origins :
  executionValidationIssue numberText typeText regExp scope executionNodes executionEdges origins = None ↔
  may_start executionNodes executionEdges origins.
Proof.
  unfold executionValidationIssue. destruct executionNodes as [|n0 rest]; [split; [done|by intros []]|].
  set (nodes := n0 :: rest). pose proof (find_None_forall (λ n, negb (workflowNodeIsSupported n)) nodes) as Hsup.
  pose proof (firstConfigIssue_None nodes) as Hconf.
  pose proof (find_None_forall (edgeIsIncompatible (ids nodes)) executionEdges) as Hedge.
  pose proof (missing_nil nodes executionEdges origins) as Hmiss.
  assert (∀ n, negb (workflowNodeIsSupported n) = false ↔ nd_compatibility (wn_data n) = supported) as Hs.
  { intros n. unfold workflowNodeIsSupported, data_is_supported. by destruct (nd_compatibility _). }
  assert (∀ e, edgeIsIncompatible (ids nodes) e = false ↔
               (we_source e ∈ ids nodes → we_target e ∈ ids nodes → edgeIssues e = [])) as He.
  { intros e. unfold edgeIsIncompatible. destruct (edgeIssues e) as [|i l]; cbn [is_nil negb andb]; [naive_solver|].
    rewrite andb_false_iff, !bool_decide_eq_false. split; [naive_solver|]. intros H.
    destruct (decide (we_source e ∈ ids nodes)); [|by left]. right. intros Ht. by specialize (H ltac:(done) Ht). }
  setoid_rewrite Hs in Hsup. setoid_rewrite He in Hedge.
  destruct (find _ nodes) as [n|]; [split; [done|]; intros [_ H _ _ _]; by apply Hsup in H|].
  destruct (firstConfigIssue numberText typeText regExp nodes) as [[n i]|]; [split; [done|]; intros [_ _ H _ _]; by apply Hconf in H|].
  destruct (find _ executionEdges) as [e|]; [split; [done|]; intros [_ _ _ H _]; by apply Hedge in H|].
  destruct (missingRequiredInputsFor nodes executionEdges origins) as [|m l].
  - split; [|done]. intros _. split; [done|by apply Hsup|by apply Hconf|by apply Hedge|by apply Hmiss].
  - split; [done|]. intros [_ _ _ _ H]. by apply Hmiss in H.
Qed.

(** C31: a Run is let through exactly when it names a node, its nodes are supported and
    their configurations conform to their schemas, no connection between two of them is
    incompatible, and every required input is connected. *)
Theorem run_starts_iff_valid scope executionNodes executionEdges origins :
  executionValidationIssue numberText typeText regExp scope executionNodes executionEdges origins = None ↔
  may_start executionNodes executionEdges origins.
Proof. apply validation_passes. Qed.
End may_start.
