(* ===== verification/Connections.v ===== *)
(** * Connections on the canvas ([model/graph-authoring.ts])

    Which connections the canvas accepts, in which collection mode, and what a
    node feeds.  The depth-first search that keeps the graph acyclic pops from the
    end of its list; here the top of the stack is the head.  It has fuel for one
    pop per edge and the start, which is proved enough. *)

From S2P Require Import Prelude Worklist Js JsText GraphModel Handles Routes Canvas InputPlugs.
From stdpp Require Import numbers list relations.

(** ** Shapes *)

Record GraphAuthoringConnection := {
  cn_source : string;
  cn_sourceHandle : option string;
  cn_target : string;
  cn_targetHandle : option string
}.

Definition cn_handles (c : GraphAuthoringConnection) : Connection :=
  {| sourceHandle := cn_sourceHandle c; targetHandle := cn_targetHandle c |}.

(** [decodeHandleId(edge.targetHandle)?.portName] and [?.plugId] *)
Definition edgePort (e : WorkflowEdge) : option string := portName <$> decodeHandleId (we_targetHandle e).
Definition edgePlug (e : WorkflowEdge) : option string := decodeHandleId (we_targetHandle e) ≫= plugId.

Definition mappedByEdge (nodeId : string) (includeDisabledEdges : bool) (e : WorkflowEdge) : option string :=
  if negb (bool_decide (we_target e = nodeId)) ||
     (negb includeDisabledEdges && bool_decide (we_enabled e = Some false)) ||
     negb (bool_decide (we_collectionMode e = Some MMap))
  then None
  else truthy (edgePort e).

Definition mappedInputPortsForNode (nodeId : string) (edges : list WorkflowEdge) (includeDisabledEdges : bool)
    (origins : list GraphOrigin) : list string :=
  omap (mappedByEdge nodeId includeDisabledEdges) edges ++
  (o_to_port <$> filter (λ o, o_to_node o = nodeId ∧ o_collection_mode o = MMap) origins).

Definition effectiveShapeForPort (node : WorkflowNode) (port : Port) (edges : list WorkflowEdge) (includeDisabledEdges : bool)
    (origins : list GraphOrigin) : PortShape :=
  effectivePortShape
    (with_mappedInputPorts (mappedInputPortsForNode (wn_id node) edges includeDisabledEdges origins) (wn_data node)) port.

(** [ports.find((port) => port.name === handle?.portName)] *)
Definition findPort (ports : list Port) (handle : option PortMeta) : option Port :=
  h ← handle; find (λ p, bool_decide (port_name p = portName h)) ports.

Definition collectionModesForConnection (connection : GraphAuthoringConnection) (nodes : list WorkflowNode)
    (edges : list WorkflowEdge) (origins : list GraphOrigin) : list CollectionMode :=
  match find_id (cn_source connection) nodes, find_id (cn_target connection) nodes with
  | Some sourceNode, Some targetNode =>
      if negb (workflowNodeIsSupported sourceNode) || negb (workflowNodeIsSupported targetNode) then []
      else
        match findPort (wn_outputs sourceNode) (decodeHandleId (cn_sourceHandle connection)),
              findPort (wn_inputs targetNode) (decodeHandleId (cn_targetHandle connection)) with
        | Some sourcePort, Some targetPort =>
            collectionModesForShapes (effectiveShapeForPort sourceNode sourcePort edges true origins) targetPort
                                     (effectiveShapeForPort targetNode targetPort edges true origins)
        | _, _ => []
        end
  | _, _ => []
  end.

Definition collectionModeForConnection (connection : GraphAuthoringConnection) (nodes : list WorkflowNode)
    (edges : list WorkflowEdge) (origins : list GraphOrigin) : option CollectionMode :=
  head (collectionModesForConnection connection nodes edges origins).

(** ** Acceptance *)

(** [edge.id !== existingEdgeId] *)
Definition otherEdge (existingEdgeId : option string) (e : WorkflowEdge) : bool :=
  negb (bool_decide (existingEdgeId = Some (we_id e))).

(** The edges pushed for a node, the last one on top. *)
Definition pushedTargets (existingEdgeId : option string) (edges : list WorkflowEdge) (nodeId : string) : list string :=
  reverse (we_target <$> filter (λ e, otherEdge existingEdgeId e = true ∧ we_source e = nodeId) edges).

(** The [while] loop: [Some true] when the source is met, [Some false] when the
    stack is empty, [None] out of fuel. *)
Fixpoint searchSource (existingEdgeId : option string) (edges : list WorkflowEdge) (source : string) (fuel : nat)
    (visited pending : list string) : option bool :=
  match pending with
  | [] => Some false
  | nodeId :: rest =>
      match fuel with
      | O => None
      | S fuel' =>
          if bool_decide (nodeId = "") || bool_decide (nodeId ∈ visited) then
            searchSource existingEdgeId edges source fuel' visited rest
          else if bool_decide (nodeId = source) then Some true
          else searchSource existingEdgeId edges source fuel' (nodeId :: visited) (pushedTargets existingEdgeId edges nodeId ++ rest)
      end
  end.

(** The source is met from the target: the connection would close a cycle. *)
Definition closesCycle (existingEdgeId : option string) (edges : list WorkflowEdge) (source target : string) : bool :=
  default true (searchSource existingEdgeId edges source (S (length edges)) [] [target]).

Section accepted.
Variable localeCompare : string → string → Z.

Definition isConnectionAccepted (connection : GraphAuthoringConnection) (nodes : list WorkflowNode) (edges : list WorkflowEdge)
    (artifactTypes : list ArtifactTypeSpec) (artifactConversions : list ArtifactConversionSpec)
    (existingEdgeId : option string) (origins : list GraphOrigin) : bool :=
  match collectionModeForConnection connection nodes edges origins with
  | None => false
  | Some collectionMode =>
      if bool_decide (connectionRoutesFor localeCompare (cn_handles connection) artifactTypes artifactConversions = []) then false
      else
        let targetHandle := decodeHandleId (cn_targetHandle connection) in
        match targetHandle, find_id (cn_target connection) nodes with
        | Some target, Some targetNode =>
            match findPort (wn_inputs targetNode) targetHandle with
            | None => false
            | Some port =>
                let plugKnown :=
                  if portHasInstancePlugs port then
                    match truthy (plugId target) with
                    | None => false
                    | Some k => existsb (λ p, bool_decide (wp_id p = k) && bool_decide (wp_portName p = port_name port))
                                        (wn_inputPlugs targetNode)
                    end
                  else bool_decide (truthy (plugId target) = None) in
                let mapTaken :=
                  bool_decide (collectionMode = MMap) &&
                  existsb (λ e, otherEdge existingEdgeId e && bool_decide (we_target e = cn_target connection) &&
                                bool_decide (edgePort e = Some (portName target)) &&
                                bool_decide (we_collectionMode e = Some MMap)) edges in
                if negb plugKnown || mapTaken ||
                   closesCycle existingEdgeId edges (cn_source connection) (cn_target connection) then false
                else if portHasInstancePlugs port then
                  negb (existsb (λ e, otherEdge existingEdgeId e && bool_decide (we_target e = cn_target connection) &&
                                      bool_decide (edgePlug e = plugId target)) edges)
                else if port_variadic port then true
                else negb (existsb (λ e, otherEdge existingEdgeId e && bool_decide (we_target e = cn_target connection) &&
                                         bool_decide (edgePort e = Some (portName target))) edges)
            end
        | _, _ => false
        end
  end.
End accepted.

(** ** What a node feeds *)

Definition descendantEnd (sourceNodeId : string) (e : WorkflowEdge) : option string :=
  if bool_decide (we_enabled e = Some false) || negb (bool_decide (we_source e = sourceNodeId)) then None
  else Some (we_target e).

(** Fuel: the node itself and one round per edge. *)
Definition nodeAndDescendantIds (nodeId : string) (edges : list WorkflowEdge) : list string :=
  default [nodeId] (drain (λ _, false) descendantEnd edges (S (length edges)) [nodeId] [nodeId]).

(** ** The search is exact *)

(** [y] is fed by [x], by an edge other than the one being replaced. *)
Definition feeds (existing : option string) (edges : list WorkflowEdge) (x y : string) : Prop :=
  ∃ e, e ∈ edges ∧ existing ≠ Some (we_id e) ∧ we_source e = x ∧ we_target e = y.

Lemma otherEdge_true existing e : otherEdge existing e = true ↔ existing ≠ Some (we_id e).
Proof. unfold otherEdge. by rewrite negb_true_iff, bool_decide_eq_false. Qed.

Lemma pushed_spec existing edges x y : y ∈ pushedTargets existing edges x ↔ feeds existing edges x y.
Proof.
  unfold pushedTargets, feeds. rewrite elem_of_reverse, list_elem_of_fmap. setoid_rewrite list_elem_of_filter.
  setoid_rewrite otherEdge_true. naive_solver.
Qed.

Section search.
Context (existing : option string) (edges : list WorkflowEdge) (source : string).

(** A step of the search: it does not go on from the empty id. *)
Definition search_step (x y : string) : Prop := x ≠ "" ∧ feeds existing edges x y.

Lemma searchSource_found fuel visited pending :
  searchSource existing edges source fuel visited pending = Some true →
  source ≠ "" ∧ ∃ p, p ∈ pending ∧ rtc search_step p source.
Proof.
  revert visited pending. induction fuel as [|fuel IH]; intros visited [|x rest]; cbn [searchSource]; try done.
  destruct (bool_decide (x = "") || bool_decide (x ∈ visited)) eqn:Hskip.
  - intros (? & p & Hp & Hr)%IH. split; [done|]. exists p. split; [by right|done].
  - apply orb_false_iff in Hskip as [Hx%bool_decide_eq_false _]. case_bool_decide as Hs.
    + intros _. subst. split; [done|]. exists source. split; [by left|done].
    + intros (? & p & [Hp|Hp]%elem_of_app & Hr)%IH; split; try done.
      * exists x. split; [by left|]. eapply rtc_l; [|exact Hr]. split; [done|]. by apply pushed_spec.
      * exists p. split; [by right|done].
Qed.

(** What a finished search has seen: a closed set without the source. *)
Lemma searchSource_exhausted fuel visited pending :
  (∀ x, x ∈ visited → x ≠ "" ∧ x ≠ source) →
  (∀ x y, x ∈ visited → feeds existing edges x y → y = "" ∨ y ∈ visited ∨ y ∈ pending) →
  searchSource existing edges source fuel visited pending = Some false →
  ∃ V : list string, (∀ x, x ∈ visited ∨ x ∈ pending → x = "" ∨ x ∈ V) ∧ (∀ x, x ∈ V → x ≠ "" ∧ x ≠ source) ∧
       ∀ x y, x ∈ V → feeds existing edges x y → y = "" ∨ y ∈ V.
Proof.
  revert visited pending. induction fuel as [|fuel IH]; intros visited [|x rest] Hv Hc; cbn [searchSource]; try done.
  1,2: intros _; exists visited; split_and!; [intros y [Hy|Hy%elem_of_nil]; tauto|done|];
       intros a b Ha Hab; destruct (Hc a b Ha Hab) as [|[|Hb%elem_of_nil]]; tauto.
  destruct (bool_decide (x = "") || bool_decide (x ∈ visited)) eqn:Hskip.
  - apply orb_true_iff in Hskip. rewrite !bool_decide_eq_true in Hskip.
    intros (V & HV & Hcl)%IH; [|done|].
    + exists V. split; [|done]. intros y [Hy|[->|Hy]%elem_of_cons]; [apply HV; tauto| |apply HV; tauto].
      destruct Hskip as [->|Hin]; [by left|]. apply HV. tauto.
    + intros a b Ha Hab. destruct (Hc a b Ha Hab) as [|[|[->|]%elem_of_cons]]; tauto.
  - apply orb_false_iff in Hskip as [Hx%bool_decide_eq_false Hnv%bool_decide_eq_false]. case_bool_decide as Hs; [done|].
    intros (V & HV & Hcl)%IH.
    + exists V. split; [|done]. intros y Hy. apply HV. rewrite elem_of_cons, elem_of_app. rewrite elem_of_cons in Hy. tauto.
    + intros y [->|Hy]%elem_of_cons; [done|auto].
    + intros a b Ha Hab. rewrite elem_of_cons, elem_of_app. apply elem_of_cons in Ha as [->|Ha].
      * right. right. left. by apply pushed_spec.
      * destruct (Hc a b Ha Hab) as [|[|[->|]%elem_of_cons]]; tauto.
Qed.

(** The edges whose source the search has not expanded. *)
Definition unexpanded (visited : list string) : list WorkflowEdge :=
  filter (λ e, we_source e ∉ visited) (filter (λ e, otherEdge existing e = true) edges).

Lemma unexpanded_cons x visited :
  x ∉ visited → length (unexpanded visited) = length (unexpanded (x :: visited)) + length (pushedTargets existing edges x).
Proof.
  intros Hx. unfold unexpanded, pushedTargets. rewrite length_reverse, length_fmap.
  induction edges as [|e l IH]; [done|]. rewrite !(filter_cons _ e l). destruct (decide (otherEdge existing e = true)) as [Ho|Ho].
  - rewrite !filter_cons. destruct (decide (we_source e = x)) as [->|Hne].
    + rewrite decide_True by done. rewrite decide_False by set_solver. rewrite decide_True by done. cbn. lia.
    + rewrite (decide_False (P := otherEdge existing e = true ∧ we_source e = x)) by tauto.
      destruct (decide (we_source e ∈ visited)).
      * rewrite !decide_False by set_solver. lia.
      * rewrite !decide_True by set_solver. cbn. lia.
  - rewrite decide_False by tauto. done.
Qed.

Lemma searchSource_enough fuel visited pending :
  length pending + length (unexpanded visited) ≤ fuel →
  ∃ b, searchSource existing edges source fuel visited pending = Some b.
Proof.
  revert visited pending. induction fuel as [|fuel IH]; intros visited [|x rest] Hf; cbn [searchSource]; eauto; [cbn in Hf; lia|].
  destruct (bool_decide (x = "") || bool_decide (x ∈ visited)) eqn:Hskip; [apply IH; cbn in Hf; lia|].
  apply orb_false_iff in Hskip as [_ Hnv%bool_decide_eq_false]. case_bool_decide; [eauto|]. apply IH.
  pose proof (unexpanded_cons x visited Hnv). rewrite length_app. cbn in Hf. lia.
Qed.

(** The source is met exactly when the target reaches it. *)
Lemma closesCycle_exact target :
  closesCycle existing edges source target = true ↔ source ≠ "" ∧ rtc search_step target source.
Proof.
  unfold closesCycle. destruct (searchSource_enough (S (length edges)) [] [target]) as [b Hb].
  { cbn. pose proof (length_filter (λ e, we_source e ∉ []) (filter (λ e, otherEdge existing e = true) edges)).
    pose proof (length_filter (λ e, otherEdge existing e = true) edges). unfold unexpanded. lia. }
  rewrite Hb. cbn. split.
  - intros ->. apply searchSource_found in Hb as (? & p & ->%list_elem_of_singleton & ?). done.
  - intros [Hs Hr]. destruct b; [done|]. exfalso.
    destruct (searchSource_exhausted _ _ _ (λ x Hx, False_ind _ (not_elem_of_nil x Hx))
      (λ x y Hx _, False_ind _ (not_elem_of_nil x Hx)) Hb) as (V & HV & Hno & Hcl).
    assert (∀ x, rtc search_step x source → x ∈ V → False) as Hpath.
    { intros x Hx. induction Hx as [|x y z [_ Hxy] Hyz IH]; intros HxV; [by apply Hno in HxV as []|].
      destruct (Hcl x y HxV Hxy) as [->|HyV]; [|by apply IH].
      apply rtc_inv in Hyz as [?|(w & [? _] & _)]; [by subst|done]. }
    destruct (HV target) as [->|Ht]; [right; by left| |by eapply Hpath].
    apply rtc_inv in Hr as [?|(w & [? _] & _)]; [by subst|done].
Qed.
End search.

(** ** The edges of a canvas *)

Lemma tc_mono {A} (R R' : relation A) x y : (∀ a b, R a b → R' a b) → tc R x y → tc R' x y.
Proof. intros HR. induction 1; [by apply tc_once, HR|eapply tc_l; [by apply HR|done]]. Qed.

(** Adding one pair to a relation: a path is an old one or goes through the pair. *)
Lemma tc_extend {A} (R R' : relation A) s t x y :
  (∀ a b, R' a b → R a b ∨ (a = s ∧ b = t)) → tc R' x y → tc R x y ∨ (rtc R x s ∧ rtc R t y).
Proof.
  intros HR. induction 1 as [x y Hxy|x y z Hxy Hyz IH].
  - destruct (HR x y Hxy) as [|[-> ->]]; [left; by apply tc_once|right; done].
  - destruct (HR x y Hxy) as [Hxy'|[-> ->]].
    + destruct IH as [IH|[IH1 IH2]]; [left; by eapply tc_l|right; split; [by eapply rtc_l|done]].
    + destruct IH as [IH|[IH1 IH2]]; right; split; [done|by apply tc_rtc|done|done].
Qed.

(** The edges left when one is replaced. *)
Definition without_edge (existing : option string) (edges : list WorkflowEdge) : list WorkflowEdge :=
  filter (λ e, existing ≠ Some (we_id e)) edges.

Lemma feeds_without existing edges x y : feeds None (without_edge existing edges) x y ↔ feeds existing edges x y.
Proof. unfold feeds, without_edge. setoid_rewrite list_elem_of_filter. naive_solver. Qed.

Section canvas.
Context (localeCompare : string → string → Z) (nodes : list WorkflowNode) (artifactTypes : list ArtifactTypeSpec)
  (conversions : list ArtifactConversionSpec).

Notation accepted := (isConnectionAccepted localeCompare).

(** The edge [onConnect] makes of a connection: canonical handles name the same
    port and plug; the mode is the default one. *)
Definition made_from (c : GraphAuthoringConnection) (edges : list WorkflowEdge) (origins : list GraphOrigin) (e : WorkflowEdge) : Prop :=
  we_source e = cn_source c ∧ we_target e = cn_target c ∧
  edgePort e = portName <$> decodeHandleId (cn_targetHandle c) ∧
  edgePlug e = (decodeHandleId (cn_targetHandle c) ≫= plugId) ∧
  we_collectionMode e = collectionModeForConnection c nodes edges origins.

(** Two edges with the same end. *)
Definition same_wire (e e' : WorkflowEdge) : Prop :=
  we_id e = we_id e' ∧ we_source e = we_source e' ∧ we_target e = we_target e' ∧
  edgePort e = edgePort e' ∧ edgePlug e = edgePlug e' ∧ we_collectionMode e = we_collectionMode e'.

(** How the edges of a canvas come about: a connection that is accepted, new or in
    place of an old edge; edges go; an edge is switched off or routed elsewhere. *)
Inductive canvas_edges : list WorkflowEdge → Prop :=
| canvas_empty : canvas_edges []
| canvas_connect edges origins c e :
    canvas_edges edges → accepted c nodes edges artifactTypes conversions None origins = true →
    made_from c edges origins e → we_id e ∉ ids edges → canvas_edges (edges ++ [e])
| canvas_reconnect edges origins c e :
    canvas_edges edges → accepted c nodes edges artifactTypes conversions (Some (we_id e)) origins = true →
    made_from c edges origins e → canvas_edges (without_edge (Some (we_id e)) edges ++ [e])
| canvas_remove edges edges' : canvas_edges edges → edges' `sublist_of` edges → canvas_edges edges'
| canvas_update edges edges' : canvas_edges edges → Forall2 same_wire edges edges' → canvas_edges edges'.

(** Two edges may share an input only where the port takes several. *)
Definition may_share (e1 e2 : WorkflowEdge) : Prop :=
  we_target e1 = we_target e2 → edgePort e1 = edgePort e2 →
  ∀ n port, find_id (we_target e1) nodes = Some n →
            find (λ p, bool_decide (Some (port_name p) = edgePort e1)) (wn_inputs n) = Some port →
  ¬ (we_collectionMode e1 = Some MMap ∧ we_collectionMode e2 = Some MMap) ∧
  if portHasInstancePlugs port then edgePlug e1 ≠ edgePlug e2 else port_variadic port = true.

Record canvas_ok (edges : list WorkflowEdge) : Prop := {
  co_known : ∀ e, e ∈ edges → we_source e ∈ ids nodes ∧ we_target e ∈ ids nodes;
  co_acyclic : ∀ x, ¬ tc (feeds None edges) x x;
  co_inputs : ∀ e1 e2, e1 ∈ edges → e2 ∈ edges → we_id e1 ≠ we_id e2 → may_share e1 e2
}.

Lemma may_share_sym e1 e2 : may_share e1 e2 → may_share e2 e1.
Proof.
  intros H Ht Hp n port Hn Hport. rewrite Ht in Hn. rewrite Hp in Hport.
  specialize (H (eq_sym Ht) (eq_sym Hp) n port Hn Hport) as [Hm H]. split; [tauto|]. by destruct (portHasInstancePlugs port).
Qed.

Lemma find_ext {A} (f g : A → bool) l : (∀ a, f a = g a) → find f l = find g l.
Proof. intros Hfg. induction l as [|a l IH]; [done|]. cbn. rewrite Hfg, IH. done. Qed.

Lemma findPort_at ports h :
  findPort ports (Some h) = find (λ p, bool_decide (Some (port_name p) = Some (portName h))) ports.
Proof. cbn [findPort mbind option_bind]. apply find_ext. intros p. apply bool_decide_ext. split; [by intros ->|by intros [= ->]]. Qed.

(** What acceptance guarantees. *)
Lemma accepted_inv c edges existing origins :
  accepted c nodes edges artifactTypes conversions existing origins = true →
  cn_source c ∈ ids nodes ∧ cn_target c ∈ ids nodes ∧
  closesCycle existing edges (cn_source c) (cn_target c) = false ∧
  ∃ h n port, decodeHandleId (cn_targetHandle c) = Some h ∧ find_id (cn_target c) nodes = Some n ∧
    findPort (wn_inputs n) (Some h) = Some port ∧
    ∀ e, e ∈ edges → existing ≠ Some (we_id e) → we_target e = cn_target c → edgePort e = Some (portName h) →
      ¬ (collectionModeForConnection c nodes edges origins = Some MMap ∧ we_collectionMode e = Some MMap) ∧
      if portHasInstancePlugs port then edgePlug e ≠ plugId h else port_variadic port = true.
Proof.
  unfold isConnectionAccepted. destruct (collectionModeForConnection c nodes edges origins) as [mode|] eqn:Hmode; [|done].
  case_bool_decide; [done|]. cbv zeta. destruct (decodeHandleId (cn_targetHandle c)) as [h|] eqn:Hh; [|done].
  destruct (find_id (cn_target c) nodes) as [n|] eqn:Hn; [|done].
  destruct (findPort (wn_inputs n) (Some h)) as [port|] eqn:Hport; [|done].
  set (known := if portHasInstancePlugs port then _ else _). set (taken := bool_decide (mode = MMap) && _).
  destruct (negb known || taken || closesCycle existing edges (cn_source c) (cn_target c)) eqn:Hguard; [done|].
  apply orb_false_iff in Hguard as [[_ Htaken]%orb_false_iff Hcycle]. intros Hslot.
  split_and!; [| |done|].
  - unfold collectionModeForConnection, collectionModesForConnection in Hmode.
    destruct (find_id (cn_source c) nodes) eqn:Hs; [|done]. apply find_id_is_Some. by eexists.
  - apply find_id_is_Some. by eexists.
  - exists h, n, port. split_and!; [done..|]. intros e He Hne Ht Hp.
    assert (otherEdge existing e = true) as Hoe by by apply otherEdge_true. split.
    + intros [[= ->] Hm]. unfold taken in Htaken. rewrite bool_decide_true in Htaken by done. cbn in Htaken.
      apply (existsb_none _ _ e) in Htaken; [|done]. cbn in Htaken. by rewrite Hoe, !bool_decide_true in Htaken.
    + destruct (portHasInstancePlugs port).
      * intros Hk. apply negb_true_iff in Hslot. apply (existsb_none _ _ e) in Hslot; [|done]. cbn in Hslot.
        by rewrite Hoe, !bool_decide_true in Hslot.
      * destruct (port_variadic port); [done|]. apply negb_true_iff in Hslot. apply (existsb_none _ _ e) in Hslot; [|done].
        cbn in Hslot. by rewrite Hoe, !bool_decide_true in Hslot.
Qed.

Hypothesis nodes_named : Forall (λ n, wn_id n ≠ "") nodes.

Lemma known_not_empty i : i ∈ ids nodes → i ≠ "".
Proof. intros (n & Hn & <-)%elem_of_ids. rewrite Forall_forall in nodes_named. by apply nodes_named. Qed.

Lemma canvas_ok_add edges existing origins c e :
  canvas_ok edges → accepted c nodes edges artifactTypes conversions existing origins = true → made_from c edges origins e →
  canvas_ok (without_edge existing edges ++ [e]).
Proof.
  intros [Hknown Hacyc Hin] (Hs & Ht & Hcycle & h & n & port & Hh & Hn & Hport & Hslot)%accepted_inv (Hes & Het & Hep & Hek & Hem).
  rewrite Hh in Hep, Hek. cbn in Hep, Hek.
  assert (∀ e', e' ∈ without_edge existing edges ++ [e] ↔ (e' ∈ edges ∧ existing ≠ Some (we_id e')) ∨ e' = e) as Helem.
  { intros e'. unfold without_edge. rewrite elem_of_app, list_elem_of_filter, list_elem_of_singleton. tauto. }
  split.
  - intros e' He'. apply Helem in He' as [[He' _]|He']; [auto|]. subst e'. by rewrite Hes, Het.
  - intros x Hx. apply (tc_extend (feeds existing edges) _ (we_source e) (we_target e)) in Hx as [Hold|[Hxs Htx]].
    + apply (Hacyc x). revert Hold. apply tc_mono. intros a b (e' & He' & _ & Ha & Hb). by exists e'.
    + assert (closesCycle existing edges (cn_source c) (cn_target c) = true) as Hc; [|congruence].
      apply closesCycle_exact. split; [by apply known_not_empty|]. rewrite Hes, Het in *.
      assert (rtc (feeds existing edges) (cn_target c) (cn_source c)) as Hp by by etrans.
      revert Hp. apply rtc_subrel. intros a b (e' & He' & Hne & <- & <-). split; [|by exists e'].
      apply known_not_empty. by apply Hknown.
    + intros a b (e' & He' & _ & <- & <-). apply Helem in He' as [[He' Hne]|He']; [left; by exists e'|subst; by right].
  - assert (∀ e', e' ∈ edges → existing ≠ Some (we_id e') → may_share e' e) as Hnew.
    { intros e' He' Hne Htt Hpp n' port' Hn' Hport'. rewrite Htt, Het, Hn in Hn'. injection Hn' as <-.
      rewrite Hpp, Hep, <- findPort_at, Hport in Hport'. injection Hport' as <-.
      destruct (Hslot e' He' Hne) as [Hm Hsl]; [by rewrite Htt|by rewrite Hpp|]. rewrite Hem, Hek. split; [tauto|done]. }
    intros e1 e2 H1 H2 Hids. apply Helem in H1 as [[H1 Hn1]|H1], H2 as [[H2 Hn2]|H2]; subst;
      [by apply Hin|by apply Hnew|by apply may_share_sym, Hnew|done].
Qed.

Lemma canvas_ok_sublist edges edges' : canvas_ok edges → edges' `sublist_of` edges → canvas_ok edges'.
Proof.
  intros [Hknown Hacyc Hin] Hsub. assert (∀ e, e ∈ edges' → e ∈ edges) as Hel.
  { intros e He. eapply elem_of_submseteq; [done|by apply sublist_submseteq]. }
  split; [auto| |auto]. intros x Hx. apply (Hacyc x). revert Hx. apply tc_mono. intros a b (e & He & ?). exists e. auto.
Qed.

Lemma canvas_ok_update edges edges' : canvas_ok edges → Forall2 same_wire edges edges' → canvas_ok edges'.
Proof.
  intros [Hknown Hacyc Hin] H2. assert (∀ e', e' ∈ edges' → ∃ e, e ∈ edges ∧ same_wire e e') as Hel.
  { intros e' [k Hk]%list_elem_of_lookup. eapply Forall2_lookup_r in H2 as (e & He & Hs); [|done].
    exists e. split; [by eapply list_elem_of_lookup_2|done]. }
  split.
  - intros e' He'. destruct (Hel e' He') as (e & He & _ & <- & <- & _). auto.
  - intros x Hx. apply (Hacyc x). revert Hx. apply tc_mono. intros a b (e' & He' & _ & <- & <-).
    destruct (Hel e' He') as (e & He & Hi & Hs & Ht & _). exists e. done.
  - intros e1' e2' H1 H2' Hids. destruct (Hel e1' H1) as (e1 & He1 & Hi1 & _ & Ht1 & Hp1 & Hk1 & Hm1).
    destruct (Hel e2' H2') as (e2 & He2 & Hi2 & _ & Ht2 & Hp2 & Hk2 & Hm2). rewrite <- Hi1, <- Hi2 in Hids.
    unfold may_share. rewrite <- Ht1, <- Ht2, <- Hp1, <- Hp2, <- Hk1, <- Hk2, <- Hm1, <- Hm2. by apply Hin.
Qed.

(** C5: on a canvas whose edges all came about by accepted connections, in any order
    with removals, replacements and switches, the graph has no cycle, every edge joins
    two nodes of the canvas, a plain input has one edge, a plug has one edge, and a port
    is mapped by one edge at most. *)
Theorem accepted_connections_keep_the_canvas_sound edges : canvas_edges edges → canvas_ok edges.
Proof.
  induction 1 as [|edges origins c e _ IH Hacc Hmade _|edges origins c e _ IH Hacc Hmade|edges edges' _ IH Hsub|edges edges' _ IH H2].
  - split; [by intros e ?%elem_of_nil| |by intros e1 e2 ?%elem_of_nil]. intros x Hx.
    apply tc_rtc_l with (x := x) in Hx; [|done]. destruct Hx as [x y (e & ?%elem_of_nil & _)|x y z (e & ?%elem_of_nil & _)]; done.
  - pose proof (canvas_ok_add edges None origins c e IH Hacc Hmade) as H.
    by replace (without_edge None edges) with edges in H by (symmetry; by apply filter_all).
  - by eapply canvas_ok_add.
  - by eapply canvas_ok_sublist.
  - by eapply canvas_ok_update.
Qed.
End canvas.

(** ** Descendants *)

(** [x] feeds [y] along an edge that is not switched off. *)
Definition feeds_enabled (edges : list WorkflowEdge) (x y : string) : Prop :=
  ∃ e, e ∈ edges ∧ we_enabled e ≠ Some false ∧ we_source e = x ∧ we_target e = y.

Lemma descendantEnd_Some x e y : descendantEnd x e = Some y ↔ we_enabled e ≠ Some false ∧ we_source e = x ∧ we_target e = y.
Proof. unfold descendantEnd. repeat case_bool_decide; cbn; naive_solver. Qed.

(** The work list stops by itself and returns the node and everything it feeds
    along enabled edges, each once, also when the edges form cycles. *)
Theorem node_and_descendants_exact nodeId edges :
  is_Some (drain (λ _, false) descendantEnd edges (S (length edges)) [nodeId] [nodeId]) ∧
  NoDup (nodeAndDescendantIds nodeId edges) ∧
  ∀ x, x ∈ nodeAndDescendantIds nodeId edges ↔ rtc (feeds_enabled edges) nodeId x.
Proof.
  destruct (drain_exact (λ _, false) descendantEnd edges (nodeId :: (we_target <$> edges)) [nodeId]) as (r & Hr & Hnd & Hspec).
  - apply NoDup_singleton.
  - intros k ->%list_elem_of_singleton. by left.
  - intros src e k He (_ & _ & <-)%descendantEnd_Some. right. by apply list_elem_of_fmap_2.
  - cbn [length] in Hr. rewrite length_fmap in Hr. unfold nodeAndDescendantIds. rewrite Hr. cbn [default].
    split_and!; [by eexists|done|]. intros x. rewrite Hspec. setoid_rewrite list_elem_of_singleton.
    assert (∀ a b, rtc (wl_step (λ _, false) descendantEnd edges) a b ↔ rtc (feeds_enabled edges) a b) as Hrtc.
    { intros a b. split; apply rtc_subrel; intros u w; unfold wl_step, feeds_enabled; setoid_rewrite descendantEnd_Some; naive_solver. }
    setoid_rewrite Hrtc. naive_solver.
Qed.

(** ** Witness: a text node that feeds itself through a second one *)

Definition text_type : ArtifactTypeIdentity := {| ty_id := "scalar.text"; ty_schema_version := 1 |}.

Definition text_port (dir : PortDirection) : Port :=
  {| port_name := "text"; port_title := None; port_direction := dir; port_shape := one; port_accepted_shapes := [one];
     port_variadic := false; port_required := true; port_instance_plugs := false; port_shape_field := None;
     port_artifact_type := Some text_type; port_artifact_type_variable := None; port_also_accepts := [] |}.

Definition text_node (i : string) : WorkflowNode :=
  {| wn_id := i; wn_selected := None; wn_position := {| pt_x := num 0; pt_y := num 0 |};
     wn_data :=
       {| nd_spec := {| spec_operator_id := "text.trim"; spec_operator_version := num 1; spec_title := "Trim";
                        spec_inputs := [text_port input]; spec_outputs := [text_port output]; spec_config_schema := JObj [];
                        spec_secret_inputs := JUndefined |};
          nd_compatibility := supported; nd_artifactTypeBindings := []; nd_inputPlugs := []; nd_mappedInputPorts := [];
          nd_config := []; nd_layout := None; nd_run := None; nd_execution := idleExecution; nd_progress := None;
          nd_x := JUndefined; nd_y := JUndefined |} |}.

Definition text_handle (dir : PortDirection) : option string :=
  encodeHandleId <$> portMetaForPort (text_port dir) one None [].

Definition text_connection (source target : string) : GraphAuthoringConnection :=
  {| cn_source := source; cn_sourceHandle := text_handle output; cn_target := target; cn_targetHandle := text_handle input |}.

Definition text_edge (i source target : string) : WorkflowEdge :=
  {| we_id := i; we_source := source; we_target := target; we_sourceHandle := text_handle output;
     we_targetHandle := text_handle input;
     we_data := Some {| ed_enabled := true; ed_collectionMode := MDirect; ed_projection := None; ed_conversionPath := None;
                        ed_routeOffset := None; ed_sourcePortName := None; ed_targetPortName := None; ed_targetPlugId := None;
                        ed_compatibilityIssues := None |} |}.

Definition text_nodes : list WorkflowNode := [text_node "a"; text_node "b"].

(** The way back is refused, and so is a second edge into the input. *)
Example cycle_is_refused :
  isConnectionAccepted (λ _ _, 0%Z) (text_connection "b" "a") text_nodes [text_edge "e" "a" "b"] [] [] None [] = false ∧
  isConnectionAccepted (λ _ _, 0%Z) (text_connection "a" "b") text_nodes [text_edge "e" "a" "b"] [] [] None [] = false ∧
  isConnectionAccepted (λ _ _, 0%Z) (text_connection "a" "b") text_nodes [text_edge "e" "a" "b"] [] [] (Some "e") [] = true.
Proof. split_and!; vm_compute; reflexivity. Qed.

Lemma accepted_connections_keep_the_canvas_sound_witness :
  canvas_edges (λ _ _, 0%Z) text_nodes [] [] [text_edge "e" "a" "b"] ∧ canvas_ok text_nodes [text_edge "e" "a" "b"].
Proof.
  assert (canvas_edges (λ _ _, 0%Z) text_nodes [] [] [text_edge "e" "a" "b"]) as H.
  { apply (canvas_connect _ _ _ _ [] [] (text_connection "a" "b")); [constructor|vm_compute; reflexivity| |by apply not_elem_of_nil].
    split_and!; vm_compute; reflexivity. }
  split; [exact H|]. apply (accepted_connections_keep_the_canvas_sound (λ _ _, 0%Z) text_nodes [] []); [|exact H].
  by repeat constructor.
Defined.
