(* ===== verification/LibrarySelection.v ===== *)
(** * Selection in the Library panel ([ui/side-panel/library-selection.ts])

    The selected artifacts and the row a range is measured from, as a state
    machine over gestures and refreshes. *)

From S2P Require Import Prelude.
From stdpp Require Import list sorting.

(** ** State and gestures *)

Inductive LibrarySelectionGesture := plain | toggle | range.

#[export] Instance gesture_eq_dec : EqDecision LibrarySelectionGesture.
Proof. solve_decision. Defined.

Record LibrarySelection := { sel_ids : list string; sel_anchor : option string }.

Definition emptyLibrarySelection : LibrarySelection := {| sel_ids := []; sel_anchor := None |}.

Definition isLibraryItemSelected (selection : LibrarySelection) (artifactId : string) : bool :=
  bool_decide (artifactId ∈ sel_ids selection).

Definition libraryClickGesture (metaKey ctrlKey shiftKey : bool) : LibrarySelectionGesture :=
  if shiftKey then range else if metaKey || ctrlKey then toggle else plain.

(** [list.indexOf(id)], [None] for -1 *)
Definition indexOf (l : list string) (i : string) : option nat := fst <$> list_find (eq i) l.

Definition applyLibrarySelection (selection : LibrarySelection) (artifactId : string) (gesture : LibrarySelectionGesture)
    (visible : list string) : LibrarySelection :=
  let only := {| sel_ids := [artifactId]; sel_anchor := Some artifactId |} in
  match gesture with
  | plain => only
  | toggle =>
      let ids := if bool_decide (artifactId ∈ sel_ids selection) then filter (λ i, i ≠ artifactId) (sel_ids selection)
                 else sel_ids selection ++ [artifactId] in
      match ids with
      | [] => emptyLibrarySelection
      | _ => {| sel_ids := ids; sel_anchor := Some artifactId |}
      end
  | range =>
      match sel_anchor selection ≫= indexOf visible, indexOf visible artifactId with
      | Some from, Some to =>
          let '(start, stop) := if from <=? to then (from, to) else (to, from) in
          {| sel_ids := take (stop + 1 - start) (drop start visible); sel_anchor := sel_anchor selection |}
      | _, _ => only
      end
  end.

(** The object itself comes back when nothing changed; the model keeps the value. *)
Definition pruneLibrarySelection (selection : LibrarySelection) (existingIds : list string) : LibrarySelection :=
  let ids := filter (λ i, i ∈ existingIds) (sel_ids selection) in
  match ids with
  | [] => match sel_ids selection, sel_anchor selection with
          | [], None => selection
          | _, _ => emptyLibrarySelection
          end
  | first :: rest =>
      let anchor :=
        match sel_anchor selection with
        | Some a => if bool_decide (a ∈ existingIds) then Some a
                    else match rest with [] => Some first | _ => None end
        | None => match rest with [] => Some first | _ => None end
        end in
      if bool_decide (anchor = sel_anchor selection) && (length ids =? length (sel_ids selection)) &&
         bool_decide (ids = take (length ids) (sel_ids selection))
      then selection
      else {| sel_ids := ids; sel_anchor := anchor |}
  end.

Definition removeFromLibrarySelection (selection : LibrarySelection) (artifactIds : list string) : LibrarySelection :=
  let ids := filter (λ i, i ∉ artifactIds) (sel_ids selection) in
  if length ids =? length (sel_ids selection) then selection
  else match ids with
       | [] => emptyLibrarySelection
       | _ => {| sel_ids := ids;
                 sel_anchor := match sel_anchor selection with
                               | Some a => if bool_decide (a ∈ artifactIds) then None else Some a
                               | None => None
                               end |}
       end.

Definition orderedLibrarySelection (selection : LibrarySelection) (visible : list string) : list string :=
  let shown := filter (λ i, i ∈ sel_ids selection) visible in
  shown ++ filter (λ i, i ∉ shown) (sel_ids selection).

(** ** Lemmas *)

Lemma indexOf_Some l i k : indexOf l i = Some k ↔ l !! k = Some i ∧ ∀ j, j < k → l !! j ≠ Some i.
Proof.
  unfold indexOf. rewrite fmap_Some. split.
  - intros ([k' a] & Hf & ->). apply list_find_Some in Hf as (Hk & <- & Hb). split; [done|].
    intros j Hj Hl. by eapply Hb.
  - intros [Hk Hb]. exists (k, i). split; [|done]. apply list_find_Some. split_and!; [done..|].
    intros j b Hj Hlt <-. by apply (Hb j).
Qed.

Lemma pruned_ids selection existing :
  sel_ids (pruneLibrarySelection selection existing) = filter (λ i, i ∈ existing) (sel_ids selection).
Proof.
  unfold pruneLibrarySelection. cbv zeta. destruct (filter _ (sel_ids selection)) as [|i l] eqn:Hf.
  - by destruct (sel_ids selection) eqn:E, (sel_anchor selection).
  - destruct (_ && _ && _) eqn:Hsame; [|done]. apply andb_true_iff in Hsame as [[_ Hlen%Nat.eqb_eq]%andb_true_iff Heq%bool_decide_eq_true].
    rewrite Heq, Hlen. by rewrite firstn_all.
Qed.

Lemma removed_ids selection gone :
  sel_ids (removeFromLibrarySelection selection gone) = filter (λ i, i ∉ gone) (sel_ids selection).
Proof.
  unfold removeFromLibrarySelection. cbv zeta. destruct (Nat.eqb_spec (length (filter (λ i, i ∉ gone) (sel_ids selection))) (length (sel_ids selection))) as [Hlen|_].
  - by rewrite filter_same_length.
  - by destruct (filter _ _).
Qed.

(** ** Theorems *)

(** How a selection comes about: gestures on rows the tree shows, each row once,
    refreshes and deletions. *)
Inductive selection_step : LibrarySelection → LibrarySelection → Prop :=
| step_gesture selection artifactId gesture visible :
    NoDup visible → selection_step selection (applyLibrarySelection selection artifactId gesture visible)
| step_prune selection existing : selection_step selection (pruneLibrarySelection selection existing)
| step_remove selection gone : selection_step selection (removeFromLibrarySelection selection gone).

Lemma range_ids selection i visible from to :
  (sel_anchor selection ≫= indexOf visible) = Some from → indexOf visible i = Some to →
  applyLibrarySelection selection i range visible =
  {| sel_ids := take (Nat.max from to + 1 - Nat.min from to) (drop (Nat.min from to) visible); sel_anchor := sel_anchor selection |}.
Proof.
  intros Hf Ht. unfold applyLibrarySelection. rewrite Hf, Ht. destruct (Nat.leb_spec from to).
  - by rewrite Nat.max_r, Nat.min_l by lia.
  - by rewrite Nat.max_l, Nat.min_r by lia.
Qed.

Lemma step_NoDup s s' : selection_step s s' → NoDup (sel_ids s) → NoDup (sel_ids s').
Proof.
  intros [selection i gesture visible Hv|selection existing|selection gone] Hnd.
  - destruct gesture; [apply NoDup_singleton| |].
    + cbn. case_bool_decide as Hi.
      * destruct (filter _ _) as [|x l] eqn:Hf; [constructor|]. cbn. rewrite <- Hf. by apply NoDup_filter.
      * destruct (sel_ids selection ++ [i]) eqn:Hf; [constructor|]. cbn. rewrite <- Hf. apply NoDup_app.
        split_and!; [done| |apply NoDup_singleton]. intros x Hx ->%list_elem_of_singleton. done.
    + destruct (sel_anchor selection ≫= indexOf visible) as [from|] eqn:Hf, (indexOf visible i) as [to|] eqn:Ht.
      { rewrite (range_ids _ _ _ _ _ Hf Ht). cbn. eapply sublist_NoDup; [exact Hv|].
        etrans; [apply sublist_take|apply sublist_drop]. }
      all: unfold applyLibrarySelection; rewrite Hf, ?Ht; apply NoDup_singleton.
  - rewrite pruned_ids. by apply NoDup_filter.
  - rewrite removed_ids. by apply NoDup_filter.
Qed.

(** Whatever is clicked, refreshed and deleted, no artifact is selected twice; and
    what a deletion or a drag then works on is exactly the selection: the rows the tree
    shows in the tree's order, then the rest. *)
Theorem selection_holds_each_id_once s visible :
  rtc selection_step emptyLibrarySelection s → NoDup visible →
  NoDup (sel_ids s) ∧ orderedLibrarySelection s visible ≡ₚ sel_ids s ∧
  filter (λ i, i ∈ visible) (orderedLibrarySelection s visible) `sublist_of` visible.
Proof.
  intros Hs Hv. assert (NoDup (sel_ids s)) as Hnd.
  { remember emptyLibrarySelection as s0 eqn:E. assert (NoDup (sel_ids s0)) as H0 by (subst; constructor). clear E.
    induction Hs as [|s0 s1 s2 H01 _ IH]; [done|]. by eapply IH, step_NoDup. }
  split; [done|]. unfold orderedLibrarySelection. cbv zeta. split.
  - apply NoDup_Permutation; [|done|].
    + apply NoDup_app. split_and!; [by apply NoDup_filter| |by apply NoDup_filter].
      intros x Hx [Hn _]%list_elem_of_filter. done.
    + intros x. rewrite elem_of_app, !list_elem_of_filter. destruct (decide (x ∈ visible)); naive_solver.
  - rewrite filter_app. rewrite (filter_all _ (filter _ visible)) by by intros x [_ ?]%list_elem_of_filter.
    assert (filter (λ i, i ∈ visible) (filter (λ i, i ∉ filter (λ i, i ∈ sel_ids s) visible) (sel_ids s)) = []) as ->.
    { destruct (filter _ (filter _ (sel_ids s))) as [|x l] eqn:Hf; [done|].
      assert (x ∈ x :: l) as Hx by by left. rewrite <- Hf, !list_elem_of_filter in Hx. naive_solver. }
    rewrite app_nil_r. apply sublist_filter.
Qed.

(** A shift-click selects exactly the rows the tree shows between the anchor and
    the clicked row, both included, in the tree's order, and keeps the anchor; with
    nothing to measure from it selects the clicked row alone. *)
Theorem range_selects_between selection i visible :
  NoDup visible →
  let s := applyLibrarySelection selection i range visible in
  match sel_anchor selection with
  | Some a =>
      if bool_decide (a ∈ visible ∧ i ∈ visible) then
        sel_anchor s = Some a ∧ sel_ids s `sublist_of` visible ∧ a ∈ sel_ids s ∧ i ∈ sel_ids s ∧
        ∀ k x ka ki, visible !! k = Some x → visible !! ka = Some a → visible !! ki = Some i →
          (x ∈ sel_ids s ↔ Nat.min ka ki ≤ k ≤ Nat.max ka ki)
      else s = {| sel_ids := [i]; sel_anchor := Some i |}
  | None => s = {| sel_ids := [i]; sel_anchor := Some i |}
  end.
Proof.
  intros Hv. cbv zeta. destruct (sel_anchor selection) as [a|] eqn:Ha.
  2: { unfold applyLibrarySelection. by rewrite Ha. }
  assert (∀ x, x ∈ visible ↔ is_Some (indexOf visible x)) as Hix.
  { intros x. split.
    - intros [k Hk]%list_elem_of_lookup. destruct (indexOf visible x) eqn:E; [by eexists|]. unfold indexOf in E.
      apply fmap_None, list_find_None in E. rewrite Forall_forall in E. exfalso. by apply (E x); [eapply list_elem_of_lookup_2|].
    - intros [k [Hk _]%indexOf_Some]. by eapply list_elem_of_lookup_2. }
  case_bool_decide as Hin.
  - destruct Hin as [[from Hf]%Hix [to Ht]%Hix].
    assert ((sel_anchor selection ≫= indexOf visible) = Some from) as Hf' by by rewrite Ha.
    rewrite (range_ids _ _ _ _ _ Hf' Ht). cbn [sel_anchor sel_ids].
    apply indexOf_Some in Hf as [Hf _], Ht as [Ht _]. set (lo := Nat.min from to). set (hi := Nat.max from to).
    assert (∀ k x, visible !! k = Some x → (x ∈ take (hi + 1 - lo) (drop lo visible) ↔ lo ≤ k ≤ hi)) as Hmem.
    { intros k x Hk. rewrite list_elem_of_lookup. setoid_rewrite lookup_take_Some. setoid_rewrite lookup_drop. split.
      - intros (j & Hj & Hlt). assert (lo + j = k) as <- by by eapply NoDup_lookup. lia.
      - intros Hb. exists (k - lo). replace (lo + (k - lo)) with k by lia. split; [done|lia]. }
    split_and!; [done| | | |].
    + etrans; [apply sublist_take|apply sublist_drop].
    + apply (Hmem from); [done|lia].
    + apply (Hmem to); [done|lia].
    + intros k x ka ki Hk Hka Hki. assert (ka = from) as -> by by eapply NoDup_lookup.
      assert (ki = to) as -> by by eapply NoDup_lookup. by apply Hmem.
  - unfold applyLibrarySelection. rewrite Ha. cbn [mbind option_bind].
    destruct (indexOf visible a) eqn:E1; [|done]. destruct (indexOf visible i) eqn:E2; [|done].
    exfalso. apply Hin. rewrite !Hix, E1, E2. split; by eexists.
Qed.

(** ** Witnesses *)

Definition panel_rows : list string := ["a"; "b"; "c"; "d"].

Lemma selection_holds_each_id_once_witness :
  orderedLibrarySelection {| sel_ids := ["d"; "a"]; sel_anchor := Some "a" |} panel_rows = ["a"; "d"] ∧
  orderedLibrarySelection {| sel_ids := ["d"; "a"]; sel_anchor := Some "a" |} panel_rows ≡ₚ ["d"; "a"].
Proof.
  split; [reflexivity|].
  refine (proj1 (proj2 (selection_holds_each_id_once {| sel_ids := ["d"; "a"]; sel_anchor := Some "a" |} panel_rows _ _))); [|by_decide].
  eapply rtc_l; [apply (step_gesture _ "d" plain panel_rows); by_decide|].
  eapply rtc_l; [apply (step_gesture _ "a" toggle panel_rows); by_decide|]. apply rtc_refl.
Defined.

Lemma range_selects_between_witness :
  applyLibrarySelection {| sel_ids := ["d"]; sel_anchor := Some "d" |} "b" range panel_rows =
    {| sel_ids := ["b"; "c"; "d"]; sel_anchor := Some "d" |} ∧
  "c" ∈ sel_ids (applyLibrarySelection {| sel_ids := ["d"]; sel_anchor := Some "d" |} "b" range panel_rows).
Proof.
  split; [reflexivity|].
  pose proof (range_selects_between {| sel_ids := ["d"]; sel_anchor := Some "d" |} "b" panel_rows ltac:(by_decide)) as H.
  cbv zeta in H. cbn [sel_anchor] in H. rewrite bool_decide_true in H by by_decide.
  destruct H as (_ & _ & _ & _ & H). apply (H 2 "c" 3 1); [done..|lia].
Defined.
