(* ===== verification/LibraryTree.v ===== *)
(** * The folder tree of the Library panel ([ui/side-panel/library-tree.ts])

    The projection of the flat lists of folders and artifacts to the tree the
    panel renders, filtered by a query, and the rows of it.  The builder calls
    itself on the folders inside a folder without a guard; here it has fuel and
    is proved to need no more than one level per folder when folder ids are
    unique, cycles among folders notwithstanding: they are never entered.

    Parameters: the host's collation of names, [Date.parse] ([None] is NaN). *)

From Stdlib Require Import Strings.Ascii.
From S2P Require Import Prelude Js JsText Handles Routes RoutesTheory.
From stdpp Require Import numbers pretty list relations.

(** ** Data *)

Record LibraryFolder := { fo_id : string; fo_parent : option string; fo_name : string }.

#[export] Instance LibraryFolder_id : Identified LibraryFolder := fo_id.

Inductive LibrarySource := from_upload | from_node.

(** [PlacedLibraryItem]: the fields the panel reads. *)
Record PlacedLibraryItem := {
  it_id : string;
  it_name : string;
  it_folder : option string;
  it_source : LibrarySource;
  it_original_filename : option string;
  it_saved_at : string;
  it_artifact_type : string;
  it_content_type : option string;
  it_schema_version : Z;
  it_sha256 : option string
}.

#[export] Instance PlacedLibraryItem_id : Identified PlacedLibraryItem := it_id.

Inductive LibrarySort := sort_name | sort_recent.
Inductive LibraryFileIcon := icon_image | icon_table | icon_text | icon_model | icon_other.

Inductive LibraryTreeNode :=
| file_node (key : string) (parentId : option string) (depth : nat) (icon : LibraryFileIcon) (item : PlacedLibraryItem)
| folder_node (key : string) (parentId : option string) (id : string) (depth : nat) (name : string)
    (nodes : list LibraryTreeNode) (total matched : nat).

Definition libraryFolderKey (folderId : string) : string := "folder:" +:+ folderId.
Definition libraryFileKey (artifactId : string) : string := "file:" +:+ artifactId.

(** ** Icons *)

Definition ICON_BY_ARTIFACT_TYPE : list (string * LibraryFileIcon) :=
  [("image.raster", icon_image); ("image.pixmap", icon_image); ("geo.raster_scan", icon_image);
   ("table.data", icon_table); ("table.csv", icon_table); ("geo.feature_collection", icon_table);
   ("text.txt", icon_text); ("scalar.text", icon_text); ("document.page", icon_text);
   ("model.artifact", icon_model); ("model.weights", icon_model); ("model.embedding", icon_model);
   ("module.reference", icon_model); ("graph.reference", icon_model)].

Definition artifactTypeId (item : PlacedLibraryItem) : string := default "" (head (splitOn "@" (it_artifact_type item))).
Definition contentTypeOf (item : PlacedLibraryItem) : string := toLowerCase (default "" (it_content_type item)).
Definition isItemImage (item : PlacedLibraryItem) : bool := String.prefix "image/" (contentTypeOf item).

Definition isItemText (item : PlacedLibraryItem) : bool :=
  let contentType := contentTypeOf item in
  String.prefix "text/" contentType || bool_decide (contentType = "application/json") || endsWith "+json" contentType ||
  bool_decide (contentType = "application/csv") || bool_decide (contentType = "application/x-ndjson").

Definition libraryFileIcon (item : PlacedLibraryItem) : LibraryFileIcon :=
  if isItemImage item then icon_image
  else
    match find (λ kv, bool_decide (kv.1 = artifactTypeId item)) ICON_BY_ARTIFACT_TYPE with
    | Some (_, icon) => icon
    | None =>
        if String.prefix "text/csv" (contentTypeOf item) || includes "tab-separated" (contentTypeOf item) then icon_table
        else if isItemText item then icon_text else icon_other
    end.

(** ** Filter *)

(** [s.split(/\s+/)] *)
Fixpoint split_spaces (in_space : bool) (s : string) : string * list string :=
  match s with
  | EmptyString => ("", [])
  | String.String c s' =>
      if is_space c then
        let '(p, ps) := split_spaces true s' in if in_space then (p, ps) else ("", p :: ps)
      else let '(p, ps) := split_spaces false s' in (String.String c p, ps)
  end.

Definition splitSpaces (s : string) : list string := let '(p, ps) := split_spaces false s in p :: ps.

Definition matchesQuery (item : PlacedLibraryItem) (needle : string) : bool :=
  if bool_decide (needle = "") then true
  else
    let haystack := toLowerCase (Js.join " " [it_name item; default "" (it_original_filename item); it_artifact_type item]) in
    forallb (λ term, includes term haystack) (splitSpaces needle).

(** ** The tree *)

Section build.
Context (collate : string → string → Z) (parseDate : string → option Z).

Definition byName {A} (name : A → string) (a b : A) : Z := collate (name a) (name b).

Definition byRecent (a b : PlacedLibraryItem) : Z :=
  match parseDate (it_saved_at b), parseDate (it_saved_at a) with
  | Some sb, Some sa => num_or (sb - sa) (byName it_name a b)
  | _, _ => 0%Z
  end.

Context (folders : list LibraryFolder) (items : list PlacedLibraryItem) (needle : string) (sort : LibrarySort).

(** [childFolders.get(id)] and [childItems.get(id)] *)
Definition childFolders (parent : option string) : list LibraryFolder := filter (λ f, fo_parent f = parent) folders.

(** An artifact filed in a folder that is not listed counts as filed at the root. *)
Definition itemHome (item : PlacedLibraryItem) : option string :=
  match it_folder item with Some i => if bool_decide (i ∈ ids folders) then Some i else None | None => None end.

Definition childItems (folderId : option string) : list PlacedLibraryItem := filter (λ item, itemHome item = folderId) items.

Definition itemOrder (a b : PlacedLibraryItem) : Z :=
  match sort with sort_recent => byRecent a b | sort_name => byName it_name a b end.

Definition fileNodes (folderId : option string) (depth : nat) (revealed : bool) : list LibraryTreeNode :=
  (λ item, file_node (libraryFileKey (it_id item)) folderId depth (libraryFileIcon item) item) <$>
    filter (λ item, revealed || matchesQuery item needle = true) (js_sort itemOrder (childItems folderId)).

Record BuiltFolder := {
  bf_key : string; bf_parentId : option string; bf_id : string; bf_depth : nat; bf_name : string;
  bf_nodes : list LibraryTreeNode; bf_total : nat; bf_matched : nat; bf_shown : bool
}.

Definition built_node (b : BuiltFolder) : LibraryTreeNode :=
  folder_node (bf_key b) (bf_parentId b) (bf_id b) (bf_depth b) (bf_name b) (bf_nodes b) (bf_total b) (bf_matched b).

(** [None] is out of fuel. *)
Fixpoint folderNode (fuel : nat) (folder : LibraryFolder) (depth : nat) (revealedByAncestor : bool) : option BuiltFolder :=
  match fuel with
  | O => None
  | S fuel' =>
      let selfMatches := bool_decide (needle = "") || includes needle (toLowerCase (fo_name folder)) in
      let revealed := revealedByAncestor || selfMatches in
      built ← mapM (λ child, folderNode fuel' child (S depth) revealed)
                   (js_sort (byName fo_name) (childFolders (Some (fo_id folder))));
      let files := fileNodes (Some (fo_id folder)) (S depth) revealed in
      let matched := sum_list (bf_matched <$> built) + length files in
      Some {| bf_key := libraryFolderKey (fo_id folder); bf_parentId := fo_parent folder; bf_id := fo_id folder;
              bf_depth := depth; bf_name := fo_name folder;
              bf_nodes := (built_node <$> filter (λ b, bf_shown b = true) built) ++ files;
              bf_total := length (childItems (Some (fo_id folder))) + sum_list (bf_total <$> built);
              bf_matched := matched;
              bf_shown := revealed || (0 <? matched) |}
  end.

Definition rootNodes (fuel : nat) : option (list LibraryTreeNode) :=
  built ← mapM (λ folder, folderNode fuel folder 0 false) (js_sort (byName fo_name) (childFolders None));
  Some ((built_node <$> filter (λ b, bf_shown b = true) built) ++ fileNodes None 0 false).
End build.

Definition buildLibraryTree (collate : string → string → Z) (parseDate : string → option Z) (folders : list LibraryFolder)
    (items : list PlacedLibraryItem) (query : option string) (sort : LibrarySort) : option (list LibraryTreeNode) :=
  rootNodes collate parseDate folders items (toLowerCase (trim (default "" query))) sort (length folders).

(** ** Rows *)

Section rows.
Variable collapsed : list string.

Fixpoint node_rows (node : LibraryTreeNode) : list LibraryTreeNode :=
  node :: match node with
          | file_node _ _ _ _ _ => []
          | folder_node key _ _ _ _ nodes _ _ => if bool_decide (key ∈ collapsed) then [] else flat_map node_rows nodes
          end.

Definition flattenLibraryRows (roots : list LibraryTreeNode) : list LibraryTreeNode := flat_map node_rows roots.
End rows.

Definition countLibraryArtifacts (roots : list LibraryTreeNode) : nat :=
  foldl (λ count node, count + match node with folder_node _ _ _ _ _ _ _ matched => matched | file_node _ _ _ _ _ => 1 end) 0 roots.

Definition libraryFileDisplayName (item : PlacedLibraryItem) : string :=
  match it_source item, it_original_filename item with
  | from_upload, Some original => if bool_decide (original = "") then it_name item else original
  | _, _ => it_name item
  end.

(** ** Names and paths of folders *)

Definition folderNameAt (suffix : nat) : string :=
  if suffix <? 2 then "New folder" else "New folder " +:+ intText (Z.of_nat suffix).

(** The [for] loop from suffix 1 (the plain name), with fuel. *)
Fixpoint freeFolderName (taken : list string) (fuel suffix : nat) : option string :=
  if bool_decide (toLowerCase (folderNameAt suffix) ∈ taken) then
    match fuel with O => None | S fuel' => freeFolderName taken fuel' (S suffix) end
  else Some (folderNameAt suffix).

(** One round per sibling is enough. *)
Definition uniqueLibraryFolderName (folders : list LibraryFolder) (parentId : option string) : option string :=
  let taken := (λ f, toLowerCase (fo_name f)) <$> filter (λ f, fo_parent f = parentId) folders in
  freeFolderName taken (length taken) 1.

(** [new Map(folders.map((f) => [f.folder_id, f])).get(id)]: the last one listed. *)
Definition folderById (folders : list LibraryFolder) (i : string) : option LibraryFolder := find_id i (reverse folders).

Fixpoint folderPathUp (folders : list LibraryFolder) (fuel : nat) (visited : list string) (current : option LibraryFolder)
    (path : list string) : option (list string) :=
  match current with
  | None => Some path
  | Some f =>
      if bool_decide (fo_id f ∈ visited) then Some path
      else match fuel with
           | O => None
           | S fuel' => folderPathUp folders fuel' (fo_id f :: visited) (fo_parent f ≫= folderById folders) (fo_name f :: path)
           end
  end.

Definition libraryFolderPath (folders : list LibraryFolder) (folderId : option string) : option (list string) :=
  folderPathUp folders (length folders) [] (folderId ≫= folderById folders) [].

(** ** Chains of folders *)

(** The artifacts of a tree, in the order of its rows. *)
Fixpoint files (node : LibraryTreeNode) : list PlacedLibraryItem :=
  match node with
  | file_node _ _ _ _ item => [item]
  | folder_node _ _ _ _ _ nodes _ _ => flat_map files nodes
  end.

(** A folder hangs in the tree by the chain of folders from it up to the root. *)
Inductive hangs (folders : list LibraryFolder) : list LibraryFolder → LibraryFolder → Prop :=
| hangs_root f : f ∈ folders → fo_parent f = None → hangs folders [f] f
| hangs_in f p l : hangs folders l p → f ∈ folders → fo_parent f = Some (fo_id p) → hangs folders (f :: l) f.

Section chains.
Context (folders : list LibraryFolder) (Hunique : NoDup (ids folders)).

Lemma folder_by_id f g : f ∈ folders → g ∈ folders → fo_id f = fo_id g → f = g.
Proof.
  intros Hf Hg Heq. apply (find_id_NoDup _ _ Hunique) in Hf, Hg.
  change (ident f) with (fo_id f) in Hf. change (ident g) with (fo_id g) in Hg. rewrite Heq in Hf. congruence.
Qed.

Lemma hangs_listed l f : hangs folders l f → f ∈ folders ∧ ∃ up, l = f :: up.
Proof. destruct 1; eauto. Qed.

Lemma hangs_elem l f g : hangs folders l f → g ∈ l → ∃ down up, l = down ++ g :: up ∧ hangs folders (g :: up) g.
Proof.
  induction 1 as [f Hf Hp|f p l Hl IH Hf Hp]; intros Hg.
  - apply list_elem_of_singleton in Hg as ->. exists [], []. split; [done|by constructor].
  - apply elem_of_cons in Hg as [->|Hg]; [exists [], l; split; [done|by econstructor]|].
    destruct (IH Hg) as (down & up & -> & H). by exists (f :: down), up.
Qed.

Lemma hangs_functional l l' f : hangs folders l f → hangs folders l' f → l = l'.
Proof.
  intros H. revert l'. induction H as [f Hf Hp|f p l Hl IH Hf Hp]; intros l' H'.
  - destruct H' as [|? ? ? ? ? Hp']; [done|congruence].
  - destruct H' as [g ? Hp'|g p' l'' Hl'' ? Hp']; [congruence|]. f_equal. apply IH. rewrite Hp in Hp'. injection Hp' as Hid.
    assert (p = p') as ->; [|done]. apply folder_by_id; [by apply hangs_listed in Hl as []|by apply hangs_listed in Hl'' as []|done].
Qed.

Lemma hangs_NoDup l f : hangs folders l f → NoDup l.
Proof.
  induction 1 as [f Hf Hp|f p l Hl IH Hf Hp]; [apply NoDup_singleton|]. constructor; [|done]. intros Hin.
  destruct (hangs_elem _ _ _ Hl Hin) as (down & up & -> & Hup).
  assert (f :: up = f :: down ++ f :: up) as Heq by (eapply hangs_functional; [done|by econstructor]).
  apply (f_equal length) in Heq. cbn in Heq. rewrite length_app in Heq. cbn in Heq. lia.
Qed.

Lemma hangs_bounded l f : hangs folders l f → length l ≤ length folders.
Proof.
  intros H. apply submseteq_length, NoDup_submseteq; [by eapply hangs_NoDup|].
  intros g Hg. destruct (hangs_elem _ _ _ H Hg) as (down & up & -> & Hup). by apply hangs_listed in Hup as [].
Qed.

(** The folder just below [f] in a chain through it. *)
Lemma hangs_below l' c l g : hangs folders (l' ++ c :: l) g → hangs folders (c :: l) c.
Proof.
  intros H. destruct (hangs_elem _ _ c H) as (down & up & Heq & Hc); [apply elem_of_app; right; by left|].
  assert (NoDup (l' ++ c :: l)) as Hnd by by eapply hangs_NoDup.
  assert (l = up) as ->; [|done]. clear H Hc. revert l' Hnd Heq. induction down as [|d down IH]; intros [|x l'] Hnd Heq; cbn in *.
  - by injection Heq.
  - injection Heq as -> <-. apply NoDup_cons in Hnd as [Hx _]. exfalso. apply Hx, elem_of_app. right. by left.
  - injection Heq as -> ->. apply NoDup_cons in Hnd as [Hx _]. exfalso. apply Hx, elem_of_app. right. by left.
  - injection Heq as -> Heq. apply NoDup_cons in Hnd as [_ Hnd]. by eapply IH.
Qed.
End chains.

(** ** What the tree shows *)

Section tree.
Context (collate : string → string → Z) (parseDate : string → option Z) (folders : list LibraryFolder)
  (items : list PlacedLibraryItem) (needle : string) (sort : LibrarySort) (Hunique : NoDup (ids folders)).

Notation build := (folderNode collate parseDate folders items needle sort).
Notation home := (itemHome folders).

Definition folderMatches (f : LibraryFolder) : bool := bool_decide (needle = "") || includes needle (toLowerCase (fo_name f)).

Lemma child_sorted p c : c ∈ js_sort (byName collate fo_name) (childFolders folders p) ↔ c ∈ folders ∧ fo_parent c = p.
Proof. rewrite js_sort_perm. unfold childFolders. rewrite list_elem_of_filter. tauto. Qed.

Lemma folderNode_total fuel : ∀ l f depth revealed,
  hangs folders l f → length folders < fuel + length l → is_Some (build fuel f depth revealed).
Proof.
  induction fuel as [|fuel IH]; intros l f depth revealed Hl Hlen.
  - pose proof (hangs_bounded _ Hunique _ _ Hl). lia.
  - cbn [folderNode]. destruct (mapM _ _) as [built|] eqn:Hm; [by eexists|]. exfalso.
    apply eq_None_not_Some in Hm. apply Hm, mapM_is_Some. apply Forall_forall. intros c [Hc Hp]%child_sorted.
    eapply IH; [by econstructor|]. cbn. lia.
Qed.

(** A folder that is left out has no artifact to show. *)
Lemma shown_files bs :
  Forall (λ b, bf_shown b = false → flat_map files (bf_nodes b) = []) bs →
  flat_map files (built_node <$> filter (λ b, bf_shown b = true) bs) = flat_map (λ b, flat_map files (bf_nodes b)) bs.
Proof.
  induction 1 as [|b bs Hb _ IH]; [done|]. rewrite filter_cons. cbn [flat_map]. case_decide as Hs.
  - rewrite fmap_cons. cbn [flat_map]. rewrite IH. done.
  - rewrite Hb by by destruct (bf_shown b). exact IH.
Qed.

(** The count of a folder is the number of its artifacts that the tree holds. *)
Lemma matched_counts fuel : ∀ f depth revealed b,
  build fuel f depth revealed = Some b →
  bf_matched b = length (flat_map files (bf_nodes b)) ∧ (bf_shown b = false → flat_map files (bf_nodes b) = []).
Proof.
  induction fuel as [|fuel IH]; intros f depth revealed b; [done|]. cbn [folderNode].
  intros (built & Hm & [= <-])%bind_Some. cbn [bf_matched bf_nodes bf_shown].
  set (fs := fileNodes _ _ _ _ _ _ _ _ _). apply mapM_Some in Hm.
  assert (Forall (λ b, bf_matched b = length (flat_map files (bf_nodes b)) ∧
                       (bf_shown b = false → flat_map files (bf_nodes b) = [])) built) as Hall.
  { eapply Forall2_Forall_r; [exact Hm|]. apply Forall_true. intros c b. apply IH. }
  assert (length (flat_map files ((built_node <$> filter (λ b, bf_shown b = true) built) ++ fs)) =
          sum_list (bf_matched <$> built) + length fs) as Hcount.
  { rewrite flat_map_app, List.length_app, shown_files by by eapply Forall_impl; [exact Hall|]; intros ? [].
    f_equal.
    - clear Hm. induction Hall as [|b bs [Hb _] _ IHb]; [done|]. cbn [flat_map]. rewrite List.length_app, IHb, <- Hb. done.
    - unfold fs, fileNodes. induction (filter _ _) as [|x l IHl]; [done|]. cbn. by f_equal. }
  rewrite Hcount. split; [done|]. intros [_ H%Nat.ltb_ge]%orb_false_iff. apply length_zero_iff_nil. lia.
Qed.

Lemma file_rows p depth revealed :
  flat_map files (fileNodes collate parseDate folders items needle sort p depth revealed) =
  filter (λ item, revealed || matchesQuery item needle = true) (js_sort (itemOrder collate parseDate sort) (childItems folders items p)).
Proof. unfold fileNodes. induction (filter _ _) as [|x l IH]; [done|]. cbn. by f_equal. Qed.

(** The artifact is in the folder the chain ends at and shown there: it matches, or
    a folder of the chain does. *)
Definition shown_in (l : list LibraryFolder) (x : PlacedLibraryItem) : Prop :=
  ∃ g, hangs folders l g ∧ x ∈ items ∧ home x = Some (fo_id g) ∧ (existsb folderMatches l = true ∨ matchesQuery x needle = true).

Lemma shown_in_one_chain l l' x : shown_in l x → shown_in l' x → l = l'.
Proof.
  intros (g & Hg & _ & Hx & _) (g' & Hg' & _ & Hx' & _). rewrite Hx in Hx'. injection Hx' as Hid.
  assert (g = g') as ->; [|by eapply hangs_functional].
  apply (folder_by_id folders); [done|by apply hangs_listed in Hg as []|by apply hangs_listed in Hg' as []|done].
Qed.

Lemma own_files l f depth x :
  hangs folders (f :: l) f →
  x ∈ flat_map files (fileNodes collate parseDate folders items needle sort (Some (fo_id f)) depth (existsb folderMatches (f :: l)))
  ↔ shown_in (f :: l) x.
Proof.
  intros Hf. rewrite file_rows, list_elem_of_filter, js_sort_perm. unfold childItems, shown_in. rewrite list_elem_of_filter, orb_true_iff.
  split; [intros (Hm & Hh & Hx); by exists f|]. intros (g & Hg & Hx & Hh & Hm).
  apply hangs_listed in Hg as (_ & up & [= <- _]). done.
Qed.

Lemma NoDup_flat_map_Forall2 {A B C} (R : A → B → Prop) (P : A → C → Prop) (h : B → list C) (l : list A) (k : list B) :
  Forall2 R l k → NoDup l →
  (∀ a b, a ∈ l → R a b → NoDup (h b) ∧ ∀ c, c ∈ h b → P a c) →
  (∀ a a' c, P a c → P a' c → a = a') → NoDup (flat_map h k).
Proof.
  intros HR Hnd Hh Huniq.
  revert Hnd Hh. induction HR as [|a b l k Hab HR IH]; intros Hnd Hh; [constructor|].
  apply NoDup_cons in Hnd as [Hna Hnd]. cbn [flat_map]. destruct (Hh a b) as [Hb HbP]; [by left|done|].
  assert (∀ c, c ∈ flat_map h k → ∃ a, a ∈ l ∧ P a c) as Hrest.
  { intros c (b' & [i Hi]%list_elem_of_lookup & Hc)%elem_of_flat_map. destruct (Forall2_lookup_r _ _ _ _ _ HR Hi) as (a' & Ha' & Hab').
    exists a'. split; [by eapply list_elem_of_lookup_2|]. eapply Hh; [right; by eapply list_elem_of_lookup_2|done|done]. }
  apply NoDup_app. split_and!; [done| |].
  - intros c Hc Hc'. destruct (Hrest c Hc') as (a' & Ha' & HP). by rewrite (Huniq a a' c (HbP c Hc) HP) in Hna.
  - apply IH; [done|]. intros a' b' Ha'. apply Hh. by right.
Qed.

Hypothesis Hitems : NoDup items.

(** Everything below the folder of a chain. *)
Definition below (l : list LibraryFolder) (x : PlacedLibraryItem) : Prop := ∃ down, shown_in (down ++ l) x.

Lemma below_children l f x :
  below (f :: l) x ↔ shown_in (f :: l) x ∨ ∃ c, c ∈ folders ∧ fo_parent c = Some (fo_id f) ∧ below (c :: f :: l) x.
Proof.
  split.
  - intros (down & Hx). destruct down as [|c down _] using rev_ind; [by left|right].
    rewrite <- (assoc_L (++)) in Hx. exists c. destruct Hx as (g & Hg & Hrest).
    apply (hangs_below _ Hunique) in Hg as Hc. inversion Hc as [|? p ? Hp ? Hpar]; subst.
    apply hangs_listed in Hp as (_ & up & [= <- _]). split_and!; [done|done|]. exists down. by exists g.
  - intros [Hx|(c & _ & _ & down & Hx)]; [by exists []|]. exists (down ++ [c]). by rewrite <- (assoc_L (++)).
Qed.

Lemma below_one_child l c c' x : below (c :: l) x → below (c' :: l) x → c = c'.
Proof.
  intros (down & Hx) (down' & Hx'). pose proof (shown_in_one_chain _ _ _ Hx Hx') as Heq.
  change (c :: l) with ([c] ++ l) in Heq. change (c' :: l) with ([c'] ++ l) in Heq. rewrite !(assoc_L (++)) in Heq.
  apply app_inv_tail in Heq. by apply app_inj_tail in Heq as [_ ->].
Qed.

Lemma fileNodes_NoDup p depth revealed :
  NoDup (flat_map files (fileNodes collate parseDate folders items needle sort p depth revealed)).
Proof. rewrite file_rows. apply NoDup_filter. rewrite js_sort_perm. by apply NoDup_filter. Qed.

(** A list of siblings: each artifact below them once. *)
Lemma siblings_files fuel l depth p bs :
  Forall2 (λ c b, build fuel c depth (existsb folderMatches l) = Some b) (js_sort (byName collate fo_name) (childFolders folders p)) bs →
  (∀ c b, c ∈ folders → fo_parent c = p → build fuel c depth (existsb folderMatches l) = Some b →
          NoDup (flat_map files (bf_nodes b)) ∧ ∀ x, x ∈ flat_map files (bf_nodes b) ↔ below (c :: l) x) →
  NoDup (flat_map (λ b, flat_map files (bf_nodes b)) bs) ∧
  ∀ x, x ∈ flat_map (λ b, flat_map files (bf_nodes b)) bs ↔ ∃ c, c ∈ folders ∧ fo_parent c = p ∧ below (c :: l) x.
Proof.
  intros H2 Hone. split.
  - eapply (NoDup_flat_map_Forall2 _ (λ c, below (c :: l))); [exact H2| | |intros c c' x; apply below_one_child].
    + rewrite js_sort_perm. apply NoDup_filter. by eapply NoDup_fmap_1.
    + intros c b [Hc Hp]%child_sorted Hb. destruct (Hone c b Hc Hp Hb) as [Hnd Hx]. split; [done|]. intros x. apply Hx.
  - intros x. rewrite elem_of_flat_map. split.
    + intros (b & [i Hi]%list_elem_of_lookup & Hx). destruct (Forall2_lookup_r _ _ _ _ _ H2 Hi) as (c & Hc & Hb).
      apply list_elem_of_lookup_2, child_sorted in Hc as [Hc Hp]. exists c. split_and!; [done..|]. by eapply Hone.
    + intros (c & Hc & Hp & Hx). destruct (proj1 (list_elem_of_lookup _ _) (proj2 (child_sorted p c) (conj Hc Hp))) as [i Hi].
      destruct (Forall2_lookup_l _ _ _ _ _ H2 Hi) as (b & Hbi & Hb). exists b. split; [by eapply list_elem_of_lookup_2|].
      by eapply Hone.
Qed.

Lemma siblings_shown fuel l depth p bs :
  Forall2 (λ c b, build fuel c depth (existsb folderMatches l) = Some b) (js_sort (byName collate fo_name) (childFolders folders p)) bs →
  flat_map files (built_node <$> filter (λ b, bf_shown b = true) bs) = flat_map (λ b, flat_map files (bf_nodes b)) bs.
Proof.
  intros H2. apply shown_files. eapply Forall2_Forall_r; [exact H2|]. apply Forall_true. intros c b Hb. by apply matched_counts in Hb as [].
Qed.

Lemma folder_files fuel : ∀ l f depth b,
  hangs folders (f :: l) f → build fuel f depth (existsb folderMatches l) = Some b →
  NoDup (flat_map files (bf_nodes b)) ∧ ∀ x, x ∈ flat_map files (bf_nodes b) ↔ below (f :: l) x.
Proof.
  induction fuel as [|fuel IH]; intros l f depth b Hf; [done|]. cbn [folderNode].
  intros (bs & Hm & [= <-])%bind_Some. cbn [bf_nodes].
  assert (existsb folderMatches l || (bool_decide (needle = "") || includes needle (toLowerCase (fo_name f))) = existsb folderMatches (f :: l)) as Hrev.
  { cbn [existsb]. unfold folderMatches at 2. by rewrite orb_comm. }
  rewrite Hrev in *. apply mapM_Some in Hm. rewrite flat_map_app, (siblings_shown _ _ _ _ _ Hm).
  destruct (siblings_files _ _ _ _ _ Hm) as [Hnd Hin].
  { intros c b Hc Hp. apply IH. by econstructor. }
  pose proof (own_files l f (S depth)) as Hown. split.
  - apply NoDup_app. split_and!; [done| |apply fileNodes_NoDup].
    intros x (c & _ & _ & down & Hx)%Hin Hx'. apply Hown in Hx'; [|done]. pose proof (shown_in_one_chain _ _ _ Hx Hx') as Heq.
    apply (f_equal length) in Heq. rewrite List.length_app in Heq. cbn in Heq. lia.
  - intros x. rewrite elem_of_app, Hin, (Hown x Hf), below_children. tauto.
Qed.

Lemma count_files roots :
  Forall (λ node, match node with
                  | folder_node _ _ _ _ _ nodes _ matched => matched = length (flat_map files nodes)
                  | file_node _ _ _ _ _ => True
                  end) roots →
  countLibraryArtifacts roots = length (flat_map files roots).
Proof.
  intros Hall. unfold countLibraryArtifacts. set (add := λ count node, _).
  assert (∀ n, foldl add n roots = n + length (flat_map files roots)) as H; [|apply H].
  induction Hall as [|node roots Hn _ IH]; intros n; [cbn; lia|]. cbn [foldl flat_map]. rewrite IH, List.length_app.
  unfold add. destruct node as [|? ? ? ? ? nodes ? matched]; cbn in *; lia.
Qed.

(** What a person sees: an artifact at the root that matches, or one in a folder that
    hangs in the tree, when it matches or a folder on the way to it does. *)
Definition shown (x : PlacedLibraryItem) : Prop :=
  (x ∈ items ∧ home x = None ∧ matchesQuery x needle = true) ∨ ∃ l, shown_in l x.

Lemma tree_files fuel :
  length folders ≤ fuel →
  ∃ roots, rootNodes collate parseDate folders items needle sort fuel = Some roots ∧ NoDup (flat_map files roots) ∧
    (∀ x, x ∈ flat_map files roots ↔ shown x) ∧ countLibraryArtifacts roots = length (flat_map files roots).
Proof.
  intros Hfuel. unfold rootNodes.
  destruct (mapM (λ folder, build fuel folder 0 false) (js_sort (byName collate fo_name) (childFolders folders None))) as [bs|] eqn:Hm.
  2: { exfalso. apply eq_None_not_Some in Hm. apply Hm, mapM_is_Some, Forall_forall. intros c [Hc Hp]%child_sorted.
       apply (folderNode_total fuel [c]); [by constructor|]. cbn. lia. }
  cbn [mbind option_bind]. eexists. split; [done|]. apply mapM_Some in Hm. rewrite flat_map_app, (siblings_shown _ [] _ _ _ Hm).
  destruct (siblings_files fuel [] 0 None bs Hm) as [Hnd Hin].
  { intros c b Hc Hp. apply folder_files. by constructor. }
  assert (∀ x, x ∈ flat_map files (fileNodes collate parseDate folders items needle sort None 0 false) ↔
               x ∈ items ∧ home x = None ∧ matchesQuery x needle = true) as Hroot.
  { intros x. rewrite file_rows, list_elem_of_filter, js_sort_perm. unfold childItems. rewrite list_elem_of_filter. tauto. }
  split_and!.
  - apply NoDup_app. split_and!; [done| |apply fileNodes_NoDup]. intros x (c & _ & _ & down & g & _ & _ & Hx & _)%Hin (_ & Hx' & _)%Hroot. congruence.
  - intros x. rewrite elem_of_app, Hin, Hroot. unfold shown. split; [intros [(c & _ & _ & down & Hx)|Hx]; eauto|].
    intros [Hx|(l & Hx)]; [tauto|]. left. pose proof Hx as (g & Hg & _).
    destruct l as [|c l _] using rev_ind; [by apply hangs_listed in Hg as (_ & up & ?)|].
    apply (hangs_below _ Hunique) in Hg. exists c. inversion Hg as [? Hc Hp|? p ? Hp]; subst; [|by inversion Hp].
    split_and!; [done..|]. by exists l.
  - rewrite <- (siblings_shown _ [] _ _ _ Hm), <- flat_map_app. apply count_files, Forall_app. split.
    + apply Forall_fmap, Forall_forall. intros b [_ [i Hi]%list_elem_of_lookup]%list_elem_of_filter.
      destruct (Forall2_lookup_r _ _ _ _ _ Hm Hi) as (c & _ & Hb). by apply matched_counts in Hb as [].
    + unfold fileNodes. apply Forall_fmap, Forall_true. done.
Qed.
End tree.

Definition occurs (t s : string) : Prop := ∃ a b, s = a +:+ t +:+ b.

(** The artifact matches a filter: each of its words is in the name, the name of the file or the
    type, in lower case. *)
Definition found (needle : string) (x : PlacedLibraryItem) : Prop :=
  needle = "" ∨ ∀ word, word ∈ splitSpaces needle →
    occurs word (toLowerCase (it_name x +:+ " " +:+ default "" (it_original_filename x) +:+ " " +:+ it_artifact_type x)).

(** The folder matches it by name. *)
Definition found_folder (needle : string) (f : LibraryFolder) : Prop := needle = "" ∨ occurs needle (toLowerCase (fo_name f)).

(** What a person sees: an artifact that is in no listed folder and matches, or one in a folder
    that hangs from the root, when it matches or a folder on the way to it does. *)
Definition appears (folders : list LibraryFolder) (items : list PlacedLibraryItem) (needle : string) (x : PlacedLibraryItem) : Prop :=
  x ∈ items ∧
  ((found needle x ∧ ∀ i, it_folder x = Some i → i ∉ ids folders) ∨
   ∃ l g, hangs folders l g ∧ it_folder x = Some (fo_id g) ∧ (found needle x ∨ ∃ f, f ∈ l ∧ found_folder needle f)).

Lemma matchesQuery_found x needle : matchesQuery x needle = true ↔ found needle x.
Proof.
  unfold matchesQuery, found. case_bool_decide as Hn; [tauto|]. rewrite forallb_forall. setoid_rewrite <- list_elem_of_In. setoid_rewrite includes_spec.
  split; [by right|by intros [?|?]].
Qed.

Lemma folderMatches_found needle l : existsb (folderMatches needle) l = true ↔ ∃ f, f ∈ l ∧ found_folder needle f.
Proof.
  rewrite existsb_exists. setoid_rewrite <- list_elem_of_In. unfold folderMatches, found_folder, occurs. setoid_rewrite orb_true_iff.
  setoid_rewrite bool_decide_eq_true. by setoid_rewrite includes_spec.
Qed.

Lemma shown_appears folders items needle x : shown folders items needle x ↔ appears folders items needle x.
Proof.
  unfold shown, shown_in, appears. setoid_rewrite matchesQuery_found. setoid_rewrite folderMatches_found.
  assert (itemHome folders x = None ↔ ∀ i, it_folder x = Some i → i ∉ ids folders) as ->.
  { unfold itemHome. destruct (it_folder x) as [i|]; [|done]. case_bool_decide; split; try done; naive_solver. }
  assert (∀ l g, hangs folders l g → itemHome folders x = Some (fo_id g) ↔ it_folder x = Some (fo_id g)) as Hh.
  { intros l g [Hg _]%hangs_listed. unfold itemHome. destruct (it_folder x) as [i|]; [|done]. case_bool_decide as Hi; [done|]. split; [done|].
    intros [= ->]. destruct Hi. by apply (list_elem_of_fmap_2 ident). }
  split.
  - intros [(Hx & Hi & Hf)|(l & g & Hg & Hx & Hi & Hf)]; (split; [done|]); [by left|right]. exists l, g. split; [done|]. split; [by eapply Hh|tauto].
  - intros [Hx [[Hf Hi]|(l & g & Hg & Hi & Hf)]]; [left; tauto|right]. exists l, g. split_and!; [done|done|by eapply Hh|tauto].
Qed.


(** ** Rows *)

(** The rows of artifacts of an expanded tree are its artifacts, in order. *)
Definition row_file (node : LibraryTreeNode) : option PlacedLibraryItem :=
  match node with file_node _ _ _ _ item => Some item | _ => None end.

Fixpoint rows_files (node : LibraryTreeNode) : omap row_file (node_rows [] node) = files node.
Proof.
  destruct node as [|key parent i depth name nodes total matched]; [done|]. cbn [node_rows].
  rewrite bool_decide_false by by apply not_elem_of_nil. cbn [omap list_omap row_file files].
  induction nodes as [|n nodes IH]; [done|]. cbn [flat_map]. rewrite omap_app, rows_files. f_equal. exact IH.
Qed.

(** ** Names and paths *)

Lemma lower_app a b : toLowerCase (a +:+ b) = toLowerCase a +:+ toLowerCase b.
Proof.
  induction a as [|c a IH]; [done|].
  change (String.String (lower_char c) (toLowerCase (a +:+ b)) = String.String (lower_char c) (toLowerCase a +:+ toLowerCase b)).
  by rewrite IH.
Qed.

Lemma lower_digits s : all_chars is_digit s = true → toLowerCase s = s.
Proof.
  induction s as [|c s IH]; [done|]. cbn [all_chars toLowerCase]. intros [Hc Hs]%andb_true_iff. rewrite IH by done. f_equal.
  unfold is_digit in Hc. apply andb_true_iff in Hc as [_ Hc%Nat.leb_le]. unfold lower_char. cbv zeta.
  destruct (Nat.leb_spec 65 (code c)); [lia|]. destruct (Nat.leb_spec 192 (code c)); [lia|]. done.
Qed.

Lemma lower_nat n : toLowerCase (intText (Z.of_nat n)) = intText (Z.of_nat n).
Proof.
  apply lower_digits. unfold intText. destruct n as [|n]; [done|]. cbn [Z.of_nat]. apply (pretty_N_digits (N.pos _)).
Qed.

Lemma app_str_inj a b c : a +:+ b = a +:+ c → b = c.
Proof. induction a as [|x a IH]; [done|]. intros [= ?]. by apply IH. Qed.

Lemma folderNameAt_inj m n : 1 ≤ m → 1 ≤ n → toLowerCase (folderNameAt m) = toLowerCase (folderNameAt n) → m = n.
Proof.
  intros Hm Hn. unfold folderNameAt. destruct (Nat.ltb_spec m 2), (Nat.ltb_spec n 2); [lia| | |];
    rewrite ?lower_app, ?lower_nat; intros Heq.
  - change (toLowerCase "New folder") with ("new folder" +:+ "") in Heq.
    change (toLowerCase "New folder " +:+ intText (Z.of_nat n)) with ("new folder" +:+ (" " +:+ intText (Z.of_nat n))) in Heq.
    by apply app_str_inj in Heq.
  - change (toLowerCase "New folder") with ("new folder" +:+ "") in Heq.
    change (toLowerCase "New folder " +:+ intText (Z.of_nat m)) with ("new folder" +:+ (" " +:+ intText (Z.of_nat m))) in Heq.
    by apply app_str_inj in Heq.
  - apply app_str_inj, intText_inj in Heq. lia.
Qed.

Lemma freeFolderName_None taken fuel n :
  freeFolderName taken fuel n = None → ∀ j, n ≤ j ≤ n + fuel → toLowerCase (folderNameAt j) ∈ taken.
Proof.
  revert n. induction fuel as [|fuel IH]; intros n; cbn [freeFolderName]; case_bool_decide as Hn; try done; intros H j Hj.
  - by replace j with n by lia.
  - destruct (decide (j = n)) as [->|]; [done|]. apply (IH _ H). lia.
Qed.

Lemma freeFolderName_free taken fuel n name : freeFolderName taken fuel n = Some name → toLowerCase name ∉ taken.
Proof.
  revert n. induction fuel as [|fuel IH]; intros n; cbn [freeFolderName]; case_bool_decide; try done.
  1,3: by intros [= <-]. apply IH.
Qed.

(** A new folder always gets a name, and no folder beside it has that name in any
    case of its letters. *)
Theorem new_folder_name_is_free folders parentId :
  ∃ name, uniqueLibraryFolderName folders parentId = Some name ∧
          ∀ f, f ∈ folders → fo_parent f = parentId → toLowerCase (fo_name f) ≠ toLowerCase name.
Proof.
  unfold uniqueLibraryFolderName. cbv zeta. set (taken := _ <$> filter _ folders).
  destruct (freeFolderName taken (length taken) 1) as [name|] eqn:Hf.
  - exists name. split; [done|]. intros f Hin Hp Heq. apply freeFolderName_free in Hf. apply Hf. rewrite <- Heq.
    apply (list_elem_of_fmap_2 (λ f, toLowerCase (fo_name f))), list_elem_of_filter. done.
  - exfalso. set (used := (λ j, toLowerCase (folderNameAt j)) <$> seq 1 (S (length taken))).
    assert (length used ≤ length taken) as Hlen; [|unfold used in Hlen; rewrite length_fmap, length_seq in Hlen; lia].
    apply submseteq_length, NoDup_submseteq.
    + unfold used. apply NoDup_fmap_2_strong; [|apply NoDup_seq]. intros x y [Hx _]%elem_of_seq [Hy _]%elem_of_seq. by apply folderNameAt_inj.
    + intros x (j & -> & Hj%elem_of_seq)%list_elem_of_fmap. eapply freeFolderName_None; [done|]. lia.
Qed.

(** ** A folder whose parent is not listed *)

Definition lost_folder : LibraryFolder := {| fo_id := "inner"; fo_parent := Some "gone"; fo_name := "Inner" |}.

Definition lost_item : PlacedLibraryItem :=
  {| it_id := "x"; it_name := "x"; it_folder := Some "inner"; it_source := from_node; it_original_filename := None;
     it_saved_at := ""; it_artifact_type := "scalar.text@1"; it_content_type := None;
     it_schema_version := 1; it_sha256 := None |}.

(** An artifact in a listed folder whose parent folder is not listed has no row, not
    even with an empty filter, although an artifact filed in a folder that is not listed
    is shown at the root. *)
Theorem artifact_under_unlisted_parent_is_hidden collate parseDate sort :
  buildLibraryTree collate parseDate [lost_folder] [lost_item] None sort = Some [] ∧
  ∃ row, buildLibraryTree collate parseDate [] [lost_item] None sort = Some [row] ∧ files row = [lost_item].
Proof. destruct sort; (split; [reflexivity|eexists; split; reflexivity]). Qed.

(** ** Witness *)

Definition sample_folders : list LibraryFolder :=
  [{| fo_id := "f"; fo_parent := None; fo_name := "Maps" |}; {| fo_id := "inner"; fo_parent := Some "f"; fo_name := "Old" |}].


(** ** The path of a folder *)

Lemma folderById_listed folders i f : folderById folders i = Some f → f ∈ folders ∧ fo_id f = i.
Proof. unfold folderById. intros [Hf Hi]%find_id_Some. by rewrite elem_of_reverse in Hf. Qed.

Lemma folderById_unique folders f : NoDup (ids folders) → f ∈ folders → folderById folders (fo_id f) = Some f.
Proof.
  intros Hu Hf. unfold folderById. apply (find_id_NoDup f (reverse folders)); [|by apply elem_of_reverse].
  unfold ids. by rewrite reverse_Permutation.
Qed.

(** The walk ends also on a listing whose parents form a cycle. *)
Lemma folderPathUp_total folders fuel visited current path :
  NoDup visited → visited ⊆ ids folders → (∀ f, current = Some f → f ∈ folders) →
  length folders ≤ fuel + length visited → is_Some (folderPathUp folders fuel visited current path).
Proof.
  revert visited current path. induction fuel as [|fuel IH]; intros visited [f|] path Hnd Hsub Hcur Hlen; cbn [folderPathUp];
    [|by eexists| |by eexists]; case_bool_decide as Hv; try by eexists.
  - assert (NoDup (fo_id f :: visited)) as Hnd' by by constructor.
    assert (fo_id f :: visited ⊆ ids folders) as Hsub'.
    { intros x [->|Hx]%elem_of_cons; [apply elem_of_ids; exists f; split; [by apply Hcur|done]|by apply Hsub]. }
    apply (NoDup_submseteq _ _ Hnd'), submseteq_length in Hsub'. unfold ids in Hsub'. rewrite length_fmap in Hsub'. cbn in Hsub'. lia.
  - apply IH.
    + by constructor.
    + intros x [->|Hx]%elem_of_cons; [apply elem_of_ids; exists f; split; [by apply Hcur|done]|by apply Hsub].
    + intros g (i & _ & Hg)%bind_Some. by apply folderById_listed in Hg as [].
    + cbn. lia.
Qed.

Lemma folderPathUp_chain folders fuel l f visited path :
  NoDup (ids folders) → hangs folders l f → length l ≤ fuel → (∀ g, g ∈ l → fo_id g ∉ visited) →
  folderPathUp folders fuel visited (Some f) path = Some (reverse (fo_name <$> l) ++ path).
Proof.
  intros Hu Hl. revert fuel visited path. induction Hl as [f Hf Hp|f p l Hl IH Hf Hp]; intros [|fuel] visited path Hlen Hv; cbn in Hlen; try lia.
  - cbn [folderPathUp]. rewrite bool_decide_false by (apply Hv; by left). rewrite Hp. cbn. by destruct fuel.
  - cbn [folderPathUp]. rewrite bool_decide_false by (apply Hv; by left). rewrite Hp. cbn [mbind option_bind].
    assert (folderById folders (fo_id p) = Some p) as ->.
    { apply folderById_unique; [done|]. by apply hangs_listed in Hl as []. }
    rewrite IH; [|lia|].
    + by rewrite fmap_cons, reverse_cons, <- (assoc_L (++)).
    + intros g Hg [Heq|Hin]%elem_of_cons; [|by eapply Hv; [right|]].
      assert (NoDup (f :: l)) as [Hfl _]%NoDup_cons by (eapply hangs_NoDup; [done|by econstructor]).
      apply Hfl. assert (f = g) as ->; [|done]. apply (folder_by_id folders); [done|done| |done].
      destruct (hangs_elem _ _ _ _ Hl Hg) as (? & up & _ & Hup). by apply hangs_listed in Hup as [].
Qed.

(** The path shown under a row always comes back, also when the stored parents form
    a cycle, and for a folder that hangs in the tree it is the names of the folders from
    the root down to it. *)
Theorem folder_path_is_the_chain folders :
  (∀ i, is_Some (libraryFolderPath folders i)) ∧
  ∀ l f, NoDup (ids folders) → hangs folders l f → libraryFolderPath folders (Some (fo_id f)) = Some (reverse (fo_name <$> l)).
Proof.
  split.
  - intros i. apply folderPathUp_total; [constructor|by intros x ?%elem_of_nil| |cbn; lia].
    intros f (k & _ & Hf)%bind_Some. by apply folderById_listed in Hf as [].
  - intros l f Hu Hl. unfold libraryFolderPath. cbn [mbind option_bind].
    assert (folderById folders (fo_id f) = Some f) as ->.
    { apply folderById_unique; [done|]. by apply hangs_listed in Hl as []. }
    rewrite (folderPathUp_chain _ _ _ _ _ _ Hu Hl); [by rewrite app_nil_r|by eapply hangs_bounded|by intros g _ ?%elem_of_nil].
Qed.
