(* ===== verification/RoomBridge.v ===== *)
(** * The Project-room command bridge

    [room/room-command-bridge.ts]: how a local authoring command becomes the
    Project command the room carries, how an accepted Project command becomes a
    local one, and how an accepted batch is replayed onto the confirmed head.
    [presentationFromGraphDocument] is from [canvas/artifact-viewer.ts]. *)

From S2P Require Import Prelude Js GraphModel GraphCommands.

(** ** Wire data *)

Record ViewerPosition := { vp_viewer_id : string; vp_x : jsnum; vp_y : jsnum }.
Record AnnotationPosition := { ap_annotation_id : string; ap_x : jsnum; ap_y : jsnum }.

(** A command inside one Graph.  [R_unknown] stands for a body of any other kind:
    the room parser only checks that [kind] is a string. *)
Inductive RoomGraphBodyCommand :=
| R_move_nodes (positions : list NodePosition)
| R_add_node (node : GraphNode)
| R_duplicate_node (source_node_id : string) (node : GraphNode)
| R_remove_nodes (node_ids : list string)
| R_add_edge (edge : GraphEdge)
| R_remove_edges (edge_ids : list string)
| R_add_origin (origin : GraphOrigin)
| R_remove_origins (origin_ids : list string)
| R_update_node_configuration (node_id field : string) (value expected_value : jsval)
| R_update_node_layout (node_id : string) (layout expected_layout : jsopt GraphNodeLayout)
| R_update_node_configuration_and_input_plugs (node_id : string) (config : jsobj)
    (input_plugs : list GraphInputPlug) (expected_config : jsobj) (expected_plug_ids : list string)
| R_set_node_artifact_type_binding (node_id : string) (binding : GraphArtifactTypeBinding)
    (expected_binding : jsopt GraphArtifactTypeBinding)
| R_clear_node_artifact_type_binding (node_id var : string) (expected_binding : GraphArtifactTypeBinding)
| R_set_node_input_plugs (node_id : string) (input_plugs : list GraphInputPlug) (expected_plug_ids : list string)
| R_update_edge (edge expected_edge : GraphEdge)
| R_update_origin (origin expected_origin : GraphOrigin)
| R_add_agent (agent : GraphAgent)
| R_configure_agent (agent : GraphAgent)
| R_remove_agent (agent_id : string)
| R_replace_document (document : GraphDocument)
| R_replace_presentation (presentation : GraphPresentation)
| R_move_artifact_viewers (positions : list ViewerPosition)
| R_move_annotations (positions : list AnnotationPosition)
| R_unknown (kind : string).

Inductive RoomProjectCommand :=
| P_rename_project (nm expected_name : string)
| P_add_graph (graph_id nm : string) (document : jsopt GraphDocument)
| P_rename_graph (graph_id nm expected_name : string)
| P_remove_graph (graph_id : string)
| P_refresh_node (graph_id node_id : string) (expected_generation : Z)
| P_add_call_node (graph_id node_id callee_graph_id : string) (position : GraphPoint)
| P_in_graph (graph_id : string) (command : RoomGraphBodyCommand)
| P_unknown (kind : string).

(** One Graph of a Project.  The refresh generations are only carried along. *)
Record GraphDefinition := {
  g_id : string;
  g_name : string;
  g_document : GraphDocument;
  g_refresh_generations : jsval
}.

#[export] Instance graph_identified : Identified GraphDefinition := g_id.

(** The confirmed head ([ProjectHeadResponse]); its sequence numbers are
    integers, which the room parser checks. *)
Record CollaborativeHead := {
  h_checkpoint_revision : Z;
  h_checkpoint_sequence : Z;
  h_collaboration_sequence : Z;
  h_graphs : list GraphDefinition;
  h_name : string;
  h_project_id : string;
  h_room_epoch : string;
  h_updated_at : string
}.

Definition with_sequence (s : Z) (h : CollaborativeHead) : CollaborativeHead :=
  {| h_checkpoint_revision := h_checkpoint_revision h; h_checkpoint_sequence := h_checkpoint_sequence h;
     h_collaboration_sequence := s; h_graphs := h_graphs h; h_name := h_name h;
     h_project_id := h_project_id h; h_room_epoch := h_room_epoch h; h_updated_at := h_updated_at h |}.

Definition with_graphs (gs : list GraphDefinition) (h : CollaborativeHead) : CollaborativeHead :=
  {| h_checkpoint_revision := h_checkpoint_revision h; h_checkpoint_sequence := h_checkpoint_sequence h;
     h_collaboration_sequence := h_collaboration_sequence h; h_graphs := gs; h_name := h_name h;
     h_project_id := h_project_id h; h_room_epoch := h_room_epoch h; h_updated_at := h_updated_at h |}.

Definition with_head_name (nm : string) (h : CollaborativeHead) : CollaborativeHead :=
  {| h_checkpoint_revision := h_checkpoint_revision h; h_checkpoint_sequence := h_checkpoint_sequence h;
     h_collaboration_sequence := h_collaboration_sequence h; h_graphs := h_graphs h; h_name := nm;
     h_project_id := h_project_id h; h_room_epoch := h_room_epoch h; h_updated_at := h_updated_at h |}.

(** ** Local to wire *)

Definition toInGraphCommand (graphId : string) (command : RoomGraphBodyCommand) : RoomProjectCommand :=
  P_in_graph graphId command.

Definition toRoomReplaceDocumentCommand (draft : GraphDraft) (graphId : string) : RoomProjectCommand :=
  let document := authoredGraphDocument draft in
  let presentation := jsopt_or (d_presentation (draft_document draft)) emptyPresentation in
  toInGraphCommand graphId (R_replace_document
    {| d_nodes := projectSavedGraphNode <$> nodes document;
       d_edges := projectSavedGraphEdge <$> edges document;
       d_origins := projectSavedGraphOrigin <$> origins document;
       d_agents := Val (projectSavedGraphAgent <$> agents document);
       d_presentation := Val {| viewers := viewers presentation; links := links presentation;
                                bindings := bindings presentation; annotations := annotations presentation |} |}).

Definition toRoomRenameGraphCommand (graphId nm expectedName : string) : RoomProjectCommand :=
  P_rename_graph graphId nm expectedName.

Definition toRoomRenameProjectCommand (nm expectedName : string) : RoomProjectCommand :=
  P_rename_project nm expectedName.

(** [{...edge, ...command.update}] of the update as given, then projected: an
    explicit [undefined] or [null] conversion path makes the projection's [map]
    call throw. *)
Definition projectSpreadEdge (edge : GraphEdge) (u : SavedGraphEdgeUpdate) : res GraphEdge :=
  match u_conversion_path u with
  | Some Undef | Some Null => Throw "TypeError"
  | _ => Ok (projectSavedGraphEdge (spreadEdgeUpdate edge u))
  end.

Definition projectSpreadOrigin (origin : GraphOrigin) (u : SavedGraphOriginUpdate) : res GraphOrigin :=
  match uo_conversion_path u with
  | Some Undef | Some Null => Throw "TypeError"
  | _ => Ok (projectSavedGraphOrigin (spreadOriginUpdate origin u))
  end.

(** The cases that read the edited node; [None] when the node is gone. *)
Definition toRoomNodeEdit (command : GraphCommand) (node : GraphNode) : option RoomGraphBodyCommand :=
  match command with
  | update_node_configuration node_id field value =>
      Some (R_update_node_configuration node_id field value
              (coalesce (obj_get field (jsopt_or (n_config node) [])) JNull))
  | update_node_layout node_id layout =>
      Some (R_update_node_layout node_id (or_null id layout) (or_null id (n_layout node)))
  | update_node_configuration_and_input_plugs node_id config input_plugs =>
      Some (R_update_node_configuration_and_input_plugs node_id config input_plugs
              (jsopt_or (n_config node) []) (plug_id <$> n_input_plugs node))
  | bind_artifact_type node_id var atype =>
      let current := snd <$> list_find (λ b, variable b = var) (n_artifact_type_bindings node) in
      Some (R_set_node_artifact_type_binding node_id {| variable := var; artifact_type := atype |}
              (match current with Some b => Val b | None => Null end))
  | reset_artifact_type_binding node_id var =>
      match snd <$> list_find (λ b, variable b = var) (n_artifact_type_bindings node) with
      | Some current => Some (R_clear_node_artifact_type_binding node_id var current)
      | None => None
      end
  | _ => None
  end.

(** [add_input_plug], [remove_input_plug] and [reorder_input_plug] travel as the
    plugs the local apply leaves on the node. *)
Definition toRoomPlugCommand (command : GraphCommand) (document : AuthoredGraphDocument) (node_id : string)
    : res (option RoomGraphBodyCommand) :=
  match find_id node_id (nodes document) with
  | None => Ok None
  | Some node =>
      nextDocument ← applyGraphCommand document command;
      match find_id node_id (nodes nextDocument) with
      | None => Ok None
      | Some nextNode =>
          Ok (Some (R_set_node_input_plugs node_id (n_input_plugs nextNode) (plug_id <$> n_input_plugs node)))
      end
  end.

Definition toRoomGraphBodyCommand (command : GraphCommand) (document : AuthoredGraphDocument)
    : res (option RoomGraphBodyCommand) :=
  match command with
  | move_nodes positions => Ok (Some (R_move_nodes positions))
  | add_node node => Ok (Some (R_add_node (projectSavedGraphNode node)))
  | remove_nodes node_ids => Ok (Some (R_remove_nodes node_ids))
  | add_edge edge => Ok (Some (R_add_edge (projectSavedGraphEdge edge)))
  | remove_edges edge_ids => Ok (Some (R_remove_edges edge_ids))
  | add_origin origin => Ok (Some (R_add_origin (projectSavedGraphOrigin origin)))
  | remove_origins origin_ids => Ok (Some (R_remove_origins origin_ids))
  | update_node_configuration node_id _ _
  | update_node_layout node_id _
  | update_node_configuration_and_input_plugs node_id _ _
  | bind_artifact_type node_id _ _
  | reset_artifact_type_binding node_id _ =>
      Ok (node ← find_id node_id (nodes document); toRoomNodeEdit command node)
  | update_edge edge_id update =>
      match find_id edge_id (edges document) with
      | None => Ok None
      | Some edge =>
          edge' ← projectSpreadEdge edge update;
          Ok (Some (R_update_edge edge' (projectSavedGraphEdge edge)))
      end
  | update_origin origin_id update =>
      match find_id origin_id (origins document) with
      | None => Ok None
      | Some origin =>
          origin' ← projectSpreadOrigin origin update;
          Ok (Some (R_update_origin origin' (projectSavedGraphOrigin origin)))
      end
  | add_agent agent => Ok (Some (R_add_agent (projectSavedGraphAgent agent)))
  | configure_agent agent => Ok (Some (R_configure_agent (projectSavedGraphAgent agent)))
  | remove_agent agent_id => Ok (Some (R_remove_agent agent_id))
  | replace_document doc => Ok (Some (R_replace_document (draft_document (createGraphDraft doc Undef))))
  | add_input_plug node_id _
  | remove_input_plug node_id _
  | reorder_input_plug node_id _ _ _ => toRoomPlugCommand command document node_id
  | rename_graph _ => Ok None
  end.

Definition toRoomGraphCommand (command : GraphCommand) (document : AuthoredGraphDocument) (graphId : string)
    : res (option RoomProjectCommand) :=
  match command with
  | rename_graph nm => Ok (Some (toRoomRenameGraphCommand graphId nm (name document)))
  | _ =>
      body ← toRoomGraphBodyCommand command document;
      Ok (option_map (toInGraphCommand graphId) body)
  end.

(** ** Wire to local *)

Definition inGraphBody (command : RoomProjectCommand) (graphId : option string) : option RoomGraphBodyCommand :=
  match command with
  | P_in_graph graph_id body =>
      match graphId with
      | Some g => if bool_decide (graph_id = g) then Some body else None
      | None => Some body
      end
  | _ => None
  end.

(** An accepted edge update names five of the edge's fields. *)
Definition localEdgeUpdate (edge : GraphEdge) : SavedGraphEdgeUpdate :=
  {| u_collection_mode := Some (e_collection_mode edge); u_enabled := Some (e_enabled edge);
     u_projection := Some (e_projection edge); u_conversion_path := Some (Val (e_conversion_path edge));
     u_route_offset := Some (e_route_offset edge); u_to_plug := None; u_from_port := None; u_to_port := None |}.

Definition localOriginUpdate (origin : GraphOrigin) : SavedGraphOriginUpdate :=
  {| uo_to_node := Some (o_to_node origin); uo_to_port := Some (o_to_port origin);
     uo_to_plug := Some (o_to_plug origin); uo_value := Some (o_value origin);
     uo_collection_mode := Some (o_collection_mode origin);
     uo_conversion_path := Some (Val (o_conversion_path origin)) |}.

Definition toLocalGraphCommand (command : RoomProjectCommand) (document : option AuthoredGraphDocument)
    (graphId : option string) : option GraphCommand :=
  body ← inGraphBody command graphId;
  match body with
  | R_move_nodes positions => Some (move_nodes positions)
  | R_add_node node => Some (add_node (projectSavedGraphNode node))
  | R_remove_nodes node_ids => Some (remove_nodes node_ids)
  | R_add_edge edge => Some (add_edge edge)
  | R_remove_edges edge_ids => Some (remove_edges edge_ids)
  | R_update_node_configuration node_id field value _ => Some (update_node_configuration node_id field value)
  | R_update_node_layout node_id layout _ => Some (update_node_layout node_id layout)
  | R_update_node_configuration_and_input_plugs node_id config input_plugs _ _ =>
      Some (update_node_configuration_and_input_plugs node_id config input_plugs)
  | R_set_node_artifact_type_binding node_id binding _ =>
      Some (bind_artifact_type node_id (variable binding) (artifact_type binding))
  | R_clear_node_artifact_type_binding node_id var _ => Some (reset_artifact_type_binding node_id var)
  | R_set_node_input_plugs node_id input_plugs _ =>
      doc ← document;
      node ← find_id node_id (nodes doc);
      Some (update_node_configuration_and_input_plugs node_id (jsopt_or (n_config node) []) input_plugs)
  | R_update_edge edge _ => Some (update_edge (e_id edge) (localEdgeUpdate edge))
  | R_add_origin origin => Some (add_origin origin)
  | R_update_origin origin _ => Some (update_origin (o_id origin) (localOriginUpdate origin))
  | R_remove_origins origin_ids => Some (remove_origins origin_ids)
  | R_add_agent agent => Some (add_agent (projectSavedGraphAgent agent))
  | R_configure_agent agent => Some (configure_agent (projectSavedGraphAgent agent))
  | R_remove_agent agent_id => Some (remove_agent agent_id)
  | R_replace_document doc =>
      Some (replace_document (authoredGraphDocument
        {| draft_name := match document with Some d => name d | None => "" end; draft_document := doc |}))
  | R_duplicate_node _ node => Some (add_node (projectSavedGraphNode node))
  | R_replace_presentation _ | R_move_artifact_viewers _ | R_move_annotations _ => None
  | R_unknown _ => None
  end.

(** The Graph a batch is addressed to, when every [in_graph] entry names the same
    one. *)
Definition commandBatchGraphId (commands : list RoomProjectCommand) : option string :=
  match js_set (omap (λ c, match c with P_in_graph g _ => Some g | _ => None end) commands) with
  | [g] => Some g
  | _ => None
  end.

(** ** Replay onto the head *)

Definition prunePresentationLinks (presentation : GraphPresentation) (removedNodeIds : list string) : GraphPresentation :=
  match removedNodeIds with
  | [] => presentation
  | _ => {| viewers := viewers presentation;
            links := filter (λ l, l_source_node_id l ∉ removedNodeIds) (links presentation);
            bindings := bindings presentation; annotations := annotations presentation |}
  end.

Definition presentationFromGraphDocument (document : GraphDocument) : GraphPresentation :=
  match d_presentation document with
  | Val p => {| viewers := viewers p; links := links p; bindings := bindings p; annotations := annotations p |}
  | _ => emptyPresentation
  end.

Definition with_presentation (p : jsopt GraphPresentation) (d : GraphDocument) : GraphDocument :=
  {| d_nodes := d_nodes d; d_edges := d_edges d; d_origins := d_origins d; d_agents := d_agents d;
     d_presentation := p |}.

Definition presentationIntoDocument (document : GraphDocument) (presentation : GraphPresentation) : GraphDocument :=
  with_presentation (Val {| viewers := viewers presentation; links := links presentation;
                            bindings := bindings presentation; annotations := annotations presentation |}) document.

Definition withGraphDocument (graph : GraphDefinition) (document : GraphDocument) : GraphDefinition :=
  {| g_id := g_id graph; g_name := g_name graph; g_document := document;
     g_refresh_generations := g_refresh_generations graph |}.

Definition with_doc_nodes (ns : list GraphNode) (d : GraphDocument) : GraphDocument :=
  {| d_nodes := ns; d_edges := d_edges d; d_origins := d_origins d; d_agents := d_agents d;
     d_presentation := d_presentation d |}.

(** Replace the Graph with the id; a Graph the head does not hold only moves the
    sequence. *)
Definition mapGraphDocument (head : CollaborativeHead) (graphId : string)
    (update : GraphDefinition → res GraphDefinition) (sequence : Z) : res CollaborativeHead :=
  if some_id graphId (h_graphs head) then
    gs ← res_map (λ g, if bool_decide (g_id g = graphId) then update g else Ok g) (h_graphs head);
    Ok (with_sequence sequence (with_graphs gs head))
  else Ok (with_sequence sequence head).

(** The position the last entry gives an id ([new Map(...)] then [get]). *)
Definition viewerPositionFor (i : string) (ps : list ViewerPosition) : option GraphPoint :=
  (λ kp, {| pt_x := vp_x kp.2; pt_y := vp_y kp.2 |}) <$> list_find (λ p, vp_viewer_id p = i) (reverse ps).

Definition annotationPositionFor (i : string) (ps : list AnnotationPosition) : option GraphPoint :=
  (λ kp, {| pt_x := ap_x kp.2; pt_y := ap_y kp.2 |}) <$> list_find (λ p, ap_annotation_id p = i) (reverse ps).

Definition moveViewer (ps : list ViewerPosition) (v : GraphPresentationViewer) : GraphPresentationViewer :=
  match viewerPositionFor (v_id v) ps with
  | Some p => {| v_id := v_id v; v_position := p; v_layout := v_layout v; v_mode := v_mode v;
                 v_artifact_ref := v_artifact_ref v |}
  | None => v
  end.

Definition moveAnnotation (ps : list AnnotationPosition) (a : GraphPresentationAnnotation) : GraphPresentationAnnotation :=
  match annotationPositionFor (an_id a) ps with
  | Some p => {| an_id := an_id a; an_kind := an_kind a; an_position := p; an_layout := an_layout a;
                 an_text := an_text a; an_color := an_color a |}
  | None => a
  end.

Definition applyMoveArtifactViewers (positions : list ViewerPosition) (graph : GraphDefinition) : GraphDefinition :=
  let presentation := presentationFromGraphDocument (g_document graph) in
  withGraphDocument graph (presentationIntoDocument (g_document graph)
    {| viewers := moveViewer positions <$> viewers presentation; links := links presentation;
       bindings := bindings presentation; annotations := annotations presentation |}).

Definition applyMoveAnnotations (positions : list AnnotationPosition) (graph : GraphDefinition) : GraphDefinition :=
  let presentation := presentationFromGraphDocument (g_document graph) in
  withGraphDocument graph (presentationIntoDocument (g_document graph)
    {| viewers := viewers presentation; links := links presentation; bindings := bindings presentation;
       annotations := moveAnnotation positions <$> annotations presentation |}).

(** The last branch: every other body goes through the local vocabulary. *)
Definition applyLocalToGraph (command : RoomProjectCommand) (graph : GraphDefinition) : res GraphDefinition :=
  let base := authoredGraphDocument {| draft_name := g_name graph; draft_document := g_document graph |} in
  match toLocalGraphCommand command (Some base) (Some (g_id graph)) with
  | None => Ok graph
  | Some local =>
      nextDocument ← applyGraphCommand base local;
      let presentation := presentationFromGraphDocument (g_document graph) in
      let presentation := match local with
                          | remove_nodes node_ids => prunePresentationLinks presentation (js_set node_ids)
                          | _ => presentation
                          end in
      Ok (withGraphDocument graph (draft_document (createGraphDraft nextDocument (Val presentation))))
  end.

Definition applyInGraphToHead (head : CollaborativeHead) (graph_id : string) (body : RoomGraphBodyCommand)
    (sequence : Z) : res CollaborativeHead :=
  match body with
  | R_replace_document document =>
      mapGraphDocument head graph_id
        (λ graph, Ok (withGraphDocument graph
           (with_presentation (match d_presentation document with
                               | Val p => Val p
                               | _ => d_presentation (g_document graph)
                               end) document))) sequence
  | R_replace_presentation presentation =>
      mapGraphDocument head graph_id
        (λ graph, Ok (withGraphDocument graph (with_presentation (Val presentation) (g_document graph)))) sequence
  | R_move_artifact_viewers positions =>
      mapGraphDocument head graph_id (λ graph, Ok (applyMoveArtifactViewers positions graph)) sequence
  | R_move_annotations positions =>
      mapGraphDocument head graph_id (λ graph, Ok (applyMoveAnnotations positions graph)) sequence
  | R_set_node_input_plugs node_id input_plugs _ =>
      mapGraphDocument head graph_id
        (λ graph, Ok (withGraphDocument graph
           (with_doc_nodes (map_id node_id (set_plugs input_plugs) (d_nodes (g_document graph))) (g_document graph)))) sequence
  | _ => mapGraphDocument head graph_id (applyLocalToGraph (P_in_graph graph_id body)) sequence
  end.

Definition applyRoomCommandToHead (head : CollaborativeHead) (command : RoomProjectCommand) (sequence : Z)
    : res CollaborativeHead :=
  match command with
  | P_rename_project nm _ => Ok (with_sequence sequence (with_head_name nm head))
  | P_add_graph graph_id nm document =>
      if some_id graph_id (h_graphs head) then Ok (with_sequence sequence head)
      else
        let graph := {| g_id := graph_id; g_name := nm;
          g_document := jsopt_or document
            {| d_nodes := []; d_edges := []; d_origins := []; d_agents := Val []; d_presentation := Val emptyPresentation |};
          g_refresh_generations := JUndefined |} in
        Ok (with_sequence sequence (with_graphs (h_graphs head ++ [graph]) head))
  | P_remove_graph graph_id =>
      Ok (with_sequence sequence (with_graphs (filter (λ g, g_id g ≠ graph_id) (h_graphs head)) head))
  | P_rename_graph graph_id nm _ =>
      Ok (with_sequence sequence (with_graphs
        (map_id graph_id (λ g, {| g_id := g_id g; g_name := nm; g_document := g_document g;
                                  g_refresh_generations := g_refresh_generations g |}) (h_graphs head)) head))
  | P_refresh_node _ _ _ => Ok (with_sequence sequence head)
  | P_add_call_node graph_id node_id _ position =>
      mapGraphDocument head graph_id
        (λ graph, Ok (withGraphDocument graph
           (with_doc_nodes (map_id node_id (λ n, set_position position (set_kind KCall n)) (d_nodes (g_document graph)))
                           (g_document graph)))) sequence
  | P_in_graph graph_id body => applyInGraphToHead head graph_id body sequence
  | P_unknown _ => Ok (with_sequence sequence head)
  end.

Definition applyRoomCommandsToHead (head : CollaborativeHead) (commands : list RoomProjectCommand) (sequence : Z)
    : res CollaborativeHead :=
  res_fold (λ next command, applyRoomCommandToHead next command sequence) head commands.

(** ** Reading Graphs off a head *)

(** The authored view of a Graph; created and updated at the head's time. *)
Record SavedGraph := {
  sv_id : string;
  sv_name : string;
  sv_revision : Z;
  sv_created_at : string;
  sv_updated_at : string;
  sv_document : GraphDocument
}.

Definition savedGraphFromProjectHead (head : CollaborativeHead) (graphId : string) : option SavedGraph :=
  graph ← find_id graphId (h_graphs head);
  Some {| sv_id := g_id graph; sv_name := g_name graph; sv_revision := h_collaboration_sequence head;
          sv_created_at := h_updated_at head; sv_updated_at := h_updated_at head; sv_document := g_document graph |}.

Definition defaultGraphId (head : CollaborativeHead) : option string :=
  match h_graphs head with g :: _ => Some (g_id g) | [] => None end.
