(* ===== verification/Hydration.v ===== *)
(** * Opening a saved Graph ([canvas/saved-graph.ts])

    How the canvas is built from a stored document and the live registry of
    operators.  A node whose operator is gone, or whose stored form no longer fits
    it, is kept as it was stored and cannot run; a document that contradicts itself
    is refused with an error.

    The canvas objects are shared: the pass over the connections replaces the data of
    a node in place, which here is an update of the list by id.  Colours and line
    styles are left out.  Parameter: the text of a number in an operator's key. *)

From stdpp Require Import numbers list gmap.
From S2P Require Import Prelude Js JsText JsJson GraphModel GraphCommands RoomBridge Handles Routes ConfigSchema InputPlugs NodeLayout Canvas.

(** ** Data *)

Record NodeRegistry := {
  rg_nodes : list NodeSpec;
  rg_artifact_types : list ArtifactTypeSpec;
  rg_artifact_conversions : list ArtifactConversionSpec
}.

Record HydratedSavedGraph := { hy_nodes : list WorkflowNode; hy_edges : list WorkflowEdge }.

(** [Map.set] on entries in insertion order. *)
Fixpoint assoc_set {A} (k : string) (a : A) (l : list (string * A)) : list (string * A) :=
  match l with
  | [] => [(k, a)]
  | (k', b) :: l' => if bool_decide (k' = k) then (k, a) :: l' else (k', b) :: assoc_set k a l'
  end.

(** Schema versions are integers in the API contract. *)
Definition documentType (t : ArtifactTypeKey) : ArtifactTypeIdentity :=
  {| ty_id := at_id t; ty_schema_version := default 0%Z (num_integer (at_schema_version t)) |}.

#[export] Instance NodeRunStatus_eq_dec : EqDecision NodeRunStatus.
Proof. solve_decision. Defined.

(** ** Runs *)

(** [new Map(...)]: the last succeeded run of a node. *)
Definition runsByNodeId (nodeRuns : list RunNodeResult) : gmap string RunNodeResult :=
  foldl (λ runs run, <[rr_node_id run := run]> runs) ∅ (filter (λ run, rr_status run = nr_succeeded) nodeRuns).

Definition withMaterializedNodeRuns (nodes : list WorkflowNode) (nodeRuns : list RunNodeResult) : list WorkflowNode :=
  (λ node,
     let run := runsByNodeId nodeRuns !! wn_id node in
     with_data (with_overlay run {| x_status := match run with Some _ => st_succeeded | None => st_idle end; x_error := None |}
                  (nd_progress (wn_data node)) (wn_data node)) node) <$> nodes.

Section hydrate.
Context (numberText : jsnum → string).

Definition operatorKey (operatorId : string) (operatorVersion : jsnum) : string := operatorId +:+ "@" +:+ numberText operatorVersion.

(** [specs.get(key)]: the last specification of the key. *)
Definition specOf (registry : NodeRegistry) (key : string) : option NodeSpec :=
  last (filter (λ spec, operatorKey (spec_operator_id spec) (spec_operator_version spec) = key) (rg_nodes registry)).

(** ** Nodes that are kept as they were stored *)

Definition plug_text (p : jsopt string) : string := jsopt_or p "".

Definition compatibilityInputs (savedNode : GraphNode) (savedEdges : list GraphEdge) : list WorkflowCompatibilityEndpoint :=
  let plugs := foldl (λ m plug, assoc_set (plug_port plug +:+ "::" +:+ plug_id plug)
                                  {| ce_portName := plug_port plug; ce_plugId := Some (plug_id plug) |} m) [] (n_input_plugs savedNode) in
  snd <$> foldl (λ m edge,
            if bool_decide (e_to_node edge = n_id savedNode)
            then assoc_set (e_to_port edge +:+ "::" +:+ plug_text (e_to_plug edge))
                   {| ce_portName := e_to_port edge; ce_plugId := truthy (jsopt_to_option (e_to_plug edge)) |} m
            else m) plugs savedEdges.

Definition compatibilityOutputs (savedNode : GraphNode) (savedEdges : list GraphEdge) : list WorkflowCompatibilityEndpoint :=
  snd <$> foldl (λ m edge,
            if bool_decide (e_from_node edge = n_id savedNode)
            then assoc_set (e_from_port edge) {| ce_portName := e_from_port edge; ce_plugId := None |} m
            else m) [] savedEdges.

Definition unavailableNodeSpec (savedNode : GraphNode) : NodeSpec :=
  {| spec_operator_id := n_operator_id savedNode; spec_operator_version := n_operator_version savedNode;
     spec_title := n_operator_id savedNode; spec_inputs := []; spec_outputs := []; spec_config_schema := JObj [];
     spec_secret_inputs := JUndefined |}.

(** [createWorkflowNodeData(spec, savedNode.input_plugs)]: no id is drawn for a node
    that brings its plugs. *)
Definition createSavedNodeData (spec : NodeSpec) (plugs : list GraphInputPlug) : WorkflowNodeData :=
  {| nd_spec := spec; nd_compatibility := supported; nd_artifactTypeBindings := [];
     nd_inputPlugs := (λ p, {| wp_id := plug_id p; wp_portName := plug_port p |}) <$> plugs;
     nd_mappedInputPorts := []; nd_config := defaultNodeConfig spec; nd_layout := defaultNodeLayout spec; nd_run := None;
     nd_execution := idleExecution; nd_progress := None; nd_x := JUndefined; nd_y := JUndefined |}.

(** The fields the opening of a node sets on its data. *)
Definition with_saved (d : WorkflowNodeData) (spec : NodeSpec) (compatibility : WorkflowNodeCompatibility)
    (bindings : list (string * ArtifactTypeIdentity)) (config : jsobj) (layout : option WorkflowNodeLayout) : WorkflowNodeData :=
  {| nd_spec := spec; nd_compatibility := compatibility; nd_artifactTypeBindings := bindings; nd_inputPlugs := nd_inputPlugs d;
     nd_mappedInputPorts := nd_mappedInputPorts d; nd_config := config; nd_layout := layout; nd_run := nd_run d;
     nd_execution := nd_execution d; nd_progress := nd_progress d; nd_x := nd_x d; nd_y := nd_y d |}.

Definition incompatibleNodeData (savedNode : GraphNode) (savedEdges : list GraphEdge)
    (status : list string → list WorkflowCompatibilityEndpoint → list WorkflowCompatibilityEndpoint → GraphNode → WorkflowNodeCompatibility)
    (issues : list string) (spec : NodeSpec) : WorkflowNodeData :=
  with_saved (createSavedNodeData spec (n_input_plugs savedNode)) spec
    (status issues (compatibilityInputs savedNode savedEdges) (compatibilityOutputs savedNode savedEdges) savedNode)
    (foldl (λ b binding, binding_set (variable binding) (documentType (artifact_type binding)) b) [] (n_artifact_type_bindings savedNode))
    (jsopt_or (n_config savedNode) [])
    (hydrateNodeLayout (jsopt_to_option (n_layout savedNode))).

(** ** Nodes that fit their operator *)

Definition node_text (savedNode : GraphNode) : string := "node " +:+ n_id savedNode.

(** The loop over the plugs; the messages are those of the error without the name of
    the Graph, which is cut off again where they are caught. *)
Fixpoint requireInputPlugs (savedNode : GraphNode) (spec : NodeSpec) (plugIds : list string) (plugs : list GraphInputPlug) : res unit :=
  match plugs with
  | [] => Ok ()
  | plug :: rest =>
      match find (λ candidate, bool_decide (port_name candidate = plug_port plug)) (spec_inputs spec) with
      | Some port =>
          if negb (portHasInstancePlugs port)
          then Throw (node_text savedNode +:+ " input plug " +:+ plug_id plug +:+ " references non-instance input " +:+ plug_port plug)
          else if bool_decide (plug_id plug ∈ plugIds)
          then Throw (node_text savedNode +:+ " has duplicate input plug id " +:+ plug_id plug)
          else requireInputPlugs savedNode spec (plug_id plug :: plugIds) rest
      | None => Throw (node_text savedNode +:+ " input plug " +:+ plug_id plug +:+ " references non-instance input " +:+ plug_port plug)
      end
  end.

(** [registryArtifactTypes.has(bindingKey)]: a version that is not an integer is no
    registered version. *)
Definition typeAvailable (registry : NodeRegistry) (t : ArtifactTypeKey) : bool :=
  match num_integer (at_schema_version t) with
  | Some _ => bool_decide (artifactTypeKey (documentType t) ∈ (λ a, artifactTypeKey (as_key a)) <$> rg_artifact_types registry)
  | None => false
  end.

Definition bindingKeyText (t : ArtifactTypeKey) : string := at_id t +:+ "@" +:+ numberText (at_schema_version t).

Fixpoint requireArtifactTypeBindings (savedNode : GraphNode) (spec : NodeSpec) (registry : NodeRegistry)
    (bindings : list (string * ArtifactTypeIdentity)) (l : list GraphArtifactTypeBinding) : res (list (string * ArtifactTypeIdentity)) :=
  match l with
  | [] => Ok bindings
  | binding :: rest =>
      if negb (bool_decide (variable binding ∈ declaredArtifactTypeVariables spec))
      then Throw (node_text savedNode +:+ " binds undeclared artifact type variable " +:+ variable binding)
      else if binding_has (variable binding) bindings
      then Throw (node_text savedNode +:+ " binds artifact type variable " +:+ variable binding +:+ " more than once")
      else if negb (typeAvailable registry (artifact_type binding))
      then Throw (node_text savedNode +:+ " binds unavailable artifact type " +:+ bindingKeyText (artifact_type binding))
      else requireArtifactTypeBindings savedNode spec registry
             (bindings ++ [(variable binding, documentType (artifact_type binding))]) rest
  end.

(** The body of the [try]. *)
Definition supportedNodeData (registry : NodeRegistry) (savedNode : GraphNode) (spec : NodeSpec) : res WorkflowNodeData :=
  _ ← requireInputPlugs savedNode spec [] (n_input_plugs savedNode);
  bindings ← requireArtifactTypeBindings savedNode spec registry [] (n_artifact_type_bindings savedNode);
  let config := jsopt_or (n_config savedNode) [] in
  Ok (with_saved (createSavedNodeData spec (n_input_plugs savedNode)) (resolveInstancePortShapes spec config) supported bindings config
        (match hydrateNodeLayout (jsopt_to_option (n_layout savedNode)) with Some l => Some l | None => defaultNodeLayout spec end)).

Definition hydrateNodeData (registry : NodeRegistry) (savedEdges : list GraphEdge) (savedNode : GraphNode) : WorkflowNodeData :=
  let operatorIdentity := operatorKey (n_operator_id savedNode) (n_operator_version savedNode) in
  match n_kind savedNode, specOf registry operatorIdentity with
  | KModule, _ =>
      incompatibleNodeData savedNode savedEdges unsupported
        ["Operator " +:+ operatorIdentity +:+ " is a Module, a node type that is no longer supported. This saved node is preserved but cannot run."]
        (unavailableNodeSpec savedNode)
  | _, None =>
      incompatibleNodeData savedNode savedEdges unsupported
        ["Operator " +:+ operatorIdentity +:+ " is unavailable. This saved node is preserved but cannot run."]
        (unavailableNodeSpec savedNode)
  | _, Some spec =>
      match supportedNodeData registry savedNode spec with
      | Ok d => d
      | Throw issue => incompatibleNodeData savedNode savedEdges invalid [issue] spec
      end
  end.

Definition cannotOpen {A} (graphName message : string) : res A := Throw ("Cannot open “" +:+ graphName +:+ "”: " +:+ message).

Fixpoint hydrateNodes (graphName : string) (registry : NodeRegistry) (savedEdges : list GraphEdge) (nodeIds : list string) (l : list GraphNode)
    : res (list WorkflowNode) :=
  match l with
  | [] => Ok []
  | savedNode :: rest =>
      if bool_decide (n_id savedNode ∈ nodeIds) then cannotOpen graphName ("duplicate node id " +:+ n_id savedNode)
      else
        nodes ← hydrateNodes graphName registry savedEdges (n_id savedNode :: nodeIds) rest;
        Ok ({| wn_id := n_id savedNode; wn_selected := Some false; wn_position := n_position savedNode;
               wn_data := hydrateNodeData registry savedEdges savedNode |} :: nodes)
  end.

(** ** Connections to ports that are gone *)

Definition has_port (ports : list Port) (name : string) : bool := existsb (λ port, bool_decide (port_name port = name)) ports.

(** [node.data = incompatibleNodeData(...)] on the node of that id. *)
Definition invalidateNode (savedNodes : list GraphNode) (savedEdges : list GraphEdge) (i issue : string) (nodes : list WorkflowNode)
    : list WorkflowNode :=
  (λ n, match find (λ savedNode, bool_decide (n_id savedNode = i)) savedNodes with
        | Some savedNode =>
            if bool_decide (wn_id n = i) then with_data (incompatibleNodeData savedNode savedEdges invalid [issue] (wn_spec n)) n else n
        | None => n
        end) <$> nodes.

Definition removedOutput (savedNodes : list GraphNode) (savedEdges : list GraphEdge) (nodes : list WorkflowNode) (savedEdge : GraphEdge)
    : list WorkflowNode :=
  match find_id (e_from_node savedEdge) nodes, find_id (e_to_node savedEdge) nodes with
  | Some sourceNode, Some _ =>
      if data_is_supported (wn_data sourceNode) && negb (has_port (wn_outputs sourceNode) (e_from_port savedEdge))
      then invalidateNode savedNodes savedEdges (wn_id sourceNode)
             ("Saved connection " +:+ e_id savedEdge +:+ " references removed output " +:+ e_from_port savedEdge +:+ ".") nodes
      else nodes
  | _, _ => nodes
  end.

Definition removedInput (savedNodes : list GraphNode) (savedEdges : list GraphEdge) (nodes : list WorkflowNode) (savedEdge : GraphEdge)
    : list WorkflowNode :=
  match find_id (e_from_node savedEdge) nodes, find_id (e_to_node savedEdge) nodes with
  | Some _, Some targetNode =>
      if data_is_supported (wn_data targetNode) && negb (has_port (wn_inputs targetNode) (e_to_port savedEdge))
      then invalidateNode savedNodes savedEdges (wn_id targetNode)
             ("Saved connection " +:+ e_id savedEdge +:+ " references removed input " +:+ e_to_port savedEdge +:+ ".") nodes
      else nodes
  | _, _ => nodes
  end.

Definition invalidateRemovedPorts (savedNodes : list GraphNode) (savedEdges : list GraphEdge) (nodes : list WorkflowNode) : list WorkflowNode :=
  foldl (λ nodes savedEdge, removedInput savedNodes savedEdges (removedOutput savedNodes savedEdges nodes savedEdge) savedEdge) nodes savedEdges.

(** ** Mapped inputs *)

(** The connections that map, by the input they drive, with their places in the
    document: [mapEdgeByTargetInput]. *)
Definition mapEdgeAt (mapEdges : list (nat * GraphEdge)) (node port : string) : option (nat * GraphEdge) :=
  find (λ ie, bool_decide (e_to_node ie.2 = node) && bool_decide (e_to_port ie.2 = port)) mapEdges.

Definition collectMapEdge (graphName : string) (mapEdges : list (nat * GraphEdge)) (ie : nat * GraphEdge) : res (list (nat * GraphEdge)) :=
  let edge := ie.2 in
  if negb (bool_decide (e_collection_mode edge = MMap)) then Ok mapEdges
  else match mapEdgeAt mapEdges (e_to_node edge) (e_to_port edge) with
  | Some (_, existing) =>
      cannotOpen graphName ("node " +:+ e_to_node edge +:+ " has more than one map edge into input " +:+ e_to_port edge +:+ ": " +:+
        e_id existing +:+ " targets input " +:+ e_to_port existing +:+ " and " +:+ e_id edge +:+ " targets input " +:+ e_to_port edge +:+
        "; only one edge per input may drive mapped execution")
  | None => Ok (mapEdges ++ [ie])
  end.

Definition mappedNodeIds (mapEdges : list (nat * GraphEdge)) (savedOrigins : list GraphOrigin) : list string :=
  ((λ ie, e_to_node ie.2) <$> mapEdges) ++
  (o_to_node <$> filter (λ origin, o_collection_mode origin = MMap) savedOrigins).

(** ** Connections *)

(** [portMetaForPort] and [encodeHandleId]; the port may have neither a type nor a
    variable. *)
Definition portHandle (port : Port) (shape : PortShape) (plug : option string) (b : list (string * ArtifactTypeIdentity)) : res string :=
  match portMetaForPort port shape plug b with
  | Some meta => Ok (encodeHandleId meta)
  | None => Throw ("Cannot encode port " +:+ port_name port +:+ ": it has no artifact type or artifact type variable")
  end.

(** A version that is not an integer is no registered conversion's. *)
Definition conversionKey (c : GraphConversion) : option ConversionKey :=
  v ← num_integer (conv_version c); Some {| ck_id := conv_id c; ck_version := v |}.

Definition routeExists (registry : NodeRegistry) (savedEdge : GraphEdge) (sourceHandle targetHandle : string) : bool :=
  match mapM conversionKey (e_conversion_path savedEdge) with
  | Some conversionPath =>
      bool_decide (is_Some (connectionRouteForSelection
        {| Handles.sourceHandle := Some sourceHandle; Handles.targetHandle := Some targetHandle |}
        (rg_artifact_types registry) (rg_artifact_conversions registry)
        {| sel_projection := path <$> jsopt_to_option (e_projection savedEdge); sel_conversionPath := conversionPath |}))
  | None => false
  end.

Definition savedPlug (e : GraphEdge) : option string := jsopt_to_option (e_to_plug e).

(** The route is looked for with the shapes the ports declare. *)
Definition connectionRouteIsValid (registry : NodeRegistry) (savedEdge : GraphEdge) (sourceNode targetNode : WorkflowNode)
    (sourcePort targetPort : Port) : res bool :=
  source ← portHandle sourcePort (port_shape sourcePort) None (nd_artifactTypeBindings (wn_data sourceNode));
  target ← portHandle targetPort (port_shape targetPort) (savedPlug savedEdge) (nd_artifactTypeBindings (wn_data targetNode));
  Ok (routeExists registry savedEdge source target).

Definition nodeIssues (n : WorkflowNode) : list string :=
  match nd_compatibility (wn_data n) with
  | supported => []
  | unsupported issues _ _ _ | invalid issues _ _ _ => (λ issue, wn_id n +:+ ": " +:+ issue) <$> issues
  end.

Definition modeText (m : CollectionMode) : string := match m with MDirect => "direct" | MMap => "map" end.

Definition expectedModesText (modes : list CollectionMode) : string :=
  match modes with [] => "no supported collection mode" | _ => Js.join " or " ((λ mode, "'" +:+ modeText mode +:+ "'") <$> modes) end.

(** The handle of a source: many values come from a node that is mapped. *)
Definition sourceShapeOf (mapped : list string) (sourceNode : WorkflowNode) (port : Port) : PortShape :=
  if bool_decide (wn_id sourceNode ∈ mapped) then many else port_shape port.

Definition plugKey (node plug : string) : string := node +:+ "::" +:+ plug.

(** The plug a connection takes, and no other connection may. *)
Definition targetPlugKey (graphName : string) (occupied : list string) (savedEdge : GraphEdge) (targetNode : WorkflowNode) (targetPort : Port)
    : res (list string) :=
  if portHasInstancePlugs targetPort then
    match find (λ plug, bool_decide (Some (wp_id plug) = savedPlug savedEdge) && bool_decide (wp_portName plug = port_name targetPort))
            (nd_inputPlugs (wn_data targetNode)) with
    | None => cannotOpen graphName ("edge " +:+ e_id savedEdge +:+ " references missing input plug " +:+ default "null" (savedPlug savedEdge))
    | Some targetPlug =>
        let key := plugKey (wn_id targetNode) (wp_id targetPlug) in
        if bool_decide (key ∈ occupied)
        then cannotOpen graphName ("multiple edges target input plug " +:+ wp_id targetPlug +:+ " on node " +:+ wn_id targetNode)
        else Ok (key :: occupied)
    end
  else match savedPlug savedEdge with
  | Some plug => cannotOpen graphName ("edge " +:+ e_id savedEdge +:+ " assigns input plug " +:+ plug +:+ " to non-instance input " +:+ port_name targetPort)
  | None => Ok occupied
  end.

(** The shape a target is given by the connection that maps its input, unless that is
    the connection itself. *)
Definition targetShapeOf (mapEdges : list (nat * GraphEdge)) (index : nat) (targetNode : WorkflowNode) (targetPort : Port) : PortShape :=
  match mapEdgeAt mapEdges (wn_id targetNode) (port_name targetPort) with
  | Some (other, otherEdge) =>
      if negb (bool_decide (other = index)) && bool_decide (e_to_port otherEdge = port_name targetPort) then many else port_shape targetPort
  | None => port_shape targetPort
  end.

Record EdgeContext := {
  ec_graphName : string;
  ec_registry : NodeRegistry;
  ec_nodes : list WorkflowNode;
  ec_mapEdges : list (nat * GraphEdge);
  ec_mapped : list string
}.

(** A connection between two nodes that fit their operators: the plugs occupied after
    it and its two handles. *)
Definition supportedHandles (cx : EdgeContext) (occupied : list string) (index : nat) (savedEdge : GraphEdge)
    (sourceNode targetNode : WorkflowNode) (sourcePort targetPort : Port) : res (list string * string * string) :=
  occupied ← targetPlugKey (ec_graphName cx) occupied savedEdge targetNode targetPort;
  let sourceShape := sourceShapeOf (ec_mapped cx) sourceNode sourcePort in
  let targetShape := targetShapeOf (ec_mapEdges cx) index targetNode targetPort in
  let expected := collectionModesForShapes sourceShape targetPort targetShape in
  if negb (bool_decide (e_collection_mode savedEdge ∈ expected))
  then cannotOpen (ec_graphName cx) ("edge " +:+ e_id savedEdge +:+ " uses collection mode '" +:+ modeText (e_collection_mode savedEdge) +:+
         "' for source shape '" +:+ shapeText sourceShape +:+ "' and target shape '" +:+ shapeText targetShape +:+ "', expected " +:+
         expectedModesText expected)
  else
    valid ← connectionRouteIsValid (ec_registry cx) savedEdge sourceNode targetNode sourcePort targetPort;
    if negb valid then cannotOpen (ec_graphName cx) ("edge " +:+ e_id savedEdge +:+ " has an incompatible artifact route")
    else
      source ← portHandle sourcePort sourceShape None (nd_artifactTypeBindings (wn_data sourceNode));
      target ← portHandle targetPort (port_shape targetPort) (savedPlug savedEdge) (nd_artifactTypeBindings (wn_data targetNode));
      Ok (occupied, source, target).

(** A connection with an end that is only kept. *)
Definition compatibilityHandles (cx : EdgeContext) (savedEdge : GraphEdge) (sourceNode targetNode : WorkflowNode)
    (sourcePort targetPort : option Port) : res (string * string) :=
  source ← match sourcePort with
           | Some port => portHandle port (sourceShapeOf (ec_mapped cx) sourceNode port) None (nd_artifactTypeBindings (wn_data sourceNode))
           | None => Ok (compatibilityHandleId output {| ce_portName := e_from_port savedEdge; ce_plugId := None |})
           end;
  target ← match targetPort with
           | Some port => portHandle port (port_shape port) (savedPlug savedEdge) (nd_artifactTypeBindings (wn_data targetNode))
           | None => Ok (compatibilityHandleId input {| ce_portName := e_to_port savedEdge; ce_plugId := truthy (savedPlug savedEdge) |})
           end;
  Ok (source, target).

(** The port of a supported node; [None] for one that is not. *)
Definition supportedPort (n : WorkflowNode) (ports : list Port) (name : string) : option Port :=
  if data_is_supported (wn_data n) then find (λ port, bool_decide (port_name port = name)) ports else None.

Definition hydratedEdge (savedEdge : GraphEdge) (source target : string) (issues : list string) : WorkflowEdge :=
  {| we_id := e_id savedEdge; we_source := e_from_node savedEdge; we_target := e_to_node savedEdge;
     we_sourceHandle := Some source; we_targetHandle := Some target;
     we_data := Some {| ed_enabled := e_enabled savedEdge; ed_collectionMode := e_collection_mode savedEdge;
                        ed_projection := jsopt_to_option (e_projection savedEdge);
                        ed_conversionPath := Some (e_conversion_path savedEdge);
                        ed_routeOffset := jsopt_to_option (e_route_offset savedEdge);
                        ed_sourcePortName := Some (e_from_port savedEdge); ed_targetPortName := Some (e_to_port savedEdge);
                        ed_targetPlugId := savedPlug savedEdge;
                        ed_compatibilityIssues := match issues with [] => None | _ => Some issues end |} |}.

(** One connection: the plugs occupied after it and the canvas edge. *)
Definition hydrateEdge (cx : EdgeContext) (occupied : list string) (index : nat) (savedEdge : GraphEdge) : res (list string * WorkflowEdge) :=
  match find_id (e_from_node savedEdge) (ec_nodes cx), find_id (e_to_node savedEdge) (ec_nodes cx) with
  | None, _ => cannotOpen (ec_graphName cx) ("edge " +:+ e_id savedEdge +:+ " references missing source node " +:+ e_from_node savedEdge)
  | Some _, None => cannotOpen (ec_graphName cx) ("edge " +:+ e_id savedEdge +:+ " references missing target node " +:+ e_to_node savedEdge)
  | Some sourceNode, Some targetNode =>
      let sourceSupported := data_is_supported (wn_data sourceNode) in
      let targetSupported := data_is_supported (wn_data targetNode) in
      let sourcePort := supportedPort sourceNode (wn_outputs sourceNode) (e_from_port savedEdge) in
      let targetPort := supportedPort targetNode (wn_inputs targetNode) (e_to_port savedEdge) in
      if sourceSupported && bool_decide (sourcePort = None)
      then cannotOpen (ec_graphName cx) ("edge " +:+ e_id savedEdge +:+ " references missing output " +:+
             spec_operator_id (wn_spec sourceNode) +:+ "." +:+ e_from_port savedEdge)
      else if targetSupported && bool_decide (targetPort = None)
      then cannotOpen (ec_graphName cx) ("edge " +:+ e_id savedEdge +:+ " references missing input " +:+
             spec_operator_id (wn_spec targetNode) +:+ "." +:+ e_to_port savedEdge)
      else if negb sourceSupported || negb targetSupported then
        '(source, target) ← compatibilityHandles cx savedEdge sourceNode targetNode sourcePort targetPort;
        Ok (occupied, hydratedEdge savedEdge source target (nodeIssues sourceNode ++ nodeIssues targetNode))
      else match sourcePort, targetPort with
      | Some sourcePort, Some targetPort =>
          '(occupied, source, target) ← supportedHandles cx occupied index savedEdge sourceNode targetNode sourcePort targetPort;
          Ok (occupied, hydratedEdge savedEdge source target [])
      | _, _ => cannotOpen (ec_graphName cx) ("edge " +:+ e_id savedEdge +:+ " has unavailable ports")
      end
  end.

Fixpoint hydrateEdges (cx : EdgeContext) (edgeIds occupied : list string) (l : list (nat * GraphEdge)) : res (list WorkflowEdge) :=
  match l with
  | [] => Ok []
  | (index, savedEdge) :: rest =>
      if bool_decide (e_id savedEdge ∈ edgeIds) then cannotOpen (ec_graphName cx) ("duplicate edge id " +:+ e_id savedEdge)
      else
        '(occupied, edge) ← hydrateEdge cx occupied index savedEdge;
        edges ← hydrateEdges cx (e_id savedEdge :: edgeIds) occupied rest;
        Ok (edge :: edges)
  end.

Definition indexed {A} (l : list A) : list (nat * A) := zip (seq 0 (length l)) l.

Definition hydrateSavedGraph (savedGraph : SavedGraph) (registry : NodeRegistry) (nodeRuns : list RunNodeResult) : res HydratedSavedGraph :=
  let graphName := sv_name savedGraph in
  let document := sv_document savedGraph in
  let savedEdges := d_edges document in
  nodes ← hydrateNodes graphName registry savedEdges [] (d_nodes document);
  let nodes := invalidateRemovedPorts (d_nodes document) savedEdges nodes in
  mapEdges ← res_fold (collectMapEdge graphName) [] (indexed savedEdges);
  edges ← hydrateEdges {| ec_graphName := graphName; ec_registry := registry; ec_nodes := nodes; ec_mapEdges := mapEdges;
                          ec_mapped := mappedNodeIds mapEdges (d_origins document) |} [] [] (indexed savedEdges);
  Ok {| hy_nodes := withMaterializedNodeRuns nodes nodeRuns; hy_edges := edges |}.

Definition hydrateAuthoredGraphDocument (document : AuthoredGraphDocument) (registry : NodeRegistry) (nodeRuns : list RunNodeResult)
    : res HydratedSavedGraph :=
  let draft := createGraphDraft document Undef in
  hydrateSavedGraph {| sv_id := "00000000-0000-4000-8000-000000000000"; sv_name := draft_name draft; sv_revision := 0;
                       sv_created_at := "1970-01-01T00:00:00.000Z"; sv_updated_at := "1970-01-01T00:00:00.000Z";
                       sv_document := draft_document draft |} registry nodeRuns.
End hydrate.
