(* ===== verification/HydrationTheory.v ===== *)
(** * Opening a saved Graph: theorems

    Exactly which documents open, and what is on the canvas then. *)

From Stdlib Require Import Strings.Ascii.
From stdpp Require Import numbers list gmap.
From S2P Require Import Prelude Js JsText JsJson GraphModel GraphCommands RoomBridge Handles Routes ConfigSchema InputPlugs NodeLayout Canvas Hydration.

Section theory.
Context (numberText : jsnum → string).

(** ** Nodes *)

Definition hydratedNode (registry : NodeRegistry) (savedEdges : list GraphEdge) (savedNode : GraphNode) : WorkflowNode :=
  {| wn_id := n_id savedNode; wn_selected := Some false; wn_position := n_position savedNode;
     wn_data := hydrateNodeData numberText registry savedEdges savedNode |}.

Lemma hydrateNodes_iff graphName registry savedEdges seen l ns :
  hydrateNodes numberText graphName registry savedEdges seen l = Ok ns ↔
  NoDup (n_id <$> l) ∧ (∀ n, n ∈ l → n_id n ∉ seen) ∧ ns = hydratedNode registry savedEdges <$> l.
Proof.
  revert seen ns. induction l as [|n l IH]; intros seen ns; cbn [hydrateNodes].
  { split; [intros [= <-]; split_and!; [constructor|by intros n ?%elem_of_nil|done]|by intros (_ & _ & ->)]. }
  rewrite fmap_cons, NoDup_cons. case_bool_decide as Hin.
  { split; [done|]. intros (_ & H & _). destruct (H n); [by left|done]. }
  rewrite bind_ok. setoid_rewrite IH. split.
  - intros (ns' & (Hnd & Hseen & ->) & [= <-]). split_and!; [|done| |done].
    + intros (m & Hm & Hml)%list_elem_of_fmap. apply (Hseen m Hml). rewrite <- Hm. by left.
    + intros m [->|Hm]%elem_of_cons; [done|]. intros H. apply (Hseen m Hm). by right.
  - intros ([Hn Hnd] & Hseen & ->). eexists. split; [|done]. split_and!; [done| |done].
    intros m Hm [Heq|H]%elem_of_cons; [|by eapply Hseen; [right|]].
    apply Hn. rewrite <- Heq. by apply (list_elem_of_fmap_2 n_id).
Qed.

(** *** What is on the canvas of a stored node *)

(** Nothing of the stored node is lost: it fits the registry's operator and its plugs,
    types and configuration are taken over, or it is kept whole. *)
Definition keeps_node (registry : NodeRegistry) (savedNode : GraphNode) (d : WorkflowNodeData) : Prop :=
  match nd_compatibility d with
  | supported =>
      (∃ spec, spec ∈ rg_nodes registry ∧
               operatorKey numberText (spec_operator_id spec) (spec_operator_version spec) =
                 operatorKey numberText (n_operator_id savedNode) (n_operator_version savedNode) ∧
               nd_spec d = resolveInstancePortShapes spec (jsopt_or (n_config savedNode) [])) ∧
      n_kind savedNode ≠ KModule ∧
      (λ p, (wp_id p, wp_portName p)) <$> nd_inputPlugs d = (λ p, (plug_id p, plug_port p)) <$> n_input_plugs savedNode ∧
      nd_config d = jsopt_or (n_config savedNode) [] ∧
      nd_artifactTypeBindings d = (λ b, (variable b, documentType (artifact_type b))) <$> n_artifact_type_bindings savedNode
  | unsupported issues _ _ persisted | invalid issues _ _ persisted => persisted = savedNode ∧ issues ≠ []
  end.

Lemma requireArtifactTypeBindings_ok savedNode spec registry acc l b :
  requireArtifactTypeBindings numberText savedNode spec registry acc l = Ok b →
  b = acc ++ ((λ x, (variable x, documentType (artifact_type x))) <$> l).
Proof.
  revert acc. induction l as [|x l IH]; intros acc; cbn [requireArtifactTypeBindings]; [intros [= <-]; by rewrite app_nil_r|].
  repeat (case_match; [done|]). intros Hok%IH. by rewrite Hok, <- (assoc_L (++)).
Qed.

Lemma specOf_listed registry key spec :
  specOf numberText registry key = Some spec →
  spec ∈ rg_nodes registry ∧ operatorKey numberText (spec_operator_id spec) (spec_operator_version spec) = key.
Proof. unfold specOf. intros [? ?]%last_Some_elem_of%list_elem_of_filter. done. Qed.

Lemma hydrateNodeData_keeps registry savedEdges savedNode :
  keeps_node registry savedNode (hydrateNodeData numberText registry savedEdges savedNode).
Proof.
  unfold hydrateNodeData. cbv zeta. destruct (specOf _ _ _) as [spec|] eqn:Hs; [|by destruct (n_kind savedNode)].
  destruct (n_kind savedNode) eqn:Hk; [|done|]; (destruct (supportedNodeData numberText registry savedNode spec) as [d|issue] eqn:Hd; [|done]);
    unfold supportedNodeData in Hd; apply bind_ok in Hd as (_ & _ & Hd); apply bind_ok in Hd as (b & ->%requireArtifactTypeBindings_ok & [= <-]);
    unfold keeps_node; cbn [with_saved nd_compatibility nd_spec nd_config nd_artifactTypeBindings];
    (split; [exists spec; by apply specOf_listed in Hs as [? ?]|]); (split_and!; [by rewrite Hk|by cbn [nd_inputPlugs with_saved createSavedNodeData]; rewrite <- list_fmap_compose|done|done]).
Qed.

(** ** Ports that are gone *)

(** A node of the canvas stands for a stored node. *)
Definition stands_for (registry : NodeRegistry) (savedNode : GraphNode) (n : WorkflowNode) : Prop :=
  wn_id n = n_id savedNode ∧ wn_position n = n_position savedNode ∧ keeps_node registry savedNode (wn_data n).

(** The pass over the connections changes a node at most into one that is kept. *)
Definition degrades (n n' : WorkflowNode) : Prop :=
  wn_id n' = wn_id n ∧ wn_spec n' = wn_spec n ∧ (data_is_supported (wn_data n') = true → wn_data n' = wn_data n).

#[local] Instance degrades_preorder : PreOrder degrades.
Proof.
  split; [by intros n|]. intros n1 n2 n3 (H1 & H2 & H3) (H4 & H5 & H6). split_and!; [congruence..|].
  intros Hs. pose proof (H6 Hs) as Heq. rewrite Heq in *. by apply H3.
Qed.

Lemma degrades_find i nodes nodes' n' :
  Forall2 degrades nodes nodes' → find_id i nodes' = Some n' → ∃ n, find_id i nodes = Some n ∧ degrades n n'.
Proof.
  induction 1 as [|a b l l' Hab _ IH]; [done|]. rewrite !find_id_cons. pose proof Hab as (Hid & _ & _).
  change (ident b) with (wn_id b). change (ident a) with (wn_id a). rewrite Hid. case_decide; [|done]. intros [= <-]. by exists a.
Qed.

Lemma degrades_ids nodes nodes' : Forall2 degrades nodes nodes' → ids nodes' = ids nodes.
Proof. induction 1 as [|a b l l' (Hid & _) _ IH]; [done|]. cbn. unfold ids in IH. rewrite IH. f_equal. exact Hid. Qed.

Section removed.
Context (registry : NodeRegistry) (savedNodes : list GraphNode) (savedEdges : list GraphEdge) (Hnodup : NoDup (n_id <$> savedNodes)).

Lemma invalidate_degrades i issue nodes : Forall2 degrades nodes (invalidateNode savedNodes savedEdges i issue nodes).
Proof.
  unfold invalidateNode. induction nodes as [|n nodes IH]; [constructor|]. cbn. constructor; [|done].
  destruct (find _ savedNodes); [|done]. case_bool_decide; [|done]. by split_and!.
Qed.

Lemma find_saved savedNode : savedNode ∈ savedNodes → find (λ s, bool_decide (n_id s = n_id savedNode)) savedNodes = Some savedNode.
Proof.
  revert Hnodup. induction savedNodes as [|s l IH]; intros Hnd; [by intros ?%elem_of_nil|]. rewrite fmap_cons, NoDup_cons in Hnd. destruct Hnd as [Hs Hnd].
  intros [->|Hin]%elem_of_cons; cbn [find]; [by rewrite bool_decide_true|]. rewrite bool_decide_false; [by apply IH|].
  intros Heq. apply Hs. rewrite Heq. by apply (list_elem_of_fmap_2 n_id).
Qed.

Lemma invalidate_stands i issue nodes :
  Forall2 (stands_for registry) savedNodes nodes → Forall2 (stands_for registry) savedNodes (invalidateNode savedNodes savedEdges i issue nodes).
Proof.
  intros H. unfold invalidateNode. assert (∀ l, (∀ s, s ∈ l → s ∈ savedNodes) → ∀ ns, Forall2 (stands_for registry) l ns →
    Forall2 (stands_for registry) l ((λ n, match find (λ savedNode, bool_decide (n_id savedNode = i)) savedNodes with
        | Some savedNode => if bool_decide (wn_id n = i) then with_data (incompatibleNodeData savedNode savedEdges invalid [issue] (wn_spec n)) n else n
        | None => n end) <$> ns)) as Hall; [|by apply Hall].
  intros l Hl ns Hns. induction Hns as [|savedNode n l ns Hst _ IH]; [constructor|]. cbn. constructor; [|apply IH; intros s Hs; apply Hl; by right].
  destruct Hst as (Hid & Hpos & Hk). specialize (Hl savedNode ltac:(by left)). destruct (decide (wn_id n = i)) as [<-|Hne].
  - rewrite Hid, find_saved by done. rewrite bool_decide_true by done. by split_and!.
  - destruct (find _ savedNodes); [|done]. by rewrite bool_decide_false.
Qed.

Lemma invalidate_kept i issue nodes n :
  i ∈ n_id <$> savedNodes → find_id i (invalidateNode savedNodes savedEdges i issue nodes) = Some n → data_is_supported (wn_data n) = false.
Proof.
  intros (savedNode & -> & Hin)%list_elem_of_fmap. unfold invalidateNode. rewrite find_saved by done.
  intros [Hn Hid]%find_id_Some. apply list_elem_of_fmap in Hn as (m & -> & _). change (ident _) with (wn_id (if bool_decide (wn_id m = n_id savedNode)
    then with_data (incompatibleNodeData savedNode savedEdges invalid [issue] (wn_spec m)) m else m)) in Hid.
  case_bool_decide as Heq; [done|]. done.
Qed.

(** The ports a connection uses are there where the node fits its operator. *)
Definition ports_present (nodes : list WorkflowNode) (e : GraphEdge) : Prop :=
  ∀ sn tn, find_id (e_from_node e) nodes = Some sn → find_id (e_to_node e) nodes = Some tn →
    (data_is_supported (wn_data sn) = true → has_port (wn_outputs sn) (e_from_port e) = true) ∧
    (data_is_supported (wn_data tn) = true → has_port (wn_inputs tn) (e_to_port e) = true).

Lemma ports_present_degrades nodes nodes' e : Forall2 degrades nodes nodes' → ports_present nodes e → ports_present nodes' e.
Proof.
  intros Hd Hp sn tn (sn0 & Hs & (_ & Hss & Hsd))%(degrades_find _ _ _ _ Hd) (tn0 & Ht & (_ & Hts & Htd))%(degrades_find _ _ _ _ Hd).
  destruct (Hp _ _ Hs Ht) as [H1 H2]. unfold wn_outputs, wn_inputs in *. rewrite Hss, Hts. split; intros H.
  - rewrite (Hsd H) in H. by apply H1.
  - rewrite (Htd H) in H. by apply H2.
Qed.

Lemma removedOutput_degrades nodes e : Forall2 degrades nodes (removedOutput savedNodes savedEdges nodes e).
Proof. unfold removedOutput. repeat case_match; try apply invalidate_degrades; by apply Forall_Forall2_diag, Forall_forall. Qed.

Lemma removedInput_degrades nodes e : Forall2 degrades nodes (removedInput savedNodes savedEdges nodes e).
Proof. unfold removedInput. repeat case_match; try apply invalidate_degrades; by apply Forall_Forall2_diag, Forall_forall. Qed.

Lemma removed_present nodes e :
  ids nodes = n_id <$> savedNodes →
  ports_present (removedInput savedNodes savedEdges (removedOutput savedNodes savedEdges nodes e) e) e.
Proof.
  intros Hids. set (nodes1 := removedOutput savedNodes savedEdges nodes e).
  assert (ids nodes1 = n_id <$> savedNodes) as Hids1 by (rewrite <- Hids; apply degrades_ids, removedOutput_degrades).
  assert (∀ sn, find_id (e_from_node e) nodes1 = Some sn → is_Some (find_id (e_to_node e) nodes1) →
            data_is_supported (wn_data sn) = true → has_port (wn_outputs sn) (e_from_port e) = true) as Hout.
  { intros sn Hs Ht Hsup. apply find_id_is_Some in Ht. rewrite Hids1, <- Hids in Ht. apply find_id_is_Some in Ht as [tn0 Ht].
    destruct (degrades_find _ _ _ _ (removedOutput_degrades nodes e) Hs) as (sn0 & Hs0 & _).
    unfold nodes1, removedOutput in Hs. rewrite Hs0, Ht in Hs.
    assert (wn_id sn0 = e_from_node e) as Hid by by apply find_id_Some in Hs0 as [_ ?].
    destruct (data_is_supported (wn_data sn0) && negb (has_port (wn_outputs sn0) (e_from_port e))) eqn:Hb.
    - rewrite Hid in Hs. apply invalidate_kept in Hs; [congruence|]. rewrite <- Hids. apply find_id_is_Some. by exists sn0.
    - rewrite Hs0 in Hs. injection Hs as <-. rewrite Hsup in Hb. by apply negb_false_iff in Hb. }
  intros sn tn Hs Ht. destruct (degrades_find _ _ _ _ (removedInput_degrades nodes1 e) Hs) as (sn1 & Hs1 & (_ & Hsp & Hsd)).
  destruct (degrades_find _ _ _ _ (removedInput_degrades nodes1 e) Ht) as (tn1 & Ht1 & _). split.
  - intros Hsup. unfold wn_outputs in *. rewrite Hsp. apply Hout; [done|by exists tn1|]. by rewrite <- (Hsd Hsup).
  - intros Hsup. unfold removedInput in Ht. rewrite Hs1, Ht1 in Ht.
    assert (wn_id tn1 = e_to_node e) as Hid by by apply find_id_Some in Ht1 as [_ ?].
    destruct (data_is_supported (wn_data tn1) && negb (has_port (wn_inputs tn1) (e_to_port e))) eqn:Hb.
    + rewrite Hid in Ht. apply invalidate_kept in Ht; [congruence|]. rewrite <- Hids1. apply find_id_is_Some. by exists tn1.
    + rewrite Ht1 in Ht. injection Ht as <-. rewrite Hsup in Hb. by apply negb_false_iff in Hb.
Qed.

Lemma removed_stands nodes e :
  Forall2 (stands_for registry) savedNodes nodes →
  Forall2 (stands_for registry) savedNodes (removedInput savedNodes savedEdges (removedOutput savedNodes savedEdges nodes e) e).
Proof.
  intros H. assert (Forall2 (stands_for registry) savedNodes (removedOutput savedNodes savedEdges nodes e)) as H1.
  { unfold removedOutput. repeat case_match; try done. by apply invalidate_stands. }
  unfold removedInput. repeat case_match; try done. by apply invalidate_stands.
Qed.

Lemma stands_ids nodes : Forall2 (stands_for registry) savedNodes nodes → ids nodes = n_id <$> savedNodes.
Proof.
  clear Hnodup. induction 1 as [|a b l l' (Hid & _) _ IH]; [done|]. cbn. unfold ids in IH. rewrite IH. f_equal. exact Hid.
Qed.

(** After the pass, every connection with two ends has its ports. *)
Lemma invalidateRemovedPorts_spec nodes :
  Forall2 (stands_for registry) savedNodes nodes →
  let nodes' := invalidateRemovedPorts savedNodes savedEdges nodes in
  Forall2 (stands_for registry) savedNodes nodes' ∧ ∀ e, e ∈ savedEdges → ports_present nodes' e.
Proof.
  intros H0. cbv zeta. unfold invalidateRemovedPorts.
  set (pass := λ nodes e, removedInput savedNodes savedEdges (removedOutput savedNodes savedEdges nodes e) e).
  assert (∀ l nodes, Forall2 (stands_for registry) savedNodes nodes → Forall2 (stands_for registry) savedNodes (foldl pass nodes l) ∧
            (∀ e, ports_present nodes e → ports_present (foldl pass nodes l) e) ∧ ∀ e, e ∈ l → ports_present (foldl pass nodes l) e) as Hfold.
  { clear H0 nodes. induction l as [|x l IH]; intros nodes Hs; cbn [foldl]; [split_and!; [done..|by intros e ?%elem_of_nil]|].
    pose proof (removed_stands nodes x Hs) as Hs'. destruct (IH _ Hs') as (H1 & H2 & H3). split_and!; [done| |].
    - intros e He. apply H2. eapply ports_present_degrades; [apply removedInput_degrades|].
      eapply ports_present_degrades; [apply removedOutput_degrades|done].
    - intros e [->|He]%elem_of_cons; [|by apply H3]. apply H2, removed_present. by apply stands_ids. }
  destruct (Hfold savedEdges nodes H0) as (H1 & _ & H3). done.
Qed.
End removed.

(** ** Mapped inputs *)

Definition input_key (ie : nat * GraphEdge) : string * string := (e_to_node ie.2, e_to_port ie.2).

Lemma mapEdgeAt_None acc node port : mapEdgeAt acc node port = None ↔ (node, port) ∉ input_key <$> acc.
Proof.
  unfold mapEdgeAt. induction acc as [|ie acc IH]; cbn [find]; [by split; [intros _ ?%elem_of_nil|]|].
  rewrite fmap_cons, not_elem_of_cons. unfold input_key at 1.
  destruct (bool_decide (e_to_node ie.2 = node) && bool_decide (e_to_port ie.2 = port)) eqn:Hb.
  - apply andb_true_iff in Hb as [H1%bool_decide_eq_true H2%bool_decide_eq_true]. split; [done|]. intros [Hne _]. by rewrite H1, H2 in Hne.
  - rewrite IH. apply andb_false_iff in Hb. rewrite !bool_decide_eq_false in Hb. split; [|tauto]. intros H. split; [|done].
    intros [= -> ->]. by destruct Hb.
Qed.

Lemma collect_iff graphName acc l m :
  NoDup (input_key <$> acc) →
  res_fold (collectMapEdge graphName) acc l = Ok m ↔
  m = acc ++ filter (λ ie, e_collection_mode ie.2 = MMap) l ∧ NoDup (input_key <$> m).
Proof.
  revert acc. induction l as [|ie l IH]; intros acc Hnd; cbn [res_fold].
  { rewrite filter_nil, app_nil_r. split; [by intros [= <-]|by intros [-> _]]. }
  unfold collectMapEdge at 2. cbv zeta. rewrite filter_cons. destruct (decide (e_collection_mode ie.2 = MMap)) as [Hm|Hm].
  2: { rewrite (bool_decide_false (e_collection_mode ie.2 = MMap)) by done. cbn [negb mbind res_bind]. by apply IH. }
  rewrite (bool_decide_true (e_collection_mode ie.2 = MMap)) by done. cbn [negb]. pose proof (mapEdgeAt_None acc (e_to_node ie.2) (e_to_port ie.2)) as Hat.
  destruct (mapEdgeAt acc _ _) as [[k existing]|].
  - split; [done|]. intros [-> H]. exfalso. cut (None (A := nat * GraphEdge) = Some (k, existing)); [done|]. symmetry. apply Hat.
    intros Hin. rewrite fmap_app, fmap_cons in H. apply NoDup_app in H as (_ & H & _). apply (H _ Hin). by left.
  - cbn [mbind res_bind]. rewrite IH.
    + by rewrite <- (assoc_L (++)).
    + rewrite fmap_app. apply NoDup_app. split_and!; [done| |apply NoDup_singleton]. intros x Hx ->%list_elem_of_singleton. by apply Hat.
Qed.

(** ** One connection *)

(** The port can be written as a handle: it has a type or a type variable. *)
Definition encodable (n : WorkflowNode) (port : Port) : Prop :=
  is_Some (resolvedPortArtifactType port (nd_artifactTypeBindings (wn_data n))) ∨ is_Some (truthy (portArtifactTypeVariable port)).

Lemma portHandle_ok n port shape plug :
  (∃ h, portHandle port shape plug (nd_artifactTypeBindings (wn_data n)) = Ok h) ↔ encodable n port.
Proof.
  unfold portHandle, portMetaForPort, encodable. destruct (resolvedPortArtifactType _ _) as [t|]; [split; intros _; [left; exists t; reflexivity|eexists; reflexivity]|].
  destruct (truthy (portArtifactTypeVariable port)) as [v|]; cbn [mbind option_bind]; [split; intros _; [right; exists v; reflexivity|eexists; reflexivity]|]. split; [by intros [? ?]|by intros [[? ?]|[? ?]]].
Qed.

Definition plug_fits (e : GraphEdge) (tn : WorkflowNode) (port : Port) : Prop :=
  if portHasInstancePlugs port
  then ∃ plug, plug ∈ nd_inputPlugs (wn_data tn) ∧ savedPlug e = Some (wp_id plug) ∧ wp_portName plug = port_name port
  else savedPlug e = None.

(** The connection fits: between two nodes that fit their operators, its plug exists,
    its mode is one the shapes allow and its route leads to a type the target accepts;
    with an end that is only kept, the other end's port can be written. *)
Inductive edge_fits (cx : EdgeContext) (index : nat) (e : GraphEdge) : Prop :=
| fits_kept sn tn :
    find_id (e_from_node e) (ec_nodes cx) = Some sn → find_id (e_to_node e) (ec_nodes cx) = Some tn →
    data_is_supported (wn_data sn) && data_is_supported (wn_data tn) = false →
    (∀ port, supportedPort sn (wn_outputs sn) (e_from_port e) = Some port → encodable sn port) →
    (∀ port, supportedPort tn (wn_inputs tn) (e_to_port e) = Some port → encodable tn port) →
    edge_fits cx index e
| fits_live sn tn sp tp :
    find_id (e_from_node e) (ec_nodes cx) = Some sn → find_id (e_to_node e) (ec_nodes cx) = Some tn →
    data_is_supported (wn_data sn) = true → data_is_supported (wn_data tn) = true →
    supportedPort sn (wn_outputs sn) (e_from_port e) = Some sp → supportedPort tn (wn_inputs tn) (e_to_port e) = Some tp →
    plug_fits e tn tp →
    e_collection_mode e ∈ collectionModesForShapes (sourceShapeOf (ec_mapped cx) sn sp) tp (targetShapeOf (ec_mapEdges cx) index tn tp) →
    connectionRouteIsValid (ec_registry cx) e sn tn sp tp = Ok true →
    edge_fits cx index e.

(** The plug a connection occupies. *)
Definition takenPlug (cx : EdgeContext) (e : GraphEdge) : list string :=
  match find_id (e_from_node e) (ec_nodes cx), find_id (e_to_node e) (ec_nodes cx) with
  | Some sn, Some tn =>
      if data_is_supported (wn_data sn) && data_is_supported (wn_data tn) then
        match supportedPort tn (wn_inputs tn) (e_to_port e) with
        | Some tp => if portHasInstancePlugs tp then [plugKey (e_to_node e) (default "" (savedPlug e))] else []
        | None => []
        end
      else []
  | _, _ => []
  end.

Lemma targetPlugKey_ok graphName occupied e tn tp occupied' :
  targetPlugKey graphName occupied e tn tp = Ok occupied' ↔
  plug_fits e tn tp ∧
  occupied' = (if portHasInstancePlugs tp then [plugKey (wn_id tn) (default "" (savedPlug e))] else []) ++ occupied ∧
  (portHasInstancePlugs tp = true → plugKey (wn_id tn) (default "" (savedPlug e)) ∉ occupied).
Proof.
  unfold targetPlugKey, plug_fits. destruct (portHasInstancePlugs tp).
  - destruct (find _ (nd_inputPlugs (wn_data tn))) as [plug|] eqn:Hf.
    + apply find_some in Hf as [Hin [H1%bool_decide_eq_true H2%bool_decide_eq_true]%andb_true_iff]. rewrite <- H1. cbn [default id].
      case_bool_decide as Hocc.
      * split; [done|]. intros (_ & _ & H). by destruct H.
      * split; [intros [= <-]; split_and!; [exists plug; by rewrite list_elem_of_In|done..]|by intros (_ & -> & _)].
    + split; [done|]. intros ((plug & Hin & H1 & H2) & _ & _). rewrite list_elem_of_In in Hin. apply (find_none _ _ Hf) in Hin.
      by rewrite !bool_decide_true in Hin.
  - destruct (savedPlug e); [split; [done|by intros (? & _)]|]. split; [intros [= <-]; by split_and!|by intros (_ & -> & _)].
Qed.

Lemma supportedPort_has n ports name : data_is_supported (wn_data n) = true → has_port ports name = true → is_Some (supportedPort n ports name).
Proof.
  unfold supportedPort, has_port. intros -> (p & Hin & Hp)%existsb_elem. destruct (find _ ports) eqn:Hf; [by eexists|].
  rewrite list_elem_of_In in Hin. apply (find_none _ _ Hf) in Hin. congruence.
Qed.

Lemma supportedPort_none n ports name : data_is_supported (wn_data n) = false → supportedPort n ports name = None.
Proof. unfold supportedPort. by intros ->. Qed.

Lemma route_encodes registry e sn tn sp tp b : connectionRouteIsValid registry e sn tn sp tp = Ok b → encodable sn sp ∧ encodable tn tp.
Proof.
  unfold connectionRouteIsValid. intros (s & Hs & (t & Ht & _)%bind_ok)%bind_ok. split.
  - apply (portHandle_ok sn sp (port_shape sp) None). by exists s.
  - apply (portHandle_ok tn tp (port_shape tp) (savedPlug e)). by exists t.
Qed.

(** A handle names a port and a plug of it: as the handle of a port that is there, or as the
    handle that a node that is kept shows in its place. *)
Definition names_end (dir : PortDirection) (name : string) (plug : option string) (handle : option string) : Prop :=
  (∃ meta, handle = Some (encodeHandleId meta) ∧ portName meta = name ∧ plugId meta = plug) ∨
  handle = Some (compatibilityHandleId dir {| ce_portName := name; ce_plugId := plug |}).

(** A connection of the canvas stands for a stored one: field by field. *)
Record carries (e : GraphEdge) (w : WorkflowEdge) : Prop := {
  car_id : we_id w = e_id e;
  car_source : we_source w = e_from_node e;
  car_target : we_target w = e_to_node e;
  car_from : names_end output (e_from_port e) None (we_sourceHandle w);
  car_to : names_end input (e_to_port e) (truthy (jsopt_to_option (e_to_plug e))) (we_targetHandle w);
  car_data : ∃ d, we_data w = Some d ∧
    ed_enabled d = e_enabled e ∧ ed_collectionMode d = e_collection_mode e ∧
    ed_projection d = jsopt_to_option (e_projection e) ∧ ed_conversionPath d = Some (e_conversion_path e) ∧
    ed_routeOffset d = jsopt_to_option (e_route_offset e) ∧
    ed_sourcePortName d = Some (e_from_port e) ∧ ed_targetPortName d = Some (e_to_port e) ∧
    ed_targetPlugId d = jsopt_to_option (e_to_plug e)
}.

Lemma hydratedEdge_carries e source target issues :
  names_end output (e_from_port e) None (Some source) →
  names_end input (e_to_port e) (truthy (jsopt_to_option (e_to_plug e))) (Some target) →
  carries e (hydratedEdge e source target issues).
Proof. intros Hs Ht. constructor; try done. by eexists. Qed.

Lemma portHandle_names dir n ports name port shape plug b h :
  supportedPort n ports name = Some port → portHandle port shape plug b = Ok h → names_end dir name (truthy plug) (Some h).
Proof.
  unfold supportedPort. destruct (data_is_supported _); [|done]. intros [_ Hname%bool_decide_eq_true]%find_some.
  unfold portHandle, portMetaForPort. intros Hh. left.
  destruct (resolvedPortArtifactType port b); [|destruct (truthy (portArtifactTypeVariable port)); [|done]];
    injection Hh as <-; by eexists.
Qed.

Lemma supportedHandles_names cx occupied index e sn tn sp tp occ source target :
  supportedPort sn (wn_outputs sn) (e_from_port e) = Some sp → supportedPort tn (wn_inputs tn) (e_to_port e) = Some tp →
  supportedHandles cx occupied index e sn tn sp tp = Ok (occ, source, target) →
  names_end output (e_from_port e) None (Some source) ∧
  names_end input (e_to_port e) (truthy (jsopt_to_option (e_to_plug e))) (Some target).
Proof.
  intros Hsp Htp Hh. unfold supportedHandles in Hh. apply bind_ok in Hh as (o & _ & Hh). cbv zeta in Hh.
  destruct (negb _); [done|]. apply bind_ok in Hh as ([] & _ & Hh); [|done]. cbn [negb] in Hh.
  apply bind_ok in Hh as (s & Hs & Hh). apply bind_ok in Hh as (t & Ht & [= _ <- <-]).
  split; [by apply (portHandle_names _ _ _ _ _ _ _ _ _ Hsp Hs)|by apply (portHandle_names _ _ _ _ _ _ _ _ _ Htp Ht)].
Qed.

Lemma compatibilityHandles_names cx e sn tn source target :
  compatibilityHandles cx e sn tn (supportedPort sn (wn_outputs sn) (e_from_port e)) (supportedPort tn (wn_inputs tn) (e_to_port e)) = Ok (source, target) →
  names_end output (e_from_port e) None (Some source) ∧
  names_end input (e_to_port e) (truthy (jsopt_to_option (e_to_plug e))) (Some target).
Proof.
  unfold compatibilityHandles. intros (s & Hs & (t & Ht & [= <- <-])%bind_ok)%bind_ok. split.
  - destruct (supportedPort sn _ _) eqn:Hsp; [by apply (portHandle_names _ _ _ _ _ _ _ _ _ Hsp Hs)|]. injection Hs as <-. by right.
  - destruct (supportedPort tn _ _) eqn:Htp; [by apply (portHandle_names _ _ _ _ _ _ _ _ _ Htp Ht)|]. injection Ht as <-. by right.
Qed.

Lemma supportedHandles_ok cx occupied index e sn tn sp tp :
  wn_id tn = e_to_node e →
  (plug_fits e tn tp ∧
   e_collection_mode e ∈ collectionModesForShapes (sourceShapeOf (ec_mapped cx) sn sp) tp (targetShapeOf (ec_mapEdges cx) index tn tp) ∧
   connectionRouteIsValid (ec_registry cx) e sn tn sp tp = Ok true ∧
   (portHasInstancePlugs tp = true → plugKey (e_to_node e) (default "" (savedPlug e)) ∉ occupied)) ↔
  ∃ source target, supportedHandles cx occupied index e sn tn sp tp =
    Ok ((if portHasInstancePlugs tp then [plugKey (e_to_node e) (default "" (savedPlug e))] else []) ++ occupied, source, target).
Proof.
  intros Hid. unfold supportedHandles. split.
  - intros (Hplug & Hmode & Hroute & Hfree).
    assert (targetPlugKey (ec_graphName cx) occupied e tn tp =
            Ok ((if portHasInstancePlugs tp then [plugKey (wn_id tn) (default "" (savedPlug e))] else []) ++ occupied)) as ->
      by (apply targetPlugKey_ok; by rewrite Hid).
    rewrite Hid. cbn [mbind res_bind]. cbv zeta. rewrite bool_decide_true by done. cbn [negb]. rewrite Hroute. cbn [mbind res_bind negb].
    destruct (route_encodes _ _ _ _ _ _ _ Hroute) as [[s Hs]%(portHandle_ok sn sp (sourceShapeOf (ec_mapped cx) sn sp) None)
      [t Ht]%(portHandle_ok tn tp (port_shape tp) (savedPlug e))]. rewrite Hs, Ht. by exists s, t.
  - intros (source & target & (occ & (Hplug & Hocc & Hfree)%targetPlugKey_ok & H)%bind_ok). cbv zeta in H. rewrite Hid in *.
    case_bool_decide as Hmode; [|done]. cbn [negb] in H. apply bind_ok in H as ([] & Hroute & H); [|done]. done.
Qed.

Lemma hydrateEdge_ok cx occupied index e occupied' w :
  hydrateEdge cx occupied index e = Ok (occupied', w) →
  edge_fits cx index e ∧ (∀ k, k ∈ takenPlug cx e → k ∉ occupied) ∧ occupied' = takenPlug cx e ++ occupied ∧ carries e w.
Proof.
  unfold hydrateEdge, takenPlug.
  destruct (find_id (e_from_node e) (ec_nodes cx)) as [sn|] eqn:Hsn; [|done]. destruct (find_id (e_to_node e) (ec_nodes cx)) as [tn|] eqn:Htn; [|done].
  pose proof (compatibilityHandles_names cx e sn tn) as Hnames.
  cbv zeta. destruct (data_is_supported (wn_data sn)) eqn:Hs, (data_is_supported (wn_data tn)) eqn:Ht; cbn [negb andb orb].
  - destruct (supportedPort sn (wn_outputs sn) (e_from_port e)) as [sp|] eqn:Hsp; [|done].
    destruct (supportedPort tn (wn_inputs tn) (e_to_port e)) as [tp|] eqn:Htp; [|done]. cbn [bool_decide decide].
    rewrite !bool_decide_false by done. intros ([[occ source] target] & Hh & [= <- <-])%bind_ok.
    assert (wn_id tn = e_to_node e) as Hid by by apply find_id_Some in Htn as [_ ?].
    assert (occ = (if portHasInstancePlugs tp then [plugKey (e_to_node e) (default "" (savedPlug e))] else []) ++ occupied) as Hocc.
    { unfold supportedHandles in Hh. apply bind_ok in Hh as (o & (_ & Ho & _)%targetPlugKey_ok & Hh). rewrite Hid in Ho. cbv zeta in Hh.
      destruct (negb _); [done|]. apply bind_ok in Hh as ([] & _ & Hh); [|done]. cbn [negb] in Hh. apply bind_ok in Hh as (? & _ & Hh).
      apply bind_ok in Hh as (? & _ & [= <- _ _]). done. }
    rewrite Hocc in Hh. destruct (proj2 (supportedHandles_ok cx occupied index e sn tn sp tp Hid)) as (Hplug & Hmode & Hroute & Hfree); [by exists source, target|].
    split_and!; [by eapply fits_live| |by rewrite Hocc|by eapply hydratedEdge_carries; eapply supportedHandles_names].
    intros k Hk. destruct (portHasInstancePlugs tp); [|by apply elem_of_nil in Hk]. apply list_elem_of_singleton in Hk as ->. by apply Hfree.
  - rewrite (supportedPort_none tn) in Hnames |- * by done. destruct (supportedPort sn (wn_outputs sn) (e_from_port e)) as [sp|] eqn:Hsp; [|done].
    rewrite bool_decide_false by done. intros ([source target] & Hh & [= <- <-])%bind_ok. pose proof (Hnames _ _ Hh) as [Hn1 Hn2]. apply bind_ok in Hh as (s & Hsh & _).
    split_and!; [|by intros k ?%elem_of_nil|done|by apply hydratedEdge_carries]. eapply fits_kept; [done|done|by rewrite Hs, Ht| |].
    + intros port. rewrite Hsp. intros [= <-]. eapply portHandle_ok. by exists s.
    + intros port. by rewrite supportedPort_none.
  - rewrite (supportedPort_none sn) in Hnames |- * by done. destruct (supportedPort tn (wn_inputs tn) (e_to_port e)) as [tp|] eqn:Htp; [|done].
    rewrite bool_decide_false by done. intros ([source target] & Hh & [= <- <-])%bind_ok. pose proof (Hnames _ _ Hh) as [Hn1 Hn2]. apply bind_ok in Hh as (t & Hth & _).
    split_and!; [|by intros k ?%elem_of_nil|done|by apply hydratedEdge_carries]. eapply fits_kept; [done|done|by rewrite Hs, Ht| |].
    + intros port. by rewrite supportedPort_none.
    + intros port. rewrite Htp. intros [= <-]. eapply portHandle_ok. by exists t.
  - intros ([source target] & [Hn1 Hn2]%Hnames & [= <- <-])%bind_ok. split_and!; [|by intros k ?%elem_of_nil|done|by apply hydratedEdge_carries].
    eapply fits_kept; [done|done|by rewrite Hs, Ht| |]; intros port; by rewrite supportedPort_none.
Qed.

Lemma hydrateEdge_opens cx occupied index e :
  ports_present (ec_nodes cx) e → edge_fits cx index e → (∀ k, k ∈ takenPlug cx e → k ∉ occupied) →
  ∃ r, hydrateEdge cx occupied index e = Ok r.
Proof.
  intros Hports Hfits Hfree. unfold hydrateEdge.
  destruct Hfits as [sn tn Hsn Htn Hsup He1 He2|sn tn sp tp Hsn Htn Hs Ht Hsp Htp Hplug Hmode Hroute]; rewrite Hsn, Htn; cbv zeta.
  - destruct (Hports sn tn Hsn Htn) as [Hp1 Hp2]. 
    assert (data_is_supported (wn_data sn) && bool_decide (supportedPort sn (wn_outputs sn) (e_from_port e) = None) = false) as ->.
    { destruct (data_is_supported (wn_data sn)) eqn:Hs; [|done]. destruct (supportedPort_has sn _ _ Hs (Hp1 eq_refl)) as [p Hp]. by rewrite Hp, bool_decide_false. }
    assert (data_is_supported (wn_data tn) && bool_decide (supportedPort tn (wn_inputs tn) (e_to_port e) = None) = false) as ->.
    { destruct (data_is_supported (wn_data tn)) eqn:Ht; [|done]. destruct (supportedPort_has tn _ _ Ht (Hp2 eq_refl)) as [p Hp]. by rewrite Hp, bool_decide_false. }
    rewrite <- negb_andb, Hsup. cbn [negb]. unfold compatibilityHandles.
    destruct (supportedPort sn (wn_outputs sn) (e_from_port e)) as [sp|];
      [destruct (proj2 (portHandle_ok sn sp (sourceShapeOf (ec_mapped cx) sn sp) None) (He1 sp eq_refl)) as [s ->]|]; cbn [mbind res_bind];
      (destruct (supportedPort tn (wn_inputs tn) (e_to_port e)) as [tp|];
        [destruct (proj2 (portHandle_ok tn tp (port_shape tp) (savedPlug e)) (He2 tp eq_refl)) as [t ->]|]; cbn [mbind res_bind]; by eexists).
  - rewrite Hsp, Htp, Hs, Ht. rewrite !bool_decide_false by done. cbn [negb andb orb].
    assert (wn_id tn = e_to_node e) as Hid by by apply find_id_Some in Htn as [_ ?].
    destruct (proj1 (supportedHandles_ok cx occupied index e sn tn sp tp Hid)) as (source & target & ->); [|cbn [mbind res_bind]; by eexists].
    split_and!; [done..|]. intros Hip. apply Hfree. unfold takenPlug. rewrite Hsn, Htn, Hs, Ht, Htp, Hip. cbn [andb]. by left.
Qed.

(** ** All connections *)

Lemma hydrateEdges_ok cx seen occupied l ws :
  hydrateEdges cx seen occupied l = Ok ws →
  NoDup (e_id <$> l.*2) ∧ (∀ ie, ie ∈ l → e_id ie.2 ∉ seen ∧ edge_fits cx ie.1 ie.2) ∧
  NoDup (flat_map (takenPlug cx) l.*2) ∧ (∀ k, k ∈ flat_map (takenPlug cx) l.*2 → k ∉ occupied) ∧ Forall2 carries l.*2 ws.
Proof.
  revert seen occupied ws. induction l as [|[index e] l IH]; intros seen occupied ws; cbn [hydrateEdges].
  { intros [= <-]. split_and!; [constructor|by intros ie ?%elem_of_nil|constructor|by intros k ?%elem_of_nil|constructor]. }
  case_bool_decide as Hseen; [done|]. intros ([occ w] & (Hfit & Hfree & -> & Hc)%hydrateEdge_ok & H)%bind_ok.
  apply bind_ok in H as (ws' & (H1 & H2 & H3 & H4 & H5)%IH & [= <-]). rewrite !fmap_cons. cbn [snd flat_map]. split_and!.
  - apply NoDup_cons. split; [|done]. intros (e' & He' & (ie & -> & Hie)%list_elem_of_fmap)%list_elem_of_fmap.
    destruct (H2 ie Hie) as [Hn _]. apply Hn. rewrite <- He'. by left.
  - intros ie [->|Hie]%elem_of_cons; [done|]. destruct (H2 ie Hie) as [Hn Hf]. split; [|done]. intros Hx. apply Hn. by right.
  - apply NoDup_app. split_and!; [| |done].
    + unfold takenPlug. repeat case_match; try apply NoDup_nil_2; apply NoDup_singleton.
    + intros k Hk Hk'. apply (H4 k Hk'). apply elem_of_app. by left.
  - intros k [Hk|Hk]%elem_of_app; [by apply Hfree|]. intros Hx. apply (H4 k Hk). apply elem_of_app. by right.
  - by constructor.
Qed.

Lemma hydrateEdges_opens cx seen occupied l :
  (∀ ie, ie ∈ l → ports_present (ec_nodes cx) ie.2 ∧ e_id ie.2 ∉ seen ∧ edge_fits cx ie.1 ie.2) → NoDup (e_id <$> l.*2) →
  NoDup (flat_map (takenPlug cx) l.*2) → (∀ k, k ∈ flat_map (takenPlug cx) l.*2 → k ∉ occupied) →
  ∃ ws, hydrateEdges cx seen occupied l = Ok ws.
Proof.
  revert seen occupied. induction l as [|[index e] l IH]; intros seen occupied Hall Hnd Htaken Hfree; cbn [hydrateEdges]; [by eexists|].
  rewrite !fmap_cons in *. cbn [snd flat_map] in *. apply NoDup_cons in Hnd as [He Hnd]. apply NoDup_app in Htaken as (_ & Hdis & Htaken).
  destruct (Hall (index, e)) as (Hp & Hs & Hf); [by left|]. rewrite bool_decide_false by done.
  destruct (hydrateEdge_opens cx occupied index e Hp Hf) as [[occ w] Hw]; [intros k Hk; apply Hfree, elem_of_app; by left|].
  rewrite Hw. cbn [mbind res_bind]. apply hydrateEdge_ok in Hw as (_ & _ & -> & _).
  destruct (IH (e_id e :: seen) (takenPlug cx e ++ occupied)) as [ws ->]; [| | | |by eexists].
  - intros ie Hie. destruct (Hall ie) as (H1 & H2 & H3); [by right|]. split_and!; [done| |done].
    intros [Hx|Hx]%elem_of_cons; [|done]. apply He. rewrite <- Hx. apply (list_elem_of_fmap_2 e_id). by apply (list_elem_of_fmap_2 snd).
  - done.
  - done.
  - intros k Hk [Hx|Hx]%elem_of_app; [by eapply Hdis|]. by eapply Hfree; [apply elem_of_app; right|].
Qed.

(** ** The Graph *)

(** The nodes of the canvas, before runs are shown. *)
Definition openedNodes (registry : NodeRegistry) (document : GraphDocument) : list WorkflowNode :=
  invalidateRemovedPorts (d_nodes document) (d_edges document) (hydratedNode registry (d_edges document) <$> d_nodes document).

Definition openContext (savedGraph : SavedGraph) (registry : NodeRegistry) : EdgeContext :=
  let mapEdges := filter (λ ie, e_collection_mode ie.2 = MMap) (indexed (d_edges (sv_document savedGraph))) in
  {| ec_graphName := sv_name savedGraph; ec_registry := registry; ec_nodes := openedNodes registry (sv_document savedGraph);
     ec_mapEdges := mapEdges; ec_mapped := mappedNodeIds mapEdges (d_origins (sv_document savedGraph)) |}.

Lemma indexed_snd {A} (l : list A) : (indexed l).*2 = l.
Proof. unfold indexed. apply snd_zip. by rewrite length_seq. Qed.

Lemma indexed_elem {A} (l : list A) ie : ie ∈ indexed l ↔ l !! ie.1 = Some ie.2.
Proof.
  unfold indexed. destruct ie as [k a]. rewrite list_elem_of_lookup. cbn. split.
  - intros [j Hj]. apply lookup_zip_Some in Hj as [(-> & _)%lookup_seq Hj]. done.
  - intros Ha. exists k. apply lookup_zip_Some. split; [|done]. apply lookup_seq. split; [done|]. by eapply lookup_lt_Some.
Qed.

Lemma opened_stands registry document :
  NoDup (n_id <$> d_nodes document) →
  Forall2 (stands_for registry) (d_nodes document) (openedNodes registry document) ∧
  ∀ e, e ∈ d_edges document → ports_present (openedNodes registry document) e.
Proof.
  intros Hnd. apply (invalidateRemovedPorts_spec registry); [done|]. apply Forall2_fmap_r. apply Forall_Forall2_diag, Forall_forall.
  intros n _. split_and!; [done..|]. apply hydrateNodeData_keeps.
Qed.

Lemma hydrate_unfold savedGraph registry nodeRuns h :
  hydrateSavedGraph numberText savedGraph registry nodeRuns = Ok h ↔
  NoDup (n_id <$> d_nodes (sv_document savedGraph)) ∧
  NoDup (input_key <$> ec_mapEdges (openContext savedGraph registry)) ∧
  hydrateEdges (openContext savedGraph registry) [] [] (indexed (d_edges (sv_document savedGraph))) = Ok (hy_edges h) ∧
  hy_nodes h = withMaterializedNodeRuns (openedNodes registry (sv_document savedGraph)) nodeRuns.
Proof.
  unfold hydrateSavedGraph. cbv zeta. rewrite bind_ok. setoid_rewrite hydrateNodes_iff. setoid_rewrite bind_ok.
  setoid_rewrite (collect_iff _ [] _ _ (NoDup_nil_2)). setoid_rewrite bind_ok. split.
  - intros (ns & (Hnd & _ & ->) & m & [-> Hm] & es & Hes & [= <-]). by split_and!.
  - intros (Hnd & Hm & Hes & Hn). eexists. split; [split_and!; [done|by intros n _ ?%elem_of_nil|done]|].
    eexists. split; [done|]. exists (hy_edges h). split; [exact Hes|]. destruct h as [hn he]. cbn in *. by rewrite Hn.
Qed.


End theory.

(** A node that brings its plugs is made without drawing ids. *)
Lemma createSavedNodeData_spec uuid spec plugs : createWorkflowNodeData uuid spec (Some plugs) = Some (createSavedNodeData spec plugs).
Proof. reflexivity. Qed.

(** ** Witness *)

Definition opening_type : ArtifactTypeIdentity := {| ty_id := "scalar.text"; ty_schema_version := 1 |}.

Definition opening_port (dir : PortDirection) : Port :=
  {| port_name := "text"; port_title := None; port_direction := dir; port_shape := one; port_accepted_shapes := [one];
     port_variadic := false; port_required := true; port_instance_plugs := false; port_shape_field := None;
     port_artifact_type := Some opening_type; port_artifact_type_variable := None; port_also_accepts := [] |}.

Definition opening_registry : NodeRegistry :=
  {| rg_nodes := [{| spec_operator_id := "text.upper"; spec_operator_version := num 1; spec_title := "Upper"; spec_inputs := [opening_port input];
                     spec_outputs := [opening_port output]; spec_config_schema := JObj []; spec_secret_inputs := JUndefined |}];
     rg_artifact_types := [{| as_key := opening_type; as_field_projections := [] |}]; rg_artifact_conversions := [] |}.

Definition opening_node (i operator : string) : GraphNode :=
  {| n_artifact_type_bindings := []; n_config := Val []; n_id := i; n_kind := KBuiltin; n_input_plugs := []; n_layout := Undef;
     n_operator_id := operator; n_operator_version := num 1; n_position := {| pt_x := num 0; pt_y := num 0 |} |}.

Definition opening_edge (i from to port : string) : GraphEdge :=
  {| e_collection_mode := MDirect; e_conversion_path := []; e_enabled := true; e_from_node := from; e_from_port := "text"; e_id := i;
     e_projection := Undef; e_route_offset := Undef; e_to_node := to; e_to_plug := Null; e_to_port := port |}.

(** Two nodes that fit, one whose operator is gone, and a connection to each. *)
Definition opening_graph : SavedGraph :=
  {| sv_id := "g"; sv_name := "G"; sv_revision := 0; sv_created_at := ""; sv_updated_at := "";
     sv_document := {| d_nodes := [opening_node "a" "text.upper"; opening_node "b" "text.upper"; opening_node "c" "text.gone"];
                       d_edges := [opening_edge "e" "a" "b" "text"; opening_edge "f" "a" "c" "removed"]; d_origins := [];
                       d_agents := Undef; d_presentation := Undef |} |}.

