(* ===== verification/RoomBridgeTheory.v ===== *)
(** * Correctness of the command bridge

    A command that leaves through [toRoomGraphCommand] and comes back through
    [toLocalGraphCommand], or through the replay onto the confirmed head, has the
    effect the local transition had; what a replay leaves alone; and the commands
    whose replay departs from the local effect. *)

From S2P Require Import Prelude Js GraphModel GraphCommands Samples GraphTheory RoomBridge.

(** ** The commands that travel without loss

    The wire form of an edge update is read back for five of the edge's fields,
    an explicit [undefined] conversion path cannot be projected, and a Graph's
    name is not part of its document. *)
Definition path_given {A} (p : option (jsopt A)) : Prop :=
  match p with Some Undef | Some Null => False | _ => True end.

Definition command_travels (d : AuthoredGraphDocument) (c : GraphCommand) : Prop :=
  match c with
  | update_edge _ u =>
      u_to_plug u = None ∧ u_from_port u = None ∧ u_to_port u = None ∧ path_given (u_conversion_path u)
  | update_origin _ u => path_given (uo_conversion_path u)
  | replace_document doc => trim (name doc) = trim (name d)
  | _ => True
  end.

(** ** Round trip *)

Lemma find_id_with_name {s d} i : find_id i (nodes (with_name s d)) = find_id i (nodes d).
Proof. done. Qed.

Lemma map_id_ext {A} `{Identified A} i (f g : A → A) (l : list A) :
  (∀ a, a ∈ l → ident a = i → f a = g a) → map_id i f l = map_id i g l.
Proof.
  intros Hfg. apply list_fmap_ext. intros k a Ha. simpl. case_bool_decide; [|done].
  apply Hfg; [by eapply list_elem_of_lookup_2|done].
Qed.

(** With unique ids, the element found is the only one the update touches. *)
Lemma map_id_found {A} `{Identified A} i (f g : A → A) (l : list A) a :
  NoDup (ids l) → find_id i l = Some a → f a = g a → map_id i f l = map_id i g l.
Proof.
  intros Hnd [Ha Hi]%find_id_Some Hfg. apply map_id_ext. intros b Hb Hib.
  assert (Some a = Some b) as [= ->]; [|done].
  rewrite <- (find_id_NoDup a l), <- (find_id_NoDup b l) by done. congruence.
Qed.

Lemma edge_update_read_back e u :
  project e = e → u_to_plug u = None → u_from_port u = None → u_to_port u = None → path_given (u_conversion_path u) →
  spreadEdgeUpdate e (projectSavedGraphEdgeUpdate (localEdgeUpdate (projectSavedGraphEdge (spreadEdgeUpdate e u)))) =
  spreadEdgeUpdate e (projectSavedGraphEdgeUpdate u).
Proof.
  rewrite canon_edge. destruct e, u as [cm en pr cp ro tp fp tpo]; simpl in *.
  intros (Hp & Hr & Ht) -> -> -> Hc. unfold spreadEdgeUpdate, projectSavedGraphEdgeUpdate. simpl.
  f_equal.
  - destruct cp as [[]|]; simpl; by rewrite ?projectConversion_id.
  - destruct pr as [p|]; simpl.
    + by rewrite or_null_idem.
    + rewrite or_null_idem by done. apply or_null_fix; [apply projectPath_id|done].
  - destruct ro as [p|]; simpl.
    + by rewrite or_null_idem.
    + rewrite or_null_idem by done. apply or_null_fix; [apply projectPoint_id|done].
Qed.

Lemma origin_update_read_back o u :
  project o = o → path_given (uo_conversion_path u) →
  spreadOriginUpdate o (projectSavedGraphOriginUpdate (localOriginUpdate (projectSavedGraphOrigin (spreadOriginUpdate o u)))) =
  spreadOriginUpdate o (projectSavedGraphOriginUpdate u).
Proof.
  rewrite canon_origin. destruct o, u as [tn tp pl v cm cp]; simpl in *. intros Ht Hc.
  unfold spreadOriginUpdate, projectSavedGraphOriginUpdate. simpl. unfold structuredClone. f_equal.
  - destruct cp as [[]|]; simpl; by rewrite ?projectConversion_id.
  - destruct pl as [p|]; simpl; [by rewrite or_null_idem|].
    rewrite or_null_idem by done. by apply or_null_fix.
  - destruct v as [v|]; simpl; by case_match.
Qed.

(** The form in which a plug edit comes back. *)
Lemma plugs_read_back d i n ps :
  normal d → unique_ids d → find_id i (nodes d) = Some n →
  applyGraphCommandNormalized d (update_node_configuration_and_input_plugs i (jsopt_or (n_config n) []) ps) =
  Ok {| name := name d; nodes := map_id i (set_plugs ps) (nodes d);
        edges := filter (λ e, e_to_node e ≠ i ∨ plug_retained (plug_id <$> ps) (e_to_plug e)) (edges d);
        origins := filter (λ o, o_to_node o ≠ i ∨ plug_retained (plug_id <$> ps) (o_to_plug o)) (origins d);
        agents := agents d |}.
Proof.
  intros Hd Hu Hf. cbn [applyGraphCommandNormalized]. unfold applyConfigurationAndInputPlugs.
  rewrite updateNode_pure. rewrite some_id_find, Hf. cbn. rewrite projectInputPlug_id. do 2 f_equal.
  eapply map_id_found; [apply Hu|done|].
  apply find_id_Some in Hf as [Hin _]. apply (normal_nodes d Hd), canon_node in Hin as [[c Hc] _].
  destruct n; simpl in *; subst. done.
Qed.

Lemma end_ok_found d i n p :
  unique_ids d → find_id i (nodes d) = Some n →
  end_ok (nodes d) i p → plug_retained (plug_id <$> n_input_plugs n) p.
Proof.
  intros Hu Hf (m & Hm & Hi & Hp). apply (find_id_NoDup m) in Hm; [|apply Hu].
  assert (ident m = i) as Hi' by done. rewrite Hi', Hf in Hm. by injection Hm as ->.
Qed.

(** Dropping the ends whose plug did not stay, on a document without dangling
    ends, is dropping the ends with a plug that [keep] refuses. *)
Lemma retained_filter d i n ps (keep : jsopt string → Prop) `{∀ p, Decision (keep p)} :
  unique_ids d → refs_ok d → find_id i (nodes d) = Some n →
  (∀ p, plug_retained (plug_id <$> n_input_plugs n) p → plug_retained (plug_id <$> ps) p ↔ keep p) →
  filter (λ e, e_to_node e ≠ i ∨ plug_retained (plug_id <$> ps) (e_to_plug e)) (edges d) =
    filter (λ e, e_to_node e ≠ i ∨ keep (e_to_plug e)) (edges d) ∧
  filter (λ o, o_to_node o ≠ i ∨ plug_retained (plug_id <$> ps) (o_to_plug o)) (origins d) =
    filter (λ o, o_to_node o ≠ i ∨ keep (o_to_plug o)) (origins d).
Proof.
  intros Hu [He Ho] Hf Hk.
  assert (∀ j p, end_ok (nodes d) j p →
    (j ≠ i ∨ plug_retained (plug_id <$> ps) p) ↔ (j ≠ i ∨ keep p)) as Hend.
  { intros j p Hj. destruct (decide (j = i)) as [->|]; [|naive_solver].
    rewrite Hk; [done|]. by eapply end_ok_found. }
  split; apply filter_iff_in; intros x Hx.
  - apply Hend. by apply He.
  - apply Hend. by apply Ho.
Qed.

Lemma plug_edit_read_back d i n ps (keep : jsopt string → Prop) `{∀ p, Decision (keep p)} :
  normal d → unique_ids d → refs_ok d → find_id i (nodes d) = Some n →
  (∀ p, plug_retained (plug_id <$> n_input_plugs n) p → plug_retained (plug_id <$> ps) p ↔ keep p) →
  applyGraphCommandNormalized d (update_node_configuration_and_input_plugs i (jsopt_or (n_config n) []) ps) =
  Ok {| name := name d; nodes := map_id i (set_plugs ps) (nodes d);
        edges := filter (λ e, e_to_node e ≠ i ∨ keep (e_to_plug e)) (edges d);
        origins := filter (λ o, o_to_node o ≠ i ∨ keep (o_to_plug o)) (origins d);
        agents := agents d |}.
Proof.
  intros Hd Hu Hr Hf Hk. rewrite (plugs_read_back d i n ps) by done.
  by destruct (retained_filter d i n ps keep Hu Hr Hf Hk) as [-> ->].
Qed.

(** The node a successful update found, and the document it left. *)
Lemma updateNode_found d i f d' n :
  unique_ids d → find_id i (nodes d) = Some n → updateNode d i f = Ok d' →
  ∃ n', f n = Ok n' ∧ d' = with_nodes (map_id i (λ _, n') (nodes d)) d.
Proof.
  intros Hu Hf (_ & ns & -> & H2)%updateNode_ok. pose proof (find_id_Some _ _ _ Hf) as [Hn Hi].
  apply list_elem_of_lookup in Hn as [k Hk].
  pose proof (Forall2_lookup_l _ _ _ _ _ H2 Hk) as (n' & Hk' & Hn').
  rewrite bool_decide_true in Hn' by done. exists n'. split; [done|]. f_equal.
  apply (Forall2_is_fmap _ _ _ _ H2). intros m m' Hm Hr.
  change (ident m) with (n_id m). case_bool_decide as Him; [|done].
  assert (Some m = Some n) as [= ->]; [|congruence].
  rewrite <- Hf, <- Him. symmetry. apply (find_id_NoDup m); [apply Hu|done].
Qed.

Lemma filter_True_id {A} (P : A → Prop) (l : list A) `{∀ a, Decision (P a)} :
  filter (λ a, P a ∨ True) l = l.
Proof. apply filter_all. auto. Qed.

(** A plug edit, as the local transition performs it: new plugs for the node, and
    the ends at it that [keep] refuses gone. *)
Definition plug_command (d : AuthoredGraphDocument) (c : GraphCommand) (i : string) (n : GraphNode)
    (ps : list GraphInputPlug) (keep : jsopt string → Prop) `{∀ p, Decision (keep p)} : Prop :=
  (∀ p, plug_retained (plug_id <$> n_input_plugs n) p → plug_retained (plug_id <$> ps) p ↔ keep p) ∧
  ∀ d', applyGraphCommandNormalized d c = Ok d' →
    d' = {| name := name d; nodes := map_id i (set_plugs ps) (nodes d);
            edges := filter (λ e, e_to_node e ≠ i ∨ keep (e_to_plug e)) (edges d);
            origins := filter (λ o, o_to_node o ≠ i ∨ keep (o_to_plug o)) (origins d);
            agents := agents d |}.

Lemma set_plugs_only_update d i f d' n ps :
  unique_ids d → find_id i (nodes d) = Some n →
  (∀ n', f n = Ok n' → n' = set_plugs ps n) →
  updateNode d i f = Ok d' →
  d' = {| name := name d; nodes := map_id i (set_plugs ps) (nodes d); edges := edges d;
          origins := origins d; agents := agents d |}.
Proof.
  intros Hu Hf Hps H. destruct (updateNode_found _ _ _ _ _ Hu Hf H) as (n' & Hn' & ->).
  unfold with_nodes. f_equal. eapply map_id_found; [apply Hu|done|]. by apply Hps.
Qed.

Lemma add_plug_form d i n plug :
  unique_ids d → find_id i (nodes d) = Some n →
  plug_command d (add_input_plug i plug) i n (n_input_plugs n ++ [projectSavedGraphInputPlug plug]) (λ _, True).
Proof.
  intros Hu Hf. split.
  - intros p Hp. split; [done|]. intros _. eapply plug_retained_mono; [|done].
    intros k Hk. rewrite fmap_app. apply elem_of_app. by left.
  - intros d' H. rewrite !filter_True_id. eapply set_plugs_only_update; [done..| |exact H]. intros. by res_inv.
Qed.

Lemma reorder_plug_form d i n port k j d' :
  unique_ids d → find_id i (nodes d) = Some n →
  applyGraphCommandNormalized d (reorder_input_plug i port k j) = Ok d' →
  ∃ ps, reorderPlugs port k j (n_input_plugs n) = Ok ps ∧
    plug_command d (reorder_input_plug i port k j) i n ps (λ _, True).
Proof.
  intros Hu Hf H. destruct (updateNode_found _ _ _ _ _ Hu Hf H) as (n' & Hn' & _). res_inv.
  eexists. split; [done|]. split.
  - intros p Hp. split; [done|]. intros _. eapply plug_retained_mono; [|done].
    intros q. by rewrite (reorderPlugs_perm _ _ _ _ _ E).
  - intros d'' H'. rewrite !filter_True_id. eapply set_plugs_only_update; [done..| |exact H']. intros n' H''.
    simpl in H''. rewrite E in H''. simpl in H''. by res_inv.
Qed.

Lemma remove_plug_form d i n k :
  unique_ids d → find_id i (nodes d) = Some n →
  plug_command d (remove_input_plug i k) i n (filter (λ p, plug_id p ≠ k) (n_input_plugs n)) (λ p, p ≠ Val k).
Proof.
  intros Hu Hf. split.
  - intros [| |p] Hp; [by split..|]. simpl in *. rewrite list_elem_of_fmap. split.
    + intros (q & -> & [Hq _]%list_elem_of_filter). congruence.
    + intros Hne. apply list_elem_of_fmap in Hp as (q & -> & Hq). exists q. split; [done|].
      apply list_elem_of_filter. split; [congruence|done].
  - intros d' H. simpl in H. unfold applyRemoveInputPlug in H. res_inv.
    eapply set_plugs_only_update in E; [|done..|intros ? [= <-]; reflexivity]. by subst.
Qed.

(** Any plug edit comes back to itself. *)
Lemma plug_command_returns d c i n ps keep `{∀ p, Decision (keep p)} d' :
  normal d → unique_ids d → refs_ok d → find_id i (nodes d) = Some n →
  plug_command d c i n ps keep → applyGraphCommandNormalized d c = Ok d' →
  find_id i (nodes d') = Some (set_plugs ps n) ∧
  applyGraphCommandNormalized d (update_node_configuration_and_input_plugs i (jsopt_or (n_config n) []) ps) = Ok d'.
Proof.
  intros Hd Hu Hr Hf [Hk Hform] Happ. rewrite (Hform _ Happ). split; simpl.
  - by apply find_id_map_id.
  - by apply (plug_edit_read_back d i n ps keep).
Qed.

(** What becomes of a local command that the transition accepted: it is a rename,
    which leaves as a Project command; it leaves, and reading it back has the
    same effect; or it changed nothing and stays. *)
Definition travels_to (d : AuthoredGraphDocument) (c : GraphCommand) (gid : string) (d' : AuthoredGraphDocument) : Prop :=
  (∃ nm, c = rename_graph nm ∧ toRoomGraphCommand c d gid = Ok (Some (P_rename_graph gid nm (name d)))) ∨
  (∃ rc c', toRoomGraphCommand c d gid = Ok (Some rc) ∧
     toLocalGraphCommand rc (Some d) (Some gid) = Some c' ∧ applyGraphCommand d c' = Ok d') ∨
  (toRoomGraphCommand c d gid = Ok None ∧ d' = normalize d).

Lemma travels_by_body d c gid d' body c' :
  (∀ nm, c ≠ rename_graph nm) →
  toRoomGraphBodyCommand c d = Ok (Some body) →
  toLocalGraphCommand (P_in_graph gid body) (Some d) (Some gid) = Some c' →
  applyGraphCommand d c' = Ok d' → travels_to d c gid d'.
Proof.
  intros Hnr Hb Hl Ha. right; left. exists (P_in_graph gid body), c'. split; [|done].
  destruct c; [by destruct (Hnr nm)|..]; unfold toRoomGraphCommand; rewrite Hb; reflexivity.
Qed.

Lemma plug_command_travels d c i n ps keep `{∀ p, Decision (keep p)} d' gid :
  (∀ nm, c ≠ rename_graph nm) → toRoomGraphBodyCommand c d = toRoomPlugCommand c d i →
  normal d → unique_ids (normalize d) → refs_ok (normalize d) → find_id i (nodes d) = Some n →
  plug_command (normalize d) c i n ps keep → applyGraphCommand d c = Ok d' →
  travels_to d c gid d'.
Proof.
  intros Hnr Hbody Hd Hu Hr Hf Hpc Happ. change (applyGraphCommandNormalized (normalize d) c = Ok d') in Happ.
  assert (find_id i (nodes (normalize d)) = Some n) as Hf' by (by rewrite normalize_normal).
  destruct (plug_command_returns (normalize d) c i n ps keep d') as [Hn' Hback]; [|done..|].
  { apply normal_normalize. }
  assert (toRoomPlugCommand c d i = Ok (Some (R_set_node_input_plugs i ps (plug_id <$> n_input_plugs n)))) as Hroom.
  { unfold toRoomPlugCommand. rewrite Hf. change (applyGraphCommand d c) with (applyGraphCommandNormalized (normalize d) c).
    rewrite Happ. cbn [mbind res_bind]. by rewrite Hn'. }
  eapply travels_by_body; [done|by rewrite Hbody| |exact Hback].
  cbn [toLocalGraphCommand inGraphBody mbind option_bind]. rewrite bool_decide_true by done.
  cbn [toLocalGraphCommand inGraphBody mbind option_bind]. by rewrite Hf.
Qed.

Lemma normalize_frame d : normal d → unique_ids d → refs_ok d →
  nodes (normalize d) = nodes d ∧ edges (normalize d) = edges d ∧ origins (normalize d) = origins d ∧
  unique_ids (normalize d) ∧ refs_ok (normalize d).
Proof.
  intros Hd [] []. rewrite normalize_normal by done. split_and!; [done..| |]; by split.
Qed.

(** *** The cases whose read-back is not the command itself *)

Lemma in_graph_body gid b : inGraphBody (P_in_graph gid b) (Some gid) = Some b.
Proof. simpl. by rewrite bool_decide_true. Qed.

(** Reading a body back at the Graph it is addressed to. *)
Ltac read_back := unfold toLocalGraphCommand; rewrite in_graph_body; reflexivity.

Lemma add_projected d :
  (∀ n, applyGraphCommandNormalized d (add_node (projectSavedGraphNode n)) = applyGraphCommandNormalized d (add_node n)) ∧
  (∀ e, applyGraphCommandNormalized d (add_edge (projectSavedGraphEdge e)) = applyGraphCommandNormalized d (add_edge e)) ∧
  (∀ o, applyGraphCommandNormalized d (add_origin (projectSavedGraphOrigin o)) = applyGraphCommandNormalized d (add_origin o)) ∧
  (∀ a, applyGraphCommandNormalized d (add_agent (projectSavedGraphAgent a)) = applyGraphCommandNormalized d (add_agent a)) ∧
  (∀ a, applyGraphCommandNormalized d (configure_agent (projectSavedGraphAgent a)) =
        applyGraphCommandNormalized d (configure_agent a)).
Proof.
  split_and!; intros x; cbn [applyGraphCommandNormalized]; unfold applyConfigureAgent.
  - by rewrite projectNode_idem.
  - by rewrite projectEdge_idem.
  - by rewrite projectOrigin_idem.
  - by rewrite projectAgent_idem.
  - by rewrite projectAgent_idem.
Qed.

Lemma update_edge_travels d i u d' gid :
  normal d → unique_ids d → refs_ok d → command_travels d (update_edge i u) →
  applyGraphCommand d (update_edge i u) = Ok d' → travels_to d (update_edge i u) gid d'.
Proof.
  intros Hd Hu Hr (Htp & Hfp & Htpo & Hcp) Happ. destruct (normalize_frame d Hd Hu Hr) as (_ & He & _).
  change (applyUpdateEdge (normalize d) i u = Ok d') in Happ.
  unfold applyUpdateEdge, edgeOrThrow in Happ. rewrite He in Happ.
  destruct (find_id i (edges d)) as [e|] eqn:Hf; [|done]. simpl in Happ.
  pose proof (find_id_Some _ _ _ Hf) as [Hin Hi]. change (e_id e = i) in Hi.
  eapply (travels_by_body _ _ _ _ (R_update_edge (projectSavedGraphEdge (spreadEdgeUpdate e u)) _)); [done| |read_back|].
  - cbn [toRoomGraphBodyCommand]. rewrite Hf. unfold projectSpreadEdge.
    by destruct (u_conversion_path u) as [[]|].
  - change (applyUpdateEdge (normalize d) (e_id e) (localEdgeUpdate (projectSavedGraphEdge (spreadEdgeUpdate e u))) = Ok d').
    unfold applyUpdateEdge, edgeOrThrow. rewrite He, Hi, Hf. simpl. rewrite <- Happ. do 2 f_equal.
    eapply map_id_found; [apply Hu|done|]. by apply edge_update_read_back; [apply (normal_edges d Hd)|..].
Qed.

Lemma update_origin_travels d i u d' gid :
  normal d → unique_ids d → refs_ok d → command_travels d (update_origin i u) →
  applyGraphCommand d (update_origin i u) = Ok d' → travels_to d (update_origin i u) gid d'.
Proof.
  intros Hd Hu Hr Hcp Happ. destruct (normalize_frame d Hd Hu Hr) as (_ & _ & Ho & _).
  change (applyUpdateOrigin (normalize d) i u = Ok d') in Happ.
  unfold applyUpdateOrigin, originOrThrow in Happ. rewrite Ho in Happ.
  destruct (find_id i (origins d)) as [o|] eqn:Hf; [|done]. simpl in Happ, Hcp.
  pose proof (find_id_Some _ _ _ Hf) as [Hin Hi]. change (o_id o = i) in Hi.
  eapply (travels_by_body _ _ _ _ (R_update_origin (projectSavedGraphOrigin (spreadOriginUpdate o u)) _)); [done| |read_back|].
  - cbn [toRoomGraphBodyCommand]. rewrite Hf. unfold projectSpreadOrigin.
    by destruct (uo_conversion_path u) as [[]|].
  - change (applyUpdateOrigin (normalize d) (o_id o) (localOriginUpdate (projectSavedGraphOrigin (spreadOriginUpdate o u))) = Ok d').
    unfold applyUpdateOrigin, originOrThrow. rewrite Ho, Hi, Hf. simpl. rewrite <- Happ. do 2 f_equal.
    eapply map_id_found; [apply Hu|done|]. by apply origin_update_read_back; [apply (normal_origins d Hd)|].
Qed.

Lemma reset_binding_travels d i var d' gid n :
  normal d → unique_ids d → refs_ok d → find_id i (nodes d) = Some n →
  applyGraphCommand d (reset_artifact_type_binding i var) = Ok d' →
  travels_to d (reset_artifact_type_binding i var) gid d'.
Proof.
  intros Hd Hu Hr Hf Happ. destruct (normalize_frame d Hd Hu Hr) as (Hn & _ & _ & Hu' & _).
  destruct (list_find (λ b, variable b = var) (n_artifact_type_bindings n)) as [[k b]|] eqn:Hb.
  - eapply (travels_by_body _ _ _ _ (R_clear_node_artifact_type_binding i var b)); [done| |read_back|done].
    cbn [toRoomGraphBodyCommand]. rewrite Hf. cbn. by rewrite Hb.
  - right; right. split.
    + unfold toRoomGraphCommand. cbn [toRoomGraphBodyCommand]. rewrite Hf. cbn. by rewrite Hb.
    + change (applyResetArtifactTypeBinding (normalize d) i var = Ok d') in Happ.
      eapply updateNode_found in Happ as (n' & [= <-] & ->); [|done|by rewrite Hn].
      apply list_find_None in Hb. rewrite Forall_forall in Hb. rewrite (filter_all (λ b, variable b ≠ var)) by done.
      rewrite (map_id_found i _ id _ n); [|by rewrite Hn; apply Hu|by rewrite Hn|by destruct n].
      unfold map_id. rewrite (list_fmap_ext _ id); [|intros; by case_bool_decide].
      rewrite list_fmap_id. by destruct (normalize d).
Qed.

Lemma replace_travels d doc d' gid :
  command_travels d (replace_document doc) →
  applyGraphCommand d (replace_document doc) = Ok d' → travels_to d (replace_document doc) gid d'.
Proof.
  intros Hc [= <-]. eapply travels_by_body; [done|reflexivity|read_back|].
  change (Ok (normalize (with_name (name d) (normalize doc))) = Ok (normalize doc)). f_equal.
  rewrite normalize_normal by (destruct (normal_normalize doc); by split).
  simpl in *. rewrite <- Hc. done.
Qed.

(** A command survives the wire.  In a document without dangling ends, an
    accepted local command either is a rename, or becomes a Project command that
    reads back to a command with exactly the same result, or changed nothing and
    is not sent.  (An edge update that rewires is outside: see
    [edge_rewire_is_lost].) *)
Theorem wire_round_trip d c d' gid :
  normal d → unique_ids d → refs_ok d → command_travels d c →
  applyGraphCommand d c = Ok d' → travels_to d c gid d'.
Proof.
  intros Hd Hu Hr Hc Happ. destruct (normalize_frame d Hd Hu Hr) as (Hn & He & Ho & Hu' & Hr').
  pose proof Happ as Hnorm. change (applyGraphCommandNormalized (normalize d) c = Ok d') in Hnorm.
  assert (∀ i (f : GraphNode → res GraphNode), updateNode (normalize d) i f = Ok d' →
            ∃ n, find_id i (nodes d) = Some n) as Hfound.
  { intros i f [Hi _]%updateNode_ok. rewrite Hn in Hi. by apply find_id_is_Some. }
  destruct (add_projected (normalize d)) as (Hpn & Hpe & Hpo & Hpa & Hpc).
  destruct c; try (by eapply travels_by_body; [done|reflexivity|read_back|done]).
  - left. eauto.
  - eapply travels_by_body; [done|reflexivity|read_back|]. etrans; [apply Hpn|]. etrans; [apply Hpn|done].
  - destruct (Hfound _ _ Hnorm) as [n Hf]. eapply travels_by_body; [done|by cbn; rewrite Hf|read_back|done].
  - destruct (Hfound _ _ Hnorm) as [n Hf]. eapply travels_by_body; [done|by cbn; rewrite Hf|read_back|].
    rewrite <- Happ. by destruct layout.
  - destruct (Hfound _ _ Hnorm) as [n Hf].
    eapply plug_command_travels; [done|done|done|done|done|done| |done]. apply add_plug_form; [done|by rewrite Hn].
  - assert (∃ n, find_id node_id (nodes d) = Some n) as [n Hf].
    { simpl in Hnorm. unfold applyRemoveInputPlug in Hnorm. res_inv.
      apply updateNode_ok in E as [Hi _]. rewrite Hn in Hi. by apply find_id_is_Some. }
    eapply plug_command_travels; [done|done|done|done|done|done| |done]. apply remove_plug_form; [done|by rewrite Hn].
  - destruct (Hfound _ _ Hnorm) as [n Hf].
    destruct (reorder_plug_form (normalize d) node_id n port plugId to_index d') as (ps & _ & Hform); [done|by rewrite Hn|done|].
    by eapply plug_command_travels.
  - assert (∃ n, find_id node_id (nodes d) = Some n) as [n Hf].
    { simpl in Hnorm. unfold applyConfigurationAndInputPlugs in Hnorm. res_inv.
      apply updateNode_ok in E as [Hi _]. rewrite Hn in Hi. by apply find_id_is_Some. }
    eapply travels_by_body; [done|by cbn; rewrite Hf|read_back|done].
  - destruct (Hfound _ _ Hnorm) as [n Hf]. eapply travels_by_body; [done|by cbn; rewrite Hf|read_back|done].
  - destruct (Hfound _ _ Hnorm) as [n Hf]. by eapply reset_binding_travels.
  - eapply travels_by_body; [done|reflexivity|read_back|]. etrans; [apply Hpe|done].
  - by apply update_edge_travels.
  - eapply travels_by_body; [done|reflexivity|read_back|]. etrans; [apply Hpo|done].
  - by apply update_origin_travels.
  - eapply travels_by_body; [done|reflexivity|read_back|]. etrans; [apply Hpa|]. etrans; [apply Hpa|done].
  - eapply travels_by_body; [done|reflexivity|read_back|]. etrans; [apply Hpc|]. etrans; [apply Hpc|done].
  - by apply replace_travels.
Qed.

(** ** Replay onto the head *)

(** The document the canvas reads off a Graph of the head. *)
Definition graph_view (g : GraphDefinition) : AuthoredGraphDocument :=
  authoredGraphDocument {| draft_name := g_name g; draft_document := g_document g |}.

Lemma graph_view_normal g : normal (graph_view g).
Proof.
  split; simpl.
  - exact (canonical_project (A := GraphNode) _).
  - exact (canonical_project (A := GraphEdge) _).
  - exact (canonical_project (A := GraphOrigin) _).
  - exact (canonical_project (A := GraphAgent) _).
Qed.

(** A Graph rebuilt from a normal document shows that document. *)
Lemma graph_view_draft g d p :
  normal d → trim (g_name g) = trim (name d) →
  same_graph (graph_view (withGraphDocument g (draft_document (createGraphDraft d p)))) d.
Proof.
  intros Hd Hnm. pose proof (normalize_normal d Hd) as Heq.
  unfold normalize, authoredGraphDocument in Heq. injection Heq as Hn He Ho Ha.
  split; simpl; [done|exact Hn|exact He|exact Ho|exact Ha].
Qed.

(** Only a rename and a replacement touch the name. *)
Lemma apply_keeps_name d c d' :
  (∀ nm, c ≠ rename_graph nm) → (∀ doc, c ≠ replace_document doc) →
  applyGraphCommandNormalized d c = Ok d' → name d' = name d.
Proof.
  intros Hr Hd. destruct c; simpl; intros H;
    try (by destruct (Hr nm)); try (by destruct (Hd document));
    try (by apply updateNode_frame in H as [-> _]); try (case_match; [discriminate|]);
    unfold applyMoveNodes, applyRemoveInputPlug, applyConfigurationAndInputPlugs, applyUpdateEdge,
      applyUpdateOrigin, applyConfigureAgent in H; res_inv; try done;
    by apply updateNode_frame in E as [-> _].
Qed.

Lemma mapGraph_find h gid g f seq g' :
  NoDup (ids (h_graphs h)) → find_id gid (h_graphs h) = Some g → f g = Ok g' → g_id g' = gid →
  ∃ h', mapGraphDocument h gid f seq = Ok h' ∧ find_id gid (h_graphs h') = Some g'.
Proof.
  intros Hnd Hf Hg Hid. unfold mapGraphDocument. rewrite some_id_find, Hf.
  pose proof (find_id_Some _ _ _ Hf) as [Hin Hi].
  rewrite (res_map_ext _ (λ x, Ok (if bool_decide (g_id x = gid) then g' else x))).
  - rewrite res_map_ok. cbn [mbind res_bind]. eexists. split; [done|].
    cbn [h_graphs with_sequence with_graphs]. clear Hnd Hin.
    induction (h_graphs h) as [|x l IH]; [done|]. cbn [fmap list_fmap]. rewrite find_id_cons in Hf. rewrite find_id_cons.
    change (ident x) with (g_id x) in *. case_decide as Hx.
    + rewrite bool_decide_true by done. by rewrite decide_True.
    + rewrite bool_decide_false by done. rewrite decide_False by done. by apply IH.
  - intros x Hx. case_bool_decide as Hxi; [|done].
    assert (Some x = Some g) as [= ->]; [|done].
    rewrite <- Hf, <- Hxi. symmetry. by apply (find_id_NoDup x).
Qed.

(** The ends at the node all name a plug the edit keeps. *)
Definition plugs_keep_ends (d : AuthoredGraphDocument) (body : RoomGraphBodyCommand) : Prop :=
  match body with
  | R_set_node_input_plugs i ps _ =>
      (∀ e, e ∈ edges d → e_to_node e = i → plug_retained (plug_id <$> ps) (e_to_plug e)) ∧
      (∀ o, o ∈ origins d → o_to_node o = i → plug_retained (plug_id <$> ps) (o_to_plug o))
  | _ => True
  end.

Lemma replay_plugs g i ps d' n :
  unique_ids (graph_view g) → find_id i (nodes (graph_view g)) = Some n →
  plugs_keep_ends (graph_view g) (R_set_node_input_plugs i ps []) →
  applyGraphCommand (graph_view g)
    (update_node_configuration_and_input_plugs i (jsopt_or (n_config n) []) ps) = Ok d' →
  same_graph (graph_view (withGraphDocument g
    (with_doc_nodes (map_id i (set_plugs ps) (d_nodes (g_document g))) (g_document g)))) d'.
Proof.
  intros Hu Hf [Hke Hko] Happ. pose proof (graph_view_normal g) as Hv.
  change (applyGraphCommandNormalized (normalize (graph_view g))
    (update_node_configuration_and_input_plugs i (jsopt_or (n_config n) []) ps) = Ok d') in Happ.
  rewrite plugs_read_back in Happ; [|apply normal_normalize| |].
  2:{ rewrite normalize_normal by done. destruct Hu. by split. }
  2:{ by rewrite normalize_normal. }
  rewrite normalize_normal in Happ by done. injection Happ as <-. split; simpl.
  - symmetry. apply trim_idem.
  - unfold map_id. rewrite <- !list_fmap_compose. apply list_fmap_ext. intros k m _. simpl.
    change (ident (projectSavedGraphNode m)) with (ident m).
    case_bool_decide; [|done]. destruct m. unfold projectSavedGraphNode, set_plugs. simpl.
    by rewrite projectInputPlug_id.
  - symmetry. apply filter_all. intros e He. destruct (decide (e_to_node e = i)); [right; by apply Hke|by left].
  - symmetry. apply filter_all. intros o Ho. destruct (decide (o_to_node o = i)); [right; by apply Hko|by left].
  - done.
Qed.

(** The branch of the replay that goes through the local vocabulary. *)
Lemma replay_local g gid body c d' :
  g_id g = gid → (∀ doc, body ≠ R_replace_document doc) →
  toLocalGraphCommand (P_in_graph gid body) (Some (graph_view g)) (Some gid) = Some c →
  applyGraphCommand (graph_view g) c = Ok d' →
  ∃ g', applyLocalToGraph (P_in_graph gid body) g = Ok g' ∧ g_id g' = gid ∧ same_graph (graph_view g') d'.
Proof.
  intros Hi Hb Hl Happ. unfold applyLocalToGraph. fold (graph_view g). rewrite Hi, Hl, Happ. cbn [mbind res_bind].
  eexists. split; [done|]. split; [done|]. apply graph_view_draft.
  - eapply apply_normal, Happ. apply normal_normalize.
  - assert (name d' = trim (g_name g)) as ->; [|by rewrite trim_idem].
    change (applyGraphCommandNormalized (normalize (graph_view g)) c = Ok d') in Happ.
    apply apply_keeps_name in Happ; [done|intros nm ->|intros doc ->];
      unfold toLocalGraphCommand in Hl; rewrite in_graph_body in Hl;
      destruct body; simpl in Hl; try discriminate; try (by eapply Hb; eauto);
      by destruct (find_id node_id _).
Qed.

(** Replaying an accepted command onto the confirmed head leaves, in the Graph
    it is addressed to, the document a canvas that applies the same command
    locally shows.  (An input-plug edit that takes a plug away from an edge or an
    origin is outside: see [plug_replay_leaves_dangling_ends].) *)
Theorem head_replay_agrees h gid g body c d' seq :
  NoDup (ids (h_graphs h)) → find_id gid (h_graphs h) = Some g → unique_ids (graph_view g) →
  toLocalGraphCommand (P_in_graph gid body) (Some (graph_view g)) (Some gid) = Some c →
  applyGraphCommand (graph_view g) c = Ok d' →
  plugs_keep_ends (graph_view g) body →
  ∃ h' g', applyRoomCommandToHead h (P_in_graph gid body) seq = Ok h' ∧
    find_id gid (h_graphs h') = Some g' ∧ same_graph (graph_view g') d'.
Proof.
  intros Hnd Hf Hu Hl Happ Hk. pose proof (find_id_Some _ _ _ Hf) as [_ Hi]. change (g_id g = gid) in Hi.
  assert (∀ f g', f g = Ok g' → g_id g' = gid → same_graph (graph_view g') d' →
    ∃ h' g', mapGraphDocument h gid f seq = Ok h' ∧ find_id gid (h_graphs h') = Some g' ∧
      same_graph (graph_view g') d') as Hmap.
  { intros f g' Hg' Hi' Hs. destruct (mapGraph_find h gid g f seq g') as (h' & ? & ?); eauto. }
  assert ((∀ doc, body ≠ R_replace_document doc) →
    ∃ h' g', mapGraphDocument h gid (applyLocalToGraph (P_in_graph gid body)) seq = Ok h' ∧
      find_id gid (h_graphs h') = Some g' ∧ same_graph (graph_view g') d') as Hlocal.
  { intros Hb. destruct (replay_local g gid body c d' Hi Hb Hl Happ) as (g' & ? & ? & ?). eauto. }
  unfold toLocalGraphCommand in Hl; rewrite in_graph_body in Hl.
  destruct body; cbn [mbind option_bind] in Hl; cbn [applyRoomCommandToHead applyInGraphToHead]; try (by apply Hlocal); try done.
  - destruct (find_id node_id (nodes (graph_view g))) as [n|] eqn:Hn; [|done]. injection Hl as <-.
    eapply Hmap; [reflexivity|done|]. by eapply replay_plugs.
  - injection Hl as <-. eapply Hmap; [reflexivity|done|]. injection Happ as <-.
    change (same_graph (graph_view (withGraphDocument g (with_presentation
      (match d_presentation document with Val p => Val p | _ => d_presentation (g_document g) end) document)))
      (normalize (graph_view (withGraphDocument g document)))).
    transitivity (graph_view (withGraphDocument g document)); [by split|].
    symmetry. apply normalize_same, graph_view_normal.
Qed.

(** ** What a replay leaves alone *)

(** The Graph a command is about. *)
Definition command_graph (c : RoomProjectCommand) : option string :=
  match c with
  | P_add_graph i _ _ | P_rename_graph i _ _ | P_remove_graph i | P_refresh_node i _ _
  | P_add_call_node i _ _ _ | P_in_graph i _ => Some i
  | P_rename_project _ _ | P_unknown _ => None
  end.

Record head_frame (h h' : CollaborativeHead) : Prop := {
  hf_project : h_project_id h' = h_project_id h;
  hf_epoch : h_room_epoch h' = h_room_epoch h;
  hf_checkpoint : h_checkpoint_revision h' = h_checkpoint_revision h;
  hf_checkpoint_sequence : h_checkpoint_sequence h' = h_checkpoint_sequence h;
  hf_updated : h_updated_at h' = h_updated_at h
}.

#[export] Instance head_frame_preorder : PreOrder head_frame.
Proof.
  split; [by split|]. intros h1 h2 h3 [] []. split; congruence.
Qed.

(** The updates a replay makes keep the Graph's id. *)
Lemma applyLocal_keeps_id c g g' : applyLocalToGraph c g = Ok g' → g_id g' = g_id g.
Proof.
  unfold applyLocalToGraph. case_match; [|by intros [= ->]]. intros H'. by res_inv.
Qed.

Lemma mapGraph_frame h gid f seq h' :
  (∀ g g', f g = Ok g' → g_id g' = g_id g) → mapGraphDocument h gid f seq = Ok h' →
  head_frame h h' ∧ h_collaboration_sequence h' = seq ∧ ids (h_graphs h') = ids (h_graphs h) ∧
  ∀ i, i ≠ gid → find_id i (h_graphs h') = find_id i (h_graphs h).
Proof.
  intros Hid. unfold mapGraphDocument. destruct (some_id gid (h_graphs h)); intros H'; res_inv; [|by split_and!; [split|..]].
  cbn [h_graphs with_sequence with_graphs]. split_and!; [by split|done|..].
  - apply res_map_Forall2 in E. unfold ids.
    induction E as [|x y l l' Hxy E IH]; [done|]. simpl. f_equal; [|done].
    change (g_id y = g_id x). case_bool_decide; [by apply Hid|by injection Hxy as ->].
  - intros i Hi. apply res_map_Forall2 in E.
    induction E as [|x y l l' Hxy E IH]; [done|]. rewrite !find_id_cons, IH.
    case_bool_decide as Hx; [|by injection Hxy as ->].
    apply Hid in Hxy. change (g_id y = g_id x) in Hxy.
    rewrite !decide_False; [done|cbv [ident graph_identified]; congruence..].
Qed.

Lemma replay_frame h c seq h' :
  applyRoomCommandToHead h c seq = Ok h' →
  head_frame h h' ∧ h_collaboration_sequence h' = seq ∧
  (NoDup (ids (h_graphs h)) → NoDup (ids (h_graphs h'))) ∧
  ∀ i, command_graph c ≠ Some i → find_id i (h_graphs h') = find_id i (h_graphs h).
Proof.
  assert (∀ gid f, (∀ g g', f g = Ok g' → g_id g' = g_id g) → mapGraphDocument h gid f seq = Ok h' →
    head_frame h h' ∧ h_collaboration_sequence h' = seq ∧ (NoDup (ids (h_graphs h)) → NoDup (ids (h_graphs h'))) ∧
    ∀ i, Some gid ≠ Some i → find_id i (h_graphs h') = find_id i (h_graphs h)) as Hmap.
  { intros gid f Hid Hm. destruct (mapGraph_frame _ _ _ _ _ Hid Hm) as (? & ? & -> & Hne).
    split_and!; [done..|]. intros i Hi. apply Hne. congruence. }
  destruct c; simpl; intros H; res_inv; try (by split_and!; [split|..]).
  - destruct (some_id graph_id (h_graphs h)) eqn:Hs; res_inv; [by split_and!; [split|..]|].
    apply some_id_false in Hs. cbn [h_graphs with_sequence with_graphs]. split_and!; [by split|done|..].
    + intros Hnd. by apply (NoDup_ids_snoc (A := GraphDefinition)).
    + intros i Hi. rewrite find_id_app. destruct (find_id i (h_graphs h)); [done|].
      rewrite find_id_cons, decide_False; [done|]. cbv [ident graph_identified]; simpl. congruence.
  - cbn [h_graphs with_sequence with_graphs]. split_and!; [by split|done|..].
    + by rewrite ids_map_id.
    + intros i Hi. apply find_id_map_id_ne; [done|congruence].
  - cbn [h_graphs with_sequence with_graphs]. split_and!; [by split|done|..].
    + apply (NoDup_ids_filter (A := GraphDefinition)).
    + intros i Hi. clear -Hi. induction (h_graphs h) as [|x l IH]; [done|].
      rewrite filter_cons. case_decide as Hx; rewrite !find_id_cons, ?IH; [done|].
      rewrite decide_False; [done|]. cbv [ident graph_identified]. intros <-. apply Hi. by rewrite Hx.
  - eapply Hmap; [|exact H]. intros g g' [= <-]. done.
  - destruct command; (eapply Hmap; [|exact H]); intros g g'; try (by intros [= <-]); apply applyLocal_keeps_id.
Qed.

(** A batch with a command in it moves the head to the batch's sequence. *)
Lemma replay_sequence h cs seq h' :
  applyRoomCommandsToHead h cs seq = Ok h' → cs ≠ [] → h_collaboration_sequence h' = seq.
Proof.
  unfold applyRoomCommandsToHead. destruct (last cs) as [c|] eqn:Hl; [|by apply last_None in Hl].
  apply last_Some in Hl as [cs' ->]. intros H _. rewrite res_fold_app in H. simpl in H. res_inv.
  by apply replay_frame in E0 as (_ & ? & _).
Qed.

(** Replaying a batch never touches a Graph no command of the batch is about,
    the Project's identity, epoch and checkpoint, or the uniqueness of Graph ids;
    a batch with at least one command sets the sequence to the batch's. *)
Theorem batch_replay_frame h cs seq h' :
  applyRoomCommandsToHead h cs seq = Ok h' →
  head_frame h h' ∧
  h_collaboration_sequence h' = (match cs with [] => h_collaboration_sequence h | _ => seq end) ∧
  (NoDup (ids (h_graphs h)) → NoDup (ids (h_graphs h'))) ∧
  ∀ i, (∀ c, c ∈ cs → command_graph c ≠ Some i) → find_id i (h_graphs h') = find_id i (h_graphs h).
Proof.
  intros Hall. assert (h_collaboration_sequence h' = match cs with [] => h_collaboration_sequence h | _ => seq end) as Hseq.
  { destruct cs; [by injection Hall as <-|]. by eapply replay_sequence. }
  split; [|split; [exact Hseq|]]; clear Hseq; unfold applyRoomCommandsToHead in Hall; revert h Hall;
    induction cs as [|c cs IH]; intros h H; simpl in H; res_inv; try done;
    apply replay_frame in E as (Hf1 & _ & Hn1 & Hg1).
  { etrans; [exact Hf1|by apply IH]. }
  apply IH in H as [Hn2 Hg2]. split; [auto|].
  intros i Hi. rewrite Hg2 by (intros; apply Hi; by right). apply Hg1, Hi. by left.
Qed.

(** ** Replays that depart from the command's effect *)

Definition sample_graph : GraphDefinition :=
  {| g_id := "g"; g_name := "graph"; g_document := draft_document (createGraphDraft sample_doc Undef);
     g_refresh_generations := JUndefined |}.

Definition sample_head : CollaborativeHead :=
  {| h_checkpoint_revision := 1; h_checkpoint_sequence := 3; h_collaboration_sequence := 4;
     h_graphs := [sample_graph]; h_name := "project"; h_project_id := "project-1";
     h_room_epoch := "epoch-1"; h_updated_at := "now" |}.

(** An update that moves edge [e] from plug [p] to plug [q]. *)
Definition rewire : SavedGraphEdgeUpdate :=
  {| u_collection_mode := None; u_enabled := None; u_projection := None; u_conversion_path := None;
     u_route_offset := None; u_to_plug := Some (Val "q"); u_from_port := None; u_to_port := None |}.

(** Rewiring an edge does not reach the other replicas.  The sender's document
    moves the edge to plug [q] and the wire command carries the edge at [q], but
    the command a receiver reads back leaves the edge at plug [p], and so does
    the replay onto the head. *)
Theorem edge_rewire_is_lost :
  ∃ rc c sent received h g,
    applyGraphCommand sample_doc (update_edge "e" rewire) = Ok sent ∧
    toRoomGraphCommand (update_edge "e" rewire) sample_doc "g" = Ok (Some rc) ∧
    toLocalGraphCommand rc (Some sample_doc) (Some "g") = Some c ∧
    applyGraphCommand sample_doc c = Ok received ∧
    applyRoomCommandToHead sample_head rc 5 = Ok h ∧ find_id "g" (h_graphs h) = Some g ∧
    e_to_plug <$> edges sent = [Val "q"] ∧
    e_to_plug <$> edges received = [Val "p"] ∧ e_to_plug <$> edges (graph_view g) = [Val "p"].
Proof. do 6 eexists. split_and!; reflexivity. Qed.

(** Replaying the removal of an input plug onto the head keeps the edge at that
    plug: the Graph of the head dangles, where the canvas that applies the same
    accepted command drops the edge. *)
Theorem plug_replay_leaves_dangling_ends :
  let rc := P_in_graph "g" (R_set_node_input_plugs "b" [plug_q] ["p"; "q"]) in
  toRoomGraphCommand (remove_input_plug "b" "p") sample_doc "g" = Ok (Some rc) ∧
  (∃ h g, applyRoomCommandToHead sample_head rc 5 = Ok h ∧ find_id "g" (h_graphs h) = Some g ∧ ¬ refs_ok (graph_view g)) ∧
  (∃ c d, toLocalGraphCommand rc (Some (graph_view sample_graph)) (Some "g") = Some c ∧
     applyGraphCommand (graph_view sample_graph) c = Ok d ∧ edges d = []).
Proof.
  simpl. split; [reflexivity|]. split.
  - do 2 eexists. split; [reflexivity|]. split; [reflexivity|]. intros [He _].
    destruct (He (sample_edge "e" "a" "b" (Val "p"))) as [_ (n & Hn & Hi & Hp)]; [by left|].
    revert n Hn Hi Hp. cbn. intros n Hn Hi Hp. rewrite !elem_of_cons in Hn.
    destruct Hn as [->|[->|[->|Hn]]]; [done| |done|by apply elem_of_nil in Hn].
    apply list_elem_of_singleton in Hp. done.
  - do 2 eexists. split_and!; reflexivity.
Qed.

(** Replaying [add_call_node] adds no node to any Graph of the head; it only
    turns a node that already has the id into a call node. *)
Theorem add_call_node_adds_no_node h gid nid callee pos seq h' i g g' :
  applyRoomCommandToHead h (P_add_call_node gid nid callee pos) seq = Ok h' →
  NoDup (ids (h_graphs h)) → find_id i (h_graphs h) = Some g → find_id i (h_graphs h') = Some g' →
  ids (d_nodes (g_document g')) = ids (d_nodes (g_document g)).
Proof.
  intros H Hnd Hg Hg'. cbn [applyRoomCommandToHead] in H. destruct (decide (i = gid)) as [->|Hne].
  - match type of H with mapGraphDocument _ _ ?f _ = _ =>
      edestruct (mapGraph_find h gid g f seq) as (h1 & H1 & Hf1) end;
      [done|done|reflexivity|by apply find_id_Some in Hg as [_ ?]|].
    rewrite H1 in H. injection H as <-. rewrite Hf1 in Hg'. injection Hg' as <-. simpl.
    by rewrite (ids_map_id (A := GraphNode)).
  - apply mapGraph_frame in H as (_ & _ & _ & Hf); [|by intros ? ? [= <-]]. rewrite Hf in Hg' by done. congruence.
Qed.

(** ** The hypotheses hold on concrete documents *)

Lemma sample_normal : normal sample_doc.
Proof. split; intros x Hx; repeat (apply elem_of_cons in Hx as [->|Hx]; [reflexivity|]); by apply elem_of_nil in Hx. Qed.

Lemma wire_round_trip_witness :
  ∃ d', applyGraphCommand sample_doc (remove_input_plug "b" "p") = Ok d' ∧
    travels_to sample_doc (remove_input_plug "b" "p") "g" d'.
Proof.
  eexists. split; [reflexivity|].
  apply (wire_round_trip sample_doc (remove_input_plug "b" "p"));
    [exact sample_normal|exact sample_unique|exact sample_refs|exact I|reflexivity].
Defined.

Lemma head_replay_agrees_witness :
  ∃ d' h' g', applyGraphCommand (graph_view sample_graph) (remove_nodes ["a"]) = Ok d' ∧
    applyRoomCommandToHead sample_head (P_in_graph "g" (R_remove_nodes ["a"])) 5 = Ok h' ∧
    find_id "g" (h_graphs h') = Some g' ∧ same_graph (graph_view g') d'.
Proof.
  eexists.
  destruct (head_replay_agrees sample_head "g" sample_graph (R_remove_nodes ["a"]) (remove_nodes ["a"])
              (applyRemoveNodes (graph_view sample_graph) ["a"]) 5) as (h' & g' & Hh & Hg & Hs);
    [by_decide|reflexivity|split; by_decide|reflexivity|reflexivity|exact I|].
  exists h', g'. split_and!; [reflexivity|exact Hh|exact Hg|exact Hs].
Defined.

Lemma batch_replay_frame_witness :
  ∃ h', applyRoomCommandsToHead sample_head [P_add_graph "new" "New" Null; P_remove_graph "g"] 5 = Ok h' ∧
    h_collaboration_sequence h' = 5%Z ∧ head_frame sample_head h'.
Proof.
  eexists. split; [reflexivity|].
  destruct (batch_replay_frame sample_head [P_add_graph "new" "New" Null; P_remove_graph "g"] 5 _ eq_refl)
    as (Hf & Hs & _). split; [exact Hs|exact Hf].
Defined.

Lemma add_call_node_adds_no_node_witness :
  ∃ h' g', applyRoomCommandToHead sample_head (P_add_call_node "g" "fresh" "other" (pt 1 1)) 5 = Ok h' ∧
    find_id "g" (h_graphs h') = Some g' ∧ ids (d_nodes (g_document g')) = ["a"; "b"; "c"].
Proof.
  do 2 eexists. split; [reflexivity|]. split; [reflexivity|].
  exact (add_call_node_adds_no_node sample_head "g" "fresh" "other" (pt 1 1) 5 _ "g" sample_graph _
           eq_refl ltac:(by_decide) eq_refl eq_refl).
Defined.
