(* ===== verification/Protocol.v ===== *)
(** * The Project-room wire protocol

    [room/protocol.ts]: the constants, the server's messages, and the parser that
    turns untrusted JSON into them.  A parser that returns [null] returns [None].
    The head and the commands of a message are checked for their shape and then
    cast, so a parsed message carries them as the values they are. *)

From S2P Require Import Prelude Js JsText.
From stdpp Require Import numbers pretty.
#[local] Open Scope string_scope.
#[local] Open Scope list_scope.
#[local] Open Scope Z_scope.

Definition ROOM_PROTOCOL_VERSION : Z := 1.
Definition ROOM_COMMAND_QUEUE_CAP : nat := 32.

Definition CLOSE_PERMISSIONS_CHANGED : Z := 4003.
Definition CLOSE_ACCESS_REVOKED : Z := 4004.
Definition CLOSE_PROTOCOL_ERROR : Z := 4008.
Definition CLOSE_SLOW_CONSUMER : Z := 4009.
Definition CLOSE_PROJECT_DELETED : Z := 4010.

Inductive ProjectRoomTerminalReason := access_revoked | project_deleted | protocol_incompatible | reconnect_exhausted.
Inductive ProjectRoomRecoveryReason := connection_lost | permissions_changed | protocol_error | slow_consumer.

#[export] Instance terminal_reason_dec : EqDecision ProjectRoomTerminalReason.
Proof. solve_decision. Defined.

Inductive FailureReason := Recovery (r : ProjectRoomRecoveryReason) | Terminal (r : ProjectRoomTerminalReason).
Inductive FailureSide := side_client | side_server | side_network.
Inductive FailurePhase := phase_connect | phase_receive | phase_close.

Record ProjectRoomFailure := {
  f_workspaceId : string;
  f_projectId : string;
  f_projectRoomSessionId : option string;
  f_reason : FailureReason;
  f_retryable : bool;
  f_side : FailureSide;
  f_phase : FailurePhase;
  f_messageType : option string;
  f_protocolVersion : option jsnum;
  f_closeCode : option Z;
  f_detail : string
}.

Inductive ProjectRoomStatus := st_idle | st_connecting | st_ready | st_reconnecting | st_unsynchronized | st_stopped.

#[export] Instance status_dec : EqDecision ProjectRoomStatus.
Proof. solve_decision. Defined.

(** ** Messages *)

Record ActorPresentation := { actor_id : string; display_name : string; color : string }.

Record CapabilitySnapshot := { capabilities : list string; authorization_version : Z }.

Inductive PresenceActivityKind := moving_nodes_activity | editing_node | connecting.

Record PresencePoint := { pp_x : jsnum; pp_y : jsnum }.

Record TransientNodePosition := { tp_node_id : string; tp_x : jsnum; tp_y : jsnum }.

Record PresenceParticipant := {
  p_project_room_session_id : string;
  p_actor : ActorPresentation;
  p_graph_id : option string;
  p_presence_sequence : Z;
  p_cursor : option PresencePoint;
  p_selected_node_ids : list string;
  p_selected_edge_ids : list string;
  p_activity : option PresenceActivityKind;
  p_activity_target_ids : list string;
  p_transient_node_positions : list TransientNodePosition
}.

Record RoomInstanceKey := {
  k_project_id : string;
  k_graph_id : string;
  k_call_path : list string;
  k_node_id : string;
  k_map_index : option Z
}.

Inductive InstanceStateName := is_fresh | is_stale | is_queued | is_running | is_failed.

Record RoomInstanceState := {
  i_key : RoomInstanceKey;
  i_state : InstanceStateName;
  i_fingerprint : string;
  i_last_result_fingerprint : option string;
  i_error : option string
}.

Record RunTarget := { t_node_id : string; t_call_path : list string }.

Record ActiveRunSummary := {
  r_run_id : string;
  r_graph_id : string;
  r_targets : list RunTarget;
  r_starter : option ActorPresentation;
  r_started_at : string;
  r_cancellable : bool
}.

Record RoomReadyMessage := {
  rm_workspace_id : string;
  rm_project_id : string;
  rm_project_room_session_id : string;
  rm_actor : ActorPresentation;
  rm_capabilities : CapabilitySnapshot;
  rm_head : jsval;
  rm_participants : list PresenceParticipant;
  rm_active_runs : list ActiveRunSummary;
  rm_instances : list RoomInstanceState;
  rm_registry_marker : string
}.

Inductive TerminalRunStatus := run_succeeded | run_failed | run_cancelled | run_interrupted.

Record RunFinishedMessage := { rf_run_id : string; rf_status : TerminalRunStatus; rf_error : option string }.

Record InstancesChangedMessage := {
  ic_changed : list RoomInstanceState;
  ic_removed : list RoomInstanceKey;
  ic_head_sequence : Z
}.

Record ProjectCommandAcceptedMessage := {
  ca_command_id : string;
  ca_room_epoch : string;
  ca_sequence : Z;
  ca_actor : ActorPresentation;
  ca_project_room_session_id : option string;
  ca_commands : list jsval
}.

Inductive ReceiptOutcome := outcome_accepted | outcome_idempotent_replay.

Record ProjectCommandReceiptMessage := {
  cr_command_id : string;
  cr_outcome : ReceiptOutcome;
  cr_accepted_room_epoch : string;
  cr_accepted_sequence : Z;
  cr_current_room_epoch : string;
  cr_current_sequence : Z;
  cr_deduplicated : bool;
  cr_requires_head_rehydration : bool
}.

Record ProjectCommandRejectedMessage := {
  cx_command_id : string;
  cx_error_code : string;
  cx_detail : string;
  cx_current_room_epoch : option string;
  cx_current_sequence : option Z
}.

Inductive ServerRoomMessage :=
| m_ready (m : RoomReadyMessage)
| m_presence_join (p : PresenceParticipant)
| m_presence_update (p : PresenceParticipant)
| m_presence_leave (project_room_session_id : string)
| m_run_started (run : ActiveRunSummary)
| m_run_finished (m : RunFinishedMessage)
| m_instances_changed (m : InstancesChangedMessage)
| m_command_accepted (m : ProjectCommandAcceptedMessage)
| m_command_receipt (m : ProjectCommandReceiptMessage)
| m_command_rejected (m : ProjectCommandRejectedMessage)
| m_rehydrate (head : jsval)
| m_heartbeat (version : Z).

(** ** Checks on untrusted values

    A type guard returns the narrowed value. *)

Definition isRecord (v : jsval) : bool :=
  match v with JObj _ | JArr _ => true | _ => false end.

Definition isString (v : jsval) : option string :=
  match v with JStr s => Some s | _ => None end.

Definition asInt (v : jsval) : option Z :=
  match v with JNum n => num_integer n | _ => None end.

Definition isNonNegativeInt (v : jsval) : option Z :=
  z ← asInt v; if bool_decide (0 ≤ z) then Some z else None.

Definition isPositiveInt (v : jsval) : option Z :=
  z ← asInt v; if bool_decide (1 ≤ z) then Some z else None.

Definition isBoolean (v : jsval) : option bool :=
  match v with JBool b => Some b | _ => None end.

Definition isArray (v : jsval) : option (list jsval) :=
  match v with JArr l => Some l | _ => None end.

Definition isFiniteNumber (v : jsval) : option jsnum :=
  match v with JNum n => if num_isFinite n then Some n else None | _ => None end.

(** [if (!isRecord(value)) return null;] *)
Definition record_only {A} (v : jsval) (k : option A) : option A :=
  if isRecord v then k else None.

Definition parseActor (value : jsval) : option ActorPresentation :=
  record_only value (
    i ← isString (js_get "actor_id" value);
    n ← isString (js_get "display_name" value);
    c ← isString (js_get "color" value);
    Some {| actor_id := i; display_name := n; color := c |}).

Definition parsePresencePoint (value : jsval) : option PresencePoint :=
  record_only value (
    x ← isFiniteNumber (js_get "x" value);
    y ← isFiniteNumber (js_get "y" value);
    Some {| pp_x := x; pp_y := y |}).

Definition parseStringIdList (value : jsval) : option (list string) :=
  l ← isArray value; mapM isString l.

Definition parseTransientPosition (item : jsval) : option TransientNodePosition :=
  record_only item (
    i ← isString (js_get "node_id" item);
    x ← isFiniteNumber (js_get "x" item);
    y ← isFiniteNumber (js_get "y" item);
    Some {| tp_node_id := i; tp_x := x; tp_y := y |}).

Definition parseTransientPositions (value : jsval) : option (list TransientNodePosition) :=
  l ← isArray value; mapM parseTransientPosition l.

Definition parsePresenceActivity (value : jsval) : option PresenceActivityKind :=
  match value with
  | JStr s =>
      if bool_decide (s = "moving_nodes") then Some moving_nodes_activity
      else if bool_decide (s = "editing_node") then Some editing_node
      else if bool_decide (s = "connecting") then Some connecting else None
  | _ => None
  end.

Definition optionalString (value : jsval) : jsopt string :=
  match value with JNull => Null | JStr s => Val s | _ => Undef end.

(** [optionalString] followed by the check that only a nullish value may have no
    string: the outer [None] is the parser's [null]. *)
Definition nullableString (value : jsval) : option (option string) :=
  match optionalString value with
  | Undef => if is_nullish value then Some None else None
  | s => Some (jsopt_to_option s)
  end.

(** [value === null || value === undefined ? null : parse(value)], rejecting a
    value that is there and does not parse. *)
Definition nullable {A} (parse : jsval → option A) (value : jsval) : option (option A) :=
  if is_nullish value then Some None else Some <$> parse value.

Definition parseParticipant (value : jsval) : option PresenceParticipant :=
  record_only value (
    actor ← parseActor (js_get "actor" value);
    sid ← isString (js_get "project_room_session_id" value);
    seq ← isNonNegativeInt (js_get "presence_sequence" value);
    graphId ← nullableString (js_get "graph_id" value);
    cursor ← nullable parsePresencePoint (js_get "cursor" value);
    selectedNodeIds ← parseStringIdList (coalesce (js_get "selected_node_ids" value) (JArr []));
    selectedEdgeIds ← parseStringIdList (coalesce (js_get "selected_edge_ids" value) (JArr []));
    activityTargets ← parseStringIdList (coalesce (js_get "activity_target_ids" value) (JArr []));
    transient ← parseTransientPositions (coalesce (js_get "transient_node_positions" value) (JArr []));
    activity ← nullable parsePresenceActivity (js_get "activity" value);
    Some {| p_project_room_session_id := sid; p_actor := actor; p_graph_id := graphId;
            p_presence_sequence := seq; p_cursor := cursor; p_selected_node_ids := selectedNodeIds;
            p_selected_edge_ids := selectedEdgeIds; p_activity := activity;
            p_activity_target_ids := activityTargets; p_transient_node_positions := transient |}).

Definition parseCapabilities (value : jsval) : option CapabilitySnapshot :=
  record_only value (
    l ← isArray (js_get "capabilities" value);
    v ← isPositiveInt (js_get "authorization_version" value);
    cs ← mapM isString l;
    Some {| capabilities := cs; authorization_version := v |}).

(** One Graph of a head has a name and a document with its three lists. *)
Definition headGraphOk (graph : jsval) : bool :=
  isRecord graph && bool_decide (is_Some (isString (js_get "id" graph))) &&
  bool_decide (is_Some (isString (js_get "name" graph))) &&
  let document := js_get "document" graph in
  isRecord document && bool_decide (is_Some (isArray (js_get "nodes" document))) &&
  bool_decide (is_Some (isArray (js_get "edges" document))) &&
  bool_decide (is_Some (isArray (js_get "origins" document))).

Definition parseHead (value : jsval) : option jsval :=
  record_only value (
    if js_in "nodes" value || js_in "edges" value || js_in "origins" value ||
       js_in "presentation" value || js_in "graph_id" value then None
    else
      let document := js_get "document" value in
      record_only document (
        graphs ← isArray (js_get "graphs" document);
        if negb (forallb headGraphOk graphs) then None else
        _ ← isString (js_get "project_id" value);
        _ ← isString (js_get "room_epoch" value);
        _ ← isNonNegativeInt (js_get "collaboration_sequence" value);
        _ ← isNonNegativeInt (js_get "checkpoint_sequence" value);
        _ ← isPositiveInt (js_get "checkpoint_revision" value);
        _ ← isString (js_get "name" value);
        _ ← isString (js_get "updated_at" value);
        Some value)).

Definition parseInstanceKey (value : jsval) : option RoomInstanceKey :=
  record_only value (
    callPath ← parseStringIdList (coalesce (js_get "call_path" value) (JArr []));
    p ← isString (js_get "project_id" value);
    g ← isString (js_get "graph_id" value);
    n ← isString (js_get "node_id" value);
    mapIndex ← nullable isNonNegativeInt (js_get "map_index" value);
    Some {| k_project_id := p; k_graph_id := g; k_call_path := callPath; k_node_id := n;
            k_map_index := mapIndex |}).

Definition parseInstanceStateName (value : jsval) : option InstanceStateName :=
  match value with
  | JStr s =>
      if bool_decide (s = "fresh") then Some is_fresh else if bool_decide (s = "stale") then Some is_stale
      else if bool_decide (s = "queued") then Some is_queued else if bool_decide (s = "running") then Some is_running
      else if bool_decide (s = "failed") then Some is_failed else None
  | _ => None
  end.

Definition parseInstanceState (value : jsval) : option RoomInstanceState :=
  key ← parseInstanceKey value;
  state ← parseInstanceStateName (js_get "state" value);
  fingerprint ← isString (js_get "fingerprint" value);
  lastResult ← nullableString (js_get "last_result_fingerprint" value);
  error ← nullableString (js_get "error" value);
  Some {| i_key := key; i_state := state; i_fingerprint := fingerprint;
          i_last_result_fingerprint := lastResult; i_error := error |}.

Definition parseRunTarget (item : jsval) : option RunTarget :=
  record_only item (
    n ← isString (js_get "node_id" item);
    callPath ← parseStringIdList (coalesce (js_get "call_path" item) (JArr []));
    Some {| t_node_id := n; t_call_path := callPath |}).

Definition parseRunTargets (value : jsval) : option (list RunTarget) :=
  l ← isArray value; mapM parseRunTarget l.

Definition parseActiveRun (value : jsval) : option ActiveRunSummary :=
  record_only value (
    targets ← parseRunTargets (coalesce (js_get "targets" value) (JArr []));
    run_id ← isString (js_get "run_id" value);
    graph_id ← isString (js_get "graph_id" value);
    started_at ← isString (js_get "started_at" value);
    cancellable ← isBoolean (js_get "cancellable" value);
    starter ← nullable parseActor (js_get "starter" value);
    Some {| r_run_id := run_id; r_graph_id := graph_id; r_targets := targets; r_starter := starter;
            r_started_at := started_at; r_cancellable := cancellable |}).

Definition commandOk (command : jsval) : bool :=
  isRecord command && bool_decide (is_Some (isString (js_get "kind" command))).

Definition parseCommandList (value : jsval) : option (list jsval) :=
  l ← isArray value;
  match l with
  | [] => None
  | _ => if forallb commandOk l then Some l else None
  end.

(** ** The message parser, one definition per message type *)

Definition parseReady (raw : jsval) : option ServerRoomMessage :=
  actor ← parseActor (js_get "actor" raw);
  caps ← parseCapabilities (js_get "capabilities" raw);
  head ← parseHead (js_get "head" raw);
  workspace_id ← isString (js_get "workspace_id" raw);
  project_id ← isString (js_get "project_id" raw);
  session_id ← isString (js_get "project_room_session_id" raw);
  marker ← isString (js_get "registry_marker" raw);
  participants ← mapM parseParticipant (default [] (isArray (js_get "participants" raw)));
  runs ← isArray (js_get "active_runs" raw);
  insts ← isArray (js_get "instances" raw);
  activeRuns ← mapM parseActiveRun runs;
  instances ← mapM parseInstanceState insts;
  Some (m_ready {| rm_workspace_id := workspace_id; rm_project_id := project_id;
    rm_project_room_session_id := session_id; rm_actor := actor; rm_capabilities := caps; rm_head := head;
    rm_participants := participants; rm_active_runs := activeRuns; rm_instances := instances;
    rm_registry_marker := marker |}).

Definition parseTerminalRunStatus (value : jsval) : option TerminalRunStatus :=
  match value with
  | JStr s =>
      if bool_decide (s = "succeeded") then Some run_succeeded
      else if bool_decide (s = "failed") then Some run_failed
      else if bool_decide (s = "cancelled") then Some run_cancelled
      else if bool_decide (s = "interrupted") then Some run_interrupted else None
  | _ => None
  end.

Definition parseRunFinished (raw : jsval) : option ServerRoomMessage :=
  run_id ← isString (js_get "run_id" raw);
  status ← parseTerminalRunStatus (js_get "status" raw);
  error ← nullableString (js_get "error" raw);
  Some (m_run_finished {| rf_run_id := run_id; rf_status := status; rf_error := error |}).

Definition parseInstancesChanged (raw : jsval) : option ServerRoomMessage :=
  chs ← isArray (js_get "changed" raw);
  rms ← isArray (js_get "removed" raw);
  seq ← isNonNegativeInt (js_get "head_sequence" raw);
  changed ← mapM parseInstanceState chs;
  removed ← mapM parseInstanceKey rms;
  Some (m_instances_changed {| ic_changed := changed; ic_removed := removed; ic_head_sequence := seq |}).

Definition parseAccepted (raw : jsval) : option ServerRoomMessage :=
  actor ← parseActor (js_get "actor" raw);
  commands ← parseCommandList (js_get "commands" raw);
  command_id ← isString (js_get "command_id" raw);
  room_epoch ← isString (js_get "room_epoch" raw);
  sequence ← isNonNegativeInt (js_get "sequence" raw);
  sessionId ← nullable isString (js_get "project_room_session_id" raw);
  Some (m_command_accepted {| ca_command_id := command_id; ca_room_epoch := room_epoch; ca_sequence := sequence;
    ca_actor := actor; ca_project_room_session_id := sessionId; ca_commands := commands |}).

Definition parseOutcome (value : jsval) : option ReceiptOutcome :=
  match value with
  | JStr s =>
      if bool_decide (s = "accepted") then Some outcome_accepted
      else if bool_decide (s = "idempotent_replay") then Some outcome_idempotent_replay else None
  | _ => None
  end.

Definition parseReceipt (raw : jsval) : option ServerRoomMessage :=
  command_id ← isString (js_get "command_id" raw);
  outcome ← parseOutcome (js_get "outcome" raw);
  accepted_room_epoch ← isString (js_get "accepted_room_epoch" raw);
  accepted_sequence ← isNonNegativeInt (js_get "accepted_sequence" raw);
  current_room_epoch ← isString (js_get "current_room_epoch" raw);
  current_sequence ← isNonNegativeInt (js_get "current_sequence" raw);
  deduplicated ← isBoolean (js_get "deduplicated" raw);
  Some (m_command_receipt {| cr_command_id := command_id; cr_outcome := outcome;
    cr_accepted_room_epoch := accepted_room_epoch; cr_accepted_sequence := accepted_sequence;
    cr_current_room_epoch := current_room_epoch; cr_current_sequence := current_sequence;
    cr_deduplicated := deduplicated;
    cr_requires_head_rehydration :=
      match js_get "requires_head_rehydration" raw with JBool true => true | _ => false end |}).

Definition parseRejected (raw : jsval) : option ServerRoomMessage :=
  command_id ← isString (js_get "command_id" raw);
  error_code ← isString (js_get "error_code" raw);
  detail ← isString (js_get "detail" raw);
  epoch ← nullable isString (js_get "current_room_epoch" raw);
  sequence ← nullable isNonNegativeInt (js_get "current_sequence" raw);
  Some (m_command_rejected {| cx_command_id := command_id; cx_error_code := error_code; cx_detail := detail;
    cx_current_room_epoch := epoch; cx_current_sequence := sequence |}).

Definition parseRehydrate (raw : jsval) : option ServerRoomMessage :=
  head ← parseHead (js_get "head" raw);
  match js_get "reason" raw with
  | JStr s => if bool_decide (s = "epoch_reset") then Some (m_rehydrate head) else None
  | _ => None
  end.

Definition parseByType (type : string) (raw : jsval) : option ServerRoomMessage :=
  if bool_decide (type = "room.ready") then parseReady raw
  else if bool_decide (type = "presence.join") then m_presence_join <$> parseParticipant (js_get "participant" raw)
  else if bool_decide (type = "presence.update") then m_presence_update <$> parseParticipant (js_get "participant" raw)
  else if bool_decide (type = "presence.leave") then m_presence_leave <$> isString (js_get "project_room_session_id" raw)
  else if bool_decide (type = "run.started") then m_run_started <$> parseActiveRun (js_get "run" raw)
  else if bool_decide (type = "run.finished") then parseRunFinished raw
  else if bool_decide (type = "instances.changed") then parseInstancesChanged raw
  else if bool_decide (type = "project.command.accepted") then parseAccepted raw
  else if bool_decide (type = "project.command.receipt") then parseReceipt raw
  else if bool_decide (type = "project.command.rejected") then parseRejected raw
  else if bool_decide (type = "room.rehydrate") then parseRehydrate raw
  else if bool_decide (type = "room.heartbeat") then m_heartbeat <$> isPositiveInt (js_get "authorization_version" raw)
  else None.

Definition parseServerRoomMessage (raw : jsval) : option ServerRoomMessage :=
  record_only raw (
    if bool_decide (asInt (js_get "protocol_version" raw) = Some ROOM_PROTOCOL_VERSION) then
      match js_get "type" raw with JStr type => parseByType type raw | _ => None end
    else None).

(** ** Keys and close codes *)

(** The character [U+0000] between the parts of a key. *)
Definition NUL : string := String.String (Ascii.ascii_of_nat 0) "".

(** Stable text for one instance key. *)
Definition instanceKeyText (key : RoomInstanceKey) : string :=
  Js.join NUL [k_graph_id key; Js.join "/" (k_call_path key); k_node_id key;
            match k_map_index key with None => "" | Some i => intText i end].

Definition terminalReasonFromClose (code : Z) (reason : string) : option FailureReason :=
  let normalized := trim reason in
  if bool_decide (code = CLOSE_PERMISSIONS_CHANGED ∨ normalized = "permissions_changed")
  then Some (Recovery permissions_changed)
  else if bool_decide (code = CLOSE_ACCESS_REVOKED ∨ normalized = "access_revoked")
  then Some (Terminal access_revoked)
  else if bool_decide (code = CLOSE_PROJECT_DELETED ∨ normalized = "project_deleted" ∨ normalized = "graph_deleted")
  then Some (Terminal project_deleted)
  else if bool_decide (code = CLOSE_PROTOCOL_ERROR ∨ normalized = "protocol_error")
  then Some (Recovery protocol_error)
  else if bool_decide (code = CLOSE_SLOW_CONSUMER ∨ normalized = "slow_consumer")
  then Some (Recovery slow_consumer)
  else None.
