(* ===== verification/ProtocolTheory.v ===== *)
(** * Correctness of the room-message parser

    The parser accepts exactly the well-formed messages: whatever it returns is
    well formed and says what its type and version said, and every well-formed
    message, written as JSON, is read back unchanged.  Instance keys have distinct
    texts. *)

From S2P Require Import Prelude Js JsText Protocol.
From stdpp Require Import numbers pretty.
#[local] Open Scope string_scope.
#[local] Open Scope list_scope.
#[local] Open Scope Z_scope.

(** ** Well-formed messages *)

Definition nonneg (z : Z) : Prop := 0 ≤ z.
Definition finite (n : jsnum) : Prop := num_isFinite n = true.
Definition opt_all {A} (P : A → Prop) (o : option A) : Prop := match o with Some a => P a | None => True end.

Record participant_ok (p : PresenceParticipant) : Prop := {
  po_sequence : nonneg (p_presence_sequence p);
  po_cursor : opt_all (λ c, finite (pp_x c) ∧ finite (pp_y c)) (p_cursor p);
  po_transient : Forall (λ t, finite (tp_x t) ∧ finite (tp_y t)) (p_transient_node_positions p)
}.

Definition key_ok (k : RoomInstanceKey) : Prop := opt_all nonneg (k_map_index k).

(** Values of the kinds that a message is made of. *)
Definition a_text (v : jsval) : Prop := ∃ s, v = JStr s.
Definition a_list (v : jsval) : Prop := ∃ l, v = JArr l.
Definition an_object (v : jsval) : Prop := ∃ o, v = JObj o.
Definition an_integer_from (least : Z) (v : jsval) : Prop := ∃ z, v = JNum (num z) ∧ least ≤ z.

(** A Graph of a head: an id, a name, and a document with its three lists. *)
Record head_graph_ok (g : jsval) : Prop := {
  hg_object : an_object g;
  hg_id : a_text (js_get "id" g);
  hg_name : a_text (js_get "name" g);
  hg_document : an_object (js_get "document" g);
  hg_nodes : a_list (js_get "nodes" (js_get "document" g));
  hg_edges : a_list (js_get "edges" (js_get "document" g));
  hg_origins : a_list (js_get "origins" (js_get "document" g))
}.

(** A head: it names its Project and epoch, counts with integers, and has its Graphs in a document,
    with none of the fields of a head that is one Graph. *)
Record head_ok (h : jsval) : Prop := {
  ho_object : an_object h;
  ho_flat : ∀ k, k ∈ ["nodes"; "edges"; "origins"; "presentation"; "graph_id"] → js_in k h = false;
  ho_document : an_object (js_get "document" h);
  ho_graphs : ∃ graphs, js_get "graphs" (js_get "document" h) = JArr graphs ∧ Forall head_graph_ok graphs;
  ho_project_id : a_text (js_get "project_id" h);
  ho_room_epoch : a_text (js_get "room_epoch" h);
  ho_collaboration_sequence : an_integer_from 0 (js_get "collaboration_sequence" h);
  ho_checkpoint_sequence : an_integer_from 0 (js_get "checkpoint_sequence" h);
  ho_checkpoint_revision : an_integer_from 1 (js_get "checkpoint_revision" h);
  ho_name : a_text (js_get "name" h);
  ho_updated_at : a_text (js_get "updated_at" h)
}.

(** A command is an object that says its kind. *)
Definition command_ok (c : jsval) : Prop := an_object c ∧ a_text (js_get "kind" c).

Definition message_ok (m : ServerRoomMessage) : Prop :=
  match m with
  | m_ready r =>
      1 ≤ authorization_version (rm_capabilities r) ∧ head_ok (rm_head r) ∧
      Forall participant_ok (rm_participants r) ∧ Forall (λ i, key_ok (i_key i)) (rm_instances r)
  | m_presence_join p | m_presence_update p => participant_ok p
  | m_presence_leave _ | m_run_started _ | m_run_finished _ => True
  | m_instances_changed c =>
      Forall (λ i, key_ok (i_key i)) (ic_changed c) ∧ Forall key_ok (ic_removed c) ∧ nonneg (ic_head_sequence c)
  | m_command_accepted a =>
      nonneg (ca_sequence a) ∧ ca_commands a ≠ [] ∧ Forall command_ok (ca_commands a)
  | m_command_receipt r => nonneg (cr_accepted_sequence r) ∧ nonneg (cr_current_sequence r)
  | m_command_rejected x => opt_all nonneg (cx_current_sequence x)
  | m_rehydrate h => head_ok h
  | m_heartbeat v => 1 ≤ v
  end.

Definition message_type (m : ServerRoomMessage) : string :=
  match m with
  | m_ready _ => "room.ready" | m_presence_join _ => "presence.join" | m_presence_update _ => "presence.update"
  | m_presence_leave _ => "presence.leave" | m_run_started _ => "run.started" | m_run_finished _ => "run.finished"
  | m_instances_changed _ => "instances.changed" | m_command_accepted _ => "project.command.accepted"
  | m_command_receipt _ => "project.command.receipt" | m_command_rejected _ => "project.command.rejected"
  | m_rehydrate _ => "room.rehydrate" | m_heartbeat _ => "room.heartbeat"
  end.

(** ** The JSON of a message *)

Definition enc_opt {A} (enc : A → jsval) (o : option A) : jsval := match o with Some a => enc a | None => JNull end.
Definition enc_int (z : Z) : jsval := JNum (num z).
Definition enc_list {A} (enc : A → jsval) (l : list A) : jsval := JArr (enc <$> l).

Definition enc_actor (a : ActorPresentation) : jsval :=
  JObj [("actor_id", JStr (actor_id a)); ("display_name", JStr (display_name a)); ("color", JStr (color a))].

Definition enc_point (p : PresencePoint) : jsval := JObj [("x", JNum (pp_x p)); ("y", JNum (pp_y p))].

Definition enc_position (t : TransientNodePosition) : jsval :=
  JObj [("node_id", JStr (tp_node_id t)); ("x", JNum (tp_x t)); ("y", JNum (tp_y t))].

Definition enc_activity (a : PresenceActivityKind) : jsval :=
  JStr (match a with moving_nodes_activity => "moving_nodes" | editing_node => "editing_node" | connecting => "connecting" end).

Definition enc_participant (p : PresenceParticipant) : jsval :=
  JObj [("project_room_session_id", JStr (p_project_room_session_id p)); ("actor", enc_actor (p_actor p));
        ("graph_id", enc_opt JStr (p_graph_id p)); ("presence_sequence", enc_int (p_presence_sequence p));
        ("cursor", enc_opt enc_point (p_cursor p)); ("selected_node_ids", enc_list JStr (p_selected_node_ids p));
        ("selected_edge_ids", enc_list JStr (p_selected_edge_ids p)); ("activity", enc_opt enc_activity (p_activity p));
        ("activity_target_ids", enc_list JStr (p_activity_target_ids p));
        ("transient_node_positions", enc_list enc_position (p_transient_node_positions p))].

Definition key_fields (k : RoomInstanceKey) : jsobj :=
  [("project_id", JStr (k_project_id k)); ("graph_id", JStr (k_graph_id k)); ("call_path", enc_list JStr (k_call_path k));
   ("node_id", JStr (k_node_id k)); ("map_index", enc_opt enc_int (k_map_index k))].

Definition enc_state_name (s : InstanceStateName) : jsval :=
  JStr (match s with is_fresh => "fresh" | is_stale => "stale" | is_queued => "queued" | is_running => "running"
                   | is_failed => "failed" end).

Definition enc_instance (i : RoomInstanceState) : jsval :=
  JObj (key_fields (i_key i) ++
    [("state", enc_state_name (i_state i)); ("fingerprint", JStr (i_fingerprint i));
     ("last_result_fingerprint", enc_opt JStr (i_last_result_fingerprint i)); ("error", enc_opt JStr (i_error i))]).

Definition enc_target (t : RunTarget) : jsval :=
  JObj [("node_id", JStr (t_node_id t)); ("call_path", enc_list JStr (t_call_path t))].

Definition enc_run (r : ActiveRunSummary) : jsval :=
  JObj [("run_id", JStr (r_run_id r)); ("graph_id", JStr (r_graph_id r)); ("targets", enc_list enc_target (r_targets r));
        ("starter", enc_opt enc_actor (r_starter r)); ("started_at", JStr (r_started_at r));
        ("cancellable", JBool (r_cancellable r))].

Definition enc_body (m : ServerRoomMessage) : jsobj :=
  match m with
  | m_ready r =>
      [("workspace_id", JStr (rm_workspace_id r)); ("project_id", JStr (rm_project_id r));
       ("project_room_session_id", JStr (rm_project_room_session_id r)); ("actor", enc_actor (rm_actor r));
       ("capabilities", JObj [("capabilities", enc_list JStr (capabilities (rm_capabilities r)));
                              ("authorization_version", enc_int (authorization_version (rm_capabilities r)))]);
       ("head", rm_head r); ("participants", enc_list enc_participant (rm_participants r));
       ("active_runs", enc_list enc_run (rm_active_runs r)); ("instances", enc_list enc_instance (rm_instances r));
       ("registry_marker", JStr (rm_registry_marker r))]
  | m_presence_join p | m_presence_update p => [("participant", enc_participant p)]
  | m_presence_leave s => [("project_room_session_id", JStr s)]
  | m_run_started r => [("run", enc_run r)]
  | m_run_finished f =>
      [("run_id", JStr (rf_run_id f));
       ("status", JStr (match rf_status f with run_succeeded => "succeeded" | run_failed => "failed"
                                            | run_cancelled => "cancelled" | run_interrupted => "interrupted" end));
       ("error", enc_opt JStr (rf_error f))]
  | m_instances_changed c =>
      [("changed", enc_list enc_instance (ic_changed c)); ("removed", enc_list (λ k, JObj (key_fields k)) (ic_removed c));
       ("head_sequence", enc_int (ic_head_sequence c))]
  | m_command_accepted a =>
      [("command_id", JStr (ca_command_id a)); ("room_epoch", JStr (ca_room_epoch a)); ("sequence", enc_int (ca_sequence a));
       ("actor", enc_actor (ca_actor a)); ("project_room_session_id", enc_opt JStr (ca_project_room_session_id a));
       ("commands", JArr (ca_commands a))]
  | m_command_receipt r =>
      [("command_id", JStr (cr_command_id r));
       ("outcome", JStr (match cr_outcome r with outcome_accepted => "accepted" | outcome_idempotent_replay => "idempotent_replay" end));
       ("accepted_room_epoch", JStr (cr_accepted_room_epoch r)); ("accepted_sequence", enc_int (cr_accepted_sequence r));
       ("current_room_epoch", JStr (cr_current_room_epoch r)); ("current_sequence", enc_int (cr_current_sequence r));
       ("deduplicated", JBool (cr_deduplicated r)); ("requires_head_rehydration", JBool (cr_requires_head_rehydration r))]
  | m_command_rejected x =>
      [("command_id", JStr (cx_command_id x)); ("error_code", JStr (cx_error_code x)); ("detail", JStr (cx_detail x));
       ("current_room_epoch", enc_opt JStr (cx_current_room_epoch x));
       ("current_sequence", enc_opt enc_int (cx_current_sequence x))]
  | m_rehydrate h => [("reason", JStr "epoch_reset"); ("head", h)]
  | m_heartbeat v => [("authorization_version", enc_int v)]
  end.

Definition enc_message (m : ServerRoomMessage) : jsval :=
  JObj (("protocol_version", enc_int ROOM_PROTOCOL_VERSION) :: ("type", JStr (message_type m)) :: enc_body m).

(** ** Reading back *)

Lemma js_get_cons k k' v o : js_get k (JObj ((k', v) :: o)) = if String.eqb k' k then v else js_get k (JObj o).
Proof. simpl. case_bool_decide as H; [subst; by rewrite String.eqb_refl|]. by apply String.eqb_neq in H as ->. Qed.

Lemma bool_decide_eqb (s t : string) : bool_decide (s = t) = String.eqb s t.
Proof. case_bool_decide as H; [subst; by rewrite String.eqb_refl|]. by apply String.eqb_neq in H as ->. Qed.

(** Evaluate field reads and literal comparisons, and nothing else. *)
Ltac read_fields :=
  rewrite ?js_get_cons, ?bool_decide_eqb;
  cbn [String.eqb Ascii.eqb Bool.eqb isRecord record_only isString isArray isBoolean mbind option_bind
       mret default from_option id].

Lemma asInt_enc z : asInt (enc_int z) = Some z.
Proof. apply num_integer_num. Qed.

Lemma nonneg_enc z : nonneg z → isNonNegativeInt (enc_int z) = Some z.
Proof. intros Hz. unfold isNonNegativeInt. rewrite asInt_enc. simpl. by rewrite bool_decide_true. Qed.

Lemma positive_enc z : 1 ≤ z → isPositiveInt (enc_int z) = Some z.
Proof. intros Hz. unfold isPositiveInt. rewrite asInt_enc. simpl. by rewrite bool_decide_true. Qed.

Lemma finite_enc n : finite n → isFiniteNumber (JNum n) = Some n.
Proof. intros Hn. simpl. by rewrite Hn. Qed.

(** *** The checks of a head and of a command, as what they say *)

Lemma isString_text v : is_Some (isString v) ↔ a_text v.
Proof. unfold a_text. destruct v; cbn; split; try (by intros []); try (by intros [? [=]]); by eexists. Qed.

Lemma isArray_list v : is_Some (isArray v) ↔ a_list v.
Proof. unfold a_list. destruct v; cbn; split; try (by intros []); try (by intros [? [=]]); by eexists. Qed.

Lemma num_integer_inv n z : num_integer n = Some z → n = num z.
Proof.
  destruct n as [q| |]; cbn; try done. case_bool_decide as Hd; [|done]. intros [= <-]. unfold num. f_equal. apply Qc_is_canon. unfold Q2Qc. cbn [this].
  rewrite Qred_correct. destruct q as [[n d] Hq]. cbn in *. by subst d.
Qed.

Lemma isNonNegativeInt_spec v : is_Some (isNonNegativeInt v) ↔ an_integer_from 0 v.
Proof.
  unfold isNonNegativeInt, an_integer_from. split.
  - intros [z H]. destruct v; cbn in H; try done. destruct (num_integer n) as [k|] eqn:Hk; [|done]. cbn in H. case_bool_decide; [|done].
    apply num_integer_inv in Hk as ->. by exists k.
  - intros (z & -> & Hz). cbn [asInt]. rewrite num_integer_num. cbn [mbind option_bind]. rewrite bool_decide_true by done. by eexists.
Qed.

Lemma isPositiveInt_spec v : is_Some (isPositiveInt v) ↔ an_integer_from 1 v.
Proof.
  unfold isPositiveInt, an_integer_from. split.
  - intros [z H]. destruct v; cbn in H; try done. destruct (num_integer n) as [k|] eqn:Hk; [|done]. cbn in H. case_bool_decide; [|done].
    apply num_integer_inv in Hk as ->. by exists k.
  - intros (z & -> & Hz). cbn [asInt]. rewrite num_integer_num. cbn [mbind option_bind]. rewrite bool_decide_true by done. by eexists.
Qed.

(** Only an object has a field that is a text or a list. *)
Lemma has_text_object k v : a_text (js_get k v) → an_object v.
Proof. intros [s Hs]. destruct v; try discriminate Hs. by eexists. Qed.

Lemma has_list_object k v : a_list (js_get k v) → an_object v.
Proof. intros [s Hs]. destruct v; try discriminate Hs. by eexists. Qed.

Lemma object_record v : an_object v → isRecord v = true.
Proof. by intros [o ->]. Qed.

Lemma headGraphOk_spec g : headGraphOk g = true ↔ head_graph_ok g.
Proof.
  unfold headGraphOk. cbv zeta. rewrite !andb_true_iff, !bool_decide_eq_true, !isString_text, !isArray_list. split.
  - intros [[[H1 H2] H3] [[[H4 H5] H6] H7]]. split; try done; [by eapply has_text_object|by eapply has_list_object].
  - intros []. split_and!; try done; by apply object_record.
Qed.

Lemma parseHead_spec v h : parseHead v = Some h ↔ h = v ∧ head_ok v.
Proof.
  unfold parseHead, record_only. split.
  - intros H. destruct (isRecord v); [|done]. destruct (_ || _) eqn:Hin in H; [done|]. rewrite !orb_false_iff in Hin. destruct Hin as [[[[? ?] ?] ?] ?].
    destruct (isRecord (js_get "document" v)); [|done]. destruct (isArray _) as [graphs|] eqn:Hg in H; [|done]. cbn [mbind option_bind] in H.
    destruct (forallb headGraphOk graphs) eqn:Hok; [|done]. cbn [negb] in H.
    destruct (isString (js_get "project_id" v)) eqn:E1; [|done]. cbn [mbind option_bind] in H. destruct (isString (js_get "room_epoch" v)) eqn:E2; [|done]. cbn [mbind option_bind] in H.
    destruct (isNonNegativeInt (js_get "collaboration_sequence" v)) eqn:E3; [|done]. cbn [mbind option_bind] in H.
    destruct (isNonNegativeInt (js_get "checkpoint_sequence" v)) eqn:E4; [|done]. cbn [mbind option_bind] in H.
    destruct (isPositiveInt (js_get "checkpoint_revision" v)) eqn:E5; [|done]. cbn [mbind option_bind] in H.
    destruct (isString (js_get "name" v)) eqn:E6; [|done]. cbn [mbind option_bind] in H. destruct (isString (js_get "updated_at" v)) eqn:E7; [|done]. injection H as <-.
    assert (a_text (js_get "project_id" v)) as Ht by (apply isString_text; by rewrite E1). destruct (js_get "graphs" (js_get "document" v)) as [| | | | |l|] eqn:Hgs; try done. injection Hg as <-.
    split; [done|]. split; try done; rewrite <- ?isString_text, <- ?isNonNegativeInt_spec, <- ?isPositiveInt_spec, ?E2, ?E3, ?E4, ?E5, ?E6, ?E7; try done.
    + by eapply has_text_object.
    + intros k Hk. rewrite !elem_of_cons in Hk. set_solver.
    + eapply (has_list_object "graphs"). rewrite Hgs. by eexists.
    + exists l. split; [done|]. apply Forall_forall. intros g Hin. apply headGraphOk_spec. rewrite forallb_forall in Hok. apply Hok. by apply list_elem_of_In.
  - intros [-> [Ho Hflat Hd (graphs & Hg & Hok) H1 H2 H3 H4 H5 H6 H7]]. rewrite (object_record _ Ho), (object_record _ Hd), Hg.
    rewrite !Hflat by set_solver. cbn [orb isArray mbind option_bind].
    assert (forallb headGraphOk graphs = true) as ->.
    { apply forallb_forall. intros g Hin. apply headGraphOk_spec. rewrite Forall_forall in Hok. apply Hok. by apply list_elem_of_In. }
    cbn [negb]. rewrite <- isString_text in *. rewrite <- isNonNegativeInt_spec in *. rewrite <- isPositiveInt_spec in *.
    destruct H1 as [? ->], H2 as [? ->], H3 as [? ->], H4 as [? ->], H5 as [? ->], H6 as [? ->], H7 as [? ->]. done.
Qed.

Lemma commandOk_spec c : commandOk c = true ↔ command_ok c.
Proof.
  unfold commandOk, command_ok. rewrite andb_true_iff, bool_decide_eq_true, isString_text. split; intros [H1 H2]; (split; [|done]); [by eapply has_text_object|by apply object_record].
Qed.

Lemma commandOk_all l : forallb commandOk l = true ↔ Forall command_ok l.
Proof. rewrite forallb_forall, Forall_forall. setoid_rewrite <- list_elem_of_In. by setoid_rewrite commandOk_spec. Qed.

Lemma mapM_enc {A} (P : A → Prop) (parse : jsval → option A) enc l :
  (∀ a, P a → parse (enc a) = Some a) → Forall P l → mapM parse (enc <$> l) = Some l.
Proof.
  intros Hp. induction 1 as [|a l Ha Hl IH]; [done|]. cbn. rewrite Hp by done. cbn.
  change (mapM parse (list_fmap A jsval enc l)) with (mapM parse (enc <$> l)). by rewrite IH.
Qed.

Lemma Forall_trivial {A} (l : list A) : Forall (λ _, True) l.
Proof. by apply Forall_forall. Qed.

Lemma strings_enc l : parseStringIdList (coalesce (enc_list JStr l) (JArr [])) = Some l.
Proof. unfold parseStringIdList, enc_list. simpl. eapply mapM_enc; [|apply Forall_trivial]. done. Qed.

Lemma nullable_enc {A} (parse : jsval → option A) enc o :
  (∀ a, is_nullish (enc a) = false) → opt_all (λ a, parse (enc a) = Some a) o → nullable parse (enc_opt enc o) = Some o.
Proof. intros Hn Ho. unfold nullable. destruct o as [a|]; simpl in *; [|done]. rewrite Hn, Ho. done. Qed.

Lemma nullableString_enc o : nullableString (enc_opt JStr o) = Some o.
Proof. by destruct o. Qed.

Lemma actor_enc a : parseActor (enc_actor a) = Some a.
Proof. unfold parseActor, enc_actor. read_fields. by destruct a. Qed.

Lemma opt_all_trivial {A} (P : A → Prop) o : (∀ a, P a) → opt_all P o.
Proof. by destruct o; simpl. Qed.

Lemma position_enc t : finite (tp_x t) ∧ finite (tp_y t) → parseTransientPosition (enc_position t) = Some t.
Proof.
  intros [Hx Hy]. unfold parseTransientPosition, enc_position. read_fields.
  rewrite !finite_enc by done. by destruct t.
Qed.

Lemma point_enc p : finite (pp_x p) ∧ finite (pp_y p) → parsePresencePoint (enc_point p) = Some p.
Proof.
  intros [Hx Hy]. unfold parsePresencePoint, enc_point. read_fields. rewrite !finite_enc by done. by destruct p.
Qed.

Lemma participant_enc p : participant_ok p → parseParticipant (enc_participant p) = Some p.
Proof.
  intros [Hs Hc Ht]. unfold parseParticipant, enc_participant. read_fields.
  rewrite actor_enc, nonneg_enc, nullableString_enc, !strings_enc by done. cbn [mbind option_bind].
  rewrite (nullable_enc parsePresencePoint enc_point); [|done|destruct (p_cursor p); simpl; [by apply point_enc|done]]. cbn [mbind option_bind].
  unfold parseTransientPositions, enc_list. cbn [coalesce is_nullish isArray mbind option_bind].
  rewrite (mapM_enc _ parseTransientPosition enc_position _ position_enc Ht). cbn [mbind option_bind].
  rewrite (nullable_enc parsePresenceActivity enc_activity); [|done|by destruct (p_activity p) as [[]|]]. by destruct p.
Qed.

Lemma key_enc k o : key_ok k → parseInstanceKey (JObj (key_fields k ++ o)) = Some k.
Proof.
  intros Hk. unfold parseInstanceKey, key_fields. cbn [app]. read_fields. rewrite strings_enc. cbn [mbind option_bind].
  rewrite nullable_enc; [by destruct k|done|]. unfold key_ok in Hk. destruct (k_map_index k); simpl; [by apply nonneg_enc|done].
Qed.

Lemma instance_enc i : key_ok (i_key i) → parseInstanceState (enc_instance i) = Some i.
Proof.
  intros Hk. unfold parseInstanceState, enc_instance. rewrite key_enc by done. cbn [app key_fields]. read_fields.
  rewrite !nullableString_enc. destruct i as [? [] ? ? ?]; reflexivity.
Qed.

Lemma target_enc t : parseRunTarget (enc_target t) = Some t.
Proof. unfold parseRunTarget, enc_target. read_fields. rewrite strings_enc. by destruct t. Qed.

Lemma run_enc r : parseActiveRun (enc_run r) = Some r.
Proof.
  unfold parseActiveRun, enc_run. read_fields. unfold parseRunTargets, enc_list. cbn [coalesce is_nullish isArray mbind option_bind].
  rewrite (mapM_enc _ parseRunTarget enc_target _ (λ t _, target_enc t) (Forall_trivial _)). cbn [mbind option_bind].
  rewrite nullable_enc; [by destruct r|done|]. apply opt_all_trivial, actor_enc.
Qed.

Lemma runs_enc l : mapM parseActiveRun (enc_run <$> l) = Some l.
Proof. exact (mapM_enc (λ _, True) _ _ l (λ r _, run_enc r) (Forall_trivial l)). Qed.

Lemma strings_map l : mapM isString (JStr <$> l) = Some l.
Proof. exact (mapM_enc (λ _, True) _ _ l (λ _ _, eq_refl) (Forall_trivial l)). Qed.

Lemma ready_enc r : message_ok (m_ready r) → parseReady (enc_message (m_ready r)) = Some (m_ready r).
Proof.
  intros (Ha & Hh & Hp & Hi). unfold parseReady, enc_message, enc_body, enc_list. read_fields.
  rewrite actor_enc. cbn [mbind option_bind]. unfold parseCapabilities. read_fields.
  rewrite positive_enc, strings_map, (proj2 (parseHead_spec _ _) (conj eq_refl Hh)) by done. cbn [mbind option_bind].
  rewrite (mapM_enc _ parseParticipant enc_participant _ participant_enc Hp), runs_enc.
  rewrite (mapM_enc _ parseInstanceState enc_instance _ instance_enc Hi). cbn [mbind option_bind].
  by destruct r as [? ? ? ? [] ? ? ? ? ?].
Qed.

Lemma instances_changed_enc c :
  message_ok (m_instances_changed c) → parseInstancesChanged (enc_message (m_instances_changed c)) = Some (m_instances_changed c).
Proof.
  intros (Hc & Hr & Hs). unfold parseInstancesChanged, enc_message, enc_body, enc_list. read_fields.
  rewrite nonneg_enc by done. cbn [mbind option_bind].
  rewrite (mapM_enc _ parseInstanceState enc_instance _ instance_enc Hc). cbn [mbind option_bind].
  rewrite (mapM_enc key_ok parseInstanceKey (λ k, JObj (key_fields k)) _); [by destruct c| |done].
  intros k Hk. rewrite <- (app_nil_r (key_fields k)). by apply key_enc.
Qed.

Lemma accepted_enc a :
  message_ok (m_command_accepted a) → parseAccepted (enc_message (m_command_accepted a)) = Some (m_command_accepted a).
Proof.
  intros (Hs & Hne & Hc%commandOk_all). unfold parseAccepted, enc_message, enc_body. read_fields.
  rewrite actor_enc, nonneg_enc by done. cbn [mbind option_bind]. unfold parseCommandList. cbn [isArray mbind option_bind].
  rewrite nullable_enc; [|done|by apply opt_all_trivial].
  destruct a as [? ? ? ? ? [|c cs]]; [done|]. cbn [ca_commands] in *. by rewrite Hc.
Qed.

Lemma receipt_enc r :
  message_ok (m_command_receipt r) → parseReceipt (enc_message (m_command_receipt r)) = Some (m_command_receipt r).
Proof.
  intros (Ha & Hc). unfold parseReceipt, enc_message, enc_body. read_fields. rewrite !nonneg_enc by done.
  destruct r as [? [] ? ? ? ? ? []]; reflexivity.
Qed.

Lemma rejected_enc x :
  message_ok (m_command_rejected x) → parseRejected (enc_message (m_command_rejected x)) = Some (m_command_rejected x).
Proof.
  intros Hs. unfold parseRejected, enc_message, enc_body. read_fields.
  rewrite (nullable_enc isString JStr); [|done|by apply opt_all_trivial]. cbn [mbind option_bind].
  rewrite (nullable_enc isNonNegativeInt enc_int); [by destruct x|done|].
  simpl in Hs. destruct (cx_current_sequence x); simpl in *; [by apply nonneg_enc|done].
Qed.

(** Every well-formed server message, written as JSON, is read back unchanged. *)
Theorem parse_encoded_message m : message_ok m → parseServerRoomMessage (enc_message m) = Some m.
Proof.
  intros Hm. unfold parseServerRoomMessage.
  assert (asInt (js_get "protocol_version" (enc_message m)) = Some ROOM_PROTOCOL_VERSION) as Hv.
  { unfold enc_message. read_fields. apply asInt_enc. }
  assert (js_get "type" (enc_message m) = JStr (message_type m)) as Ht.
  { unfold enc_message. by read_fields. }
  rewrite Hv, Ht. change (isRecord (enc_message m)) with true. cbn [record_only].
  rewrite bool_decide_true by done. unfold parseByType.
  destruct m; cbn [message_type]; read_fields;
    first [by apply ready_enc | by apply instances_changed_enc | by apply accepted_enc
          | by apply receipt_enc | by apply rejected_enc | unfold enc_message, enc_body; read_fields]; try done.
  - by rewrite participant_enc.
  - by rewrite participant_enc.
  - by rewrite run_enc.
  - unfold parseRunFinished. read_fields. rewrite nullableString_enc. destruct m as [? [] ?]; reflexivity.
  - unfold parseRehydrate. read_fields. simpl in Hm. by rewrite (proj2 (parseHead_spec _ _) (conj eq_refl Hm)).
  - by rewrite positive_enc.
Qed.

(** ** Whatever is accepted is well formed *)

Lemma nonneg_sound v z : isNonNegativeInt v = Some z → nonneg z.
Proof. unfold isNonNegativeInt. destruct (asInt v); simpl; [|done]. by case_bool_decide; intros [= <-]. Qed.

Lemma positive_sound v z : isPositiveInt v = Some z → 1 ≤ z.
Proof. unfold isPositiveInt. destruct (asInt v); simpl; [|done]. by case_bool_decide; intros [= <-]. Qed.

Lemma finite_sound v n : isFiniteNumber v = Some n → finite n.
Proof. destruct v; simpl; try done. unfold finite. destruct (num_isFinite n0) eqn:E; [|done]. by intros [= <-]. Qed.

Lemma nullable_sound {A} (P : A → Prop) (parse : jsval → option A) v o :
  (∀ a v, parse v = Some a → P a) → nullable parse v = Some o → opt_all P o.
Proof.
  intros Hp. unfold nullable. destruct (is_nullish v); [by intros [= <-]|].
  destruct (parse v) eqn:E; [|done]. intros [= <-]. simpl. eauto.
Qed.

Lemma mapM_sound {A} (P : A → Prop) (parse : jsval → option A) l k :
  (∀ a v, parse v = Some a → P a) → mapM parse l = Some k → Forall P k.
Proof.
  intros Hp Hm. apply mapM_Some in Hm. induction Hm; constructor; eauto.
Qed.

(** Invert a chain of checks. *)
Ltac checks :=
  repeat match goal with
  | H : record_only _ _ = Some _ |- _ => unfold record_only in H
  | H : (if ?b then _ else None) = Some _ |- _ => destruct b eqn:?; [|discriminate H]
  | H : (if ?b then None else _) = Some _ |- _ => destruct b eqn:?; [discriminate H|]
  | H : mbind _ ?o = Some _ |- _ =>
      let E := fresh "E" in destruct o eqn:E; [|discriminate H]; cbn [mbind option_bind] in H
  | H : Some _ = Some _ |- _ => injection H as H; subst
  | H : fmap _ ?o = Some _ |- _ =>
      let E := fresh "E" in destruct o eqn:E; [|discriminate H]; cbn [fmap option_fmap option_map] in H
  end.

Lemma point_sound p v : parsePresencePoint v = Some p → finite (pp_x p) ∧ finite (pp_y p).
Proof. unfold parsePresencePoint. intros H. checks. split; simpl; by eapply finite_sound. Qed.

Lemma position_sound t v : parseTransientPosition v = Some t → finite (tp_x t) ∧ finite (tp_y t).
Proof. unfold parseTransientPosition. intros H. checks. split; simpl; by eapply finite_sound. Qed.

Lemma participant_sound p v : parseParticipant v = Some p → participant_ok p.
Proof.
  unfold parseParticipant, parseTransientPositions. intros H. checks. split; simpl.
  - by eapply nonneg_sound.
  - eapply nullable_sound; [|done]. intros. by eapply point_sound.
  - eapply mapM_sound; [|done]. intros. by eapply position_sound.
Qed.

Lemma key_sound k v : parseInstanceKey v = Some k → key_ok k.
Proof.
  unfold parseInstanceKey. intros H. checks. unfold key_ok. simpl.
  eapply nullable_sound; [|done]. intros. by eapply nonneg_sound.
Qed.

Lemma instance_sound i v : parseInstanceState v = Some i → key_ok (i_key i).
Proof. unfold parseInstanceState. intros H. checks. simpl. by eapply key_sound. Qed.

Lemma head_sound v h : parseHead v = Some h → head_ok h.
Proof. by intros [-> H]%parseHead_spec. Qed.

Lemma commands_sound v l : parseCommandList v = Some l → l ≠ [] ∧ Forall command_ok l.
Proof.
  unfold parseCommandList. destruct (isArray v) as [[|c cs]|]; cbn [mbind option_bind]; try done.
  destruct (forallb commandOk (c :: cs)) eqn:Hc; [|done]. apply commandOk_all in Hc. by intros [= <-].
Qed.

Lemma parseByType_sound t raw m : parseByType t raw = Some m → message_ok m ∧ message_type m = t.
Proof.
  unfold parseByType, parseReady, parseCapabilities, parseRunFinished, parseInstancesChanged, parseAccepted,
    parseReceipt, parseRejected, parseRehydrate.
  intros H. repeat case_bool_decide; subst; try done; checks; simpl; split; try done.
  - split_and!; [by eapply positive_sound|by eapply head_sound|..].
    + eapply mapM_sound; [|done]. intros. by eapply participant_sound.
    + eapply mapM_sound; [|done]. intros. by eapply instance_sound.
  - by eapply participant_sound.
  - by eapply participant_sound.
  - split_and!; [| |by eapply nonneg_sound].
    + eapply mapM_sound; [|done]. intros. by eapply instance_sound.
    + eapply mapM_sound; [|done]. intros. by eapply key_sound.
  - split; [by eapply nonneg_sound|by eapply commands_sound].
  - split; by eapply nonneg_sound.
  - eapply nullable_sound; [|done]. intros. by eapply nonneg_sound.
  - destruct (js_get "reason" raw); try done. case_bool_decide; [|done]. injection H as <-. by eapply head_sound.
  - destruct (js_get "reason" raw); try done. case_bool_decide; [|done]. by injection H as <-.
  - by eapply positive_sound.
Qed.

(** The type of a parsed message is the one its raw value names. *)
Lemma parsed_type raw m : parseServerRoomMessage raw = Some m → isString (js_get "type" raw) = Some (message_type m).
Proof.
  unfold parseServerRoomMessage. intros H. checks.
  destruct (js_get "type" raw); try done. simpl. by apply parseByType_sound in H as [_ <-].
Qed.

(** C25: a message the parser returns is well formed: a head is an object that names its Project and
    epoch, counts with integers, has each of its Graphs with id, name, nodes, edges and origins, and
    none of the fields of a head that is one Graph; a batch is not empty and each of its commands is an
    object that says its kind; sequences and indices are integers that are not negative, versions
    are positive, coordinates are finite; and the message is of the type and of the version that the
    raw value names. *)
Theorem parsed_message_is_well_formed raw m :
  parseServerRoomMessage raw = Some m →
  message_ok m ∧ isString (js_get "type" raw) = Some (message_type m) ∧
  asInt (js_get "protocol_version" raw) = Some ROOM_PROTOCOL_VERSION.
Proof.
  unfold parseServerRoomMessage. intros H. checks.
  destruct (js_get "type" raw) eqn:Ht; try done. simpl.
  apply parseByType_sound in H as [Hok <-]. split_and!; [done..|]. by eapply bool_decide_eq_true.
Qed.

(** ** Instance keys *)

Definition nul_char : Ascii.ascii := Ascii.ascii_of_nat 0.
Definition slash : Ascii.ascii := Ascii.ascii_of_nat 47.

(** Ids have no separator in them, and the steps of a call path are not empty. *)
Record key_text_ok (k : RoomInstanceKey) : Prop := {
  kt_graph : lacks nul_char (k_graph_id k);
  kt_node : lacks nul_char (k_node_id k);
  kt_path : Forall (λ s, segment_ok slash s ∧ lacks nul_char s) (k_call_path k)
}.

(** Two instances of a Project have the same key text only if they are the same
    instance, when ids contain no separator and call-path steps are not empty. *)
Theorem instanceKeyText_injective k k' :
  key_text_ok k → key_text_ok k' → k_project_id k = k_project_id k' →
  instanceKeyText k = instanceKeyText k' → k = k'.
Proof.
  intros [Hg Hn Hp] [Hg' Hn' Hp'] Hproj. unfold instanceKeyText. cbn [Js.join].
  change NUL with (chr nul_char). change "/" with (chr slash). intros Heq.
  assert (∀ l, Forall (λ s, segment_ok slash s ∧ lacks nul_char s) l → lacks nul_char (Js.join (chr slash) l)) as Hj.
  { intros l Hl. apply lacks_join; [by cbv|]. eapply Forall_impl; [done|]. by intros ? []. }
  apply split_at_separator in Heq as [Hgraph Heq]; [|done..].
  apply split_at_separator in Heq as [Hpath Heq]; [|by apply Hj..].
  apply split_at_separator in Heq as [Hnode Heq]; [|done..].
  apply join_inj in Hpath; [|eapply Forall_impl; [done|]; by intros ? []..].
  assert (k_map_index k = k_map_index k') as Hmap.
  { destruct (k_map_index k), (k_map_index k'); [|by apply pretty_not_empty in Heq|by symmetry in Heq; apply pretty_not_empty in Heq|done].
    f_equal. by apply (inj pretty) in Heq. }
  destruct k, k'; simpl in *. by subst.
Qed.

(** ** Concrete messages *)

Definition sample_actor : ActorPresentation := {| actor_id := "u1"; display_name := "Ada"; color := "#fff" |}.

Definition sample_key : RoomInstanceKey :=
  {| k_project_id := "project-1"; k_graph_id := "g"; k_call_path := ["call"; "inner"]; k_node_id := "n"; k_map_index := Some 2 |}.

Definition sample_instance : RoomInstanceState :=
  {| i_key := sample_key; i_state := is_stale; i_fingerprint := "fp"; i_last_result_fingerprint := None; i_error := Some "boom" |}.

Definition raw_head : jsval :=
  JObj [("project_id", JStr "project-1"); ("room_epoch", JStr "epoch-1"); ("collaboration_sequence", enc_int 4);
        ("checkpoint_sequence", enc_int 3); ("checkpoint_revision", enc_int 1); ("name", JStr "project");
        ("updated_at", JStr "now");
        ("document", JObj [("graphs", JArr [JObj [("id", JStr "g"); ("name", JStr "graph");
          ("document", JObj [("nodes", JArr []); ("edges", JArr []); ("origins", JArr [])])]])])].

Definition sample_ready : RoomReadyMessage :=
  {| rm_workspace_id := "w"; rm_project_id := "project-1"; rm_project_room_session_id := "s"; rm_actor := sample_actor;
     rm_capabilities := {| capabilities := ["edit_project"; "publish_presence"]; authorization_version := 2 |};
     rm_head := raw_head; rm_participants := []; rm_active_runs := []; rm_instances := [sample_instance];
     rm_registry_marker := "r" |}.

Lemma sample_ready_ok : message_ok (m_ready sample_ready).
Proof. split_and!; [simpl; lia|by apply (parseHead_spec raw_head raw_head)|constructor|repeat constructor; by vm_compute]. Qed.

Lemma parse_encoded_message_witness : parseServerRoomMessage (enc_message (m_ready sample_ready)) = Some (m_ready sample_ready).
Proof. apply parse_encoded_message. exact sample_ready_ok. Defined.

Lemma parsed_message_is_well_formed_witness :
  parseServerRoomMessage (enc_message (m_ready sample_ready)) = Some (m_ready sample_ready) ∧ head_ok raw_head.
Proof.
  split; [vm_compute; reflexivity|].
  destruct (parsed_message_is_well_formed (enc_message (m_ready sample_ready)) (m_ready sample_ready) ltac:(vm_compute; reflexivity)) as ((_ & Hh & _) & _). exact Hh.
Defined.

(** A flat head is refused. *)
Example flat_head_refused o : parseHead (JObj (("nodes", JArr []) :: o)) = None.
Proof. reflexivity. Qed.

Lemma instanceKeyText_injective_witness :
  instanceKeyText sample_key = "g" +:+ NUL +:+ "call/inner" +:+ NUL +:+ "n" +:+ NUL +:+ "2" ∧ sample_key = sample_key.
Proof.
  split; [reflexivity|].
  apply (instanceKeyText_injective sample_key sample_key);
    [split; cbn; repeat constructor; done|split; cbn; repeat constructor; done|reflexivity|reflexivity].
Defined.
