(* ===== verification/Fingerprints.v ===== *)
(** * Fingerprints of a Graph ([canvas/saved-graph.ts], [ui/saved-graph-dirtiness.ts])

    The text that decides whether the canvas differs from what was saved: the draft,
    its lists sorted by id and its objects by key, written as JSON; and the decisions
    taken from it.

    Parameters: the host's collation and the text of a number.  The records of the
    contract are values of objects here, with the contract's keys. *)

From stdpp Require Import numbers list sorting.
From S2P Require Import Prelude Js JsText JsJson GraphModel GraphCommands Routes RoutesTheory.

(** ** Records as values *)

Definition optValue {A} (f : A → jsval) (o : jsopt A) : jsval :=
  match o with Undef => JUndefined | Null => JNull | Val a => f a end.

Definition pointValue (p : GraphPoint) : jsval := JObj [("x", JNum (pt_x p)); ("y", JNum (pt_y p))].

Definition layoutValue (l : GraphNodeLayout) : jsval :=
  JObj [("appendix_height", optValue JNum (appendix_height l)); ("body_height", optValue JNum (body_height l)); ("width", optValue JNum (width l))].

Definition plugValue (p : GraphInputPlug) : jsval := JObj [("id", JStr (plug_id p)); ("port", JStr (plug_port p))].

Definition typeBindingValue (b : GraphArtifactTypeBinding) : jsval :=
  JObj [("variable", JStr (variable b));
        ("artifact_type", JObj [("id", JStr (at_id (artifact_type b))); ("schema_version", JNum (at_schema_version (artifact_type b)))])].

Definition conversionValue (c : GraphConversion) : jsval := JObj [("id", JStr (conv_id c)); ("version", JNum (conv_version c))].

Definition projectionValue (p : GraphProjection) : jsval := JObj [("path", JArr (map JStr (path p)))].

Definition kindText (k : GraphNodeKind) : string := match k with KBuiltin => "builtin" | KModule => "module" | KCall => "call" end.

Definition nodeValue (n : GraphNode) : jsval :=
  JObj [("artifact_type_bindings", JArr (map typeBindingValue (n_artifact_type_bindings n)));
        ("config", optValue JObj (n_config n));
        ("id", JStr (n_id n));
        ("kind", JStr (kindText (n_kind n)));
        ("input_plugs", JArr (map plugValue (n_input_plugs n)));
        ("layout", optValue layoutValue (n_layout n));
        ("operator_id", JStr (n_operator_id n));
        ("operator_version", JNum (n_operator_version n));
        ("position", pointValue (n_position n))].

Definition collectionModeText (m : CollectionMode) : string := match m with MDirect => "direct" | MMap => "map" end.

Definition edgeValue (e : GraphEdge) : jsval :=
  JObj [("collection_mode", JStr (collectionModeText (e_collection_mode e)));
        ("conversion_path", JArr (map conversionValue (e_conversion_path e)));
        ("enabled", JBool (e_enabled e));
        ("from_node", JStr (e_from_node e));
        ("from_port", JStr (e_from_port e));
        ("id", JStr (e_id e));
        ("projection", optValue projectionValue (e_projection e));
        ("route_offset", optValue pointValue (e_route_offset e));
        ("to_node", JStr (e_to_node e));
        ("to_plug", optValue JStr (e_to_plug e));
        ("to_port", JStr (e_to_port e))].

Definition viewerValue (v : GraphPresentationViewer) : jsval :=
  JObj [("artifact_ref", v_artifact_ref v);
        ("id", JStr (v_id v));
        ("layout", optValue layoutValue (v_layout v));
        ("mode", optValue JStr (v_mode v));
        ("position", pointValue (v_position v))].

Definition linkValue (l : GraphPresentationLink) : jsval :=
  JObj [("id", JStr (l_id l));
        ("projection", optValue projectionValue (l_projection l));
        ("route_offset", optValue pointValue (l_route_offset l));
        ("source_node_id", JStr (l_source_node_id l));
        ("source_port_name", JStr (l_source_port_name l));
        ("target_viewer_id", JStr (l_target_viewer_id l))].

Definition effectText (e : BindingEffect) : string :=
  match e with EffFilter => "filter" | EffHighlight => "highlight" | EffFocus => "focus" end.

Definition mappingValue (m : string * string) : jsval := JObj [("source_field", JStr m.1); ("target_field", JStr m.2)].

Definition bindingValue (b : GraphPresentationBinding) : jsval :=
  JObj [("effects", JArr (map (λ e, JStr (effectText e)) (pb_effects b)));
        ("empty_selection", JStr "show_all");
        ("id", JStr (pb_id b));
        ("mappings", JArr (map mappingValue (pb_mappings b)));
        ("source_viewer_id", JStr (pb_source_viewer_id b));
        ("target_viewer_id", JStr (pb_target_viewer_id b))].

Definition annotationKindText (k : AnnotationKind) : string :=
  match k with AnnText => "text" | AnnRectangle => "rectangle" | AnnEllipse => "ellipse" end.

(** A layout is width and height. *)
Definition annotationValue (a : GraphPresentationAnnotation) : jsval :=
  JObj [("color", JStr (an_color a));
        ("id", JStr (an_id a));
        ("kind", JStr (annotationKindText (an_kind a)));
        ("layout", JObj [("height", JNum (an_layout a).2); ("width", JNum (an_layout a).1)]);
        ("position", pointValue (an_position a));
        ("text", JStr (an_text a))].

(** ** Fingerprints *)

Section fingerprint.
Context (numberText : jsnum → string) (localeCompare : string → string → Z).

Definition byKey (left right : string * jsval) : Z := localeCompare left.1 right.1.

(** [if (item !== undefined) sorted[key] = item]; the assignment of [__proto__] sets the
    prototype and makes no property. *)
Definition assignDefined (sorted : jsobj) (entry : string * jsval) : jsobj :=
  match entry.2 with
  | JUndefined => sorted
  | _ => if bool_decide (entry.1 = "__proto__") then sorted else obj_set entry.1 entry.2 sorted
  end.

(** The items are sorted before the entries are, which changes nothing: the order looks
    at keys only. *)
Fixpoint sortedRecord (v : jsval) : jsval :=
  match v with
  | JArr l => JArr (map sortedRecord l)
  | JObj o => JObj (foldl assignDefined [] (js_sort byKey (map (λ kv, (kv.1, sortedRecord kv.2)) o)))
  | _ => v
  end.

(** [[...items].sort((left, right) => left.id.localeCompare(right.id))] *)
Definition sortedById `{Identified A} (items : list A) : list A := js_sort (λ left right, localeCompare (ident left) (ident right)) items.

Definition draftPresentation (graph : GraphDraft) : GraphPresentation := jsopt_or (d_presentation (draft_document graph)) emptyPresentation.

#[local] Instance link_identified : Identified GraphPresentationLink := l_id.
#[local] Instance presentationBinding_identified : Identified GraphPresentationBinding := pb_id.

Definition presentationValue (presentation : GraphPresentation) : jsval :=
  JObj [("viewers", JArr (map viewerValue (sortedById (viewers presentation))));
        ("links", JArr (map linkValue (sortedById (links presentation))));
        ("bindings", JArr (map bindingValue (sortedById (bindings presentation))));
        ("annotations", JArr (map annotationValue (sortedById (annotations presentation))))].

Definition executionEntries (graph : GraphDraft) : jsobj :=
  [("name", JStr (draft_name graph));
   ("schema_version", JNum (num 7));
   ("nodes", JArr (map nodeValue (sortedById (d_nodes (draft_document graph)))));
   ("edges", JArr (map edgeValue (sortedById (d_edges (draft_document graph)))))].

Definition savedGraphFingerprint (graph : GraphDraft) : string :=
  text numberText (sortedRecord (JObj (executionEntries graph ++ [("presentation", presentationValue (draftPresentation graph))]))).

Definition savedGraphExecutionFingerprint (graph : GraphDraft) : string := text numberText (sortedRecord (JObj (executionEntries graph))).
End fingerprint.

(** ** Unsaved work *)

Definition NEW_GRAPH_NAME : string := "Untitled workflow".

Record SavedGraphDirtinessInput := {
  di_document : AuthoredGraphDocument;
  di_presentation : GraphPresentation;
  di_hasActiveGraph : bool;
  di_currentFingerprint : string;
  di_savedFingerprint : option string;
  di_currentExecutionFingerprint : string;
  di_savedExecutionFingerprint : option string;
  di_hasUnsyncedRoomEdits : bool;
  di_saving : bool;
  di_openingGraphId : option string;
  di_deletingGraphId : option string
}.

Record SavedGraphDirtiness := {
  hasUnsavedDraft : bool;
  isDirty : bool;
  workAtRisk : bool;
  canMaterializeSavedGraph : bool;
  persistenceOperationBusy : bool
}.

Definition nonEmpty {A} (l : list A) : bool := match l with [] => false | _ => true end.

(** [Boolean(id)]: an id that is not the empty text. *)
Definition truthyId (id : option string) : bool := match id with Some s => negb (bool_decide (s = "")) | None => false end.

Definition savedGraphDirtiness (d : SavedGraphDirtinessInput) : SavedGraphDirtiness :=
  let unsaved :=
    nonEmpty (nodes (di_document d)) || nonEmpty (edges (di_document d)) || nonEmpty (viewers (di_presentation d)) ||
    nonEmpty (links (di_presentation d)) || nonEmpty (bindings (di_presentation d)) ||
    negb (bool_decide (trim (name (di_document d)) = NEW_GRAPH_NAME)) in
  {| hasUnsavedDraft := unsaved;
     isDirty := if di_hasActiveGraph d then negb (bool_decide (di_savedFingerprint d = Some (di_currentFingerprint d))) else unsaved;
     workAtRisk := if di_hasActiveGraph d then di_hasUnsyncedRoomEdits d else unsaved;
     canMaterializeSavedGraph :=
       di_hasActiveGraph d && bool_decide (di_savedExecutionFingerprint d = Some (di_currentExecutionFingerprint d));
     persistenceOperationBusy := di_saving d || truthyId (di_openingGraphId d) || truthyId (di_deletingGraphId d) |}.

(** ** Values that JSON can write *)

Definition is_undefined (v : jsval) : bool := match v with JUndefined => true | _ => false end.

(** Finite numbers, objects with distinct keys, none of them [__proto__]; a property may
    be [undefined]. *)
Fixpoint plain_value (v : jsval) : bool :=
  match v with
  | JUndefined => false
  | JNum n => num_isFinite n
  | JArr l => forallb plain_value l
  | JObj o => bool_decide (NoDup o.*1) && forallb (λ kv, negb (bool_decide (kv.1 = "__proto__")) && (is_undefined kv.2 || plain_value kv.2)) o
  | _ => true
  end.

Definition maybe_plain (v : jsval) : bool := is_undefined v || plain_value v.

Lemma plain_get o k : plain_value (JObj o) = true → maybe_plain (obj_get k o) = true.
Proof.
  cbn [plain_value]. intros [_ Ho]%andb_true_iff. induction o as [|[k' v] o IH]; [done|]. cbn in Ho |- *.
  apply andb_true_iff in Ho as [[_ Hv]%andb_true_iff Ho]. case_bool_decide; [done|by apply IH].
Qed.

(** ** Reading a sorted record *)

Section reading.
Context (localeCompare : string → string → Z).
#[local] Notation sorted := (sortedRecord localeCompare).

Definition defined_entry (kv : string * jsval) : Prop := is_undefined kv.2 = false ∧ kv.1 ≠ "__proto__".

#[local] Instance defined_entry_dec kv : Decision (defined_entry kv).
Proof. unfold defined_entry. apply _. Defined.

Lemma obj_set_fresh k v (o : jsobj) : k ∉ o.*1 → obj_set k v o = o ++ [(k, v)].
Proof.
  induction o as [|[k' v'] o IH]; [done|]. cbn. intros [H1 H2]%not_elem_of_cons. rewrite bool_decide_false by done. by rewrite IH.
Qed.

Lemma assign_filter (acc o : jsobj) : NoDup (acc ++ o).*1 → foldl assignDefined acc o = acc ++ filter defined_entry o.
Proof.
  revert acc. induction o as [|[k v] o IH]; intros acc Hnd; cbn [foldl]; [by rewrite filter_nil, app_nil_r|].
  assert (NoDup (acc ++ o).*1) as Hskip.
  { rewrite fmap_app in Hnd |- *. cbn in Hnd. rewrite <- Permutation_middle in Hnd. by apply NoDup_cons in Hnd as [_ Hnd]. }
  rewrite filter_cons. case_decide as Hd; [|].
  - destruct Hd as [Hu Hp]. cbn in Hu, Hp. assert (assignDefined acc (k, v) = acc ++ [(k, v)]) as ->.
    { unfold assignDefined. cbn [fst snd]. rewrite bool_decide_false by done. rewrite obj_set_fresh.
      - by destruct v.
      - rewrite fmap_app in Hnd. cbn in Hnd. rewrite <- Permutation_middle in Hnd. apply NoDup_cons in Hnd as [Hnd _].
        intros Hk. apply Hnd, elem_of_app. by left. }
    rewrite IH by by rewrite <- app_assoc. by rewrite <- app_assoc.
  - assert (assignDefined acc (k, v) = acc) as ->; [|by apply IH]. unfold assignDefined. cbn [fst snd].
    destruct v; try done; rewrite bool_decide_true; try done; apply dec_stable; intros Hk; by apply Hd.
Qed.

(** The entries of a sorted record. *)
Definition sortedItems (o : jsobj) : jsobj := map (λ kv, (kv.1, sorted kv.2)) o.

Lemma sortedItems_keys o : (sortedItems o).*1 = o.*1.
Proof. induction o as [|[k v] o IH]; [done|]. cbn. by f_equal. Qed.

Lemma sortedRecord_obj o :
  NoDup o.*1 → sorted (JObj o) = JObj (filter defined_entry (js_sort (byKey localeCompare) (sortedItems o))).
Proof.
  intros Hnd. cbn [sortedRecord]. f_equal. apply (assign_filter []). cbn. unfold sortedItems. change (list (string * jsval)) with jsobj.
  rewrite js_sort_perm. fold (sortedItems o). by rewrite sortedItems_keys.
Qed.

Lemma obj_get_Some k v (o : jsobj) : NoDup o.*1 → (k, v) ∈ o → obj_get k o = v.
Proof.
  induction o as [|[k' v'] o IH]; [by intros _ ?%elem_of_nil|]. cbn. intros [Hk Hnd]%NoDup_cons [[= -> ->]|Hin]%elem_of_cons.
  - by rewrite bool_decide_true.
  - rewrite bool_decide_false; [by apply IH|]. intros ->. apply Hk. apply list_elem_of_fmap. by exists (k, v).
Qed.

Lemma obj_get_absent k (o : jsobj) : k ∉ o.*1 → obj_get k o = JUndefined.
Proof.
  induction o as [|[k' v'] o IH]; [done|]. cbn. intros [H1 H2]%not_elem_of_cons. rewrite bool_decide_false by done. by apply IH.
Qed.

Lemma obj_get_in k (o : jsobj) : obj_get k o = JUndefined ∨ (k, obj_get k o) ∈ o.
Proof.
  induction o as [|[k' v'] o IH]; [by left|]. cbn. case_bool_decide as Hk; [right; rewrite Hk; by left|].
  destruct IH as [IH|IH]; [by left|right; by right].
Qed.

Lemma obj_get_perm k (o o' : jsobj) : NoDup o.*1 → o ≡ₚ o' → obj_get k o = obj_get k o'.
Proof.
  intros Hnd Hp. assert (NoDup o'.*1) as Hnd' by by rewrite <- Hp. destruct (obj_get_in k o) as [H|H].
  - destruct (obj_get_in k o') as [H'|H']; [congruence|]. apply obj_get_Some; [done|]. by apply (elem_of_Permutation_proper _ _ _ Hp).
  - symmetry. apply obj_get_Some; [done|]. by apply (elem_of_Permutation_proper _ _ _ Hp).
Qed.

Lemma obj_get_items k o : obj_get k (sortedItems o) = sorted (obj_get k o).
Proof. induction o as [|[k' v'] o IH]; [done|]. cbn. case_bool_decide; [done|exact IH]. Qed.

Lemma obj_get_filter k (o : jsobj) : NoDup o.*1 → k ≠ "__proto__" → obj_get k (filter defined_entry o) = obj_get k o.
Proof.
  induction o as [|[k' v'] o IH]; [done|]. cbn [fmap list_fmap]. intros [Hk Hnd]%NoDup_cons Hp. rewrite filter_cons. case_decide as Hd; cbn [obj_get].
  - case_bool_decide; [done|by apply IH].
  - rewrite IH by done. case_bool_decide as Hkk; [|done]. subst k'. rewrite obj_get_absent by done.
    destruct v'; try done; by destruct Hd.
Qed.

(** Reading a property before or after the sorting is the same. *)
Lemma get_sorted o k : plain_value (JObj o) = true → js_get k (sorted (JObj o)) = sorted (obj_get k o).
Proof.
  intros Ho. pose proof Ho as Ho'. cbn [plain_value] in Ho'. apply andb_true_iff in Ho' as [Hnd%bool_decide_eq_true Hall].
  rewrite sortedRecord_obj by done. cbn [js_get].
  assert (NoDup (js_sort (byKey localeCompare) (sortedItems o)).*1) as Hnd' by by rewrite js_sort_perm, sortedItems_keys.
  destruct (decide (k = "__proto__")) as [-> |Hk].
  - rewrite (obj_get_absent "__proto__" o).
    + apply obj_get_absent. intros (kv & Hk & [[_ Hp] _]%list_elem_of_filter)%list_elem_of_fmap. by apply Hp.
    + intros ([k v] & Hk & Hin)%list_elem_of_fmap. cbn in Hk. subst k. rewrite forallb_forall in Hall.
      specialize (Hall _ (proj1 (list_elem_of_In _ _) Hin)). cbn in Hall. done.
  - rewrite obj_get_filter by done. rewrite <- obj_get_items. symmetry. apply obj_get_perm; [by rewrite sortedItems_keys|]. by rewrite js_sort_perm.
Qed.

Lemma sorted_undefined v : is_undefined (sorted v) = is_undefined v.
Proof. by destruct v. Qed.

Lemma sortedRecord_json v : plain_value v = true → json_value (sorted v) = true.
Proof.
  induction v as [| |b|n|s|l IH|o IH] using jsval_nested_ind; try done.
  - cbn [plain_value sortedRecord json_value]. intros Hl. apply forallb_forall. intros w (v & <- & Hv)%in_map_iff.
    rewrite Forall_forall in IH. rewrite forallb_forall in Hl. apply IH; [by apply list_elem_of_In|by apply Hl].
  - intros Ho. pose proof Ho as Ho'. cbn [plain_value] in Ho'. apply andb_true_iff in Ho' as [Hnd%bool_decide_eq_true Hall].
    rewrite sortedRecord_obj by done. cbn [json_value]. apply forallb_forall. intros [k w] Hin%list_elem_of_In.
    apply list_elem_of_filter in Hin as [[Hu _] Hin]. rewrite js_sort_perm in Hin. unfold sortedItems in Hin.
    apply list_elem_of_In, in_map_iff in Hin as ([k' v] & [= <- <-] & Hin). cbn [fst snd] in *. rewrite Forall_forall in IH.
    rewrite forallb_forall in Hall. specialize (Hall _ Hin). cbn [fst snd] in Hall. apply andb_true_iff in Hall as [_ Hv].
    rewrite sorted_undefined in Hu. rewrite Hu in Hv. by apply (IH (k', v)); [apply list_elem_of_In|].
Qed.

(** ** Values that agree everywhere *)

Inductive PathStep := at_key (k : string) | at_index (i : nat).

Definition read_step (p : PathStep) (v : jsval) : jsval :=
  match p with
  | at_key k => js_get k v
  | at_index i => match v with JArr l => default JUndefined (l !! i) | _ => JUndefined end
  end.

Definition read_path (p : list PathStep) (v : jsval) : jsval := foldl (λ v s, read_step s v) v p.

(** What a value is by itself: a scalar, an array of some length, an object. *)
Definition leaf (v : jsval) : jsval :=
  match v with JArr l => JArr (map (λ _, JUndefined) l) | JObj _ => JObj [] | _ => v end.

(** The same tree; the order of an object's properties and a property that is
    [undefined] make no difference. *)
Definition same_value (v w : jsval) : Prop := ∀ p, leaf (read_path p v) = leaf (read_path p w).

Lemma maybe_plain_step s v : maybe_plain v = true → maybe_plain (read_step s v) = true.
Proof.
  destruct s as [k|i]; destruct v as [| | | | |l|o]; try done; cbn [read_step js_get].
  - intros Ho. by apply plain_get.
  - unfold maybe_plain. cbn [is_undefined orb plain_value]. intros Hl. destruct (l !! i) as [v|] eqn:Hi; [|done]. cbn [default id].
    rewrite forallb_forall in Hl. rewrite (Hl v); [by rewrite orb_true_r|]. apply list_elem_of_In. by eapply list_elem_of_lookup_2.
Qed.

Lemma read_step_sorted s v : maybe_plain v = true → read_step s (sorted v) = sorted (read_step s v).
Proof.
  intros Hv. destruct s as [k|i]; destruct v as [| | | | |l|o]; try done; cbn [read_step].
  - by apply get_sorted.
  - cbn [sortedRecord]. change (map sorted l) with (sorted <$> l). rewrite list_lookup_fmap. by destruct (l !! i).
Qed.

Lemma leaf_sorted v : leaf (sorted v) = leaf v.
Proof. destruct v; try done. cbn. by rewrite map_map. Qed.

Lemma read_path_sorted p v : maybe_plain v = true → leaf (read_path p (sorted v)) = leaf (read_path p v).
Proof.
  revert v. induction p as [|s p IH]; intros v Hv; [apply leaf_sorted|]. unfold read_path in *. cbn [foldl].
  rewrite read_step_sorted by done. apply IH. by apply maybe_plain_step.
Qed.

Lemma sorted_same v w : maybe_plain v = true → maybe_plain w = true → sorted v = sorted w → same_value v w.
Proof. intros Hv Hw H p. by rewrite <- (read_path_sorted p v), <- (read_path_sorted p w), H. Qed.
End reading.

(** ** A collation that tells all strings apart *)

(** What makes a sorted order unique.  [localeCompare] promises a total preorder; that it
    finds no two different ids or keys equal is the host's choice of collation. *)
Class Collation (localeCompare : string → string → Z) : Prop := {
  co_total a b : (localeCompare a b ≤ 0)%Z ∨ (localeCompare b a ≤ 0)%Z;
  co_trans a b c : (localeCompare a b ≤ 0)%Z → (localeCompare b c ≤ 0)%Z → (localeCompare a c ≤ 0)%Z;
  co_antisym a b : (localeCompare a b ≤ 0)%Z → (localeCompare b a ≤ 0)%Z → a = b
}.

Definition codeCompare (a b : string) : Z := if String.leb a b then (if bool_decide (a = b) then 0 else -1)%Z else 1%Z.

Lemma codeCompare_le a b : (codeCompare a b ≤ 0)%Z ↔ String.le a b.
Proof. unfold codeCompare, String.le. destruct (String.leb a b); cbn; [|split; [lia|done]]. case_bool_decide; split; intros; [done|lia|done|lia]. Qed.

#[export] Instance codeCompare_collation : Collation codeCompare.
Proof.
  split; intros *; rewrite !codeCompare_le; [|apply (transitivity (R := String.le))|apply (anti_symm String.le)].
  apply (total String.le).
Qed.

Section sorting.
Context (localeCompare : string → string → Z) `{!Collation localeCompare} {A : Type} (key : A → string).
#[local] Notation cmp := (λ left right, localeCompare (key left) (key right)).
#[local] Notation precedes := (λ left right, localeCompare (key left) (key right) ≤ 0)%Z.

Lemma js_insert_sorted x l : StronglySorted precedes l → StronglySorted precedes (js_insert cmp x l).
Proof.
  induction l as [|y l IH]; intros Hl; cbn [js_insert]; [by repeat constructor|]. apply StronglySorted_cons in Hl as [Hy Hl].
  destruct (Z.leb_spec (localeCompare (key x) (key y)) 0) as [Hxy|Hxy].
  - apply StronglySorted_cons. split; [|by apply StronglySorted_cons]. constructor; [done|].
    eapply Forall_impl; [exact Hy|]. intros z Hz. by eapply co_trans.
  - apply StronglySorted_cons. split; [|by apply IH]. apply Forall_forall. intros z Hz.
    assert (z = x ∨ z ∈ l) as [-> |Hin].
    { assert (js_insert cmp x l ≡ₚ x :: l) as Hp.
      { clear. induction l as [|y l IH]; [done|]. cbn [js_insert]. case_match; [done|]. rewrite IH. constructor. }
      rewrite Hp in Hz. by apply elem_of_cons in Hz. }
    + destruct (co_total (key x) (key y)); [lia|done].
    + by eapply Forall_forall in Hy.
Qed.

Lemma js_sort_sorted l : StronglySorted precedes (js_sort cmp l).
Proof. induction l as [|x l IH]; [constructor|]. by apply js_insert_sorted. Qed.

Lemma sorted_unique l l' :
  NoDup (key <$> l) → l ≡ₚ l' → StronglySorted precedes l → StronglySorted precedes l' → l = l'.
Proof.
  intros Hnd Hp Hl Hl'. eapply (StronglySorted_unique_strong precedes); [|done..]. intros x y Hx Hy Hxy Hyx. rewrite <- Hp in Hy.
  pose proof (co_antisym _ _ Hxy Hyx) as Hk. apply list_elem_of_lookup in Hx as [i Hi], Hy as [j Hj].
  assert (i = j) as ->; [|congruence]. eapply (NoDup_lookup (key <$> l)); [done|by rewrite list_lookup_fmap, Hi|]. by rewrite list_lookup_fmap, Hj, Hk.
Qed.

Lemma js_sort_unique l l' : NoDup (key <$> l) → l ≡ₚ l' → js_sort cmp l = js_sort cmp l'.
Proof.
  intros Hnd Hp. apply sorted_unique; [by rewrite js_sort_perm|by rewrite !js_sort_perm|apply js_sort_sorted..].
Qed.
End sorting.

Section complete.
Context (localeCompare : string → string → Z) `{!Collation localeCompare}.
#[local] Notation sorted := (sortedRecord localeCompare).

Lemma StronglySorted_filter {A} (R : A → A → Prop) (P : A → Prop) `{∀ x, Decision (P x)} l : StronglySorted R l → StronglySorted R (filter P l).
Proof.
  induction 1 as [|x l Hl IH Hx]; [constructor|]. rewrite filter_cons. case_decide; [|done]. apply StronglySorted_cons. split; [|done].
  apply Forall_forall. intros y [_ Hy]%list_elem_of_filter. by eapply Forall_forall in Hx.
Qed.

Lemma sorted_keys_NoDup o :
  NoDup o.*1 → NoDup (filter defined_entry (js_sort (byKey localeCompare) (sortedItems localeCompare o))).*1.
Proof.
  intros Ho. assert (NoDup (js_sort (byKey localeCompare) (sortedItems localeCompare o)).*1) as Hnd by by rewrite js_sort_perm, sortedItems_keys.
  induction (js_sort _ _) as [|[k v] l IH]; [constructor|]. cbn in Hnd. apply NoDup_cons in Hnd as [Hk Hnd]. rewrite filter_cons.
  case_decide; [|by apply IH]. cbn. apply NoDup_cons. split; [|by apply IH]. intros (kv & -> & [_ Hin]%list_elem_of_filter)%list_elem_of_fmap.
  apply Hk, list_elem_of_fmap. by exists kv.
Qed.

Lemma sorted_entry o k x :
  plain_value (JObj o) = true →
  (k, x) ∈ filter defined_entry (js_sort (byKey localeCompare) (sortedItems localeCompare o)) ↔
  k ≠ "__proto__" ∧ is_undefined x = false ∧ sorted (obj_get k o) = x.
Proof.
  intros Ho. pose proof Ho as Ho'. cbn [plain_value] in Ho'. apply andb_true_iff in Ho' as [Hnd%bool_decide_eq_true _].
  set (L := filter _ _). assert (NoDup L.*1) as HL by by apply sorted_keys_NoDup.
  assert (obj_get k L = sorted (obj_get k o)) as Hg by (rewrite <- get_sorted by done; by rewrite sortedRecord_obj).
  split.
  - intros Hin. assert (defined_entry (k, x)) as [Hu Hk] by by apply list_elem_of_filter in Hin as [? _].
    split_and!; [done..|]. rewrite <- Hg. by apply obj_get_Some.
  - intros (Hk & Hu & Hx). rewrite <- Hg in Hx. destruct (obj_get_in k L) as [H|H]; rewrite Hx in H; [|done]. by rewrite H in Hu.
Qed.

Lemma same_value_step s v w : same_value v w → same_value (read_step s v) (read_step s w).
Proof. intros H p. exact (H (s :: p)). Qed.

(** Values that agree everywhere sort to the same record. *)
Lemma sorted_complete v w : maybe_plain v = true → maybe_plain w = true → same_value v w → sorted v = sorted w.
Proof.
  revert w. induction v as [| |b|n|s|l IH|o IH] using jsval_nested_ind; intros w Hv Hw H; pose proof (H []) as H0; unfold read_path in H0; cbn [foldl leaf] in H0.
  1-5: by destruct w; cbn in H0.
  - destruct w as [| | | | |l'|]; try done. cbn [leaf] in H0. injection H0 as H0. cbn [sortedRecord]. f_equal.
    assert (length l = length l') as Hlen by (apply (f_equal length) in H0; by rewrite !length_map in H0).
    apply list_eq. intros i. change (map sorted) with (fmap (M := list) sorted). rewrite !list_lookup_fmap.
    destruct (l !! i) as [x|] eqn:Hx, (l' !! i) as [y|] eqn:Hy; cbn.
    + f_equal. rewrite Forall_forall in IH. pose proof (same_value_step (at_index i) _ _ H) as Hi.
      pose proof (maybe_plain_step (at_index i) _ Hv) as Hpx. pose proof (maybe_plain_step (at_index i) _ Hw) as Hpy.
      cbn [read_step] in Hi, Hpx, Hpy. rewrite Hx in Hi, Hpx. rewrite Hy in Hi, Hpy. apply IH; [by eapply list_elem_of_lookup_2|done..].
    + apply lookup_lt_Some in Hx. apply lookup_ge_None in Hy. lia.
    + apply lookup_lt_Some in Hy. apply lookup_ge_None in Hx. lia.
    + done.
  - destruct w as [| | | | | |o']; try done. clear H0. unfold maybe_plain in Hv, Hw. cbn [is_undefined orb] in Hv, Hw.
    assert (∀ k, sorted (obj_get k o) = sorted (obj_get k o')) as Hk.
    { intros k. pose proof (same_value_step (at_key k) _ _ H) as Hs. cbn [read_step js_get] in Hs. destruct (obj_get_in k o) as [Hu|Hin].
      - specialize (Hs []). unfold read_path in Hs. cbn [foldl] in Hs. rewrite Hu in Hs |- *. cbn in Hs. by destruct (obj_get k o').
      - rewrite Forall_forall in IH. apply (IH _ Hin); [by apply plain_get..|done]. }
    pose proof Hv as Hv'. pose proof Hw as Hw'. cbn [plain_value] in Hv', Hw'.
    apply andb_true_iff in Hv' as [Hnd%bool_decide_eq_true _], Hw' as [Hnd'%bool_decide_eq_true _]. rewrite !sortedRecord_obj by done. f_equal.
    apply (sorted_unique localeCompare fst); [by apply sorted_keys_NoDup| |apply StronglySorted_filter, (js_sort_sorted localeCompare fst)..].
    apply NoDup_Permutation; [by eapply NoDup_fmap_1, sorted_keys_NoDup..|]. intros [k x]. by rewrite !sorted_entry, Hk.
Qed.

Lemma same_value_refl v : same_value v v.
Proof. done. Qed.

Lemma same_object (o o' : jsobj) : (∀ k, same_value (obj_get k o) (obj_get k o')) → same_value (JObj o) (JObj o').
Proof. intros H [|[k|i] p]; [done|exact (H k p)|done]. Qed.

Lemma same_array l l' : Forall2 same_value l l' → same_value (JArr l) (JArr l').
Proof.
  intros H [|[k|i] p]; unfold read_path; cbn.
  - f_equal. induction H; cbn; by f_equal.
  - done.
  - destruct (l !! i) as [x|] eqn:Hx.
    + destruct (Forall2_lookup_l _ _ _ _ _ H Hx) as (y & Hy & Hxy). rewrite Hy. exact (Hxy p).
    + destruct (l' !! i) as [y|] eqn:Hy; [|done]. destruct (Forall2_lookup_r _ _ _ _ _ H Hy) as (x & Hx' & _). congruence.
Qed.
End complete.
