(* ===== verification/FingerprintTheory.v ===== *)
(** * What a fingerprint tells apart

    Two drafts have the same fingerprint exactly when they hold the same name, nodes,
    connections and presentation, in any order.  Origins and Agents are not looked at. *)

From stdpp Require Import numbers list.
From S2P Require Import Prelude Js JsText JsJson GraphModel GraphCommands Routes RoutesTheory Fingerprints.

(** ** Reading records back *)

(** The value determines what it was made from, up to [R]. *)
Definition faithful {A} (R : A → A → Prop) (f : A → jsval) : Prop :=
  ∀ a b, maybe_plain (f a) = true → maybe_plain (f b) = true → same_value (f a) (f b) → R a b.

Lemma same_leaf v w : same_value v w → leaf v = leaf w.
Proof. intros H. exact (H []). Qed.

Lemma faithful_str : faithful eq JStr.
Proof. by intros a b _ _ [= ->]%same_leaf. Qed.

Lemma faithful_num : faithful eq JNum.
Proof. by intros a b _ _ [= ->]%same_leaf. Qed.

Lemma faithful_bool : faithful eq JBool.
Proof. by intros a b _ _ [= ->]%same_leaf. Qed.

Lemma faithful_value : faithful same_value id.
Proof. by intros a b _ _ H. Qed.

(** The text of a constant. *)
Lemma faithful_text {A} (f : A → string) : Inj (=) (=) f → faithful eq (λ a, JStr (f a)).
Proof. by intros Hf a b _ _ [= ->%Hf]%same_leaf. Qed.

Lemma faithful_list {A} (R : A → A → Prop) f : faithful R f → faithful (Forall2 R) (λ l, JArr (map f l)).
Proof.
  intros Hf l l' Hl Hl' H. pose proof (same_leaf _ _ H) as Hlen. cbn in Hlen. injection Hlen as Hlen. apply (f_equal length) in Hlen.
  rewrite !length_map in Hlen. apply Forall2_same_length_lookup_2; [done|]. intros i x y Hx Hy.
  pose proof (maybe_plain_step (at_index i) _ Hl) as Hpx. pose proof (maybe_plain_step (at_index i) _ Hl') as Hpy.
  pose proof (same_value_step (at_index i) _ _ H) as Hi. cbn [read_step] in *. change (map f) with (fmap (M := list) f) in *.
  rewrite !list_lookup_fmap, ?Hx, ?Hy in *. by apply Hf.
Qed.

Inductive jsopt_rel {A} (R : A → A → Prop) : jsopt A → jsopt A → Prop :=
| rel_undef : jsopt_rel R Undef Undef
| rel_null : jsopt_rel R Null Null
| rel_val a b : R a b → jsopt_rel R (Val a) (Val b).

Lemma faithful_opt {A} (R : A → A → Prop) f :
  (∀ a, is_nullish (leaf (f a)) = false) → faithful R f → faithful (jsopt_rel R) (optValue f).
Proof.
  intros Hn Hf [| |a] [| |b] Ha Hb H; pose proof (same_leaf _ _ H) as H0; cbn [optValue leaf] in *; try discriminate; try constructor.
  1,2: specialize (Hn b); by rewrite <- H0 in Hn.
  1,2: specialize (Hn a); by rewrite H0 in Hn.
  by apply Hf.
Qed.

Lemma jsopt_rel_eq {A} (a b : jsopt A) : jsopt_rel eq a b → a = b.
Proof. by intros [| |? ? ->]. Qed.

Lemma faithful_opt_eq {A} (f : A → jsval) : (∀ a, is_nullish (leaf (f a)) = false) → faithful eq f → faithful eq (optValue f).
Proof. intros Hn Hf a b Ha Hb H. apply jsopt_rel_eq. by apply (faithful_opt eq f Hn Hf). Qed.

Lemma faithful_list_eq {A} (f : A → jsval) : faithful eq f → faithful eq (λ l, JArr (map f l)).
Proof. intros Hf a b Ha Hb H. apply list_eq_Forall2. by apply (faithful_list eq f Hf). Qed.

Lemma faithful_field {A} (R : A → A → Prop) f a b k o o' :
  faithful R f → maybe_plain (JObj o) = true → maybe_plain (JObj o') = true → same_value (JObj o) (JObj o') →
  obj_get k o = f a → obj_get k o' = f b → R a b.
Proof.
  intros Hf Ho Ho' H Ha Hb. pose proof (maybe_plain_step (at_key k) _ Ho) as Hp. pose proof (maybe_plain_step (at_key k) _ Ho') as Hp'.
  pose proof (same_value_step (at_key k) _ _ H) as Hk. cbn [read_step js_get] in *. rewrite Ha in Hp, Hk. rewrite Hb in Hp', Hk. by apply Hf.
Qed.

(** Read property [k] of two objects that agree. *)
Ltac read k F :=
  match goal with
  | Hp : maybe_plain ?u = true, Hp' : maybe_plain ?w = true, H : same_value ?u ?w |- _ =>
      let E := fresh "E" in pose proof (faithful_field eq _ _ _ k _ _ F Hp Hp' H eq_refl eq_refl) as E; cbn in E
  end.

Lemma faithful_point : faithful eq pointValue.
Proof. intros [x y] [x' y'] Hp Hp' H. read "x" faithful_num. read "y" faithful_num. congruence. Qed.

Definition faithful_opt_num : faithful eq (optValue JNum) := faithful_opt_eq JNum (λ _, eq_refl) faithful_num.
Definition faithful_opt_str : faithful eq (optValue JStr) := faithful_opt_eq JStr (λ _, eq_refl) faithful_str.

Lemma faithful_layout : faithful eq layoutValue.
Proof.
  intros [x y z] [x' y' z'] Hp Hp' H. read "appendix_height" faithful_opt_num. read "body_height" faithful_opt_num. read "width" faithful_opt_num.
  congruence.
Qed.

Lemma faithful_plug : faithful eq plugValue.
Proof. intros [x y] [x' y'] Hp Hp' H. read "id" faithful_str. read "port" faithful_str. congruence. Qed.

Definition typeValue (t : ArtifactTypeKey) : jsval := JObj [("id", JStr (at_id t)); ("schema_version", JNum (at_schema_version t))].

Lemma faithful_type : faithful eq typeValue.
Proof. intros [x y] [x' y'] Hp Hp' H. read "id" faithful_str. read "schema_version" faithful_num. congruence. Qed.

Lemma faithful_typeBinding : faithful eq typeBindingValue.
Proof. intros [x y] [x' y'] Hp Hp' H. read "variable" faithful_str. read "artifact_type" faithful_type. congruence. Qed.

Lemma faithful_conversion : faithful eq conversionValue.
Proof. intros [x y] [x' y'] Hp Hp' H. read "id" faithful_str. read "version" faithful_num. congruence. Qed.

Lemma faithful_projection : faithful eq projectionValue.
Proof. intros [x] [x'] Hp Hp' H. read "path" (faithful_list_eq _ faithful_str). congruence. Qed.

Definition faithful_opt_projection : faithful eq (optValue projectionValue) := faithful_opt_eq projectionValue (λ _, eq_refl) faithful_projection.
Definition faithful_opt_point : faithful eq (optValue pointValue) := faithful_opt_eq pointValue (λ _, eq_refl) faithful_point.
Definition faithful_opt_layout : faithful eq (optValue layoutValue) := faithful_opt_eq layoutValue (λ _, eq_refl) faithful_layout.

#[local] Instance kindText_inj : Inj (=) (=) kindText.
Proof. by intros [] [] [=]. Qed.
#[local] Instance collectionModeText_inj : Inj (=) (=) collectionModeText.
Proof. by intros [] [] [=]. Qed.
#[local] Instance effectText_inj : Inj (=) (=) effectText.
Proof. by intros [] [] [=]. Qed.
#[local] Instance annotationKindText_inj : Inj (=) (=) annotationKindText.
Proof. by intros [] [] [=]. Qed.

Lemma faithful_edge : faithful eq edgeValue.
Proof.
  intros [mode cp en fn fp i pr ro tn tl tp] [mode' cp' en' fn' fp' i' pr' ro' tn' tl' tp'] Hp Hp' H.
  read "collection_mode" (faithful_text collectionModeText _). read "conversion_path" (faithful_list_eq _ faithful_conversion).
  read "enabled" faithful_bool. read "from_node" faithful_str. read "from_port" faithful_str. read "id" faithful_str.
  read "projection" faithful_opt_projection. read "route_offset" faithful_opt_point. read "to_node" faithful_str.
  read "to_plug" faithful_opt_str. read "to_port" faithful_str. congruence.
Qed.

Lemma faithful_link : faithful eq linkValue.
Proof.
  intros [a b c d e f] [a' b' c' d' e' f'] Hp Hp' H. read "id" faithful_str. read "projection" faithful_opt_projection.
  read "route_offset" faithful_opt_point. read "source_node_id" faithful_str. read "source_port_name" faithful_str.
  read "target_viewer_id" faithful_str. congruence.
Qed.

Lemma faithful_mapping : faithful eq mappingValue.
Proof. intros [x y] [x' y'] Hp Hp' H. read "source_field" faithful_str. read "target_field" faithful_str. congruence. Qed.

Lemma faithful_binding : faithful eq bindingValue.
Proof.
  intros [a b c d e] [a' b' c' d' e'] Hp Hp' H. read "effects" (faithful_list_eq _ (faithful_text effectText _)). read "id" faithful_str.
  read "mappings" (faithful_list_eq _ faithful_mapping). read "source_viewer_id" faithful_str. read "target_viewer_id" faithful_str. congruence.
Qed.

Definition sizeValue (s : jsnum * jsnum) : jsval := JObj [("height", JNum s.2); ("width", JNum s.1)].

Lemma faithful_size : faithful eq sizeValue.
Proof. intros [x y] [x' y'] Hp Hp' H. read "height" faithful_num. read "width" faithful_num. congruence. Qed.

Lemma faithful_annotation : faithful eq annotationValue.
Proof.
  intros [a b c d e f] [a' b' c' d' e' f'] Hp Hp' H. read "color" faithful_str. read "id" faithful_str.
  read "kind" (faithful_text annotationKindText _). read "layout" faithful_size. read "position" faithful_point. read "text" faithful_str. congruence.
Qed.

(** Everything but the configuration, whose keys may come in another order. *)
Definition same_node (n n' : GraphNode) : Prop :=
  same_value (optValue JObj (n_config n)) (optValue JObj (n_config n')) ∧
  n' = {| n_artifact_type_bindings := n_artifact_type_bindings n; n_config := n_config n'; n_id := n_id n; n_kind := n_kind n;
          n_input_plugs := n_input_plugs n; n_layout := n_layout n; n_operator_id := n_operator_id n;
          n_operator_version := n_operator_version n; n_position := n_position n |}.

Lemma faithful_node : faithful same_node nodeValue.
Proof.
  intros [tb c i k ip l oi ov p] [tb' c' i' k' ip' l' oi' ov' p'] Hp Hp' H.
  read "artifact_type_bindings" (faithful_list_eq _ faithful_typeBinding). read "id" faithful_str. read "kind" (faithful_text kindText _).
  read "input_plugs" (faithful_list_eq _ faithful_plug). read "layout" faithful_opt_layout. read "operator_id" faithful_str.
  read "operator_version" faithful_num. read "position" faithful_point. split; [|cbn; congruence].
  exact (faithful_field same_value id _ _ "config" _ _ faithful_value Hp Hp' H eq_refl eq_refl).
Qed.

Definition same_viewer (v v' : GraphPresentationViewer) : Prop :=
  same_value (v_artifact_ref v) (v_artifact_ref v') ∧
  v' = {| v_id := v_id v; v_position := v_position v; v_layout := v_layout v; v_mode := v_mode v; v_artifact_ref := v_artifact_ref v' |}.

Lemma faithful_viewer : faithful same_viewer viewerValue.
Proof.
  intros [a b c d e] [a' b' c' d' e'] Hp Hp' H. read "id" faithful_str. read "layout" faithful_opt_layout. read "mode" faithful_opt_str.
  read "position" faithful_point. split; [|cbn; congruence].
  exact (faithful_field same_value id _ _ "artifact_ref" _ _ faithful_value Hp Hp' H eq_refl eq_refl).
Qed.

(** ** Lists in any order *)

Definition same_list {A} (R : A → A → Prop) (l l' : list A) : Prop := ∃ l2, l2 ≡ₚ l' ∧ Forall2 R l l2.

Lemma same_list_perm {A} (R : A → A → Prop) (l1 l2 m1 m2 : list A) : l1 ≡ₚ l2 → m1 ≡ₚ m2 → same_list R l1 m1 → same_list R l2 m2.
Proof.
  intros Hl Hm (x & Hx & HR). destruct (Permutation_Forall2 (P := R) Hl HR) as (y & Hy & HR').
  exists y. split; [|done]. by rewrite <- Hy, Hx.
Qed.

Section drafts.
Context (numberText : jsnum → string) `{!NumberText numberText} (localeCompare : string → string → Z).
#[local] Notation sortById := (sortedById localeCompare).
#[local] Notation fingerprint := (savedGraphFingerprint numberText localeCompare).
#[local] Notation executionFingerprint := (savedGraphExecutionFingerprint numberText localeCompare).

Lemma same_list_sorted `{Identified A} (R : A → A → Prop) (l l' : list A) : Forall2 R (sortById l) (sortById l') → same_list R l l'.
Proof. intros HR. apply (same_list_perm R (sortById l) l (sortById l') l'); [apply js_sort_perm..|]. by exists (sortById l'). Qed.

Lemma insert_Forall2 `{Identified A} (R : A → A → Prop) x y (l l' : list A) :
  (∀ a b, R a b → ident a = ident b) → R x y → Forall2 R l l' →
  Forall2 R (js_insert (λ a b, localeCompare (ident a) (ident b)) x l) (js_insert (λ a b, localeCompare (ident a) (ident b)) y l').
Proof.
  intros Hid Hxy. induction 1 as [|a b l l' Hab Hl IH]; cbn [js_insert]; [by repeat constructor|].
  rewrite (Hid _ _ Hxy), (Hid _ _ Hab). case_match; repeat constructor; done.
Qed.

Lemma sorted_Forall2 `{!Collation localeCompare} `{Identified A} (R : A → A → Prop) (l l' : list A) :
  (∀ a b, R a b → ident a = ident b) → NoDup (ids l) → same_list R l l' → Forall2 R (sortById l) (sortById l').
Proof.
  intros Hid Hnd (l2 & Hp & HR). assert (Forall2 R (sortById l) (sortById l2)) as Hs.
  { clear Hp Hnd. induction HR; [constructor|]. by apply insert_Forall2. }
  assert (sortById l2 = sortById l') as <-; [|done]. apply (js_sort_unique localeCompare ident); [|done].
  assert (ident <$> l2 = ids l) as ->; [|done]. clear -HR Hid. unfold ids. induction HR as [|a b l l2 Hab _ IH]; [done|]. cbn. by rewrite IH, (Hid _ _ Hab).
Qed.

(** *** The parts of a draft *)

(** What a draft holds can be written as JSON: finite numbers, configurations that are
    plain data. *)
Definition plain_draft (g : GraphDraft) : bool :=
  let d := draft_document g in
  let p := draftPresentation g in
  forallb plain_value (map nodeValue (d_nodes d)) && forallb plain_value (map edgeValue (d_edges d)) &&
  forallb plain_value (map viewerValue (viewers p)) && forallb plain_value (map linkValue (links p)) &&
  forallb plain_value (map bindingValue (bindings p)) && forallb plain_value (map annotationValue (annotations p)).

Definition same_execution (g g' : GraphDraft) : Prop :=
  draft_name g = draft_name g' ∧
  same_list same_node (d_nodes (draft_document g)) (d_nodes (draft_document g')) ∧
  d_edges (draft_document g) ≡ₚ d_edges (draft_document g').

Definition same_presentation (p p' : GraphPresentation) : Prop :=
  same_list same_viewer (viewers p) (viewers p') ∧ links p ≡ₚ links p' ∧ bindings p ≡ₚ bindings p' ∧ annotations p ≡ₚ annotations p'.

Lemma plain_sorted `{Identified A} (f : A → jsval) (l : list A) :
  forallb plain_value (map f l) = true → plain_value (JArr (map f (sortById l))) = true.
Proof.
  cbn [plain_value]. rewrite !forallb_forall. intros Hl v (a & <- & Ha)%in_map_iff. apply Hl, in_map.
  apply list_elem_of_In in Ha. apply list_elem_of_In. by apply elem_of_js_sort in Ha.
Qed.

Lemma plain_execution g : plain_draft g = true → plain_value (JObj (executionEntries localeCompare g)) = true.
Proof.
  intros Hg. unfold plain_draft in Hg. rewrite !andb_true_iff in Hg. destruct Hg as (((((Hn & He) & _) & _) & _) & _).
  apply (plain_sorted (H := node_identified)) in Hn. apply (plain_sorted (H := edge_identified)) in He.
  unfold executionEntries. cbn [plain_value forallb fst snd]. cbn [plain_value] in Hn, He. cbn [is_undefined orb]. by rewrite Hn, He.
Qed.

Lemma plain_presentation g : plain_draft g = true → plain_value (presentationValue localeCompare (draftPresentation g)) = true.
Proof.
  intros Hg. unfold plain_draft in Hg. rewrite !andb_true_iff in Hg. destruct Hg as (((((_ & _) & Hv) & Hl) & Hb) & Ha).
  apply (plain_sorted (H := viewer_identified)) in Hv. apply (plain_sorted (H := link_identified)) in Hl.
  apply (plain_sorted (H := presentationBinding_identified)) in Hb. apply (plain_sorted (H := annotation_identified)) in Ha.
  unfold presentationValue. cbn [plain_value forallb fst snd]. cbn [plain_value] in Hv, Hl, Hb, Ha. cbn [is_undefined orb]. by rewrite Hv, Hl, Hb, Ha.
Qed.

(** *** From values to drafts *)

Lemma read_sorted `{Identified A} (R : A → A → Prop) f k o o' (l l' : list A) :
  faithful R f → maybe_plain (JObj o) = true → maybe_plain (JObj o') = true → same_value (JObj o) (JObj o') →
  obj_get k o = JArr (map f (sortById l)) → obj_get k o' = JArr (map f (sortById l')) → same_list R l l'.
Proof.
  intros Hf Ho Ho' Hs Hl Hl'. apply same_list_sorted.
  exact (faithful_field (Forall2 R) (λ l, JArr (map f l)) _ _ k o o' (faithful_list R f Hf) Ho Ho' Hs Hl Hl').
Qed.

Lemma same_list_eq {A} (l l' : list A) : same_list eq l l' ↔ l ≡ₚ l'.
Proof. split; [intros (l2 & Hp & ->%list_eq_Forall2); done|]. intros Hp. exists l. split; [done|]. by apply list_eq_Forall2. Qed.

Lemma execution_read g g' rest rest' :
  let o := executionEntries localeCompare g ++ rest in
  let o' := executionEntries localeCompare g' ++ rest' in
  maybe_plain (JObj o) = true → maybe_plain (JObj o') = true → same_value (JObj o) (JObj o') → same_execution g g'.
Proof.
  intros o o' Ho Ho' H. split_and!.
  - exact (faithful_field eq JStr _ _ "name" _ _ faithful_str Ho Ho' H eq_refl eq_refl).
  - exact (read_sorted same_node nodeValue "nodes" _ _ _ _ faithful_node Ho Ho' H eq_refl eq_refl).
  - apply same_list_eq. exact (read_sorted eq edgeValue "edges" _ _ _ _ faithful_edge Ho Ho' H eq_refl eq_refl).
Qed.

Lemma presentation_read : faithful same_presentation (presentationValue localeCompare).
Proof.
  intros p p' Hp Hp' H. unfold presentationValue in *. split_and!.
  - exact (read_sorted same_viewer viewerValue "viewers" _ _ _ _ faithful_viewer Hp Hp' H eq_refl eq_refl).
  - apply same_list_eq. exact (read_sorted eq linkValue "links" _ _ _ _ faithful_link Hp Hp' H eq_refl eq_refl).
  - apply same_list_eq. exact (read_sorted eq bindingValue "bindings" _ _ _ _ faithful_binding Hp Hp' H eq_refl eq_refl).
  - apply same_list_eq. exact (read_sorted eq annotationValue "annotations" _ _ _ _ faithful_annotation Hp Hp' H eq_refl eq_refl).
Qed.

(** *** From drafts to values *)

Lemma same_cons k v v' o o' : same_value v v' → same_value (JObj o) (JObj o') → same_value (JObj ((k, v) :: o)) (JObj ((k, v') :: o')).
Proof.
  intros Hv Ho. apply same_object. intros k'. cbn [obj_get]. case_bool_decide; [done|]. exact (same_value_step (at_key k') _ _ Ho).
Qed.

Lemma same_node_value n n' : same_node n n' → same_value (nodeValue n) (nodeValue n').
Proof. intros [Hc ->]. unfold nodeValue. cbn. repeat apply same_cons; done. Qed.

Lemma same_viewer_value v v' : same_viewer v v' → same_value (viewerValue v) (viewerValue v').
Proof. intros [Hc ->]. unfold viewerValue. cbn. repeat apply same_cons; done. Qed.

Lemma same_sorted_value `{!Collation localeCompare} `{Identified A} (R : A → A → Prop) f (l l' : list A) :
  (∀ a b, R a b → ident a = ident b) → (∀ a b, R a b → same_value (f a) (f b)) → NoDup (ids l) → same_list R l l' →
  same_value (JArr (map f (sortById l))) (JArr (map f (sortById l'))).
Proof.
  intros Hid Hf Hnd Hl. apply same_array. pose proof (sorted_Forall2 R l l' Hid Hnd Hl) as HR. induction HR; cbn; constructor; auto.
Qed.

(** Ids that the host's sort sees are distinct. *)
Definition unique_draft (g : GraphDraft) : Prop :=
  let d := draft_document g in
  let p := draftPresentation g in
  NoDup (ids (d_nodes d)) ∧ NoDup (ids (d_edges d)) ∧ NoDup (ids (viewers p)) ∧ NoDup (l_id <$> links p) ∧ NoDup (pb_id <$> bindings p) ∧
  NoDup (ids (annotations p)).

Lemma execution_same `{!Collation localeCompare} g g' rest rest' :
  unique_draft g → same_execution g g' → same_value (JObj rest) (JObj rest') →
  same_value (JObj (executionEntries localeCompare g ++ rest)) (JObj (executionEntries localeCompare g' ++ rest')).
Proof.
  intros (Hn & He & _) (Hname & Hnodes & Hedges) Hrest. cbn [executionEntries app]. rewrite Hname. repeat apply same_cons; try done.
  - apply (same_sorted_value same_node nodeValue); [by intros ? ? [_ ->]|apply same_node_value|done|done].
  - apply (same_sorted_value eq edgeValue); [by intros ? ? ->..|done|by apply same_list_eq].
Qed.

Lemma presentation_same `{!Collation localeCompare} g g' :
  unique_draft g → same_presentation (draftPresentation g) (draftPresentation g') →
  same_value (presentationValue localeCompare (draftPresentation g)) (presentationValue localeCompare (draftPresentation g')).
Proof.
  intros (_ & _ & Hv & Hl & Hb & Ha) (Sv & Sl%same_list_eq & Sb%same_list_eq & Sa%same_list_eq). unfold presentationValue. repeat apply same_cons; try done.
  - apply (same_sorted_value same_viewer viewerValue); [by intros ? ? [_ ->]|apply same_viewer_value|done|done].
  - by apply (same_sorted_value (H := link_identified) eq linkValue); [intros ? ? ->..| |].
  - by apply (same_sorted_value (H := presentationBinding_identified) eq bindingValue); [intros ? ? ->..| |].
  - by apply (same_sorted_value eq annotationValue); [intros ? ? ->..| |].
Qed.

Lemma text_sorted_inj v w :
  plain_value v = true → plain_value w = true →
  text numberText (sortedRecord localeCompare v) = text numberText (sortedRecord localeCompare w) →
  sortedRecord localeCompare v = sortedRecord localeCompare w.
Proof.
  intros Hv%(sortedRecord_json localeCompare) Hw%(sortedRecord_json localeCompare) H. apply (stringify_inj numberText); [done..|].
  by rewrite !stringify_text, H by done.
Qed.

Lemma plain_maybe v : plain_value v = true → maybe_plain v = true.
Proof. unfold maybe_plain. intros ->. by rewrite orb_true_r. Qed.

Lemma plain_full g :
  plain_draft g = true →
  plain_value (JObj (executionEntries localeCompare g ++ [("presentation", presentationValue localeCompare (draftPresentation g))])) = true.
Proof.
  intros Hg. pose proof (plain_execution g Hg) as He. pose proof (plain_presentation g Hg) as Hp. cbn [plain_value] in He |- *.
  apply andb_true_iff in He as [_ He]. rewrite forallb_app, He. apply andb_true_iff. split; [done|]. cbn. cbn in Hp. by rewrite Hp.
Qed.

Lemma fingerprint_read g g' :
  plain_draft g = true → plain_draft g' = true →
  fingerprint g = fingerprint g' → same_execution g g' ∧ same_presentation (draftPresentation g) (draftPresentation g').
Proof.
  intros Hg Hg'. pose proof (plain_full g Hg) as Hf. pose proof (plain_full g' Hg') as Hf'.
  intros H%text_sorted_inj; [|done..]. apply sorted_same in H; [|by apply plain_maybe..].
  split; [by eapply execution_read; [apply plain_maybe..|]|].
  by apply (faithful_field same_presentation _ _ _ "presentation" _ _ presentation_read (plain_maybe _ Hf) (plain_maybe _ Hf') H).
Qed.

(** C26: no change of a name, a node, a connection or the presentation goes unseen: drafts
    with the same fingerprint hold the same ones, whatever the host's collation; and
    where it tells all ids and keys apart, the order of lists and of configuration keys
    makes no difference. *)
Theorem fingerprint_tells_documents_apart g g' :
  plain_draft g = true → plain_draft g' = true →
  (fingerprint g = fingerprint g' → same_execution g g' ∧ same_presentation (draftPresentation g) (draftPresentation g')) ∧
  (executionFingerprint g = executionFingerprint g' → same_execution g g') ∧
  (Collation localeCompare → unique_draft g → same_execution g g' →
     executionFingerprint g = executionFingerprint g' ∧
     (same_presentation (draftPresentation g) (draftPresentation g') → fingerprint g = fingerprint g')).
Proof.
  intros Hg Hg'. pose proof (plain_execution g Hg) as He. pose proof (plain_execution g' Hg') as He'.
  pose proof (plain_full g Hg) as Hf. pose proof (plain_full g' Hg') as Hf'. split_and!.
  - by apply fingerprint_read.
  - intros H%text_sorted_inj; [|done..]. apply sorted_same in H; [|by apply plain_maybe..].
    rewrite <- (app_nil_r (executionEntries localeCompare g)), <- (app_nil_r (executionEntries localeCompare g')) in H.
    by eapply execution_read; [..|exact H]; rewrite app_nil_r; apply plain_maybe.
  - intros Hc Hu Hs. split; [|intros Hp]; unfold savedGraphFingerprint, savedGraphExecutionFingerprint; f_equal;
      (apply sorted_complete; [done|by apply plain_maybe..|]).
    + rewrite <- (app_nil_r (executionEntries localeCompare g)), <- (app_nil_r (executionEntries localeCompare g')). by apply execution_same.
    + apply execution_same; [done..|]. apply same_cons; [by apply presentation_same|done].
Qed.
End drafts.

(** ** What the decisions do not see *)

Definition with_origins_agents (o : list GraphOrigin) (a : list GraphAgent) (d : AuthoredGraphDocument) : AuthoredGraphDocument :=
  {| name := name d; nodes := nodes d; edges := edges d; origins := o; agents := a |}.

(** Origins, which are inputs of a Run, and Agents are in the saved document but in no
    fingerprint: after any edit of them the canvas counts as saved, and results of the
    saved Graph as fitting. *)
Lemma origin_edits_are_not_dirty numberText localeCompare d p o a unsynced saving opening deleting :
  let draft d := createGraphDraft d (Val p) in
  let decided := savedGraphDirtiness
    {| di_document := with_origins_agents o a d; di_presentation := p; di_hasActiveGraph := true;
       di_currentFingerprint := savedGraphFingerprint numberText localeCompare (draft (with_origins_agents o a d));
       di_savedFingerprint := Some (savedGraphFingerprint numberText localeCompare (draft d));
       di_currentExecutionFingerprint := savedGraphExecutionFingerprint numberText localeCompare (draft (with_origins_agents o a d));
       di_savedExecutionFingerprint := Some (savedGraphExecutionFingerprint numberText localeCompare (draft d));
       di_hasUnsyncedRoomEdits := unsynced; di_saving := saving; di_openingGraphId := opening; di_deletingGraphId := deleting |} in
  isDirty decided = false ∧ canMaterializeSavedGraph decided = true.
Proof. cbn. by rewrite !bool_decide_true. Qed.

(** Nor are origins, Agents and annotations of a new canvas counted as work at risk. *)
Lemma new_canvas_work_is_missed o a l fp fp' :
  workAtRisk (savedGraphDirtiness
    {| di_document := {| name := NEW_GRAPH_NAME; nodes := []; edges := []; origins := o; agents := a |};
       di_presentation := {| viewers := []; links := []; bindings := []; annotations := l |}; di_hasActiveGraph := false;
       di_currentFingerprint := fp; di_savedFingerprint := None; di_currentExecutionFingerprint := fp'; di_savedExecutionFingerprint := None;
       di_hasUnsyncedRoomEdits := true; di_saving := false; di_openingGraphId := None; di_deletingGraphId := None |}) = false.
Proof. reflexivity. Qed.

(** ** Witness *)

Definition fp_node (i : string) (config : jsobj) : GraphNode :=
  {| n_artifact_type_bindings := []; n_config := Val config; n_id := i; n_kind := KBuiltin; n_input_plugs := []; n_layout := Null;
     n_operator_id := "op"; n_operator_version := num 1; n_position := {| pt_x := num 0; pt_y := num 0 |} |}.

Definition fp_draft (ns : list GraphNode) : GraphDraft :=
  {| draft_name := "Main";
     draft_document := {| d_nodes := ns; d_edges := []; d_origins := []; d_agents := Undef; d_presentation := Undef |} |}.

Definition fp_left : GraphDraft := fp_draft [fp_node "b" []; fp_node "a" [("k", JNum (num 1))]].
Definition fp_right : GraphDraft := fp_draft [fp_node "a" [("k", JNum (num 1))]; fp_node "b" []].

Lemma fingerprint_tells_documents_apart_witness :
  savedGraphFingerprint fractionText codeCompare fp_left = savedGraphFingerprint fractionText codeCompare fp_right ∧
  savedGraphFingerprint fractionText codeCompare fp_left ≠ savedGraphFingerprint fractionText codeCompare (fp_draft [fp_node "b" []]).
Proof.
  assert (same_execution fp_left fp_right) as Hs.
  { split_and!; [reflexivity| |constructor]. exists (d_nodes (draft_document fp_left)). split; [apply perm_swap|]. repeat constructor. }
  split.
  - destruct (fingerprint_tells_documents_apart fractionText codeCompare fp_left fp_right eq_refl eq_refl) as (_ & _ & H).
    apply (H _); [|exact Hs|].
    + unfold unique_draft. cbn. split_and!; try constructor; try (apply NoDup_cons; split; [|constructor]); set_solver.
    + split_and!; [exists []; by split|constructor..].
  - destruct (fingerprint_tells_documents_apart fractionText codeCompare fp_left (fp_draft [fp_node "b" []]) eq_refl eq_refl) as (H & _).
    intros Hf%H. destruct Hf as ((_ & (l2 & Hp & Hl) & _) & _). apply Permutation_length in Hp. apply Forall2_length in Hl. cbn in Hp, Hl. congruence.
Defined.
