(* ===== verification/ArtifactCards.v ===== *)
(** * Artifact cards ([canvas/artifact-card.ts])

    The value of a card, which is also the value of an origin: one artifact, or a
    sequence of artifacts of one type; how sequences are made, merged and reordered.
    Values are objects of the contract and are read by their keys.  A sequence id that
    the source draws at random is an argument.  Sizes and display texts are left out. *)

From stdpp Require Import numbers list.
From S2P Require Import Prelude Js JsNum JsJson GraphModel Handles Routes RoutesTheory ConfigSchema.

(** ** Values *)

(** ["item_refs" in value] *)
Definition isSequence (value : jsval) : bool := js_in "item_refs" value.

(** [value.item_refs], an array by the contract. *)
Definition itemRefs (value : jsval) : list jsval := match js_get "item_refs" value with JArr l => l | _ => [] end.

Definition artifactId (ref : jsval) : jsval := js_get "artifact_id" ref.

(** [a.artifact_type === b.artifact_type && a.schema_version === b.schema_version] *)
Definition shareOneArtifactType (a b : jsval) : bool :=
  bool_decide (js_get "artifact_type" a = js_get "artifact_type" b) && bool_decide (js_get "schema_version" a = js_get "schema_version" b).

Definition cardArtifactRefs (value : jsval) : list jsval :=
  if is_nullish value then [] else if isSequence value then itemRefs value else [value].

Definition cardArtifactIds (value : jsval) : list jsval := map artifactId (cardArtifactRefs value).

(** [previous && "sequence_id" in previous && previous.sequence_id], when it is a text
    that is not empty. *)
Definition previousSequenceId (previous : jsval) : option jsval :=
  match js_get "sequence_id" previous with JStr s => if bool_decide (s = "") then None else Some (JStr s) | _ => None end.

(** A sequence as the canvas writes it. *)
Definition sequenceValue (artifact_type schema_version : jsval) (items : list jsval) (sequence_id : jsval) : jsval :=
  JObj [("artifact_type", artifact_type); ("schema_version", schema_version); ("item_refs", JArr items); ("ordered", JBool true);
        ("index_key", JStr "order_index"); ("sequence_id", sequence_id)].

Definition artifactCardValue (refs : list jsval) (previous : jsval) (asSequence : bool) (uuid : string) : option jsval :=
  match refs with
  | [] => None
  | first :: rest =>
      if existsb (λ ref, negb (shareOneArtifactType ref first)) refs then None
      else if is_nil rest && negb asSequence && negb (isSequence previous) then Some first
      else Some (sequenceValue (js_get "artifact_type" first) (js_get "schema_version" first) refs
                   (default (JStr uuid) (previousSequenceId previous)))
  end.

(** ** Collecting and merging *)

(** The sign of [a - b]; [NaN] counts as zero in a comparison. *)
Definition numSign (a b : jsnum) : Z := match num_compare a b with Some Lt => -1 | Some Gt => 1 | _ => 0 end%Z.

Record PlacedValue := { pl_position : GraphPoint; pl_value : jsval }.

Definition readingOrder (left right : PlacedValue) : Z :=
  num_or (numSign (pt_y (pl_position left)) (pt_y (pl_position right))) (numSign (pt_x (pl_position left)) (pt_x (pl_position right))).

(** The filter that keeps the first of every artifact. *)
Fixpoint firstOfEach (seen : list jsval) (refs : list jsval) : list jsval :=
  match refs with
  | [] => []
  | ref :: rest => if bool_decide (artifactId ref ∈ seen) then firstOfEach seen rest else ref :: firstOfEach (artifactId ref :: seen) rest
  end.

Definition collectArtifactCardRefs (cards : list PlacedValue) : option (list jsval) :=
  match firstOfEach [] (concat (map (λ card, cardArtifactRefs (pl_value card)) (js_sort readingOrder cards))) with
  | [] => None
  | first :: rest => if forallb (λ ref, shareOneArtifactType ref first) (first :: rest) then Some (first :: rest) else None
  end.

Definition selectionCollectsIntoSequence (values : list jsval) : bool :=
  match values with [] => false | [first] => negb (isSequence first) | _ => true end.

Definition mergedArtifactCardValue (target dropped : jsval) (uuid : string) : option jsval :=
  let targetRefs := cardArtifactRefs target in
  let added := filter (λ ref, artifactId ref ∉ map artifactId targetRefs) (cardArtifactRefs dropped) in
  match added with [] => None | _ => artifactCardValue (targetRefs ++ added) target false uuid end.

Definition canMergeIntoCard (target dropped : jsval) (uuid : string) : bool := bool_decide (is_Some (mergedArtifactCardValue target dropped uuid)).

(** [next.splice(index, 1)] and [next.splice(target, 0, moved)]. *)
Definition moveArtifactCardRef (refs : list jsval) (index delta : Z) : list jsval :=
  let target := Z.min (Z.of_nat (length refs) - 1) (Z.max 0 (index + delta)) in
  if (index <? 0)%Z || (Z.of_nat (length refs) <=? index)%Z || (index =? target)%Z then refs
  else
    match refs !! Z.to_nat index with
    | Some moved => let next := delete (Z.to_nat index) refs in take (Z.to_nat target) next ++ moved :: drop (Z.to_nat target) next
    | None => refs
    end.

Definition originCarriesCardArtifacts (originValue cardValue : jsval) : bool :=
  match cardArtifactIds cardValue, cardArtifactRefs originValue with
  | [], _ | _, [] => false
  | cardIds, originRefs => forallb (λ ref, bool_decide (artifactId ref ∈ cardIds)) originRefs
  end.

(** ** What a value holds *)

(** The artifacts are of one type, and none is itself a sequence. *)
Definition refs_of_one_type (refs : list jsval) : Prop :=
  Forall (λ r, isSequence r = false ∧ is_nullish r = false) refs ∧ ∀ r r', r ∈ refs → r' ∈ refs → shareOneArtifactType r r' = true.

Lemma share_refl r : shareOneArtifactType r r = true.
Proof. unfold shareOneArtifactType. by rewrite !bool_decide_true. Qed.

Lemma share_eq a b : shareOneArtifactType a b = true ↔
  js_get "artifact_type" a = js_get "artifact_type" b ∧ js_get "schema_version" a = js_get "schema_version" b.
Proof. unfold shareOneArtifactType. by rewrite andb_true_iff, !bool_decide_eq_true. Qed.

Lemma share_trans a b c : shareOneArtifactType a c = true → shareOneArtifactType b c = true → shareOneArtifactType a b = true.
Proof. rewrite !share_eq. intros [-> ->] [-> ->]. done. Qed.

Lemma sequence_refs t v items i : cardArtifactRefs (sequenceValue t v items i) = items.
Proof. done. Qed.

(** The value made of some artifacts holds exactly them, and there is none exactly when
    they are none or of several types. *)
Lemma artifactCardValue_refs refs previous asSequence uuid v :
  Forall (λ r, isSequence r = false ∧ is_nullish r = false) refs →
  artifactCardValue refs previous asSequence uuid = Some v →
  cardArtifactRefs v = refs ∧ refs_of_one_type refs ∧ (asSequence = true → isSequence v = true).
Proof.
  intros Hrefs. destruct refs as [|first rest]; [done|]. unfold artifactCardValue. destruct (existsb _ _) eqn:Hmixed; [done|].
  assert (∀ r r', r ∈ first :: rest → r' ∈ first :: rest → shareOneArtifactType r r' = true) as Hone.
  { intros r r' Hr Hr'. assert (∀ x, x ∈ first :: rest → shareOneArtifactType x first = true) as Hf.
    { intros x Hx%list_elem_of_In. destruct (shareOneArtifactType x first) eqn:E; [done|].
      assert (existsb (λ ref, negb (shareOneArtifactType ref first)) (first :: rest) = true) as He; [|congruence].
      apply existsb_exists. exists x. by rewrite E. }
    by apply (share_trans r r' first); apply Hf. }
  destruct (is_nil rest && negb asSequence && negb (isSequence previous)) eqn:Hsingle; intros [= <-].
  - rewrite !andb_true_iff in Hsingle. destruct Hsingle as [[Hnil Hseq] _]. destruct rest; [|done].
    apply Forall_cons in Hrefs as [[Hs Hn] _]. split_and!; [|split; [by repeat constructor|done]|by destruct asSequence].
    unfold cardArtifactRefs. by rewrite Hn, Hs.
  - split_and!; [done|by split|done].
Qed.

Lemma firstOfEach_spec seen refs :
  (NoDup (map artifactId (firstOfEach seen refs)) ∧ ∀ i, i ∈ map artifactId (firstOfEach seen refs) → i ∉ seen) ∧
  ∀ r, r ∈ firstOfEach seen refs → r ∈ refs.
Proof.
  revert seen. induction refs as [|r refs IH]; intros seen; cbn [firstOfEach]; [split; [split; [constructor|by intros i ?%elem_of_nil]|done]|].
  case_bool_decide as Hr.
  - destruct (IH seen) as [H1 H2]. split; [done|]. intros x Hx. right. by apply H2.
  - destruct (IH (artifactId r :: seen)) as [[Hnd Hin] Hsub]. cbn [map]. split; [split|].
    + apply NoDup_cons. split; [|done]. intros Hr'. apply (Hin _ Hr'). by left.
    + intros i [-> |Hi]%elem_of_cons; [done|]. intros Hs. apply (Hin i Hi). by right.
    + intros x [-> |Hx]%elem_of_cons; [by left|]. right. by apply Hsub.
Qed.

(** Collecting cards repeats no artifact and mixes no types. *)
Lemma collected_refs cards refs :
  collectArtifactCardRefs cards = Some refs →
  refs ≠ [] ∧ NoDup (map artifactId refs) ∧ (∀ r r', r ∈ refs → r' ∈ refs → shareOneArtifactType r r' = true) ∧
  ∀ r, r ∈ refs → ∃ card, card ∈ cards ∧ r ∈ cardArtifactRefs (pl_value card).
Proof.
  unfold collectArtifactCardRefs. set (all := concat _). destruct (firstOfEach [] all) as [|first rest] eqn:Hf; [done|].
  destruct (forallb _ _) eqn:Hone; [|done]. intros [= <-]. destruct (firstOfEach_spec [] all) as [[Hnd _] Hsub]. rewrite Hf in Hnd, Hsub.
  rewrite forallb_forall in Hone. split_and!; [done|done| |].
  - intros r r' Hr%list_elem_of_In Hr'%list_elem_of_In. by apply (share_trans r r' first); apply Hone.
  - intros r Hr%Hsub. unfold all in Hr. apply list_elem_of_In, in_concat in Hr as (l & (card & <- & Hc)%in_map_iff & Hr%list_elem_of_In).
    exists card. split; [|done]. apply list_elem_of_In in Hc. by apply elem_of_js_sort in Hc.
Qed.

(** A merge keeps the card's artifacts and their order, adds the dropped ones that are
    new at its end, repeats none and mixes no types; it is refused exactly when nothing
    is new or the types differ. *)
Theorem merge_appends_new_artifacts target dropped uuid :
  let old := cardArtifactRefs target in
  let added := filter (λ ref, artifactId ref ∉ map artifactId old) (cardArtifactRefs dropped) in
  Forall (λ r, isSequence r = false ∧ is_nullish r = false) (old ++ cardArtifactRefs dropped) →
  (∀ v, mergedArtifactCardValue target dropped uuid = Some v →
     cardArtifactRefs v = old ++ added ∧ refs_of_one_type (old ++ added) ∧
     (NoDup (map artifactId old) → NoDup (cardArtifactIds dropped) → NoDup (cardArtifactIds v))) ∧
  (mergedArtifactCardValue target dropped uuid = None ↔ added = [] ∨ ¬ refs_of_one_type (old ++ added)).
Proof.
  cbv zeta. intros Hplain. set (old := cardArtifactRefs target) in *. set (added := filter _ _).
  assert (Forall (λ r, isSequence r = false ∧ is_nullish r = false) (old ++ added)) as Hplain'.
  { apply Forall_app in Hplain as [H1 H2]. apply Forall_app. split; [done|]. unfold added. apply Forall_forall. intros r [_ Hr]%list_elem_of_filter.
    by eapply Forall_forall in H2. }
  assert (mergedArtifactCardValue target dropped uuid = match added with [] => None | _ => artifactCardValue (old ++ added) target false uuid end) as -> by done.
  split.
  - intros v Hv. assert (artifactCardValue (old ++ added) target false uuid = Some v) as Hv' by by destruct added.
    destruct (artifactCardValue_refs _ _ _ _ _ Hplain' Hv') as (Hrefs & Hone & _). split_and!; [done|done|]. intros Hold Hdropped.
    unfold cardArtifactIds in *. rewrite Hrefs. change (map artifactId) with (fmap (M := list) artifactId) in *. rewrite fmap_app. apply NoDup_app. split_and!; [done| |].
    + intros i Hi (r & -> & [Hr _]%list_elem_of_filter)%list_elem_of_fmap. done.
    + unfold added. clear -Hdropped. induction (cardArtifactRefs dropped) as [|r l IH]; [constructor|]. cbn in Hdropped. apply NoDup_cons in Hdropped as [Hr Hl].
      rewrite filter_cons. case_decide; [|by apply IH]. cbn. apply NoDup_cons. split; [|by apply IH].
      intros (r' & Hr' & [_ Hin]%list_elem_of_filter)%list_elem_of_fmap. apply Hr, list_elem_of_fmap. by exists r'.
  - destruct added as [|a added']; [split; [by left|done]|]. destruct (artifactCardValue (old ++ a :: added') target false uuid) as [v|] eqn:Hv.
    + destruct (artifactCardValue_refs _ _ _ _ _ Hplain' Hv) as (_ & Hone & _). split; [done|]. by intros [|Hno].
    + split; [|done]. intros _. right. intros [_ Hone]. destruct (old ++ a :: added') as [|first rest] eqn:Hl; [by destruct old|].
      unfold artifactCardValue in Hv. destruct (existsb _ _) eqn:Hmixed; [|by case_match].
      apply existsb_exists in Hmixed as (x & Hx%list_elem_of_In & Hs). rewrite (Hone x first) in Hs; [done|done|by left].
Qed.

(** Moving an artifact permutes the card's artifacts and puts it where it was asked to
    go, within the ends. *)
Lemma move_permutes refs index delta : moveArtifactCardRef refs index delta ≡ₚ refs.
Proof.
  unfold moveArtifactCardRef. case_match; [done|]. destruct (refs !! Z.to_nat index) as [r|] eqn:Hr; [|done].
  rewrite <- Permutation_middle, take_drop. symmetry. by apply delete_Permutation.
Qed.

Lemma move_places refs index delta r :
  (0 ≤ index)%Z → refs !! Z.to_nat index = Some r →
  moveArtifactCardRef refs index delta !! Z.to_nat (Z.min (Z.of_nat (length refs) - 1) (Z.max 0 (index + delta))) = Some r.
Proof.
  intros Hi Hr. unfold moveArtifactCardRef. pose proof (lookup_lt_Some _ _ _ Hr) as Hlt. set (target := Z.min _ _).
  rewrite (proj2 (Z.ltb_ge index 0)), (proj2 (Z.leb_gt _ _)) by lia. cbn [orb]. destruct (Z.eqb_spec index target) as [<-|Hne]; [done|]. rewrite Hr.
  assert (Z.to_nat target = length (take (Z.to_nat target) (delete (Z.to_nat index) refs))) as Hlen.
  { rewrite length_take, length_delete by by eexists. lia. }
  rewrite lookup_app_r by lia. replace (Z.to_nat target - _) with 0 by lia. done.
Qed.
