(* ===== verification/ArtifactDrop.v ===== *)
(** * Dropping artifacts on inputs ([model/artifact-drop.ts])

    The payload of a drag, and the Graph commands that a drop on an input means: the
    dropped artifact becomes the origin of the input, joins the sequence that is there,
    or is refused; connections that fed the input are removed.

    Parameters: the host's collation, the text of a number, [JSON.parse] and the ids that
    the source draws at random.  The drag's data is a map from its type to a text. *)

From stdpp Require Import numbers list gmap.
From S2P Require Import Prelude Js JsText JsJson GraphModel GraphCommands GraphTheory Handles Routes RoutesTheory ConfigSchema ArtifactCards Canvas Connections.

(** ** Payloads *)

Definition ARTIFACT_DROP_DATA_TYPE : string := "application/x-grafy-artifact".
Definition ARTIFACT_GROUPS_DATA_TYPE : string := "application/x-grafy-artifact-groups".
Definition ARTIFACT_FOLDER_DATA_TYPE : string := "application/x-grafy-artifact-folder".

Record ArtifactDropPayload := { dp_value : jsval; dp_shape : PortShape }.

Record ArtifactDropTarget := { dt_nodeId : string; dt_portName : string; dt_plugId : option string }.

Record ArtifactDropResolution := { dr_conversionPath : list GraphConversion; dr_collectionMode : CollectionMode }.

Record ArtifactDropGraphState := {
  ds_edges : list WorkflowEdge;
  ds_origins : list GraphOrigin;
  ds_conversions : list ArtifactConversionSpec
}.

(** [DataTransfer]: [types] are the keys, [getData] of another type is empty. *)
Notation DataTransfer := (gmap string string).
Definition getData (type : string) (d : DataTransfer) : string := default "" (d !! type).

Definition artifactDropPayload (value : jsval) : ArtifactDropPayload :=
  {| dp_value := value; dp_shape := if isSequence value then many else one |}.

(** The payload as [JSON.stringify] sees it. *)
Definition payloadValue (p : ArtifactDropPayload) : jsval := JObj [("value", dp_value p); ("shape", JStr (shapeText (dp_shape p)))].

Definition parseArtifactDropPayload (parsed : jsval) : option ArtifactDropPayload :=
  if negb (is_object parsed) then None
  else if negb (js_in "value" parsed) || negb (js_in "shape" parsed) then None
  else
    let value := js_get "value" parsed in
    if negb (is_object value) then None
    else
      match js_get "shape" parsed with
      | JStr s =>
          if bool_decide (s = "many") then (if isSequence value then Some {| dp_value := value; dp_shape := many |} else None)
          else if bool_decide (s = "one") then (if isSequence value then None else Some {| dp_value := value; dp_shape := one |})
          else None
      | _ => None
      end.

Section transfer.
Context (numberText : jsnum → string) (JSON_parse : string → res jsval).

Definition writeArtifactDrop (value : jsval) (d : DataTransfer) : DataTransfer :=
  <[ARTIFACT_DROP_DATA_TYPE := text numberText (payloadValue (artifactDropPayload value))]> d.

Definition isArtifactDrop (d : DataTransfer) : bool :=
  bool_decide (is_Some (d !! ARTIFACT_DROP_DATA_TYPE)) || bool_decide (is_Some (d !! ARTIFACT_GROUPS_DATA_TYPE)).

Definition readArtifactDropPayload (raw : string) : option ArtifactDropPayload :=
  if bool_decide (raw = "") then None
  else match JSON_parse raw with Ok parsed => parseArtifactDropPayload parsed | Throw _ => None end.

Definition readArtifactDrop (d : DataTransfer) : option ArtifactDropPayload := readArtifactDropPayload (getData ARTIFACT_DROP_DATA_TYPE d).

(** The groups of a grouped drag that can be read. *)
Definition readGroups (raw : string) : list ArtifactDropPayload :=
  if bool_decide (raw = "") then []
  else match JSON_parse raw with Ok (JArr entries) => omap parseArtifactDropPayload entries | _ => [] end.

Definition readArtifactDropGroups (d : DataTransfer) : list ArtifactDropPayload :=
  match readGroups (getData ARTIFACT_GROUPS_DATA_TYPE d) with
  | [] => option_list (readArtifactDrop d)
  | groups => groups
  end.

Definition writeArtifactDropGroups (payloads : list ArtifactDropPayload) (d : DataTransfer) : DataTransfer :=
  match payloads with
  | [] => d
  | first :: rest =>
      let d := <[ARTIFACT_DROP_DATA_TYPE := text numberText (payloadValue first)]> d in
      match rest with
      | [] => d
      | _ => <[ARTIFACT_GROUPS_DATA_TYPE := text numberText (JArr (map payloadValue payloads))]> d
      end
  end.

Definition writeArtifactDropFolder (folderName : string) (d : DataTransfer) : DataTransfer := <[ARTIFACT_FOLDER_DATA_TYPE := folderName]> d.

Definition readArtifactDropFolder (d : DataTransfer) : option string := d !! ARTIFACT_FOLDER_DATA_TYPE.
End transfer.

(** ** What a drop means *)

Section drop.
Context (localeCompare : string → string → Z).

(** A value that names no type, which the contract excludes, has none. *)
Definition artifactTypeForValue (value : jsval) : option ArtifactTypeIdentity :=
  match js_get "artifact_type" value, js_get "schema_version" value with
  | JStr i, JNum n => v ← num_integer n; Some {| ty_id := i; ty_schema_version := v |}
  | _, _ => None
  end.

Definition originCollectionModes (port : Port) (shape : PortShape) : list CollectionMode :=
  let accepted := acceptedPortShapes port in
  (if bool_decide (shape ∈ accepted) || (bool_decide (shape = one) && bool_decide (many ∈ accepted)) then [MDirect] else []) ++
  (if bool_decide (shape = many) && negb (port_variadic port) && negb (portHasInstancePlugs port) &&
      (bool_decide (port_shape port = many) || negb (bool_decide (many ∈ accepted)))
   then [MMap] else []).

Definition dropCollectionMode (port : Port) (shape : PortShape) : option CollectionMode := head (originCollectionModes port shape).

Definition acceptedTypes (port : Port) (bindings : list (string * ArtifactTypeIdentity)) : list ArtifactTypeIdentity :=
  option_list (resolvedPortArtifactType port bindings) ++ port_also_accepts port.

Definition resolveArtifactDrop (payload : ArtifactDropPayload) (port : Port) (bindings : list (string * ArtifactTypeIdentity))
    (conversions : list ArtifactConversionSpec) : option ArtifactDropResolution :=
  if negb (bool_decide (port_direction port = input)) then None
  else
    collectionMode ← dropCollectionMode port (dp_shape payload);
    source ← artifactTypeForValue (dp_value payload);
    let accepted := acceptedTypes port bindings in
    if is_nil accepted then None
    else if existsb (λ candidate, bool_decide (artifactTypeKey candidate = artifactTypeKey source)) accepted
    then Some {| dr_conversionPath := []; dr_collectionMode := collectionMode |}
    else
      match shortestConversionPathsToAny localeCompare source accepted conversions with
      | Some [path] =>
          Some {| dr_conversionPath := map (λ c, {| conv_id := ck_id (cv_key c); conv_version := num (ck_version (cv_key c)) |}) path;
                  dr_collectionMode := collectionMode |}
      | _ => None
      end.

Definition portAcceptsOnlySequences (port : Port) : bool :=
  bool_decide (many ∈ acceptedPortShapes port) && negb (bool_decide (one ∈ acceptedPortShapes port)).

(** ["artifact_id" in value] *)
Definition isReference (value : jsval) : bool := js_in "artifact_id" value.

Definition sequenceOfOne (dropped : jsval) (uuid : string) : jsval :=
  if isReference dropped then default dropped (artifactCardValue [dropped] JNull true uuid) else dropped.

(** The sequence with one more artifact; a truthy [metadata] is kept. *)
Definition extendSequence (prior dropped : jsval) (uuid : string) : jsval :=
  JObj ([("artifact_type", js_get "artifact_type" prior); ("schema_version", js_get "schema_version" prior);
         ("item_refs", JArr (itemRefs prior ++ [dropped])); ("ordered", js_get "ordered" prior); ("index_key", js_get "index_key" prior);
         ("sequence_id", coalesce (js_get "sequence_id" prior) (JStr uuid))] ++
        (if is_object (js_get "metadata" prior) then [("metadata", js_get "metadata" prior)] else [])).

Definition collectedOriginValue (payload : ArtifactDropPayload) (port : Port) (existing : option GraphOrigin) (conversionPath : list GraphConversion)
    (uuid : string) : jsval :=
  let dropped := dp_value payload in
  let placed := if portAcceptsOnlySequences port then sequenceOfOne dropped uuid else dropped in
  if bool_decide (dp_shape payload = many) || negb (bool_decide (many ∈ acceptedPortShapes port)) then dropped
  else if negb (is_nil conversionPath) then placed
  else
    match o_value <$> existing with
    | Some prior =>
        if negb (isReference dropped) || is_nullish prior || negb (shareOneArtifactType prior dropped) then placed
        else if isSequence prior then extendSequence prior dropped uuid
        else sequenceValue (js_get "artifact_type" dropped) (js_get "schema_version" dropped) [prior; dropped] (JStr uuid)
    | None => placed
    end.

(** The origin is at the input. *)
Definition originAt (target : ArtifactDropTarget) (o : GraphOrigin) : bool :=
  bool_decide (o_to_node o = dt_nodeId target) && bool_decide (o_to_port o = dt_portName target) &&
  bool_decide (jsopt_to_option (o_to_plug o) = dt_plugId target).

(** The connection feeds the input. *)
Definition edgeFeeds (target : ArtifactDropTarget) (e : WorkflowEdge) : bool :=
  negb (bool_decide (we_enabled e = Some false)) && bool_decide (we_target e = dt_nodeId target) &&
  bool_decide (edgePort e = Some (dt_portName target)) && bool_decide (edgePlug e = dt_plugId target).

Definition plugOf (plug : option string) : jsopt string := match plug with Some p => Val p | None => Null end.

Definition artifactDropCommands (payload : ArtifactDropPayload) (target : ArtifactDropTarget) (port : Port)
    (bindings : list (string * ArtifactTypeIdentity)) (state : ArtifactDropGraphState) (uuid originUuid : string) : option (list GraphCommand) :=
  resolution ← resolveArtifactDrop payload port bindings (ds_conversions state);
  let existing := find (originAt target) (ds_origins state) in
  let value := collectedOriginValue payload port existing (dr_conversionPath resolution) uuid in
  let collectionMode :=
    if bool_decide (dr_collectionMode resolution = MMap) ||
       (bool_decide (o_collection_mode <$> existing = Some MMap) && bool_decide (dp_shape payload = many))
    then MMap else MDirect in
  let enabledEdgeIds := ids (filter (λ e, edgeFeeds target e = true) (ds_edges state)) in
  let removal := if is_nil enabledEdgeIds then [] else [remove_edges enabledEdgeIds] in
  Some (removal ++
    match existing with
    | Some o =>
        [update_origin (o_id o)
           {| uo_to_node := None; uo_to_port := None; uo_to_plug := None; uo_value := Some value; uo_collection_mode := Some collectionMode;
              uo_conversion_path := Some (Val (dr_conversionPath resolution)) |}]
    | None =>
        [add_origin {| o_conversion_path := dr_conversionPath resolution; o_id := "origin-" +:+ originUuid; o_to_node := dt_nodeId target;
                       o_to_plug := plugOf (dt_plugId target); o_to_port := dt_portName target; o_value := value;
                       o_collection_mode := collectionMode |}]
    end).

(** ** The value of a drop *)

(** A value that an origin can hold: an artifact, or a sequence of artifacts. *)
Definition reference (v : jsval) : Prop := isReference v = true ∧ isSequence v = false ∧ is_nullish v = false.

Definition wf_payload (p : ArtifactDropPayload) : Prop :=
  match dp_shape p with one => reference (dp_value p) | many => isSequence (dp_value p) = true end.

(** The dropped artifact joins what is there. *)
Definition joins (payload : ArtifactDropPayload) (port : Port) (existing : option GraphOrigin) (conversionPath : list GraphConversion) : bool :=
  bool_decide (dp_shape payload = one) && bool_decide (many ∈ acceptedPortShapes port) && is_nil conversionPath &&
  match existing with Some o => negb (is_nullish (o_value o)) && shareOneArtifactType (o_value o) (dp_value payload) | None => false end.

Lemma sequenceOfOne_reference v uuid : reference v → isSequence (sequenceOfOne v uuid) = true ∧ cardArtifactRefs (sequenceOfOne v uuid) = [v].
Proof.
  intros (Hr & Hs & Hn). unfold sequenceOfOne. rewrite Hr. cbn [artifactCardValue existsb is_nil]. rewrite share_refl. done.
Qed.

Lemma reference_refs v : reference v → cardArtifactRefs v = [v].
Proof. intros (_ & Hs & Hn). unfold cardArtifactRefs. by rewrite Hn, Hs. Qed.

Lemma extend_refs prior v uuid : cardArtifactRefs (extendSequence prior v uuid) = itemRefs prior ++ [v].
Proof. unfold extendSequence, cardArtifactRefs, isSequence, itemRefs. destruct (is_object (js_get "metadata" prior)); done. Qed.

Lemma collected_value payload port existing path uuid :
  wf_payload payload →
  let v := collectedOriginValue payload port existing path uuid in
  cardArtifactRefs v = (if joins payload port existing path then match existing with Some o => cardArtifactRefs (o_value o) | None => [] end else []) ++
                       cardArtifactRefs (dp_value payload) ∧
  (isSequence v = true → dp_shape payload = many ∨ many ∈ acceptedPortShapes port) ∧
  (isSequence v = false → dp_shape payload = one ∧ (one ∈ acceptedPortShapes port ∨ many ∉ acceptedPortShapes port)).
Proof.
  intros Hwf. cbv zeta. unfold collectedOriginValue, joins, wf_payload in *. destruct (dp_shape payload) eqn:Hshape; cbn [bool_decide decide decide_rel].
  2: { rewrite (bool_decide_true (many = many)) by done. cbn. rewrite Hwf. split_and!; [done|by left|done]. }
  rewrite (bool_decide_false (one = many)), (bool_decide_true (one = one)) by done. cbn [orb].
  pose proof Hwf as (Href & Hseq & _). destruct (bool_decide (many ∈ acceptedPortShapes port)) eqn:Hmany; cbn [negb andb].
  2: { rewrite Hseq. apply bool_decide_eq_false in Hmany. split_and!; [done|done|]. intros _. split; [done|by right]. }
  apply bool_decide_eq_true in Hmany.
  set (placed := if portAcceptsOnlySequences port then sequenceOfOne (dp_value payload) uuid else dp_value payload).
  assert (cardArtifactRefs placed = cardArtifactRefs (dp_value payload) ∧ (isSequence placed = false → one ∈ acceptedPortShapes port)) as [Hp1 Hp2].
  { unfold placed, portAcceptsOnlySequences. rewrite bool_decide_true by done. destruct (sequenceOfOne_reference _ uuid Hwf) as [Hs Hr].
    case_bool_decide; cbn [andb negb]; [by split|]. rewrite Hr, (reference_refs _ Hwf). split; [done|]. by rewrite Hs. }
  destruct (is_nil path); cbn [negb andb].
  2: { split_and!; [done|by right|]. intros H. split; [done|left; by apply Hp2]. }
  destruct existing as [o|]; cbn [fmap option_fmap option_map].
  2: { split_and!; [done|by right|]. intros H. split; [done|left; by apply Hp2]. }
  rewrite Href. cbn [negb orb]. destruct (is_nullish (o_value o)) eqn:Hnull; cbn [negb orb andb].
  { split_and!; [done|by right|]. intros H. split; [done|left; by apply Hp2]. }
  destruct (shareOneArtifactType (o_value o) (dp_value payload)); cbn [negb].
  2: { split_and!; [done|by right|]. intros H. split; [done|left; by apply Hp2]. }
  rewrite (reference_refs _ Hwf). destruct (isSequence (o_value o)) eqn:Hos.
  - rewrite extend_refs. split_and!; [|by right|].
    + unfold cardArtifactRefs at 1. by rewrite Hnull, Hos.
    + unfold extendSequence, isSequence. by destruct (is_object (js_get "metadata" (o_value o))).
  - rewrite sequence_refs. split_and!; [|by right|done]. unfold cardArtifactRefs. by rewrite Hnull, Hos.
Qed.

(** ** The commands of a drop *)

(** The canvas shows the document's connections and origins. *)
Record shows (state : ArtifactDropGraphState) (d : AuthoredGraphDocument) : Prop := {
  sh_origins : ds_origins state = origins d;
  sh_edges : ∀ e, e ∈ edges d → ∃ w, w ∈ ds_edges state ∧ we_id w = e_id e;
  sh_same : ∀ e w, e ∈ edges d → w ∈ ds_edges state → we_id w = e_id e →
    we_target w = e_to_node e ∧ edgePort w = Some (e_to_port e) ∧ edgePlug w = jsopt_to_option (e_to_plug e) ∧ we_enabled w = Some (e_enabled e)
}.

Definition feeds (target : ArtifactDropTarget) (e : GraphEdge) : Prop :=
  e_enabled e = true ∧ e_to_node e = dt_nodeId target ∧ e_to_port e = dt_portName target ∧ jsopt_to_option (e_to_plug e) = dt_plugId target.

Lemma feeding_ids state d target e :
  shows state d → e ∈ edges d →
  e_id e ∈ ids (filter (λ e, edgeFeeds target e = true) (ds_edges state)) ↔ feeds target e.
Proof.
  intros [_ Hedges Hsame] He. assert (∀ w, w ∈ ds_edges state → we_id w = e_id e → edgeFeeds target w = true ↔ feeds target e) as Hw.
  { intros w Hw Hid. destruct (Hsame e w He Hw Hid) as (H1 & H2 & H3 & H4). unfold edgeFeeds, feeds. rewrite H1, H2, H3, H4.
    rewrite !andb_true_iff, negb_true_iff, bool_decide_eq_false, !bool_decide_eq_true. destruct (e_enabled e); intuition congruence. }
  unfold ids. rewrite list_elem_of_fmap. split.
  - intros (w & Hid & [Hf Hin]%list_elem_of_filter). by apply (Hw w).
  - intros Hf. destruct (Hedges e He) as (w & Hin & Hid). exists w. split; [done|]. apply list_elem_of_filter. split; [by apply (Hw w)|done].
Qed.

Lemma removal_applied state d target rest :
  shows state d →
  let fed := ids (filter (λ e, edgeFeeds target e = true) (ds_edges state)) in
  res_fold applyGraphCommandNormalized d ((if is_nil fed then [] else [remove_edges fed]) ++ rest) =
  res_fold applyGraphCommandNormalized (with_edges (remove_ids fed (edges d)) d) rest.
Proof.
  intros Hs fed. destruct fed as [|i fed'] eqn:Hfed; [|done]. cbn. f_equal. unfold remove_ids.
  assert (filter (λ a : GraphEdge, ident a ∉ []) (edges d) = edges d) as ->; [|by destruct d].
  induction (edges d) as [|e l IH]; [done|]. rewrite filter_cons_True by apply not_elem_of_nil. by rewrite IH.
Qed.

Lemma resolved_mode payload port bindings conversions r :
  resolveArtifactDrop payload port bindings conversions = Some r → dropCollectionMode port (dp_shape payload) = Some (dr_collectionMode r).
Proof.
  unfold resolveArtifactDrop. case_match eqn:Hdir; [done|]. intros (m & Hm & (t & _ & H)%bind_Some)%bind_Some. rewrite Hm. cbv zeta in H.
  repeat case_match; try done; by injection H as <-.
Qed.

(** The default mode of a shape: a sequence is mapped exactly when the port does not take one. *)
Lemma dropCollectionMode_spec port shape m :
  dropCollectionMode port shape = Some m →
  match m with
  | MDirect => shape ∈ acceptedPortShapes port ∨ (shape = one ∧ many ∈ acceptedPortShapes port)
  | MMap => shape = many ∧ many ∉ acceptedPortShapes port ∧ port_variadic port = false ∧ portHasInstancePlugs port = false
  end.
Proof.
  unfold dropCollectionMode, originCollectionModes. destruct (bool_decide (shape ∈ _) || _) eqn:Hd; cbn [app head].
  - intros [= <-]. rewrite orb_true_iff, andb_true_iff, !bool_decide_eq_true in Hd. done.
  - case_match eqn:Hm; [|done]. intros [= <-]. rewrite !andb_true_iff, !negb_true_iff, bool_decide_eq_true in Hm. destruct Hm as [[[-> ?] ?] _].
    apply orb_false_iff in Hd as [Hd%bool_decide_eq_false _]. done.
Qed.

(** The origin holds [value] in [mode], as the port takes it: a single artifact goes directly to
    a port that takes one; a sequence goes directly to a port that takes many, or is mapped.
    It is mapped when a sequence is dropped and the port takes none (a port that is neither
    variadic nor made of plugs), or the origin that it replaces was mapped; never otherwise. *)
Record fits (payload : ArtifactDropPayload) (port : Port) (prior : option GraphOrigin) (value : jsval) (mode : CollectionMode) : Prop := {
  ft_single : isSequence value = false → one ∈ acceptedPortShapes port ∧ mode = MDirect;
  ft_sequence : isSequence value = true → mode = MDirect → many ∈ acceptedPortShapes port;
  ft_mapped : mode = MMap ↔ dp_shape payload = many ∧ (many ∉ acceptedPortShapes port ∨ o_collection_mode <$> prior = Some MMap);
  ft_mappable : mode = MMap → many ∉ acceptedPortShapes port → port_variadic port = false ∧ portHasInstancePlugs port = false
}.

Lemma collected_fits payload port bindings conversions r existing uuid :
  wf_payload payload → resolveArtifactDrop payload port bindings conversions = Some r →
  fits payload port existing (collectedOriginValue payload port existing (dr_conversionPath r) uuid)
    (if bool_decide (dr_collectionMode r = MMap) ||
        (bool_decide (o_collection_mode <$> existing = Some MMap) && bool_decide (dp_shape payload = many)) then MMap else MDirect).
Proof.
  intros Hwf Hm%resolved_mode%dropCollectionMode_spec. destruct (collected_value payload port existing (dr_conversionPath r) uuid Hwf) as (_ & Hs & Ho).
  destruct (dr_collectionMode r).
  - rewrite (bool_decide_false (MDirect = MMap)) by done. cbn [orb]. destruct (dp_shape payload) eqn:Hshape.
    + rewrite (bool_decide_false (one = many)), andb_false_r by done. split; [|by intros [?|?]%Hs|split; [done|intros [? _]; congruence]|done].
      intros [_ [?|?]]%Ho; (split; [|done]); [done|]. by destruct Hm as [?|[_ ?]].
    + assert (many ∈ acceptedPortShapes port) as Hmany by by destruct Hm as [?|[? _]].
      rewrite (bool_decide_true (many = many)), andb_true_r by done. split; [by intros [? _]%Ho|done| |done].
      case_bool_decide as Hx; [split; [intros _; split; [done|by right]|done]|split; [done|by intros [_ [?|?]]]].
  - rewrite (bool_decide_true (MMap = MMap)) by done. destruct Hm as (Hshape & Hmany & Hv & Hp). cbn [orb].
    split; [intros [? _]%Ho; congruence|done|split; [intros _; split; [done|by left]|done]|done].
Qed.

Lemma find_originAt target l o : find (originAt target) l = Some o → o ∈ l ∧ originAt target o = true.
Proof. intros [H1%list_elem_of_In H2]%find_some. done. Qed.

(** C33: a drop that is not refused fills its input with one origin: the commands apply, no
    enabled connection feeds the input any more, and the one origin there holds the artifacts it
    held before, when the dropped one joins them, and then the dropped ones, with the conversions
    that were found.  A single artifact is stored directly, on a port that takes one; a
    sequence is stored directly where the port takes many; the origin is mapped exactly when a
    sequence is dropped and the port takes none (and has one connection) or the origin it
    replaces was mapped.  Nothing else in the Graph changes.  Assumed: the canvas shows the
    document; its origins have different ids, at most one of them is at the input, and the id
    drawn for a new one is not taken; an artifact or a sequence is what is dropped. *)
Theorem drop_fills_one_input payload target port bindings state uuid originUuid d cmds :
  shows state d → NoDup (ids (origins d)) →
  (∀ o o', o ∈ origins d → o' ∈ origins d → originAt target o = true → originAt target o' = true → o = o') →
  "origin-" +:+ originUuid ∉ ids (origins d) → wf_payload payload →
  artifactDropCommands payload target port bindings state uuid originUuid = Some cmds →
  ∃ d' o r,
    resolveArtifactDrop payload port bindings (ds_conversions state) = Some r ∧
    res_fold applyGraphCommandNormalized d cmds = Ok d' ∧
    (∀ x, x ∈ origins d' ∧ originAt target x = true ↔ x = o) ∧
    cardArtifactRefs (o_value o) =
      (match find (originAt target) (origins d) with
       | Some prior => if joins payload port (Some prior) (dr_conversionPath r) then cardArtifactRefs (o_value prior) else []
       | None => []
       end) ++ cardArtifactRefs (dp_value payload) ∧
    o_conversion_path o = dr_conversionPath r ∧ fits payload port (find (originAt target) (origins d)) (o_value o) (o_collection_mode o) ∧
    (∀ e, e ∈ edges d' ↔ e ∈ edges d ∧ ¬ feeds target e) ∧
    (∀ x, originAt target x = false → x ∈ origins d' ↔ x ∈ origins d) ∧
    nodes d' = nodes d.
Proof.
  intros Hs Hnd Honly Hfresh Hwf. unfold artifactDropCommands. intros (r & Hr & [= <-])%bind_Some. rewrite (sh_origins _ _ Hs).
  set (fed := ids _). set (existing := find (originAt target) (origins d)). set (d1 := with_edges (remove_ids fed (edges d)) d).
  assert (∀ e, e ∈ edges d1 ↔ e ∈ edges d ∧ ¬ feeds target e) as Hedges.
  { intros e. cbn. rewrite elem_of_remove_ids. split; intros [He Hf]; (split; [done|]); [by rewrite <- (feeding_ids state d target e Hs He)|].
    by rewrite <- (feeding_ids state d target e Hs He) in Hf. }
  destruct (collected_value payload port existing (dr_conversionPath r) uuid Hwf) as (Hrefs & _ & _).
  pose proof (collected_fits payload port bindings (ds_conversions state) r existing uuid Hwf Hr) as Hfits.
  set (value := collectedOriginValue _ _ _ _ _) in *. set (mode := if _ : bool then MMap else MDirect) in *.
  destruct existing as [prior|] eqn:Hprior.
  - destruct (find_originAt _ _ _ Hprior) as [Hin Hat].
    set (o := {| o_conversion_path := dr_conversionPath r; o_id := o_id prior; o_to_node := o_to_node prior; o_to_plug := o_to_plug prior;
                 o_to_port := o_to_port prior; o_value := value; o_collection_mode := mode |}).
    set (u := {| uo_to_node := None |}). assert (find_id (o_id prior) (origins d) = Some prior) as Hfind by by apply find_id_NoDup.
    assert (spreadOriginUpdate prior (projectSavedGraphOriginUpdate u) = o) as Hspread.
    { unfold spreadOriginUpdate, o, u. cbn. f_equal; [apply projectConversion_id|]. by destruct (is_nullish value). }
    exists (with_origins (map_id (o_id prior) (λ x, spreadOriginUpdate x (projectSavedGraphOriginUpdate u)) (origins d)) d1), o, r.
    assert (∀ x, x ∈ map_id (o_id prior) (λ x, spreadOriginUpdate x (projectSavedGraphOriginUpdate u)) (origins d) ↔ (x ∈ origins d ∧ x ≠ prior) ∨ x = o) as Hmem.
    { intros x. rewrite elem_of_map_id. split.
      - intros [[Hx Hne]|(b & Hb & Hid & ->)]; [left; split; [done|by intros ->]|]. right. rewrite <- Hspread. f_equal.
        pose proof (find_id_NoDup b (origins d) Hnd Hb) as Hb'. rewrite Hid in Hb'. congruence.
      - intros [[Hx Hne]| ->]; [left|right; by exists prior]. split; [done|]. intros Hid. apply Hne.
        pose proof (find_id_NoDup x (origins d) Hnd Hx) as Hx'. rewrite Hid in Hx'. congruence. }
    split_and!; [done| | |exact Hrefs|done|exact Hfits|exact Hedges| |done].
    + rewrite (removal_applied state d target _ Hs). fold fed d1. cbn [res_fold applyGraphCommandNormalized].
      unfold applyUpdateOrigin, originOrThrow. change (origins d1) with (origins d). by rewrite Hfind.
    + intros x. cbn [origins with_origins]. rewrite Hmem. split; [|by intros ->; split; [right|]]. intros [[[Hx Hne]|?] Hxat]; [|done]. destruct Hne. by apply Honly.
    + intros x Hx. cbn [origins with_origins]. rewrite Hmem. assert (originAt target o = true) as Hato by exact Hat. split; [intros [[? _]| ->]; [done|congruence]|]. intros Hxin. left. split; [done|].
      intros ->. by rewrite Hat in Hx.
  - assert (∀ x, x ∈ origins d → originAt target x = false) as Hnone.
    { intros x Hx%list_elem_of_In. by apply (find_none _ _ Hprior). }
    match goal with |- context [add_origin ?x] => set (o := projectSavedGraphOrigin x) end. exists (with_origins (origins d ++ [o]) d1), o, r.
    assert (originAt target o = true) as Hat.
    { unfold o, originAt. cbn. rewrite !bool_decide_true by (try done; by destruct (dt_plugId target)). done. }
    split_and!; [done| | |etrans; [exact Hrefs|by destruct (joins _ _ _ _)]|cbn; apply projectConversion_id|exact Hfits|exact Hedges| |done].
    + rewrite (removal_applied state d target _ Hs). fold fed d1. cbn [res_fold applyGraphCommandNormalized o_id].
      change (origins d1) with (origins d). by rewrite (proj2 (some_id_false _ _) Hfresh).
    + intros x. cbn [origins with_origins]. rewrite elem_of_app, list_elem_of_singleton. split; [|by intros ->; split; [right|]].
      intros [[Hx|?] Hxat]; [|done]. by rewrite Hnone in Hxat.
    + intros x Hx. cbn [origins with_origins]. rewrite elem_of_app, list_elem_of_singleton. split; [intros [?| ->]; [done|congruence]|by left].
Qed.
End drop.

(** ** Round trip of a drag *)

Definition readable (p : ArtifactDropPayload) : Prop :=
  is_object (dp_value p) = true ∧ isSequence (dp_value p) = bool_decide (dp_shape p = many).

Lemma parse_payload p : readable p → parseArtifactDropPayload (payloadValue p) = Some p.
Proof.
  destruct p as [v shape]. intros [Ho Hs]. unfold parseArtifactDropPayload, payloadValue. cbn [dp_value dp_shape] in *.
  change (js_get "value" _) with v. change (js_get "shape" _) with (JStr (shapeText shape)). rewrite Ho, Hs. by destruct shape.
Qed.

(** The payloads of a drag, one or several, are read back as they were written and in
    their order, where [JSON.parse] reads back what [JSON.stringify] wrote. *)
Theorem dragged_payloads_are_read_back numberText JSON_parse payloads d :
  payloads ≠ [] → Forall readable payloads → getData ARTIFACT_GROUPS_DATA_TYPE d = "" →
  (∀ v, v = JArr (map payloadValue payloads) ∨ v ∈ map payloadValue payloads → JSON_parse (text numberText v) = Ok v) →
  readArtifactDropGroups JSON_parse (writeArtifactDropGroups numberText payloads d) = payloads ∧
  isArtifactDrop (writeArtifactDropGroups numberText payloads d) = true.
Proof.
  intros Hne Hok Hd Hparse. destruct payloads as [|first rest]; [done|]. clear Hne. inversion Hok as [|? ? Hfirst Hrest]; subst.
  unfold readArtifactDropGroups, writeArtifactDropGroups, isArtifactDrop, readArtifactDrop, readArtifactDropPayload. destruct rest as [|second rest].
  - unfold getData in *. rewrite lookup_insert_eq, lookup_insert_ne by done. rewrite Hd. split; [|by rewrite bool_decide_true].
    unfold readGroups. rewrite bool_decide_true by done. cbn [default id]. rewrite bool_decide_false by done.
    rewrite Hparse by (right; by left). by rewrite parse_payload.
  - set (all := first :: second :: rest) in *. unfold getData. rewrite lookup_insert_eq. split; [|by rewrite orb_comm, bool_decide_true].
    cbn [default id]. unfold readGroups. rewrite bool_decide_false by done. rewrite Hparse by by left.
    assert (omap parseArtifactDropPayload (map payloadValue all) = all) as ->; [|done].
    clear -Hok. induction Hok as [|p l Hp _ IH]; [done|]. cbn [map omap list_omap]. rewrite parse_payload by done. by rewrite IH.
Qed.

(** ** Witnesses *)

Definition drop_ref (i : string) : jsval :=
  JObj [("artifact_id", JStr i); ("artifact_type", JStr "image"); ("schema_version", JNum (num 1))].

Definition drop_payload (i : string) : ArtifactDropPayload := {| dp_value := drop_ref i; dp_shape := one |}.

Definition drop_port : Port :=
  {| port_name := "images"; port_title := None; port_direction := input; port_shape := many; port_accepted_shapes := [];
     port_variadic := false; port_required := true; port_instance_plugs := false; port_shape_field := None;
     port_artifact_type := Some {| ty_id := "image"; ty_schema_version := 1 |}; port_artifact_type_variable := None; port_also_accepts := [] |}.

Definition drop_target : ArtifactDropTarget := {| dt_nodeId := "n1"; dt_portName := "images"; dt_plugId := None |}.

Definition drop_origin (value : jsval) (mode : CollectionMode) : GraphOrigin :=
  {| o_conversion_path := []; o_id := "origin-1"; o_to_node := "n1"; o_to_plug := Null; o_to_port := "images"; o_value := value;
     o_collection_mode := mode |}.

Definition drop_document (os : list GraphOrigin) : AuthoredGraphDocument := {| name := "g"; nodes := []; edges := []; origins := os; agents := [] |}.
Definition drop_state (os : list GraphOrigin) : ArtifactDropGraphState := {| ds_edges := []; ds_origins := os; ds_conversions := [] |}.

Lemma drop_fills_one_input_witness :
  ∃ d' o, res_fold applyGraphCommandNormalized (drop_document [drop_origin (drop_ref "a") MDirect])
            (default [] (artifactDropCommands (λ _ _, 0%Z) (drop_payload "b") drop_target drop_port []
                           (drop_state [drop_origin (drop_ref "a") MDirect]) "s" "u")) = Ok d' ∧
  o ∈ origins d' ∧ cardArtifactRefs (o_value o) = [drop_ref "a"; drop_ref "b"] ∧ o_collection_mode o = MDirect.
Proof.
  set (os := [drop_origin (drop_ref "a") MDirect]).
  destruct (artifactDropCommands (λ _ _, 0%Z) (drop_payload "b") drop_target drop_port [] (drop_state os) "s" "u") as [cmds|] eqn:Hc; [|by vm_compute in Hc].
  destruct (drop_fills_one_input (λ _ _, 0%Z) (drop_payload "b") drop_target drop_port [] (drop_state os) "s" "u" (drop_document os) cmds)
    as (d' & o & r & Hr & Hd & Ho & Hrefs & _ & Hfits & _).
  - by split; [|intros e ?%elem_of_nil|intros e w ?%elem_of_nil].
  - apply NoDup_singleton.
  - intros x y Hx%list_elem_of_singleton Hy%list_elem_of_singleton. congruence.
  - by_decide.
  - by split_and!.
  - done.
  - exists d', o. split_and!; [done|by apply Ho| |].
    + vm_compute in Hr. injection Hr as <-. exact Hrefs.
    + destruct (o_collection_mode o) eqn:Hm; [done|]. by destruct (proj1 (ft_mapped _ _ _ _ _ Hfits) eq_refl).
Defined.

Definition drop_table : list (string * jsval) :=
  (λ v, (text fractionText v, v)) <$> [payloadValue (drop_payload "a"); payloadValue (drop_payload "b"); JArr [payloadValue (drop_payload "a"); payloadValue (drop_payload "b")]].

Definition drop_parse (s : string) : res jsval :=
  match find (λ kv, bool_decide (kv.1 = s)) drop_table with Some kv => Ok kv.2 | None => Throw "" end.

Lemma dragged_payloads_are_read_back_witness :
  readArtifactDropGroups drop_parse (writeArtifactDropGroups fractionText [drop_payload "a"; drop_payload "b"] ∅) = [drop_payload "a"; drop_payload "b"].
Proof.
  refine (proj1 (dragged_payloads_are_read_back fractionText drop_parse [drop_payload "a"; drop_payload "b"] ∅ _ _ _ _)).
  - done.
  - repeat constructor.
  - done.
  - intros v [-> |Hv]; [by vm_compute|]. repeat (apply elem_of_cons in Hv as [-> |Hv]; [by vm_compute|]). by apply elem_of_nil in Hv.
Defined.

(** An artifact dropped on a mapped sequence joins the sequence and ends the mapping. *)
Lemma joining_a_mapped_sequence_unmaps_it :
  let mapped := drop_origin (sequenceValue (JStr "image") (JNum (num 1)) [drop_ref "a"] (JStr "s")) MMap in
  (λ r, match r with Ok d => (λ o, (length (cardArtifactRefs (o_value o)), o_collection_mode o)) <$> origins d | Throw _ => [] end)
    (res_fold applyGraphCommandNormalized (drop_document [mapped])
       (default [] (artifactDropCommands (λ _ _, 0%Z) (drop_payload "b") drop_target drop_port [] (drop_state [mapped]) "s" "u"))) = [(2, MDirect)].
Proof. vm_compute. reflexivity. Qed.
