(* ===== verification/LibraryDrag.v ===== *)
(** * Drags from the Library ([ui/side-panel/library-drag.ts])

    What a drag from the Library carries, for the canvas and for the Library's own folders, and
    what the Library reads when something is dropped on it.  [JSON.parse], the text of a number and
    the ids of new sequences are arguments; the files of a drag from the desktop are their names. *)

From stdpp Require Import numbers list gmap strings.
From S2P Require Import Prelude Js JsNum JsText JsJson GraphModel Handles Routes RoutesTheory Canvas ConfigSchema ExecutionPlan Connections ArtifactCards ArtifactDrop LibraryTree.
#[local] Open Scope nat_scope.

Definition LIBRARY_FOLDER_DATA_TYPE : string := "application/x-grafy-library-folder".
Definition LIBRARY_MOVE_DATA_TYPE : string := "application/x-grafy-library-move".

Inductive LibraryDragKind := drag_upload | drag_artifact | drag_folder.

Inductive LibraryDrop :=
| drop_upload (files : list string)
| drop_artifacts (artifactIds : list string)
| drop_folder (folderId : string).

Definition libraryDragKind (d : DataTransfer) : option LibraryDragKind :=
  let carries type := bool_decide (is_Some (d !! type)) in
  if carries "Files" then Some drag_upload
  else if carries LIBRARY_FOLDER_DATA_TYPE then Some drag_folder
  else if carries ARTIFACT_DROP_DATA_TYPE || carries LIBRARY_MOVE_DATA_TYPE then Some drag_artifact
  else None.

Definition dropEffectFor (kind : LibraryDragKind) : string := match kind with drag_upload => "copy" | _ => "move" end.

(** ** Groups *)

Definition itemRef (item : PlacedLibraryItem) : jsval :=
  JObj [("artifact_id", JStr (it_id item)); ("artifact_type", JStr (it_artifact_type item)); ("schema_version", JNum (num (it_schema_version item)));
        ("content_hash", match it_sha256 item with Some h => JStr h | None => JNull end)].

Definition itemType (item : PlacedLibraryItem) : ArtifactTypeIdentity := {| ty_id := it_artifact_type item; ty_schema_version := it_schema_version item |}.

Definition itemKey (item : PlacedLibraryItem) : string := artifactTypeKey (itemType item).

(** [group.push(ref)], or a new group at the end of the map. *)
Fixpoint pushTo (key : string) (ref : jsval) (groups : list (string * list jsval)) : list (string * list jsval) :=
  match groups with
  | [] => [(key, [ref])]
  | (k, refs) :: rest => if bool_decide (k = key) then (k, refs ++ [ref]) :: rest else (k, refs) :: pushTo key ref rest
  end.

Definition groupItems (items : list PlacedLibraryItem) : list (string * list jsval) := foldl (λ groups item, pushTo (itemKey item) (itemRef item) groups) [] items.

Definition artifactDropGroups (uuid : nat → string) (items : list PlacedLibraryItem) : list jsval :=
  omap id (imap (λ i group, artifactCardValue group.2 JUndefined false (uuid i)) (groupItems items)).

(** The artifacts of a folder as its rows show them. *)
Fixpoint nodeItems (node : LibraryTreeNode) : list PlacedLibraryItem :=
  match node with
  | file_node _ _ _ _ item => [item]
  | folder_node _ _ _ _ _ nodes _ _ => flat_map nodeItems nodes
  end.

Definition folderArtifactItems (nodes : list LibraryTreeNode) : list PlacedLibraryItem := flat_map nodeItems nodes.

Section transfer.
Context (numberText : jsnum → string) (JSON_parse : string → res jsval) (uuid : nat → string).

(** ** Writing *)

Definition writeLibraryArtifactDrag (items : list PlacedLibraryItem) (d : DataTransfer) : DataTransfer :=
  match artifactDropGroups uuid items with
  | [] => d
  | groups =>
      <[LIBRARY_MOVE_DATA_TYPE := text numberText (JArr (map (λ item, JStr (it_id item)) items))]>
        (writeArtifactDropGroups numberText (map artifactDropPayload groups) d)
  end.

Definition writeLibraryFolderDrag (folderId folderName : string) (nodes : list LibraryTreeNode) (d : DataTransfer) : DataTransfer :=
  let d := <[LIBRARY_FOLDER_DATA_TYPE := folderId]> d in
  match artifactDropGroups uuid (folderArtifactItems nodes) with
  | [] => d
  | groups => writeArtifactDropFolder folderName (writeArtifactDropGroups numberText (map artifactDropPayload groups) d)
  end.

(** ** Reading *)

Definition readLibraryMoveIds (d : DataTransfer) : list string :=
  let raw := getData LIBRARY_MOVE_DATA_TYPE d in
  if bool_decide (raw = "") then []
  else match JSON_parse raw with
       | Ok (JArr parsed) => omap (λ v, match v with JStr s => Some s | _ => None end) parsed
       | _ => []
       end.

(** [value.artifact_id], a string by the contract. *)
Definition referredId (value : jsval) : option string := match js_get "artifact_id" value with JStr s => Some s | _ => None end.

Definition readLibraryDrop (files : list string) (d : DataTransfer) : option LibraryDrop :=
  match libraryDragKind d with
  | Some drag_upload => if is_nil files then None else Some (drop_upload files)
  | Some drag_folder =>
      let folderId := getData LIBRARY_FOLDER_DATA_TYPE d in
      if bool_decide (folderId = "") then None else Some (drop_folder folderId)
  | Some drag_artifact =>
      match readLibraryMoveIds d with
      | [] => payload ← readArtifactDrop JSON_parse d; i ← referredId (dp_value payload); Some (drop_artifacts [i])
      | moved => Some (drop_artifacts moved)
      end
  | None => None
  end.
End transfer.

(** ** The groups, exactly *)

(** Each type that occurs, in the order in which the types come up, with its artifacts in theirs. *)
Definition grouped (items : list PlacedLibraryItem) : list (string * list jsval) :=
  map (λ k, (k, map itemRef (filter (λ i, itemKey i = k) items))) (js_set (map itemKey items)).

Lemma js_set_step l x : js_set (l ++ [x]) = if bool_decide (x ∈ js_set l) then js_set l else js_set l ++ [x].
Proof. unfold js_set. by rewrite foldl_app. Qed.

Lemma pushTo_grouped key ref (ks : list string) (f : string → list jsval) : NoDup ks →
  pushTo key ref (map (λ k, (k, f k)) ks) =
    map (λ k, (k, if bool_decide (k = key) then f k ++ [ref] else f k)) ks ++ (if bool_decide (key ∈ ks) then [] else [(key, [ref])]).
Proof.
  induction 1 as [|k ks Hk Hnd IH]; [done|]. cbn [map pushTo]. destruct (decide (k = key)) as [->|E].
  - rewrite !(bool_decide_true (key = key)) by done. rewrite (bool_decide_true (key ∈ key :: ks)) by (apply elem_of_cons; by left). rewrite app_nil_r. f_equal. apply map_ext_in. intros k Hin%list_elem_of_In.
    rewrite bool_decide_false; [done|]. by intros ->.
  - rewrite !(bool_decide_false (k = key)) by done. rewrite IH. cbn [app]. do 2 f_equal.
    rewrite (bool_decide_ext (key ∈ k :: ks) (key ∈ ks)); [done|]. rewrite elem_of_cons. naive_solver.
Qed.

Lemma groupItems_exact items : groupItems items = grouped items.
Proof.
  unfold groupItems. induction items as [|item items IH] using rev_ind; [done|]. rewrite foldl_app. cbn [foldl]. rewrite IH. unfold grouped.
  rewrite pushTo_grouped by apply js_set_NoDup. rewrite map_app. cbn [map]. rewrite js_set_step.
  assert (∀ k, map itemRef (filter (λ i, itemKey i = k) (items ++ [item])) =
    if bool_decide (k = itemKey item) then map itemRef (filter (λ i, itemKey i = k) items) ++ [itemRef item] else map itemRef (filter (λ i, itemKey i = k) items)) as Hf.
  { intros k. rewrite filter_app, map_app. case_bool_decide as E; [rewrite filter_cons_True by done|rewrite filter_cons_False by done]; rewrite filter_nil; [done|]. by rewrite app_nil_r. }
  case_bool_decide as E; [rewrite app_nil_r|rewrite map_app]; [|f_equal]; try (apply map_ext; intros k; by rewrite Hf).
  cbn [map]. rewrite Hf, bool_decide_true by done. rewrite list_elem_of_In in E. clear IH Hf.
  assert (filter (λ i, itemKey i = itemKey item) items = []) as ->; [|done].
  apply elem_of_nil_inv. intros i [Heq Hi]%list_elem_of_filter. apply E. apply list_elem_of_In, js_set_spec, list_elem_of_fmap. by exists i.
Qed.

Lemma js_get_type item : js_get "artifact_type" (itemRef item) = JStr (it_artifact_type item) ∧ js_get "schema_version" (itemRef item) = JNum (num (it_schema_version item)).
Proof. done. Qed.

Lemma same_type_shared a b : itemKey a = itemKey b → shareOneArtifactType (itemRef a) (itemRef b) = true.
Proof.
  intros H%artifactTypeKey_inj. unfold shareOneArtifactType. destruct (js_get_type a) as [-> ->], (js_get_type b) as [-> ->]. injection H as -> ->. by rewrite !bool_decide_true.
Qed.

(** The value of the artifacts of one type. *)
Definition groupValue (refs : list jsval) (sequenceId : string) : jsval :=
  match refs with
  | [ref] => ref
  | first :: _ => sequenceValue (js_get "artifact_type" first) (js_get "schema_version" first) refs (JStr sequenceId)
  | [] => JUndefined
  end.

Lemma group_has_a_value items k sequenceId : k ∈ map itemKey items →
  artifactCardValue (map itemRef (filter (λ i, itemKey i = k) items)) JUndefined false sequenceId = Some (groupValue (map itemRef (filter (λ i, itemKey i = k) items)) sequenceId).
Proof.
  intros (x & -> & Hx)%list_elem_of_fmap. set (l := filter _ items). assert (Forall (λ i, itemKey i = itemKey x) l) as Hl.
  { apply Forall_forall. intros i Hi. by apply list_elem_of_filter in Hi as [? _]. }
  assert (l ≠ []) as Hne. { intros E. assert (x ∈ l) as Hin by by apply list_elem_of_filter. rewrite E in Hin. by apply elem_of_nil in Hin. }
  destruct l as [|first rest]; [done|]. cbn [map artifactCardValue]. inversion Hl as [|? ? Hfirst Hrest]; subst.
  assert (existsb (λ ref, negb (shareOneArtifactType ref (itemRef first))) (itemRef first :: map itemRef rest) = false) as ->; [|by destruct rest].
  apply not_true_is_false. intros (ref & Hin%list_elem_of_In & Hr)%existsb_exists. assert (∃ i, ref = itemRef i ∧ itemKey i = itemKey first) as (i & -> & Hi).
  { apply elem_of_cons in Hin as [->|(i & -> & Hi)%list_elem_of_fmap]; [by exists first|]. exists i. split; [done|]. rewrite Forall_forall in Hrest. rewrite Hfirst. by apply Hrest. }
  by rewrite same_type_shared in Hr.
Qed.

(** The drag of some artifacts has one value for each type among them, in the order in which the
    types come up: the lone artifact, or the sequence of all artifacts of that type in their
    order.  Nothing is left out and nothing is carried twice. *)
Theorem drag_groups_by_type uuid items :
  artifactDropGroups uuid items = imap (λ i k, groupValue (map itemRef (filter (λ x, itemKey x = k) items)) (uuid i)) (js_set (map itemKey items)) ∧
  NoDup (js_set (map itemKey items)) ∧ (∀ x, x ∈ items ↔ ∃ k, k ∈ js_set (map itemKey items) ∧ x ∈ filter (λ x, itemKey x = k) items).
Proof.
  split_and!; [|apply js_set_NoDup|].
  - unfold artifactDropGroups. rewrite groupItems_exact. unfold grouped.
    assert (∀ k, k ∈ js_set (map itemKey items) → k ∈ map itemKey items) as Hk by (intros k; by rewrite js_set_spec).
    generalize dependent (js_set (map itemKey items)). intros ks Hk. revert uuid. induction ks as [|k ks IH]; intros uuid; [done|].
    cbn. rewrite group_has_a_value by (apply Hk; left). cbn. f_equal. apply (IH ltac:(intros; apply Hk; by right) (uuid ∘ S)).
  - intros x. split.
    + intros Hx. exists (itemKey x). split; [apply js_set_spec, list_elem_of_fmap; by exists x|by apply list_elem_of_filter].
    + intros (k & _ & [_ Hx]%list_elem_of_filter). done.
Qed.

Lemma group_is_readable uuid items v : v ∈ artifactDropGroups uuid items → readable (artifactDropPayload v).
Proof.
  destruct (drag_groups_by_type uuid items) as (-> & _ & Hall). intros (i & k & -> & Hk)%elem_of_lookup_imap_1. apply list_elem_of_lookup_2, js_set_spec, list_elem_of_fmap in Hk as (x & -> & Hx).
  set (l := filter _ items). assert (x ∈ l) as Hin by by apply list_elem_of_filter. split; [|unfold artifactDropPayload; cbn; by destruct (isSequence _)].
  destruct l as [|a [|b l]]; [by apply elem_of_nil in Hin|done|done].
Qed.

Lemma groups_not_nil uuid items : items ≠ [] → artifactDropGroups uuid items ≠ [].
Proof.
  destruct (drag_groups_by_type uuid items) as (-> & _ & _). destruct items as [|x items]; [done|]. intros _ E. apply (f_equal length) in E. rewrite length_imap in E.
  assert (itemKey x ∈ js_set (map itemKey (x :: items))) as H by (apply js_set_spec; left). destruct (js_set _); [by apply elem_of_nil in H|done].
Qed.

(** A drag of Library artifacts is read back: a folder of the Library finds the ids of all the rows
    that were picked up, in their order, and the canvas the groups. *)
Theorem library_drag_is_read_back numberText JSON_parse uuid items files :
  items ≠ [] →
  let payloads := map artifactDropPayload (artifactDropGroups uuid items) in
  let ids := JArr (map (λ item, JStr (it_id item)) items) in
  (∀ v, v = ids ∨ v = JArr (map payloadValue payloads) ∨ v ∈ map payloadValue payloads → JSON_parse (text numberText v) = Ok v) →
  let d := writeLibraryArtifactDrag numberText uuid items ∅ in
  readLibraryDrop JSON_parse files d = Some (drop_artifacts (map it_id items)) ∧ readArtifactDropGroups JSON_parse d = payloads ∧ readArtifactDropFolder d = None ∧ isArtifactDrop d = true.
Proof.
  intros Hne payloads js Hparse d. pose proof (groups_not_nil uuid items Hne) as Hg. assert (payloads ≠ []) as Hp by (unfold payloads; by destruct (artifactDropGroups uuid items)).
  assert (Forall readable payloads) as Hr. { apply Forall_forall. intros p (v & -> & Hv)%list_elem_of_fmap. by eapply group_is_readable. }
  set (e := writeArtifactDropGroups numberText payloads ∅).
  assert (d = <[LIBRARY_MOVE_DATA_TYPE := text numberText js]> e) as -> by (unfold d, writeLibraryArtifactDrag, e, payloads; by destruct (artifactDropGroups uuid items)).
  assert (∀ type, type ≠ ARTIFACT_DROP_DATA_TYPE → type ≠ ARTIFACT_GROUPS_DATA_TYPE → e !! type = None) as He.
  { intros type H1 H2. unfold e, writeArtifactDropGroups. destruct payloads as [|p [|q l]]; [done| |]; rewrite ?lookup_insert_ne by done; done. }
  destruct (dragged_payloads_are_read_back numberText JSON_parse payloads ∅) as [Hread His]; [done|done|done|intros v [Hv|Hv]; apply Hparse; auto|]. fold e in Hread, His.
  split_and!.
  - unfold readLibraryDrop, libraryDragKind. rewrite !lookup_insert_ne by done. rewrite !(He "Files") by done. rewrite (He LIBRARY_FOLDER_DATA_TYPE) by done.
    rewrite lookup_insert_eq, (bool_decide_true (is_Some (Some _))) by done. rewrite !bool_decide_false by (by intros []). rewrite orb_true_r.
    unfold readLibraryMoveIds, getData. rewrite lookup_insert_eq. cbn [default id]. rewrite bool_decide_false by done. rewrite Hparse by by left.
    unfold js. assert (omap (λ v, match v with JStr s => Some s | _ => None end) (map (λ item, JStr (it_id item)) items) = map it_id items) as ->.
    { clear. induction items as [|x l IH]; [done|]. cbn. by rewrite <- IH. }
    by destruct items.
  - transitivity (readArtifactDropGroups JSON_parse e); [|exact Hread]. unfold readArtifactDropGroups, readArtifactDrop, getData. by rewrite !lookup_insert_ne.
  - unfold readArtifactDropFolder. rewrite lookup_insert_ne by done. by apply He.
  - unfold isArtifactDrop in *. by rewrite !lookup_insert_ne.
Qed.

(** A folder that is dragged is a folder for the Library and its groups, asked for by its name,
    for the canvas; an empty one is nothing there. *)
Theorem folder_drag_is_read_back numberText JSON_parse uuid folderId folderName nodes files :
  folderId ≠ "" →
  let d := writeLibraryFolderDrag numberText uuid folderId folderName nodes ∅ in
  readLibraryDrop JSON_parse files d = Some (drop_folder folderId) ∧
  (folderArtifactItems nodes = [] → isArtifactDrop d = false ∧ readArtifactDropFolder d = None) ∧
  (folderArtifactItems nodes ≠ [] → isArtifactDrop d = true ∧ readArtifactDropFolder d = Some folderName).
Proof.
  intros Hid d. set (d0 := (<[LIBRARY_FOLDER_DATA_TYPE := folderId]> ∅ : gmap string string)).
  assert (∀ ps type, type ≠ ARTIFACT_DROP_DATA_TYPE → type ≠ ARTIFACT_GROUPS_DATA_TYPE → writeArtifactDropGroups numberText ps d0 !! type = d0 !! type) as He.
  { intros ps type H1 H2. unfold writeArtifactDropGroups. destruct ps as [|p [|q l]]; [done| |]; by rewrite ?lookup_insert_ne by done. }
  split_and!.
  - unfold readLibraryDrop, libraryDragKind, getData. assert (d !! "Files" = None ∧ d !! LIBRARY_FOLDER_DATA_TYPE = Some folderId) as [-> ->].
    { unfold d, writeLibraryFolderDrag. fold d0. destruct (artifactDropGroups _ _) as [|g gs]; [done|].
      unfold writeArtifactDropFolder. rewrite !(lookup_insert_ne _ ARTIFACT_FOLDER_DATA_TYPE) by done. by rewrite !He. }
    rewrite bool_decide_false, bool_decide_true by (done || by intros []). cbn [default id]. by rewrite bool_decide_false.
  - intros E. unfold d, writeLibraryFolderDrag. rewrite E. done.
  - intros E. unfold d, writeLibraryFolderDrag. fold d0. pose proof (groups_not_nil uuid _ E) as Hg. destruct (artifactDropGroups _ _) as [|g gs]; [done|]. split.
    + unfold isArtifactDrop, writeArtifactDropFolder. rewrite !lookup_insert_ne by done. unfold writeArtifactDropGroups. cbn [map].
      destruct (map artifactDropPayload gs); rewrite ?lookup_insert_eq, ?lookup_insert_ne, ?lookup_insert_eq by done; by rewrite bool_decide_true.
    + unfold readArtifactDropFolder, writeArtifactDropFolder. by rewrite lookup_insert_eq.
Qed.
