(* ===== verification/NodeSecrets.v ===== *)
(** * Node secrets ([canvas/node-secrets.ts])

    The write-only inputs an operator declares, the part of a node's configuration
    a stored secret is bound to, and the statuses a card shows.  The declaration
    comes from a plugin and is read as an untyped value. *)

From stdpp Require Import numbers list gmap.
From S2P Require Import Prelude Js JsText JsJson GraphModel Handles Routes Canvas ConfigSchema.

(** ** Data *)

Record WorkflowNodeSecretInput := {
  si_name : string;
  si_title : string;
  si_description : option string;
  si_configDependencies : list string
}.

Inductive WorkflowNodeSecretState :=
| secret_unknown | secret_loading | secret_unconfigured | secret_configured
| secret_stale | secret_applying | secret_removing | secret_error.

#[export] Instance WorkflowNodeSecretState_eq_dec : EqDecision WorkflowNodeSecretState.
Proof. solve_decision. Defined.

Record WorkflowNodeSecretStatus := { ss_state : WorkflowNodeSecretState; ss_message : option string }.

Record RemoteNodeSecretStatus := { rs_configured : bool; rs_name : string; rs_node_id : string }.

(** ** The declaration *)

(** A string that is not empty. *)
Definition dependency_name (v : jsval) : option string :=
  match v with JStr s => if bool_decide (s = "") then None else Some s | _ => None end.

(** [value !== undefined && value !== null && typeof value !== "string"] *)
Definition not_text (v : jsval) : bool := match v with JUndefined | JNull | JStr _ => false | _ => true end.

Definition secretInput (seen : list string) (rawInput : jsval) : option WorkflowNodeSecretInput :=
  input ← record rawInput;
  name ← dependency_name (obj_get "name" input);
  if bool_decide (name ∈ seen) then None
  else
    dependencies ← match obj_get "config_dependencies" input with JArr l => mapM dependency_name l | _ => None end;
    if not_text (obj_get "title" input) then None
    else if not_text (obj_get "description" input) then None
    else Some {| si_name := name;
                 si_title := default (replaceAll "_" " " name) (dependency_name (obj_get "title" input));
                 si_description := match obj_get "description" input with JStr s => Some s | _ => None end;
                 si_configDependencies := dependencies |}.

Fixpoint secretInputs (seen : list string) (rawInputs : list jsval) : list WorkflowNodeSecretInput :=
  match rawInputs with
  | [] => []
  | rawInput :: rest =>
      match secretInput seen rawInput with
      | None => secretInputs seen rest
      | Some read => read :: secretInputs (si_name read :: seen) rest
      end
  end.

Definition nodeSecretInputs (spec : NodeSpec) : list WorkflowNodeSecretInput :=
  match spec_secret_inputs spec with JArr rawInputs => secretInputs [] rawInputs | _ => [] end.

(** ** The binding *)

Record NodeSecretBindingSnapshot := {
  sb_id : string;
  sb_operator_id : string;
  sb_operator_version : jsnum;
  sb_config : jsopt jsobj
}.

Section binding.
Context (numberText : jsnum → string).

(** The dependencies with their values; a missing one is [null]. *)
Definition dependencyValues (input : WorkflowNodeSecretInput) (config : jsobj) : jsval :=
  JArr (map (λ dependency, JArr [JStr dependency; coalesce (obj_get dependency config) JNull]) (si_configDependencies input)).

Definition nodeSecretDependencyRevision (input : WorkflowNodeSecretInput) (config : jsobj) : option string :=
  stringify numberText (dependencyValues input config).

Definition nodeSecretBindingReady (input : WorkflowNodeSecretInput) (currentNode : NodeSecretBindingSnapshot)
    (savedNode : option NodeSecretBindingSnapshot) : bool :=
  match savedNode with
  | None => false
  | Some savedNode =>
      bool_decide (sb_id currentNode = sb_id savedNode) &&
      bool_decide (sb_operator_id currentNode = sb_operator_id savedNode) &&
      bool_decide (sb_operator_version currentNode = sb_operator_version savedNode) &&
      bool_decide (nodeSecretDependencyRevision input (jsopt_or (sb_config currentNode) []) =
                   nodeSecretDependencyRevision input (jsopt_or (sb_config savedNode) []))
  end.
End binding.

(** ** Statuses *)

(** [new Map(...)]: the last status of a name. *)
Definition remoteByName (nodeId : string) (remote : list RemoteNodeSecretStatus) : gmap string RemoteNodeSecretStatus :=
  foldl (λ byName status, <[rs_name status := status]> byName) ∅ (filter (λ status, rs_node_id status = nodeId) remote).

Definition reconciledNodeSecretStatuses (spec : NodeSpec) (nodeId : string) (remote : list RemoteNodeSecretStatus)
    : list (string * WorkflowNodeSecretStatus) :=
  (λ input, (si_name input,
     {| ss_state := match remoteByName nodeId remote !! si_name input with
                    | Some status => if rs_configured status then secret_configured else secret_unconfigured
                    | None => secret_unconfigured
                    end;
        ss_message := None |})) <$> nodeSecretInputs spec.

(** ** Theorems *)

Lemma dependency_name_Some v s : dependency_name v = Some s ↔ v = JStr s ∧ s ≠ "".
Proof. destruct v as [| | | |t| |]; cbn; try naive_solver. case_bool_decide; naive_solver. Qed.

Lemma secretInput_Some seen raw i :
  secretInput seen raw = Some i →
  si_name i ≠ "" ∧ si_name i ∉ seen ∧ Forall (λ d, d ≠ "") (si_configDependencies i) ∧ secretInput [] raw = Some i.
Proof.
  unfold secretInput. intros (input & -> & H)%bind_Some. cbn [mbind option_bind].
  apply bind_Some in H as (name & Hname & H). rewrite Hname. cbn [mbind option_bind].
  case_bool_decide as Hseen; [done|]. rewrite bool_decide_false by apply not_elem_of_nil.
  apply bind_Some in H as (deps & Hdeps & H). rewrite Hdeps. cbn [mbind option_bind].
  destruct (not_text (obj_get "title" input)), (not_text (obj_get "description" input)); [done..|].
  injection H as <-. cbn. split_and!; [by apply dependency_name_Some in Hname as []|done| |done].
  destruct (obj_get "config_dependencies" input) as [| | | | |l|]; try done.
  apply mapM_Some in Hdeps. induction Hdeps as [|v d l ds [_ Hd]%dependency_name_Some _ IH]; [constructor|by constructor].
Qed.

Lemma secretInput_seen seen raw i : secretInput [] raw = Some i → si_name i ∉ seen → secretInput seen raw = Some i.
Proof.
  unfold secretInput. intros (input & -> & H)%bind_Some Hseen. cbn [mbind option_bind].
  apply bind_Some in H as (name & Hname & H). rewrite Hname. cbn [mbind option_bind].
  rewrite bool_decide_false in H by apply not_elem_of_nil.
  apply bind_Some in H as (deps & Hdeps & H). rewrite Hdeps. cbn [mbind option_bind].
  destruct (not_text (obj_get "title" input)), (not_text (obj_get "description" input)); [done..|].
  injection H as <-. cbn in Hseen. by rewrite bool_decide_false.
Qed.

(** What is read: the valid declarations, the first of every name. *)
Definition first_declared (raws : list jsval) (i : WorkflowNodeSecretInput) : Prop :=
  ∃ l1 raw l2, raws = l1 ++ raw :: l2 ∧ secretInput [] raw = Some i ∧
               ∀ r j, r ∈ l1 → secretInput [] r = Some j → si_name j ≠ si_name i.

Lemma secretInputs_spec seen raws i :
  i ∈ secretInputs seen raws ↔ si_name i ∉ seen ∧ first_declared raws i.
Proof.
  revert seen. induction raws as [|raw raws IH]; intros seen; cbn [secretInputs].
  { split; [by intros ?%elem_of_nil|]. intros (_ & l1 & raw & l2 & H & _). by destruct l1. }
  assert (first_declared (raw :: raws) i ↔ secretInput [] raw = Some i ∨
          (first_declared raws i ∧ ∀ j, secretInput [] raw = Some j → si_name j ≠ si_name i)) as ->.
  { split.
    - intros ([|r l1] & x & l2 & [= -> ->] & Hx & Hf); [by left|]. right. split; [|intros j; apply Hf; by left].
      exists l1, x, l2. split_and!; [done..|]. intros r' j Hr'. apply Hf. by right.
    - intros [H|[(l1 & x & l2 & -> & Hx & Hf) Hr]]; [by exists [], raw, raws; split_and!; [done..|intros ? ? ?%elem_of_nil]|].
      exists (raw :: l1), x, l2. split_and!; [done..|]. intros r' j [->|Hr']%elem_of_cons; [by apply Hr|by apply Hf]. }
  destruct (secretInput seen raw) as [k|] eqn:Hk.
  - destruct (secretInput_Some _ _ _ Hk) as (_ & Hks & _ & Hk0). rewrite elem_of_cons, IH, Hk0, not_elem_of_cons. naive_solver.
  - rewrite IH. split.
    + intros [Hs Hf]. split; [done|]. right. split; [done|]. intros j Hj Hn.
      rewrite (secretInput_seen seen _ _ Hj) in Hk; [done|by rewrite Hn].
    + intros [Hs [H|[Hf _]]]; [by rewrite (secretInput_seen seen _ _ H) in Hk|done].
Qed.

Lemma secretInputs_NoDup seen raws : NoDup (si_name <$> secretInputs seen raws).
Proof.
  revert seen. induction raws as [|raw raws IH]; intros seen; cbn [secretInputs]; [constructor|].
  destruct (secretInput seen raw) as [k|]; [|done]. cbn. constructor; [|done].
  intros (i & Hi & [Hs _]%secretInputs_spec)%list_elem_of_fmap. apply Hs. rewrite Hi. by left.
Qed.

Lemma nodeSecretInputs_spec spec raws i :
  spec_secret_inputs spec = JArr raws → i ∈ nodeSecretInputs spec ↔ first_declared raws i.
Proof. unfold nodeSecretInputs. intros ->. rewrite secretInputs_spec. pose proof (not_elem_of_nil (si_name i)). tauto. Qed.

Lemma nodeSecretInputs_NoDup spec : NoDup (si_name <$> nodeSecretInputs spec).
Proof. unfold nodeSecretInputs. destruct (spec_secret_inputs spec); try constructor. apply secretInputs_NoDup. Qed.

Lemma remote_fold (acc : gmap string RemoteNodeSecretStatus) l name :
  foldl (λ byName status, <[rs_name status := status]> byName) acc l !! name =
  match last (filter (λ status, rs_name status = name) l) with Some s => Some s | None => acc !! name end.
Proof.
  induction l as [|s l IH] using rev_ind; [done|]. rewrite foldl_app, filter_app. cbn [foldl].
  rewrite filter_cons, filter_nil. destruct (decide (rs_name s = name)) as [<-|Hne].
  - by rewrite lookup_insert_eq, last_snoc.
  - by rewrite app_nil_r, lookup_insert_ne.
Qed.

(** An operator's declaration is read without trusting it: exactly the valid
    entries are taken, the first one of a name, so the names are distinct and not
    empty; and a card has one status for each of them, configured exactly when the
    last status the server lists for that node and name says so. *)
Theorem secret_statuses_follow_the_declaration spec raws nodeId remote :
  spec_secret_inputs spec = JArr raws →
  let statuses := reconciledNodeSecretStatuses spec nodeId remote in
  (∀ i, i ∈ nodeSecretInputs spec ↔ first_declared raws i) ∧
  NoDup (statuses.*1) ∧ "" ∉ statuses.*1 ∧
  (∀ name, name ∈ statuses.*1 ↔ ∃ i, first_declared raws i ∧ si_name i = name) ∧
  (∀ name status, (name, status) ∈ statuses →
     ss_state status = secret_configured ↔
     ∃ s, last (filter (λ s, rs_name s = name) (filter (λ s, rs_node_id s = nodeId) remote)) = Some s ∧ rs_configured s = true).
Proof.
  intros Hraws. cbv zeta. assert ((reconciledNodeSecretStatuses spec nodeId remote).*1 = si_name <$> nodeSecretInputs spec) as Hnames.
  { unfold reconciledNodeSecretStatuses. rewrite <- list_fmap_compose. done. }
  rewrite Hnames. split_and!.
  - intros i. by apply nodeSecretInputs_spec.
  - apply nodeSecretInputs_NoDup.
  - intros (i & Hi & (l1 & raw & l2 & _ & (Hne & _)%secretInput_Some & _)%(nodeSecretInputs_spec _ _ _ Hraws))%list_elem_of_fmap.
    by rewrite <- Hi in Hne.
  - intros name. rewrite list_elem_of_fmap. setoid_rewrite (nodeSecretInputs_spec _ _ _ Hraws).
    split; intros (i & H1 & H2); by exists i.
  - intros name status (i & [= -> ->] & _)%list_elem_of_fmap. cbn. unfold remoteByName. rewrite remote_fold, lookup_empty.
    destruct (last _) as [s|]; [|split; [done|by intros (? & ? & _)]]. destruct (rs_configured s) eqn:Hs.
    + split; [by exists s|done].
    + split; [done|]. intros (s' & [= <-] & Hs'). congruence.
Qed.

Section binding_theory.
Context (numberText : jsnum → string) `{!NumberText numberText}.

Definition json_config (config : jsobj) : Prop := forallb (λ kv, json_value kv.2) config = true.

(** The configuration's value of a dependency; absent and [null] are the same. *)
Definition dependency_value (config : jsobj) (dependency : string) : jsval := coalesce (obj_get dependency config) JNull.

Lemma dependency_value_json config d : json_config config → json_value (dependency_value config d) = true.
Proof.
  intros Hc. unfold dependency_value. assert (obj_get d config = JUndefined ∨ json_value (obj_get d config) = true) as [-> |H]; [|done|].
  - induction config as [|[k v] config IH]; [by left|]. unfold json_config in Hc. cbn in Hc. apply andb_true_iff in Hc as [Hv Hc]. cbn [obj_get].
    case_bool_decide; [by right|by apply IH].
  - by destruct (obj_get d config).
Qed.

Lemma dependencyValues_json input config : json_config config → json_value (dependencyValues input config) = true.
Proof.
  intros Hc. unfold dependencyValues. cbn [json_value]. apply forallb_forall. intros v (d & <- & _)%in_map_iff. pose proof (dependency_value_json config d Hc) as Hd.
  unfold dependency_value in Hd. cbn [json_value forallb]. by rewrite Hd.
Qed.

(** A stored secret's binding is ready exactly when the node is the saved one with
    the same operator and version, and every configuration value the input depends on
    is the saved value: no change of a dependency goes unnoticed, and no other change
    asks for a save. *)
Theorem secret_binding_ready_iff input current saved :
  json_config (jsopt_or (sb_config current) []) → json_config (jsopt_or (sb_config saved) []) →
  nodeSecretBindingReady numberText input current (Some saved) = true ↔
  sb_id current = sb_id saved ∧ sb_operator_id current = sb_operator_id saved ∧
  sb_operator_version current = sb_operator_version saved ∧
  ∀ d, d ∈ si_configDependencies input →
       dependency_value (jsopt_or (sb_config current) []) d = dependency_value (jsopt_or (sb_config saved) []) d.
Proof.
  intros Hc Hs. unfold nodeSecretBindingReady. rewrite !andb_true_iff, !bool_decide_eq_true. unfold nodeSecretDependencyRevision.
  rewrite (stringify_inj numberText) by by first [done|apply dependencyValues_json].
  assert (dependencyValues input (jsopt_or (sb_config current) []) = dependencyValues input (jsopt_or (sb_config saved) []) ↔
          ∀ d, d ∈ si_configDependencies input →
               dependency_value (jsopt_or (sb_config current) []) d = dependency_value (jsopt_or (sb_config saved) []) d) as ->; [|tauto].
  unfold dependencyValues. induction (si_configDependencies input) as [|d ds IH].
  { split; [by intros _ d ?%elem_of_nil|done]. }
  setoid_rewrite elem_of_cons. cbn [map]. unfold dependency_value in *. split.
  - intros [= Hd Hds]. assert (∀ x y, JArr x = JArr y ↔ x = y) as Harr by (intros; split; [by intros [=]|by intros ->]).
    rewrite <- Harr, IH in Hds. naive_solver.
  - intros H. rewrite (H d) by by left. do 2 f_equal. assert (∀ x y, JArr x = JArr y → x = y) as Harr by by intros ? ? [=].
    apply Harr, IH. intros d' Hd'. apply H. by right.
Qed.
End binding_theory.

(** ** Witnesses *)

Definition sample_secret_spec : NodeSpec :=
  {| spec_operator_id := "http.fetch"; spec_operator_version := num 1; spec_title := "Fetch"; spec_inputs := []; spec_outputs := [];
     spec_config_schema := JObj [];
     spec_secret_inputs := JArr [JNull; JObj [("name", JStr "api_key"); ("config_dependencies", JArr [JStr "url"])];
                                 JObj [("name", JStr "api_key"); ("config_dependencies", JArr [])]] |}.

Lemma secret_statuses_follow_the_declaration_witness :
  reconciledNodeSecretStatuses sample_secret_spec "n1" [{| rs_configured := true; rs_name := "api_key"; rs_node_id := "n1" |}] =
    [("api_key", {| ss_state := secret_configured; ss_message := None |})] ∧
  NoDup ((reconciledNodeSecretStatuses sample_secret_spec "n1" []).*1).
Proof.
  split; [reflexivity|]. exact (proj1 (proj2 (secret_statuses_follow_the_declaration sample_secret_spec _ "n1" [] eq_refl))).
Defined.

Definition sample_binding (url : string) : NodeSecretBindingSnapshot :=
  {| sb_id := "n1"; sb_operator_id := "http.fetch"; sb_operator_version := num 1;
     sb_config := Val [("url", JStr url); ("retries", JNum (num 3))] |}.

Definition sample_secret_input : WorkflowNodeSecretInput :=
  {| si_name := "api_key"; si_title := "api key"; si_description := None; si_configDependencies := ["url"] |}.

Lemma secret_binding_ready_iff_witness :
  nodeSecretBindingReady fractionText sample_secret_input (sample_binding "a") (Some (sample_binding "a")) = true ∧
  nodeSecretBindingReady fractionText sample_secret_input (sample_binding "b") (Some (sample_binding "a")) ≠ true.
Proof.
  pose proof (secret_binding_ready_iff fractionText sample_secret_input (sample_binding "b") (sample_binding "a") eq_refl eq_refl) as H.
  split; [reflexivity|]. intros Hr. apply H in Hr as (_ & _ & _ & Hd). specialize (Hd "url" ltac:(by left)). discriminate Hd.
Defined.
