(* ===== verification/SecretWrites.v ===== *)
(** * Writing node secrets ([ui/useNodeSecrets.ts])

    The hook that lists the secrets of a Graph and writes them.  A write names the
    head sequence it was read at, and is sent once more when the server says that the
    head moved.  Answers come in any order; a late one must not touch what was opened,
    written or cleared since, which the hook keeps apart by a generation of the listing
    and a version of every secret.

    The model is a step function on the refs, the statuses and the requests that are
    out.  Parameter: the text of a number in a binding ([NodeSecrets]). *)

From stdpp Require Import numbers list gmap.
From S2P Require Import Prelude Js JsText JsJson GraphModel Handles Routes ConfigSchema NodeSecrets Canvas.

(** ** Data *)

Record NodeSecretGraph := { sg_id : string; sg_graphId : string; sg_revision : Z; sg_nodes : list GraphNode }.

Record NodeSecretHead := { sh_projectId : string; sh_graphId : string; sh_sequence : Z }.

Notation Statuses := (gmap string (gmap string WorkflowNodeSecretStatus)).
Notation WriteVersions := (gmap string (gmap string nat)).

Definition sameNodeSecretGraph (graph : NodeSecretGraph) (active : option NodeSecretGraph) : bool :=
  match active with
  | Some active =>
      bool_decide (sg_id graph = sg_id active) && bool_decide (sg_graphId graph = sg_graphId active) &&
      bool_decide (sg_revision graph = sg_revision active)
  | None => false
  end.

Definition guardedHeadSequence (head : option NodeSecretHead) (graph : NodeSecretGraph) : option Z :=
  h ← head;
  if negb (bool_decide (sh_projectId h = sg_id graph)) || negb (bool_decide (sh_graphId h = sg_graphId graph)) then None
  else Some (sh_sequence h).

(** ** Statuses *)

Definition usesSecrets (node : WorkflowNode) : bool :=
  data_is_supported (wn_data node) && negb (is_nil (nodeSecretInputs (wn_spec node))).

(** [Object.fromEntries] over the nodes that use secrets. *)
Definition statusesOf (f : WorkflowNode → list (string * WorkflowNodeSecretStatus)) (nodes : list WorkflowNode) : Statuses :=
  foldl (λ m node, <[wn_id node := list_to_map (f node)]> m) ∅ (filter (λ node, usesSecrets node = true) nodes).

Definition graphNodeSecretStatuses (nodes : list WorkflowNode) (remote : list RemoteNodeSecretStatus) : Statuses :=
  statusesOf (λ node, reconciledNodeSecretStatuses (wn_spec node) (wn_id node) remote) nodes.

Definition nodeSecretStatusesWithState (nodes : list WorkflowNode) (state : WorkflowNodeSecretState) (message : option string) : Statuses :=
  statusesOf (λ node, (λ i, (si_name i, {| ss_state := state; ss_message := message |})) <$> nodeSecretInputs (wn_spec node)) nodes.

(** ** Write versions *)

Definition nodeSecretWriteVersion (versions : WriteVersions) (nodeId name : string) : nat :=
  default 0 (versions !! nodeId ≫= λ m, m !! name).

Definition advanceNodeSecretWriteVersion (versions : WriteVersions) (nodeId name : string) : nat * WriteVersions :=
  let nodeVersions := default ∅ (versions !! nodeId) in
  let nextVersion := S (default 0 (nodeVersions !! name)) in
  (nextVersion, <[nodeId := <[name := nextVersion]> nodeVersions]> versions).

Definition advanceAll (nodeVersions : gmap string nat) : gmap string nat := S <$> nodeVersions.

(** Of one node, or of all. *)
Definition invalidateNodeSecretWrites (versions : WriteVersions) (nodeId : option string) : WriteVersions :=
  map_imap (λ versionNodeId nodeVersions,
              Some (match nodeId with
                    | Some n => if bool_decide (versionNodeId = n) then advanceAll nodeVersions else nodeVersions
                    | None => advanceAll nodeVersions
                    end)) versions.

Definition mergeStatus (current : Statuses) (preserveExistingWrites : bool) (refreshVersions currentVersions : WriteVersions)
    (nodeId name : string) (nextStatus : WorkflowNodeSecretStatus) : WorkflowNodeSecretStatus :=
  match current !! nodeId ≫= λ m, m !! name with
  | Some currentStatus =>
      let writeChanged := negb (bool_decide (nodeSecretWriteVersion currentVersions nodeId name = nodeSecretWriteVersion refreshVersions nodeId name)) in
      let writeInProgress := preserveExistingWrites &&
        (bool_decide (ss_state currentStatus = secret_applying) || bool_decide (ss_state currentStatus = secret_removing)) in
      if writeChanged || writeInProgress then currentStatus else nextStatus
  | None => nextStatus
  end.

Definition mergeRefreshStatuses (next current : Statuses) (preserveExistingWrites : bool) (refreshVersions currentVersions : WriteVersions)
    : Statuses :=
  map_imap (λ nodeId nextNodeStatuses,
              Some (map_imap (λ name nextStatus,
                                Some (mergeStatus current preserveExistingWrites refreshVersions currentVersions nodeId name nextStatus))
                      nextNodeStatuses)) next.

(** ** The hook *)

Inductive WriteKind := write_apply (value : string) | write_remove.

(** A write that passed every guard, and what its continuation holds on to. *)
Record Write := {
  wr_kind : WriteKind;
  wr_nodeId : string;
  wr_name : string;
  wr_graph : NodeSecretGraph;
  wr_headSequence : Z;
  wr_writeVersion : nat
}.

Inductive SecretRequest :=
| sq_listing (graph : NodeSecretGraph) (generation : nat) (continues : bool) (versions : WriteVersions) (after : option Write)
| sq_write (w : Write) (retried : bool) (expectedHeadSequence : Z).

Inductive SecretAnswer :=
| sa_listing (project graph : string) (headSequence : Z) (secrets : list RemoteNodeSecretStatus)
| sa_written (nodeId name : string) (configured : bool)
| sa_removed
| sa_failed (status : option Z) (aborted : bool).

Record Secrets := {
  se_statuses : Statuses;
  se_activeGraph : option NodeSecretGraph;
  se_head : option NodeSecretHead;
  se_generation : nat;
  se_versions : WriteVersions;
  se_nodesById : gmap string WorkflowNode;
  se_requests : list SecretRequest;
  (** what the writes returned to their callers *)
  se_returned : list (Write * bool)
}.

Definition set_statuses (m : Statuses) (s : Secrets) : Secrets :=
  {| se_statuses := m; se_activeGraph := se_activeGraph s; se_head := se_head s; se_generation := se_generation s; se_versions := se_versions s;
     se_nodesById := se_nodesById s; se_requests := se_requests s; se_returned := se_returned s |}.
Definition set_head (h : option NodeSecretHead) (s : Secrets) : Secrets :=
  {| se_statuses := se_statuses s; se_activeGraph := se_activeGraph s; se_head := h; se_generation := se_generation s; se_versions := se_versions s;
     se_nodesById := se_nodesById s; se_requests := se_requests s; se_returned := se_returned s |}.
Definition set_versions (v : WriteVersions) (s : Secrets) : Secrets :=
  {| se_statuses := se_statuses s; se_activeGraph := se_activeGraph s; se_head := se_head s; se_generation := se_generation s; se_versions := v;
     se_nodesById := se_nodesById s; se_requests := se_requests s; se_returned := se_returned s |}.
Definition set_nodesById (m : gmap string WorkflowNode) (s : Secrets) : Secrets :=
  {| se_statuses := se_statuses s; se_activeGraph := se_activeGraph s; se_head := se_head s; se_generation := se_generation s;
     se_versions := se_versions s; se_nodesById := m; se_requests := se_requests s; se_returned := se_returned s |}.
Definition set_active (g : option NodeSecretGraph) (generation : nat) (s : Secrets) : Secrets :=
  {| se_statuses := se_statuses s; se_activeGraph := g; se_head := se_head s; se_generation := generation; se_versions := se_versions s;
     se_nodesById := se_nodesById s; se_requests := se_requests s; se_returned := se_returned s |}.
Definition set_requests (l : list SecretRequest) (s : Secrets) : Secrets :=
  {| se_statuses := se_statuses s; se_activeGraph := se_activeGraph s; se_head := se_head s; se_generation := se_generation s;
     se_versions := se_versions s; se_nodesById := se_nodesById s; se_requests := l; se_returned := se_returned s |}.
Definition returns (w : Write) (b : bool) (s : Secrets) : Secrets :=
  {| se_statuses := se_statuses s; se_activeGraph := se_activeGraph s; se_head := se_head s; se_generation := se_generation s;
     se_versions := se_versions s; se_nodesById := se_nodesById s; se_requests := se_requests s; se_returned := se_returned s ++ [(w, b)] |}.
Definition ask (r : SecretRequest) (s : Secrets) : Secrets := set_requests (se_requests s ++ [r]) s.

(** The nodes by id: the last of an id. *)
Definition nodesById (nodes : list WorkflowNode) : gmap string WorkflowNode := foldl (λ m n, <[wn_id n := n]> m) ∅ nodes.
Definition nodeValues (s : Secrets) : list WorkflowNode := (map_to_list (se_nodesById s)).*2.

Definition setSecretStatus (nodeId name : string) (status : WorkflowNodeSecretStatus) (m : Statuses) : Statuses :=
  <[nodeId := <[name := status]> (default ∅ (m !! nodeId))]> m.

(** *** The end of a write *)

(** The write is still the last of its secret, on the Graph it was made for. *)
Definition writeIsCurrent (w : Write) (s : Secrets) : bool :=
  sameNodeSecretGraph (wr_graph w) (se_activeGraph s) &&
  bool_decide (nodeSecretWriteVersion (se_versions s) (wr_nodeId w) (wr_name w) = wr_writeVersion w).

Definition concludeWrite (w : Write) (status : WorkflowNodeSecretStatus) (s : Secrets) : Secrets :=
  if writeIsCurrent w s
  then set_statuses (setSecretStatus (wr_nodeId w) (wr_name w) status (se_statuses s))
         (set_versions (advanceNodeSecretWriteVersion (se_versions s) (wr_nodeId w) (wr_name w)).2 s)
  else s.

Definition writeSucceeded (w : Write) (s : Secrets) : Secrets :=
  returns w true (concludeWrite w
    {| ss_state := match wr_kind w with write_apply _ => secret_configured | write_remove => secret_unconfigured end; ss_message := None |} s).

Definition writeFailed (w : Write) (s : Secrets) : Secrets :=
  returns w false (concludeWrite w
    {| ss_state := secret_error;
       ss_message := Some (match wr_kind w with
                           | write_apply _ => "The secret could not be applied."
                           | write_remove => "The stored secret could not be removed."
                           end) |} s).

(** [rereadHeadAfterConflict] after its listing, and the second send. *)
Definition afterReread (w : Write) (refreshed : bool) (s : Secrets) : Secrets :=
  let retrySequence := if refreshed && sameNodeSecretGraph (wr_graph w) (se_activeGraph s) then guardedHeadSequence (se_head s) (wr_graph w) else None in
  match retrySequence with
  | Some retry => if bool_decide (retry = wr_headSequence w) then writeFailed w s else ask (sq_write w true retry) s
  | None => writeFailed w s
  end.

Definition afterListing (after : option Write) (refreshed : bool) (s : Secrets) : Secrets :=
  match after with Some w => afterReread w refreshed s | None => s end.

(** *** Listings *)

Definition merged (next : Statuses) (continues : bool) (versions : WriteVersions) (s : Secrets) : Secrets :=
  set_statuses (mergeRefreshStatuses next (se_statuses s) continues versions (se_versions s)) s.

Definition refreshNodeSecretStatuses (graph : NodeSecretGraph) (graphNodes : list WorkflowNode) (after : option Write) (s : Secrets) : Secrets :=
  let generation := S (se_generation s) in
  let continues := sameNodeSecretGraph graph (se_activeGraph s) in
  let s := if continues then s else set_head None (set_versions (invalidateNodeSecretWrites (se_versions s) None) s) in
  let s := set_nodesById (nodesById graphNodes) (set_active (Some graph) generation s) in
  let versions := se_versions s in
  if negb (existsb usesSecrets graphNodes) then afterListing after true (set_statuses ∅ s)
  else ask (sq_listing graph generation continues versions after) (merged (nodeSecretStatusesWithState graphNodes secret_loading None) continues versions s).

(** The listing is of what is open, and the last one asked for. *)
Definition listingIsCurrent (graph : NodeSecretGraph) (generation : nat) (s : Secrets) : bool :=
  bool_decide (se_generation s = generation) && sameNodeSecretGraph graph (se_activeGraph s).

Definition listingFailed (continues : bool) (versions : WriteVersions) (s : Secrets) : Secrets :=
  merged (nodeSecretStatusesWithState (nodeValues s) secret_error (Some "Secret status could not be loaded.")) continues versions s.

Definition answerListing (graph : NodeSecretGraph) (generation : nat) (continues : bool) (versions : WriteVersions) (after : option Write)
    (a : SecretAnswer) (s : Secrets) : Secrets :=
  match a with
  | sa_listing project graphId headSequence secrets =>
      if negb (listingIsCurrent graph generation s) then afterListing after false s
      else if negb (bool_decide (project = sg_id graph)) || negb (bool_decide (graphId = sg_graphId graph))
      then afterListing after false (listingFailed continues versions s)
      else
        let s := set_head (Some {| sh_projectId := sg_id graph; sh_graphId := sg_graphId graph; sh_sequence := headSequence |}) s in
        afterListing after true (merged (graphNodeSecretStatuses (nodeValues s) secrets) continues versions s)
  | sa_failed _ aborted =>
      if aborted || negb (listingIsCurrent graph generation s) then afterListing after false s
      else afterListing after false (listingFailed continues versions s)
  | _ => s
  end.

(** *** Writes *)

Section writes.
Context (numberText : jsnum → string).

Definition secretInputOf (node : option WorkflowNode) (name : string) : option WorkflowNodeSecretInput :=
  node ← node;
  if data_is_supported (wn_data node) then find (λ candidate, bool_decide (si_name candidate = name)) (nodeSecretInputs (wn_spec node)) else None.

Definition prepareSecretWrite (kind : WriteKind) (nodeId name : string) (s : Secrets) : option (Write * Secrets) :=
  graph ← se_activeGraph s;
  headSequence ← guardedHeadSequence (se_head s) graph;
  node ← se_nodesById s !! nodeId;
  declared ← secretInputOf (Some node) name;
  let savedNode := (λ n, {| sb_id := n_id n; sb_operator_id := n_operator_id n; sb_operator_version := n_operator_version n; sb_config := n_config n |}) <$>
                     find (λ candidate, bool_decide (n_id candidate = nodeId)) (sg_nodes graph) in
  if negb (nodeSecretBindingReady numberText declared
             {| sb_id := wn_id node; sb_operator_id := spec_operator_id (wn_spec node); sb_operator_version := spec_operator_version (wn_spec node);
                sb_config := Val (nd_config (wn_data node)) |} savedNode)
  then None
  else
    let '(writeVersion, versions) := advanceNodeSecretWriteVersion (se_versions s) nodeId name in
    Some ({| wr_kind := kind; wr_nodeId := nodeId; wr_name := name; wr_graph := graph; wr_headSequence := headSequence; wr_writeVersion := writeVersion |},
          set_versions versions s).

(** [applyConfiguredNodeSecret] and [removeConfiguredNodeSecret] up to their request. *)
Definition startWrite (kind : WriteKind) (nodeId name : string) (s : Secrets) : Secrets :=
  match prepareSecretWrite kind nodeId name s with
  | None => s
  | Some (w, s) =>
      let state := match kind with write_apply _ => secret_applying | write_remove => secret_removing end in
      ask (sq_write w false (wr_headSequence w)) (set_statuses (setSecretStatus nodeId name {| ss_state := state; ss_message := None |} (se_statuses s)) s)
  end.

(** The answer is the success of the write. *)
Definition writeAccepted (w : Write) (a : SecretAnswer) : bool :=
  match wr_kind w, a with
  | write_apply _, sa_written nodeId name configured => bool_decide (nodeId = wr_nodeId w) && bool_decide (name = wr_name w) && configured
  | write_remove, sa_removed => true
  | _, _ => false
  end.

Definition headMovedUnderTheWrite (a : SecretAnswer) : bool :=
  match a with sa_failed status _ => bool_decide (status = Some 409%Z) | _ => false end.

Definition answerWrite (w : Write) (retried : bool) (a : SecretAnswer) (s : Secrets) : Secrets :=
  if writeAccepted w a then writeSucceeded w s
  else if negb retried && headMovedUnderTheWrite a then
    if sameNodeSecretGraph (wr_graph w) (se_activeGraph s) then refreshNodeSecretStatuses (wr_graph w) (nodeValues s) (Some w) s
    else writeFailed w s
  else writeFailed w s.

Definition clearGraphSecretStatuses (s : Secrets) : Secrets :=
  set_statuses ∅ (set_active None (S (se_generation s)) (set_head None (set_versions (invalidateNodeSecretWrites (se_versions s) None) s))).

Definition forgetNodeSecretStatuses (nodeId : string) (s : Secrets) : Secrets :=
  set_statuses (delete nodeId (se_statuses s))
    (set_nodesById (delete nodeId (se_nodesById s)) (set_versions (invalidateNodeSecretWrites (se_versions s) (Some nodeId)) s)).

(** ** Steps *)

Inductive SecretEvent :=
| sv_nodes (nodes : list WorkflowNode)
| sv_refresh (graph : NodeSecretGraph) (graphNodes : list WorkflowNode)
| sv_write (kind : WriteKind) (nodeId name : string)
| sv_clear
| sv_forget (nodeId : string)
| sv_answer (k : nat) (a : SecretAnswer).

(** The answer is one that the request can get. *)
Definition answers (r : SecretRequest) (a : SecretAnswer) : bool :=
  match r, a with
  | sq_listing _ _ _ _ _, sa_listing _ _ _ _ => true
  | sq_listing _ _ _ _ after, sa_failed _ aborted =>
      (* only the caller of a refresh can give a signal *)
      match after with Some _ => negb aborted | None => true end
  | sq_write w _ _, sa_failed _ _ => true
  | sq_write w _ _, sa_written _ _ _ => match wr_kind w with write_apply _ => true | write_remove => false end
  | sq_write w _ _, sa_removed => match wr_kind w with write_apply _ => false | write_remove => true end
  | _, _ => false
  end.

Definition answerRequest (r : SecretRequest) (a : SecretAnswer) : Secrets → Secrets :=
  match r with
  | sq_listing graph generation continues versions after => answerListing graph generation continues versions after a
  | sq_write w retried _ => answerWrite w retried a
  end.

Definition secretStep (e : SecretEvent) (s : Secrets) : Secrets :=
  match e with
  | sv_nodes nodes => set_nodesById (nodesById nodes) s
  | sv_refresh graph graphNodes => refreshNodeSecretStatuses graph graphNodes None s
  | sv_write kind nodeId name => startWrite kind nodeId name s
  | sv_clear => clearGraphSecretStatuses s
  | sv_forget nodeId => forgetNodeSecretStatuses nodeId s
  | sv_answer k a =>
      match se_requests s !! k with
      | Some r => if answers r a then answerRequest r a (set_requests (delete k (se_requests s)) s) else s
      | None => s
      end
  end.

Definition emptySecrets (nodes : list WorkflowNode) : Secrets :=
  {| se_statuses := ∅; se_activeGraph := None; se_head := None; se_generation := 0; se_versions := ∅; se_nodesById := nodesById nodes;
     se_requests := []; se_returned := [] |}.

Definition secretSteps (events : list SecretEvent) (s : Secrets) : Secrets := foldl (λ s e, secretStep e s) s events.

(** ** Heads that were read *)

(** A listing named the sequence of the head of that Graph. *)
Definition listed (events : list SecretEvent) (project graph : string) (q : Z) : Prop :=
  ∃ k secrets, sv_answer k (sa_listing project graph q secrets) ∈ events.

Record heads_read (events : list SecretEvent) (s : Secrets) : Prop := {
  hr_head : ∀ h, se_head s = Some h → listed events (sh_projectId h) (sh_graphId h) (sh_sequence h);
  hr_requests : ∀ w retried q, sq_write w retried q ∈ se_requests s → listed events (sg_id (wr_graph w)) (sg_graphId (wr_graph w)) q
}.

Lemma guarded_listed events h graph q :
  (∀ x, h = Some x → listed events (sh_projectId x) (sh_graphId x) (sh_sequence x)) →
  guardedHeadSequence h graph = Some q → listed events (sg_id graph) (sg_graphId graph) q.
Proof.
  intros Hh. unfold guardedHeadSequence. intros (x & -> & H)%bind_Some.
  repeat case_bool_decide; try done. cbn in H. injection H as <-. repeat match goal with E : _ = _ |- _ => rewrite <-E; clear E end.
  by apply Hh.
Qed.

Lemma concludeWrite_frame w status s :
  se_head (concludeWrite w status s) = se_head s ∧ se_requests (concludeWrite w status s) = se_requests s ∧
  se_returned (concludeWrite w status s) = se_returned s ∧ se_activeGraph (concludeWrite w status s) = se_activeGraph s.
Proof. unfold concludeWrite. by case_match. Qed.

Lemma heads_read_same events s s' : se_head s' = se_head s → se_requests s' = se_requests s → heads_read events s → heads_read events s'.
Proof. intros Hh Hr [H1 H2]. split; [by rewrite Hh|by rewrite Hr]. Qed.

Lemma heads_read_ended events w b status s : heads_read events s → heads_read events (returns w b (concludeWrite w status s)).
Proof. destruct (concludeWrite_frame w status s) as (H1 & H2 & _). by apply heads_read_same. Qed.

Lemma heads_read_afterListing events after b s : heads_read events s → heads_read events (afterListing after b s).
Proof.
  intros Hs. destruct after as [w|]; [|done]. cbn [afterListing]. unfold afterReread.
  destruct (b && sameNodeSecretGraph (wr_graph w) (se_activeGraph s)); [|by apply heads_read_ended].
  destruct (guardedHeadSequence (se_head s) (wr_graph w)) as [q|] eqn:Hq; [|by apply heads_read_ended].
  case_bool_decide; [by apply heads_read_ended|]. destruct Hs as [H1 H2]. split; [done|].
  intros w' r q' [Hin|Hin]%elem_of_app; [by eapply H2|]. apply list_elem_of_singleton in Hin as [= -> -> ->]. by eapply guarded_listed.
Qed.

Lemma heads_read_refresh events graph nodes after s : heads_read events s → heads_read events (refreshNodeSecretStatuses graph nodes after s).
Proof.
  intros Hs. unfold refreshNodeSecretStatuses. cbv zeta.
  match goal with |- context [set_active _ _ ?x] => assert (heads_read events x) as Hx by (case_match; [done|destruct Hs as [_ H2]; by split]) end.
  destruct (negb (existsb usesSecrets nodes)).
  - apply heads_read_afterListing. by eapply heads_read_same; [..|exact Hx].
  - destruct Hx as [H1 H2]. split; [done|]. intros w r q [Hin|Hin]%elem_of_app; [by eapply H2|]. by apply list_elem_of_singleton in Hin.
Qed.

Lemma listed_mono events e p g q : listed events p g q → listed (events ++ [e]) p g q.
Proof. intros (k & sec & H). exists k, sec. apply elem_of_app. by left. Qed.

Lemma heads_read_mono events e s : heads_read events s → heads_read (events ++ [e]) s.
Proof. intros [H1 H2]. split; intros; apply listed_mono; eauto. Qed.

Lemma heads_read_step events e s : heads_read events s → heads_read (events ++ [e]) (secretStep e s).
Proof.
  intros Hs%(heads_read_mono _ e). destruct e as [nodes|graph nodes|kind nodeId name| |nodeId|k a]; cbn [secretStep].
  - by eapply heads_read_same; [..|exact Hs].
  - by apply heads_read_refresh.
  - unfold startWrite. destruct (prepareSecretWrite kind nodeId name s) as [[w s']|] eqn:Hp; [|done].
    unfold prepareSecretWrite in Hp. apply bind_Some in Hp as (graph & Hg & Hp). apply bind_Some in Hp as (q & Hq & Hp).
    apply bind_Some in Hp as (node & _ & Hp). apply bind_Some in Hp as (i & _ & Hp). cbv zeta in Hp. case_match; [done|].
    cbn in Hp. injection Hp as <- <-. destruct Hs as [H1 H2]. split; [done|]. cbn.
    intros w r q' [Hin|Hin]%elem_of_app; [by eapply H2|]. apply list_elem_of_singleton in Hin as [= -> -> ->]. by eapply guarded_listed.
  - destruct Hs as [_ H2]. by split.
  - by eapply heads_read_same; [..|exact Hs].
  - destruct (se_requests s !! k) as [r|] eqn:Hr; [|done]. destruct (answers r a); [|done].
    assert (heads_read (events ++ [sv_answer k a]) (set_requests (delete k (se_requests s)) s)) as Hs'.
    { destruct Hs as [H1 H2]. split; [done|]. intros w ret q Hin. cbn in Hin. eapply H2. by eapply list_elem_of_delete_inv. }
    destruct r as [graph generation continues versions after|w retried q]; cbn [answerRequest].
    + unfold answerListing. destruct a as [p g q sec|? ? ?| |st ab].
      2,3: done.
      * case_match; [by apply heads_read_afterListing|]. case_match eqn:Hid.
        { apply heads_read_afterListing. by eapply heads_read_same; [..|exact Hs']. }
        apply heads_read_afterListing. apply orb_false_iff in Hid as [Hp Hg]. apply negb_false_iff, bool_decide_eq_true in Hp, Hg. subst p g.
        destruct Hs' as [_ H2]. split; [|done]. intros h [= <-]. cbn. exists k, sec. apply elem_of_app. right. by left.
      * case_match; apply heads_read_afterListing; [done|]. by eapply heads_read_same; [..|exact Hs'].
    + unfold answerWrite. repeat case_match; try by apply heads_read_ended. by apply heads_read_refresh.
Qed.

(** C34: a write never claims a head it did not read: whatever the order of answers, every
    write that is out, the repeated one too, names a sequence that the server's listing
    of the same Project and Graph gave before. *)
Theorem secret_writes_claim_a_head_that_was_read nodes events w retried q :
  sq_write w retried q ∈ se_requests (secretSteps events (emptySecrets nodes)) →
  listed events (sg_id (wr_graph w)) (sg_graphId (wr_graph w)) q.
Proof.
  assert (heads_read events (secretSteps events (emptySecrets nodes))) as [_ H]; [|apply H].
  induction events as [|e events IH] using rev_ind; [split; [done|by intros ? ? ? ?%elem_of_nil]|].
  unfold secretSteps in *. rewrite foldl_app. by apply heads_read_step.
Qed.

(** ** Writes that are out and writes that returned *)

Definition writes_of (r : SecretRequest) : option Write :=
  match r with sq_listing _ _ _ _ after => after | sq_write w _ _ => Some w end.

Definition accounted (s : Secrets) : list Write := omap writes_of (se_requests s) ++ (se_returned s).*1.

(** How many answers can still follow from a request. *)
Definition rank (r : SecretRequest) : nat :=
  match r with sq_write _ false _ => 3 | sq_listing _ _ _ _ _ => 2 | sq_write _ true _ => 1 end.

Definition work (s : Secrets) : nat := sum_list_with rank (se_requests s).

(** The write goes on with a request of a lower rank, or returns. *)
Definition carries (w : option Write) (n : nat) (s s' : Secrets) : Prop :=
  (∃ r, se_requests s' = se_requests s ++ [r] ∧ se_returned s' = se_returned s ∧ writes_of r = w ∧ rank r < n) ∨
  (se_requests s' = se_requests s ∧ (se_returned s').*1 = (se_returned s).*1 ++ option_list w).

Lemma carries_work w n s s' : 0 < n → carries w n s s' → work s' < n + work s.
Proof.
  intros Hn [(r & Hr & _ & _ & Hrank)|[Hr _]]; unfold work; rewrite Hr; [|lia]. rewrite sum_list_with_app. cbn. lia.
Qed.

Lemma carries_accounted w n s s' : carries w n s s' → accounted s' ≡ₚ option_list w ++ accounted s.
Proof.
  unfold accounted. intros [(r & -> & -> & <- & _)|[-> ->]].
  - rewrite omap_app. cbn. destruct (writes_of r); cbn; [|by rewrite app_nil_r].
    rewrite <- app_assoc. symmetry. apply Permutation_middle.
  - by rewrite app_assoc, Permutation_app_comm.
Qed.

Lemma carries_mono w n n' s s' : n ≤ n' → carries w n s s' → carries w n' s s'.
Proof. intros Hn [(r & H1 & H2 & H3 & H4)|H]; [left; exists r; split_and!; [done..|lia]|by right]. Qed.

Lemma carries_frame w n s1 s2 s' :
  se_requests s1 = se_requests s2 → se_returned s1 = se_returned s2 → carries w n s1 s' → carries w n s2 s'.
Proof. unfold carries. by intros -> ->. Qed.

Lemma carries_ended w b status n s : carries (Some w) n s (returns w b (concludeWrite w status s)).
Proof.
  destruct (concludeWrite_frame w status s) as (_ & H1 & H2 & _). right. cbn. split; [done|]. by rewrite H2, fmap_app.
Qed.

Lemma carries_afterListing after b n s : 1 < n → carries after n s (afterListing after b s).
Proof.
  intros Hn. destruct after as [w|]; cbn [afterListing]; [|right; cbn; by rewrite app_nil_r].
  unfold afterReread. destruct (if _ : bool then _ else _) as [q|]; [|apply carries_ended].
  case_bool_decide; [apply carries_ended|]. left. by exists (sq_write w true q).
Qed.

Lemma carries_refresh graph nodes after n s : 2 < n → carries after n s (refreshNodeSecretStatuses graph nodes after s).
Proof.
  intros Hn. unfold refreshNodeSecretStatuses. cbv zeta. destruct (negb (existsb usesSecrets nodes)).
  - eapply carries_frame; [..|apply carries_afterListing; lia]; by destruct (sameNodeSecretGraph graph (se_activeGraph s)).
  - left. destruct (sameNodeSecretGraph graph (se_activeGraph s)); by eexists.
Qed.

Lemma carries_answer r a s : answers r a = true → carries (writes_of r) (rank r) s (answerRequest r a s).
Proof.
  destruct r as [graph generation continues versions after|w retried q]; cbn [answers answerRequest writes_of].
  - intros Ha. unfold answerListing. destruct a as [p g q sec|? ? ?| |st ab]; try done;
      repeat case_match; (eapply carries_frame; [..|apply carries_afterListing; cbn; lia]; done).
  - intros _. unfold answerWrite. destruct retried; cbn [negb andb rank]; repeat case_match; try apply carries_ended.
    apply carries_refresh. lia.
Qed.

(** *** Versions only grow *)

Definition version (s : Secrets) (w : Write) : nat := nodeSecretWriteVersion (se_versions s) (wr_nodeId w) (wr_name w).

Definition grows (v v' : WriteVersions) : Prop := ∀ nodeId name, nodeSecretWriteVersion v nodeId name ≤ nodeSecretWriteVersion v' nodeId name.

#[local] Instance grows_preorder : PreOrder grows.
Proof. split; [by intros v n m|]. intros v1 v2 v3 H1 H2 n m. specialize (H1 n m). specialize (H2 n m). lia. Qed.

Lemma grows_invalidate v n : grows v (invalidateNodeSecretWrites v n).
Proof.
  intros nodeId name. unfold nodeSecretWriteVersion, invalidateNodeSecretWrites. rewrite map_lookup_imap.
  destruct (v !! nodeId) as [m|]; [|done]. cbn. assert (default 0 (m !! name) ≤ default 0 (advanceAll m !! name)).
  { unfold advanceAll. rewrite lookup_fmap. destruct (m !! name); cbn; lia. }
  destruct n; [case_bool_decide|]; done.
Qed.

Lemma advance_version v nodeId name nodeId' name' :
  nodeSecretWriteVersion (advanceNodeSecretWriteVersion v nodeId name).2 nodeId' name' =
  if bool_decide (nodeId' = nodeId ∧ name' = name) then (advanceNodeSecretWriteVersion v nodeId name).1
  else nodeSecretWriteVersion v nodeId' name'.
Proof.
  unfold nodeSecretWriteVersion, advanceNodeSecretWriteVersion. cbn. case_bool_decide as H.
  - destruct H as [-> ->]. by rewrite lookup_insert_eq; cbn; rewrite lookup_insert_eq.
  - destruct (decide (nodeId' = nodeId)) as [-> |Hn]; [|by rewrite lookup_insert_ne].
    rewrite lookup_insert_eq. cbn. rewrite lookup_insert_ne by naive_solver. by destruct (v !! nodeId).
Qed.

Lemma advance_first v nodeId name : (advanceNodeSecretWriteVersion v nodeId name).1 = S (nodeSecretWriteVersion v nodeId name).
Proof. unfold advanceNodeSecretWriteVersion, nodeSecretWriteVersion. cbn. by destruct (v !! nodeId). Qed.

Lemma grows_advance v nodeId name : grows v (advanceNodeSecretWriteVersion v nodeId name).2.
Proof. intros n m. rewrite advance_version. case_bool_decide as H; [|done]. destruct H as [-> ->]. rewrite advance_first. lia. Qed.

Lemma grows_ended w b status s : grows (se_versions s) (se_versions (returns w b (concludeWrite w status s))).
Proof. unfold concludeWrite. destruct (writeIsCurrent w s); [apply grows_advance|done]. Qed.

Lemma grows_afterListing after b s : grows (se_versions s) (se_versions (afterListing after b s)).
Proof. destruct after as [w|]; [|done]. cbn [afterListing]. unfold afterReread. repeat case_match; first [apply grows_ended|done]. Qed.

Lemma grows_refresh graph nodes after s : grows (se_versions s) (se_versions (refreshNodeSecretStatuses graph nodes after s)).
Proof.
  unfold refreshNodeSecretStatuses. cbv zeta. destruct (sameNodeSecretGraph graph (se_activeGraph s)), (negb (existsb usesSecrets nodes));
    first [done | etrans; [|apply grows_afterListing]; done | etrans; [|apply grows_afterListing]; apply grows_invalidate | apply grows_invalidate].
Qed.

Lemma grows_answer r a s : grows (se_versions s) (se_versions (answerRequest r a s)).
Proof.
  destruct r as [graph generation continues versions after|w retried q]; cbn [answerRequest].
  - unfold answerListing. destruct a; try done; repeat case_match; (etrans; [|apply grows_afterListing]; done).
  - unfold answerWrite. repeat case_match; try apply grows_ended. apply grows_refresh.
Qed.

(** *** Every write ends once *)

Definition write_key (w : Write) : string * string * nat := (wr_nodeId w, wr_name w, wr_writeVersion w).

Definition same_secret (w w' : Write) : Prop := wr_nodeId w = wr_nodeId w' ∧ wr_name w = wr_name w'.

Lemma omap_Permutation {A B} (f : A → option B) (l l' : list A) : l ≡ₚ l' → omap f l ≡ₚ omap f l'.
Proof. induction 1; cbn; repeat case_match; [done|by f_equiv|done|constructor|done..|by etrans]. Qed.

Lemma sum_list_with_Permutation {A} (f : A → nat) (l l' : list A) : l ≡ₚ l' → sum_list_with f l = sum_list_with f l'.
Proof. induction 1; cbn; lia. Qed.

Lemma accounted_step e s :
  grows (se_versions s) (se_versions (secretStep e s)) ∧
  (accounted (secretStep e s) ≡ₚ accounted s ∨
   ∃ w, accounted (secretStep e s) ≡ₚ w :: accounted s ∧ wr_writeVersion w = S (version s w) ∧ version (secretStep e s) w = wr_writeVersion w).
Proof.
  destruct e as [nodes|graph nodes|kind nodeId name| |nodeId|k a]; cbn [secretStep].
  - split; [done|by left].
  - split; [apply grows_refresh|left]. exact (carries_accounted _ _ _ _ (carries_refresh graph nodes None 3 s ltac:(lia))).
  - unfold startWrite. destruct (prepareSecretWrite kind nodeId name s) as [[w s']|] eqn:Hp; [|split; [done|by left]].
    unfold prepareSecretWrite in Hp. apply bind_Some in Hp as (graph & _ & Hp). apply bind_Some in Hp as (q & _ & Hp).
    apply bind_Some in Hp as (node & _ & Hp). apply bind_Some in Hp as (i & _ & Hp). cbv zeta in Hp. case_match; [done|].
    rewrite (surjective_pairing (advanceNodeSecretWriteVersion _ _ _)) in Hp. injection Hp as <- <-.
    split; [apply grows_advance|right]. match goal with |- context [sq_write ?x] => exists x end. split_and!.
    + eapply (carries_accounted (Some _) 4). left. eexists. split_and!; [done..|cbn; lia].
    + apply advance_first.
    + etrans; [apply advance_version|]. by rewrite bool_decide_true.
  - split; [apply grows_invalidate|by left].
  - split; [apply grows_invalidate|by left].
  - destruct (se_requests s !! k) as [r|] eqn:Hr; [|split; [done|by left]]. destruct (answers r a) eqn:Ha; [|split; [done|by left]].
    split; [etrans; [|apply grows_answer]; done|left].
    rewrite (carries_accounted _ _ _ _ (carries_answer r a _ Ha)). unfold accounted. cbn [se_requests se_returned set_requests].
    rewrite app_assoc. f_equiv. etrans; [|symmetry; apply omap_Permutation, (delete_Permutation _ _ _ Hr)]. cbn. by destruct (writes_of r).
Qed.

Lemma key_unique (l : list Write) w w' : NoDup (write_key <$> l) → w ∈ l → w' ∈ l → write_key w = write_key w' → w = w'.
Proof.
  induction l as [|x l IH]; [by intros _ ?%elem_of_nil|]. cbn. intros [Hx Hl]%NoDup_cons.
  assert (∀ y, y ∈ l → write_key y ≠ write_key x) as Hne by (intros y Hy Hk; apply Hx, list_elem_of_fmap; by exists y).
  intros [-> |Hw]%elem_of_cons [-> |Hw']%elem_of_cons Hk; [done|by destruct (Hne w')|by destruct (Hne w)|by apply IH].
Qed.

Definition writes_apart (s : Secrets) : Prop :=
  NoDup (write_key <$> accounted s) ∧ ∀ w, w ∈ accounted s → wr_writeVersion w ≤ version s w.

Lemma writes_apart_step e s : writes_apart s → writes_apart (secretStep e s).
Proof.
  intros [Hnd Hle]. destruct (accounted_step e s) as [Hg [Hacc|(w & Hacc & Hw & Hw')]]; unfold writes_apart; rewrite Hacc; split; try done.
  - intros w Hw. rewrite Hacc in Hw. etrans; [by apply Hle|apply Hg].
  - cbn. apply NoDup_cons. split; [|done]. intros (w' & [= H1 H2 H3] & Hin)%list_elem_of_fmap. specialize (Hle w' Hin).
    unfold version in *. rewrite H1, H2 in Hw. lia.
  - intros w' [-> |Hin]%(elem_of_Permutation_proper w' _ _ Hacc)%elem_of_cons; [by rewrite Hw'|]. etrans; [by apply Hle|apply Hg].
Qed.

Lemma writes_apart_reachable nodes events : writes_apart (secretSteps events (emptySecrets nodes)).
Proof.
  unfold secretSteps. induction events as [|e events IH] using rev_ind; [|rewrite foldl_app; by apply writes_apart_step].
  split; [constructor|by intros w ?%elem_of_nil].
Qed.

(** However answers interleave, a write of a secret is out once or has returned once,
    and is never lost; and of all writes ever made of one secret at most one can still
    change its status: an overtaken answer changes nothing. *)
Theorem a_secret_write_ends_once nodes events :
  let s := secretSteps events (emptySecrets nodes) in
  NoDup (write_key <$> accounted s) ∧
  (∀ e, accounted s ⊆+ accounted (secretStep e s)) ∧
  (∀ w w', w ∈ accounted s → w' ∈ accounted s → same_secret w w' → writeIsCurrent w s = true → writeIsCurrent w' s = true → w = w') ∧
  (∀ w b status, writeIsCurrent w s = false → se_statuses (returns w b (concludeWrite w status s)) = se_statuses s).
Proof.
  cbv zeta. destruct (writes_apart_reachable nodes events) as [Hnd Hle]. set (s := secretSteps _ _) in *. split_and!; [done|..].
  - intros e. destruct (accounted_step e s) as [_ [-> |(w & -> & _)]]; [done|by apply submseteq_cons].
  - intros w w' Hw Hw' [H1 H2] Hc Hc'. apply (key_unique (accounted s)); [done..|]. unfold writeIsCurrent in *.
    apply andb_true_iff in Hc as [_ Hc], Hc' as [_ Hc']. apply bool_decide_eq_true in Hc, Hc'. unfold write_key. congruence.
  - intros w b status Hc. unfold concludeWrite. by rewrite Hc.
Qed.

(** Every answer of the list is taken by a request that is out. *)
Fixpoint all_taken (l : list (nat * SecretAnswer)) (s : Secrets) : Prop :=
  match l with
  | [] => True
  | (k, a) :: l => (∃ r, se_requests s !! k = Some r ∧ answers r a = true) ∧ all_taken l (secretStep (sv_answer k a) s)
  end.

(** C35: requests run out: a conflict is answered by one listing and one repeated write, so
    a state with n requests takes at most 3 n answers, whatever they say. *)
Theorem secret_answers_run_out l s : all_taken l s → length l ≤ 3 * length (se_requests s).
Proof.
  intros Hl. assert (work s ≤ 3 * length (se_requests s)) as Hw.
  { unfold work. induction (se_requests s) as [|r rs IH]; cbn; [done|]. destruct r as [| ? []]; cbn; lia. }
  etrans; [|exact Hw]. clear Hw. revert s Hl. induction l as [|[k a] l IH]; [cbn; lia|]. intros s [(r & Hr & Ha) Hl%IH].
  assert (work (secretStep (sv_answer k a) s) < work s); [|cbn; lia]. clear Hl. cbn [secretStep]. rewrite Hr, Ha.
  assert (0 < rank r) as Hpos by (destruct r as [| ? []]; cbn; lia).
  pose proof (carries_work _ _ _ _ Hpos (carries_answer r a (set_requests (delete k (se_requests s)) s) Ha)) as Hlt.
  assert (work s = rank r + work (set_requests (delete k (se_requests s)) s)) as ->; [|done].
  unfold work. cbn [se_requests set_requests]. exact (sum_list_with_Permutation rank _ _ (delete_Permutation _ _ _ Hr)).
Qed.
End writes.

(** ** Witnesses *)

Definition sample_node : WorkflowNode :=
  {| wn_id := "n1"; wn_selected := None; wn_position := {| pt_x := num 0; pt_y := num 0 |};
     wn_data :=
       {| nd_spec := sample_secret_spec; nd_compatibility := supported; nd_artifactTypeBindings := []; nd_inputPlugs := []; nd_mappedInputPorts := [];
          nd_config := [("url", JStr "u")]; nd_layout := None; nd_run := None; nd_execution := idleExecution; nd_progress := None;
          nd_x := JUndefined; nd_y := JUndefined |} |}.

Definition sample_graph : NodeSecretGraph :=
  {| sg_id := "p1"; sg_graphId := "g1"; sg_revision := 4;
     sg_nodes := [{| n_artifact_type_bindings := []; n_config := Val [("url", JStr "u")]; n_id := "n1"; n_kind := KModule; n_input_plugs := [];
                     n_layout := Undef; n_operator_id := "http.fetch"; n_operator_version := num 1;
                     n_position := {| pt_x := num 0; pt_y := num 0 |} |}] |}.

(** A write that meets a moved head, and is sent again. *)
Definition sample_events : list SecretEvent :=
  [sv_refresh sample_graph [sample_node]; sv_answer 0 (sa_listing "p1" "g1" 7 []); sv_write (write_apply "key") "n1" "api_key";
   sv_answer 0 (sa_failed (Some 409) false); sv_answer 0 (sa_listing "p1" "g1" 9 [])]%Z.

Definition sample_write : Write :=
  {| wr_kind := write_apply "key"; wr_nodeId := "n1"; wr_name := "api_key"; wr_graph := sample_graph; wr_headSequence := 7; wr_writeVersion := 1 |}.

Lemma secret_writes_claim_a_head_that_was_read_witness :
  se_requests (secretSteps fractionText sample_events (emptySecrets [sample_node])) = [sq_write sample_write true 9] ∧ listed sample_events "p1" "g1" 9.
Proof.
  assert (se_requests (secretSteps fractionText sample_events (emptySecrets [sample_node])) = [sq_write sample_write true 9]) as H by (vm_compute; reflexivity).
  split; [exact H|].
  apply (secret_writes_claim_a_head_that_was_read fractionText [sample_node] sample_events sample_write true 9). rewrite H. by left.
Defined.

Lemma secret_answers_run_out_witness :
  length [(0, sa_failed (Some 409%Z) false); (0, sa_listing "p1" "g1" 9 []); (0, sa_written "n1" "api_key" true)] ≤ 3 * 1.
Proof.
  apply (secret_answers_run_out fractionText _ (secretSteps fractionText (take 3 sample_events) (emptySecrets [sample_node]))).
  split; [eexists; vm_compute; by split|]. split; [eexists; vm_compute; by split|]. split; [eexists; vm_compute; by split|exact I].
Defined.
