(* ===== verification/Lifecycle.v ===== *)
(** * The lifecycle of a saved Graph ([ui/useSavedGraphLifecycle.ts])

    The hook that opens, saves, deletes and leaves the Graph of a canvas, follows the
    room's head, and knows what is unsaved.  It is asynchronous: an open, a save and a
    delete each send requests and go on when these are answered, in any order with other
    answers, edits and navigations.  A generation of the document and the abort signal of
    an open keep late answers away from the canvas.

    The model is a step function on the hook's state and refs, the canvas it replaces and
    the requests that are out.  A request carries what its closure captured.  React renders
    and runs its effects after every event ([commit]); the route effect runs when one of
    its dependencies changed, and a render may say that a callback it depends on did.
    Calls into other components are logged.  Node callbacks that are attached to opened
    nodes are functions and left out.  Parameters: those of [Fingerprints]; ids that the
    source draws at random, the location's path and a failure of the router are given by
    the event. *)

From stdpp Require Import numbers list gmap.
From S2P Require Import Prelude Js JsText JsJson GraphModel GraphCommands GraphTheory RoomBridge Handles Routes Fingerprints FingerprintTheory SecretWrites Hydration Canvas.

(** ** Reading a Graph off a head *)

Definition graphFromProjectHead (head : CollaborativeHead) (graphId : string) : option SavedGraph :=
  graph ← find_id graphId (h_graphs head);
  Some {| sv_id := g_id graph; sv_name := g_name graph; sv_revision := h_collaboration_sequence head;
          sv_created_at := h_updated_at head; sv_updated_at := h_updated_at head; sv_document := g_document graph |}.

(** The Graph that was open, or else the first. *)
Definition openGraphOf (head : CollaborativeHead) (preferred : option string) : option SavedGraph :=
  let preferredGraph := preferred ≫= λ i, find_id i (h_graphs head) in
  chosen ← match preferredGraph with Some g => Some g | None => hd_error (h_graphs head) end;
  graphFromProjectHead head (g_id chosen).

Definition activeGraphFrom (head : CollaborativeHead) (graph : SavedGraph) : NodeSecretGraph :=
  {| sg_id := h_project_id head; sg_graphId := sv_id graph; sg_revision := h_collaboration_sequence head; sg_nodes := d_nodes (sv_document graph) |}.

Definition emptyGraphPresentation : GraphPresentation := {| viewers := []; links := []; bindings := []; annotations := [] |}.

Definition presentationOf (graph : SavedGraph) : GraphPresentation := jsopt_or (d_presentation (sv_document graph)) emptyGraphPresentation.

Definition documentOfGraph (graph : SavedGraph) : AuthoredGraphDocument :=
  {| name := sv_name graph; nodes := d_nodes (sv_document graph); edges := d_edges (sv_document graph); origins := d_origins (sv_document graph);
     agents := jsopt_or (d_agents (sv_document graph)) [] |}.

(** The draft of what a saved Graph puts on the canvas. *)
Definition draftOfGraph (graph : SavedGraph) : GraphDraft := createGraphDraft (documentOfGraph graph) (Val (presentationOf graph)).

(** ** State *)

Definition NEW_PROJECT_ROUTE_ID : string := "new".

Definition blankDocument : AuthoredGraphDocument := {| name := NEW_GRAPH_NAME; nodes := []; edges := []; origins := []; agents := [] |}.

(** What a request can be rejected with. *)
Inductive LifeError := life_api (status : Z) (detail message : string) | life_error (message : string) | life_other.

Definition lifeMessage (fallback : string) (e : LifeError) : string :=
  match e with life_api _ _ message | life_error message => message | life_other => fallback end.

Record LifeProps := {
  lp_initialGraphId : option string;
  lp_registry : option NodeRegistry;
  lp_executionRunning : bool;
  (** the room's adapter, and whether it can persist *)
  lp_roomPersistence : option bool;
  lp_hasUnsyncedRoomEdits : bool
}.

Record LifeView := {
  lw_activeGraph : option NodeSecretGraph;
  lw_savedFingerprint : option string;
  lw_savedExecutionFingerprint : option string;
  lw_saving : bool;
  lw_openingGraphId : option string;
  lw_deletingGraphId : option string;
  lw_persistenceError : option string;
  lw_graphBrowserOpen : bool
}.

Record LifeRefs := {
  lf_approvedRouteGraphId : option string;
  lf_openGraphId : option string;
  (** the abort controller of the last open, and the ones that were aborted *)
  lf_openRequest : option nat;
  lf_aborted : list nat;
  lf_controllers : nat;
  lf_generation : nat;
  lf_mounted : bool;
  lf_currentFingerprint : string;
  lf_presentation : GraphPresentation
}.

Record LifeCanvas := { lc_document : AuthoredGraphDocument; lc_presentation : GraphPresentation }.

(** The nodes whose secrets are listed: those of an opened Graph, or the canvas' own. *)
Inductive SecretNodes := opened_nodes (l : list WorkflowNode) | canvas_nodes.

Inductive LifeEffect :=
| le_replaceDocument (document : AuthoredGraphDocument) (overlay : option (list WorkflowNode))
| le_replacePresentation (presentation : GraphPresentation)
| le_clearSecrets
| le_refreshSecrets (graph : NodeSecretGraph) (secretNodes : SecretNodes)
| le_clearPendingRoute
| le_clearRunError
| le_closeNodeLibrary
| le_requestRefit
| le_refreshSummaries
| le_refreshRegistry
| le_push (projectId : string)
| le_replace (projectId : string).

(** What the closure of an open, a save or a delete holds on to. *)
Record Opening := {
  og_graphId : string;
  og_fingerprint : string;
  og_generation : nat;
  og_controller : nat;
  og_registry : NodeRegistry
}.

Record Saving := {
  sw_activeGraph : option NodeSecretGraph;
  sw_draft : GraphDraft;
  sw_generation : nat;
  sw_registry : option NodeRegistry
}.

Record Deleting := {
  dg_graphId : string;
  dg_active : bool;
  dg_fingerprint : string;
  dg_generation : nat
}.

Inductive LifeRequest :=
| lr_openHead (o : Opening)
| lr_openSnapshot (o : Opening) (head : CollaborativeHead) (graph : SavedGraph)
| lr_openSecrets (o : Opening) (storedResultWarning : option string)
| lr_persist (sv : Saving) (graphId : string)
| lr_create (sv : Saving) (graphId : string)
| lr_saveHead (sv : Saving) (projectId graphId : string)
| lr_submit (sv : Saving) (projectId graphId : string) (observed_sequence : Z) (room_epoch : string)
| lr_checkpoint (sv : Saving) (projectId : string) (expected_room_epoch : string) (expected_sequence : Z)
| lr_saveSecrets (sv : Saving)
| lr_delete (dg : Deleting).

Inductive LifeAnswer :=
| la_head (head : CollaborativeHead)
| la_snapshot (results : list RunNodeResult)
| la_secrets
| la_persisted (checkpointHead currentHead : CollaborativeHead)
| la_project (id : string)
| la_submitted (head : CollaborativeHead) (accepted_sequence : Z)
| la_deleted
| la_rejected (e : LifeError).

Record Life := {
  li_view : LifeView;
  li_refs : LifeRefs;
  li_canvas : LifeCanvas;
  li_props : LifeProps;
  (** what the route effect last depended on: the Project shown, the route, the
      fingerprint, and whether there was a registry *)
  li_deps : option (option string * option string * string * bool);
  li_requests : list LifeRequest;
  li_effects : list LifeEffect
}.

(** ** Setters *)

Definition on_view (f : LifeView → LifeView) (s : Life) : Life :=
  {| li_view := f (li_view s); li_refs := li_refs s; li_canvas := li_canvas s; li_props := li_props s; li_deps := li_deps s;
     li_requests := li_requests s; li_effects := li_effects s |}.
Definition on_refs (f : LifeRefs → LifeRefs) (s : Life) : Life :=
  {| li_view := li_view s; li_refs := f (li_refs s); li_canvas := li_canvas s; li_props := li_props s; li_deps := li_deps s;
     li_requests := li_requests s; li_effects := li_effects s |}.
Definition on_canvas (f : LifeCanvas → LifeCanvas) (s : Life) : Life :=
  {| li_view := li_view s; li_refs := li_refs s; li_canvas := f (li_canvas s); li_props := li_props s; li_deps := li_deps s;
     li_requests := li_requests s; li_effects := li_effects s |}.
Definition with_props (p : LifeProps) (s : Life) : Life :=
  {| li_view := li_view s; li_refs := li_refs s; li_canvas := li_canvas s; li_props := p; li_deps := li_deps s;
     li_requests := li_requests s; li_effects := li_effects s |}.
Definition with_deps (d : option (option string * option string * string * bool)) (s : Life) : Life :=
  {| li_view := li_view s; li_refs := li_refs s; li_canvas := li_canvas s; li_props := li_props s; li_deps := d;
     li_requests := li_requests s; li_effects := li_effects s |}.
Definition with_requests (l : list LifeRequest) (s : Life) : Life :=
  {| li_view := li_view s; li_refs := li_refs s; li_canvas := li_canvas s; li_props := li_props s; li_deps := li_deps s;
     li_requests := l; li_effects := li_effects s |}.
Definition sends (r : LifeRequest) (s : Life) : Life := with_requests (li_requests s ++ [r]) s.
Definition calls (e : LifeEffect) (s : Life) : Life :=
  {| li_view := li_view s; li_refs := li_refs s; li_canvas := li_canvas s; li_props := li_props s; li_deps := li_deps s;
     li_requests := li_requests s; li_effects := li_effects s ++ [e] |}.

Definition setActiveGraph (g : option NodeSecretGraph) : Life → Life := on_view (λ v,
  {| lw_activeGraph := g; lw_savedFingerprint := lw_savedFingerprint v; lw_savedExecutionFingerprint := lw_savedExecutionFingerprint v;
     lw_saving := lw_saving v; lw_openingGraphId := lw_openingGraphId v; lw_deletingGraphId := lw_deletingGraphId v;
     lw_persistenceError := lw_persistenceError v; lw_graphBrowserOpen := lw_graphBrowserOpen v |}).
Definition setSavedFingerprints (f x : option string) : Life → Life := on_view (λ v,
  {| lw_activeGraph := lw_activeGraph v; lw_savedFingerprint := f; lw_savedExecutionFingerprint := x;
     lw_saving := lw_saving v; lw_openingGraphId := lw_openingGraphId v; lw_deletingGraphId := lw_deletingGraphId v;
     lw_persistenceError := lw_persistenceError v; lw_graphBrowserOpen := lw_graphBrowserOpen v |}).
Definition setSaving (b : bool) : Life → Life := on_view (λ v,
  {| lw_activeGraph := lw_activeGraph v; lw_savedFingerprint := lw_savedFingerprint v; lw_savedExecutionFingerprint := lw_savedExecutionFingerprint v;
     lw_saving := b; lw_openingGraphId := lw_openingGraphId v; lw_deletingGraphId := lw_deletingGraphId v;
     lw_persistenceError := lw_persistenceError v; lw_graphBrowserOpen := lw_graphBrowserOpen v |}).
Definition setOpeningGraphId (i : option string) : Life → Life := on_view (λ v,
  {| lw_activeGraph := lw_activeGraph v; lw_savedFingerprint := lw_savedFingerprint v; lw_savedExecutionFingerprint := lw_savedExecutionFingerprint v;
     lw_saving := lw_saving v; lw_openingGraphId := i; lw_deletingGraphId := lw_deletingGraphId v;
     lw_persistenceError := lw_persistenceError v; lw_graphBrowserOpen := lw_graphBrowserOpen v |}).
Definition setDeletingGraphId (i : option string) : Life → Life := on_view (λ v,
  {| lw_activeGraph := lw_activeGraph v; lw_savedFingerprint := lw_savedFingerprint v; lw_savedExecutionFingerprint := lw_savedExecutionFingerprint v;
     lw_saving := lw_saving v; lw_openingGraphId := lw_openingGraphId v; lw_deletingGraphId := i;
     lw_persistenceError := lw_persistenceError v; lw_graphBrowserOpen := lw_graphBrowserOpen v |}).
Definition setPersistenceError (m : option string) : Life → Life := on_view (λ v,
  {| lw_activeGraph := lw_activeGraph v; lw_savedFingerprint := lw_savedFingerprint v; lw_savedExecutionFingerprint := lw_savedExecutionFingerprint v;
     lw_saving := lw_saving v; lw_openingGraphId := lw_openingGraphId v; lw_deletingGraphId := lw_deletingGraphId v;
     lw_persistenceError := m; lw_graphBrowserOpen := lw_graphBrowserOpen v |}).
Definition setGraphBrowserOpen (b : bool) : Life → Life := on_view (λ v,
  {| lw_activeGraph := lw_activeGraph v; lw_savedFingerprint := lw_savedFingerprint v; lw_savedExecutionFingerprint := lw_savedExecutionFingerprint v;
     lw_saving := lw_saving v; lw_openingGraphId := lw_openingGraphId v; lw_deletingGraphId := lw_deletingGraphId v;
     lw_persistenceError := lw_persistenceError v; lw_graphBrowserOpen := b |}).

Definition setApprovedRoute (i : option string) : Life → Life := on_refs (λ r,
  {| lf_approvedRouteGraphId := i; lf_openGraphId := lf_openGraphId r; lf_openRequest := lf_openRequest r; lf_aborted := lf_aborted r;
     lf_controllers := lf_controllers r; lf_generation := lf_generation r; lf_mounted := lf_mounted r;
     lf_currentFingerprint := lf_currentFingerprint r; lf_presentation := lf_presentation r |}).
Definition setOpenGraphId (i : option string) : Life → Life := on_refs (λ r,
  {| lf_approvedRouteGraphId := lf_approvedRouteGraphId r; lf_openGraphId := i; lf_openRequest := lf_openRequest r; lf_aborted := lf_aborted r;
     lf_controllers := lf_controllers r; lf_generation := lf_generation r; lf_mounted := lf_mounted r;
     lf_currentFingerprint := lf_currentFingerprint r; lf_presentation := lf_presentation r |}).
Definition setOpenRequest (c : option nat) : Life → Life := on_refs (λ r,
  {| lf_approvedRouteGraphId := lf_approvedRouteGraphId r; lf_openGraphId := lf_openGraphId r; lf_openRequest := c; lf_aborted := lf_aborted r;
     lf_controllers := lf_controllers r; lf_generation := lf_generation r; lf_mounted := lf_mounted r;
     lf_currentFingerprint := lf_currentFingerprint r; lf_presentation := lf_presentation r |}).
Definition setMounted (b : bool) : Life → Life := on_refs (λ r,
  {| lf_approvedRouteGraphId := lf_approvedRouteGraphId r; lf_openGraphId := lf_openGraphId r; lf_openRequest := lf_openRequest r; lf_aborted := lf_aborted r;
     lf_controllers := lf_controllers r; lf_generation := lf_generation r; lf_mounted := b;
     lf_currentFingerprint := lf_currentFingerprint r; lf_presentation := lf_presentation r |}).

(** [documentGenerationRef.current += 1; openRequestRef.current?.abort()] *)
Definition supersede : Life → Life := on_refs (λ r,
  {| lf_approvedRouteGraphId := lf_approvedRouteGraphId r; lf_openGraphId := lf_openGraphId r; lf_openRequest := lf_openRequest r;
     lf_aborted := option_list (lf_openRequest r) ++ lf_aborted r;
     lf_controllers := lf_controllers r; lf_generation := S (lf_generation r); lf_mounted := lf_mounted r;
     lf_currentFingerprint := lf_currentFingerprint r; lf_presentation := lf_presentation r |}).

(** [openRequestRef.current = new AbortController()] *)
Definition newController (s : Life) : Life := on_refs (λ r,
  {| lf_approvedRouteGraphId := lf_approvedRouteGraphId r; lf_openGraphId := lf_openGraphId r; lf_openRequest := Some (lf_controllers r);
     lf_aborted := lf_aborted r; lf_controllers := S (lf_controllers r); lf_generation := lf_generation r; lf_mounted := lf_mounted r;
     lf_currentFingerprint := lf_currentFingerprint r; lf_presentation := lf_presentation r |}) s.

Definition rememberCanvas (fingerprint : string) (presentation : GraphPresentation) : Life → Life := on_refs (λ r,
  {| lf_approvedRouteGraphId := lf_approvedRouteGraphId r; lf_openGraphId := lf_openGraphId r; lf_openRequest := lf_openRequest r; lf_aborted := lf_aborted r;
     lf_controllers := lf_controllers r; lf_generation := lf_generation r; lf_mounted := lf_mounted r;
     lf_currentFingerprint := fingerprint; lf_presentation := presentation |}).

(** The canvas takes a document through the authoring reducer, which normalizes it. *)
Definition replaceDocument (d : AuthoredGraphDocument) (overlay : option (list WorkflowNode)) (s : Life) : Life :=
  calls (le_replaceDocument d overlay) (on_canvas (λ c, {| lc_document := normalize d; lc_presentation := lc_presentation c |}) s).
Definition replacePresentation (p : GraphPresentation) (s : Life) : Life :=
  calls (le_replacePresentation p) (on_canvas (λ c, {| lc_document := lc_document c; lc_presentation := p |}) s).

Declare Scope life_scope.
Notation "f >>> g" := (λ s : Life, g (f s)) (at level 60, right associativity) : life_scope.
#[local] Open Scope life_scope.

(** ** The hook *)

Section lifecycle.
Context (numberText : jsnum → string) (localeCompare : string → string → Z).

Definition draftFingerprint (g : GraphDraft) : string := savedGraphFingerprint numberText localeCompare g.
Definition draftExecutionFingerprint (g : GraphDraft) : string := savedGraphExecutionFingerprint numberText localeCompare g.

Definition currentDraft (s : Life) : GraphDraft := createGraphDraft (lc_document (li_canvas s)) (Val (lc_presentation (li_canvas s))).

Definition lifeDirtiness (s : Life) : SavedGraphDirtiness :=
  savedGraphDirtiness
    {| di_document := lc_document (li_canvas s); di_presentation := lc_presentation (li_canvas s);
       di_hasActiveGraph := bool_decide (is_Some (lw_activeGraph (li_view s)));
       di_currentFingerprint := draftFingerprint (currentDraft s); di_savedFingerprint := lw_savedFingerprint (li_view s);
       di_currentExecutionFingerprint := draftExecutionFingerprint (currentDraft s);
       di_savedExecutionFingerprint := lw_savedExecutionFingerprint (li_view s);
       di_hasUnsyncedRoomEdits := lp_hasUnsyncedRoomEdits (li_props s); di_saving := lw_saving (li_view s);
       di_openingGraphId := lw_openingGraphId (li_view s); di_deletingGraphId := lw_deletingGraphId (li_view s) |}.

Definition rememberSavedDraft (draft : GraphDraft) : Life → Life :=
  setSavedFingerprints (Some (draftFingerprint draft)) (Some (draftExecutionFingerprint draft)).

(** *** Leaving a Graph *)

Definition showBlankGraph : Life → Life :=
  supersede >>> replaceDocument blankDocument (Some []) >>> replacePresentation emptyGraphPresentation >>> calls le_clearSecrets >>>
  setActiveGraph None >>> setSavedFingerprints None None >>> calls le_clearPendingRoute >>> calls le_clearRunError >>>
  setPersistenceError None >>> calls le_closeNodeLibrary >>> calls le_requestRefit.

Definition requestNewGraph (onNewPath : bool) : Life → Life :=
  setGraphBrowserOpen false >>>
  (if onNewPath then showBlankGraph
   else supersede >>> setApprovedRoute (Some NEW_PROJECT_ROUTE_ID) >>> calls (le_push NEW_PROJECT_ROUTE_ID)).

Definition purgeLocalGraphState : Life → Life :=
  supersede >>> setActiveGraph None >>> setSavedFingerprints None None >>> setPersistenceError None >>> setGraphBrowserOpen false >>>
  calls le_clearSecrets >>> calls le_clearPendingRoute >>> calls le_clearRunError >>> calls le_closeNodeLibrary >>>
  replaceDocument blankDocument (Some []) >>> replacePresentation emptyGraphPresentation.

(** *** The room's head *)

Definition headIsCheckpointed (head : CollaborativeHead) : bool := (h_collaboration_sequence head =? h_checkpoint_sequence head)%Z.

(** The nodes of a checkpointed head, built before its secrets are listed; building them
    can throw. *)
Definition checkpointNodes (registry : option NodeRegistry) (d : AuthoredGraphDocument) : res SecretNodes :=
  match registry with
  | Some registry => hydrated ← hydrateAuthoredGraphDocument numberText d registry []; Ok (opened_nodes (hy_nodes hydrated))
  | None => Ok canvas_nodes
  end.

(** The state it leaves, and what it throws. *)
Definition syncFromCollaborativeHead (registry : option NodeRegistry) (head : CollaborativeHead) (s : Life) : Life * option string :=
  match openGraphOf head (lf_openGraphId (li_refs s)) with
  | None => (s, None)
  | Some openedGraph =>
      let nextActiveGraph := activeGraphFrom head openedGraph in
      let s :=
        (setOpenGraphId (Some (sv_id openedGraph)) >>> setApprovedRoute (Some (h_project_id head)) >>>
         (if headIsCheckpointed head then setActiveGraph (Some nextActiveGraph) >>> rememberSavedDraft (draftOfGraph openedGraph)
          else setSavedFingerprints None None) >>>
         setPersistenceError None >>> replaceDocument (documentOfGraph openedGraph) None >>> replacePresentation (presentationOf openedGraph)) s in
      if headIsCheckpointed head then
        match checkpointNodes registry (documentOfGraph openedGraph) with
        | Ok secretNodes => (calls (le_refreshSecrets nextActiveGraph secretNodes) s, None)
        | Throw message => (s, Some message)
        end
      else (s, None)
  end.

(** *** Opening *)

(** The part that only routes. *)
Definition openByAddress (graphId : string) (pushError : option LifeError) (s : Life) : Life :=
  let s := setGraphBrowserOpen false s in
  if bool_decide (sg_id <$> lw_activeGraph (li_view s) = Some graphId) then s
  else
    let s := (supersede >>> setApprovedRoute (Some graphId) >>> setOpeningGraphId (Some graphId)) s in
    match pushError with
    | None => calls (le_push graphId) s
    | Some e =>
        (setApprovedRoute None >>>
         (if bool_decide (lw_openingGraphId (li_view s) = Some graphId) then setOpeningGraphId None else λ s, s) >>>
         setPersistenceError (Some (match e with
                                    | life_api _ _ message | life_error message => "Could not navigate to the graph: " +:+ message
                                    | life_other => "Could not navigate to the graph."
                                    end))) s
    end.

(** The part that loads, up to its request. *)
Definition openByLoading (registry : NodeRegistry) (graphId : string) (s : Life) : Life :=
  let openingFingerprint := draftFingerprint (currentDraft s) in
  let s := (supersede >>> newController >>> setOpeningGraphId (Some graphId) >>> setPersistenceError None) s in
  sends (lr_openHead {| og_graphId := graphId; og_fingerprint := openingFingerprint; og_generation := lf_generation (li_refs s);
                        og_controller := default 0 (lf_openRequest (li_refs s)); og_registry := registry |}) s.

Definition openSavedGraph (graphId : string) (updateAddress : bool) (pushError : option LifeError) (s : Life) : Life :=
  match lp_registry (li_props s) with
  | None => setPersistenceError (Some "The live node registry must load before a graph can open.") s
  | Some registry => if updateAddress then openByAddress graphId pushError s else openByLoading registry graphId s
  end.

Definition openAborted (o : Opening) (s : Life) : bool := bool_decide (og_controller o ∈ lf_aborted (li_refs s)).

(** [mountedRef.current && documentGenerationRef.current === documentGeneration] *)
Definition generationCurrent (generation : nat) (s : Life) : bool := lf_mounted (li_refs s) && (lf_generation (li_refs s) =? generation).

Definition openCurrent (o : Opening) (s : Life) : bool := negb (openAborted o s) && generationCurrent (og_generation o) s.

(** [finally] *)
Definition openFinally (o : Opening) (s : Life) : Life :=
  if bool_decide (lf_openRequest (li_refs s) = Some (og_controller o))
  then (setOpenRequest None >>> (if lf_mounted (li_refs s) then setOpeningGraphId None else λ s, s)) s
  else s.

(** [catch] *)
Definition openCatch (o : Opening) (message : string) (s : Life) : Life :=
  if openCurrent o s then setPersistenceError (Some message) s else s.

Definition openFailed (o : Opening) (e : LifeError) : Life → Life := openCatch o (lifeMessage "The graph could not be opened." e) >>> openFinally o.

Definition answerOpenHead (o : Opening) (head : CollaborativeHead) (s : Life) : Life :=
  match openGraphOf head (lf_openGraphId (li_refs s)) with
  | None => openFinally o (setPersistenceError (Some "This project holds no graph to open.") s)
  | Some savedGraph =>
      let s := setOpenGraphId (Some (sv_id savedGraph)) s in
      if negb (openCurrent o s) then openFinally o s else sends (lr_openSnapshot o head savedGraph) s
  end.

Definition CANVAS_CHANGED : string :=
  "The canvas changed while the graph was loading. Your newer edits were kept; open the graph again when you are ready to replace them.".

(** The opened Graph goes on the canvas. *)
Definition showOpenedGraph (head : CollaborativeHead) (savedGraph : SavedGraph) (openedNodes : list WorkflowNode) : Life → Life :=
  replaceDocument (documentOfGraph savedGraph) (Some openedNodes) >>> replacePresentation (presentationOf savedGraph) >>>
  setActiveGraph (Some (activeGraphFrom head savedGraph)) >>> rememberSavedDraft (draftOfGraph savedGraph) >>>
  calls (le_refreshSecrets (activeGraphFrom head savedGraph) (opened_nodes openedNodes)).

Definition continueOpening (o : Opening) (head : CollaborativeHead) (savedGraph : SavedGraph) (nodeRuns : list RunNodeResult)
    (storedResultWarning : option string) (s : Life) : Life :=
  match hydrateSavedGraph numberText savedGraph (og_registry o) nodeRuns with
  | Throw message => openFinally o (openCatch o message s)
  | Ok hydrated =>
      if negb (openCurrent o s) then openFinally o s
      else if negb (bool_decide (lf_currentFingerprint (li_refs s) = og_fingerprint o))
      then openFinally o (setPersistenceError (Some CANVAS_CHANGED) s)
      else sends (lr_openSecrets o storedResultWarning) (showOpenedGraph head savedGraph (hy_nodes hydrated) s)
  end.

Definition answerOpenSnapshot (o : Opening) (head : CollaborativeHead) (savedGraph : SavedGraph) (results : list RunNodeResult + LifeError) (s : Life) : Life :=
  match results with
  | inl nodeRuns => continueOpening o head savedGraph nodeRuns None s
  | inr e =>
      if openAborted o s then openFinally o s
      else continueOpening o head savedGraph []
             (Some ("Graph opened without its stored results: " +:+ lifeMessage "Stored results could not be loaded." e)) s
  end.

Definition answerOpenSecrets (o : Opening) (storedResultWarning : option string) (s : Life) : Life :=
  if negb (openCurrent o s) then openFinally o s
  else
    (calls le_clearPendingRoute >>> calls le_clearRunError >>> setPersistenceError storedResultWarning >>> calls le_closeNodeLibrary >>>
     setGraphBrowserOpen false >>> calls le_requestRefit >>> openFinally o) s.

(** *** Saving *)

Definition SYNC_UNAVAILABLE : string :=
  "Graph synchronization is unavailable while the collaboration room connects or reconnects. Your canvas is unchanged; wait for synchronization to finish, then try saving again.".

Definition submittedDraft (nameOverride : option string) (s : Life) : GraphDraft :=
  match truthy (trim <$> nameOverride) with
  | Some n => {| draft_name := n; draft_document := draft_document (currentDraft s) |}
  | None => currentDraft s
  end.

(** [isExecutionRunning() || saving || openingGraphId || deletingGraphId] *)
Definition saveBlocked (s : Life) : bool :=
  lp_executionRunning (li_props s) || lw_saving (li_view s) || truthyId (lw_openingGraphId (li_view s)) || truthyId (lw_deletingGraphId (li_view s)).

(** Up to the first request: the room's, or that of a command on a Project. *)
Definition saveCurrentGraph (nameOverride : option string) (newGraphId : string) (s : Life) : Life :=
  if saveBlocked s then s
  else
    let draft := submittedDraft nameOverride s in
    if bool_decide (draft_name draft = "") then setPersistenceError (Some "Enter a graph name before saving.") s
    else
      let active := lw_activeGraph (li_view s) in
      let sv := {| sw_activeGraph := active; sw_draft := draft; sw_generation := lf_generation (li_refs s); sw_registry := lp_registry (li_props s) |} in
      let start r := (setSaving true >>> setPersistenceError None >>> sends r) s in
      match active, lp_roomPersistence (li_props s) with
      | Some _, Some false => setPersistenceError (Some SYNC_UNAVAILABLE) s
      | Some g, Some true => start (lr_persist sv (sg_graphId g))
      | Some g, None => start (lr_saveHead sv (sg_id g) (sg_graphId g))
      | None, _ => start (lr_create sv newGraphId)
      end.

Definition saveFinally (s : Life) : Life := if lf_mounted (li_refs s) then setSaving false s else s.

Definition saveErrorMessage (e : LifeError) : string :=
  match e with
  | life_api status detail message =>
      if (status =? 409)%Z
      then "Save conflict: " +:+ detail +:+ ". Your canvas is unchanged; refresh the saved graph list before deciding whether to reopen it."
      else message
  | _ => lifeMessage "The graph could not be saved." e
  end.

Definition saveFailed (sv : Saving) (e : LifeError) (s : Life) : Life :=
  saveFinally (if generationCurrent (sw_generation sv) s then setPersistenceError (Some (saveErrorMessage e)) s else s).

(** The head after the room's checkpoint, and a newer one. *)
Definition answerPersist (sv : Saving) (checkpointHead currentHead : CollaborativeHead) (s : Life) : Life :=
  if negb (lf_mounted (li_refs s)) then saveFinally s
  else
    let s := (calls le_refreshSummaries >>> calls le_refreshRegistry) s in
    if negb (lf_generation (li_refs s) =? sw_generation sv) then saveFinally s
    else
      match syncFromCollaborativeHead (sw_registry sv) checkpointHead s with
      | (s, Some message) => saveFailed sv (life_error message) s
      | (s, None) =>
          if negb (bool_decide (h_room_epoch currentHead = h_room_epoch checkpointHead)) ||
             negb (h_collaboration_sequence currentHead =? h_collaboration_sequence checkpointHead)%Z
          then match syncFromCollaborativeHead (sw_registry sv) currentHead s with
               | (s, Some message) => saveFailed sv (life_error message) s
               | (s, None) => saveFinally s
               end
          else saveFinally s
      end.

(** [createProject], then the document of its one Graph. *)
Definition answerCreate (sv : Saving) (graphId projectId : string) : Life → Life := sends (lr_saveHead sv projectId graphId).

(** [writeGraphDocument]: the head that was read, the command against it, the checkpoint of
    what it was accepted as. *)
Definition answerSaveHead (sv : Saving) (projectId graphId : string) (head : CollaborativeHead) : Life → Life :=
  sends (lr_submit sv projectId graphId (h_collaboration_sequence head) (h_room_epoch head)).

Definition answerSubmit (sv : Saving) (projectId : string) (head : CollaborativeHead) (accepted_sequence : Z) : Life → Life :=
  sends (lr_checkpoint sv projectId (h_room_epoch head) accepted_sequence).

Definition answerCheckpoint (sv : Saving) (savedHead : CollaborativeHead) (s : Life) : Life :=
  if negb (lf_mounted (li_refs s)) then saveFinally s
  else
    let s := (calls le_refreshSummaries >>> calls le_refreshRegistry) s in
    if negb (lf_generation (li_refs s) =? sw_generation sv) then saveFinally s
    else
      match openGraphOf savedHead (lf_openGraphId (li_refs s)) with
      | None => saveFinally s
      | Some savedGraph =>
          let created := negb (bool_decide (is_Some (sw_activeGraph sv))) in
          let nextActiveGraph := activeGraphFrom savedHead savedGraph in
          (setOpenGraphId (Some (sv_id savedGraph)) >>>
           (if created then setApprovedRoute (Some (h_project_id savedHead)) else λ s, s) >>>
           setActiveGraph (Some nextActiveGraph) >>> rememberSavedDraft (draftOfGraph savedGraph) >>>
           replacePresentation (presentationOf savedGraph) >>>
           (if created then calls (le_replace (h_project_id savedHead)) else λ s, s) >>>
           calls (le_refreshSecrets nextActiveGraph canvas_nodes) >>> sends (lr_saveSecrets sv)) s
      end.

(** *** Deleting *)

Definition removeSavedGraph (graphId : string) (confirmed : bool) (s : Life) : Life :=
  if negb confirmed then s
  else
    let dg := {| dg_graphId := graphId; dg_active := bool_decide (sg_id <$> lw_activeGraph (li_view s) = Some graphId);
                 dg_fingerprint := draftFingerprint (currentDraft s); dg_generation := lf_generation (li_refs s) |} in
    (setDeletingGraphId (Some graphId) >>> setPersistenceError None >>> sends (lr_delete dg)) s.

Definition deleteFinally (s : Life) : Life := if lf_mounted (li_refs s) then setDeletingGraphId None s else s.

Definition KEPT_AS_DRAFT : string :=
  "The saved graph was deleted. Changes made while deletion was in progress remain as an unsaved draft.".

Definition leaveDeletedGraph (dg : Deleting) (s : Life) : Life :=
  ((if bool_decide (lf_currentFingerprint (li_refs s) = dg_fingerprint dg) then showBlankGraph
    else
      setActiveGraph None >>> setSavedFingerprints None None >>> calls le_clearSecrets >>>
      replacePresentation (lf_presentation (li_refs s)) >>> setPersistenceError (Some KEPT_AS_DRAFT)) >>>
   setApprovedRoute (Some NEW_PROJECT_ROUTE_ID) >>> calls (le_replace NEW_PROJECT_ROUTE_ID)) s.

Definition answerDelete (dg : Deleting) (s : Life) : Life :=
  if negb (lf_mounted (li_refs s)) then deleteFinally s
  else
    let s := (calls le_refreshSummaries >>> calls le_refreshRegistry) s in
    if negb (lf_generation (li_refs s) =? dg_generation dg) then deleteFinally s
    else deleteFinally (if dg_active dg then leaveDeletedGraph dg s else s).

Definition deleteErrorMessage (e : LifeError) : string :=
  match e with
  | life_api status _ message =>
      if (status =? 409)%Z then "This graph changed before it could be deleted. Refresh the saved graph list and try again." else message
  | _ => lifeMessage "The graph could not be deleted." e
  end.

Definition deleteFailed (dg : Deleting) (e : LifeError) (s : Life) : Life :=
  deleteFinally (if generationCurrent (dg_generation dg) s then setPersistenceError (Some (deleteErrorMessage e)) s else s).

(** *** Effects *)

Definition displayedGraphId (s : Life) : string := default NEW_PROJECT_ROUTE_ID (sg_id <$> lw_activeGraph (li_view s)).

(** The effect that brings the canvas to the route. *)
Definition routeEffect (s : Life) : Life :=
  match lp_registry (li_props s) with
  | None => s
  | Some _ =>
      let routeGraphId := default NEW_PROJECT_ROUTE_ID (lp_initialGraphId (li_props s)) in
      let approved := lf_approvedRouteGraphId (li_refs s) in
      if bool_decide (routeGraphId = displayedGraphId s) then
        if bool_decide (approved = Some routeGraphId) then setApprovedRoute None s else s
      else if bool_decide (is_Some approved) && negb (bool_decide (approved = Some routeGraphId)) then s
      else
        let s := setApprovedRoute None s in
        (* an empty id counts as no id *)
        match truthy (lp_initialGraphId (li_props s)) with
        | None => showBlankGraph s
        | Some graphId => openSavedGraph graphId false None s
        end
  end.

Definition effectDeps (s : Life) : option string * option string * string * bool :=
  (sg_id <$> lw_activeGraph (li_view s), lp_initialGraphId (li_props s), draftFingerprint (currentDraft s), bool_decide (is_Some (lp_registry (li_props s)))).

(** A render and its effects. *)
Definition commit (s : Life) : Life :=
  let s := rememberCanvas (draftFingerprint (currentDraft s)) (lc_presentation (li_canvas s)) s in
  if negb (lf_mounted (li_refs s)) || bool_decide (li_deps s = Some (effectDeps s)) then s
  else routeEffect (with_deps (Some (effectDeps s)) s).

(** ** Steps *)

Inductive LifeEvent :=
| lv_render (p : LifeProps) (callbacksChanged : bool)
| lv_edit (document : AuthoredGraphDocument) (presentation : GraphPresentation)
| lv_new (onNewPath : bool)
| lv_open (graphId : string) (pushError : option LifeError)
| lv_save (nameOverride : option string) (newGraphId : string)
| lv_delete (graphId : string) (confirmed : bool)
| lv_sync (head : CollaborativeHead)
| lv_purge
| lv_setName (n : string)
| lv_clearError
| lv_dismissError (message : string)
| lv_toggleBrowser
| lv_closeBrowser
| lv_refreshList
| lv_unmount
| lv_answer (k : nat) (a : LifeAnswer).

(** The answer is one that the request can get. *)
Definition lifeAnswers (r : LifeRequest) (a : LifeAnswer) : bool :=
  match r, a with
  | _, la_rejected _ => true
  | lr_openHead _, la_head _ | lr_saveHead _ _ _, la_head _ | lr_checkpoint _ _ _ _, la_head _ => true
  | lr_openSnapshot _ _ _, la_snapshot _ => true
  | (lr_openSecrets _ _ | lr_saveSecrets _), la_secrets => true
  | lr_persist _ _, la_persisted _ _ => true
  | lr_create _ _, la_project _ => true
  | lr_submit _ _ _ _ _, la_submitted _ _ => true
  | lr_delete _, la_deleted => true
  | _, _ => false
  end.

Definition answerLife (r : LifeRequest) (a : LifeAnswer) : Life → Life :=
  match r, a with
  | lr_openHead o, la_head head => answerOpenHead o head
  | lr_openHead o, la_rejected e => openFailed o e
  | lr_openSnapshot o head graph, la_snapshot results => answerOpenSnapshot o head graph (inl results)
  | lr_openSnapshot o head graph, la_rejected e => answerOpenSnapshot o head graph (inr e)
  | lr_openSecrets o warning, la_secrets => answerOpenSecrets o warning
  | lr_openSecrets o _, la_rejected e => openFailed o e
  | lr_persist sv _, la_persisted checkpointHead currentHead => answerPersist sv checkpointHead currentHead
  | lr_create sv graphId, la_project projectId => answerCreate sv graphId projectId
  | lr_saveHead sv projectId graphId, la_head head => answerSaveHead sv projectId graphId head
  | lr_submit sv projectId _ _ _, la_submitted head accepted => answerSubmit sv projectId head accepted
  | lr_checkpoint sv _ _ _, la_head head => answerCheckpoint sv head
  | lr_saveSecrets sv, la_secrets => saveFinally
  | (lr_persist sv _ | lr_create sv _ | lr_saveHead sv _ _ | lr_submit sv _ _ _ _ | lr_checkpoint sv _ _ _ | lr_saveSecrets sv), la_rejected e =>
      saveFailed sv e
  | lr_delete dg, la_deleted => answerDelete dg
  | lr_delete dg, la_rejected e => deleteFailed dg e
  | _, _ => λ s, s
  end.

Definition lifeHandle (e : LifeEvent) (s : Life) : Life :=
  match e with
  | lv_render p changed => with_deps (if changed then None else li_deps s) (with_props p s)
  | lv_edit d p => on_canvas (λ _, {| lc_document := d; lc_presentation := p |}) s
  | lv_new onNewPath => requestNewGraph onNewPath s
  | lv_open graphId pushError => openSavedGraph graphId true pushError s
  | lv_save nameOverride newGraphId => saveCurrentGraph nameOverride newGraphId s
  | lv_delete graphId confirmed => removeSavedGraph graphId confirmed s
  | lv_sync head => (syncFromCollaborativeHead (lp_registry (li_props s)) head s).1
  | lv_purge => purgeLocalGraphState s
  | lv_setName n => setPersistenceError None (on_canvas (λ c, {| lc_document := with_name n (lc_document c); lc_presentation := lc_presentation c |}) s)
  | lv_clearError => setPersistenceError None s
  | lv_dismissError message => if bool_decide (lw_persistenceError (li_view s) = Some message) then setPersistenceError None s else s
  | lv_toggleBrowser => setGraphBrowserOpen (negb (lw_graphBrowserOpen (li_view s))) (calls le_closeNodeLibrary s)
  | lv_closeBrowser => setGraphBrowserOpen false s
  | lv_refreshList => calls le_refreshSummaries s
  | lv_unmount => supersede (setMounted false s)
  | lv_answer k a =>
      match li_requests s !! k with
      | Some r => if lifeAnswers r a then answerLife r a (with_requests (delete k (li_requests s)) s) else s
      | None => s
      end
  end.

(** An event, and renders until the effect has nothing left to do. *)
Definition lifeStep (e : LifeEvent) (s : Life) : Life := commit (commit (lifeHandle e s)).

Definition lifeSteps (events : list LifeEvent) (s : Life) : Life := foldl (λ s e, lifeStep e s) s events.

(** Before the first render. *)
Definition lifeBlank (p : LifeProps) (d : AuthoredGraphDocument) (pres : GraphPresentation) : Life :=
  {| li_view := {| lw_activeGraph := None; lw_savedFingerprint := None; lw_savedExecutionFingerprint := None; lw_saving := false;
                   lw_openingGraphId := None; lw_deletingGraphId := None; lw_persistenceError := None; lw_graphBrowserOpen := false |};
     li_refs := {| lf_approvedRouteGraphId := None; lf_openGraphId := None; lf_openRequest := None; lf_aborted := []; lf_controllers := 0;
                   lf_generation := 0; lf_mounted := true; lf_currentFingerprint := ""; lf_presentation := pres |};
     li_canvas := {| lc_document := d; lc_presentation := pres |}; li_props := p; li_deps := None; li_requests := []; li_effects := [] |}.

Definition lifeInit (p : LifeProps) (d : AuthoredGraphDocument) (pres : GraphPresentation) : Life := commit (commit (lifeBlank p d pres)).
End lifecycle.
