(* ===== verification/LifecycleTheory.v ===== *)
(** * Theorems on the lifecycle of a saved Graph

    Invariants of every run of [Lifecycle]'s step function: of all the opens in flight only
    the last one begun can still reach the canvas, and not over an edit; what counts as saved
    is what the server answered for the Project and Graph the canvas names; at most one save
    is out. *)

From stdpp Require Import numbers list gmap.
From S2P Require Import Prelude Js JsText JsJson GraphModel GraphCommands GraphTheory RoomBridge Handles Routes Fingerprints FingerprintTheory SecretWrites Hydration Canvas Lifecycle.
#[local] Open Scope life_scope.

(** ** Runs *)

Section theory.
Context (numberText : jsnum → string) (localeCompare : string → string → Z).
Notation handle := (lifeHandle numberText localeCompare).
Notation step := (lifeStep numberText localeCompare).
Notation steps := (lifeSteps numberText localeCompare).
Notation init := (lifeInit numberText localeCompare).
Notation commits := (commit numberText localeCompare).
Notation fingerprint := (draftFingerprint numberText localeCompare).

(** What holds at first and is kept by events and renders holds after any events; what it
    says may grow with the events. *)
Lemma life_invariant (I : list LifeEvent → Life → Prop) p d pres :
  I [] (lifeBlank p d pres) → (∀ es s, I es s → I es (commits s)) → (∀ es e s, I es s → I (es ++ [e]) (handle e s)) →
  ∀ events, I events (steps events (init p d pres)).
Proof.
  intros H0 Hc Hh events. induction events as [|e events IH] using rev_ind.
  - apply Hc, Hc, H0.
  - unfold lifeSteps. rewrite foldl_app. apply Hc, Hc, Hh, IH.
Qed.

Lemma life_invariant_state (I : Life → Prop) p d pres :
  I (lifeBlank p d pres) → (∀ s, I s → I (commits s)) → (∀ e s, I s → I (handle e s)) →
  ∀ events, I (steps events (init p d pres)).
Proof. intros H0 Hc Hh. apply (life_invariant (λ _, I)); eauto. Qed.

(** ** Renders settle *)

(** The refs say what the canvas holds, and the effect has run on it. *)
Definition fresh (s : Life) : Prop :=
  lf_currentFingerprint (li_refs s) = fingerprint (currentDraft s) ∧ lf_presentation (li_refs s) = lc_presentation (li_canvas s) ∧
  (lf_mounted (li_refs s) = true → li_deps s = Some (effectDeps numberText localeCompare s)).

Definition blankCanvas : LifeCanvas := {| lc_document := normalize blankDocument; lc_presentation := emptyGraphPresentation |}.

Lemma fresh_commit_id s : fresh s → commits s = s.
Proof.
  intros (E1 & E2 & E3). unfold commit. rewrite <- E1, <- E2.
  replace (rememberCanvas _ _ s) with s by (by destruct s as [? [] ? ? ? ? ?]).
  destruct (lf_mounted (li_refs s)); [|done]. rewrite bool_decide_eq_true_2; [done|]. by apply E3.
Qed.

(** The effect leaves the canvas, or blanks it. *)
Lemma route_effect_fresh s :
  fresh s → fresh (routeEffect numberText localeCompare s) ∨
            li_canvas (routeEffect numberText localeCompare s) = blankCanvas ∧ lw_activeGraph (li_view (routeEffect numberText localeCompare s)) = None ∧
            lf_currentFingerprint (li_refs (routeEffect numberText localeCompare s)) = lf_currentFingerprint (li_refs s) ∧
            lf_presentation (li_refs (routeEffect numberText localeCompare s)) = lf_presentation (li_refs s) ∧
            li_props (routeEffect numberText localeCompare s) = li_props s ∧ li_deps (routeEffect numberText localeCompare s) = li_deps s.
Proof.
  intros Hf. unfold routeEffect, openSavedGraph, openByLoading. repeat case_match; try (by left); by right.
Qed.

Lemma commit_fresh s : fresh (commits s) ∨ li_canvas (commits s) = blankCanvas ∧ lw_activeGraph (li_view (commits s)) = None.
Proof.
  unfold commit. set (t := rememberCanvas _ _ s). destruct (negb _ || _) eqn:E.
  - left. split; [done|]. split; [done|]. apply orb_true_iff in E as [E|E]; [by destruct (lf_mounted (li_refs t))|].
    intros _. by apply bool_decide_eq_true_1 in E.
  - destruct (route_effect_fresh (with_deps (Some (effectDeps numberText localeCompare t)) t)) as [H|H]; [by split|by left|].
    right. tauto.
Qed.

Lemma commit_blank_fresh s : li_canvas s = blankCanvas → lw_activeGraph (li_view s) = None → fresh (commits s).
Proof.
  intros Ec Ea. unfold commit. set (t := rememberCanvas _ _ s). destruct (negb _ || _) eqn:E.
  - split; [done|]. split; [done|]. apply orb_true_iff in E as [E|E]; [by destruct (lf_mounted (li_refs t))|].
    intros _. by apply bool_decide_eq_true_1 in E.
  - destruct (route_effect_fresh (with_deps (Some (effectDeps numberText localeCompare t)) t)) as [H|(H1 & H2 & H3 & H4 & H5 & H6)]; [by split|done|].
    set (u := routeEffect _ _ _) in *. unfold fresh, currentDraft, effectDeps. rewrite H1, H2, H3, H4, H5, H6.
    subst t. unfold effectDeps, currentDraft. cbn [li_deps with_deps li_refs li_canvas li_props li_view rememberCanvas on_refs lf_currentFingerprint lf_presentation].
    by rewrite Ec, Ea, H1.
Qed.

Lemma commits_fresh s : fresh (commits (commits s)).
Proof.
  destruct (commit_fresh s) as [H|[H1 H2]]; [by rewrite fresh_commit_id|by apply commit_blank_fresh].
Qed.

Lemma run_fresh p d pres events : fresh (steps events (init p d pres)).
Proof.
  destruct events as [|e events _] using rev_ind; [apply commits_fresh|].
  unfold lifeSteps. rewrite foldl_app. apply commits_fresh.
Qed.

(** ** Opens *)

Definition openOf (r : LifeRequest) : option Opening :=
  match r with lr_openHead o | lr_openSnapshot o _ _ | lr_openSecrets o _ => Some o | _ => None end.

Definition opensOf (s : Life) : list Opening := omap openOf (li_requests s).

(** Only the last open begun can be unaborted, and its generation is the canvas'. *)
Record openInv (l : list Opening) (r : LifeRefs) : Prop := {
  oi_controllers : ∀ o, o ∈ l → og_controller o < lf_controllers r;
  oi_distinct : NoDup (og_controller <$> l);
  oi_request : ∀ c, lf_openRequest r = Some c → c < lf_controllers r;
  oi_live : ∀ o, o ∈ l → og_controller o ∉ lf_aborted r → lf_openRequest r = Some (og_controller o) ∧ og_generation o = lf_generation r
}.

Definition opensWell (s : Life) : Prop := openInv (opensOf s) (li_refs s).

Definition openCore (r : LifeRefs) : option nat * list nat * nat * nat := (lf_openRequest r, lf_aborted r, lf_controllers r, lf_generation r).

Lemma openInv_core l r r' : openCore r = openCore r' → openInv l r → openInv l r'.
Proof.
  unfold openCore. intros [= E1 E2 E3 E4] [H1 H2 H3 H4].
  split; [rewrite <- E3; done | done | rewrite <- E1, <- E3; done | rewrite <- E1, <- E2, <- E4; done].
Qed.

Lemma openInv_perm l l' r : l ≡ₚ l' → openInv l r → openInv l' r.
Proof. intros P [H1 H2 H3 H4]. split; [setoid_rewrite <- P; done | rewrite <- P; done | done | setoid_rewrite <- P; done]. Qed.

Lemma openInv_tail o l r : openInv (o :: l) r → openInv l r.
Proof.
  intros [H1 H2 H3 H4]. rewrite fmap_cons in H2. apply NoDup_cons in H2 as [_ H2].
  split; [set_solver | done | done | set_solver].
Qed.

Lemma openInv_snoc o l r : openInv (o :: l) r → openInv (l ++ [o]) r.
Proof. apply openInv_perm. by rewrite (comm app). Qed.

Lemma opensWell_supersede s : opensWell s → opensWell (supersede s).
Proof.
  intros [H1 H2 H3 H4]. split; cbn [li_refs supersede on_refs lf_controllers lf_openRequest lf_aborted lf_generation] in *; [done..|].
  intros o Ho Hn. rewrite not_elem_of_app in Hn. destruct Hn as [Hn1 Hn2]. destruct (H4 o Ho Hn2) as [E _].
  rewrite E in Hn1. set_solver.
Qed.

Lemma opensWell_finally o l s : li_requests s = l → openInv (o :: omap openOf l) (li_refs s) → opensWell (openFinally o s).
Proof.
  intros El H. unfold openFinally, opensWell, opensOf. case_bool_decide as E; [|rewrite El; by eapply openInv_tail].
  assert (openInv (omap openOf l) (li_refs (setOpenRequest None s))) as HH.
  { destruct H as [H1 H2 H3 H4]. rewrite fmap_cons in H2. apply NoDup_cons in H2 as [H2 H2'].
    split; cbn [li_refs setOpenRequest on_refs lf_controllers lf_openRequest lf_aborted lf_generation] in *; [set_solver | done | done |].
    intros o' Ho' Hn. destruct (H4 o') as [E' _]; [set_solver | done |]. exfalso. apply H2. rewrite E in E'. injection E' as ->.
    by apply list_elem_of_fmap_2. }
  rewrite <- El in HH. by destruct (lf_mounted (li_refs s)).
Qed.

Lemma answer_perm k s r :
  li_requests s !! k = Some r → opensWell s → openInv (option_list (openOf r) ++ omap openOf (delete k (li_requests s))) (li_refs s).
Proof.
  intros Hk H. eapply openInv_perm, H. unfold opensOf.
  rewrite (delete_Permutation _ _ _ Hk) at 1. cbn. by destruct (openOf r).
Qed.

(** What neither begins nor ends an open keeps the invariant. *)
Definition openFrame (s s' : Life) : Prop := opensOf s' = opensOf s ∧ openCore (li_refs s') = openCore (li_refs s).

Lemma opensWell_frame s s' : openFrame s s' → opensWell s → opensWell s'.
Proof. intros [E1 E2] H. unfold opensWell. rewrite E1. by eapply openInv_core, H. Qed.

Lemma openFrame_sync registry head s : openFrame s (syncFromCollaborativeHead numberText localeCompare registry head s).1.
Proof. unfold syncFromCollaborativeHead. repeat case_match; done. Qed.

Lemma openFrame_trans s1 s2 s3 : openFrame s1 s2 → openFrame s2 s3 → openFrame s1 s3.
Proof. intros [? ?] [? ?]. split; congruence. Qed.

Lemma openFrame_requests l s : omap openOf l = opensOf s → openFrame s (with_requests l s).
Proof. done. Qed.

Lemma openFrame_sends r s t : openOf r = None → openFrame s t → openFrame s (sends r t).
Proof.
  intros Er F. eapply openFrame_trans; [exact F|]. split; [|done]. unfold opensOf. cbn [li_requests sends with_requests]. rewrite omap_app. cbn [omap list_omap].
  by rewrite Er, app_nil_r.
Qed.

Lemma openFrame_saveFailed sv e s : openFrame s (saveFailed sv e s).
Proof. unfold saveFailed, saveFinally. repeat case_match; done. Qed.

Lemma openFrame_saveFinally s : openFrame s (saveFinally s).
Proof. unfold saveFinally. by case_match. Qed.

(** What syncs and the ends of a save keep, a save through the room keeps. *)
Lemma persist_cases (P Q : Life → Prop) sv h1 h2 s :
  P s → (∀ e t, P t → P (calls e t)) → (∀ t, P t → Q (saveFinally t)) → (∀ e t, P t → Q (saveFailed sv e t)) →
  (∀ h t, h = h1 ∨ h = h2 → P t → P (syncFromCollaborativeHead numberText localeCompare (sw_registry sv) h t).1) →
  Q (answerPersist numberText localeCompare sv h1 h2 s).
Proof.
  intros Hs Hcalls Hend Hfail Hsync. unfold answerPersist. case_match; [by apply Hend|]. cbv zeta beta. set (t := calls _ (calls _ s)).
  assert (P t) as Ht by by apply Hcalls, Hcalls. clearbody t. case_match; [by apply Hend|].
  pose proof (Hsync h1 t (or_introl eq_refl) Ht) as F1. destruct (syncFromCollaborativeHead _ _ _ h1 t) as [u [m|]]; [by apply Hfail|].
  case_match; [|by apply Hend].
  pose proof (Hsync h2 u (or_intror eq_refl) F1) as F2. destruct (syncFromCollaborativeHead _ _ _ h2 u) as [v [m|]]; [by apply Hfail|by apply Hend].
Qed.

Lemma openFrame_persist sv h1 h2 s : openFrame s (answerPersist numberText localeCompare sv h1 h2 s).
Proof.
  apply (persist_cases (openFrame s)); [done|done|intros t Ht|intros e t Ht|intros h t _ Ht]; (eapply openFrame_trans; [exact Ht|]);
    [apply openFrame_saveFinally|apply openFrame_saveFailed|apply openFrame_sync].
Qed.

Lemma openFrame_checkpoint sv h s : openFrame s (answerCheckpoint numberText localeCompare sv h s).
Proof.
  unfold answerCheckpoint, saveFinally. repeat case_match; try done; by apply openFrame_sends.
Qed.

Lemma opensWell_blankGraph s : opensWell s → opensWell (showBlankGraph s).
Proof. intros H%opensWell_supersede. by eapply opensWell_frame, H. Qed.

Lemma opensWell_load registry graphId s : opensWell s → opensWell (openByLoading numberText localeCompare registry graphId s).
Proof.
  intros [H1 H2 H3 H4]%opensWell_supersede. set (t := supersede s) in *.
  unfold openByLoading. set (o := Build_Opening _ _ _ _ _).
  apply (opensWell_frame (sends (lr_openHead o) (newController t))); [done|].
  unfold opensWell, opensOf. cbn [li_requests sends with_requests newController on_refs li_refs].
  rewrite omap_app. cbn [omap list_omap openOf]. split; cbn [lf_controllers lf_openRequest lf_aborted lf_generation] in *.
  - intros o' [Ho'|Ho']%elem_of_app; [specialize (H1 o' Ho'); lia|]. apply list_elem_of_singleton in Ho' as ->. cbn. lia.
  - rewrite fmap_app. apply NoDup_app. split; [done|]. split; [|apply NoDup_singleton].
    intros c (o' & -> & Ho')%list_elem_of_fmap Hc. apply list_elem_of_singleton in Hc. specialize (H1 o' Ho'). change (og_controller o' = lf_controllers (li_refs t)) in Hc. lia.
  - intros c [= <-]. cbn. lia.
  - intros o' [Ho'|Ho']%elem_of_app Hn.
    + exfalso. destruct (H4 o' Ho' Hn) as [E _]. apply Hn. unfold t. cbn in *. rewrite E. set_solver.
    + apply list_elem_of_singleton in Ho' as ->. done.
Qed.

Lemma opensWell_openSaved graphId updateAddress pushError s :
  opensWell s → opensWell (openSavedGraph numberText localeCompare graphId updateAddress pushError s).
Proof.
  intros H. unfold openSavedGraph. case_match; [|done]. case_match; [|by apply opensWell_load].
  unfold openByAddress. case_bool_decide; [done|].
  apply (opensWell_frame (supersede s)); [|by apply opensWell_supersede]. repeat case_match; done.
Qed.

Lemma opensWell_commit s : opensWell s → opensWell (commits s).
Proof.
  intros H. unfold commit. set (t := rememberCanvas _ _ s). assert (opensWell t) as Ht by by eapply opensWell_frame, H.
  clearbody t. clear H. case_match; [done|]. unfold routeEffect.
  set (u := with_deps _ t). assert (opensWell u) as Hu by done. clearbody u. clear Ht.
  repeat case_match; try done; try by eapply opensWell_frame, Hu.
  - apply opensWell_openSaved. by eapply opensWell_frame, Hu.
  - apply opensWell_blankGraph. by eapply opensWell_frame, Hu.
Qed.

(** An answer either goes on with the same open or ends it. *)
Lemma opensWell_again r o s :
  openOf r = Some o → openInv (o :: opensOf s) (li_refs s) → opensWell (sends r s).
Proof.
  intros Er H. unfold opensWell, opensOf. cbn [li_requests sends with_requests li_refs]. rewrite omap_app. cbn [omap list_omap].
  rewrite Er. by apply openInv_snoc.
Qed.

Lemma opensWell_end o s s' :
  openFrame s s' → openInv (o :: opensOf s) (li_refs s) → opensWell (openFinally o s').
Proof.
  intros [E1 E2] H. apply opensWell_finally with (li_requests s'); [done|]. fold (opensOf s'). rewrite E1. by eapply openInv_core, H.
Qed.

Lemma openFrame_catch o m s : openFrame s (openCatch o m s).
Proof. unfold openCatch. by case_match. Qed.

Lemma opensWell_openFailed o e s : openInv (o :: opensOf s) (li_refs s) → opensWell (openFailed o e s).
Proof. apply opensWell_end, openFrame_catch. Qed.

Lemma opensWell_continue o head g runs w s :
  openInv (o :: opensOf s) (li_refs s) → opensWell (continueOpening numberText localeCompare o head g runs w s).
Proof.
  intros H. unfold continueOpening. repeat case_match.
  - by eapply opensWell_end, H.
  - by eapply opensWell_end, H.
  - by eapply opensWell_again with (s := showOpenedGraph _ _ _ _ _ s).
  - eapply opensWell_end, H. apply openFrame_catch.
Qed.

Lemma opensWell_openAnswer r o a s :
  openOf r = Some o → openInv (o :: opensOf s) (li_refs s) → opensWell (answerLife numberText localeCompare r a s).
Proof.
  intros Er H. destruct r, a; try discriminate Er; injection Er as <-; cbn [answerLife];
    try (by eapply openInv_tail, H); try by apply opensWell_openFailed.
  - unfold answerOpenHead. case_match; [|by eapply opensWell_end, H]. case_match; [by eapply opensWell_end, H|].
    apply opensWell_again with o0; [done|]. by eapply openInv_core, H.
  - by apply opensWell_continue.
  - unfold answerOpenSnapshot. case_match; [by eapply opensWell_end, H|]. by apply opensWell_continue.
  - unfold answerOpenSecrets. case_match; by eapply opensWell_end, H.
Qed.

Lemma opensWell_delete dg s : opensWell s → opensWell (answerDelete dg s).
Proof.
  intros H. unfold answerDelete, deleteFinally, leaveDeletedGraph. repeat case_match; try done;
    try (by eapply opensWell_frame, H); eapply opensWell_frame, (opensWell_blankGraph s H); done.
Qed.

Lemma opensWell_otherAnswer r a s : openOf r = None → opensWell s → opensWell (answerLife numberText localeCompare r a s).
Proof.
  intros Er H. destruct r, a; try discriminate Er; cbn [answerLife]; try done;
    try (eapply opensWell_frame, H; apply openFrame_saveFailed); try (eapply opensWell_frame, H; apply openFrame_saveFinally).
  - eapply opensWell_frame, H. apply openFrame_persist.
  - eapply opensWell_frame, H. by apply openFrame_sends.
  - eapply opensWell_frame, H. by apply openFrame_sends.
  - eapply opensWell_frame, H. by apply openFrame_sends.
  - eapply opensWell_frame, H. apply openFrame_checkpoint.
  - by apply opensWell_delete.
  - unfold deleteFailed, deleteFinally. repeat case_match; done.
Qed.

Lemma opensWell_handle e s : opensWell s → opensWell (handle e s).
Proof.
  intros H. destruct e; cbn [lifeHandle]; try done.
  - unfold requestNewGraph. case_match; [by apply opensWell_blankGraph|].
    apply (opensWell_frame (supersede s)); [done|by apply opensWell_supersede].
  - by apply opensWell_openSaved.
  - unfold saveCurrentGraph. repeat case_match; try done; by eapply opensWell_frame, H; apply openFrame_sends.
  - unfold removeSavedGraph. case_match; [done|]. by eapply opensWell_frame, H; apply openFrame_sends.
  - eapply opensWell_frame, H. apply openFrame_sync.
  - apply (opensWell_frame (supersede s)); [done|by apply opensWell_supersede].
  - case_match; done.
  - apply (opensWell_supersede (setMounted false s)). by eapply opensWell_frame, H.
  - destruct (li_requests s !! k) as [r|] eqn:Hk; [|done]. destruct (lifeAnswers r a); [|done].
    pose proof (answer_perm k s r Hk H) as Hr. clear H Hk.
    change (li_refs s) with (li_refs (with_requests (delete k (li_requests s)) s)) in Hr.
    change (delete k (li_requests s)) with (li_requests (with_requests (delete k (li_requests s)) s)) in Hr.
    set (t := with_requests _ s) in *. clearbody t. destruct (openOf r) as [o|] eqn:Er; cbn [option_list app] in Hr.
    + by eapply opensWell_openAnswer.
    + by eapply opensWell_otherAnswer.
Qed.

Lemma opensWell_run p d pres events : opensWell (steps events (init p d pres)).
Proof.
  apply (life_invariant_state opensWell); [|apply opensWell_commit|apply opensWell_handle].
  split; [set_solver | apply NoDup_nil_2 | done | set_solver].
Qed.

(** The canvas and what it counts as. *)
Definition sameShown (s s' : Life) : Prop :=
  li_canvas s' = li_canvas s ∧ lw_activeGraph (li_view s') = lw_activeGraph (li_view s) ∧
  lw_savedFingerprint (li_view s') = lw_savedFingerprint (li_view s).

(** A Graph of a head is on the canvas, as saved. *)
Definition showsGraph (head : CollaborativeHead) (g : SavedGraph) (s : Life) : Prop :=
  li_canvas s = {| lc_document := normalize (documentOfGraph g); lc_presentation := presentationOf g |} ∧
  lw_activeGraph (li_view s) = Some (activeGraphFrom head g) ∧ lw_savedFingerprint (li_view s) = Some (fingerprint (draftOfGraph g)).

Lemma sameShown_finally o s t : sameShown s t → sameShown s (openFinally o t).
Proof. unfold openFinally. by repeat case_match. Qed.

Lemma sameShown_catch o m s : sameShown s (openCatch o m s).
Proof. unfold openCatch. by case_match. Qed.

Lemma continue_shows o head g runs w s :
  let s' := continueOpening numberText localeCompare o head g runs w s in
  sameShown s s' ∨ openCurrent o s = true ∧ lf_currentFingerprint (li_refs s) = og_fingerprint o ∧ showsGraph head g s'.
Proof.
  cbv zeta. unfold continueOpening. case_match.
  - destruct (openCurrent o s) eqn:Ec; [|by left; apply sameShown_finally]. cbn [negb].
    case_bool_decide as Ef; [|by left; apply sameShown_finally]. by right.
  - left. apply sameShown_finally, sameShown_catch.
Qed.

(** What an answer to an open does to the canvas: nothing, or the Graph it was asked for. *)
Lemma open_answer_shows r o a s :
  openOf r = Some o →
  let s' := answerLife numberText localeCompare r a s in
  sameShown s s' ∨
  openCurrent o s = true ∧ lf_currentFingerprint (li_refs s) = og_fingerprint o ∧
  ∃ head g, r = lr_openSnapshot o head g ∧ showsGraph head g s'.
Proof.
  intros Er. cbv zeta. destruct r, a; try discriminate Er; injection Er as <-; cbn [answerLife]; try (by left);
    try (left; apply sameShown_finally, sameShown_catch).
  - left. unfold answerOpenHead. repeat case_match; done || by apply sameShown_finally.
  - destruct (continue_shows o0 head graph results None s) as [H|(H1 & H2 & H3)]; [by left|right; eauto 6].
  - unfold answerOpenSnapshot. case_match; [by left; apply sameShown_finally|].
    match goal with |- context [continueOpening _ _ ?o ?h ?g ?r ?w ?s] => destruct (continue_shows o h g r w s) as [H1|(H1 & H2 & H3)] end;
      [by left|right; eauto 6].
  - left. unfold answerOpenSecrets. case_match; by apply sameShown_finally.
Qed.


(** ** What counts as saved *)

(** The heads that an event brings. *)
Definition headsOf (e : LifeEvent) : list CollaborativeHead :=
  match e with
  | lv_sync head | lv_answer _ (la_head head) => [head]
  | lv_answer _ (la_persisted checkpointHead currentHead) => [checkpointHead; currentHead]
  | _ => []
  end.

(** A Graph of a head that came in. *)
Definition received (es : list LifeEvent) (head : CollaborativeHead) (g : SavedGraph) : Prop :=
  head ∈ es ≫= headsOf ∧ graphFromProjectHead head (sv_id g) = Some g.

Definition savedOk (es : list LifeEvent) (v : LifeView) : Prop :=
  ∀ f, lw_savedFingerprint v = Some f →
    ∃ head g, received es head g ∧ f = fingerprint (draftOfGraph g) ∧ lw_activeGraph v = Some (activeGraphFrom head g).

(** A save of a named Graph is addressed to it. *)
Definition addressed (sv : Saving) (projectId graphId : string) : Prop :=
  ∀ g, sw_activeGraph sv = Some g → projectId = sg_id g ∧ graphId = sg_graphId g.

(** What the requests in flight hold on to: a Graph that came in; for a save, the Graph the
    canvas named when it began, the head the document is written against, and the sequence
    and epoch it was accepted with. *)
Definition requestOk (es : list LifeEvent) (r : LifeRequest) : Prop :=
  match r with
  | lr_openSnapshot _ head g => received es head g
  | lr_persist sv graphId => sg_graphId <$> sw_activeGraph sv = Some graphId
  | lr_create sv _ => sw_activeGraph sv = None
  | lr_saveHead sv projectId graphId => addressed sv projectId graphId
  | lr_submit sv projectId graphId seq epoch =>
      addressed sv projectId graphId ∧
      ∃ k head, lv_answer k (la_head head) ∈ es ∧ seq = h_collaboration_sequence head ∧ epoch = h_room_epoch head
  | lr_checkpoint sv projectId epoch seq =>
      (∀ g, sw_activeGraph sv = Some g → projectId = sg_id g) ∧
      ∃ k head, lv_answer k (la_submitted head seq) ∈ es ∧ epoch = h_room_epoch head
  | _ => True
  end.

Record savedWell (es : list LifeEvent) (s : Life) : Prop := {
  sw_view : savedOk es (li_view s);
  sw_requests : Forall (requestOk es) (li_requests s)
}.

Lemma openGraphOf_received es head i g : head ∈ es ≫= headsOf → openGraphOf head i = Some g → received es head g.
Proof.
  intros Hh E. split; [done|]. unfold openGraphOf in E. apply bind_Some in E as (c & _ & E).
  enough (sv_id g = g_id c) as -> by done. unfold graphFromProjectHead in E. apply bind_Some in E as (c' & Hf & [= <-]). cbn.
  by apply find_id_Some in Hf as [_ Hf].
Qed.

Lemma received_mono es e head g : received es head g → received (es ++ [e]) head g.
Proof. intros [H ?]. split; [|done]. rewrite bind_app. set_solver. Qed.

Lemma savedWell_mono es e s : savedWell es s → savedWell (es ++ [e]) s.
Proof.
  intros [H1 H2]. split.
  - intros f (head & g & ? & ?)%H1. exists head, g. split; [by apply received_mono|done].
  - eapply Forall_impl; [exact H2|]. intros []; cbn; try done; [apply received_mono|set_solver..].
Qed.

(** What changes neither the Graph that is named nor what counts as saved. *)
Lemma savedWell_frame es s s' :
  savedWell es s → lw_activeGraph (li_view s') = lw_activeGraph (li_view s) → lw_savedFingerprint (li_view s') = lw_savedFingerprint (li_view s) →
  li_requests s' = li_requests s → savedWell es s'.
Proof. intros [H1 H2] E1 E2 E3. split; [|by rewrite E3]. intros f. rewrite E1, E2. apply H1. Qed.

Lemma savedWell_none es s s' : savedWell es s → lw_savedFingerprint (li_view s') = None → li_requests s' = li_requests s → savedWell es s'.
Proof. intros [_ H2] E1 E2. split; [|by rewrite E2]. intros f. by rewrite E1. Qed.

Lemma savedWell_shows es head g s s' :
  savedWell es s → received es head g → lw_activeGraph (li_view s') = Some (activeGraphFrom head g) →
  lw_savedFingerprint (li_view s') = Some (fingerprint (draftOfGraph g)) → li_requests s' = li_requests s → savedWell es s'.
Proof. intros [_ H2] Hr E1 E2 E3. split; [|by rewrite E3]. intros f. rewrite E2. intros [= <-]. eauto. Qed.

Lemma savedWell_sends es r s : requestOk es r → savedWell es s → savedWell es (sends r s).
Proof. intros Hr [H1 H2]. split; [done|]. cbn. apply Forall_app. by repeat constructor. Qed.

Lemma savedWell_sync es registry head s :
  head ∈ es ≫= headsOf → savedWell es s → savedWell es (syncFromCollaborativeHead numberText localeCompare registry head s).1.
Proof.
  intros Hh H. unfold syncFromCollaborativeHead. destruct (openGraphOf _ _) as [g|] eqn:Eg; [|done].
  eapply openGraphOf_received in Eg; [|exact Hh].
  destruct (headIsCheckpointed head); [|by eapply savedWell_none]. by case_match; eapply savedWell_shows.
Qed.

Lemma savedWell_blankGraph es s : savedWell es s → savedWell es (showBlankGraph s).
Proof. intros H. by eapply savedWell_none. Qed.

Lemma savedWell_openSaved es graphId updateAddress pushError s :
  savedWell es s → savedWell es (openSavedGraph numberText localeCompare graphId updateAddress pushError s).
Proof.
  intros H. unfold openSavedGraph, openByAddress, openByLoading. repeat case_match; try (by eapply savedWell_frame).
  apply savedWell_sends; [done|]. by eapply savedWell_frame.
Qed.

Lemma savedWell_commit es s : savedWell es s → savedWell es (commits s).
Proof.
  intros H. unfold commit, routeEffect. repeat case_match; try (by eapply savedWell_frame).
  - apply savedWell_openSaved. by eapply savedWell_frame.
  - apply savedWell_blankGraph. by eapply savedWell_frame.
Qed.

Lemma savedWell_finally es o s : savedWell es s → savedWell es (openFinally o s).
Proof. intros H. unfold openFinally. by repeat case_match; eapply savedWell_frame. Qed.

Lemma savedWell_catch es o m s : savedWell es s → savedWell es (openCatch o m s).
Proof. intros H. unfold openCatch. by repeat case_match; eapply savedWell_frame. Qed.

Lemma savedWell_error es m s : savedWell es s → savedWell es (setPersistenceError m s).
Proof. intros H. by eapply savedWell_frame. Qed.

Lemma savedWell_saveFinally es s : savedWell es s → savedWell es (saveFinally s).
Proof. intros H. unfold saveFinally. by repeat case_match; eapply savedWell_frame. Qed.

Lemma savedWell_saveFailed es sv e s : savedWell es s → savedWell es (saveFailed sv e s).
Proof. intros H. unfold saveFailed. apply savedWell_saveFinally. by case_match; eapply savedWell_frame. Qed.

Lemma savedWell_continue es o head g runs w s :
  received es head g → savedWell es s → savedWell es (continueOpening numberText localeCompare o head g runs w s).
Proof.
  intros Hr H. unfold continueOpening. repeat case_match; try by apply savedWell_finally, savedWell_catch || apply savedWell_finally, savedWell_error || apply savedWell_finally.
  apply savedWell_sends; [done|]. by eapply savedWell_shows.
Qed.

Lemma savedWell_persist es sv h1 h2 s :
  h1 ∈ es ≫= headsOf → h2 ∈ es ≫= headsOf → savedWell es s → savedWell es (answerPersist numberText localeCompare sv h1 h2 s).
Proof.
  intros Hh1 Hh2 H. apply (persist_cases (savedWell es)); [done|..].
  - intros e t Ht. by eapply savedWell_frame.
  - apply savedWell_saveFinally.
  - intros e t. apply savedWell_saveFailed.
  - by intros h t [-> | ->]; apply savedWell_sync.
Qed.

Lemma savedWell_checkpoint es sv h s :
  h ∈ es ≫= headsOf → savedWell es s → savedWell es (answerCheckpoint numberText localeCompare sv h s).
Proof.
  intros Hh H. unfold answerCheckpoint. repeat (case_match; [apply savedWell_saveFinally; by eapply savedWell_frame|]).
  case_match eqn:Eg; [|apply savedWell_saveFinally; by eapply savedWell_frame]. eapply openGraphOf_received in Eg; [|exact Hh].
  apply savedWell_sends; [done|]. by case_match; eapply savedWell_shows.
Qed.

Lemma savedWell_delete es dg s : savedWell es s → savedWell es (answerDelete dg s).
Proof.
  intros H. unfold answerDelete, deleteFinally, leaveDeletedGraph.
  repeat case_match; by (eapply savedWell_frame + eapply savedWell_none).
Qed.

Lemma savedWell_answer es k r a s :
  requestOk es r → savedWell es s → (∀ h, h ∈ headsOf (lv_answer k a) → h ∈ es ≫= headsOf) → lv_answer k a ∈ es →
  savedWell es (answerLife numberText localeCompare r a s).
Proof.
  intros Hr H Hh Hin. cbn [headsOf] in Hh.
  destruct r, a; cbn [answerLife]; try done; try (by apply savedWell_saveFailed); try (by apply savedWell_finally, savedWell_catch);
    try (by apply savedWell_sends).
  - unfold answerOpenHead. case_match eqn:Eg; [|by apply savedWell_finally, savedWell_error].
    case_match; [by apply savedWell_finally; eapply savedWell_frame|]. apply savedWell_sends; [|by eapply savedWell_frame].
    eapply openGraphOf_received, Eg. apply Hh. set_solver.
  - by apply savedWell_continue.
  - unfold answerOpenSnapshot. case_match; [by apply savedWell_finally|]. by apply savedWell_continue.
  - unfold answerOpenSecrets. case_match; apply savedWell_finally; [done|by eapply savedWell_frame].
  - apply savedWell_persist; [apply Hh; set_solver..|done].
  - apply savedWell_sends; [|done]. intros g Eg. cbn in Hr. congruence.
  - apply savedWell_sends; [|done]. split; [done|eauto].
  - apply savedWell_sends; [|done]. destruct Hr as [Hr _]. split; [|eauto]. by intros g [? _]%Hr.
  - apply savedWell_checkpoint; [apply Hh; set_solver|done].
  - by apply savedWell_saveFinally.
  - by apply savedWell_delete.
  - unfold deleteFailed, deleteFinally. repeat case_match; by eapply savedWell_frame.
Qed.

Lemma savedWell_handle es e s : savedWell es s → savedWell (es ++ [e]) (handle e s).
Proof.
  intros H%(savedWell_mono _ e).
  assert (∀ h, h ∈ headsOf e → h ∈ (es ++ [e]) ≫= headsOf) as Hh by (intros h; rewrite bind_app; cbn; set_solver).
  destruct e; cbn [lifeHandle]; try done; try (by eapply savedWell_frame).
  - unfold requestNewGraph. case_match; [by eapply savedWell_none|by eapply savedWell_frame].
  - by apply savedWell_openSaved.
  - unfold saveCurrentGraph. repeat case_match; try (by apply savedWell_error || done); apply savedWell_sends; try (by eapply savedWell_frame); try done;
      cbn; try congruence; intros g' Eg; cbn in Eg; simplify_eq; done.
  - unfold removeSavedGraph. case_match; [done|]. apply savedWell_sends; [done|]. by eapply savedWell_frame.
  - apply savedWell_sync; [|done]. apply Hh. set_solver.
  - by eapply savedWell_none.
  - case_match; by eapply savedWell_frame.
  - destruct (li_requests s !! k) as [r|] eqn:Hk; [|done]. case_match; [|done]. destruct H as [H1 H2].
    apply savedWell_answer with k; [| |done|set_solver].
    + eapply Forall_lookup_1; [exact H2|exact Hk].
    + split; [done|]. by apply Forall_delete.
Qed.

Lemma savedWell_run p d pres events : savedWell events (steps events (init p d pres)).
Proof. apply (life_invariant savedWell); [by split|apply savedWell_commit|apply savedWell_handle]. Qed.

(** The document that was normalized makes the same draft. *)
Lemma draft_normalize d pres : createGraphDraft (normalize d) pres = createGraphDraft d pres.
Proof.
  unfold normalize, authoredGraphDocument, createGraphDraft. cbn [draft_name draft_document name nodes edges origins agents d_nodes d_edges d_origins d_agents jsopt_or].
  change projectSavedGraphNode with (project (A := GraphNode)). change projectSavedGraphEdge with (project (A := GraphEdge)).
  change projectSavedGraphOrigin with (project (A := GraphOrigin)). change projectSavedGraphAgent with (project (A := GraphAgent)).
  rewrite trim_idem, !(project_canonical (project <$> _)) by apply canonical_project.
  unfold presentationForDocument. by rewrite ids_project.
Qed.

(** A Graph that was just put on the canvas as saved is not dirty. *)
Lemma shown_graph_is_clean head g s :
  showsGraph head g s → isDirty (lifeDirtiness numberText localeCompare s) = false.
Proof.
  intros (Ec & Ea & Ef). unfold lifeDirtiness, savedGraphDirtiness. cbn [isDirty di_hasActiveGraph di_savedFingerprint di_currentFingerprint].
  rewrite Ea, Ef. rewrite (bool_decide_eq_true_2 (is_Some _)) by eauto.
  unfold currentDraft. rewrite Ec. cbn [lc_document lc_presentation]. rewrite draft_normalize. by rewrite bool_decide_eq_true_2.
Qed.

(** C9: a canvas with a Project that is not dirty is on the server: some head that came in
    is of the Project the canvas names, holds the Graph it names, and that Graph and the
    canvas have the same name, nodes, connections and presentation. *)
Theorem a_clean_canvas_is_on_the_server `{!NumberText numberText} p d pres events active :
  let s := steps events (init p d pres) in
  lw_activeGraph (li_view s) = Some active → isDirty (lifeDirtiness numberText localeCompare s) = false →
  ∃ head g, head ∈ events ≫= headsOf ∧ h_project_id head = sg_id active ∧ graphFromProjectHead head (sg_graphId active) = Some g ∧
    fingerprint (currentDraft s) = fingerprint (draftOfGraph g) ∧
    (plain_draft (currentDraft s) = true → plain_draft (draftOfGraph g) = true →
     same_execution (currentDraft s) (draftOfGraph g) ∧
     same_presentation (draftPresentation (currentDraft s)) (draftPresentation (draftOfGraph g))).
Proof.
  intros s Ea. unfold lifeDirtiness, savedGraphDirtiness. cbn [isDirty di_hasActiveGraph di_savedFingerprint di_currentFingerprint].
  rewrite Ea, (bool_decide_eq_true_2 (is_Some _)) by eauto. intros Ef%negb_false_iff%bool_decide_eq_true_1.
  destruct (savedWell_run p d pres events) as [Hs _]. destruct (Hs _ Ef) as (head & g & [Hh Hg] & E1 & E2). fold s in E2. rewrite Ea in E2.
  injection E2 as ->. exists head, g. split_and!; [done..|]. intros Hp Hp'. by eapply fingerprint_read.
Qed.

(** ** Saves *)

Definition saveOf (r : LifeRequest) : option Saving :=
  match r with
  | lr_persist sv _ | lr_create sv _ | lr_saveHead sv _ _ | lr_submit sv _ _ _ _ | lr_checkpoint sv _ _ _ | lr_saveSecrets sv => Some sv
  | _ => None
  end.

Definition savesOf (s : Life) : list Saving := omap saveOf (li_requests s).

(** With [n] saves being answered. *)
Definition saveInv (n : nat) (s : Life) : Prop :=
  let saves := n + length (savesOf s) in
  let locked := if lw_saving (li_view s) then 1 else 0 in
  saves ≤ locked ∧ (lf_mounted (li_refs s) = true → saves = locked).

Lemma saveInv_frame n s s' :
  saveInv n s → savesOf s' = savesOf s → lw_saving (li_view s') = lw_saving (li_view s) → lf_mounted (li_refs s') = lf_mounted (li_refs s) →
  saveInv n s'.
Proof. unfold saveInv. intros H -> -> ->. done. Qed.

Lemma saveInv_finally s : saveInv 1 s → saveInv 0 (saveFinally s).
Proof.
  unfold saveInv, saveFinally. intros [H1 H2]. destruct (lf_mounted (li_refs s)) eqn:E.
  - change (savesOf (setSaving false s)) with (savesOf s). cbn [lw_saving setSaving on_view li_view]. destruct (lw_saving (li_view s)); lia.
  - rewrite E. destruct (lw_saving (li_view s)); split; lia || done.
Qed.

Lemma savesOf_sends r s : length (savesOf (sends r s)) = length (savesOf s) + if saveOf r is Some _ then 1 else 0.
Proof. unfold savesOf. cbn [li_requests sends with_requests]. rewrite omap_app, length_app. cbn. by destruct (saveOf r). Qed.

Lemma saveInv_sends r s : saveInv (if saveOf r is Some _ then 1 else 0) s → saveInv 0 (sends r s).
Proof.
  unfold saveInv. rewrite savesOf_sends. cbn [li_view li_refs sends with_requests]. rewrite (Nat.add_comm (length _)). done.
Qed.

Lemma saveInv_failed sv e s : saveInv 1 s → saveInv 0 (saveFailed sv e s).
Proof. intros H. apply saveInv_finally. by case_match. Qed.

Lemma saveInv_sync n registry head s : saveInv n s → saveInv n (syncFromCollaborativeHead numberText localeCompare registry head s).1.
Proof. intros H. unfold syncFromCollaborativeHead. repeat case_match; by eapply saveInv_frame. Qed.

Lemma saveInv_openSaved graphId updateAddress pushError s :
  saveInv 0 s → saveInv 0 (openSavedGraph numberText localeCompare graphId updateAddress pushError s).
Proof.
  intros H. unfold openSavedGraph, openByAddress, openByLoading. repeat case_match; try (by eapply saveInv_frame).
  apply saveInv_sends. by eapply saveInv_frame.
Qed.

Lemma saveInv_commit s : saveInv 0 s → saveInv 0 (commits s).
Proof.
  intros H. unfold commit, routeEffect. repeat case_match; try (by eapply saveInv_frame).
  apply saveInv_openSaved. by eapply saveInv_frame.
Qed.

Lemma saveInv_openEnd o s : saveInv 0 s → saveInv 0 (openFinally o s).
Proof. intros H. unfold openFinally. repeat case_match; by eapply saveInv_frame. Qed.

Lemma saveInv_openCatch o m s : saveInv 0 s → saveInv 0 (openCatch o m s).
Proof. intros H. unfold openCatch. repeat case_match; by eapply saveInv_frame. Qed.

Lemma saveInv_continue o head g runs w s :
  saveInv 0 s → saveInv 0 (continueOpening numberText localeCompare o head g runs w s).
Proof.
  intros H. unfold continueOpening. repeat case_match; try by apply saveInv_openEnd, saveInv_openCatch || apply saveInv_openEnd.
  apply saveInv_sends. by eapply saveInv_frame.
Qed.

Lemma saveInv_answer r a s :
  lifeAnswers r a = true → saveInv (if saveOf r is Some _ then 1 else 0) s → saveInv 0 (answerLife numberText localeCompare r a s).
Proof.
  intros Ha H. destruct r, a; try discriminate Ha; cbn [answerLife saveOf] in *; try (by apply saveInv_failed);
    try (by apply saveInv_openEnd, saveInv_openCatch); try (by apply saveInv_sends).
  - unfold answerOpenHead. repeat case_match; try (apply saveInv_openEnd; by eapply saveInv_frame). apply saveInv_sends. by eapply saveInv_frame.
  - by apply saveInv_continue.
  - unfold answerOpenSnapshot. case_match; [by apply saveInv_openEnd|]. by apply saveInv_continue.
  - unfold answerOpenSecrets. case_match; by apply saveInv_openEnd.
  - apply (persist_cases (saveInv 1)); [done|done|apply saveInv_finally|apply saveInv_failed|]. intros h t _. apply saveInv_sync.
  - unfold answerCheckpoint. repeat (case_match; try (apply saveInv_finally; by eapply saveInv_frame));
      apply saveInv_sends; by eapply saveInv_frame.
  - by apply saveInv_finally.
  - unfold answerDelete, deleteFinally, leaveDeletedGraph. repeat case_match; by eapply saveInv_frame.
  - unfold deleteFailed, deleteFinally. repeat case_match; by eapply saveInv_frame.
Qed.

Lemma saveInv_handle e s : saveInv 0 s → saveInv 0 (handle e s).
Proof.
  intros H. destruct e; cbn [lifeHandle]; try done; try (by eapply saveInv_frame).
  - unfold requestNewGraph. case_match; by eapply saveInv_frame.
  - by apply saveInv_openSaved.
  - unfold saveCurrentGraph. destruct (saveBlocked s) eqn:Eb; [done|]. 
    assert (lw_saving (li_view s) = false) as Ew by (unfold saveBlocked in Eb; by destruct (lw_saving (li_view s)); rewrite ?orb_true_r in Eb).
    assert (saveInv 1 (setSaving true (setPersistenceError None s))) as H1.
    { destruct H as [H1 H2]. rewrite Ew in H1, H2. unfold saveInv.
      change (savesOf (setSaving _ _)) with (savesOf s). cbn [lw_saving setSaving on_view li_view]. split; [lia|intros _; lia]. }
    repeat case_match; try (by eapply saveInv_frame); apply saveInv_sends; by eapply saveInv_frame.
  - unfold removeSavedGraph. case_match; [done|]. apply saveInv_sends. by eapply saveInv_frame.
  - by apply saveInv_sync.
  - case_match; by eapply saveInv_frame.
  - destruct H. split; [done|]. done.
  - destruct (li_requests s !! k) as [r|] eqn:Hk; [|done]. case_match eqn:Ha; [|done]. apply saveInv_answer; [done|].
    unfold saveInv in *. assert (length (savesOf s) = (if saveOf r is Some _ then 1 else 0) + length (savesOf (with_requests (delete k (li_requests s)) s))) as E.
    { unfold savesOf. rewrite (delete_Permutation _ _ _ Hk) at 1. cbn. by destruct (saveOf r). }
    rewrite E in H. done.
Qed.

Lemma saveInv_run p d pres events : saveInv 0 (steps events (init p d pres)).
Proof. apply (life_invariant_state (saveInv 0)); [by split|apply saveInv_commit|apply saveInv_handle]. Qed.

End theory.

(** ** Traces *)

Definition lc_registry : NodeRegistry := {| rg_nodes := []; rg_artifact_types := []; rg_artifact_conversions := [] |}.

Definition lc_props (route : option string) : LifeProps :=
  {| lp_initialGraphId := route; lp_registry := Some lc_registry; lp_executionRunning := false; lp_roomPersistence := None; lp_hasUnsyncedRoomEdits := false |}.

Definition lc_head (projectId graphName : string) (checkpoint : Z) : CollaborativeHead :=
  {| h_checkpoint_revision := 1; h_checkpoint_sequence := checkpoint; h_collaboration_sequence := 4;
     h_graphs := [{| g_id := projectId +:+ "-graph"; g_name := graphName;
                     g_document := {| d_nodes := []; d_edges := []; d_origins := []; d_agents := Undef; d_presentation := Undef |};
                     g_refresh_generations := JUndefined |}];
     h_name := projectId; h_project_id := projectId; h_room_epoch := "epoch"; h_updated_at := "now" |}.

Definition lc_run (events : list LifeEvent) : Life :=
  lifeSteps fractionText codeCompare events (lifeInit fractionText codeCompare (lc_props None) blankDocument emptyGraphPresentation).

(** The route goes to a Project, and its three requests are answered. *)
Definition lc_opens (projectId graphName : string) : list LifeEvent :=
  [lv_render (lc_props (Some projectId)) false; lv_answer 0 (la_head (lc_head projectId graphName 4)); lv_answer 0 (la_snapshot []); lv_answer 0 la_secrets].

Definition lc_dirty (s : Life) : bool := isDirty (lifeDirtiness fractionText codeCompare s).



(** The comment in [openSavedGraph] has durable editing locked from the click on another
    Project until its route arrives.  When a load is in flight, the lock falls with it: it is
    aborted, but is still the last one begun, and unlocks as it ends; a save then starts. *)
Lemma an_aborted_open_unlocks :
  let clicked := lc_run [lv_render (lc_props (Some "a")) false; lv_open "b" None] in
  let ended := lc_run [lv_render (lc_props (Some "a")) false; lv_open "b" None; lv_answer 0 (la_head (lc_head "a" "A" 4))] in
  lw_openingGraphId (li_view clicked) = Some "b" ∧ saveBlocked clicked = true ∧
  lp_initialGraphId (li_props ended) = Some "a" ∧ lw_openingGraphId (li_view ended) = None ∧ saveBlocked ended = false.
Proof. vm_compute. done. Qed.

(** Going back to the Project that is shown does not call off the load of the one that was
    left: it arrives on the canvas, over changes that were never saved. *)
Lemma a_load_that_was_left_replaces_the_canvas :
  let left := lc_run (lc_opens "a" "A" ++ [lv_setName "My work"; lv_render (lc_props (Some "b")) false; lv_render (lc_props (Some "a")) false]) in
  let arrived := lc_run (lc_opens "a" "A" ++ [lv_setName "My work"; lv_render (lc_props (Some "b")) false; lv_render (lc_props (Some "a")) false;
                                              lv_answer 0 (la_head (lc_head "b" "B" 4)); lv_answer 0 (la_snapshot [])]) in
  name (lc_document (li_canvas left)) = "My work" ∧ lc_dirty left = true ∧
  lp_initialGraphId (li_props arrived) = Some "a" ∧ sg_id <$> lw_activeGraph (li_view arrived) = Some "b" ∧
  name (lc_document (li_canvas arrived)) = "B".
Proof. vm_compute. done. Qed.

(** What counts as saved is documented as what was last checkpointed.  A head ahead of its
    checkpoint counts as unsaved when the room brings it, and as saved when it is opened. *)
Lemma an_uncheckpointed_head_opens_as_saved :
  let head := lc_head "a" "A" 3 in
  let opened := lc_run [lv_render (lc_props (Some "a")) false; lv_answer 0 (la_head head); lv_answer 0 (la_snapshot []); lv_answer 0 la_secrets] in
  let synced := lifeStep fractionText codeCompare (lv_sync head) opened in
  headIsCheckpointed head = false ∧ lc_dirty opened = false ∧ lc_dirty synced = true ∧ li_canvas opened = li_canvas synced.
Proof. vm_compute. done. Qed.

(** An open that was superseded still reports an empty Project, on the canvas that took its
    place. *)
Lemma a_superseded_open_reports :
  let empty := {| h_checkpoint_revision := 1; h_checkpoint_sequence := 4; h_collaboration_sequence := 4; h_graphs := []; h_name := "a";
                  h_project_id := "a"; h_room_epoch := "epoch"; h_updated_at := "now" |} in
  let s := lc_run [lv_render (lc_props (Some "a")) false; lv_render (lc_props (Some "b")) false; lv_answer 0 (la_head empty)] in
  lw_persistenceError (li_view s) = Some "This project holds no graph to open." ∧ lw_openingGraphId (li_view s) = Some "b".
Proof. vm_compute. done. Qed.

(** ** Witnesses *)

Definition lc_loading : list LifeEvent := [lv_render (lc_props (Some "a")) false; lv_answer 0 (la_head (lc_head "a" "A" 4))].


Lemma a_clean_canvas_is_on_the_server_witness :
  let s := lc_run (lc_opens "a" "A") in
  lc_dirty s = false ∧
  ∃ head g, head ∈ lc_opens "a" "A" ≫= headsOf ∧ h_project_id head = "a" ∧ graphFromProjectHead head "a-graph" = Some g ∧
    same_execution (currentDraft s) (draftOfGraph g).
Proof.
  split; [vm_compute; reflexivity|].
  destruct (a_clean_canvas_is_on_the_server fractionText codeCompare (lc_props None) blankDocument emptyGraphPresentation (lc_opens "a" "A")
    {| sg_id := "a"; sg_graphId := "a-graph"; sg_revision := 4; sg_nodes := [] |} ltac:(vm_compute; reflexivity) ltac:(vm_compute; reflexivity))
    as (head & g & H1 & H2 & H3 & _ & H5).
  exists head, g. split_and!; [done..|]. apply H5; [vm_compute; reflexivity|].
  cbn in H1. apply list_elem_of_singleton in H1 as ->. vm_compute in H3. injection H3 as <-. vm_compute. reflexivity.
Defined.
