(* ===== verification/Viewers.v ===== *)
(** * Cards, their wires and annotations ([canvas/artifact-viewer.ts], [canvas/annotations.ts],
      [canvas/artifact-viewer-edits.ts], [canvas/artifact-interactions.ts],
      [ui/workbench-canvas-selection.ts])

    What stands on the canvas beside the nodes: cards that show artifacts, wires that feed
    them, bindings between them, annotations.  It is written into the presentation of the
    document and read back from it, and edited by gestures.  Callbacks and other data that a
    render puts on a card are left out. *)

From stdpp Require Import numbers list.
From Stdlib Require Import Ascii.
From S2P Require Import Prelude Js JsNum JsText GraphModel GraphCommands GraphTheory Handles Routes NodeLayout ConfigSchema Canvas.

(** ** Annotations *)

Definition DEFAULT_ANNOTATION_COLOR : string := "#475569".

Record AnnotationLayout := { al_width : jsnum; al_height : jsnum }.

Record AnnotationNode := {
  ax_id : string;
  ax_position : GraphPoint;
  ax_selected : option bool;
  ax_kind : AnnotationKind;
  ax_layout : AnnotationLayout;
  ax_text : string;
  ax_color : string
}.

#[export] Instance AnnotationNode_id : Identified AnnotationNode := ax_id.

Definition LAYOUT_MIN : jsnum := num 24.
Definition LAYOUT_MAX : jsnum := num 16384.
Definition TEXT_MAX : nat := 8000.

Definition DEFAULT_ANNOTATION_LAYOUT (kind : AnnotationKind) : AnnotationLayout :=
  match kind with
  | AnnText => {| al_width := num 240; al_height := num 120 |}
  | AnnRectangle => {| al_width := num 160; al_height := num 120 |}
  | AnnEllipse => {| al_width := num 160; al_height := num 160 |}
  end.

Definition hexChar (c : Ascii.ascii) : bool :=
  let n := Ascii.nat_of_ascii c in ((48 <=? n) && (n <=? 57)) || ((65 <=? n) && (n <=? 70)) || ((97 <=? n) && (n <=? 102)).

(** [/^#[0-9A-Fa-f]{6}$/.test(value)] *)
Definition HEX_COLOR (value : string) : bool :=
  match value with
  | String.String c rest => bool_decide (c = "#"%char) && (String.length rest =? 6) && forallb hexChar (String.list_ascii_of_string rest)
  | EmptyString => false
  end.

Definition normalizeAnnotationColor (value : string) : string := if HEX_COLOR value then toLowerCase value else DEFAULT_ANNOTATION_COLOR.

Definition clampSize (v : jsnum) : jsnum := math_min LAYOUT_MAX (math_max LAYOUT_MIN v).

Definition clampAnnotationLayout (layout : AnnotationLayout) : AnnotationLayout :=
  {| al_width := clampSize (al_width layout); al_height := clampSize (al_height layout) |}.

Definition finitePoint (p : GraphPoint) : bool := num_isFinite (pt_x p) && num_isFinite (pt_y p).

(** One turn of the loop that reads annotations: it is kept, or skipped. *)
Definition readAnnotation (seen : list string) (a : GraphPresentationAnnotation) : option AnnotationNode :=
  if bool_decide (an_id a = "") || bool_decide (an_id a ∈ seen) then None
  else if finitePoint (an_position a) && num_isFinite (an_layout a).1 && num_isFinite (an_layout a).2 then
    Some {| ax_id := an_id a; ax_position := an_position a; ax_selected := None; ax_kind := an_kind a;
            ax_layout := clampAnnotationLayout {| al_width := (an_layout a).1; al_height := (an_layout a).2 |};
            ax_text := match an_kind a with AnnText => an_text a | _ => "" end;
            ax_color := normalizeAnnotationColor (an_color a) |}
  else None.

Fixpoint readAnnotations (seen : list string) (l : list GraphPresentationAnnotation) : list AnnotationNode :=
  match l with
  | [] => []
  | a :: rest =>
      match readAnnotation seen a with
      | Some node => node :: readAnnotations (an_id a :: seen) rest
      | None => readAnnotations seen rest
      end
  end.

Definition annotationsFromPresentation (l : list GraphPresentationAnnotation) : list AnnotationNode := readAnnotations [] l.

Definition serializeAnnotation (node : AnnotationNode) : GraphPresentationAnnotation :=
  let layout := clampAnnotationLayout (ax_layout node) in
  {| an_id := ax_id node; an_kind := ax_kind node; an_position := ax_position node; an_layout := (al_width layout, al_height layout);
     an_text := match ax_kind node with AnnText => String.substring 0 TEXT_MAX (ax_text node) | _ => "" end;
     an_color := normalizeAnnotationColor (ax_color node) |}.

Definition serializeAnnotations (nodes : list AnnotationNode) : list GraphPresentationAnnotation := serializeAnnotation <$> nodes.

Definition NEW_NOTE : string := "## Note" +:+ String.String "010"%char (String.String "010"%char "Describe this part of the graph.").

Definition createAnnotationNode (kind : AnnotationKind) (position : GraphPoint) (uuid : string) : AnnotationNode :=
  {| ax_id := "annotation-" +:+ uuid; ax_position := position; ax_selected := Some true; ax_kind := kind;
     ax_layout := DEFAULT_ANNOTATION_LAYOUT kind; ax_text := match kind with AnnText => NEW_NOTE | _ => "" end;
     ax_color := DEFAULT_ANNOTATION_COLOR |}.

(** ** Cards *)

Record ArtifactViewerNode := {
  vn_id : string;
  vn_position : GraphPoint;
  vn_selected : option bool;
  (** the size the renderer measured *)
  vn_measuredWidth : option jsnum;
  vn_measuredHeight : option jsnum;
  vn_layout : option WorkflowNodeLayout;
  vn_mode : option string;
  vn_artifactRef : jsval
}.

#[export] Instance ArtifactViewerNode_id : Identified ArtifactViewerNode := vn_id.

Record ArtifactViewerEdgeData := {
  vx_sourcePortName : string;
  vx_projection : option GraphProjection;
  vx_routeOffset : option GraphPoint
}.

Record ArtifactViewerEdge := {
  vx_id : string;
  vx_source : string;
  vx_target : string;
  vx_targetHandle : option string;
  vx_data : option ArtifactViewerEdgeData
}.

#[export] Instance ArtifactViewerEdge_id : Identified ArtifactViewerEdge := vx_id.

Record ArtifactViewerBinding := {
  vb_id : string;
  vb_sourceViewerId : string;
  vb_targetViewerId : string;
  vb_mappings : list (string * string);
  vb_effects : list BindingEffect
}.

#[export] Instance ArtifactViewerBinding_id : Identified ArtifactViewerBinding := vb_id.

#[export] Instance BindingEffect_eq_dec : EqDecision BindingEffect.
Proof. solve_decision. Defined.

Record ArtifactViewerCanvasState := {
  vs_nodes : list ArtifactViewerNode;
  vs_edges : list ArtifactViewerEdge;
  vs_bindings : list ArtifactViewerBinding;
  vs_annotations : list AnnotationNode
}.

Definition ARTIFACT_VIEWER_INPUT_HANDLE : string := "artifact-viewer-input".

Definition on_nodes (f : list ArtifactViewerNode → list ArtifactViewerNode) (s : ArtifactViewerCanvasState) : ArtifactViewerCanvasState :=
  {| vs_nodes := f (vs_nodes s); vs_edges := vs_edges s; vs_bindings := vs_bindings s; vs_annotations := vs_annotations s |}.
Definition on_edges (f : list ArtifactViewerEdge → list ArtifactViewerEdge) (s : ArtifactViewerCanvasState) : ArtifactViewerCanvasState :=
  {| vs_nodes := vs_nodes s; vs_edges := f (vs_edges s); vs_bindings := vs_bindings s; vs_annotations := vs_annotations s |}.
Definition on_bindings (f : list ArtifactViewerBinding → list ArtifactViewerBinding) (s : ArtifactViewerCanvasState) : ArtifactViewerCanvasState :=
  {| vs_nodes := vs_nodes s; vs_edges := vs_edges s; vs_bindings := f (vs_bindings s); vs_annotations := vs_annotations s |}.
Definition on_annotations (f : list AnnotationNode → list AnnotationNode) (s : ArtifactViewerCanvasState) : ArtifactViewerCanvasState :=
  {| vs_nodes := vs_nodes s; vs_edges := vs_edges s; vs_bindings := vs_bindings s; vs_annotations := f (vs_annotations s) |}.

(** *** Writing *)

Definition viewerOfNode (node : ArtifactViewerNode) : GraphPresentationViewer :=
  {| v_id := vn_id node; v_position := vn_position node; v_layout := orNull (serializeNodeLayout (vn_layout node));
     v_mode := orNull (vn_mode node); v_artifact_ref := vn_artifactRef node |}.

Definition linkOfEdge (edge : ArtifactViewerEdge) : GraphPresentationLink :=
  {| l_id := vx_id edge; l_source_node_id := vx_source edge; l_source_port_name := default "" (vx_sourcePortName <$> vx_data edge);
     l_target_viewer_id := vx_target edge; l_projection := orNull (vx_data edge ≫= vx_projection);
     l_route_offset := orNull (vx_data edge ≫= vx_routeOffset) |}.

Definition trimMapping (mapping : string * string) : list (string * string) :=
  let sourceField := trim mapping.1 in
  let targetField := trim mapping.2 in
  if bool_decide (sourceField = "") || bool_decide (targetField = "") then [] else [(sourceField, targetField)].

Definition bindingOfBinding (binding : ArtifactViewerBinding) : GraphPresentationBinding :=
  {| pb_id := vb_id binding; pb_source_viewer_id := vb_sourceViewerId binding; pb_target_viewer_id := vb_targetViewerId binding;
     pb_mappings := vb_mappings binding ≫= trimMapping; pb_effects := vb_effects binding |}.

Definition presentationFromArtifactViewers (s : ArtifactViewerCanvasState) : GraphPresentation :=
  {| viewers := viewerOfNode <$> vs_nodes s; links := linkOfEdge <$> vs_edges s; bindings := bindingOfBinding <$> vs_bindings s;
     annotations := serializeAnnotations (vs_annotations s) |}.

(** *** Reading *)

Definition readViewer (nodeIds : list string) (v : GraphPresentationViewer) : option ArtifactViewerNode :=
  if bool_decide (v_id v = "") || bool_decide (v_id v ∈ nodeIds) then None
  else if finitePoint (v_position v) then
    Some {| vn_id := v_id v; vn_position := v_position v; vn_selected := None; vn_measuredWidth := None; vn_measuredHeight := None;
            vn_layout := hydrateNodeLayout (jsopt_to_option (v_layout v)); vn_mode := jsopt_to_option (v_mode v); vn_artifactRef := v_artifact_ref v |}
  else None.

Fixpoint readViewers (nodeIds : list string) (l : list GraphPresentationViewer) : list ArtifactViewerNode :=
  match l with
  | [] => []
  | v :: rest =>
      match readViewer nodeIds v with
      | Some node => node :: readViewers (v_id v :: nodeIds) rest
      | None => readViewers nodeIds rest
      end
  end.

(** [...(projectionPath?.length ? ...)]: an empty path counts as none. *)
Definition readProjection (p : jsopt GraphProjection) : option GraphProjection :=
  p ← jsopt_to_option p; if is_nil (path p) then None else Some p.

Definition readLink (nodeIds edgeIds connectedViewerIds : list string) (l : GraphPresentationLink) : option ArtifactViewerEdge :=
  if bool_decide (l_id l = "") || bool_decide (l_id l ∈ edgeIds) || bool_decide (l_source_node_id l = "") || bool_decide (l_source_port_name l = "") ||
     negb (bool_decide (l_target_viewer_id l ∈ nodeIds)) || bool_decide (l_target_viewer_id l ∈ connectedViewerIds)
  then None
  else
    Some {| vx_id := l_id l; vx_source := l_source_node_id l; vx_target := l_target_viewer_id l;
            vx_targetHandle := Some ARTIFACT_VIEWER_INPUT_HANDLE;
            vx_data := Some {| vx_sourcePortName := l_source_port_name l; vx_projection := readProjection (l_projection l);
                               vx_routeOffset := jsopt_to_option (l_route_offset l) |} |}.

Fixpoint readLinks (nodeIds edgeIds connectedViewerIds : list string) (l : list GraphPresentationLink) : list ArtifactViewerEdge :=
  match l with
  | [] => []
  | link :: rest =>
      match readLink nodeIds edgeIds connectedViewerIds link with
      | Some edge => edge :: readLinks nodeIds (l_id link :: edgeIds) (l_target_viewer_id link :: connectedViewerIds) rest
      | None => readLinks nodeIds edgeIds connectedViewerIds rest
      end
  end.

(** [[...new Set(effects)]] *)
Fixpoint firstEffects (seen l : list BindingEffect) : list BindingEffect :=
  match l with
  | [] => []
  | e :: rest => if bool_decide (e ∈ seen) then firstEffects seen rest else e :: firstEffects (e :: seen) rest
  end.

Definition readBinding (nodeIds bindingIds : list string) (b : GraphPresentationBinding) : option ArtifactViewerBinding :=
  if bool_decide (pb_id b = "") || bool_decide (pb_id b ∈ bindingIds) || negb (bool_decide (pb_source_viewer_id b ∈ nodeIds)) ||
     negb (bool_decide (pb_target_viewer_id b ∈ nodeIds)) || bool_decide (pb_source_viewer_id b = pb_target_viewer_id b)
  then None
  else
    let effects := firstEffects [] (pb_effects b) in
    if is_nil effects then None
    else Some {| vb_id := pb_id b; vb_sourceViewerId := pb_source_viewer_id b; vb_targetViewerId := pb_target_viewer_id b;
                 vb_mappings := filter (λ m, m.1 ≠ "" ∧ m.2 ≠ "") (pb_mappings b); vb_effects := effects |}.

Fixpoint readBindings (nodeIds bindingIds : list string) (l : list GraphPresentationBinding) : list ArtifactViewerBinding :=
  match l with
  | [] => []
  | b :: rest =>
      match readBinding nodeIds bindingIds b with
      | Some binding => binding :: readBindings nodeIds (pb_id b :: bindingIds) rest
      | None => readBindings nodeIds bindingIds rest
      end
  end.

Definition artifactViewersFromPresentation (presentation : option GraphPresentation) : ArtifactViewerCanvasState :=
  let p := default emptyPresentation presentation in
  let nodes := readViewers [] (viewers p) in
  {| vs_nodes := nodes; vs_edges := readLinks (ids nodes) [] [] (links p); vs_bindings := readBindings (ids nodes) [] (bindings p);
     vs_annotations := annotationsFromPresentation (annotations p) |}.


(** ** Edits *)

Definition set_layout (layout : option WorkflowNodeLayout) (n : ArtifactViewerNode) : ArtifactViewerNode :=
  {| vn_id := vn_id n; vn_position := vn_position n; vn_selected := vn_selected n; vn_measuredWidth := vn_measuredWidth n; vn_measuredHeight := vn_measuredHeight n; vn_layout := layout;
     vn_mode := vn_mode n; vn_artifactRef := vn_artifactRef n |}.
Definition set_mode (mode : string) (n : ArtifactViewerNode) : ArtifactViewerNode :=
  {| vn_id := vn_id n; vn_position := vn_position n; vn_selected := vn_selected n; vn_measuredWidth := vn_measuredWidth n; vn_measuredHeight := vn_measuredHeight n; vn_layout := vn_layout n;
     vn_mode := Some mode; vn_artifactRef := vn_artifactRef n |}.
Definition set_artifactRef (value : jsval) (n : ArtifactViewerNode) : ArtifactViewerNode :=
  {| vn_id := vn_id n; vn_position := vn_position n; vn_selected := vn_selected n; vn_measuredWidth := vn_measuredWidth n; vn_measuredHeight := vn_measuredHeight n; vn_layout := vn_layout n;
     vn_mode := vn_mode n; vn_artifactRef := value |}.
Definition set_position (position : GraphPoint) (n : ArtifactViewerNode) : ArtifactViewerNode :=
  {| vn_id := vn_id n; vn_position := position; vn_selected := vn_selected n; vn_measuredWidth := vn_measuredWidth n; vn_measuredHeight := vn_measuredHeight n; vn_layout := vn_layout n;
     vn_mode := vn_mode n; vn_artifactRef := vn_artifactRef n |}.
Definition set_selected (selected : bool) (n : ArtifactViewerNode) : ArtifactViewerNode :=
  {| vn_id := vn_id n; vn_position := vn_position n; vn_selected := Some selected; vn_measuredWidth := vn_measuredWidth n; vn_measuredHeight := vn_measuredHeight n; vn_layout := vn_layout n;
     vn_mode := vn_mode n; vn_artifactRef := vn_artifactRef n |}.

Definition withViewerLayout (s : ArtifactViewerCanvasState) (nodeId : string) (layout : option WorkflowNodeLayout) : ArtifactViewerCanvasState :=
  on_nodes (map_id nodeId (set_layout layout)) s.

Definition withViewerMode (s : ArtifactViewerCanvasState) (nodeId mode : string) : ArtifactViewerCanvasState :=
  on_nodes (map_id nodeId (set_mode mode)) s.

(** [update.projection]: left out, null or a projection. *)
Definition edgeProjection (update : jsopt GraphProjection) (d : option ArtifactViewerEdgeData) : option GraphProjection :=
  match update with Undef => d ≫= vx_projection | Null => None | Val p => Some p end.

Definition set_edgeData (d : ArtifactViewerEdgeData) (e : ArtifactViewerEdge) : ArtifactViewerEdge :=
  {| vx_id := vx_id e; vx_source := vx_source e; vx_target := vx_target e; vx_targetHandle := vx_targetHandle e; vx_data := Some d |}.

Definition withViewerEdge (s : ArtifactViewerCanvasState) (edgeId : string) (update : jsopt GraphProjection) : ArtifactViewerCanvasState :=
  on_edges (map_id edgeId (λ e, set_edgeData
    {| vx_sourcePortName := default "" (vx_sourcePortName <$> vx_data e); vx_projection := edgeProjection update (vx_data e);
       vx_routeOffset := vx_data e ≫= vx_routeOffset |} e)) s.

Definition withViewerEdgeRoute (s : ArtifactViewerCanvasState) (edgeId : string) (routeOffset : GraphPoint) : ArtifactViewerCanvasState :=
  on_edges (map_id edgeId (λ e, set_edgeData
    {| vx_sourcePortName := default "" (vx_sourcePortName <$> vx_data e); vx_projection := vx_data e ≫= vx_projection;
       vx_routeOffset := Some routeOffset |} e)) s.

Definition withViewerBinding (s : ArtifactViewerCanvasState) (bindingId : string) (binding : ArtifactViewerBinding) : ArtifactViewerCanvasState :=
  on_bindings (map_id bindingId (λ _, binding)) s.

Definition withoutViewer (s : ArtifactViewerCanvasState) (nodeId : string) : ArtifactViewerCanvasState :=
  {| vs_nodes := filter (λ n, vn_id n ≠ nodeId) (vs_nodes s);
     vs_edges := filter (λ e, vx_source e ≠ nodeId ∧ vx_target e ≠ nodeId) (vs_edges s);
     vs_bindings := filter (λ b, vb_sourceViewerId b ≠ nodeId ∧ vb_targetViewerId b ≠ nodeId) (vs_bindings s);
     vs_annotations := vs_annotations s |}.

Definition withoutViewerEdgesFromNodes (s : ArtifactViewerCanvasState) (removedNodeIds : list string) : ArtifactViewerCanvasState :=
  on_edges (filter (λ e, vx_source e ∉ removedNodeIds)) s.

Definition edit_annotation (layout : option AnnotationLayout) (text color : option string) (n : AnnotationNode) : AnnotationNode :=
  {| ax_id := ax_id n; ax_position := ax_position n; ax_selected := ax_selected n; ax_kind := ax_kind n; ax_layout := default (ax_layout n) layout;
     ax_text := default (ax_text n) text; ax_color := default (ax_color n) color |}.

Definition withAnnotationLayout (s : ArtifactViewerCanvasState) (nodeId : string) (layout : AnnotationLayout) : ArtifactViewerCanvasState :=
  on_annotations (map_id nodeId (edit_annotation (Some layout) None None)) s.

Definition withAnnotationText (s : ArtifactViewerCanvasState) (nodeId text : string) : ArtifactViewerCanvasState :=
  on_annotations (map_id nodeId (edit_annotation None (Some text) None)) s.

Definition withAnnotationColor (s : ArtifactViewerCanvasState) (nodeId color : string) : ArtifactViewerCanvasState :=
  on_annotations (map_id nodeId (edit_annotation None None (Some color))) s.

Definition withoutAnnotation (s : ArtifactViewerCanvasState) (nodeId : string) : ArtifactViewerCanvasState :=
  on_annotations (filter (λ n, ax_id n ≠ nodeId)) s.

(** *** Selection *)

Definition select_annotation (selected : bool) (n : AnnotationNode) : AnnotationNode :=
  {| ax_id := ax_id n; ax_position := ax_position n; ax_selected := Some selected; ax_kind := ax_kind n; ax_layout := ax_layout n;
     ax_text := ax_text n; ax_color := ax_color n |}.

(** [deselect] on cards and on annotations. *)
Definition deselectNodes (held : list string) (l : list ArtifactViewerNode) : list ArtifactViewerNode :=
  (λ n, set_selected (bool_decide (vn_id n ∈ held)) n) <$> l.
Definition deselectAnnotations (held : list string) (l : list AnnotationNode) : list AnnotationNode :=
  (λ n, select_annotation (bool_decide (ax_id n ∈ held)) n) <$> l.

Definition selectOnly (viewerIds annotationIds : list string) (s : ArtifactViewerCanvasState) : ArtifactViewerCanvasState :=
  on_annotations (deselectAnnotations annotationIds) (on_nodes (deselectNodes viewerIds) s).

Definition withoutPresentationSelection : ArtifactViewerCanvasState → ArtifactViewerCanvasState := selectOnly [] [].

(** ** Bindings at work *)

(** Texts, numbers, booleans and null. *)
Notation ArtifactInteractionScalar := jsval.

(** [sourceIndex] is passed through. *)
Record ArtifactKeySelectionItem := { ki_values : list (string * ArtifactInteractionScalar); ki_sourceIndex : option jsnum }.

(** [row[targetField] = ...] *)
Fixpoint row_set (k : string) (v : ArtifactInteractionScalar) (row : list (string * ArtifactInteractionScalar)) : list (string * ArtifactInteractionScalar) :=
  match row with
  | [] => [(k, v)]
  | (k', v') :: row' => if bool_decide (k' = k) then (k, v) :: row' else (k', v') :: row_set k v row'
  end.

Fixpoint targetRow (mappings : list (string * string)) (values row : list (string * ArtifactInteractionScalar))
    : option (list (string * ArtifactInteractionScalar)) :=
  match mappings with
  | [] => Some row
  | (sourceField, targetField) :: rest =>
      if obj_has sourceField values
      then let v := obj_get sourceField values in targetRow rest values (row_set targetField (if is_nullish v then JNull else v) row)
      else None
  end.

Definition targetRowsForBinding (binding : ArtifactViewerBinding) (items : list ArtifactKeySelectionItem) : list (list (string * ArtifactInteractionScalar)) :=
  if is_nil (vb_mappings binding) || existsb (λ m, bool_decide (m.1 = "") || bool_decide (m.2 = "")) (vb_mappings binding) then []
  else omap (λ item, targetRow (vb_mappings binding) (ki_values item) []) items.

(** ** Soundness *)

(** What the canvas draws refers to what it draws: ids are distinct and not empty, a card
    has a place and at most one feed, a wire names a node's port and ends at a card, a
    binding joins two cards and does something. *)
Definition sound_size (w : jsnum) : Prop := num_isFinite w = true ∧ num_leb (num 0) w = true.

Record sound_node (n : ArtifactViewerNode) : Prop := {
  sn_id : vn_id n ≠ "";
  sn_position : finitePoint (vn_position n) = true;
  sn_width : ∀ w, vn_layout n ≫= wl_width = Some w → sound_size w;
  sn_measured : ∀ w, vn_measuredWidth n = Some w ∨ vn_measuredHeight n = Some w → sound_size w
}.

Record sound_edge (nodeIds : list string) (e : ArtifactViewerEdge) : Prop := {
  se_id : vx_id e ≠ "";
  se_source : vx_source e ≠ "";
  se_target : vx_target e ∈ nodeIds;
  se_handle : vx_targetHandle e = Some ARTIFACT_VIEWER_INPUT_HANDLE;
  se_data : ∃ d, vx_data e = Some d ∧ vx_sourcePortName d ≠ "" ∧ ∀ p, vx_projection d = Some p → path p ≠ []
}.

Record sound_binding (nodeIds : list string) (b : ArtifactViewerBinding) : Prop := {
  sb_id : vb_id b ≠ "";
  sb_source : vb_sourceViewerId b ∈ nodeIds;
  sb_target : vb_targetViewerId b ∈ nodeIds;
  sb_distinct : vb_sourceViewerId b ≠ vb_targetViewerId b;
  sb_effects : vb_effects b ≠ [];
  sb_once : NoDup (vb_effects b)
}.

Record sound_annotation (a : AnnotationNode) : Prop := {
  sa_id : ax_id a ≠ "";
  sa_position : finitePoint (ax_position a) = true;
  sa_width : al_width (ax_layout a) ≠ NNaN;
  sa_height : al_height (ax_layout a) ≠ NNaN
}.

Record soundViewers (s : ArtifactViewerCanvasState) : Prop := {
  sv_nodes : Forall sound_node (vs_nodes s);
  sv_nodeIds : NoDup (ids (vs_nodes s));
  sv_edges : Forall (sound_edge (ids (vs_nodes s))) (vs_edges s);
  sv_edgeIds : NoDup (ids (vs_edges s));
  sv_feeds : NoDup (vx_target <$> vs_edges s);
  sv_bindings : Forall (sound_binding (ids (vs_nodes s))) (vs_bindings s);
  sv_bindingIds : NoDup (ids (vs_bindings s));
  sv_annotations : Forall sound_annotation (vs_annotations s);
  sv_annotationIds : NoDup (ids (vs_annotations s))
}.

(** What a saved state is read back as. *)
Definition savedNode (n : ArtifactViewerNode) : ArtifactViewerNode :=
  {| vn_id := vn_id n; vn_position := vn_position n; vn_selected := None; vn_measuredWidth := None; vn_measuredHeight := None; vn_layout := clampNodeLayout (vn_layout n);
     vn_mode := vn_mode n; vn_artifactRef := vn_artifactRef n |}.

Definition savedViewerBinding (b : ArtifactViewerBinding) : ArtifactViewerBinding :=
  {| vb_id := vb_id b; vb_sourceViewerId := vb_sourceViewerId b; vb_targetViewerId := vb_targetViewerId b;
     vb_mappings := vb_mappings b ≫= trimMapping; vb_effects := vb_effects b |}.

Definition savedAnnotation (a : AnnotationNode) : AnnotationNode :=
  {| ax_id := ax_id a; ax_position := ax_position a; ax_selected := None; ax_kind := ax_kind a; ax_layout := clampAnnotationLayout (ax_layout a);
     ax_text := match ax_kind a with AnnText => String.substring 0 TEXT_MAX (ax_text a) | _ => "" end;
     ax_color := normalizeAnnotationColor (ax_color a) |}.

Definition savedViewers (s : ArtifactViewerCanvasState) : ArtifactViewerCanvasState :=
  {| vs_nodes := savedNode <$> vs_nodes s; vs_edges := vs_edges s; vs_bindings := savedViewerBinding <$> vs_bindings s;
     vs_annotations := savedAnnotation <$> vs_annotations s |}.

(** *** Reading what was written *)

(** A loop that keeps what it has not seen keeps a list of distinct ids whole. *)
Lemma read_all {A B} `{Identified B} (read : list string → A → option B) (reads : list string → list A → list B) (key : A → string)
    (write : B → A) (back : B → B) (ok : B → Prop) :
  (∀ seen, reads seen [] = []) →
  (∀ seen a l, reads seen (a :: l) = match read seen a with Some b => b :: reads (key a :: seen) l | None => reads seen l end) →
  (∀ b, key (write b) = ident b) →
  (∀ seen b, ok b → ident b ∉ seen → read seen (write b) = Some (back b)) →
  ∀ l seen, Forall ok l → NoDup (ids l) → (∀ i, i ∈ ids l → i ∉ seen) → reads seen (write <$> l) = back <$> l.
Proof.
  intros H0 H1 Hk Hr l. induction l as [|b l IH]; intros seen Hok Hnd Hs; [apply H0|].
  apply Forall_cons in Hok as [Hb Hl]. cbn in Hnd. apply NoDup_cons in Hnd as [Hbl Hnd]. cbn [fmap list_fmap].
  rewrite H1, Hr; [|done|apply Hs; set_solver]. f_equal. rewrite Hk. apply IH; [done..|].
  intros i Hi [->|Hi']%elem_of_cons; [done|]. apply (Hs i); [set_solver|done].
Qed.

Lemma math_finite_clamp v : v ≠ NNaN → num_isFinite (clampSize v) = true ∧ clampSize (clampSize v) = clampSize v.
Proof.
  intros Hv. unfold clampSize.
  assert (∀ w, w ≠ NNaN → num_leb LAYOUT_MIN (math_max LAYOUT_MIN w) = true ∧ math_max LAYOUT_MIN w ≠ NNaN) as Hmax.
  { intros w Hw. destruct (math_max_cases LAYOUT_MIN w) as [[-> H]|[-> H]]; done. }
  assert (∀ w, w ≠ NNaN → num_leb LAYOUT_MIN w = true → 
     let m := math_min LAYOUT_MAX w in num_isFinite m = true ∧ num_leb LAYOUT_MIN m = true ∧ num_leb m LAYOUT_MAX = true) as Hmin.
  { intros w Hw Hl m. unfold m. destruct (math_min_cases LAYOUT_MAX w) as [[-> H]|[-> H]]; try done. split; [|done]. by destruct w as [|[]|]. }
  destruct (Hmax v Hv) as [Hl Hn]. destruct (Hmin _ Hn Hl) as (Hf & Hl' & Hu). split; [done|].
  set (m := math_min LAYOUT_MAX (math_max LAYOUT_MIN v)) in *. clearbody m.
  assert (m ≠ NNaN) as Nm by (by intros ->).
  destruct (math_max_cases LAYOUT_MIN m) as [[-> H]|[-> H]]; [done..| |].
  - assert (m = LAYOUT_MIN) as -> by by apply num_leb_antisym. done.
  - destruct (math_min_cases LAYOUT_MAX m) as [[-> H']|[-> H']]; [done..| |done]. by apply num_leb_antisym.
Qed.

Lemma lower_hex c : hexChar c = true → hexChar (lower_char c) = true ∧ lower_char (lower_char c) = lower_char c.
Proof. destruct c as [[] [] [] [] [] [] [] []]; vm_compute; intros H; try discriminate H; done. Qed.

Lemma HEX_COLOR_lower v : HEX_COLOR v = true → HEX_COLOR (toLowerCase v) = true ∧ toLowerCase (toLowerCase v) = toLowerCase v.
Proof.
  destruct v as [|c r]; [done|]. cbn [HEX_COLOR]. intros [[Hc Hl]%andb_true_iff Hr]%andb_true_iff.
  apply bool_decide_eq_true_1 in Hc as ->. cbn [toLowerCase HEX_COLOR].
  change (lower_char "#"%char) with "#"%char. rewrite bool_decide_eq_true_2 by done. cbn [andb].
  assert (String.length (toLowerCase r) = String.length r ∧ forallb hexChar (String.list_ascii_of_string (toLowerCase r)) = true ∧
          toLowerCase (toLowerCase r) = toLowerCase r) as (-> & -> & ->).
  { clear Hl. induction r as [|c r IH]; [done|]. cbn [String.list_ascii_of_string forallb] in Hr. apply andb_true_iff in Hr as [Hc Hr].
    destruct (IH Hr) as (E1 & E2 & E3). destruct (lower_hex c Hc) as [F1 F2].
    cbn [toLowerCase String.length String.list_ascii_of_string forallb]. by rewrite E1, E2, E3, F1, F2. }
  by rewrite Hl.
Qed.

Lemma normalizeAnnotationColor_idem v : normalizeAnnotationColor (normalizeAnnotationColor v) = normalizeAnnotationColor v.
Proof.
  unfold normalizeAnnotationColor at 2 3. destruct (HEX_COLOR v) eqn:E; [|done]. unfold normalizeAnnotationColor.
  destruct (HEX_COLOR_lower v E) as [-> ->]. done.
Qed.

Lemma substring_idem n s : String.substring 0 n (String.substring 0 n s) = String.substring 0 n s.
Proof. revert s. induction n as [|n IH]; intros [|c s]; cbn; [done..|]. by rewrite IH. Qed.

Lemma trimMapping_idem m m' : m' ∈ trimMapping m → trimMapping m' = [m'] ∧ m'.1 ≠ "" ∧ m'.2 ≠ "".
Proof.
  unfold trimMapping at 1. destruct (bool_decide (trim m.1 = "")) eqn:E1, (bool_decide (trim m.2 = "")) eqn:E2; cbn; try (by intros ?%not_elem_of_nil).
  intros ->%list_elem_of_singleton. unfold trimMapping. cbn [fst snd]. rewrite !trim_idem, E1, E2. cbn.
  split; [done|]. split; [by eapply bool_decide_eq_false_1|by eapply bool_decide_eq_false_1].
Qed.

Lemma bind_fixed {A} (f : A → list A) l : (∀ a, a ∈ l → f a = [a]) → l ≫= f = l.
Proof. induction l as [|a l IH]; intros H; [done|]. cbn. rewrite H by set_solver. cbn. f_equal. apply IH. set_solver. Qed.

Lemma trimMappings_idem l : (l ≫= trimMapping) ≫= trimMapping = l ≫= trimMapping.
Proof. apply bind_fixed. intros m (m' & Hm & _)%list_elem_of_bind. by apply trimMapping_idem in Hm as [? _]. Qed.

Lemma filter_fixed {A} (P : A → Prop) `{∀ a, Decision (P a)} (l : list A) : (∀ a, a ∈ l → P a) → filter P l = l.
Proof. induction l as [|a l IH]; intros Hl; [done|]. rewrite filter_cons_True by (apply Hl; set_solver). f_equal. apply IH. set_solver. Qed.

Lemma firstEffects_fixed seen l : NoDup l → (∀ e, e ∈ l → e ∉ seen) → firstEffects seen l = l.
Proof.
  revert seen. induction l as [|e l IH]; intros seen Hnd Hs; [done|]. apply NoDup_cons in Hnd as [Hel Hnd]. cbn.
  rewrite bool_decide_eq_false_2 by (apply Hs; set_solver). f_equal. apply IH; [done|]. set_solver.
Qed.

Lemma read_written_node seen n : sound_node n → vn_id n ∉ seen → readViewer seen (viewerOfNode n) = Some (savedNode n).
Proof.
  intros [H1 H2 _ _] Hs. unfold readViewer, viewerOfNode. cbn [v_id v_position v_layout v_mode v_artifact_ref].
  rewrite !bool_decide_eq_false_2, H2 by done. cbn [orb]. by rewrite !or_null_back, hydrate_serialize.
Qed.

Lemma read_written_edge nodeIds seen connected e :
  sound_edge nodeIds e → vx_id e ∉ seen → vx_target e ∉ connected → readLink nodeIds seen connected (linkOfEdge e) = Some e.
Proof.
  intros [H1 H2 H3 H4 (d & Ed & H5 & H6)] Hs Hc. destruct e as [i src tgt h data]. cbn in *. subst. unfold readLink, linkOfEdge.
  cbn [l_id l_source_node_id l_source_port_name l_target_viewer_id l_projection l_route_offset vx_id vx_source vx_target vx_data fmap option_fmap option_map default mbind option_bind].
  rewrite (bool_decide_eq_true_2 (tgt ∈ nodeIds)), !bool_decide_eq_false_2 by done. cbn [orb negb]. do 3 f_equal. destruct d as [port proj off]. cbn in *. f_equal.
  - unfold readProjection. rewrite or_null_back. destruct proj as [p|]; [|done]. cbn. destruct (path p) eqn:E; [|done]. by destruct (H6 p).
  - by rewrite or_null_back.
Qed.

Lemma read_written_edges nodeIds l : Forall (sound_edge nodeIds) l → NoDup (ids l) → NoDup (vx_target <$> l) →
  ∀ seen connected, (∀ e, e ∈ l → vx_id e ∉ seen ∧ vx_target e ∉ connected) → readLinks nodeIds seen connected (linkOfEdge <$> l) = l.
Proof.
  induction l as [|e l IH]; intros Hs Hi Ht seen connected Hn; [done|]. apply Forall_cons in Hs as [He Hl].
  cbn in Hi, Ht. apply NoDup_cons in Hi as [Hi Hi'], Ht as [Ht Ht']. cbn [fmap list_fmap readLinks].
  destruct (Hn e) as [? ?]; [set_solver|]. rewrite read_written_edge by done. f_equal. apply IH; [done..|].
  intros e' He'. destruct (Hn e') as [? ?]; [set_solver|]. cbn [l_id linkOfEdge l_target_viewer_id].
  assert (vx_id e' ≠ vx_id e) by (intros E; apply Hi, list_elem_of_fmap; exists e'; split; [symmetry; exact E|done]).
  assert (vx_target e' ≠ vx_target e) by (intros E; apply Ht, list_elem_of_fmap; eauto). set_solver.
Qed.

Lemma read_written_binding nodeIds seen b : sound_binding nodeIds b → vb_id b ∉ seen → readBinding nodeIds seen (bindingOfBinding b) = Some (savedViewerBinding b).
Proof.
  intros [H1 H2 H3 H4 H5 H6] Hs. unfold readBinding, bindingOfBinding. cbn [pb_id pb_source_viewer_id pb_target_viewer_id pb_mappings pb_effects].
  rewrite (bool_decide_eq_true_2 (_ ∈ nodeIds)), (bool_decide_eq_true_2 (vb_targetViewerId b ∈ nodeIds)), !bool_decide_eq_false_2 by done.
  cbn [orb negb]. cbv zeta. rewrite firstEffects_fixed by set_solver.
  destruct (vb_effects b) eqn:E; [done|]. cbn [is_nil]. unfold savedViewerBinding. rewrite E. do 2 f_equal. apply filter_fixed.
  intros m (m' & Hm & _)%list_elem_of_bind. by apply trimMapping_idem in Hm as [_ ?].
Qed.

Lemma read_written_annotation seen a : sound_annotation a → ax_id a ∉ seen → readAnnotation seen (serializeAnnotation a) = Some (savedAnnotation a).
Proof.
  intros [H1 H2 H3 H4] Hs. unfold readAnnotation, serializeAnnotation. cbn [an_id an_position an_layout an_kind an_text an_color fst snd clampAnnotationLayout al_width al_height].
  rewrite !bool_decide_eq_false_2, H2 by done. cbn [orb andb].
  destruct (math_finite_clamp _ H3) as [-> E3], (math_finite_clamp _ H4) as [-> E4]. cbn [andb]. unfold savedAnnotation.
  f_equal. unfold clampAnnotationLayout. cbn [al_width al_height]. rewrite E3, E4, normalizeAnnotationColor_idem. by destruct (ax_kind a).
Qed.

Lemma ids_saved l : ids (savedNode <$> l) = ids l.
Proof. unfold ids. rewrite <- list_fmap_compose. done. Qed.

Lemma read_written s : soundViewers s → artifactViewersFromPresentation (Some (presentationFromArtifactViewers s)) = savedViewers s.
Proof.
  intros []. unfold artifactViewersFromPresentation, presentationFromArtifactViewers. cbn [from_option id viewers links bindings annotations]. cbv zeta.
  rewrite (read_all readViewer readViewers v_id viewerOfNode savedNode sound_node); [|done|done|done|apply read_written_node|done|done|set_solver].
  rewrite ids_saved, read_written_edges by set_solver.
  rewrite (read_all (readBinding (ids (vs_nodes s))) (readBindings (ids (vs_nodes s))) pb_id bindingOfBinding savedViewerBinding (sound_binding (ids (vs_nodes s))));
    [|done|done|done|apply read_written_binding|done|done|set_solver].
  unfold annotationsFromPresentation, serializeAnnotations.
  by rewrite (read_all readAnnotation readAnnotations an_id serializeAnnotation savedAnnotation sound_annotation);
    [|done|done|done|apply read_written_annotation|done|done|set_solver].
Qed.

Lemma written_saved s : soundViewers s → presentationFromArtifactViewers (savedViewers s) = presentationFromArtifactViewers s.
Proof.
  intros []. unfold presentationFromArtifactViewers, savedViewers, serializeAnnotations. cbn [vs_nodes vs_edges vs_bindings vs_annotations].
  f_equal; rewrite <- list_fmap_compose; apply list_fmap_ext; intros k x Hx; cbn.
  - unfold viewerOfNode, savedNode. cbn. do 2 f_equal. unfold serializeNodeLayout. by rewrite clampNodeLayout_idem.
  - unfold bindingOfBinding, savedViewerBinding. cbn. f_equal. apply trimMappings_idem.
  - assert (sound_annotation x) as [_ _ H3 H4] by by eapply Forall_lookup_1. unfold serializeAnnotation, savedAnnotation. cbn.
    destruct (math_finite_clamp _ H3) as [_ ->], (math_finite_clamp _ H4) as [_ ->]. rewrite normalizeAnnotationColor_idem. f_equal.
    destruct (ax_kind x); [apply substring_idem|done..].
Qed.

(** *** What is read is sound *)

Lemma read_sound {A B} `{Identified B} (read : list string → A → option B) (reads : list string → list A → list B) (key : A → string) (ok : B → Prop) :
  (∀ seen, reads seen [] = []) →
  (∀ seen a l, reads seen (a :: l) = match read seen a with Some b => b :: reads (key a :: seen) l | None => reads seen l end) →
  (∀ seen a b, read seen a = Some b → ident b = key a ∧ key a ∉ seen ∧ ok b) →
  ∀ l seen, Forall ok (reads seen l) ∧ NoDup (ids (reads seen l)) ∧ ∀ i, i ∈ ids (reads seen l) → i ∉ seen.
Proof.
  intros H0 H1 Hr l. induction l as [|a l IH]; intros seen; [rewrite H0; repeat split; [done|constructor|set_solver]|].
  rewrite H1. destruct (read seen a) as [b|] eqn:E; [|apply IH]. destruct (Hr _ _ _ E) as (Ei & Hs & Hb), (IH (key a :: seen)) as (I1 & I2 & I3).
  cbn. split; [by constructor|]. rewrite Ei. split; [|set_solver]. constructor; [|done]. intros Hin%I3. set_solver.
Qed.

Lemma readViewer_Some seen v n : readViewer seen v = Some n → ident n = v_id v ∧ v_id v ∉ seen ∧ sound_node n.
Proof.
  unfold readViewer. repeat case_bool_decide; try done. cbn [orb]. destruct (finitePoint _) eqn:E; [|done]. intros [= <-].
  split; [done|]. split; [done|]. split; [done..| |]; cbn; [|by intros w [?|?]]. intros w (l & Hl & Hw)%bind_Some.
  unfold hydrateNodeLayout in Hl. apply bind_Some in Hl as (l' & _ & Hl). eapply clampNodeLayout_width in Hl as (Hf & Hm & _); [|done].
  split; [done|]. by eapply num_leb_trans; [|exact Hm].
Qed.

Lemma readBinding_Some nodeIds seen b c : readBinding nodeIds seen b = Some c → ident c = pb_id b ∧ pb_id b ∉ seen ∧ sound_binding nodeIds c.
Proof.
  unfold readBinding. repeat case_bool_decide; try done. cbn [orb negb]. cbv zeta.
  assert (∀ l seen, NoDup (firstEffects seen l) ∧ ∀ e, e ∈ firstEffects seen l → e ∉ seen) as Hf.
  { intros l. induction l as [|e l IH]; intros seen'; [split; [constructor|set_solver]|]. cbn. case_bool_decide; [apply IH|].
    destruct (IH (e :: seen')) as [I1 I2]. split; [|set_solver]. constructor; [|done]. intros Hin%I2. set_solver. }
  destruct (firstEffects [] (pb_effects b)) as [|e l] eqn:E; [done|]. cbn [is_nil]. intros [= <-].
  split; [done|]. split; [done|]. split; cbn [vb_id vb_sourceViewerId vb_targetViewerId vb_effects]; try done. rewrite <- E. apply Hf.
Qed.

Lemma readAnnotation_Some seen a n : readAnnotation seen a = Some n → ident n = an_id a ∧ an_id a ∉ seen ∧ sound_annotation n.
Proof.
  unfold readAnnotation. repeat case_bool_decide; try done. cbn [orb].
  destruct (finitePoint (an_position a)) eqn:E1, (num_isFinite (an_layout a).1) eqn:E2, (num_isFinite (an_layout a).2) eqn:E3; try done.
  cbn [andb]. intros [= <-]. split; [done|]. split; [done|]. apply finite_not_NaN in E2, E3.
  split; cbn [ax_id ax_position ax_layout clampAnnotationLayout al_width al_height]; try done; apply finite_not_NaN, math_finite_clamp; done.
Qed.

Lemma readLinks_sound nodeIds l seen connected :
  let es := readLinks nodeIds seen connected l in
  Forall (sound_edge nodeIds) es ∧ NoDup (ids es) ∧ NoDup (vx_target <$> es) ∧ ∀ e, e ∈ es → vx_id e ∉ seen ∧ vx_target e ∉ connected.
Proof.
  revert seen connected. induction l as [|link l IH]; intros seen connected; [cbn; repeat split; try constructor; set_solver|].
  cbn [readLinks]. destruct (readLink _ _ _ link) as [e|] eqn:E; [|apply IH].
  destruct (IH (l_id link :: seen) (l_target_viewer_id link :: connected)) as (I1 & I2 & I3 & I4).
  unfold readLink in E. destruct (_ || _) eqn:Eb in E; [done|]. injection E as <-.
  rewrite !orb_false_iff, negb_false_iff, !bool_decide_eq_false, bool_decide_eq_true in Eb. destruct Eb as (((((? & ?) & ?) & ?) & ?) & ?).
  set (es := readLinks _ _ _ _) in *. clearbody es. cbn. split_and!.
  - constructor; [|done]. split; cbn; try done. eexists. split; [done|]. split; [done|]. cbn. intros p. unfold readProjection.
    intros (q & Eq & Hq)%bind_Some. destruct (path q) eqn:Ep; [done|]. injection Hq as <-. by rewrite Ep.
  - constructor; [|done]. intros (e & Ee & He)%list_elem_of_fmap. apply I4 in He as [He _]. unfold ident, ArtifactViewerEdge_id in Ee. cbn in Ee. set_solver.
  - constructor; [|done]. intros (e & Ee & He)%list_elem_of_fmap. apply I4 in He as [_ He]. set_solver.
  - intros e [->|He]%elem_of_cons; [done|]. apply I4 in He. set_solver.
Qed.

Lemma read_is_sound presentation : soundViewers (artifactViewersFromPresentation presentation).
Proof.
  unfold artifactViewersFromPresentation. set (p := default emptyPresentation presentation). clearbody p. cbv zeta.
  destruct (read_sound readViewer readViewers v_id sound_node ltac:(done) ltac:(done) readViewer_Some (viewers p) []) as (N1 & N2 & _).
  set (ns := readViewers [] (viewers p)) in *. clearbody ns.
  destruct (readLinks_sound (ids ns) (links p) [] []) as (E1 & E2 & E3 & _).
  destruct (read_sound (readBinding (ids ns)) (readBindings (ids ns)) pb_id (sound_binding (ids ns)) ltac:(done) ltac:(done) (readBinding_Some (ids ns)) (bindings p) []) as (B1 & B2 & _).
  destruct (read_sound readAnnotation readAnnotations an_id sound_annotation ltac:(done) ltac:(done) readAnnotation_Some (annotations p) []) as (A1 & A2 & _).
  by split.
Qed.

(** ** Theorems *)

