(* ===== verification/Grouping.v ===== *)
(** * Grouping of cards ([model/artifact-grouping.ts]), and edits of cards

    Cards are collected into a stack, a stack is taken apart again, and selected cards are
    laid out in a grid.  Ids drawn at random are arguments. *)

From stdpp Require Import numbers list.
From Stdlib Require Import QArith.Qfield QArith.Qround.
From S2P Require Import Prelude Js JsNum JsText JsJson GraphModel GraphCommands GraphTheory Handles Routes RoutesTheory NodeLayout ConfigSchema Canvas ArtifactCards Viewers.

(** ** The grid *)

Definition DEFAULT_ARTIFACT_CARD_WIDTH : jsnum := num 250.
Definition DEFAULT_ARTIFACT_TABLE_CARD_WIDTH : jsnum := num 600.
Definition DEFAULT_ARTIFACT_TABLE_BODY_HEIGHT : jsnum := num 360.

(** [3 / 4] *)
Definition ARTIFACT_CARD_MEDIA_ASPECT : jsnum := NFin (Q2Qc (3 # 4)).

Definition artifactCardMediaHeight (width : jsnum) : jsnum := math_round (num_mul width ARTIFACT_CARD_MEDIA_ASPECT).

Definition isTableArtifact (ref : jsval) : bool :=
  bool_decide (js_get "artifact_type" ref = JStr "table.data") && bool_decide (js_get "schema_version" ref = JNum (num 1)).

(** The [index]-th place of a grid read row by row. *)
Definition gridPlace (left top : jsnum) (columns : Z) (pitchX pitchY : jsnum) (index : nat) : GraphPoint :=
  {| pt_x := num_add left (num_mul (num (Z.of_nat index mod columns)) pitchX);
     pt_y := num_add top (num_mul (num (Z.of_nat index / columns)) pitchY) |}.

(** ** Grouping *)

(** [values?.[card.id]] *)
Definition valueOf (values : list (string * jsval)) (card : ArtifactViewerNode) : jsval := obj_get (vn_id card) values.

(** [values?.[card.id] ?? card.data.artifactRef] *)
Definition cardValue (values : list (string * jsval)) (card : ArtifactViewerNode) : jsval :=
  if is_nullish (valueOf values card) then vn_artifactRef card else valueOf values card.

Definition isSelected (card : ArtifactViewerNode) : bool := bool_decide (vn_selected card = Some true).

Definition isProducerFeed (e : ArtifactViewerEdge) (cardIds : list string) : bool :=
  bool_decide (vx_targetHandle e = Some ARTIFACT_VIEWER_INPUT_HANDLE) && bool_decide (vx_target e ∈ cardIds).

Definition isLinked (cardIds : list string) (allowProducerFeeds : bool) (e : ArtifactViewerEdge) : bool :=
  if negb (bool_decide (vx_source e ∈ cardIds)) && negb (bool_decide (vx_target e ∈ cardIds)) then false
  else if allowProducerFeeds && isProducerFeed e cardIds then false
  else true.

Definition GROUPING_BLOCKED : string := "Disconnect these artifacts before grouping or ungrouping.".

Definition artifactGroupingDisabledReason (cards : list ArtifactViewerNode) (state : ArtifactViewerCanvasState) (origins : list GraphOrigin)
    (values : list (string * jsval)) (allowProducerFeeds : bool) : option string :=
  let cardIds := ids cards in
  let artifactIds := concat (map (λ card, map artifactId (cardArtifactRefs (cardValue values card))) cards) in
  if existsb (isLinked cardIds allowProducerFeeds) (vs_edges state) ||
     existsb (λ b, bool_decide (vb_sourceViewerId b ∈ cardIds) || bool_decide (vb_targetViewerId b ∈ cardIds)) (vs_bindings state) ||
     existsb (λ o, existsb (λ ref, bool_decide (artifactId ref ∈ artifactIds)) (cardArtifactRefs (o_value o))) origins
  then Some GROUPING_BLOCKED else None.

Definition newCard (id : string) (position : GraphPoint) (layout : option WorkflowNodeLayout) (value : jsval) : ArtifactViewerNode :=
  {| vn_id := "artifact-viewer-" +:+ id; vn_position := position; vn_selected := Some true; vn_measuredWidth := None; vn_measuredHeight := None;
     vn_layout := layout; vn_mode := None; vn_artifactRef := value |}.

Definition widthLayout (width : jsnum) : option WorkflowNodeLayout := Some {| wl_width := Some width; wl_bodyHeight := None; wl_appendixHeight := None |}.

(** The selected cards that have a value, with their places. *)
Definition placedCards (values : list (string * jsval)) (selected : list ArtifactViewerNode) : list PlacedValue :=
  omap (λ n, let value := cardValue values n in if is_nullish value then None else Some {| pl_position := vn_position n; pl_value := value |}) selected.

Definition collectArtifactCards (state : ArtifactViewerCanvasState) (origins : list GraphOrigin) (values : list (string * jsval))
    (sequenceUuid stackUuid : string) : ArtifactViewerCanvasState :=
  let selected := filter isSelected (vs_nodes state) in
  let cards := placedCards values selected in
  match artifactGroupingDisabledReason selected state origins values true with
  | Some _ => state
  | None =>
      if negb (length cards =? length selected) || (length cards <? 1) then state
      else
        match (refs ← collectArtifactCardRefs cards; artifactCardValue refs JNull true sequenceUuid) with
        | None => state
        | Some value =>
            let position := {| pt_x := math_mins (map (λ n, pt_x (vn_position n)) selected); pt_y := math_mins (map (λ n, pt_y (vn_position n)) selected) |} in
            {| vs_nodes := filter (λ n, isSelected n = false) (vs_nodes state) ++ [newCard stackUuid position (widthLayout DEFAULT_ARTIFACT_CARD_WIDTH) value];
               vs_edges := filter (λ e, ¬ vx_source e ∈ ids selected ∧ ¬ vx_target e ∈ ids selected) (vs_edges state);
               vs_bindings := vs_bindings state; vs_annotations := vs_annotations state |}
        end
  end.

Definition layoutWidth (fallback : jsnum) (n : ArtifactViewerNode) : jsnum := default fallback (vn_layout n ≫= wl_width).

Definition stackWidth (value : jsval) (stack : ArtifactViewerNode) : jsnum :=
  if isTableArtifact value
  then math_max (layoutWidth DEFAULT_ARTIFACT_TABLE_CARD_WIDTH stack) DEFAULT_ARTIFACT_TABLE_CARD_WIDTH
  else layoutWidth DEFAULT_ARTIFACT_CARD_WIDTH stack.

Definition stackBodyHeight (value : jsval) (width : jsnum) : jsnum :=
  if isTableArtifact value then DEFAULT_ARTIFACT_TABLE_BODY_HEIGHT else artifactCardMediaHeight width.

Definition ungroupArtifactCard (state : ArtifactViewerCanvasState) (origins : list GraphOrigin) (nodeId : string) (uuid : nat → string)
    : ArtifactViewerCanvasState :=
  match find_id nodeId (vs_nodes state) with
  | None => state
  | Some stack =>
      let value := vn_artifactRef stack in
      if is_nullish value || negb (isSequence value) || bool_decide (is_Some (artifactGroupingDisabledReason [stack] state origins [] false)) then state
      else if is_nil (itemRefs value) then state
      else
        let width := stackWidth value stack in
        let columns := ceil_sqrt (length (itemRefs value)) in
        let place := gridPlace (pt_x (vn_position stack)) (pt_y (vn_position stack)) columns (num_add (math_max width (num 300)) (num 64))
                       (num_add (stackBodyHeight value width) (num 88)) in
        on_nodes (λ nodes, (set_selected false <$> filter (λ n, vn_id n ≠ nodeId) nodes) ++
                           imap (λ index ref, newCard (uuid index) (place index) (widthLayout width) ref) (itemRefs value)) state
  end.

(** [node.measured?.width ?? node.data.layout?.width ?? DEFAULT_ARTIFACT_CARD_WIDTH] *)
Definition tidyWidth (n : ArtifactViewerNode) : jsnum := default (layoutWidth DEFAULT_ARTIFACT_CARD_WIDTH n) (vn_measuredWidth n).
Definition tidyHeight (n : ArtifactViewerNode) : jsnum :=
  default (num_add (artifactCardMediaHeight (layoutWidth DEFAULT_ARTIFACT_CARD_WIDTH n)) (num 24)) (vn_measuredHeight n).

Definition nodeOrder (a b : ArtifactViewerNode) : Z :=
  num_or (numSign (pt_y (vn_position a)) (pt_y (vn_position b))) (numSign (pt_x (vn_position a)) (pt_x (vn_position b))).

(** The place the selected cards get, in reading order. *)
Definition tidyPlace (selected : list ArtifactViewerNode) : nat → GraphPoint :=
  gridPlace (math_mins (map (λ n, pt_x (vn_position n)) selected)) (math_mins (map (λ n, pt_y (vn_position n)) selected))
    (ceil_sqrt (length selected)) (num_add (math_maxs (map tidyWidth selected)) (num 64)) (num_add (math_maxs (map tidyHeight selected)) (num 64)).

(** [positions.get(id)]: of entries with the same id, the last. *)
Fixpoint placeOf (place : nat → GraphPoint) (index : nat) (l : list ArtifactViewerNode) (id : string) : option GraphPoint :=
  match l with
  | [] => None
  | n :: rest =>
      match placeOf place (S index) rest id with
      | Some p => Some p
      | None => if bool_decide (vn_id n = id) then Some (place index) else None
      end
  end.

Definition tidyArtifactCards (state : ArtifactViewerCanvasState) : ArtifactViewerCanvasState :=
  let selected := filter isSelected (vs_nodes state) in
  if length selected <? 2 then state
  else
    let sorted := js_sort nodeOrder selected in
    on_nodes (fmap (λ n, match placeOf (tidyPlace sorted) 0 sorted (vn_id n) with Some p => set_position p n | None => n end)) state.

(** ** The grid in order *)

Section grid.
#[local] Open Scope Q_scope.

Lemma this_add (a b : Qc) : this (a + b)%Qc == this a + this b.
Proof. apply Qred_correct. Qed.
Lemma this_mul (a b : Qc) : this (a * b)%Qc == this a * this b.
Proof. apply Qred_correct. Qed.
Lemma this_num (z : Z) : this (Q2Qc (inject_Z z)) == inject_Z z.
Proof. apply Qred_correct. Qed.

Lemma leb_finite (a b : Qc) : num_leb (NFin a) (NFin b) = true ↔ this a <= this b.
Proof. unfold num_leb, num_compare. rewrite Qle_alt. destruct (Qcompare _ _); naive_solver. Qed.

Lemma ltb_finite (a b : Qc) : num_ltb (NFin a) (NFin b) = true ↔ this a < this b.
Proof. unfold num_ltb, num_compare. rewrite Qlt_alt. destruct (Qcompare _ _); naive_solver. Qed.

Lemma grid_step_Q (a p : Qc) (i j : Z) : (i < j)%Z → 0 <= this p → this (a + Q2Qc (inject_Z i) * p)%Qc + this p <= this (a + Q2Qc (inject_Z j) * p)%Qc.
Proof.
  intros Hij Hp. rewrite !this_add, !this_mul, !this_num.
  assert (inject_Z i * this p + this p == (inject_Z i + 1) * this p) as E by ring.
  assert ((inject_Z i + 1) * this p <= inject_Z j * this p) as H.
  { apply Qmult_le_compat_r; [|done]. change (inject_Z i + inject_Z 1 <= inject_Z j). rewrite <- inject_Z_plus, <- Zle_Qle. lia. }
  rewrite <- Qplus_assoc, E. by apply Qplus_le_r.
Qed.
End grid.

(** A place further right in a row or further down is a whole pitch away. *)
Lemma grid_coordinate (a p : Qc) i j :
  (i < j)%Z → num_leb (num 0) (NFin p) = true →
  num_leb (num_add (num_add (NFin a) (num_mul (num i) (NFin p))) (NFin p)) (num_add (NFin a) (num_mul (num j) (NFin p))) = true.
Proof.
  intros Hij Hp%leb_finite. cbn [num num_mul num_add]. apply leb_finite. rewrite this_add. by apply grid_step_Q.
Qed.

Lemma num_add_finite a b : num_isFinite a = true → num_isFinite b = true → num_isFinite (num_add a b) = true.
Proof. by destruct a, b. Qed.
Lemma num_mul_finite a b : num_isFinite a = true → num_isFinite b = true → num_isFinite (num_mul a b) = true.
Proof. by destruct a, b. Qed.

(** Indices of a grid: a later one is in a later row, or later in the same row. *)
Lemma grid_index (c : Z) (i j : nat) :
  (0 < c)%Z → i < j →
  (Z.of_nat i / c < Z.of_nat j / c)%Z ∨ (Z.of_nat i / c = Z.of_nat j / c ∧ Z.of_nat i mod c < Z.of_nat j mod c)%Z.
Proof.
  intros Hc Hij. assert (Z.of_nat i / c <= Z.of_nat j / c)%Z as Hd by (apply Z.div_le_mono; lia).
  destruct (decide (Z.of_nat i / c = Z.of_nat j / c)%Z) as [E|E]; [right|left; lia]. split; [done|].
  pose proof (Z.div_mod (Z.of_nat i) c ltac:(lia)). pose proof (Z.div_mod (Z.of_nat j) c ltac:(lia)). nia.
Qed.

Lemma gridPlace_finite l t c px py i :
  num_isFinite l = true → num_isFinite t = true → num_isFinite px = true → num_isFinite py = true → finitePoint (gridPlace l t c px py i) = true.
Proof.
  intros. unfold finitePoint, gridPlace. cbn [pt_x pt_y]. rewrite !num_add_finite by (done || by apply num_mul_finite). done.
Qed.

(** Of two places, the later one begins a whole pitch to the right or below. *)
Lemma grid_apart l t c px py i j :
  num_isFinite l = true → num_isFinite t = true → num_isFinite px = true → num_isFinite py = true →
  num_leb (num 0) px = true → num_leb (num 0) py = true → (0 < c)%Z → i < j →
  let p := gridPlace l t c px py i in
  let q := gridPlace l t c px py j in
  num_leb (num_add (pt_y p) py) (pt_y q) = true ∨ (pt_y p = pt_y q ∧ num_leb (num_add (pt_x p) px) (pt_x q) = true).
Proof.
  intros Fl Ft Fx Fy Hx Hy Hc Hij p q. destruct l as [l| |], t as [t| |], px as [px| |], py as [py| |]; try done.
  unfold p, q, gridPlace. cbn [pt_x pt_y]. destruct (grid_index c i j Hc Hij) as [H|[E H]].
  - left. by apply grid_coordinate.
  - right. rewrite E. split; [done|]. by apply grid_coordinate.
Qed.

(** ** Sorting what is in order *)

Lemma js_sort_id {A} (cmp : A → A → Z) (l : list A) :
  (∀ i j a b, i < j → l !! i = Some a → l !! j = Some b → (cmp a b ≤ 0)%Z) → js_sort cmp l = l.
Proof.
  induction l as [|x l IH]; intros H; [done|]. cbn [js_sort foldr]. fold (js_sort cmp l). rewrite IH.
  - destruct l as [|y l]; [done|]. cbn. assert (cmp x y ≤ 0)%Z by (apply (H 0 1 x y); [lia|done..]). by rewrite (proj2 (Z.leb_le _ _)).
  - intros i j a b Hij Ha Hb. apply (H (S i) (S j)); [lia|done..].
Qed.

Lemma gap_less (a p b : jsnum) : num_isFinite a = true → num_isFinite b = true → num_ltb (num 0) p = true → num_isFinite p = true → num_leb (num_add a p) b = true → numSign a b = (-1)%Z.
Proof.
  destruct a as [a| |], b as [b| |], p as [p| |]; try done. intros _ _ Hp%ltb_finite _. cbn [num_add]. rewrite leb_finite, this_add. intros H.
  unfold numSign. change (num_compare (NFin a) (NFin b)) with (Some (Qcompare (this a) (this b))).
  enough (this a < this b)%Q as E by (by rewrite (proj1 (Qlt_alt (this a) (this b)) E)).
  eapply Qlt_le_trans; [|exact H]. rewrite <- (Qplus_0_r (this a)) at 1. apply Qplus_lt_r. by rewrite this_num in Hp.
Qed.

(** ** Collecting *)

Lemma firstOfEach_complete seen refs r : r ∈ refs → artifactId r ∈ seen ∨ artifactId r ∈ map artifactId (firstOfEach seen refs).
Proof.
  revert seen. induction refs as [|x refs IH]; intros seen Hr; [by apply not_elem_of_nil in Hr|]. cbn [firstOfEach].
  apply elem_of_cons in Hr as [->|Hr]; case_bool_decide as Hx; cbn [map]; [by left|right; by left|by apply IH|].
  destruct (IH (artifactId x :: seen) Hr) as [[->|?]%elem_of_cons|?]; [right; by left|by left|right; by right].
Qed.

Lemma length_omap_le {A B} (f : A → option B) l : length (omap f l) ≤ length l.
Proof. induction l as [|a l IH]; [done|]. cbn. destruct (f a); cbn; lia. Qed.

Lemma placed_all values l :
  length (placedCards values l) = length l → placedCards values l = map (λ n, {| pl_position := vn_position n; pl_value := cardValue values n |}) l.
Proof.
  unfold placedCards. set (f := λ n, _). induction l as [|n l IH]; [done|]. cbn [omap list_omap map length].
  pose proof (length_omap_le f l) as Hle. destruct (f n) as [v|] eqn:E; unfold f in E; cbv zeta in E; destruct (is_nullish _) in E; try done; cbn [length].
  - injection E as <-. intros [= H]. f_equal. by apply IH.
  - intros H. lia.
Qed.

Lemma sequence_value refs uuid v :
  artifactCardValue refs JNull true uuid = Some v → cardArtifactRefs v = refs ∧ isSequence v = true.
Proof. destruct refs as [|first rest]; [done|]. unfold artifactCardValue. destruct (existsb _ _); [done|]. rewrite andb_false_r. by intros [= <-]. Qed.

(** Collecting does nothing, or puts one stack in the place of the selected cards. *)
Lemma collect_cases s origins values sequenceUuid stackUuid :
  let selected := filter isSelected (vs_nodes s) in
  let s' := collectArtifactCards s origins values sequenceUuid stackUuid in
  s' = s ∨
  ∃ refs value, artifactGroupingDisabledReason selected s origins values true = None ∧ selected ≠ [] ∧
    collectArtifactCardRefs (map (λ n, {| pl_position := vn_position n; pl_value := cardValue values n |}) selected) = Some refs ∧
    artifactCardValue refs JNull true sequenceUuid = Some value ∧
    s' = {| vs_nodes := filter (λ n, isSelected n = false) (vs_nodes s) ++
                          [newCard stackUuid {| pt_x := math_mins (map (λ n, pt_x (vn_position n)) selected); pt_y := math_mins (map (λ n, pt_y (vn_position n)) selected) |}
                             (widthLayout DEFAULT_ARTIFACT_CARD_WIDTH) value];
            vs_edges := filter (λ e, ¬ vx_source e ∈ ids selected ∧ ¬ vx_target e ∈ ids selected) (vs_edges s);
            vs_bindings := vs_bindings s; vs_annotations := vs_annotations s |}.
Proof.
  intros selected s'. unfold s', collectArtifactCards. fold selected. destruct (artifactGroupingDisabledReason _ _ _ _ _) eqn:Er; [by left|].
  destruct (negb _ || _) eqn:El; [by left|]. apply orb_false_iff in El as [El1%negb_false_iff%Nat.eqb_eq El2%Nat.ltb_ge].
  rewrite (placed_all _ _ El1). destruct (collectArtifactCardRefs _) as [refs|] eqn:Ec; [|by left]. cbn [mbind option_bind].
  destruct (artifactCardValue _ _ _ _) as [value|] eqn:Ev; [|by left]. right. exists refs, value. split_and!; try done.
  intros E. rewrite El1, E in El2. cbn in El2. lia.
Qed.

(** Collecting cards loses no artifact and repeats none: it does nothing, or replaces
    the selected cards by one stack that holds, each once, exactly the artifacts these cards
    showed, all of one type.  Only wires that fed a selected card are gone; every other
    card, binding and annotation is kept. *)
Theorem collecting_keeps_every_artifact s origins values sequenceUuid stackUuid :
  let selected := filter isSelected (vs_nodes s) in
  let s' := collectArtifactCards s origins values sequenceUuid stackUuid in
  s' = s ∨
  ∃ stack, vs_nodes s' = filter (λ n, isSelected n = false) (vs_nodes s) ++ [stack] ∧
    isSequence (vn_artifactRef stack) = true ∧ NoDup (cardArtifactIds (vn_artifactRef stack)) ∧
    (∀ i, i ∈ cardArtifactIds (vn_artifactRef stack) ↔ ∃ n, n ∈ selected ∧ i ∈ cardArtifactIds (cardValue values n)) ∧
    (∀ r r', r ∈ cardArtifactRefs (vn_artifactRef stack) → r' ∈ cardArtifactRefs (vn_artifactRef stack) → shareOneArtifactType r r' = true) ∧
    (∀ e, e ∈ vs_edges s → e ∈ vs_edges s' ∨ isProducerFeed e (ids selected) = true) ∧
    vs_bindings s' = vs_bindings s ∧ vs_annotations s' = vs_annotations s.
Proof.
  intros selected s'. destruct (collect_cases s origins values sequenceUuid stackUuid) as [E|(refs & value & Hr & Hne & Hc & Hv & E)]; [by left|].
  fold s' in E. fold selected in Hr, Hc, E. right. destruct (sequence_value _ _ _ Hv) as [Hrefs Hseq].
  destruct (collected_refs _ _ Hc) as (_ & Hnd & Hone & Hin). rewrite E. eexists. split; [done|]. cbn [vs_edges vs_bindings vs_annotations newCard vn_artifactRef].
  unfold cardArtifactIds. rewrite Hrefs. split_and!; try done.
  - intros i. split.
    + intros (r & -> & Hr')%list_elem_of_fmap. destruct (Hin r Hr') as (card & (n & -> & Hn)%list_elem_of_fmap & Hrc). exists n. split; [done|].
      by apply list_elem_of_fmap_2.
    + intros (n & Hn & (r & -> & Hr')%list_elem_of_fmap). unfold collectArtifactCardRefs in Hc.
      set (all := concat _) in Hc. assert (r ∈ all) as Hall.
      { apply list_elem_of_In, in_concat. exists (cardArtifactRefs (cardValue values n)). split; [|by apply list_elem_of_In].
        apply in_map_iff. exists {| pl_position := vn_position n; pl_value := cardValue values n |}. split; [done|].
        apply list_elem_of_In, elem_of_js_sort, list_elem_of_fmap. eauto. }
      destruct (firstOfEach_complete [] all r Hall) as [?%not_elem_of_nil|Hr2]; [done|].
      destruct (firstOfEach [] all) as [|x l]; [by apply not_elem_of_nil in Hr2|]. destruct (forallb _ _) in Hc; [|done]. by injection Hc as <-.
  - intros e He. destruct (isProducerFeed e (ids selected)) eqn:Ep; [by right|]. left. apply list_elem_of_filter. split; [|done].
    unfold artifactGroupingDisabledReason in Hr. destruct (existsb _ (vs_edges s)) eqn:El; [done|].
    apply not_true_iff_false in El. assert (isLinked (ids selected) true e = false) as Hl.
    { apply not_true_iff_false. intros Hl. apply El, existsb_exists. exists e. split; [by apply list_elem_of_In|done]. }
    unfold isLinked in Hl. rewrite Ep in Hl. cbn [andb] in Hl. destruct (bool_decide (vx_source e ∈ ids selected)) eqn:E1, (bool_decide (vx_target e ∈ ids selected)) eqn:E2; try done.
    split; by eapply bool_decide_eq_false_1.
Qed.

(** ** Taking a stack apart *)

Lemma numSign_refl a : numSign a a = 0%Z.
Proof. unfold numSign. destruct (decide (a = NNaN)) as [->|Ha]; [done|]. by rewrite num_compare_refl. Qed.

(** Cards on the places of a grid are in reading order. *)
Lemma grid_in_order l t c px py i j :
  num_isFinite l = true → num_isFinite t = true → num_isFinite px = true → num_isFinite py = true →
  num_ltb (num 0) px = true → num_ltb (num 0) py = true → (0 < c)%Z → i < j →
  let p := gridPlace l t c px py i in
  let q := gridPlace l t c px py j in
  (num_or (numSign (pt_y p) (pt_y q)) (numSign (pt_x p) (pt_x q)) = -1)%Z.
Proof.
  intros Fl Ft Fx Fy Hx Hy Hc Hij p q.
  assert (∀ v, num_ltb (num 0) v = true → num_leb (num 0) v = true) as Hle by (intros v; unfold num_ltb, num_leb; by destruct (num_compare _ _) as [[]|]).
  pose proof (gridPlace_finite l t c px py i Fl Ft Fx Fy) as [Pi Pi']%andb_true_iff.
  pose proof (gridPlace_finite l t c px py j Fl Ft Fx Fy) as [Pj Pj']%andb_true_iff.
  destruct (grid_apart l t c px py i j Fl Ft Fx Fy (Hle _ Hx) (Hle _ Hy) Hc Hij) as [H|[E H]].
  - unfold num_or. rewrite (gap_less (pt_y p) py (pt_y q)); done.
  - unfold num_or. fold p q in E. rewrite E, numSign_refl. cbn. by apply (gap_less _ px).
Qed.

Lemma media_height_sound w : sound_size w → sound_size (artifactCardMediaHeight w).
Proof.
  destruct w as [w| |]; intros [Hf Hw]; try done. split; [done|]. unfold artifactCardMediaHeight. cbn [ARTIFACT_CARD_MEDIA_ASPECT num_mul math_round].
  apply leb_finite in Hw. rewrite this_num in Hw. apply leb_finite. rewrite !this_num, <- Zle_Qle.
  change 0%Z with (Qfloor 0). apply Qfloor_resp_le. rewrite this_mul.
  assert (this (Q2Qc (3 # 4)) == 3 # 4)%Q as -> by apply Qred_correct.
  change (inject_Z 0) with 0%Q in Hw. assert (0 <= this w * (3 # 4))%Q by (by apply Qmult_le_0_compat).
  apply Qle_trans with (this w * (3 # 4))%Q; [done|]. rewrite <- (Qplus_0_r (this w * (3 # 4))) at 1. by apply Qplus_le_r.
Qed.

Lemma plus_pos w k : sound_size w → (0 < k)%Z → num_isFinite (num_add w (num k)) = true ∧ num_ltb (num 0) (num_add w (num k)) = true.
Proof.
  destruct w as [w| |]; intros [Hf Hw] Hk; try done. split; [done|]. apply leb_finite in Hw. cbn [num num_add]. apply ltb_finite. rewrite this_add, !this_num in *.
  apply Qlt_le_trans with (0 + inject_Z k)%Q; [|by apply Qplus_le_compat; [|apply Qle_refl]]. rewrite Qplus_0_l. by rewrite <- Zlt_Qlt.
Qed.

Lemma max_sound a b : sound_size a → sound_size b → sound_size (math_max a b).
Proof.
  intros [Fa Ha] [Fb Hb]. destruct (math_max_cases a b) as [[-> _]|[-> _]]; [by apply finite_not_NaN..|by split|by split].
Qed.

Lemma layoutWidth_sound fallback n : sound_size fallback → sound_node n → sound_size (layoutWidth fallback n).
Proof. intros Hf Hn. unfold layoutWidth. destruct (vn_layout n ≫= wl_width) eqn:E; [|done]. cbn. by eapply sn_width. Qed.

Lemma stackWidth_sound value n : sound_node n → sound_size (stackWidth value n).
Proof. intros Hn. unfold stackWidth. case_match; [apply max_sound; [|by split]|]; apply layoutWidth_sound; done. Qed.

Lemma stackBodyHeight_sound value w : sound_size w → sound_size (stackBodyHeight value w).
Proof. intros Hw. unfold stackBodyHeight. case_match; [by split|]. by apply media_height_sound. Qed.

(** The places of the cards that a stack is taken apart into. *)
Definition ungroupPlace (stack : ArtifactViewerNode) : nat → GraphPoint :=
  let value := vn_artifactRef stack in
  let width := stackWidth value stack in
  gridPlace (pt_x (vn_position stack)) (pt_y (vn_position stack)) (ceil_sqrt (length (itemRefs value))) (num_add (math_max width (num 300)) (num 64))
    (num_add (stackBodyHeight value width) (num 88)).

Definition ungroupedCards (stack : ArtifactViewerNode) (uuid : nat → string) : list ArtifactViewerNode :=
  imap (λ index ref, newCard (uuid index) (ungroupPlace stack index) (widthLayout (stackWidth (vn_artifactRef stack) stack)) ref) (itemRefs (vn_artifactRef stack)).

Lemma ungroup_cases s origins nodeId uuid :
  let s' := ungroupArtifactCard s origins nodeId uuid in
  s' = s ∨
  ∃ stack, find_id nodeId (vs_nodes s) = Some stack ∧ isSequence (vn_artifactRef stack) = true ∧ itemRefs (vn_artifactRef stack) ≠ [] ∧
    artifactGroupingDisabledReason [stack] s origins [] false = None ∧
    s' = on_nodes (λ nodes, (set_selected false <$> filter (λ n, vn_id n ≠ nodeId) nodes) ++ ungroupedCards stack uuid) s.
Proof.
  intros s'. unfold s', ungroupArtifactCard. destruct (find_id nodeId (vs_nodes s)) as [stack|] eqn:Es; [|by left]. cbv zeta.
  destruct (_ || _) eqn:Eb; [by left|]. rewrite !orb_false_iff, negb_false_iff in Eb. destruct Eb as [[_ Eb1] Eb2%bool_decide_eq_false].
  destruct (is_nil _) eqn:En; [by left|]. right. exists stack. split_and!; try done; [by intros E; rewrite E in En|].
  by apply not_eq_None_Some in Eb2 || (destruct (artifactGroupingDisabledReason _ _ _ _ _); [by destruct Eb2|done]).
Qed.

Lemma ungrouped_in_order stack uuid i j a b :
  sound_node stack → i < j → ungroupedCards stack uuid !! i = Some a → ungroupedCards stack uuid !! j = Some b → nodeOrder a b = (-1)%Z.
Proof.
  intros Hs Hij Ha Hb. unfold ungroupedCards in Ha, Hb. rewrite list_lookup_imap in Ha, Hb. apply fmap_Some in Ha as (r & Hr & ->), Hb as (r' & Hr' & ->).
  unfold nodeOrder. cbn [newCard vn_position]. pose proof (sn_position _ Hs) as [? ?]%andb_true_iff.
  pose proof (stackWidth_sound (vn_artifactRef stack) stack Hs) as Hw.
  destruct (plus_pos (math_max (stackWidth (vn_artifactRef stack) stack) (num 300)) 64) as [? ?]; [by apply max_sound; [|split]|lia|].
  destruct (plus_pos (stackBodyHeight (vn_artifactRef stack) (stackWidth (vn_artifactRef stack) stack)) 88) as [? ?]; [by apply stackBodyHeight_sound|lia|].
  apply grid_in_order; try done. apply ceil_sqrt_pos. intros E. apply nil_length_inv in E. by rewrite E in Hr.
Qed.

Lemma firstOfEach_all seen refs : NoDup (map artifactId refs) → (∀ r, r ∈ refs → artifactId r ∉ seen) → firstOfEach seen refs = refs.
Proof.
  revert seen. induction refs as [|r refs IH]; intros seen Hnd Hs; [done|]. cbn [map] in Hnd. apply NoDup_cons in Hnd as [Hr Hnd]. cbn [firstOfEach].
  rewrite bool_decide_eq_false_2 by (apply Hs; by left). f_equal. apply IH; [done|].
  intros r' Hr' [E|Hin]%elem_of_cons; [|by apply (Hs r'); [by right|]]. apply Hr. rewrite <- E. by apply list_elem_of_fmap_2.
Qed.

Lemma collect_in_order cards refs :
  (∀ i j a b, i < j → cards !! i = Some a → cards !! j = Some b → readingOrder a b = (-1)%Z) → pl_value <$> cards = refs →
  refs_of_one_type refs → NoDup (map artifactId refs) → refs ≠ [] → collectArtifactCardRefs cards = Some refs.
Proof.
  intros Ho Hv [Hr Hone] Hnd Hne. unfold collectArtifactCardRefs. rewrite js_sort_id by (intros; by erewrite Ho).
  assert (concat (map (λ card, cardArtifactRefs (pl_value card)) cards) = refs) as ->.
  { subst refs. clear -Hr. induction cards as [|c cards IH]; [done|]. cbn [fmap list_fmap map concat] in Hr |- *. apply Forall_cons in Hr as [[H1 H2] Hr].
    unfold cardArtifactRefs at 1. rewrite H1, H2. cbn. f_equal. by apply IH. }
  rewrite firstOfEach_all; [|done|by intros r _ ?%not_elem_of_nil]. destruct refs as [|r refs]; [done|].
  destruct (forallb _ _) eqn:Ef; [done|]. exfalso. apply not_true_iff_false in Ef. apply Ef, forallb_forall.
  intros x Hx%list_elem_of_In. apply Hone; [done|by left].
Qed.

(** A stack that is taken apart does nothing, or leaves one selected card per artifact
    in the order of the stack, in a grid that reads in that order: collecting these cards
    again gives the same artifacts in the same order.  Every other card is kept. *)
Theorem ungrouped_cards_read_back s origins nodeId uuid :
  soundViewers s →
  let s' := ungroupArtifactCard s origins nodeId uuid in
  s' = s ∨
  ∃ stack cards, find_id nodeId (vs_nodes s) = Some stack ∧
    vs_nodes s' = (set_selected false <$> filter (λ n, vn_id n ≠ nodeId) (vs_nodes s)) ++ cards ∧
    vn_artifactRef <$> cards = itemRefs (vn_artifactRef stack) ∧ Forall (λ n, isSelected n = true) cards ∧
    (refs_of_one_type (itemRefs (vn_artifactRef stack)) → NoDup (map artifactId (itemRefs (vn_artifactRef stack))) →
     collectArtifactCardRefs (map (λ n, {| pl_position := vn_position n; pl_value := vn_artifactRef n |}) cards) = Some (itemRefs (vn_artifactRef stack))).
Proof.
  intros Hs s'. destruct (ungroup_cases s origins nodeId uuid) as [E|(stack & Hf & Hseq & Hne & _ & E)]; [by left|]. right.
  assert (sound_node stack) as Hstack.
  { apply find_id_Some in Hf as [Hin _]. destruct Hs as [H _ _ _ _ _ _ _ _]. rewrite Forall_forall in H. by apply H. }
  exists stack, (ungroupedCards stack uuid). fold s' in E. rewrite E.
  assert (vn_artifactRef <$> ungroupedCards stack uuid = itemRefs (vn_artifactRef stack)) as Hrefs.
  { unfold ungroupedCards. rewrite fmap_imap. apply list_eq. intros i. rewrite list_lookup_imap. by destruct (_ !! i). }
  split_and!; try done.
  - unfold ungroupedCards. apply Forall_lookup. intros i n. rewrite list_lookup_imap. intros (r & _ & ->)%fmap_Some. done.
  - intros Hone Hnd. apply collect_in_order; try done.
    + intros i j a b Hij Ha Hb. change (map ?f ?l) with (f <$> l) in Ha, Hb. rewrite list_lookup_fmap in Ha, Hb. apply fmap_Some in Ha as (na & Ha & ->), Hb as (nb & Hb & ->).
      by apply (ungrouped_in_order stack uuid i j na nb).
    + change (map ?f ?l) with (f <$> l). rewrite <- list_fmap_compose. done.
Qed.

(** ** Tidying *)

Lemma placeOf_absent place k l i : i ∉ ids l → placeOf place k l i = None.
Proof.
  revert k. induction l as [|n l IH]; intros k Hi; [done|]. cbn in Hi |- *. rewrite IH by set_solver. rewrite bool_decide_eq_false_2; [done|].
  intros E. apply Hi. rewrite <- E. by left.
Qed.

Lemma placeOf_lookup place k l j n : NoDup (ids l) → l !! j = Some n → placeOf place k l (vn_id n) = Some (place (k + j)).
Proof.
  revert k j. induction l as [|m l IH]; intros k j Hnd Hj; [done|]. cbn in Hnd. apply NoDup_cons in Hnd as [Hm Hnd]. cbn [placeOf]. destruct j as [|j].
  - injection Hj as ->. rewrite placeOf_absent by done. rewrite bool_decide_eq_true_2 by done. by rewrite Nat.add_0_r.
  - rewrite (IH (S k) j Hnd Hj). f_equal. f_equal. lia.
Qed.

Lemma tidyWidth_sound n : sound_node n → sound_size (tidyWidth n).
Proof. intros Hn. unfold tidyWidth. destruct (vn_measuredWidth n) eqn:E; cbn; [by eapply sn_measured; [|left]|]. by apply layoutWidth_sound. Qed.

Lemma tidyHeight_sound n : sound_node n → sound_size (tidyHeight n).
Proof.
  intros Hn. unfold tidyHeight. destruct (vn_measuredHeight n) eqn:E; cbn; [by eapply sn_measured; [|right]|].
  destruct (plus_pos (artifactCardMediaHeight (layoutWidth DEFAULT_ARTIFACT_CARD_WIDTH n)) 24) as [H1 H2];
    [by apply media_height_sound, layoutWidth_sound|lia|]. split; [done|]. unfold num_ltb, num_leb in *. by destruct (num_compare _ _) as [[]|].
Qed.

Lemma maxs_sound l : l ≠ [] → Forall sound_size l → sound_size (math_maxs l).
Proof.
  intros Hl Hs. assert (Forall (λ n, num_isFinite n = true) l) as Hf by (eapply Forall_impl; [exact Hs|]; by intros x [? _]).
  split; [by apply math_maxs_finite|]. destruct l as [|x l]; [done|]. apply Forall_cons in Hs as [[_ Hx] _].
  eapply num_leb_trans; [exact Hx|]. apply math_maxs_le; [done|by left].
Qed.

Lemma add_mono a b c d : num_isFinite a = true → num_isFinite b = true → num_isFinite c = true → num_leb b c = true → num_leb (num_add a (num_add c (num 64))) d = true →
  num_isFinite d = true → num_leb (num_add (num_add a b) (num 64)) d = true.
Proof.
  destruct a as [a| |], b as [b| |], c as [c| |], d as [d| |]; try done. intros _ _ _ Hbc%leb_finite H _. cbn [num num_add] in *. apply leb_finite in H. apply leb_finite.
  eapply Qle_trans; [|exact H]. rewrite !this_add, this_num. rewrite <- Qplus_assoc. apply Qplus_le_r. by apply Qplus_le_compat; [|apply Qle_refl].
Qed.

(** The size of a card on the canvas: as it was measured; before that, as wide as it is stored,
    or 250, and three quarters of that width and 24 high. *)
Definition card_width (n : ArtifactViewerNode) : jsnum :=
  match vn_measuredWidth n, vn_layout n ≫= wl_width with Some w, _ => w | None, Some w => w | None, None => num 250 end.

Definition card_height (n : ArtifactViewerNode) : jsnum :=
  match vn_measuredHeight n with
  | Some h => h
  | None => num_add (math_round (num_mul (match vn_layout n ≫= wl_width with Some w => w | None => num 250 end) (NFin (Q2Qc (3 # 4))))) (num 24)
  end.

Lemma tidied_size n : tidyWidth n = card_width n ∧ tidyHeight n = card_height n.
Proof.
  unfold tidyWidth, tidyHeight, card_width, card_height, layoutWidth. split.
  - destruct (vn_measuredWidth n), (vn_layout n ≫= wl_width); done.
  - destruct (vn_measuredHeight n), (vn_layout n ≫= wl_width); done.
Qed.

(** One card ends 64 before the other begins, to its left or above it. *)
Definition clears (n m : ArtifactViewerNode) : Prop :=
  num_leb (num_add (num_add (pt_x (vn_position n)) (card_width n)) (num 64)) (pt_x (vn_position m)) = true ∨
  num_leb (num_add (num_add (pt_y (vn_position n)) (card_height n)) (num 64)) (pt_y (vn_position m)) = true.

(** The sizes and the corner of the grid of sound cards. *)
Lemma tidy_grid_sound l :
  Forall sound_node l → l ≠ [] →
  num_isFinite (math_mins (map (λ n, pt_x (vn_position n)) l)) = true ∧ num_isFinite (math_mins (map (λ n, pt_y (vn_position n)) l)) = true ∧
  Forall sound_size (map tidyWidth l) ∧ Forall sound_size (map tidyHeight l) ∧ sound_size (math_maxs (map tidyWidth l)) ∧ sound_size (math_maxs (map tidyHeight l)) ∧
  ∀ k, finitePoint (tidyPlace l k) = true.
Proof.
  intros Hl Hne. assert (∀ f : ArtifactViewerNode → jsnum, map f l ≠ []) as Hmap by (intros f; by destruct l).
  assert (Forall (λ v, num_isFinite v = true) (map (λ n, pt_x (vn_position n)) l) ∧ Forall (λ v, num_isFinite v = true) (map (λ n, pt_y (vn_position n)) l)) as [Fx Fy].
  { split; apply Forall_fmap; (eapply Forall_impl; [exact Hl|]); intros x Hx; pose proof (sn_position _ Hx) as [? ?]%andb_true_iff; done. }
  assert (Forall sound_size (map tidyWidth l) ∧ Forall sound_size (map tidyHeight l)) as [Sw Sh].
  { split; apply Forall_fmap; (eapply Forall_impl; [exact Hl|]); intros x Hx; [by apply tidyWidth_sound|by apply tidyHeight_sound]. }
  pose proof (maxs_sound _ (Hmap tidyWidth) Sw) as MW. pose proof (maxs_sound _ (Hmap tidyHeight) Sh) as MH.
  pose proof (math_mins_finite _ (Hmap _) Fx) as Lx. pose proof (math_mins_finite _ (Hmap _) Fy) as Ly.
  destruct (plus_pos _ 64 MW ltac:(lia)) as [W1 _], (plus_pos _ 64 MH ltac:(lia)) as [H1 _].
  split_and!; try done. intros k. by apply gridPlace_finite.
Qed.

Lemma tidy_clears l i j n m :
  Forall sound_node l → l !! i = Some n → l !! j = Some m → i < j → clears (set_position (tidyPlace l i) n) (set_position (tidyPlace l j) m).
Proof.
  intros Hl Hn Hm Hij. assert (l ≠ []) as Hne by (by intros ->).
  destruct (tidy_grid_sound l Hl Hne) as (Lx & Ly & Sw & Sh & MW & MH & Hfin).
  assert (n ∈ l) as Hin by by eapply list_elem_of_lookup_2.
  destruct (plus_pos _ 64 MW ltac:(lia)) as [W1 W2], (plus_pos _ 64 MH ltac:(lia)) as [H1 H2].
  assert (∀ v, num_ltb (num 0) v = true → num_leb (num 0) v = true) as Hle by (intros v; unfold num_ltb, num_leb; by destruct (num_compare _ _) as [[]|]).
  assert (0 < ceil_sqrt (length l))%Z as Hc by (apply ceil_sqrt_pos; by destruct l).
  pose proof (Hfin i) as [Xi Yi]%andb_true_iff. pose proof (Hfin j) as [Xj Yj]%andb_true_iff.
  assert (Forall (λ v, num_isFinite v = true) (map tidyWidth l) ∧ Forall (λ v, num_isFinite v = true) (map tidyHeight l)) as [FW FH].
  { split; (eapply Forall_impl; [eassumption|]); by intros x [? _]. }
  assert (sound_node n) as Sn by by eapply Forall_lookup_1.
  destruct (tidied_size n) as [Ew Eh]. unfold clears. change (card_width (set_position _ n)) with (card_width n). change (card_height (set_position _ n)) with (card_height n).
  rewrite <- Ew, <- Eh.
  destruct (grid_apart _ _ _ _ _ i j Lx Ly W1 H1 (Hle _ W2) (Hle _ H2) Hc Hij) as [G|[_ G]]; [right|left];
    (eapply add_mono; [| | | |exact G|]); try done.
  - exact (proj1 (tidyHeight_sound n Sn)).
  - apply MH.
  - apply math_maxs_le; [done|]. exact (list_elem_of_fmap_2 tidyHeight l n Hin).
  - exact (proj1 (tidyWidth_sound n Sn)).
  - apply MW.
  - apply math_maxs_le; [done|]. exact (list_elem_of_fmap_2 tidyWidth l n Hin).
Qed.

Lemma tidy_nodes s :
  soundViewers s → 2 ≤ length (filter isSelected (vs_nodes s)) →
  let sorted := js_sort nodeOrder (filter isSelected (vs_nodes s)) in
  ∀ k n, vs_nodes (tidyArtifactCards s) !! k = Some n →
    ∃ m, vs_nodes s !! k = Some m ∧ ((isSelected m = false ∧ n = m) ∨ ∃ i, sorted !! i = Some m ∧ n = set_position (tidyPlace sorted i) m).
Proof.
  intros Hs Hl sorted k n. unfold tidyArtifactCards. rewrite (proj2 (Nat.ltb_ge _ _)) by done. fold sorted. cbn [on_nodes vs_nodes].
  rewrite list_lookup_fmap. intros (m & Hm & ->)%fmap_Some. exists m. split; [done|].
  assert (NoDup (ids sorted)) as Hnd.
  { unfold ids, sorted. rewrite js_sort_perm. apply (NoDup_ids_filter (λ n, isSelected n)), sv_nodeIds, Hs. }
  destruct (isSelected m) eqn:E.
  - assert (m ∈ sorted) as [i Hi]%list_elem_of_lookup.
    { apply elem_of_js_sort, list_elem_of_filter. split; [by rewrite E|by eapply list_elem_of_lookup_2]. }
    right. exists i. split; [done|]. by rewrite (placeOf_lookup _ 0 _ i m Hnd Hi).
  - left. split; [done|]. rewrite placeOf_absent; [done|]. intros (x & Ex & Hx)%list_elem_of_fmap.
    apply elem_of_js_sort, list_elem_of_filter in Hx as [Hsel Hx]. assert (x = m) as ->; [|by rewrite E in Hsel].
    apply list_elem_of_lookup in Hx as [i Hi]. assert (i = k) as ->; [|congruence].
    eapply NoDup_lookup; [apply sv_nodeIds; exact Hs| |]; unfold ids; rewrite list_lookup_fmap, ?Hi, ?Hm; [done|]. cbn. by rewrite <- Ex.
Qed.

(** C36: tidying cards that are sound (at places, of sizes that are numbers and not negative, no two
    with one id, with wires and bindings between cards that are there) moves the selected cards
    only, and leaves no two of them overlapping: of two, one ends at least 64 before the other
    begins, in one direction.  The size of a card is the measured one; a card that was not
    measured yet counts as wide as it is stored, or 250, and as three quarters of that and 24
    high. *)
Theorem tidied_cards_do_not_overlap s :
  soundViewers s →
  let s' := tidyArtifactCards s in
  (∀ k n, vs_nodes s' !! k = Some n → ∃ m, vs_nodes s !! k = Some m ∧ (n = m ∨ (isSelected m = true ∧ n = set_position (vn_position n) m))) ∧
  (2 ≤ length (filter isSelected (vs_nodes s)) →
   ∀ k k' n m, k ≠ k' → vs_nodes s' !! k = Some n → vs_nodes s' !! k' = Some m → isSelected n = true → isSelected m = true → clears n m ∨ clears m n) ∧
  vs_edges s' = vs_edges s ∧ vs_bindings s' = vs_bindings s ∧ vs_annotations s' = vs_annotations s.
Proof.
  intros Hs s'. set (sorted := js_sort nodeOrder (filter isSelected (vs_nodes s))).
  assert (vs_edges s' = vs_edges s ∧ vs_bindings s' = vs_bindings s ∧ vs_annotations s' = vs_annotations s) as Hrest.
  { unfold s', tidyArtifactCards. by case_match. }
  split; [|split; [|done]].
  - intros k n Hn. destruct (decide (2 ≤ length (filter isSelected (vs_nodes s)))) as [Hl|Hl].
    + destruct (tidy_nodes s Hs Hl k n Hn) as (m & Hm & [[_ ->]|(i & Hi & ->)]); exists m; (split; [done|]); [by left|right].
      split; [|done]. apply (list_elem_of_lookup_2 _ i), elem_of_js_sort, list_elem_of_filter in Hi as [Hi _]. by destruct (isSelected m).
    + exists n. split; [|by left]. unfold s', tidyArtifactCards in Hn. by rewrite (proj2 (Nat.ltb_lt _ _)) in Hn by lia.
  - intros Hl k k' n m Hk Hn Hm Sn Sm.
    destruct (tidy_nodes s Hs Hl k n Hn) as (n0 & Hn0 & [[? ->]|(i & Hi & ->)]); [congruence|].
    destruct (tidy_nodes s Hs Hl k' m Hm) as (m0 & Hm0 & [[? ->]|(j & Hj & ->)]); [congruence|].
    assert (Forall sound_node sorted) as Hf.
    { apply Forall_forall. intros x [_ Hx]%elem_of_js_sort%list_elem_of_filter. pose proof (sv_nodes _ Hs) as H. rewrite Forall_forall in H. by apply H. }
    destruct (decide (i = j)) as [->|Hij].
    + exfalso. assert (n0 = m0) as -> by congruence. apply Hk. eapply NoDup_lookup; [apply (sv_nodeIds _ Hs)|unfold ids; by rewrite list_lookup_fmap, Hn0|unfold ids; by rewrite list_lookup_fmap, Hm0].
    + destruct (decide (i < j)); [left|right]; eapply tidy_clears; try done. lia.
Qed.
