(* ===== verification/GridLayout.v ===== *)
(** * The canvas grid ([canvas/grid-layout.ts])

    Cells, snapping of positions, lengths and layouts, and when they snap.  Numbers are not
    rounded, and there is one zero. *)

From stdpp Require Import numbers list.
From Stdlib Require Import QArith.Qabs QArith.Qround QArith.Qfield Lqa.
From S2P Require Import Prelude Js JsNum GraphModel Handles Routes Canvas NodeLayout ConfigSchema ArtifactCards Viewers Grouping.

Definition GRID_CELL_SIZE_MIN : Z := 24.
Definition GRID_CELL_SIZE_MAX : Z := 96.
Definition GRID_CELL_SIZE_DEFAULT : Z := 50.
Definition STANDARD_NODE_WIDTH_CELLS : Z := 6.
Definition PORT_RAIL_ROW_HEIGHT_CELLS : Z := 1.
Definition EDGE_SELECTOR_WIDTH_CELLS : Z := 3.
Definition EDGE_SELECTOR_HEIGHT_CELLS : Z := 1.
Definition EDGE_SELECTOR_PILL_HEIGHT : Z := 24.
Definition GRID_SHELL_GUTTER : Z := 6.
Definition GRID_CELL_SIZE_PRESETS : list Z := [48; 50; 54; 60; 72]%Z.

Inductive GridResizeAxis := ax_width | ax_bodyHeight | ax_appendixHeight.

#[export] Instance GridResizeAxis_eq_dec : EqDecision GridResizeAxis.
Proof. solve_decision. Defined.

Record CanvasGridSettings := {
  gs_enabled : bool;
  gs_showBackground : bool;
  gs_onlyRenderVisibleElements : bool;
  gs_snapPosition : bool;
  gs_snapSize : bool;
  gs_snapWhileDragging : bool;
  gs_snapWhileResizing : bool;
  gs_allowWorkflowCornerResize : bool;
  gs_cellSize : jsnum
}.

Definition DEFAULT_CANVAS_GRID_SETTINGS : CanvasGridSettings :=
  {| gs_enabled := true; gs_showBackground := true; gs_onlyRenderVisibleElements := false; gs_snapPosition := true; gs_snapSize := true;
     gs_snapWhileDragging := false; gs_snapWhileResizing := true; gs_allowWorkflowCornerResize := false; gs_cellSize := num GRID_CELL_SIZE_DEFAULT |}.

(** [Partial<CanvasGridSettings>] *)
Record PartialGridSettings := {
  ps_enabled : option bool;
  ps_showBackground : option bool;
  ps_onlyRenderVisibleElements : option bool;
  ps_snapPosition : option bool;
  ps_snapSize : option bool;
  ps_snapWhileDragging : option bool;
  ps_snapWhileResizing : option bool;
  ps_allowWorkflowCornerResize : option bool;
  ps_cellSize : option jsnum
}.

(** [a / b] *)
Definition num_div (a b : jsnum) : jsnum :=
  match a, b with
  | NNaN, _ | _, NNaN | NInf _, NInf _ => NNaN
  | NFin _, NInf _ => num 0
  | NInf s, NFin q => NInf (match Qcompare (this q) 0 with Lt => negb s | _ => s end)
  | NFin p, NFin q =>
      match Qcompare (this q) 0 with
      | Eq => match Qcompare (this p) 0 with Eq => NNaN | Lt => NInf true | Gt => NInf false end
      | _ => NFin (p / q)%Qc
      end
  end.

Definition math_ceil (a : jsnum) : jsnum := match a with NFin p => num (Qceiling (this p)) | _ => a end.

(** ** Cells *)

Definition clampCellSize (value : jsnum) : jsnum :=
  if negb (num_isFinite value) then num GRID_CELL_SIZE_DEFAULT
  else math_min (num GRID_CELL_SIZE_MAX) (math_max (num GRID_CELL_SIZE_MIN) (math_round value)).

Definition edgeSelectorBlockSize (cellSize : jsnum) : jsnum * jsnum :=
  let cell := clampCellSize cellSize in (num_mul cell (num EDGE_SELECTOR_WIDTH_CELLS), num_mul cell (num EDGE_SELECTOR_HEIGHT_CELLS)).

Definition normalizeCanvasGridSettings (partial : option PartialGridSettings) : CanvasGridSettings :=
  let base := DEFAULT_CANVAS_GRID_SETTINGS in
  match partial with
  | None => base
  | Some p =>
      {| gs_enabled := default (gs_enabled base) (ps_enabled p); gs_showBackground := default (gs_showBackground base) (ps_showBackground p);
         gs_onlyRenderVisibleElements := default (gs_onlyRenderVisibleElements base) (ps_onlyRenderVisibleElements p);
         gs_snapPosition := default (gs_snapPosition base) (ps_snapPosition p); gs_snapSize := default (gs_snapSize base) (ps_snapSize p);
         gs_snapWhileDragging := default (gs_snapWhileDragging base) (ps_snapWhileDragging p);
         gs_snapWhileResizing := default (gs_snapWhileResizing base) (ps_snapWhileResizing p);
         gs_allowWorkflowCornerResize := default (gs_allowWorkflowCornerResize base) (ps_allowWorkflowCornerResize p);
         gs_cellSize := clampCellSize (default (gs_cellSize base) (ps_cellSize p)) |}
  end.

(** ** Snapping *)

Definition snapToCell (value cellSize : jsnum) : jsnum :=
  let cell := clampCellSize cellSize in
  if negb (num_isFinite value) then num 0 else num_mul (math_round (num_div value cell)) cell.

Definition snapLength (value cellSize min max : jsnum) : jsnum :=
  let cell := clampCellSize cellSize in
  let floor := math_max cell (num_mul (math_ceil (num_div min cell)) cell) in
  math_min max (math_max floor (snapToCell value cell)).

Definition snapPosition (position : GraphPoint) (cellSize : jsnum) : GraphPoint :=
  {| pt_x := snapToCell (pt_x position) cellSize; pt_y := snapToCell (pt_y position) cellSize |}.

Definition edgeSelectorSnapPitch (cellSize : jsnum) : jsnum := num_div (clampCellSize cellSize) (num 2).

Definition snapEdgeSelectorRouteOffset (naturalAnchor routeOffset : GraphPoint) (cellSize : jsnum) : GraphPoint :=
  let anchor := {| pt_x := num_add (pt_x naturalAnchor) (pt_x routeOffset); pt_y := num_add (pt_y naturalAnchor) (pt_y routeOffset) |} in
  let snappedAnchor := snapPosition anchor (edgeSelectorSnapPitch cellSize) in
  {| pt_x := num_sub (pt_x snappedAnchor) (pt_x naturalAnchor); pt_y := num_sub (pt_y snappedAnchor) (pt_y naturalAnchor) |}.

Definition spanFromLength (length cellSize : jsnum) : jsnum :=
  let cell := clampCellSize cellSize in
  if negb (num_isFinite length) || num_leb length (num 0) then num 1 else math_max (num 1) (math_round (num_div length cell)).

Definition lengthFromSpan (span cellSize : jsnum) : jsnum := num_mul (math_max (num 1) (math_round span)) (clampCellSize cellSize).

Definition ceilToCell (value cellSize : jsnum) : jsnum :=
  let cell := clampCellSize cellSize in
  if negb (num_isFinite value) || num_leb value (num 0) then cell
  else
    let nearest := num_mul (math_round (num_div value cell)) cell in
    if num_ltb (math_abs (num_sub value nearest)) (NFin (Q2Qc (1 # 2)))
    then math_max cell (if bool_decide (nearest = num 0) then cell else nearest)
    else math_max cell (num_mul (math_ceil (num_div value cell)) cell).

(** ** When it snaps *)

Definition shouldSnapPosition (settings : CanvasGridSettings) (dragging bypass : bool) : bool :=
  if negb (gs_enabled settings) || negb (gs_snapPosition settings) || bypass then false else if dragging then gs_snapWhileDragging settings else true.

Definition shouldSnapSize (settings : CanvasGridSettings) (drafting bypass : bool) : bool :=
  if negb (gs_enabled settings) || negb (gs_snapSize settings) || bypass then false else if drafting then gs_snapWhileResizing settings else true.

Definition gridAlignedWidth (width : jsnum) (settings : option CanvasGridSettings) (bypass : bool) (minWidth : jsnum) : jsnum :=
  match settings with
  | None => width
  | Some s => if negb (shouldSnapSize s false bypass) then width else snapLength width (gs_cellSize s) minWidth LAYOUT_DIMENSION_MAX
  end.

Definition shouldFillShellToGrid (settings : option CanvasGridSettings) (bypass : bool) : bool :=
  match settings with None => false | Some s => if bypass then false else gs_enabled s && gs_snapSize s end.

Definition gridShellOutset (settings : option CanvasGridSettings) (bypass : bool) : Z := if shouldFillShellToGrid settings bypass then GRID_SHELL_GUTTER else 0.

(** One dimension, when it is there and asked for. *)
Definition snapAxis (axis : GridResizeAxis) (axes : list GridResizeAxis) (cellSize min : jsnum) (v : option jsnum) : option jsnum :=
  if bool_decide (axis ∈ axes) then (λ x, snapLength x cellSize min LAYOUT_DIMENSION_MAX) <$> v else v.

Definition snapNodeLayout (layout : option WorkflowNodeLayout) (axes : list GridResizeAxis) (cellSize : jsnum) : option WorkflowNodeLayout :=
  layout ← layout;
  clampNodeLayout (Some {| wl_width := snapAxis ax_width axes cellSize NODE_WIDTH_MIN (wl_width layout);
                           wl_bodyHeight := snapAxis ax_bodyHeight axes cellSize BODY_HEIGHT_MIN (wl_bodyHeight layout);
                           wl_appendixHeight := snapAxis ax_appendixHeight axes cellSize APPENDIX_HEIGHT_MIN (wl_appendixHeight layout) |}).

Definition layoutSnapAxes (layout : option WorkflowNodeLayout) (fallback : list GridResizeAxis) : list GridResizeAxis :=
  match layout with
  | None => fallback
  | Some l =>
      match (if wl_width l then [ax_width] else []) ++ (if wl_bodyHeight l then [ax_bodyHeight] else []) ++ (if wl_appendixHeight l then [ax_appendixHeight] else []) with
      | [] => fallback
      | axes => axes
      end
  end.

(** ** Cells are whole numbers of pixels *)

#[local] Open Scope Z_scope.

Lemma inject_Z_compare a b : Qcompare (inject_Z a) (inject_Z b) = (a ?= b).
Proof. unfold Qcompare, inject_Z. cbn. by rewrite !Z.mul_1_r. Qed.

Lemma num_compare_num a b : num_compare (num a) (num b) = Some (a ?= b).
Proof. unfold num, num_compare. f_equal. rewrite (Qcompare_comp _ (inject_Z a) (this_num a) _ (inject_Z b) (this_num b)). apply inject_Z_compare. Qed.

Lemma math_max_num a b : math_max (num a) (num b) = num (Z.max a b).
Proof. unfold math_max. rewrite num_compare_num. destruct (Z.compare_spec a b); f_equal; lia. Qed.

Lemma math_min_num a b : math_min (num a) (num b) = num (Z.min a b).
Proof. unfold math_min. rewrite num_compare_num. destruct (Z.compare_spec a b); f_equal; lia. Qed.

Lemma num_mul_num a b : num_mul (num a) (num b) = num (a * b).
Proof. unfold num, num_mul. f_equal. apply Qc_is_canon. rewrite this_mul, !this_num. by rewrite inject_Z_mult. Qed.

Lemma clampCellSize_cell value : ∃ cell, clampCellSize value = num cell ∧ 24 <= cell <= 96.
Proof.
  unfold clampCellSize. destruct value as [q|s|]; cbn [num_isFinite negb]; [|exists 50; done..].
  unfold math_round. rewrite math_max_num, math_min_num. eexists. split; [done|]. unfold GRID_CELL_SIZE_MIN, GRID_CELL_SIZE_MAX. lia.
Qed.

Lemma clampCellSize_of cell : 24 <= cell <= 96 → clampCellSize (num cell) = num cell.
Proof.
  intros H. unfold clampCellSize. change (negb (num_isFinite (num cell))) with false. cbv iota.
  change (math_round (num cell)) with (num (Qfloor (this (Q2Qc (inject_Z cell)) + (1 # 2)))).
  rewrite (Qfloor_comp _ (inject_Z cell + (1 # 2))) by by rewrite this_num.
  assert (Qfloor (inject_Z cell + (1 # 2)) = cell) as ->.
  { unfold inject_Z, Qfloor, Qplus. cbn. symmetry. apply (Z.div_unique _ _ _ 1); lia. }
  rewrite math_max_num, math_min_num. f_equal. unfold GRID_CELL_SIZE_MIN, GRID_CELL_SIZE_MAX. lia.
Qed.

Lemma num_div_cell q cell : 24 <= cell → num_div (NFin q) (num cell) = NFin (q / Q2Qc (inject_Z cell))%Qc.
Proof.
  intros H. unfold num_div, num. assert (Qcompare (this (Q2Qc (inject_Z cell))) 0%Q = Gt) as ->; [|done].
  rewrite (Qcompare_comp _ (inject_Z cell) (this_num cell) 0%Q 0%Q (Qeq_refl 0)). change 0%Q with (inject_Z 0). rewrite inject_Z_compare. apply Z.compare_gt_iff. lia.
Qed.

(** ** Snapping *)

(** The cell nearest to a value, halves upward. *)
Definition nearestCell (q : Qc) (cell : Z) : Z := Qfloor (this q / inject_Z cell + (1 # 2)).

Lemma this_div_cell q cell : 24 <= cell → (this (q / Q2Qc (inject_Z cell))%Qc == this q / inject_Z cell)%Q.
Proof.
  intros H. unfold Qcdiv. rewrite this_mul. unfold Qcinv, Q2Qc. cbn. rewrite !Qred_correct. done.
Qed.

Lemma snapToCell_nearest q cellSize cell :
  clampCellSize cellSize = num cell → 24 <= cell → snapToCell (NFin q) cellSize = num (nearestCell q cell * cell).
Proof.
  intros Hc Hcell. unfold snapToCell. rewrite Hc. cbn [num_isFinite negb]. rewrite num_div_cell by done. unfold math_round.
  rewrite num_mul_num. unfold nearestCell. do 2 f_equal. apply Qfloor_comp. by rewrite this_div_cell.
Qed.

Lemma inject_Z_pos cell : 24 <= cell → (0 < inject_Z cell)%Q.
Proof. intros H. change 0%Q with (inject_Z 0). rewrite <- Zlt_Qlt. lia. Qed.

(** A value and its cell are half a cell apart at most. *)
Lemma nearestCell_near q cell : 24 <= cell → (Qabs (this q - inject_Z (nearestCell q cell * cell)) * 2 <= inject_Z cell)%Q.
Proof.
  intros Hcell. pose proof (inject_Z_pos cell Hcell) as Hpos. set (k := nearestCell q cell).
  pose proof (Qfloor_le (this q / inject_Z cell + (1 # 2))) as H1. pose proof (Qlt_floor (this q / inject_Z cell + (1 # 2))) as H2.
  fold (nearestCell q cell) in H1, H2. fold k in H1, H2. rewrite inject_Z_mult. rewrite inject_Z_plus in H2. change (inject_Z 1) with 1%Q in H2.
  assert (this q == (this q / inject_Z cell) * inject_Z cell)%Q as Hq by (field; intros E; rewrite E in Hpos; lra).
  set (r := (this q / inject_Z cell)%Q) in *. rewrite Hq. set (c := inject_Z cell) in *. set (z := inject_Z k) in *. clearbody r c z. clear Hq.
  assert ((r - z) * c * 2 <= c)%Q as Ha by nra. assert (- c <= (r - z) * c * 2)%Q as Hb by nra.
  assert (r * c - z * c == (r - z) * c)%Q as Hd by ring. rewrite Hd. clear Hd. set (d := ((r - z) * c)%Q) in *. clearbody d.
  apply (Qabs_case d); intros; lra.
Qed.

(** A value that is on a cell stays there. *)
Lemma nearestCell_on k cell : 24 <= cell → nearestCell (Q2Qc (inject_Z (k * cell))) cell = k.
Proof.
  intros Hcell. pose proof (inject_Z_pos cell Hcell) as Hpos. unfold nearestCell.
  rewrite (Qfloor_comp _ (inject_Z k + (1 # 2))).
  - unfold inject_Z, Qfloor, Qplus. cbn. symmetry. apply (Z.div_unique _ _ _ 1); lia.
  - rewrite this_num, inject_Z_mult. field. intros E. rewrite E in Hpos. lra.
Qed.

(** Snapping takes a finite position to a whole number of cells, at most half a cell away, and
    leaves it there. *)
Theorem snapping_is_to_the_nearest_cell q cellSize :
  ∃ cell k, clampCellSize cellSize = num cell ∧ 24 <= cell <= 96 ∧ snapToCell (NFin q) cellSize = num (k * cell) ∧
    (Qabs (this q - inject_Z (k * cell)) * 2 <= inject_Z cell)%Q ∧ snapToCell (num (k * cell)) cellSize = num (k * cell).
Proof.
  destruct (clampCellSize_cell cellSize) as (cell & Hc & Hr). exists cell, (nearestCell q cell). split_and!; [done|lia..|by apply snapToCell_nearest; [|lia]|apply nearestCell_near; lia|].
  unfold num at 1. rewrite (snapToCell_nearest _ _ cell) by (done || lia). by rewrite nearestCell_on by lia.
Qed.

(** ** Lengths *)

Lemma ceil_cells m cell : 24 <= cell → math_ceil (num_div (num m) (num cell)) = num (- (- m / cell)).
Proof.
  intros Hcell. unfold num at 1. rewrite num_div_cell by done. unfold math_ceil, Qceiling. do 2 f_equal.
  rewrite (Qfloor_comp _ (- m # Z.to_pos cell)).
  - unfold Qfloor. by rewrite Z2Pos.id by lia.
  - rewrite this_div_cell, this_num by done. unfold Qdiv, Qinv, inject_Z, Qeq. cbn. destruct cell; cbn; lia.
Qed.

(** A length snaps to whole cells that still hold the smallest length allowed, and never goes
    over the largest one. *)
Theorem snapped_length_fits q cellSize m M : m <= M →
  ∃ cell l, clampCellSize cellSize = num cell ∧ snapLength (NFin q) cellSize (num m) (num M) = num l ∧ m <= l <= M ∧ (l = M ∨ ∃ k, 0 < k ∧ l = k * cell).
Proof.
  intros HmM. destruct (clampCellSize_cell cellSize) as (cell & Hc & Hr). set (f := Z.max cell (- (- m / cell) * cell)). set (n := nearestCell q cell).
  assert (snapLength (NFin q) cellSize (num m) (num M) = num (Z.min M (Z.max f (n * cell)))) as Hl.
  { unfold snapLength. rewrite Hc, ceil_cells by lia. rewrite (snapToCell_nearest q (num cell) cell) by (by apply clampCellSize_of || lia). by rewrite num_mul_num, !math_max_num, math_min_num. }
  assert (m <= f) by (pose proof (Z.mul_div_le (- m) cell ltac:(lia)); lia). exists cell, (Z.min M (Z.max f (n * cell))). split_and!; [done|done|lia|lia|].
  destruct (Z.le_ge_cases M (Z.max f (n * cell))) as [?|?]; [left; lia|right]. rewrite Z.min_r by done.
  exists (Z.max (Z.max 1 (- (- m / cell))) n). split; [lia|]. unfold f. rewrite <- !Z.mul_max_distr_nonneg_r by lia. lia.
Qed.

(** ** Edge selectors *)

(** On an even cell of 48 pixels or more, the anchor of an edge selector lands on the half-cell
    lattice, at most a quarter of a cell away. *)
Theorem edge_selector_lands_on_half_cells q half : 24 <= half <= 48 →
  ∃ k, snapToCell (NFin q) (edgeSelectorSnapPitch (num (2 * half))) = num (k * half) ∧ (Qabs (this q - inject_Z (k * half)) * 4 <= inject_Z (2 * half))%Q.
Proof.
  intros Hh. exists (nearestCell q half). assert (edgeSelectorSnapPitch (num (2 * half)) = num half) as ->.
  { unfold edgeSelectorSnapPitch. rewrite clampCellSize_of by lia. unfold num_div, num. change (Qcompare (this (Q2Qc (inject_Z 2))) 0%Q) with Gt. cbv iota.
    f_equal. apply Qc_is_canon. unfold Qcdiv. rewrite this_mul. unfold Qcinv, Q2Qc. cbn [this]. rewrite !Qred_correct. rewrite inject_Z_mult. change (inject_Z 2) with (2 # 1)%Q. field. }
  split; [apply snapToCell_nearest; [apply clampCellSize_of|]; lia|]. pose proof (nearestCell_near q half ltac:(lia)) as H.
  rewrite (inject_Z_mult 2). change (inject_Z 2) with (2 # 1)%Q. set (a := Qabs _) in *. clearbody a. lra.
Qed.

(** On other cells it does not: half of 40 is 20, but the pitch is held to 24, the smallest
    cell, so an anchor that is on the half-cell lattice is moved off it. *)
Theorem edge_selector_leaves_small_cells :
  let zero := {| pt_x := num 0; pt_y := num 0 |} in let at20 := {| pt_x := num 20; pt_y := num 0 |} in
  edgeSelectorSnapPitch (num 40) = num 20 ∧ snapEdgeSelectorRouteOffset zero at20 (num 40) = {| pt_x := num 24; pt_y := num 0 |}.
Proof.
  assert (∀ p q : Qc, (p == q)%Q → NFin p = NFin q) as Hn by (intros p q H; f_equal; by apply Qc_is_canon).
  split; [by apply Hn|]. unfold snapEdgeSelectorRouteOffset. cbn [pt_x pt_y snapPosition]. f_equal; by apply Hn.
Qed.
