(* ===== verification/FieldBoard.v ===== *)
(** * The board of configuration fields ([canvas/nodes/field-footprints.ts])

    The fields of a node are bricks on the canvas lattice: each has a footprint in cells, and
    the bricks are packed on shelves in the order of the schema.  Bricks do not overlap, stay on the
    board, keep their order and leave no column of a shelf empty. *)

From stdpp Require Import numbers list.
From Stdlib Require Import QArith.Qround Sorting.Sorted.
From S2P Require Import Prelude Js JsNum GraphModel Canvas NodeLayout ConfigSchema ConfigFields GridLayout NodeSecrets.
#[local] Open Scope Z_scope.
#[local] Open Scope list_scope.

(** ** Footprints *)

Inductive ConfigControlKind := ck_text | ck_number | ck_select | ck_checkbox | ck_textarea | ck_code | ck_number_tuple | ck_string_list | ck_secret.

Definition HALF_WIDTH_CELLS : Z := STANDARD_NODE_WIDTH_CELLS / 2.
Definition CONFIG_BOARD_COLUMNS_MIN : Z := HALF_WIDTH_CELLS.
Definition MIN_HALF_BRICK_PX : Z := 220.

Record FieldFootprint := { fp_columns : Q; fp_rows : Q; fp_growX : bool; fp_growY : bool }.

Definition cells (columns rows : Z) (growY : bool) : FieldFootprint :=
  {| fp_columns := inject_Z columns; fp_rows := inject_Z rows; fp_growX := true; fp_growY := growY |}.

Definition FOOTPRINTS (kind : ConfigControlKind) : FieldFootprint :=
  match kind with
  | ck_text | ck_number | ck_select | ck_checkbox => cells HALF_WIDTH_CELLS 1 false
  | ck_textarea | ck_code => cells STANDARD_NODE_WIDTH_CELLS 2 true
  | ck_number_tuple => cells STANDARD_NODE_WIDTH_CELLS 1 false
  | ck_string_list | ck_secret => cells STANDARD_NODE_WIDTH_CELLS 2 false
  end.

Definition configControlKind (field : SchemaField) : ConfigControlKind :=
  match cf_body field with
  | number_tuple _ => ck_number_tuple
  | string_list _ => ck_string_list
  | scalar_field f =>
      match sc_type f with
      | sc_boolean => ck_checkbox
      | t =>
          if negb (is_nil (default [] (sc_enumValues f))) then ck_select
          else if sc_textarea f then if sc_sql f then ck_code else ck_textarea
          else match t with sc_string => ck_text | _ => ck_number end
      end
  end.

Definition footprintForControlKind (kind : ConfigControlKind) : FieldFootprint := FOOTPRINTS kind.

(** [Math.ceil(n / 2)] *)
Definition halfUp (n : Z) : Z := - (- n / 2).

Definition fieldFootprint (field : SchemaField) : FieldFootprint :=
  let footprint := FOOTPRINTS (configControlKind field) in
  match cf_body field with
  | number_tuple items =>
      let itemRows := Z.max 1 (halfUp (Z.of_nat (length items))) in
      {| fp_columns := fp_columns footprint; fp_rows := fp_rows footprint + inject_Z itemRows - 1;
         fp_growX := fp_growX footprint; fp_growY := fp_growY footprint |}
  | _ => footprint
  end.

Definition secretFootprint : FieldFootprint := FOOTPRINTS ck_secret.

Definition math_floor (a : jsnum) : jsnum := match a with NFin p => num (Qfloor p) | _ => a end.

Definition configBoardColumns (width cellSize : jsnum) : jsnum :=
  let cell := clampCellSize cellSize in
  let naturalHalfPx := num_mul (num HALF_WIDTH_CELLS) cell in
  let slotPx := math_max naturalHalfPx (num MIN_HALF_BRICK_PX) in
  let standardSlots := STANDARD_NODE_WIDTH_CELLS / HALF_WIDTH_CELLS in
  let fittedSlots := math_max (num standardSlots) (math_floor (num_div (math_max (num 0) width) slotPx)) in
  math_max (num CONFIG_BOARD_COLUMNS_MIN) (num_mul fittedSlots (num HALF_WIDTH_CELLS)).

(** The bricks of a node: its fields, then its secrets. *)
Inductive ConfigBrick :=
| brick_field (field : SchemaField) (footprint : FieldFootprint)
| brick_secret (input : WorkflowNodeSecretInput) (footprint : FieldFootprint).

Definition configBricks (spec : NodeSpec) : list ConfigBrick :=
  map (λ field, brick_field field (fieldFootprint field)) (schemaFields (spec_config_schema spec)) ++
  map (λ input, brick_secret input secretFootprint) (nodeSecretInputs spec).

(** ** Packing *)

Record FieldPlacement := { pl_index : nat; pl_col : Z; pl_row : Z; pl_w : Z; pl_h : Z }.

Record PackedFieldBoard := { pb_columns : Z; pb_rows : Z; pb_placements : list FieldPlacement }.

Record Shelf := { sh_height : Z; sh_items : list FieldPlacement; sh_growsY : bool }.

(** The shelves so far, the last one apart, and [cursor]. *)
Record Packing := { pk_full : list Shelf; pk_last : option Shelf; pk_cursor : Z }.

Definition shelvesOf (p : Packing) : list Shelf := pk_full p ++ match pk_last p with Some s => [s] | None => [] end.

Definition brickWidth (boardColumns : Z) (f : FieldFootprint) : Z := Z.min boardColumns (Z.max 1 (Qfloor (fp_columns f))).
Definition brickHeight (f : FieldFootprint) : Z := Z.max 1 (Qfloor (fp_rows f)).

Definition putOn (s : Shelf) (index : nat) (cursor w h : Z) (f : FieldFootprint) : Shelf :=
  {| sh_height := Z.max (sh_height s) h;
     sh_items := sh_items s ++ [{| pl_index := index; pl_col := cursor; pl_row := 0; pl_w := w; pl_h := h |}];
     sh_growsY := sh_growsY s || fp_growY f |}.

Definition emptyShelf : Shelf := {| sh_height := 0; sh_items := []; sh_growsY := false |}.

Definition placeBrick (boardColumns : Z) (p : Packing) (entry : nat * FieldFootprint) : Packing :=
  let '(index, f) := entry in
  let w := brickWidth boardColumns f in
  let h := brickHeight f in
  match pk_last p with
  | Some shelf =>
      if boardColumns <? pk_cursor p + w
      then {| pk_full := pk_full p ++ [shelf]; pk_last := Some (putOn emptyShelf index 0 w h f); pk_cursor := w |}
      else {| pk_full := pk_full p; pk_last := Some (putOn shelf index (pk_cursor p) w h f); pk_cursor := pk_cursor p + w |}
  | None => {| pk_full := pk_full p; pk_last := Some (putOn emptyShelf index 0 w h f); pk_cursor := w |}
  end.

(** [target.w += 1]: the targets are items of the shelf. *)
Definition widen (index : nat) (items : list FieldPlacement) : list FieldPlacement :=
  map (λ i, if bool_decide (pl_index i = index) then {| pl_index := pl_index i; pl_col := pl_col i; pl_row := pl_row i; pl_w := pl_w i + 1; pl_h := pl_h i |} else i) items.

(** The loop that hands out [spare] columns. *)
Fixpoint handOut (spare turn : nat) (targets : list nat) (items : list FieldPlacement) : list FieldPlacement :=
  match spare with
  | O => items
  | S spare =>
      match targets !! (turn mod length targets)%nat with
      | Some target => handOut spare (S turn) targets (widen target items)
      | None => items
      end
  end.

Fixpoint inColumns (col : Z) (items : list FieldPlacement) : list FieldPlacement :=
  match items with
  | [] => []
  | i :: rest => {| pl_index := pl_index i; pl_col := col; pl_row := pl_row i; pl_w := pl_w i; pl_h := pl_h i |} :: inColumns (col + pl_w i) rest
  end.

Definition widthOf (items : list FieldPlacement) : Z := foldr (λ i t, pl_w i + t) 0 items.

Definition growsX (footprints : list FieldFootprint) (index : nat) : bool := match footprints !! index with Some f => fp_growX f | None => false end.
Definition growsY (footprints : list FieldFootprint) (index : nat) : bool := match footprints !! index with Some f => fp_growY f | None => false end.

Definition growShelf (boardColumns : Z) (footprints : list FieldFootprint) (s : Shelf) : Shelf :=
  let spare := boardColumns - widthOf (sh_items s) in
  if (spare <=? 0) || is_nil (sh_items s) then s
  else
    let growers := filter (λ i, growsX footprints i = true) (map pl_index (sh_items s)) in
    let targets := if is_nil growers then map pl_index (sh_items s) else growers in
    {| sh_height := sh_height s; sh_items := inColumns 0 (handOut (Z.to_nat spare) 0 targets (sh_items s)); sh_growsY := sh_growsY s |}.

Definition heightOf (shelves : list Shelf) : Z := foldr (λ s t, sh_height s + t) 0 shelves.

(** The spare rows, shared by the shelves that grow; [position] counts them. *)
Fixpoint shareRows (share remainder position : Z) (shelves : list Shelf) : list Shelf :=
  match shelves with
  | [] => []
  | s :: rest =>
      if sh_growsY s
      then {| sh_height := sh_height s + (share + (if position <? remainder then 1 else 0)); sh_items := sh_items s; sh_growsY := true |}
           :: shareRows share remainder (position + 1) rest
      else s :: shareRows share remainder position rest
  end.

Definition growRows (requestedRows : Z) (shelves : list Shelf) : list Shelf :=
  let growable := Z.of_nat (length (filter (λ s, sh_growsY s = true) shelves)) in
  let spareRows := requestedRows - heightOf shelves in
  if (0 <? spareRows) && (0 <? growable) then shareRows (spareRows / growable) (spareRows mod growable) 0 shelves else shelves.

Definition placed (footprints : list FieldFootprint) (row height : Z) (i : FieldPlacement) : FieldPlacement :=
  {| pl_index := pl_index i; pl_col := pl_col i; pl_row := row; pl_w := pl_w i; pl_h := if growsY footprints (pl_index i) then height else pl_h i |}.

Fixpoint placements (footprints : list FieldFootprint) (row : Z) (shelves : list Shelf) : list FieldPlacement :=
  match shelves with
  | [] => []
  | s :: rest => map (placed footprints row (sh_height s)) (sh_items s) ++ placements footprints (row + sh_height s) rest
  end.

Definition packFieldFootprints (footprints : list FieldFootprint) (columns minRows : Q) : PackedFieldBoard :=
  let boardColumns := Z.max 1 (Qfloor columns) in
  let requestedRows := Z.max 0 (Qfloor minRows) in
  let packed := foldl (placeBrick boardColumns) {| pk_full := []; pk_last := None; pk_cursor := 0 |} (imap pair footprints) in
  let shelves := growRows requestedRows (map (growShelf boardColumns footprints) (shelvesOf packed)) in
  {| pb_columns := boardColumns; pb_rows := Z.max (heightOf shelves) requestedRows; pb_placements := placements footprints 0 shelves |}.

(** ** Examples *)

Definition short : FieldFootprint := cells 3 2 false.

Example three_short_bricks :
  map (λ p, (pl_index p, pl_col p, pl_row p, pl_w p, pl_h p)) (pb_placements (packFieldFootprints [short; short; short] 6 0)) =
  [(0%nat, 0, 0, 3, 2); (1%nat, 3, 0, 3, 2); (2%nat, 0, 2, 6, 2)].
Proof. reflexivity. Qed.

(** ** Shelves *)

(** Bricks side by side from column [c] on. *)
Fixpoint laid (c : Z) (items : list FieldPlacement) : Prop :=
  match items with
  | [] => True
  | i :: rest => pl_col i = c ∧ laid (c + pl_w i) rest
  end.

Lemma laid_app c a b : laid c (a ++ b) ↔ laid c a ∧ laid (c + widthOf a) b.
Proof.
  revert c. induction a as [|i a IH]; intros c; cbn [app laid widthOf foldr]; [rewrite Z.add_0_r; naive_solver|].
  fold (widthOf a). rewrite IH, Z.add_assoc. naive_solver.
Qed.

Lemma widthOf_app a b : widthOf (a ++ b) = widthOf a + widthOf b.
Proof. induction a as [|i a IH]; cbn [app widthOf foldr]; [done|]. fold (widthOf a) (widthOf (a ++ b)). lia. Qed.

(** A shelf whose bricks fit side by side and under its height. *)
Record shelf_ok (boardColumns : Z) (s : Shelf) : Prop := {
  so_items : sh_items s ≠ [];
  so_laid : laid 0 (sh_items s);
  so_sizes : Forall (λ i, 1 <= pl_w i ∧ 1 <= pl_h i <= sh_height s) (sh_items s);
  so_width : widthOf (sh_items s) <= boardColumns
}.

Lemma shelf_height_pos b s : shelf_ok b s → 1 <= sh_height s.
Proof. intros [Hne _ Hs _]. destruct (sh_items s) as [|i l]; [done|]. apply Forall_cons in Hs as [? _]. lia. Qed.

Definition indices (shelves : list Shelf) : list nat := concat (map (λ s, map pl_index (sh_items s)) shelves).

Lemma indices_app a b : indices (a ++ b) = indices a ++ indices b.
Proof. unfold indices. by rewrite map_app, concat_app. Qed.

Lemma put_ok b s index w h f : 1 <= w → 1 <= h → widthOf (sh_items s) + w <= b → (sh_items s ≠ [] → shelf_ok b s) →
  shelf_ok b (putOn s index (widthOf (sh_items s)) w h f).
Proof.
  intros Hw Hh Hb Hs. assert (laid 0 (sh_items s) ∧ Forall (λ i, 1 <= pl_w i ∧ 1 <= pl_h i <= sh_height s) (sh_items s)) as [Hl Hf].
  { destruct (sh_items s) eqn:E; [done|]. rewrite <- E in *. destruct Hs; [congruence|done]. }
  split; cbn.
  - by destruct (sh_items s).
  - apply laid_app. split; [done|]. done.
  - apply Forall_app. split; [|repeat constructor; cbn; lia]. eapply Forall_impl; [exact Hf|]. cbn. intros. lia.
  - rewrite widthOf_app. cbn. lia.
Qed.

(** A brick that has at least the cells of its footprint. *)
Definition brick_fits (b : Z) (footprints : list FieldFootprint) (i : FieldPlacement) : Prop :=
  ∃ f, footprints !! pl_index i = Some f ∧ brickWidth b f <= pl_w i ∧ brickHeight f <= pl_h i.

Definition bricks_fit (b : Z) (footprints : list FieldFootprint) (s : Shelf) : Prop := Forall (brick_fits b footprints) (sh_items s).

Lemma bricks_fit_more b footprints f s : bricks_fit b footprints s → bricks_fit b (footprints ++ [f]) s.
Proof. intros Hs. eapply Forall_impl; [exact Hs|]. intros i (g & Hg & ?). exists g. split; [|done]. by apply lookup_app_l_Some. Qed.

(** The packing of some footprints. *)
Record packing_ok (b : Z) (footprints : list FieldFootprint) (p : Packing) : Prop := {
  pk_shelves : Forall (shelf_ok b) (shelvesOf p);
  pk_fit : Forall (bricks_fit b footprints) (shelvesOf p);
  pk_order : indices (shelvesOf p) = seq 0 (length footprints);
  pk_at : pk_cursor p = match pk_last p with Some s => widthOf (sh_items s) | None => 0 end
}.

Lemma put_fits b footprints f s : bricks_fit b footprints s → ∀ c,
  bricks_fit b (footprints ++ [f]) (putOn s (length footprints) c (brickWidth b f) (brickHeight f) f).
Proof.
  intros Hs c. apply Forall_app. split; [by apply bricks_fit_more|]. constructor; [|done]. exists f. cbn.
  split; [by rewrite lookup_app_r, Nat.sub_diag by lia|lia].
Qed.

Lemma brick_ok b footprints p f : 1 <= b → packing_ok b footprints p → packing_ok b (footprints ++ [f]) (placeBrick b p (length footprints, f)).
Proof.
  intros Hb [Hs Hf Ho Hc]. pose proof (put_fits b footprints f) as Hput. assert (bricks_fit b footprints emptyShelf) as Hempty by constructor.
  assert (Forall (bricks_fit b (footprints ++ [f])) (shelvesOf p)) as Hf' by (eapply Forall_impl; [exact Hf|]; apply bricks_fit_more).
  unfold placeBrick, shelvesOf in *. cbn beta iota zeta. set (w := brickWidth b f) in *. set (h := brickHeight f) in *. set (n := length footprints) in *.
  assert (1 <= w <= b ∧ 1 <= h) as [Hw Hh] by (unfold w, h, brickWidth, brickHeight; lia). clearbody w h.
  assert (shelf_ok b (putOn emptyShelf n 0 w h f)) as Hnew by (change 0 with (widthOf (sh_items emptyShelf)) at 1; by apply put_ok; cbn; [lia..|done]).
  assert (indices [putOn emptyShelf n 0 w h f] = [n]) as Hi by done.
  assert (seq 0 (length (footprints ++ [f])) = seq 0 n ++ [n]) as Hseq by (by rewrite length_app, Nat.add_1_r, seq_S).
  destruct (pk_last p) as [s|] eqn:Hl.
  - destruct (b <? pk_cursor p + w) eqn:Hfit; split; unfold shelvesOf; cbn [pk_full pk_last pk_cursor]; rewrite ?Hseq.
    + apply Forall_app. split; [done|]. by constructor.
    + apply Forall_app. split; [done|]. constructor; [by apply Hput|done].
    + by rewrite indices_app, Hi, Ho.
    + cbn. lia.
    + apply Forall_app in Hs as [Hs1 Hs2]. apply Forall_app. split; [done|]. constructor; [|done]. rewrite Hc. apply Forall_cons in Hs2 as [Hs2 _].
      apply put_ok; [lia|done| |done]. apply Z.ltb_ge in Hfit. lia.
    + apply Forall_app in Hf as [_ Hf2]. apply Forall_cons in Hf2 as [Hf2 _]. apply Forall_app in Hf' as [Hf1 _].
      apply Forall_app. split; [done|]. constructor; [by apply Hput|done].
    + rewrite <- Ho, !indices_app. unfold indices. cbn. by rewrite map_app, !app_nil_r, app_assoc.
    + cbn. rewrite widthOf_app. cbn. lia.
  - split; unfold shelvesOf; cbn [pk_full pk_last pk_cursor]; rewrite ?Hseq.
    + apply Forall_app. split; [|by constructor]. by apply Forall_app in Hs as [? _].
    + apply Forall_app. split; [by apply Forall_app in Hf' as [? _]|]. constructor; [by apply Hput|done].
    + rewrite app_nil_r in Ho. by rewrite indices_app, Hi, Ho.
    + cbn. lia.
Qed.

Lemma bricks_ok b footprints : 1 <= b →
  packing_ok b footprints (foldl (placeBrick b) {| pk_full := []; pk_last := None; pk_cursor := 0 |} (imap pair footprints)).
Proof.
  intros Hb. induction footprints as [|f l IH] using rev_ind; [by split|].
  rewrite imap_app, foldl_app. cbn [imap foldl]. rewrite Nat.add_0_r. by apply brick_ok.
Qed.

(** ** Growing to the side *)

Definition grown (i j : FieldPlacement) : Prop := pl_index j = pl_index i ∧ pl_h j = pl_h i ∧ pl_w i <= pl_w j.

Lemma grown_refl l : Forall2 grown l l.
Proof. induction l; constructor; [by split_and!|done]. Qed.

Lemma grown_trans a b c : Forall2 grown a b → Forall2 grown b c → Forall2 grown a c.
Proof.
  intros Hab. revert c. induction Hab as [|i j a b (H1 & H2 & H3) _ IH]; intros c Hbc; inversion Hbc as [|j' k b' c' (H4 & H5 & H6) Hbc']; subst; [constructor|].
  constructor; [split_and!; [congruence..|lia]|by apply IH].
Qed.

Lemma grown_indices a b : Forall2 grown a b → map pl_index b = map pl_index a.
Proof. induction 1 as [|i j a b (Hi & _) _ IH]; cbn; [done|]. by rewrite IH, Hi. Qed.

Lemma widen_grown k l : Forall2 grown l (widen k l).
Proof. unfold widen. induction l as [|i l IH]; cbn; constructor; [|done]. case_bool_decide; split_and!; cbn; lia || done. Qed.

Lemma widen_absent k l : k ∉ map pl_index l → widen k l = l.
Proof. unfold widen. induction l as [|i l IH]; cbn; [done|]. intros Hk. rewrite bool_decide_false by set_solver. f_equal. apply IH. set_solver. Qed.

Lemma widen_width k l : NoDup (map pl_index l) → k ∈ map pl_index l → widthOf (widen k l) = widthOf l + 1.
Proof.
  induction l as [|i l IH]; cbn [map]; [by intros _ ?%elem_of_nil|]. intros [Hi Hn]%NoDup_cons Hk.
  change (widen k (i :: l)) with ((if bool_decide (pl_index i = k) then {| pl_index := pl_index i; pl_col := pl_col i; pl_row := pl_row i; pl_w := pl_w i + 1; pl_h := pl_h i |} else i) :: widen k l).
  cbn [widthOf foldr]. fold (widthOf l) (widthOf (widen k l)). case_bool_decide as E; cbn.
  - rewrite widen_absent by congruence. lia.
  - rewrite IH by set_solver. lia.
Qed.

Lemma handed_out n turn targets l : targets ≠ [] → targets ⊆ map pl_index l → NoDup (map pl_index l) →
  Forall2 grown l (handOut n turn targets l) ∧ widthOf (handOut n turn targets l) = widthOf l + Z.of_nat n.
Proof.
  intros Hne. revert turn l. induction n as [|n IH]; intros turn l Hsub Hn; cbn [handOut]; [split; [apply grown_refl|lia]|].
  destruct (targets !! (turn mod length targets)%nat) as [k|] eqn:Hk.
  - pose proof (widen_grown k l) as Hw. pose proof (grown_indices _ _ Hw) as Hi. destruct (IH (S turn) (widen k l)) as [H1 H2]; [by rewrite Hi..|].
    split; [by eapply grown_trans|]. rewrite H2, widen_width; [lia|done|]. apply Hsub. by eapply list_elem_of_lookup_2.
  - exfalso. apply lookup_ge_None in Hk. assert (length targets ≠ 0%nat) by (by destruct targets). pose proof (Nat.mod_upper_bound turn (length targets)). lia.
Qed.

Lemma inColumns_ok c l : laid c (inColumns c l) ∧ Forall2 grown l (inColumns c l) ∧ widthOf (inColumns c l) = widthOf l.
Proof.
  revert c. induction l as [|i l IH]; intros c; cbn [inColumns laid widthOf foldr]; [by split_and!|].
  destruct (IH (c + pl_w i)) as (H1 & H2 & H3). fold (widthOf l) (widthOf (inColumns (c + pl_w i) l)). split_and!; cbn; [done..| |lia].
  constructor; [by split_and!|done].
Qed.

Lemma grow_ok b footprints s : shelf_ok b s → NoDup (map pl_index (sh_items s)) → bricks_fit b footprints s →
  let s' := growShelf b footprints s in
  shelf_ok b s' ∧ bricks_fit b footprints s' ∧ widthOf (sh_items s') = b ∧ map pl_index (sh_items s') = map pl_index (sh_items s) ∧ sh_height s' = sh_height s.
Proof.
  intros Hok Hn Hf. cbn zeta. unfold growShelf. pose proof Hok as [Hne Hl Hs Hw]. destruct (is_nil (sh_items s)) eqn:Hnil.
  { by destruct (sh_items s). }
  rewrite orb_false_r. destruct (b - widthOf (sh_items s) <=? 0) eqn:Hz; [apply Z.leb_le in Hz; split; [done|]; split; [done|]; split; [lia|done]|]. apply Z.leb_gt in Hz.
  set (targets := if is_nil _ then _ else _).
  assert (targets ≠ [] ∧ targets ⊆ map pl_index (sh_items s)) as [Hne' Hsub].
  { unfold targets. destruct (filter _ _) as [|k l] eqn:E; cbn.
    - split; [by destruct (sh_items s)|done].
    - split; [done|]. rewrite <- E. intros x [_ ?]%list_elem_of_filter. done. }
  destruct (handed_out (Z.to_nat (b - widthOf (sh_items s))) 0 targets (sh_items s) Hne' Hsub Hn) as [Hg Hwd].
  set (l := handOut _ _ _ _) in *. destruct (inColumns_ok 0 l) as (Hl' & Hg' & Hw'). pose proof (grown_trans _ _ _ Hg Hg') as Hgg.
  cbn [sh_items sh_height]. split_and!; [split; cbn [sh_items sh_height]|..]; [| done | | lia | | lia | by apply grown_indices | done].
  - intros E. rewrite E in Hgg. inversion Hgg. congruence.
  - clear - Hs Hgg. induction Hgg as [|i j a b' (Hi & Hh & Hw) _ IH]; [done|]. apply Forall_cons in Hs as [? Hs]. constructor; [lia|]. by apply IH.
  - clear - Hf Hgg. unfold bricks_fit in *. cbn [sh_items]. induction Hgg as [|i j a b' (Hi & Hh & Hw) _ IH]; [done|]. apply Forall_cons in Hf as [(f & ? & ? & ?) Hf].
    constructor; [|by apply IH]. exists f. rewrite Hi, Hh. split_and!; [done|lia|done].
Qed.

(** ** Growing downwards *)

Definition taller (s t : Shelf) : Prop := sh_items t = sh_items s ∧ sh_height s <= sh_height t.

Lemma shared share remainder position shelves : 0 <= share → Forall2 taller shelves (shareRows share remainder position shelves).
Proof.
  intros Hs. revert position. induction shelves as [|s l IH]; intros position; cbn [shareRows]; [constructor|].
  destruct (sh_growsY s); constructor; try done; split; cbn; try done. destruct (_ <? _); lia.
Qed.

Lemma shared_height share remainder position shelves :
  let g := Z.of_nat (length (filter (λ s, sh_growsY s = true) shelves)) in
  heightOf (shareRows share remainder position shelves) = heightOf shelves + share * g + Z.max 0 (Z.min g (remainder - position)).
Proof.
  cbn zeta. revert position. induction shelves as [|s l IH]; intros position; cbn [shareRows heightOf foldr]; [cbn; lia|].
  fold (heightOf l). rewrite filter_cons. destruct (sh_growsY s); cbn [heightOf foldr sh_height length].
  - rewrite decide_True by done. fold (heightOf (shareRows share remainder (position + 1) l)). rewrite IH. cbn [length]. destruct (position <? remainder) eqn:E; [apply Z.ltb_lt in E|apply Z.ltb_ge in E]; lia.
  - rewrite decide_False by done. fold (heightOf (shareRows share remainder position l)). rewrite IH. lia.
Qed.

Lemma grown_rows requested shelves :
  Forall2 taller shelves (growRows requested shelves) ∧
  heightOf (growRows requested shelves) =
    (if existsb sh_growsY shelves then Z.max requested (heightOf shelves) else heightOf shelves).
Proof.
  unfold growRows. set (g := Z.of_nat (length (filter (λ s, sh_growsY s = true) shelves))).
  assert (existsb sh_growsY shelves = (0 <? g)) as ->.
  { unfold g. clear g. induction shelves as [|s l IH]; cbn [existsb]; [done|]. rewrite filter_cons. destruct (sh_growsY s); cbn [orb]; [by rewrite decide_True|]. by rewrite decide_False. }
  assert (Forall2 taller shelves shelves) as Hrefl by (clear; induction shelves; constructor; [by split|done]).
  destruct (0 <? g) eqn:Hg; [|rewrite andb_false_r; done]. rewrite andb_true_r. apply Z.ltb_lt in Hg.
  destruct (0 <? requested - heightOf shelves) eqn:Hr; [apply Z.ltb_lt in Hr|apply Z.ltb_ge in Hr; split; [done|lia]]. split.
  - apply shared. apply Z.div_pos; lia.
  - rewrite shared_height. fold g. pose proof (Z.div_mod (requested - heightOf shelves) g) as Hd. pose proof (Z.mod_pos_bound (requested - heightOf shelves) g Hg). lia.
Qed.

(** ** The board *)

(** A brick comes before another one: to its left on the same row, or above it. *)
Definition before (p q : FieldPlacement) : Prop := (pl_row p = pl_row q ∧ pl_col p + pl_w p <= pl_col q) ∨ pl_row p + pl_h p <= pl_row q.

Definition on_board (columns top bottom : Z) (p : FieldPlacement) : Prop :=
  0 <= pl_col p ∧ 1 <= pl_w p ∧ pl_col p + pl_w p <= columns ∧ top <= pl_row p ∧ 1 <= pl_h p ∧ pl_row p + pl_h p <= bottom.

Lemma row_sorted footprints row height c l : laid c l → Forall (λ i, 1 <= pl_w i) l →
  StronglySorted before (map (placed footprints row height) l) ∧ Forall (λ p, pl_row p = row ∧ c <= pl_col p ∧ pl_col p + pl_w p <= c + widthOf l) (map (placed footprints row height) l).
Proof.
  revert c. induction l as [|i l IH]; intros c; cbn [laid map widthOf foldr]; [by intros; split; constructor|]. fold (widthOf l).
  intros [Hc Hl] [Hi Hf]%Forall_cons. destruct (IH _ Hl Hf) as [Hs Hb].
  assert (0 <= widthOf l) as Hw by (clear - Hf; induction Hf as [|j k ? _ IH]; cbn [widthOf foldr]; [done|fold (widthOf k); lia]). split.
  - constructor; [done|]. eapply Forall_impl; [exact Hb|]. intros p (Hr & Hcol & _). left. cbn. lia.
  - constructor; [cbn; lia|]. eapply Forall_impl; [exact Hb|]. cbn. intros p (? & ? & ?). lia.
Qed.

Lemma sorted_app (a b : list FieldPlacement) : StronglySorted before a → StronglySorted before b → (∀ p q, p ∈ a → q ∈ b → before p q) → StronglySorted before (a ++ b).
Proof.
  intros Ha Hb. induction Ha as [|p a Ha IH Hp]; cbn [app]; [done|]. intros Hab. constructor; [apply IH; set_solver|].
  apply Forall_app. split; [done|]. apply Forall_forall. intros q Hq. apply Hab; set_solver.
Qed.

Lemma placements_ok b footprints row shelves : Forall (shelf_ok b) shelves →
  StronglySorted before (placements footprints row shelves) ∧ Forall (on_board b row (row + heightOf shelves)) (placements footprints row shelves).
Proof.
  intros Hs. revert row. induction Hs as [|s l Hs Hl IH]; intros row; cbn [placements heightOf foldr]; [split; constructor|]. fold (heightOf l).
  destruct (IH (row + sh_height s)) as [Hsort Hon]. pose proof (shelf_height_pos _ _ Hs) as Hpos. destruct Hs as [_ Hlaid Hsz Hw].
  assert (Forall (λ i, 1 <= pl_w i) (sh_items s)) as Hw1 by (eapply Forall_impl; [exact Hsz|]; cbn; lia).
  destruct (row_sorted footprints row (sh_height s) 0 (sh_items s) Hlaid Hw1) as [Hrs Hrb].
  assert (0 <= heightOf l) as Hh by (clear - Hl; induction Hl as [|t k Ht _ IH]; cbn [heightOf foldr]; [done|]; fold (heightOf k); pose proof (shelf_height_pos _ _ Ht); lia).
  assert (Forall (on_board b row (row + sh_height s)) (map (placed footprints row (sh_height s)) (sh_items s))) as Hrow.
  { apply Forall_forall. intros p Hp. rewrite Forall_forall in Hrb. destruct (Hrb p Hp) as (Hr & Hc & Hcw). apply list_elem_of_fmap in Hp as (i & -> & Hi).
    rewrite Forall_forall in Hsz. destruct (Hsz i Hi) as [Hiw Hih]. unfold on_board. cbn in *. destruct (growsY footprints (pl_index i)); lia. }
  split.
  - apply sorted_app; [done..|]. intros p q Hp Hq. rewrite Forall_forall in Hrow, Hon. destruct (Hrow p Hp) as (_ & _ & _ & _ & _ & Hpb). destruct (Hon q Hq) as (_ & _ & _ & Hqt & _). right. lia.
  - apply Forall_app. split; eapply Forall_impl; [exact Hrow| |exact Hon|]; unfold on_board; cbn; intros; lia.
Qed.

Lemma placements_indices footprints row shelves : map pl_index (placements footprints row shelves) = indices shelves.
Proof. revert row. induction shelves as [|s l IH]; intros row; cbn [placements]; [done|]. rewrite map_app, IH, map_map. done. Qed.

Lemma taller_ok b footprints s t : taller s t → shelf_ok b s → bricks_fit b footprints s → shelf_ok b t ∧ bricks_fit b footprints t.
Proof.
  intros [Hi Hh] [Hne Hl Hs Hw] Hf. split; [|unfold bricks_fit in *; by rewrite Hi]. split; rewrite ?Hi; try done. eapply Forall_impl; [exact Hs|]. cbn. lia.
Qed.

Lemma placements_fit b footprints row shelves : Forall (shelf_ok b) shelves → Forall (bricks_fit b footprints) shelves → Forall (brick_fits b footprints) (placements footprints row shelves).
Proof.
  intros Hs. revert row. induction Hs as [|s l Hs _ IH]; intros row; cbn [placements]; [constructor|]. intros [Hf Hl]%Forall_cons. apply Forall_app. split; [|by apply IH].
  apply Forall_forall. intros p (i & -> & Hi)%list_elem_of_fmap. unfold bricks_fit in Hf. rewrite Forall_forall in Hf. destruct (Hf i Hi) as (f & Hf1 & Hf2 & Hf3).
  exists f. cbn. split; [done|]. split; [done|]. destruct Hs as [_ _ Hsz _]. rewrite Forall_forall in Hsz. specialize (Hsz i Hi). destruct (growsY _ _); lia.
Qed.

Definition covers (p : FieldPlacement) (x y : Z) : Prop := pl_col p <= x < pl_col p + pl_w p ∧ pl_row p <= y < pl_row p + pl_h p.

Lemma before_apart p q x y : before p q → covers p x y → covers q x y → False.
Proof. unfold before, covers. lia. Qed.

Lemma sorted_apart l i j p q x y : StronglySorted before l → l !! i = Some p → l !! j = Some q → covers p x y → covers q x y → i = j.
Proof.
  intros Hs. revert i j. induction Hs as [|a l _ IH Ha]; intros [|i] [|j]; cbn; try done; intros Hi Hj Hp Hq.
  - exfalso. injection Hi as <-. rewrite Forall_forall in Ha. eapply (before_apart a q); [apply Ha; by eapply list_elem_of_lookup_2|done..].
  - exfalso. injection Hj as <-. rewrite Forall_forall in Ha. eapply (before_apart a p); [apply Ha; by eapply list_elem_of_lookup_2|done..].
  - f_equal. by eapply IH.
Qed.

Lemma concat_NoDup {A} (ls : list (list A)) l : NoDup (concat ls) → l ∈ ls → NoDup l.
Proof.
  induction ls as [|a ls IH]; cbn; [by intros _ ?%elem_of_nil|]. intros (Ha & _ & Hls)%NoDup_app [->|Hl]%elem_of_cons; [done|]. by apply IH.
Qed.

(** The shelves of a board, before they are shown. *)
Lemma board_shelves b requested footprints : 1 <= b →
  let packed := foldl (placeBrick b) {| pk_full := []; pk_last := None; pk_cursor := 0 |} (imap pair footprints) in
  let shelves := growRows requested (map (growShelf b footprints) (shelvesOf packed)) in
  Forall (λ s, shelf_ok b s ∧ bricks_fit b footprints s ∧ widthOf (sh_items s) = b) shelves ∧ indices shelves = seq 0 (length footprints).
Proof.
  intros Hb. cbn zeta. destruct (bricks_ok b footprints Hb) as [Hs Hf Ho _]. set (l := shelvesOf _) in *. clearbody l.
  assert (Forall (λ s, NoDup (map pl_index (sh_items s))) l) as Hn.
  { apply Forall_forall. intros s Hin. eapply concat_NoDup; [|exact (list_elem_of_fmap_2 (λ s, map pl_index (sh_items s)) l s Hin)]. change (NoDup (indices l)). rewrite Ho. apply NoDup_seq. }
  assert (Forall (λ s, shelf_ok b s ∧ bricks_fit b footprints s ∧ widthOf (sh_items s) = b) (map (growShelf b footprints) l) ∧ indices (map (growShelf b footprints) l) = indices l) as [Hg Hi].
  { clear Ho. induction l as [|s l IH]; [by split; [constructor|]|]. apply Forall_cons in Hs as [Hs1 Hs], Hf as [Hf1 Hf], Hn as [Hn1 Hn].
    destruct (grow_ok b footprints s Hs1 Hn1 Hf1) as (H1 & H2 & H3 & H4 & _). destruct (IH Hs Hf Hn) as [IH1 IH2]. cbn [map]. split; [by constructor|].
    change (indices (growShelf b footprints s :: map (growShelf b footprints) l)) with (map pl_index (sh_items (growShelf b footprints s)) ++ indices (map (growShelf b footprints) l)).
    by rewrite H4, IH2. }
  rewrite <- Ho, <- Hi. destruct (grown_rows requested (map (growShelf b footprints) l)) as [Ht _]. set (m := map _ l) in *. set (m' := growRows _ _) in *. clearbody m m'.
  clear - Ht Hg. induction Ht as [|s t m m' Hst _ IH]; [done|]. apply Forall_cons in Hg as [(H1 & H2 & H3) Hg]. destruct (IH Hg) as [IH1 IH2].
  destruct (taller_ok b footprints s t Hst H1 H2) as [H4 H5]. destruct Hst as [Hi _]. split.
  - constructor; [|done]. by rewrite Hi.
  - change (indices (t :: m')) with (map pl_index (sh_items t) ++ indices m'). by rewrite IH2, Hi.
Qed.

(** A brick has room for its footprint: at least one cell, all the whole columns that the
    footprint asks for unless it is as wide as the board, and all its whole rows. *)
Definition has_room (boardColumns : Z) (footprints : list FieldFootprint) (i : FieldPlacement) : Prop :=
  ∃ f, footprints !! pl_index i = Some f ∧ 1 <= pl_w i ∧ 1 <= pl_h i ∧
    (∀ n, (inject_Z n <= fp_columns f)%Q → n <= pl_w i ∨ boardColumns <= pl_w i) ∧
    (∀ n, (inject_Z n <= fp_rows f)%Q → n <= pl_h i).

Lemma floor_least n q : (inject_Z n <= q)%Q → n <= Qfloor q.
Proof. intros H%Qfloor_resp_le. by rewrite Qfloor_Z in H. Qed.

Lemma fits_has_room b footprints i : 1 <= b → brick_fits b footprints i → has_room b footprints i.
Proof.
  intros Hb (f & Hf & Hw & Hh). unfold brickWidth, brickHeight in *. exists f. split_and!; [done|lia|lia|..]; intros n Hn%floor_least; lia.
Qed.

(** C27: the board has the whole columns that were asked for, at least one.  Every footprint
    becomes one brick, in the order of the schema, of at least one cell, with all the whole rows
    and columns that the footprint asks for; only a brick that asks for more columns than the
    board has is cut to the width of the board.  The bricks are on the board, and no cell belongs
    to two of them. *)
Theorem bricks_do_not_overlap footprints columns minRows :
  let board := packFieldFootprints footprints columns minRows in
  pb_columns board = Z.max 1 (Qfloor columns) ∧
  map pl_index (pb_placements board) = seq 0 (length footprints) ∧
  Forall (has_room (pb_columns board) footprints) (pb_placements board) ∧
  Forall (on_board (pb_columns board) 0 (pb_rows board)) (pb_placements board) ∧
  (∀ i j p q x y, pb_placements board !! i = Some p → pb_placements board !! j = Some q → covers p x y → covers q x y → i = j).
Proof.
  cbn zeta. unfold packFieldFootprints. cbn [pb_placements pb_columns pb_rows]. set (b := Z.max 1 (Qfloor columns)). set (r := Z.max 0 (Qfloor minRows)).
  destruct (board_shelves b r footprints ltac:(lia)) as [Hs Ho]. set (l := growRows _ _) in *. clearbody l.
  assert (Forall (shelf_ok b) l ∧ Forall (bricks_fit b footprints) l) as [Hs1 Hs2] by (split; eapply Forall_impl; [exact Hs|..|exact Hs|]; naive_solver).
  destruct (placements_ok b footprints 0 l Hs1) as [Hsort Hon]. split; [done|]. split; [by rewrite placements_indices|].
  split; [eapply Forall_impl; [by apply placements_fit|]; intros i; apply fits_has_room; lia|]. split.
  - eapply Forall_impl; [exact Hon|]. unfold on_board. intros. lia.
  - intros i j p q x y. by apply sorted_apart.
Qed.

Lemma row_width_above footprints top row shelves : Forall (λ s, 1 <= sh_height s) shelves → row < top →
  filter (λ p, pl_row p = row) (placements footprints top shelves) = [].
Proof.
  intros Hs. revert top. induction Hs as [|s l Hs _ IH]; intros top Ht; cbn [placements]; [done|]. rewrite filter_app, IH by lia. rewrite app_nil_r.
  induction (sh_items s) as [|i k IHk]; cbn [map]; [done|]. rewrite filter_cons_False; [done|]. cbn. lia.
Qed.

Lemma row_of_shelf footprints row height l : filter (λ p, pl_row p = row) (map (placed footprints row height) l) = map (placed footprints row height) l.
Proof. induction l as [|i l IH]; cbn [map]; [done|]. rewrite filter_cons_True by done. by rewrite IH. Qed.

Lemma row_other footprints row row' height l : row ≠ row' → filter (λ p, pl_row p = row) (map (placed footprints row' height) l) = [].
Proof. intros Hr. induction l as [|i l IH]; cbn [map]; [done|]. rewrite filter_cons_False; [done|]. cbn. congruence. Qed.

Lemma full_rows b footprints top shelves p : Forall (λ s, shelf_ok b s ∧ bricks_fit b footprints s ∧ widthOf (sh_items s) = b) shelves →
  p ∈ placements footprints top shelves → widthOf (filter (λ q, pl_row q = pl_row p) (placements footprints top shelves)) = b.
Proof.
  intros Hs. revert top. induction Hs as [|s l (Hs & _ & Hw) Hl IH]; intros top; cbn [placements]; [by intros ?%elem_of_nil|].
  assert (Forall (λ s, 1 <= sh_height s) l) as Hh by (eapply Forall_impl; [exact Hl|]; intros t (Ht & _); by eapply shelf_height_pos).
  pose proof (shelf_height_pos _ _ Hs) as Hp. rewrite filter_app, widthOf_app. intros [Hin|Hin]%elem_of_app.
  - apply list_elem_of_fmap in Hin as (i & -> & _). cbn [placed pl_row]. rewrite row_of_shelf, row_width_above by (done || lia). cbn [widthOf foldr].
    rewrite <- Hw, Z.add_0_r. clear. induction (sh_items s) as [|j k IHk]; cbn [map widthOf foldr placed pl_w]; [done|]. fold (widthOf k). by rewrite <- IHk.
  - rewrite row_other; [cbn; by apply IH|]. assert (Forall (shelf_ok b) l) as Hok by (eapply Forall_impl; [exact Hl|]; naive_solver).
    destruct (placements_ok b footprints (top + sh_height s) l Hok) as [_ Hon]. rewrite Forall_forall in Hon. destruct (Hon p Hin) as (_ & _ & _ & ? & _). lia.
Qed.

(** The bricks of a row take all its columns: none is left empty beside them. *)
Theorem rows_are_full footprints columns minRows p :
  p ∈ pb_placements (packFieldFootprints footprints columns minRows) →
  widthOf (filter (λ q, pl_row q = pl_row p) (pb_placements (packFieldFootprints footprints columns minRows))) = Z.max 1 (Qfloor columns).
Proof.
  unfold packFieldFootprints. cbn [pb_placements]. set (b := Z.max 1 (Qfloor columns)). set (r := Z.max 0 (Qfloor minRows)).
  destruct (board_shelves b r footprints ltac:(lia)) as [Hs _]. by apply full_rows.
Qed.

Lemma rows_are_full_witness :
  let board := packFieldFootprints [short; short; short] 6 0 in
  ∀ p, head (pb_placements board) = Some p → widthOf (filter (λ q, pl_row q = pl_row p) (pb_placements board)) = 6.
Proof. intros board p Hp. apply (rows_are_full [short; short; short] 6 0 p). vm_compute in Hp. injection Hp as <-. vm_compute. left. Defined.

(** A board has room for a whole number of half-width bricks, for two at least, whatever the
    width of the node and the size of a cell are. *)
Theorem board_has_whole_halves width cellSize : ∃ k, 2 <= k ∧ configBoardColumns (NFin width) cellSize = num (k * HALF_WIDTH_CELLS).
Proof.
  unfold configBoardColumns. destruct (clampCellSize_cell cellSize) as (cell & -> & Hc). rewrite num_mul_num, math_max_num.
  assert (∃ w, math_max (num 0) (NFin width) = NFin w) as [w ->] by (unfold math_max, num, num_compare; destruct (Qcompare _ _); by eexists).
  unfold MIN_HALF_BRICK_PX. rewrite num_div_cell by lia. cbn [math_floor]. set (f := Qfloor _). clearbody f.
  change (STANDARD_NODE_WIDTH_CELLS / HALF_WIDTH_CELLS) with 2. rewrite math_max_num, num_mul_num, math_max_num.
  exists (Z.max 2 f). split; [lia|]. f_equal. unfold CONFIG_BOARD_COLUMNS_MIN. change HALF_WIDTH_CELLS with 3. lia.
Qed.
