(* ===== verification/Docking.v ===== *)
(** * Docked connections ([canvas/edges/docked-connection.ts])

    Two cards that stand side by side with facing handles are joined: the wire between them is
    drawn as a bridge.  Which edges of a canvas are docked, and which handles.  The renderer's nodes
    are given with the bounds it measured; a side of a node is [Position] of the renderer. *)

From stdpp Require Import gmap strings numbers list.
From S2P Require Import Prelude Js JsNum GraphModel Handles Canvas GridLayout.
#[local] Open Scope string_scope.
#[local] Open Scope list_scope.

Definition PORT_SLOT : Z := 30.
Definition PORT_GAP : Z := 8.
Definition PORT_CENTER_REACH : Z := PORT_GAP + PORT_SLOT / 2.

Definition DOCK_GAP_CELLS : jsnum := NFin (Q2Qc (6 # 10)).
Definition DOCK_ALIGN_CELLS : jsnum := NFin (Q2Qc (45 # 100)).
Definition DOCK_OVERLAP_PX : jsnum := num 16.

Definition dockedHandleKey (nodeId handleId : string) : string := nodeId +:+ "::" +:+ handleId.

Inductive Side := side_left | side_right | side_top | side_bottom.
#[export] Instance Side_eq_dec : EqDecision Side.
Proof. solve_decision. Defined.

Definition connectionIsDocked (source target : GraphPoint) (sourcePosition targetPosition : Side) (cellSize : jsnum) (sourceDegree targetDegree : nat) : bool :=
  if negb (bool_decide (sourceDegree = 1)) || negb (bool_decide (targetDegree = 1)) then false
  else if negb (bool_decide (sourcePosition = side_right)) || negb (bool_decide (targetPosition = side_left)) then false
  else
    let dx := num_add (num_sub (pt_x target) (pt_x source)) (num (2 * PORT_CENTER_REACH)) in
    let dy := math_abs (num_sub (pt_y target) (pt_y source)) in
    if num_ltb dx (num_neg DOCK_OVERLAP_PX) then false
    else if num_gtb dx (num_mul cellSize DOCK_GAP_CELLS) then false
    else if num_gtb dy (num_mul cellSize DOCK_ALIGN_CELLS) then false
    else true.

Record BridgeLayout := { bl_anchor : GraphPoint; bl_width : jsnum; bl_height : jsnum }.

Definition dockedBridgeLayout (source target : GraphPoint) (cellSize : jsnum) : BridgeLayout :=
  let gap := math_abs (num_sub (pt_x target) (pt_x source)) in
  {| bl_anchor := {| pt_x := num_div (num_add (pt_x source) (pt_x target)) (num 2); pt_y := num_div (num_add (pt_y source) (pt_y target)) (num 2) |};
     bl_width := math_max (num_mul cellSize (num EDGE_SELECTOR_WIDTH_CELLS)) (num_add gap cellSize);
     bl_height := num EDGE_SELECTOR_PILL_HEIGHT |}.

Record DockedGraphEdge := {
  de_id : string;
  de_type : option string;
  de_source : string;
  de_target : string;
  de_sourceHandle : option string;
  de_targetHandle : option string
}.

Record DockedHandleBounds := { hb_id : option string; hb_x : jsnum; hb_y : jsnum; hb_width : jsnum; hb_height : jsnum; hb_position : option Side }.

Record DockedGraphNode := { dg_positionAbsolute : GraphPoint; dg_source : list DockedHandleBounds; dg_target : list DockedHandleBounds }.

Inductive End := end_source | end_target.

Definition halfOf (a : jsnum) : jsnum := num_div a (num 2).

Definition handleCenter (node : option DockedGraphNode) (handleId : option string) (type : End) : option (GraphPoint * Side) :=
  n ← node; h ← truthy handleId;
  handle ← find (λ candidate, bool_decide (hb_id candidate = Some h)) (match type with end_source => dg_source n | end_target => dg_target n end);
  Some ({| pt_x := num_add (num_add (pt_x (dg_positionAbsolute n)) (hb_x handle)) (halfOf (hb_width handle));
           pt_y := num_add (num_add (pt_y (dg_positionAbsolute n)) (hb_y handle)) (halfOf (hb_height handle)) |},
        default (match type with end_source => side_right | end_target => side_left end) (hb_position handle)).

Definition endpointKey (nodeId : string) (handleId : option string) (e : End) : string :=
  (match e with end_source => "source" | end_target => "target" end) +:+ ":" +:+ nodeId +:+ ":" +:+ default "" handleId.

Definition isPlugHandle (handleId : option string) : bool := bool_decide (is_Some (truthy (decodeHandleId handleId ≫= plugId))).

Definition dockableEdge (dockableTypes : list string) (e : DockedGraphEdge) : bool :=
  match truthy (de_type e) with Some t => bool_decide (t ∈ dockableTypes) | None => false end &&
  negb (isPlugHandle (de_sourceHandle e)) && negb (isPlugHandle (de_targetHandle e)).

Definition sourceKey (e : DockedGraphEdge) : string := endpointKey (de_source e) (de_sourceHandle e) end_source.
Definition targetKey (e : DockedGraphEdge) : string := endpointKey (de_target e) (de_targetHandle e) end_target.

Definition increment (k : string) (degree : gmap string nat) : gmap string nat := <[k := default 0 (degree !! k) + 1]> degree.

Definition degreesOf (dockable : list DockedGraphEdge) : gmap string nat :=
  foldl (λ m e, increment (targetKey e) (increment (sourceKey e) m)) ∅ dockable.

(** Whether the loop keeps an edge, and with which handles. *)
Definition docks (nodes : gmap string DockedGraphNode) (cellSize : jsnum) (degree : gmap string nat) (e : DockedGraphEdge) : option (string * string) :=
  s ← handleCenter (nodes !! de_source e) (de_sourceHandle e) end_source;
  t ← handleCenter (nodes !! de_target e) (de_targetHandle e) end_target;
  sourceHandle ← truthy (de_sourceHandle e);
  targetHandle ← truthy (de_targetHandle e);
  if connectionIsDocked s.1 t.1 s.2 t.2 cellSize (default 0 (degree !! sourceKey e)) (default 0 (degree !! targetKey e))
  then Some (dockedHandleKey (de_source e) sourceHandle, dockedHandleKey (de_target e) targetHandle)
  else None.

Definition dockedConnections (edges : list DockedGraphEdge) (nodes : gmap string DockedGraphNode) (cellSize : jsnum) (dockableTypes : list string) : list string * list string :=
  let dockable := filter (λ e, dockableEdge dockableTypes e = true) edges in
  let degree := degreesOf dockable in
  let kept := omap (λ e, (λ ks, (de_id e, ks)) <$> docks nodes cellSize degree e) dockable in
  (js_set (map fst kept), js_set (concat (map (λ k, [k.2.1; k.2.2]) kept))).

(** ** Degrees *)

Lemma keys_apart e e' : sourceKey e ≠ targetKey e'.
Proof. discriminate. Qed.

(** How many edges have a key at one of their ends. *)
Definition countKey (k : string) (l : list DockedGraphEdge) : nat := length (filter (λ e, sourceKey e = k ∨ targetKey e = k) l).

Lemma increment_get k m k' : default 0 (increment k m !! k') = default 0 (m !! k') + (if bool_decide (k = k') then 1 else 0).
Proof. unfold increment. case_bool_decide as E; [subst; by rewrite lookup_insert_eq|]. rewrite lookup_insert_ne by done. lia. Qed.

Lemma degree_counts l k : default 0 (degreesOf l !! k) = countKey k l.
Proof.
  unfold degreesOf, countKey. induction l as [|e l IH] using rev_ind; [done|]. rewrite foldl_app, filter_app, length_app. cbn [foldl].
  rewrite !increment_get, IH, filter_cons, filter_nil. pose proof (keys_apart e e) as Hne.
  repeat case_bool_decide; case_decide; cbn [length]; try lia; exfalso; [congruence|naive_solver..].
Qed.

Lemma one_of_a_kind (P : DockedGraphEdge → Prop) `{∀ e, Decision (P e)} l i j a b : length (filter P l) = 1 → l !! i = Some a → l !! j = Some b → P a → P b → i = j.
Proof.
  revert i j. induction l as [|e l IH]; intros i j; [done|]. rewrite filter_cons. destruct (decide (P e)) as [He|He]; cbn [length].
  - intros [= Hl%length_zero_iff_nil]. destruct i as [|i], j as [|j]; cbn; [done|..]; intros Hi Hj Ha Hb; exfalso.
    + assert (b ∈ filter P l) as Hin by (apply list_elem_of_filter; split; [done|by eapply list_elem_of_lookup_2]). rewrite Hl in Hin. by apply elem_of_nil in Hin.
    + assert (a ∈ filter P l) as Hin by (apply list_elem_of_filter; split; [done|by eapply list_elem_of_lookup_2]). rewrite Hl in Hin. by apply elem_of_nil in Hin.
    + assert (a ∈ filter P l) as Hin by (apply list_elem_of_filter; split; [done|by eapply list_elem_of_lookup_2]). rewrite Hl in Hin. by apply elem_of_nil in Hin.
  - intros Hl. destruct i as [|i], j as [|j]; cbn; [done|..]; intros Hi Hj Ha Hb; [congruence..|]. f_equal. by eapply IH.
Qed.

Lemma docked_degrees nodes cellSize degree e ks : docks nodes cellSize degree e = Some ks → default 0 (degree !! sourceKey e) = 1 ∧ default 0 (degree !! targetKey e) = 1.
Proof.
  unfold docks. intros (s & _ & (t & _ & (sh & _ & (th & _ & Hd)%bind_Some)%bind_Some)%bind_Some)%bind_Some.
  unfold connectionIsDocked in Hd. repeat case_bool_decide; done.
Qed.

(** Exactly these edges are docked: the dockable ones whose ends are measured, face each other
    closely, and serve no other dockable edge. *)
Theorem docked_edges_are_exactly edges nodes cellSize dockableTypes i :
  let dockable := filter (λ e, dockableEdge dockableTypes e = true) edges in
  i ∈ (dockedConnections edges nodes cellSize dockableTypes).1 ↔
  ∃ e s t, e ∈ edges ∧ de_id e = i ∧ dockableEdge dockableTypes e = true ∧
    handleCenter (nodes !! de_source e) (de_sourceHandle e) end_source = Some s ∧ handleCenter (nodes !! de_target e) (de_targetHandle e) end_target = Some t ∧
    connectionIsDocked s.1 t.1 s.2 t.2 cellSize (countKey (sourceKey e) dockable) (countKey (targetKey e) dockable) = true.
Proof.
  cbn zeta. unfold dockedConnections. cbn [fst]. set (dockable := filter _ edges). rewrite js_set_spec. split.
  - intros ([j ks] & -> & (e & He & (ks' & Hd & [= -> ->])%fmap_Some)%list_elem_of_omap)%list_elem_of_fmap. apply list_elem_of_filter in He as [Hdk He].
    unfold docks in Hd. apply bind_Some in Hd as (s & Hs & Hd). apply bind_Some in Hd as (t & Ht & Hd). apply bind_Some in Hd as (sh & _ & Hd). apply bind_Some in Hd as (th & _ & Hd).
    exists e, s, t. rewrite !degree_counts in Hd. destruct (connectionIsDocked _ _ _ _ _ _ _); done.
  - intros (e & s & t & He & <- & Hdk & Hs & Ht & Hd). assert (∀ n h k r, handleCenter n h k = Some r → ∃ x, truthy h = Some x) as Htr.
    { intros n h k r (x & _ & (y & Hy & _)%bind_Some)%bind_Some. by exists y. }
    destruct (Htr _ _ _ _ Hs) as [sh Hsh]. destruct (Htr _ _ _ _ Ht) as [th Hth].
    apply list_elem_of_fmap. exists (de_id e, (dockedHandleKey (de_source e) sh, dockedHandleKey (de_target e) th)). split; [done|].
    apply list_elem_of_omap. exists e. split; [by apply list_elem_of_filter|]. unfold docks. rewrite Hs, Ht. cbn [mbind option_bind]. rewrite Hsh, Hth. cbn [mbind option_bind].
    rewrite !degree_counts, Hd. done.
Qed.

(** No handle is docked twice: two docked edges share neither their source nor their target. *)
Theorem docked_edges_share_no_end edges nodes cellSize dockableTypes i j a b ka kb :
  let dockable := filter (λ e, dockableEdge dockableTypes e = true) edges in
  dockable !! i = Some a → dockable !! j = Some b →
  docks nodes cellSize (degreesOf dockable) a = Some ka → docks nodes cellSize (degreesOf dockable) b = Some kb →
  sourceKey a = sourceKey b ∨ targetKey a = targetKey b → i = j.
Proof.
  intros dockable Hi Hj [Hsa Hta]%docked_degrees _. rewrite degree_counts in Hsa, Hta. unfold countKey in *. intros [Heq|Heq].
  - eapply (one_of_a_kind _ dockable i j a b Hsa Hi Hj); [by left|left; congruence].
  - eapply (one_of_a_kind _ dockable i j a b Hta Hi Hj); [by right|right; congruence].
Qed.
