(* ===== verification/EdgeRoutes.v ===== *)
(** * Routes of edges ([canvas/edges/edge-path.ts], [useEdgeFanOffsets.ts], [useEdgeRouteBend.ts])

    Edges that share a handle fan out, each edge is a curve through an anchor that a person may drag,
    and the anchor snaps to the grid.  [Math.sqrt], the collation and the text of a number are
    parameters; nodes are given with the bounds that the renderer measured.  The cache of offsets by
    the identity of the renderer's state holds what a computation would give, and is left out. *)

From stdpp Require Import gmap strings numbers list.
From Stdlib Require Import QArith.Qcanon QArith.Qround Field Lqa.
From S2P Require Import Prelude Js JsNum GraphModel Handles Routes RoutesTheory Canvas Grouping GridLayout Docking.
#[local] Open Scope string_scope.
#[local] Open Scope list_scope.
#[local] Open Scope nat_scope.

Record EdgeFanEndpoint := {
  ef_id : string;
  ef_source : string;
  ef_target : string;
  ef_sourceHandle : jsopt string;
  ef_targetHandle : jsopt string
}.

Record EdgeFanOffsets := { fo_source : jsnum; fo_target : jsnum }.

Inductive FanSortAxis := axis_x | axis_y.

Definition FAN_SPACING : Z := 7.
Definition EXIT_RUN_MIN : Z := 36.
Definition EXIT_RUN_MAX : Z := 90.
Definition EXIT_RUN_PER_CROSS : jsnum := NFin (Q2Qc (1 # 4)).

Definition midpoint (left right : GraphPoint) : GraphPoint :=
  {| pt_x := num_div (num_add (pt_x left) (pt_x right)) (num 2); pt_y := num_div (num_add (pt_y left) (pt_y right)) (num 2) |}.

Definition exitRun (cross : jsnum) : jsnum := math_min (num EXIT_RUN_MAX) (math_max (num EXIT_RUN_MIN) (num_mul (math_abs cross) EXIT_RUN_PER_CROSS)).

Definition fanSlotOffset (index count : nat) (spacing : jsnum) : jsnum :=
  if count <=? 1 then num 0 else num_mul (num_sub (num (Z.of_nat index)) (num_div (num (Z.of_nat count - 1)) (num 2))) spacing.

Definition fanSortAxis (position : Side) : FanSortAxis := match position with side_left | side_right => axis_y | _ => axis_x end.

Definition applyHandleFanOffset (point : GraphPoint) (position : Side) (offset : jsnum) : GraphPoint :=
  if bool_decide (offset = num 0) then point
  else
    match position with
    | side_left | side_right => {| pt_x := pt_x point; pt_y := num_add (pt_y point) offset |}
    | side_top | side_bottom => {| pt_x := num_add (pt_x point) offset; pt_y := pt_y point |}
    end.

(** ** Groups of edges at a handle *)

(** [m.set(k, f(m.get(k)))] of a [Map]. *)
Fixpoint map_update {K V} `{EqDecision K} (k : K) (f : option V → V) (m : list (K * V)) : list (K * V) :=
  match m with
  | [] => [(k, f None)]
  | kv :: rest => if bool_decide (kv.1 = k) then (k, f (Some kv.2)) :: rest else kv :: map_update k f rest
  end.

Definition fanNode (endpoint : End) (e : EdgeFanEndpoint) : string := match endpoint with end_source => ef_source e | end_target => ef_target e end.
Definition fanHandle (endpoint : End) (e : EdgeFanEndpoint) : jsopt string := match endpoint with end_source => ef_sourceHandle e | end_target => ef_targetHandle e end.

Definition addToFan (endpoint : End) (groups : list (string * list (jsopt string * list EdgeFanEndpoint))) (e : EdgeFanEndpoint) :=
  map_update (fanNode endpoint e) (λ byHandle, map_update (fanHandle endpoint e) (λ group, default [] group ++ [e]) (default [] byHandle)) groups.

Definition fanGroups (edges : list EdgeFanEndpoint) (endpoint : End) : list (list EdgeFanEndpoint) :=
  concat (map (λ byHandle, map snd byHandle.2) (foldl (addToFan endpoint) [] edges)).

(** ** Offsets *)

Section routes_of_edges.
Context (localeCompare : string → string → Z).

Definition axisOf (axis : FanSortAxis) (p : option GraphPoint) : jsnum :=
  match p with Some p => (match axis with axis_x => pt_x p | axis_y => pt_y p end) | None => num 0 end.

(** The sign of [left - right]. *)
Definition differenceSign (left right : jsnum) : Z := match num_compare left right with Some Lt => -1 | Some Gt => 1 | _ => 0 end.
Definition differs (left right : jsnum) : bool := match num_compare left right with Some Eq => false | _ => true end.

Definition compareFanOrder (leftPoint rightPoint : option GraphPoint) (axis : FanSortAxis) (leftId rightId : string) : Z :=
  let cross := match axis with axis_x => axis_y | axis_y => axis_x end in
  if differs (axisOf axis leftPoint) (axisOf axis rightPoint) then differenceSign (axisOf axis leftPoint) (axisOf axis rightPoint)
  else if differs (axisOf cross leftPoint) (axisOf cross rightPoint) then differenceSign (axisOf cross leftPoint) (axisOf cross rightPoint)
  else localeCompare leftId rightId.

Definition fanOrder (points : gmap string GraphPoint) (axis : FanSortAxis) (left right : EdgeFanEndpoint) : Z :=
  compareFanOrder (points !! ef_id left) (points !! ef_id right) axis (ef_id left) (ef_id right).

Definition setEnd (endpoint : End) (v : jsnum) (o : EdgeFanOffsets) : EdgeFanOffsets :=
  match endpoint with end_source => {| fo_source := v; fo_target := fo_target o |} | end_target => {| fo_source := fo_source o; fo_target := v |} end.

(** The slots of one group, in its order. *)
Definition groupSlots (points : gmap string GraphPoint) (axis : FanSortAxis) (spacing : jsnum) (group : list EdgeFanEndpoint) : list (string * jsnum) :=
  let sorted := js_sort (fanOrder points axis) group in
  imap (λ index e, (ef_id e, fanSlotOffset index (length sorted) spacing)) sorted.

Definition fanEnd (edges : list EdgeFanEndpoint) (endpoint : End) (points : gmap string GraphPoint) (axis : FanSortAxis) (spacing : jsnum)
    (offsets : gmap string EdgeFanOffsets) : gmap string EdgeFanOffsets :=
  foldl (λ m group, foldl (λ m slot, alter (setEnd endpoint slot.2) slot.1 m) m (groupSlots points axis spacing group)) offsets (fanGroups edges endpoint).

Definition edgeFanOffsetsById (edges : list EdgeFanEndpoint) (sourceOrderPoints targetOrderPoints : gmap string GraphPoint) (sourceAxis targetAxis : FanSortAxis) (spacing : jsnum) : gmap string EdgeFanOffsets :=
  let offsetsById := foldl (λ m e, <[ef_id e := {| fo_source := num 0; fo_target := num 0 |}]> m) ∅ edges in
  fanEnd edges end_target targetOrderPoints targetAxis spacing (fanEnd edges end_source sourceOrderPoints sourceAxis spacing offsetsById).

Definition edgeFanOffsets (edges : list EdgeFanEndpoint) (edgeId : string) (sourceOrderPoints targetOrderPoints : gmap string GraphPoint) (sourceAxis targetAxis : FanSortAxis) (spacing : jsnum) : EdgeFanOffsets :=
  default {| fo_source := num 0; fo_target := num 0 |} (edgeFanOffsetsById edges sourceOrderPoints targetOrderPoints sourceAxis targetAxis spacing !! edgeId).

(** A measured node: where it stands, its size and its handles. *)
Record MeasuredNode := { me_position : GraphPoint; me_width : option jsnum; me_height : option jsnum; me_source : list DockedHandleBounds; me_target : list DockedHandleBounds }.

Definition jsopt_truthy (s : jsopt string) : option string := truthy (jsopt_to_option s).

Definition handlePoint (node : option MeasuredNode) (handleId : jsopt string) (handleType : End) : option GraphPoint :=
  n ← node;
  let origin := me_position n in
  match (h ← jsopt_truthy handleId; find (λ candidate, bool_decide (hb_id candidate = Some h)) (match handleType with end_source => me_source n | end_target => me_target n end)) with
  | Some handle =>
      Some {| pt_x := num_add (num_add (pt_x origin) (hb_x handle)) (halfOf (hb_width handle)); pt_y := num_add (num_add (pt_y origin) (hb_y handle)) (halfOf (hb_height handle)) |}
  | None =>
      Some {| pt_x := num_add (pt_x origin) (halfOf (default (num 0) (me_width n))); pt_y := num_add (pt_y origin) (halfOf (default (num 0) (me_height n))) |}
  end.

Definition orderPointsForEdges (edges : list EdgeFanEndpoint) (nodeLookup : gmap string MeasuredNode) (far : End) : gmap string GraphPoint :=
  foldl (λ points e, match handlePoint (nodeLookup !! fanNode far e) (fanHandle far e) far with Some p => <[ef_id e := p]> points | None => points end) ∅ edges.

Definition fanOffsetsForState (edges : list EdgeFanEndpoint) (nodeLookup : gmap string MeasuredNode) (sourceAxis targetAxis : FanSortAxis) : gmap string EdgeFanOffsets :=
  edgeFanOffsetsById edges (orderPointsForEdges edges nodeLookup end_target) (orderPointsForEdges edges nodeLookup end_source) sourceAxis targetAxis (num FAN_SPACING).

Definition useEdgeFanOffsets (edges : list EdgeFanEndpoint) (nodeLookup : gmap string MeasuredNode) (edgeId : string) (sourcePosition targetPosition : Side) : EdgeFanOffsets :=
  default {| fo_source := num 0; fo_target := num 0 |} (fanOffsetsForState edges nodeLookup (fanSortAxis sourcePosition) (fanSortAxis targetPosition) !! edgeId).

End routes_of_edges.

(** ** Curves *)

(** [Math.sqrt]: of a positive number it is a number that is not negative. *)
Class SquareRoot (sqrt : jsnum → jsnum) := {
  sqrt_positive q : (0 < this q)%Q → ∃ r, sqrt (NFin q) = NFin r ∧ (0 <= this r)%Q
}.

Section curves.
Context (sqrt : jsnum → jsnum) (numberText : jsnum → string).

Definition controlOffset (distance : jsnum) : jsnum :=
  if num_geb distance (num 0) then num_div distance (num 2) else num_mul (NFin (Q2Qc (625 # 100))) (sqrt (num_neg distance)).

Definition bezierControlPoint (position : Side) (start end_ : GraphPoint) : GraphPoint :=
  let crossX := num_sub (pt_x end_) (pt_x start) in
  let crossY := num_sub (pt_y end_) (pt_y start) in
  match position with
  | side_left => {| pt_x := num_sub (pt_x start) (math_max (exitRun crossY) (controlOffset (num_sub (pt_x start) (pt_x end_)))); pt_y := pt_y start |}
  | side_right => {| pt_x := num_add (pt_x start) (math_max (exitRun crossY) (controlOffset (num_sub (pt_x end_) (pt_x start)))); pt_y := pt_y start |}
  | side_top => {| pt_x := pt_x start; pt_y := num_sub (pt_y start) (math_max (exitRun crossX) (controlOffset (num_sub (pt_y start) (pt_y end_)))) |}
  | side_bottom => {| pt_x := pt_x start; pt_y := num_add (pt_y start) (math_max (exitRun crossX) (controlOffset (num_sub (pt_y end_) (pt_y start)))) |}
  end.

Definition addPoints (p q : GraphPoint) : GraphPoint := {| pt_x := num_add (pt_x p) (pt_x q); pt_y := num_add (pt_y p) (pt_y q) |}.
Definition subPoints (p q : GraphPoint) : GraphPoint := {| pt_x := num_sub (pt_x p) (pt_x q); pt_y := num_sub (pt_y p) (pt_y q) |}.

(** The two cubics of a route: the points between the ends, in the order of the path. *)
Record Route := { ro_first : GraphPoint; ro_before : GraphPoint; ro_anchor : GraphPoint; ro_after : GraphPoint; ro_last : GraphPoint }.

Definition routeThrough (source target sourceControl targetControl routeOffset : GraphPoint) : Route :=
  let sourceHalfControl := midpoint source sourceControl in
  let controlMidpoint := midpoint sourceControl targetControl in
  let targetHalfControl := midpoint targetControl target in
  let sourceAnchorControl := midpoint sourceHalfControl controlMidpoint in
  let targetAnchorControl := midpoint controlMidpoint targetHalfControl in
  let naturalAnchor := midpoint sourceAnchorControl targetAnchorControl in
  {| ro_first := sourceHalfControl; ro_before := addPoints sourceAnchorControl routeOffset; ro_anchor := addPoints naturalAnchor routeOffset;
     ro_after := addPoints targetAnchorControl routeOffset; ro_last := targetHalfControl |}.

Definition pointText (p : GraphPoint) : string := numberText (pt_x p) +:+ "," +:+ numberText (pt_y p).

Definition routedBezierPath (source target : GraphPoint) (sourcePosition targetPosition : Side) (routeOffset : GraphPoint) : GraphPoint * string :=
  let r := routeThrough source target (bezierControlPoint sourcePosition source target) (bezierControlPoint targetPosition target source) routeOffset in
  (ro_anchor r,
   Js.join " " ["M" +:+ pointText source; "C" +:+ pointText (ro_first r); pointText (ro_before r); pointText (ro_anchor r);
                "C" +:+ pointText (ro_after r); pointText (ro_last r); pointText target]).

End curves.

(** ** Bending *)

(** What an edge shows while it is bent: the anchor of its natural curve, whether one of its nodes is
    being dragged, the grid with whether snapping is bypassed, the zoom, and whether it may be edited. *)
Record EdgeView := { ev_natural : GraphPoint; ev_endpointDragging : bool; ev_grid : option (CanvasGridSettings * bool); ev_zoom : jsnum; ev_editable : bool }.

Record BendDrag := { bd_grab : GraphPoint; bd_latest : GraphPoint; bd_pointerId : nat }.

(** The offset of the document, the draft, and the drag. *)
Record Bend := { be_saved : GraphPoint; be_draft : option GraphPoint; be_drag : option BendDrag }.

Definition snapOffset (v : EdgeView) (offset : GraphPoint) (dragging : bool) : GraphPoint :=
  match ev_grid v with
  | Some (settings, bypass) => if shouldSnapPosition settings dragging bypass then snapEdgeSelectorRouteOffset (ev_natural v) offset (gs_cellSize settings) else offset
  | None => offset
  end.

Definition useResolvedEdgeRouteOffset (v : EdgeView) (rawOffset : GraphPoint) (dragging : bool) : GraphPoint := snapOffset v rawOffset (dragging || ev_endpointDragging v).

Definition routeOffsetOf (v : EdgeView) (b : Bend) : GraphPoint :=
  useResolvedEdgeRouteOffset v (default (be_saved b) (be_draft b)) (bool_decide (is_Some (be_draft b))).

(** The anchor of the curve with this offset ([bent_route_is_smooth]). *)
Definition anchorOf (v : EdgeView) (b : Bend) : GraphPoint := addPoints (ev_natural v) (routeOffsetOf v b).

Definition with_draft (d : option GraphPoint) (b : Bend) : Bend := {| be_saved := be_saved b; be_draft := d; be_drag := be_drag b |}.
Definition with_bendDrag (d : option BendDrag) (b : Bend) : Bend := {| be_saved := be_saved b; be_draft := be_draft b; be_drag := d |}.

(** [onRouteOffsetChange], which is there when the edge may be edited. *)
Definition commitOffset (v : EdgeView) (offset : GraphPoint) (b : Bend) : Bend :=
  if ev_editable v then {| be_saved := offset; be_draft := be_draft b; be_drag := be_drag b |} else b.

Definition origin : GraphPoint := {| pt_x := num 0; pt_y := num 0 |}.

Definition bendDoubleClick (v : EdgeView) (b : Bend) : Bend := commitOffset v (snapOffset v origin false) b.

Inductive BendKey := bk_home | bk_left | bk_right | bk_up | bk_down.

Definition keyStep (v : EdgeView) (shiftKey : bool) : jsnum :=
  match ev_grid v with
  | Some (settings, bypass) =>
      if shouldSnapPosition settings false bypass
      then (let pitch := edgeSelectorSnapPitch (gs_cellSize settings) in if shiftKey then num_mul pitch (num 2) else pitch)
      else num_div (num (if shiftKey then 24 else 8)) (math_max (ev_zoom v) (NFin (Q2Qc (1 # 100))))
  | None => num_div (num (if shiftKey then 24 else 8)) (math_max (ev_zoom v) (NFin (Q2Qc (1 # 100))))
  end.

Definition bendKeyDown (v : EdgeView) (key : BendKey) (shiftKey : bool) (b : Bend) : Bend :=
  let saved := be_saved b in
  let step := keyStep v shiftKey in
  let nextOffset :=
    match key with
    | bk_home => origin
    | bk_left => {| pt_x := num_sub (pt_x saved) step; pt_y := pt_y saved |}
    | bk_right => {| pt_x := num_add (pt_x saved) step; pt_y := pt_y saved |}
    | bk_up => {| pt_x := pt_x saved; pt_y := num_sub (pt_y saved) step |}
    | bk_down => {| pt_x := pt_x saved; pt_y := num_add (pt_y saved) step |}
    end in
  commitOffset v (snapOffset v nextOffset false) b.

(** [pointer] is where the pointer is on the canvas. *)
Definition bendPointerDown (v : EdgeView) (button pointerId : nat) (pointer : GraphPoint) (b : Bend) : Bend :=
  if negb (button =? 0) || negb (ev_editable v) then b
  else
    let startOffset := snapOffset v (routeOffsetOf v b) false in
    with_draft (Some startOffset)
      (with_bendDrag (Some {| bd_pointerId := pointerId; bd_grab := subPoints pointer (anchorOf v b); bd_latest := startOffset |}) b).

Definition bendDragOf (pointerId : nat) (b : Bend) : option BendDrag := d ← be_drag b; if bool_decide (bd_pointerId d = pointerId) then Some d else None.

Definition bendPointerMove (v : EdgeView) (pointerId : nat) (pointer : GraphPoint) (b : Bend) : Bend :=
  match bendDragOf pointerId b with
  | None => b
  | Some drag =>
      let nextOffset := subPoints (subPoints pointer (bd_grab drag)) (subPoints (anchorOf v b) (routeOffsetOf v b)) in
      let snapped := snapOffset v nextOffset true in
      with_draft (Some snapped) (with_bendDrag (Some {| bd_pointerId := bd_pointerId drag; bd_grab := bd_grab drag; bd_latest := snapped |}) b)
  end.

Definition bendPointerUp (v : EdgeView) (pointerId : nat) (b : Bend) : Bend :=
  match bendDragOf pointerId b with
  | None => b
  | Some drag => with_draft None (commitOffset v (snapOffset v (bd_latest drag) false) (with_bendDrag None b))
  end.

(** [onPointerCancel] and [onLostPointerCapture]. *)
Definition bendPointerCancel (pointerId : nat) (b : Bend) : Bend :=
  match bendDragOf pointerId b with None => b | Some _ => with_draft None (with_bendDrag None b) end.

(** ** Groups are the edges of one handle *)

Section groups.
Context {K V X : Type} `{EqDecision K}.

Definition assoc (k : K) (m : list (K * V)) : option V := snd <$> find (λ kv, bool_decide (kv.1 = k)) m.

Lemma assoc_update k f (m : list (K * V)) k' : assoc k' (map_update k f m) = if bool_decide (k = k') then Some (f (assoc k m)) else assoc k' m.
Proof.
  induction m as [|[a v] m IH]; cbn [map_update fst snd].
  - unfold assoc. cbn [find fst]. by case_bool_decide.
  - unfold assoc in *. destruct (decide (a = k)) as [->|Ha].
    + rewrite (bool_decide_true (k = k)) by done. cbn [find fst]. rewrite (bool_decide_true (k = k)) by done. by case_bool_decide.
    + rewrite (bool_decide_false (a = k)) by done. cbn [find fst]. rewrite (bool_decide_false (a = k)) by done. destruct (decide (a = k')) as [->|Ha'].
      * rewrite (bool_decide_true (k' = k')) by done. by rewrite bool_decide_false.
      * rewrite (bool_decide_false (a = k')) by done. exact IH.
Qed.

Lemma assoc_in k v (m : list (K * V)) : assoc k m = Some v → ∃ k', (k', v) ∈ m.
Proof. unfold assoc. intros ((a & w) & Hf & [= <-])%fmap_Some. apply find_some in Hf as [Hin _]. exists a. by apply list_elem_of_In. Qed.

Lemma contents_update (contents : V → list X) k f x (m : list (K * V)) :
  (∀ o, contents (f o) ≡ₚ x :: from_option contents [] o) →
  concat (map (contents ∘ snd) (map_update k f m)) ≡ₚ x :: concat (map (contents ∘ snd) m).
Proof.
  intros Hf. induction m as [|[a v] m IH]; cbn [map_update map concat compose fst snd]; [by rewrite Hf|]. case_bool_decide; cbn [map concat compose snd].
  - by rewrite Hf.
  - rewrite IH. by rewrite Permutation_middle.
Qed.
End groups.

Definition sameHandle (endpoint : End) (e e' : EdgeFanEndpoint) : Prop := fanNode endpoint e' = fanNode endpoint e ∧ fanHandle endpoint e' = fanHandle endpoint e.

#[export] Instance sameHandle_dec endpoint e e' : Decision (sameHandle endpoint e e').
Proof. apply _. Defined.

Lemma group_read edges endpoint e :
  default [] (assoc (fanNode endpoint e) (foldl (addToFan endpoint) [] edges) ≫= assoc (fanHandle endpoint e)) = filter (sameHandle endpoint e) edges.
Proof.
  induction edges as [|x edges IH] using rev_ind; [done|]. rewrite foldl_app, filter_app. cbn [foldl]. unfold addToFan at 1. rewrite assoc_update.
  rewrite filter_cons, filter_nil. destruct (decide (sameHandle endpoint e x)) as [[Hn Hh]|Hne].
  - rewrite bool_decide_true by done. cbn [mbind option_bind]. rewrite assoc_update, bool_decide_true by done. cbn [default from_option]. rewrite <- IH, Hn, Hh. f_equal. by destruct (assoc _ _).
  - rewrite app_nil_r, <- IH. case_bool_decide as En; [|done]. cbn [mbind option_bind]. rewrite assoc_update, bool_decide_false by (intros Eh; by apply Hne). rewrite En. by destruct (assoc _ _).
Qed.

Lemma groups_hold_the_edges edges endpoint : concat (fanGroups edges endpoint) ≡ₚ edges.
Proof.
  unfold fanGroups. assert (∀ m : list (string * list (jsopt string * list EdgeFanEndpoint)), concat (concat (map (λ g, map snd g.2) m)) = concat (map ((λ b, concat (map (id ∘ snd) b)) ∘ snd) m)) as ->.
  { induction m as [|g m IH]; [done|]. cbn [map concat]. by rewrite concat_app, IH. }
  induction edges as [|e edges IH] using rev_ind; [done|]. rewrite foldl_app. cbn [foldl]. unfold addToFan at 1. rewrite (contents_update _ _ _ e), IH; [by rewrite Permutation_app_comm|].
  intros o. rewrite (contents_update id _ _ e); [by destruct o|]. intros o'. unfold id. rewrite Permutation_app_comm. by destruct o'.
Qed.

Lemma group_is_listed edges endpoint e : e ∈ edges → filter (sameHandle endpoint e) edges ∈ fanGroups edges endpoint.
Proof.
  intros Hin. pose proof (group_read edges endpoint e) as Hr. assert (e ∈ filter (sameHandle endpoint e) edges) as Hf by (apply list_elem_of_filter; split; done).
  destruct (assoc (fanNode endpoint e) _) as [byHandle|] eqn:Hn; [|cbn in Hr; rewrite <- Hr in Hf; by apply elem_of_nil in Hf]. cbn [mbind option_bind] in Hr.
  destruct (assoc (fanHandle endpoint e) byHandle) as [g|] eqn:Hh; [|cbn in Hr; rewrite <- Hr in Hf; by apply elem_of_nil in Hf]. cbn in Hr. subst g.
  apply assoc_in in Hn as (k & Hk), Hh as (h & Hh). unfold fanGroups. apply list_elem_of_In, in_concat. exists (map snd byHandle). split; [|].
  - apply in_map_iff. exists (k, byHandle). split; [done|]. by apply list_elem_of_In.
  - apply in_map_iff. exists (h, filter (sameHandle endpoint e) edges). split; [done|]. by apply list_elem_of_In.
Qed.

(** ** Fans *)

Lemma foldl_alter_ne endpoint (slots : list (string * jsnum)) (m : gmap string EdgeFanOffsets) k : k ∉ slots.*1 → foldl (λ m slot, alter (setEnd endpoint slot.2) slot.1 m) m slots !! k = m !! k.
Proof.
  revert m. induction slots as [|s slots IH]; intros m; [done|]. cbn [fmap list_fmap foldl]. intros Hk. apply not_elem_of_cons in Hk as [H1 H2]. rewrite IH by done. by rewrite lookup_alter_ne.
Qed.

Lemma foldl_alter_eq endpoint (slots : list (string * jsnum)) (m : gmap string EdgeFanOffsets) k v :
  NoDup slots.*1 → (k, v) ∈ slots → foldl (λ m slot, alter (setEnd endpoint slot.2) slot.1 m) m slots !! k = setEnd endpoint v <$> m !! k.
Proof.
  revert m. induction slots as [|s slots IH]; intros m; [intros _ H; by apply elem_of_nil in H|]. cbn [fmap list_fmap foldl]. intros Hnd Hin.
  apply NoDup_cons in Hnd as [Hs Hnd]. apply elem_of_cons in Hin as [<-|Hin].
  - rewrite foldl_alter_ne by done. cbn [fst snd]. by rewrite lookup_alter_eq.
  - rewrite (IH _ Hnd Hin). rewrite lookup_alter_ne; [done|]. intros E. apply Hs. apply list_elem_of_fmap. exists (k, v). by rewrite E.
Qed.

Lemma foldl_groups {S A B} (f : S → B → S) (g : A → list B) (groups : list A) (m : S) : foldl (λ m group, foldl f m (g group)) m groups = foldl f m (concat (map g groups)).
Proof. revert m. induction groups as [|a groups IH]; intros m; [done|]. cbn [foldl map concat]. by rewrite foldl_app, IH. Qed.

Section fans.
Context (localeCompare : string → string → Z).

Lemma slots_ids points axis spacing group : (groupSlots localeCompare points axis spacing group).*1 = ef_id <$> js_sort (fanOrder localeCompare points axis) group.
Proof.
  unfold groupSlots. cbv zeta. generalize (length (js_sort (fanOrder localeCompare points axis) group)) as n. generalize (js_sort (fanOrder localeCompare points axis) group) as l. intros l n. rewrite fmap_imap.
  rewrite <- (imap_const ef_id l). apply imap_ext. done.
Qed.

Lemma all_slots_ids edges endpoint points axis spacing : (concat (map (groupSlots localeCompare points axis spacing) (fanGroups edges endpoint))).*1 ≡ₚ ef_id <$> edges.
Proof.
  rewrite <- (groups_hold_the_edges edges endpoint) at 2. induction (fanGroups edges endpoint) as [|g groups IH]; [done|]. cbn [map concat]. rewrite !fmap_app, IH, slots_ids. by rewrite js_sort_perm.
Qed.

(** The edges of a handle in their order; the slot of an edge is where it stands in it. *)
Definition siblings (edges : list EdgeFanEndpoint) (endpoint : End) (points : gmap string GraphPoint) (axis : FanSortAxis) (e : EdgeFanEndpoint) : list EdgeFanEndpoint :=
  js_sort (fanOrder localeCompare points axis) (filter (sameHandle endpoint e) edges).

Lemma fanEnd_slot edges endpoint points axis spacing offsets e i : NoDup (ef_id <$> edges) → e ∈ edges → siblings edges endpoint points axis e !! i = Some e →
  fanEnd localeCompare edges endpoint points axis spacing offsets !! ef_id e =
  setEnd endpoint (fanSlotOffset i (length (siblings edges endpoint points axis e)) spacing) <$> offsets !! ef_id e.
Proof.
  intros Hnd Hin Hi. unfold fanEnd. rewrite foldl_groups. apply foldl_alter_eq.
  - by rewrite all_slots_ids.
  - apply list_elem_of_In, in_concat. exists (groupSlots localeCompare points axis spacing (filter (sameHandle endpoint e) edges)). split.
    + apply in_map_iff. exists (filter (sameHandle endpoint e) edges). split; [done|]. apply list_elem_of_In. by apply group_is_listed.
    + apply list_elem_of_In. unfold groupSlots. apply elem_of_lookup_imap. eexists i, e. split; [|exact Hi]. done.
Qed.

Lemma initial_offsets edges e (m : gmap string EdgeFanOffsets) : e ∈ edges → foldl (λ m e, <[ef_id e := {| fo_source := num 0; fo_target := num 0 |}]> m) m edges !! ef_id e = Some {| fo_source := num 0; fo_target := num 0 |}.
Proof.
  induction edges as [|x edges IH] using rev_ind; [intros H; by apply elem_of_nil in H|]. rewrite foldl_app. cbn [foldl]. intros [Hin|Hin]%elem_of_app.
  - destruct (decide (ef_id x = ef_id e)) as [->|Hne]; [by rewrite lookup_insert_eq|]. rewrite lookup_insert_ne by done. by apply IH.
  - apply list_elem_of_singleton in Hin as ->. by rewrite lookup_insert_eq.
Qed.

(** Every edge leaves its handle in the slot of its place among the edges of that handle, and
    arrives likewise. *)
Theorem fan_offsets_are_slots edges sourcePoints targetPoints sourceAxis targetAxis spacing e i j :
  NoDup (ef_id <$> edges) → e ∈ edges →
  siblings edges end_source sourcePoints sourceAxis e !! i = Some e → siblings edges end_target targetPoints targetAxis e !! j = Some e →
  edgeFanOffsets localeCompare edges (ef_id e) sourcePoints targetPoints sourceAxis targetAxis spacing =
  {| fo_source := fanSlotOffset i (length (filter (sameHandle end_source e) edges)) spacing;
     fo_target := fanSlotOffset j (length (filter (sameHandle end_target e) edges)) spacing |}.
Proof.
  intros Hnd Hin Hi Hj. unfold edgeFanOffsets, edgeFanOffsetsById. cbv zeta. rewrite (fanEnd_slot _ _ _ _ _ _ _ _ Hnd Hin Hj), (fanEnd_slot _ _ _ _ _ _ _ _ Hnd Hin Hi), initial_offsets by done.
  unfold siblings. by rewrite !js_sort_perm.
Qed.
End fans.

Lemma num_div_two a : num_div (NFin a) (num 2) = NFin (a / Q2Qc (inject_Z 2))%Qc.
Proof. reflexivity. Qed.

Lemma Qc_of_Z_sub a b : Q2Qc (inject_Z (a - b)) = (Q2Qc (inject_Z a) - Q2Qc (inject_Z b))%Qc.
Proof. apply Qc_is_canon. unfold Qcminus, Qcplus, Qcopp, Q2Qc. cbn [this]. rewrite !Qred_correct. unfold Z.sub. by rewrite inject_Z_plus, inject_Z_opp. Qed.

Lemma two_ne_zero : Q2Qc (inject_Z 2) ≠ 0%Qc.
Proof. discriminate. Qed.

(** The slots of a handle lie evenly around it: mirrored slots cancel, and neighbours are as far
    apart as the spacing says. *)
Theorem fan_is_even i count spacing : 1 < count → i < count →
  num_add (fanSlotOffset i count (NFin spacing)) (fanSlotOffset (count - 1 - i) count (NFin spacing)) = num 0 ∧
  num_sub (fanSlotOffset (S i) count (NFin spacing)) (fanSlotOffset i count (NFin spacing)) = NFin spacing.
Proof.
  intros Hc Hi. unfold fanSlotOffset. assert (count <=? 1 = false) as -> by (apply Nat.leb_gt; lia).
  change (num (Z.of_nat count - 1)) with (NFin (Q2Qc (inject_Z (Z.of_nat count - 1)))). rewrite num_div_two. unfold num, num_sub, num_neg, num_mul, num_add.
  replace (Z.of_nat (count - 1 - i)) with (Z.of_nat count - 1 - Z.of_nat i)%Z by lia. replace (Z.of_nat (S i)) with (Z.of_nat i - -1)%Z by lia. rewrite !Qc_of_Z_sub.
  change (Q2Qc (inject_Z 1)) with 1%Qc. change (Q2Qc (inject_Z (-1))) with (- (1))%Qc. pose proof two_ne_zero as H2. change (Q2Qc (inject_Z 2)) with (1 + 1)%Qc in *. change (Q2Qc (inject_Z 0)) with 0%Qc.
  split; f_equal; field; done.
Qed.

(** ** Curves *)

Definition pointAt (x y : Qc) : GraphPoint := {| pt_x := NFin x; pt_y := NFin y |}.

(** A coordinate of a cubic curve. *)
Definition cubicAt (a b c d : jsnum) (t : Qc) : jsnum :=
  num_add (num_add (num_mul (NFin ((1 - t) * (1 - t) * (1 - t))%Qc) a) (num_mul (NFin ((1 + 1 + 1) * (1 - t) * (1 - t) * t)%Qc) b))
          (num_add (num_mul (NFin ((1 + 1 + 1) * (1 - t) * t * t)%Qc) c) (num_mul (NFin (t * t * t)%Qc) d)).

Definition curveAt (a b c d : GraphPoint) (t : Qc) : GraphPoint :=
  {| pt_x := cubicAt (pt_x a) (pt_x b) (pt_x c) (pt_x d) t; pt_y := cubicAt (pt_y a) (pt_y b) (pt_y c) (pt_y d) t |}.

Lemma midpoint_at a b c d : midpoint (pointAt a b) (pointAt c d) = pointAt ((a + c) / Q2Qc (inject_Z 2))%Qc ((b + d) / Q2Qc (inject_Z 2))%Qc.
Proof. reflexivity. Qed.

Lemma add_at a b c d : addPoints (pointAt a b) (pointAt c d) = pointAt (a + c) (b + d).
Proof. reflexivity. Qed.

Lemma sub_at a b c d : subPoints (pointAt a b) (pointAt c d) = pointAt (a - c) (b - d).
Proof. reflexivity. Qed.

Lemma curve_at a a' b b' c c' d d' t :
  curveAt (pointAt a a') (pointAt b b') (pointAt c c') (pointAt d d') t =
  pointAt ((1 - t) * (1 - t) * (1 - t) * a + (1 + 1 + 1) * (1 - t) * (1 - t) * t * b + ((1 + 1 + 1) * (1 - t) * t * t * c + t * t * t * d))%Qc
          ((1 - t) * (1 - t) * (1 - t) * a' + (1 + 1 + 1) * (1 - t) * (1 - t) * t * b' + ((1 + 1 + 1) * (1 - t) * t * t * c' + t * t * t * d'))%Qc.
Proof. reflexivity. Qed.

Ltac curve_field := rewrite ?midpoint_at, ?add_at, ?midpoint_at, ?curve_at; unfold pointAt; f_equal; f_equal; change (Q2Qc (inject_Z 2)) with (1 + 1)%Qc; change (Q2Qc (inject_Z 0)) with 0%Qc; field; discriminate.

(** Without an offset the two curves of a path are the halves of the one curve that its control
    points describe. *)
Theorem natural_route_is_the_curve sx sy tx ty cx cy dx dy t :
  let s := pointAt sx sy in let e := pointAt tx ty in let c := pointAt cx cy in let d := pointAt dx dy in
  let r := routeThrough s e c d origin in
  curveAt s (ro_first r) (ro_before r) (ro_anchor r) t = curveAt s c d e (t / (1 + 1))%Qc ∧
  curveAt (ro_anchor r) (ro_after r) (ro_last r) e t = curveAt s c d e ((1 + t) / (1 + 1))%Qc.
Proof.
  cbv zeta. unfold routeThrough. cbn [ro_first ro_before ro_anchor ro_after ro_last]. change origin with (pointAt (Q2Qc (inject_Z 0)) (Q2Qc (inject_Z 0))). split; curve_field.
Qed.

(** An offset moves the anchor by itself, and the curve passes it without a corner. *)
Theorem bent_route_is_smooth sx sy tx ty cx cy dx dy ox oy :
  let r := routeThrough (pointAt sx sy) (pointAt tx ty) (pointAt cx cy) (pointAt dx dy) in
  ro_anchor (r (pointAt ox oy)) = addPoints (ro_anchor (r origin)) (pointAt ox oy) ∧
  ro_anchor (r (pointAt ox oy)) = midpoint (ro_before (r (pointAt ox oy))) (ro_after (r (pointAt ox oy))).
Proof.
  cbv zeta. unfold routeThrough. cbn [ro_before ro_anchor ro_after]. change origin with (pointAt (Q2Qc (inject_Z 0)) (Q2Qc (inject_Z 0))). split; curve_field.
Qed.

(** How far a point lies out of a port, in the direction of the port. *)
Definition reachOut (position : Side) (start p : GraphPoint) : jsnum :=
  match position with
  | side_left => num_sub (pt_x start) (pt_x p)
  | side_right => num_sub (pt_x p) (pt_x start)
  | side_top => num_sub (pt_y start) (pt_y p)
  | side_bottom => num_sub (pt_y p) (pt_y start)
  end.

Section leaving.
Context (sqrt : jsnum → jsnum) `{!SquareRoot sqrt}.

Lemma control_finite q : ∃ r, controlOffset sqrt (NFin q) = NFin r.
Proof.
  unfold controlOffset, num_geb, num_leb, num_compare, num. destruct (Qcompare (this (Q2Qc (inject_Z 0))) (this q)) eqn:E; [by eexists..|].
  assert (0 < this (- q)%Qc)%Q as Hq.
  { apply Qgt_alt in E. change (this (Q2Qc (inject_Z 0))) with 0%Q in E. unfold Qcopp, Q2Qc. cbn [this]. rewrite Qred_correct. lra. }
  destruct (sqrt_positive _ Hq) as (r & Hr & _). cbn [num_neg]. rewrite Hr. by eexists.
Qed.

Lemma exit_finite q : ∃ r, exitRun (NFin q) = NFin r ∧ num_leb (num EXIT_RUN_MIN) (NFin r) = true ∧ num_leb (NFin r) (num EXIT_RUN_MAX) = true.
Proof.
  unfold exitRun, EXIT_RUN_PER_CROSS. cbn [math_abs]. set (m := num_mul _ _). assert (∃ x, m = NFin x) as [x ->] by (unfold m; destruct (Qle_bool _ _); by eexists).
  destruct (math_max_cases (num EXIT_RUN_MIN) (NFin x)) as [[-> H1]|[-> H1]]; [done..|exists (Q2Qc (inject_Z EXIT_RUN_MIN)); repeat split|].
  destruct (math_min_cases (num EXIT_RUN_MAX) (NFin x)) as [[-> H2]|[-> H2]]; [done..|exists (Q2Qc (inject_Z EXIT_RUN_MAX)); repeat split|]. by exists x.
Qed.

Lemma max_finite a b : ∃ r, math_max (NFin a) (NFin b) = NFin r ∧ num_leb (NFin a) (NFin r) = true.
Proof. destruct (math_max_cases (NFin a) (NFin b)) as [[-> H]|[-> H]]; [done..|exists a; split; [done|by apply num_leb_refl]|by exists b]. Qed.

(** An edge runs out of its port for 36 pixels at least before it turns, whatever lies at its
    other end. *)
Theorem edge_leaves_along_its_port position sx sy ex ey :
  num_leb (num EXIT_RUN_MIN) (reachOut position (pointAt sx sy) (bezierControlPoint sqrt position (pointAt sx sy) (pointAt ex ey))) = true.
Proof.
  assert (∀ cross d, ∃ r, math_max (exitRun (NFin cross)) (controlOffset sqrt (NFin d)) = NFin r ∧ num_leb (num EXIT_RUN_MIN) (NFin r) = true) as H.
  { intros cross d. destruct (exit_finite cross) as (x & -> & H1 & _), (control_finite d) as (y & ->), (max_finite x y) as (r & -> & H2). exists r. split; [done|]. by eapply num_leb_trans. }
  destruct position; unfold bezierControlPoint, reachOut, pointAt, num_sub; cbn [pt_x pt_y num_neg num_add]; edestruct H as (r & -> & Hr); cbn [num_neg num_add].
  all: match goal with |- num_leb _ (NFin ?e) = true => replace e with r by ring; exact Hr end.
Qed.
End leaving.

(** A square root in whole numbers is one. *)
#[export] Instance wholeSquareRoot : SquareRoot (λ a, match a with NFin q => num (Z.sqrt (Qfloor (this q))) | _ => a end).
Proof.
  split. intros q _. eexists. split; [done|]. rewrite this_num. change 0%Q with (inject_Z 0). rewrite <- Zle_Qle. apply Z.sqrt_nonneg.
Qed.

(** ** Bending *)

Definition finite_point (p : GraphPoint) : Prop := ∃ x y, p = pointAt x y.

Lemma snap_coordinate q cellSize : ∃ r, snapToCell (NFin q) cellSize = NFin r.
Proof. destruct (clampCellSize_cell cellSize) as (cell & Hc & Hr). rewrite (snapToCell_nearest q cellSize cell Hc) by lia. by eexists. Qed.

Lemma snapOffset_finite v offset dragging : finite_point (ev_natural v) → finite_point offset → finite_point (snapOffset v offset dragging).
Proof.
  intros (nx & ny & Hn) (ox & oy & ->). unfold snapOffset. destruct (ev_grid v) as [[settings bypass]|]; [|by eexists _, _]. destruct (shouldSnapPosition _ _ _); [|by eexists _, _].
  unfold snapEdgeSelectorRouteOffset, snapPosition. rewrite Hn. cbn [pt_x pt_y pointAt num_add].
  destruct (snap_coordinate (nx + ox)%Qc (edgeSelectorSnapPitch (gs_cellSize settings))) as (a & ->), (snap_coordinate (ny + oy)%Qc (edgeSelectorSnapPitch (gs_cellSize settings))) as (b & ->). by eexists _, _.
Qed.

Lemma addSub_finite p q : finite_point p → finite_point q → subPoints (addPoints p q) q = p.
Proof. intros (a & b & ->) (c & d & ->). rewrite add_at, sub_at. unfold pointAt. f_equal; f_equal; ring. Qed.

(** A bend in progress: it is drawn where the drag is, and nothing is committed. *)
Definition bending (v : EdgeView) (pointerId : nat) (saved grab latest : GraphPoint) (b : Bend) : Prop :=
  b = {| be_saved := saved; be_draft := Some latest; be_drag := Some {| bd_pointerId := pointerId; bd_grab := grab; bd_latest := latest |} |} ∧ finite_point latest.

Lemma bending_moves v pointerId saved grab latest b p : finite_point (ev_natural v) → finite_point grab → finite_point p → bending v pointerId saved grab latest b →
  bending v pointerId saved grab (snapOffset v (subPoints (subPoints p grab) (ev_natural v)) true) (bendPointerMove v pointerId p b).
Proof.
  intros Hn Hg Hp [-> Hl]. unfold bendPointerMove, bendDragOf. cbn [be_drag mbind option_bind bd_pointerId]. rewrite bool_decide_true by done.
  set (b := {| be_saved := saved; be_draft := Some latest; be_drag := _ |}). assert (finite_point (routeOffsetOf v b)) as Ho by by apply snapOffset_finite.
  unfold anchorOf. rewrite addSub_finite by done. cbn [bd_grab bd_pointerId]. split; [done|]. apply snapOffset_finite; [done|].
  destruct Hn as (a & c & ->), Hg as (g & h & ->), Hp as (x & y & ->). rewrite !sub_at. by eexists _, _.
Qed.

Lemma bending_moved v pointerId saved grab latest b ps p : finite_point (ev_natural v) → finite_point grab → Forall finite_point (ps ++ [p]) → bending v pointerId saved grab latest b →
  bending v pointerId saved grab (snapOffset v (subPoints (subPoints p grab) (ev_natural v)) true) (foldl (λ b p, bendPointerMove v pointerId p b) b (ps ++ [p])).
Proof.
  intros Hn Hg. revert latest b. induction ps as [|x ps IH]; intros latest b Hf Hb; apply Forall_cons in Hf as [Hx Hf]; cbn [app foldl]; [by eapply bending_moves|]. eapply IH; [done|]. by eapply bending_moves.
Qed.

Lemma bend_begins v pointerId p b : ev_editable v = true → finite_point (ev_natural v) → finite_point (default (be_saved b) (be_draft b)) →
  bending v pointerId (be_saved b) (subPoints p (anchorOf v b)) (snapOffset v (routeOffsetOf v b) false) (bendPointerDown v 0 pointerId p b) ∧ finite_point (routeOffsetOf v b).
Proof.
  intros He Hn Hs. assert (finite_point (routeOffsetOf v b)) as Ho by by apply snapOffset_finite. split; [|done]. unfold bendPointerDown. rewrite He. cbn [Nat.eqb negb orb]. split; [done|]. by apply snapOffset_finite.
Qed.

(** While an edge is bent its anchor keeps to the pointer: the offset is the one it had, moved as
    far as the pointer was, snapped when the grid says so; the release commits it. *)
Theorem bend_follows_the_pointer v pointerId p0 ps p b : ev_editable v = true → finite_point (ev_natural v) → finite_point (default (be_saved b) (be_draft b)) →
  finite_point p0 → Forall finite_point (ps ++ [p]) →
  let bent := foldl (λ b p, bendPointerMove v pointerId p b) (bendPointerDown v 0 pointerId p0 b) (ps ++ [p]) in
  let moved := snapOffset v (addPoints (routeOffsetOf v b) (subPoints p p0)) true in
  be_draft bent = Some moved ∧ be_saved bent = be_saved b ∧
  bendPointerUp v pointerId bent = {| be_saved := snapOffset v moved false; be_draft := None; be_drag := None |}.
Proof.
  intros He Hn Hs Hp0 Hps. cbv zeta. destruct (bend_begins v pointerId p0 b He Hn Hs) as [Hb Ho].
  assert (finite_point (anchorOf v b)) as Ha by (unfold anchorOf; destruct Hn as (? & ? & ->), Ho as (? & ? & ->); rewrite add_at; by eexists _, _).
  assert (finite_point (subPoints p0 (anchorOf v b))) as Hg by (destruct Hp0 as (? & ? & ->), Ha as (? & ? & ->); rewrite sub_at; by eexists _, _).
  destruct (bending_moved v pointerId _ _ _ _ ps p Hn Hg Hps Hb) as [Hbent Hl].
  assert (subPoints (subPoints p (subPoints p0 (anchorOf v b))) (ev_natural v) = addPoints (routeOffsetOf v b) (subPoints p p0)) as Heq.
  { apply Forall_app in Hps as [_ [(px & py & Hp) _]%Forall_cons]. unfold anchorOf. destruct Hn as (nx & ny & ->), Ho as (ox & oy & ->), Hp0 as (x & y & ->). rewrite Hp, add_at, !sub_at, add_at. unfold pointAt. f_equal; f_equal; ring. }
  rewrite Heq in Hbent. rewrite Hbent. split; [done|]. split; [done|]. unfold bendPointerUp, bendDragOf. cbn [be_drag mbind option_bind bd_pointerId]. rewrite bool_decide_true by done.
  unfold commitOffset. by rewrite He.
Qed.

(** A bend that is cancelled leaves no trace. *)
Theorem cancelled_bend_leaves_no_trace v pointerId p0 ps p b : ev_editable v = true → finite_point (ev_natural v) → finite_point (default (be_saved b) (be_draft b)) →
  finite_point p0 → Forall finite_point (ps ++ [p]) →
  bendPointerCancel pointerId (foldl (λ b p, bendPointerMove v pointerId p b) (bendPointerDown v 0 pointerId p0 b) (ps ++ [p])) = {| be_saved := be_saved b; be_draft := None; be_drag := None |}.
Proof.
  intros He Hn Hs Hp0 Hps. destruct (bend_begins v pointerId p0 b He Hn Hs) as [Hb Ho].
  assert (finite_point (subPoints p0 (anchorOf v b))) as Hg by (unfold anchorOf; destruct Hn as (? & ? & ->), Ho as (? & ? & ->), Hp0 as (? & ? & ->); rewrite add_at, sub_at; by eexists _, _).
  destruct (bending_moved v pointerId _ _ _ _ ps p Hn Hg Hps Hb) as [-> _]. unfold bendPointerCancel, bendDragOf. cbn [be_drag mbind option_bind bd_pointerId]. by rewrite bool_decide_true.
Qed.

(** On a grid of the smallest cells an arrow steps half of what the anchor snaps to, and a half is
    rounded up: the arrows to the left and up do nothing, and the others go a whole cell. *)
Definition smallGrid : EdgeView :=
  {| ev_natural := origin; ev_endpointDragging := false; ev_grid := Some (normalizeCanvasGridSettings (Some {| ps_enabled := None; ps_showBackground := None; ps_onlyRenderVisibleElements := None; ps_snapPosition := None; ps_snapSize := None; ps_snapWhileDragging := None; ps_snapWhileResizing := None; ps_allowWorkflowCornerResize := None; ps_cellSize := Some (num 24) |}), false);
     ev_zoom := num 1; ev_editable := true |}.

Definition straight : Bend := {| be_saved := origin; be_draft := None; be_drag := None |}.

Theorem left_arrow_does_nothing_on_small_cells :
  bendKeyDown smallGrid bk_left false straight = straight ∧ bendKeyDown smallGrid bk_up false straight = straight ∧
  be_saved (bendKeyDown smallGrid bk_right false straight) = {| pt_x := num 24; pt_y := num 0 |} ∧
  be_saved (bendKeyDown smallGrid bk_down false straight) = {| pt_x := num 0; pt_y := num 24 |}.
Proof. vm_compute. done. Qed.
