(* ===== verification/SidePanel.v ===== *)
(** * The side panel ([ui/side-panel/workbench-side-panel-state.ts], [WorkbenchSidePanel.tsx])

    Whether the panel is open, its view and its width are kept in the storage of the browser; on a
    narrow viewport it slides over the canvas and is forgotten.  The shell of the page reserves its
    width, which a drag of its edge previews.  The folders that are collapsed are kept beside it.

    A write to the storage may fail, as an argument says, and is then ignored.  [JSON.parse], the
    text of a number and the viewport are arguments. *)

From stdpp Require Import gmap strings numbers list.
From Stdlib Require Import QArith.Qround Lqa.
From S2P Require Import Prelude Js JsNum JsText JsJson Grouping GridLayout.
#[local] Open Scope string_scope.
#[local] Open Scope list_scope.

Definition SIDE_PANEL_DEFAULT_WIDTH : Z := 360.
Definition SIDE_PANEL_MIN_WIDTH : Z := 240.
Definition SIDE_PANEL_MAX_WIDTH : Z := 420.

Inductive SidePanelViewId := view_artifacts | view_generated.
Definition viewText (v : SidePanelViewId) : string := match v with view_artifacts => "artifacts" | view_generated => "generated" end.
Definition SIDE_PANEL_VIEWS : list SidePanelViewId := [view_artifacts; view_generated].

Definition OPEN_KEY : string := "grafy-side-panel-open".
Definition VIEW_KEY : string := "grafy-side-panel-view".
Definition WIDTH_KEY : string := "grafy-side-panel-width".
Definition COLLAPSED_FOLDERS_KEY : string := "grafy-library-folders-collapsed".

Notation Storage := (gmap string string).

Definition writeStored (canWrite : bool) (key value : string) (st : Storage) : Storage := if canWrite then <[key := value]> st else st.

Definition clampSidePanelWidth (width : jsnum) : jsnum :=
  if negb (num_isFinite width) then num SIDE_PANEL_DEFAULT_WIDTH
  else math_min (num SIDE_PANEL_MAX_WIDTH) (math_max (num SIDE_PANEL_MIN_WIDTH) width).

(** [autoOpen]: whether the viewport is wide enough to open the panel by itself. *)
Definition readDockedOpen (autoOpen : bool) (st : Storage) : bool :=
  match st !! OPEN_KEY with
  | Some s => if bool_decide (s = "1") then true else if bool_decide (s = "0") then false else autoOpen
  | None => autoOpen
  end.

Definition readView (st : Storage) : SidePanelViewId :=
  default view_artifacts (find (λ v, bool_decide (Some (viewText v) = st !! VIEW_KEY)) SIDE_PANEL_VIEWS).

(** [Number(null)] is zero. *)
Definition readWidth (st : Storage) : jsnum :=
  let stored := match st !! WIDTH_KEY with Some s => Number s | None => num 0 end in
  if num_isFinite stored && num_gtb stored (num 0) then clampSidePanelWidth stored else num SIDE_PANEL_DEFAULT_WIDTH.

(** ** State *)

Record ResizeDrag := { rd_pointerId : nat; rd_startX : jsnum; rd_startWidth : jsnum }.

Record SidePanel := {
  sp_storage : Storage;
  sp_overlayOpen : bool;
  (** the viewport *)
  sp_docked : bool;
  sp_autoOpen : bool;
  (** [data-side-panel] and the custom property on the document *)
  sp_shellOpen : bool;
  sp_shellWidth : option jsnum;
  (** the resizer *)
  sp_drag : option ResizeDrag;
  sp_resizing : bool
}.

Definition panelOpen (s : SidePanel) : bool := if sp_docked s then readDockedOpen (sp_autoOpen s) (sp_storage s) else sp_overlayOpen s.
Definition panelWidth (s : SidePanel) : jsnum := readWidth (sp_storage s).

Definition with_storage (st : Storage) (s : SidePanel) : SidePanel :=
  {| sp_storage := st; sp_overlayOpen := sp_overlayOpen s; sp_docked := sp_docked s; sp_autoOpen := sp_autoOpen s; sp_shellOpen := sp_shellOpen s; sp_shellWidth := sp_shellWidth s; sp_drag := sp_drag s; sp_resizing := sp_resizing s |}.
Definition with_viewport (overlayOpen docked : bool) (s : SidePanel) : SidePanel :=
  {| sp_storage := sp_storage s; sp_overlayOpen := overlayOpen; sp_docked := docked; sp_autoOpen := sp_autoOpen s; sp_shellOpen := sp_shellOpen s; sp_shellWidth := sp_shellWidth s; sp_drag := sp_drag s; sp_resizing := sp_resizing s |}.
Definition with_shell (o : bool) (w : option jsnum) (s : SidePanel) : SidePanel :=
  {| sp_storage := sp_storage s; sp_overlayOpen := sp_overlayOpen s; sp_docked := sp_docked s; sp_autoOpen := sp_autoOpen s; sp_shellOpen := o; sp_shellWidth := w; sp_drag := sp_drag s; sp_resizing := sp_resizing s |}.
Definition with_drag (d : option ResizeDrag) (s : SidePanel) : SidePanel :=
  {| sp_storage := sp_storage s; sp_overlayOpen := sp_overlayOpen s; sp_docked := sp_docked s; sp_autoOpen := sp_autoOpen s; sp_shellOpen := sp_shellOpen s; sp_shellWidth := sp_shellWidth s; sp_drag := d; sp_resizing := bool_decide (is_Some d) |}.

Definition publishToDocument (dockedAndOpen : bool) (width : jsnum) (s : SidePanel) : SidePanel :=
  with_shell dockedAndOpen (if dockedAndOpen then Some (math_round width) else sp_shellWidth s) s.

(** The layout effect, which runs when [docked], [open] or [width] changed. *)
Definition renders (f : SidePanel → SidePanel) (s : SidePanel) : SidePanel :=
  let s' := f s in
  if bool_decide (sp_docked s' = sp_docked s ∧ panelOpen s' = panelOpen s ∧ panelWidth s' = panelWidth s) then s'
  else publishToDocument (sp_docked s' && panelOpen s') (panelWidth s') s'.

(** ** Operations *)

Definition setOpen (canWrite next : bool) : SidePanel → SidePanel :=
  renders (λ s, if sp_docked s then with_storage (writeStored canWrite OPEN_KEY (if next then "1" else "0") (sp_storage s)) s else with_viewport next (sp_docked s) s).

Definition toggle (canWrite : bool) (s : SidePanel) : SidePanel := setOpen canWrite (negb (panelOpen s)) s.

Definition roundedText (a : jsnum) : string := match math_round a with NFin q => intText (Qfloor q) | _ => "" end.

Definition setWidth (canWrite : bool) (next : jsnum) : SidePanel → SidePanel :=
  renders (λ s, with_storage (writeStored canWrite WIDTH_KEY (roundedText (clampSidePanelWidth next)) (sp_storage s)) s).

Definition setView (canWrite : bool) (next : SidePanelViewId) : SidePanel → SidePanel :=
  renders (λ s, with_storage (writeStored canWrite VIEW_KEY (viewText next) (sp_storage s)) s).

(** The viewport becomes wide or narrow: a panel that slid over the canvas is closed by docking. *)
Definition viewportChanged (docked : bool) (s : SidePanel) : SidePanel :=
  let s' := renders (with_viewport (sp_overlayOpen s) docked) s in
  if docked && sp_overlayOpen s' then renders (with_viewport false docked) s' else s'.

Definition previewSidePanelWidth (width : jsnum) (s : SidePanel) : SidePanel := with_shell (sp_shellOpen s) (Some (math_round (clampSidePanelWidth width))) s.

(** The edge is dragged. *)
Definition draggedWidth (d : ResizeDrag) (x : jsnum) : jsnum := clampSidePanelWidth (num_add (rd_startWidth d) (num_sub x (rd_startX d))).

Definition pointerDown (pointerId : nat) (x : jsnum) (s : SidePanel) : SidePanel :=
  with_drag (Some {| rd_pointerId := pointerId; rd_startX := x; rd_startWidth := panelWidth s |}) s.

Definition dragOf (pointerId : nat) (s : SidePanel) : option ResizeDrag := d ← sp_drag s; if bool_decide (rd_pointerId d = pointerId) then Some d else None.

Definition pointerMoved (pointerId : nat) (x : jsnum) (s : SidePanel) : SidePanel :=
  match dragOf pointerId s with Some d => previewSidePanelWidth (draggedWidth d x) s | None => s end.

Definition pointerUp (canWrite : bool) (pointerId : nat) (x : jsnum) (s : SidePanel) : SidePanel :=
  match dragOf pointerId s with Some d => setWidth canWrite (draggedWidth d x) (with_drag None s) | None => s end.

Definition pointerCancel (pointerId : nat) (s : SidePanel) : SidePanel :=
  match dragOf pointerId s with Some d => previewSidePanelWidth (rd_startWidth d) (with_drag None s) | None => s end.

Definition RESIZE_STEP : Z := 16.
Inductive ResizeKey := key_left | key_right | key_home.
Definition keyDown (canWrite : bool) (key : ResizeKey) (s : SidePanel) : SidePanel :=
  match key with
  | key_left => setWidth canWrite (clampSidePanelWidth (num_sub (panelWidth s) (num RESIZE_STEP))) s
  | key_right => setWidth canWrite (clampSidePanelWidth (num_add (panelWidth s) (num RESIZE_STEP))) s
  | key_home => setWidth canWrite (num SIDE_PANEL_DEFAULT_WIDTH) s
  end.

(** ** Collapsed folders *)

Section collapsed.
Context (numberText : jsnum → string) (JSON_parse : string → res jsval).

Definition parseKeys (raw : string) : list string :=
  match JSON_parse raw with
  | Ok (JArr l) => omap (λ v, match v with JStr s => Some s | _ => None end) l
  | _ => []
  end.

Record CollapsedCache := { cc_raw : option string; cc_keys : list string }.

(** The keys, and the cache after the reading. *)
Definition readCollapsedKeys (st : Storage) (cache : option CollapsedCache) : list string * option CollapsedCache :=
  let raw := st !! COLLAPSED_FOLDERS_KEY in
  let fresh := js_set (match raw with Some r => parseKeys r | None => [] end) in
  match cache with
  | Some c => if bool_decide (cc_raw c = raw) then (cc_keys c, cache) else (fresh, Some {| cc_raw := raw; cc_keys := fresh |})
  | None => (fresh, Some {| cc_raw := raw; cc_keys := fresh |})
  end.

Definition setCollapsed (canWrite : bool) (key : string) (next : bool) (st : Storage) (cache : option CollapsedCache) : Storage * option CollapsedCache :=
  let '(read, cache) := readCollapsedKeys st cache in
  let keys := if next then js_set (read ++ [key]) else filter (λ k, k ≠ key) read in
  (writeStored canWrite COLLAPSED_FOLDERS_KEY (text numberText (JArr (map JStr keys))) st, cache).

End collapsed.

(** ** Widths *)

Definition in_bounds (w : jsnum) : Prop := ∃ q, w = NFin q ∧ (240 <= this q)%Q ∧ (this q <= 420)%Q.

Lemma clamped w : in_bounds (clampSidePanelWidth w).
Proof.
  unfold clampSidePanelWidth, in_bounds, SIDE_PANEL_DEFAULT_WIDTH, SIDE_PANEL_MAX_WIDTH, SIDE_PANEL_MIN_WIDTH. destruct w as [q| |]; cbn [num_isFinite negb].
  2, 3: exists (Q2Qc (inject_Z 360)); split; [done|]; by vm_compute.
  destruct (math_max_cases (num 240) (NFin q)) as [[-> H1]|[-> H1]]; [done..| |]; unfold num in *.
  - exists (Q2Qc (inject_Z 240)). split; [reflexivity|]. by vm_compute.
  - rewrite leb_finite in H1. change (this (Q2Qc (inject_Z 240))) with 240%Q in H1.
    destruct (math_min_cases (NFin (Q2Qc (inject_Z 420))) (NFin q)) as [[-> H2]|[-> H2]]; [done..| |].
    + exists (Q2Qc (inject_Z 420)). split; [done|]. by vm_compute.
    + exists q. rewrite leb_finite in H2. change (this (Q2Qc (inject_Z 420))) with 420%Q in H2. done.
Qed.

Lemma clamp_in_bounds w : in_bounds w → clampSidePanelWidth w = w.
Proof.
  intros (q & -> & H1 & H2). unfold clampSidePanelWidth. cbn [num_isFinite negb]. unfold SIDE_PANEL_MAX_WIDTH, SIDE_PANEL_MIN_WIDTH.
  destruct (math_max_cases (num 240) (NFin q)) as [[E H]|[-> _]]; [done..| |].
  - unfold num in *. rewrite leb_finite in H. change (this (Q2Qc (inject_Z 240))) with 240%Q in H. assert (q = Q2Qc (inject_Z 240)) as -> by (apply Qc_is_canon; change (this (Q2Qc (inject_Z 240))) with 240%Q; lra). reflexivity.
  - destruct (math_min_cases (num 420) (NFin q)) as [[E H]|[-> _]]; [done..| |done]. unfold num in *. rewrite leb_finite in H. change (this (Q2Qc (inject_Z 420))) with 420%Q in H.
    assert (q = Q2Qc (inject_Z 420)) as -> by (apply Qc_is_canon; change (this (Q2Qc (inject_Z 420))) with 420%Q; lra). reflexivity.
Qed.

(** Whatever the storage holds, the panel is between 240 and 420 wide. *)
Theorem panel_width_is_in_bounds s : in_bounds (panelWidth s).
Proof. unfold panelWidth, readWidth. destruct (_ && _); [apply clamped|]. exists (Q2Qc (inject_Z 360)). split; [done|]. by vm_compute. Qed.

Lemma rounded_in_bounds w : in_bounds w → ∃ z, math_round w = num z ∧ (240 <= z <= 420)%Z ∧ roundedText w = intText z.
Proof.
  intros (q & -> & H1 & H2). unfold roundedText. cbn [math_round]. exists (Qfloor (this q + (1 # 2))). split; [done|].
  assert (∀ z, Qfloor (this (Q2Qc (inject_Z z))) = z) as Hz by (intros z; rewrite (Qfloor_comp _ (inject_Z z)); [apply Qfloor_Z|apply Qred_correct]).
  split; [|unfold num; by rewrite Hz].
  pose proof (Qfloor_resp_le (inject_Z 240) (this q + (1 # 2))) as A. pose proof (Qfloor_resp_le (this q + (1 # 2)) (inject_Z 420 + (1 # 2))) as B. rewrite Qfloor_Z in A.
  change (Qfloor (inject_Z 420 + (1 # 2))) with 420%Z in B. change (inject_Z 240) with 240%Q in A. change (inject_Z 420) with 420%Q in B. split; [apply A; lra|apply B; lra].
Qed.

Lemma read_rounded st w : in_bounds w → readWidth (<[WIDTH_KEY := roundedText w]> st) = math_round w.
Proof.
  intros Hw. destruct (rounded_in_bounds w Hw) as (z & Hz & Hb & Ht). rewrite Ht, Hz. unfold readWidth. rewrite lookup_insert_eq, Number_intText by lia.
  assert (in_bounds (num z)) as Hin.
  { exists (Q2Qc (inject_Z z)). split; [done|]. rewrite !this_num. change 240%Q with (inject_Z 240). change 420%Q with (inject_Z 420). rewrite <- !Zle_Qle. lia. }
  assert (num_gtb (num z) (num 0) = true) as -> by (unfold num_gtb, num_ltb; rewrite num_compare_num; by destruct (Z.compare_spec 0 z); lia || done).
  by apply clamp_in_bounds.
Qed.

Lemma rounded_again w : in_bounds w → math_round (math_round w) = math_round w.
Proof.
  intros Hw. destruct (rounded_in_bounds w Hw) as (z & -> & _). unfold num. cbn [math_round]. unfold num. do 2 f_equal. f_equal.
  rewrite (Qfloor_comp _ (inject_Z z + (1 # 2))) by (by rewrite this_num). pose proof (Qfloor_le (inject_Z z + (1 # 2))) as A. pose proof (Qlt_floor (inject_Z z + (1 # 2))) as B.
  set (f := Qfloor _) in *. clearbody f. assert (inject_Z f < inject_Z (z + 1))%Q as H1 by (rewrite inject_Z_plus; change (inject_Z 1) with 1%Q; lra).
  assert (inject_Z z < inject_Z (f + 1))%Q as H2 by lra. rewrite <- Zlt_Qlt in H1, H2. lia.
Qed.

(** ** Opening *)

Lemma published_open f s : panelOpen (renders f s) = panelOpen (f s) ∧ panelWidth (renders f s) = panelWidth (f s) ∧ sp_storage (renders f s) = sp_storage (f s) ∧
  sp_overlayOpen (renders f s) = sp_overlayOpen (f s) ∧ sp_docked (renders f s) = sp_docked (f s) ∧ sp_drag (renders f s) = sp_drag (f s).
Proof. unfold renders. case_bool_decide; done. Qed.

(** Opening and closing take effect; the choice is stored where the panel is docked, and a panel
    that slides over the canvas leaves no trace in the storage. *)
Theorem open_is_set s canWrite next : (sp_docked s = true → canWrite = true) →
  panelOpen (setOpen canWrite next s) = next ∧
  (if sp_docked s then sp_storage (setOpen canWrite next s) = <[OPEN_KEY := if next then "1" else "0"]> (sp_storage s)
   else sp_storage (setOpen canWrite next s) = sp_storage s).
Proof.
  intros Hw. unfold setOpen. set (f := λ s, _). destruct (published_open f s) as (-> & _ & -> & _). unfold f, panelOpen. destruct (sp_docked s) eqn:Hd; cbn; rewrite ?Hd; [|done].
  rewrite Hw by done. cbn [writeStored]. split; [|done]. unfold readDockedOpen. rewrite lookup_insert_eq. by destruct next.
Qed.

(** A docked panel whose choice cannot be stored does not open or close. *)
Theorem unstored_choice_is_lost s next : sp_docked s = true → panelOpen (setOpen false next s) = panelOpen s.
Proof. intros Hd. unfold setOpen. set (f := λ s, _). destruct (published_open f s) as (-> & _). unfold f, panelOpen. rewrite Hd. cbn. by rewrite Hd. Qed.

(** A panel that slid over the canvas does not survive the trip to a wide viewport. *)
Theorem docking_closes_the_slide_over s : sp_overlayOpen (viewportChanged true s) = false.
Proof.
  unfold viewportChanged. cbn [andb]. destruct (published_open (with_viewport (sp_overlayOpen s) true) s) as (_ & _ & _ & Ho & _). rewrite Ho. cbn [with_viewport sp_overlayOpen].
  destruct (sp_overlayOpen s) eqn:E; [|by rewrite Ho]. by apply (published_open (with_viewport false true)).
Qed.

(** ** Dragging the edge *)

Lemma moves_keep pointerId d xs s : sp_drag s = Some d → rd_pointerId d = pointerId →
  let s' := foldl (λ s x, pointerMoved pointerId x s) s xs in
  sp_drag s' = Some d ∧ sp_storage s' = sp_storage s ∧ sp_docked s' = sp_docked s ∧ sp_autoOpen s' = sp_autoOpen s ∧ sp_overlayOpen s' = sp_overlayOpen s.
Proof.
  cbn zeta. intros Hd Hp. revert s Hd. induction xs as [|x xs IH]; intros s Hd; cbn [foldl]; [done|].
  assert (pointerMoved pointerId x s = previewSidePanelWidth (draggedWidth d x) s) as -> by (unfold pointerMoved, dragOf; rewrite Hd; cbn; by rewrite bool_decide_true).
  exact (IH (previewSidePanelWidth (draggedWidth d x) s) Hd).
Qed.

Lemma dragged_in_bounds d x : in_bounds (draggedWidth d x).
Proof. apply clamped. Qed.

(** A drag of the edge that ends where the pointer was seen last leaves the panel as wide as it
    was dragged, in whole pixels and within the bounds, and the shell reserves that width. *)
Theorem drag_sets_the_width s pointerId x0 xs x : sp_docked s = true → panelOpen s = true →
  let d := {| rd_pointerId := pointerId; rd_startX := x0; rd_startWidth := panelWidth s |} in
  let s' := pointerUp true pointerId x (foldl (λ s x, pointerMoved pointerId x s) (pointerDown pointerId x0 s) (xs ++ [x])) in
  panelWidth s' = math_round (draggedWidth d x) ∧ sp_shellWidth s' = Some (panelWidth s') ∧ sp_drag s' = None ∧ panelOpen s' = true.
Proof.
  intros Hdock Hopen d. rewrite foldl_app. cbn [foldl]. destruct (moves_keep pointerId d xs (pointerDown pointerId x0 s) eq_refl eq_refl) as (Hd & Hs & Hk & Ha & Ho).
  set (s1 := foldl _ _ xs) in *. clearbody s1. assert (pointerMoved pointerId x s1 = previewSidePanelWidth (draggedWidth d x) s1) as -> by (unfold pointerMoved, dragOf; rewrite Hd; cbn; by rewrite bool_decide_true).
  pose proof (dragged_in_bounds d x) as Hb. pose proof (clamp_in_bounds _ Hb) as Hclamp. set (dw := draggedWidth d x) in *.
  set (s2 := previewSidePanelWidth dw s1). assert (pointerUp true pointerId x s2 = setWidth true dw (with_drag None s2)) as -> by (unfold pointerUp, dragOf, s2; cbn; rewrite Hd; cbn; by rewrite bool_decide_true).
  clearbody dw. unfold setWidth. set (f := λ s, _). set (s3 := with_drag None s2).
  assert (panelWidth (f s3) = math_round dw) as Hw by (unfold f, panelWidth; cbn [with_storage sp_storage writeStored]; rewrite Hclamp; by apply read_rounded).
  assert (panelOpen (f s3) = true) as Hop.
  { unfold panelOpen, f, s3, s2 in *. cbn. rewrite Hk. cbn. rewrite Hdock, Ha, Hs in *. cbn. unfold readDockedOpen in *. rewrite lookup_insert_ne by done. exact Hopen. }
  assert (sp_docked (f s3) = true) as Hdk by (unfold f, s3, s2; cbn; by rewrite Hk).
  assert (sp_shellWidth (f s3) = Some (math_round dw)) as Hsh by (unfold f, s3, s2; cbn; by rewrite Hclamp).
  assert (sp_drag (f s3) = None) as Hdr by done. clearbody s3 f. destruct (published_open f s3) as (H1 & H2 & _ & _ & _ & H6). rewrite H1, H2, H6. split; [done|]. split; [|done].
  unfold renders. case_bool_decide; [by rewrite Hsh, Hw|]. rewrite Hdk, Hop. cbn. by rewrite Hw, rounded_again.
Qed.

(** A drag that is cancelled puts the edge back. *)
Theorem cancelled_drag_restores_the_width s pointerId x0 xs :
  let s' := pointerCancel pointerId (foldl (λ s x, pointerMoved pointerId x s) (pointerDown pointerId x0 s) xs) in
  panelWidth s' = panelWidth s ∧ sp_shellWidth s' = Some (math_round (panelWidth s)) ∧ sp_drag s' = None.
Proof.
  destruct (moves_keep pointerId {| rd_pointerId := pointerId; rd_startX := x0; rd_startWidth := panelWidth s |} xs (pointerDown pointerId x0 s) eq_refl eq_refl) as (Hd & Hs & _).
  set (s1 := foldl _ _ xs) in *. clearbody s1. unfold pointerCancel, dragOf. rewrite Hd. cbn. rewrite bool_decide_true by done. cbn. unfold panelWidth at 1. cbn. rewrite Hs. cbn.
  split; [done|]. split; [|done]. by rewrite (clamp_in_bounds (panelWidth s)) by apply panel_width_is_in_bounds.
Qed.

(** ** Collapsed folders *)

(** What is read through the cache is what the storage says. *)
Definition cache_ok (JSON_parse : string → res jsval) (cache : option CollapsedCache) : Prop :=
  match cache with Some c => cc_keys c = js_set (match cc_raw c with Some r => parseKeys JSON_parse r | None => [] end) | None => True end.

Theorem cached_keys_are_the_stored_ones JSON_parse st cache : cache_ok JSON_parse cache →
  (readCollapsedKeys JSON_parse st cache).1 = js_set (match st !! COLLAPSED_FOLDERS_KEY with Some r => parseKeys JSON_parse r | None => [] end) ∧
  cache_ok JSON_parse (readCollapsedKeys JSON_parse st cache).2.
Proof. unfold readCollapsedKeys. destruct cache as [c|]; [|done]. cbn. case_bool_decide as E; [|done]. intros Hc. cbn. by rewrite Hc, E. Qed.

Lemma parsed_keys numberText JSON_parse keys : JSON_parse (text numberText (JArr (map JStr keys))) = Ok (JArr (map JStr keys)) → parseKeys JSON_parse (text numberText (JArr (map JStr keys))) = keys.
Proof. intros Hp. unfold parseKeys. rewrite Hp. clear Hp. induction keys as [|k l IH]; cbn; [done|]. by rewrite IH. Qed.

(** Collapsing or expanding a folder changes that folder and no other: a folder is collapsed
    afterwards exactly when it was, and the one named as it was told. *)
Theorem collapsing_changes_one_folder numberText JSON_parse st cache key next : cache_ok JSON_parse cache →
  (∀ keys, JSON_parse (text numberText (JArr (map JStr keys))) = Ok (JArr (map JStr keys))) →
  let '(st', cache') := setCollapsed numberText JSON_parse true key next st cache in
  ∀ k, k ∈ (readCollapsedKeys JSON_parse st' cache').1 ↔ if bool_decide (k = key) then next = true else k ∈ (readCollapsedKeys JSON_parse st cache).1.
Proof.
  intros Hc Hp. unfold setCollapsed. destruct (cached_keys_are_the_stored_ones JSON_parse st cache Hc) as [_ Hc'].
  destruct (readCollapsedKeys JSON_parse st cache) as [read cache'] eqn:E. cbn [snd] in Hc'. intros k. cbn [fst].
  rewrite (proj1 (cached_keys_are_the_stored_ones JSON_parse _ cache' Hc')). cbn [writeStored]. rewrite lookup_insert_eq, parsed_keys by done. rewrite js_set_spec.
  destruct next; [rewrite js_set_spec, elem_of_app, list_elem_of_singleton|rewrite list_elem_of_filter]; case_bool_decide; naive_solver.
Qed.
