(* ===== verification/Collections.v ===== *)
(** * Collections ([model/collection.ts], and the commands that add a node and an edge of
      [canvas/graph-document-adapter.ts])

    Cards that are collected become a node whose input plugs are its members: a Library
    artifact is an origin on its plug, an output of a node an edge into it.  One plug is kept
    spare.  The node's data is made by a callback, which is an argument; so are the ids drawn
    at random, of which [uuid k] is the [k]-th. *)

From stdpp Require Import numbers list sorting pretty.
From Stdlib Require Import Ascii QArith.Qfield Lqa.
From S2P Require Import Prelude Js JsNum JsText JsJson GraphModel GraphCommands GraphTheory Handles Routes RoutesTheory NodeLayout InputPlugs ConfigSchema Canvas ExecutionPlan Connections ArtifactCards ArtifactDrop Hydration HydrationTheory Viewers Grouping.

(** ** Values of outputs *)

Definition refValue (r : ArtifactRef) : jsval :=
  JObj ([("artifact_id", JStr (ar_artifact_id r)); ("artifact_type", JStr (ar_artifact_type r)); ("schema_version", JNum (ar_schema_version r))] ++
        match ar_content_hash r with Undef => [] | Null => [("content_hash", JNull)] | Val h => [("content_hash", JStr h)] end).

(** The object an output holds; the other keys of a sequence are its metadata. *)
Definition outputValue (v : ArtifactOutputValue) : jsval :=
  match v with
  | value_ref r => refValue r
  | value_sequence items metadata => JObj (("item_refs", JArr (map refValue items)) :: match metadata with JObj o => o | _ => [] end)
  end.

(** [run?.status === "succeeded" ? run.outputs.find(...) : undefined] *)
Definition currentOutput (n : WorkflowNode) (port : string) : option RunPortOutput :=
  match nd_run (wn_data n) with
  | Some run => match rr_status run with nr_succeeded => find (λ o, bool_decide (ro_port o = port)) (rr_outputs run) | _ => None end
  | None => None
  end.

Definition outputPort (n : WorkflowNode) (port : string) : option Port := find (λ p, bool_decide (port_name p = port)) (wn_outputs n).

(** ** Members *)

Inductive CollectionMember :=
| cm_library (plugId originId : string) (refs : list jsval)
| cm_output (plugId edgeId sourceNodeId sourcePortName : string) (label : string) (refs : option (list jsval))
| cm_empty (plugId : string).

Definition memberPlug (m : CollectionMember) : string := match m with cm_library p _ _ | cm_output p _ _ _ _ _ | cm_empty p => p end.

Definition isEmptyMember (m : CollectionMember) : bool := match m with cm_empty _ => true | _ => false end.

Definition fillsPlug (nodeId plug : string) (o : GraphOrigin) : bool :=
  bool_decide (o_to_node o = nodeId) && bool_decide (o_to_port o = COLLECTION_PORT) && bool_decide (o_to_plug o = Val plug).

Definition feedsPlug (nodeId plug : string) (e : WorkflowEdge) : bool :=
  bool_decide (we_target e = nodeId) && bool_decide ((decodeHandleId (we_targetHandle e) ≫= plugId) = Some plug).

(** [edge?.data?.sourcePortName ?? decodeHandleId(edge?.sourceHandle)?.portName] *)
Definition edgeSourcePort (e : WorkflowEdge) : option string :=
  match we_data e ≫= ed_sourcePortName with Some p => Some p | None => portName <$> decodeHandleId (we_sourceHandle e) end.

Definition collectionMember (node : WorkflowNode) (nodes : list WorkflowNode) (edges : list WorkflowEdge) (origins : list GraphOrigin) (plug : string) : CollectionMember :=
  match find (fillsPlug (wn_id node) plug) origins with
  | Some origin => cm_library plug (o_id origin) (cardArtifactRefs (o_value origin))
  | None =>
      match find (feedsPlug (wn_id node) plug) edges with
      | None => cm_empty plug
      | Some edge =>
          match truthy (edgeSourcePort edge) with
          | None => cm_empty plug
          | Some sourcePortName =>
              let source := find_id (we_source edge) nodes in
              let port := source ≫= λ n, outputPort n sourcePortName in
              let output := source ≫= λ n, currentOutput n sourcePortName in
              cm_output plug (we_id edge) (we_source edge) sourcePortName
                (default "Output" (wn_title <$> source) +:+ " → " +:+ default sourcePortName (port ≫= port_title))
                ((λ o, cardArtifactRefs (outputValue (ro_value o))) <$> output)
          end
      end
  end.

Definition collectionMembers (node : WorkflowNode) (nodes : list WorkflowNode) (edges : list WorkflowEdge) (origins : list GraphOrigin) : list CollectionMember :=
  map (λ plug, collectionMember node nodes edges origins (wp_id plug)) (inputPlugsForPort (wn_inputPlugs node) COLLECTION_PORT).

Definition collectionSparePlugId (members : list CollectionMember) : option string := memberPlug <$> find isEmptyMember members.

Definition memberRefs (m : CollectionMember) : list jsval :=
  match m with cm_library _ _ refs => refs | cm_output _ _ _ _ _ refs => default [] refs | cm_empty _ => [] end.

Definition collectionHoldsArtifacts (members : list CollectionMember) (refs : list jsval) : bool :=
  if is_nil refs then false
  else forallb (λ ref, bool_decide (artifactId ref ∈ concat (map (λ m, map artifactId (memberRefs m)) members))) refs.

Definition collectionsWithoutSpare (nodes : list WorkflowNode) (edges : list WorkflowEdge) (origins : list GraphOrigin) : list string :=
  map wn_id (filter (λ n, collectionSparePlugId (collectionMembers n nodes edges origins) = None) (filter isCollectionNode nodes)).

(** ** Commands of the canvas *)

(** The bindings of a node, as it is stored with them. *)
Definition addNodeCommand (nodeId : string) (data : WorkflowNodeData) (position : GraphPoint) : GraphCommand :=
  add_node
    {| n_artifact_type_bindings := map (λ b, {| variable := b.1; artifact_type := {| at_id := ty_id b.2; at_schema_version := num (ty_schema_version b.2) |} |}) (nd_artifactTypeBindings data);
       n_config := Val (nd_config data); n_id := nodeId; n_kind := KBuiltin;
       n_input_plugs := map (λ p, {| plug_id := wp_id p; plug_port := wp_portName p |}) (nd_inputPlugs data);
       n_layout := orNull (serializeNodeLayout (nd_layout data)); n_operator_id := spec_operator_id (nd_spec data);
       n_operator_version := spec_operator_version (nd_spec data); n_position := position |}.

(** The renderer's [Connection] has the fields of an authored one. *)
Notation CanvasConnection := GraphAuthoringConnection (only parsing).

Definition addEdgeCommand (connection : CanvasConnection) (data : option WorkflowEdgeData) (edgeId : string) : res GraphCommand :=
  match decodeHandleId (cn_sourceHandle connection), decodeHandleId (cn_targetHandle connection) with
  | Some source, Some target =>
      if bool_decide (cn_source connection = "") || bool_decide (cn_target connection = "") || bool_decide (portName source = "") || bool_decide (portName target = "")
      then Throw "Cannot author an edge without typed endpoint handles"
      else
        Ok (add_edge
          {| e_id := edgeId; e_from_node := cn_source connection; e_from_port := portName source; e_to_node := cn_target connection;
             e_to_port := portName target; e_to_plug := orNull (plugId target); e_enabled := default true (ed_enabled <$> data);
             e_collection_mode := default MDirect (ed_collectionMode <$> data);
             e_projection := orNull (data ≫= ed_projection); e_conversion_path := default [] (data ≫= ed_conversionPath);
             e_route_offset := orNull (data ≫= ed_routeOffset) |})
  | _, _ => Throw "Cannot author an edge without typed endpoint handles"
  end.

(** [NodeChange] and [EdgeChange]: a move that may still be dragging, a removal, or
    something the document does not hear of. *)
Inductive CanvasChange :=
| change_position (id : string) (dragging : bool) (position : option GraphPoint)
| change_remove (id : string)
| change_other (id : string).

Definition changePosition (c : CanvasChange) : option NodePosition :=
  match c with
  | change_position i false (Some p) => Some {| np_node_id := i; np_x := pt_x p; np_y := pt_y p |}
  | _ => None
  end.

Definition changeRemoved (c : CanvasChange) : option string := match c with change_remove i => Some i | _ => None end.

Definition graphCommandsFromNodeChanges (changes : list CanvasChange) : list GraphCommand :=
  let positions := omap changePosition changes in
  let node_ids := omap changeRemoved changes in
  (if is_nil positions then [] else [move_nodes positions]) ++ (if is_nil node_ids then [] else [remove_nodes node_ids]).

Definition graphCommandsFromEdgeChanges (changes : list CanvasChange) : list GraphCommand :=
  let edge_ids := omap changeRemoved changes in if is_nil edge_ids then [] else [remove_edges edge_ids].

(** ** Collecting *)

Inductive CollectionSource :=
| cs_library (cardId : string) (position : GraphPoint) (value : jsval)
| cs_output (cardId : string) (position : GraphPoint) (sourceNodeId sourcePortName : string).

Definition sourceCard (s : CollectionSource) : string := match s with cs_library c _ _ | cs_output c _ _ _ => c end.
Definition sourcePosition (s : CollectionSource) : GraphPoint := match s with cs_library _ p _ | cs_output _ p _ _ => p end.

(** A card shows a value with a type; the version of a type is an integer. *)
Definition artifactTypeOfSource (nodes : list WorkflowNode) (source : CollectionSource) : option ArtifactTypeIdentity :=
  match source with
  | cs_library _ _ value => artifactTypeForValue value
  | cs_output _ _ sourceNodeId sourcePortName =>
      producer ← find_id sourceNodeId nodes;
      port ← outputPort producer sourcePortName;
      match currentOutput producer sourcePortName with
      | Some current => artifactTypeForValue (outputValue (ro_value current))
      | None => resolvedPortArtifactType port (nd_artifactTypeBindings (wn_data producer))
      end
  end.

Definition collectDisabledReason (sources : list CollectionSource) (nodes : list WorkflowNode) : option string :=
  if length sources <? 2 then Some "Select two or more artifacts to collect."
  else
    let types := map (artifactTypeOfSource nodes) sources in
    if existsb (λ t, bool_decide (t = None)) types then Some "Run the producing node first, so its artifact type is known."
    else if existsb (λ t, negb (bool_decide (t = default None (head types)))) types then Some "Select artifacts of one type to collect."
    else None.

(** Cards whose tops are at most 24 apart share a row. *)
Definition collectOrder (left right : CollectionSource) : Z :=
  let dy := num_sub (pt_y (sourcePosition left)) (pt_y (sourcePosition right)) in
  if num_gtb (math_abs dy) (num 24) then numSign (pt_y (sourcePosition left)) (pt_y (sourcePosition right))
  else numSign (pt_x (sourcePosition left)) (pt_x (sourcePosition right)).

Definition outputKey (sourceNodeId sourcePortName : string) : string := sourceNodeId +:+ ":" +:+ sourcePortName.

(** The filter that drops what is already gathered. *)
Fixpoint firstSources (seenArtifacts : list jsval) (seenOutputs : list string) (sources : list CollectionSource) : list CollectionSource :=
  match sources with
  | [] => []
  | cs_output c p n port :: rest =>
      let key := outputKey n port in
      if bool_decide (key ∈ seenOutputs) then firstSources seenArtifacts seenOutputs rest
      else cs_output c p n port :: firstSources seenArtifacts (key :: seenOutputs) rest
  | cs_library c p value :: rest =>
      let artifactIds := map artifactId (cardArtifactRefs value) in
      if forallb (λ i, bool_decide (i ∈ seenArtifacts)) artifactIds then firstSources seenArtifacts seenOutputs rest
      else cs_library c p value :: firstSources (artifactIds ++ seenArtifacts) seenOutputs rest
  end.

Definition untypedPort (port : Port) : string :=
  "Cannot encode port " +:+ port_name port +:+ ": it has no artifact type or artifact type variable".

Record CollectPlan := { cp_collectionId : string; cp_commands : list GraphCommand; cp_removedCardIds : list string }.

(** The edge of a member that follows an output; [None] is the early return of a producer
    that is gone. *)
Definition outputMemberEdge (nodes : list WorkflowNode) (collectionId sourceNodeId sourcePortName targetHandle edgeUuid : string) : res (option GraphCommand) :=
  match find_id sourceNodeId nodes with
  | None => Ok None
  | Some producer =>
      match outputPort producer sourcePortName with
      | None => Ok None
      | Some port =>
          match portMetaForPort port (effectivePortShape (wn_data producer) port) None (nd_artifactTypeBindings (wn_data producer)) with
          | None => Throw (untypedPort port)
          | Some meta =>
              c ← addEdgeCommand
                {| cn_source := wn_id producer; cn_sourceHandle := Some (encodeHandleId meta); cn_target := collectionId; cn_targetHandle := Some targetHandle |}
                (Some {| ed_enabled := true; ed_collectionMode := MDirect; ed_projection := None; ed_conversionPath := Some []; ed_routeOffset := None;
                         ed_sourcePortName := None; ed_targetPortName := None; ed_targetPlugId := None; ed_compatibilityIssues := None |})
                ("edge-" +:+ edgeUuid);
              Ok (Some c)
          end
      end
  end.

(** One turn of the loop over the members. *)
Definition memberCommand (nodes : list WorkflowNode) (itemsPort : Port) (bindings : list (string * ArtifactTypeIdentity)) (collectionId : string)
    (source : CollectionSource) (plugId uuid : string) : res (option GraphCommand) :=
  match portMetaForPort itemsPort (port_shape itemsPort) (Some plugId) bindings with
  | None => Throw (untypedPort itemsPort)
  | Some meta =>
      match source with
      | cs_library _ _ value =>
          Ok (Some (add_origin {| o_id := "origin-" +:+ uuid; o_to_node := collectionId; o_to_port := COLLECTION_PORT; o_to_plug := Val plugId;
                                  o_value := value; o_collection_mode := MDirect; o_conversion_path := [] |}))
      | cs_output _ _ sourceNodeId sourcePortName => outputMemberEdge nodes collectionId sourceNodeId sourcePortName (encodeHandleId meta) uuid
      end
  end.

Fixpoint memberCommands (nodes : list WorkflowNode) (itemsPort : Port) (bindings : list (string * ArtifactTypeIdentity)) (collectionId : string)
    (members : list (CollectionSource * string * string)) : res (option (list GraphCommand)) :=
  match members with
  | [] => Ok (Some [])
  | (source, plugId, uuid) :: rest =>
      c ← memberCommand nodes itemsPort bindings collectionId source plugId uuid;
      match c with
      | None => Ok None
      | Some c => cs ← memberCommands nodes itemsPort bindings collectionId rest; Ok (option_map (cons c) cs)
      end
  end.

Definition orderedSources (sources : list CollectionSource) : list CollectionSource := firstSources [] [] (js_sort collectOrder sources).

(** The ids: the plugs of the members, the spare, the collection, and one per member. *)
Definition collectCardsCommands (sources : list CollectionSource) (nodes : list WorkflowNode) (collectSpec : NodeSpec)
    (createNodeData : NodeSpec → list GraphInputPlug → WorkflowNodeData) (uuid : nat → string) : res (option CollectPlan) :=
  match collectDisabledReason sources nodes with
  | Some _ => Ok None
  | None =>
      let itemsPort := find (λ p, bool_decide (port_name p = COLLECTION_PORT)) (spec_inputs collectSpec) in
      let artifactType := head sources ≫= artifactTypeOfSource nodes in
      match itemsPort, truthy (itemsPort ≫= port_artifact_type_variable), artifactType with
      | Some itemsPort, Some typeVariable, Some artifactType =>
          let ordered := orderedSources sources in
          let count := length ordered in
          let plugs := map uuid (seq 0 count) in
          let collectionId := "node-" +:+ uuid (S count) in
          let bindings := [(typeVariable, artifactType)] in
          let plugOf i := {| plug_id := i; plug_port := COLLECTION_PORT |} in
          let data := with_bindings bindings (createNodeData collectSpec (map plugOf plugs ++ [plugOf (uuid count)])) in
          let position := {| pt_x := math_mins (map (λ s, pt_x (sourcePosition s)) sources); pt_y := math_mins (map (λ s, pt_y (sourcePosition s)) sources) |} in
          cs ← memberCommands nodes itemsPort bindings collectionId (zip (zip ordered plugs) (map uuid (seq (S (S count)) count)));
          Ok (option_map (λ cs, {| cp_collectionId := collectionId; cp_commands := addNodeCommand collectionId data position :: cs;
                                   cp_removedCardIds := map sourceCard sources |}) cs)
      | _, _, _ => Ok None
      end
  end.

(** ** Taking a collection apart *)

Inductive UngroupedCard :=
| uc_library (position : GraphPoint) (value : jsval)
| uc_output (position : GraphPoint) (sourceNodeId sourcePortName : string).

Definition ungroupCollectionDisabledReason (collectionId : string) (edges : list WorkflowEdge) : option string :=
  if existsb (λ e, bool_decide (we_source e = collectionId)) edges then Some "Disconnect this collection's output before ungrouping it." else None.

Definition ungroupedCard (position : GraphPoint) (uuid : string) (m : CollectionMember) : option UngroupedCard :=
  match m with
  | cm_library _ _ refs => uc_library position <$> artifactCardValue refs JUndefined false uuid
  | cm_output _ _ sourceNodeId sourcePortName _ _ => Some (uc_output position sourceNodeId sourcePortName)
  | cm_empty _ => None
  end.

Definition ungroupedCollectionCards (origin : GraphPoint) (members : list CollectionMember) (cardWidth cardHeight : jsnum) (uuid : nat → string) : list UngroupedCard :=
  let filled := filter (λ m, isEmptyMember m = false) members in
  let columns := Z.max 1 (ceil_sqrt (length filled)) in
  let place := gridPlace (pt_x origin) (pt_y origin) columns (num_add cardWidth (num 64)) (num_add cardHeight (num 88)) in
  omap id (imap (λ index m, ungroupedCard (place index) (uuid index) m) filled).

(** ** What is gathered *)

(** What a source brings, and what the commands of a collection put on a plug. *)
Inductive Gathered := g_value (v : jsval) | g_output (node port : string).

Definition gatheredBy (s : CollectionSource) : Gathered := match s with cs_library _ _ v => g_value v | cs_output _ _ n p => g_output n p end.

Definition filledBy (os : list GraphOrigin) (es : list GraphEdge) (collectionId plug : string) : list Gathered :=
  ((λ o, g_value (o_value o)) <$> filter (λ o, o_to_node o = collectionId ∧ o_to_port o = COLLECTION_PORT ∧ o_to_plug o = Val plug) os) ++
  ((λ e, g_output (e_from_node e) (e_from_port e)) <$> filter (λ e, e_to_node e = collectionId ∧ e_to_port e = COLLECTION_PORT ∧ e_to_plug e = Val plug) es).

(** A source adds nothing to the members: its output is followed, or its artifacts are held. *)
Definition covers (members : list CollectionSource) (s : CollectionSource) : Prop :=
  match s with
  | cs_output _ _ n p => ∃ c q, cs_output c q n p ∈ members
  | cs_library _ _ v => ∀ r, r ∈ cardArtifactRefs v → ∃ c q w, cs_library c q w ∈ members ∧ artifactId r ∈ map artifactId (cardArtifactRefs w)
  end.

Lemma covers_cons m members s : covers members s → covers (m :: members) s.
Proof.
  destruct s as [c q v|c q n p]; cbn.
  - intros H r Hr. destruct (H r Hr) as (c' & q' & w & ? & ?). exists c', q', w. by split; [right|].
  - intros (c' & q' & ?). exists c', q'. by right.
Qed.

Lemma forallb_elem {A} (f : A → bool) l : forallb f l = true ↔ ∀ x, x ∈ l → f x = true.
Proof. rewrite forallb_forall. by setoid_rewrite list_elem_of_In. Qed.

Lemma firstSources_sub seenA seenO l : sublist (firstSources seenA seenO l) l.
Proof.
  revert seenA seenO. induction l as [|[c p v|c p n port] l IH]; intros; cbn [firstSources]; [done|..].
  - destruct (forallb _ _); [by apply sublist_cons|]. by apply sublist_skip.
  - case_bool_decide; [by apply sublist_cons|]. by apply sublist_skip.
Qed.

(** The id of a node that is followed has no colon, so that a key names one output. *)
Definition plain_source (s : CollectionSource) : Prop := match s with cs_output _ _ n _ => lacks ":"%char n | _ => True end.

Lemma outputKey_inj n p n' p' : lacks ":"%char n → lacks ":"%char n' → outputKey n p = outputKey n' p' → n = n' ∧ p = p'.
Proof. apply (split_at_separator ":"%char). Qed.

(** Every source is covered by what is kept or was seen before. *)
Lemma firstSources_cover seenA seenO l s :
  Forall plain_source l → s ∈ l → covers (firstSources seenA seenO l) s ∨
    match s with
    | cs_output _ _ n p => outputKey n p ∈ seenO
    | cs_library _ _ v => ∀ r, r ∈ cardArtifactRefs v →
        artifactId r ∈ seenA ∨ ∃ c q w, cs_library c q w ∈ firstSources seenA seenO l ∧ artifactId r ∈ map artifactId (cardArtifactRefs w)
    end.
Proof.
  intros Hplain. revert seenA seenO. induction Hplain as [|x l Hx Hplain IH]; intros seenA seenO; [by intros ?%not_elem_of_nil|].
  destruct x as [c p v|c p n port]; cbn [firstSources].
  - destruct (forallb _ _) eqn:Ef.
    + rewrite forallb_elem in Ef. intros [->|Hs]%elem_of_cons; [|by apply IH].
      right. intros r Hr. left. apply (bool_decide_unpack _). apply Is_true_true. apply Ef. by apply list_elem_of_fmap_2.
    + intros [->|Hs]%elem_of_cons.
      { left. intros r Hr. exists c, p, v. split; [by left|]. by apply list_elem_of_fmap_2. }
      destruct (IH (map artifactId (cardArtifactRefs v) ++ seenA) seenO Hs) as [H|H]; [left; by apply covers_cons|right].
      destruct s; [|done]. intros r Hr. destruct (H r Hr) as [[Hin|Hin]%elem_of_app|(c' & q & w & ? & ?)]; [..|right; exists c', q, w; by split; [right|]].
      * right. exists c, p, v. by split; [left|].
      * by left.
  - case_bool_decide as Hk.
    + intros [->|Hs]%elem_of_cons; [by right|]. by apply IH.
    + intros [->|Hs]%elem_of_cons; [left; exists c, p; by left|].
      destruct (IH seenA (outputKey n port :: seenO) Hs) as [H|H]; [left; by apply covers_cons|].
      destruct s as [c' q w|c' q n' port']; [right|].
      * intros r Hr. destruct (H r Hr) as [?|(c'' & q' & w' & ? & ?)]; [by left|]. right. exists c'', q', w'. by split; [right|].
      * apply elem_of_cons in H as [E|H]; [|by right]. left. exists c, p.
        rewrite Forall_forall in Hplain. apply outputKey_inj in E as [-> ->]; [by left|by apply (Hplain _ Hs)|done].
Qed.

(** No kept source repeats what was seen. *)
Lemma firstSources_new seenA seenO l s :
  s ∈ firstSources seenA seenO l →
  match s with
  | cs_output _ _ n p => outputKey n p ∉ seenO
  | cs_library _ _ v => ∃ r, r ∈ cardArtifactRefs v ∧ artifactId r ∉ seenA
  end.
Proof.
  revert seenA seenO. induction l as [|[c p v|c p n port] l IH]; intros seenA seenO; cbn [firstSources]; [by intros ?%not_elem_of_nil|..].
  - destruct (forallb _ _) eqn:Ef; [apply IH|]. intros [->|Hs]%elem_of_cons.
    + apply not_true_iff_false in Ef. rewrite forallb_elem in Ef.
      destruct (decide (Exists (λ r, artifactId r ∉ seenA) (cardArtifactRefs v))) as [E|E]; [by apply Exists_exists in E|].
      exfalso. apply Ef. intros x (r & -> & Hr)%list_elem_of_fmap. apply bool_decide_eq_true_2.
      apply not_Exists_Forall in E; [|solve_decision]. rewrite Forall_forall in E. specialize (E r Hr). cbn in E. by destruct (decide (artifactId r ∈ seenA)).
    + specialize (IH _ _ Hs). destruct s; [|done]. destruct IH as (r & Hr & Hn). exists r. split; [done|]. intros ?. apply Hn, elem_of_app. by right.
  - case_bool_decide as Hk; [apply IH|]. intros [->|Hs]%elem_of_cons; [done|]. specialize (IH _ _ Hs). destruct s; [done|].
    intros ?. apply IH. by right.
Qed.

Lemma firstSources_NoDup seenA seenO l : NoDup (gatheredBy <$> firstSources seenA seenO l).
Proof.
  revert seenA seenO. induction l as [|[c p v|c p n port] l IH]; intros seenA seenO; cbn [firstSources]; [constructor|..].
  - destruct (forallb _ _) eqn:Ef; [apply IH|]. constructor; [|apply IH]. intros (s & E & Hs)%list_elem_of_fmap.
    apply firstSources_new in Hs. destruct s as [c' q w|]; [|done]. injection E as ->. destruct Hs as (r & Hr & Hn).
    apply Hn, elem_of_app. left. by apply list_elem_of_fmap_2.
  - case_bool_decide as Hk; [apply IH|]. constructor; [|apply IH]. intros (s & E & Hs)%list_elem_of_fmap.
    apply firstSources_new in Hs. destruct s as [|c' q n' port']; [done|]. injection E as -> ->. apply Hs. by left.
Qed.

(** The members are among the sources, repeat nothing and leave nothing out. *)
Lemma orderedSources_exact sources : Forall plain_source sources →
  (∀ s, s ∈ orderedSources sources → s ∈ sources) ∧ NoDup (gatheredBy <$> orderedSources sources) ∧ Forall (covers (orderedSources sources)) sources.
Proof.
  intros Hplain. unfold orderedSources. split_and!.
  - intros s Hs. rewrite <- (js_sort_perm collectOrder sources). eapply elem_of_submseteq; [done|]. apply sublist_submseteq, firstSources_sub.
  - apply firstSources_NoDup.
  - apply Forall_forall. intros s Hs. rewrite <- (js_sort_perm collectOrder sources) in Hs.
    destruct (firstSources_cover [] [] (js_sort collectOrder sources) s) as [H|H]; [by rewrite js_sort_perm|done|done|]. destruct s as [c q v|c q n p].
    + intros r Hr. by destruct (H r Hr) as [?%not_elem_of_nil|?].
    + by apply not_elem_of_nil in H.
Qed.

Lemma orderedSources_length sources : length (orderedSources sources) ≤ length sources.
Proof. unfold orderedSources. etrans; [apply sublist_length, firstSources_sub|]. by rewrite js_sort_perm. Qed.

(** ** The commands of a collection *)

(** The handles of the items port and of the outputs can be read back. *)
Record readable_handles (sources : list CollectionSource) (nodes : list WorkflowNode) (spec : NodeSpec) (uuid : nat → string) : Prop := {
  rh_items : ∀ port v t k meta, port ∈ spec_inputs spec → port_name port = COLLECTION_PORT → truthy (port_artifact_type_variable port) = Some v →
    head sources ≫= artifactTypeOfSource nodes = Some t → k < length sources →
    portMetaForPort port (port_shape port) (Some (uuid k)) [(v, t)] = Some meta → handle_ok meta;
  rh_outputs : ∀ n port meta, n ∈ nodes → port ∈ wn_outputs n →
    portMetaForPort port (effectivePortShape (wn_data n) port) None (nd_artifactTypeBindings (wn_data n)) = Some meta → handle_ok meta;
  rh_uuid : ∀ k, uuid k ≠ ""
}.

Lemma portMeta_name port sh plug b meta : portMetaForPort port sh plug b = Some meta → portName meta = port_name port ∧ plugId meta = truthy plug.
Proof.
  unfold portMetaForPort. destruct (resolvedPortArtifactType port b); [intros [= <-]; done|].
  destruct (truthy (portArtifactTypeVariable port)); [|done]. intros [= <-]. done.
Qed.

(** What one turn of the loop adds. *)
Definition memberAdded (collectionId : string) (m : CollectionSource * string * string) (c : GraphCommand) : Prop :=
  match m.1.1 with
  | cs_library _ _ v =>
      c = add_origin {| o_id := "origin-" +:+ m.2; o_to_node := collectionId; o_to_port := COLLECTION_PORT; o_to_plug := Val m.1.2;
                        o_value := v; o_collection_mode := MDirect; o_conversion_path := [] |}
  | cs_output _ _ n p =>
      ∃ e, c = add_edge e ∧ e_id e = "edge-" +:+ m.2 ∧ e_from_node e = n ∧ e_from_port e = p ∧ e_to_node e = collectionId ∧
           e_to_port e = COLLECTION_PORT ∧ e_to_plug e = Val m.1.2 ∧ e_enabled e = true ∧ e_collection_mode e = MDirect
  end.

Lemma addEdgeCommand_ok cn data i c source target :
  handle_ok source → handle_ok target → cn_sourceHandle cn = Some (encodeHandleId source) → cn_targetHandle cn = Some (encodeHandleId target) →
  addEdgeCommand cn data i = Ok c →
  ∃ e, c = add_edge e ∧ e_id e = i ∧ e_from_node e = cn_source cn ∧ e_from_port e = portName source ∧ e_to_node e = cn_target cn ∧
       e_to_port e = portName target ∧ e_to_plug e = orNull (plugId target) ∧ e_enabled e = default true (ed_enabled <$> data) ∧
       e_collection_mode e = default MDirect (ed_collectionMode <$> data).
Proof.
  intros Hs Ht Es Et. unfold addEdgeCommand. rewrite Es, Et, !decode_encoded by done.
  destruct (_ || _ || _ || _); [done|]. intros [= <-]. eexists. split_and!; reflexivity.
Qed.

Section members.
Context (sources : list CollectionSource) (nodes : list WorkflowNode) (spec : NodeSpec) (uuid : nat → string) (itemsPort : Port) (v : string) (t : ArtifactTypeIdentity).
Context (Hread : readable_handles sources nodes spec uuid) (Hport : itemsPort ∈ spec_inputs spec) (Hname : port_name itemsPort = COLLECTION_PORT).
Context (Hv : truthy (port_artifact_type_variable itemsPort) = Some v) (Ht : head sources ≫= artifactTypeOfSource nodes = Some t).

Lemma memberCommand_added collectionId source k u c :
  k < length sources → memberCommand nodes itemsPort [(v, t)] collectionId source (uuid k) u = Ok (Some c) → memberAdded collectionId (source, uuid k, u) c.
Proof.
  intros Hk. unfold memberCommand. destruct (portMetaForPort itemsPort _ _ _) as [target|] eqn:Et; [|done].
  pose proof (rh_items _ _ _ _ Hread _ _ _ _ _ Hport Hname Hv Ht Hk Et) as Htarget.
  apply portMeta_name in Et as [En Ep]. destruct source as [c0 q w|c0 q n p]; [intros [= <-]; done|].
  unfold outputMemberEdge. destruct (find_id n nodes) as [producer|] eqn:Ef; [|done].
  destruct (outputPort producer p) as [port|] eqn:Eo; [|done].
  destruct (portMetaForPort port _ _ _) as [source|] eqn:Es; [|done].
  apply find_id_Some in Ef as [Hin Hid]. apply find_some in Eo as [Hport' Hp]. apply list_elem_of_In in Hport'. apply bool_decide_eq_true in Hp.
  pose proof (rh_outputs _ _ _ _ Hread _ _ _ Hin Hport' Es) as Hsource. apply portMeta_name in Es as [En' _].
  match goal with |- context [addEdgeCommand ?x ?y ?z] => destruct (addEdgeCommand x y z) as [e|] eqn:Ea end; [|done].
  intros [= <-]. eapply addEdgeCommand_ok in Ea as (e' & -> & Hi & Hfn & Hfp & Htn & Htp & Hpl & Hen & Hcm); [|exact Hsource|exact Htarget|done|done].
  exists e'. cbn in Hfn, Htn, Hen, Hcm. split_and!; try done.
  - by rewrite Hfn, <- Hid.
  - by rewrite Hfp, En', Hp.
  - by rewrite Htp, En.
  - rewrite Hpl, Ep. cbn. rewrite bool_decide_eq_false_2 by apply (rh_uuid _ _ _ _ Hread). done.
Qed.

Lemma memberCommands_added collectionId ms cs :
  (∀ m, m ∈ ms → ∃ k, k < length sources ∧ m.1.2 = uuid k) →
  memberCommands nodes itemsPort [(v, t)] collectionId ms = Ok (Some cs) → Forall2 (memberAdded collectionId) ms cs.
Proof.
  revert cs. induction ms as [|[[source plug] u] ms IH]; intros cs Hms; cbn [memberCommands]; [intros [= <-]; constructor|].
  destruct (Hms (source, plug, u)) as (k & Hk & E); [by left|]. cbn in E. subst plug.
  destruct (memberCommand _ _ _ _ _ _ _) as [[c|]|] eqn:Ec; cbn [mbind res_bind]; [|done..].
  destruct (memberCommands _ _ _ _ ms) as [[cs'|]|] eqn:Ecs; cbn [mbind res_bind option_map]; [|done..]. intros [= <-].
  constructor; [by apply memberCommand_added|]. apply IH; [|done]. intros m Hm. apply Hms. by right.
Qed.
End members.

Definition newOrigin (c : GraphCommand) : option GraphOrigin := match c with add_origin o => Some (projectSavedGraphOrigin o) | _ => None end.
Definition newEdge (c : GraphCommand) : option GraphEdge := match c with add_edge e => Some (projectSavedGraphEdge e) | _ => None end.

Lemma applied_members collectionId ms cs d :
  Forall2 (memberAdded collectionId) ms cs → NoDup ms.*2 →
  (∀ u, u ∈ ms.*2 → "origin-" +:+ u ∉ ids (origins d) ∧ "edge-" +:+ u ∉ ids (edges d)) →
  res_fold applyGraphCommandNormalized d cs = Ok (with_edges (edges d ++ omap newEdge cs) (with_origins (origins d ++ omap newOrigin cs) d)).
Proof.
  intros H. revert d. induction H as [|[[source plug] u] c ms cs Hc H IH]; intros d Hnd Hf.
  { cbn. rewrite !app_nil_r. by destruct d. }
  apply NoDup_cons in Hnd as [Hu Hnd]. destruct (Hf u) as [Ho He]; [by left|].
  assert (∀ u', u' ∈ ms.*2 → u' ≠ u) as Hne by (intros u' Hu' ->; done).
  cbn [res_fold]. unfold memberAdded in Hc. cbn [fst snd] in Hc. destruct source as [c0 q w|c0 q n p].
  - subst c. cbn [applyGraphCommandNormalized o_id]. rewrite (proj2 (some_id_false _ _)) by done.
    cbn [mbind res_bind]. rewrite IH; [|done|].
    + cbn [omap list_omap newOrigin newEdge]. cbn [with_origins origins edges]. rewrite <- app_assoc. by destruct d.
    + intros u' Hu'. destruct (Hf u') as [Ho' He']; [by right|]. cbn [with_origins origins edges]. split; [|done].
      unfold ids. rewrite fmap_app. intros [?|[E|?%not_elem_of_nil]%elem_of_cons]%elem_of_app; [done| |done].
      apply (Hne u' Hu'). cbn in E. by simplify_eq.
  - destruct Hc as (e & -> & Hi & _). cbn [applyGraphCommandNormalized]. rewrite Hi, (proj2 (some_id_false _ _)) by done.
    cbn [mbind res_bind]. rewrite IH; [|done|].
    + cbn [omap list_omap newOrigin newEdge]. cbn [with_edges with_origins origins edges]. rewrite <- app_assoc. by destruct d.
    + intros u' Hu'. destruct (Hf u') as [Ho' He']; [by right|]. cbn [with_edges origins edges]. split; [done|].
      unfold ids. rewrite fmap_app. intros [?|[E|?%not_elem_of_nil]%elem_of_cons]%elem_of_app; [done| |done].
      apply (Hne u' Hu'). change (ident (projectSavedGraphEdge e)) with (e_id e) in E. rewrite Hi in E. by simplify_eq.
Qed.

Lemma filledBy_app os os' es es' i plug : filledBy (os ++ os') (es ++ es') i plug ≡ₚ filledBy os es i plug ++ filledBy os' es' i plug.
Proof. unfold filledBy. rewrite !filter_app, !fmap_app. solve_Permutation. Qed.

Lemma filledBy_members collectionId ms cs plug :
  Forall2 (memberAdded collectionId) ms cs →
  filledBy (omap newOrigin cs) (omap newEdge cs) collectionId plug ≡ₚ (λ m, gatheredBy m.1.1) <$> filter (λ m, m.1.2 = plug) ms.
Proof.
  induction 1 as [|[[source k] u] c ms cs Hc H IH]; [done|].
  assert (∀ c, omap newOrigin (c :: cs) = omap newOrigin [c] ++ omap newOrigin cs ∧ omap newEdge (c :: cs) = omap newEdge [c] ++ omap newEdge cs) as E.
  { intros []; done. }
  destruct (E c) as [-> ->]. rewrite filledBy_app, IH. clear E.
  assert (filledBy (omap newOrigin [c]) (omap newEdge [c]) collectionId plug = (if decide (k = plug) then [gatheredBy source] else [])) as ->.
  { unfold memberAdded in Hc. cbn [fst snd] in Hc. destruct source as [c0 q w|c0 q n p].
    - subst c. unfold filledBy. cbn [omap list_omap newOrigin newEdge]. rewrite filter_cons, filter_nil.
      cbn [projectSavedGraphOrigin o_to_node o_to_port o_to_plug or_null id]. destruct (decide (k = plug)) as [->|Hk].
      + by rewrite decide_True by done.
      + by rewrite decide_False by (intros (_ & _ & E); congruence).
    - destruct Hc as (e & -> & _ & Hfn & Hfp & Htn & Htp & Hpl & _). unfold filledBy. cbn [omap list_omap newOrigin newEdge]. rewrite filter_cons, filter_nil.
      cbn [projectSavedGraphEdge e_to_node e_to_port e_to_plug]. rewrite Htn, Htp, Hpl. cbn [or_null id]. destruct (decide (k = plug)) as [->|Hk].
      + rewrite decide_True by done. cbn. by rewrite Hfn, Hfp.
      + by rewrite decide_False by (intros (_ & _ & E); congruence). }
  rewrite filter_cons. cbn [fst snd]. by destruct (decide (k = plug)).
Qed.

Lemma list_filter_nil {A} (P : A → Prop) `{∀ a, Decision (P a)} (l : list A) : (∀ x, x ∈ l → ¬ P x) → filter P l = [].
Proof.
  intros H0. destruct (filter P l) as [|x r] eqn:E; [done|]. assert (x ∈ filter P l) as [HP Hin]%list_elem_of_filter by (rewrite E; by left). by destruct (H0 x Hin).
Qed.

Lemma filter_keyed {A} (f : A → string) (l : list A) i a : NoDup (f <$> l) → l !! i = Some a → filter (λ x, f x = f a) l = [a].
Proof.
  revert i. induction l as [|x l IH]; intros i; [done|]. rewrite fmap_cons. intros [Hx Hnd]%NoDup_cons. rewrite filter_cons. destruct i as [|i]; cbn [lookup list_lookup].
  - intros [= ->]. rewrite decide_True by done. f_equal. apply list_filter_nil. intros y Hy E. apply Hx. rewrite <- E. by apply list_elem_of_fmap_2.
  - intros Hl. rewrite decide_False by (intros E; apply Hx; rewrite E; apply list_elem_of_fmap_2; by eapply list_elem_of_lookup_2). by eapply IH.
Qed.

Lemma filter_unkeyed {A} (f : A → string) (l : list A) k : k ∉ f <$> l → filter (λ x, f x = k) l = [].
Proof. intros Hk. apply list_filter_nil. intros y Hy <-. by apply Hk, list_elem_of_fmap_2. Qed.

(** Nothing of a document without dangling ends is at a node it does not have. *)
Lemma nothing_at d i plug : refs_ok d → i ∉ ids (nodes d) → filledBy (origins d) (edges d) i plug = [].
Proof.
  intros [He Ho] Hi. unfold filledBy.
  assert (∀ n p, end_ok (nodes d) n p → n ≠ i) as Hend by (intros n p (m & Hm & <- & _) <-; by apply Hi, elem_of_ids; exists m).
  rewrite !list_filter_nil; [done|intros x Hx [? _]|intros x Hx [? _]].
  - by eapply Hend; [apply He, Hx|].
  - by eapply Hend; [apply Ho, Hx|].
Qed.

(** The ids drawn at random are in no part of the document yet. *)
Definition fresh_for (uuid : nat → string) (d : AuthoredGraphDocument) : Prop :=
  ∀ k, "node-" +:+ uuid k ∉ ids (nodes d) ∧ "origin-" +:+ uuid k ∉ ids (origins d) ∧ "edge-" +:+ uuid k ∉ ids (edges d).

(** The members of the loop, with their plugs and the ids of their commands. *)
Definition memberDraws (ordered : list CollectionSource) (uuid : nat → string) : list (CollectionSource * string * string) :=
  zip (zip ordered (map uuid (seq 0 (length ordered)))) (map uuid (seq (S (S (length ordered))) (length ordered))).

Lemma memberDraws_fields ordered uuid :
  (memberDraws ordered uuid).*1.*1 = ordered ∧ (memberDraws ordered uuid).*1.*2 = map uuid (seq 0 (length ordered)) ∧
  (memberDraws ordered uuid).*2 = map uuid (seq (S (S (length ordered))) (length ordered)).
Proof.
  assert (∀ a, length (map uuid (seq a (length ordered))) = length ordered) as El by (intros; by rewrite length_map, length_seq).
  unfold memberDraws. split_and!.
  - rewrite (fst_zip (zip ordered _)) by (rewrite length_zip, !El; lia). rewrite fst_zip; [done|rewrite El; lia].
  - rewrite (fst_zip (zip ordered _)) by (rewrite length_zip, !El; lia). rewrite snd_zip; [done|rewrite El; lia].
  - rewrite snd_zip; [done|]. rewrite length_zip, !El. lia.
Qed.

Lemma NoDup_map_uuid (uuid : nat → string) a n : Inj (=) (=) uuid → NoDup (map uuid (seq a n)).
Proof. intros. apply (NoDup_fmap_2 uuid), NoDup_seq. Qed.

(** A plan that is not refused, taken apart. *)
Lemma plan_made sources ns spec create uuid plan :
  collectCardsCommands sources ns spec create uuid = Ok (Some plan) →
  ∃ itemsPort v t node cs, itemsPort ∈ spec_inputs spec ∧ port_name itemsPort = COLLECTION_PORT ∧ truthy (port_artifact_type_variable itemsPort) = Some v ∧ head sources ≫= artifactTypeOfSource ns = Some t ∧
    let ordered := orderedSources sources in
    cp_collectionId plan = "node-" +:+ uuid (S (length ordered)) ∧ cp_removedCardIds plan = map sourceCard sources ∧
    cp_commands plan = add_node node :: cs ∧ n_id node = cp_collectionId plan ∧
    n_input_plugs node = map (λ p, {| plug_id := wp_id p; plug_port := wp_portName p |})
                           (nd_inputPlugs (create spec (map (λ i, {| plug_id := i; plug_port := COLLECTION_PORT |}) (map uuid (seq 0 (length ordered)))
                                                         ++ [{| plug_id := uuid (length ordered); plug_port := COLLECTION_PORT |}]))) ∧
    memberCommands ns itemsPort [(v, t)] (cp_collectionId plan) (memberDraws ordered uuid) = Ok (Some cs).
Proof.
  unfold collectCardsCommands. destruct (collectDisabledReason sources ns); [done|].
  destruct (find _ (spec_inputs spec)) as [port|] eqn:Ef; [|done]. destruct (truthy _) as [v|] eqn:Ev; [|done].
  destruct (head sources ≫= _) as [t|] eqn:Et; [|done]. cbv zeta. fold (memberDraws (orderedSources sources) uuid).
  destruct (memberCommands _ _ _ _ _) as [[cs|]|] eqn:Ec; cbn [mbind res_bind option_map]; [|done..]. intros [= <-].
  apply find_some in Ef as [Hin Hp]. apply list_elem_of_In in Hin. apply bool_decide_eq_true in Hp.
  exists port, v, t. eexists _, cs. cbn [cp_collectionId cp_removedCardIds cp_commands]. unfold addNodeCommand. split_and!; try done.
Qed.

(** The plug of a member is filled by what the member brings, the others by nothing. *)
Lemma filled_plug collectionId members uuid cs i :
  Inj (=) (=) uuid → Forall2 (memberAdded collectionId) (memberDraws members uuid) cs →
  filledBy (omap newOrigin cs) (omap newEdge cs) collectionId (uuid i) ≡ₚ option_list (gatheredBy <$> members !! i).
Proof.
  intros Hinj Hms. destruct (memberDraws_fields members uuid) as (F1 & F2 & F3). rewrite (filledBy_members _ _ _ _ Hms).
  assert ((λ m, m.1.2) <$> memberDraws members uuid = map uuid (seq 0 (length members))) as F by (by rewrite <- F2, <- list_fmap_compose).
  destruct (members !! i) as [m|] eqn:Em; cbn [fmap option_fmap option_map option_list].
  - pose proof (lookup_lt_Some _ _ _ Em) as Hi.
    assert (∃ x, memberDraws members uuid !! i = Some x ∧ x.1.1 = m) as (x & Hx & Em').
    { rewrite <- F1, !list_lookup_fmap in Em. destruct (memberDraws members uuid !! i) as [x|]; [|done]. exists x. split; [done|]. by injection Em. }
    assert (x.1.2 = uuid i) as Ek.
    { apply (f_equal (λ l, l !! i)) in F. rewrite list_lookup_fmap, Hx in F. change (map uuid) with (fmap (M:=list) uuid) in F.
      rewrite list_lookup_fmap, lookup_seq_lt in F by done. by injection F. }
    rewrite <- Ek. rewrite (filter_keyed (λ m, m.1.2) _ i x); [by rewrite <- Em'| |done]. rewrite F. by apply NoDup_map_uuid.
  - rewrite filter_unkeyed; [done|]. rewrite F. apply lookup_ge_None in Em. intros (j & E%Hinj & Hj)%list_elem_of_fmap. subst j. apply elem_of_seq in Hj. lia.
Qed.

(** The commands of the members only add ends at the collection. *)
Lemma added_at collectionId ms cs :
  Forall2 (memberAdded collectionId) ms cs →
  Forall (λ o, o_to_node o = collectionId) (omap newOrigin cs) ∧ Forall (λ e, e_to_node e = collectionId) (omap newEdge cs).
Proof.
  intros Hms. split; apply Forall_forall; intros x (c & Hc & Ex)%list_elem_of_omap; apply list_elem_of_lookup in Hc as [k Hk];
    destruct (Forall2_lookup_r _ _ _ _ _ Hms Hk) as (m & _ & Hm); unfold memberAdded in Hm; destruct m.1.1.
  - subst c. by injection Ex as <-.
  - by destruct Hm as (e & -> & _).
  - by subst c.
  - destruct Hm as (e & -> & _ & _ & _ & Htn & _). by injection Ex as <-.
Qed.

Lemma plugs_created spec (l : list string) :
  map (λ p, {| plug_id := wp_id p; plug_port := wp_portName p |}) (nd_inputPlugs (createSavedNodeData spec (map (λ i, {| plug_id := i; plug_port := COLLECTION_PORT |}) l))) =
  (λ i, {| plug_id := i; plug_port := COLLECTION_PORT |}) <$> l.
Proof. induction l as [|i l IH]; [done|]. cbn in *. by f_equal. Qed.

(** ** Reading order *)

Lemma this_opp (a : Qc) : (this (- a)%Qc == - this a)%Q.
Proof. apply Qred_correct. Qed.

Definition finite_or_0 (a : jsnum) : Q := match a with NFin q => this q | _ => 0%Q end.

(** The top and the left side of a card. *)
Definition top (s : CollectionSource) : Q := finite_or_0 (pt_y (sourcePosition s)).
Definition left_side (s : CollectionSource) : Q := finite_or_0 (pt_x (sourcePosition s)).

(** Two cards stand in a row when their tops are at most 24 apart. *)
Definition same_row (s t : CollectionSource) : Prop := (top s - top t <= 24)%Q ∧ (top t - top s <= 24)%Q.

(** A card comes before another one: in its row, to the left, or in a row above. *)
Definition reads_before (s t : CollectionSource) : Prop := (same_row s t ∧ left_side s <= left_side t)%Q ∨ (top s + 24 < top t)%Q.

(** The cards stand at places, in rows: cards in a row with the same card share theirs. *)
Record in_rows (sources : list CollectionSource) : Prop := {
  ir_placed : ∀ s, s ∈ sources → finitePoint (sourcePosition s) = true;
  ir_rows : ∀ r s t, r ∈ sources → s ∈ sources → t ∈ sources → same_row r s → same_row s t → same_row r t
}.

Section insertion.
Context {A : Type} (cmp : A → A → Z) (R : A → A → Prop) (L : list A).
Context (Hle : ∀ x y, x ∈ L → y ∈ L → (cmp x y <= 0)%Z → R x y) (Hgt : ∀ x y, x ∈ L → y ∈ L → (0 < cmp x y)%Z → R y x).
Context (Htrans : ∀ x y z, x ∈ L → y ∈ L → z ∈ L → R x y → R y z → R x z).

(** A comparison that is an order on the elements at hand sorts them. *)
Lemma insert_sorts x l : x ∈ L → Forall (λ y, y ∈ L) l → StronglySorted R l → StronglySorted R (js_insert cmp x l).
Proof using All.
  intros Hx Hl Hs. induction Hs as [|y l Hs IH Hy]; cbn [js_insert]; [repeat constructor|]. apply Forall_cons in Hl as [Hyl Hl].
  destruct (Z.leb_spec (cmp x y) 0) as [Hxy|Hxy].
  - constructor; [by constructor|]. constructor; [by apply Hle|]. rewrite Forall_forall in Hy, Hl. apply Forall_forall.
    intros z Hz. apply (Htrans x y z); auto.
  - constructor; [by apply IH|]. apply Forall_forall. intros z Hz. rewrite js_insert_perm in Hz; apply elem_of_cons in Hz as [->|Hz]; [by apply Hgt|]. by eapply Forall_forall in Hy.
Qed.

Lemma sort_sorts l : Forall (λ y, y ∈ L) l → StronglySorted R (js_sort cmp l).
Proof using All.
  induction l as [|x l IH]; [constructor|]. intros [Hx Hl]%Forall_cons. apply insert_sorts; [done| |by apply IH].
  apply Forall_forall. intros y Hy. apply elem_of_js_sort in Hy. by eapply Forall_forall in Hl.
Qed.
End insertion.

Lemma sublist_sorted {A} (R : A → A → Prop) l l' : sublist l l' → StronglySorted R l' → StronglySorted R l.
Proof.
  induction 1 as [|x l l' Hl IH|x l l' Hl IH]; [done|..]; intros [Hx Hs]%StronglySorted_cons; [|by apply IH].
  apply StronglySorted_cons. split; [|by apply IH]. apply Forall_forall. intros y Hy. eapply Forall_forall; [exact Hx|]. eapply elem_of_submseteq; [done|]. by apply sublist_submseteq.
Qed.

Lemma numSign_finite (a b : Qc) : (numSign (NFin a) (NFin b) <= 0)%Z ↔ (this a <= this b)%Q.
Proof. unfold numSign. cbn [num_compare]. rewrite Qle_alt. destruct (Qcompare _ _); split; try done; try lia. Qed.

Lemma collectOrder_reads s t : finitePoint (sourcePosition s) = true → finitePoint (sourcePosition t) = true →
  ((collectOrder s t <= 0)%Z → reads_before s t) ∧ ((0 < collectOrder s t)%Z → reads_before t s).
Proof.
  unfold finitePoint, collectOrder, reads_before, same_row, top, left_side. intros [Fx Fy]%andb_true_iff [Gx Gy]%andb_true_iff.
  destruct (sourcePosition s) as [[x| |] [y| |]], (sourcePosition t) as [[x'| |] [y'| |]]; try done. cbn [pt_x pt_y finite_or_0 num_sub num_neg num_add].
  assert (this (y + - y')%Qc == this y - this y')%Q as E by (by rewrite this_add, this_opp).
  assert (num_gtb (math_abs (NFin (y + - y'))) (num 24) = true ↔ (24 < this y - this y' ∨ 24 < this y' - this y)%Q) as Hgap.
  { unfold num_gtb, math_abs. change 24%Q with (inject_Z 24). destruct (Qle_bool 0 (this (y + - y')%Qc)) eqn:El.
    - apply Qle_bool_iff in El. unfold num. rewrite ltb_finite, this_num. change (inject_Z 24) with 24%Q. split; [left|intros [?|?]]; lra.
    - assert (¬ (0 <= this (y + - y')%Qc)%Q) as Hn by (intros Hq%Qle_bool_iff; congruence). apply Qnot_le_lt in Hn.
      unfold num. rewrite ltb_finite, this_num, this_opp. change (inject_Z 24) with 24%Q. split; [right|intros [?|?]]; lra. }
  pose proof (numSign_finite y y') as Hy. pose proof (numSign_finite x x') as Hx.
  destruct (num_gtb _ _).
  - destruct (proj1 Hgap eq_refl) as [H|H]; split; intros Hs; try (right; lra); exfalso.
    + apply Hy in Hs. lra.
    + assert (numSign (NFin y) (NFin y') <= 0)%Z by (apply Hy; lra). lia.
  - assert (this y - this y' <= 24 ∧ this y' - this y <= 24)%Q as [H1 H2].
    { split; apply Qnot_lt_le; intros H; enough (false = true) by done; apply Hgap; [by left|by right]. }
    split; intros Hs; left; (split; [split; lra|]).
    + by apply Hx.
    + destruct (Qlt_le_dec (this x') (this x)) as [?|Hq]; [lra|]. apply Hx in Hq. lia.
Qed.

Lemma reads_before_trans sources r s t : in_rows sources → r ∈ sources → s ∈ sources → t ∈ sources →
  reads_before r s → reads_before s t → reads_before r t.
Proof.
  intros [_ Hrows] Hr Hs Ht. unfold reads_before. intros [[H1 Hl]|H1] [[H2 Hl']|H2]; [| | |right; lra].
  - left. split; [by apply (Hrows r s t)|lra].
  - right. destruct (Qlt_le_dec (top r + 24)%Q (top t)) as [?|Hn]; [done|]. exfalso.
    assert (same_row s t) as [? ?]; [|lra]. apply (Hrows s r t); [done..| |]; unfold same_row in *; lra.
  - right. destruct (Qlt_le_dec (top r + 24)%Q (top t)) as [?|Hn]; [done|]. exfalso.
    assert (same_row r s) as [? ?]; [|lra]. apply (Hrows r t s); [done..| |]; unfold same_row in *; lra.
Qed.

Lemma members_read_in_order sources : in_rows sources → StronglySorted reads_before (orderedSources sources).
Proof.
  intros Hin. eapply sublist_sorted; [apply firstSources_sub|]. apply (sort_sorts _ _ sources).
  - intros s t Hs Ht. apply (collectOrder_reads s t); by apply (ir_placed _ Hin).
  - intros s t Hs Ht. apply (collectOrder_reads s t); by apply (ir_placed _ Hin).
  - intros r s t. by apply reads_before_trans.
  - by apply Forall_forall.
Qed.

(** C17: collecting cards adds one node to the document, with a plug for each member and one
    spare.  The members are cards among the collected ones; each plug is filled by exactly what
    its member showed (the artifacts of a Library card as an origin, the output that a card
    follows as an edge), the spare by nothing.  No member is repeated; every artifact of every
    collected Library card is in a member and every output (node and port) that a collected
    card follows is a member; nothing else of the document changes.  When the cards stand in
    rows (tops at most 24 apart), the members are in reading order: the rows from above, each
    from the left; cards that stand across rows may read in a circle
    (reading_order_is_cyclic).  Assumed of what is given: the ids drawn are different and not in
    the document, which has no dangling ends; the handles of the ports can be read back;
    and the ids of the nodes that are followed have no colon. *)
Theorem collected_cards_become_members sources ns spec uuid plan d :
  collectCardsCommands sources ns spec createSavedNodeData uuid = Ok (Some plan) →
  readable_handles sources ns spec uuid → Inj (=) (=) uuid → refs_ok d → fresh_for uuid d → Forall plain_source sources →
  ∃ members node os es,
    res_fold applyGraphCommandNormalized d (cp_commands plan) =
      Ok (with_edges (edges d ++ es) (with_origins (origins d ++ os) (with_nodes (nodes d ++ [node]) d))) ∧
    n_id node = cp_collectionId plan ∧ length (n_input_plugs node) = S (length members) ∧
    NoDup (plug_id <$> n_input_plugs node) ∧ Forall (λ p, plug_port p = COLLECTION_PORT) (n_input_plugs node) ∧
    (∀ i plug, n_input_plugs node !! i = Some plug →
       filledBy (origins d ++ os) (edges d ++ es) (cp_collectionId plan) (plug_id plug) = option_list (gatheredBy <$> members !! i)) ∧
    Forall (λ o, o_to_node o = cp_collectionId plan) os ∧ Forall (λ e, e_to_node e = cp_collectionId plan) es ∧
    NoDup (gatheredBy <$> members) ∧ (∀ s, s ∈ members → s ∈ sources) ∧ Forall (covers members) sources ∧
    (in_rows sources → StronglySorted reads_before members) ∧
    cp_removedCardIds plan = map sourceCard sources.
Proof.
  intros Hplan Hread Hinj Hrefs Hfresh Hplain. set (members := orderedSources sources). apply plan_made in Hplan as (port & v & t & node & cs & Hport & Hname & Hv & Ht & Hid & Hrm & Hcs & Hn & Hplugs & Hms).
  fold members in Hid, Hplugs, Hms. destruct (memberDraws_fields members uuid) as (F1 & F2 & F3).
  eapply memberCommands_added in Hms; [|exact Hread|exact Hport|exact Hname|exact Hv|exact Ht|].
  2:{ intros m Hm. assert (m.1.2 ∈ (memberDraws members uuid).*1.*2) as Hk by (rewrite <- list_fmap_compose; apply (list_elem_of_fmap_2 (λ m, m.1.2)), Hm).
      rewrite F2 in Hk. apply list_elem_of_fmap in Hk as (k & Ek & Hk). exists k. split; [|done].
      apply elem_of_seq in Hk. pose proof (orderedSources_length sources). fold members in H. lia. }
  assert (n_input_plugs (projectSavedGraphNode node) = (λ i, {| plug_id := i; plug_port := COLLECTION_PORT |}) <$> map uuid (seq 0 (S (length members)))) as Hpl.
  { cbn [projectSavedGraphNode n_input_plugs]. rewrite projectInputPlug_id, Hplugs.
    etrans; [|apply (plugs_created spec)]. by rewrite seq_S, !map_app. }
  exists members, (projectSavedGraphNode node), (omap newOrigin cs), (omap newEdge cs). rewrite Hcs. cbn [res_fold applyGraphCommandNormalized].
  destruct (Hfresh (S (length members))) as (Hfn & _). rewrite (proj2 (some_id_false _ _)) by (by rewrite Hn, Hid). cbn [mbind res_bind].
  rewrite (applied_members _ _ _ _ Hms) by (try (rewrite F3; by apply NoDup_map_uuid); rewrite F3; intros u (k & -> & _)%list_elem_of_fmap; apply Hfresh).
  destruct (orderedSources_exact sources Hplain) as (Hsub & Hnd & Hcov). split_and!; try done.
  - rewrite Hpl, length_fmap, length_map, length_seq. done.
  - rewrite Hpl, <- list_fmap_compose. rewrite list_fmap_id. by apply NoDup_map_uuid.
  - rewrite Hpl. apply Forall_fmap, Forall_forall. done.
  - intros i plug Hi. rewrite Hpl in Hi. rewrite list_lookup_fmap in Hi. apply fmap_Some in Hi as (k & Hk & ->). cbn [plug_id].
    change (map uuid) with (fmap (M:=list) uuid) in Hk. rewrite list_lookup_fmap in Hk. apply fmap_Some in Hk as (j & Hj & ->). apply lookup_seq in Hj as [-> Hi]. cbn [Nat.add].
    pose proof (filledBy_app (origins d) (omap newOrigin cs) (edges d) (omap newEdge cs) (cp_collectionId plan) (uuid i)) as Ha.
    rewrite nothing_at in Ha; [|done|by rewrite Hid]. cbn [app] in Ha. rewrite (filled_plug _ _ _ _ _ Hinj Hms) in Ha.
    destruct (members !! i); cbn in *; [by apply Permutation_singleton_r|by apply Permutation_nil_r].
  - apply (added_at _ _ _ Hms).
  - apply (added_at _ _ _ Hms).
  - apply members_read_in_order.
Qed.

(** ** Taking apart *)

Lemma row_gap (a p b : jsnum) :
  num_isFinite a = true → num_isFinite b = true → num_isFinite p = true → num_ltb (num 24) p = true → num_leb (num_add a p) b = true →
  num_gtb (math_abs (num_sub a b)) (num 24) = true.
Proof.
  destruct a as [a| |], b as [b| |], p as [p| |]; try done. intros _ _ _ Hp%ltb_finite. cbn [num_add]. rewrite leb_finite, this_add. intros H.
  rewrite this_num in Hp. unfold num_gtb, num_sub. cbn [num_neg num_add math_abs].
  assert (this (a + - b)%Qc == this a - this b)%Q as E by (by rewrite this_add, this_opp).
  assert (this a - this b < - inject_Z 24)%Q as Hlt by (change (inject_Z 24) with 24%Q in *; lra).
  destruct (Qle_bool 0 (this (a + - b)%Qc)) eqn:El.
  - exfalso. apply Qle_bool_iff in El. rewrite E in El. change (inject_Z 24) with 24%Q in *. lra.
  - apply ltb_finite. rewrite this_num, this_opp, E. change (inject_Z 24) with 24%Q in *. lra.
Qed.

(** The places of a grid with rows more than 24 apart are in the order of collecting. *)
Lemma grid_collect_order l t c px py i j (s s' : CollectionSource) :
  num_isFinite l = true → num_isFinite t = true → num_isFinite px = true → num_isFinite py = true →
  num_ltb (num 0) px = true → num_ltb (num 24) py = true → (0 < c)%Z → i < j →
  sourcePosition s = gridPlace l t c px py i → sourcePosition s' = gridPlace l t c px py j → collectOrder s s' = (-1)%Z.
Proof.
  intros Fl Ft Fx Fy Hx Hy Hc Hij Es Es'. unfold collectOrder. rewrite Es, Es'.
  assert (∀ k v, (0 <= k)%Z → num_ltb (num k) v = true → num_leb (num 0) v = true ∧ num_ltb (num 0) v = true) as Hle.
  { intros k [v|[]|]; [|done..]. intros Hk Hv%ltb_finite. rewrite this_num in Hv. unfold num. rewrite leb_finite, ltb_finite, this_num.
    assert (0 <= inject_Z k)%Q by (change 0%Q with (inject_Z 0); by rewrite <- Zle_Qle). change (inject_Z 0) with 0%Q. split; lra. }
  destruct (Hle 0%Z px ltac:(lia) Hx) as [Hx' _], (Hle 24%Z py ltac:(lia) Hy) as [Hy' Hy0].
  pose proof (gridPlace_finite l t c px py i Fl Ft Fx Fy) as [Pi Pi']%andb_true_iff.
  pose proof (gridPlace_finite l t c px py j Fl Ft Fx Fy) as [Pj Pj']%andb_true_iff.
  destruct (grid_apart l t c px py i j Fl Ft Fx Fy Hx' Hy' Hc Hij) as [H|[E H]].
  - rewrite (row_gap _ py) by done. by apply (gap_less _ py).
  - assert (num_gtb (math_abs (num_sub (pt_y (gridPlace l t c px py i)) (pt_y (gridPlace l t c px py j)))) (num 24) = false) as ->; [|by apply (gap_less _ px)].
    rewrite <- E. destruct (pt_y (gridPlace l t c px py i)) as [y| |]; [|done..].
    unfold num_sub. cbn [num_neg num_add]. replace (y + - y)%Qc with 0%Qc by ring. done.
Qed.

(** What a card of an ungrouped collection shows, and what a member holds. *)
Inductive Shown := shown_refs (refs : list jsval) | shown_output (node port : string).

Definition shownByCard (c : UngroupedCard) : Shown := match c with uc_library _ v => shown_refs (cardArtifactRefs v) | uc_output _ n p => shown_output n p end.

Definition heldByMember (m : CollectionMember) : option Shown :=
  match m with cm_library _ _ refs => Some (shown_refs refs) | cm_output _ _ n p _ _ => Some (shown_output n p) | cm_empty _ => None end.

Definition sourceOfCard (id : string) (c : UngroupedCard) : CollectionSource :=
  match c with uc_library p v => cs_library id p v | uc_output p n port => cs_output id p n port end.

Definition cardPosition (c : UngroupedCard) : GraphPoint := match c with uc_library p _ | uc_output p _ _ => p end.

(** The artifacts of a Library member are some, and of one type. *)
Definition sound_member (m : CollectionMember) : Prop := match m with cm_library _ _ refs => refs ≠ [] ∧ refs_of_one_type refs | _ => True end.

Lemma artifactCardValue_made refs previous asSequence uuid : refs ≠ [] → refs_of_one_type refs → ∃ v, artifactCardValue refs previous asSequence uuid = Some v ∧ cardArtifactRefs v = refs.
Proof.
  intros Hne Hone. destruct (artifactCardValue refs previous asSequence uuid) as [v|] eqn:E.
  - exists v. split; [done|]. by eapply artifactCardValue_refs in E as (? & _); [|apply Hone].
  - exfalso. destruct refs as [|first rest]; [done|]. unfold artifactCardValue in E. destruct (existsb _ _) eqn:Em.
    + apply existsb_exists in Em as (x & Hx & Hn). apply list_elem_of_In in Hx. destruct Hone as [_ Hone]. rewrite (Hone x first) in Hn; [done|done|by left].
    + by destruct (_ && _ && _).
Qed.

Lemma ungrouped_lookup place uuid (filled : list CollectionMember) :
  Forall (λ m, isEmptyMember m = false ∧ sound_member m) filled →
  ∀ k : nat, let cards := omap id (imap (λ index m, ungroupedCard (place (k + index)) (uuid (k + index)) m) filled) in
  Some <$> (shownByCard <$> cards) = heldByMember <$> filled ∧
  ∀ i c, cards !! i = Some c → i < length filled ∧ cardPosition c = place (k + i).
Proof.
  induction 1 as [|m filled [He Hm] _ IH]; intros k; [done|]. cbv zeta.
  assert (∃ c, ungroupedCard (place k) (uuid k) m = Some c ∧ Some (shownByCard c) = heldByMember m ∧ cardPosition c = place k) as (c & Ec & Es & Ep).
  { destruct m as [plug o refs|plug e n p label refs|]; [|cbn; by eexists|done]. destruct Hm as [Hne Hone].
    destruct (artifactCardValue_made refs JUndefined false (uuid k) Hne Hone) as (v & Ev & Er). cbn. rewrite Ev. eexists. split; [done|]. cbn. by rewrite Er. }
  rewrite imap_cons, Nat.add_0_r. cbn [omap list_omap]. rewrite Ec. cbn [id].
  destruct (IH (S k)) as [IH1 IH2].
  assert (imap ((λ index m0, ungroupedCard (place (k + index)) (uuid (k + index)) m0) ∘ S) filled = imap (λ index m0, ungroupedCard (place (S k + index)) (uuid (S k + index)) m0) filled) as E.
  { apply imap_ext. intros i x _. cbn. by rewrite Nat.add_succ_r. }
  rewrite E. split; [rewrite !fmap_cons; by rewrite IH1, Es|].
  intros [|i] c'; cbn [lookup list_lookup].
  - intros [= <-]. rewrite Nat.add_0_r. split; [cbn; lia|done].
  - intros Hc. destruct (IH2 i c' Hc) as [? ->]. split; [cbn; lia|]. by rewrite Nat.add_succ_r.
Qed.

(** Cards that each bring something new are all kept. *)
Lemma firstSources_all seenA seenO l :
  Forall (λ s, match s with cs_library _ _ v => cardArtifactRefs v ≠ [] | _ => True end) l →
  NoDup (concat (map (λ s, match s with cs_library _ _ v => map artifactId (cardArtifactRefs v) | _ => [] end) l)) →
  NoDup (omap (λ s, match s with cs_output _ _ n p => Some (outputKey n p) | _ => None end) l) →
  (∀ i, i ∈ concat (map (λ s, match s with cs_library _ _ v => map artifactId (cardArtifactRefs v) | _ => [] end) l) → i ∉ seenA) →
  (∀ k, k ∈ omap (λ s, match s with cs_output _ _ n p => Some (outputKey n p) | _ => None end) l → k ∉ seenO) →
  firstSources seenA seenO l = l.
Proof.
  revert seenA seenO. induction l as [|[c q v|c q n p] l IH]; intros seenA seenO Hne Ha Ho HA HO; [done|..]; apply Forall_cons in Hne as [Hv Hne]; cbn [firstSources].
  - cbn [map concat omap list_omap] in *. apply NoDup_app in Ha as (Ha1 & Hd & Ha2). destruct (forallb _ _) eqn:Ef.
    + exfalso. destruct (cardArtifactRefs v) as [|r rest] eqn:Er; [done|]. cbn [map forallb] in Ef. apply andb_true_iff in Ef as [Ef _]. apply bool_decide_eq_true in Ef.
      apply (HA (artifactId r)); [|done]. by left.
    + f_equal. apply IH; [done..| |done]. intros i Hi [Hi'|Hi']%elem_of_app; [by apply (Hd i Hi' Hi)|]. apply (HA i); [|done]. apply elem_of_app. by right.
  - cbn [map concat omap list_omap app] in *. apply NoDup_cons in Ho as [Hk Ho]. rewrite bool_decide_eq_false_2 by (apply HO; by left).
    f_equal. apply IH; try done. intros k Hk' [->|?]%elem_of_cons; [done|]. by apply (HO k); [right|].
Qed.

Lemma above_row h : sound_size h → num_ltb (num 24) (num_add h (num 88)) = true.
Proof.
  intros [Fh Hh]. destruct h as [h| |]; [|done..]. apply leb_finite in Hh. rewrite this_num in Hh. change (inject_Z 0) with 0%Q in Hh. unfold num. cbn [num_add].
  rewrite ltb_finite, this_add, !this_num. change (inject_Z 24) with 24%Q. change (inject_Z 88) with 88%Q. lra.
Qed.

Lemma ungrouped_refs members cards q v :
  Forall sound_member members → shownByCard <$> cards = omap heldByMember members → uc_library q v ∈ cards → cardArtifactRefs v ≠ [].
Proof.
  intros Hm Hs Hc. assert (shown_refs (cardArtifactRefs v) ∈ omap heldByMember members) as (m & Hin & Em)%list_elem_of_omap.
  { rewrite <- Hs. by apply (list_elem_of_fmap_2 shownByCard _ (uc_library q v)). }
  eapply Forall_forall in Hm; [|done]. destruct m; [|done..]. injection Em as <-. apply Hm.
Qed.

Lemma map_imap_sources ids cards :
  map (λ s, match s with cs_library _ _ v => map artifactId (cardArtifactRefs v) | _ => [] end) (imap (λ i c, sourceOfCard (ids i) c) cards) =
  map (λ c, match c with uc_library _ v => map artifactId (cardArtifactRefs v) | _ => [] end) cards.
Proof. revert ids. induction cards as [|c cards IH]; intros ids; [done|]. rewrite imap_cons. cbn [map]. f_equal; [by destruct c|]. apply (IH (ids ∘ S)). Qed.

Lemma omap_imap_sources ids cards :
  omap (λ s, match s with cs_output _ _ n p => Some (outputKey n p) | _ => None end) (imap (λ i c, sourceOfCard (ids i) c) cards) =
  omap (λ c, match c with uc_output _ n p => Some (outputKey n p) | _ => None end) cards.
Proof.
  revert ids. induction cards as [|c cards IH]; intros ids; [done|]. rewrite imap_cons. specialize (IH (ids ∘ S)).
  destruct c; cbn [omap list_omap sourceOfCard]; [apply IH|f_equal; apply IH].
Qed.

(** The cards a collection becomes show its members in their order, each Library member
    its artifacts and each output member its output, and stand in a grid that reads in that
    order: collecting them again sorts them into the order they had, and keeps them all when
    no artifact and no output is in it twice. *)
Theorem ungrouped_collection_reads_back origin members w h uuid ids :
  finitePoint origin = true → sound_size w → sound_size h → Forall sound_member members →
  let cards := ungroupedCollectionCards origin members w h uuid in
  let sources := imap (λ i c, sourceOfCard (ids i) c) cards in
  shownByCard <$> cards = omap heldByMember members ∧ js_sort collectOrder sources = sources ∧
  (NoDup (concat (map (λ c, match c with uc_library _ v => map artifactId (cardArtifactRefs v) | _ => [] end) cards)) →
   NoDup (omap (λ c, match c with uc_output _ n p => Some (outputKey n p) | _ => None end) cards) → orderedSources sources = sources).
Proof.
  intros [Fx Fy]%andb_true_iff Hw Hh Hm cards sources. set (filled := filter (λ m, isEmptyMember m = false) members).
  set (place := gridPlace (pt_x origin) (pt_y origin) (Z.max 1 (ceil_sqrt (length filled))) (num_add w (num 64)) (num_add h (num 88))).
  assert (Forall (λ m, isEmptyMember m = false ∧ sound_member m) filled) as Hfilled.
  { apply Forall_forall. intros m [? Hin]%list_elem_of_filter. split; [done|]. by eapply Forall_forall in Hm. }
  destruct (ungrouped_lookup place uuid filled Hfilled 0) as [Hshown Hpos]. cbv zeta in Hshown, Hpos. cbn [Nat.add] in Hshown, Hpos.
  change (omap id (imap _ filled)) with cards in Hshown, Hpos.
  assert (shownByCard <$> cards = omap heldByMember members) as Hs.
  { apply (list_fmap_eq_inj Some); [by intros ? ? [=]|]. rewrite Hshown. unfold filled. clear. induction members as [|m l IH]; [done|].
    rewrite filter_cons. destruct m; cbn [isEmptyMember]; rewrite ?decide_True, ?decide_False by done; cbn [omap list_omap heldByMember]; rewrite ?fmap_cons, ?IH; done. }
  assert (js_sort collectOrder sources = sources) as Hsort.
  { apply js_sort_id. intros i j a b Hij Ha Hb. unfold sources in Ha, Hb. rewrite list_lookup_imap in Ha, Hb.
    apply fmap_Some in Ha as (ca & Ha & ->), Hb as (cb & Hb & ->). apply Hpos in Ha as [Hi Ha], Hb as [_ Hb].
    destruct (plus_pos w 64 Hw) as [? ?]; [lia|]. destruct (plus_pos h 88 Hh) as [? ?]; [lia|].
    enough (collectOrder (sourceOfCard (ids i) ca) (sourceOfCard (ids j) cb) = (-1)%Z) as -> by done.
    apply (grid_collect_order (pt_x origin) (pt_y origin) (Z.max 1 (ceil_sqrt (length filled))) (num_add w (num 64)) (num_add h (num 88)) i j); try done.
    - by apply above_row.
    - lia.
    - by destruct ca.
    - by destruct cb. }
  split_and!; [done..|]. intros Hart Hout. unfold orderedSources. rewrite Hsort.
  apply firstSources_all; [| | |by intros ? _ ?%not_elem_of_nil..].
  - apply Forall_forall. intros s (i & c & -> & Hc)%elem_of_lookup_imap. destruct c as [q v|]; [|done]. cbn [sourceOfCard].
    apply (ungrouped_refs members cards q); [done|done|by eapply list_elem_of_lookup_2].
  - unfold sources. by rewrite map_imap_sources.
  - unfold sources. by rewrite omap_imap_sources.
Qed.

(** ** Samples *)

Definition at_point (x y : Z) : GraphPoint := {| pt_x := num x; pt_y := num y |}.

(** The order of cards is not an order: three cards each read before the next, and the last
    before the first. *)
Lemma reading_order_is_cyclic :
  let card x y := cs_output "" (at_point x y) "n" "p" in
  (collectOrder (card 1 20) (card 2 0) = -1 ∧ collectOrder (card 0 40) (card 1 20) = -1 ∧ collectOrder (card 2 0) (card 0 40) = -1)%Z.
Proof. vm_compute. done. Qed.

Definition items_port : Port :=
  {| port_name := COLLECTION_PORT; port_title := None; port_direction := input; port_shape := one; port_accepted_shapes := [];
     port_variadic := false; port_required := true; port_instance_plugs := true; port_shape_field := None;
     port_artifact_type := None; port_artifact_type_variable := Some "T"; port_also_accepts := [] |}.

Definition image_port : Port :=
  {| port_name := "image"; port_title := None; port_direction := output; port_shape := one; port_accepted_shapes := [];
     port_variadic := false; port_required := true; port_instance_plugs := false; port_shape_field := None;
     port_artifact_type := Some {| ty_id := "image"; ty_schema_version := 1 |}; port_artifact_type_variable := None; port_also_accepts := [] |}.

Definition plain_spec (i : string) (inputs outputs : list Port) : NodeSpec :=
  {| spec_operator_id := i; spec_operator_version := num 1; spec_title := i; spec_inputs := inputs; spec_outputs := outputs;
     spec_config_schema := JObj []; spec_secret_inputs := JUndefined |}.

Definition camera : WorkflowNode :=
  {| wn_id := "camera"; wn_selected := None; wn_position := at_point 0 0; wn_data := createSavedNodeData (plain_spec "camera.shot" [] [image_port]) [] |}.

Definition gathered_sources : list CollectionSource :=
  [cs_output "c2" (at_point 300 0) "camera" "image"; cs_library "c1" (at_point 0 10) (drop_ref "a"); cs_output "c3" (at_point 0 200) "camera" "image"].

Lemma gathered_in_rows : in_rows gathered_sources.
Proof.
  assert (∀ s, s ∈ gathered_sources → (top s == 0 ∨ top s == 10 ∨ top s == 200)%Q ∧ finitePoint (sourcePosition s) = true) as H.
  { intros s Hs. unfold gathered_sources in Hs. repeat (apply elem_of_cons in Hs as [->|Hs]); [split; [vm_compute; tauto|done]..|by apply not_elem_of_nil in Hs]. }
  split; [intros s Hs; by apply H|]. intros r s t [Hr _]%H [Hs _]%H [Ht _]%H. unfold same_row.
  destruct Hr as [?|[?|?]], Hs as [?|[?|?]], Ht as [?|[?|?]]; lra.
Qed.

Definition numbered (k : nat) : string := "u" +:+ pretty k.

#[export] Instance numbered_inj : Inj (=) (=) numbered.
Proof. intros i j E. unfold numbered in E. simplify_eq. done. Qed.

Lemma gathered_readable : readable_handles gathered_sources [camera] (plain_spec "sequence.collect" [items_port] []) numbered.
Proof.
  split.
  - intros port v t k meta Hp%list_elem_of_singleton _ Hv Ht Hk. subst port. vm_compute in Ht, Hv. injection Ht as <-. injection Hv as <-. cbn in Hk.
    destruct k as [|[|[|k]]]; [..|lia]; vm_compute; intros [= <-]; (split; cbn; try done; intros x [= <-]; by cbv).
  - intros n port meta Hn%list_elem_of_singleton. subst n. intros Hp%list_elem_of_singleton. subst port. vm_compute. intros [= <-]. by split.
  - done.
Qed.

(** The card of the Library reads first, and the second card that follows the same output adds
    no member. *)
Lemma collected_cards_become_members_witness :
  ∃ plan members node os es, collectCardsCommands gathered_sources [camera] (plain_spec "sequence.collect" [items_port] []) createSavedNodeData numbered = Ok (Some plan) ∧
    res_fold applyGraphCommandNormalized (drop_document []) (cp_commands plan) =
      Ok (with_edges es (with_origins os (with_nodes [node] (drop_document [])))) ∧
    length (n_input_plugs node) = 3 ∧ length members = 2 ∧ Forall (covers members) gathered_sources ∧ StronglySorted reads_before members.
Proof.
  destruct (collectCardsCommands gathered_sources [camera] (plain_spec "sequence.collect" [items_port] []) createSavedNodeData numbered) as [[plan|]|] eqn:E;
    [|by vm_compute in E..].
  destruct (collected_cards_become_members gathered_sources [camera] (plain_spec "sequence.collect" [items_port] []) numbered plan (drop_document [])) as (members & node & os & es & H1 & _ & H2 & _ & _ & _ & _ & _ & _ & _ & H3 & H4 & _).
  - done.
  - apply gathered_readable.
  - apply _.
  - split; cbn; by intros ? ?%not_elem_of_nil.
  - intros k. split_and!; apply not_elem_of_nil.
  - repeat constructor; cbn; discriminate.
  - exists plan, members, node, os, es. split; [done|]. split; [exact H1|].
    assert (length (n_input_plugs node) = 3) as Hlen.
    { vm_compute in E. injection E as <-. vm_compute in H1. injection H1 as <-. reflexivity. }
    split; [exact Hlen|]. split; [lia|]. split; [exact H3|]. apply H4. apply gathered_in_rows.
Defined.

Lemma ungrouped_collection_reads_back_witness :
  let members := [cm_library "p1" "o1" [drop_ref "a"]; cm_output "p2" "e2" "camera" "image" "Camera" None; cm_library "p3" "o3" [drop_ref "b"; drop_ref "c"]; cm_empty "p4"] in
  let cards := ungroupedCollectionCards (at_point 10 20) members (num 250) (num 188) numbered in
  shownByCard <$> cards = [shown_refs [drop_ref "a"]; shown_output "camera" "image"; shown_refs [drop_ref "b"; drop_ref "c"]] ∧
  orderedSources (imap (λ i c, sourceOfCard (numbered i) c) cards) = imap (λ i c, sourceOfCard (numbered i) c) cards.
Proof.
  intros members cards. destruct (ungrouped_collection_reads_back (at_point 10 20) members (num 250) (num 188) numbered numbered) as (H1 & _ & H3).
  - done.
  - done.
  - done.
  - repeat constructor; try done; intros r r' Hr Hr'; repeat (apply elem_of_cons in Hr as [->|Hr]); repeat (apply elem_of_cons in Hr' as [->|Hr']);
      try (by apply not_elem_of_nil in Hr); try (by apply not_elem_of_nil in Hr'); vm_compute; done.
  - split; [exact H1|]. apply H3; by_decide.
Defined.
