(* ===== verification/Feeds.v ===== *)
(** * Feeds of a connection

    [model/connection-feeds.ts] and [canvas/artifact-type-label.ts], the titles and route
    options of [model/graph-authoring.ts], and the collected segments of
    [canvas/input-plugs.ts]: which route a new connection takes first, which feeds it offers,
    and how they read.  A catalog names types; the host's collation is a parameter. *)

From stdpp Require Import numbers list pretty.
From S2P Require Import Prelude Js JsText GraphModel Handles Routes RoutesTheory Canvas InputPlugs Connections Collections.
#[local] Open Scope nat_scope.

(** ** Names of types *)

(** [readonly Pick<ArtifactTypeSpec, "key" | "title">[] | null] *)
Definition ArtifactTypeCatalog : Type := option (list (ArtifactTypeIdentity * string)).

(** [title?.trim() || null] of the first entry with the type's key. *)
Definition catalogTitle (artifactType : ArtifactTypeIdentity) (artifactTypes : ArtifactTypeCatalog) : option string :=
  entry ← find (λ candidate, bool_decide (ty_id candidate.1 = ty_id artifactType) && bool_decide (ty_schema_version candidate.1 = ty_schema_version artifactType))
               (default [] artifactTypes);
  truthy (Some (trim entry.2)).

Definition artifactTypeTitle (artifactType : ArtifactTypeIdentity) (artifactTypes : ArtifactTypeCatalog) : string :=
  default (artifactTypeKey artifactType) (catalogTitle artifactType artifactTypes).

Definition formatArtifactTypeLabel (artifactType : ArtifactTypeIdentity) (artifactTypes : ArtifactTypeCatalog) : string :=
  match catalogTitle artifactType artifactTypes with
  | None => artifactTypeKey artifactType
  | Some title => if (1 <? ty_schema_version artifactType)%Z then title +:+ " · v" +:+ intText (ty_schema_version artifactType) else title
  end.

Definition formatArtifactTypeSequence (label : string) : string := "Sequence<" +:+ label +:+ ">".

Definition formatArtifactTypeContract (artifactType : ArtifactTypeIdentity) (artifactTypes : ArtifactTypeCatalog) (isMany : bool) : string :=
  let label := formatArtifactTypeLabel artifactType artifactTypes in if isMany then formatArtifactTypeSequence label else label.

Definition formatArtifactTypeTooltip (artifactType : ArtifactTypeIdentity) : string := artifactTypeKey artifactType.

Definition formatArtifactTypeSequenceTooltip (artifactType : ArtifactTypeIdentity) : string :=
  formatArtifactTypeSequence (formatArtifactTypeTooltip artifactType).

(** ** Titles of routes *)

Definition arrow : string := " → ".

Definition routeBinding (r : ConnectionRoute) : option ConnectionArtifactTypeBinding :=
  match r with exact_route _ b | conversion_route _ b | projection_route _ _ b | projection_conversion_route _ _ b => b end.

Definition routeProjection (r : ConnectionRoute) : option FieldProjection :=
  match r with projection_route p _ _ | projection_conversion_route p _ _ => Some p | _ => None end.

Definition conversionTitle (r : ConnectionRoute) : string := Js.join arrow (cv_title <$> routePath r).

Definition connectionRouteTitle (route : ConnectionRoute) (artifactTypes : ArtifactTypeCatalog) : string :=
  let title :=
    match route with
    | exact_route _ _ => "Whole output"
    | projection_route p _ _ => fp_title p
    | conversion_route _ _ => conversionTitle route
    | projection_conversion_route p _ _ => fp_title p +:+ arrow +:+ conversionTitle route
    end in
  match routeBinding route with
  | Some b => title +:+ " · " +:+ formatArtifactTypeLabel (rb_artifactType b) artifactTypes
  | None => title
  end.

Definition conversionText (c : ConversionKey) : string := ck_id c +:+ "@" +:+ intText (ck_version c).

Definition connectionRouteDescription (sourcePortName : string) (route : ConnectionRoute) : string :=
  let conversionDescription := Js.join arrow ((λ c, cv_title c +:+ " · " +:+ conversionText (cv_key c)) <$> routePath route) in
  match route with
  | projection_route p _ _ => sourcePortName +:+ "." +:+ Js.join "." (fp_path p)
  | conversion_route _ _ => sourcePortName +:+ arrow +:+ conversionDescription
  | projection_conversion_route p _ _ => sourcePortName +:+ "." +:+ Js.join "." (fp_path p) +:+ arrow +:+ conversionDescription
  | exact_route _ _ => sourcePortName
  end.

(** A route as an edge stores it, with the titles of its parts. *)
Record WorkflowEdgeRouteOption := {
  wo_projection : option (list string);
  wo_conversionPath : list ConversionKey;
  wo_projectionTitle : option string;
  wo_conversionTitles : list string
}.

Definition workflowEdgeRouteOption (route : ConnectionRoute) : WorkflowEdgeRouteOption :=
  let selection := connectionRouteSelection route in
  {| wo_projection := sel_projection selection; wo_conversionPath := sel_conversionPath selection;
     wo_projectionTitle := fp_title <$> routeProjection route; wo_conversionTitles := cv_title <$> routePath route |}.

(** ** Choosing among routes *)

(** [if (!left || !right) return left === right], then element by element. *)
Definition projectionsEqual (left right : option (list string)) : bool :=
  match left, right with Some p, Some q => same_elements p q | None, None => true | _, _ => false end.

Definition conversionPathsEqual (left right : list ConversionKey) : bool := same_elements left right.

Definition routesMatchingProjectionPath (routes : list ConnectionRoute) (path : list string) : list ConnectionRoute :=
  filter (λ r, match routeProjection r with Some p => same_elements (fp_path p) path | None => false end = true) routes.

Definition isWholeFeedRoute (r : ConnectionRoute) : bool := match r with exact_route _ _ | conversion_route _ _ => true | _ => false end.

(** The routes of a handle's feed, or all of them when none match. *)
Definition orAll (matching routes : list ConnectionRoute) : list ConnectionRoute := match matching with [] => routes | _ => matching end.

Definition routesForHandleFeed (routes : list ConnectionRoute) (feed : option HandleFeedIntent) : list ConnectionRoute :=
  match feed with
  | None => routes
  | Some whole => orAll (filter (λ r, isWholeFeedRoute r = true) routes) routes
  | Some (projection path) => orAll (routesMatchingProjectionPath routes path) routes
  end.

Definition preferredWholeFeedRoute (routes : list ConnectionRoute) : option ConnectionRoute :=
  match find isWholeFeedRoute routes with Some r => Some r | None => head routes end.

Definition connectionRouteFeedTitle (route : ConnectionRoute) (artifactTypes : ArtifactTypeCatalog) : string := connectionRouteTitle route artifactTypes.

Definition connectionRouteFeedDescription (sourcePortName : string) (route : ConnectionRoute) : string :=
  match route with
  | exact_route _ _ => "Entire " +:+ sourcePortName +:+ " output"
  | projection_route p _ _ => "Field " +:+ sourcePortName +:+ "." +:+ Js.join "." (fp_path p)
  | conversion_route _ _ => "Entire " +:+ sourcePortName +:+ " · " +:+ conversionTitle route
  | projection_conversion_route p _ _ => "Field " +:+ sourcePortName +:+ "." +:+ Js.join "." (fp_path p) +:+ " · " +:+ conversionTitle route
  end.

Section order.
Variable localeCompare : string → string → Z.

Definition feedRank (r : ConnectionRoute) : Z := if isWholeFeedRoute r then 0%Z else 1%Z.

Definition feedOrder (left right : ConnectionRoute) : Z :=
  if bool_decide (feedRank left ≠ feedRank right) then (feedRank left - feedRank right)%Z
  else localeCompare (connectionRouteFeedTitle left None) (connectionRouteFeedTitle right None).

Definition orderFeedRoutes (routes : list ConnectionRoute) : list ConnectionRoute := js_sort feedOrder routes.
End order.

(** ** The picker *)

Record ConnectionFeedChoice := { fc_key : string; fc_title : string; fc_description : string; fc_route : WorkflowEdgeRouteOption }.

Definition feedTitleForRouteOption (route : WorkflowEdgeRouteOption) : string :=
  let titles := Js.join arrow (wo_conversionTitles route) in
  match wo_projection route with
  | Some path =>
      let projectionTitle := default (Js.join "." path) (wo_projectionTitle route) in
      if bool_decide (titles = "") then projectionTitle else projectionTitle +:+ arrow +:+ titles
  | None => if bool_decide (titles = "") then "Whole output" else "Whole output" +:+ arrow +:+ titles
  end.

(** A projection with an empty path reads as the port. *)
Definition feedDescriptionForRouteOption (sourcePortName : string) (route : WorkflowEdgeRouteOption) : string :=
  let path := match wo_projection route with Some (s :: l) => sourcePortName +:+ "." +:+ Js.join "." (s :: l) | _ => sourcePortName end in
  match wo_conversionPath route with
  | [] => if wo_projection route then "Field " +:+ path else "Entire " +:+ sourcePortName +:+ " output"
  | _ => let titles := Js.join arrow (wo_conversionTitles route) in path +:+ " · " +:+ (if bool_decide (titles = "") then "converted" else titles)
  end.

Definition feedKey (route : WorkflowEdgeRouteOption) : string :=
  let conversions := Js.join "|" (conversionText <$> wo_conversionPath route) in
  Js.join "::" [match wo_projection route with Some path => Js.join "." path | None => "whole" end; if bool_decide (conversions = "") then "none" else conversions].

(** The same projection and the same conversions. *)
Definition sameFeed (a b : WorkflowEdgeRouteOption) : bool :=
  projectionsEqual (wo_projection a) (wo_projection b) && conversionPathsEqual (wo_conversionPath a) (wo_conversionPath b).

Definition feedChoice (sourcePortName : string) (route : WorkflowEdgeRouteOption) : ConnectionFeedChoice :=
  {| fc_key := feedKey route; fc_title := feedTitleForRouteOption route; fc_description := feedDescriptionForRouteOption sourcePortName route; fc_route := route |}.

Definition addFeedChoice (sourcePortName : string) (choices : list ConnectionFeedChoice) (route : WorkflowEdgeRouteOption) : list ConnectionFeedChoice :=
  if existsb (λ choice, sameFeed (fc_route choice) route) choices then choices else choices ++ [feedChoice sourcePortName route].

Definition feedChoicesFromRouteOptions (sourcePortName : string) (routeOptions : list WorkflowEdgeRouteOption) : list ConnectionFeedChoice :=
  foldl (addFeedChoice sourcePortName) [] routeOptions.

Definition edgeTransportChipLabel (sourcePortName : string) (projection : option (list string)) (projectionTitle : option string)
    (conversionTitles : list string) (collectionMode : CollectionMode) (enabled compatible : bool) : string :=
  let label := match projection with Some (s :: l) => default (Js.join "." (s :: l)) projectionTitle | _ => sourcePortName end in
  let label := match conversionTitles with [] => label | _ => label +:+ arrow +:+ Js.join arrow conversionTitles end in
  let label := match collectionMode with MMap => label +:+ " · each item" | _ => label end in
  let label := if enabled then label else label +:+ " · disabled" in
  if compatible then label else label +:+ " · unavailable".

(** ** The question after a connection *)

Record ConnectionEndpoint := { ce_nodeTitle : string; ce_portName : string; ce_artifactType : string }.

Record PendingConnectionRoute := {
  pr_connection : GraphAuthoringConnection;
  pr_collectionMode : CollectionMode;
  pr_candidates : list ConnectionRoute;
  pr_source : ConnectionEndpoint;
  pr_target : ConnectionEndpoint;
  pr_preferredProjectionPath : option (list string);
  (** the edge that is there already *)
  pr_refineEdgeId : option string
}.

(** ** What a plug shows *)

Inductive SegmentSourceKind := from_single | from_sequence.

Record CollectSegment := { sg_inputIndex : Z; sg_startIndex : Z; sg_itemCount : Z; sg_sourceKind : SegmentSourceKind }.

Definition integerAt (key : string) (v : jsval) : option Z := match js_get key v with JNum n => num_integer n | _ => None end.

Definition readSegment (raw : jsval) : option CollectSegment :=
  segment ← objectRecord raw;
  inputIndex ← integerAt "input_index" (JObj segment);
  startIndex ← integerAt "start_index" (JObj segment);
  itemCount ← integerAt "item_count" (JObj segment);
  kind ← match js_get "source_kind" (JObj segment) with
         | JStr k => if bool_decide (k = "single") then Some from_single else if bool_decide (k = "sequence") then Some from_sequence else None
         | _ => None
         end;
  Some {| sg_inputIndex := inputIndex; sg_startIndex := startIndex; sg_itemCount := itemCount; sg_sourceKind := kind |}.

(** The list of an output that has one. *)
Definition rawSegments (o : RunPortOutput) : option (list jsval) :=
  match ro_kind o with
  | single => None
  | sequence =>
      metadata ← objectRecord (js_get "metadata" (outputValue (ro_value o)));
      match js_get "collect_segments" (JObj metadata) with JArr l => Some l | _ => None end
  end.

Definition collectSegments (run : option RunNodeResult) : list CollectSegment :=
  match run with
  | None => []
  | Some r => match omap rawSegments (rr_outputs r) with [] => [] | l :: _ => omap readSegment l end
  end.

Definition collectContributionLabel (run : option RunNodeResult) (inputIndex : Z) : option string :=
  segment ← find (λ s, bool_decide (sg_inputIndex s = inputIndex)) (collectSegments run);
  let first := (sg_startIndex segment + 1)%Z in
  if bool_decide (sg_itemCount segment = 0%Z) then Some "output empty"
  else if bool_decide (sg_itemCount segment = 1%Z) then Some ("output " +:+ intText first)
  else Some ("output " +:+ intText first +:+ "–" +:+ intText (sg_startIndex segment + sg_itemCount segment)).

Record WorkflowInputPlugBinding := {
  wb_sourceLabel : string;
  wb_sourceShape : PortShape;
  wb_conversionLabel : option string;
  wb_contributionLabel : option string
}.

(** The path of an edge's projection. *)
Definition edgeProjectionPath (e : WorkflowEdge) : list string := default [] (we_data e ≫= λ d, GraphModel.path <$> ed_projection d).

Definition projectionTitleForEdge (e : WorkflowEdge) (sourceHandleArtifactType : option ArtifactTypeIdentity) (artifactTypes : list ArtifactTypeSpec) : option string :=
  match edgeProjectionPath e with
  | [] => None
  | path =>
      Some (default (Js.join "." path)
        (t ← sourceHandleArtifactType;
         sourceArtifact ← find (λ a, artifactTypeMatches (as_key a) (ty_id t) (ty_schema_version t)) artifactTypes;
         fp_title <$> find (λ p, same_elements (fp_path p) path) (as_field_projections sourceArtifact)))
  end.

Section bindings.
Context (numberText : jsnum → string).

Definition conversionLabel (artifactConversions : list ArtifactConversionSpec) (requested : GraphConversion) : string :=
  match find (λ c, bool_decide (ck_id (cv_key c) = conv_id requested) && bool_decide (num (ck_version (cv_key c)) = conv_version requested)) artifactConversions with
  | Some c => cv_title c
  | None => conv_id requested +:+ "@" +:+ numberText (conv_version requested)
  end.

(** The enabled edge into a plug. *)
Definition plugEdge (node : WorkflowNode) (edges : list WorkflowEdge) (plug : string) : option WorkflowEdge :=
  find (λ e, negb (bool_decide (we_enabled e = Some false)) && bool_decide (we_target e = wn_id node) && bool_decide (edgePlug e = Some plug)) edges.

Definition plugBinding (node : WorkflowNode) (nodes : list WorkflowNode) (edges : list WorkflowEdge) (artifactConversions : list ArtifactConversionSpec)
    (artifactTypes : list ArtifactTypeSpec) (inputIndex : nat) (plug : WorkflowInputPlug) : option WorkflowInputPlugBinding :=
  edge ← plugEdge node edges (wp_id plug);
  sourceNode ← find_id (we_source edge) nodes;
  if negb (workflowNodeIsSupported sourceNode) then None
  else
    sourceHandle ← decodeHandleId (we_sourceHandle edge);
    sourcePort ← findPort (wn_outputs sourceNode) (Some sourceHandle);
    let projectionTitle := projectionTitleForEdge edge (decodedHandleArtifactType sourceHandle) artifactTypes in
    let conversionLabels := conversionLabel artifactConversions <$> default [] (we_data edge ≫= ed_conversionPath) in
    let feedLabel := Js.join arrow (filter (λ label, label ≠ "") (option_list projectionTitle ++ conversionLabels)) in
    Some {| wb_sourceLabel := wn_title sourceNode +:+ " · " +:+ default (port_name sourcePort) (port_title sourcePort);
            wb_sourceShape := effectiveShapeForPort sourceNode sourcePort edges false [];
            wb_conversionLabel := truthy (Some feedLabel);
            wb_contributionLabel := truthy (collectContributionLabel (nd_run (wn_data node)) (Z.of_nat inputIndex)) |}.

Definition portPlugBindings (node : WorkflowNode) (nodes : list WorkflowNode) (edges : list WorkflowEdge) (artifactConversions : list ArtifactConversionSpec)
    (artifactTypes : list ArtifactTypeSpec) (port : Port) : list (string * WorkflowInputPlugBinding) :=
  omap (λ ip, pair (wp_id ip.2) <$> plugBinding node nodes edges artifactConversions artifactTypes ip.1 ip.2)
    (imap pair (inputPlugsForPort (wn_inputPlugs node) (port_name port))).

(** [bindings[plug.id] = ...]: the last one of an id stays. *)
Definition inputPlugBindingsForNode (node : WorkflowNode) (nodes : list WorkflowNode) (edges : list WorkflowEdge)
    (artifactConversions : list ArtifactConversionSpec) (artifactTypes : list ArtifactTypeSpec) : gmap string WorkflowInputPlugBinding :=
  if negb (workflowNodeIsSupported node) then ∅
  else
    foldl (λ m kv, <[kv.1 := kv.2]> m) ∅
      (concat (portPlugBindings node nodes edges artifactConversions artifactTypes <$> filter (λ p, portHasInstancePlugs p = true) (wn_inputs node))).
End bindings.

(** ** Routes keep their order by kind, then title *)

Section ordering.
Variable localeCompare : string → string → Z.

Definition byTitle (left right : ConnectionRoute) : Z := localeCompare (connectionRouteFeedTitle left None) (connectionRouteFeedTitle right None).

Definition fieldFeedRoute (r : ConnectionRoute) : bool := negb (isWholeFeedRoute r).

Lemma insert_whole x ws fs :
  isWholeFeedRoute x = true → Forall (λ r, isWholeFeedRoute r = true) ws → Forall (λ r, isWholeFeedRoute r = false) fs →
  js_insert (feedOrder localeCompare) x (ws ++ fs) = js_insert byTitle x ws ++ fs.
Proof.
  intros Hx Hws Hfs. induction Hws as [|w ws Hw Hws IH]; simpl.
  - destruct Hfs as [|f fs Hf Hfs]; simpl; [done|]. unfold feedOrder, feedRank. by rewrite Hx, Hf.
  - unfold feedOrder at 1, feedRank. rewrite Hx, Hw; simpl. fold (byTitle x w). case_match; [done|]. by rewrite IH.
Qed.

Lemma insert_field x ws fs :
  isWholeFeedRoute x = false → Forall (λ r, isWholeFeedRoute r = true) ws → Forall (λ r, isWholeFeedRoute r = false) fs →
  js_insert (feedOrder localeCompare) x (ws ++ fs) = ws ++ js_insert byTitle x fs.
Proof.
  intros Hx Hws Hfs. induction Hws as [|w ws Hw Hws IH]; simpl.
  - induction Hfs as [|f fs Hf Hfs IH]; simpl; [done|]. unfold feedOrder at 1, feedRank. rewrite Hx, Hf; simpl. fold (byTitle x f).
    case_match; [done|]. by rewrite IH.
  - unfold feedOrder at 1, feedRank. rewrite Hx, Hw; simpl. by rewrite IH.
Qed.

(** The one sort is two: the feeds of the whole output by title, then those of its fields by title. *)
Theorem feeds_are_grouped routes :
  orderFeedRoutes localeCompare routes =
    js_sort byTitle (filter (λ r, isWholeFeedRoute r = true) routes) ++ js_sort byTitle (filter (λ r, isWholeFeedRoute r = false) routes).
Proof.
  induction routes as [|x l IH]; [done|]. change (orderFeedRoutes localeCompare (x :: l)) with (js_insert (feedOrder localeCompare) x (orderFeedRoutes localeCompare l)).
  rewrite IH, !filter_cons.
  assert (∀ b l', Forall (λ r, isWholeFeedRoute r = b) (js_sort byTitle (filter (λ r, isWholeFeedRoute r = b) l'))) as Hall.
  { intros b l'. apply Forall_forall. intros r Hr. apply elem_of_js_sort, list_elem_of_filter in Hr. naive_solver. }
  destruct (isWholeFeedRoute x) eqn:Hx; simpl; [by rewrite insert_whole|by rewrite insert_field].
Qed.

(** The preferred feed is the first one offered. *)
Theorem preferred_feed_is_offered_first routes :
  preferredWholeFeedRoute (orderFeedRoutes localeCompare routes) = head (orderFeedRoutes localeCompare routes).
Proof.
  rewrite feeds_are_grouped. unfold preferredWholeFeedRoute.
  destruct (js_sort byTitle (filter (λ r, isWholeFeedRoute r = true) routes)) as [|w ws] eqn:Hw.
  - by destruct (find _ _) as [r|] eqn:Hf; [|done]; apply find_some in Hf as [Hin Hr]; apply list_elem_of_In, elem_of_js_sort, list_elem_of_filter in Hin; naive_solver congruence.
  - assert (w ∈ filter (λ r, isWholeFeedRoute r = true) routes) as Hin by (apply (elem_of_js_sort byTitle); rewrite Hw; set_solver).
    apply list_elem_of_filter in Hin as [Hr _]. simpl. by rewrite Hr.
Qed.
End ordering.

(** A release on a handle narrows the routes to that handle's feed, and never to none. *)
Theorem a_handle_keeps_a_route routes feed :
  routesForHandleFeed routes feed ⊆ routes ∧ (routesForHandleFeed routes feed = [] → routes = []).
Proof.
  assert (∀ l, l ⊆ routes → orAll l routes ⊆ routes ∧ (orAll l routes = [] → routes = [])) as H by (intros [|x l] Hl; simpl; naive_solver).
  destruct feed as [[|p]|]; simpl; [apply H|apply H|done]; intros r Hr; by apply list_elem_of_filter in Hr as [_ ?].
Qed.

(** ** The picker offers each feed once *)

Definition feedOf (o : WorkflowEdgeRouteOption) : option (list string) * list ConversionKey := (wo_projection o, wo_conversionPath o).

Lemma sameFeed_spec a b : sameFeed a b = true ↔ feedOf a = feedOf b.
Proof.
  unfold sameFeed, projectionsEqual, conversionPathsEqual, same_elements, feedOf.
  destruct (wo_projection a), (wo_projection b); simpl; rewrite ?andb_true_iff, ?bool_decide_eq_true; intuition congruence.
Qed.

Lemma offered_before (choices : list ConnectionFeedChoice) o :
  existsb (λ choice, sameFeed (fc_route choice) o) choices = true ↔ feedOf o ∈ (λ c, feedOf (fc_route c)) <$> choices.
Proof.
  rewrite existsb_exists, list_elem_of_fmap. setoid_rewrite sameFeed_spec. setoid_rewrite <- list_elem_of_In.
  split; intros (c & Hc & He); exists c; auto.
Qed.

(** What the choices of the options read so far are. *)
Record offers (name : string) (read : list WorkflowEdgeRouteOption) (choices : list ConnectionFeedChoice) : Prop := {
  of_once : NoDup ((λ c, feedOf (fc_route c)) <$> choices);
  of_every : ∀ o, o ∈ read → feedOf o ∈ (λ c, feedOf (fc_route c)) <$> choices;
  of_first : ∀ c, c ∈ choices → find (λ o, sameFeed o (fc_route c)) read = Some (fc_route c) ∧ c = feedChoice name (fc_route c)
}.

Lemma find_app_l {A} (f : A → bool) l k x : find f l = Some x → find f (l ++ k) = Some x.
Proof. induction l as [|y l IH]; simpl; [done|]. by destruct (f y). Qed.

Lemma find_app_none {A} (f : A → bool) l k : (∀ x, x ∈ l → f x = false) → find f (l ++ k) = find f k.
Proof. intros H. induction l as [|y l IH]; simpl; [done|]. rewrite (H y) by set_solver. apply IH. intros x Hx. apply H. set_solver. Qed.

Lemma addFeedChoice_offers name read choices o : offers name read choices → offers name (read ++ [o]) (addFeedChoice name choices o).
Proof.
  intros [Honce Hevery Hfirst]. unfold addFeedChoice. destruct (existsb _ _) eqn:He.
  - apply offered_before in He. split; [done| |].
    + intros x. rewrite elem_of_app, list_elem_of_singleton. intros [Hx | ?]; subst; auto.
    + intros c Hc. destruct (Hfirst c Hc) as [Hf Hc']. split; [by apply find_app_l|done].
  - assert (feedOf o ∉ (λ c, feedOf (fc_route c)) <$> choices) as Hnew by (intros H; apply offered_before in H; congruence).
    split.
    + rewrite fmap_app. apply NoDup_app. split; [done|]. split; [|apply NoDup_singleton]. intros x Hx Hn. apply list_elem_of_singleton in Hn. by subst x.
    + intros x. rewrite elem_of_app, list_elem_of_singleton, fmap_app, elem_of_app. intros [Hx | ?]; subst; [left; auto|right; set_solver].
    + intros c. rewrite elem_of_app, list_elem_of_singleton. intros [Hc | ?]; subst.
      * destruct (Hfirst c Hc) as [Hf Hc']. split; [by apply find_app_l|done].
      * simpl. split; [|done]. rewrite find_app_none; simpl.
        { by rewrite (proj2 (sameFeed_spec o o) eq_refl). }
        intros x Hx. apply not_true_iff_false. intros Hs. apply sameFeed_spec in Hs. apply Hnew. rewrite <- Hs. auto.
Qed.

Lemma feedChoices_offers name read choices l :
  offers name read choices → offers name (read ++ l) (foldl (addFeedChoice name) choices l).
Proof.
  revert read choices. induction l as [|o l IH]; intros read choices H; simpl; [by rewrite app_nil_r|].
  rewrite cons_middle, app_assoc. by apply IH, addFeedChoice_offers.
Qed.

(** Every option's feed is offered, no feed is offered twice, and the option that stands for a
    feed is the first one that has it. *)
Theorem picker_offers_each_feed_once name routeOptions : offers name routeOptions (feedChoicesFromRouteOptions name routeOptions).
Proof. apply (feedChoices_offers name [] []). split; [constructor|set_solver|set_solver]. Qed.

Lemma picker_example :
  let whole_output := {| wo_projection := None; wo_conversionPath := []; wo_projectionTitle := None; wo_conversionTitles := [] |} in
  let field := {| wo_projection := Some ["title"]; wo_conversionPath := []; wo_projectionTitle := Some "Title"; wo_conversionTitles := [] |} in
  fc_title <$> feedChoicesFromRouteOptions "document" [whole_output; field; whole_output] = ["Whole output"; "Title"].
Proof. reflexivity. Qed.

(** The key the picker's rows are told apart by does not tell them apart: the field [whole] and
    the whole output have one key, and so have the field [a.b] and the field [b] of [a]. *)
Theorem picker_keys_collide :
  ∃ routeOptions, let choices := feedChoicesFromRouteOptions "document" routeOptions in
    length choices = 4 ∧ (fc_key <$> choices) = ["whole::none"; "whole::none"; "a.b::none"; "a.b::none"].
Proof.
  pose (o := λ p, {| wo_projection := p; wo_conversionPath := []; wo_projectionTitle := None; wo_conversionTitles := [] |}).
  exists [o None; o (Some ["whole"]); o (Some ["a.b"]); o (Some ["a"; "b"])]. split; reflexivity.
Qed.
