(* ===== verification/CardConnections.v ===== *)
(** * Connections of cards ([canvas/artifact-connections.ts])

    A card is wired to an input like an output is: the value it shows is resolved first,
    then the rules of a drop decide.  A connection made this way is an origin of the
    document, and the wires from cards are drawn again from the origins. *)

From stdpp Require Import numbers list.
From S2P Require Import Prelude Js JsNum JsText JsJson GraphModel GraphCommands GraphTheory Handles Routes RoutesTheory ConfigSchema Canvas Connections InputPlugs ArtifactCards ArtifactDrop Viewers Grouping Collections.
#[local] Open Scope nat_scope.

Definition ARTIFACT_CARD_OUTPUT_HANDLE : string := "artifact-card-output".

Definition outputReleasePlacesArtifactCard (onCanvas : bool) (portShape : PortShape) (hasMaterializedArtifacts : bool) : bool :=
  if negb onCanvas then false else bool_decide (portShape = many) || hasMaterializedArtifacts.

(** ** What a card passes on *)

Inductive ArtifactCardSource :=
| card_fixed (value : jsval)
| card_waiting
| card_output (value : jsval) (output : RunPortOutput).

(** [?.value]; null without one. *)
Definition cardSourceValue (s : ArtifactCardSource) : jsval :=
  match s with card_fixed v => v | card_waiting => JNull | card_output v _ => v end.

(** The output of a succeeded run at a port. *)
Definition succeededOutput (run : option RunNodeResult) (port : option string) : option RunPortOutput :=
  r ← run;
  match rr_status r with nr_succeeded => find (λ o, bool_decide (Some (ro_port o) = port)) (rr_outputs r) | _ => None end.

(** The feed picks a field: [feed.data?.projection?.path.length]. *)
Definition feedProjects (feed : ArtifactViewerEdge) : bool :=
  match vx_data feed ≫= vx_projection with Some p => negb (is_nil (GraphModel.path p)) | None => false end.

Definition resolveArtifactCardSource (value : jsval) (feed : option ArtifactViewerEdge) (run : option RunNodeResult) : ArtifactCardSource :=
  match feed with
  | None => card_fixed (coalesce value JNull)
  | Some feed =>
      match succeededOutput run (vx_sourcePortName <$> vx_data feed) with
      | None => card_waiting
      | Some current => if feedProjects feed then card_waiting else card_output (outputValue (ro_value current)) current
      end
  end.

Definition cardFeed (card : ArtifactViewerNode) (feeds : list ArtifactViewerEdge) : option ArtifactViewerEdge :=
  find (λ e, bool_decide (vx_target e = vn_id card)) feeds.

Definition artifactCardConnectionValue (card : ArtifactViewerNode) (feeds : list ArtifactViewerEdge) (nodes : list WorkflowNode) : jsval :=
  let feed := cardFeed card feeds in
  cardSourceValue (resolveArtifactCardSource (vn_artifactRef card) feed
    (feed ≫= λ f, find_id (vx_source f) nodes ≫= λ n, nd_run (wn_data n))).

(** ** Wiring a card to an input *)

Record ArtifactCardConnection := {
  cc_payload : ArtifactDropPayload;
  cc_target : ArtifactDropTarget;
  cc_port : Port;
  cc_bindings : list (string * ArtifactTypeIdentity);
  cc_binding : option (string * ArtifactTypeIdentity)
}.

Section connect.
Context (localeCompare : string → string → Z).

(** The plug of the handle is one of the port, or the port has none. *)
Definition plugMatchesPort (node : WorkflowNode) (port : Port) (plug : option string) : bool :=
  if portHasInstancePlugs port
  then existsb (λ p, bool_decide (Some (wp_id p) = plug) && bool_decide (wp_portName p = port_name port)) (wn_inputPlugs node)
  else bool_decide (plug = None).

(** The type variable of the port, when nothing is bound to it. *)
Definition newBinding (node : WorkflowNode) (port : Port) (value : jsval) : option (string * ArtifactTypeIdentity) :=
  variable ← truthy (port_artifact_type_variable port);
  match binding_get variable (nd_artifactTypeBindings (wn_data node)) with
  | Some _ => None
  | None => pair variable <$> artifactTypeForValue value
  end.

Definition resolveArtifactCardConnection (connection : CanvasConnection) (cards : list ArtifactViewerNode) (feeds : list ArtifactViewerEdge)
    (nodes : list WorkflowNode) (conversions : list ArtifactConversionSpec) : option ArtifactCardConnection :=
  if negb (bool_decide (cn_sourceHandle connection = Some ARTIFACT_CARD_OUTPUT_HANDLE)) then None
  else
    card ← find_id (cn_source connection) cards;
    node ← find_id (cn_target connection) nodes;
    handle ← decodeHandleId (cn_targetHandle connection);
    if negb (workflowNodeIsSupported node) || negb (bool_decide (direction handle = input)) then None
    else
      port ← find (λ p, bool_decide (port_name p = portName handle)) (wn_inputs node);
      if negb (plugMatchesPort node port (plugId handle)) then None
      else
        let value := artifactCardConnectionValue card feeds nodes in
        if is_nullish value || is_nil (cardArtifactRefs value) then None
        else
          let payload := artifactDropPayload value in
          let binding := newBinding node port value in
          let bindings := match binding with
                          | Some b => binding_set b.1 b.2 (nd_artifactTypeBindings (wn_data node))
                          | None => nd_artifactTypeBindings (wn_data node)
                          end in
          _ ← resolveArtifactDrop localeCompare payload port bindings conversions;
          Some {| cc_payload := payload;
                  cc_target := {| dt_nodeId := wn_id node; dt_portName := port_name port; dt_plugId := plugId handle |};
                  cc_port := port; cc_bindings := bindings; cc_binding := binding |}.
End connect.

(** ** Drawing the wires of cards *)

Definition ARTIFACT_ORIGIN_EDGE_TYPE : string := "grafyArtifactOriginEdge".

Record ArtifactOriginEdge := {
  oe_id : string;
  oe_source : string;
  oe_sourceHandle : string;
  oe_target : string;
  oe_targetHandle : string;
  oe_originId : string;
  oe_collectionMode : CollectionMode;
  oe_allowedCollectionModes : list CollectionMode
}.

(** The card shows artifacts of the origin's type, and only ones that are still to be drawn. *)
Definition drawsFrom (origin : GraphOrigin) (value : jsval) (remaining : list jsval) : bool :=
  negb (is_nullish value) && shareOneArtifactType value (o_value origin) && negb (is_nil (cardArtifactRefs value)) &&
  forallb (λ i, bool_decide (i ∈ remaining)) (cardArtifactIds value).

Definition originEdge (origin : GraphOrigin) (target : WorkflowNode) (port : Port) (card : ArtifactViewerNode) : res ArtifactOriginEdge :=
  match portMetaForPort port (effectivePortShape (wn_data target) port) (jsopt_to_option (o_to_plug origin)) (nd_artifactTypeBindings (wn_data target)) with
  | None => Throw (untypedPort port)
  | Some meta =>
      Ok {| oe_id := "artifact-origin:" +:+ o_id origin +:+ ":" +:+ vn_id card; oe_source := vn_id card; oe_sourceHandle := ARTIFACT_CARD_OUTPUT_HANDLE;
            oe_target := wn_id target; oe_targetHandle := encodeHandleId meta; oe_originId := o_id origin;
            oe_collectionMode := o_collection_mode origin;
            oe_allowedCollectionModes := originCollectionModes port (dp_shape (artifactDropPayload (o_value origin))) |}
  end.

(** The loop over the cards; [valueOf] is what a card passes on.  The loop stops when nothing
    remains. *)
Fixpoint drawnCards (valueOf : ArtifactViewerNode → jsval) (origin : GraphOrigin) (remaining : list jsval) (cards : list ArtifactViewerNode) : list ArtifactViewerNode :=
  match cards with
  | [] => []
  | card :: rest =>
      if drawsFrom origin (valueOf card) remaining
      then
        let remaining := filter (λ i, i ∉ cardArtifactIds (valueOf card)) remaining in
        card :: (if is_nil remaining then [] else drawnCards valueOf origin remaining rest)
      else drawnCards valueOf origin remaining rest
  end.

Definition originConnections (cards : list ArtifactViewerNode) (feeds : list ArtifactViewerEdge) (nodes : list WorkflowNode) (origin : GraphOrigin)
    : res (list ArtifactOriginEdge) :=
  match find_id (o_to_node origin) nodes with
  | None => Ok []
  | Some target =>
      match find (λ p, bool_decide (port_name p = o_to_port origin)) (wn_inputs target) with
      | None => Ok []
      | Some port =>
          mapM (originEdge origin target port)
            (drawnCards (λ card, artifactCardConnectionValue card feeds nodes) origin (cardArtifactIds (o_value origin)) cards)
      end
  end.

Definition artifactOriginConnections (cards : list ArtifactViewerNode) (feeds : list ArtifactViewerEdge) (nodes : list WorkflowNode) (origins : list GraphOrigin)
    : res (list ArtifactOriginEdge) :=
  edges ← mapM (originConnections cards feeds nodes) origins; Ok (concat edges).

(** ** A card that follows an output *)

(** It passes the current output or nothing: what is saved in the card plays no part. *)
Theorem following_card_ignores_its_saved_value card saved feeds nodes f :
  cardFeed card feeds = Some f →
  let card' := {| vn_id := vn_id card; vn_position := vn_position card; vn_selected := vn_selected card; vn_measuredWidth := vn_measuredWidth card;
                  vn_measuredHeight := vn_measuredHeight card; vn_layout := vn_layout card; vn_mode := vn_mode card; vn_artifactRef := saved |} in
  artifactCardConnectionValue card' feeds nodes = artifactCardConnectionValue card feeds nodes ∧
  (artifactCardConnectionValue card feeds nodes = JNull ∨
   ∃ n r o, find_id (vx_source f) nodes = Some n ∧ nd_run (wn_data n) = Some r ∧ rr_status r = nr_succeeded ∧ o ∈ rr_outputs r ∧
     Some (ro_port o) = vx_sourcePortName <$> vx_data f ∧ feedProjects f = false ∧ artifactCardConnectionValue card feeds nodes = outputValue (ro_value o)).
Proof.
  intros Hf card'. unfold artifactCardConnectionValue. change (cardFeed card' feeds) with (cardFeed card feeds). rewrite Hf. split; [done|]. cbn.
  destruct (find_id (vx_source f) nodes) as [n|] eqn:Hn; cbn; [|by left].
  destruct (nd_run (wn_data n)) as [r|] eqn:Hr; cbn; [|by left].
  destruct (rr_status r) eqn:Hs; [|by left..].
  destruct (find _ (rr_outputs r)) as [o|] eqn:Ho; [|by left]. destruct (feedProjects f) eqn:Hp; [by left|]. right.
  apply find_some in Ho as [Hin Heq]. apply bool_decide_eq_true in Heq. exists n, r, o. split_and!; try done. by apply list_elem_of_In.
Qed.

(** ** Which cards are drawn *)

Section drawn.
Context (valueOf : ArtifactViewerNode → jsval) (origin : GraphOrigin).
Notation idsOf card := (cardArtifactIds (valueOf card)).

Lemma drawsFrom_spec v remaining :
  drawsFrom origin v remaining = true ↔
  is_nullish v = false ∧ shareOneArtifactType v (o_value origin) = true ∧ cardArtifactIds v ≠ [] ∧ ∀ i, i ∈ cardArtifactIds v → i ∈ remaining.
Proof.
  unfold drawsFrom. rewrite !andb_true_iff, !negb_true_iff, forallb_elem. unfold cardArtifactIds.
  setoid_rewrite bool_decide_eq_true. destruct (cardArtifactRefs v); cbn; naive_solver.
Qed.

Lemma drawn_sub remaining cards : sublist (drawnCards valueOf origin remaining cards) cards.
Proof.
  revert remaining. induction cards as [|c l IH]; intros remaining; cbn [drawnCards]; [done|].
  destruct (drawsFrom _ _ _); [|by apply sublist_cons]. apply sublist_skip. destruct (is_nil _); [apply sublist_nil_l|done].
Qed.

Lemma drawn_from remaining cards c : c ∈ drawnCards valueOf origin remaining cards → drawsFrom origin (valueOf c) remaining = true.
Proof.
  revert remaining. induction cards as [|d l IH]; intros remaining; cbn [drawnCards]; [set_solver|].
  destruct (drawsFrom origin (valueOf d) remaining) eqn:Hd; [|apply IH]. intros [->|Hc]%elem_of_cons; [done|].
  destruct (is_nil _); [set_solver|]. apply IH in Hc. rewrite drawsFrom_spec in Hc |- *. destruct Hc as (? & ? & ? & Hsub). split_and!; [done..|].
  intros i Hi. by apply Hsub, list_elem_of_filter in Hi as [_ ?].
Qed.

(** No artifact is drawn from two cards. *)
Lemma drawn_apart remaining cards : ForallOrdPairs (λ a b, ∀ i, i ∈ idsOf a → i ∉ idsOf b) (drawnCards valueOf origin remaining cards).
Proof.
  revert remaining. induction cards as [|d l IH]; intros remaining; cbn [drawnCards]; [constructor|].
  destruct (drawsFrom origin (valueOf d) remaining); [|apply IH]. destruct (is_nil _); [repeat constructor|]. constructor; [|apply IH].
  apply Forall_forall. intros c Hc i Hi Hc'. apply drawn_from in Hc. apply drawsFrom_spec in Hc as (_ & _ & _ & Hsub).
  apply Hsub, list_elem_of_filter in Hc' as [? _]. done.
Qed.

(** A card that could be drawn is, unless one that is drawn shows one of its artifacts. *)
Lemma drawn_most remaining cards c :
  c ∈ cards → drawsFrom origin (valueOf c) remaining = true →
  c ∈ drawnCards valueOf origin remaining cards ∨ ∃ d i, d ∈ drawnCards valueOf origin remaining cards ∧ i ∈ idsOf d ∧ i ∈ idsOf c.
Proof.
  revert remaining. induction cards as [|d l IH]; intros remaining Hc Hdraw; [set_solver|]. cbn [drawnCards].
  destruct (drawsFrom origin (valueOf d) remaining) eqn:Hd.
  2: { apply elem_of_cons in Hc as [->|Hc]; [congruence|]. by apply IH. }
  apply elem_of_cons in Hc as [->|Hc]; [left; by left|].
  destruct (decide (Exists (λ i, i ∈ idsOf d) (idsOf c))) as [He|He].
  { apply Exists_exists in He as (i & Hi & Hi'). right. exists d, i. split_and!; [by left|done..]. }
  assert (drawsFrom origin (valueOf c) (filter (λ i, i ∉ idsOf d) remaining) = true) as Hnext.
  { rewrite drawsFrom_spec in Hdraw |- *. destruct Hdraw as (? & ? & ? & Hsub). split_and!; [done..|]. intros i Hi. apply list_elem_of_filter.
    split; [|auto]. intros Hid. apply He, Exists_exists. eauto. }
  destruct (is_nil (filter _ remaining)) eqn:Hnil.
  { exfalso. apply drawsFrom_spec in Hnext as (_ & _ & Hne & Hsub). destruct (idsOf c) as [|i l'] eqn:Ei; [done|].
    specialize (Hsub i ltac:(by left)). destruct (filter _ remaining); [set_solver|done]. }
  destruct (IH _ Hc Hnext) as [H|(d' & i & H & ?)]; [left; by right|right]. exists d', i. split; [by right|done].
Qed.

(** The first card that shows a part of the origin is drawn. *)
Lemma drawn_first remaining before card after :
  drawsFrom origin (valueOf card) remaining = true →
  (∀ d i, d ∈ before → i ∈ idsOf d → i ∉ idsOf card) →
  card ∈ drawnCards valueOf origin remaining (before ++ card :: after).
Proof.
  revert remaining. induction before as [|d before IH]; intros remaining Hdraw Happ; cbn [app drawnCards]; [rewrite Hdraw; by left|].
  assert (drawsFrom origin (valueOf card) (filter (λ i, i ∉ idsOf d) remaining) = true) as Hnext.
  { rewrite drawsFrom_spec in Hdraw |- *. destruct Hdraw as (? & ? & ? & Hsub). split_and!; [done..|]. intros i Hi. apply list_elem_of_filter.
    split; [|auto]. intros Hid. by apply (Happ d i ltac:(by left) Hid). }
  destruct (drawsFrom origin (valueOf d) remaining); [right|apply IH; [done|]; intros; eapply Happ; [by right|done]].
  destruct (is_nil (filter _ remaining)) eqn:Hnil.
  { exfalso. apply drawsFrom_spec in Hnext as (_ & _ & Hne & Hsub). destruct (idsOf card) as [|i l'] eqn:Ei; [done|].
    specialize (Hsub i ltac:(by left)). destruct (filter _ remaining); [set_solver|done]. }
  apply IH; [done|]. intros; eapply Happ; [by right|done].
Qed.
End drawn.

Lemma mapM_res {A B} (f : A → res B) l k : mapM f l = Ok k ↔ Forall2 (λ x y, f x = Ok y) l k.
Proof.
  revert k. induction l as [|x l IH]; intros k; cbn.
  - split; [intros [= <-]; constructor|]. by inversion 1.
  - split.
    + destruct (f x) as [y|] eqn:Hx; cbn; [|done]. destruct (mapM f l) as [ys|] eqn:Hl; cbn; [|done]. intros [= <-]. constructor; [done|]. by apply IH.
    + inversion 1 as [|? y ? ys Hx Hl]; subst. rewrite Hx; cbn. apply IH in Hl. by rewrite Hl.
Qed.

Lemma originEdge_fields origin target port card e :
  originEdge origin target port card = Ok e →
  oe_source e = vn_id card ∧ oe_originId e = o_id origin ∧ oe_target e = wn_id target ∧ oe_collectionMode e = o_collection_mode origin.
Proof. unfold originEdge. destruct (portMetaForPort _ _ _ _); [|done]. by intros [= <-]. Qed.

(** Every wire drawn for an origin leaves a card on the canvas, which shows artifacts of the
    origin and nothing else; no artifact is drawn twice; and a card left out that shows only
    artifacts of the origin shares one with a card that is drawn. *)
Theorem wires_of_cards_are_exact cards feeds nodes origin target port edges :
  find_id (o_to_node origin) nodes = Some target →
  find (λ p, bool_decide (port_name p = o_to_port origin)) (wn_inputs target) = Some port →
  originConnections cards feeds nodes origin = Ok edges →
  let valueOf card := artifactCardConnectionValue card feeds nodes in
  ∃ drawn, sublist drawn cards ∧ Forall2 (λ card e, oe_source e = vn_id card ∧ oe_originId e = o_id origin ∧ oe_target e = o_to_node origin) drawn edges ∧
    (∀ c, c ∈ drawn → shareOneArtifactType (valueOf c) (o_value origin) = true ∧ ∀ i, i ∈ cardArtifactIds (valueOf c) → i ∈ cardArtifactIds (o_value origin)) ∧
    ForallOrdPairs (λ a b, ∀ i, i ∈ cardArtifactIds (valueOf a) → i ∉ cardArtifactIds (valueOf b)) drawn ∧
    (∀ c, c ∈ cards → drawsFrom origin (valueOf c) (cardArtifactIds (o_value origin)) = true →
      c ∈ drawn ∨ ∃ d i, d ∈ drawn ∧ i ∈ cardArtifactIds (valueOf d) ∧ i ∈ cardArtifactIds (valueOf c)).
Proof.
  intros Ht Hp Hok valueOf. unfold originConnections in Hok. rewrite Ht, Hp in Hok. apply mapM_res in Hok.
  pose proof (find_id_Some _ _ _ Ht) as [_ Hid]. change (wn_id target = o_to_node origin) in Hid. eexists. split_and!; [apply drawn_sub| | |apply drawn_apart|apply drawn_most].
  - eapply Forall2_impl; [exact Hok|]. intros c e He. apply originEdge_fields in He as (? & ? & ? & _). split_and!; congruence.
  - intros c Hc. apply drawn_from, drawsFrom_spec in Hc. naive_solver.
Qed.

(** ** A connected card is drawn as one *)

Lemma sequenceOfOne_type v uuid : reference v → shareOneArtifactType v (sequenceOfOne v uuid) = true.
Proof.
  intros (Hr & Hs & Hn). unfold sequenceOfOne. rewrite Hr. cbn [artifactCardValue existsb is_nil]. rewrite share_refl. cbn.
  unfold shareOneArtifactType. cbn. by rewrite !bool_decide_true.
Qed.

Lemma placed_type payload port path uuid : wf_payload payload → shareOneArtifactType (dp_value payload) (collectedOriginValue payload port None path uuid) = true.
Proof.
  intros Hwf. unfold collectedOriginValue, wf_payload in *. cbn [fmap option_fmap option_map].
  destruct (dp_shape payload) eqn:Hs; [|rewrite (bool_decide_true (many = many)) by done; cbn; apply share_refl].
  rewrite (bool_decide_false (one = many)) by done. cbn [orb]. repeat case_match; try apply share_refl; by apply sequenceOfOne_type.
Qed.

Lemma resolved_card localeCompare connection cards feeds nodes conversions c :
  resolveArtifactCardConnection localeCompare connection cards feeds nodes conversions = Some c →
  ∃ card node, find_id (cn_source connection) cards = Some card ∧ find_id (cn_target connection) nodes = Some node ∧
    dp_value (cc_payload c) = artifactCardConnectionValue card feeds nodes ∧ cc_payload c = artifactDropPayload (artifactCardConnectionValue card feeds nodes) ∧
    is_nullish (artifactCardConnectionValue card feeds nodes) = false ∧ cardArtifactRefs (artifactCardConnectionValue card feeds nodes) ≠ [] ∧
    dt_nodeId (cc_target c) = wn_id node ∧ dt_portName (cc_target c) = port_name (cc_port c) ∧
    find (λ p, bool_decide (port_name p = dt_portName (cc_target c))) (wn_inputs node) = Some (cc_port c) ∧
    is_Some (resolveArtifactDrop localeCompare (cc_payload c) (cc_port c) (cc_bindings c) conversions).
Proof.
  unfold resolveArtifactCardConnection. destruct (negb _); [done|].
  destruct (find_id (cn_source connection) cards) as [card|] eqn:Hc; cbn [mbind option_bind]; [|done].
  destruct (find_id (cn_target connection) nodes) as [node|] eqn:Hn; cbn [mbind option_bind]; [|done].
  destruct (decodeHandleId _) as [h|]; cbn [mbind option_bind]; [|done]. destruct (_ || _); [done|].
  destruct (find _ (wn_inputs node)) as [port|] eqn:Hp; cbn [mbind option_bind]; [|done]. destruct (negb _); [done|].
  destruct (_ || _) eqn:Hv; [done|]. apply orb_false_iff in Hv as [Hnull Hrefs].
  destruct (resolveArtifactDrop _ _ _ _ _) as [r|] eqn:Hr; cbn [mbind option_bind]; [|done]. intros [= <-]. exists card, node. cbn.
  pose proof (find_some _ _ Hp) as [_ Hname]. apply bool_decide_eq_true in Hname. rewrite Hname.
  split_and!; try done. intros E. by rewrite E in Hrefs.
Qed.

(** Wiring a card to an input where nothing was dropped yet puts what the card shows there, and
    the wire is drawn from that card whenever no card before it shows one of its artifacts. *)
Theorem connected_card_is_drawn localeCompare connection before card after feeds nodes conversions c state uuid originUuid commands :
  let cards := before ++ card :: after in
  let value := artifactCardConnectionValue card feeds nodes in
  resolveArtifactCardConnection localeCompare connection cards feeds nodes conversions = Some c →
  find_id (cn_source connection) cards = Some card → (isSequence value = false → isReference value = true) →
  ds_conversions state = conversions → find (originAt (cc_target c)) (ds_origins state) = None →
  artifactDropCommands localeCompare (cc_payload c) (cc_target c) (cc_port c) (cc_bindings c) state uuid originUuid = Some commands →
  (∀ d i, d ∈ before → i ∈ cardArtifactIds (artifactCardConnectionValue d feeds nodes) → i ∉ cardArtifactIds value) →
  ∃ o, last commands = Some (add_origin o) ∧ cardArtifactRefs (o_value o) = cardArtifactRefs value ∧
    ∀ edges, originConnections cards feeds nodes o = Ok edges → ∃ e, e ∈ edges ∧ oe_source e = vn_id card ∧ oe_originId e = o_id o ∧ oe_target e = cn_target connection.
Proof.
  intros cards value Hres Hcard Hshape Hconv Hnew Hcmd Hfirst.
  destruct (resolved_card _ _ _ _ _ _ _ Hres) as (card' & node & Hcard' & Hnode & Hval & Hpay & Hnull & Hrefs & Hid & Hname & Hport & Hdrop).
  assert (card' = card) as -> by congruence. fold value in Hval, Hpay, Hnull, Hrefs.
  assert (wf_payload (cc_payload c)) as Hwf.
  { unfold wf_payload. rewrite Hval, Hpay. unfold artifactDropPayload. cbn. destruct (isSequence value) eqn:Hs; [done|]. split_and!; auto. }
  unfold artifactDropCommands in Hcmd. rewrite Hconv, Hnew in Hcmd. destruct Hdrop as [r Hr]. rewrite Hr in Hcmd. cbn [mbind option_bind] in Hcmd.
  injection Hcmd as <-. eexists. split; [by rewrite last_app|]. cbn [o_value o_id].
  destruct (collected_value (cc_payload c) (cc_port c) None (dr_conversionPath r) uuid Hwf) as [Hrefs' _]. rewrite Hval in Hrefs'.
  assert (cardArtifactRefs (collectedOriginValue (cc_payload c) (cc_port c) None (dr_conversionPath r) uuid) = cardArtifactRefs value) as Heq.
  { rewrite Hrefs'. by destruct (joins _ _ _ _). }
  split; [exact Heq|]. intros edges Hok. unfold originConnections in Hok. cbn [o_to_node o_to_port] in Hok.
  pose proof (find_id_Some _ _ _ Hnode) as [_ Hid']. change (wn_id node = cn_target connection) in Hid'.
  rewrite Hid, Hid', Hnode, Hport in Hok. apply mapM_res in Hok.
  set (placed := collectedOriginValue (cc_payload c) (cc_port c) None (dr_conversionPath r) uuid) in *.
  assert (∀ o, o_value o = placed → card ∈ drawnCards (λ card, artifactCardConnectionValue card feeds nodes) o (cardArtifactIds placed) cards) as Hin.
  { intros o Ho. apply drawn_first; [|done]. apply drawsFrom_spec. fold value. rewrite Ho. split_and!; [done| | |].
    - rewrite <- Hval. by apply placed_type.
    - unfold cardArtifactIds. by destruct (cardArtifactRefs value).
    - intros i. unfold cardArtifactIds. by rewrite Heq. }
  match type of Hok with Forall2 _ (drawnCards _ ?o _ _) _ => specialize (Hin o eq_refl) end.
  apply (list_elem_of_lookup_1 _ _) in Hin as [k Hk]. destruct (Forall2_lookup_l _ _ _ _ _ Hok Hk) as (e & He & Hedge).
  apply originEdge_fields in Hedge as (? & ? & ? & _). exists e. split_and!; [by eapply list_elem_of_lookup_2|done|done|congruence].
Qed.

(** ** Samples *)

Definition sample_card (i : string) (value : jsval) : ArtifactViewerNode :=
  {| vn_id := i; vn_position := {| pt_x := num 0; pt_y := num 0 |}; vn_selected := None; vn_measuredWidth := None; vn_measuredHeight := None;
     vn_layout := None; vn_mode := None; vn_artifactRef := value |}.

Definition stacker : WorkflowNode :=
  {| wn_id := "n1"; wn_selected := None; wn_position := {| pt_x := num 0; pt_y := num 0 |};
     wn_data := Hydration.createSavedNodeData (plain_spec "image.stack" [drop_port] []) [] |}.

Definition drop_handle : string :=
  match portMetaForPort drop_port many None [] with Some meta => encodeHandleId meta | None => "" end.

Definition wire_from (card : string) : CanvasConnection :=
  {| cn_source := card; cn_target := "n1"; cn_sourceHandle := Some ARTIFACT_CARD_OUTPUT_HANDLE; cn_targetHandle := Some drop_handle |}.

Definition pair_of (a b : string) : jsval := sequenceValue (JStr "image") (JNum (num 1)) [drop_ref a; drop_ref b] (JStr "s").

Definition one_by_one (_ _ : string) : Z := 0.

Lemma connected_card_is_drawn_witness :
  let cards := [sample_card "x" (drop_ref "c"); sample_card "y" (pair_of "a" "b")] in
  ∃ c commands o, resolveArtifactCardConnection one_by_one (wire_from "y") cards [] [stacker] [] = Some c ∧
    artifactDropCommands one_by_one (cc_payload c) (cc_target c) (cc_port c) (cc_bindings c) (drop_state []) "s" "u" = Some commands ∧
    last commands = Some (add_origin o) ∧ cardArtifactRefs (o_value o) = [drop_ref "a"; drop_ref "b"] ∧
    ∃ edges, originConnections cards [] [stacker] o = Ok edges ∧ ∃ e, e ∈ edges ∧ oe_source e = "y" ∧ oe_target e = "n1".
Proof.
  intros cards. destruct (resolveArtifactCardConnection one_by_one (wire_from "y") cards [] [stacker] []) as [c|] eqn:Hc; [|by vm_compute in Hc].
  pose proof Hc as Hc'. vm_compute in Hc'. injection Hc' as Hceq.
  destruct (artifactDropCommands one_by_one (cc_payload c) (cc_target c) (cc_port c) (cc_bindings c) (drop_state []) "s" "u") as [cmds|] eqn:Hm;
    [|rewrite <- Hceq in Hm; by vm_compute in Hm].
  destruct (connected_card_is_drawn one_by_one (wire_from "y") [sample_card "x" (drop_ref "c")] (sample_card "y" (pair_of "a" "b")) [] [] [stacker] [] c (drop_state []) "s" "u" cmds)
    as (o & Hlast & Hrefs & Hdraw); try done.
  - intros d i Hd%list_elem_of_singleton. subst d. intros Hi%list_elem_of_singleton. subst i. by_decide.
  - exists c, cmds, o. split_and!; try done. destruct (originConnections cards [] [stacker] o) as [edges|m] eqn:He.
    + exists edges. split; [done|]. destruct (Hdraw edges He) as (e & Hin & Hs & _ & Ht). exists e. done.
    + exfalso. rewrite <- Hceq in Hm. vm_compute in Hm. injection Hm as <-. vm_compute in Hlast. injection Hlast as <-. by vm_compute in He.
Defined.

(** A card before it that shows one of its artifacts takes the wire: the origin holds exactly
    the sequence of card [y], and the only wire drawn leaves card [x], which holds one of them. *)
Theorem a_part_takes_the_wire :
  ∃ cards origin edges, o_value origin = pair_of "a" "b" ∧ originConnections cards [] [stacker] origin = Ok edges ∧
    (vn_artifactRef <$> cards) = [drop_ref "a"; pair_of "a" "b"] ∧ (vn_id <$> cards) = ["x"; "y"] ∧ (oe_source <$> edges) = ["x"].
Proof.
  exists [sample_card "x" (drop_ref "a"); sample_card "y" (pair_of "a" "b")], (drop_origin (pair_of "a" "b") MDirect).
  destruct (originConnections [sample_card "x" (drop_ref "a"); sample_card "y" (pair_of "a" "b")] [] [stacker] (drop_origin (pair_of "a" "b") MDirect)) as [edges|] eqn:E;
    [|by vm_compute in E]. exists edges. vm_compute in E. injection E as <-. done.
Qed.
