(* ===== verification/NodeCatalog.v ===== *)
(** * The node catalog ([model/node-catalog.ts] and [ui/node-selector/node-compatibility.ts])

    What a picker offers: filters, search with its ranking, the nodes that can take an output
    or feed an input with the routes of the new edge, and the "Works with" list.  A listing is
    a node's specification with what only the catalog reads; descriptions of ports are a
    parameter, and so are the host's collation and the text of a number. *)

From Stdlib Require Import Sorting.Sorted.
From stdpp Require Import numbers list pretty.
From S2P Require Import Prelude Js JsNum JsText JsJson GraphModel Handles Routes RoutesTheory Canvas InputPlugs ConfigSchema ConfigFields ArtifactCards LibraryTree Connections Collections Hydration Feeds CardConnections.
#[local] Open Scope nat_scope.

(** ** Listings *)

Record CatalogNode := {
  ct_spec : NodeSpec;
  ct_description : string;
  ct_plugin_slug : string;
  ct_catalog_visible : bool
}.

Record CatalogPlugin := { pg_slug : string; pg_title : string; pg_entry_kind : string; pg_origin : string }.

Record CatalogRegistry := {
  cg_nodes : list CatalogNode;
  cg_plugins : list CatalogPlugin;
  cg_artifact_types : list ArtifactTypeSpec;
  (** the keys of the types with their titles *)
  cg_titles : list (ArtifactTypeIdentity * string);
  cg_artifact_conversions : list ArtifactConversionSpec
}.

Inductive CatalogFilterKind := fk_all | fk_artifact | fk_single | fk_sequence | fk_any_artifact | fk_source | fk_input_nodes.

Record CatalogFilter := {
  flt_id : string;
  flt_kind : CatalogFilterKind;
  flt_title : string;
  flt_artifactKey : option ArtifactTypeIdentity;
  flt_sourceKey : option string
}.

Definition artifactFilterId (key : ArtifactTypeIdentity) : string := "artifact:" +:+ artifactTypeKey key.
Definition sourceFilterId (slug : string) : string := "source:" +:+ slug.

Definition fixedFilter (id : string) (kind : CatalogFilterKind) (title : string) : CatalogFilter :=
  {| flt_id := id; flt_kind := kind; flt_title := title; flt_artifactKey := None; flt_sourceKey := None |}.

Definition INPUT_NODES_FILTER : CatalogFilter := fixedFilter "input-nodes" fk_input_nodes "Input nodes".

Definition catalogPlugin (registry : CatalogRegistry) (slug : string) : res CatalogPlugin :=
  match find (λ p, bool_decide (pg_slug p = slug)) (cg_plugins registry) with
  | Some plugin => Ok plugin
  | None => Throw ("Node registry is missing owner plugin " +:+ chr (of_code 34) +:+ slug +:+ chr (of_code 34) +:+ ".")
  end.

Definition catalog_inputs (n : CatalogNode) : list Port := spec_inputs (ct_spec n).
Definition catalog_outputs (n : CatalogNode) : list Port := spec_outputs (ct_spec n).
Definition catalog_title (n : CatalogNode) : string := spec_title (ct_spec n).

Definition portDeclaresArtifact (port : Port) (key : ArtifactTypeIdentity) : bool := bool_decide (portArtifactType port = Some key).

Definition portIsAnyArtifact (port : Port) : bool :=
  bool_decide (is_Some (portArtifactTypeVariable port)) && bool_decide (portArtifactType port = None).

Definition nodeDeclaresArtifact (n : CatalogNode) (key : ArtifactTypeIdentity) : bool :=
  existsb (λ p, portDeclaresArtifact p key) (catalog_inputs n ++ catalog_outputs n).

Definition nodeMatchesShapeFilter (n : CatalogNode) (shape : PortShape) : bool :=
  if existsb (λ p, bool_decide (port_shape p = shape)) (catalog_outputs n) then true
  else existsb (λ p, bool_decide (shape ∈ acceptedPortShapes p)) (catalog_inputs n).

Definition nodeMatchesAnyArtifact (n : CatalogNode) : bool := existsb portIsAnyArtifact (catalog_inputs n ++ catalog_outputs n).

Definition artifactTitle (registry : CatalogRegistry) (key : ArtifactTypeIdentity) : string :=
  default (ty_id key) (snd <$> find (λ a, bool_decide (a.1 = key)) (cg_titles registry)).

Definition catalogNodesForFilter (nodes : list CatalogNode) (f : CatalogFilter) : list CatalogNode :=
  match flt_kind f with
  | fk_all => nodes
  | fk_artifact => match flt_artifactKey f with Some key => filter (λ n, nodeDeclaresArtifact n key = true) nodes | None => [] end
  | fk_single => filter (λ n, nodeMatchesShapeFilter n one = true) nodes
  | fk_sequence => filter (λ n, nodeMatchesShapeFilter n many = true) nodes
  | fk_any_artifact => filter (λ n, nodeMatchesAnyArtifact n = true) nodes
  | fk_source => match truthy (flt_sourceKey f) with Some slug => filter (λ n, ct_plugin_slug n = slug) nodes | None => [] end
  | fk_input_nodes => filter (λ n, catalog_inputs n = []) nodes
  end.

Definition catalogNodeSpecs (registry : CatalogRegistry) : list CatalogNode :=
  filter (λ n, ct_catalog_visible n = true) (cg_nodes registry).

(** [labels.length <= 2 ? ... : `... +${n}`] *)
Definition labelSummary (labels : list string) : string :=
  match labels with
  | [] => "—"
  | _ => if length labels <=? 2 then Js.join ", " labels
         else Js.join ", " (take 2 labels) +:+ " +" +:+ intText (Z.of_nat (length labels) - 2)
  end.

Definition portLabel (registry : CatalogRegistry) (port : Port) : string :=
  match portArtifactType port with None => "Any" | Some t => artifactTitle registry t end.

Definition catalogNodePortSummary (n : CatalogNode) (registry : CatalogRegistry) : string :=
  labelSummary (portLabel registry <$> catalog_inputs n) +:+ " → " +:+ labelSummary (portLabel registry <$> catalog_outputs n).

Definition catalogNodeProviderLabel (n : CatalogNode) (registry : CatalogRegistry) : res string :=
  plugin ← catalogPlugin registry (ct_plugin_slug n);
  Ok (default (if bool_decide (pg_origin plugin = "builtin") then "Built-in" else "Plugin") (truthy (Some (pg_title plugin)))).

Section catalog.
Context (localeCompare : string → string → Z) (numberText : jsnum → string) (portDescription : Port → option string).

(** Keeps the order of the plugins that have nodes, by title and slug. *)
Definition buildSourceFilters (registry : CatalogRegistry) : list CatalogFilter :=
  let sources := js_sort (λ left right, num_or (localeCompare (pg_title left) (pg_title right)) (localeCompare (pg_slug left) (pg_slug right)))
                   (filter (λ p, pg_slug p ∈ ct_plugin_slug <$> cg_nodes registry) (cg_plugins registry)) in
  fixedFilter "all" fk_all "All" ::
  ((λ p, {| flt_id := sourceFilterId (pg_slug p); flt_kind := fk_source; flt_title := default "System" (truthy (Some (pg_title p)));
            flt_artifactKey := None; flt_sourceKey := Some (pg_slug p) |}) <$> sources).

(** How many types have a title. *)
Definition titleCount (titles : list (ArtifactTypeIdentity * string)) (title : string) : nat := length (filter (λ a, a.2 = title) titles).

Definition buildCatalogFilters (registry : CatalogRegistry) : list CatalogFilter :=
  let artifacts := js_sort (λ left right, num_or (localeCompare left.2 right.2) (localeCompare (artifactTypeKey left.1) (artifactTypeKey right.1)))
                     (cg_titles registry) in
  [fixedFilter "all" fk_all "All nodes"] ++
  ((λ a, {| flt_id := artifactFilterId a.1; flt_kind := fk_artifact;
            flt_title := if 1 <? titleCount (cg_titles registry) a.2 then a.2 +:+ " · v" +:+ intText (ty_schema_version a.1) else a.2;
            flt_artifactKey := Some a.1; flt_sourceKey := None |}) <$> artifacts) ++
  [fixedFilter "single" fk_single "Single value"; fixedFilter "sequence" fk_sequence "Sequence"; fixedFilter "any-artifact" fk_any_artifact "Any artifact"].

Definition catalogOrder (left right : CatalogNode) : Z :=
  num_or (localeCompare (catalog_title left) (catalog_title right))
    (num_or (localeCompare (spec_operator_id (ct_spec left)) (spec_operator_id (ct_spec right)))
       (numSign (spec_operator_version (ct_spec left)) (spec_operator_version (ct_spec right)))).

Definition sortCatalogNodes (nodes : list CatalogNode) : list CatalogNode := js_sort catalogOrder nodes.

(** ** Search *)

Definition portSearchTerms (registry : CatalogRegistry) (port : Port) : list string :=
  let artifactType := portArtifactType port in
  [port_name port; default "" (port_title port); default "" (portDescription port);
   match artifactType with Some t => artifactTitle registry t | None => "any artifact" end;
   match artifactType with Some t => ty_id t | None => "any artifact generic" end;
   default "" (portArtifactTypeVariable port);
   if port_instance_plugs port then "collect ordered input plugs" else ""] ++
  ((λ s, match s with many => "sequence" | one => "single" end) <$> port_accepted_shapes port).

(** [String(value)] of the text or number that an enumeration lists. *)
Definition enumText (v : jsval) : string := match v with JStr s => s | JNum n => numberText n | _ => "" end.

Definition fieldSearchTerms (f : SchemaField) : list string :=
  [cf_name f; cf_title f; default "" (cf_description f)] ++
  match cf_body f with scalar_field s => enumText <$> default [] (sc_enumValues s) | _ => [] end.

Definition nodeCatalogSearchText (n : CatalogNode) (registry : CatalogRegistry) : res string :=
  plugin ← catalogPlugin registry (ct_plugin_slug n);
  Ok (toLowerCase (Js.join " "
    ([catalog_title n; spec_operator_id (ct_spec n); ct_description n; ct_plugin_slug n; pg_title plugin; pg_entry_kind plugin; pg_origin plugin] ++
     concat (portSearchTerms registry <$> catalog_inputs n) ++ concat (portSearchTerms registry <$> catalog_outputs n) ++
     concat (fieldSearchTerms <$> schemaFields (spec_config_schema (ct_spec n)))))).

Definition searchTerms (query : string) : list string := filter (λ t, t ≠ "") (splitSpaces (toLowerCase (trim query))).

Definition foundBy (terms : list string) (registry : CatalogRegistry) (n : CatalogNode) : res bool :=
  searched ← nodeCatalogSearchText n registry; Ok (forallb (λ term, includes term searched) terms).

(** The filter, which stops at an error. *)
Fixpoint res_filter {A} (f : A → res bool) (l : list A) : res (list A) :=
  match l with
  | [] => Ok []
  | a :: l' => b ← f a; rest ← res_filter f l'; Ok (if (b : bool) then a :: rest else rest)
  end.

Definition searchCatalogNodes (nodes : list CatalogNode) (query : string) (registry : CatalogRegistry) : res (list CatalogNode) :=
  match searchTerms query with [] => Ok nodes | terms => res_filter (foundBy terms registry) nodes end.

(** [TITLE_WORD_SEPARATOR]: spaces and punctuation. *)
Definition separatesWords (c : Ascii.ascii) : bool :=
  is_space c || bool_decide (code c ∈ [45; 95; 46; 44; 58; 59; 47; 92; 40; 41; 91; 93; 123; 125; 34; 39; 96; 43; 42; 38; 124; 60; 62]).

Fixpoint split_words (in_separator : bool) (s : string) : string * list string :=
  match s with
  | EmptyString => ("", [])
  | String.String c s' =>
      if separatesWords c then
        let '(p, ps) := split_words true s' in if in_separator then (p, ps) else ("", p :: ps)
      else let '(p, ps) := split_words false s' in (String.String c p, ps)
  end.

Definition titleWords (s : string) : list string := let '(p, ps) := split_words false s in p :: ps.

Definition catalogSearchRank (n : CatalogNode) (query : string) : Z :=
  let phrase := toLowerCase (trim query) in
  let title := toLowerCase (catalog_title n) in
  let words := titleWords title in
  let terms := searchTerms query in
  let inTitle := length (filter (λ term, existsb (String.prefix term) words = true) terms) in
  if bool_decide (title = phrase) then 0
  else if String.prefix phrase title then 1
  else if existsb (String.prefix phrase) words then 2
  else if includes phrase title then 3
  else if inTitle =? length terms then 4
  else if 0 <? inTitle then 5
  else if includes phrase (toLowerCase (spec_operator_id (ct_spec n))) then 6
  else 7.

Definition applyFilter (acc : list CatalogNode) (f : CatalogFilter) : list CatalogNode :=
  match flt_kind f with fk_all => acc | _ => catalogNodesForFilter acc f end.

(** A stable sort by rank after the sort by title. *)
Definition byRank (query : string) (nodes : list CatalogNode) : list CatalogNode :=
  js_sort (λ left right, catalogSearchRank left query - catalogSearchRank right query)%Z nodes.

Definition filterAndSearchCatalogNodes (nodes : list CatalogNode) (filters : list CatalogFilter) (query : string) (registry : CatalogRegistry)
    : res (list CatalogNode) :=
  found ← searchCatalogNodes (foldl applyFilter nodes filters) query registry;
  let sorted := sortCatalogNodes found in
  Ok (match searchTerms query with [] => sorted | _ => byRank query sorted end).

(** ** What a port can be wired to *)

Definition shapesAreCompatible (source target : Port) : bool :=
  let acceptedShapes := acceptedPortShapes target in
  bool_decide (port_shape source ∈ acceptedShapes) ||
  (negb (portHasInstancePlugs target) && bool_decide (port_shape source = many) && bool_decide (one ∈ acceptedShapes)).

Definition collectionModeForPorts (source target : Port) : option CollectionMode :=
  let acceptedShapes := acceptedPortShapes target in
  if bool_decide (port_shape source ∈ acceptedShapes) then Some MDirect
  else if negb (portHasInstancePlugs target) && bool_decide (port_shape source = many) && bool_decide (one ∈ acceptedShapes) then Some MMap
  else None.

Definition DISCOVERY_INSTANCE_PLUG_ID : string := "discovery-instance-plug".

(** [encodeHandleId(portMetaForPort(...))]; a port without a type throws. *)
Definition typedHandle (port : Port) (plugId : option string) : res string :=
  match portMetaForPort port (port_shape port) plugId [] with
  | Some meta => Ok (encodeHandleId meta)
  | None => Throw (untypedPort port)
  end.

Definition targetHandleForRoute (target : Port) (plugId : option string) : res string := typedHandle target plugId.

Record ContextualRouteChoice := {
  cx_candidatePort : Port;
  cx_route : ConnectionRoute;
  cx_collectionMode : CollectionMode;
  cx_usesInstancePlug : bool
}.

Record ContextualCandidate := { cx_spec : CatalogNode; cx_choices : list ContextualRouteChoice }.

Definition routesBetween (registry : CatalogRegistry) (sourceHandle targetHandle : string) : list ConnectionRoute :=
  connectionRoutesFor localeCompare {| Handles.sourceHandle := Some sourceHandle; Handles.targetHandle := Some targetHandle |}
    (cg_artifact_types registry) (cg_artifact_conversions registry).

(** The choices of one input; [continue] leaves none. *)
Definition inputChoices (sourcePort : Port) (sourceHandle : string) (sourceFeed : option HandleFeedIntent) (registry : CatalogRegistry) (port : Port)
    : res (list ContextualRouteChoice) :=
  if negb (bool_decide (port_direction port = input)) || negb (shapesAreCompatible sourcePort port) then Ok []
  else
    match collectionModeForPorts sourcePort port with
    | None => Ok []
    | Some mode =>
        let usesInstancePlug := portHasInstancePlugs port in
        if usesInstancePlug && negb (port_required port) then Ok []
        else
          targetHandle ← targetHandleForRoute port (if usesInstancePlug then Some DISCOVERY_INSTANCE_PLUG_ID else None);
          Ok ((λ route, {| cx_candidatePort := port; cx_route := route; cx_collectionMode := mode; cx_usesInstancePlug := usesInstancePlug |}) <$>
              routesForHandleFeed (routesBetween registry sourceHandle targetHandle) sourceFeed)
    end.

Definition outputChoices (targetPort : Port) (targetHandle : string) (registry : CatalogRegistry) (port : Port) : res (list ContextualRouteChoice) :=
  if negb (bool_decide (port_direction port = output)) || negb (shapesAreCompatible port targetPort) then Ok []
  else
    match collectionModeForPorts port targetPort with
    | None => Ok []
    | Some mode =>
        sourceHandle ← typedHandle port None;
        Ok ((λ route, {| cx_candidatePort := port; cx_route := route; cx_collectionMode := mode; cx_usesInstancePlug := false |}) <$>
            routesBetween registry sourceHandle targetHandle)
    end.

(** The nodes that have a choice, in catalog order. *)
Definition candidatesBy (choicesOf : CatalogNode → res (list (list ContextualRouteChoice))) (nodes : list CatalogNode) : res (list ContextualCandidate) :=
  found ← mapM (λ n, choices ← choicesOf n; Ok {| cx_spec := n; cx_choices := concat choices |})
            (sortCatalogNodes (filter (λ n, ct_catalog_visible n = true) nodes));
  Ok (filter (λ c, cx_choices c ≠ []) found).

Definition downstreamCandidatesFromOutput (sourcePort : Port) (sourceHandle : string) (sourceFeed : option HandleFeedIntent) (registry : CatalogRegistry)
    (nodes : list CatalogNode) : res (list ContextualCandidate) :=
  candidatesBy (λ n, mapM (inputChoices sourcePort sourceHandle sourceFeed registry) (catalog_inputs n)) nodes.

Definition upstreamCandidatesFromInput (targetPort : Port) (targetHandle : string) (registry : CatalogRegistry) (nodes : list CatalogNode)
    : res (list ContextualCandidate) :=
  candidatesBy (λ n, mapM (outputChoices targetPort targetHandle registry) (catalog_outputs n)) nodes.

Definition portsCanConnect (registry : CatalogRegistry) (source target : Port) : res bool :=
  if negb (shapesAreCompatible source target) then Ok false
  else if portHasInstancePlugs target && negb (port_required target) then Ok false
  else
    sourceHandle ← typedHandle source None;
    targetHandle ← typedHandle target (if portHasInstancePlugs target then Some "discovery-plug" else None);
    Ok (negb (bool_decide (routesBetween registry sourceHandle targetHandle = []))).

(** [some], which stops at the first true or error. *)
Fixpoint res_some {A} (f : A → res bool) (l : list A) : res bool :=
  match l with [] => Ok false | a :: l' => b ← f a; if (b : bool) then Ok true else res_some f l' end.

Definition nodesCompatibleWithPort (nodes : list CatalogNode) (upstream : bool) (port : Port) (registry : CatalogRegistry) : res (list CatalogNode) :=
  res_filter (λ n, if upstream then res_some (λ o, portsCanConnect registry o port) (catalog_outputs n)
                   else res_some (λ i, portsCanConnect registry port i) (catalog_inputs n)) nodes.

(** ** Works with *)

Record CompatibleNode := { cp_spec : CatalogNode; cp_routeSummary : string; cp_additionalRouteCount : Z }.

Record CompatiblePortPair := { pp_source : Port; pp_target : Port; pp_route : ConnectionRoute; pp_routeCount : nat }.

Definition routeTitle (route : ConnectionRoute) : option string :=
  match route with
  | projection_route p _ _ => Some (fp_title p)
  | conversion_route _ _ => Some (conversionTitle route)
  | projection_conversion_route p _ _ => Some (fp_title p +:+ arrow +:+ conversionTitle route)
  | exact_route _ _ => None
  end.

Definition compatiblePortPair (registry : CatalogRegistry) (source target : Port) : res (option CompatiblePortPair) :=
  if negb (shapesAreCompatible source target) then Ok None
  else
    sourceHandle ← typedHandle source None;
    targetHandle ← typedHandle target None;
    let routes := routesBetween registry sourceHandle targetHandle in
    Ok (match routes with
        | [] => None
        | route :: _ => Some {| pp_source := source; pp_target := target; pp_route := route; pp_routeCount := length routes |}
        end).

Definition compatiblePortPairs (sourceSpec targetSpec : CatalogNode) (registry : CatalogRegistry) : res (list CompatiblePortPair) :=
  pairs ← mapM (λ st, compatiblePortPair registry st.1 st.2) (source ← catalog_outputs sourceSpec; (λ t, (source, t)) <$> catalog_inputs targetSpec);
  Ok (omap (λ p : option CompatiblePortPair, p) (pairs : list (option CompatiblePortPair))).

Definition transportLabel (pair : CompatiblePortPair) : string :=
  if portHasInstancePlugs (pp_target pair) then "direct to ordered input"
  else if bool_decide (port_shape (pp_source pair) ∈ acceptedPortShapes (pp_target pair)) then "direct" else "map each item".

Definition catalogNodeKey (n : CatalogNode) : string := spec_operator_id (ct_spec n) +:+ "@" +:+ numberText (spec_operator_version (ct_spec n)).

Definition portText (p : Port) : string := default (port_name p) (port_title p).

Definition compatibleNode (selected : CatalogNode) (port : Port) (registry : CatalogRegistry) (candidate : CatalogNode) : res (list CompatibleNode) :=
  if bool_decide (catalogNodeKey candidate = catalogNodeKey selected) then Ok []
  else
    pairs ← (if bool_decide (port_direction port = input)
             then ps ← compatiblePortPairs candidate selected registry; Ok (filter (λ pair, port_name (pp_target pair) = port_name port) ps)
             else ps ← compatiblePortPairs selected candidate registry; Ok (filter (λ pair, port_name (pp_source pair) = port_name port) ps));
    Ok (match (pairs : list CompatiblePortPair) with
        | [] => []
        | first :: _ =>
            [{| cp_spec := candidate;
                cp_routeSummary := Js.join " · " (filter (λ t, t ≠ "")
                  ([portText (pp_source first) +:+ arrow +:+ portText (pp_target first); transportLabel first] ++ option_list (routeTitle (pp_route first))));
                cp_additionalRouteCount := Z.of_nat (sum_list_with pp_routeCount pairs) - 1 |}]
        end).

(** The place of the last listing with a key. *)
Fixpoint lastIndex (key : string) (k : nat) (l : list CatalogNode) (found : nat) : nat :=
  match l with [] => found | n :: l' => lastIndex key (S k) l' (if bool_decide (catalogNodeKey n = key) then k else found) end.

Definition compatibleNodesForPort (selected : CatalogNode) (port : Port) (registry : CatalogRegistry) : res (list CompatibleNode) :=
  found ← mapM (compatibleNode selected port registry) (cg_nodes registry);
  let matches := concat found in
  let order := sortCatalogNodes (cp_spec <$> matches) in
  let placeOf m := Z.of_nat (lastIndex (catalogNodeKey (cp_spec m)) 0 order 0) in
  Ok (js_sort (λ left right, placeOf left - placeOf right)%Z matches).
End catalog.

(** ** Searching *)

Definition answers {A} (f : A → res bool) (a : A) : bool := match f a with Ok b => b | Throw _ => false end.

Lemma res_filter_ok {A} (f : A → res bool) l r : res_filter f l = Ok r → r = filter (λ a, answers f a = true) l ∧ ∀ a, a ∈ l → ∃ b, f a = Ok b.
Proof.
  revert r. induction l as [|a l IH]; intros r; cbn [res_filter]; [intros [= <-]; by split; [|intros ? ?%not_elem_of_nil]|].
  destruct (f a) as [b|] eqn:Ha; cbn [mbind res_bind]; [|done]. destruct (res_filter f l) as [rest|] eqn:Hl; cbn [mbind res_bind]; [|done]. intros [= <-].
  destruct (IH rest eq_refl) as [-> Hall]. split.
  - assert (answers f a = b) as Hab by (unfold answers; by rewrite Ha). rewrite filter_cons, Hab. destruct b; by case_decide.
  - intros x [->|Hx]%elem_of_cons; [by exists b|auto].
Qed.

Section stable.
Context {A} (key : A → Z).
Notation byKey := (js_sort (λ left right, key left - key right)%Z).

Lemma insert_filter x l k :
  StronglySorted (λ a b, key a <= key b)%Z l →
  filter (λ a, key a = k) (js_insert (λ left right, key left - key right)%Z x l) = filter (λ a, key a = k) (x :: l) ∧
  StronglySorted (λ a b, key a <= key b)%Z (js_insert (λ left right, key left - key right)%Z x l).
Proof.
  induction 1 as [|y l Hs IH Hy]; cbn [js_insert]; [split; [done|repeat constructor]|]. destruct (key x - key y <=? 0)%Z eqn:Hc.
  - apply Z.leb_le in Hc. split; [done|]. constructor; [by constructor|]. constructor; [lia|]. eapply Forall_impl; [done|]. cbn. lia.
  - apply Z.leb_gt in Hc. destruct IH as [IHf IHs]. split.
    + rewrite !filter_cons in *. rewrite IHf. repeat case_decide; try done. lia.
    + constructor; [done|]. apply Forall_forall. intros z Hz. rewrite js_insert_perm in Hz. apply elem_of_cons in Hz as [->|Hz]; [lia|].
      rewrite Forall_forall in Hy. auto.
Qed.

(** Sorting by a key leaves the elements of every key in their order. *)
Lemma sort_by_key_stable l : StronglySorted (λ a b, key a <= key b)%Z (byKey l) ∧ ∀ k, filter (λ a, key a = k) (byKey l) = filter (λ a, key a = k) l.
Proof.
  induction l as [|x l [IHs IHf]]; [split; [constructor|done]|].
  change (byKey (x :: l)) with (js_insert (λ left right, key left - key right)%Z x (byKey l)). split; [by apply (insert_filter x _ 0%Z)|]. intros k.
  destruct (insert_filter x (byKey l) k IHs) as [H _]. rewrite H, !filter_cons, IHf. done.
Qed.
End stable.

Lemma foldl_applyFilter_sub filters nodes : sublist (foldl applyFilter nodes filters) nodes.
Proof.
  revert nodes. induction filters as [|f filters IH]; intros nodes; cbn; [done|]. etrans; [apply IH|].
  unfold applyFilter, catalogNodesForFilter. repeat case_match; try done; try apply sublist_filter; apply sublist_nil_l.
Qed.

(** The description of the node has every word. *)
Definition describedBy (numberText : jsnum → string) (portDescription : Port → option string) (registry : CatalogRegistry) (terms : list string) (n : CatalogNode) : bool :=
  match nodeCatalogSearchText numberText portDescription n registry with
  | Ok searched => forallb (λ term, includes term searched) terms
  | Throw _ => false
  end.

(** A search finds the filtered nodes whose description has every word of the query, each as
    often as it is listed.  The ones named for the query come first, and those of one rank in
    catalog order. *)
Theorem catalog_search_is_exact localeCompare numberText portDescription nodes filters query registry found :
  filterAndSearchCatalogNodes localeCompare numberText portDescription nodes filters query registry = Ok found →
  let terms := searchTerms query in
  let listed := foldl applyFilter nodes filters in
  let matching := if bool_decide (terms = []) then listed else filter (λ n, describedBy numberText portDescription registry terms n = true) listed in
  found ≡ₚ matching ∧ sublist listed nodes ∧
  (terms = [] → found = sortCatalogNodes localeCompare matching) ∧
  (terms ≠ [] → StronglySorted (λ a b, catalogSearchRank a query <= catalogSearchRank b query)%Z found ∧
    ∀ k, filter (λ n, catalogSearchRank n query = k) found = filter (λ n, catalogSearchRank n query = k) (sortCatalogNodes localeCompare matching)).
Proof.
  unfold filterAndSearchCatalogNodes, searchCatalogNodes. intros H. cbv zeta.
  pose proof (foldl_applyFilter_sub filters nodes) as Hsub. set (listed := foldl applyFilter nodes filters) in *.
  destruct (searchTerms query) as [|t terms] eqn:Ht.
  - rewrite bool_decide_true by done. cbn in H. injection H as <-. split_and!; try done. apply js_sort_perm.
  - rewrite bool_decide_false by done. destruct (res_filter _ listed) as [r|] eqn:Hr; cbn in H; [|done]. injection H as <-.
    apply res_filter_ok in Hr as [-> _]. assert (filter (λ n, answers (foundBy numberText portDescription (t :: terms) registry) n = true) listed =
      filter (λ n, describedBy numberText portDescription registry (t :: terms) n = true) listed) as ->.
    { apply list_filter_iff. intros n. unfold answers, foundBy, describedBy. by destruct (nodeCatalogSearchText _ _ _ _). }
    unfold byRank, sortCatalogNodes. split_and!; try done; [by rewrite !js_sort_perm|]. intros _. apply sort_by_key_stable.
Qed.

(** ** Discovery *)

Lemma mode_iff_compatible source target : is_Some (collectionModeForPorts source target) ↔ shapesAreCompatible source target = true.
Proof. unfold collectionModeForPorts, shapesAreCompatible. case_bool_decide; cbn; [naive_solver|]. destruct (_ && _); cbn; naive_solver. Qed.

(** The mode a picker gives a new edge is the canvas's first choice for the declared shapes. *)
Theorem discovery_mode_is_the_canvas_mode source target :
  port_shape target ∈ acceptedPortShapes target →
  collectionModeForPorts source target = head (collectionModesForShapes (port_shape source) target (port_shape target)).
Proof.
  intros Hin. unfold collectionModeForPorts, collectionModesForShapes. destruct (portHasInstancePlugs target); cbn [negb andb orb].
  - rewrite orb_false_r, andb_false_r. cbn. by case_bool_decide.
  - destruct (bool_decide (port_shape source ∈ acceptedPortShapes target)) eqn:Hs; [done|]. apply bool_decide_eq_false in Hs. cbn [orb].
    rewrite (bool_decide_false (port_shape source = port_shape target)) by congruence. cbn [app].
    destruct (port_shape source) eqn:Es; cbn; [done|]. destruct (port_shape target) eqn:Et; [|done].
    by rewrite !bool_decide_true, (bool_decide_false (many ∈ acceptedPortShapes target)) by done.
Qed.

Lemma candidatesBy_exact localeCompare choicesOf nodes cs :
  candidatesBy localeCompare choicesOf nodes = Ok cs →
  (∀ c, c ∈ cs → cx_spec c ∈ nodes ∧ ct_catalog_visible (cx_spec c) = true ∧ cx_choices c ≠ [] ∧ ∃ l, choicesOf (cx_spec c) = Ok l ∧ cx_choices c = concat l) ∧
  (∀ n, n ∈ nodes → ct_catalog_visible n = true → ∃ l, choicesOf n = Ok l ∧ (concat l ≠ [] → ∃ c, c ∈ cs ∧ cx_spec c = n ∧ cx_choices c = concat l)).
Proof.
  unfold candidatesBy. destruct (mapM _ _) as [found|] eqn:Hm; cbn; [|done]. intros [= <-]. apply mapM_res in Hm.
  assert (∀ n, n ∈ sortCatalogNodes localeCompare (filter (λ n, ct_catalog_visible n = true) nodes) ↔ n ∈ nodes ∧ ct_catalog_visible n = true) as Hsort.
  { intros n. unfold sortCatalogNodes. rewrite elem_of_js_sort, list_elem_of_filter. naive_solver. }
  split.
  - intros c [Hne [k Hk]%list_elem_of_lookup]%list_elem_of_filter. destruct (Forall2_lookup_r _ _ _ _ _ Hm Hk) as (n & Hn & Hc).
    apply list_elem_of_lookup_2, Hsort in Hn as [Hn Hv]. destruct (choicesOf n) as [l|] eqn:Hl; cbn in Hc; [|done]. injection Hc as <-. cbn in *. eauto 10.
  - intros n Hn Hv. assert (n ∈ sortCatalogNodes localeCompare (filter (λ n, ct_catalog_visible n = true) nodes)) as [k Hk]%list_elem_of_lookup by by apply Hsort.
    destruct (Forall2_lookup_l _ _ _ _ _ Hm Hk) as (c & Hc & Hn'). destruct (choicesOf n) as [l|] eqn:Hl; cbn in Hn'; [|done]. injection Hn' as <-.
    exists l. split; [done|]. intros Hne. exists {| cx_spec := n; cx_choices := concat l |}. split; [|done]. apply list_elem_of_filter. split; [done|]. by eapply list_elem_of_lookup_2.
Qed.

(** A route does not depend on the plug that its target handle names. *)
Definition with_plug (k : option string) (p : PortMeta) : PortMeta :=
  {| portName := portName p; portType := portType p; Handles.shape := Handles.shape p; direction := direction p; plugId := k; feed := feed p; alsoAccepts := alsoAccepts p |}.

Lemma routes_ignore_the_plug localeCompare registry s p k1 k2 :
  handle_ok (with_plug k1 p) → handle_ok (with_plug k2 p) →
  routesBetween localeCompare registry s (encodeHandleId (with_plug k1 p)) = routesBetween localeCompare registry s (encodeHandleId (with_plug k2 p)).
Proof. intros H1 H2. unfold routesBetween, connectionRoutesFor. cbn [sourceHandle targetHandle]. by rewrite !decode_encoded. Qed.

(** ** The picker and the canvas agree *)

Section agree.
Context (localeCompare : string → string → Z) (registry : CatalogRegistry) (source : Port) (sourceHandle : string).
Hypothesis source_typed : typedHandle source None = Ok sourceHandle.

(** The handles of an input can be written, with either plug. *)
Definition input_writable (port : Port) : Prop :=
  port_direction port = input ∧ ∃ meta, portMetaForPort port (port_shape port) None [] = Some meta ∧ handle_ok meta.

Lemma portMeta_plug port sh k meta : portMetaForPort port sh None [] = Some meta → portMetaForPort port sh (Some k) [] = Some (with_plug (truthy (Some k)) meta).
Proof.
  unfold portMetaForPort. destruct (resolvedPortArtifactType port []); [by intros [= <-]|]. destruct (truthy (portArtifactTypeVariable port)); [|done]. by intros [= <-].
Qed.

Lemma with_plug_ok k meta : handle_ok meta → plug_ok k → handle_ok (with_plug (Some k) meta).
Proof. intros [H1 H2 H3 H4 H5] Hk. split; try done. intros k' [= <-]. done. Qed.

Lemma input_handles port meta k :
  portMetaForPort port (port_shape port) None [] = Some meta → handle_ok meta → plug_ok k →
  typedHandle port (Some k) = Ok (encodeHandleId (with_plug (Some k) meta)).
Proof.
  intros Hm Hok Hk. unfold typedHandle. rewrite (portMeta_plug _ _ _ _ Hm). destruct Hk as [Hne _]. cbn [truthy mbind option_bind]. by rewrite bool_decide_false.
Qed.

(** An input is offered in one list exactly when it is in the other. *)
Lemma input_agrees port :
  input_writable port →
  ∃ choices b, inputChoices localeCompare source sourceHandle None registry port = Ok choices ∧ portsCanConnect localeCompare registry source port = Ok b ∧
    (b = true ↔ choices ≠ []).
Proof.
  intros (Hdir & meta & Hm & Hok). unfold inputChoices, portsCanConnect, targetHandleForRoute. rewrite bool_decide_true by done. cbn [negb orb].
  destruct (shapesAreCompatible source port) eqn:Hs; cbn [negb]; [|by eexists [], false].
  apply mode_iff_compatible in Hs as [mode ->]. destruct (portHasInstancePlugs port) eqn:Hp; cbn [andb].
  - destruct (port_required port); cbn [negb]; [|by eexists [], false].
    assert (plug_ok DISCOVERY_INSTANCE_PLUG_ID ∧ plug_ok "discovery-plug") as [Hk1 Hk2] by (split; by split_and!).
    rewrite (input_handles _ _ _ Hm Hok Hk1), source_typed, (input_handles _ _ _ Hm Hok Hk2). cbn [mbind res_bind].
    rewrite (routes_ignore_the_plug localeCompare registry sourceHandle meta (Some "discovery-plug") (Some DISCOVERY_INSTANCE_PLUG_ID)) by auto using with_plug_ok.
    eexists _, _. split_and!; [done..|]. rewrite negb_true_iff, bool_decide_eq_false. cbn [routesForHandleFeed]. by destruct (routesBetween _ _ _ _).
  - unfold typedHandle at 1 2. rewrite Hm, source_typed. cbn [mbind res_bind]. eexists _, _. split_and!; [done..|].
    rewrite negb_true_iff, bool_decide_eq_false. cbn [routesForHandleFeed]. by destruct (routesBetween _ _ _ _).
Qed.

Lemma mapM_total {A B} (f : A → res B) l : (∀ a, a ∈ l → ∃ b, f a = Ok b) → ∃ bs, mapM f l = Ok bs.
Proof.
  induction l as [|a l IH]; intros H; [by eexists|]. cbn. destruct (H a ltac:(by left)) as [b ->]. cbn.
  destruct IH as [bs ->]; [intros x Hx; apply H; by right|]. by eexists.
Qed.

(** The inputs of one node. *)
Lemma node_agrees n :
  Forall input_writable (catalog_inputs n) →
  ∃ choices b, mapM (inputChoices localeCompare source sourceHandle None registry) (catalog_inputs n) = Ok choices ∧
    res_some (λ i, portsCanConnect localeCompare registry source i) (catalog_inputs n) = Ok b ∧ (b = true ↔ concat choices ≠ []).
Proof.
  induction 1 as [|p l Hp _ IH]; [by exists [], false|]. destruct (input_agrees p Hp) as (cs & b & Hcs & Hb & Hiff). destruct IH as (ls & b' & Hls & Hb' & Hiff').
  cbn. rewrite Hcs, Hb, Hls, Hb'. cbn. destruct b.
  - exists (cs :: ls), true. split_and!; [done..|]. split; [|done]. intros _. destruct cs; [by destruct (proj1 Hiff eq_refl)|done].
  - exists (cs :: ls), b'. split_and!; [done..|]. destruct cs as [|c cs]; [done|]. by assert (false = true) by by apply Hiff.
Qed.

(** The nodes that the node picker keeps for an output are those that a release of the output on
    the canvas offers, hidden listings apart; neither fails on a catalog whose inputs have types. *)
Theorem picker_and_discovery_agree nodes :
  Forall (λ n, Forall input_writable (catalog_inputs n)) nodes →
  ∃ candidates kept, downstreamCandidatesFromOutput localeCompare source sourceHandle None registry nodes = Ok candidates ∧
    nodesCompatibleWithPort localeCompare nodes false source registry = Ok kept ∧
    (∀ n, n ∈ cx_spec <$> candidates ↔ n ∈ kept ∧ ct_catalog_visible n = true) ∧ sublist kept nodes.
Proof.
  intros Hw. rewrite Forall_forall in Hw. set (f n := res_some (λ i, portsCanConnect localeCompare registry source i) (catalog_inputs n)).
  assert (∀ l, (∀ n, n ∈ l → n ∈ nodes) → ∃ kept, res_filter f l = Ok kept) as Hf.
  { induction l as [|n l IH]; intros Hl; [by eexists|]. cbn [res_filter]. destruct (node_agrees n) as (? & b & _ & Hb & _); [apply Hw, Hl; by left|].
    assert (f n = Ok b) as -> by exact Hb. cbn. destruct IH as [k ->]; [intros; apply Hl; by right|]. by eexists. }
  destruct (Hf nodes) as [kept Hkept]; [done|]. destruct (res_filter_ok _ _ _ Hkept) as [-> _].
  unfold downstreamCandidatesFromOutput. set (g n := mapM (inputChoices localeCompare source sourceHandle None registry) (catalog_inputs n)).
  assert (∃ cs, candidatesBy localeCompare g nodes = Ok cs) as [cs Hcs].
  { unfold candidatesBy. destruct (mapM_total (λ n, choices ← g n; Ok {| cx_spec := n; cx_choices := concat choices |})
      (sortCatalogNodes localeCompare (filter (λ n, ct_catalog_visible n = true) nodes))) as [found Hfound]; [|rewrite Hfound; by eexists].
    intros n Hn. unfold sortCatalogNodes in Hn. apply elem_of_js_sort, list_elem_of_filter in Hn as [_ Hn]. destruct (node_agrees n (Hw n Hn)) as (ls & ? & Hls & _).
    unfold g. rewrite Hls. by eexists. }
  exists cs, (filter (λ n, answers f n = true) nodes). split_and!; [done|exact Hkept| |apply sublist_filter].
  destruct (candidatesBy_exact _ _ _ _ Hcs) as [Hin Hall]. intros n. rewrite list_elem_of_fmap, list_elem_of_filter. unfold answers, f. split.
  - intros (c & -> & Hc). destruct (Hin c Hc) as (Hn & Hv & Hne & l & Hl & Heq). split; [|done]. split; [|done].
    destruct (node_agrees (cx_spec c) (Hw _ Hn)) as (ls & b & Hls & Hb & Hiff). rewrite Hb. apply Hiff. unfold g in Hl. congruence.
  - intros [[Hb Hn] Hv]. destruct (Hall n Hn Hv) as (l & Hl & Hex). destruct (node_agrees n (Hw _ Hn)) as (ls & b & Hls & Hb' & Hiff). rewrite Hb' in Hb.
    unfold g in Hl. rewrite Hls in Hl. injection Hl as <-. destruct Hex as (c & Hc & Hspec & _); [by apply Hiff|]. by exists c.
Qed.
End agree.

(** ** Samples *)

Definition sample_listing (i : string) (inputs outputs : list Port) : CatalogNode :=
  {| ct_spec := plain_spec i inputs outputs; ct_description := ""; ct_plugin_slug := "core"; ct_catalog_visible := true |}.

(** An input of ordered plugs that a new node starts without. *)
Definition optional_plugs : Port :=
  {| port_name := "texts"; port_title := None; port_direction := input; port_shape := one; port_accepted_shapes := [one];
     port_variadic := false; port_required := false; port_instance_plugs := true; port_shape_field := None;
     port_artifact_type := Some text_type; port_artifact_type_variable := None; port_also_accepts := [] |}.

Definition speaker : CatalogNode := sample_listing "text.say" [] [text_port output].
Definition trimmer : CatalogNode := sample_listing "text.trim" [text_port input] [text_port output].
Definition joiner : CatalogNode := sample_listing "text.join" [optional_plugs] [].

Definition sample_registry : CatalogRegistry :=
  {| cg_nodes := [speaker; joiner; trimmer]; cg_plugins := [{| pg_slug := "core"; pg_title := "Core"; pg_entry_kind := "plugin"; pg_origin := "builtin" |}];
     cg_artifact_types := []; cg_titles := [(text_type, "Text")]; cg_artifact_conversions := [] |}.

Definition text_output_handle : string := default "" (text_handle output).

Lemma text_input_writable : input_writable (text_port input).
Proof. split; [done|]. eexists. split; [reflexivity|]. by split. Qed.

Lemma picker_and_discovery_agree_witness :
  ∃ candidates kept, downstreamCandidatesFromOutput one_by_one (text_port output) text_output_handle None sample_registry [speaker; trimmer] = Ok candidates ∧
    nodesCompatibleWithPort one_by_one [speaker; trimmer] false (text_port output) sample_registry = Ok kept ∧ kept = [trimmer] ∧ cx_spec <$> candidates = [trimmer].
Proof.
  destruct (picker_and_discovery_agree one_by_one sample_registry (text_port output) text_output_handle eq_refl [speaker; trimmer]) as (cs & kept & Hcs & Hk & _ & _).
  - repeat constructor. by eexists; split; [reflexivity|by split].
  - exists cs, kept. split_and!; [done..| |]; [vm_compute in Hk; by injection Hk as <-|vm_compute in Hcs; by injection Hcs as <-].
Defined.

(** "Works with" lists a node whose only fitting input has no plug yet: what a release on the
    canvas does not offer, and what the canvas refuses for a new node. *)
Theorem works_with_lists_a_node_without_a_plug :
  ∃ listed data,
    compatibleNodesForPort one_by_one (λ _, "1") speaker (text_port output) sample_registry = Ok listed ∧ joiner ∈ cp_spec <$> listed ∧
    downstreamCandidatesFromOutput one_by_one (text_port output) text_output_handle None sample_registry [joiner] = Ok [] ∧
    createWorkflowNodeData (λ _, "u") (ct_spec joiner) None = Some data ∧ nd_inputPlugs data = [] ∧
    isConnectionAccepted one_by_one
      {| cn_source := "a"; cn_sourceHandle := text_handle output; cn_target := "j"; cn_targetHandle := encodeHandleId <$> portMetaForPort optional_plugs one None [] |}
      [text_node "a"; {| wn_id := "j"; wn_selected := None; wn_position := {| pt_x := num 0; pt_y := num 0 |}; wn_data := data |}] [] [] [] None [] = false.
Proof.
  destruct (compatibleNodesForPort one_by_one (λ _, "1") speaker (text_port output) sample_registry) as [listed|] eqn:Hl; [|by vm_compute in Hl].
  destruct (createWorkflowNodeData (λ _, "u") (ct_spec joiner) None) as [data|] eqn:Hd; [|by vm_compute in Hd].
  exists listed, data. vm_compute in Hl. injection Hl as <-. vm_compute in Hd. injection Hd as <-. split_and!; try done; [|vm_compute; reflexivity..].
  apply list_elem_of_fmap. eexists. split; [|by left]. reflexivity.
Qed.
