(* ===== verification/SchemaOutline.v ===== *)
(** * The outline of a payload schema ([canvas/nodes/schema-outline.ts])

    What the inspector of a type shows: the fields, branches and items of a JSON schema as a tree,
    with a label for each type.  A label is put together by a recursion that the source does not
    bound; here it takes fuel, and runs out where the source does not return.  The text of a number
    is a parameter. *)

From stdpp Require Import list strings pretty.
From S2P Require Import Prelude Js JsText ConfigSchema ConfigFields.
#[local] Open Scope string_scope.
#[local] Open Scope list_scope.
#[local] Open Scope nat_scope.

Inductive OutlineKind := ok_field | ok_branch | ok_items.

Inductive OutlineNode := outline_node {
  ou_id : string;
  ou_name : string;
  ou_typeLabel : string;
  ou_required : bool;
  ou_kind : OutlineKind;
  ou_children : list OutlineNode;
  ou_expandable : bool
}.

(** [s.startsWith(p)] with [s.slice(p.length)] *)
Fixpoint strip (p s : string) : option string :=
  match p, s with
  | EmptyString, _ => Some s
  | String.String a p', String.String b s' => if bool_decide (a = b) then strip p' s' else None
  | _, _ => None
  end.

Definition definitionNamed (root : jsobj) (name : string) : option jsobj := record (obj_get "$defs" root) ≫= λ d, record (obj_get name d).

(** The loop of [dereference]. *)
Fixpoint following (fuel : nat) (visited : list string) (current root : jsobj) : option jsobj :=
  match obj_get "$ref" current with
  | JStr reference =>
      if bool_decide (reference ∈ visited) then Some current
      else
        match fuel with
        | O => None
        | S fuel' =>
            match strip "#/$defs/" reference ≫= definitionNamed root with
            | Some resolved => following fuel' (reference :: visited) resolved root
            | None => Some current
            end
        end
  | _ => Some current
  end.

Definition definitionCount (root : jsobj) : nat := match record (obj_get "$defs" root) with Some d => length d | None => 0 end.

Definition dereference (schema root : jsobj) : jsobj := default schema (following (S (definitionCount root)) [] schema root).

Definition isNull (member : jsobj) : bool := is_text "null" (obj_get "type" member).

Definition unionMembers (schema root : jsobj) : list jsobj * bool :=
  let resolved := dereference schema root in
  match coalesce (obj_get "oneOf" resolved) (obj_get "anyOf" resolved) with
  | JArr raw =>
      let members := omap (λ candidate, (λ c, dereference c root) <$> record candidate) raw in
      let optional := existsb isNull members in
      let concrete := filter (λ m, isNull m = false) members in
      (if is_nil concrete then members else concrete, optional)
  | _ => ([resolved], false)
  end.

Definition branchName (schema : jsobj) : string :=
  match record (obj_get "properties" schema) ≫= λ p, record (obj_get "kind" p) with
  | Some kind =>
      match obj_get "const" kind with
      | JStr c => c
      | _ => match obj_get "title" schema with JStr t => t | _ => "variant" end
      end
  | None => match obj_get "title" schema with JStr t => t | _ => "variant" end
  end.

Section outline.
Context (numberText : jsnum → string).

(** [String(v)] *)
Fixpoint stringOf (v : jsval) : string :=
  match v with
  | JUndefined => "undefined"
  | JNull => "null"
  | JBool b => if b then "true" else "false"
  | JNum n => numberText n
  | JStr s => s
  | JArr l => Js.join "," (map (λ v, match v with JUndefined | JNull => "" | _ => stringOf v end) l)
  | JObj _ => "[object Object]"
  end.

Definition scalarLabel (schema : jsobj) : string :=
  match obj_get "enum" schema with
  | JArr l => Js.join " | " (map stringOf l)
  | _ =>
      match obj_get "const" schema with
      | JStr c => chr (Ascii.ascii_of_nat 34) +:+ c +:+ chr (Ascii.ascii_of_nat 34)
      | _ =>
          let type := obj_get "type" schema in
          if is_text "string" type then "str"
          else if is_text "integer" type then "int"
          else if is_text "number" type then "float"
          else if is_text "boolean" type then "bool"
          else if is_text "null" type then "None"
          else if is_text "array" type then "list"
          else if is_text "object" type then match obj_get "title" schema with JStr t => t | _ => "object" end
          else if bool_decide (is_Some (record (obj_get "properties" schema))) then "object" else "any"
      end
  end.

Definition memberLabel (member : jsobj) : string := let kind := branchName member in if bool_decide (kind = "variant") then scalarLabel member else kind.

Fixpoint typeLabel (fuel : nat) (schema root : jsobj) : option string :=
  match fuel with
  | O => None
  | S fuel' =>
      let '(members, optional) := unionMembers schema root in
      match members with
      | [] => Some (if optional then "None" else "any")
      | [resolved] =>
          if is_text "array" (obj_get "type" resolved) then
            match obj_get "prefixItems" resolved with
            | JArr items => Some ("tuple[" +:+ pretty (length items) +:+ "]")
            | _ => (λ inner, "list[" +:+ inner +:+ "]") <$> typeLabel fuel' (default [] (record (obj_get "items" resolved))) root
            end
          else
            let label := scalarLabel resolved in
            Some (if optional && negb (bool_decide (label = "None")) then label +:+ " | None" else label)
      | _ =>
          let joined := Js.join " | " (js_set (map memberLabel members)) in
          Some (if optional && negb (includes "None" joined) then joined +:+ " | None" else joined)
      end
  end.

Definition schemaTypeLabel (fuel : nat) (schema root : option jsobj) : option string :=
  match schema, root with
  | Some schema, Some root => typeLabel fuel schema root
  | _, _ => Some "any"
  end.

Definition isExpandable (schema root : jsobj) : bool :=
  match (unionMembers schema root).1 with
  | [] => false
  | [resolved] => bool_decide (is_Some (record (obj_get "properties" resolved))) || is_text "array" (obj_get "type" resolved)
  | _ => true
  end.

(** One row: its children and its label, if they come to an end. *)
Definition row (fuel : nat) (root : jsobj) (children : option (list OutlineNode)) (id name : string) (required : bool) (kind : OutlineKind)
    (schema : jsobj) (expandable : list OutlineNode → bool) : option OutlineNode :=
  cs ← children; label ← typeLabel fuel schema root; Some (outline_node id name label required kind cs (expandable cs)).

Definition hasChildren (cs : list OutlineNode) : bool := negb (is_nil cs).

Definition requiredSet (resolved : jsobj) : list string :=
  match obj_get "required" resolved with JArr l => omap (λ v, match v with JStr s => Some s | _ => None end) l | _ => [] end.

(** [levels] is how many are left before [depth > 10]. *)
Fixpoint childrenOf (fuel levels : nat) (schema root : jsobj) (idPrefix : string) : option (list OutlineNode) :=
  match levels with
  | O => Some []
  | S levels' =>
      match (unionMembers schema root).1 with
      | [] => Some []
      | [resolved] =>
          if is_text "array" (obj_get "type" resolved) then
            match obj_get "prefixItems" resolved with
            | JArr items =>
                mapM (λ entry : nat * jsobj,
                        let '(index, itemSchema) := entry in
                        let label := "[" +:+ pretty index +:+ "]" in
                        let id := idPrefix +:+ "/" +:+ label in
                        row fuel root (childrenOf fuel levels' itemSchema root id) id
                            (match obj_get "title" itemSchema with JStr t => t | _ => label end) true ok_items itemSchema hasChildren)
                     (omap (λ e : nat * jsval, (λ o, (e.1, o)) <$> record e.2) (imap pair items))
            | _ =>
                match record (obj_get "items" resolved) with
                | None => Some []
                | Some items =>
                    let id := idPrefix +:+ "/[]" in
                    (λ r, [r]) <$> row fuel root (childrenOf fuel levels' items root id) id "item" false ok_items items hasChildren
                end
            end
          else
            match record (obj_get "properties" resolved) with
            | None => Some []
            | Some properties =>
                mapM (λ entry : string * jsval,
                        let '(name, raw) := entry in
                        let property := default [] (record raw) in
                        let id := idPrefix +:+ "/" +:+ name in
                        row fuel root (childrenOf fuel levels' property root id) id name (bool_decide (name ∈ requiredSet resolved)) ok_field property
                            (λ cs, hasChildren cs || isExpandable property root))
                     properties
            end
      | members =>
          mapM (λ member,
                  let name := branchName member in
                  let id := idPrefix +:+ "/as:" +:+ name in
                  row fuel root (childrenOf fuel levels' member root id) id ("as " +:+ name) false ok_branch member hasChildren)
               members
      end
  end.

Definition schemaOutline (fuel : nat) (schema : jsobj) : option (list OutlineNode) := childrenOf fuel 11 schema schema "root".

End outline.

Fixpoint findNode (id : string) (node : OutlineNode) : option OutlineNode :=
  if bool_decide (ou_id node = id) then Some node
  else (fix nested (nodes : list OutlineNode) : option OutlineNode :=
          match nodes with
          | [] => None
          | n :: rest => match findNode id n with Some found => Some found | None => nested rest end
          end) (ou_children node).

Fixpoint findOutlineNode (nodes : list OutlineNode) (id : string) : option OutlineNode :=
  match nodes with
  | [] => None
  | n :: rest => match findNode id n with Some found => Some found | None => findOutlineNode rest id end
  end.

Definition outlineCrumbLabel (node : OutlineNode) : string :=
  match ou_kind node, strip "as " (ou_name node) with
  | ok_branch, Some name => name
  | _, _ => ou_name node
  end.

Definition schemaTitle (schema : jsobj) (fallback : string) : string :=
  match obj_get "title" schema with JStr t => if bool_decide (t = "") then fallback else t | _ => fallback end.

(** ** References *)

Lemma strip_Some p s r : strip p s = Some r → s = p +:+ r.
Proof.
  revert s. induction p as [|a p IH]; intros s; cbn [strip]; [by intros [= ->]|]. destruct s as [|b s]; [done|]. case_bool_decide; [|done].
  intros ->%IH. by subst.
Qed.

Lemma obj_get_key k o v : obj_get k o = v → v ≠ JUndefined → k ∈ o.*1.
Proof.
  induction o as [|[k' v'] o IH]; cbn [obj_get fmap list_fmap]; [intros <-; done|]. case_bool_decide; [intros; subst; left|]. intros Hv Hne. right. by apply IH.
Qed.

Definition definitionKeys (root : jsobj) : list string := match record (obj_get "$defs" root) with Some d => d.*1 | None => [] end.

Lemma named_key root name o : definitionNamed root name = Some o → name ∈ definitionKeys root.
Proof.
  unfold definitionNamed, definitionKeys. destruct (record (obj_get "$defs" root)) as [d|]; cbn; [|done]. intros Hr. eapply obj_get_key; [done|]. by destruct (obj_get name d).
Qed.

(** Following references comes to an end: one goes at most once through each definition. *)
Lemma following_ends fuel visited current root ks :
  visited = map (λ k, "#/$defs/" +:+ k) ks → NoDup ks → ks ⊆ definitionKeys root → definitionCount root < fuel + length ks →
  is_Some (following fuel visited current root).
Proof.
  revert visited current ks. induction fuel as [|fuel IH]; intros visited current ks -> Hn Hsub Hlt; cbn [following].
  - exfalso. apply NoDup_submseteq, submseteq_length in Hsub; [|done]. unfold definitionKeys, definitionCount in *. destruct (record _); [rewrite length_fmap in Hsub|cbn in Hsub]; lia.
  - destruct (obj_get "$ref" current) as [| | | |reference| |]; try done. case_bool_decide as Hv; [done|].
    destruct (strip "#/$defs/" reference ≫= definitionNamed root) as [resolved|] eqn:Hd; [|done].
    apply bind_Some in Hd as (k & Hk & Hd). apply strip_Some in Hk as ->. apply (IH _ _ (k :: ks)); [done| |..].
    + apply NoDup_cons. split; [|done]. intros Hin. apply Hv. exact (list_elem_of_fmap_2 (λ k, "#/$defs/" +:+ k) ks k Hin).
    + apply named_key in Hd. set_solver.
    + cbn. lia.
Qed.

(** [dereference] returns: its loop ends, however the definitions refer to each other. *)
Theorem dereference_returns schema root : following (S (definitionCount root)) [] schema root = Some (dereference schema root).
Proof.
  unfold dereference. destruct (following_ends (S (definitionCount root)) [] schema root []) as [o Ho]; [done|constructor|set_solver|cbn; lia|]. by rewrite Ho.
Qed.

(** ** Labels *)

(** More fuel does not change a label. *)
Lemma label_stays numberText fuel fuel' schema root label : typeLabel numberText fuel schema root = Some label → fuel <= fuel' → typeLabel numberText fuel' schema root = Some label.
Proof.
  revert fuel' schema label. induction fuel as [|fuel IH]; intros fuel' schema label; cbn [typeLabel]; [done|]. intros Hl Hle. destruct fuel' as [|fuel']; [lia|]. cbn [typeLabel].
  destruct (unionMembers schema root) as [[|resolved [|]] optional]; [done| |done]. destruct (is_text "array" _); [|done].
  destruct (obj_get "prefixItems" resolved); try done; apply fmap_Some in Hl as (inner & Hi & ->); rewrite (IH fuel' _ inner); done || lia.
Qed.

(** The schema of lists whose items are such lists again. *)
Definition nestedLists : jsobj :=
  [("$defs", JObj [("Tree", JObj [("type", JStr "array"); ("items", JObj [("$ref", JStr "#/$defs/Tree")])])]);
   ("$ref", JStr "#/$defs/Tree")].

(** A type of lists that contains itself has no label: putting it together never ends. *)
Theorem nested_lists_have_no_label numberText fuel : schemaTypeLabel numberText fuel (Some nestedLists) (Some nestedLists) = None.
Proof.
  cbn [schemaTypeLabel]. destruct fuel as [|fuel]; [done|]. change (typeLabel numberText (S fuel) nestedLists nestedLists) with
    ((λ inner, "list[" +:+ inner +:+ "]") <$> typeLabel numberText fuel [("$ref", JStr "#/$defs/Tree")] nestedLists).
  enough (typeLabel numberText fuel [("$ref", JStr "#/$defs/Tree")] nestedLists = None) as -> by done.
  induction fuel as [|fuel IH]; [done|]. change (typeLabel numberText (S fuel) [("$ref", JStr "#/$defs/Tree")] nestedLists) with
    ((λ inner, "list[" +:+ inner +:+ "]") <$> typeLabel numberText fuel [("$ref", JStr "#/$defs/Tree")] nestedLists). by rewrite IH.
Qed.

(** So its outline is never drawn either, although the outline itself stops at ten levels. *)
Theorem nested_lists_have_no_outline numberText fuel : schemaOutline numberText fuel nestedLists = None.
Proof.
  unfold schemaOutline. assert (∀ levels id, childrenOf numberText fuel (S levels) [("$ref", JStr "#/$defs/Tree")] nestedLists id = None) as Hc.
  { intros levels id. change (childrenOf numberText fuel (S levels) [("$ref", JStr "#/$defs/Tree")] nestedLists id) with
      ((λ r, [r]) <$> row numberText fuel nestedLists (childrenOf numberText fuel levels [("$ref", JStr "#/$defs/Tree")] nestedLists (id +:+ "/[]")) (id +:+ "/[]") "item" false ok_items [("$ref", JStr "#/$defs/Tree")] hasChildren).
    unfold row. destruct (childrenOf _ _ _ _ _ _); [|done]. cbn [mbind option_bind].
    enough (typeLabel numberText fuel [("$ref", JStr "#/$defs/Tree")] nestedLists = None) as -> by done.
    pose proof (nested_lists_have_no_label numberText (S fuel)) as Hn. cbn [schemaTypeLabel] in Hn. change (typeLabel numberText (S fuel) nestedLists nestedLists) with
      ((λ inner, "list[" +:+ inner +:+ "]") <$> typeLabel numberText fuel [("$ref", JStr "#/$defs/Tree")] nestedLists) in Hn. by destruct (typeLabel numberText fuel _ _). }
  exact (Hc 10 "root").
Qed.

(** ** The tree *)

Lemma outline_ind (P : OutlineNode → Prop) :
  (∀ id name label required kind children expandable, Forall P children → P (outline_node id name label required kind children expandable)) → ∀ n, P n.
Proof.
  intros H. fix IH 1. intros [id name label required kind children expandable]. apply H. induction children as [|c l IHl]; constructor; [apply IH|exact IHl].
Qed.

(** The nodes at or below a node. *)
Inductive within : OutlineNode → OutlineNode → Prop :=
| within_self n : within n n
| within_child n c m : c ∈ ou_children n → within c m → within n m.

Lemma findNode_eq id n : findNode id n = if bool_decide (ou_id n = id) then Some n else findOutlineNode (ou_children n) id.
Proof. destruct n as [i name label required kind children expandable]. cbn [findNode ou_id ou_children]. case_bool_decide; [done|]. induction children as [|c l IH]; cbn; [done|]. destruct (findNode id c); [done|exact IH]. Qed.

Definition finds (id : string) (found : option OutlineNode) (among : OutlineNode → Prop) : Prop :=
  match found with Some m => ou_id m = id ∧ among m | None => ∀ m, among m → ou_id m ≠ id end.

Lemma find_list id nodes : Forall (λ n, finds id (findNode id n) (within n)) nodes → finds id (findOutlineNode nodes id) (λ m, ∃ n, n ∈ nodes ∧ within n m).
Proof.
  induction 1 as [|n l Hn _ IH]; cbn [findOutlineNode]; [intros m (n & []%elem_of_nil & _)|]. destruct (findNode id n) as [m|]; cbn in Hn.
  - destruct Hn as [Hi Hw]. split; [done|]. exists n. split; [left|done].
  - destruct (findOutlineNode l id) as [m|]; cbn in IH |- *.
    + destruct IH as (Hi & k & Hk & Hw). split; [done|]. exists k. split; [by right|done].
    + intros m (k & [->|Hk]%elem_of_cons & Hw); [by apply Hn|]. apply IH. by exists k.
Qed.

Lemma find_node id n : finds id (findNode id n) (within n).
Proof.
  induction n as [i name label required kind children expandable Hc] using outline_ind. rewrite findNode_eq. cbn [ou_id ou_children].
  case_bool_decide as E; [split; [done|constructor]|]. apply find_list in Hc. destruct (findOutlineNode children id) as [m|]; cbn in Hc |- *.
  - destruct Hc as (Hi & k & Hk & Hw). split; [done|]. by eapply within_child.
  - intros m Hm. inversion Hm as [|? c ? Hin Hw]; subst; [done|]. apply Hc. by exists c.
Qed.

(** A node is found by its id exactly when the tree has one: what is found carries the id, and
    when nothing is found nothing does. *)
Theorem outline_node_is_found nodes id : finds id (findOutlineNode nodes id) (λ m, ∃ n, n ∈ nodes ∧ within n m).
Proof. apply find_list, Forall_forall. intros n _. apply find_node. Qed.

(** A list of numbers or a list of texts. *)
Definition twoLists : jsobj :=
  [("anyOf", JArr [JObj [("type", JStr "array"); ("items", JObj [("type", JStr "number")])];
                   JObj [("type", JStr "array"); ("items", JObj [("type", JStr "string")])]])].

(** Variants without a name have the same id, so the inspector shows the first one for all of
    them: behind both rows are the items of the first. *)
Theorem unnamed_variants_share_an_id numberText : ∃ a b,
  schemaOutline numberText 3 twoLists = Some [a; b] ∧ ou_id a = ou_id b ∧ map ou_typeLabel (ou_children a) = ["float"] ∧ map ou_typeLabel (ou_children b) = ["str"] ∧
  findOutlineNode [a; b] (ou_id b) = Some a.
Proof. do 2 eexists. split; [reflexivity|]. vm_compute. done. Qed.

(** ** Rows and fields *)

Lemma row_is numberText fuel root children id name required kind schema expandable r :
  row numberText fuel root children id name required kind schema expandable = Some r →
  ∃ cs, children = Some cs ∧ ou_children r = cs ∧ ou_id r = id ∧ ou_name r = name ∧ ou_required r = required ∧ ou_kind r = kind ∧
        typeLabel numberText fuel schema root = Some (ou_typeLabel r) ∧ ou_expandable r = expandable cs.
Proof. unfold row. intros (cs & -> & (label & Hl & [= <-])%bind_Some)%bind_Some. by exists cs. Qed.

(** An object shows its properties, one row each in the order of the schema, required or not as
    the schema says. *)
Theorem fields_are_the_properties numberText fuel levels schema root resolved properties prefix rows :
  (unionMembers schema root).1 = [resolved] → is_text "array" (obj_get "type" resolved) = false →
  record (obj_get "properties" resolved) = Some properties → childrenOf numberText fuel (S levels) schema root prefix = Some rows →
  map (λ r, (ou_name r, ou_required r)) rows = map (λ p : string * jsval, (p.1, bool_decide (p.1 ∈ requiredSet resolved))) properties ∧
  Forall (λ r, ou_kind r = ok_field ∧ ou_id r = prefix +:+ "/" +:+ ou_name r) rows.
Proof.
  intros Hu Ha Hp. cbn [childrenOf]. rewrite Hu, Ha, Hp. intros Hr%mapM_Some_1. clear Hp. induction Hr as [|[name raw] r ps rs Hrow _ [IH1 IH2]]; [done|].
  apply row_is in Hrow as (cs & _ & _ & Hid & Hname & Hreq & Hkind & _). split.
  - cbn [map fst]. by rewrite IH1, Hname, Hreq.
  - constructor; [|done]. rewrite Hid, Hname. done.
Qed.

(** ** How deep it goes *)

Fixpoint levelsOf (n : OutlineNode) : nat := S (fold_right Nat.max 0 (map levelsOf (ou_children n))).

Lemma levels_below l k : Forall (λ n, levelsOf n <= k) l → fold_right Nat.max 0 (map levelsOf l) <= k.
Proof. induction 1; cbn; lia. Qed.

Lemma row_levels numberText fuel root children id name required kind schema expandable r k :
  row numberText fuel root children id name required kind schema expandable = Some r →
  (∀ cs, children = Some cs → Forall (λ n, levelsOf n <= k) cs) → levelsOf r <= S k.
Proof. intros (cs & Hc & <- & _)%row_is Hk. destruct r. cbn in *. pose proof (levels_below _ _ (Hk _ Hc)). lia. Qed.

Lemma rows_levels {A} (f : A → option OutlineNode) l rows k : mapM f l = Some rows → (∀ a r, f a = Some r → levelsOf r <= k) → Forall (λ r, levelsOf r <= k) rows.
Proof. intros Hr%mapM_Some_1 Hf. induction Hr; constructor; eauto. Qed.

Lemma items_levels numberText fuel root levels items prefix rows :
  (∀ schema prefix rows, childrenOf numberText fuel levels schema root prefix = Some rows → Forall (λ r, levelsOf r <= levels) rows) →
  match items with
  | None => Some []
  | Some items => (λ r, [r]) <$> row numberText fuel root (childrenOf numberText fuel levels items root prefix) prefix "item" false ok_items items hasChildren
  end = Some rows → Forall (λ r, levelsOf r <= S levels) rows.
Proof.
  intros IH. destruct items as [items|]; [|intros [= <-]; constructor]. intros (r & Hrow & ->)%fmap_Some. constructor; [|constructor]. eapply row_levels; [exact Hrow|]. apply IH.
Qed.

Lemma children_levels numberText fuel levels schema root prefix rows :
  childrenOf numberText fuel levels schema root prefix = Some rows → Forall (λ r, levelsOf r <= levels) rows.
Proof.
  revert schema prefix rows. induction levels as [|levels IH]; intros schema prefix rows; cbn [childrenOf]; [intros [= <-]; constructor|].
  destruct (unionMembers schema root).1 as [|resolved [|]]; [intros [= <-]; constructor| |].
  - destruct (is_text "array" _).
    + destruct (obj_get "prefixItems" resolved) as [| | | | |items|].
      6: { intros Hr. eapply rows_levels; [exact Hr|]. intros [index o] r Hrow. eapply row_levels; [exact Hrow|]. apply IH. }
      all: apply items_levels; intros; by eapply IH.
    + destruct (record (obj_get "properties" resolved)); [|intros [= <-]; constructor]. intros Hr. eapply rows_levels; [exact Hr|]. intros [name raw] r Hrow. eapply row_levels; [exact Hrow|]. apply IH.
  - intros Hr. eapply rows_levels; [exact Hr|]. intros member r Hrow. eapply row_levels; [exact Hrow|]. apply IH.
Qed.

(** An outline has at most eleven levels, also for a schema that refers to itself. *)
Theorem outline_is_eleven_levels_deep numberText fuel schema rows : schemaOutline numberText fuel schema = Some rows → Forall (λ r, levelsOf r <= 11) rows.
Proof. apply children_levels. Qed.
