(* ===== verification/CardCommands.v ===== *)
(** * Gestures on cards ([ui/workbench-artifact-viewers.ts], [ui/workbench-artifact-cards.ts])

    The two hooks turn gestures into edits of the cards, commands on the document, and
    the state each card keeps beside it (selection, fields, activity).  A callback is an action on
    that layer: what it changes, the effects it hands on in order, and what it answers.
    What a hook was rendered with is a record of its own, since the cards may have changed
    since; ids drawn at random are arguments. *)

From stdpp Require Import numbers list gmap strings.
From S2P Require Import Prelude Js JsNum JsText JsJson GraphModel GraphCommands GraphTheory Handles Routes RoutesTheory NodeLayout InputPlugs ConfigSchema Canvas ExecutionPlan Connections ArtifactCards ArtifactDrop Hydration Viewers Grouping Collections.

(** ** The layer and its effects *)

Record CardLayer := {
  cl_viewers : ArtifactViewerCanvasState;
  cl_selections : gmap string jsval;
  cl_fields : gmap string (list jsval);
  cl_activities : gmap string (jsval * nat);
  cl_activityRevision : nat;
  cl_runError : option string
}.

Inductive CardEffect :=
| authored (commands : list GraphCommand)
| submitReplace (state : ArtifactViewerCanvasState)
| clearWorkflowSelection
| collected (collectionId : string).

(** [CollectionCommandDeps] and [ArtifactCardCommandDeps] with [ArtifactViewerCommandDeps]. *)
Record CollectionCommandDeps := {
  cc_spec : option NodeSpec;
  cc_disabledReason : option string;
  cc_sources : list CollectionSource;
  cc_nodes : list WorkflowNode;
  cc_edges : list WorkflowEdge
}.

Record CardDeps := {
  cd_artifactViewers : ArtifactViewerCanvasState;
  cd_origins : list GraphOrigin;
  cd_localAuthoringEnabledRef : bool;
  cd_localAuthoringBlockedMessage : string;
  cd_localAuthoringEnabled : bool;
  cd_groupingDisabledReason : option string;
  cd_collection : CollectionCommandDeps;
  cd_resolveCardValue : option (ArtifactViewerNode → option jsval)
}.

Definition CardM (A : Type) : Type := CardLayer → CardLayer * list CardEffect * A.

#[export] Instance CardM_ret : MRet CardM := λ A a l, (l, [], a).
#[export] Instance CardM_bind : MBind CardM := λ A B f m l, let '(l1, e1, a) := m l in let '(l2, e2, b) := f a l1 in (l2, e1 ++ e2, b).

Definition emit (e : CardEffect) : CardM unit := λ l, (l, [e], tt).

Definition with_viewers (v : ArtifactViewerCanvasState) (l : CardLayer) : CardLayer :=
  {| cl_viewers := v; cl_selections := cl_selections l; cl_fields := cl_fields l; cl_activities := cl_activities l;
     cl_activityRevision := cl_activityRevision l; cl_runError := cl_runError l |}.
Definition setRunError (m : string) (l : CardLayer) : CardLayer :=
  {| cl_viewers := cl_viewers l; cl_selections := cl_selections l; cl_fields := cl_fields l; cl_activities := cl_activities l;
     cl_activityRevision := cl_activityRevision l; cl_runError := Some m |}.
Definition setArtifactViewerSelections (f : gmap string jsval → gmap string jsval) : CardM unit := λ l,
  ({| cl_viewers := cl_viewers l; cl_selections := f (cl_selections l); cl_fields := cl_fields l; cl_activities := cl_activities l;
      cl_activityRevision := cl_activityRevision l; cl_runError := cl_runError l |}, [], tt).
Definition setArtifactViewerFields (f : gmap string (list jsval) → gmap string (list jsval)) : CardM unit := λ l,
  ({| cl_viewers := cl_viewers l; cl_selections := cl_selections l; cl_fields := f (cl_fields l); cl_activities := cl_activities l;
      cl_activityRevision := cl_activityRevision l; cl_runError := cl_runError l |}, [], tt).
Definition setArtifactViewerActivities (f : gmap string (jsval * nat) → gmap string (jsval * nat)) : CardM unit := λ l,
  ({| cl_viewers := cl_viewers l; cl_selections := cl_selections l; cl_fields := cl_fields l; cl_activities := f (cl_activities l);
      cl_activityRevision := cl_activityRevision l; cl_runError := cl_runError l |}, [], tt).
Definition advanceActivityRevision : CardM nat := λ l,
  ({| cl_viewers := cl_viewers l; cl_selections := cl_selections l; cl_fields := cl_fields l; cl_activities := cl_activities l;
      cl_activityRevision := S (cl_activityRevision l); cl_runError := cl_runError l |}, [], S (cl_activityRevision l)).

Section hooks.
Context (numberText : jsnum → string) (deps : CardDeps).

(** ** [useArtifactViewerCommands] *)

(** A commit is refused while local authoring is blocked, or published to the room. *)
Definition commitArtifactViewers (updater : ArtifactViewerCanvasState → ArtifactViewerCanvasState) : CardM bool := λ l,
  if negb (cd_localAuthoringEnabledRef deps) then (setRunError (cd_localAuthoringBlockedMessage deps) l, [], false)
  else let next := updater (cl_viewers l) in (with_viewers next l, [submitReplace next], true).

Definition edit (updater : ArtifactViewerCanvasState → ArtifactViewerCanvasState) : CardM unit := _ ← commitArtifactViewers updater; mret tt.

Definition updateArtifactViewerLayout (nodeId : string) (layout : option WorkflowNodeLayout) : CardM unit := edit (λ s, withViewerLayout s nodeId layout).
Definition updateArtifactViewerEdge (edgeId : string) (update : jsopt GraphProjection) : CardM unit := edit (λ s, withViewerEdge s edgeId update).
Definition updateArtifactViewerEdgeRoute (edgeId : string) (routeOffset : GraphPoint) : CardM unit := edit (λ s, withViewerEdgeRoute s edgeId routeOffset).
Definition updateArtifactViewerMode (nodeId mode : string) : CardM unit := edit (λ s, withViewerMode s nodeId mode).
Definition updateArtifactViewerSelection (nodeId : string) (selection : jsval) : CardM unit := setArtifactViewerSelections (λ m, <[nodeId := selection]> m).

Definition updateArtifactViewerFields (nodeId : string) (fields : list jsval) : CardM unit :=
  setArtifactViewerFields (λ current,
    if bool_decide (text numberText (JArr (default [] (current !! nodeId))) = text numberText (JArr fields)) then current else <[nodeId := fields]> current).

Definition updateArtifactViewerActivity (nodeId : string) (activity : option jsval) : CardM unit :=
  match activity with
  | None => setArtifactViewerActivities (delete nodeId)
  | Some activity => revision ← advanceActivityRevision; setArtifactViewerActivities (λ m, <[nodeId := (activity, revision)]> m)
  end.

Definition updateArtifactViewerBinding (bindingId : string) (binding : ArtifactViewerBinding) : CardM unit := edit (λ s, withViewerBinding s bindingId binding).

Definition carriedBy (card : ArtifactViewerNode) (o : GraphOrigin) : bool := originCarriesCardArtifacts (o_value o) (vn_artifactRef card).

Definition dropOriginsCarriedByCards (cards : list (option ArtifactViewerNode)) : CardM unit :=
  let originIds := map o_id (filter (λ o, existsb (λ card, match card with Some card => carriedBy card o | None => false end) cards) (cd_origins deps)) in
  if is_nil originIds then mret tt else emit (authored [remove_origins originIds]).

Definition removeArtifactViewer (nodeId : string) : CardM unit :=
  _ ← dropOriginsCarriedByCards [find_id nodeId (vs_nodes (cd_artifactViewers deps))];
  _ ← commitArtifactViewers (λ s, withoutViewer s nodeId);
  _ ← setArtifactViewerSelections (delete nodeId);
  _ ← setArtifactViewerFields (delete nodeId);
  setArtifactViewerActivities (delete nodeId).

Definition updateAnnotationLayout (nodeId : string) (layout : AnnotationLayout) : CardM unit := edit (λ s, withAnnotationLayout s nodeId layout).
Definition updateAnnotationText (nodeId text : string) : CardM unit := edit (λ s, withAnnotationText s nodeId text).
Definition updateAnnotationColor (nodeId color : string) : CardM unit := edit (λ s, withAnnotationColor s nodeId color).
Definition removeAnnotation (nodeId : string) : CardM unit := edit (λ s, withoutAnnotation s nodeId).

(** ** [useArtifactCardCommands] *)

Definition clearedAfter (committed : bool) : CardM unit := if committed then emit clearWorkflowSelection else mret tt.

Definition addedCards (uuid : nat → string) (cards : list (jsval * GraphPoint)) : list ArtifactViewerNode :=
  imap (λ i '(value, position), newCard (uuid i) position None value) cards.

Definition addArtifactCards (uuid : nat → string) (cards : list (jsval * GraphPoint)) : CardM unit :=
  if is_nil cards then mret tt
  else
    committed ← commitArtifactViewers (λ current, on_nodes (λ nodes, nodes ++ addedCards uuid cards) (withoutPresentationSelection current));
    clearedAfter committed.

Definition addArtifactCard (uuid : nat → string) (value : jsval) (position : GraphPoint) : CardM unit := addArtifactCards uuid [(value, position)].

(** The cards a collection replaces, and the wires at them. *)
Definition withoutCards (removed : list string) (current : ArtifactViewerCanvasState) : ArtifactViewerCanvasState :=
  on_edges (filter (λ e, vx_source e ∉ removed ∧ vx_target e ∉ removed)) (on_nodes (filter (λ n, vn_id n ∉ removed)) current).

(** [resolveCardValue?.(node) ?? node.data.artifactRef] *)
Definition resolvedValue (node : ArtifactViewerNode) : jsval :=
  match cd_resolveCardValue deps ≫= λ resolve, resolve node with Some value => value | None => vn_artifactRef node end.

Definition selectedValues : list (string * jsval) :=
  foldl (λ values node, if isSelected node && negb (is_nullish (resolvedValue node)) then obj_set (vn_id node) (resolvedValue node) values else values)
    [] (vs_nodes (cd_artifactViewers deps)).

(** A handle that cannot be encoded throws before anything is done. *)
Definition collectSelectedArtifacts (uuid : nat → string) : CardM unit :=
  if negb (cd_localAuthoringEnabled deps) then mret tt
  else
    match cc_spec (cd_collection deps) with
    | Some spec =>
        if bool_decide (is_Some (truthy (cc_disabledReason (cd_collection deps)))) then mret tt
        else
          match collectCardsCommands (cc_sources (cd_collection deps)) (cc_nodes (cd_collection deps)) spec createSavedNodeData uuid with
          | Ok (Some plan) =>
              _ ← emit (authored (cp_commands plan));
              _ ← commitArtifactViewers (withoutCards (cp_removedCardIds plan));
              emit (collected (cp_collectionId plan))
          | _ => mret tt
          end
    | None =>
        if bool_decide (is_Some (truthy (cd_groupingDisabledReason deps))) then mret tt
        else edit (λ state, collectArtifactCards state (cd_origins deps) selectedValues (uuid 0) (uuid 1))
    end.

Definition cardOfMember (id : string) (card : UngroupedCard) : ArtifactViewerNode :=
  match card with
  | uc_library position value => newCard id position None value
  | uc_output position _ _ =>
      {| vn_id := "artifact-viewer-" +:+ id; vn_position := position; vn_selected := Some true; vn_measuredWidth := None; vn_measuredHeight := None;
         vn_layout := None; vn_mode := Some "artifact"; vn_artifactRef := JNull |}
  end.

Definition feedOfMember (id edgeUuid : string) (card : UngroupedCard) : option ArtifactViewerEdge :=
  match card with
  | uc_library _ _ => None
  | uc_output _ sourceNodeId sourcePortName =>
      Some {| vx_id := "artifact-viewer-edge-" +:+ edgeUuid; vx_source := sourceNodeId; vx_target := "artifact-viewer-" +:+ id;
              vx_targetHandle := Some ARTIFACT_VIEWER_INPUT_HANDLE;
              vx_data := Some {| vx_sourcePortName := sourcePortName; vx_projection := None; vx_routeOffset := None |} |}
  end.

(** [uuid] names the sequences, [cardUuid] the cards and [edgeUuid] the wires. *)
Definition placeMembers (cardUuid edgeUuid : nat → string) (cards : list UngroupedCard) (current : ArtifactViewerCanvasState) : ArtifactViewerCanvasState :=
  on_edges (λ edges, edges ++ omap id (imap (λ i card, feedOfMember (cardUuid i) (edgeUuid i) card) cards))
    (on_nodes (λ nodes, nodes ++ imap (λ i card, cardOfMember (cardUuid i) card) cards) (withoutPresentationSelection current)).

Definition ungroupCollection (uuid cardUuid edgeUuid : nat → string) (nodeId : string) : CardM unit :=
  match find_id nodeId (cc_nodes (cd_collection deps)) with
  | None => mret tt
  | Some node =>
      if negb (isCollectionNode node) || bool_decide (is_Some (ungroupCollectionDisabledReason nodeId (cc_edges (cd_collection deps)))) then mret tt
      else
        let members := collectionMembers node (cc_nodes (cd_collection deps)) (cc_edges (cd_collection deps)) (cd_origins deps) in
        let cards := ungroupedCollectionCards (wn_position node) members DEFAULT_ARTIFACT_CARD_WIDTH (artifactCardMediaHeight DEFAULT_ARTIFACT_CARD_WIDTH) uuid in
        _ ← emit (authored [remove_nodes [nodeId]]);
        committed ← commitArtifactViewers (placeMembers cardUuid edgeUuid cards);
        clearedAfter committed
  end.

Definition ungroupArtifacts (uuid : nat → string) (nodeId : string) : CardM unit := edit (λ state, ungroupArtifactCard state (cd_origins deps) nodeId uuid).

Definition tidySelectedArtifacts : CardM unit := edit tidyArtifactCards.

Definition cardRefsReplaced (nodeId : string) (value : option jsval) (current : ArtifactViewerCanvasState) : ArtifactViewerCanvasState :=
  match value with
  | Some value => on_nodes (map_id nodeId (set_artifactRef value)) current
  | None => on_nodes (filter (λ n, vn_id n ≠ nodeId)) current
  end.

Definition carriedUpdate (value : jsval) (uuid : string) (o : GraphOrigin) : option GraphCommand :=
  match artifactCardValue (cardArtifactRefs value) (o_value o) false uuid with
  | Some next => Some (update_origin (o_id o) {| uo_to_node := None; uo_to_port := None; uo_to_plug := None; uo_value := Some next; uo_collection_mode := None; uo_conversion_path := None |})
  | None => None
  end.

Definition updateArtifactCardRefs (uuid : nat → string) (nodeId : string) (value : option jsval) : CardM unit :=
  match find_id nodeId (vs_nodes (cd_artifactViewers deps)) with
  | None => mret tt
  | Some card =>
      let carried := filter (carriedBy card) (cd_origins deps) in
      _ ← commitArtifactViewers (cardRefsReplaced nodeId value);
      match value with
      | None => mret tt
      | Some value => if is_nil carried then mret tt else emit (authored (omap id (imap (λ i o, carriedUpdate value (uuid i) o) carried)))
      end
  end.
End hooks.

(** ** Where dropped cards land *)

Definition num_half (a : jsnum) : jsnum := num_mul a (NFin (Q2Qc (1 # 2))).

Definition artifactCardDropPosition (center : GraphPoint) (artifactCount : Z) (width : jsnum) : GraphPoint :=
  {| pt_x := num_sub (pt_x center) (num_half width); pt_y := num_sub (pt_y center) (num (if (1 <? artifactCount)%Z then 76 else 24)) |}.

Definition ARTIFACT_CARD_DROP_GUTTER : jsnum := num 24.

Fixpoint dropRow (y left : jsnum) (cards : list (Z * jsnum)) : list GraphPoint :=
  match cards with
  | [] => []
  | (artifactCount, width) :: rest =>
      artifactCardDropPosition {| pt_x := num_add left (num_half width); pt_y := y |} artifactCount width ::
      dropRow y (num_add left (num_add width ARTIFACT_CARD_DROP_GUTTER)) rest
  end.

Definition artifactCardDropPositions (center : GraphPoint) (cards : list (Z * jsnum)) : list GraphPoint :=
  let span := num_add (foldl num_add (num 0) (map snd cards)) (num_mul (num (Z.max 0 (Z.of_nat (length cards) - 1))) ARTIFACT_CARD_DROP_GUTTER) in
  dropRow (pt_y center) (num_sub (pt_x center) (num_half span)) cards.
