(* ===== verification/CardTheory.v ===== *)
(** * What the gestures on cards keep ([ui/workbench-artifact-viewers.ts],
      [ui/workbench-artifact-cards.ts])

    The callbacks of the two hooks as one step function over gestures, the soundness of the
    cards as an invariant of every sequence of them, and the two gestures that leave wires
    or bindings at a card that is gone. *)

From stdpp Require Import numbers list gmap strings pretty.
From S2P Require Import Prelude Js JsNum JsText JsJson GraphModel GraphCommands GraphTheory Handles Routes RoutesTheory NodeLayout InputPlugs ConfigSchema Canvas ExecutionPlan Connections ArtifactCards ArtifactDrop Hydration Viewers Grouping Collections CardCommands.

(** ** Gestures *)

Inductive CardGesture :=
| ge_layout (nodeId : string) (layout : option WorkflowNodeLayout)
| ge_edge (edgeId : string) (update : jsopt GraphProjection)
| ge_edgeRoute (edgeId : string) (routeOffset : GraphPoint)
| ge_mode (nodeId mode : string)
| ge_selection (nodeId : string) (selection : jsval)
| ge_fields (nodeId : string) (fields : list jsval)
| ge_activity (nodeId : string) (activity : option jsval)
| ge_binding (bindingId : string) (binding : ArtifactViewerBinding)
| ge_remove (nodeId : string)
| ge_annotationLayout (nodeId : string) (layout : AnnotationLayout)
| ge_annotationText (nodeId text : string)
| ge_annotationColor (nodeId color : string)
| ge_removeAnnotation (nodeId : string)
| ge_addCards (uuid : nat → string) (cards : list (jsval * GraphPoint))
| ge_collect (uuid : nat → string)
| ge_ungroupCollection (uuid cardUuid edgeUuid : nat → string) (nodeId : string)
| ge_ungroup (uuid : nat → string) (nodeId : string)
| ge_tidy
| ge_refs (uuid : nat → string) (nodeId : string) (value : option jsval).

Section gestures.
Context (numberText : jsnum → string).

Definition gesture (deps : CardDeps) (g : CardGesture) : CardM unit :=
  match g with
  | ge_layout n layout => updateArtifactViewerLayout deps n layout
  | ge_edge e update => updateArtifactViewerEdge deps e update
  | ge_edgeRoute e routeOffset => updateArtifactViewerEdgeRoute deps e routeOffset
  | ge_mode n mode => updateArtifactViewerMode deps n mode
  | ge_selection n selection => updateArtifactViewerSelection n selection
  | ge_fields n fields => updateArtifactViewerFields numberText n fields
  | ge_activity n activity => updateArtifactViewerActivity n activity
  | ge_binding b binding => updateArtifactViewerBinding deps b binding
  | ge_remove n => removeArtifactViewer deps n
  | ge_annotationLayout n layout => updateAnnotationLayout deps n layout
  | ge_annotationText n text => updateAnnotationText deps n text
  | ge_annotationColor n color => updateAnnotationColor deps n color
  | ge_removeAnnotation n => removeAnnotation deps n
  | ge_addCards uuid cards => addArtifactCards deps uuid cards
  | ge_collect uuid => collectSelectedArtifacts deps uuid
  | ge_ungroupCollection uuid cardUuid edgeUuid n => ungroupCollection deps uuid cardUuid edgeUuid n
  | ge_ungroup uuid n => ungroupArtifacts deps uuid n
  | ge_tidy => tidySelectedArtifacts deps
  | ge_refs uuid n value => updateArtifactCardRefs deps uuid n value
  end.

(** What a gesture does to the cards when its commit is not refused; [None]: no commit. *)
Definition cardUpdate (deps : CardDeps) (g : CardGesture) : option (ArtifactViewerCanvasState → ArtifactViewerCanvasState) :=
  match g with
  | ge_layout n layout => Some (λ s, withViewerLayout s n layout)
  | ge_edge e update => Some (λ s, withViewerEdge s e update)
  | ge_edgeRoute e routeOffset => Some (λ s, withViewerEdgeRoute s e routeOffset)
  | ge_mode n mode => Some (λ s, withViewerMode s n mode)
  | ge_selection _ _ | ge_fields _ _ | ge_activity _ _ => None
  | ge_binding b binding => Some (λ s, withViewerBinding s b binding)
  | ge_remove n => Some (λ s, withoutViewer s n)
  | ge_annotationLayout n layout => Some (λ s, withAnnotationLayout s n layout)
  | ge_annotationText n text => Some (λ s, withAnnotationText s n text)
  | ge_annotationColor n color => Some (λ s, withAnnotationColor s n color)
  | ge_removeAnnotation n => Some (λ s, withoutAnnotation s n)
  | ge_addCards uuid cards => if is_nil cards then None else Some (λ s, on_nodes (λ nodes, nodes ++ addedCards uuid cards) (withoutPresentationSelection s))
  | ge_collect uuid =>
      if negb (cd_localAuthoringEnabled deps) then None
      else
        match cc_spec (cd_collection deps) with
        | Some spec =>
            if bool_decide (is_Some (truthy (cc_disabledReason (cd_collection deps)))) then None
            else
              match collectCardsCommands (cc_sources (cd_collection deps)) (cc_nodes (cd_collection deps)) spec createSavedNodeData uuid with
              | Ok (Some plan) => Some (withoutCards (cp_removedCardIds plan))
              | _ => None
              end
        | None =>
            if bool_decide (is_Some (truthy (cd_groupingDisabledReason deps))) then None
            else Some (λ s, collectArtifactCards s (cd_origins deps) (selectedValues deps) (uuid 0) (uuid 1))
        end
  | ge_ungroupCollection uuid cardUuid edgeUuid n =>
      match find_id n (cc_nodes (cd_collection deps)) with
      | None => None
      | Some node =>
          if negb (isCollectionNode node) || bool_decide (is_Some (ungroupCollectionDisabledReason n (cc_edges (cd_collection deps)))) then None
          else Some (placeMembers cardUuid edgeUuid
                 (ungroupedCollectionCards (wn_position node) (collectionMembers node (cc_nodes (cd_collection deps)) (cc_edges (cd_collection deps)) (cd_origins deps))
                    DEFAULT_ARTIFACT_CARD_WIDTH (artifactCardMediaHeight DEFAULT_ARTIFACT_CARD_WIDTH) uuid))
      end
  | ge_ungroup uuid n => Some (λ s, ungroupArtifactCard s (cd_origins deps) n uuid)
  | ge_tidy => Some tidyArtifactCards
  | ge_refs _ n value => if find_id n (vs_nodes (cd_artifactViewers deps)) then Some (cardRefsReplaced n value) else None
  end.

Definition published (es : list CardEffect) : list ArtifactViewerCanvasState :=
  omap (λ e, match e with submitReplace s => Some s | _ => None end) es.

(** A gesture commits its update once and publishes it, or is refused and publishes nothing. *)
Lemma gesture_commits deps g l :
  let '(l', es, _) := gesture deps g l in
  match cardUpdate deps g with
  | Some f =>
      if cd_localAuthoringEnabledRef deps then cl_viewers l' = f (cl_viewers l) ∧ published es = [f (cl_viewers l)] ∧ cl_runError l' = cl_runError l
      else cl_viewers l' = cl_viewers l ∧ published es = [] ∧ cl_runError l' = Some (cd_localAuthoringBlockedMessage deps)
  | None => cl_viewers l' = cl_viewers l ∧ published es = [] ∧ cl_runError l' = cl_runError l
  end.
Proof.
  destruct g; cbn [gesture cardUpdate];
    unfold updateArtifactViewerLayout, updateArtifactViewerEdge, updateArtifactViewerEdgeRoute, updateArtifactViewerMode, updateArtifactViewerBinding,
      updateAnnotationLayout, updateAnnotationText, updateAnnotationColor, removeAnnotation, ungroupArtifacts, tidySelectedArtifacts, edit, commitArtifactViewers;
    try (cbn; destruct (cd_localAuthoringEnabledRef deps); done).
  - destruct activity; done.
  - unfold removeArtifactViewer, dropOriginsCarriedByCards, commitArtifactViewers. destruct (is_nil _); cbn; destruct (cd_localAuthoringEnabledRef deps); done.
  - unfold addArtifactCards, commitArtifactViewers. destruct (is_nil cards); [done|]. cbn. destruct (cd_localAuthoringEnabledRef deps); done.
  - unfold collectSelectedArtifacts, edit, commitArtifactViewers. destruct (cd_localAuthoringEnabled deps); [|done]. cbn [negb].
    destruct (cc_spec (cd_collection deps)) as [spec|].
    + destruct (bool_decide _); [done|]. destruct (collectCardsCommands _ _ _ _ _) as [[plan|]|]; [|done..]. cbn. destruct (cd_localAuthoringEnabledRef deps); done.
    + destruct (bool_decide _); [done|]. cbn. destruct (cd_localAuthoringEnabledRef deps); done.
  - unfold ungroupCollection, commitArtifactViewers. destruct (find_id _ _) as [node|]; [|done]. destruct (negb _ || _); [done|]. cbn. destruct (cd_localAuthoringEnabledRef deps); done.
  - unfold updateArtifactCardRefs, commitArtifactViewers. destruct (find_id _ _) as [card|]; [|done].
    destruct value as [value|]; [destruct (is_nil _)|]; cbn; destruct (cd_localAuthoringEnabledRef deps); done.
Qed.
End gestures.

(** ** Soundness with cards that are gone *)

(** As [soundViewers], where wires and bindings may also be at cards that are gone. *)
Record soundWith (gone : list string) (s : ArtifactViewerCanvasState) : Prop := {
  sw_nodes : Forall sound_node (vs_nodes s);
  sw_nodeIds : NoDup (ids (vs_nodes s));
  sw_edges : Forall (sound_edge (ids (vs_nodes s) ++ gone)) (vs_edges s);
  sw_edgeIds : NoDup (ids (vs_edges s));
  sw_feeds : NoDup (vx_target <$> vs_edges s);
  sw_bindings : Forall (sound_binding (ids (vs_nodes s) ++ gone)) (vs_bindings s);
  sw_bindingIds : NoDup (ids (vs_bindings s));
  sw_annotations : Forall sound_annotation (vs_annotations s);
  sw_annotationIds : NoDup (ids (vs_annotations s))
}.

Lemma soundWith_none s : soundWith [] s ↔ soundViewers s.
Proof. split; intros []; split; try done; by rewrite ?app_nil_r in *. Qed.

Lemma sound_edge_mono l l' e : (∀ i, i ∈ l → i ∈ l') → sound_edge l e → sound_edge l' e.
Proof. intros H []. split; auto. Qed.

Lemma sound_binding_mono l l' b : (∀ i, i ∈ l → i ∈ l') → sound_binding l b → sound_binding l' b.
Proof. intros H []. split; auto. Qed.

Lemma NoDup_fmap_filter {A} (f : A → string) (P : A → Prop) `{∀ a, Decision (P a)} l : NoDup (f <$> l) → NoDup (f <$> filter P l).
Proof.
  induction l as [|a l IH]; [done|]. rewrite fmap_cons. intros [Ha Hnd]%NoDup_cons. rewrite filter_cons. destruct (decide (P a)); [|by apply IH].
  rewrite fmap_cons. constructor; [|by apply IH]. intros (b & E & [_ Hb]%list_elem_of_filter)%list_elem_of_fmap. apply Ha. rewrite E. by apply list_elem_of_fmap_2.
Qed.

Lemma Forall_filtered {A} (Q P : A → Prop) `{∀ a, Decision (P a)} l : Forall Q l → Forall Q (filter P l).
Proof. rewrite !Forall_forall. intros HQ x [_ Hx]%list_elem_of_filter. auto. Qed.

Section sound.
Context (gone : list string) (s : ArtifactViewerCanvasState) (Hs : soundWith gone s).

(** Nodes that are edited in place. *)
Lemma sound_edited_nodes f : ids (f (vs_nodes s)) = ids (vs_nodes s) → Forall sound_node (f (vs_nodes s)) → soundWith gone (on_nodes f s).
Proof. intros Hi Hn. destruct Hs. split; cbn [on_nodes vs_nodes vs_edges vs_bindings vs_annotations]; rewrite ?Hi; done. Qed.

Lemma sound_map_node i f : (∀ n, vn_id (f n) = vn_id n) → (∀ n, sound_node n → sound_node (f n)) → soundWith gone (on_nodes (map_id i f) s).
Proof.
  intros Hi Hn. apply sound_edited_nodes; [apply ids_map_id; intros n _; apply Hi|]. apply Forall_forall. intros n Hin. pose proof (sw_nodes _ _ Hs) as H. rewrite Forall_forall in H.
  apply elem_of_map_id in Hin as [[Hin _]|(m & Hin & _ & ->)]; auto.
Qed.

(** Edges that are edited in place. *)
Lemma sound_map_edge i f :
  (∀ e, vx_id (f e) = vx_id e ∧ vx_target (f e) = vx_target e) → (∀ l e, sound_edge l e → sound_edge l (f e)) → soundWith gone (on_edges (map_id i f) s).
Proof.
  intros Hi He. destruct Hs as [? ? H3 H4 H5 ? ? ? ?]. split; cbn [on_edges vs_nodes vs_edges vs_bindings vs_annotations]; try done.
  - apply Forall_forall. intros e Hin. rewrite Forall_forall in H3. apply elem_of_map_id in Hin as [[Hin _]|(m & Hin & _ & ->)]; auto.
  - rewrite ids_map_id; [done|]. intros e _. apply Hi.
  - assert (vx_target <$> map_id i f (vs_edges s) = vx_target <$> vs_edges s) as ->; [|done].
    unfold map_id. rewrite <- list_fmap_compose. apply list_fmap_ext. intros k e _. cbn. destruct (_ : bool); [apply Hi|done] || (case_decide; [apply Hi|done]).
Qed.

Lemma sound_filter_edges (P : ArtifactViewerEdge → Prop) `{∀ e, Decision (P e)} : soundWith gone (on_edges (filter P) s).
Proof.
  destruct Hs as [? ? H3 H4 H5 ? ? ? ?]. split; cbn [on_edges vs_nodes vs_edges vs_bindings vs_annotations]; try done.
  - by apply Forall_filtered.
  - by apply NoDup_ids_filter.
  - by apply NoDup_fmap_filter.
Qed.

Lemma sound_filter_bindings (P : ArtifactViewerBinding → Prop) `{∀ e, Decision (P e)} : soundWith gone (on_bindings (filter P) s).
Proof.
  destruct Hs as [? ? ? ? ? H6 H7 ? ?]. split; cbn [on_bindings vs_nodes vs_edges vs_bindings vs_annotations]; try done.
  - by apply Forall_filtered.
  - by apply NoDup_ids_filter.
Qed.

Lemma sound_map_binding i b : vb_id b = i → sound_binding (ids (vs_nodes s) ++ gone) b → soundWith gone (on_bindings (map_id i (λ _, b)) s).
Proof.
  intros Hi Hb. destruct Hs as [? ? ? ? ? H6 H7 ? ?]. split; cbn [on_bindings vs_nodes vs_edges vs_bindings vs_annotations]; try done.
  - apply Forall_forall. intros e Hin. rewrite Forall_forall in H6. apply elem_of_map_id in Hin as [[Hin _]|(m & Hin & _ & ->)]; auto.
  - rewrite ids_map_id; [done|]. intros x Hx. by rewrite Hx.
Qed.

Lemma sound_annotations_edited f :
  Forall sound_annotation (f (vs_annotations s)) → NoDup (ids (f (vs_annotations s))) → soundWith gone (on_annotations f s).
Proof. intros Ha Hn. destruct Hs. split; done. Qed.

(** Removed nodes are gone for what is still at them. *)
Lemma sound_filter_nodes (P : ArtifactViewerNode → Prop) `{∀ n, Decision (P n)} removed :
  (∀ n, n ∈ vs_nodes s → ¬ P n → vn_id n ∈ removed) → soundWith (removed ++ gone) (on_nodes (filter P) s).
Proof.
  intros HP. assert (∀ i, i ∈ ids (vs_nodes s) ++ gone → i ∈ ids (filter P (vs_nodes s)) ++ removed ++ gone) as Hi.
  { intros i [(n & Hn & <-)%elem_of_ids|Hi]%elem_of_app; rewrite !elem_of_app; [|by right; right].
    destruct (decide (P n)); [left|right; left; by apply HP]. apply elem_of_ids. exists n. by rewrite list_elem_of_filter. }
  destruct Hs as [H1 H2 H3 ? ? H6 ? ? ?]. split; cbn [on_nodes vs_nodes vs_edges vs_bindings vs_annotations]; try done.
  - by apply Forall_filtered.
  - by apply NoDup_ids_filter.
  - eapply Forall_impl; [exact H3|]. intros e. by apply sound_edge_mono.
  - eapply Forall_impl; [exact H6|]. intros e. by apply sound_binding_mono.
Qed.

Lemma sound_add_nodes ns :
  Forall sound_node ns → NoDup (ids ns) → (∀ i, i ∈ ids ns → i ∉ ids (vs_nodes s)) → soundWith gone (on_nodes (λ nodes, nodes ++ ns) s).
Proof.
  intros Hn Hnd Hf. assert (∀ i, i ∈ ids (vs_nodes s) ++ gone → i ∈ ids (vs_nodes s ++ ns) ++ gone) as Hi.
  { intros i. unfold ids. rewrite fmap_app, !elem_of_app. tauto. }
  destruct Hs as [H1 H2 H3 ? ? H6 ? ? ?]. split; cbn [on_nodes vs_nodes vs_edges vs_bindings vs_annotations]; try done.
  - by apply Forall_app.
  - unfold ids. rewrite fmap_app. apply NoDup_app. split_and!; [done| |done]. intros i Hi1 Hi2. by apply (Hf i).
  - eapply Forall_impl; [exact H3|]. intros e. by apply sound_edge_mono.
  - eapply Forall_impl; [exact H6|]. intros e. by apply sound_binding_mono.
Qed.

Lemma sound_add_edges es :
  Forall (sound_edge (ids (vs_nodes s) ++ gone)) es → NoDup (ids es) → NoDup (vx_target <$> es) → (∀ e, e ∈ es → vx_id e ∉ ids (vs_edges s) ∧ vx_target e ∉ vx_target <$> vs_edges s) →
  soundWith gone (on_edges (λ edges, edges ++ es) s).
Proof.
  intros He Hnd Ht Hf. destruct Hs as [? ? H3 H4 H5 ? ? ? ?]. split; cbn [on_edges vs_nodes vs_edges vs_bindings vs_annotations]; try done.
  - by apply Forall_app.
  - unfold ids. rewrite fmap_app. apply NoDup_app. split_and!; [done| |done]. intros i Hi (e & -> & Hin)%list_elem_of_fmap. exact (proj1 (Hf e Hin) Hi).
  - rewrite fmap_app. apply NoDup_app. split_and!; [done| |done]. intros i Hi (e & -> & Hin)%list_elem_of_fmap. exact (proj2 (Hf e Hin) Hi).
Qed.
End sound.

(** A card that is gone and has nothing left at it need not be remembered. *)
Lemma sound_forget removed gone s :
  soundWith (removed ++ gone) s → (∀ e, e ∈ vs_edges s → vx_target e ∉ removed) →
  (∀ b, b ∈ vs_bindings s → vb_sourceViewerId b ∉ removed ∧ vb_targetViewerId b ∉ removed) → soundWith gone s.
Proof.
  intros [? ? H3 ? ? H6 ? ? ?] He Hb. split; try done.
  - rewrite Forall_forall in *. intros e Hin. destruct (H3 e Hin). split; try done. specialize (He e Hin). rewrite !elem_of_app in *. tauto.
  - rewrite Forall_forall in *. intros b Hin. destruct (H6 b Hin). split; try done; specialize (Hb b Hin) as [? ?]; rewrite !elem_of_app in *; tauto.
Qed.

Lemma sound_deselected gone s : soundWith gone s → soundWith gone (withoutPresentationSelection s).
Proof.
  intros Hs. unfold withoutPresentationSelection, selectOnly.
  assert (soundWith gone (on_nodes (deselectNodes []) s)) as Hn.
  { apply sound_edited_nodes; [done| |].
    - unfold ids, deselectNodes. by rewrite <- list_fmap_compose.
    - apply Forall_fmap. eapply Forall_impl; [apply (sw_nodes _ _ Hs)|]. intros n []. by split. }
  apply sound_annotations_edited; [done| |].
  - apply Forall_fmap. eapply Forall_impl; [apply (sw_annotations _ _ Hn)|]. intros n []. by split.
  - unfold ids, deselectAnnotations. rewrite <- list_fmap_compose. apply (sw_annotationIds _ _ Hn).
Qed.

(** Ids drawn for new cards. *)
Record fresh_cards (uuid : nat → string) (taken : list string) : Prop := {
  fc_inj : Inj (=) (=) uuid;
  fc_new : ∀ k, "artifact-viewer-" +:+ uuid k ∉ taken
}.

Lemma fresh_imap {A} (mk : nat → A → ArtifactViewerNode) l uuid taken :
  (∀ i a, vn_id (mk i a) = "artifact-viewer-" +:+ uuid i) → fresh_cards uuid taken → NoDup (ids (imap mk l)) ∧ ∀ i, i ∈ ids (imap mk l) → i ∉ taken.
Proof.
  intros Hm [Hi Hn]. split.
  - apply NoDup_alt. intros i j x. unfold ids. rewrite !list_lookup_fmap, !list_lookup_imap.
    intros (n & (a & _ & ->)%fmap_Some & ->)%fmap_Some (m & (b & _ & ->)%fmap_Some & E)%fmap_Some.
    change (vn_id (mk i a) = vn_id (mk j b)) in E. rewrite !Hm in E. apply (inj uuid). by simplify_eq.
  - intros i (n & Hin & <-)%elem_of_ids. apply elem_of_lookup_imap in Hin as (k & a & -> & _). change (vn_id (mk k a) ∉ taken). rewrite Hm. apply Hn.
Qed.

(** New cards on a canvas, whose ids no card has or had. *)
Lemma sound_place {A} (mk : nat → A → ArtifactViewerNode) l uuid gone s :
  soundWith gone s → (∀ i a, vn_id (mk i a) = "artifact-viewer-" +:+ uuid i) → (∀ i a, l !! i = Some a → sound_node (mk i a)) →
  fresh_cards uuid (ids (vs_nodes s) ++ gone) → soundWith gone (on_nodes (λ nodes, nodes ++ imap mk l) s).
Proof.
  intros Hs Hm Hn Hf. destruct (fresh_imap mk l uuid _ Hm Hf) as [Hnd Hnew]. apply sound_add_nodes; [done| |done|].
  - apply Forall_lookup. intros i n. rewrite list_lookup_imap. intros (a & Ha & ->)%fmap_Some. by apply Hn.
  - intros i Hi Hin. apply (Hnew i Hi), elem_of_app. by left.
Qed.

Lemma newCard_sound uuid position layout value :
  finitePoint position = true → (∀ w, layout ≫= wl_width = Some w → sound_size w) → sound_node (newCard uuid position layout value).
Proof. intros Hp Hl. split; [done|done|done|]. by intros w [?|?]. Qed.

Lemma sound_without gone s nodeId : soundWith gone s → soundWith gone (withoutViewer s nodeId).
Proof.
  intros Hs. apply (sound_forget [nodeId]).
  - change (withoutViewer s nodeId) with (on_bindings (filter (λ b, vb_sourceViewerId b ≠ nodeId ∧ vb_targetViewerId b ≠ nodeId))
      (on_edges (filter (λ e, vx_source e ≠ nodeId ∧ vx_target e ≠ nodeId)) (on_nodes (filter (λ n, vn_id n ≠ nodeId)) s))).
    apply sound_filter_bindings, sound_filter_edges, sound_filter_nodes; [done|]. intros n _ Hn. apply list_elem_of_singleton. by destruct (decide (vn_id n = nodeId)).
  - intros e [[_ ?] _]%list_elem_of_filter. by rewrite list_elem_of_singleton.
  - intros b [[? ?] _]%list_elem_of_filter. by rewrite !list_elem_of_singleton.
Qed.

(** Cards that may be grouped have no binding, and no wire but those that feed them. *)
Lemma grouping_free cards s origins values allow :
  artifactGroupingDisabledReason cards s origins values allow = None →
  (∀ b, b ∈ vs_bindings s → vb_sourceViewerId b ∉ ids cards ∧ vb_targetViewerId b ∉ ids cards) ∧
  (allow = false → ∀ e, e ∈ vs_edges s → vx_source e ∉ ids cards ∧ vx_target e ∉ ids cards).
Proof.
  unfold artifactGroupingDisabledReason. destruct (existsb _ (vs_edges s)) eqn:Ee; [done|]. destruct (existsb _ (vs_bindings s)) eqn:Eb; [done|]. intros _.
  apply not_true_iff_false in Ee, Eb. rewrite existsb_exists in Ee, Eb. split.
  - intros b Hb%list_elem_of_In. split; intros H; apply Eb; exists b; (split; [done|]); rewrite orb_true_iff, !bool_decide_eq_true; tauto.
  - intros -> e He%list_elem_of_In. assert (isLinked (ids cards) false e = false) as Hl by (apply not_true_iff_false; intros H; apply Ee; by exists e).
    unfold isLinked in Hl. cbn [andb] in Hl. destruct (negb _ && negb _) eqn:En; [|done]. by rewrite andb_true_iff, !negb_true_iff, !bool_decide_eq_false in En.
Qed.

Lemma sound_collected gone s origins values sequenceUuid uuid k :
  soundWith gone s → fresh_cards uuid (ids (vs_nodes s) ++ gone) → soundWith gone (collectArtifactCards s origins values sequenceUuid (uuid k)).
Proof.
  intros Hs Hf. destruct (collect_cases s origins values sequenceUuid (uuid k)) as [->|(refs & value & Hr & Hne & _ & _ & ->)]; [done|].
  set (selected := filter isSelected (vs_nodes s)) in *. set (stack := newCard _ _ _ _).
  assert (Forall sound_node selected) as Hsel by apply Forall_filtered, (sw_nodes _ _ Hs).
  set (s1 := on_edges (filter (λ e, ¬ vx_source e ∈ ids selected ∧ ¬ vx_target e ∈ ids selected)) (on_nodes (filter (λ n, isSelected n = false)) s)).
  assert (soundWith (ids selected ++ gone) s1) as H1.
  { apply sound_filter_edges, sound_filter_nodes; [done|]. intros n Hn Hno. apply elem_of_ids. exists n. split; [|done]. apply list_elem_of_filter. split; [|done].
    by destruct (isSelected n). }
  assert (soundWith gone s1) as H2.
  { apply (sound_forget _ _ _ H1); [by intros e [[_ ?] _]%list_elem_of_filter|]. apply (grouping_free _ _ _ _ _ Hr). }
  change (soundWith gone (on_nodes (λ nodes, nodes ++ [stack]) s1)). apply sound_add_nodes; [done| |apply NoDup_singleton|].
  - constructor; [|done]. destruct (tidy_grid_sound selected Hsel Hne) as (Fx & Fy & _). apply newCard_sound; [unfold finitePoint; cbn [pt_x pt_y]; by rewrite Fx, Fy|].
    intros w [= <-]. done.
  - intros i Hi%list_elem_of_singleton. subst i. intros (n & Hn & E)%elem_of_ids. apply list_elem_of_filter in Hn as [_ Hn].
    apply (fc_new _ _ Hf k), elem_of_app. left. apply elem_of_ids. by exists n.
Qed.

Lemma sound_ungrouped gone s origins nodeId uuid :
  soundWith gone s → fresh_cards uuid (ids (vs_nodes s) ++ gone) → soundWith gone (ungroupArtifactCard s origins nodeId uuid).
Proof.
  intros Hs Hf. destruct (ungroup_cases s origins nodeId uuid) as [->|(stack & Hfind & _ & Hne & Hr & ->)]; [done|].
  pose proof Hfind as [Hin Hid]%find_id_Some. assert (sound_node stack) as Hstack by (pose proof (sw_nodes _ _ Hs) as H; rewrite Forall_forall in H; by apply H).
  destruct (grouping_free _ _ _ _ _ Hr) as [Hb He]. specialize (He eq_refl). change (ids [stack]) with [vn_id stack] in Hb, He.
  change (ident stack) with (vn_id stack) in Hid. rewrite Hid in Hb, He.
  set (s1 := on_nodes (fmap (set_selected false)) (on_nodes (filter (λ n, vn_id n ≠ nodeId)) s)).
  assert (soundWith gone s1) as H1.
  { apply sound_edited_nodes.
    - apply (sound_forget [nodeId]); [|intros e Hin'; by apply He|intros b Hin'; by apply Hb].
      apply sound_filter_nodes; [done|]. intros n _ Hn. apply list_elem_of_singleton. by destruct (decide (vn_id n = nodeId)).
    - unfold ids. by rewrite <- list_fmap_compose.
    - apply Forall_fmap, Forall_filtered. eapply Forall_impl; [apply (sw_nodes _ _ Hs)|]. intros n []. by split. }
  change (soundWith gone (on_nodes (λ nodes, nodes ++ ungroupedCards stack uuid) s1)). unfold ungroupedCards.
  apply (sound_place _ _ uuid); [done|done| |].
  - intros i ref Hi. pose proof (sn_position _ Hstack) as [? ?]%andb_true_iff. pose proof (stackWidth_sound (vn_artifactRef stack) stack Hstack) as Hw.
    destruct (plus_pos (math_max (stackWidth (vn_artifactRef stack) stack) (num 300)) 64) as [? _]; [by apply max_sound; [|split]|lia|].
    destruct (plus_pos (stackBodyHeight (vn_artifactRef stack) (stackWidth (vn_artifactRef stack) stack)) 88) as [? _]; [by apply stackBodyHeight_sound|lia|].
    apply newCard_sound; [by apply gridPlace_finite|]. by intros w [= <-].
  - split; [apply Hf|]. intros k [Hk|Hk]%elem_of_app; apply (fc_new _ _ Hf k), elem_of_app; [left|by right].
    apply elem_of_ids in Hk as (n & (m & -> & [_ Hm]%list_elem_of_filter)%list_elem_of_fmap & E). apply elem_of_ids. by exists m.
Qed.

(** Wires and bindings play no part in tidying. *)
Definition bare (s : ArtifactViewerCanvasState) : ArtifactViewerCanvasState := on_bindings (λ _, []) (on_edges (λ _, []) s).

Lemma bare_sound gone s : soundWith gone s → soundViewers (bare s).
Proof. intros []. split; try done; cbn; constructor. Qed.

Lemma tidy_sound gone s : soundWith gone s → soundWith gone (tidyArtifactCards s).
Proof.
  intros Hs. destruct (decide (2 ≤ length (filter isSelected (vs_nodes s)))) as [Hl|Hl].
  2:{ unfold tidyArtifactCards. by rewrite (proj2 (Nat.ltb_lt _ _)) by lia. }
  pose proof (tidy_nodes (bare s) (bare_sound _ _ Hs) Hl) as Ht. cbn zeta in Ht. change (vs_nodes (bare s)) with (vs_nodes s) in Ht.
  set (sorted := js_sort nodeOrder (filter isSelected (vs_nodes s))) in *.
  assert (Forall sound_node sorted) as Hf.
  { apply Forall_forall. intros x [_ Hx]%elem_of_js_sort%list_elem_of_filter. pose proof (sw_nodes _ _ Hs) as H. rewrite Forall_forall in H. by apply H. }
  assert (vs_nodes (tidyArtifactCards (bare s)) = vs_nodes (tidyArtifactCards s)) as E by (unfold tidyArtifactCards; by destruct (length _ <? 2)).
  rewrite E in Ht. unfold tidyArtifactCards in Ht |- *. rewrite (proj2 (Nat.ltb_ge _ _)) in Ht |- * by done. fold sorted in Ht |- *.
  apply sound_edited_nodes; [done| |].
  - unfold ids. rewrite <- list_fmap_compose. apply list_fmap_ext. intros k n _. cbn. by destruct (placeOf _ _ _ _).
  - apply Forall_lookup. intros k n Hn. destruct (Ht k n Hn) as (m & Hm & [[_ ->]|(i & Hi & ->)]).
    + pose proof (sw_nodes _ _ Hs) as H. by eapply Forall_lookup_1.
    + assert (sound_node m) as [? ? ? ?] by by eapply Forall_lookup_1. split; try done.
      apply tidy_grid_sound; [done|]. by intros ->.
Qed.

(** ** The cards of a collection *)

Lemma member_source_ok node nodes edges origins m :
  (∀ e, e ∈ edges → we_source e ≠ "") → m ∈ collectionMembers node nodes edges origins →
  match m with cm_output _ _ n p _ _ => n ≠ "" ∧ p ≠ "" | _ => True end.
Proof.
  intros He (plug & -> & _)%list_elem_of_fmap. unfold collectionMember. destruct (find _ origins); [done|].
  destruct (find _ edges) as [e|] eqn:Ee; [|done]. destruct (truthy (edgeSourcePort e)) as [p|] eqn:Ep; [|done].
  apply find_some in Ee as [Hin _]. split; [by apply He, list_elem_of_In|]. unfold truthy in Ep. apply bind_Some in Ep as (x & _ & Ep). case_bool_decide; [done|]. by injection Ep as <-.
Qed.

(** The cards of a collection that is taken apart have a place; those of an output name it. *)
Lemma ungrouped_cards_ok origin members w h uuid c :
  finitePoint origin = true → sound_size w → sound_size h → c ∈ ungroupedCollectionCards origin members w h uuid →
  finitePoint (cardPosition c) = true ∧
  match c with uc_output _ n p => ∃ plug e label refs, cm_output plug e n p label refs ∈ members | _ => True end.
Proof.
  intros [Fx Fy]%andb_true_iff Hw Hh (x & Hx & Ex)%list_elem_of_omap. cbn in Ex. subst x. apply elem_of_lookup_imap in Hx as (i & m & E & Hm).
  destruct (plus_pos w 64 Hw) as [? _]; [lia|]. destruct (plus_pos h 88 Hh) as [? _]; [lia|].
  apply list_elem_of_lookup_2, list_elem_of_filter in Hm as [_ Hm].
  destruct m as [plug o refs|plug e n p label refs|plug]; cbn [ungroupedCard] in E; [|injection E as ->|done].
  - destruct (artifactCardValue _ _ _ _) as [v|]; [|done]. injection E as ->. split; [by apply gridPlace_finite|done].
  - split; [by apply gridPlace_finite|]. by exists plug, e, label, refs.
Qed.

(** The wires of new cards have distinct ids, and distinct ends. *)
Lemma NoDup_feeds cardUuid edgeUuid cards (f : ArtifactViewerEdge → string) :
  (∀ i j c c' e e', feedOfMember (cardUuid i) (edgeUuid i) c = Some e → feedOfMember (cardUuid j) (edgeUuid j) c' = Some e' → f e = f e' → i = j) →
  NoDup (f <$> omap id (imap (λ i card, feedOfMember (cardUuid i) (edgeUuid i) card) cards)).
Proof.
  intros Hfi. assert (∀ k, NoDup (f <$> omap id (imap (λ i card, feedOfMember (cardUuid (k + i)) (edgeUuid (k + i)) card) cards))) as H; [|apply (H 0)].
  induction cards as [|c cards IH]; intros k; [constructor|]. rewrite imap_cons. specialize (IH (S k)).
  assert (imap ((λ i card, feedOfMember (cardUuid (k + i)) (edgeUuid (k + i)) card) ∘ S) cards = imap (λ i card, feedOfMember (cardUuid (S k + i)) (edgeUuid (S k + i)) card) cards) as E.
  { apply imap_ext. intros i x _. cbn. by rewrite Nat.add_succ_r. }
  rewrite E, Nat.add_0_r. cbn [omap list_omap]. destruct (feedOfMember (cardUuid k) (edgeUuid k) c) as [e|] eqn:Ec; cbn [id]; [|done].
  rewrite fmap_cons. constructor; [|done]. intros (e' & Ef & (x & Hx & Ex)%list_elem_of_omap)%list_elem_of_fmap. cbn in Ex. subst x.
  apply elem_of_lookup_imap in Hx as (i & c' & E' & _). pose proof (Hfi _ _ _ _ _ _ Ec (eq_sym E') Ef). lia.
Qed.

Lemma sound_placed gone s cardUuid edgeUuid cards :
  soundWith gone s → fresh_cards cardUuid (ids (vs_nodes s) ++ gone) → Inj (=) (=) edgeUuid → (∀ k, "artifact-viewer-edge-" +:+ edgeUuid k ∉ ids (vs_edges s)) →
  (∀ c, c ∈ cards → finitePoint (cardPosition c) = true ∧ match c with uc_output _ n p => n ≠ "" ∧ p ≠ "" | _ => True end) →
  soundWith gone (placeMembers cardUuid edgeUuid cards s).
Proof.
  intros Hs Hf Hinj He Hc. unfold placeMembers.
  set (s1 := withoutPresentationSelection s). assert (soundWith gone s1) as H1 by by apply sound_deselected.
  assert (ids (vs_nodes s1) = ids (vs_nodes s)) as Ei by (change (vs_nodes s1) with (deselectNodes [] (vs_nodes s)); unfold ids, deselectNodes; by rewrite <- list_fmap_compose).
  assert (∀ i c, vn_id (cardOfMember (cardUuid i) c) = "artifact-viewer-" +:+ cardUuid i) as Hid by (intros i []; done).
  set (s2 := on_nodes _ s1). assert (soundWith gone s2) as H2.
  { apply (sound_place _ _ cardUuid); [done|done| |by rewrite Ei]. intros i c Hi. apply list_elem_of_lookup_2, Hc in Hi as [Hp _].
    destruct c as [p v|p n port]; [by apply newCard_sound|]. split; try done. by intros w [?|?]. }
  assert (∀ e, e ∈ omap id (imap (λ i card, feedOfMember (cardUuid i) (edgeUuid i) card) cards) →
            ∃ i p n port, cards !! i = Some (uc_output p n port) ∧ feedOfMember (cardUuid i) (edgeUuid i) (uc_output p n port) = Some e) as Hfeed.
  { intros e (x & Hx & Ex)%list_elem_of_omap. cbn in Ex. subst x. apply elem_of_lookup_imap in Hx as (i & c & E & Hi). destruct c as [|p n port]; [done|]. by exists i, p, n, port. }
  apply sound_add_edges; [done|..].
  - apply Forall_forall. intros e (i & p & n & port & Hi & Ee)%Hfeed. injection Ee as <-. pose proof Hi as [_ [? ?]]%list_elem_of_lookup_2%Hc.
    split; try done; [|by eexists]. apply elem_of_app. left. apply elem_of_ids. exists (cardOfMember (cardUuid i) (uc_output p n port)). split; [|done].
    apply elem_of_app. right. apply elem_of_lookup_imap. eauto.
  - apply (NoDup_feeds cardUuid edgeUuid cards vx_id). intros i j [] [] e e'; try done. intros [= <-] [= <-]. cbn. intros E. apply (inj edgeUuid). by simplify_eq.
  - apply (NoDup_feeds cardUuid edgeUuid cards vx_target). intros i j [] [] e e'; try done. intros [= <-] [= <-]. cbn. intros E. apply (fc_inj _ _ Hf). by simplify_eq.
  - intros e (i & p & n & port & Hi & Ee)%Hfeed. injection Ee as <-. split; [apply He|]. intros (e & E & Hin)%list_elem_of_fmap.
    apply (fc_new _ _ Hf i). change ("artifact-viewer-" +:+ cardUuid i = vx_target e) in E. rewrite E.
    pose proof (sw_edges _ _ Hs) as H. rewrite Forall_forall in H. apply (se_target _ _ (H e Hin)).
Qed.

(** ** Every sequence of gestures *)

(** What a gesture is handed: sizes and places that are numbers, ids that are new, a binding
    of the card's own id between cards that are or were there. *)
Definition admissible (deps : CardDeps) (gone : list string) (g : CardGesture) (s : ArtifactViewerCanvasState) : Prop :=
  match g with
  | ge_layout _ layout => ∀ w, layout ≫= wl_width = Some w → sound_size w
  | ge_edge _ update => ∀ p, update = Val p → path p ≠ []
  | ge_binding i binding => vb_id binding = i ∧ sound_binding (ids (vs_nodes s) ++ gone) binding
  | ge_annotationLayout _ layout => al_width layout ≠ NNaN ∧ al_height layout ≠ NNaN
  | ge_addCards uuid cards => fresh_cards uuid (ids (vs_nodes s) ++ gone) ∧ Forall (λ c, finitePoint c.2 = true) cards
  | ge_collect uuid | ge_ungroup uuid _ => fresh_cards uuid (ids (vs_nodes s) ++ gone)
  | ge_ungroupCollection _ cardUuid edgeUuid _ =>
      fresh_cards cardUuid (ids (vs_nodes s) ++ gone) ∧ Inj (=) (=) edgeUuid ∧ (∀ k, "artifact-viewer-edge-" +:+ edgeUuid k ∉ ids (vs_edges s)) ∧
      (∀ n, n ∈ cc_nodes (cd_collection deps) → finitePoint (wn_position n) = true) ∧ (∀ e, e ∈ cc_edges (cd_collection deps) → we_source e ≠ "")
  | _ => True
  end.

(** The cards a gesture takes away without what is at them: collecting through the
    collection operator, and emptying a card. *)
Definition leftBehind (deps : CardDeps) (g : CardGesture) : list string :=
  match g with
  | ge_collect uuid =>
      match cc_spec (cd_collection deps) with
      | Some spec =>
          match collectCardsCommands (cc_sources (cd_collection deps)) (cc_nodes (cd_collection deps)) spec createSavedNodeData uuid with
          | Ok (Some plan) => cp_removedCardIds plan
          | _ => []
          end
      | None => []
      end
  | ge_refs _ nodeId None => [nodeId]
  | _ => []
  end.

Lemma set_annotation_sound gone s i layout text color :
  soundWith gone s → (∀ l, layout = Some l → al_width l ≠ NNaN ∧ al_height l ≠ NNaN) →
  soundWith gone (on_annotations (map_id i (edit_annotation layout text color)) s).
Proof.
  intros Hs Hl. pose proof (sw_annotations _ _ Hs) as H. rewrite Forall_forall in H. apply sound_annotations_edited; [done| |].
  - apply Forall_forall. intros a Ha. apply elem_of_map_id in Ha as [[Ha _]|(b & Hb & _ & ->)]; [by apply H|].
    destruct (H b Hb). split; try done; cbn; (destruct layout as [l|]; [|done]); by apply (Hl l).
  - rewrite ids_map_id by done. apply (sw_annotationIds _ _ Hs).
Qed.

Lemma set_edge_sound l e p ro :
  (∀ q, p = Some q → path q ≠ []) → sound_edge l e →
  sound_edge l (set_edgeData {| vx_sourcePortName := default "" (vx_sourcePortName <$> vx_data e); vx_projection := p; vx_routeOffset := ro |} e).
Proof. intros Hp [? ? ? ? (d & Ed & Hn & Hpr)]. split; try done. eexists. split; [done|]. cbn. rewrite Ed. done. Qed.

Lemma update_sound deps gone g s f :
  soundWith gone s → admissible deps gone g s → cardUpdate deps g = Some f → soundWith (leftBehind deps g ++ gone) (f s).
Proof.
  intros Hs Ha Hf. destruct g; cbn [cardUpdate leftBehind admissible app] in *; try discriminate Hf; try (injection Hf as <-).
  - apply sound_map_node; [done|done|]. intros n [? ? ? ?]. by split.
  - apply sound_map_edge; [done|done|]. intros l e He. apply set_edge_sound; [|done]. intros q. unfold edgeProjection. destruct update as [| |p]; [|done|by intros [= <-]; apply Ha].
    destruct He as [? ? ? ? (d & Ed & _ & Hpr)]. rewrite Ed. apply Hpr.
  - apply sound_map_edge; [done|done|]. intros l e He. apply set_edge_sound; [|done]. destruct He as [? ? ? ? (d & Ed & _ & Hpr)]. rewrite Ed. apply Hpr.
  - apply sound_map_node; [done|done|]. intros n [? ? ? ?]. by split.
  - by apply sound_map_binding; [|apply Ha..].
  - by apply sound_without.
  - apply set_annotation_sound; [done|]. by intros l [= <-].
  - by apply set_annotation_sound.
  - by apply set_annotation_sound.
  - apply sound_annotations_edited; [done| |]; [apply Forall_filtered, (sw_annotations _ _ Hs)|apply NoDup_ids_filter, (sw_annotationIds _ _ Hs)].
  - destruct (is_nil cards); [done|]. injection Hf as <-. destruct Ha as [Hfresh Hp]. unfold addedCards. apply (sound_place _ _ uuid); [by apply sound_deselected|by intros i []| |].
    + intros i [v p] Hi. eapply Forall_lookup_1 in Hp; [|done]. by apply newCard_sound.
    + change (vs_nodes (withoutPresentationSelection s)) with (deselectNodes [] (vs_nodes s)). unfold ids, deselectNodes. by rewrite <- list_fmap_compose.
  - destruct (negb _); [done|]. destruct (cc_spec _) as [spec|].
    + destruct (bool_decide _); [done|]. destruct (collectCardsCommands _ _ _ _ _) as [[plan|]|]; [|done..]. injection Hf as <-.
      apply sound_filter_edges, sound_filter_nodes; [done|]. intros n _ Hn. by destruct (decide (vn_id n ∈ cp_removedCardIds plan)).
    + destruct (bool_decide _); [done|]. injection Hf as <-. by apply sound_collected.
  - destruct (find_id _ _) as [node|] eqn:En; [|done]. destruct (negb _ || _); [done|]. injection Hf as <-. destruct Ha as (Hfresh & Hinj & Hedge & Hn & He).
    apply find_id_Some in En as [Hin _]. apply sound_placed; try done. intros c Hc.
    eapply ungrouped_cards_ok in Hc as [Hp Hsrc]; [|by apply Hn|done|by apply media_height_sound]. split; [done|]. destruct c as [|p n port]; [done|].
    destruct Hsrc as (plug & e & label & refs & Hm). by apply (member_source_ok _ _ _ _ _ He) in Hm.
  - by apply sound_ungrouped.
  - by apply tidy_sound.
  - destruct (find_id _ _); [|done]. injection Hf as <-. destruct value as [value|]; cbn [cardRefsReplaced leftBehind app].
    + apply sound_map_node; [done|done|]. intros n [? ? ? ?]. by split.
    + apply (sound_filter_nodes _ _ Hs _ [nodeId]). intros n _ Hn. apply list_elem_of_singleton. by destruct (decide (vn_id n = nodeId)).
Qed.

Lemma sound_remember removed gone s : soundWith gone s → soundWith (removed ++ gone) s.
Proof.
  intros []. split; try done.
  - eapply Forall_impl; [eassumption|]. intros e. apply sound_edge_mono. intros i. rewrite !elem_of_app. tauto.
  - eapply Forall_impl; [eassumption|]. intros e. apply sound_binding_mono. intros i. rewrite !elem_of_app. tauto.
Qed.

Section runs.
Context (numberText : jsnum → string) (start : CardLayer).

(** The layers a sequence of gestures leads to, with the cards left behind and what was
    published to the room. *)
Inductive cards_reach : CardLayer → list string → list ArtifactViewerCanvasState → Prop :=
| reach_start : cards_reach start [] []
| reach_gesture deps g l gone sent l' es :
    cards_reach l gone sent → admissible deps gone g (cl_viewers l) → gesture numberText deps g l = (l', es, tt) →
    cards_reach l' (leftBehind deps g ++ gone) (published es ++ sent).

Lemma reached_sound l gone sent :
  soundViewers (cl_viewers start) → cards_reach l gone sent → soundWith gone (cl_viewers l) ∧ head (sent ++ [cl_viewers start]) = Some (cl_viewers l).
Proof.
  intros H0. induction 1 as [|deps g l gone sent l' es _ [IH Hlast] Ha Hg]; [split; [by apply soundWith_none|done]|].
  pose proof (gesture_commits numberText deps g l) as Hc. rewrite Hg in Hc. destruct (cardUpdate deps g) as [f|] eqn:Ef.
  - destruct (cd_localAuthoringEnabledRef deps); destruct Hc as (-> & -> & _); [split; [by eapply update_sound|done]|]. split; [by apply sound_remember|done].
  - destruct Hc as (-> & -> & _). split; [by apply sound_remember|done].
Qed.
End runs.

(** C7: whatever gestures are made on the cards, on whatever render they were made from, the
    cards stay sound: ids distinct, places finite, one feed per card, and every wire and
    binding at a card that is shown, or at one that was emptied or collected into a
    collection node.  The room was last sent exactly the cards that are shown. *)
Theorem gestures_keep_the_cards_sound numberText start l gone sent :
  soundViewers (cl_viewers start) → cards_reach numberText start l gone sent →
  soundWith gone (cl_viewers l) ∧ (gone = [] → soundViewers (cl_viewers l)) ∧ head (sent ++ [cl_viewers start]) = Some (cl_viewers l).
Proof.
  intros H0 Hr. destruct (reached_sound numberText start l gone sent H0 Hr) as [Hs Hl]. split; [done|]. split; [|done]. intros ->. by apply soundWith_none.
Qed.

(** ** A row of dropped cards *)

Section row.
#[local] Open Scope Qc_scope.

Definition gutter : Qc := Q2Qc (inject_Z 24).
Definition finiteCards (cards : list (Z * Qc)) : list (Z * jsnum) := (λ c, (c.1, NFin c.2)) <$> cards.
Definition total (cards : list (Z * Qc)) : Qc := foldr (λ c t, c.2 + t) 0 cards.

(** Where each card of a row begins. *)
Fixpoint rowStarts (left : Qc) (cards : list (Z * Qc)) : list Qc :=
  match cards with [] => [] | c :: rest => left :: rowStarts (left + c.2 + gutter) rest end.

Lemma dropRow_starts y left cards : pt_x <$> dropRow y (NFin left) (finiteCards cards) = NFin <$> rowStarts left cards.
Proof.
  revert left. induction cards as [|[n w] cards IH]; intros left; [done|].
  change (finiteCards ((n, w) :: cards)) with ((n, NFin w) :: finiteCards cards). cbn [dropRow rowStarts]. rewrite !fmap_cons. f_equal.
  - cbn. f_equal. ring.
  - assert (num_add (NFin left) (num_add (NFin w) ARTIFACT_CARD_DROP_GUTTER) = NFin (left + w + gutter)) as -> by (change (NFin (left + (w + gutter)) = NFin (left + w + gutter)); f_equal; ring).
    apply IH.
Qed.

Lemma rowStarts_step left cards i a b w :
  rowStarts left cards !! i = Some a → rowStarts left cards !! S i = Some b → snd <$> cards !! i = Some w → b = a + w + gutter.
Proof.
  revert left i. induction cards as [|c cards IH]; intros left i; [done|]. destruct i as [|i]; cbn.
  - intros [= <-]. destruct cards as [|c' cards]; [done|]. cbn. by intros [= <-] [= <-].
  - apply IH.
Qed.

Lemma rowStarts_end left cards a w :
  last (rowStarts left cards) = Some a → snd <$> last cards = Some w → a + w = left + total cards + Q2Qc (inject_Z (Z.of_nat (length cards) - 1)) * gutter.
Proof.
  revert left. induction cards as [|c cards IH]; intros left; [done|]. destruct cards as [|c' cards].
  - cbn [last rowStarts fmap option_fmap option_map total foldr]. intros [= <-] [= <-]. change (Z.of_nat (length [c]) - 1)%Z with 0%Z. change (Q2Qc (inject_Z 0)) with 0. ring.
  - intros Ha Hw. rewrite (IH (left + c.2 + gutter)); [|exact Ha|exact Hw]. cbn [total foldr]. fold (total cards).
    replace (Z.of_nat (length (c :: c' :: cards)) - 1)%Z with (1 + (Z.of_nat (length (c' :: cards)) - 1))%Z by (cbn [length]; lia).
    rewrite inject_Z_plus. assert (∀ p q, Q2Qc (p + q)%Q = Q2Qc p + Q2Qc q) as ->.
    { intros p q. apply Qc_is_canon. cbn. by rewrite !Qred_correct. }
    change (Q2Qc (inject_Z 1)) with 1. ring.
Qed.

Lemma widths_sum acc cards : foldl num_add (NFin acc) (map snd (finiteCards cards)) = NFin (acc + total cards).
Proof.
  revert acc. induction cards as [|c cards IH]; intros acc; [cbn; f_equal; ring|].
  change (finiteCards (c :: cards)) with ((c.1, NFin c.2) :: finiteCards cards). cbn [map foldl snd]. change (num_add (NFin acc) (NFin c.2)) with (NFin (acc + c.2)).
  rewrite IH. f_equal. cbn [total foldr]. fold (total cards). ring.
Qed.

(** Half the room that cards and gutters take. *)
Definition halfSpan (cards : list (Z * Qc)) : Qc := (total cards + Q2Qc (inject_Z (Z.of_nat (length cards) - 1)) * gutter) * Q2Qc (1 # 2).

Lemma drop_starts x y cards :
  cards ≠ [] → pt_x <$> artifactCardDropPositions {| pt_x := NFin x; pt_y := y |} (finiteCards cards) = NFin <$> rowStarts (x - halfSpan cards) cards.
Proof.
  intros Hne. unfold artifactCardDropPositions. cbn [pt_x pt_y]. change (num 0) with (NFin 0). rewrite widths_sum.
  assert (length (finiteCards cards) = length cards) as -> by (unfold finiteCards; by rewrite length_fmap).
  rewrite Z.max_r by (destruct cards; [done|cbn [length]; lia]). rewrite <- (dropRow_starts y). do 2 f_equal. unfold halfSpan.
  change (NFin (x + - ((0 + total cards + Q2Qc (inject_Z (Z.of_nat (length cards) - 1)) * gutter) * Q2Qc (1 # 2))) =
          NFin (x - (total cards + Q2Qc (inject_Z (Z.of_nat (length cards) - 1)) * gutter) * Q2Qc (1 # 2))). f_equal. ring.
Qed.

(** Cards dropped together land in one row, each beginning 24 after the end of the one
    before, and the middle of the row is where the pointer was released. *)
Theorem dropped_cards_stand_in_a_row x y cards :
  let ps := artifactCardDropPositions {| pt_x := NFin x; pt_y := y |} (finiteCards cards) in
  length ps = length cards ∧
  (∀ i p q c, ps !! i = Some p → ps !! S i = Some q → cards !! i = Some c → ∃ a, pt_x p = NFin a ∧ pt_x q = NFin (a + c.2 + gutter)) ∧
  (∀ p q c, ps !! O = Some p → last ps = Some q → last cards = Some c → ∃ a b, pt_x p = NFin a ∧ pt_x q = NFin b ∧ a + (b + c.2) = x + x).
Proof.
  intros ps. destruct (decide (cards = [])) as [E|Hne]; [unfold ps; by rewrite E|].
  pose proof (drop_starts x y cards Hne) as Hx. fold ps in Hx. set (left := x - halfSpan cards) in *.
  assert (∀ i p, ps !! i = Some p → ∃ a, rowStarts left cards !! i = Some a ∧ pt_x p = NFin a) as Hat.
  { intros i p Hp. apply (f_equal (λ l, l !! i)) in Hx. rewrite !list_lookup_fmap, Hp in Hx. destruct (rowStarts left cards !! i) as [a|]; [|done]. exists a. split; [done|]. by injection Hx. }
  assert (∀ l : list (Z * Qc), ∀ k, length (rowStarts k l) = length l) as Hlen by (intros l; induction l as [|c l IH]; intros k; cbn; [done|by rewrite IH]).
  split_and!.
  - apply (f_equal length) in Hx. rewrite !length_fmap, Hlen in Hx. done.
  - intros i p q c Hp Hq Hc. apply Hat in Hp as (a & Ha & Ep), Hq as (b & Hb & Eq). exists a. split; [done|]. rewrite Eq. f_equal.
    eapply rowStarts_step; [exact Ha|exact Hb|]. by rewrite Hc.
  - intros p q c Hp Hq Hc. rewrite last_lookup in Hq. apply Hat in Hp as (a & Ha & Ep), Hq as (b & Hb & Eq). exists a, b. split; [done|]. split; [done|].
    assert (last (rowStarts left cards) = Some b) as Hlast.
    { rewrite last_lookup, Hlen. apply (f_equal length) in Hx. rewrite !length_fmap, Hlen in Hx. by rewrite <- Hx. }
    rewrite (rowStarts_end left cards b c.2 Hlast) by (by rewrite Hc). assert (a = left) as -> by (destruct cards; [done|by injection Ha]). unfold left, halfSpan.
    set (t := _ + _ * gutter). assert (Q2Qc (1 # 2) + Q2Qc (1 # 2) = 1) as Hhalf by by apply Qc_is_canon.
    transitivity (x + x + t - t * (Q2Qc (1 # 2) + Q2Qc (1 # 2))); [unfold t; ring|]. rewrite Hhalf. ring.
Qed.
End row.

(** ** Gestures that leave something behind *)

Definition shown_card (i : string) (x : Z) : ArtifactViewerNode :=
  {| vn_id := i; vn_position := at_point x 0; vn_selected := Some true; vn_measuredWidth := None; vn_measuredHeight := None; vn_layout := None; vn_mode := None;
     vn_artifactRef := drop_ref i |}.

Definition bound_cards : ArtifactViewerCanvasState :=
  {| vs_nodes := [shown_card "c1" 0; shown_card "c2" 300; shown_card "c3" 600]; vs_edges := [];
     vs_bindings := [{| vb_id := "b"; vb_sourceViewerId := "c1"; vb_targetViewerId := "c3"; vb_mappings := [("k", "k")]; vb_effects := [EffFilter] |}];
     vs_annotations := [] |}.


Definition card_layer (s : ArtifactViewerCanvasState) : CardLayer :=
  {| cl_viewers := s; cl_selections := ∅; cl_fields := ∅; cl_activities := ∅; cl_activityRevision := 0; cl_runError := None |}.

Definition card_deps (s : ArtifactViewerCanvasState) : CardDeps :=
  {| cd_artifactViewers := s; cd_origins := []; cd_localAuthoringEnabledRef := true; cd_localAuthoringBlockedMessage := ""; cd_localAuthoringEnabled := true;
     cd_groupingDisabledReason := None;
     cd_collection := {| cc_spec := Some (plain_spec "sequence.collect" [items_port] []); cc_disabledReason := None;
                         cc_sources := [cs_library "c1" (at_point 0 0) (drop_ref "c1"); cs_library "c2" (at_point 300 0) (drop_ref "c2")]; cc_nodes := []; cc_edges := [] |};
     cd_resolveCardValue := None |}.

Definition after (s : ArtifactViewerCanvasState) (g : CardGesture) : ArtifactViewerCanvasState :=
  cl_viewers (gesture fractionText (card_deps s) g (card_layer s)).1.1.

Lemma shown_card_sound i x v : i ≠ "" → sound_node (set_artifactRef v (shown_card i x)).
Proof. intros Hi. split; [done|done|done|]. by intros w [?|?]. Qed.

Lemma bound_cards_sound : soundViewers bound_cards.
Proof.
  split.
  - apply Forall_forall. intros n Hn. repeat (apply elem_of_cons in Hn as [->|Hn]; [by apply (shown_card_sound _ _ (drop_ref _))|]). by apply not_elem_of_nil in Hn.
  - by_decide.
  - constructor.
  - constructor.
  - constructor.
  - apply Forall_singleton. split; try done; by_decide.
  - by_decide.
  - constructor.
  - constructor.
Qed.

(** Collecting cards through the collection operator takes the cards away and leaves their
    bindings: the binding of the first card is at no card, while removing the card takes
    the binding with it. *)
Lemma collected_cards_leave_their_bindings :
  let s := after bound_cards (ge_collect numbered) in
  vn_id <$> vs_nodes s = ["c3"] ∧ vb_sourceViewerId <$> vs_bindings s = ["c1"] ∧ vs_bindings (withoutViewer bound_cards "c1") = [].
Proof. by vm_compute. Qed.

(** A card whose last artifact is taken out is removed without its wires and bindings. *)
Lemma emptied_card_leaves_its_binding :
  let s := after bound_cards (ge_refs numbered "c1" None) in
  vn_id <$> vs_nodes s = ["c2"; "c3"] ∧ vb_sourceViewerId <$> vs_bindings s = ["c1"].
Proof. by vm_compute. Qed.

(** ** Witnesses *)

Lemma gestures_keep_the_cards_sound_witness :
  soundViewers (after (after bound_cards ge_tidy) (ge_remove "c1")) ∧ ∃ l sent, cards_reach fractionText (card_layer bound_cards) l [] sent ∧ length sent = 2.
Proof.
  set (l1 := (gesture fractionText (card_deps bound_cards) ge_tidy (card_layer bound_cards)).1.1).
  set (l2 := (gesture fractionText (card_deps (after bound_cards ge_tidy)) (ge_remove "c1") l1).1.1).
  assert (cards_reach fractionText (card_layer bound_cards) l1 [] [after bound_cards ge_tidy]) as H1
    by (apply (reach_gesture fractionText _ (card_deps bound_cards) ge_tidy (card_layer bound_cards) [] [] l1 [submitReplace (after bound_cards ge_tidy)]); [constructor|done|by vm_compute]).
  assert (cards_reach fractionText (card_layer bound_cards) l2 [] [after (after bound_cards ge_tidy) (ge_remove "c1"); after bound_cards ge_tidy]) as Hr
    by (apply (reach_gesture fractionText _ (card_deps (after bound_cards ge_tidy)) (ge_remove "c1") l1 [] [after bound_cards ge_tidy] l2
                 [submitReplace (after (after bound_cards ge_tidy) (ge_remove "c1"))]); [exact H1|done|by vm_compute]).
  destruct (gestures_keep_the_cards_sound fractionText (card_layer bound_cards) _ [] _ bound_cards_sound Hr) as (_ & H & _).
  split; [exact (H eq_refl)|]. eexists _, _. split; [exact Hr|done].
Defined.


Definition stacked_cards : ArtifactViewerCanvasState :=
  {| vs_nodes := [shown_card "c1" 0; set_artifactRef (sequenceValue (JStr "image") (JNum (num 1)) [drop_ref "a"; drop_ref "b"; drop_ref "c"] (JStr "s")) (shown_card "stack" 300)];
     vs_edges := []; vs_bindings := []; vs_annotations := [] |}.

Lemma stacked_cards_sound : soundViewers stacked_cards.
Proof.
  split; try (by constructor); [|by_decide]. repeat (apply Forall_cons; split); [by apply (shown_card_sound _ _ (drop_ref _))|by apply shown_card_sound|constructor].
Qed.

Lemma ungrouped_cards_read_back_witness :
  ∃ cards, vs_nodes (ungroupArtifactCard stacked_cards [] "stack" numbered) = [set_selected false (shown_card "c1" 0)] ++ cards ∧
    vn_artifactRef <$> cards = [drop_ref "a"; drop_ref "b"; drop_ref "c"].
Proof.
  destruct (ungrouped_cards_read_back stacked_cards [] "stack" numbered stacked_cards_sound) as [E|(stack & cards & Hf & Hn & Hr & _)].
  - by apply (f_equal (λ s, length (vs_nodes s))) in E.
  - exists cards. rewrite Hn, Hr. vm_compute in Hf. injection Hf as <-. done.
Defined.

(** Three cards on one another, of which one was measured and one has a stored width. *)
Definition heaped_cards : ArtifactViewerCanvasState :=
  {| vs_nodes := [shown_card "c1" 0;
                  {| vn_id := "c2"; vn_position := at_point 10 5; vn_selected := Some true; vn_measuredWidth := Some (num 400); vn_measuredHeight := Some (num 90);
                     vn_layout := None; vn_mode := None; vn_artifactRef := drop_ref "c2" |};
                  {| vn_id := "c3"; vn_position := at_point 20 0; vn_selected := Some true; vn_measuredWidth := None; vn_measuredHeight := None;
                     vn_layout := Some {| wl_width := Some (num 300); wl_bodyHeight := None; wl_appendixHeight := None |}; vn_mode := None; vn_artifactRef := drop_ref "c3" |}];
     vs_edges := []; vs_bindings := []; vs_annotations := [] |}.

Lemma heaped_cards_sound : soundViewers heaped_cards.
Proof.
  split; try (by constructor); [|by_decide]. repeat (apply Forall_cons; split); [by apply (shown_card_sound _ _ (drop_ref _))|..|constructor]; (split; [done|done|..]).
  - done.
  - intros w [[= <-]|[= <-]]; done.
  - intros w [= <-]. done.
  - by intros w [?|?].
Qed.

Lemma tidied_cards_do_not_overlap_witness :
  let tidied := vs_nodes (tidyArtifactCards heaped_cards) in
  map (λ n, (vn_position n, card_width n)) tidied =
    [(at_point 0 0, num 250); (at_point 0 313, num 400); (at_point 464 0, num 300)] ∧
  ∃ n m, tidied !! 0 = Some n ∧ tidied !! 1 = Some m ∧ (clears n m ∨ clears m n).
Proof.
  intros tidied. split; [vm_compute; reflexivity|].
  destruct (tidied_cards_do_not_overlap heaped_cards heaped_cards_sound) as (_ & H & _).
  destruct (tidied !! 0) as [n|] eqn:Hn; [|by vm_compute in Hn].
  destruct (tidied !! 1) as [m|] eqn:Hm; [|by vm_compute in Hm].
  exists n, m. split; [done|]. split; [done|]. apply (H ltac:(vm_compute; lia) 0 1 n m); [done|exact Hn|exact Hm| |].
  - vm_compute in Hn. by injection Hn as <-.
  - vm_compute in Hm. by injection Hm as <-.
Defined.
