(* ===== verification/RunState.v ===== *)
(** * Instance states on the canvas ([ui/run-execution/state.ts])

    What the server says of each node instance and its stored result, and how the
    canvas shows it.  Results are read one request per instance, six at a time:
    the loop of runners ([mapWithLimit]) is a transition system in which requests
    complete in any order. *)

From stdpp Require Import numbers list gmap relations.
From S2P Require Import Prelude Js GraphModel Handles Routes Protocol Canvas.

(** ** States *)

#[export] Instance InstanceStateName_eq_dec : EqDecision InstanceStateName.
Proof. solve_decision. Defined.

Definition INSTANCE_STATES : list InstanceStateName := [is_fresh; is_stale; is_queued; is_running; is_failed].

Definition instanceStateIsTerminal (state : InstanceStateName) : bool :=
  match state with is_fresh | is_stale | is_failed => true | _ => false end.

Definition overlayStatusForInstance (state : InstanceStateName) : NodeExecutionStatus :=
  match state with
  | is_fresh => st_succeeded
  | is_queued => st_queued
  | is_running => st_running
  | is_failed => st_failed
  | is_stale => st_idle
  end.

(** An instance of the open Graph itself: no call path, no map index. *)
Definition isRootInstance (instance : RoomInstanceState) : bool :=
  bool_decide (k_call_path (i_key instance) = []) && bool_decide (k_map_index (i_key instance) = None).

Definition instanceStateByNodeId (instances : list RoomInstanceState) : gmap string RoomInstanceState :=
  foldl (λ byNodeId instance,
           if isRootInstance instance then <[k_node_id (i_key instance) := instance]> byNodeId else byNodeId) ∅ instances.

(** ** Results *)

Definition portArtifact (r : ArtifactRef) : RunPortArtifact :=
  {| ra_artifact_id := ar_artifact_id r; ra_artifact_type := ar_artifact_type r; ra_schema_version := ar_schema_version r;
     ra_content_hash := jsopt_to_option (ar_content_hash r) |}.

Record InstanceResult := {
  ir_instance : RoomInstanceState;
  ir_result_fingerprint : option string;
  ir_created_at : option string;
  (** the entries of the map of ports; a port without a value has none *)
  ir_outputs : option (list (string * option ArtifactOutputValue))
}.

Definition runPortOutput (entry : string * option ArtifactOutputValue) : list RunPortOutput :=
  match entry.2 with
  | None => []
  | Some (value_sequence refs metadata) =>
      [{| ro_port := entry.1; ro_kind := sequence; ro_artifacts := portArtifact <$> refs; ro_value := value_sequence refs metadata |}]
  | Some (value_ref ref) =>
      [{| ro_port := entry.1; ro_kind := single; ro_artifacts := [portArtifact ref]; ro_value := value_ref ref |}]
  end.

Definition runPortOutputs (outputs : option (list (string * option ArtifactOutputValue))) : list RunPortOutput :=
  match outputs with None => [] | Some entries => flat_map runPortOutput entries end.

Definition NO_ERROR_DETAILS : string := "This node failed without error details.".

(** [!fingerprint]: absent or empty. *)
Definition runNodeResultFromInstance (r : InstanceResult) : option RunNodeResult :=
  let instance := ir_instance r in
  let failed := bool_decide (i_state instance = is_failed) in
  if bool_decide (truthy (ir_result_fingerprint r) = None) && negb failed then None
  else Some {| rr_node_id := k_node_id (i_key instance);
               rr_status := if failed then nr_failed else nr_succeeded;
               rr_error := if failed then Some (default NO_ERROR_DETAILS (i_error instance)) else None;
               rr_outputs := runPortOutputs (ir_outputs r);
               rr_result_fingerprint := ir_result_fingerprint r;
               rr_created_at := ir_created_at r |}.

(** ** Onto the canvas *)

Definition instanceExecution (instance : RoomInstanceState) : NodeExecution :=
  {| x_status := overlayStatusForInstance (i_state instance);
     x_error := match i_state instance with is_failed => Some (default NO_ERROR_DETAILS (i_error instance)) | _ => None end |}.

Definition set_execution (x : NodeExecution) (n : WorkflowNode) : WorkflowNode :=
  with_data (with_overlay (nd_run (wn_data n)) x (nd_progress (wn_data n)) (wn_data n)) n.

Definition set_run (r : RunNodeResult) (n : WorkflowNode) : WorkflowNode :=
  with_data (with_overlay (Some r) (nd_execution (wn_data n)) (nd_progress (wn_data n)) (wn_data n)) n.

Definition withInstanceState (states : gmap string RoomInstanceState) (node : WorkflowNode) : WorkflowNode :=
  match states !! wn_id node with
  | None => node
  | Some instance =>
      if bool_decide (x_status (nd_execution (wn_data node)) = overlayStatusForInstance (i_state instance)) then node
      else set_execution (instanceExecution instance) node
  end.

Definition withInstanceStates (nodes : list WorkflowNode) (states : gmap string RoomInstanceState) : list WorkflowNode :=
  withInstanceState states <$> nodes.

(** A node that holds the result object already is returned as it is; the value is
    the same either way. *)
Definition withInstanceResults (nodes : list WorkflowNode) (results : gmap string RunNodeResult) : list WorkflowNode :=
  (λ node, match results !! wn_id node with None => node | Some result => set_run result node end) <$> nodes.

(** ** Reading the results *)

Definition INSTANCE_RESULT_CONCURRENCY : nat := 6.

(** The instances whose result is read: root instances with a result that is not
    held under the same fingerprint, among the nodes asked for. *)
Definition wantedInstance (onlyNodeIds : option (list string)) (loaded : gmap string string) (instance : RoomInstanceState) : bool :=
  isRootInstance instance && bool_decide (i_last_result_fingerprint instance ≠ None) &&
  match onlyNodeIds with None => true | Some l => bool_decide (k_node_id (i_key instance) ∈ l) end &&
  negb (bool_decide (loaded !! k_node_id (i_key instance) = i_last_result_fingerprint instance)).

Definition wantedInstances (onlyNodeIds : option (list string)) (loaded : gmap string string) (instances : list RoomInstanceState)
    : list RoomInstanceState :=
  filter (λ i, wantedInstance onlyNodeIds loaded i = true) instances.

Section pool.
Context {Item Result : Type} (items : list Item) (limit : nat).

(** [nextIndex], the items whose request is out, and the results so far. *)
Record Pool := { pool_next : nat; pool_out : list nat; pool_results : list Result }.

(** Every runner takes its first item before any request completes. *)
Definition startPool : Pool :=
  let runners := Nat.min limit (length items) in
  {| pool_next := runners; pool_out := seq 0 runners; pool_results := [] |}.

(** The request of item [k] completes with [r]; its runner takes the next item. *)
Definition completePool (k : nat) (r : option Result) (p : Pool) : Pool :=
  let out := filter (λ j, j ≠ k) (pool_out p) in
  let results := pool_results p ++ match r with Some x => [x] | None => [] end in
  if pool_next p <? length items
  then {| pool_next := S (pool_next p); pool_out := out ++ [pool_next p]; pool_results := results |}
  else {| pool_next := pool_next p; pool_out := out; pool_results := results |}.
End pool.
Arguments startPool {Item} Result items limit.

(** ** The runners *)

Section pool_theory.
Context {Item Result : Type} (items : list Item) (limit : nat) (answer : nat → option Result).

(** A request that is out completes, with the answer of its item. *)
Inductive pool_step : Pool (Result := Result) → Pool (Result := Result) → Prop :=
| pool_complete p k : k ∈ pool_out p → pool_step p (completePool items k (answer k) p).

(** Completed requests are the items taken that are not out. *)
Record pool_inv (p : Pool (Result := Result)) : Prop := {
  pi_next : pool_next p ≤ length items;
  pi_out : NoDup (pool_out p);
  pi_taken : ∀ k, k ∈ pool_out p → k < pool_next p;
  pi_limit : length (pool_out p) ≤ Nat.min limit (length items);
  pi_busy : pool_next p < length items → length (pool_out p) = Nat.min limit (length items);
  pi_results : pool_results p ≡ₚ omap answer (filter (λ k, k ∉ pool_out p) (seq 0 (pool_next p)))
}.

Lemma pool_inv_start : pool_inv (startPool Result items limit).
Proof.
  unfold startPool. set (n := Nat.min limit (length items)). split; cbn.
  - lia.
  - apply NoDup_seq.
  - intros k Hk%elem_of_seq. lia.
  - by rewrite length_seq.
  - by rewrite length_seq.
  - assert (filter (λ k, k ∉ seq 0 n) (seq 0 n) = []) as ->; [|done].
    destruct (filter _ (seq 0 n)) as [|k l] eqn:Hf; [done|].
    assert (k ∈ filter (λ k, k ∉ seq 0 n) (seq 0 n)) as [? ?]%list_elem_of_filter by (rewrite Hf; by left). done.
Qed.

Lemma filter_removed (out : list nat) k l :
  NoDup l → k ∈ l → k ∈ out →
  filter (λ j, j ∉ filter (λ i, i ≠ k) out) l ≡ₚ k :: filter (λ j, j ∉ out) l.
Proof.
  intros Hl Hk Ho. apply NoDup_Permutation.
  - by apply NoDup_filter.
  - constructor; [|by apply NoDup_filter]. by intros [? _]%list_elem_of_filter.
  - intros j. rewrite elem_of_cons, !list_elem_of_filter. destruct (decide (j = k)) as [->|Hne]; naive_solver.
Qed.

Lemma length_removed (out : list nat) k : NoDup out → k ∈ out → S (length (filter (λ i, i ≠ k) out)) = length out.
Proof.
  intros Hnd Hk. change (length (k :: filter (λ i, i ≠ k) out) = length out). apply Permutation_length, NoDup_Permutation; [|done|].
  - constructor; [|by apply NoDup_filter]. by intros [? _]%list_elem_of_filter.
  - intros j. rewrite elem_of_cons, list_elem_of_filter. destruct (decide (j = k)) as [->|]; naive_solver.
Qed.

Lemma pool_inv_step p p' : pool_inv p → pool_step p p' → pool_inv p'.
Proof.
  intros Hinv Hstep. destruct Hstep as [p0 k Hk], Hinv as [Hn Ho Ht Hl Hb Hr]. pose proof (length_removed _ _ Ho Hk) as Hlen. pose proof (Ht k Hk) as Hkn.
  assert (omap answer (filter (λ j, j ∉ filter (λ i, i ≠ k) (pool_out p0)) (seq 0 (pool_next p0))) ≡ₚ
          pool_results p0 ++ match answer k with Some x => [x] | None => [] end) as Hres.
  { rewrite (filter_removed _ k); [|apply NoDup_seq|apply elem_of_seq; lia|done]. cbn. rewrite Hr.
    destruct (answer k); [|by rewrite app_nil_r]. by rewrite (comm (++) _ [_]). }
  unfold completePool. cbv zeta. destruct (Nat.ltb_spec (pool_next p0) (length items)) as [Hlt|Hge]; split; cbn [pool_next pool_out pool_results].
  - lia.
  - apply NoDup_app. split_and!; [by apply NoDup_filter| |apply NoDup_singleton].
    intros j [_ Hj%Ht]%list_elem_of_filter ->%list_elem_of_singleton. lia.
  - intros j [[_ Hj%Ht]%list_elem_of_filter| ->%list_elem_of_singleton]%elem_of_app; lia.
  - rewrite length_app. cbn. rewrite Hb in Hlen by done. lia.
  - intros _. rewrite length_app. cbn. rewrite Hb in Hlen by done. lia.
  - rewrite <- Hres. rewrite seq_S, filter_app. cbn [Nat.add]. rewrite filter_cons.
    rewrite decide_False by (intros H; apply H, elem_of_app; right; by left). rewrite app_nil_r.
    erewrite (filter_iff_in _ (λ j, j ∉ filter (λ i, i ≠ k) (pool_out p0) ++ [pool_next p0])); [done|].
    intros j Hj%elem_of_seq. cbn. rewrite not_elem_of_app, list_elem_of_singleton. split; [|tauto]. intros H. split; [done|lia].
  - lia.
  - by apply NoDup_filter.
  - intros j [_ Hj%Ht]%list_elem_of_filter. lia.
  - lia.
  - lia.
  - by rewrite <- Hres.
Qed.

Lemma pool_inv_reachable p : rtc pool_step (startPool Result items limit) p → pool_inv p.
Proof.
  assert (∀ q, rtc pool_step q p → pool_inv q → pool_inv p) as H; [|intros Hp; by eapply H, pool_inv_start].
  intros q Hq. induction Hq as [|q q' p Hs _ IH]; [done|]. intros Hinv. by eapply IH, pool_inv_step.
Qed.

(** Reading results six at a time: whatever order the requests complete in, never
    more than the limit are out; as long as an item is left a slot never stays empty;
    and when nothing is out any more, every item was asked for exactly once and the
    results are the answers that are not empty. *)
Theorem pool_reads_each_item_once p :
  0 < limit → rtc pool_step (startPool Result items limit) p →
  length (pool_out p) ≤ limit ∧ NoDup (pool_out p) ∧
  (pool_next p < length items → length (pool_out p) = Nat.min limit (length items)) ∧
  (pool_out p = [] → pool_next p = length items ∧ pool_results p ≡ₚ omap answer (seq 0 (length items))).
Proof.
  intros Hlim [Hn Ho Ht Hl Hb Hr]%pool_inv_reachable. split_and!; [lia|done|done|]. intros Hout.
  rewrite Hout in *. cbn in *.
  assert (pool_next p = length items) as Heq.
  { destruct (decide (pool_next p < length items)) as [Hlt|]; [|lia]. apply Hb in Hlt as H0. lia. }
  split; [done|]. rewrite Hr, Heq. rewrite filter_all; [done|]. by intros k _ ?%elem_of_nil.
Qed.
End pool_theory.

(** ** The canvas *)

Lemma states_spec instances i :
  instanceStateByNodeId instances !! i = None ∧ (∀ s, s ∈ instances → isRootInstance s = true → k_node_id (i_key s) ≠ i) ∨
  ∃ l1 s l2, instances = l1 ++ s :: l2 ∧ isRootInstance s = true ∧ k_node_id (i_key s) = i ∧
             instanceStateByNodeId instances !! i = Some s ∧
             ∀ s', s' ∈ l2 → isRootInstance s' = true → k_node_id (i_key s') ≠ i.
Proof.
  induction instances as [|s l IH] using rev_ind; [left; split; [done|by intros s ?%elem_of_nil]|].
  unfold instanceStateByNodeId in *. rewrite foldl_app. cbn [foldl].
  destruct (isRootInstance s) eqn:Hs.
  - destruct (decide (k_node_id (i_key s) = i)) as [<-|Hne].
    + right. exists l, s, []. rewrite lookup_insert_eq. split_and!; [done..|]. by intros s' ?%elem_of_nil.
    + rewrite lookup_insert_ne by done. destruct IH as [[Hn Hall]|(l1 & s0 & l2 & -> & Hr & Hi & Hl & Hall)].
      * left. split; [done|]. intros s' [Hs'| ->%list_elem_of_singleton]%elem_of_app; [by apply Hall|done].
      * right. exists l1, s0, (l2 ++ [s]). rewrite <- (assoc_L (++)). split_and!; [done..|].
        intros s' [Hs'| ->%list_elem_of_singleton]%elem_of_app; [by apply Hall|done].
  - destruct IH as [[Hn Hall]|(l1 & s0 & l2 & -> & Hr & Hi & Hl & Hall)].
    + left. split; [done|]. intros s' [Hs'| ->%list_elem_of_singleton]%elem_of_app; [by apply Hall|congruence].
    + right. exists l1, s0, (l2 ++ [s]). rewrite <- (assoc_L (++)). split_and!; [done..|].
      intros s' [Hs'| ->%list_elem_of_singleton]%elem_of_app; [by apply Hall|congruence].
Qed.

Lemma set_execution_id node : set_execution (nd_execution (wn_data node)) node = node.
Proof. destruct node as [i sel pos []]. done. Qed.

(** Publishing a snapshot changes nothing of a node but its execution overlay, and
    that only for a node the snapshot names as an instance of the open Graph; the last
    such instance decides the status.  The message of a failure is taken over only when
    the status changes: a node that failed before and fails again keeps showing the
    first failure's message. *)
Theorem snapshot_sets_the_overlay instances node :
  let node' := withInstanceState (instanceStateByNodeId instances) node in
  let before := nd_execution (wn_data node) in
  let after := nd_execution (wn_data node') in
  node' = set_execution after node ∧
  ((∀ s, s ∈ instances → isRootInstance s = true → k_node_id (i_key s) ≠ wn_id node) → node' = node) ∧
  (∀ l1 s l2, instances = l1 ++ s :: l2 → isRootInstance s = true → k_node_id (i_key s) = wn_id node →
     (∀ s', s' ∈ l2 → isRootInstance s' = true → k_node_id (i_key s') ≠ wn_id node) →
     x_status after = overlayStatusForInstance (i_state s) ∧
     (x_status before ≠ x_status after → i_state s = is_failed → x_error after = Some (default NO_ERROR_DETAILS (i_error s))) ∧
     (x_status before = x_status after → x_error after = x_error before)).
Proof.
  cbv zeta. set (states := instanceStateByNodeId instances).
  assert (withInstanceState states node = set_execution (nd_execution (wn_data (withInstanceState states node))) node) as Hsame.
  { unfold withInstanceState. destruct (states !! wn_id node) as [s|]; [|by rewrite set_execution_id].
    case_bool_decide; [by rewrite set_execution_id|done]. }
  split; [done|]. destruct (states_spec instances (wn_id node)) as [[Hn Hall]|(l1 & s & l2 & Heq & Hr & Hi & Hl & Hlast)].
  - fold states in Hn. split.
    + intros _. unfold withInstanceState. by rewrite Hn.
    + intros l1 s l2 -> Hr Hi _. exfalso. apply (Hall s); [apply elem_of_app; right; by left|done|done].
  - fold states in Hl. split.
    { intros Hall. exfalso. apply (Hall s); [rewrite Heq; apply elem_of_app; right; by left|done|done]. }
    intros m1 s' m2 Heq' Hr' Hi' Hlast'. assert (s' = s) as ->.
    { destruct (states_spec instances (wn_id node)) as [[Hn _]|_]; [fold states in Hn; congruence|].
      revert Heq' Heq. clear -Hr Hi Hlast Hr' Hi' Hlast'. intros -> Heq. revert l1 Heq.
      induction m1 as [|x m1 IH]; intros [|y l1] Heq; cbn in *; [by injection Heq| | |injection Heq as _ Heq; by eapply IH].
      - injection Heq as <- ->. exfalso. apply (Hlast' s); [apply elem_of_app; right; by left|done|done].
      - injection Heq as -> <-. exfalso. apply (Hlast s'); [apply elem_of_app; right; by left|done|done]. }
    unfold withInstanceState. rewrite Hl. case_bool_decide as Hst.
    + split_and!; [done|done|done].
    + cbn. split_and!; [done| |done]. intros _ ->. done.
Qed.

(** ** Witness *)

Lemma pool_reads_each_item_once_witness :
  ∃ p, rtc (pool_step ["a"; "b"; "c"] (λ k, Some k)) (startPool nat ["a"; "b"; "c"] 2) p ∧ pool_results p ≡ₚ [0; 1; 2].
Proof.
  set (p0 := startPool nat ["a"; "b"; "c"] 2). set (p1 := completePool ["a"; "b"; "c"] 1 (Some 1) p0).
  set (p2 := completePool ["a"; "b"; "c"] 2 (Some 2) p1). set (p3 := completePool ["a"; "b"; "c"] 0 (Some 0) p2).
  assert (rtc (pool_step ["a"; "b"; "c"] (λ k, Some k)) p0 p3) as Hp.
  { eapply rtc_l; [apply (pool_complete _ (λ k, Some k) p0 1); by_decide|].
    eapply rtc_l; [apply (pool_complete _ (λ k, Some k) p1 2); by_decide|].
    eapply rtc_l; [apply (pool_complete _ (λ k, Some k) p2 0); by_decide|]. apply rtc_refl. }
  exists p3. split; [exact Hp|].
  destruct (pool_reads_each_item_once ["a"; "b"; "c"] 2 (λ k, Some k) p3 ltac:(lia) Hp) as (_ & _ & _ & H).
  exact (proj2 (H eq_refl)).
Defined.
