(* ===== verification/RunExecution.v ===== *)
(** * The Run surface of a tab ([ui/useRunExecution.ts])

    The hook a canvas uses to start and cancel its own Run, to follow it, and to
    show the instance states the server derives.  It is asynchronous: a call sends a
    request and continues when the answer arrives, in any order with other answers
    and with renders.  The model is a step function on the hook's refs and state,
    the requests that are out, and the props of the last render.

    A request carries the closure it was sent from: the Project and the Graph object
    of that render.  Renders take place at once after a state change.  Parameters: the
    texts of [ExecutionPlan], and the text of the current time. *)

From stdpp Require Import numbers list gmap relations.
From S2P Require Import Prelude Js JsText JsJson GraphModel Handles Routes Protocol RunState NodeSecrets ConfigSchema ExecutionPlan Canvas.

(** ** Data *)

Inductive RunStatus := rn_running | rn_succeeded | rn_failed | rn_cancelled | rn_interrupted.

#[export] Instance RunStatus_eq_dec : EqDecision RunStatus.
Proof. solve_decision. Defined.

Definition statusText (s : RunStatus) : string :=
  match s with
  | rn_running => "running" | rn_succeeded => "succeeded" | rn_failed => "failed"
  | rn_cancelled => "cancelled" | rn_interrupted => "interrupted"
  end.

Definition RunTargetInput : Type := string * list string.

Record Run := {
  run_id : string;
  run_graph_id : string;
  run_targets : list RunTargetInput;
  run_status : RunStatus;
  run_error : option string;
  run_created_at : string
}.

Record OwnRunState := {
  or_runId : string;
  or_scope : RunScope;
  or_graphId : string;
  or_targets : list RunTargetInput
}.

(** The Graph of the canvas; [ag_object] tells two objects with the same fields apart. *)
Record ActiveSavedGraph := {
  ag_object : nat;
  ag_id : string;
  ag_graphId : string;
  ag_revision : Z;
  ag_nodes : list GraphNode
}.

Definition isTerminalRunStatus (status : RunStatus) : bool :=
  match status with rn_succeeded | rn_failed | rn_cancelled | rn_interrupted => true | rn_running => false end.

Definition runFailureMessage (run : Run) : string :=
  match truthy (run_error run) with
  | Some error => error
  | None =>
      match run_status run with
      | rn_failed => "The Run failed. Its instances show why."
      | rn_cancelled => "The Run was cancelled."
      | rn_interrupted => "The Run was interrupted before it finished. Running it again resumes from what is already fresh."
      | _ => "The Run ended without making its targets fresh."
      end
  end.

(** What a request can be rejected with: an [ApiError], another [Error], anything. *)
Inductive Thrown :=
| api_error (code : option string) (detail message : string)
| js_error (message : string)
| other_thrown.

Definition runRejectionMessage (code : option string) (detail message : string) : string :=
  let sentence := if bool_decide (detail = "") then None else Some detail in
  if bool_decide (code = Some "unknown_graph") then "This Graph is no longer in the Project. Reload it before running."
  else if bool_decide (code = Some "unknown_target") then "A node this Run was asked for is no longer on the canvas. Select the nodes again."
  else if bool_decide (code = Some "unknown_operator") then default "A node in this Run is not in the live node registry." sentence
  else if bool_decide (code = Some "invalid_document") then default "The Graph cannot be run as it is saved." sentence
  else default message sentence.

Definition messageOr (fallback : string) (e : Thrown) : string :=
  match e with api_error _ _ message | js_error message => message | other_thrown => fallback end.

Definition startErrorMessage (e : Thrown) : string :=
  match e with api_error code detail message => runRejectionMessage code detail message | _ => messageOr "The Run could not be started." e end.

(** ** The hook *)

(** The part of a render that callbacks close over and requests carry. *)
Record Closure := { cl_workspaceId : string; cl_projectId : option string; cl_activeGraph : option ActiveSavedGraph }.

Record Props := {
  pr_closure : Closure;
  pr_registryAvailable : bool;
  pr_edges : list WorkflowEdge;
  pr_origins : list GraphOrigin;
  pr_fingerprint : string;
  pr_canRunSavedGraph : bool;
  pr_nodeSecretStatuses : gmap string (gmap string WorkflowNodeSecretStatus);
  pr_roomConnected : bool;
  pr_roomActiveRuns : option (list ActiveRunSummary);
  pr_roomRunsRevision : nat;
  pr_roomInstancesRevision : nat
}.

Record Refs := {
  rf_own : option OwnRunState;
  rf_generation : nat;
  rf_mounted : bool;
  rf_startedFingerprint : string;
  rf_snapshot : option ActiveSavedGraph * string;
  rf_loadedFingerprints : gmap string string;
  rf_resultByNodeId : gmap string RunNodeResult
}.

Record View := {
  vw_nodes : list WorkflowNode;
  vw_ownRun : option OwnRunState;
  vw_ownRunStatus : option RunStatus;
  vw_announcement : string;
  vw_activeRuns : list Run;
  vw_instanceStates : gmap string InstanceStateName;
  vw_resultByNodeId : gmap string RunNodeResult;
  vw_runError : option string
}.

Record InstanceSnapshot := { sn_instances : list RoomInstanceState; sn_results : list RunNodeResult }.

(** What [settleOwnRun] goes on with after its publish. *)
Record Settled := { se_run : Run; se_documentMoved : bool }.

(** A request that is out, with what its continuation holds on to. *)
Inductive Request :=
| rq_instances (cl : Closure) (graph : ActiveSavedGraph) (generation : nat) (loaded : gmap string string) (after : option Settled)
| rq_activeRuns
| rq_ownRun (cl : Closure) (pending : OwnRunState)
| rq_start (cl : Closure) (scope : RunScope) (targets : list RunTargetInput)
| rq_cancel (cl : Closure) (pending : OwnRunState).

Inductive Answer :=
| an_instances (snapshot : InstanceSnapshot)
| an_runs (runs : list Run)
| an_run (run : Run)
| an_error (e : Thrown).

Record Surface := { su_props : Props; su_refs : Refs; su_view : View; su_requests : list Request }.

(** Updates. *)
Definition with_refs (f : Refs → Refs) (s : Surface) : Surface :=
  {| su_props := su_props s; su_refs := f (su_refs s); su_view := su_view s; su_requests := su_requests s |}.
Definition with_view (f : View → View) (s : Surface) : Surface :=
  {| su_props := su_props s; su_refs := su_refs s; su_view := f (su_view s); su_requests := su_requests s |}.
Definition send (r : Request) (s : Surface) : Surface :=
  {| su_props := su_props s; su_refs := su_refs s; su_view := su_view s; su_requests := su_requests s ++ [r] |}.
Definition set_own (o : option OwnRunState) (r : Refs) : Refs :=
  {| rf_own := o; rf_generation := rf_generation r; rf_mounted := rf_mounted r; rf_startedFingerprint := rf_startedFingerprint r;
     rf_snapshot := rf_snapshot r; rf_loadedFingerprints := rf_loadedFingerprints r; rf_resultByNodeId := rf_resultByNodeId r |}.
Definition set_mounted (b : bool) (r : Refs) : Refs :=
  {| rf_own := rf_own r; rf_generation := rf_generation r; rf_mounted := b; rf_startedFingerprint := rf_startedFingerprint r;
     rf_snapshot := rf_snapshot r; rf_loadedFingerprints := rf_loadedFingerprints r; rf_resultByNodeId := rf_resultByNodeId r |}.
Definition set_snapshot (x : option ActiveSavedGraph * string) (r : Refs) : Refs :=
  {| rf_own := rf_own r; rf_generation := rf_generation r; rf_mounted := rf_mounted r; rf_startedFingerprint := rf_startedFingerprint r;
     rf_snapshot := x; rf_loadedFingerprints := rf_loadedFingerprints r; rf_resultByNodeId := rf_resultByNodeId r |}.
Definition set_loaded (fingerprints : gmap string string) (results : gmap string RunNodeResult) (r : Refs) : Refs :=
  {| rf_own := rf_own r; rf_generation := rf_generation r; rf_mounted := rf_mounted r; rf_startedFingerprint := rf_startedFingerprint r;
     rf_snapshot := rf_snapshot r; rf_loadedFingerprints := fingerprints; rf_resultByNodeId := results |}.
Definition next_generation (r : Refs) : Refs :=
  {| rf_own := rf_own r; rf_generation := S (rf_generation r); rf_mounted := rf_mounted r; rf_startedFingerprint := rf_startedFingerprint r;
     rf_snapshot := rf_snapshot r; rf_loadedFingerprints := rf_loadedFingerprints r; rf_resultByNodeId := rf_resultByNodeId r |}.
Definition set_started (f : string) (r : Refs) : Refs :=
  {| rf_own := rf_own r; rf_generation := rf_generation r; rf_mounted := rf_mounted r; rf_startedFingerprint := f;
     rf_snapshot := rf_snapshot r; rf_loadedFingerprints := rf_loadedFingerprints r; rf_resultByNodeId := rf_resultByNodeId r |}.
Definition set_ownRun (o : option OwnRunState) (status : option RunStatus) (v : View) : View :=
  {| vw_nodes := vw_nodes v; vw_ownRun := o; vw_ownRunStatus := status; vw_announcement := vw_announcement v; vw_activeRuns := vw_activeRuns v;
     vw_instanceStates := vw_instanceStates v; vw_resultByNodeId := vw_resultByNodeId v; vw_runError := vw_runError v |}.
Definition set_announcement (t : string) (v : View) : View :=
  {| vw_nodes := vw_nodes v; vw_ownRun := vw_ownRun v; vw_ownRunStatus := vw_ownRunStatus v; vw_announcement := t; vw_activeRuns := vw_activeRuns v;
     vw_instanceStates := vw_instanceStates v; vw_resultByNodeId := vw_resultByNodeId v; vw_runError := vw_runError v |}.
Definition set_activeRuns (l : list Run) (v : View) : View :=
  {| vw_nodes := vw_nodes v; vw_ownRun := vw_ownRun v; vw_ownRunStatus := vw_ownRunStatus v; vw_announcement := vw_announcement v; vw_activeRuns := l;
     vw_instanceStates := vw_instanceStates v; vw_resultByNodeId := vw_resultByNodeId v; vw_runError := vw_runError v |}.
Definition set_instances (states : gmap string InstanceStateName) (results : gmap string RunNodeResult) (v : View) : View :=
  {| vw_nodes := vw_nodes v; vw_ownRun := vw_ownRun v; vw_ownRunStatus := vw_ownRunStatus v; vw_announcement := vw_announcement v;
     vw_activeRuns := vw_activeRuns v; vw_instanceStates := states; vw_resultByNodeId := results; vw_runError := vw_runError v |}.
Definition set_nodes (nodes : list WorkflowNode) (v : View) : View :=
  {| vw_nodes := nodes; vw_ownRun := vw_ownRun v; vw_ownRunStatus := vw_ownRunStatus v; vw_announcement := vw_announcement v;
     vw_activeRuns := vw_activeRuns v; vw_instanceStates := vw_instanceStates v; vw_resultByNodeId := vw_resultByNodeId v; vw_runError := vw_runError v |}.
Definition set_runError (e : option string) (v : View) : View :=
  {| vw_nodes := vw_nodes v; vw_ownRun := vw_ownRun v; vw_ownRunStatus := vw_ownRunStatus v; vw_announcement := vw_announcement v;
     vw_activeRuns := vw_activeRuns v; vw_instanceStates := vw_instanceStates v; vw_resultByNodeId := vw_resultByNodeId v; vw_runError := e |}.

(** *** Settling *)

(** What [settleOwnRun] says once the instances were read again. *)
Definition finishSettle (after : Settled) (s : Surface) : Surface :=
  if negb (rf_mounted (su_refs s)) then s
  else
    let status := run_status (se_run after) in
    if se_documentMoved after then
      with_view (λ v, set_announcement ("Run " +:+ statusText status +:+ ", and the graph had already moved.")
        (set_runError (Some (if bool_decide (status = rn_cancelled)
           then "The Run was cancelled. The graph had already moved, so its nodes show the state that move left them in."
           else "The graph changed while the Run was going. Its results are stored, and the nodes it touched read as stale.")) v)) s
    else if bool_decide (status = rn_succeeded) then with_view (set_announcement "Run made its targets fresh.") s
    else with_view (λ v, set_announcement ("Run " +:+ statusText status +:+ ".") (set_runError (Some (runFailureMessage (se_run after))) v)) s.

(** The continuation of a publish, where there is one. *)
Definition continueWith (after : option Settled) (s : Surface) : Surface :=
  match after with Some a => finishSettle a s | None => s end.

(** [publishInstances] up to its request. *)
Definition publishInstances (cl : Closure) (after : option Settled) (s : Surface) : Surface :=
  match truthy (cl_projectId cl), cl_activeGraph cl with
  | Some _, Some graph => send (rq_instances cl graph (rf_generation (su_refs s)) (rf_loadedFingerprints (su_refs s)) after) s
  | _, _ => continueWith after s
  end.

Definition stillCurrent (graph : ActiveSavedGraph) (generation : nat) (s : Surface) : bool :=
  rf_mounted (su_refs s) && bool_decide (generation = rf_generation (su_refs s)) &&
  match (rf_snapshot (su_refs s)).1 with
  | Some current => bool_decide (ag_graphId current = ag_graphId graph) && bool_decide (ag_revision current = ag_revision graph)
  | None => false
  end.

Definition loadedAfter (loaded : gmap string string) (byNodeId : gmap string RoomInstanceState) : gmap string string :=
  map_fold (λ nodeId instance fingerprints,
              match truthy (i_last_result_fingerprint instance) with
              | Some f => <[nodeId := f]> fingerprints
              | None => delete nodeId fingerprints
              end) loaded byNodeId.

Definition resultsAfter (results : gmap string RunNodeResult) (l : list RunNodeResult) : gmap string RunNodeResult :=
  foldl (λ results result, <[rr_node_id result := result]> results) results l.

(** The publish of a snapshot that is still current. *)
Definition applySnapshot (loaded : gmap string string) (snapshot : InstanceSnapshot) (s : Surface) : Surface :=
  let byNodeId := instanceStateByNodeId (sn_instances snapshot) in
  let results := resultsAfter (rf_resultByNodeId (su_refs s)) (sn_results snapshot) in
  with_view (λ v, set_nodes (withInstanceResults (withInstanceStates (vw_nodes v) byNodeId) results)
                    (set_instances (i_state <$> byNodeId) results v))
    (with_refs (set_loaded (loadedAfter loaded byNodeId) results) s).

Definition answerInstances (graph : ActiveSavedGraph) (generation : nat) (loaded : gmap string string) (after : option Settled)
    (a : Answer) (s : Surface) : Surface :=
  continueWith after
    match a with
    | an_instances snapshot => if stillCurrent graph generation s then applySnapshot loaded snapshot s else s
    | an_error e =>
        if rf_mounted (su_refs s) && bool_decide (generation = rf_generation (su_refs s))
        then with_view (set_runError (Some (messageOr "Node instance state is unavailable." e))) s else s
    | _ => s
    end.

Definition refreshActiveRuns (cl : Closure) (s : Surface) : Surface :=
  match truthy (cl_projectId cl) with Some _ => send rq_activeRuns s | None => s end.

Definition answerActiveRuns (a : Answer) (s : Surface) : Surface :=
  match a with
  | an_runs runs => if rf_mounted (su_refs s) then with_view (set_activeRuns runs) s else s
  | _ => s
  end.

Definition settleOwnRun (cl : Closure) (s : Surface) : Surface :=
  match rf_own (su_refs s), truthy (cl_projectId cl) with
  | Some pending, Some _ => send (rq_ownRun cl pending) s
  | _, _ => s
  end.

Definition answerOwnRun (cl : Closure) (pending : OwnRunState) (a : Answer) (s : Surface) : Surface :=
  match a with
  | an_run run =>
      if negb (rf_mounted (su_refs s)) || negb (bool_decide (or_runId <$> rf_own (su_refs s) = Some (or_runId pending))) then s
      else if negb (isTerminalRunStatus (run_status run)) then with_view (λ v, set_ownRun (vw_ownRun v) (Some (run_status run)) v) s
      else
        let documentMoved := negb (bool_decide ((rf_snapshot (su_refs s)).2 = rf_startedFingerprint (su_refs s))) in
        publishInstances cl (Some {| se_run := run; se_documentMoved := documentMoved |})
          (with_view (set_ownRun None None) (with_refs (set_own None) s))
  | _ => s
  end.

Definition refresh (cl : Closure) (s : Surface) : Surface := settleOwnRun cl (refreshActiveRuns cl (publishInstances cl None s)).

(** *** Renders and their effects *)

#[export] Instance Closure_eq_dec : EqDecision Closure.
Proof.
  assert (EqDecision GraphNode) by solve_decision. assert (EqDecision ActiveSavedGraph) by solve_decision. solve_decision.
Defined.

Definition hasGraphKey (cl : Closure) : bool := bool_decide (is_Some (truthy (cl_projectId cl))) && bool_decide (is_Some (cl_activeGraph cl)).

(** The effect of a new Graph or Project. *)
Definition openGraph (cl : Closure) (s : Surface) : Surface :=
  let s := with_view (λ v, set_activeRuns [] (set_instances ∅ ∅ v)) (with_refs (λ r, set_loaded ∅ ∅ (next_generation r)) s) in
  if hasGraphKey cl then refreshActiveRuns cl (publishInstances cl None s) else s.

Definition when (b : bool) (f : Surface → Surface) (s : Surface) : Surface := if b then f s else s.

(** A render with new props and nodes: the layout effect, then the effects whose
    dependencies changed, in order. *)
Definition render (p : Props) (nodes : list WorkflowNode) (s : Surface) : Surface :=
  let before := su_props s in
  let cl := pr_closure p in
  let moved := negb (bool_decide (pr_closure before = cl)) in
  let runsMoved := negb (bool_decide (pr_roomRunsRevision before = pr_roomRunsRevision p)) in
  let s := {| su_props := p; su_refs := set_snapshot (cl_activeGraph cl, pr_fingerprint p) (su_refs s);
              su_view := set_nodes nodes (su_view s); su_requests := su_requests s |} in
  let s := when moved (openGraph cl) s in
  let connectedMoved := negb (bool_decide (pr_roomConnected before = pr_roomConnected p)) in
  let s := when (pr_roomConnected p && negb (bool_decide (pr_roomInstancesRevision p = 0)) && hasGraphKey cl &&
                 (moved || connectedMoved || negb (bool_decide (pr_roomInstancesRevision before = pr_roomInstancesRevision p))))
                (publishInstances cl None) s in
  let projectMoved := negb (bool_decide ((cl_workspaceId (pr_closure before), cl_projectId (pr_closure before)) = (cl_workspaceId cl, cl_projectId cl))) in
  let s := when (pr_roomConnected p && negb (bool_decide (pr_roomRunsRevision p = 0)) && (projectMoved || connectedMoved || runsMoved))
                (refreshActiveRuns cl) s in
  when (bool_decide (is_Some (vw_ownRun (su_view s))) && (moved || runsMoved)) (settleOwnRun cl) s.

Definition pollingNeeded (s : Surface) : bool :=
  negb (pr_roomConnected (su_props s)) &&
  (bool_decide (is_Some (vw_ownRun (su_view s))) || negb (is_nil (vw_activeRuns (su_view s)))).

(** *** Starting a Run *)

Section start.
Context (numberText : jsnum → string) (typeText : jsval → string) (regExp : string → option (string → bool)).

Definition secretBackedNodes (nodes : list WorkflowNode) : list (WorkflowNode * list WorkflowNodeSecretInput) :=
  filter (λ ni, ni.2 ≠ []) ((λ n, (n, nodeSecretInputs (wn_spec n))) <$> nodes).

Definition currentBinding (n : WorkflowNode) : NodeSecretBindingSnapshot :=
  {| sb_id := wn_id n; sb_operator_id := spec_operator_id (wn_spec n); sb_operator_version := spec_operator_version (wn_spec n);
     sb_config := Val (nd_config (wn_data n)) |}.

Definition savedBinding (n : GraphNode) : NodeSecretBindingSnapshot :=
  {| sb_id := n_id n; sb_operator_id := n_operator_id n; sb_operator_version := n_operator_version n; sb_config := n_config n |}.

(** The first input of a node whose binding is new or changed. *)
Definition changedInput (graph : ActiveSavedGraph) (ni : WorkflowNode * list WorkflowNodeSecretInput) : option WorkflowNodeSecretInput :=
  let savedNode := savedBinding <$> find (λ candidate, bool_decide (n_id candidate = wn_id ni.1)) (ag_nodes graph) in
  find (λ i, negb (nodeSecretBindingReady numberText i (currentBinding ni.1) savedNode)) ni.2.

Fixpoint changedBinding (graph : ActiveSavedGraph) (l : list (WorkflowNode * list WorkflowNodeSecretInput)) : option string :=
  match l with
  | [] => None
  | ni :: rest =>
      match changedInput graph ni with
      | Some changed => Some ("Save the graph before running " +:+ wn_title ni.1 +:+ ": its " +:+ si_title changed +:+ " binding is new or changed.")
      | None => changedBinding graph rest
      end
  end.

Definition secretMissing (statuses : gmap string (gmap string WorkflowNodeSecretStatus)) (ni : WorkflowNode * list WorkflowNodeSecretInput) : bool :=
  existsb (λ i, negb (bool_decide (ss_state <$> (statuses !! wn_id ni.1 ≫= λ m, m !! si_name i) = Some secret_configured))) ni.2.

(** What stands against a Run of the stored secrets. *)
Definition secretRefusal (p : Props) (graph : ActiveSavedGraph) (nodes : list WorkflowNode) : option string :=
  let backed := secretBackedNodes nodes in
  if negb (is_nil backed) && negb (pr_canRunSavedGraph p)
  then Some "Save the graph before running nodes that use stored secrets."
  else match changedBinding graph backed with
       | Some message => Some message
       | None =>
           match find (secretMissing (pr_nodeSecretStatuses p)) backed with
           | Some ni => Some ("Configure every required secret for " +:+ wn_title ni.1 +:+ " before running.")
           | None => None
           end
       end.

Definition failNode (nodeId message : string) (n : WorkflowNode) : WorkflowNode :=
  if bool_decide (wn_id n = nodeId) then set_execution {| x_status := st_failed; x_error := Some message |} n else n.

Definition runWorkflow (scope : RunScope) (s : Surface) : Surface :=
  let p := su_props s in
  let cl := pr_closure p in
  let nodes := vw_nodes (su_view s) in
  if negb (pr_registryAvailable p) || bool_decide (is_Some (rf_own (su_refs s))) then s
  else match truthy (cl_projectId cl), cl_activeGraph cl with
  | Some _, Some graph =>
      let execution := executionSubgraphFor scope nodes (pr_edges p) in
      match executionValidationIssue numberText typeText regExp scope (ex_nodes execution) (ex_edges execution) (pr_origins p) with
      | Some problem =>
          match truthy (vi_nodeId problem) with
          | Some nodeId => with_view (λ v, set_nodes (failNode nodeId (vi_message problem) <$> vw_nodes v) (set_runError None v)) s
          | None => with_view (set_runError (Some (vi_message problem))) s
          end
      | None =>
          match secretRefusal p graph (ex_nodes execution) with
          | Some message => with_view (set_runError (Some message)) s
          | None => send (rq_start cl scope (runTargetsFor execution)) (with_view (λ v, set_announcement "" (set_runError None v)) s)
          end
      end
  | _, _ => with_view (set_runError (Some "Save the graph before running it.")) s
  end.

Definition answerStart (cl : Closure) (scope : RunScope) (a : Answer) (s : Surface) : Surface :=
  if negb (rf_mounted (su_refs s)) then s
  else match a with
  | an_run run =>
      let pending := {| or_runId := run_id run; or_scope := scope; or_graphId := run_graph_id run; or_targets := run_targets run |} in
      let s := with_refs (λ r, set_own (Some pending) (set_started (rf_snapshot r).2 (next_generation r))) s in
      let s := with_view (set_ownRun (Some pending) (Some (run_status run))) s in
      (* the effect on the own Run settles it, once the publish was sent *)
      settleOwnRun (pr_closure (su_props s)) (publishInstances cl None s)
  | an_error e => with_view (set_runError (Some (startErrorMessage e))) s
  | _ => s
  end.

Definition cancelCurrentRun (s : Surface) : Surface :=
  let cl := pr_closure (su_props s) in
  match rf_own (su_refs s), truthy (cl_projectId cl) with
  | Some pending, Some _ => send (rq_cancel cl pending) s
  | _, _ => s
  end.

Definition answerCancel (cl : Closure) (a : Answer) (s : Surface) : Surface :=
  if negb (rf_mounted (su_refs s)) then s
  else match a with
  | an_run cancelled =>
      refreshActiveRuns cl (with_view (λ v, set_announcement "Cancelling this Run." (set_ownRun (vw_ownRun v) (Some (run_status cancelled)) v)) s)
  | an_error e => with_view (set_runError (Some (messageOr "The Run could not be cancelled." e))) s
  | _ => s
  end.

(** ** Steps *)

Inductive Event :=
| ev_render (p : Props) (nodes : list WorkflowNode)
| ev_run (scope : RunScope)
| ev_cancel
| ev_refresh
| ev_poll
| ev_answer (k : nat) (a : Answer)
| ev_unmount.

(** The continuation of a request with its answer. *)
Definition answer (r : Request) (a : Answer) : Surface → Surface :=
  match r with
  | rq_instances _ graph generation loaded after => answerInstances graph generation loaded after a
  | rq_activeRuns => answerActiveRuns a
  | rq_ownRun cl pending => answerOwnRun cl pending a
  | rq_start cl scope _ => answerStart cl scope a
  | rq_cancel cl _ => answerCancel cl a
  end.

Definition take_request (k : nat) (s : Surface) : Surface :=
  {| su_props := su_props s; su_refs := su_refs s; su_view := su_view s; su_requests := delete k (su_requests s) |}.

Definition step (e : Event) (s : Surface) : Surface :=
  match e with
  | ev_render p nodes => if rf_mounted (su_refs s) then render p nodes s else s
  | ev_run scope => runWorkflow scope s
  | ev_cancel => cancelCurrentRun s
  | ev_refresh => refresh (pr_closure (su_props s)) s
  | ev_poll => if pollingNeeded s && rf_mounted (su_refs s) then refresh (pr_closure (su_props s)) s else s
  | ev_answer k a =>
      match su_requests s !! k with
      | Some r => answer r a (take_request k s)
      | None => s
      end
  | ev_unmount => with_refs (λ r, set_own None (set_mounted false r)) s
  end.

Definition steps (events : list Event) (s : Surface) : Surface := foldl (λ s e, step e s) s events.

(** The first render, with nothing known yet; its effects open the Graph. *)
Definition mount (p : Props) (nodes : list WorkflowNode) : Surface :=
  let cl := pr_closure p in
  let s := {| su_props := p;
              su_refs := {| rf_own := None; rf_generation := 0; rf_mounted := true; rf_startedFingerprint := "";
                            rf_snapshot := (cl_activeGraph cl, pr_fingerprint p); rf_loadedFingerprints := ∅; rf_resultByNodeId := ∅ |};
              su_view := {| vw_nodes := nodes; vw_ownRun := None; vw_ownRunStatus := None; vw_announcement := ""; vw_activeRuns := [];
                            vw_instanceStates := ∅; vw_resultByNodeId := ∅; vw_runError := None |};
              su_requests := [] |} in
  let s := openGraph cl s in
  let s := when (pr_roomConnected p && negb (bool_decide (pr_roomInstancesRevision p = 0)) && hasGraphKey cl) (publishInstances cl None) s in
  when (pr_roomConnected p && negb (bool_decide (pr_roomRunsRevision p = 0))) (refreshActiveRuns cl) s.


(** ** The Runs listed *)

Definition summaryOfTarget (t : RunTargetInput) : RunTarget := {| t_node_id := t.1; t_call_path := t.2 |}.

(** [Map.set] on entries in insertion order, when the key is not there yet. *)
Definition addSummary (summary : ActiveRunSummary) (summaries : list ActiveRunSummary) : list ActiveRunSummary :=
  if bool_decide (r_run_id summary ∈ r_run_id <$> summaries) then summaries else summaries ++ [summary].

(** [Map.set]: a key that is there keeps its place and takes the new value. *)
Definition setSummary (summary : ActiveRunSummary) (summaries : list ActiveRunSummary) : list ActiveRunSummary :=
  if bool_decide (r_run_id summary ∈ r_run_id <$> summaries)
  then (λ r, if bool_decide (r_run_id r = r_run_id summary) then summary else r) <$> summaries
  else summaries ++ [summary].

Definition runSummary (run : Run) : ActiveRunSummary :=
  {| r_run_id := run_id run; r_graph_id := run_graph_id run; r_targets := summaryOfTarget <$> run_targets run; r_starter := None;
     r_started_at := run_created_at run; r_cancellable := true |}.

Definition ownSummary (now : string) (pending : OwnRunState) : ActiveRunSummary :=
  {| r_run_id := or_runId pending; r_graph_id := or_graphId pending; r_targets := summaryOfTarget <$> or_targets pending; r_starter := None;
     r_started_at := now; r_cancellable := true |}.

Definition visibleActiveRuns (now : string) (roomActiveRuns : option (list ActiveRunSummary)) (activeRuns : list Run)
    (ownRun : option OwnRunState) : list ActiveRunSummary :=
  let summaries := foldl (λ l run, setSummary run l) [] (default [] roomActiveRuns) in
  let summaries := foldl (λ l run, addSummary (runSummary run) l) summaries activeRuns in
  match ownRun with Some pending => addSummary (ownSummary now pending) summaries | None => summaries end.

(** ** What most operations leave alone *)

Record frame (s s' : Surface) : Prop := {
  fr_props : su_props s' = su_props s;
  fr_refs : su_refs s' = su_refs s;
  fr_ownRun : vw_ownRun (su_view s') = vw_ownRun (su_view s);
  fr_states : vw_instanceStates (su_view s') = vw_instanceStates (su_view s)
}.

#[local] Instance frame_preorder : PreOrder frame.
Proof. split; [by intros s|]. intros s1 s2 s3 [] []. split; congruence. Qed.

Lemma frame_finishSettle a s : frame s (finishSettle a s).
Proof. unfold finishSettle. by repeat case_match. Qed.

Lemma frame_continueWith a s : frame s (continueWith a s).
Proof. destruct a; [apply frame_finishSettle|done]. Qed.

Lemma frame_publish cl a s : frame s (publishInstances cl a s).
Proof. unfold publishInstances. repeat case_match; [done|apply frame_continueWith..]. Qed.

Lemma frame_refreshActiveRuns cl s : frame s (refreshActiveRuns cl s).
Proof. unfold refreshActiveRuns. by case_match. Qed.

Lemma frame_settle cl s : frame s (settleOwnRun cl s).
Proof. unfold settleOwnRun. by repeat case_match. Qed.

Lemma frame_refresh cl s : frame s (refresh cl s).
Proof. unfold refresh. etrans; [etrans; [apply frame_publish|apply frame_refreshActiveRuns]|apply frame_settle]. Qed.

Lemma frame_cancel s : frame s (cancelCurrentRun s).
Proof. unfold cancelCurrentRun. by repeat case_match. Qed.

Lemma frame_run scope s : frame s (runWorkflow scope s).
Proof. unfold runWorkflow. by repeat case_match. Qed.

Lemma frame_answerActiveRuns a s : frame s (answerActiveRuns a s).
Proof. unfold answerActiveRuns. by repeat case_match. Qed.

Lemma frame_answerCancel cl a s : frame s (answerCancel cl a s).
Proof. unfold answerCancel. repeat case_match; try done. etrans; [|apply frame_refreshActiveRuns]. done. Qed.

Lemma frame_when b f s : (∀ s, frame s (f s)) → frame s (when b f s).
Proof. intros Hf. by destruct b. Qed.

Lemma answerInstances_cases graph generation loaded after a s :
  frame s (answerInstances graph generation loaded after a s) ∨
  ∃ snapshot, a = an_instances snapshot ∧ stillCurrent graph generation s = true ∧
              frame (applySnapshot loaded snapshot s) (answerInstances graph generation loaded after a s).
Proof.
  unfold answerInstances. destruct a as [snapshot|runs|run|e].
  2,3: left; apply frame_continueWith.
  - destruct (stillCurrent graph generation s) eqn:Hs; [|left; apply frame_continueWith].
    right. exists snapshot. split_and!; [done..|]. apply frame_continueWith.
  - left. etrans; [|apply frame_continueWith]. by case_match.
Qed.

(** What a new Graph or a render leaves of the own Run. *)
Record keeps_own (s s' : Surface) : Prop := {
  ko_own : rf_own (su_refs s') = rf_own (su_refs s);
  ko_ownRun : vw_ownRun (su_view s') = vw_ownRun (su_view s);
  ko_mounted : rf_mounted (su_refs s') = rf_mounted (su_refs s)
}.

Lemma frame_keeps_own s s' : frame s s' → keeps_own s s'.
Proof. intros [? Hr ? ?]. split; by rewrite ?Hr. Qed.

Lemma openGraph_spec cl s :
  su_props (openGraph cl s) = su_props s ∧ rf_snapshot (su_refs (openGraph cl s)) = rf_snapshot (su_refs s) ∧
  vw_instanceStates (su_view (openGraph cl s)) = ∅ ∧ keeps_own s (openGraph cl s).
Proof.
  unfold openGraph. set (s1 := with_view _ _).
  assert (frame s1 (if hasGraphKey cl then refreshActiveRuns cl (publishInstances cl None s1) else s1)) as [Hp Hr Ho Hs].
  { case_match; [|done]. etrans; [apply frame_publish|apply frame_refreshActiveRuns]. }
  rewrite Hp, Hs. split_and!; [done|by rewrite Hr|done|]. by split; rewrite ?Hr, ?Ho.
Qed.

Lemma render_spec p nodes s :
  su_props (render p nodes s) = p ∧ keeps_own s (render p nodes s) ∧
  rf_snapshot (su_refs (render p nodes s)) = (cl_activeGraph (pr_closure p), pr_fingerprint p) ∧
  vw_instanceStates (su_view (render p nodes s)) =
    if bool_decide (pr_closure (su_props s) = pr_closure p) then vw_instanceStates (su_view s) else ∅.
Proof.
  unfold render. cbv zeta. set (s0 := Build_Surface p _ _ _). set (moved := negb (bool_decide (pr_closure (su_props s) = pr_closure p))).
  set (s1 := when moved (openGraph (pr_closure p)) s0).
  assert (su_props s1 = p ∧ rf_snapshot (su_refs s1) = (cl_activeGraph (pr_closure p), pr_fingerprint p) ∧ keeps_own s s1 ∧
          vw_instanceStates (su_view s1) = if bool_decide (pr_closure (su_props s) = pr_closure p) then vw_instanceStates (su_view s) else ∅)
    as (Hp1 & Hn1 & [Hk1 Hk2 Hk3] & Hi1).
  { unfold s1, moved. case_bool_decide as Heq; [done|]. cbn [negb when].
    destruct (openGraph_spec (pr_closure p) s0) as (-> & -> & -> & Hk). split_and!; [done..| |done]. by destruct Hk; split. }
  match goal with |- su_props ?x = _ ∧ _ => assert (frame s1 x) as [Hp Hr Ho Hs] end.
  { etrans; [etrans; [apply frame_when; intros; apply frame_publish|apply frame_when; intros; apply frame_refreshActiveRuns]|].
    apply frame_when. intros. apply frame_settle. }
  rewrite Hp, Hr, Hs. split_and!; [done| |done|done]. split; by rewrite ?Hr, ?Ho.
Qed.

Lemma taken_keeps_own k s s' : keeps_own (take_request k s) s' → keeps_own s s'.
Proof. intros []. by split. Qed.

(** ** The own Run *)

Definition own_agrees (s : Surface) : Prop := rf_mounted (su_refs s) = true → vw_ownRun (su_view s) = rf_own (su_refs s).

Lemma keeps_agrees s s' : keeps_own s s' → own_agrees s → own_agrees s'.
Proof. intros [H1 H2 H3] Hag Hm. rewrite H1, H2. apply Hag. congruence. Qed.

Lemma answerOwnRun_cases cl pending a s :
  keeps_own s (answerOwnRun cl pending a s) ∨
  (∃ run r, a = an_run run ∧ rf_own (su_refs s) = Some r ∧ or_runId r = or_runId pending ∧ isTerminalRunStatus (run_status run) = true) ∧
  keeps_own (with_view (set_ownRun None None) (with_refs (set_own None) s)) (answerOwnRun cl pending a s).
Proof.
  unfold answerOwnRun. destruct a as [snapshot|runs|run|e]; [by left..| |by left].
  destruct (rf_mounted (su_refs s)) eqn:Hm; [|by left]. cbn [negb orb]. case_bool_decide as Hid; [|by left]. cbn [negb].
  destruct (isTerminalRunStatus (run_status run)) eqn:Ht; [|by left]. cbn [negb]. right. split.
  - apply fmap_Some in Hid as (r & Hr & Hid). by exists run, r.
  - apply frame_keeps_own, frame_publish.
Qed.

Lemma answerStart_cases cl scope a s :
  keeps_own s (answerStart cl scope a s) ∨
  ∃ run pending, a = an_run run ∧ or_runId pending = run_id run ∧ rf_mounted (su_refs (answerStart cl scope a s)) = true ∧
    rf_own (su_refs (answerStart cl scope a s)) = Some pending ∧ vw_ownRun (su_view (answerStart cl scope a s)) = Some pending.
Proof.
  unfold answerStart. destruct (rf_mounted (su_refs s)) eqn:Hm; [|by left]. cbn [negb].
  destruct a as [snapshot|runs|run|e]; [by left..| |by left]. right. cbv zeta. set (pending := Build_OwnRunState _ _ _ _).
  set (s1 := with_view _ _). exists run, pending.
  assert (frame s1 (settleOwnRun (pr_closure (su_props s1)) (publishInstances cl None s1))) as [_ Hr Ho _].
  { etrans; [apply frame_publish|apply frame_settle]. }
  rewrite Hr, Ho. by split_and!.
Qed.

(** The Run of this tab is given up in no other way than these. *)
Inductive lets_go (s : Surface) (r : OwnRunState) : Event → Prop :=
| lets_go_settled k cl pending run :
    su_requests s !! k = Some (rq_ownRun cl pending) → or_runId pending = or_runId r → isTerminalRunStatus (run_status run) = true →
    lets_go s r (ev_answer k (an_run run))
| lets_go_replaced k cl scope targets run :
    su_requests s !! k = Some (rq_start cl scope targets) → lets_go s r (ev_answer k (an_run run))
| lets_go_unmounted : lets_go s r ev_unmount.

Lemma step_own e s :
  own_agrees s → own_agrees (step e s) ∧
  ∀ r, rf_own (su_refs s) = Some r → rf_own (su_refs (step e s)) = Some r ∨ lets_go s r e.
Proof.
  intros Hag. assert (∀ s', keeps_own s s' → own_agrees s' ∧
    ∀ r, rf_own (su_refs s) = Some r → rf_own (su_refs s') = Some r ∨ lets_go s r e) as Hkeep.
  { intros s' Hk. split; [by eapply keeps_agrees|]. intros r. destruct Hk as [-> _ _]. by left. }
  destruct e as [p nodes|scope| | | |k a|]; cbn [step].
  - destruct (rf_mounted _); apply Hkeep; [apply render_spec|done].
  - apply Hkeep, frame_keeps_own, frame_run.
  - apply Hkeep, frame_keeps_own, frame_cancel.
  - apply Hkeep, frame_keeps_own, frame_refresh.
  - case_match; [apply Hkeep, frame_keeps_own, frame_refresh|by apply Hkeep].
  - destruct (su_requests s !! k) as [q|] eqn:Hq; [|by apply Hkeep]. destruct q as [cl graph gen loaded after| |cl pending|cl scope targets|cl pending]; cbn [answer].
    + apply Hkeep, (taken_keeps_own k).
      destruct (answerInstances_cases graph gen loaded after a (take_request k s)) as [Hf|(snapshot & _ & _ & Hf)]; apply frame_keeps_own in Hf; [done|].
      destruct Hf as [H1 H2 H3]. split; by rewrite ?H1, ?H2, ?H3.
    + apply Hkeep, (taken_keeps_own k), frame_keeps_own, frame_answerActiveRuns.
    + destruct (answerOwnRun_cases cl pending a (take_request k s)) as [Hk|[(run & r & -> & Hr & Hid & Ht) [H1 H2 H3]]]; [by apply Hkeep, (taken_keeps_own k)|].
      split; [intros _; by rewrite H1, H2|]. intros r' Hr'. right. cbn in Hr. rewrite Hr in Hr'. injection Hr' as <-. by eapply lets_go_settled.
    + destruct (answerStart_cases cl scope a (take_request k s)) as [Hk|(run & pending & -> & _ & Hm & Ho & Hv)]; [by apply Hkeep, (taken_keeps_own k)|].
      split; [intros _; congruence|]. intros r _. right. by eapply lets_go_replaced.
    + apply Hkeep, (taken_keeps_own k), frame_keeps_own, frame_answerCancel.
  - split; [done|]. intros r _. right. constructor.
Qed.

Lemma mount_frame p nodes : ∃ s0, frame (openGraph (pr_closure p) s0) (mount p nodes) ∧ su_props s0 = p ∧
  rf_own (su_refs s0) = None ∧ vw_ownRun (su_view s0) = None ∧ (rf_snapshot (su_refs s0)).1 = cl_activeGraph (pr_closure p).
Proof.
  unfold mount. cbv zeta. set (s0 := Build_Surface p _ _ _). exists s0. split_and!; [|done..].
  etrans; apply frame_when; intros; [apply frame_publish|apply frame_refreshActiveRuns].
Qed.

(** What the canvas shows as this tab's Run is what the tab holds on to, for every
    order of clicks, answers and renders; and it is let go only by a read of that very
    Run that says it ended, by the answer to a start, or when the tab closes: an
    answer about another Run, a failed read, a room push or a move to another Graph
    never drops it. *)
Theorem own_run_is_kept_until_it_ends p nodes events :
  let s := steps events (mount p nodes) in
  own_agrees s ∧
  ∀ e r, rf_own (su_refs s) = Some r → rf_own (su_refs (step e s)) = Some r ∨ lets_go s r e.
Proof.
  cbv zeta. assert (own_agrees (steps events (mount p nodes))) as Hag; [|split; [done|intros e; by apply step_own]].
  induction events as [|e events IH] using rev_ind.
  - destruct (mount_frame p nodes) as (s0 & [_ Hr Ho _] & _ & H1 & H2 & _). unfold own_agrees. cbn [steps foldl].
    rewrite Hr, Ho. destruct (openGraph_spec (pr_closure p) s0) as (_ & _ & _ & [Ho1 Ho2 _]). intros _. congruence.
  - unfold steps in *. rewrite foldl_app. cbn [foldl]. by apply step_own.
Qed.

(** ** The instance states shown *)

Definition snapshot_agrees (s : Surface) : Prop := (rf_snapshot (su_refs s)).1 = cl_activeGraph (pr_closure (su_props s)).

(** What does not touch the instance states shown or what they are compared with. *)
Record keeps_shown (s s' : Surface) : Prop := {
  ks_props : su_props s' = su_props s;
  ks_snapshot : rf_snapshot (su_refs s') = rf_snapshot (su_refs s);
  ks_states : vw_instanceStates (su_view s') = vw_instanceStates (su_view s)
}.

Lemma frame_keeps_shown s0 s s' : keeps_shown s0 s → frame s s' → keeps_shown s0 s'.
Proof. intros [] [? Hr ? ?]. split; rewrite ?Hr; congruence. Qed.

Lemma answerOwnRun_shown cl pending a s : keeps_shown s (answerOwnRun cl pending a s).
Proof. unfold answerOwnRun. repeat case_match; try done. eapply frame_keeps_shown; [|apply frame_publish]. done. Qed.

Lemma answerStart_shown cl scope a s : keeps_shown s (answerStart cl scope a s).
Proof.
  unfold answerStart. repeat case_match; try done. eapply frame_keeps_shown; [|apply frame_settle].
  eapply frame_keeps_shown; [|apply frame_publish]. done.
Qed.

(** The snapshot of a request is published: the Graph it was read for is the one on
    the canvas, at the same revision. *)
Definition publishes (s s' : Surface) (e : Event) : Prop :=
  ∃ k snapshot cl graph generation loaded after current,
    e = ev_answer k (an_instances snapshot) ∧ su_requests s !! k = Some (rq_instances cl graph generation loaded after) ∧
    generation = rf_generation (su_refs s) ∧
    cl_activeGraph (pr_closure (su_props s)) = Some current ∧ ag_graphId current = ag_graphId graph ∧ ag_revision current = ag_revision graph ∧
    vw_instanceStates (su_view s') = i_state <$> instanceStateByNodeId (sn_instances snapshot).

Lemma stillCurrent_spec graph generation s :
  stillCurrent graph generation s = true → generation = rf_generation (su_refs s) ∧
  ∃ current, (rf_snapshot (su_refs s)).1 = Some current ∧ ag_graphId current = ag_graphId graph ∧ ag_revision current = ag_revision graph.
Proof.
  unfold stillCurrent. rewrite !andb_true_iff, bool_decide_eq_true. intros [[_ Hg] Hc]. split; [done|].
  destruct (rf_snapshot (su_refs s)).1 as [current|]; [|done]. apply andb_true_iff in Hc as [H1 H2].
  apply bool_decide_eq_true in H1, H2. by exists current.
Qed.

Lemma step_shown e s :
  snapshot_agrees s → snapshot_agrees (step e s) ∧
  (vw_instanceStates (su_view (step e s)) = ∅ ∨
   pr_closure (su_props (step e s)) = pr_closure (su_props s) ∧
   (vw_instanceStates (su_view (step e s)) = vw_instanceStates (su_view s) ∨ publishes s (step e s) e)).
Proof.
  intros Hag. assert (∀ s', keeps_shown s s' → snapshot_agrees s' ∧
    (vw_instanceStates (su_view s') = ∅ ∨ pr_closure (su_props s') = pr_closure (su_props s) ∧
     (vw_instanceStates (su_view s') = vw_instanceStates (su_view s) ∨ publishes s s' e))) as Hkeep.
  { intros s' [Hp Hs Hi]. unfold snapshot_agrees. rewrite Hp, Hs, Hi. split; [done|]. right. split; [done|by left]. }
  assert (∀ s', frame s s' → keeps_shown s s') as Hframe by (intros s'; by apply frame_keeps_shown).
  destruct e as [p nodes|scope| | | |k a|]; cbn [step].
  - destruct (rf_mounted _); [|by apply Hkeep]. destruct (render_spec p nodes s) as (Hp & _ & Hn & Hi).
    unfold snapshot_agrees. rewrite Hp, Hn, Hi. split; [done|]. case_bool_decide as Heq; [|by left]. right. split; [done|by left].
  - apply Hkeep, Hframe, frame_run.
  - apply Hkeep, Hframe, frame_cancel.
  - apply Hkeep, Hframe, frame_refresh.
  - case_match; apply Hkeep, Hframe; [apply frame_refresh|done].
  - destruct (su_requests s !! k) as [q|] eqn:Hq; [|by apply Hkeep].
    assert (∀ s', keeps_shown (take_request k s) s' → keeps_shown s s') as Htake by (intros s' []; by split).
    destruct q as [cl graph gen loaded after| |cl pending|cl scope targets|cl pending]; cbn [answer].
    + destruct (answerInstances_cases graph gen loaded after a (take_request k s)) as [Hf|(snapshot & -> & Hcur & Hf)].
      { apply Hkeep, Htake. eapply frame_keeps_shown; [|done]. done. }
      apply stillCurrent_spec in Hcur as (Hgen & current & Hc & Hid & Hrev). destruct Hf as [Hp Hr _ Hi].
      split; [unfold snapshot_agrees; by rewrite Hp, Hr|]. right. split; [by rewrite Hp|]. right.
      exists k, snapshot, cl, graph, gen, loaded, after, current. split_and!; [done..| |done|done|by rewrite Hi].
      unfold snapshot_agrees in Hag. by rewrite <- Hag.
    + apply Hkeep, Htake. eapply frame_keeps_shown; [|apply frame_answerActiveRuns]. done.
    + apply Hkeep, Htake, answerOwnRun_shown.
    + apply Hkeep, Htake, answerStart_shown.
    + apply Hkeep, Htake. eapply frame_keeps_shown; [|apply frame_answerCancel]. done.
  - by apply Hkeep.
Qed.

(** What is shown was published by an answer, and the Graph and Project have not changed since. *)
Lemma shown_was_published p nodes events :
  let s := steps events (mount p nodes) in
  vw_instanceStates (su_view s) = ∅ ∨
  ∃ before e after,
    events = before ++ e :: after ∧
    publishes (steps before (mount p nodes)) s e ∧
    ∀ l1 l2, after = l1 ++ l2 → pr_closure (su_props (steps (before ++ e :: l1) (mount p nodes))) = pr_closure (su_props (steps before (mount p nodes))).
Proof.
  cbv zeta. assert (snapshot_agrees (steps events (mount p nodes)) ∧ (vw_instanceStates (su_view (steps events (mount p nodes))) = ∅ ∨
  ∃ before e after, events = before ++ e :: after ∧ publishes (steps before (mount p nodes)) (steps events (mount p nodes)) e ∧
    ∀ l1 l2, after = l1 ++ l2 → pr_closure (su_props (steps (before ++ e :: l1) (mount p nodes))) =
                                pr_closure (su_props (steps before (mount p nodes))))) as [_ H]; [|done].
  assert (∀ l e s, steps (l ++ [e]) s = step e (steps l s)) as Hsnoc.
  { intros l e s. unfold steps. by rewrite foldl_app. }
  induction events as [|e events [Hag IH]] using rev_ind.
  { destruct (mount_frame p nodes) as (s0 & [Hp Hr _ Hi] & H0 & _ & _ & H1). destruct (openGraph_spec (pr_closure p) s0) as (Hop & Hos & Hoi & _).
    cbn [steps foldl]. split; [|left; by rewrite Hi]. unfold snapshot_agrees. by rewrite Hp, Hr, Hos, Hop, H0. }
  rewrite Hsnoc. destruct (step_shown e _ Hag) as [Hag' [Hnone|[Hcl [Hsame|Hpub]]]]; (split; [done|]).
  - by left.
  - destruct IH as [Hnone|(before & e0 & after & -> & Hpub & Hsince)]; [left; congruence|]. right.
    exists before, e0, (after ++ [e]). split_and!; [by rewrite <- (assoc_L (++))| |].
    + destruct Hpub as (k & sn & cl & g & gen & ld & aft & cur & ? & ? & ? & ? & ? & ? & Hst). exists k, sn, cl, g, gen, ld, aft, cur.
      split_and!; [done..|congruence].
    + intros l1 l2 Hl. destruct l2 as [|x l2 _] using rev_ind.
      * rewrite app_nil_r in Hl. subst l1. rewrite app_comm_cons, (assoc_L (++)), Hsnoc, Hcl. apply (Hsince after []). by rewrite app_nil_r.
      * rewrite (assoc_L (++)) in Hl. apply app_inj_tail in Hl as [Hl _]. by eapply Hsince.
  - right. exists events, e, []. split_and!; [done|done|]. intros l1 l2 Hl. symmetry in Hl. apply app_nil in Hl as [-> ->].
    rewrite Hsnoc. done.
Qed.

(** Requests carry the generation they were sent in, which a change of the Graph or Project
    ends, and a Run that starts. *)
Definition requests_old (s : Surface) : Prop :=
  ∀ cl graph generation loaded after, rq_instances cl graph generation loaded after ∈ su_requests s → generation ≤ rf_generation (su_refs s).

Lemma old_same_requests s s' : su_requests s' = su_requests s → rf_generation (su_refs s) ≤ rf_generation (su_refs s') → requests_old s → requests_old s'.
Proof. intros Hq Hg Ho cl graph gen loaded after. rewrite Hq. intros H%Ho. lia. Qed.

Lemma old_send q s : (∀ cl graph generation loaded after, q = rq_instances cl graph generation loaded after → generation ≤ rf_generation (su_refs s)) → requests_old s → requests_old (send q s).
Proof. intros Hq Ho cl graph gen loaded after. cbn. intros [H%Ho|H%list_elem_of_singleton]%elem_of_app; [done|]. by eapply Hq. Qed.

Lemma old_finishSettle a s : requests_old s → requests_old (finishSettle a s).
Proof. intros Ho. unfold finishSettle. by repeat case_match. Qed.

Lemma old_publish cl a s : requests_old s → requests_old (publishInstances cl a s).
Proof.
  intros Ho. unfold publishInstances, continueWith. repeat case_match; try done; try by apply old_finishSettle. apply old_send; [|done]. intros. simplify_eq. done.
Qed.

Lemma old_refreshActiveRuns cl s : requests_old s → requests_old (refreshActiveRuns cl s).
Proof. intros Ho. unfold refreshActiveRuns. case_match; [|done]. by apply old_send. Qed.

Lemma old_settle cl s : requests_old s → requests_old (settleOwnRun cl s).
Proof. intros Ho. unfold settleOwnRun. repeat case_match; try done. by apply old_send. Qed.

Lemma old_refresh cl s : requests_old s → requests_old (refresh cl s).
Proof. intros Ho. by apply old_settle, old_refreshActiveRuns, old_publish. Qed.

Lemma old_when b f s : (∀ s, requests_old s → requests_old (f s)) → requests_old s → requests_old (when b f s).
Proof. intros Hf Ho. destruct b; [by apply Hf|done]. Qed.

Lemma old_openGraph cl s : requests_old s → requests_old (openGraph cl s).
Proof.
  intros Ho. unfold openGraph. set (s1 := with_view _ _). assert (requests_old s1) as H1 by (eapply (old_same_requests s); [done|cbn; lia|done]).
  case_match; [|done]. by apply old_refreshActiveRuns, old_publish.
Qed.

Lemma old_take k s : requests_old s → requests_old (take_request k s).
Proof. intros Ho cl graph gen loaded after H. eapply Ho. cbn in H. by eapply elem_of_submseteq, submseteq_delete. Qed.

#[local] Hint Resolve old_publish old_refreshActiveRuns old_settle old_refresh old_openGraph old_take old_finishSettle : old_requests.

Lemma old_run scope s : requests_old s → requests_old (runWorkflow scope s).
Proof. intros Ho. unfold runWorkflow. repeat case_match; try done. by apply old_send. Qed.

Lemma old_answer q a s : requests_old s → requests_old (answer q a s).
Proof.
  intros Ho. destruct q as [cl graph gen loaded after| |cl pending|cl scope targets|cl pending]; cbn [answer].
  - unfold answerInstances, continueWith. assert (∀ s', requests_old s' → requests_old (match after with Some x => finishSettle x s' | None => s' end)) as Hc by (intros; case_match; auto with old_requests).
    apply Hc. by repeat case_match.
  - unfold answerActiveRuns. by repeat case_match.
  - unfold answerOwnRun. repeat case_match; try done. apply old_publish. done.
  - unfold answerStart. repeat case_match; try done. apply old_settle, old_publish. eapply (old_same_requests s); [done|cbn; lia|done].
  - unfold answerCancel. repeat case_match; try done. apply old_refreshActiveRuns. done.
Qed.

Lemma old_render p nodes s : requests_old s → requests_old (render p nodes s).
Proof. intros Ho. unfold render. cbv zeta. repeat (apply old_when; [auto with old_requests|]). done. Qed.

Lemma old_step e s : requests_old s → requests_old (step e s).
Proof.
  intros Ho. destruct e as [p nodes|scope| | | |k a|]; cbn [step]; try (case_match; try done); auto using old_render, old_run, old_answer with old_requests.
  unfold cancelCurrentRun. repeat case_match; try done. by apply old_send.
Qed.

Lemma frame_generation s s' : frame s s' → rf_generation (su_refs s') = rf_generation (su_refs s).
Proof. by intros [_ -> _ _]. Qed.

Lemma openGraph_generation cl s : rf_generation (su_refs (openGraph cl s)) = S (rf_generation (su_refs s)).
Proof. unfold openGraph. set (s1 := with_view _ _). case_match; [|done]. etrans; [apply frame_generation; etrans; [apply frame_publish|apply frame_refreshActiveRuns]|done]. Qed.

Lemma render_generation p nodes s :
  rf_generation (su_refs (render p nodes s)) = rf_generation (su_refs s) + if bool_decide (pr_closure (su_props s) = pr_closure p) then 0 else 1.
Proof.
  unfold render. cbv zeta. set (s0 := Build_Surface p _ _ _). set (s1 := when _ (openGraph (pr_closure p)) s0).
  assert (rf_generation (su_refs s1) = rf_generation (su_refs s) + if bool_decide (pr_closure (su_props s) = pr_closure p) then 0 else 1) as <-.
  { unfold s1. case_bool_decide; cbn [negb when]; [cbn; lia|]. rewrite openGraph_generation. cbn. lia. }
  apply frame_generation. etrans; [etrans; [apply frame_when; intros; apply frame_publish|apply frame_when; intros; apply frame_refreshActiveRuns]|]. apply frame_when. intros. apply frame_settle.
Qed.

Lemma answer_generation q a s : rf_generation (su_refs s) ≤ rf_generation (su_refs (answer q a s)) ∧ su_props (answer q a s) = su_props s.
Proof.
  destruct q as [cl graph gen loaded after| |cl pending|cl scope targets|cl pending]; cbn [answer].
  - destruct (answerInstances_cases graph gen loaded after a s) as [H|(x & _ & _ & H)]; destruct H as [-> -> _ _]; (split; [cbn; lia|done]).
  - by destruct (frame_answerActiveRuns a s) as [-> -> _ _].
  - split; [|apply answerOwnRun_shown]. unfold answerOwnRun. repeat case_match; try (cbn; lia). by rewrite (frame_generation _ _ (frame_publish _ _ _)).
  - split; [|apply answerStart_shown]. unfold answerStart. repeat case_match; try (cbn; lia). rewrite (frame_generation _ _ (frame_settle _ _)), (frame_generation _ _ (frame_publish _ _ _)). cbn. lia.
  - by destruct (frame_answerCancel cl a s) as [-> -> _ _].
Qed.

Lemma step_generation e s : rf_generation (su_refs s) ≤ rf_generation (su_refs (step e s)) ∧
  (rf_generation (su_refs (step e s)) = rf_generation (su_refs s) → pr_closure (su_props (step e s)) = pr_closure (su_props s)).
Proof.
  assert (∀ s', frame s s' → rf_generation (su_refs s) ≤ rf_generation (su_refs s') ∧ (rf_generation (su_refs s') = rf_generation (su_refs s) → pr_closure (su_props s') = pr_closure (su_props s))) as Hf
    by (intros s' [-> -> _ _]; done).
  destruct e as [p nodes|scope| | | |k a|]; cbn [step].
  - case_match; [|done]. rewrite render_generation. destruct (render_spec p nodes s) as (-> & _). case_bool_decide as E; [split; [lia|done]|lia].
  - apply Hf, frame_run.
  - apply Hf, frame_cancel.
  - apply Hf, frame_refresh.
  - case_match; [apply Hf, frame_refresh|done].
  - case_match; [|done]. match goal with |- context [answer ?q a ?x] => destruct (answer_generation q a x) as [? ->] end. done.
  - done.
Qed.

Lemma steps_snoc l e s : steps (l ++ [e]) s = step e (steps l s).
Proof. unfold steps. by rewrite foldl_app. Qed.

Lemma steps_app l l' s : steps (l ++ l') s = steps l' (steps l s).
Proof. unfold steps. by rewrite foldl_app. Qed.

Lemma steps_generation l s : rf_generation (su_refs s) ≤ rf_generation (su_refs (steps l s)) ∧
  (rf_generation (su_refs (steps l s)) = rf_generation (su_refs s) → pr_closure (su_props (steps l s)) = pr_closure (su_props s)).
Proof.
  induction l as [|e l [IH1 IH2]] using rev_ind; [done|]. rewrite steps_snoc. destruct (step_generation e (steps l s)) as [H1 H2]. split; [lia|].
  intros Hg. rewrite H2 by lia. apply IH2. lia.
Qed.

Lemma steps_old l s : requests_old s → requests_old (steps l s).
Proof. intros Ho. induction l as [|e l IH] using rev_ind; [done|]. rewrite steps_snoc. by apply old_step. Qed.

Lemma mount_old p nodes : requests_old (mount p nodes).
Proof. unfold mount. cbv zeta. repeat (apply old_when; [auto with old_requests|]). apply old_openGraph. intros ? ? ? ? ? H. by apply elem_of_nil in H. Qed.

(** Since a request of the generation that is current was sent, the Graph and the Project have not
    changed. *)
Lemma current_request_is_of_this_opening asked since s cl graph loaded after : requests_old s →
  rq_instances cl graph (rf_generation (su_refs (steps (asked ++ since) s))) loaded after ∈ su_requests (steps asked s) →
  ∀ l1 l2, since = l1 ++ l2 → pr_closure (su_props (steps (asked ++ l1) s)) = pr_closure (su_props (steps (asked ++ since) s)).
Proof.
  intros Ho Hq l1 l2 ->. pose proof (steps_old asked s Ho _ _ _ _ _ Hq) as Hle. rewrite (assoc_L (++)), steps_app, !steps_app in *.
  destruct (steps_generation l1 (steps asked s)) as [H1 H2], (steps_generation l2 (steps l1 (steps asked s))) as [H3 H4]. symmetry. apply H4. lia.
Qed.

(** C8: the states a canvas shows are those of the Graph it is open on: as soon as the
    Graph or Project changes nothing is shown, and what is shown later is one answer of
    the server, to a request for the same Graph at the same revision; the Graph and the
    Project did not change from when that request was sent to when it was answered, nor
    since then; so an answer to a request that a change has overtaken is never shown, not
    even when the Graph it is about was opened again. *)
Theorem shown_states_are_of_the_open_graph p nodes events :
  let at_ l := steps l (mount p nodes) in
  vw_instanceStates (su_view (at_ events)) = ∅ ∨
  ∃ before k snapshot after cl graph generation loaded settled current,
    let q := rq_instances cl graph generation loaded settled in
    events = before ++ ev_answer k (an_instances snapshot) :: after ∧
    su_requests (at_ before) !! k = Some q ∧
    vw_instanceStates (su_view (at_ events)) = i_state <$> instanceStateByNodeId (sn_instances snapshot) ∧
    cl_activeGraph (pr_closure (su_props (at_ events))) = Some current ∧
    ag_graphId current = ag_graphId graph ∧ ag_revision current = ag_revision graph ∧
    (∀ asked since l1 l2, before = asked ++ since → q ∈ su_requests (at_ asked) → since = l1 ++ l2 →
       pr_closure (su_props (at_ (asked ++ l1))) = pr_closure (su_props (at_ events))) ∧
    (∀ l1 l2, after = l1 ++ l2 → pr_closure (su_props (at_ (before ++ ev_answer k (an_instances snapshot) :: l1))) = pr_closure (su_props (at_ events))).
Proof.
  cbv zeta. destruct (shown_was_published p nodes events) as [H|(before & e & after & He & Hpub & Hsince)]; [by left|right].
  destruct Hpub as (k & snapshot & cl & graph & gen & loaded & settled & current & -> & Hq & -> & Hcur & Hid & Hrev & Hst).
  assert (pr_closure (su_props (steps events (mount p nodes))) = pr_closure (su_props (steps before (mount p nodes)))) as Hnow.
  { rewrite He. apply (Hsince after []). by rewrite app_nil_r. }
  exists before, k, snapshot, after, cl, graph, (rf_generation (su_refs (steps before (mount p nodes)))), loaded, settled, current. rewrite Hnow. split_and!; try done.
  intros asked since l1 l2 Hb Hout Hl. rewrite Hb in Hout |- *. eapply current_request_is_of_this_opening; [apply mount_old|exact Hout|exact Hl].
Qed.

(** ** Starting *)

(** The stored secret is the one the saved Graph binds, and it is there. *)
Definition secret_ready (p : Props) (graph : ActiveSavedGraph) (n : WorkflowNode) (i : WorkflowNodeSecretInput) : Prop :=
  pr_canRunSavedGraph p = true ∧
  nodeSecretBindingReady numberText i (currentBinding n)
    (savedBinding <$> find (λ candidate, bool_decide (n_id candidate = wn_id n)) (ag_nodes graph)) = true ∧
  ss_state <$> (pr_nodeSecretStatuses p !! wn_id n ≫= λ m, m !! si_name i) = Some secret_configured.

Lemma backed_elem nodes n inputs :
  (n, inputs) ∈ secretBackedNodes nodes ↔ n ∈ nodes ∧ inputs = nodeSecretInputs (wn_spec n) ∧ inputs ≠ [].
Proof.
  unfold secretBackedNodes. rewrite list_elem_of_filter, list_elem_of_fmap. cbn. split.
  - intros (Hne & m & [= -> ->] & Hm). done.
  - intros (Hn & -> & Hne). split; [done|]. by exists n.
Qed.

Lemma changedBinding_None graph l : changedBinding graph l = None ↔ ∀ ni, ni ∈ l → changedInput graph ni = None.
Proof.
  induction l as [|ni l IH]; cbn [changedBinding]; [by split; [intros _ ni ?%elem_of_nil|]|]. setoid_rewrite elem_of_cons.
  destruct (changedInput graph ni) as [c|] eqn:Hc; [split; [done|intros H; by rewrite H in Hc by by left]|].
  rewrite IH. split; [by intros H ni' [->|?]; [|apply H]|auto].
Qed.

Lemma secretRefusal_None p graph nodes :
  secretRefusal p graph nodes = None ↔
  ∀ n i, n ∈ nodes → i ∈ nodeSecretInputs (wn_spec n) → secret_ready p graph n i.
Proof.
  assert ((∀ n i, n ∈ nodes → i ∈ nodeSecretInputs (wn_spec n) → secret_ready p graph n i) ↔
          ∀ ni, ni ∈ secretBackedNodes nodes → ∀ i, i ∈ ni.2 → secret_ready p graph ni.1 i) as ->.
  { split.
    - intros H [n inputs] (Hn & -> & _)%backed_elem i Hi. by apply H.
    - intros H n i Hn Hi. apply (H (n, nodeSecretInputs (wn_spec n))); [|done]. apply backed_elem. split_and!; [done..|].
      intros Hnil. rewrite Hnil in Hi. by apply elem_of_nil in Hi. }
  unfold secretRefusal. cbv zeta. set (backed := secretBackedNodes nodes).
  assert (backed ≠ [] → ∃ ni i, ni ∈ backed ∧ i ∈ ni.2) as Hsome.
  { destruct backed as [|[n inputs] l] eqn:Hb; [done|]. intros _. assert ((n, inputs) ∈ secretBackedNodes nodes) as (_ & _ & Hne)%backed_elem.
    { fold backed. rewrite Hb. by left. }
    destruct inputs as [|i inputs]; [done|]. exists (n, i :: inputs), i. split; by left. }
  pose proof (changedBinding_None graph backed) as Hch. pose proof (find_None_forall (secretMissing (pr_nodeSecretStatuses p)) backed) as Hms.
  unfold changedInput in Hch. setoid_rewrite find_None_forall in Hch. setoid_rewrite negb_false_iff in Hch.
  assert (∀ ni, secretMissing (pr_nodeSecretStatuses p) ni = false ↔
    ∀ i, i ∈ ni.2 → ss_state <$> (pr_nodeSecretStatuses p !! wn_id ni.1 ≫= λ m, m !! si_name i) = Some secret_configured) as Hmiss.
  { intros ni. unfold secretMissing. rewrite <- not_true_iff_false, existsb_elem. split.
    - intros H i Hi. destruct (decide (ss_state <$> (pr_nodeSecretStatuses p !! wn_id ni.1 ≫= λ m, m !! si_name i) = Some secret_configured)) as [|Hne]; [done|].
      destruct H. exists i. by rewrite bool_decide_false.
    - intros H (i & Hi & Hb). by rewrite bool_decide_true in Hb by by apply H. }
  setoid_rewrite Hmiss in Hms. unfold secret_ready.
  destruct (pr_canRunSavedGraph p) eqn:Hrun; [rewrite andb_false_r|].
  - destruct (changedBinding graph backed) as [m|].
    { split; [done|]. intros H. apply Hch. intros ni Hni i Hi. by destruct (H ni Hni i Hi) as (_ & ? & _). }
    destruct (find _ backed) as [ni|].
    + split; [done|]. intros H. enough (Some ni = None) by done. apply Hms. intros ni' Hni i Hi. by destruct (H ni' Hni i Hi) as (_ & _ & ?).
    + split; [|done]. intros _ ni Hni i Hi. split_and!; [done|by apply Hch|by apply Hms].
  - destruct backed as [|ni0 l]; cbn [is_nil negb andb].
    + split; [by intros _ ni ?%elem_of_nil|done].
    + split; [done|]. intros H. destruct (Hsome ltac:(done)) as (ni & i & Hni & Hi). by destruct (H ni Hni i Hi) as [? _].
Qed.

(** A Run of the scope may be asked for. *)
Record may_run (scope : RunScope) (s : Surface) (project : string) (graph : ActiveSavedGraph) : Prop := {
  mr_registry : pr_registryAvailable (su_props s) = true;
  mr_own : rf_own (su_refs s) = None;
  mr_project : cl_projectId (pr_closure (su_props s)) = Some project ∧ project ≠ "";
  mr_graph : cl_activeGraph (pr_closure (su_props s)) = Some graph;
  mr_valid : let execution := executionSubgraphFor scope (vw_nodes (su_view s)) (pr_edges (su_props s)) in
             may_start numberText regExp (ex_nodes execution) (ex_edges execution) (pr_origins (su_props s));
  mr_secrets : ∀ n i, n ∈ ex_nodes (executionSubgraphFor scope (vw_nodes (su_view s)) (pr_edges (su_props s))) →
                      i ∈ nodeSecretInputs (wn_spec n) → secret_ready (su_props s) graph n i
}.

Lemma run_sends scope s :
  (∃ project graph, may_run scope s project graph) ∧
    runWorkflow scope s = send (rq_start (pr_closure (su_props s)) scope
        (runTargetsFor (executionSubgraphFor scope (vw_nodes (su_view s)) (pr_edges (su_props s)))))
      (with_view (λ v, set_announcement "" (set_runError None v)) s) ∨
  (¬ ∃ project graph, may_run scope s project graph) ∧ su_requests (runWorkflow scope s) = su_requests s.
Proof.
  unfold runWorkflow. cbv zeta. set (execution := executionSubgraphFor _ _ _).
  destruct (pr_registryAvailable (su_props s)) eqn:Hreg; cbn [negb orb]; [|right; split; [intros (? & ? & []); congruence|done]].
  case_bool_decide as Hown; [right; split; [intros (? & ? & []); destruct Hown; congruence|done]|].
  assert (rf_own (su_refs s) = None) as Hnone by (destruct (rf_own (su_refs s)); [by destruct Hown|done]).
  destruct (truthy (cl_projectId (pr_closure (su_props s)))) as [project|] eqn:Hp.
  2: { right. split; [|done]. intros (? & ? & [_ _ [Hp1 Hp2] _ _ _]). rewrite Hp1 in Hp. unfold truthy in Hp. cbn in Hp. by rewrite bool_decide_false in Hp. }
  assert (cl_projectId (pr_closure (su_props s)) = Some project ∧ project ≠ "") as Hproject.
  { unfold truthy in Hp. apply bind_Some in Hp as (x & -> & Hx). case_bool_decide; [done|]. by injection Hx as ->. }
  destruct (cl_activeGraph (pr_closure (su_props s))) as [graph|] eqn:Hg; [|right; split; [intros (? & ? & []); congruence|done]].
  pose proof (validation_passes numberText typeText regExp scope (ex_nodes execution) (ex_edges execution) (pr_origins (su_props s))) as Hv.
  pose proof (secretRefusal_None (su_props s) graph (ex_nodes execution)) as Hs.
  destruct (executionValidationIssue numberText typeText regExp scope _ _ _) as [problem|].
  { right. split; [intros (? & ? & [_ _ _ _ H _]); by apply Hv in H|]. by case_match. }
  destruct (secretRefusal (su_props s) graph (ex_nodes execution)) as [message|].
  { right. split; [|done]. intros (? & g & [_ _ _ Hg' _ H]). rewrite Hg in Hg'. injection Hg' as <-. by apply Hs in H. }
  left. split; [|done]. exists project, graph. split; [done..|by apply Hv|by apply Hs].
Qed.


Lemma answerStart_own cl scope run s :
  rf_mounted (su_refs s) = true →
  or_runId <$> rf_own (su_refs (answerStart cl scope (an_run run) s)) = Some (run_id run) ∧
  rf_mounted (su_refs (answerStart cl scope (an_run run) s)) = true ∧
  su_requests s `prefix_of` su_requests (answerStart cl scope (an_run run) s).
Proof.
  intros Hm. unfold answerStart. rewrite Hm. cbn [negb]. cbv zeta. set (s1 := with_view _ _).
  assert (frame s1 (settleOwnRun (pr_closure (su_props s1)) (publishInstances cl None s1))) as [_ Hr _ _].
  { etrans; [apply frame_publish|apply frame_settle]. }
  rewrite Hr. split_and!; [done|done|]. unfold settleOwnRun, publishInstances.
  repeat case_match; cbn; repeat first [done|apply prefix_app_r|eexists].
Qed.

(** The guard on the tab's own Run is read before the answer to the start sets it: two
    clicks in a row send two starts, and the second answer takes the place of the first,
    whose Run this tab then neither follows nor can cancel. *)
Lemma two_clicks_start_two_runs scope s project graph first second :
  may_run scope s project graph → rf_mounted (su_refs s) = true → su_requests s = [] →
  let q := rq_start (pr_closure (su_props s)) scope
      (runTargetsFor (executionSubgraphFor scope (vw_nodes (su_view s)) (pr_edges (su_props s)))) in
  let s2 := steps [ev_run scope; ev_run scope] s in
  su_requests s2 = [q; q] ∧
  or_runId <$> rf_own (su_refs (steps [ev_answer 0 (an_run first); ev_answer 0 (an_run second)] s2)) = Some (run_id second).
Proof.
  intros Hm Hmount Hq. cbv zeta. set (q := rq_start _ _ _).
  assert (steps [ev_run scope; ev_run scope] s =
          send q (with_view (λ v, set_announcement "" (set_runError None v)) (send q (with_view (λ v, set_announcement "" (set_runError None v)) s)))) as ->.
  { cbn [steps foldl step]. destruct (run_sends scope s) as [[_ H1]|[H1 _]]; [|by destruct H1; exists project, graph].
    rewrite H1. fold q. set (s1 := send q _). destruct (run_sends scope s1) as [[_ ->]|[H2 _]]; [done|].
    destruct H2. exists project, graph. by destruct Hm; split. }
  set (s2 := send q _). assert (su_requests s2 = [q; q]) as Hr2 by (cbn; by rewrite Hq). split; [done|].
  assert (rf_mounted (su_refs (take_request 0 s2)) = true) as Hm2 by done. clearbody s2.
  cbn [steps foldl step]. rewrite Hr2. cbn [lookup list_lookup].
  assert (∀ a t, answer q a t = answerStart (pr_closure (su_props s)) scope a t) as Hans by done. rewrite Hans.
  destruct (answerStart_own (pr_closure (su_props s)) scope first _ Hm2) as (_ & Hm3 & rest & Hr3).
  rewrite Hr3. cbn [take_request su_requests]. rewrite Hr2. cbn [delete list_delete app lookup list_lookup]. rewrite Hans.
  by apply answerStart_own.
Qed.

(** The answer to a cancellation sets the status of the own Run whatever Run the tab
    holds by then: one that was settled in between leaves a status without a Run. *)
Lemma cancel_answer_sets_any_status cl cancelled s :
  rf_mounted (su_refs s) = true →
  vw_ownRunStatus (su_view (answerCancel cl (an_run cancelled) s)) = Some (run_status cancelled) ∧
  vw_ownRun (su_view (answerCancel cl (an_run cancelled) s)) = vw_ownRun (su_view s).
Proof. intros Hm. unfold answerCancel, refreshActiveRuns. rewrite Hm. cbn [negb]. by destruct (truthy _). Qed.
End start.

(** ** The Runs listed *)

Lemma setSummary_ids summary l :
  r_run_id <$> setSummary summary l = if bool_decide (r_run_id summary ∈ r_run_id <$> l) then r_run_id <$> l else (r_run_id <$> l) ++ [r_run_id summary].
Proof.
  unfold setSummary. case_bool_decide as Hin; [|by rewrite fmap_app]. rewrite <- list_fmap_compose. apply list_fmap_ext.
  intros i r _. cbn. by case_bool_decide.
Qed.

Lemma addSummary_ids summary l :
  r_run_id <$> addSummary summary l = if bool_decide (r_run_id summary ∈ r_run_id <$> l) then r_run_id <$> l else (r_run_id <$> l) ++ [r_run_id summary].
Proof. unfold addSummary. case_bool_decide as Hin; [done|by rewrite fmap_app]. Qed.

(** Ids added to ids, each once and in order. *)
Definition add_id (l : list string) (i : string) : list string := if bool_decide (i ∈ l) then l else l ++ [i].

Lemma add_ids_spec l ks : NoDup l → NoDup (foldl add_id l ks) ∧ l `prefix_of` foldl add_id l ks ∧ ∀ i, i ∈ foldl add_id l ks ↔ i ∈ l ∨ i ∈ ks.
Proof.
  revert l. induction ks as [|k ks IH]; intros l Hl; cbn [foldl].
  { split_and!; [done..|]. intros i. rewrite elem_of_nil. tauto. }
  assert (NoDup (add_id l k) ∧ l `prefix_of` add_id l k ∧ ∀ i, i ∈ add_id l k ↔ i ∈ l ∨ i = k) as (Hnd & Hp & Hin).
  { unfold add_id. case_bool_decide as Hk; [split_and!; [done..|intros i; split; [by left|by intros [| ->]]]|]. split_and!; [|by apply prefix_app_r|].
    - apply NoDup_app. split_and!; [done| |apply NoDup_singleton]. by intros i Hi ->%list_elem_of_singleton.
    - intros i. by rewrite elem_of_app, list_elem_of_singleton. }
  destruct (IH _ Hnd) as (H1 & H2 & H3). split_and!; [done|by etrans|]. intros i. rewrite H3, Hin, elem_of_cons. tauto.
Qed.

Lemma visible_ids now room active own :
  r_run_id <$> visibleActiveRuns now room active own =
  foldl add_id (foldl add_id (foldl add_id [] (r_run_id <$> default [] room)) (run_id <$> active)) (or_runId <$> option_list own).
Proof.
  unfold visibleActiveRuns. cbv zeta.
  assert (∀ l0, r_run_id <$> foldl (λ l run, setSummary run l) l0 (default [] room) = foldl add_id (r_run_id <$> l0) (r_run_id <$> default [] room)) as Hroom.
  { induction (default [] room) as [|r l IH]; intros l0; [done|]. cbn [foldl fmap list_fmap]. rewrite IH, setSummary_ids. done. }
  assert (∀ l0, r_run_id <$> foldl (λ l run, addSummary (runSummary run) l) l0 active = foldl add_id (r_run_id <$> l0) (run_id <$> active)) as Hact.
  { induction active as [|r l IH]; intros l0; [done|]. cbn [foldl fmap list_fmap]. rewrite IH, addSummary_ids. done. }
  destruct own as [pending|]; cbn [option_list fmap list_fmap foldl]; rewrite ?addSummary_ids, ?Hact, ?Hroom; done.
Qed.

(** Every active Run of the Project is listed once: those of the room, those of the
    server's list and this tab's own; the room's Runs come first.  This tab's Run is not
    put first: one that nobody else lists yet comes last. *)
Theorem every_active_run_is_listed_once now room active own :
  let listed := r_run_id <$> visibleActiveRuns now room active own in
  NoDup listed ∧
  (∀ i, i ∈ listed ↔ i ∈ r_run_id <$> default [] room ∨ i ∈ run_id <$> active ∨ ∃ pending, own = Some pending ∧ or_runId pending = i) ∧
  foldl add_id [] (r_run_id <$> default [] room) `prefix_of` listed ∧
  (∀ pending, own = Some pending → or_runId pending ∉ r_run_id <$> default [] room → or_runId pending ∉ run_id <$> active →
     last listed = Some (or_runId pending)).
Proof.
  cbv zeta. rewrite visible_ids. set (l1 := foldl add_id [] _). set (l2 := foldl add_id l1 _).
  destruct (add_ids_spec [] (r_run_id <$> default [] room)) as (Hn1 & _ & H1); [constructor|]. fold l1 in Hn1, H1.
  destruct (add_ids_spec l1 (run_id <$> active) Hn1) as (Hn2 & Hp2 & H2). fold l2 in Hn2, Hp2, H2.
  destruct (add_ids_spec l2 (or_runId <$> option_list own) Hn2) as (Hn3 & Hp3 & H3).
  split_and!; [done| |by etrans|].
  - intros i. rewrite H3, H2, H1, elem_of_nil. destruct own as [pending|].
    + change (or_runId <$> option_list (Some pending)) with [or_runId pending]. rewrite list_elem_of_singleton.
      split; [intros [[[H|H]|H]|H]; [done|eauto..]|]. intros [H|[H|(x & Hx & H)]]; [eauto..|]. injection Hx as ->. eauto.
    + change (or_runId <$> option_list None) with (@nil string). rewrite elem_of_nil.
      split; [intros [[[H|H]|H]|H]; [done|eauto..|done]|]. intros [H|[H|(x & Hx & _)]]; [eauto..|done].
  - intros pending -> Hr Ha. change (last (add_id l2 (or_runId pending)) = Some (or_runId pending)). unfold add_id at 1.
    rewrite bool_decide_false, last_snoc; [done|].
    rewrite H2, H1, elem_of_nil. tauto.
Qed.
