(* ===== verification/CommandOutbox.v ===== *)
(** * The command outbox

    [room/command-outbox.ts]: the FIFO queue of command batches, the single batch
    in flight, the ids this client originated and the gate that pauses sending
    until a full head lands.

    The outbox never owns the head or the transport: what it reads through
    [headPointer()] and [canSend()] is the argument [Env] of each operation, and
    each operation returns the new outbox, the calls it makes (promises settled,
    driver callbacks) in order, and the frames to write. *)

From S2P Require Import Prelude Js GraphModel GraphCommands RoomBridge Protocol.
#[local] Open Scope nat_scope.

Record ProjectRoomHeadPointer := { hp_room_epoch : string; hp_collaboration_sequence : Z }.

Record ProjectCommandSubmitMessage := {
  cs_command_id : string;
  cs_room_epoch : string;
  cs_observed_sequence : Z;
  cs_commands : list RoomProjectCommand
}.

Record OutgoingProjectCommand := { out_commandId : string; out_message : ProjectCommandSubmitMessage }.

(** The error a promise is rejected with: [ProjectRoomCommandError], or the
    [Error] a failed write raised. *)
Inductive CommandError :=
| ProjectRoomCommandError (commandId errorCode detail : string)
| WriteError (message : string).

Record ProjectRoomCommandResult := {
  res_receipt : ProjectCommandReceiptMessage;
  res_accepted : option ProjectCommandAcceptedMessage
}.

(** The two callbacks of a promise are identified by the command's id. *)
Record QueuedCommand := {
  commandId : string;
  commands : list RoomProjectCommand;
  sent : bool;
  roomEpoch : option string;
  observedSequence : option Z;
  accepted : option ProjectCommandAcceptedMessage;
  receipt : option ProjectCommandReceiptMessage
}.

#[export] Instance queued_identified : Identified QueuedCommand := commandId.

Inductive OutboxEvent :=
| Resolved (commandId : string) (result : ProjectRoomCommandResult)
| Rejected (commandId : string) (error : CommandError)
| Refused (error : CommandError)
| HeadRefreshRequired
| CommandRejectedNotice (message : ProjectCommandRejectedMessage).

Record Outbox := {
  queue : list QueuedCommand;
  inFlight : option QueuedCommand;
  localCommandIds : list string;
  awaitingHeadRehydration : bool
}.

Definition newOutbox : Outbox :=
  {| queue := []; inFlight := None; localCommandIds := []; awaitingHeadRehydration := false |}.

Record Env := { headPointer : option ProjectRoomHeadPointer; canSend : bool }.

Record Did := { box : Outbox; events : list OutboxEvent; sends : list OutgoingProjectCommand }.

Definition quiet (b : Outbox) : Did := {| box := b; events := []; sends := [] |}.

(** Continue after [evs] have been emitted. *)
Definition after (evs : list OutboxEvent) (d : Did) : Did :=
  {| box := box d; events := evs ++ events d; sends := sends d |}.

Definition with_queue (q : list QueuedCommand) (b : Outbox) : Outbox :=
  {| queue := q; inFlight := inFlight b; localCommandIds := localCommandIds b;
     awaitingHeadRehydration := awaitingHeadRehydration b |}.

Definition with_inFlight (f : option QueuedCommand) (b : Outbox) : Outbox :=
  {| queue := queue b; inFlight := f; localCommandIds := localCommandIds b;
     awaitingHeadRehydration := awaitingHeadRehydration b |}.

Definition with_local (l : list string) (b : Outbox) : Outbox :=
  {| queue := queue b; inFlight := inFlight b; localCommandIds := l;
     awaitingHeadRehydration := awaitingHeadRehydration b |}.

Definition with_awaiting (w : bool) (b : Outbox) : Outbox :=
  {| queue := queue b; inFlight := inFlight b; localCommandIds := localCommandIds b; awaitingHeadRehydration := w |}.

(** [set.delete(id)] and [set.add(id)] *)
Definition set_delete (i : string) (s : list string) : list string := filter (λ x, x ≠ i) s.
Definition set_add (i : string) (s : list string) : list string := if bool_decide (i ∈ s) then s else s ++ [i].

Inductive SnapshotKind := snap_replace_document | snap_replace_presentation.

#[export] Instance snapshot_kind_dec : EqDecision SnapshotKind.
Proof. solve_decision. Defined.

(** A batch that replaces a whole body: one command, bare or addressed to a
    Graph, compared by its inner kind. *)
Definition snapshotCommandKind (cs : list RoomProjectCommand) : option SnapshotKind :=
  match cs with
  | [P_in_graph _ (R_replace_document _)] => Some snap_replace_document
  | [P_in_graph _ (R_replace_presentation _)] => Some snap_replace_presentation
  | [P_in_graph _ (R_unknown k)] | [P_unknown k] =>
      if bool_decide (k = "replace_document") then Some snap_replace_document
      else if bool_decide (k = "replace_presentation") then Some snap_replace_presentation else None
  | _ => None
  end.

Definition headCoversReceipt (env : Env) (message : ProjectCommandReceiptMessage) : bool :=
  match headPointer env with
  | None => false
  | Some head =>
      bool_decide (hp_room_epoch head = cr_current_room_epoch message) &&
      bool_decide (cr_current_sequence message ≤ hp_collaboration_sequence head)%Z
  end.

(** The pending command is always the one in flight here, so the identity check
    of the source is the check for a receipt. *)
Definition resolveInFlightReceipt (pending : QueuedCommand) (b : Outbox) : Outbox * list OutboxEvent :=
  match receipt pending with
  | None => (b, [])
  | Some r => (with_inFlight None b,
               [Resolved (commandId pending) {| res_receipt := r; res_accepted := accepted pending |}])
  end.

Definition drainQueue (env : Env) (b : Outbox) : Did :=
  match inFlight b with
  | Some _ => quiet b
  | None =>
      if awaitingHeadRehydration b || negb (canSend env) then quiet b else
      match headPointer env, queue b with
      | None, _ => quiet b
      | _, [] => quiet b
      | Some head, next :: rest =>
          let epoch := default (hp_room_epoch head) (roomEpoch next) in
          let observed := default (hp_collaboration_sequence head) (observedSequence next) in
          let next' := {| commandId := commandId next; commands := commands next; sent := true;
                          roomEpoch := Some epoch; observedSequence := Some observed;
                          accepted := accepted next; receipt := receipt next |} in
          {| box := with_inFlight (Some next') (with_queue rest b); events := [];
             sends := [{| out_commandId := commandId next;
                          out_message := {| cs_command_id := commandId next; cs_room_epoch := epoch;
                                            cs_observed_sequence := observed; cs_commands := commands next |} |}] |}
      end
  end.

(** Unsent items of the same snapshot kind, rejected from the back of the queue. *)
Definition supersedable (kind : SnapshotKind) (item : QueuedCommand) : bool :=
  negb (sent item) && bool_decide (snapshotCommandKind (commands item) = Some kind).

Definition supersedeQueuedSnapshotCommand (cs : list RoomProjectCommand) (b : Outbox) : Outbox * list OutboxEvent :=
  match snapshotCommandKind cs with
  | None => (b, [])
  | Some kind =>
      let gone := filter (λ item, supersedable kind item = true) (reverse (queue b)) in
      ({| queue := filter (λ item, supersedable kind item = false) (queue b); inFlight := inFlight b;
          localCommandIds := foldl (λ s item, set_delete (commandId item) s) (localCommandIds b) gone;
          awaitingHeadRehydration := awaitingHeadRehydration b |},
       (λ item, Rejected (commandId item) (ProjectRoomCommandError (commandId item) "superseded"
                  "A newer snapshot command replaced this queued command.")) <$> gone)
  end.

(** The id is what [createCommandId()] returns; a full queue refuses the batch
    with a promise that is already rejected. *)
Definition submit (env : Env) (newId : string) (cs : list RoomProjectCommand) (b : Outbox) : Did :=
  let '(b, evs) := supersedeQueuedSnapshotCommand cs b in
  if bool_decide (ROOM_COMMAND_QUEUE_CAP ≤ length (queue b) + (if inFlight b then 1 else 0)) then
    {| box := b; events := evs ++ [Refused (ProjectRoomCommandError "" "queue_full"
         "Waiting to synchronize. Durable authoring is paused until the queue drains.")]; sends := [] |}
  else
    let item := {| commandId := newId; commands := cs; sent := false; roomEpoch := None; observedSequence := None;
                   accepted := None; receipt := None |} in
    after evs (drainQueue env (with_queue (queue b ++ [item]) (with_local (set_add newId (localCommandIds b)) b))).

(** Whether this client submitted the command, and the outbox that remembers the
    payload for the promise. *)
Definition recordAccepted (message : ProjectCommandAcceptedMessage) (b : Outbox) : Outbox * bool :=
  let local := bool_decide (ca_command_id message ∈ localCommandIds b) in
  let b := with_local (set_delete (ca_command_id message) (localCommandIds b)) b in
  match inFlight b with
  | Some f =>
      if bool_decide (commandId f = ca_command_id message) then
        (with_inFlight (Some {| commandId := commandId f; commands := commands f; sent := sent f;
           roomEpoch := roomEpoch f; observedSequence := observedSequence f; accepted := Some message;
           receipt := receipt f |}) b, local)
      else (b, local)
  | None => (b, local)
  end.

Definition requestHeadRefresh (b : Outbox) : Did :=
  {| box := with_awaiting true b; events := [HeadRefreshRequired]; sends := [] |}.

Definition with_receipt (r : ProjectCommandReceiptMessage) (f : QueuedCommand) : QueuedCommand :=
  {| commandId := commandId f; commands := commands f; sent := sent f; roomEpoch := roomEpoch f;
     observedSequence := observedSequence f; accepted := accepted f; receipt := Some r |}.

Definition applyReceipt (env : Env) (message : ProjectCommandReceiptMessage) (b : Outbox) : Did :=
  match inFlight b with
  | None => quiet b
  | Some f =>
      if bool_decide (commandId f ≠ cr_command_id message) then quiet b
      else
        let pending := with_receipt message f in
        let b := with_inFlight (Some pending) (with_local (set_delete (cr_command_id message) (localCommandIds b)) b) in
        if cr_requires_head_rehydration message || negb (headCoversReceipt env message) then requestHeadRefresh b
        else let '(b, evs) := resolveInFlightReceipt pending b in after evs (drainQueue env b)
  end.

Definition finishHeadRehydration (env : Env) (b : Outbox) : Did :=
  match inFlight b ≫= receipt with
  | Some r =>
      if negb (headCoversReceipt env r) then
        {| box := with_awaiting true b; events := [HeadRefreshRequired]; sends := [] |}
      else
        match inFlight b with
        | Some pending =>
            let '(b, evs) := resolveInFlightReceipt pending b in
            after evs (drainQueue env (with_awaiting false b))
        | None => quiet b
        end
  | None => drainQueue env (with_awaiting false b)
  end.

Definition pendingReceiptIsCovered (env : Env) (b : Outbox) : bool :=
  match inFlight b ≫= receipt with None => false | Some r => headCoversReceipt env r end.

Definition afterHeadApplied (env : Env) (b : Outbox) : Did :=
  match inFlight b ≫= receipt with
  | Some r =>
      if awaitingHeadRehydration b && headCoversReceipt env r then finishHeadRehydration env b else quiet b
  | None => quiet b
  end.

Definition applyRejected (message : ProjectCommandRejectedMessage) (b : Outbox) : Did :=
  let b := with_local (set_delete (cx_command_id message) (localCommandIds b)) b in
  match inFlight b with
  | Some pending =>
      if bool_decide (commandId pending = cx_command_id message) then
        {| box := with_inFlight None (with_awaiting true b);
           events := [CommandRejectedNotice message;
                      Rejected (commandId pending) (ProjectRoomCommandError (cx_command_id message)
                        (cx_error_code message) (cx_detail message))];
           sends := [] |}
      else {| box := b; events := [CommandRejectedNotice message]; sends := [] |}
  | None => {| box := b; events := [CommandRejectedNotice message]; sends := [] |}
  end.

Definition interruptInFlight (b : Outbox) : Outbox :=
  match inFlight b with
  | None => b
  | Some interrupted => with_queue (interrupted :: queue b) (with_inFlight None b)
  end.

(** [error] is the message of the [Error] that was thrown, or [None] for a thrown
    value that is not an [Error]. *)
Definition sendFailed (failedId : string) (error : option string) (b : Outbox) : Did :=
  match inFlight b with
  | Some pending =>
      if bool_decide (commandId pending = failedId) then
        {| box := with_inFlight None b;
           events := [Rejected (commandId pending)
             (match error with
              | Some msg => WriteError msg
              | None => ProjectRoomCommandError failedId "send_failed" "Failed to send the command batch."
              end)];
           sends := [] |}
      else quiet b
  | None => quiet b
  end.

Definition rejectAll (error : CommandError) (b : Outbox) : Did :=
  {| box := with_queue [] (with_inFlight None b);
     events := (λ item, Rejected (commandId item) error) <$> (option_list (inFlight b) ++ queue b);
     sends := [] |}.

Definition clearLocalCommands (b : Outbox) : Outbox := with_local [] b.
