(* ===== verification/OutboxTheory.v ===== *)
(** * Correctness of the command outbox

    A run of the outbox is any sequence of its operations, with any head and any
    transport readiness at each.  By induction over runs: the queue is bounded,
    every submitted batch is settled exactly once or still held, batches first
    leave in the order they were submitted, and a batch that is sent again is sent
    unchanged. *)

From S2P Require Import Prelude Js GraphModel GraphCommands RoomBridge Protocol CommandOutbox.
#[local] Open Scope nat_scope.

(** ** Runs *)

Inductive OutboxOp :=
| OpSubmit (newId : string) (cs : list RoomProjectCommand)
| OpRecordAccepted (m : ProjectCommandAcceptedMessage)
| OpReceipt (m : ProjectCommandReceiptMessage)
| OpAfterHeadApplied
| OpFinishHeadRehydration
| OpRejected (m : ProjectCommandRejectedMessage)
| OpRequestHeadRefresh
| OpInterruptInFlight
| OpSendFailed (failedId : string) (error : option string)
| OpRejectAll (error : CommandError)
| OpClearLocal.

Definition run_op (env : Env) (op : OutboxOp) (b : Outbox) : Did :=
  match op with
  | OpSubmit i cs => submit env i cs b
  | OpRecordAccepted m => quiet (recordAccepted m b).1
  | OpReceipt m => applyReceipt env m b
  | OpAfterHeadApplied => afterHeadApplied env b
  | OpFinishHeadRehydration => finishHeadRehydration env b
  | OpRejected m => applyRejected m b
  | OpRequestHeadRefresh => requestHeadRefresh b
  | OpInterruptInFlight => quiet (interruptInFlight b)
  | OpSendFailed i e => sendFailed i e b
  | OpRejectAll e => rejectAll e b
  | OpClearLocal => quiet (clearLocalCommands b)
  end.

(** The command ids an operation takes in: the submitted one, unless the queue is
    full. *)
Definition taken_in (op : OutboxOp) (d : Did) : list string :=
  match op with
  | OpSubmit i _ => if existsb (λ e, match e with Refused _ => true | _ => false end) (events d) then [] else [i]
  | _ => []
  end.

Definition settled (evs : list OutboxEvent) : list string :=
  omap (λ e, match e with Resolved i _ => Some i | Rejected i _ => Some i | _ => None end) evs.

Definition frames (d : Did) : list ProjectCommandSubmitMessage := out_message <$> sends d.

(** What is held, in flight first. *)
Definition held (b : Outbox) : list QueuedCommand := option_list (inFlight b) ++ queue b.

(** A run, with the ids submitted, the ids settled and the frames sent so far. *)
Inductive outbox_run : Outbox → list string → list string → list ProjectCommandSubmitMessage → Prop :=
| run_start : outbox_run newOutbox [] [] []
| run_step env op b submitted done sentFrames :
    outbox_run b submitted done sentFrames →
    let d := run_op env op b in
    outbox_run (box d) (submitted ++ taken_in op d) (done ++ settled (events d)) (sentFrames ++ frames d).

(** ** Draining *)

(** Either nothing happens, or the front of the queue goes into flight. *)
Inductive drains (env : Env) (b : Outbox) : Did → Prop :=
| drains_nothing : drains env b (quiet b)
| drains_front head next rest :
    inFlight b = None → awaitingHeadRehydration b = false → canSend env = true →
    headPointer env = Some head → queue b = next :: rest →
    let epoch := default (hp_room_epoch head) (roomEpoch next) in
    let observed := default (hp_collaboration_sequence head) (observedSequence next) in
    drains env b
      {| box := with_inFlight (Some {| commandId := commandId next; commands := commands next; sent := true;
                  roomEpoch := Some epoch; observedSequence := Some observed; accepted := accepted next;
                  receipt := receipt next |}) (with_queue rest b);
         events := [];
         sends := [{| out_commandId := commandId next;
                      out_message := {| cs_command_id := commandId next; cs_room_epoch := epoch;
                                        cs_observed_sequence := observed; cs_commands := commands next |} |}] |}.

Lemma drainQueue_drains env b : drains env b (drainQueue env b).
Proof.
  unfold drainQueue. destruct (inFlight b) eqn:Hf; [constructor|].
  destruct (awaitingHeadRehydration b) eqn:Hw; simpl; [constructor|].
  destruct (canSend env) eqn:Hc; simpl; [|constructor].
  destruct (headPointer env) as [head|] eqn:Hh; [|constructor].
  destruct (queue b) as [|next rest] eqn:Hq; [constructor|]. by eapply drains_front.
Qed.

(** Draining settles nothing and keeps what is held. *)
Lemma drain_held env b :
  commandId <$> held (box (drainQueue env b)) = commandId <$> held b ∧ events (drainQueue env b) = [].
Proof.
  destruct (drainQueue_drains env b) as [|head next rest Hf Hw Hc Hh Hq]; [done|].
  unfold held. simpl. rewrite Hf, Hq. done.
Qed.

(** ** Every operation, as the changes the theorems are about

    [moves b b' evs]: the outbox goes from [b] to [b'] by settling held commands
    and moving the others between the queue and the flight. *)

Lemma settled_app l l' : settled (l ++ l') = settled l ++ settled l'.
Proof. apply omap_app. Qed.

Lemma settled_rejects (l : list QueuedCommand) (err : QueuedCommand → CommandError) :
  settled ((λ item, Rejected (commandId item) (err item)) <$> l) = commandId <$> l.
Proof. induction l as [|a l IH]; [done|]. simpl. by f_equal. Qed.

Lemma filter_split_perm {A} (f : A → bool) (l : list A) :
  filter (λ a, f a = false) l ++ filter (λ a, f a = true) l ≡ₚ l.
Proof.
  induction l as [|a l IH]; [done|]. rewrite !filter_cons. destruct (f a) eqn:E; simpl.
  - rewrite <- Permutation_middle. by constructor.
  - by constructor.
Qed.

Lemma supersede_held cs b :
  (commandId <$> held (supersedeQueuedSnapshotCommand cs b).1) ++ settled (supersedeQueuedSnapshotCommand cs b).2
  ≡ₚ commandId <$> held b.
Proof.
  unfold supersedeQueuedSnapshotCommand. destruct (snapshotCommandKind cs) as [kind|]; simpl; [|by rewrite app_nil_r].
  rewrite settled_rejects. unfold held. simpl. rewrite <- fmap_app, <- app_assoc. apply fmap_Permutation. f_equiv.
  rewrite <- (filter_split_perm (supersedable kind) (queue b)) at 3. f_equiv.
  apply filter_Permutation, reverse_Permutation.
Qed.

Lemma supersede_inFlight cs b : inFlight (supersedeQueuedSnapshotCommand cs b).1 = inFlight b.
Proof. unfold supersedeQueuedSnapshotCommand. by destruct (snapshotCommandKind cs). Qed.

Lemma no_refusal cs b :
  existsb (λ e, match e with Refused _ => true | _ => false end) (supersedeQueuedSnapshotCommand cs b).2 = false.
Proof.
  unfold supersedeQueuedSnapshotCommand. destruct (snapshotCommandKind cs); simpl; [|done].
  induction (filter _ (reverse (queue b))); done.
Qed.

Lemma resolve_held pending b b' evs :
  inFlight b = Some pending → is_Some (receipt pending) → resolveInFlightReceipt pending b = (b', evs) →
  b' = with_inFlight None b ∧ settled evs = [commandId pending].
Proof. intros Hf [r Hr]. unfold resolveInFlightReceipt. rewrite Hr. by intros [= <- <-]. Qed.

Lemma inFlight_receipt b r :
  inFlight b ≫= receipt = Some r → ∃ f, inFlight b = Some f ∧ receipt f = Some r.
Proof. destruct (inFlight b) as [f|]; simpl; [eauto|done]. Qed.

Lemma finish_held env b :
  (commandId <$> held (box (finishHeadRehydration env b))) ++ settled (events (finishHeadRehydration env b))
  ≡ₚ commandId <$> held b.
Proof.
  unfold finishHeadRehydration. destruct (inFlight b ≫= receipt) as [r|] eqn:Hr.
  - destruct (negb (headCoversReceipt env r)); simpl; [by rewrite app_nil_r|].
    apply inFlight_receipt in Hr as (f & Hf & Hr). rewrite Hf.
    destruct (resolveInFlightReceipt f b) as [b' evs] eqn:Hres.
    apply resolve_held in Hres as [-> Hs]; [|done|by eauto]. simpl.
    destruct (drain_held env (with_awaiting false (with_inFlight None b))) as [-> ->].
    rewrite app_nil_r, Hs. unfold held. simpl. rewrite Hf. simpl. by rewrite <- Permutation_cons_append.
  - destruct (drain_held env (with_awaiting false b)) as [-> ->]. simpl. by rewrite app_nil_r.
Qed.

Lemma receipt_held env m b :
  (commandId <$> held (box (applyReceipt env m b))) ++ settled (events (applyReceipt env m b)) ≡ₚ commandId <$> held b.
Proof.
  unfold applyReceipt. destruct (inFlight b) as [f|] eqn:Hf; simpl; [|by rewrite app_nil_r].
  destruct (bool_decide _); simpl; [by rewrite app_nil_r|].
  destruct (cr_requires_head_rehydration m || negb (headCoversReceipt env m)); simpl.
  - unfold held. simpl. rewrite Hf. simpl. by rewrite app_nil_r.
  - match goal with |- context [drainQueue env ?b'] => destruct (drain_held env b') as [-> ->] end.
    unfold held. simpl. rewrite Hf. simpl. by rewrite <- Permutation_cons_append.
Qed.

Lemma submit_held env i cs b :
  (commandId <$> held (box (submit env i cs b))) ++ settled (events (submit env i cs b))
  ≡ₚ (commandId <$> held b) ++ taken_in (OpSubmit i cs) (submit env i cs b).
Proof.
  unfold taken_in, submit. pose proof (supersede_held cs b) as Hs. pose proof (no_refusal cs b) as Hn.
  pose proof (supersede_inFlight cs b) as Hf.
  destruct (supersedeQueuedSnapshotCommand cs b) as [b1 evs]. cbn [fst snd] in *.
  destruct (bool_decide _); simpl.
  - rewrite settled_app, existsb_app, Hn. simpl. by rewrite !app_nil_r.
  - match goal with |- context [drainQueue env ?b'] => destruct (drain_held env b') as [-> Hev] end.
    rewrite Hev, app_nil_r, Hn. rewrite <- Hs. unfold held. simpl.
    rewrite !fmap_app. simpl. rewrite <- !app_assoc. do 2 f_equiv. apply Permutation_app_comm.
Qed.

(** No operation loses a command or settles one twice. *)
Lemma op_held env op b :
  let d := run_op env op b in
  (commandId <$> held (box d)) ++ settled (events d) ≡ₚ (commandId <$> held b) ++ taken_in op d.
Proof.
  destruct op; cbn [run_op taken_in]; rewrite ?(app_nil_r (commandId <$> held b)).
  - apply submit_held.
  - unfold recordAccepted. simpl. unfold held. destruct (inFlight b) as [f|] eqn:Hf; simpl; [|by rewrite ?Hf, ?app_nil_r].
    destruct (bool_decide _); simpl; rewrite ?Hf; by rewrite ?app_nil_r.
  - apply receipt_held.
  - unfold afterHeadApplied. destruct (inFlight b ≫= receipt); simpl; [|by rewrite ?app_nil_r].
    destruct (_ && _); [apply finish_held|]. simpl. by rewrite ?app_nil_r.
  - apply finish_held.
  - unfold applyRejected. simpl. unfold held. destruct (inFlight b) as [f|] eqn:Hf; simpl; [|by rewrite ?Hf, ?app_nil_r].
    destruct (bool_decide _); simpl; rewrite ?Hf; simpl; [by rewrite <- Permutation_cons_append|by rewrite ?app_nil_r].
  - cbn. by rewrite ?app_nil_r.
  - unfold interruptInFlight, held. destruct (inFlight b) as [f|] eqn:Hf; simpl; rewrite ?Hf; by rewrite ?app_nil_r.
  - unfold sendFailed, held. destruct (inFlight b) as [f|] eqn:Hf; simpl; [|by rewrite ?Hf, ?app_nil_r].
    destruct (bool_decide _); simpl; rewrite ?Hf; simpl; [by rewrite <- Permutation_cons_append|by rewrite ?app_nil_r].
  - cbn [rejectAll box events]. by rewrite (settled_rejects _ (λ _, error)).
  - simpl. by rewrite ?app_nil_r.
Qed.

(** C1: in every run of the outbox, what was submitted (and not refused by a full
    queue) is, as a multiset, what is still held together with what was settled:
    no batch is lost, and no promise is settled twice. *)
Theorem every_batch_settles_once b submitted done sentFrames :
  outbox_run b submitted done sentFrames →
  (commandId <$> held b) ++ done ≡ₚ submitted.
Proof.
  induction 1 as [|env op b submitted done sentFrames Hrun IH d]; [done|].
  transitivity (((commandId <$> held (box d)) ++ settled (events d)) ++ done).
  { rewrite <- app_assoc. f_equiv. apply Permutation_app_comm. }
  rewrite <- IH. pose proof (op_held env op b) as Hop. cbv zeta in Hop. fold d in Hop. rewrite Hop.
  rewrite <- !app_assoc. f_equiv. apply Permutation_app_comm.
Qed.

(** ** The bound *)

Lemma length_held b : length (held b) = length (queue b) + (if inFlight b then 1 else 0).
Proof. unfold held. rewrite length_app. destruct (inFlight b); simpl; lia. Qed.

Lemma op_cap env op b :
  length (held b) ≤ ROOM_COMMAND_QUEUE_CAP → length (held (box (run_op env op b))) ≤ ROOM_COMMAND_QUEUE_CAP.
Proof.
  intros Hb. pose proof (op_held env op b) as Hop. cbv zeta in Hop.
  apply Permutation_length in Hop. rewrite !length_app, !length_fmap in Hop.
  destruct op; cbn [taken_in] in Hop; simpl (length []) in Hop; try lia. clear Hop.
  cbn [run_op]. unfold submit.
  pose proof (supersede_held cs b) as Hs. apply Permutation_length in Hs. rewrite length_app, !length_fmap in Hs.
  destruct (supersedeQueuedSnapshotCommand cs b) as [b1 evs]. cbn [fst snd] in Hs.
  case_bool_decide as Hfull; cbn [box after]; [lia|].
  match goal with |- context [drainQueue env ?b'] => destruct (drain_held env b') as [Hd _] end.
  apply (f_equal length) in Hd. rewrite !length_fmap in Hd. rewrite Hd, length_held. simpl. rewrite length_app. simpl.
  unfold ROOM_COMMAND_QUEUE_CAP in *. lia.
Qed.

(** The outbox never holds more than [ROOM_COMMAND_QUEUE_CAP] batches, the one
    in flight included. *)
Theorem outbox_is_bounded b submitted done sentFrames :
  outbox_run b submitted done sentFrames → length (queue b) + (if inFlight b then 1 else 0) ≤ ROOM_COMMAND_QUEUE_CAP.
Proof.
  intros H. rewrite <- length_held. induction H; [unfold ROOM_COMMAND_QUEUE_CAP; simpl; lia|]. by apply op_cap.
Qed.

(** ** One batch in flight *)

(** From [b], nothing is written, or one frame: that of the batch now in flight,
    stamped from the batch, with a head, a ready transport and no rehydration
    pending; and a batch that was in flight before has been settled. *)
Definition one_flight (env : Env) (b : Outbox) (d : Did) : Prop :=
  sends d = [] ∨
  ∃ f head m, inFlight (box d) = Some f ∧ sends d = [{| out_commandId := commandId f; out_message := m |}] ∧
    headPointer env = Some head ∧ canSend env = true ∧ awaitingHeadRehydration (box d) = false ∧
    cs_command_id m = commandId f ∧ cs_commands m = commands f ∧
    roomEpoch f = Some (cs_room_epoch m) ∧ observedSequence f = Some (cs_observed_sequence m) ∧
    ∀ f0, inFlight b = Some f0 → commandId f0 ∈ settled (events d).

Lemma drain_one_flight env b b' evs :
  (∀ f0, inFlight b = Some f0 → inFlight b' = None → commandId f0 ∈ settled evs) →
  one_flight env b (after evs (drainQueue env b')).
Proof.
  intros Hset. destruct (drainQueue_drains env b') as [|head next rest Hf Hw Hc Hh Hq]; [by left|].
  right. do 3 eexists. split; [reflexivity|]. split_and!; try (done || reflexivity).
  intros f0 H0. simpl. rewrite app_nil_r. by apply Hset.
Qed.

Lemma drain_plain_one_flight env b b' :
  inFlight b' = inFlight b → one_flight env b (drainQueue env b').
Proof.
  intros Hf.
  destruct (drain_one_flight env b b' []) as [H|H]; [congruence|by left|by right].
Qed.

Lemma finish_one_flight env b : one_flight env b (finishHeadRehydration env b).
Proof.
  unfold finishHeadRehydration. destruct (inFlight b ≫= receipt) as [r|] eqn:Hr; [|by apply drain_plain_one_flight].
  destruct (negb _); [by left|]. apply inFlight_receipt in Hr as (f & Hf & Hr). rewrite Hf.
  destruct (resolveInFlightReceipt f b) as [b' evs] eqn:Hres.
  apply resolve_held in Hres as [-> Hs]; [|done|by eauto]. apply drain_one_flight.
  intros f0 H0 _. rewrite Hs. rewrite Hf in H0. injection H0 as ->. by left.
Qed.

Lemma one_flight_op env op b : one_flight env b (run_op env op b).
Proof.
  destruct op; cbn [run_op]; try (by left); try apply finish_one_flight.
  - unfold submit. pose proof (supersede_inFlight cs b) as Hf.
    destruct (supersedeQueuedSnapshotCommand cs b) as [b1 evs]. simpl in Hf.
    destruct (bool_decide _); [by left|]. apply drain_one_flight. simpl. congruence.
  - unfold applyReceipt. destruct (inFlight b) as [f|] eqn:Hf; [|by left]. destruct (bool_decide _); [by left|].
    destruct (_ || _); [by left|]. apply drain_one_flight. intros f0 H0 _. rewrite Hf in H0. injection H0 as ->. by left.
  - unfold afterHeadApplied. destruct (inFlight b ≫= receipt); [|by left]. destruct (_ && _); [|by left].
    apply finish_one_flight.
  - unfold applyRejected. simpl. destruct (inFlight b); [|by left]. destruct (bool_decide _); by left.
  - unfold sendFailed. destruct (inFlight b); [|by left]. destruct (bool_decide _); by left.
Qed.

(** An operation writes at most one frame, and only for the batch it puts in
    flight, with a head to stamp it, the transport ready and no rehydration
    pending, and after the batch that was in flight has been settled. *)
Theorem single_flight env op b : one_flight env b (run_op env op b).
Proof. apply one_flight_op. Qed.

(** ** Order and resends *)

(** The frame a sent item was, or will again be, sent as. *)
Definition frame_of (q : QueuedCommand) (m : ProjectCommandSubmitMessage) : Prop :=
  roomEpoch q = Some (cs_room_epoch m) ∧ observedSequence q = Some (cs_observed_sequence m) ∧
  commandId q = cs_command_id m ∧ commands q = cs_commands m.

Definition frame_ids (fs : list ProjectCommandSubmitMessage) : list string := cs_command_id <$> fs.

(** The state of a run against its history: the queue is an already sent part
    (an interrupted batch) before an unsent part; what was sent and what is unsent
    is in submission order; sent items match their frames; frames with one id are
    equal. *)
Record flow (b : Outbox) (submitted : list string) (fs : list ProjectCommandSubmitMessage) : Prop := {
  fl_queue : ∃ pre post, queue b = pre ++ post ∧ Forall (λ q, sent q = true) pre ∧ Forall (λ q, sent q = false) post ∧
    (js_set (frame_ids fs) ++ (commandId <$> post)) `sublist_of` submitted;
  fl_flight : ∀ f, inFlight b = Some f → sent f = true;
  fl_sent : ∀ q, q ∈ held b → sent q = true → ∃ m, m ∈ fs ∧ frame_of q m;
  fl_unsent : ∀ q, q ∈ held b → sent q = false →
    roomEpoch q = None ∧ observedSequence q = None ∧ commandId q ∉ frame_ids fs;
  fl_nodup : NoDup (commandId <$> held b);
  fl_known : ∀ q, q ∈ held b → commandId q ∈ submitted;
  fl_same : ∀ m m', m ∈ fs → m' ∈ fs → cs_command_id m = cs_command_id m' → m = m'
}.

(** The fields that the order and the frames depend on. *)
Definition core (q : QueuedCommand) :=
  (commandId q, commands q, sent q, roomEpoch q, observedSequence q).

Lemma core_frame q q' m : core q = core q' → frame_of q m → frame_of q' m.
Proof. unfold core, frame_of. intros [= -> -> _ -> ->]. done. Qed.

Lemma core_sent q q' : core q = core q' → sent q = sent q' ∧ commandId q = commandId q' ∧
  roomEpoch q = roomEpoch q' ∧ observedSequence q = observedSequence q'.
Proof. by intros [= -> _ -> -> ->]. Qed.

Lemma Forall_sublist {A} (P : A → Prop) (l k : list A) : l `sublist_of` k → Forall P k → Forall P l.
Proof.
  intros Hl Hk. apply Forall_forall. intros a Ha. rewrite Forall_forall in Hk. apply Hk. by eapply elem_of_sublist.
Qed.

(** Dropping held items, or recording a message on the one in flight. *)
Lemma flow_sub b b' s fs :
  flow b s fs → queue b' `sublist_of` queue b →
  (inFlight b' = None ∨ ∃ f f', inFlight b = Some f ∧ inFlight b' = Some f' ∧ core f' = core f) →
  flow b' s fs.
Proof.
  intros [(pre & post & Hq & Hpre & Hpost & Hsub) Hfl Hs Hu Hnd Hk Hsame] Hqs Hf.
  assert (∀ q', q' ∈ held b' → ∃ q, q ∈ held b ∧ core q = core q') as Hheld.
  { intros q' [Hin|Hin]%elem_of_app.
    - destruct Hf as [Hn|(f & f' & H1 & H2 & Hc)]; [by rewrite Hn in Hin; apply elem_of_nil in Hin|].
      rewrite H2 in Hin. apply list_elem_of_singleton in Hin as ->. exists f. split; [|done].
      unfold held. rewrite H1. by left.
    - exists q'. split; [|done]. apply elem_of_app. right. by eapply elem_of_sublist. }
  assert ((commandId <$> held b') `sublist_of` (commandId <$> held b)) as Hids.
  { unfold held. rewrite !fmap_app. apply sublist_app; [|by apply fmap_sublist].
    destruct Hf as [->|(f & f' & -> & -> & Hc)]; simpl; [apply sublist_nil_l|].
    apply core_sent in Hc as (_ & -> & _). done. }
  split.
  - rewrite Hq in Hqs. apply sublist_app_r in Hqs as (l1 & l2 & Heq & H1 & H2). exists l1, l2. split_and!; [done| | |].
    + by eapply Forall_sublist.
    + by eapply Forall_sublist.
    + etrans; [|exact Hsub]. apply sublist_app; [done|]. by apply fmap_sublist.
  - intros f' Hf'. destruct Hf as [?|(f & f'' & H1 & H2 & Hc)]; [congruence|].
    rewrite H2 in Hf'. injection Hf' as <-. apply core_sent in Hc as (-> & _). by apply Hfl.
  - intros q' Hq' Hsq. destruct (Hheld q' Hq') as (q & Hin & Hc). pose proof (core_sent _ _ Hc) as (Hse & _).
    destruct (Hs q Hin) as (m & Hm & Hfr); [congruence|]. exists m. split; [done|]. by eapply core_frame.
  - intros q' Hq' Hsq. destruct (Hheld q' Hq') as (q & Hin & Hc). pose proof (core_sent _ _ Hc) as (Hse & <- & <- & <-).
    apply Hu; congruence.
  - by eapply sublist_NoDup.
  - intros q' Hq'. destruct (Hheld q' Hq') as (q & Hin & Hc). apply core_sent in Hc as (_ & <- & _). by apply Hk.
  - done.
Qed.

Lemma flow_interrupt b s fs : flow b s fs → flow (interruptInFlight b) s fs.
Proof.
  intros Hflow. unfold interruptInFlight. destruct (inFlight b) as [f|] eqn:Hf; [|done].
  destruct Hflow as [(pre & post & Hq & Hpre & Hpost & Hsub) Hfl Hs Hu Hnd Hk Hsame].
  assert (held (with_queue (f :: queue b) (with_inFlight None b)) = held b) as Hheld.
  { unfold held. simpl. by rewrite Hf. }
  split; rewrite ?Hheld; try done.
  exists (f :: pre), post. split_and!; [by simpl; rewrite Hq| |done|done]. constructor; [by apply Hfl|done].
Qed.

Lemma frames_known b s fs i : flow b s fs → i ∈ frame_ids fs → i ∈ s.
Proof.
  intros [(pre & post & _ & _ & _ & Hsub) _ _ _ _ _ _] Hi. eapply elem_of_sublist; [|exact Hsub].
  apply elem_of_app. left. by apply js_set_spec.
Qed.

Definition new_item (i : string) (cs : list RoomProjectCommand) : QueuedCommand :=
  {| commandId := i; commands := cs; sent := false; roomEpoch := None; observedSequence := None;
     accepted := None; receipt := None |}.

Lemma flow_push b s fs i cs l :
  flow b s fs → i ∉ s → flow (with_queue (queue b ++ [new_item i cs]) (with_local l b)) (s ++ [i]) fs.
Proof.
  intros Hflow Hi. pose proof (frames_known _ _ _ i Hflow) as Hnf.
  destruct Hflow as [(pre & post & Hq & Hpre & Hpost & Hsub) Hfl Hs Hu Hnd Hk Hsame].
  assert (held (with_queue (queue b ++ [new_item i cs]) (with_local l b)) = held b ++ [new_item i cs]) as Hheld.
  { unfold held. simpl. by rewrite app_assoc. }
  split; rewrite ?Hheld.
  - exists pre, (post ++ [new_item i cs]). simpl. split_and!; [by rewrite Hq, app_assoc|done| |].
    + apply Forall_app. split; [done|]. by repeat constructor.
    + rewrite fmap_app, app_assoc. by apply sublist_app.
  - done.
  - intros q [Hin|Hin]%elem_of_app; [by apply Hs|]. by apply list_elem_of_singleton in Hin as ->.
  - intros q [Hin|Hin]%elem_of_app; [by apply Hu|]. apply list_elem_of_singleton in Hin as ->. intros _.
    split_and!; [done..|]. intros Hin. by apply Hi, Hnf.
  - rewrite fmap_app. apply NoDup_app. split_and!; [done| |simpl; apply NoDup_singleton].
    intros j (q & -> & Hin)%list_elem_of_fmap Hj. apply list_elem_of_singleton in Hj. simpl in Hj.
    apply Hi. rewrite <- Hj. by apply Hk.
  - intros q [Hin|Hin]%elem_of_app; apply elem_of_app; [left; by apply Hk|right]. apply list_elem_of_singleton in Hin as ->. by left.
  - done.
Qed.

(** Putting the front of the queue in flight, for the first time or again. *)
Lemma flow_send b s fs next rest f m :
  flow b s fs → inFlight b = None → queue b = next :: rest →
  commandId f = commandId next → sent f = true → frame_of f m → cs_commands m = commands next →
  (sent next = true → frame_of next m) →
  flow (with_inFlight (Some f) (with_queue rest b)) s (fs ++ [m]).
Proof.
  intros [(pre & post & Hq & Hpre & Hpost & Hsub) Hfl Hs Hu Hnd Hk Hsame] Hf Hqn Hid Hsf Hfr Hcm Hagain.
  assert (held b = next :: rest) as Hheld by (unfold held; by rewrite Hf, Hqn).
  assert (held (with_inFlight (Some f) (with_queue rest b)) = f :: rest) as Hheld' by done.
  assert (cs_command_id m = commandId next) as Hmid by (destruct Hfr as (_ & _ & <- & _); done).
  rewrite Hheld in Hs, Hu, Hnd, Hk. simpl in Hnd. apply NoDup_cons in Hnd as [Hni Hnd].
  assert (sent next = true → m ∈ fs) as Hold.
  { intros Hsn. destruct (Hs next) as (m' & Hm' & Hfr'); [by left|done|].
    assert (m' = m) as <-; [|done]. destruct (Hagain Hsn) as (H1 & H2 & H3 & H4), Hfr' as (H1' & H2' & H3' & H4').
    destruct m, m'; simpl in *. congruence. }
  assert (sent next = false → commandId next ∉ frame_ids fs) as Hnew by (intros; by apply Hu; [left|]).
  split; rewrite ?Hheld'.
  - unfold frame_ids. rewrite fmap_app. simpl. rewrite js_set_snoc, Hmid.
    destruct (sent next) eqn:Hsn.
    + rewrite bool_decide_true by (rewrite <- Hmid; apply list_elem_of_fmap; eauto).
      rewrite Hqn in Hq. destruct pre as [|n pre]; simpl in Hq.
      { subst post. apply Forall_cons in Hpost as [Hn _]. congruence. }
      injection Hq as <- ->. apply Forall_cons in Hpre as [_ Hpre]. by exists pre, post.
    + rewrite bool_decide_false by (by apply Hnew).
      rewrite Hqn in Hq. destruct pre as [|n pre]; simpl in Hq.
      2:{ injection Hq as <- _. apply Forall_cons in Hpre as [Hn _]. congruence. }
      subst post. apply Forall_cons in Hpost as [_ Hpost]. exists [], rest. split_and!; [done..|].
      by rewrite <- app_assoc.
  - by intros ? [= <-].
  - intros q [->|Hin]%elem_of_cons Hsq.
    + exists m. split; [apply elem_of_app; right; by left|done].
    + destruct (Hs q) as (m' & ? & ?); [by right|done|]. exists m'. split; [apply elem_of_app; by left|done].
  - intros q [->|Hin]%elem_of_cons Hsq; [congruence|]. destruct (Hu q) as (? & ? & Hq'); [by right|done|].
    split_and!; [done..|]. unfold frame_ids. rewrite fmap_app. intros [Hi|Hi]%elem_of_app; [done|].
    apply list_elem_of_singleton in Hi. apply Hni. rewrite <- Hmid, <- Hi. apply list_elem_of_fmap. eauto.
  - simpl. rewrite Hid. by constructor.
  - intros q [->|Hin]%elem_of_cons; [rewrite Hid; apply Hk; by left|apply Hk; by right].
  - assert (∀ m', m' ∈ fs → cs_command_id m' = cs_command_id m → m' = m) as Hlast.
    { intros m' Hm' Heq. destruct (sent next) eqn:Hsn; [by apply Hsame; [|apply Hold|]|].
      destruct (Hnew eq_refl). rewrite <- Hmid, <- Heq. apply list_elem_of_fmap. eauto. }
    intros m1 m2 [H1|H1]%elem_of_app [H2|H2]%elem_of_app Heq;
      try apply list_elem_of_singleton in H1; try apply list_elem_of_singleton in H2; subst; eauto using eq_sym.
Qed.

Lemma flow_drain env b s fs :
  flow b s fs → flow (box (drainQueue env b)) s (fs ++ frames (drainQueue env b)).
Proof.
  intros Hflow. destruct (drainQueue_drains env b) as [|head next rest Hf Hw Hc Hh Hq epoch observed].
  { simpl. by rewrite app_nil_r. }
  pose proof Hflow as [_ _ Hs _ _ _ _]. unfold frames. simpl.
  eapply flow_send; try done.
  intros Hsn. destruct (Hs next) as (m & _ & H1 & H2 & H3 & H4); [unfold held; rewrite Hf, Hq; by left|done|].
  split_and!; simpl; [by subst epoch; rewrite H1|by subst observed; rewrite H2|done|done].
Qed.

Lemma flow_awaiting b s fs w : flow b s fs → flow (with_awaiting w b) s fs.
Proof. intros []. by split. Qed.

Lemma flow_finish env b s fs :
  flow b s fs → flow (box (finishHeadRehydration env b)) s (fs ++ frames (finishHeadRehydration env b)).
Proof.
  intros Hflow. unfold finishHeadRehydration. destruct (inFlight b ≫= receipt) as [r|] eqn:Hr.
  - destruct (negb _); [unfold frames; simpl; rewrite app_nil_r; by apply flow_awaiting|].
    apply inFlight_receipt in Hr as (f & Hf & Hr). rewrite Hf. unfold resolveInFlightReceipt. rewrite Hr.
    apply (flow_drain env), flow_awaiting. eapply flow_sub; [done|done|by left].
  - by apply (flow_drain env), flow_awaiting.
Qed.

Lemma flow_supersede cs b s fs : flow b s fs → flow (supersedeQueuedSnapshotCommand cs b).1 s fs.
Proof.
  intros Hflow. unfold supersedeQueuedSnapshotCommand. destruct (snapshotCommandKind cs); [|done].
  eapply flow_sub; [done|simpl; apply sublist_filter|]. simpl.
  destruct (inFlight b) as [f|]; [right; by exists f, f|by left].
Qed.

(** A change that keeps the queue and, up to its messages, the flight. *)
Lemma flow_same_queue b b' s fs :
  flow b s fs → queue b' = queue b →
  (inFlight b' = inFlight b ∨ ∃ f f', inFlight b = Some f ∧ inFlight b' = Some f' ∧ core f' = core f) → flow b' s fs.
Proof.
  intros Hflow Hq Hf. eapply flow_sub; [done|by rewrite Hq|].
  destruct Hf as [Hf|Hf]; [|by right]. rewrite Hf. destruct (inFlight b) as [f|]; [right; by exists f, f|by left].
Qed.

Lemma flow_op env op b s fs :
  flow b s fs → NoDup (s ++ taken_in op (run_op env op b)) →
  flow (box (run_op env op b)) (s ++ taken_in op (run_op env op b)) (fs ++ frames (run_op env op b)).
Proof.
  intros Hflow Hnd. destruct op; cbn [run_op taken_in]; rewrite ?(app_nil_r s); unfold frames;
    try (cbn [quiet sends fmap list_fmap]; rewrite app_nil_r).
  - cbn [run_op taken_in] in Hnd. unfold submit in *. pose proof (flow_supersede cs b s fs Hflow) as Hs.
    pose proof (no_refusal cs b) as Hn.
    destruct (supersedeQueuedSnapshotCommand cs b) as [b1 evs]. cbn [fst snd] in *.
    destruct (bool_decide _); cbn [after box sends events] in *.
    + rewrite existsb_app, Hn. simpl. by rewrite !app_nil_r.
    + match goal with |- context [drainQueue env ?b'] => destruct (drain_held env b') as [_ Hev] end.
      rewrite Hev, app_nil_r, Hn in Hnd |- *. apply NoDup_app in Hnd as (_ & Hni & _).
      apply (flow_drain env), (flow_push b1); [done|]. intros Hi. apply (Hni newId Hi). by left.
  - unfold recordAccepted. simpl. destruct (inFlight b) as [f|] eqn:Hf.
    + destruct (bool_decide _); eapply flow_same_queue; try done; simpl; [right|by left]. eauto.
    + eapply flow_same_queue; [done|done|by left].
  - unfold applyReceipt. destruct (inFlight b) as [f|] eqn:Hf; [|simpl; by rewrite app_nil_r].
    destruct (bool_decide _); [simpl; by rewrite app_nil_r|].
    destruct (_ || _); simpl.
    + rewrite app_nil_r. apply flow_awaiting. eapply flow_same_queue; [done|done|]. right. eauto.
    + apply (flow_drain env). eapply flow_sub; [done|done|by left].
  - unfold afterHeadApplied. destruct (inFlight b ≫= receipt); [|simpl; by rewrite app_nil_r].
    destruct (_ && _); [by apply flow_finish|simpl; by rewrite app_nil_r].
  - by apply flow_finish.
  - unfold applyRejected. simpl. destruct (inFlight b) as [f|] eqn:Hf; simpl.
    + destruct (bool_decide _); simpl; rewrite app_nil_r.
      * eapply flow_sub; [done|done|by left].
      * eapply flow_same_queue; [done|done|by left].
    + rewrite app_nil_r. eapply flow_same_queue; [done|done|by left].
  - simpl. by apply flow_awaiting.
  - by apply flow_interrupt.
  - unfold sendFailed. destruct (inFlight b) as [f|] eqn:Hf; [|simpl; by rewrite app_nil_r].
    destruct (bool_decide _); simpl; rewrite app_nil_r; [|done]. eapply flow_sub; [done|done|by left].
  - eapply flow_sub; [done|simpl; apply sublist_nil_l|by left].
  - eapply flow_same_queue; [done|done|by left].
Qed.

Lemma run_flow b submitted done sentFrames :
  outbox_run b submitted done sentFrames → NoDup submitted → flow b submitted sentFrames.
Proof.
  induction 1 as [|env op b submitted done sentFrames Hrun IH d]; intros Hnd.
  - split; [by exists [], []|done|intros q Hq; by apply elem_of_nil in Hq..|constructor|intros q Hq; by apply elem_of_nil in Hq|].
    intros m m' Hm. by apply elem_of_nil in Hm.
  - apply flow_op; [|done]. apply IH. by apply NoDup_app in Hnd as [? _].
Qed.

(** C20: with fresh command ids, batches are first sent in the order they were
    submitted, whatever receipts, rejections, interruptions and rehydrations come
    between; superseded and rejected batches only leave gaps. *)
Theorem batches_leave_in_order b submitted done sentFrames :
  outbox_run b submitted done sentFrames → NoDup submitted →
  js_set (cs_command_id <$> sentFrames) `sublist_of` submitted.
Proof.
  intros Hrun Hnd. destruct (run_flow _ _ _ _ Hrun Hnd) as [(pre & post & _ & _ & _ & Hsub) _ _ _ _ _ _].
  etrans; [|exact Hsub]. by apply sublist_inserts_r.
Qed.

(** A batch that is sent again after an interruption is sent with the epoch,
    the observed sequence and the commands of its first frame. *)
Theorem resend_is_identical b submitted done sentFrames m m' :
  outbox_run b submitted done sentFrames → NoDup submitted →
  m ∈ sentFrames → m' ∈ sentFrames → cs_command_id m = cs_command_id m' → m = m'.
Proof. intros Hrun Hnd. exact (fl_same _ _ _ (run_flow _ _ _ _ Hrun Hnd) m m'). Qed.

(** ** Settling *)

(** A receipt for the batch in flight that the head already covers settles its
    promise with the receipt and any accepted payload, and hands the transport to
    the next batch unless sending is paused or impossible; any other receipt for it
    is kept and a full head is asked for, without sending. *)
Theorem receipt_settles_or_waits env m b f :
  inFlight b = Some f → commandId f = cr_command_id m →
  if cr_requires_head_rehydration m || negb (headCoversReceipt env m) then
    let d := applyReceipt env m b in
    events d = [HeadRefreshRequired] ∧ sends d = [] ∧ awaitingHeadRehydration (box d) = true ∧
    inFlight (box d) = Some (with_receipt m f) ∧ queue (box d) = queue b
  else
    let d := applyReceipt env m b in
    events d = [Resolved (commandId f) {| res_receipt := m; res_accepted := accepted f |}] ∧
    (awaitingHeadRehydration b = false → canSend env = true → is_Some (headPointer env) →
     commandId <$> inFlight (box d) = commandId <$> head (queue b) ∧ queue (box d) = tail (queue b)).
Proof.
  intros Hf Hid. unfold applyReceipt. rewrite Hf. rewrite bool_decide_false by (intros Hne; by apply Hne).
  destruct (cr_requires_head_rehydration m || negb (headCoversReceipt env m)); [by split_and!|].
  cbv zeta. unfold resolveInFlightReceipt. cbn [receipt with_receipt]. split.
  - cbn [after events]. by rewrite (proj2 (drain_held env _)).
  - intros Hw Hc [hp Hh]. unfold drainQueue. simpl. rewrite Hw, Hc, Hh. simpl. destruct (queue b) eqn:Hq; simpl; by rewrite ?Hq.
Qed.

(** The head is of the epoch that the receipt names as current and has come at least as far. *)
Definition head_reaches (hp : ProjectRoomHeadPointer) (r : ProjectCommandReceiptMessage) : Prop :=
  hp_room_epoch hp = cr_current_room_epoch r ∧ (cr_current_sequence r ≤ hp_collaboration_sequence hp)%Z.

(** The frame of a batch: as it was sent before, or else at the head. *)
Definition frame_at (hp : ProjectRoomHeadPointer) (q : QueuedCommand) : OutgoingProjectCommand :=
  {| out_commandId := commandId q;
     out_message := {| cs_command_id := commandId q; cs_room_epoch := default (hp_room_epoch hp) (roomEpoch q);
                       cs_observed_sequence := default (hp_collaboration_sequence hp) (observedSequence q); cs_commands := commands q |} |}.

(** The batch that waits first has left: it is in flight, out of the queue, and its frame is what is
    sent; with nothing waiting nothing is sent. *)
Definition next_batch_left (hp : ProjectRoomHeadPointer) (waiting : list QueuedCommand) (d : Did) : Prop :=
  match waiting with
  | [] => inFlight (box d) = None ∧ queue (box d) = [] ∧ sends d = []
  | q :: rest =>
      (∃ f, inFlight (box d) = Some f ∧ commandId f = commandId q ∧ commands f = commands q ∧ sent f = true) ∧
      queue (box d) = rest ∧ sends d = [frame_at hp q]
  end.

Lemma drain_sends env hp b : headPointer env = Some hp → canSend env = true → inFlight b = None → awaitingHeadRehydration b = false →
  next_batch_left hp (queue b) (drainQueue env b) ∧ awaitingHeadRehydration (box (drainQueue env b)) = false.
Proof.
  intros Hh Hc Hf Hw. unfold drainQueue. rewrite Hf, Hw, Hc, Hh. cbn [orb negb]. destruct (queue b) as [|q rest] eqn:Hq; cbn; [by rewrite Hf, Hq|].
  split; [|done]. by split_and!; [eexists|..].
Qed.


(** Submitting a snapshot leaves no older unsent batch of the same snapshot
    kind in the queue; each one it removes is rejected as superseded, and nothing
    else is. *)
Theorem newer_snapshot_supersedes kind cs b b' evs :
  snapshotCommandKind cs = Some kind → supersedeQueuedSnapshotCommand cs b = (b', evs) →
  queue b' = filter (λ q, supersedable kind q = false) (queue b) ∧
  settled evs = commandId <$> reverse (filter (λ q, supersedable kind q = true) (queue b)) ∧
  (∀ q, q ∈ queue b' → sent q = false → snapshotCommandKind (commands q) ≠ Some kind).
Proof.
  intros Hk. unfold supersedeQueuedSnapshotCommand. rewrite Hk. intros [= <- <-]. simpl. split_and!; [done| |].
  - rewrite <- filter_reverse. exact (settled_rejects _ _).
  - intros q [Hq _]%list_elem_of_filter Hs Hkind. unfold supersedable in Hq.
    rewrite Hs, bool_decide_true in Hq by done. done.
Qed.

(** ** Concrete runs *)

Definition snapshot_of (gid : string) : list RoomProjectCommand :=
  [P_in_graph gid (R_replace_presentation emptyPresentation)].

Definition sample_env : Env :=
  {| headPointer := Some {| hp_room_epoch := "epoch-1"; hp_collaboration_sequence := 4 |}; canSend := true |}.

Definition closed_env : Env := {| headPointer := None; canSend := false |}.

Definition sample_receipt (i : string) : ProjectCommandReceiptMessage :=
  {| cr_command_id := i; cr_outcome := outcome_accepted; cr_accepted_room_epoch := "epoch-1"; cr_accepted_sequence := 4;
     cr_current_room_epoch := "epoch-1"; cr_current_sequence := 4; cr_deduplicated := false;
     cr_requires_head_rehydration := false |}.

(** A queued snapshot of one Graph is dropped by a snapshot of another Graph of
    the same Project: the kinds are compared, not the Graphs. *)
Theorem snapshot_superseded_across_graphs :
  let b := box (submit closed_env "c1" (snapshot_of "first") newOutbox) in
  let d := submit closed_env "c2" (snapshot_of "second") b in
  commandId <$> queue b = ["c1"] ∧ commandId <$> queue (box d) = ["c2"] ∧
  events d = [Rejected "c1" (ProjectRoomCommandError "c1" "superseded"
                "A newer snapshot command replaced this queued command.")].
Proof. split_and!; reflexivity. Qed.

(** Two batches; the first is interrupted and sent again; both are receipted. *)
Definition sample_ops : list OutboxOp :=
  [OpSubmit "c1" [P_remove_graph "x"]; OpSubmit "c2" [P_remove_graph "y"]; OpInterruptInFlight;
   OpFinishHeadRehydration; OpReceipt (sample_receipt "c1"); OpReceipt (sample_receipt "c2")].

Fixpoint run_ops (ops : list OutboxOp) (b : Outbox) (s done : list string) (fs : list ProjectCommandSubmitMessage)
    : Outbox * list string * list string * list ProjectCommandSubmitMessage :=
  match ops with
  | [] => (b, s, done, fs)
  | op :: ops' => let d := run_op sample_env op b in
      run_ops ops' (box d) (s ++ taken_in op d) (done ++ settled (events d)) (fs ++ frames d)
  end.

Lemma run_ops_run ops b s done fs :
  outbox_run b s done fs →
  let '(b', s', done', fs') := run_ops ops b s done fs in outbox_run b' s' done' fs'.
Proof.
  revert b s done fs. induction ops as [|op ops IH]; intros b s fin fs H; simpl; [exact H|]. apply IH. by constructor.
Qed.

Lemma sample_run :
  ∃ b fs, outbox_run b ["c1"; "c2"] ["c1"; "c2"] fs ∧ queue b = [] ∧ inFlight b = None ∧
    cs_command_id <$> fs = ["c1"; "c1"; "c2"].
Proof.
  pose proof (run_ops_run sample_ops newOutbox [] [] [] run_start) as H.
  do 2 eexists. split; [exact H|]. split_and!; reflexivity.
Qed.

Lemma every_batch_settles_once_witness :
  ∃ b fs, outbox_run b ["c1"; "c2"] ["c1"; "c2"] fs ∧ (commandId <$> held b) ++ ["c1"; "c2"] ≡ₚ ["c1"; "c2"].
Proof.
  destruct sample_run as (b & fs & Hrun & _). exists b, fs. split; [exact Hrun|].
  exact (every_batch_settles_once b _ _ fs Hrun).
Defined.

Lemma outbox_is_bounded_witness :
  ∃ b fs, outbox_run b ["c1"; "c2"] ["c1"; "c2"] fs ∧
    length (queue b) + (if inFlight b then 1 else 0) ≤ ROOM_COMMAND_QUEUE_CAP.
Proof.
  destruct sample_run as (b & fs & Hrun & _). exists b, fs. split; [exact Hrun|]. exact (outbox_is_bounded b _ _ fs Hrun).
Defined.

Lemma batches_leave_in_order_witness :
  ∃ b fs, outbox_run b ["c1"; "c2"] ["c1"; "c2"] fs ∧ js_set (cs_command_id <$> fs) `sublist_of` ["c1"; "c2"].
Proof.
  destruct sample_run as (b & fs & Hrun & _). exists b, fs. split; [exact Hrun|].
  apply (batches_leave_in_order b _ _ fs Hrun). apply (bool_decide_unpack _). vm_compute. exact I.
Defined.

Lemma resend_is_identical_witness :
  ∃ b fs m m', outbox_run b ["c1"; "c2"] ["c1"; "c2"] fs ∧ fs !! 0 = Some m ∧ fs !! 1 = Some m' ∧ m = m'.
Proof.
  destruct sample_run as (b & fs & Hrun & _ & _ & Hids). exists b, fs.
  destruct fs as [|m [|m' fs]]; [discriminate Hids..|]. exists m, m'. split; [exact Hrun|]. split; [reflexivity|].
  split; [reflexivity|].
  apply (resend_is_identical b _ _ _ m m' Hrun); [apply (bool_decide_unpack _); vm_compute; exact I|by left|by right; left|].
  injection Hids as H1 H2 _. by rewrite H1, H2.
Defined.

Lemma receipt_settles_or_waits_witness :
  let b := box (submit sample_env "c1" [P_remove_graph "x"] newOutbox) in
  ∃ f, inFlight b = Some f ∧
    events (applyReceipt sample_env (sample_receipt "c1") b) =
    [Resolved (commandId f) {| res_receipt := sample_receipt "c1"; res_accepted := accepted f |}].
Proof.
  eexists. split; [reflexivity|].
  pose proof (receipt_settles_or_waits sample_env (sample_receipt "c1")
    (box (submit sample_env "c1" [P_remove_graph "x"] newOutbox)) _ eq_refl eq_refl) as H.
  exact (proj1 H).
Defined.

(** A receipt of the head after this one pauses the outbox with the second batch waiting; then that
    head arrives. *)
Definition later_receipt : ProjectCommandReceiptMessage :=
  {| cr_command_id := "c1"; cr_outcome := outcome_accepted; cr_accepted_room_epoch := "epoch-1"; cr_accepted_sequence := 5;
     cr_current_room_epoch := "epoch-1"; cr_current_sequence := 5; cr_deduplicated := false; cr_requires_head_rehydration := true |}.

Definition paused_outbox : Outbox :=
  box (applyReceipt sample_env later_receipt (box (submit sample_env "c2" [P_remove_graph "y"] (box (submit sample_env "c1" [P_remove_graph "x"] newOutbox))))).

Definition later_env : Env := {| headPointer := Some {| hp_room_epoch := "epoch-1"; hp_collaboration_sequence := 5 |}; canSend := true |}.


Lemma newer_snapshot_supersedes_witness :
  let b := box (submit closed_env "c1" (snapshot_of "g") newOutbox) in
  ∃ b' evs, supersedeQueuedSnapshotCommand (snapshot_of "g") b = (b', evs) ∧ settled evs = ["c1"].
Proof.
  do 2 eexists. split; [reflexivity|].
  exact (proj1 (proj2 (newer_snapshot_supersedes snap_replace_presentation (snapshot_of "g") _ _ _ eq_refl eq_refl))).
Defined.
