(* ===== verification/RoomSession.v ===== *)
(** * The Project-room session

    [room/graph-room-session.ts]: the client of one Project room.  It owns the
    socket, the reconnect timer and the confirmed head, and drives the command
    outbox (CommandOutbox).  An operation takes the session to a new session and a
    trace of what it did, in order: listener calls, frames written, sockets closed,
    timers set.  Listeners are assumed not to call back into the session.

    What the operations read of the world (socket states, whether a write throws,
    the clock, the socket factory, fresh command ids) is the argument [World].  The
    unchecked casts of a parsed head and of parsed commands, [JSON.parse] and the
    text of a number are parameters. *)

From S2P Require Import Prelude Js GraphModel GraphCommands RoomBridge Protocol CommandOutbox.
#[local] Open Scope string_scope.
#[local] Open Scope list_scope.
#[local] Open Scope nat_scope.

(** ** JavaScript maps with string keys *)

Section jsmap.
Context {V : Type}.

Fixpoint map_set (k : string) (v : V) (m : list (string * V)) : list (string * V) :=
  match m with
  | [] => [(k, v)]
  | (k', v') :: m' => if bool_decide (k' = k) then (k, v) :: m' else (k', v') :: map_set k v m'
  end.

Definition map_has (k : string) (m : list (string * V)) : bool := existsb (λ kv, bool_decide (kv.1 = k)) m.

Definition map_delete (k : string) (m : list (string * V)) : list (string * V) := filter (λ kv, kv.1 ≠ k) m.

(** [new Map(xs.map((x) => [key(x), x]))] *)
Definition map_of (key : V → string) (l : list V) : list (string * V) :=
  foldl (λ m v, map_set (key v) v m) [] l.

Fixpoint map_get (k : string) (m : list (string * V)) : option V :=
  match m with
  | [] => None
  | (k', v) :: m' => if bool_decide (k' = k) then Some v else map_get k m'
  end.
End jsmap.

(** ** State *)

(** The kept [room.ready] message, with the head it was confirmed with. *)
Record Ready := { ry_message : RoomReadyMessage; ry_head : CollaborativeHead }.

(** [socket] is the identity of the current WebSocket; the [Map]s are in insertion
    order; the timer holds its delay. *)
Record Session := {
  s_socket : option nat;
  s_status : ProjectRoomStatus;
  s_terminalReason : option ProjectRoomTerminalReason;
  s_lastFailure : option ProjectRoomFailure;
  s_intentionallyClosed : bool;
  s_reconnectTimer : option Z;
  s_reconnectAttempts : nat;
  s_generation : nat;
  s_ready : option Ready;
  s_head : option CollaborativeHead;
  s_capabilities : list string;
  s_authorizationVersion : option Z;
  s_participants : list (string * PresenceParticipant);
  s_presenceSequence : Z;
  s_lastPresenceSentAt : Z;
  s_activeRuns : list (string * ActiveRunSummary);
  s_instances : list (string * RoomInstanceState);
  s_outbox : Outbox
}.

Definition put_socket (x : option nat) (s : Session) : Session :=
  {| s_socket := x; s_status := s_status s; s_terminalReason := s_terminalReason s;
     s_lastFailure := s_lastFailure s; s_intentionallyClosed := s_intentionallyClosed s;
     s_reconnectTimer := s_reconnectTimer s; s_reconnectAttempts := s_reconnectAttempts s;
     s_generation := s_generation s; s_ready := s_ready s; s_head := s_head s;
     s_capabilities := s_capabilities s; s_authorizationVersion := s_authorizationVersion s;
     s_participants := s_participants s; s_presenceSequence := s_presenceSequence s;
     s_lastPresenceSentAt := s_lastPresenceSentAt s; s_activeRuns := s_activeRuns s;
     s_instances := s_instances s; s_outbox := s_outbox s |}.

Definition put_status (x : ProjectRoomStatus) (s : Session) : Session :=
  {| s_socket := s_socket s; s_status := x; s_terminalReason := s_terminalReason s;
     s_lastFailure := s_lastFailure s; s_intentionallyClosed := s_intentionallyClosed s;
     s_reconnectTimer := s_reconnectTimer s; s_reconnectAttempts := s_reconnectAttempts s;
     s_generation := s_generation s; s_ready := s_ready s; s_head := s_head s;
     s_capabilities := s_capabilities s; s_authorizationVersion := s_authorizationVersion s;
     s_participants := s_participants s; s_presenceSequence := s_presenceSequence s;
     s_lastPresenceSentAt := s_lastPresenceSentAt s; s_activeRuns := s_activeRuns s;
     s_instances := s_instances s; s_outbox := s_outbox s |}.

Definition put_terminalReason (x : option ProjectRoomTerminalReason) (s : Session) : Session :=
  {| s_socket := s_socket s; s_status := s_status s; s_terminalReason := x; s_lastFailure := s_lastFailure s;
     s_intentionallyClosed := s_intentionallyClosed s; s_reconnectTimer := s_reconnectTimer s;
     s_reconnectAttempts := s_reconnectAttempts s; s_generation := s_generation s; s_ready := s_ready s;
     s_head := s_head s; s_capabilities := s_capabilities s;
     s_authorizationVersion := s_authorizationVersion s; s_participants := s_participants s;
     s_presenceSequence := s_presenceSequence s; s_lastPresenceSentAt := s_lastPresenceSentAt s;
     s_activeRuns := s_activeRuns s; s_instances := s_instances s; s_outbox := s_outbox s |}.

Definition put_lastFailure (x : option ProjectRoomFailure) (s : Session) : Session :=
  {| s_socket := s_socket s; s_status := s_status s; s_terminalReason := s_terminalReason s;
     s_lastFailure := x; s_intentionallyClosed := s_intentionallyClosed s;
     s_reconnectTimer := s_reconnectTimer s; s_reconnectAttempts := s_reconnectAttempts s;
     s_generation := s_generation s; s_ready := s_ready s; s_head := s_head s;
     s_capabilities := s_capabilities s; s_authorizationVersion := s_authorizationVersion s;
     s_participants := s_participants s; s_presenceSequence := s_presenceSequence s;
     s_lastPresenceSentAt := s_lastPresenceSentAt s; s_activeRuns := s_activeRuns s;
     s_instances := s_instances s; s_outbox := s_outbox s |}.

Definition put_intentionallyClosed (x : bool) (s : Session) : Session :=
  {| s_socket := s_socket s; s_status := s_status s; s_terminalReason := s_terminalReason s;
     s_lastFailure := s_lastFailure s; s_intentionallyClosed := x; s_reconnectTimer := s_reconnectTimer s;
     s_reconnectAttempts := s_reconnectAttempts s; s_generation := s_generation s; s_ready := s_ready s;
     s_head := s_head s; s_capabilities := s_capabilities s;
     s_authorizationVersion := s_authorizationVersion s; s_participants := s_participants s;
     s_presenceSequence := s_presenceSequence s; s_lastPresenceSentAt := s_lastPresenceSentAt s;
     s_activeRuns := s_activeRuns s; s_instances := s_instances s; s_outbox := s_outbox s |}.

Definition put_reconnectTimer (x : option Z) (s : Session) : Session :=
  {| s_socket := s_socket s; s_status := s_status s; s_terminalReason := s_terminalReason s;
     s_lastFailure := s_lastFailure s; s_intentionallyClosed := s_intentionallyClosed s; s_reconnectTimer := x;
     s_reconnectAttempts := s_reconnectAttempts s; s_generation := s_generation s; s_ready := s_ready s;
     s_head := s_head s; s_capabilities := s_capabilities s;
     s_authorizationVersion := s_authorizationVersion s; s_participants := s_participants s;
     s_presenceSequence := s_presenceSequence s; s_lastPresenceSentAt := s_lastPresenceSentAt s;
     s_activeRuns := s_activeRuns s; s_instances := s_instances s; s_outbox := s_outbox s |}.

Definition put_reconnectAttempts (x : nat) (s : Session) : Session :=
  {| s_socket := s_socket s; s_status := s_status s; s_terminalReason := s_terminalReason s;
     s_lastFailure := s_lastFailure s; s_intentionallyClosed := s_intentionallyClosed s;
     s_reconnectTimer := s_reconnectTimer s; s_reconnectAttempts := x; s_generation := s_generation s;
     s_ready := s_ready s; s_head := s_head s; s_capabilities := s_capabilities s;
     s_authorizationVersion := s_authorizationVersion s; s_participants := s_participants s;
     s_presenceSequence := s_presenceSequence s; s_lastPresenceSentAt := s_lastPresenceSentAt s;
     s_activeRuns := s_activeRuns s; s_instances := s_instances s; s_outbox := s_outbox s |}.

Definition put_generation (x : nat) (s : Session) : Session :=
  {| s_socket := s_socket s; s_status := s_status s; s_terminalReason := s_terminalReason s;
     s_lastFailure := s_lastFailure s; s_intentionallyClosed := s_intentionallyClosed s;
     s_reconnectTimer := s_reconnectTimer s; s_reconnectAttempts := s_reconnectAttempts s; s_generation := x;
     s_ready := s_ready s; s_head := s_head s; s_capabilities := s_capabilities s;
     s_authorizationVersion := s_authorizationVersion s; s_participants := s_participants s;
     s_presenceSequence := s_presenceSequence s; s_lastPresenceSentAt := s_lastPresenceSentAt s;
     s_activeRuns := s_activeRuns s; s_instances := s_instances s; s_outbox := s_outbox s |}.

Definition put_ready (x : option Ready) (s : Session) : Session :=
  {| s_socket := s_socket s; s_status := s_status s; s_terminalReason := s_terminalReason s;
     s_lastFailure := s_lastFailure s; s_intentionallyClosed := s_intentionallyClosed s;
     s_reconnectTimer := s_reconnectTimer s; s_reconnectAttempts := s_reconnectAttempts s;
     s_generation := s_generation s; s_ready := x; s_head := s_head s; s_capabilities := s_capabilities s;
     s_authorizationVersion := s_authorizationVersion s; s_participants := s_participants s;
     s_presenceSequence := s_presenceSequence s; s_lastPresenceSentAt := s_lastPresenceSentAt s;
     s_activeRuns := s_activeRuns s; s_instances := s_instances s; s_outbox := s_outbox s |}.

Definition put_head (x : option CollaborativeHead) (s : Session) : Session :=
  {| s_socket := s_socket s; s_status := s_status s; s_terminalReason := s_terminalReason s;
     s_lastFailure := s_lastFailure s; s_intentionallyClosed := s_intentionallyClosed s;
     s_reconnectTimer := s_reconnectTimer s; s_reconnectAttempts := s_reconnectAttempts s;
     s_generation := s_generation s; s_ready := s_ready s; s_head := x; s_capabilities := s_capabilities s;
     s_authorizationVersion := s_authorizationVersion s; s_participants := s_participants s;
     s_presenceSequence := s_presenceSequence s; s_lastPresenceSentAt := s_lastPresenceSentAt s;
     s_activeRuns := s_activeRuns s; s_instances := s_instances s; s_outbox := s_outbox s |}.

Definition put_capabilities (x : list string) (s : Session) : Session :=
  {| s_socket := s_socket s; s_status := s_status s; s_terminalReason := s_terminalReason s;
     s_lastFailure := s_lastFailure s; s_intentionallyClosed := s_intentionallyClosed s;
     s_reconnectTimer := s_reconnectTimer s; s_reconnectAttempts := s_reconnectAttempts s;
     s_generation := s_generation s; s_ready := s_ready s; s_head := s_head s; s_capabilities := x;
     s_authorizationVersion := s_authorizationVersion s; s_participants := s_participants s;
     s_presenceSequence := s_presenceSequence s; s_lastPresenceSentAt := s_lastPresenceSentAt s;
     s_activeRuns := s_activeRuns s; s_instances := s_instances s; s_outbox := s_outbox s |}.

Definition put_authorizationVersion (x : option Z) (s : Session) : Session :=
  {| s_socket := s_socket s; s_status := s_status s; s_terminalReason := s_terminalReason s;
     s_lastFailure := s_lastFailure s; s_intentionallyClosed := s_intentionallyClosed s;
     s_reconnectTimer := s_reconnectTimer s; s_reconnectAttempts := s_reconnectAttempts s;
     s_generation := s_generation s; s_ready := s_ready s; s_head := s_head s;
     s_capabilities := s_capabilities s; s_authorizationVersion := x; s_participants := s_participants s;
     s_presenceSequence := s_presenceSequence s; s_lastPresenceSentAt := s_lastPresenceSentAt s;
     s_activeRuns := s_activeRuns s; s_instances := s_instances s; s_outbox := s_outbox s |}.

Definition put_participants (x : list (string * PresenceParticipant)) (s : Session) : Session :=
  {| s_socket := s_socket s; s_status := s_status s; s_terminalReason := s_terminalReason s;
     s_lastFailure := s_lastFailure s; s_intentionallyClosed := s_intentionallyClosed s;
     s_reconnectTimer := s_reconnectTimer s; s_reconnectAttempts := s_reconnectAttempts s;
     s_generation := s_generation s; s_ready := s_ready s; s_head := s_head s;
     s_capabilities := s_capabilities s; s_authorizationVersion := s_authorizationVersion s;
     s_participants := x; s_presenceSequence := s_presenceSequence s;
     s_lastPresenceSentAt := s_lastPresenceSentAt s; s_activeRuns := s_activeRuns s;
     s_instances := s_instances s; s_outbox := s_outbox s |}.

Definition put_presenceSequence (x : Z) (s : Session) : Session :=
  {| s_socket := s_socket s; s_status := s_status s; s_terminalReason := s_terminalReason s;
     s_lastFailure := s_lastFailure s; s_intentionallyClosed := s_intentionallyClosed s;
     s_reconnectTimer := s_reconnectTimer s; s_reconnectAttempts := s_reconnectAttempts s;
     s_generation := s_generation s; s_ready := s_ready s; s_head := s_head s;
     s_capabilities := s_capabilities s; s_authorizationVersion := s_authorizationVersion s;
     s_participants := s_participants s; s_presenceSequence := x;
     s_lastPresenceSentAt := s_lastPresenceSentAt s; s_activeRuns := s_activeRuns s;
     s_instances := s_instances s; s_outbox := s_outbox s |}.

Definition put_lastPresenceSentAt (x : Z) (s : Session) : Session :=
  {| s_socket := s_socket s; s_status := s_status s; s_terminalReason := s_terminalReason s;
     s_lastFailure := s_lastFailure s; s_intentionallyClosed := s_intentionallyClosed s;
     s_reconnectTimer := s_reconnectTimer s; s_reconnectAttempts := s_reconnectAttempts s;
     s_generation := s_generation s; s_ready := s_ready s; s_head := s_head s;
     s_capabilities := s_capabilities s; s_authorizationVersion := s_authorizationVersion s;
     s_participants := s_participants s; s_presenceSequence := s_presenceSequence s; s_lastPresenceSentAt := x;
     s_activeRuns := s_activeRuns s; s_instances := s_instances s; s_outbox := s_outbox s |}.

Definition put_activeRuns (x : list (string * ActiveRunSummary)) (s : Session) : Session :=
  {| s_socket := s_socket s; s_status := s_status s; s_terminalReason := s_terminalReason s;
     s_lastFailure := s_lastFailure s; s_intentionallyClosed := s_intentionallyClosed s;
     s_reconnectTimer := s_reconnectTimer s; s_reconnectAttempts := s_reconnectAttempts s;
     s_generation := s_generation s; s_ready := s_ready s; s_head := s_head s;
     s_capabilities := s_capabilities s; s_authorizationVersion := s_authorizationVersion s;
     s_participants := s_participants s; s_presenceSequence := s_presenceSequence s;
     s_lastPresenceSentAt := s_lastPresenceSentAt s; s_activeRuns := x; s_instances := s_instances s;
     s_outbox := s_outbox s |}.

Definition put_instances (x : list (string * RoomInstanceState)) (s : Session) : Session :=
  {| s_socket := s_socket s; s_status := s_status s; s_terminalReason := s_terminalReason s;
     s_lastFailure := s_lastFailure s; s_intentionallyClosed := s_intentionallyClosed s;
     s_reconnectTimer := s_reconnectTimer s; s_reconnectAttempts := s_reconnectAttempts s;
     s_generation := s_generation s; s_ready := s_ready s; s_head := s_head s;
     s_capabilities := s_capabilities s; s_authorizationVersion := s_authorizationVersion s;
     s_participants := s_participants s; s_presenceSequence := s_presenceSequence s;
     s_lastPresenceSentAt := s_lastPresenceSentAt s; s_activeRuns := s_activeRuns s; s_instances := x;
     s_outbox := s_outbox s |}.

Definition put_outbox (x : Outbox) (s : Session) : Session :=
  {| s_socket := s_socket s; s_status := s_status s; s_terminalReason := s_terminalReason s;
     s_lastFailure := s_lastFailure s; s_intentionallyClosed := s_intentionallyClosed s;
     s_reconnectTimer := s_reconnectTimer s; s_reconnectAttempts := s_reconnectAttempts s;
     s_generation := s_generation s; s_ready := s_ready s; s_head := s_head s;
     s_capabilities := s_capabilities s; s_authorizationVersion := s_authorizationVersion s;
     s_participants := s_participants s; s_presenceSequence := s_presenceSequence s;
     s_lastPresenceSentAt := s_lastPresenceSentAt s; s_activeRuns := s_activeRuns s;
     s_instances := s_instances s; s_outbox := x |}.


Definition newSession : Session :=
  {| s_socket := None; s_status := st_idle; s_terminalReason := None; s_lastFailure := None;
     s_intentionallyClosed := false; s_reconnectTimer := None; s_reconnectAttempts := 0; s_generation := 0;
     s_ready := None; s_head := None; s_capabilities := []; s_authorizationVersion := None; s_participants := [];
     s_presenceSequence := 0; s_lastPresenceSentAt := 0; s_activeRuns := []; s_instances := [];
     s_outbox := newOutbox |}.

Record SessionOptions := {
  workspaceId : string;
  projectId : string;
  reconnectDelayMs : Z;
  maxReconnectAttempts : nat
}.

Definition defaultReconnectDelayMs : Z := 750.
Definition defaultMaxReconnectAttempts : nat := 5.
Definition PRESENCE_CLIENT_MIN_INTERVAL_MS : Z := 50.

(** [WebSocket.readyState]: 0 connecting, 1 open, 2 closing, 3 closed. *)
Record World := {
  w_readyState : nat → nat;
  w_send : option (option string);
  w_factory : nat + option string;
  w_now : Z;
  w_newCommandId : string
}.

Definition WS_OPEN : nat := 1.
Definition WS_CLOSING : nat := 2.

(** ** Trace *)

(** A presence update as the caller gives it, and the frame it is sent as. *)
Record PresenceUpdate := {
  pu_graph_id : jsopt string;
  pu_cursor : jsopt PresencePoint;
  pu_selected_node_ids : jsopt (list string);
  pu_selected_edge_ids : jsopt (list string);
  pu_activity : jsopt PresenceActivityKind;
  pu_activity_target_ids : jsopt (list string);
  pu_transient_node_positions : jsopt (list TransientNodePosition)
}.

Record PresenceFrame := {
  pf_graph_id : option string;
  pf_presence_sequence : Z;
  pf_cursor : option PresencePoint;
  pf_selected_node_ids : list string;
  pf_selected_edge_ids : list string;
  pf_activity : option PresenceActivityKind;
  pf_activity_target_ids : list string;
  pf_transient_node_positions : list TransientNodePosition
}.

Inductive SessionEvent :=
| EvStatus (s : ProjectRoomStatus)
| EvReady (r : Ready)
| EvRehydrate (h : CollaborativeHead)
| EvCommandAccepted (m : ProjectCommandAcceptedMessage) (local : bool)
| EvPresence (ps : list PresenceParticipant)
| EvActiveRuns (rs : list ActiveRunSummary)
| EvInstances (m : InstancesChangedMessage)
| EvRunFinished (m : RunFinishedMessage)
| EvAuthorizationVersion (v : Z)
| EvFailure (f : option ProjectRoomFailure)
| EvTerminalClose (r : ProjectRoomTerminalReason)
| EvAgentRoom (raw : jsval)
| EvOutbox (e : OutboxEvent)
| EvNotReady (error : CommandError)
| EvWroteCommand (m : ProjectCommandSubmitMessage)
| EvWrotePresence (f : PresenceFrame)
| EvOpened (socket : nat)
| EvClosed (socket : nat)
| EvTimerSet (delay : Z).

(** ** Sequencing *)

Definition act := Session → Session * list SessionEvent.

Definition skip : act := λ s, (s, []).
Definition modify (f : Session → Session) : act := λ s, (f s, []).
Definition emit (e : SessionEvent) : act := λ s, (s, [e]).
Definition andThen (a b : act) : act :=
  λ s, let '(s1, e1) := a s in let '(s2, e2) := b s1 in (s2, e1 ++ e2).
Definition reading (k : Session → act) : act := λ s, k s s.

Declare Scope act_scope.
Notation "a ;;; b" := (andThen a b) (at level 62, right associativity) : act_scope.
#[local] Open Scope act_scope.

Section session.
Context (opts : SessionOptions).
Context (asHead : jsval → CollaborativeHead) (asCommand : jsval → RoomProjectCommand).
Context (JSON_parse : string → res jsval) (numberText : jsnum → string).

(** ** Views *)

Definition getProjectRoomSessionId (s : Session) : option string :=
  (λ r, rm_project_room_session_id (ry_message r)) <$> s_ready s.

Definition getParticipants (s : Session) : list PresenceParticipant := snd <$> s_participants s.
Definition getActiveRuns (s : Session) : list ActiveRunSummary := snd <$> s_activeRuns s.
Definition getInstances (s : Session) : list RoomInstanceState := snd <$> s_instances s.

Definition getRemoteParticipants (s : Session) : list PresenceParticipant :=
  filter (λ p, Some (p_project_room_session_id p) ≠ getProjectRoomSessionId s) (getParticipants s).

Definition canPublishPresence (s : Session) : bool :=
  bool_decide (s_status s = st_ready) && bool_decide ("publish_presence" ∈ s_capabilities s) &&
  bool_decide (s_terminalReason s = None).

Definition canSubmitCommands (s : Session) : bool :=
  bool_decide (s_status s = st_ready) && bool_decide (is_Some (s_head s)) &&
  bool_decide ("edit_project" ∈ s_capabilities s) && bool_decide (s_terminalReason s = None).

Definition canSendCommand (w : World) (s : Session) : bool :=
  canSubmitCommands s &&
  match s_socket s with Some k => w_readyState w k =? WS_OPEN | None => false end.

(** True when [incoming] should replace the confirmed head. *)
Definition shouldReplaceCollaborativeHead (current : option CollaborativeHead) (incoming : CollaborativeHead) : bool :=
  match current with
  | None => true
  | Some h =>
      if bool_decide (h_room_epoch h ≠ h_room_epoch incoming) then true
      else bool_decide (h_collaboration_sequence h ≤ h_collaboration_sequence incoming)%Z
  end.

(** ** The outbox, driven *)

Definition outboxEnv (w : World) (s : Session) : Env :=
  {| headPointer := (λ h, {| hp_room_epoch := h_room_epoch h;
                             hp_collaboration_sequence := h_collaboration_sequence h |}) <$> s_head s;
     canSend := canSendCommand w s |}.

(** One frame; a write that throws drops the batch from flight. *)
Definition writeSend (w : World) (o : OutgoingProjectCommand) : act :=
  reading (λ s,
    match s_socket s with
    | None => skip
    | Some _ =>
        match w_send w with
        | None => emit (EvWroteCommand (out_message o))
        | Some error =>
            let d := sendFailed (out_commandId o) error (s_outbox s) in
            λ s, (put_outbox (box d) s, EvOutbox <$> events d)
        end
    end).

Fixpoint writeSends (w : World) (l : list OutgoingProjectCommand) : act :=
  match l with
  | [] => skip
  | o :: l' => writeSend w o ;;; writeSends w l'
  end.

(** Run an outbox operation and write the frames it returns. *)
Definition outboxDo (w : World) (op : Env → Outbox → Did) : act :=
  reading (λ s,
    let d := op (outboxEnv w s) (s_outbox s) in
    (λ s, (put_outbox (box d) s, EvOutbox <$> events d)) ;;; writeSends w (sends d)).

(** ** Small steps *)

Definition setStatus (status : ProjectRoomStatus) : act :=
  reading (λ s, if bool_decide (s_status s = status) then skip
                else modify (put_status status) ;;; emit (EvStatus status)).

Definition setFailure (failure : option ProjectRoomFailure) : act :=
  modify (put_lastFailure failure) ;;; emit (EvFailure failure).

Record FailureDetail := {
  fd_reason : FailureReason;
  fd_retryable : bool;
  fd_side : FailureSide;
  fd_phase : FailurePhase;
  fd_messageType : option string;
  fd_protocolVersion : option jsnum;
  fd_closeCode : option Z;
  fd_detail : string
}.

Definition failureWithContext (failure : FailureDetail) (s : Session) : ProjectRoomFailure :=
  {| f_workspaceId := workspaceId opts; f_projectId := projectId opts;
     f_projectRoomSessionId :=
       match getProjectRoomSessionId s with
       | Some i => Some i
       | None => s_lastFailure s ≫= f_projectRoomSessionId
       end;
     f_reason := fd_reason failure; f_retryable := fd_retryable failure; f_side := fd_side failure;
     f_phase := fd_phase failure; f_messageType := fd_messageType failure;
     f_protocolVersion := fd_protocolVersion failure; f_closeCode := fd_closeCode failure;
     f_detail := fd_detail failure |}.

Definition clearReconnectTimer : act := modify (put_reconnectTimer None).

Definition emitPresenceChange : act := reading (λ s, emit (EvPresence (getParticipants s))).
Definition emitActiveRunsChange : act := reading (λ s, emit (EvActiveRuns (getActiveRuns s))).

Definition upsertParticipant (p : PresenceParticipant) : act :=
  modify (λ s, put_participants (map_set (p_project_room_session_id p) p (s_participants s)) s) ;;; emitPresenceChange.

Definition removeParticipant (sessionId : string) : act :=
  reading (λ s, if map_has sessionId (s_participants s)
                then modify (put_participants (map_delete sessionId (s_participants s))) ;;; emitPresenceChange
                else skip).

Definition clearPresence : act :=
  reading (λ s, match s_participants s with
                | [] => skip
                | _ => modify (put_participants []) ;;; emitPresenceChange
                end).

(** Let go of the socket, closing it when it is not closing already. *)
Definition dropSocket (w : World) : act :=
  reading (λ s,
    modify (put_socket None) ;;;
    match s_socket s with
    | Some k => if w_readyState w k <? WS_CLOSING then emit (EvClosed k) else skip
    | None => skip
    end).

(** ** Stopping and recovering *)

Definition reasonText (r : ProjectRoomTerminalReason) : string :=
  match r with
  | access_revoked => "access_revoked" | project_deleted => "project_deleted"
  | protocol_incompatible => "protocol_incompatible" | reconnect_exhausted => "reconnect_exhausted"
  end.

Definition stopTraffic (w : World) (reason : ProjectRoomTerminalReason)
    (failure : option FailureDetail) : act :=
  modify (put_intentionallyClosed true) ;;; clearReconnectTimer ;;;
  modify (put_terminalReason (Some reason)) ;;;
  (match failure with
   | Some f => reading (λ s, setFailure (Some (failureWithContext f s)))
   | None => skip
   end) ;;;
  modify (put_ready None) ;;; modify (put_capabilities []) ;;; modify (put_authorizationVersion None) ;;;
  clearPresence ;;; modify (λ s, put_generation (S (s_generation s)) s) ;;; dropSocket w ;;;
  outboxDo w (λ _, rejectAll (ProjectRoomCommandError "" (reasonText reason)
    ("The Project room closed (" +:+ reasonText reason +:+ "). The displayed Project is not trusted for durable commands."))) ;;;
  setStatus st_stopped ;;; emit (EvTerminalClose reason).

Definition versionNumber : jsnum := num ROOM_PROTOCOL_VERSION.

(** What the failure says when the attempts are used up: the side, phase and so on
    of the failure before it. *)
Definition exhaustedFailure (prior : option ProjectRoomFailure) : FailureDetail :=
  {| fd_reason := Terminal reconnect_exhausted; fd_retryable := true;
     fd_side := default side_network (f_side <$> prior); fd_phase := default phase_connect (f_phase <$> prior);
     fd_messageType := prior ≫= f_messageType;
     fd_protocolVersion := Some (default versionNumber (prior ≫= f_protocolVersion));
     fd_closeCode := prior ≫= f_closeCode;
     fd_detail := "Automatic reconnection stopped after " +:+
                  numberText (num (Z.of_nat (maxReconnectAttempts opts))) +:+ " attempts." |}.

(** [Math.min(reconnectDelayMs * 2 ** attempts, 10_000)] *)
Definition backoff (attempts : nat) : Z := Z.min (reconnectDelayMs opts * 2 ^ Z.of_nat attempts) 10000.

Definition scheduleReconnect (w : World) : act :=
  reading (λ s,
    if s_intentionallyClosed s || bool_decide (is_Some (s_terminalReason s)) then skip
    else if maxReconnectAttempts opts <=? s_reconnectAttempts s then
      stopTraffic w reconnect_exhausted (Some (exhaustedFailure (s_lastFailure s)))
    else
      clearReconnectTimer ;;;
      modify (put_reconnectAttempts (S (s_reconnectAttempts s))) ;;;
      modify (put_reconnectTimer (Some (backoff (s_reconnectAttempts s)))) ;;;
      emit (EvTimerSet (backoff (s_reconnectAttempts s)))).

Definition recoverTraffic (w : World) (failure : FailureDetail) : act :=
  reading (λ s, setFailure (Some (failureWithContext failure s))) ;;;
  modify (put_ready None) ;;; modify (put_capabilities []) ;;; modify (put_authorizationVersion None) ;;;
  modify (put_activeRuns []) ;;; emit (EvActiveRuns []) ;;; clearPresence ;;;
  outboxDo w (λ _ b, quiet (interruptInFlight b)) ;;;
  modify (λ s, put_generation (S (s_generation s)) s) ;;; dropSocket w ;;;
  setStatus st_unsynchronized ;;; scheduleReconnect w.

(** ** Sockets and user operations *)

Definition connectFailure (error : option string) : FailureDetail :=
  {| fd_reason := Recovery connection_lost; fd_retryable := true; fd_side := side_network; fd_phase := phase_connect;
     fd_messageType := None; fd_protocolVersion := Some versionNumber; fd_closeCode := None;
     fd_detail := default "The Project room connection could not be opened." error |}.

Definition openSocket (w : World) : act :=
  reading (λ s,
    if s_intentionallyClosed s || bool_decide (is_Some (s_terminalReason s)) then skip
    else
      modify (put_generation (S (s_generation s))) ;;;
      setStatus (if s_head s then st_reconnecting else st_connecting) ;;;
      match w_factory w with
      | inr error => recoverTraffic w (connectFailure error)
      | inl socket => modify (put_socket (Some socket)) ;;; emit (EvOpened socket)
      end).

Definition connect (w : World) : act :=
  reading (λ s,
    if s_terminalReason s then skip
    else modify (put_intentionallyClosed false) ;;; clearReconnectTimer ;;; openSocket w).

Definition retry (w : World) : act :=
  reading (λ s,
    if bool_decide (s_terminalReason s = Some reconnect_exhausted) then
      modify (put_terminalReason None) ;;; modify (put_intentionallyClosed false) ;;;
      modify (put_reconnectAttempts 0) ;;; clearReconnectTimer ;;; openSocket w
    else skip).

Definition disconnect (w : World) : act :=
  modify (put_intentionallyClosed true) ;;; clearReconnectTimer ;;;
  modify (λ s, put_generation (S (s_generation s)) s) ;;; dropSocket w ;;;
  outboxDo w (λ _, rejectAll (ProjectRoomCommandError "" "disconnected"
    "The Project room disconnected before the command completed.")) ;;;
  outboxDo w (λ _ b, quiet (clearLocalCommands b)) ;;;
  modify (put_reconnectAttempts 0) ;;; setFailure None ;;; setStatus st_idle ;;;
  modify (put_ready None) ;;; clearPresence.

Definition timerFired (w : World) : act :=
  reading (λ s,
    match s_reconnectTimer s with
    | None => skip
    | Some _ =>
        modify (put_reconnectTimer None) ;;;
        if s_intentionallyClosed s || bool_decide (is_Some (s_terminalReason s)) then skip else openSocket w
    end).

Definition replaceHead (w : World) (h : CollaborativeHead) : act :=
  reading (λ s,
    if shouldReplaceCollaborativeHead (s_head s) h then
      modify (put_head (Some h)) ;;; outboxDo w finishHeadRehydration
    else if pendingReceiptIsCovered (outboxEnv w s) (s_outbox s) then outboxDo w finishHeadRehydration
    else skip).

Definition with_checkpoint (sequence revision : Z) (h : CollaborativeHead) : CollaborativeHead :=
  {| h_checkpoint_revision := revision; h_checkpoint_sequence := sequence;
     h_collaboration_sequence := h_collaboration_sequence h; h_graphs := h_graphs h; h_name := h_name h;
     h_project_id := h_project_id h; h_room_epoch := h_room_epoch h; h_updated_at := h_updated_at h |}.

(** The head a checkpoint response leaves, or the error it raises. *)
Definition reconcileCheckpointHead (w : World) (checkpointHead : CollaborativeHead) (expectedRoomEpoch : string)
    (s : Session) : res CollaborativeHead * (Session * list SessionEvent) :=
  match s_head s with
  | None => (Throw ("The Project room head is unavailable while reconciling checkpoint epoch " +:+
                    expectedRoomEpoch +:+ "."), (s, []))
  | Some currentHead =>
      if bool_decide (h_room_epoch currentHead ≠ expectedRoomEpoch) then (Ok currentHead, (s, []))
      else if bool_decide (h_room_epoch checkpointHead ≠ expectedRoomEpoch) then
        (Throw ("Checkpoint response epoch " +:+ h_room_epoch checkpointHead +:+
                " does not match submitted command epoch " +:+ expectedRoomEpoch +:+ "."), (s, []))
      else
        let '(s1, e1) := replaceHead w checkpointHead s in
        match s_head s1 with
        | None => (Throw ("The Project room head is unavailable after reconciling checkpoint epoch " +:+
                          expectedRoomEpoch +:+ "."), (s1, e1))
        | Some effectiveHead =>
            if bool_decide (h_collaboration_sequence checkpointHead < h_collaboration_sequence effectiveHead)%Z &&
               bool_decide (h_checkpoint_sequence effectiveHead < h_checkpoint_sequence checkpointHead)%Z then
              let merged := with_checkpoint (h_checkpoint_sequence checkpointHead)
                              (h_checkpoint_revision checkpointHead) effectiveHead in
              let '(s2, e2) := replaceHead w merged s1 in (Ok merged, (s2, e1 ++ e2))
            else (Ok effectiveHead, (s1, e1))
        end
  end.

Definition submitCommands (w : World) (cs : list RoomProjectCommand) : act :=
  reading (λ s,
    if negb (canSubmitCommands s) || bool_decide (s_head s = None) then
      emit (EvNotReady (ProjectRoomCommandError "" "not_ready"
        "The Project room is not ready to accept durable commands."))
    else outboxDo w (λ env, submit env (w_newCommandId w) cs)).

Definition presenceFrame (update : PresenceUpdate) (sequence : Z) : PresenceFrame :=
  {| pf_graph_id := jsopt_to_option (pu_graph_id update); pf_presence_sequence := sequence;
     pf_cursor := jsopt_to_option (pu_cursor update);
     pf_selected_node_ids := jsopt_or (pu_selected_node_ids update) [];
     pf_selected_edge_ids := jsopt_or (pu_selected_edge_ids update) [];
     pf_activity := jsopt_to_option (pu_activity update);
     pf_activity_target_ids := jsopt_or (pu_activity_target_ids update) [];
     pf_transient_node_positions := jsopt_or (pu_transient_node_positions update) [] |}.

(** Whether the update was written; a write that throws still uses up its number. *)
Definition publishPresence (w : World) (update : PresenceUpdate) (s : Session) : bool * (Session * list SessionEvent) :=
  if negb (canPublishPresence s) then (false, (s, []))
  else if bool_decide (0 < s_lastPresenceSentAt s)%Z &&
          bool_decide (w_now w - s_lastPresenceSentAt s < PRESENCE_CLIENT_MIN_INTERVAL_MS)%Z then (false, (s, []))
  else
    match s_socket s with
    | None => (false, (s, []))
    | Some k =>
        if negb (w_readyState w k =? WS_OPEN) then (false, (s, []))
        else
          let s1 := put_presenceSequence (s_presenceSequence s + 1)%Z s in
          match w_send w with
          | None => (true, (put_lastPresenceSentAt (w_now w) s1,
                            [EvWrotePresence (presenceFrame update (s_presenceSequence s1))]))
          | Some _ => (false, (s1, []))
          end
    end.

(** ** Messages *)

Definition KNOWN_SERVER_MESSAGE_TYPES : list string :=
  ["room.ready"; "room.rehydrate"; "room.heartbeat"; "presence.join"; "presence.leave"; "presence.update";
   "run.started"; "run.finished"; "instances.changed"; "project.command.accepted"; "project.command.receipt";
   "project.command.rejected"].

Definition receiveFailure (messageType : option string) (protocolVersion : option jsnum) (detail : string) : FailureDetail :=
  {| fd_reason := Recovery protocol_error; fd_retryable := true; fd_side := side_server; fd_phase := phase_receive;
     fd_messageType := messageType; fd_protocolVersion := protocolVersion; fd_closeCode := None; fd_detail := detail |}.

Definition applyReady (w : World) (m : RoomReadyMessage) : act :=
  if bool_decide (rm_workspace_id m ≠ workspaceId opts ∨ rm_project_id m ≠ projectId opts) then
    recoverTraffic w (receiveFailure (Some "room.ready") (Some versionNumber)
      "The room-ready message identified a different workspace or Project.")
  else
    reading (λ s,
      let h := match s_head s with
               | Some h => if shouldReplaceCollaborativeHead (Some h) (asHead (rm_head m)) then asHead (rm_head m) else h
               | None => asHead (rm_head m)
               end in
      let ready := {| ry_message := m; ry_head := h |} in
      modify (put_ready (Some ready)) ;;; modify (put_head (Some h)) ;;;
      modify (put_capabilities (capabilities (rm_capabilities m))) ;;;
      modify (put_authorizationVersion (Some (authorization_version (rm_capabilities m)))) ;;;
      modify (put_participants (map_of p_project_room_session_id (rm_participants m))) ;;;
      modify (put_presenceSequence 0) ;;; modify (put_lastPresenceSentAt 0) ;;;
      modify (put_activeRuns (map_of r_run_id (rm_active_runs m))) ;;;
      modify (put_instances (map_of (λ i, instanceKeyText (i_key i)) (rm_instances m))) ;;;
      modify (put_reconnectAttempts 0) ;;; setFailure None ;;; setStatus st_ready ;;;
      emit (EvReady ready) ;;; emitActiveRunsChange ;;; emitPresenceChange ;;;
      outboxDo w finishHeadRehydration).

Definition applyAccepted (w : World) (m : ProjectCommandAcceptedMessage) : act :=
  reading (λ s0,
    let '(b, local) := recordAccepted m (s_outbox s0) in
    modify (put_outbox b) ;;;
    match s_head s0 with
    | None => outboxDo w (λ _, requestHeadRefresh)
    | Some h =>
        if bool_decide (ca_room_epoch m ≠ h_room_epoch h) then outboxDo w (λ _, requestHeadRefresh)
        else if bool_decide (ca_sequence m ≤ h_collaboration_sequence h)%Z then skip
        else if bool_decide (ca_sequence m ≠ h_collaboration_sequence h + 1)%Z then outboxDo w (λ _, requestHeadRefresh)
        else
          match applyRoomCommandsToHead h (asCommand <$> ca_commands m) (ca_sequence m) with
          | Throw _ => outboxDo w (λ _, requestHeadRefresh)
          | Ok h' =>
              modify (put_head (Some h')) ;;; emit (EvCommandAccepted m local) ;;; outboxDo w afterHeadApplied
          end
    end).

Definition applyRehydrate (w : World) (raw : jsval) : act :=
  reading (λ s,
    match s_head s with
    | Some h =>
        if shouldReplaceCollaborativeHead (Some h) (asHead raw) then
          modify (put_head (Some (asHead raw))) ;;; emit (EvRehydrate (asHead raw)) ;;; outboxDo w finishHeadRehydration
        else emit (EvRehydrate h)
    | None => modify (put_head (Some (asHead raw))) ;;; emit (EvRehydrate (asHead raw)) ;;; outboxDo w finishHeadRehydration
    end).

Definition applyInstancesChanged (m : InstancesChangedMessage) : act :=
  modify (λ s, put_instances
    (foldl (λ im i, map_set (instanceKeyText (i_key i)) i im)
       (foldl (λ im k, map_delete (instanceKeyText k) im) (s_instances s) (ic_removed m)) (ic_changed m)) s) ;;;
  emit (EvInstances m).

Definition handleServerMessage (w : World) (message : ServerRoomMessage) : act :=
  match message with
  | m_ready m => applyReady w m
  | m_rehydrate raw => applyRehydrate w raw
  | m_presence_join p | m_presence_update p => upsertParticipant p
  | m_presence_leave sessionId => removeParticipant sessionId
  | m_run_started run =>
      modify (λ s, put_activeRuns (map_set (r_run_id run) run (s_activeRuns s)) s) ;;; emitActiveRunsChange
  | m_run_finished m =>
      modify (λ s, put_activeRuns (map_delete (rf_run_id m) (s_activeRuns s)) s) ;;; emitActiveRunsChange ;;;
      emit (EvRunFinished m)
  | m_instances_changed m => applyInstancesChanged m
  | m_heartbeat v => modify (put_authorizationVersion (Some v)) ;;; emit (EvAuthorizationVersion v)
  | m_command_accepted m => applyAccepted w m
  | m_command_receipt m => outboxDo w (λ env, applyReceipt env m)
  | m_command_rejected m => outboxDo w (λ _, applyRejected m)
  end.

Inductive MessageData := DataText (text : string) | DataOther (raw : jsval).

Definition messageTypeOf (raw : jsval) : option string := isString (js_get "type" raw).

Definition protocolVersionOf (raw : jsval) : option jsnum :=
  match js_get "protocol_version" raw with JNum n => Some n | _ => None end.

Definition handleRaw (w : World) (raw : jsval) : act :=
  if bool_decide (messageTypeOf raw = Some "room.heartbeat") then skip
  else
    let messageType := messageTypeOf raw in
    let protocolVersion := protocolVersionOf raw in
    if bool_decide (protocolVersion ≫= num_integer ≠ Some ROOM_PROTOCOL_VERSION) then
      stopTraffic w protocol_incompatible (Some
        {| fd_reason := Terminal protocol_incompatible; fd_retryable := false; fd_side := side_client;
           fd_phase := phase_receive; fd_messageType := messageType; fd_protocolVersion := protocolVersion;
           fd_closeCode := None;
           fd_detail := "Expected Project-room protocol 1, received " +:+
                        default "no version" (numberText <$> protocolVersion) +:+ "." |})
    else
      let isAgent := match messageType with Some t => String.prefix "agent." t | None => false end in
      (if isAgent || bool_decide (messageType = Some "room.ready") then emit (EvAgentRoom raw) else skip) ;;;
      if isAgent then skip
      else if match messageType with Some t => bool_decide (t ∉ KNOWN_SERVER_MESSAGE_TYPES) | None => false end then skip
      else
        match parseServerRoomMessage raw with
        | None => recoverTraffic w (receiveFailure messageType protocolVersion
            (match messageType with
             | Some t => if bool_decide (t = "") then "The server sent a message without a valid type."
                         else "The server sent a malformed " +:+ t +:+ " message."
             | None => "The server sent a message without a valid type."
             end))
        | Some message => handleServerMessage w message
        end.

Definition handleMessage (w : World) (data : MessageData) : act :=
  match data with
  | DataText text =>
      match JSON_parse text with
      | Ok raw => handleRaw w raw
      | Throw msg => recoverTraffic w (receiveFailure None None msg)
      end
  | DataOther raw => handleRaw w raw
  end.

(** [reason || fallback] *)
Definition orElse (reason fallback : string) : string := if bool_decide (reason = "") then fallback else reason.

Definition handleClose (w : World) (code : Z) (reason : string) : act :=
  let recover r side :=
    recoverTraffic w {| fd_reason := Recovery r; fd_retryable := true; fd_side := side; fd_phase := phase_close;
      fd_messageType := None; fd_protocolVersion := Some versionNumber; fd_closeCode := Some code;
      fd_detail := orElse reason "The Project room connection closed unexpectedly." |} in
  match terminalReasonFromClose code reason with
  | Some (Terminal r) =>
      stopTraffic w r (Some {| fd_reason := Terminal r; fd_retryable := false; fd_side := side_server;
        fd_phase := phase_close; fd_messageType := None; fd_protocolVersion := Some versionNumber;
        fd_closeCode := Some code;
        fd_detail := orElse reason ("The server closed the Project room (" +:+ reasonText r +:+ ").") |})
  | classified =>
      reading (λ s,
        if s_intentionallyClosed s then setStatus st_idle
        else match classified with
             | Some (Recovery r) => recover r side_server
             | _ => recover connection_lost side_network
             end)
  end.

(** ** Operations *)

Inductive SessionOp :=
| SoConnect | SoRetry | SoDisconnect | SoTimer
| SoReplaceHead (h : CollaborativeHead)
| SoReconcile (h : CollaborativeHead) (expectedRoomEpoch : string)
| SoSubmit (cs : list RoomProjectCommand)
| SoPublish (update : PresenceUpdate)
| SoSocketMessage (generation socket : nat) (data : MessageData)
| SoSocketClose (generation socket : nat) (code : Z) (reason : string)
| SoSocketError (generation socket : nat).

(** A socket's callbacks act only for the current generation and socket. *)
Definition ifCurrent (generation socket : nat) (a : act) : act :=
  reading (λ s, if bool_decide (generation = s_generation s ∧ s_socket s = Some socket) then a else skip).

Definition run_session (w : World) (op : SessionOp) : act :=
  match op with
  | SoConnect => connect w
  | SoRetry => retry w
  | SoDisconnect => disconnect w
  | SoTimer => timerFired w
  | SoReplaceHead h => replaceHead w h
  | SoReconcile h e => λ s, (reconcileCheckpointHead w h e s).2
  | SoSubmit cs => submitCommands w cs
  | SoPublish u => λ s, (publishPresence w u s).2
  | SoSocketMessage g k data => ifCurrent g k (handleMessage w data)
  | SoSocketClose g k code reason => ifCurrent g k (modify (put_socket None) ;;; handleClose w code reason)
  | SoSocketError g k =>
      ifCurrent g k (reading (λ s, if bool_decide (s_status s = st_ready) then setStatus st_unsynchronized else skip))
  end.

End session.
