(* ===== verification/SessionTheory.v ===== *)
(** * Correctness of the room session

    By induction over any sequence of operations and socket events: the session's
    invariant, the confirmed head never goes back within an epoch, a terminal
    session stays terminal, and commands are written only by a session that may
    submit. *)

From S2P Require Import Prelude Js GraphModel GraphCommands Samples RoomBridge RoomBridgeTheory.
From S2P Require Import Protocol ProtocolTheory CommandOutbox OutboxTheory RoomSession.
#[local] Open Scope nat_scope.
#[local] Open Scope act_scope.

(** ** States of composed actions *)

Create Rewrite HintDb act.

Lemma then_state a b s : ((a ;;; b) s).1 = (b (a s).1).1.
Proof. unfold andThen. destruct (a s) as [s1 e1]. simpl. by destruct (b s1). Qed.

Lemma then_events a b s : ((a ;;; b) s).2 = (a s).2 ++ (b (a s).1).2.
Proof. unfold andThen. destruct (a s) as [s1 e1]. simpl. by destruct (b s1). Qed.

Lemma modify_state f s : (modify f s).1 = f s.
Proof. done. Qed.

Lemma emit_state e s : (emit e s).1 = s.
Proof. done. Qed.

Lemma skip_state s : (skip s).1 = s.
Proof. done. Qed.

Lemma reading_state k s : (reading k s).1 = (k s s).1.
Proof. done. Qed.

Lemma setStatus_state x s : (setStatus x s).1 = put_status x s.
Proof. unfold setStatus, reading. case_bool_decide as H; [|done]. by destruct s; simpl in *; subst. Qed.

Lemma setFailure_state f s : (setFailure f s).1 = put_lastFailure f s.
Proof. done. Qed.

Lemma clearPresence_state s : (clearPresence s).1 = put_participants [] s.
Proof. unfold clearPresence, reading. destruct s as [? ? ? ? ? ? ? ? ? ? ? ? [|] ? ? ? ? ?]; reflexivity. Qed.

Lemma dropSocket_state w s : (dropSocket w s).1 = put_socket None s.
Proof. unfold dropSocket, reading. rewrite then_state. destruct (s_socket s) as [k|]; [|done]. by destruct (_ <? _). Qed.

Lemma clearTimer_state s : (clearReconnectTimer s).1 = put_reconnectTimer None s.
Proof. done. Qed.

Lemma emitPresence_state s : (emitPresenceChange s).1 = s.
Proof. done. Qed.

Lemma emitRuns_state s : (emitActiveRunsChange s).1 = s.
Proof. done. Qed.

Lemma silent_outbox_state w op s :
  (∀ env b, sends (op env b) = []) → (outboxDo w op s).1 = put_outbox (box (op (outboxEnv w s) (s_outbox s))) s.
Proof. intros Hs. unfold outboxDo, reading. by rewrite then_state, Hs. Qed.

#[export] Hint Rewrite then_state modify_state emit_state skip_state reading_state setStatus_state setFailure_state
  clearPresence_state dropSocket_state clearTimer_state emitPresence_state emitRuns_state : act.

(** *** The outbox part of the state *)

(** The outbox is one that some run of its operations produces. *)
Definition outbox_reachable (b : Outbox) : Prop := ∃ submitted done fs, outbox_run b submitted done fs.

Lemma reachable_op env op b : outbox_reachable b → outbox_reachable (box (run_op env op b)).
Proof. intros (s & d & fs & H). do 3 eexists. by apply run_step. Qed.

Lemma writeSends_state w l s :
  outbox_reachable (s_outbox s) →
  ∃ b, (writeSends w l s).1 = put_outbox b s ∧ outbox_reachable b.
Proof.
  revert s. induction l as [|o l IH]; intros s Hs; simpl.
  { exists (s_outbox s). split; [by destruct s|done]. }
  rewrite then_state. unfold writeSend, reading. destruct (s_socket s) as [k|] eqn:Hk; [|by apply IH].
  destruct (w_send w) as [error|]; [|by apply IH]. simpl.
  destruct (IH (put_outbox (box (sendFailed (out_commandId o) error (s_outbox s))) s)) as (b & -> & Hb).
  { simpl. exact (reachable_op {| headPointer := None; canSend := false |} (OpSendFailed (out_commandId o) error) _ Hs). }
  exists b. split; [by destruct s|done].
Qed.

(** Any outbox operation changes nothing of the session but its outbox, which
    stays reachable. *)
Lemma outboxDo_state w op o s :
  (∀ env b, op env b = run_op env o b) → outbox_reachable (s_outbox s) →
  ∃ b, (outboxDo w op s).1 = put_outbox b s ∧ outbox_reachable b.
Proof.
  intros Hop Hs. unfold outboxDo, reading. rewrite then_state. simpl. rewrite Hop.
  match goal with |- context [writeSends w ?l ?s'] => destruct (writeSends_state w l s') as (b & -> & Hb) end.
  { simpl. by apply reachable_op. }
  exists b. split; [by destruct s|done].
Qed.

Section session.
Context (opts : SessionOptions).
Context (asHead : jsval → CollaborativeHead) (asCommand : jsval → RoomProjectCommand).
Context (JSON_parse : string → res jsval) (numberText : jsnum → string).

Notation run := (run_session opts asHead asCommand JSON_parse numberText).
Notation recover := (recoverTraffic opts numberText).
Notation stop := (stopTraffic opts).

(** ** The invariant *)

Record session_ok (s : Session) : Prop := {
  so_terminal : ∀ r, s_terminalReason s = Some r →
    s_intentionallyClosed s = true ∧ (s_status s = st_stopped ∨ s_status s = st_idle);
  so_closed : s_intentionallyClosed s = true → s_socket s = None ∧ s_reconnectTimer s = None;
  so_ready : s_status s = st_ready →
    is_Some (s_head s) ∧ is_Some (s_ready s) ∧ is_Some (s_socket s) ∧ s_terminalReason s = None;
  so_stopped : s_status s = st_stopped → is_Some (s_terminalReason s);
  so_attempts : s_reconnectAttempts s ≤ maxReconnectAttempts opts;
  so_outbox : outbox_reachable (s_outbox s)
}.

Lemma stop_state w r f s :
  outbox_reachable (s_outbox s) →
  let s' := (stop w r f s).1 in
  s_terminalReason s' = Some r ∧ s_intentionallyClosed s' = true ∧ s_socket s' = None ∧ s_reconnectTimer s' = None ∧
  s_status s' = st_stopped ∧ s_head s' = s_head s ∧ s_reconnectAttempts s' = s_reconnectAttempts s ∧
  s_capabilities s' = [] ∧ outbox_reachable (s_outbox s').
Proof.
  intros Hb. cbv zeta. unfold stopTraffic. autorewrite with act. rewrite silent_outbox_state by done.
  destruct f; autorewrite with act; simpl; split_and!; try done;
    exact (reachable_op {| headPointer := None; canSend := false |} (OpRejectAll (WriteError "")) _ Hb).
Qed.

Lemma stop_ok w r f s :
  s_reconnectAttempts s ≤ maxReconnectAttempts opts → outbox_reachable (s_outbox s) → session_ok (stop w r f s).1.
Proof.
  intros Ha Hb. destruct (stop_state w r f s Hb) as (Ht & Hc & Hs & Htm & Hst & Hh & Hat & _ & Hb').
  split; rewrite ?Ht, ?Hst, ?Hat; try done. intros r' _. split; [done|by left].
Qed.

(** What a recovery starts from: a live session, whatever its socket and status. *)
Record live (s : Session) : Prop := {
  lv_open : s_intentionallyClosed s = false;
  lv_terminal : s_terminalReason s = None;
  lv_attempts : s_reconnectAttempts s ≤ maxReconnectAttempts opts;
  lv_outbox : outbox_reachable (s_outbox s)
}.

(** The state [recoverTraffic] hands to [scheduleReconnect]: what matters of it. *)
Lemma recover_schedules w f s :
  ∃ s1, (recover w f s).1 = (scheduleReconnect opts numberText w s1).1 ∧
    s_intentionallyClosed s1 = s_intentionallyClosed s ∧ s_terminalReason s1 = s_terminalReason s ∧
    s_reconnectAttempts s1 = s_reconnectAttempts s ∧ s_head s1 = s_head s ∧ s_socket s1 = None ∧
    s_status s1 = st_unsynchronized ∧ s_outbox s1 = interruptInFlight (s_outbox s).
Proof.
  unfold recoverTraffic. rewrite !then_state. eexists. split; [reflexivity|].
  autorewrite with act. rewrite silent_outbox_state by reflexivity. autorewrite with act.
  split_and!; reflexivity.
Qed.

Lemma recover_state w f s :
  live s →
  let s' := (recover w f s).1 in
  session_ok s' ∧ s_head s' = s_head s ∧ s_socket s' = None ∧
  (if maxReconnectAttempts opts <=? s_reconnectAttempts s
   then s_terminalReason s' = Some reconnect_exhausted ∧ s_status s' = st_stopped
   else s_terminalReason s' = None ∧ s_status s' = st_unsynchronized ∧
        s_reconnectTimer s' = Some (backoff opts (s_reconnectAttempts s)) ∧
        s_reconnectAttempts s' = S (s_reconnectAttempts s) ∧ s_outbox s' = interruptInFlight (s_outbox s)).
Proof.
  intros [Ho Ht Ha Hb]. cbv zeta.
  destruct (recover_schedules w f s) as (s1 & -> & Ho1 & Ht1 & Ha1 & Hh1 & Hs1 & Hst1 & Hb1).
  assert (outbox_reachable (s_outbox s1)) as Hr.
  { rewrite Hb1. exact (reachable_op {| headPointer := None; canSend := false |} OpInterruptInFlight _ Hb). }
  unfold scheduleReconnect, reading. rewrite Ho1, Ht1, Ha1, Ho, Ht. cbn [orb].
  rewrite bool_decide_false by (by intros []).
  destruct (maxReconnectAttempts opts <=? s_reconnectAttempts s) eqn:Hmax.
  - match goal with |- context [stopTraffic opts w ?r ?f' s1] =>
      pose proof (stop_ok w r f' s1) as Hok; pose proof (stop_state w r f' s1 Hr) as (Hr' & _ & Hs' & _ & Hst' & Hh & _) end.
    split_and!; [apply Hok; [lia|done]|by rewrite Hh|done..].
  - apply Nat.leb_gt in Hmax. autorewrite with act. split_and!; try done; [|simpl; by rewrite Ht1, Ht].
    split; simpl; rewrite ?Ht1, ?Ho1, ?Hst1, ?Ha1, ?Ht, ?Ho; try done; lia.
Qed.

Lemma recover_ok w f s : live s → session_ok (recover w f s).1.
Proof. intros H. by destruct (recover_state w f s H). Qed.

(** A session with a socket is live. *)
Lemma socket_live s k : session_ok s → s_socket s = Some k → live s.
Proof.
  intros [Ht Hc _ _ Ha Hb] Hk.
  assert (s_intentionallyClosed s = false) as Hcl.
  { destruct (s_intentionallyClosed s); [|done]. destruct Hc as [Hn _]; [done|congruence]. }
  split; try done. destruct (s_terminalReason s) as [r|]; [|done]. destruct (Ht r) as [? _]; [done|congruence].
Qed.

(** Replacing the outbox by a reachable one keeps the invariant. *)
Lemma put_outbox_ok s b : session_ok s → outbox_reachable b → session_ok (put_outbox b s).
Proof. intros [] Hb. by split. Qed.

Lemma outboxDo_ok w op o s : (∀ env b, op env b = run_op env o b) → session_ok s → session_ok (outboxDo w op s).1.
Proof.
  intros Hop Hok. destruct (outboxDo_state w op o s Hop (so_outbox s Hok)) as (b & -> & Hb). by apply put_outbox_ok.
Qed.

(** A new head keeps the invariant. *)
Lemma put_head_ok s h : session_ok s → session_ok (put_head (Some h) s).
Proof. intros [? ? Hr ? ? ?]. split; try done. simpl. intros Hs. destruct (Hr Hs) as (_ & ?). eauto. Qed.

Lemma live_put_socket s k : live s → live (put_socket k s).
Proof. intros []. by split. Qed.

Lemma openSocket_ok w s :
  live s → s_reconnectTimer s = None → session_ok (openSocket opts numberText w s).1.
Proof.
  intros Hl Htm. pose proof Hl as [Ho Ht Ha Hb]. unfold openSocket, reading. rewrite Ho, Ht. cbn [orb].
  rewrite bool_decide_false by (by intros []). rewrite !then_state, modify_state, setStatus_state.
  destruct (w_factory w) as [socket|error].
  - autorewrite with act. split; simpl; try done; try congruence; by destruct (s_head s).
  - apply recover_ok. by split.
Qed.

Lemma replaceHead_ok w h s : session_ok s → session_ok (replaceHead w h s).1.
Proof.
  intros Hok. unfold replaceHead, reading. destruct (shouldReplaceCollaborativeHead _ _).
  - rewrite then_state. by apply (outboxDo_ok w _ OpFinishHeadRehydration), put_head_ok.
  - destruct (pendingReceiptIsCovered _ _); [by apply (outboxDo_ok w _ OpFinishHeadRehydration)|done].
Qed.

Lemma reconcile_ok w h e s : session_ok s → session_ok ((reconcileCheckpointHead w h e s).2).1.
Proof.
  intros Hok. unfold reconcileCheckpointHead. destruct (s_head s) as [cur|]; [|done].
  repeat (case_bool_decide; [done|]).
  pose proof (replaceHead_ok w h s Hok) as Hok1. destruct (replaceHead w h s) as [s1 e1]. simpl in Hok1.
  destruct (s_head s1) as [eff|]; [|done]. destruct (_ && _); [|done].
  match goal with |- context [replaceHead w ?m s1] =>
    pose proof (replaceHead_ok w m s1 Hok1) as Hok2; destruct (replaceHead w m s1) end. done.
Qed.

Lemma publish_ok w u s : session_ok s → session_ok ((publishPresence w u s).2).1.
Proof.
  intros Hok. unfold publishPresence. destruct (negb _); [done|]. destruct (_ && _); [done|].
  destruct (s_socket s); [|done]. destruct (negb _); [done|]. destruct Hok. destruct (w_send w); split; assumption.
Qed.

(** ** The head *)

(** The head is kept, or replaced by one of another epoch or of no lower
    sequence. *)
Definition head_advances (s s' : Session) : Prop :=
  ∀ h, s_head s = Some h → ∃ h', s_head s' = Some h' ∧
    (h_room_epoch h' = h_room_epoch h → (h_collaboration_sequence h ≤ h_collaboration_sequence h')%Z).

Lemma head_kept s s' : s_head s' = s_head s → head_advances s s'.
Proof. intros Heq h Hh. exists h. split; [congruence|lia]. Qed.

Lemma should_replace_spec h h' :
  shouldReplaceCollaborativeHead (Some h) h' = true ↔
  (h_room_epoch h' = h_room_epoch h → (h_collaboration_sequence h ≤ h_collaboration_sequence h')%Z).
Proof.
  simpl. case_bool_decide as He; [|rewrite bool_decide_eq_true].
  - split; [|done]. intros _ Heq. by destruct He.
  - split; [done|]. intros Hs. apply Hs. by destruct (decide (h_room_epoch h = h_room_epoch h')).
Qed.

Lemma head_replaced s s' h' :
  s_head s' = Some h' → shouldReplaceCollaborativeHead (s_head s) h' = true → head_advances s s'.
Proof.
  intros Hs' Hr h Hh. exists h'. split; [done|]. rewrite Hh in Hr. by apply should_replace_spec.
Qed.

Lemma head_advances_trans s1 s2 s3 : head_advances s1 s2 → head_advances s2 s3 →
  (∀ h1 h2 h3, s_head s1 = Some h1 → s_head s2 = Some h2 → s_head s3 = Some h3 →
     h_room_epoch h3 = h_room_epoch h1 → h_room_epoch h2 = h_room_epoch h1) →
  head_advances s1 s3.
Proof.
  intros H12 H23 He h Hh. destruct (H12 h Hh) as (h2 & Hh2 & Hs2). destruct (H23 h2 Hh2) as (h3 & Hh3 & Hs3).
  exists h3. split; [done|]. intros Heq. specialize (He h h2 h3 Hh Hh2 Hh3 Heq).
  etrans; [by apply Hs2|]. apply Hs3. congruence.
Qed.

Lemma outboxDo_head w op o s :
  (∀ env b, op env b = run_op env o b) → outbox_reachable (s_outbox s) → s_head (outboxDo w op s).1 = s_head s.
Proof. intros Hop Hb. by destruct (outboxDo_state w op o s Hop Hb) as (b & -> & _). Qed.

Lemma replaceHead_head w h s :
  outbox_reachable (s_outbox s) →
  s_head (replaceHead w h s).1 = if shouldReplaceCollaborativeHead (s_head s) h then Some h else s_head s.
Proof.
  intros Hb. unfold replaceHead, reading. destruct (shouldReplaceCollaborativeHead (s_head s) h).
  - rewrite then_state. by rewrite (outboxDo_head w _ OpFinishHeadRehydration).
  - destruct (pendingReceiptIsCovered _ _); [|done]. by rewrite (outboxDo_head w _ OpFinishHeadRehydration).
Qed.

Lemma replaceHead_advances w h s : session_ok s → head_advances s (replaceHead w h s).1.
Proof.
  intros Hok. pose proof (replaceHead_head w h s (so_outbox s Hok)) as Hh.
  destruct (shouldReplaceCollaborativeHead (s_head s) h) eqn:Hr; [by eapply head_replaced|by apply head_kept].
Qed.

(** What an operation has to guarantee. *)
Definition step_good (s s' : Session) : Prop := session_ok s' ∧ head_advances s s'.

Lemma recover_good w f s : live s → step_good s (recover w f s).1.
Proof. intros Hl. destruct (recover_state w f s Hl) as (Hok & Hh & _). split; [done|]. by apply head_kept. Qed.

Lemma stop_good w r f s : session_ok s → step_good s (stop w r f s).1.
Proof.
  intros [? ? ? ? Ha Hb]. split; [by apply stop_ok|]. apply head_kept. by destruct (stop_state w r f s Hb) as (_ & _ & _ & _ & _ & ? & _).
Qed.

Lemma outboxDo_good w op o s : (∀ env b, op env b = run_op env o b) → session_ok s → step_good s (outboxDo w op s).1.
Proof.
  intros Hop Hok. split; [by eapply outboxDo_ok|]. apply head_kept. by apply (outboxDo_head w op o s Hop), so_outbox.
Qed.

Lemma applyAccepted_good w m s : session_ok s → step_good s (applyAccepted asCommand w m s).1.
Proof.
  intros Hok. unfold applyAccepted, reading.
  destruct (recordAccepted m (s_outbox s)) as [b local] eqn:Hrec.
  assert (outbox_reachable b) as Hb.
  { pose proof (reachable_op {| headPointer := None; canSend := false |} (OpRecordAccepted m) _ (so_outbox s Hok)) as H.
    simpl in H. by rewrite Hrec in H. }
  pose proof (put_outbox_ok s b Hok Hb) as Hok1. rewrite then_state, modify_state.
  assert (∀ s', step_good (put_outbox b s) s' → step_good s s') as Hvia by (intros s' []; by split).
  pose proof (outboxDo_good w (λ _, requestHeadRefresh) OpRequestHeadRefresh (put_outbox b s) (λ _ _, eq_refl) Hok1) as Href.
  destruct (s_head s) as [h|] eqn:Hh; [|by apply Hvia].
  case_bool_decide as He; [by apply Hvia|]. case_bool_decide as Hle; [by apply Hvia; split; [|by apply head_kept]|].
  case_bool_decide as Hne; [by apply Hvia|].
  destruct (applyRoomCommandsToHead h (asCommand <$> ca_commands m) (ca_sequence m)) as [h'|] eqn:Happ; [|by apply Hvia].
  rewrite !then_state, modify_state, emit_state. split.
  - by apply (outboxDo_ok w _ OpAfterHeadApplied), put_head_ok.
  - apply (head_replaced _ _ h').
    + by rewrite (outboxDo_head w _ OpAfterHeadApplied).
    + rewrite Hh. apply should_replace_spec. intros _.
      assert (h_collaboration_sequence h' = h_collaboration_sequence h ∨ h_collaboration_sequence h' = ca_sequence m) as Hseq.
      { revert Happ. unfold applyRoomCommandsToHead. destruct (asCommand <$> ca_commands m) as [|c cs].
        - intros [= <-]. by left.
        - intros Happ. right. eapply (replay_sequence h (c :: cs)); [exact Happ|done]. }
      lia.
Qed.

Lemma applyReady_good w m s k :
  session_ok s → s_socket s = Some k → step_good s (applyReady opts asHead numberText w m s).1.
Proof.
  intros Hok Hk. pose proof (socket_live s k Hok Hk) as Hl. unfold applyReady.
  case_bool_decide; [by apply recover_good|]. unfold reading at 1.
  set (h := match s_head s with Some h => _ | None => _ end).
  assert (shouldReplaceCollaborativeHead (s_head s) h = true) as Hh.
  { subst h. destruct (s_head s) as [h0|]; [|done].
    destruct (shouldReplaceCollaborativeHead (Some h0) (asHead (rm_head m))) eqn:E; [done|].
    apply should_replace_spec. lia. }
  clearbody h. rewrite !then_state. autorewrite with act.
  match goal with |- step_good s (outboxDo w _ ?s').1 => set (s1 := s') end.
  assert (session_ok s1 ∧ s_head s1 = Some h) as [Hok1 Hh1].
  { destruct Hok as [Ht Hc Hr Hst Ha Hb], Hl as [Ho Htm _ _]. split; [|reflexivity]. split; unfold s1; simpl;
      rewrite ?Htm, ?Ho, ?Hk; try done; try lia. }
  clearbody s1. destruct (outboxDo_good w finishHeadRehydration OpFinishHeadRehydration s1 (λ _ _, eq_refl) Hok1) as [Hok2 _].
  split; [done|]. eapply head_replaced; [|exact Hh]. by rewrite (outboxDo_head w _ OpFinishHeadRehydration s1); [|done|apply Hok1].
Qed.

Lemma applyRehydrate_good w raw s : session_ok s → step_good s (applyRehydrate asHead w raw s).1.
Proof.
  intros Hok. unfold applyRehydrate, reading.
  assert (shouldReplaceCollaborativeHead (s_head s) (asHead raw) = true →
    step_good s (outboxDo w finishHeadRehydration (put_head (Some (asHead raw)) s)).1) as Hrepl.
  { intros Hr. pose proof (put_head_ok s (asHead raw) Hok) as Hok1. split; [by eapply (outboxDo_ok w _ OpFinishHeadRehydration)|].
    eapply head_replaced; [|exact Hr]. by rewrite (outboxDo_head w _ OpFinishHeadRehydration); [|done|apply Hok]. }
  destruct (s_head s) as [h|] eqn:Hh.
  - destruct (shouldReplaceCollaborativeHead (Some h) (asHead raw)); autorewrite with act; [by apply Hrepl|].
    split; [done|by apply head_kept].
  - autorewrite with act. by apply Hrepl.
Qed.

(** Changes of presence, runs and instances only. *)
Lemma data_good s s' :
  session_ok s → s_terminalReason s' = s_terminalReason s → s_intentionallyClosed s' = s_intentionallyClosed s →
  s_status s' = s_status s → s_socket s' = s_socket s → s_reconnectTimer s' = s_reconnectTimer s →
  s_head s' = s_head s → s_ready s' = s_ready s → s_reconnectAttempts s' = s_reconnectAttempts s →
  s_outbox s' = s_outbox s → step_good s s'.
Proof.
  intros [Ht Hc Hr Hst Ha Hb] E1 E2 E3 E4 E5 E6 E7 E8 E9. split; [|by apply head_kept].
  split; rewrite ?E1, ?E2, ?E3, ?E4, ?E5, ?E6, ?E7, ?E8, ?E9; done.
Qed.

Lemma handleServerMessage_good w message s k :
  session_ok s → s_socket s = Some k →
  step_good s (handleServerMessage opts asHead asCommand numberText w message s).1.
Proof.
  intros Hok Hk. destruct message; cbn [handleServerMessage].
  - by eapply applyReady_good.
  - unfold upsertParticipant. rewrite then_state. by apply data_good.
  - unfold upsertParticipant. rewrite then_state. by apply data_good.
  - unfold removeParticipant, reading. destruct (map_has _ _); [rewrite then_state|]; by apply data_good.
  - rewrite then_state. by apply data_good.
  - rewrite !then_state. by apply data_good.
  - unfold applyInstancesChanged. rewrite then_state. by apply data_good.
  - by apply applyAccepted_good.
  - by apply (outboxDo_good w _ (OpReceipt m)).
  - by apply (outboxDo_good w _ (OpRejected m)).
  - by apply applyRehydrate_good.
  - rewrite then_state. by apply data_good.
Qed.

Lemma handleRaw_good w raw s k :
  session_ok s → s_socket s = Some k → step_good s (handleRaw opts asHead asCommand numberText w raw s).1.
Proof.
  intros Hok Hk. unfold handleRaw. case_bool_decide; [by apply data_good|].
  case_bool_decide; [by apply stop_good|]. rewrite then_state.
  assert (∀ b : bool, ((if b then emit (EvAgentRoom raw) else skip) s).1 = s) as -> by (by intros []).
  destruct (match messageTypeOf raw with Some t => String.prefix "agent." t | None => false end); [by apply data_good|].
  destruct (match messageTypeOf raw with Some t => bool_decide (t ∉ KNOWN_SERVER_MESSAGE_TYPES) | None => false end); [by apply data_good|].
  destruct (parseServerRoomMessage raw); [by eapply handleServerMessage_good|].
  apply recover_good. by eapply socket_live.
Qed.

Lemma handleMessage_good w data s k :
  session_ok s → s_socket s = Some k → step_good s (handleMessage opts asHead asCommand JSON_parse numberText w data s).1.
Proof.
  intros Hok Hk. destruct data; simpl; [|by eapply handleRaw_good].
  destruct (JSON_parse text); [by eapply handleRaw_good|]. apply recover_good. by eapply socket_live.
Qed.

Lemma handleClose_good w code reason s k :
  session_ok s → s_socket s = Some k →
  step_good s (handleClose opts numberText w code reason (put_socket None s)).1.
Proof.
  intros Hok Hk. pose proof (live_put_socket s None (socket_live s k Hok Hk)) as Hl. pose proof Hl as [Ho _ Ha Hb].
  unfold handleClose.
  assert (∀ f, step_good s (recover w f (put_socket None s)).1) as Hrec.
  { intros f. destruct (recover_good w f (put_socket None s) Hl) as [H1 H2]. by split. }
  assert (∀ r f, step_good s (stop w r f (put_socket None s)).1) as Hstop.
  { intros r f. split; [by apply stop_ok|]. apply head_kept.
    by destruct (stop_state w r f (put_socket None s) Hb) as (_ & _ & _ & _ & _ & ? & _). }
  destruct (terminalReasonFromClose code reason) as [[r|r]|]; [|apply Hstop|]; unfold reading; rewrite Ho; apply Hrec.
Qed.

Lemma openSocket_good w s0 s :
  live s → s_reconnectTimer s = None → s_head s = s_head s0 → step_good s0 (openSocket opts numberText w s).1.
Proof.
  intros Hl Htm Hh. split; [by apply openSocket_ok|]. apply head_kept. rewrite <- Hh. pose proof Hl as [Ho Ht Ha Hb].
  unfold openSocket, reading. rewrite Ho, Ht. cbn [orb]. rewrite bool_decide_false by (by intros []).
  rewrite !then_state, modify_state, setStatus_state. destruct (w_factory w) as [socket|error]; [done|].
  assert (live (put_status (if s_head s then st_reconnecting else st_connecting) (put_generation (S (s_generation s)) s))) as Hl'.
  { by split. }
  by destruct (recover_state w (connectFailure error) _ Hl') as (_ & -> & _).
Qed.

Lemma step_good_refl s : session_ok s → step_good s s.
Proof. intros Hok. split; [done|by apply head_kept]. Qed.

Lemma reconcile_advances w h e s : session_ok s → head_advances s ((reconcileCheckpointHead w h e s).2).1.
Proof.
  intros Hok. unfold reconcileCheckpointHead. destruct (s_head s) as [cur|] eqn:Hc; [|by apply head_kept].
  case_bool_decide as He; [by apply head_kept|]. case_bool_decide as He'; [by apply head_kept|].
  pose proof (replaceHead_ok w h s Hok) as Hok1. pose proof (replaceHead_advances w h s Hok) as Hadv.
  pose proof (replaceHead_head w h s (so_outbox s Hok)) as Hh1.
  destruct (replaceHead w h s) as [s1 e1]. cbn [fst] in *. rewrite Hc in Hh1.
  assert (∀ h1, s_head s1 = Some h1 → h_room_epoch h1 = e) as Hep.
  { intros h1 Heq. rewrite Heq in Hh1. destruct (shouldReplaceCollaborativeHead _ _); congruence. }
  destruct (s_head s1) as [eff|] eqn:Hs1; [|done]. destruct (_ && _); [|done].
  match goal with |- context [replaceHead w ?m s1] => pose proof (replaceHead_advances w m s1 Hok1) as Hadv2;
    destruct (replaceHead w m s1) as [s2 e2] end. cbn [fst snd] in *.
  eapply head_advances_trans; [exact Hadv|exact Hadv2|]. intros h1 h2 h3 H1 H2 _ _.
  rewrite Hc in H1. injection H1 as <-. rewrite Hs1 in H2. injection H2 as <-. by rewrite (Hep eff).
Qed.

Lemma disconnect_good w s : session_ok s → step_good s (disconnect w s).1.
Proof.
  intros [Ht Hc Hr Hst Ha Hb]. unfold disconnect. rewrite !then_state. autorewrite with act.
  rewrite (silent_outbox_state w (λ _, rejectAll _)) by reflexivity.
  rewrite (silent_outbox_state w (λ _ b, quiet (clearLocalCommands b))) by reflexivity. autorewrite with act.
  split; [|by apply head_kept]. split; simpl; try done; try lia.
  - intros r Hterm. split; [done|by right].
  - exact (reachable_op {| headPointer := None; canSend := false |} OpClearLocal _
      (reachable_op {| headPointer := None; canSend := false |} (OpRejectAll (WriteError "")) _ Hb)).
Qed.

Lemma run_good w op s : session_ok s → step_good s (run w op s).1.
Proof.
  intros Hok. pose proof Hok as [Ht Hc Hr Hst Ha Hb].
  assert (∀ g k a, (s_socket s = Some k → step_good s (a s).1) → step_good s (ifCurrent g k a s).1) as Hcur.
  { intros g k a Hgood. unfold ifCurrent, reading. case_bool_decide as H; [apply Hgood; by destruct H|by apply step_good_refl]. }
  destruct op; cbn [run_session].
  - unfold connect, reading. destruct (s_terminalReason s) as [r|] eqn:Hterm; [by apply step_good_refl|].
    rewrite !then_state. apply openSocket_good; [by split|done|done].
  - unfold retry, reading. case_bool_decide; [|by apply step_good_refl].
    rewrite !then_state. apply openSocket_good; [|done|done]. split; try done. simpl; lia.
  - by apply disconnect_good.
  - unfold timerFired, reading. destruct (s_reconnectTimer s) eqn:Htimer; [|by apply step_good_refl].
    assert (s_intentionallyClosed s = false) as Ho.
    { destruct (s_intentionallyClosed s); [|done]. destruct Hc as [_ ?]; [done|congruence]. }
    assert (s_terminalReason s = None) as Hterm.
    { destruct (s_terminalReason s) as [r|]; [|done]. destruct (Ht r) as [? _]; [done|congruence]. }
    rewrite then_state, Ho, Hterm. cbn [orb]. rewrite bool_decide_false by (by intros []).
    apply openSocket_good; [by split|done|done].
  - split; [by apply replaceHead_ok|by apply replaceHead_advances].
  - split; [by apply reconcile_ok|by apply reconcile_advances].
  - unfold submitCommands, reading. destruct (_ || _); [by apply step_good_refl|].
    by apply (outboxDo_good w _ (OpSubmit (w_newCommandId w) cs)).
  - split; [by apply publish_ok|]. apply head_kept. unfold publishPresence.
    destruct (negb _); [done|]. destruct (_ && _); [done|]. destruct (s_socket s); [|done].
    destruct (negb _); [done|]. by destruct (w_send w).
  - apply Hcur. intros Hk. by eapply handleMessage_good.
  - apply Hcur. intros Hk. rewrite then_state. by eapply handleClose_good.
  - apply Hcur. intros Hk. unfold reading. case_bool_decide; [|by apply step_good_refl].
    rewrite setStatus_state. split; [|by apply head_kept]. split; simpl; try done.
    intros r Hterm. destruct (Ht r Hterm) as [_ [|]]; congruence.
Qed.

(** ** Runs *)

(** Any sequence of operations and socket events, with any world at each. *)
Inductive session_run : Session → list SessionEvent → Prop :=
| session_start : session_run newSession []
| session_step w op s trace :
    session_run s trace → session_run (run w op s).1 (trace ++ (run w op s).2).

Lemma newSession_ok : session_ok newSession.
Proof. split; simpl; try done; [lia|]. exists [], [], []. constructor. Qed.

Lemma run_ok s trace : session_run s trace → session_ok s.
Proof. induction 1 as [|w op s trace Hrun IH]; [apply newSession_ok|]. by apply run_good. Qed.

(** In every run of the session: a terminal session is closed for good measure
    (no socket, no timer) and shows as stopped or idle; a ready session has a
    head, a ready message and a socket and no terminal reason; reconnect attempts
    stay within the limit; and the outbox is one its own operations produce. *)
Theorem session_invariant s trace : session_run s trace → session_ok s.
Proof. exact (run_ok s trace). Qed.

(** C2: the confirmed head never goes back: once there is a head there always is
    one, and within an epoch its collaboration sequence never decreases, whatever
    messages, checkpoints, late fetches and reconnections come in whatever order. *)
Theorem head_never_goes_back w op s trace :
  session_run s trace → head_advances s (run w op s).1.
Proof. intros Hrun. exact (proj2 (run_good w op s (run_ok s trace Hrun))). Qed.

(** ** What an action can do to the outside

    [never P a]: no state makes [a] emit an event of kind [P]. *)
Definition never (P : SessionEvent → Prop) (a : act) : Prop := ∀ s e, e ∈ (a s).2 → ¬ P e.

Section never.
Context (P : SessionEvent → Prop).

Lemma never_skip : never P skip.
Proof. intros s e He. by apply elem_of_nil in He. Qed.

Lemma never_modify f : never P (modify f).
Proof. intros s e He. by apply elem_of_nil in He. Qed.

Lemma never_emit e : ¬ P e → never P (emit e).
Proof. intros Hp s e' He. by apply list_elem_of_singleton in He as ->. Qed.

Lemma never_then a b : never P a → never P b → never P (a ;;; b).
Proof. intros Ha Hb s e. rewrite then_events, elem_of_app. intros [He|He]; [by eapply Ha|by eapply Hb]. Qed.

Lemma never_reading k : (∀ s, never P (k s)) → never P (reading k).
Proof. intros Hk s e He. by eapply Hk. Qed.
End never.

(** The events of a live connection: frames, openings, the authorization
    listener.  Everything else (status, failures, presence, runs, settled promises,
    closings) is bookkeeping. *)
Definition outward (e : SessionEvent) : Prop :=
  match e with
  | EvWroteCommand _ | EvWrotePresence _ | EvOpened _ | EvAuthorizationVersion _ => True
  | _ => False
  end.

Lemma never_outbox_events d : never outward (λ s, (put_outbox (box d) s, EvOutbox <$> events d)).
Proof. intros s e (x & -> & _)%list_elem_of_fmap. by intros []. Qed.

Lemma never_silent_outbox w op : (∀ env b, sends (op env b) = []) → never outward (outboxDo w op).
Proof.
  intros Hs. apply never_reading. intros s. apply never_then; [apply never_outbox_events|]. rewrite Hs. apply never_skip.
Qed.

(** Walk through an action, unfolding the small steps. *)
Ltac quiet_act :=
  repeat (cbv beta; lazymatch goal with
  | |- never _ (andThen _ _) => apply never_then
  | |- never _ (modify _) => apply never_modify
  | |- never _ skip => apply never_skip
  | |- never _ (reading _) => apply never_reading; intro
  | |- never _ (emit _) => apply never_emit; by intros []
  | |- never _ (outboxDo _ _) => apply never_silent_outbox; reflexivity
  | |- never _ (if ?b then _ else _) => destruct b
  | |- never _ (match ?x with _ => _ end) => destruct x
  | |- never _ (setStatus _) => unfold setStatus
  | |- never _ (setFailure _) => unfold setFailure
  | |- never _ clearPresence => unfold clearPresence
  | |- never _ (dropSocket _) => unfold dropSocket
  | |- never _ clearReconnectTimer => unfold clearReconnectTimer
  | |- never _ emitPresenceChange => unfold emitPresenceChange
  | |- never _ emitActiveRunsChange => unfold emitActiveRunsChange
  end).

Lemma stop_quiet w r f : never outward (stop w r f).
Proof. unfold stopTraffic. quiet_act. Qed.

Lemma recover_quiet w f : never outward (recover w f).
Proof. unfold recoverTraffic, scheduleReconnect. quiet_act. apply stop_quiet. Qed.

(** *** Writing commands *)

Definition is_write (e : SessionEvent) : Prop := match e with EvWroteCommand _ => True | _ => False end.

Lemma never_write a : never outward a → never is_write a.
Proof. intros Ha s e He Hw. apply (Ha s e He). by destruct e. Qed.

(** Whoever writes a command may: the session is ready, has a head and the right to
    edit, and its socket is open. *)
Definition writes_permitted (w : World) (a : act) : Prop :=
  ∀ s m, EvWroteCommand m ∈ (a s).2 → canSendCommand w (a s).1 = true.

Lemma wp_never w a : never is_write a → writes_permitted w a.
Proof. intros Ha s m Hm. by destruct (Ha s _ Hm). Qed.

Lemma wp_then w a b : never is_write a → writes_permitted w b → writes_permitted w (a ;;; b).
Proof.
  intros Ha Hb s m. rewrite then_events, then_state, elem_of_app. intros [Hm|Hm]; [by destruct (Ha s _ Hm)|by eapply Hb].
Qed.

Lemma wp_reading w k : (∀ s, writes_permitted w (k s)) → writes_permitted w (reading k).
Proof. intros Hk s m. apply Hk. Qed.

Lemma wp_outboxDo w op o : (∀ env b, op env b = run_op env o b) → writes_permitted w (outboxDo w op).
Proof.
  intros Hop s m. unfold outboxDo, reading. rewrite then_events, then_state, elem_of_app, Hop.
  set (d := run_op (outboxEnv w s) o (s_outbox s)). intros [Hm|Hm].
  { apply list_elem_of_fmap in Hm as (? & [=] & _). }
  destruct (one_flight_op (outboxEnv w s) o (s_outbox s)) as [Hs|(f & hp & msg & _ & Hs & _ & Hc & _)]; fold d in Hs.
  { rewrite Hs in Hm. by apply elem_of_nil in Hm. }
  rewrite Hs in *. cbn [writeSends] in *. rewrite then_events in Hm. rewrite then_state.
  unfold writeSend, reading in *. cbn [fst snd] in *.
  destruct (s_socket (put_outbox (box d) s)); [|by apply elem_of_nil in Hm].
  destruct (w_send w) as [error|]; cbn [fst snd emit skip out_message] in *; [|exact Hc].
  rewrite app_nil_r in Hm. apply list_elem_of_fmap in Hm as (? & [=] & _).
Qed.

Lemma openSocket_writes_nothing w : never is_write (openSocket opts numberText w).
Proof. unfold openSocket. quiet_act. apply never_write, recover_quiet. Qed.

Lemma wp_replaceHead w h : writes_permitted w (replaceHead w h).
Proof.
  unfold replaceHead. apply wp_reading. intros s. destruct (shouldReplaceCollaborativeHead _ _).
  - apply wp_then; [apply never_modify|]. by apply (wp_outboxDo w _ OpFinishHeadRehydration).
  - destruct (pendingReceiptIsCovered _ _); [|by apply wp_never, never_skip]. by apply (wp_outboxDo w _ OpFinishHeadRehydration).
Qed.

(** A session that may send still may after its head is replaced. *)
Lemma replaceHead_can_send w h s :
  outbox_reachable (s_outbox s) → canSendCommand w s = true → canSendCommand w (replaceHead w h s).1 = true.
Proof.
  intros Hb Hc. unfold replaceHead, reading.
  assert (∀ s', canSendCommand w s' = true → outbox_reachable (s_outbox s') →
    canSendCommand w (outboxDo w finishHeadRehydration s').1 = true) as Hdo.
  { intros s' Hc' Hb'. by destruct (outboxDo_state w finishHeadRehydration OpFinishHeadRehydration s' (λ _ _, eq_refl) Hb')
      as (b & -> & _). }
  destruct (shouldReplaceCollaborativeHead _ _).
  - rewrite then_state. apply Hdo; [|done]. revert Hc. unfold canSendCommand, canSubmitCommands. simpl.
    rewrite !andb_true_iff, !bool_decide_eq_true. intros [[[[? ?] ?] ?] ?]. by split_and!.
  - destruct (pendingReceiptIsCovered _ _); [|done]. by apply Hdo.
Qed.

Lemma wp_handleServerMessage w message : writes_permitted w (handleServerMessage opts asHead asCommand numberText w message).
Proof.
  assert (∀ a, never outward a → writes_permitted w a) as Hq by (intros; by apply wp_never, never_write).
  destruct message; cbn [handleServerMessage].
  - unfold applyReady. case_bool_decide; [apply Hq, recover_quiet|]. apply wp_reading. intros s.
    repeat (apply wp_then; [apply never_write; quiet_act|]). by apply (wp_outboxDo w _ OpFinishHeadRehydration).
  - apply Hq. unfold upsertParticipant. quiet_act.
  - apply Hq. unfold upsertParticipant. quiet_act.
  - apply Hq. unfold removeParticipant. quiet_act.
  - apply Hq. quiet_act.
  - apply Hq. quiet_act.
  - apply Hq. unfold applyInstancesChanged. quiet_act.
  - unfold applyAccepted. apply wp_reading. intros s. destruct (recordAccepted m (s_outbox s)) as [b local].
    apply wp_then; [apply never_modify|]. destruct (s_head s) as [h|]; [|apply Hq; quiet_act].
    case_bool_decide; [apply Hq; quiet_act|]. case_bool_decide; [apply Hq; quiet_act|].
    case_bool_decide; [apply Hq; quiet_act|].
    destruct (applyRoomCommandsToHead h (asCommand <$> ca_commands m) (ca_sequence m)); [|apply Hq; quiet_act].
    repeat (apply wp_then; [apply never_write; quiet_act|]). by apply (wp_outboxDo w _ OpAfterHeadApplied).
  - by apply (wp_outboxDo w _ (OpReceipt m)).
  - by apply (wp_outboxDo w _ (OpRejected m)).
  - unfold applyRehydrate. apply wp_reading. intros s. destruct (s_head s); [|].
    + destruct (shouldReplaceCollaborativeHead _ _); [|apply Hq; quiet_act].
      repeat (apply wp_then; [apply never_write; quiet_act|]). by apply (wp_outboxDo w _ OpFinishHeadRehydration).
    + repeat (apply wp_then; [apply never_write; quiet_act|]). by apply (wp_outboxDo w _ OpFinishHeadRehydration).
  - apply wp_never. quiet_act.
Qed.

Lemma wp_handleRaw w raw : writes_permitted w (handleRaw opts asHead asCommand numberText w raw).
Proof.
  assert (∀ a, never outward a → writes_permitted w a) as Hq by (intros; by apply wp_never, never_write).
  unfold handleRaw. case_bool_decide; [apply Hq; quiet_act|]. case_bool_decide; [apply Hq, stop_quiet|].
  apply wp_then; [apply never_write; quiet_act|].
  destruct (match messageTypeOf raw with Some t => String.prefix "agent." t | None => false end); [apply Hq; quiet_act|].
  destruct (match messageTypeOf raw with Some t => bool_decide (t ∉ KNOWN_SERVER_MESSAGE_TYPES) | None => false end);
    [apply Hq; quiet_act|].
  destruct (parseServerRoomMessage raw); [apply wp_handleServerMessage|apply Hq, recover_quiet].
Qed.

Lemma handleClose_quiet w code reason : never outward (handleClose opts numberText w code reason).
Proof.
  unfold handleClose. destruct (terminalReasonFromClose code reason) as [[r|r]|]; quiet_act;
    first [apply recover_quiet | apply stop_quiet].
Qed.

Lemma reconcile_writes w h e s m :
  session_ok s → EvWroteCommand m ∈ ((reconcileCheckpointHead w h e s).2).2 →
  canSendCommand w ((reconcileCheckpointHead w h e s).2).1 = true.
Proof.
  intros Hok. unfold reconcileCheckpointHead. destruct (s_head s) as [cur|]; [|intros Hm; by apply elem_of_nil in Hm].
  do 2 (case_bool_decide; [intros Hm; by apply elem_of_nil in Hm|]).
  pose proof (replaceHead_ok w h s Hok) as Hok1. pose proof (wp_replaceHead w h s m) as Hw1.
  destruct (replaceHead w h s) as [s1 e1]. cbn [fst snd] in *.
  destruct (s_head s1) as [eff|]; [|done]. destruct (_ && _); [|done].
  match goal with |- context [replaceHead w ?h2 s1] => pose proof (wp_replaceHead w h2 s1 m) as Hw2;
    pose proof (replaceHead_can_send w h2 s1 (so_outbox s1 Hok1)) as Hc2; destruct (replaceHead w h2 s1) as [s2 e2] end.
  cbn [fst snd] in *. rewrite elem_of_app. intros [Hm|Hm]; auto.
Qed.

(** The session may edit, and its connection carries frames. *)
Record may_write (w : World) (s : Session) : Prop := {
  mw_ready : s_status s = st_ready;
  mw_head : is_Some (s_head s);
  mw_right : "edit_project" ∈ s_capabilities s;
  mw_alive : s_terminalReason s = None;
  mw_socket : ∃ k, s_socket s = Some k ∧ w_readyState w k = 1
}.

Lemma canSend_may_write w s : canSendCommand w s = true → may_write w s.
Proof.
  unfold canSendCommand, canSubmitCommands. rewrite !andb_true_iff, !bool_decide_eq_true. intros [[[[H1 H2] H3] H4] H5]. split; try done.
  destruct (s_socket s) as [k|]; [|done]. exists k. split; [done|]. by apply Nat.eqb_eq in H5.
Qed.

Lemma written_when_sendable w op s trace m :
  session_run s trace → EvWroteCommand m ∈ (run w op s).2 → canSendCommand w (run w op s).1 = true.
Proof.
  intros Hrun. pose proof (run_ok s trace Hrun) as Hok.
  assert (∀ a, never outward a → writes_permitted w a) as Hq by (intros; by apply wp_never, never_write).
  assert (∀ g k a, writes_permitted w a → writes_permitted w (ifCurrent g k a)) as Hcur.
  { intros g k a Ha. unfold ifCurrent. apply wp_reading. intros s'. case_bool_decide; [done|apply Hq, never_skip]. }
  destruct op; cbn [run_session]; revert s Hok m Hrun.
  - intros s _ m _. apply wp_never. unfold connect. quiet_act. apply openSocket_writes_nothing.
  - intros s _ m _. apply wp_never. unfold retry. quiet_act. apply openSocket_writes_nothing.
  - intros s _ m _. apply Hq. unfold disconnect. quiet_act.
  - intros s _ m _. apply wp_never. unfold timerFired. quiet_act. apply openSocket_writes_nothing.
  - intros s _ m _. apply wp_replaceHead.
  - intros s Hok m _ Hm. by eapply reconcile_writes.
  - intros s _ m _. unfold submitCommands. apply wp_reading. intros s'. destruct (_ || _); [apply Hq; quiet_act|].
    by apply (wp_outboxDo w _ (OpSubmit (w_newCommandId w) cs)).
  - intros s _ m _ Hm. unfold publishPresence in Hm. exfalso. revert Hm.
    destruct (negb _); [apply elem_of_nil|]. destruct (_ && _); [apply elem_of_nil|].
    destruct (s_socket s); [|apply elem_of_nil]. destruct (negb _); [apply elem_of_nil|].
    destruct (w_send w); [apply elem_of_nil|]. intros Hm. by apply list_elem_of_singleton in Hm.
  - intros s _ m _. apply Hcur. unfold handleMessage. destruct data; [|apply wp_handleRaw].
    destruct (JSON_parse text); [apply wp_handleRaw|apply Hq, recover_quiet].
  - intros s _ m _. apply Hcur, wp_then; [apply never_modify|]. apply Hq, handleClose_quiet.
  - intros s _ m _. apply Hcur, Hq. quiet_act.
Qed.

(** C22: a command frame is only ever written by a session that is ready, holds a head, has the right
    to edit the Project, is not terminal, and whose socket is there and open: whatever the session
    has been through, if an operation writes a frame, all of this holds when it is done. *)
Theorem commands_are_written_only_when_allowed w op s trace m :
  session_run s trace → EvWroteCommand m ∈ (run w op s).2 → may_write w (run w op s).1.
Proof. intros Hrun Hm. eapply canSend_may_write, written_when_sendable; done. Qed.

(** ** Terminal sessions *)

Lemma outboxDo_outward w op s e : e ∈ (outboxDo w op s).2 → outward e → ∃ m, e = EvWroteCommand m.
Proof.
  unfold outboxDo, reading. rewrite then_events, elem_of_app. intros [He|He] Ho.
  { apply list_elem_of_fmap in He as (? & -> & _). done. }
  revert He. cbn [fst snd]. generalize (op (outboxEnv w s) (s_outbox s)). intros d. generalize (put_outbox (box d) s). clear s op.
  induction (sends d) as [|o l IH]; intros s; [intros He; by apply elem_of_nil in He|]. cbn [writeSends].
  rewrite then_events, elem_of_app. intros [He|He]; [|by eapply IH].
  unfold writeSend, reading in He. destruct (s_socket s); [|by apply elem_of_nil in He].
  destruct (w_send w); [apply list_elem_of_fmap in He as (? & -> & _); done|].
  apply list_elem_of_singleton in He. eauto.
Qed.

Lemma replaceHead_outward w h s e : e ∈ (replaceHead w h s).2 → outward e → ∃ m, e = EvWroteCommand m.
Proof.
  unfold replaceHead, reading. destruct (shouldReplaceCollaborativeHead _ _); [rewrite then_events|].
  - intros [He|He]%elem_of_app; [by apply elem_of_nil in He|]. by eapply outboxDo_outward.
  - destruct (pendingReceiptIsCovered _ _); [apply outboxDo_outward|intros He; by apply elem_of_nil in He].
Qed.

Lemma terminal_cannot_send w s r : s_terminalReason s = Some r → canSendCommand w s = false.
Proof.
  intros Hr. unfold canSendCommand, canSubmitCommands. rewrite Hr, (bool_decide_false (Some r = None)) by done.
  by rewrite andb_false_r.
Qed.

Lemma outboxDo_terminal w op o s :
  (∀ env b, op env b = run_op env o b) → outbox_reachable (s_outbox s) →
  s_terminalReason (outboxDo w op s).1 = s_terminalReason s.
Proof. intros Hop Hb. by destruct (outboxDo_state w op o s Hop Hb) as (b & -> & _). Qed.

Lemma replaceHead_terminal w h s r :
  outbox_reachable (s_outbox s) → s_terminalReason s = Some r →
  s_terminalReason (replaceHead w h s).1 = Some r ∧ ∀ e, e ∈ (replaceHead w h s).2 → ¬ outward e.
Proof.
  intros Hb Hr. assert (s_terminalReason (replaceHead w h s).1 = Some r) as Hr'.
  { unfold replaceHead, reading. destruct (shouldReplaceCollaborativeHead _ _).
    - rewrite then_state. by rewrite (outboxDo_terminal w _ OpFinishHeadRehydration).
    - destruct (pendingReceiptIsCovered _ _); [|done]. by rewrite (outboxDo_terminal w _ OpFinishHeadRehydration). }
  split; [done|]. intros e He Ho. destruct (replaceHead_outward w h s e He Ho) as [m ->].
  apply wp_replaceHead in He. by rewrite (terminal_cannot_send w _ r Hr') in He.
Qed.

Lemma reconcile_terminal w h e s r :
  session_ok s → s_terminalReason s = Some r →
  s_terminalReason ((reconcileCheckpointHead w h e s).2).1 = Some r ∧
  ∀ ev, ev ∈ ((reconcileCheckpointHead w h e s).2).2 → ¬ outward ev.
Proof.
  intros Hok Hr. assert (∀ ev : SessionEvent, ev ∈ [] → ¬ outward ev) as Hnil by (intros ev He; by apply elem_of_nil in He).
  unfold reconcileCheckpointHead. destruct (s_head s) as [cur|]; [|done]. do 2 (case_bool_decide; [done|]).
  pose proof (replaceHead_ok w h s Hok) as Hok1. destruct (replaceHead_terminal w h s r (so_outbox s Hok) Hr) as [Hr1 Hq1].
  destruct (replaceHead w h s) as [s1 e1]. cbn [fst snd] in *. destruct (s_head s1) as [eff|]; [|done].
  destruct (_ && _); [|done].
  match goal with |- context [replaceHead w ?h2 s1] => destruct (replaceHead_terminal w h2 s1 r (so_outbox s1 Hok1) Hr1)
    as [Hr2 Hq2]; destruct (replaceHead w h2 s1) as [s2 e2] end.
  cbn [fst snd] in *. split; [done|]. intros ev. rewrite elem_of_app. intros [|]; auto.
Qed.

(** A terminal session stays terminal: nothing but [retry] after exhausted
    reconnections leaves the state, and no operation, timer or late socket event
    writes a frame, opens a socket or reports an authorization. *)
Theorem terminal_is_final w op s trace r :
  session_run s trace → s_terminalReason s = Some r → (op = SoRetry → r ≠ reconnect_exhausted) →
  s_terminalReason (run w op s).1 = Some r ∧ ∀ e, e ∈ (run w op s).2 → ¬ outward e.
Proof.
  intros Hrun Hr Hop. pose proof (run_ok s trace Hrun) as Hok. pose proof Hok as [Ht Hc _ _ _ Hb].
  destruct (Ht r Hr) as [Hcl _]. destruct (Hc Hcl) as [Hsock Htimer].
  assert (∀ e : SessionEvent, e ∈ [] → ¬ outward e) as Hnil by (intros e He; by apply elem_of_nil in He).
  assert (∀ g k a, s_terminalReason (ifCurrent g k a s).1 = Some r ∧ ∀ e, e ∈ (ifCurrent g k a s).2 → ¬ outward e) as Hcur.
  { intros g k a. unfold ifCurrent, reading. rewrite bool_decide_false by (rewrite Hsock; by intros [_ [=]]). done. }
  destruct op; cbn [run_session]; try apply Hcur.
  - unfold connect, reading. by rewrite Hr.
  - unfold retry, reading. rewrite Hr. rewrite bool_decide_false; [done|]. intros [= ->]. by apply Hop.
  - split.
    + unfold disconnect. rewrite !then_state. autorewrite with act.
      rewrite (silent_outbox_state w (λ _, rejectAll _)) by reflexivity.
      rewrite (silent_outbox_state w (λ _ b, quiet (clearLocalCommands b))) by reflexivity. by autorewrite with act.
    + assert (never outward (disconnect w)) as Hq by (unfold disconnect; quiet_act). intros e. apply Hq.
  - unfold timerFired, reading. by rewrite Htimer.
  - by apply replaceHead_terminal.
  - by apply reconcile_terminal.
  - unfold submitCommands, reading, canSubmitCommands. rewrite Hr, (bool_decide_false (Some r = None)) by done.
    rewrite andb_false_r. simpl. split; [done|]. intros e He. apply list_elem_of_singleton in He as ->. by intros [].
  - unfold publishPresence, canPublishPresence. rewrite Hr, (bool_decide_false (Some r = None)) by done.
    by rewrite andb_false_r.
Qed.

(** When the current socket closes without a terminal reason, the socket is let
    go, the head is kept, the batch in flight goes back to the front of the queue,
    and a reconnection is scheduled after [min(delay * 2^attempts, 10000)]; after
    the last allowed attempt the session stops as [reconnect_exhausted] instead. *)
Theorem lost_connection_backs_off w k code reason s trace :
  session_run s trace → s_socket s = Some k →
  (∀ r, terminalReasonFromClose code reason ≠ Some (Terminal r)) →
  let s' := (run w (SoSocketClose (s_generation s) k code reason) s).1 in
  s_socket s' = None ∧ s_head s' = s_head s ∧
  (if maxReconnectAttempts opts <=? s_reconnectAttempts s
   then s_terminalReason s' = Some reconnect_exhausted ∧ s_status s' = st_stopped
   else s_terminalReason s' = None ∧ s_status s' = st_unsynchronized ∧
        s_reconnectTimer s' = Some (Z.min (reconnectDelayMs opts * 2 ^ Z.of_nat (s_reconnectAttempts s)) 10000) ∧
        s_reconnectAttempts s' = S (s_reconnectAttempts s) ∧ s_outbox s' = interruptInFlight (s_outbox s)).
Proof.
  intros Hrun Hk Hcode. pose proof (run_ok s trace Hrun) as Hok.
  pose proof (live_put_socket s None (socket_live s k Hok Hk)) as Hl. pose proof Hl as [Ho _ _ _].
  assert (∃ f, (run w (SoSocketClose (s_generation s) k code reason) s).1 = (recover w f (put_socket None s)).1) as [f ->].
  { cbn [run_session]. unfold ifCurrent, reading at 1. rewrite bool_decide_true by done.
    rewrite then_state, modify_state. unfold handleClose.
    destruct (terminalReasonFromClose code reason) as [[r|r]|]; [|by destruct (Hcode r)|];
      unfold reading; rewrite Ho; by eexists. }
  destruct (recover_state w f (put_socket None s) Hl) as (_ & Hh & Hs & Hrest). by split_and!.
Qed.

(** ** Accepted commands *)

(** How an accepted message relates to the confirmed head. *)
Inductive accepted_case := AcStale | AcNext (h' : CollaborativeHead) | AcRefresh.

Definition classify_accepted (m : ProjectCommandAcceptedMessage) (h : CollaborativeHead) : accepted_case :=
  if bool_decide (ca_room_epoch m = h_room_epoch h) then
    if bool_decide (ca_sequence m ≤ h_collaboration_sequence h)%Z then AcStale
    else if bool_decide (ca_sequence m = h_collaboration_sequence h + 1)%Z then
      match applyRoomCommandsToHead h (asCommand <$> ca_commands m) (ca_sequence m) with
      | Ok h' => AcNext h' | Throw _ => AcRefresh
      end
    else AcRefresh
  else AcRefresh.

Lemma refresh_effect w s : outboxDo w (λ _, requestHeadRefresh) s =
  (put_outbox (with_awaiting true (s_outbox s)) s, [EvOutbox HeadRefreshRequired]).
Proof. unfold outboxDo, reading, andThen. simpl. by destruct s. Qed.

(** An accepted batch is replayed onto the head exactly when it is of the head's
    epoch and the next sequence and replays without error, and only then reported;
    an old one is ignored; a gap, another epoch or a failed replay leaves the head
    as it is, pauses the outbox and asks for a full head. *)
Theorem accepted_is_applied_in_sequence w m s h :
  s_head s = Some h → outbox_reachable (s_outbox s) →
  let s' := (applyAccepted asCommand w m s).1 in
  let evs := (applyAccepted asCommand w m s).2 in
  match classify_accepted m h with
  | AcStale => s_head s' = Some h ∧ evs = []
  | AcNext h' => s_head s' = Some h' ∧
      head evs = Some (EvCommandAccepted m (bool_decide (ca_command_id m ∈ localCommandIds (s_outbox s))))
  | AcRefresh => s_head s' = Some h ∧ awaitingHeadRehydration (s_outbox s') = true ∧ evs = [EvOutbox HeadRefreshRequired]
  end.
Proof.
  intros Hh Hb. cbv zeta. unfold applyAccepted, reading, classify_accepted. rewrite Hh.
  assert (∃ b, recordAccepted m (s_outbox s) = (b, bool_decide (ca_command_id m ∈ localCommandIds (s_outbox s))) ∧ outbox_reachable b)
    as (b & -> & Hb').
  { pose proof (reachable_op {| headPointer := None; canSend := false |} (OpRecordAccepted m) _ Hb) as Hr. simpl in Hr.
    exists (recordAccepted m (s_outbox s)).1. split; [|done].
    unfold recordAccepted. simpl. destruct (inFlight (s_outbox s)); [|done]. by destruct (bool_decide _). }
  generalize (bool_decide (ca_command_id m ∈ localCommandIds (s_outbox s))). intros local.
  rewrite then_state, then_events, modify_state. cbn [modify snd app].
  repeat case_bool_decide; try congruence; rewrite ?refresh_effect; try (by split_and!).
  destruct (applyRoomCommandsToHead h (asCommand <$> ca_commands m) (ca_sequence m)) as [h'|]; rewrite ?refresh_effect; [|by split_and!].
  rewrite !then_state, !then_events. cbn [modify emit fst snd app]. split; [|done].
  by rewrite (outboxDo_head w _ OpAfterHeadApplied).
Qed.

(** ** Heartbeats *)

Definition is_authorization (e : SessionEvent) : Prop := match e with EvAuthorizationVersion _ => True | _ => False end.

Lemma never_authorization a : never outward a → never is_authorization a.
Proof. intros Ha s e He Hw. apply (Ha s e He). by destruct e. Qed.

Lemma outboxDo_no_authorization w op : never is_authorization (outboxDo w op).
Proof. intros s e He Ha. destruct (outboxDo_outward w op s e He) as [m ->]; [by destruct e|done]. Qed.

(** As [quiet_act], for actions that may write commands and open sockets. *)
Ltac no_authorization :=
  repeat first
    [ progress quiet_act
    | match goal with
      | |- never _ (outboxDo _ _) => apply outboxDo_no_authorization
      | |- never _ (recoverTraffic _ _ _ _) => apply never_authorization, recover_quiet
      | |- never _ (stopTraffic _ _ _ _) => apply never_authorization, stop_quiet
      end ].

Lemma handleRaw_no_authorization w raw : never is_authorization (handleRaw opts asHead asCommand numberText w raw).
Proof.
  unfold handleRaw. case_bool_decide as Hhb; [apply never_skip|].
  case_bool_decide; [apply never_authorization, stop_quiet|]. apply never_then; [quiet_act|].
  destruct (match messageTypeOf raw with Some t => String.prefix "agent." t | None => false end); [apply never_skip|].
  destruct (match messageTypeOf raw with Some t => bool_decide (t ∉ KNOWN_SERVER_MESSAGE_TYPES) | None => false end); [apply never_skip|].
  destruct (parseServerRoomMessage raw) as [message|] eqn:Hp; [|apply never_authorization, recover_quiet].
  apply parsed_type in Hp. destruct message; cbn [handleServerMessage];
    unfold applyReady, upsertParticipant, removeParticipant, applyInstancesChanged, applyAccepted, applyRehydrate;
    no_authorization.
Qed.

Lemma replaceHead_no_authorization w h : never is_authorization (replaceHead w h).
Proof. unfold replaceHead. no_authorization. Qed.

Lemma openSocket_no_authorization w : never is_authorization (openSocket opts numberText w).
Proof. unfold openSocket. no_authorization. Qed.

Lemma authorization_never w op s v : EvAuthorizationVersion v ∉ (run w op s).2.
Proof.
  cut (∀ e, e ∈ (run w op s).2 → ¬ is_authorization e). { intros H Hv. by apply (H _ Hv). }
  assert (∀ a, never is_authorization a → ∀ e, e ∈ (a s).2 → ¬ is_authorization e) as Hn by (intros a Ha; apply Ha).
  assert (∀ g k a, never is_authorization a → never is_authorization (ifCurrent g k a)) as Hcur.
  { intros g k a Ha. unfold ifCurrent. apply never_reading. intros s'. case_bool_decide; [done|apply never_skip]. }
  destruct op; cbn [run_session].
  - apply Hn. unfold connect. quiet_act. apply openSocket_no_authorization.
  - apply Hn. unfold retry. quiet_act. apply openSocket_no_authorization.
  - apply Hn, never_authorization. unfold disconnect. quiet_act.
  - apply Hn. unfold timerFired. quiet_act. apply openSocket_no_authorization.
  - apply Hn, replaceHead_no_authorization.
  - unfold reconcileCheckpointHead. intros e. destruct (s_head s); [|apply never_skip]. do 2 (case_bool_decide; [apply never_skip|]).
    pose proof (replaceHead_no_authorization w h s) as H1. destruct (replaceHead w h s) as [s1 e1].
    destruct (s_head s1); [|apply H1]. destruct (_ && _); [|apply H1].
    match goal with |- context [replaceHead w ?h2 s1] => pose proof (replaceHead_no_authorization w h2 s1) as H2;
      destruct (replaceHead w h2 s1) as [s2 e2] end.
    cbn [fst snd] in *. rewrite elem_of_app. intros [|]; auto.
  - apply Hn. unfold submitCommands. no_authorization.
  - unfold publishPresence. intros e He.
    assert (e ∈ @nil SessionEvent ∨ ∃ f, e = EvWrotePresence f) as [Hnil|[f ->]]; [|by apply elem_of_nil in Hnil|by intros []].
    revert He. destruct (negb _); [by left|]. destruct (_ && _); [by left|]. destruct (s_socket s); [|by left].
    destruct (negb _); [by left|]. destruct (w_send w); [by left|]. intros He. apply list_elem_of_singleton in He. eauto.
  - apply Hn, Hcur. unfold handleMessage. destruct data; [|apply handleRaw_no_authorization].
    destruct (JSON_parse text); [apply handleRaw_no_authorization|apply never_authorization, recover_quiet].
  - apply Hn, Hcur, never_authorization, never_then; [apply never_modify|apply handleClose_quiet].
  - apply Hn, Hcur. quiet_act.
Qed.

(** A heartbeat has no effect, whatever its version or payload; the listener
    for authorization versions is never called, because the branch that would call
    it is behind the check that drops heartbeats. *)
Theorem heartbeats_have_no_effect w op s :
  (∀ g k raw, messageTypeOf raw = Some "room.heartbeat" → run w (SoSocketMessage g k (DataOther raw)) s = (s, [])) ∧
  (∀ v, EvAuthorizationVersion v ∉ (run w op s).2).
Proof.
  split.
  - intros g k raw Hraw. cbn [run_session handleMessage]. unfold ifCurrent, reading, handleRaw.
    case_bool_decide; [|done]. by rewrite bool_decide_true.
  - intros v. apply authorization_never.
Qed.

(** ** Checkpoints *)

(** A checkpoint response of the expected epoch is merged, not just taken: the
    head that results, in the session and for the caller, has the higher
    collaboration sequence of the two; it is the response itself when that is not
    older, and else the session's head with the response's checkpoint if that is
    later.  A response of an epoch the room has left changes nothing. *)
Theorem checkpoint_is_merged w ck e s trace cur :
  session_run s trace → s_head s = Some cur →
  let r := (reconcileCheckpointHead w ck e s).1 in
  let s' := ((reconcileCheckpointHead w ck e s).2).1 in
  if bool_decide (h_room_epoch cur ≠ e) then r = Ok cur ∧ s' = s
  else if bool_decide (h_room_epoch ck ≠ e) then is_ok r = false ∧ s' = s
  else ∃ h, r = Ok h ∧ s_head s' = Some h ∧
    h_collaboration_sequence h = Z.max (h_collaboration_sequence cur) (h_collaboration_sequence ck) ∧
    (if bool_decide (h_collaboration_sequence cur ≤ h_collaboration_sequence ck)%Z then h = ck
     else h_graphs h = h_graphs cur ∧
          h_checkpoint_sequence h = Z.max (h_checkpoint_sequence cur) (h_checkpoint_sequence ck)).
Proof.
  intros Hrun Hc. pose proof (run_ok s trace Hrun) as Hok. cbv zeta. unfold reconcileCheckpointHead. rewrite Hc.
  case_bool_decide as He; [done|]. case_bool_decide as He'; [done|].
  pose proof (replaceHead_ok w ck s Hok) as Hok1. pose proof (replaceHead_head w ck s (so_outbox s Hok)) as Hh1.
  destruct (replaceHead w ck s) as [s1 e1]. cbn [fst snd] in *. rewrite Hc in Hh1.
  assert (shouldReplaceCollaborativeHead (Some cur) ck =
          bool_decide (h_collaboration_sequence cur ≤ h_collaboration_sequence ck)%Z) as Hshould.
  { simpl. rewrite bool_decide_false; [done|]. intros Hne. apply Hne. congruence. }
  rewrite Hshould in Hh1. case_bool_decide as Hle; rewrite Hh1.
  - rewrite (bool_decide_false (h_collaboration_sequence ck < h_collaboration_sequence ck)%Z) by lia. cbn [andb fst snd].
    exists ck. split_and!; [done|done|lia|done].
  - rewrite bool_decide_true by lia. cbn [andb]. case_bool_decide as Hck; cbn [fst snd].
    + match goal with |- context [replaceHead w ?h2 s1] => pose proof (replaceHead_head w h2 s1 (so_outbox s1 Hok1)) as Hh2;
        destruct (replaceHead w h2 s1) as [s2 e2] end. cbn [fst snd] in *.
      rewrite Hh1 in Hh2. simpl in Hh2. rewrite bool_decide_false in Hh2 by (intros Hne; by apply Hne).
      rewrite bool_decide_true in Hh2 by lia. eexists. split_and!; [done|done|simpl; lia|done|simpl; lia].
    + exists cur. split_and!; [done|done|lia|done|lia].
Qed.

End session.

(** ** Instance states *)

Section instances.
Context {V : Type}.
Implicit Types (m : list (string * V)).

Lemma map_get_set k k' v m : map_get k' (map_set k v m) = if bool_decide (k = k') then Some v else map_get k' m.
Proof.
  induction m as [|[k0 v0] m IH]; simpl; [done|]. repeat (case_bool_decide; simpl); naive_solver.
Qed.

Lemma map_get_delete k k' m : map_get k' (map_delete k m) = if bool_decide (k = k') then None else map_get k' m.
Proof.
  unfold map_delete. induction m as [|[k0 v0] m IH]; simpl; [by case_bool_decide|].
  rewrite filter_cons. simpl. destruct (decide (k0 = k)) as [->|Hne].
  - rewrite decide_False by (intros H; by apply H). rewrite IH. by case_bool_decide.
  - rewrite decide_True by done. simpl. rewrite IH. repeat case_bool_decide; congruence.
Qed.

Lemma map_get_deletes (ks : list string) k m :
  map_get k (foldl (λ m k, map_delete k m) m ks) = if bool_decide (k ∈ ks) then None else map_get k m.
Proof.
  revert m. induction ks as [|k0 ks IH]; intros m; simpl; [done|]. rewrite IH, map_get_delete.
  destruct (decide (k0 = k)) as [->|Hne].
  - rewrite (bool_decide_true (k ∈ k :: ks)) by (by left). rewrite (bool_decide_true (k = k)) by done. by case_bool_decide.
  - rewrite (bool_decide_false (k0 = k)) by done.
    rewrite (bool_decide_ext (k ∈ k0 :: ks) (k ∈ ks)); [done|]. rewrite elem_of_cons. naive_solver.
Qed.

Lemma map_get_sets (key : V → string) (vs : list V) k m :
  map_get k (foldl (λ m v, map_set (key v) v m) m vs) =
  match snd <$> list_find (λ v, key v = k) (reverse vs) with Some v => Some v | None => map_get k m end.
Proof.
  induction vs as [|v vs IH] using rev_ind; simpl; [done|].
  rewrite foldl_snoc, map_get_set, IH, reverse_snoc. simpl.
  case_bool_decide as H; [by rewrite decide_True|]. rewrite decide_False by done.
  by destruct (list_find _ (reverse vs)) as [[]|].
Qed.
End instances.

(** After a delta, an instance's state is the last one the delta reports for its
    key; a removed key that is not reported has none; every other instance keeps
    its state. *)
Theorem instance_delta_is_applied m s t :
  map_get t (s_instances (applyInstancesChanged m s).1) =
  match snd <$> list_find (λ i, instanceKeyText (i_key i) = t) (reverse (ic_changed m)) with
  | Some i => Some i
  | None => if bool_decide (t ∈ instanceKeyText <$> ic_removed m) then None else map_get t (s_instances s)
  end.
Proof.
  unfold applyInstancesChanged. rewrite then_state. simpl. rewrite map_get_sets.
  destruct (snd <$> list_find _ _); [done|]. rewrite <- map_get_deletes. f_equal.
  generalize (s_instances s). induction (ic_removed m) as [|k ks IH]; intros im; simpl; [done|]. apply IH.
Qed.

(** ** A concrete session

    Connect, receive [room.ready], and go on from there. *)

Definition sample_opts : SessionOptions :=
  {| workspaceId := "w"; projectId := "project-1"; reconnectDelayMs := defaultReconnectDelayMs;
     maxReconnectAttempts := defaultMaxReconnectAttempts |}.

Definition sample_world : World :=
  {| w_readyState := λ _, WS_OPEN; w_send := None; w_factory := inl 7; w_now := 1000; w_newCommandId := "c1" |}.

Definition sample_run_op (op : SessionOp) (s : Session) : Session * list SessionEvent :=
  run_session sample_opts (λ _, sample_head) (λ _, P_remove_graph "x") (λ _, Throw "bad") (λ _, "n") sample_world op s.

Notation sample_session_run := (session_run sample_opts (λ _, sample_head) (λ _, P_remove_graph "x") (λ _, Throw "bad") (λ _, "n")).

Definition connected : Session := (sample_run_op SoConnect newSession).1.

Definition ready_session : Session :=
  (sample_run_op (SoSocketMessage 1 7 (DataOther (enc_message (m_ready sample_ready)))) connected).1.

Definition revoked_session : Session := (sample_run_op (SoSocketClose 1 7 4004 "") ready_session).1.

Lemma ready_session_run : ∃ trace, sample_session_run ready_session trace.
Proof.
  eexists. unfold ready_session, connected, sample_run_op. apply session_step. apply session_step. apply session_start.
Qed.

Lemma revoked_session_run : ∃ trace, sample_session_run revoked_session trace.
Proof.
  destruct ready_session_run as [trace H]. eexists. unfold revoked_session, sample_run_op. apply session_step. exact H.
Qed.

Lemma session_invariant_witness : s_status ready_session = st_ready ∧ session_ok sample_opts ready_session.
Proof.
  split; [vm_compute; reflexivity|]. destruct ready_session_run as [trace H]. exact (session_invariant _ _ _ _ _ _ _ H).
Defined.

Lemma head_never_goes_back_witness :
  head_advances ready_session (sample_run_op (SoReplaceHead (with_sequence 2 sample_head)) ready_session).1.
Proof.
  destruct ready_session_run as [trace H]. exact (head_never_goes_back _ _ _ _ _ sample_world _ _ _ H).
Defined.

Definition sample_frame : ProjectCommandSubmitMessage :=
  {| cs_command_id := "c1"; cs_room_epoch := "epoch-1"; cs_observed_sequence := 4; cs_commands := [P_remove_graph "x"] |}.

Lemma commands_are_written_only_when_allowed_witness :
  EvWroteCommand sample_frame ∈ (sample_run_op (SoSubmit [P_remove_graph "x"]) ready_session).2 ∧
  may_write sample_world (sample_run_op (SoSubmit [P_remove_graph "x"]) ready_session).1.
Proof.
  assert (EvWroteCommand sample_frame ∈ (sample_run_op (SoSubmit [P_remove_graph "x"]) ready_session).2) as Hin
    by (vm_compute; by left).
  split; [exact Hin|]. destruct ready_session_run as [trace H].
  exact (commands_are_written_only_when_allowed _ _ _ _ _ sample_world _ _ _ _ H Hin).
Defined.

Lemma terminal_is_final_witness :
  s_terminalReason revoked_session = Some access_revoked ∧
  s_terminalReason (sample_run_op SoConnect revoked_session).1 = Some access_revoked.
Proof.
  assert (s_terminalReason revoked_session = Some access_revoked) as Hr by (vm_compute; reflexivity).
  split; [exact Hr|]. destruct revoked_session_run as [trace H].
  exact (proj1 (terminal_is_final _ _ _ _ _ sample_world SoConnect _ _ _ H Hr ltac:(discriminate))).
Defined.

Lemma lost_connection_backs_off_witness :
  s_reconnectTimer (sample_run_op (SoSocketClose (s_generation ready_session) 7 1006 "") ready_session).1 = Some 750%Z.
Proof.
  destruct ready_session_run as [trace H].
  assert (s_socket ready_session = Some 7) as Hk by (vm_compute; reflexivity).
  assert (∀ r, terminalReasonFromClose 1006 "" ≠ Some (Terminal r)) as Hc by (intros r; vm_compute; discriminate).
  pose proof (lost_connection_backs_off _ _ _ _ _ sample_world 7 1006 "" _ _ H Hk Hc) as (_ & _ & Hrest).
  assert (maxReconnectAttempts sample_opts <=? s_reconnectAttempts ready_session = false) as Hm by (vm_compute; reflexivity).
  rewrite Hm in Hrest. destruct Hrest as (_ & _ & Htimer & _). etrans; [exact Htimer|]. vm_compute. reflexivity.
Defined.

Definition sample_accepted : ProjectCommandAcceptedMessage :=
  {| ca_command_id := "peer"; ca_room_epoch := "epoch-1"; ca_sequence := 5; ca_actor := sample_actor;
     ca_project_room_session_id := None; ca_commands := [JNull] |}.

Lemma accepted_is_applied_in_sequence_witness :
  ∃ h', s_head (applyAccepted (λ _, P_remove_graph "x") sample_world sample_accepted ready_session).1 = Some h' ∧
    h_collaboration_sequence h' = 5%Z.
Proof.
  assert (s_head ready_session = Some sample_head) as Hh by (vm_compute; reflexivity).
  assert (outbox_reachable (s_outbox ready_session)) as Hb by (exists [], [], []; apply run_start).
  pose proof (accepted_is_applied_in_sequence (λ _, P_remove_graph "x") sample_world sample_accepted _ _ Hh Hb) as H.
  exists (with_sequence 5 sample_head). split; [exact (proj1 H)|reflexivity].
Defined.

Lemma checkpoint_is_merged_witness :
  ∃ h, (reconcileCheckpointHead sample_world (with_checkpoint 4 2 (with_sequence 3 sample_head)) "epoch-1" ready_session).1 = Ok h ∧
    h_collaboration_sequence h = 4%Z ∧ h_checkpoint_sequence h = 4%Z.
Proof.
  assert (s_head ready_session = Some sample_head) as Hh by (vm_compute; reflexivity).
  destruct ready_session_run as [trace H].
  destruct (checkpoint_is_merged _ _ _ _ _ sample_world (with_checkpoint 4 2 (with_sequence 3 sample_head)) "epoch-1" _ _ _ H Hh)
    as (h & Hr & _ & Hs & _ & Hck).
  exists h. split; [exact Hr|]. split; [exact Hs|exact Hck].
Defined.
