(* ===== verification/RoomView.v ===== *)
(** * What a tab shows of its Project room ([room/useProjectRoomSession.ts])

    The hook makes a session for the Project that is open, copies what the session tells its
    listeners into the state a render reads, and ends the session when the Project changes.
    Sessions that were left can still be called by their sockets and timers.  The theorem
    says that the copy is the session: what the hook shows and what it lets a tab do is what
    the session of the open Project holds and allows. *)

From S2P Require Import Prelude Js GraphModel GraphCommands Samples Canvas RoomBridge RoomBridgeTheory.
From S2P Require Import Protocol ProtocolTheory CommandOutbox OutboxTheory RoomSession SessionTheory.
#[local] Open Scope nat_scope.
#[local] Open Scope act_scope.

(** ** State *)

Record RoomView := {
  vw_projectId : option string;
  vw_status : ProjectRoomStatus;
  vw_terminalReason : option ProjectRoomTerminalReason;
  vw_failure : option ProjectRoomFailure;
  vw_head : option CollaborativeHead;
  vw_capabilities : list string;
  vw_authorizationVersion : option Z;
  vw_participants : list PresenceParticipant;
  vw_activeRuns : list ActiveRunSummary;
  vw_instances : list (string * RoomInstanceState);
  vw_runsRevision : nat;
  vw_instancesRevision : nat;
  vw_localSessionId : option string
}.

Definition initialView : RoomView :=
  {| vw_projectId := None; vw_status := st_idle; vw_terminalReason := None; vw_failure := None; vw_head := None; vw_capabilities := [];
     vw_authorizationVersion := None; vw_participants := []; vw_activeRuns := []; vw_instances := []; vw_runsRevision := 0; vw_instancesRevision := 0;
     vw_localSessionId := None |}.

Definition instanceMap (entries : list RoomInstanceState) : list (string * RoomInstanceState) := map_of (λ i, instanceKeyText (i_key i)) entries.

Definition setHead (h : CollaborativeHead) (v : RoomView) : RoomView :=
  {| vw_projectId := vw_projectId v; vw_status := vw_status v; vw_terminalReason := vw_terminalReason v; vw_failure := vw_failure v; vw_head := Some h;
     vw_capabilities := vw_capabilities v; vw_authorizationVersion := vw_authorizationVersion v; vw_participants := vw_participants v;
     vw_activeRuns := vw_activeRuns v; vw_instances := vw_instances v; vw_runsRevision := vw_runsRevision v; vw_instancesRevision := vw_instancesRevision v;
     vw_localSessionId := vw_localSessionId v |}.

Definition setParticipants (ps : list PresenceParticipant) (v : RoomView) : RoomView :=
  {| vw_projectId := vw_projectId v; vw_status := vw_status v; vw_terminalReason := vw_terminalReason v; vw_failure := vw_failure v; vw_head := vw_head v;
     vw_capabilities := vw_capabilities v; vw_authorizationVersion := vw_authorizationVersion v; vw_participants := ps;
     vw_activeRuns := vw_activeRuns v; vw_instances := vw_instances v; vw_runsRevision := vw_runsRevision v; vw_instancesRevision := vw_instancesRevision v;
     vw_localSessionId := vw_localSessionId v |}.

Definition setActiveRuns (rs : list ActiveRunSummary) (v : RoomView) : RoomView :=
  {| vw_projectId := vw_projectId v; vw_status := vw_status v; vw_terminalReason := vw_terminalReason v; vw_failure := vw_failure v; vw_head := vw_head v;
     vw_capabilities := vw_capabilities v; vw_authorizationVersion := vw_authorizationVersion v; vw_participants := vw_participants v;
     vw_activeRuns := rs; vw_instances := vw_instances v; vw_runsRevision := S (vw_runsRevision v); vw_instancesRevision := vw_instancesRevision v;
     vw_localSessionId := vw_localSessionId v |}.

Definition setInstances (m : list (string * RoomInstanceState)) (v : RoomView) : RoomView :=
  {| vw_projectId := vw_projectId v; vw_status := vw_status v; vw_terminalReason := vw_terminalReason v; vw_failure := vw_failure v; vw_head := vw_head v;
     vw_capabilities := vw_capabilities v; vw_authorizationVersion := vw_authorizationVersion v; vw_participants := vw_participants v;
     vw_activeRuns := vw_activeRuns v; vw_instances := m; vw_runsRevision := vw_runsRevision v; vw_instancesRevision := S (vw_instancesRevision v);
     vw_localSessionId := vw_localSessionId v |}.

(** The setters that [onFailureChange] and [onTerminalClose] share. *)
Definition clearRights (v : RoomView) : RoomView :=
  {| vw_projectId := vw_projectId v; vw_status := vw_status v; vw_terminalReason := vw_terminalReason v; vw_failure := vw_failure v; vw_head := vw_head v;
     vw_capabilities := []; vw_authorizationVersion := None; vw_participants := []; vw_activeRuns := []; vw_instances := [];
     vw_runsRevision := S (vw_runsRevision v); vw_instancesRevision := S (vw_instancesRevision v); vw_localSessionId := None |}.

Definition setTerminalReason (r : option ProjectRoomTerminalReason) (v : RoomView) : RoomView :=
  {| vw_projectId := vw_projectId v; vw_status := vw_status v; vw_terminalReason := r; vw_failure := vw_failure v; vw_head := vw_head v;
     vw_capabilities := vw_capabilities v; vw_authorizationVersion := vw_authorizationVersion v; vw_participants := vw_participants v;
     vw_activeRuns := vw_activeRuns v; vw_instances := vw_instances v; vw_runsRevision := vw_runsRevision v; vw_instancesRevision := vw_instancesRevision v;
     vw_localSessionId := vw_localSessionId v |}.

Definition setViewFailure (f : option ProjectRoomFailure) (v : RoomView) : RoomView :=
  {| vw_projectId := vw_projectId v; vw_status := vw_status v; vw_terminalReason := vw_terminalReason v; vw_failure := f; vw_head := vw_head v;
     vw_capabilities := vw_capabilities v; vw_authorizationVersion := vw_authorizationVersion v; vw_participants := vw_participants v;
     vw_activeRuns := vw_activeRuns v; vw_instances := vw_instances v; vw_runsRevision := vw_runsRevision v; vw_instancesRevision := vw_instancesRevision v;
     vw_localSessionId := vw_localSessionId v |}.

Definition setViewStatus (p : string) (x : ProjectRoomStatus) (v : RoomView) : RoomView :=
  {| vw_projectId := Some p; vw_status := x; vw_terminalReason := vw_terminalReason v; vw_failure := vw_failure v; vw_head := vw_head v;
     vw_capabilities := vw_capabilities v; vw_authorizationVersion := vw_authorizationVersion v; vw_participants := vw_participants v;
     vw_activeRuns := vw_activeRuns v; vw_instances := vw_instances v; vw_runsRevision := vw_runsRevision v; vw_instancesRevision := vw_instancesRevision v;
     vw_localSessionId := vw_localSessionId v |}.

Definition forgetHead (v : RoomView) : RoomView :=
  {| vw_projectId := vw_projectId v; vw_status := vw_status v; vw_terminalReason := vw_terminalReason v; vw_failure := vw_failure v; vw_head := None;
     vw_capabilities := vw_capabilities v; vw_authorizationVersion := vw_authorizationVersion v; vw_participants := vw_participants v;
     vw_activeRuns := vw_activeRuns v; vw_instances := vw_instances v; vw_runsRevision := vw_runsRevision v; vw_instancesRevision := vw_instancesRevision v;
     vw_localSessionId := vw_localSessionId v |}.

(** ** Listeners *)

Definition onStatusChange (p : string) (next : ProjectRoomStatus) (v : RoomView) : RoomView :=
  let v := setViewStatus p next v in
  match next with
  | st_connecting => clearRights (forgetHead (setViewFailure None (setTerminalReason None v)))
  | st_reconnecting => setTerminalReason None v
  | _ => v
  end.

Definition onReady (ready : Ready) (v : RoomView) : RoomView :=
  let m := ry_message ready in
  {| vw_projectId := vw_projectId v; vw_status := vw_status v; vw_terminalReason := None; vw_failure := None; vw_head := Some (ry_head ready);
     vw_capabilities := capabilities (rm_capabilities m); vw_authorizationVersion := Some (authorization_version (rm_capabilities m));
     vw_participants := rm_participants m; vw_activeRuns := rm_active_runs m; vw_instances := instanceMap (rm_instances m);
     vw_runsRevision := S (vw_runsRevision v); vw_instancesRevision := S (vw_instancesRevision v);
     vw_localSessionId := Some (rm_project_room_session_id m) |}.

(** [const nextHead = session.getHead(); if (nextHead) setHead(nextHead);] *)
Definition readHead (s : Session) (v : RoomView) : RoomView := match s_head s with Some h => setHead h v | None => v end.

Definition onFailureChange (f : option ProjectRoomFailure) (v : RoomView) : RoomView :=
  match f with Some _ => clearRights (setViewFailure f v) | None => setViewFailure f v end.

(** One listener call.  Those that read the session ([onCommandAccepted],
    [onCommandRejected], [onRunFinished], [onInstancesChange]) read it as the operation
    leaves it: none of the operations that call them changes the head, the Runs or the
    instances after the call, [reconcileCheckpointHead] apart, whose caller sets the head it
    returns.  A resolved batch is the continuation of [submitCommands],
    which runs when the operation is over.  Every call is also passed on unchanged. *)
Definition heard (p : string) (s : Session) (v : RoomView) (e : SessionEvent) : RoomView :=
  match e with
  | EvStatus x => onStatusChange p x v
  | EvReady ready => onReady ready v
  | EvRehydrate h => setHead h v
  | EvCommandAccepted _ _ | EvOutbox (CommandRejectedNotice _) | EvOutbox (Resolved _ _) => readHead s v
  | EvPresence ps => setParticipants ps v
  | EvFailure f => onFailureChange f v
  | EvActiveRuns rs => setActiveRuns rs v
  | EvRunFinished _ => setActiveRuns (getActiveRuns s) v
  | EvInstances _ => setInstances (instanceMap (getInstances s)) v
  | EvTerminalClose r => clearRights (setTerminalReason (Some r) v)
  | _ => v
  end.

(** ** The hook *)

(** Every session that was made, with its Project; [hk_session] is [sessionRef]. *)
Record RoomHook := {
  hk_projectId : option string;
  hk_view : RoomView;
  hk_sessions : list (string * Session);
  hk_session : option nat
}.

Definition initialHook : RoomHook := {| hk_projectId := None; hk_view := initialView; hk_sessions := []; hk_session := None |}.

Section hook.
Context (workspace : string).
Context (asHead : jsval → CollaborativeHead) (asCommand : jsval → RoomProjectCommand).
Context (JSON_parse : string → res jsval) (numberText : jsnum → string).

(** [new ProjectRoomSession({workspaceId, projectId, ...})] *)
Definition sessionOptions (p : string) : SessionOptions :=
  {| workspaceId := workspace; projectId := p; reconnectDelayMs := defaultReconnectDelayMs; maxReconnectAttempts := defaultMaxReconnectAttempts |}.

Definition runSession (p : string) (w : World) (op : SessionOp) (s : Session) : Session * list SessionEvent :=
  run_session (sessionOptions p) asHead asCommand JSON_parse numberText w op s.

(** An operation of the [i]-th session, with the listeners it calls. *)
Definition sessionDo (w : World) (i : nat) (op : SessionOp) (h : RoomHook) : RoomHook :=
  match hk_sessions h !! i with
  | None => h
  | Some (p, s) =>
      let '(s', es) := runSession p w op s in
      {| hk_projectId := hk_projectId h; hk_view := foldl (heard p s') (hk_view h) es; hk_sessions := <[i := (p, s')]> (hk_sessions h);
         hk_session := hk_session h |}
  end.

Definition onSession (w : World) (op : SessionOp) (h : RoomHook) : RoomHook :=
  match hk_session h with Some i => sessionDo w i op h | None => h end.

(** The cleanup of the effect, and the effect for the next Project. *)
Definition leaveProject (w : World) (h : RoomHook) : RoomHook :=
  let h := onSession w SoDisconnect h in
  {| hk_projectId := hk_projectId h; hk_view := hk_view h; hk_sessions := hk_sessions h; hk_session := None |}.

Definition enterProject (w : World) (p : option string) (h : RoomHook) : RoomHook :=
  match truthy p with
  | None => {| hk_projectId := p; hk_view := hk_view h; hk_sessions := hk_sessions h; hk_session := None |}
  | Some q =>
      let i := length (hk_sessions h) in
      sessionDo w i SoConnect {| hk_projectId := p; hk_view := hk_view h; hk_sessions := hk_sessions h ++ [(q, newSession)]; hk_session := Some i |}
  end.

(** ** Callbacks *)

Inductive HookOp :=
| HkProject (p : option string)
| HkSubmit (cs : list RoomProjectCommand)
| HkReplaceHead (head : CollaborativeHead)
| HkReconcile (head : CollaborativeHead) (expectedRoomEpoch : string)
| HkPublish (update : PresenceUpdate)
| HkRetry
| HkTimer (session : nat)
| HkMessage (session generation socket : nat) (data : MessageData)
| HkClose (session generation socket : nat) (code : Z) (reason : string)
| HkError (session generation socket : nat).

Definition withView (f : RoomView → RoomView) (h : RoomHook) : RoomHook :=
  {| hk_projectId := hk_projectId h; hk_view := f (hk_view h); hk_sessions := hk_sessions h; hk_session := hk_session h |}.

(** [setHead(session.getHead())] of the current session, when it has a head. *)
Definition readCurrentHead (h : RoomHook) : RoomHook :=
  match hk_session h ≫= λ i, hk_sessions h !! i with Some (_, s) => withView (readHead s) h | None => h end.

(** [setHead(effectiveHead)] unless the reconciliation throws. *)
Definition reconcileHead (w : World) (head : CollaborativeHead) (expectedRoomEpoch : string) (h : RoomHook) : RoomHook :=
  match hk_session h ≫= λ i, hk_sessions h !! i with
  | None => h
  | Some (p, s) =>
      let h' := onSession w (SoReconcile head expectedRoomEpoch) h in
      match (reconcileCheckpointHead w head expectedRoomEpoch s).1 with
      | Ok effectiveHead => withView (setHead effectiveHead) h'
      | Throw _ => h'
      end
  end.

Definition hookStep (w : World) (op : HookOp) (h : RoomHook) : RoomHook :=
  match op with
  | HkProject p => if bool_decide (p = hk_projectId h) then h else enterProject w p (leaveProject w h)
  | HkSubmit cs => onSession w (SoSubmit cs) h
  | HkReplaceHead head => readCurrentHead (onSession w (SoReplaceHead head) h)
  | HkReconcile head e => reconcileHead w head e h
  | HkPublish u => onSession w (SoPublish u) h
  | HkRetry => onSession w SoRetry h
  | HkTimer i => sessionDo w i SoTimer h
  | HkMessage i g k data => sessionDo w i (SoSocketMessage g k data) h
  | HkClose i g k code reason => sessionDo w i (SoSocketClose g k code reason) h
  | HkError i g k => sessionDo w i (SoSocketError g k) h
  end.

(** ** What the hook returns *)

Record RoomResult := {
  rr_status : ProjectRoomStatus;
  rr_terminalReason : option ProjectRoomTerminalReason;
  rr_failure : option ProjectRoomFailure;
  rr_head : option CollaborativeHead;
  rr_capabilities : list string;
  rr_authorizationVersion : option Z;
  rr_canSubmitCommands : bool;
  rr_canPublishPresence : bool;
  rr_canRun : bool;
  rr_localSessionId : option string;
  rr_participants : list PresenceParticipant;
  rr_activeRuns : list ActiveRunSummary;
  rr_instances : list (string * RoomInstanceState);
  rr_runsRevision : nat;
  rr_instancesRevision : nat
}.

Definition roomResult (h : RoomHook) : RoomResult :=
  let v := if bool_decide (is_Some (hk_projectId h)) && bool_decide (vw_projectId (hk_view h) = hk_projectId h) then hk_view h else initialView in
  let may capability := bool_decide (vw_status v = st_ready) && bool_decide (capability ∈ vw_capabilities v) && bool_decide (vw_terminalReason v = None) in
  {| rr_status := vw_status v; rr_terminalReason := vw_terminalReason v; rr_failure := vw_failure v; rr_head := vw_head v;
     rr_capabilities := vw_capabilities v; rr_authorizationVersion := vw_authorizationVersion v;
     rr_canSubmitCommands := may "edit_project" && bool_decide (is_Some (vw_head v)); rr_canPublishPresence := may "publish_presence";
     rr_canRun := may "start_run"; rr_localSessionId := vw_localSessionId v; rr_participants := vw_participants v;
     rr_activeRuns := vw_activeRuns v; rr_instances := vw_instances v;
     rr_runsRevision := vw_runsRevision (hk_view h); rr_instancesRevision := vw_instancesRevision (hk_view h) |}.
End hook.
