(* ===== verification/RoomViewTheory.v ===== *)
(** * The room a tab shows is the room of its session ([room/useProjectRoomSession.ts])

    A relation between the state of the hook and the state of a session, kept by every
    operation of the session with the listeners it calls, and by every callback of the hook;
    sessions that were left call no listener. *)

From S2P Require Import Prelude Js GraphModel GraphCommands Samples Canvas RoomBridge RoomBridgeTheory.
From S2P Require Import Protocol ProtocolTheory CommandOutbox OutboxTheory RoomSession SessionTheory RoomView.
#[local] Open Scope nat_scope.
#[local] Open Scope act_scope.

(** ** Actions and their listeners, in step *)

Section sync.
Context (p : string) (F : Session).

(** The view and the session after an action; listeners read the session [F]. *)
Definition sync (a : act) (x : RoomView * Session) : RoomView * Session := (foldl (heard p F) x.1 (a x.2).2, (a x.2).1).

Lemma sync_then a b x : sync (a ;;; b) x = sync b (sync a x).
Proof. unfold sync. cbn [fst snd]. by rewrite then_events, then_state, foldl_app. Qed.

Lemma sync_modify f v s : sync (modify f) (v, s) = (v, f s).
Proof. done. Qed.

Lemma sync_emit e v s : sync (emit e) (v, s) = (heard p F v e, s).
Proof. done. Qed.

Lemma sync_skip x : sync skip x = x.
Proof. by destruct x. Qed.

Lemma sync_reading k v s : sync (reading k) (v, s) = sync (k s) (v, s).
Proof. done. Qed.

Lemma sync_setStatus st v s :
  sync (setStatus st) (v, s) = (if bool_decide (s_status s = st) then v else onStatusChange p st v, put_status st s).
Proof. rewrite <- (setStatus_state st s). unfold sync, setStatus, reading. cbn [fst snd]. by case_bool_decide. Qed.

Lemma sync_setFailure f v s : sync (setFailure f) (v, s) = (onFailureChange f v, put_lastFailure f s).
Proof. done. Qed.

Lemma sync_clearPresence v s :
  sync clearPresence (v, s) = (match s_participants s with [] => v | _ => setParticipants [] v end, put_participants [] s).
Proof. rewrite <- (clearPresence_state s). unfold sync, clearPresence, reading. cbn [fst snd]. by destruct (s_participants s). Qed.

Lemma sync_dropSocket w v s : sync (dropSocket w) (v, s) = (v, put_socket None s).
Proof.
  rewrite <- (dropSocket_state w s). unfold sync, dropSocket, reading. cbn [fst snd].
  rewrite then_events. destruct (s_socket s) as [k|]; [|done]. by destruct (_ <? _).
Qed.

Lemma sync_presence v s : sync emitPresenceChange (v, s) = (setParticipants (getParticipants s) v, s).
Proof. done. Qed.

Lemma sync_runs v s : sync emitActiveRunsChange (v, s) = (setActiveRuns (getActiveRuns s) v, s).
Proof. done. Qed.

Lemma readHead_same v : vw_head v = s_head F → readHead F v = v.
Proof. unfold readHead. intros <-. destruct v as [? ? ? ? [h|] ? ? ? ? ? ? ? ?]; done. Qed.

Definition of_outbox (e : SessionEvent) : Prop := match e with EvOutbox _ | EvWroteCommand _ => True | _ => False end.

Lemma heard_outbox v es : vw_head v = s_head F → Forall of_outbox es → foldl (heard p F) v es = v.
Proof.
  intros Hv. induction 1 as [|e es He _ IH]; [done|]. cbn [foldl].
  assert (heard p F v e = v) as ->; [|done]. destruct e as [| | | | | | | | | | | |[]| | | | | |]; try done; cbn; by apply readHead_same.
Qed.

Lemma writeSends_sync w l s : ∃ b, (writeSends w l s).1 = put_outbox b s ∧ Forall of_outbox (writeSends w l s).2.
Proof.
  revert s. induction l as [|o l IH]; intros s; cbn [writeSends].
  { exists (s_outbox s). split; [by destruct s|constructor]. }
  rewrite then_state, then_events. unfold writeSend, reading. destruct (s_socket s) as [k|]; [|by apply IH].
  destruct (w_send w) as [error|].
  - cbn [fst snd]. destruct (IH (put_outbox (box (sendFailed (out_commandId o) error (s_outbox s))) s)) as (b & -> & Hb). exists b. split; [by destruct s|].
    apply Forall_app. split; [|done]. apply Forall_fmap, Forall_forall. done.
  - unfold emit. cbn [fst snd]. destruct (IH s) as (b & -> & Hb). exists b. split; [done|]. by constructor.
Qed.

(** An operation of the outbox tells the view nothing it does not know. *)
Lemma sync_outbox w op v s : vw_head v = s_head F → ∃ b, sync (outboxDo w op) (v, s) = (v, put_outbox b s).
Proof.
  intros Hv. unfold sync, outboxDo, reading. cbn [fst snd]. rewrite then_state, then_events. cbn [fst snd].
  match goal with |- context [writeSends w ?l ?s'] => destruct (writeSends_sync w l s') as (b & E & Hb); rewrite E end. exists b. f_equal.
  apply heard_outbox; [done|]. apply Forall_app. split; [|done]. apply Forall_fmap, Forall_forall. done.
Qed.
End sync.

(** ** Maps whose keys are the keys of their values *)

Section keyed.
Context {V : Type} (key : V → string).

Definition keyed (m : list (string * V)) : Prop := NoDup m.*1 ∧ Forall (λ kv, kv.1 = key kv.2) m.

Lemma map_set_keys k v (m : list (string * V)) k' : k' ∈ (map_set k v m).*1 ↔ k' = k ∨ k' ∈ m.*1.
Proof.
  induction m as [|[k1 v1] m IH]; cbn; [set_solver|]. case_bool_decide as E; [subst; set_solver|]. cbn. set_solver.
Qed.

Lemma keyed_set v m : keyed m → keyed (map_set (key v) v m).
Proof.
  intros [Hn Hk]. induction m as [|[k1 v1] m IH]; cbn [map_set]; [split; [apply NoDup_singleton|by constructor]|].
  cbn [fmap list_fmap fst] in Hn. apply NoDup_cons in Hn as [Hk1 Hn]. apply Forall_cons in Hk as [E Hk]. destruct (IH Hn Hk) as [IH1 IH2].
  case_bool_decide as D; [subst; split; [by apply NoDup_cons|by constructor]|].
  split; [|by constructor]. cbn. apply NoDup_cons. split; [|done]. rewrite map_set_keys. by intros [->|].
Qed.

Lemma keyed_delete k m : keyed m → keyed (map_delete k m).
Proof.
  intros [Hn Hk]. unfold map_delete. split.
  - eapply sublist_NoDup; [exact Hn|]. apply fmap_sublist, sublist_filter.
  - rewrite Forall_forall in *. intros kv [_ H]%list_elem_of_filter. by apply Hk.
Qed.

Lemma keyed_foldl {A} (f : list (string * V) → A → list (string * V)) l m :
  (∀ m a, keyed m → keyed (f m a)) → keyed m → keyed (foldl f m l).
Proof. intros Hf. revert m. induction l as [|a l IH]; intros m Hm; [done|]. by apply IH, Hf. Qed.

Lemma keyed_of l : keyed (map_of key l).
Proof. apply keyed_foldl; [intros m v; apply keyed_set|split; constructor]. Qed.

Lemma map_set_fresh k v (m : list (string * V)) : k ∉ m.*1 → map_set k v m = m ++ [(k, v)].
Proof.
  induction m as [|[k1 v1] m IH]; [done|]. cbn [map_set fmap list_fmap fst]. intros Hk. rewrite bool_decide_false by set_solver.
  rewrite IH by set_solver. done.
Qed.

(** Such a map is the map of its values. *)
Lemma keyed_values m : keyed m → map_of key m.*2 = m.
Proof.
  intros Hm. unfold map_of. cut (∀ m0, keyed (m0 ++ m) → foldl (λ m v, map_set (key v) v m) m0 m.*2 = m0 ++ m); [intros H; by apply (H [])|].
  clear Hm. induction m as [|[k v] m IH]; intros m0 [Hn Hk]; [by rewrite app_nil_r|]. cbn [fmap list_fmap snd foldl].
  pose proof Hk as [_ [E _]%Forall_cons]%Forall_app. cbn in E. subst k.
  rewrite map_set_fresh. { rewrite IH; [by rewrite <- app_assoc|]. by rewrite <- app_assoc. }
  rewrite fmap_app in Hn. apply NoDup_app in Hn as (_ & Hd & _). intros H. apply (Hd _ H). cbn. set_solver.
Qed.
End keyed.

Lemma keyed_nil {V} (key : V → string) : keyed key [].
Proof. split; constructor. Qed.
#[local] Hint Resolve keyed_nil : core.

Definition instanceKey (i : RoomInstanceState) : string := instanceKeyText (i_key i).

(** ** The relation *)

Record mirror (p : string) (v : RoomView) (s : Session) : Prop := {
  mi_project : vw_projectId v = Some p;
  mi_status : vw_status v = s_status s;
  mi_terminal : vw_terminalReason v = s_terminalReason s;
  mi_failure : vw_failure v = None ∨ vw_failure v = s_lastFailure s;
  mi_head : vw_head v = s_head s;
  mi_capabilities : vw_capabilities v = s_capabilities s;
  mi_authorization : vw_authorizationVersion v = s_authorizationVersion s;
  mi_participants : vw_participants v = getParticipants s;
  mi_sessionId : vw_localSessionId v = getProjectRoomSessionId s;
  mi_ready : s_status s = st_ready → vw_activeRuns v = getActiveRuns s ∧ vw_instances v = s_instances s;
  (** a session that never had a head never was ready *)
  mi_never : s_head s = None → s_capabilities s = [] ∧ s_authorizationVersion s = None ∧ s_ready s = None;
  (** without a socket nobody is there *)
  mi_alone : s_socket s = None → s_participants s = [];
  mi_keyed : keyed instanceKey (s_instances s);
  (** a session that waits for its timer has no socket *)
  mi_waiting : s_socket s = None ∨ s_reconnectTimer s = None
}.

Definition mirrors (p : string) (x : RoomView * Session) : Prop := mirror p x.1 x.2.

(** What stopping and recovering need of the relation. *)
Record shows (p : string) (v : RoomView) (s : Session) : Prop := {
  sh_project : vw_projectId v = Some p;
  sh_status : vw_status v = s_status s;
  sh_terminal : vw_terminalReason v = s_terminalReason s;
  sh_failure : vw_failure v = None ∨ vw_failure v = s_lastFailure s;
  sh_head : vw_head v = s_head s;
  sh_keyed : keyed instanceKey (s_instances s)
}.

Lemma mirror_shows p v s : mirror p v s → shows p v s.
Proof. intros []. by split. Qed.

(** On explicit records the terms stay small. *)
Ltac opened v s := destruct v as [vp vst vt vf vh vc va vpa vru vin vrr vir vid];
  destruct s as [sk sst st sf sc sti sat sg sr sh scap sau spa sps slp sru sin sb]; cbn in *;
  repeat match goal with H : ?x = _ |- _ => is_var x; subst x end.
Ltac computed := cbv beta iota delta [fst snd heard put_socket put_status put_terminalReason put_lastFailure put_intentionallyClosed put_reconnectTimer put_reconnectAttempts
    put_generation put_ready put_head put_capabilities put_authorizationVersion put_participants put_presenceSequence put_lastPresenceSentAt put_activeRuns
    put_instances put_outbox s_socket s_status s_terminalReason s_lastFailure s_intentionallyClosed s_reconnectTimer s_reconnectAttempts s_generation s_ready
    s_head s_capabilities s_authorizationVersion s_participants s_presenceSequence s_lastPresenceSentAt s_activeRuns s_instances s_outbox
    onStatusChange onFailureChange clearRights forgetHead setViewStatus setViewFailure setTerminalReason setParticipants setActiveRuns setInstances setHead
    vw_projectId vw_status vw_terminalReason vw_failure vw_head vw_capabilities vw_authorizationVersion vw_participants vw_activeRuns vw_instances
    vw_runsRevision vw_instancesRevision vw_localSessionId].
Ltac stepped := repeat (rewrite ?sync_then, ?sync_modify, ?sync_emit, ?sync_skip, ?sync_reading, ?sync_setStatus, ?sync_setFailure, ?sync_clearPresence, ?sync_dropSocket,
    ?sync_presence, ?sync_runs; computed).

Section ops.
Context (p : string) (opts : SessionOptions).
Context (asHead : jsval → CollaborativeHead) (asCommand : jsval → RoomProjectCommand).
Context (JSON_parse : string → res jsval) (numberText : jsnum → string).

Ltac quiet_outbox := match goal with |- context [sync ?q ?F' (outboxDo ?w ?op) (?v, ?s)] =>
  let b := fresh "b" in destruct (sync_outbox q F' w op v s) as [b ->]; [cbn; congruence|]; computed end.
Ltac mirrored := unfold mirrors; split; cbn in *; try done; try congruence; auto.

Lemma stop_mirrors F w r f v s : s_head F = s_head s → shows p v s → mirrors p (sync p F (stopTraffic opts w r f) (v, s)).
Proof.
  intros HF [Hp Hst Ht Hf Hh Hk]. unfold stopTraffic, clearReconnectTimer. opened v s.
  destruct f as [f|], spa; stepped; quiet_outbox; stepped; case_bool_decide; subst; mirrored.
Qed.

Lemma schedule_mirrors F w v s :
  s_head F = s_head s → mirror p v s → s_socket s = None → s_status s ≠ st_ready → mirrors p (sync p F (scheduleReconnect opts numberText w) (v, s)).
Proof.
  intros HF Hm Hs Hst. unfold scheduleReconnect, clearReconnectTimer. rewrite sync_reading. destruct (_ || _); [by rewrite sync_skip|].
  destruct (_ <=? _); [by apply stop_mirrors; [|apply mirror_shows]|]. destruct Hm. opened v s. stepped. mirrored.
Qed.

Lemma recover_mirrors F w f v s : s_head F = s_head s → shows p v s → mirrors p (sync p F (recoverTraffic opts numberText w f) (v, s)).
Proof.
  intros HF [Hp Hst Ht Hf Hh Hk]. unfold recoverTraffic. opened v s.
  destruct spa; stepped; quiet_outbox; stepped; (apply schedule_mirrors; [done| |done|done]); case_bool_decide; subst; mirrored.
Qed.

Lemma openSocket_mirrors F w v s :
  s_head F = s_head s → mirror p v s → s_participants s = [] → s_terminalReason s = None → s_reconnectTimer s = None → mirrors p (sync p F (openSocket opts numberText w) (v, s)).
Proof.
  intros HF Hm Ha Ht Hw. unfold openSocket. rewrite sync_reading. destruct (_ || _); [by rewrite sync_skip|].
  destruct Hm as [? ? ? ? ? ? ? Hpa ? ? Hn ? ? ?]. opened v s. destruct sh as [h|].
  - stepped. case_bool_decide; subst; destruct (w_factory w) as [k|e]; stepped; [mirrored| |mirrored|]; (apply recover_mirrors; [done|mirrored]).
  - destruct (Hn eq_refl) as (-> & -> & ->).
    stepped. case_bool_decide; subst; destruct (w_factory w) as [k|e]; stepped; [mirrored| |mirrored|]; (apply recover_mirrors; [done|mirrored]).
Qed.

(** *** The head *)

(** Actions that leave the head as it is. *)
Definition keeps_head (a : act) : Prop := ∀ s, s_head (a s).1 = s_head s.

Lemma keeps_then a b : keeps_head a → keeps_head b → keeps_head (a ;;; b).
Proof. intros Ha Hb s. by rewrite then_state, Hb. Qed.

Lemma keeps_reading k : (∀ s, keeps_head (k s)) → keeps_head (reading k).
Proof. intros Hk s. apply Hk. Qed.

Lemma keeps_modify f : (∀ s, s_head (f s) = s_head s) → keeps_head (modify f).
Proof. intros Hf s. apply Hf. Qed.

Lemma keeps_setStatus x : keeps_head (setStatus x).
Proof. intros s. by rewrite setStatus_state. Qed.

Lemma keeps_clearPresence : keeps_head clearPresence.
Proof. intros s. by rewrite clearPresence_state. Qed.

Lemma keeps_dropSocket w : keeps_head (dropSocket w).
Proof. intros s. by rewrite dropSocket_state. Qed.

Lemma outbox_head w op : keeps_head (outboxDo w op).
Proof.
  intros s. unfold outboxDo, reading. rewrite then_state. cbn [fst].
  match goal with |- context [writeSends w ?l ?s'] => destruct (writeSends_sync w l s') as (b & -> & _) end. done.
Qed.

Ltac keeps := repeat match goal with
  | |- keeps_head (_ ;;; _) => apply keeps_then
  | |- keeps_head (reading _) => apply keeps_reading; intros ?
  | |- keeps_head (setStatus _) => apply keeps_setStatus
  | |- keeps_head clearPresence => apply keeps_clearPresence
  | |- keeps_head (dropSocket _) => apply keeps_dropSocket
  | |- keeps_head (outboxDo _ _) => apply outbox_head
  | |- keeps_head (modify _) => apply keeps_modify; intros ?; reflexivity
  | |- keeps_head (emit _) => intros ?; reflexivity
  | |- keeps_head skip => intros ?; reflexivity
  | |- keeps_head clearReconnectTimer => intros ?; reflexivity
  | |- keeps_head (setFailure _) => intros ?; reflexivity
  end.

Lemma stop_head w r f : keeps_head (stopTraffic opts w r f).
Proof. unfold stopTraffic. destruct f; keeps. Qed.

Lemma schedule_head w : keeps_head (scheduleReconnect opts numberText w).
Proof. unfold scheduleReconnect. apply keeps_reading. intros s. destruct (_ || _); [done|]. destruct (_ <=? _); [apply stop_head|keeps]. Qed.

Lemma recover_head w f : keeps_head (recoverTraffic opts numberText w f).
Proof. unfold recoverTraffic. keeps. apply schedule_head. Qed.

Lemma openSocket_head w : keeps_head (openSocket opts numberText w).
Proof. unfold openSocket. apply keeps_reading. intros s. destruct (_ || _); [done|]. destruct (w_factory w); keeps. apply recover_head. Qed.

Lemma connect_head w : keeps_head (connect opts numberText w).
Proof. unfold connect. apply keeps_reading. intros s. destruct (s_terminalReason s); keeps. apply openSocket_head. Qed.

(** ** Operations *)

(** An operation with its listeners, from a view and a session that agree. *)
Definition told (a : act) (v : RoomView) (s : Session) : Prop := mirrors p (sync p (a s).1 a (v, s)).

Lemma stop_told w r f v s : shows p v s → told (stopTraffic opts w r f) v s.
Proof. intros Hm. apply stop_mirrors; [apply stop_head|done]. Qed.

Lemma recover_told w f v s : shows p v s → told (recoverTraffic opts numberText w f) v s.
Proof. intros Hm. apply recover_mirrors; [apply recover_head|done]. Qed.

Lemma skip_told v s : mirror p v s → told skip v s.
Proof. done. Qed.

Lemma reading_told k v s : told (k s) v s → told (reading k) v s.
Proof. done. Qed.

(** A batch that goes through the outbox. *)
Lemma outbox_told w op v s : mirror p v s → told (outboxDo w op) v s.
Proof.
  intros Hm. unfold told. destruct (sync_outbox p (outboxDo w op s).1 w op v s) as [b ->]; [rewrite outbox_head; apply Hm|].
  unfold mirrors. cbn [fst snd]. by destruct Hm.
Qed.

(** The first connection: whatever the tab showed, it shows the new session. *)
Lemma connect_told w v : told (connect opts numberText w) v newSession.
Proof.
  unfold told. set (F := (connect opts numberText w newSession).1).
  assert (s_head F = None) as HF by apply (connect_head w newSession). clearbody F. destruct v as [vp vst vt vf vh vc va vpa vru vin vrr vir vid].
  unfold connect, clearReconnectTimer, openSocket, newSession. stepped. cbn [orb]. rewrite bool_decide_false by (by intros []). stepped.
  rewrite (bool_decide_false (st_idle = st_connecting)) by done. destruct (w_factory w) as [k|e]; stepped; [mirrored|]. apply recover_mirrors; [done|mirrored].
Qed.

(** Where the session has no socket nobody takes part. *)
Lemma terminal_alone s : session_ok opts s → ∀ r, s_terminalReason s = Some r → s_socket s = None.
Proof. intros [Ht Hc _ _ _ _] r Hr. destruct (Ht r Hr) as [Hi _]. by apply Hc. Qed.

Lemma openSocket_told w f v s :
  (∀ s, s_head (f s) = s_head s) → mirror p v (f s) → s_participants (f s) = [] → s_terminalReason (f s) = None → s_reconnectTimer (f s) = None →
  told (modify f ;;; openSocket opts numberText w) v s.
Proof.
  intros Hf Hm Ha Ht Hw. unfold told. rewrite sync_then, sync_modify. apply openSocket_mirrors; try done.
  rewrite then_state, openSocket_head. by rewrite modify_state.
Qed.

Lemma timer_told w v s : session_ok opts s → mirror p v s → told (timerFired opts numberText w) v s.
Proof.
  intros [Ht Hc _ _ _ _] Hm. unfold timerFired. apply reading_told.
  destruct (s_reconnectTimer s) as [d|] eqn:Et; [|done].
  assert (s_socket s = None) as Hs by (destruct (mi_waiting _ _ _ Hm); congruence).
  destruct (s_intentionallyClosed s) eqn:Ei; [by destruct Hc|].
  destruct (s_terminalReason s) as [r|] eqn:Er; [by destruct (Ht r)|].
  apply openSocket_told; cbn; try done; [|by apply Hm]. destruct Hm. mirrored.
Qed.

Lemma retry_head w : keeps_head (retry opts numberText w).
Proof. unfold retry. apply keeps_reading. intros s. destruct (bool_decide _); keeps. apply openSocket_head. Qed.

Lemma retry_told w v s : session_ok opts s → mirror p v s → told (retry opts numberText w) v s.
Proof.
  intros Hok Hm. unfold told. pose proof (retry_head w s) as HF. revert HF. generalize (retry opts numberText w s).1. intros F HF.
  unfold retry. rewrite sync_reading. case_bool_decide as Hr; [|by rewrite sync_skip].
  pose proof (terminal_alone s Hok _ Hr) as Hs. destruct (so_terminal _ _ Hok _ Hr) as [_ Hst].
  assert (s_status s ≠ st_reconnecting ∧ s_status s ≠ st_connecting) as [Hn1 Hn2] by (destruct Hst; split; congruence).
  destruct Hm as [? ? ? ? ? ? ? Hpa ? ? Hn Ha ? ?]. clear Hok Hst. specialize (Ha Hs). unfold openSocket, clearReconnectTimer. opened v s.
  stepped. cbn [orb]. rewrite bool_decide_false by (by intros []).
  destruct sh as [h|]; [|destruct (Hn eq_refl) as (-> & -> & ->)];
    stepped; rewrite bool_decide_false by done; (destruct (w_factory w) as [k|e]; stepped; [mirrored|]); (apply recover_mirrors; [done|mirrored]).
Qed.

Lemma submit_told w cs v s : mirror p v s → told (submitCommands w cs) v s.
Proof.
  intros Hm. unfold submitCommands. apply reading_told.
  destruct (_ || _); [done|by apply outbox_told].
Qed.

Lemma publish_told w u v s : mirror p v s → told (λ s, (publishPresence w u s).2) v s.
Proof.
  intros Hm. unfold told, sync, publishPresence. cbn [fst snd]. destruct (negb _); [done|]. destruct (_ && _); [done|].
  destruct (s_socket s) eqn:Es; [|done]. destruct (negb _); [done|]. destruct Hm. destruct (w_send w); mirrored.
Qed.

(** *** Messages *)

(** A new head that the view is told of. *)
Lemma headed_told w op e h v s :
  mirror p v s → (∀ F, s_head F = Some h → heard p F v e = setHead h v) → told (modify (put_head (Some h)) ;;; emit e ;;; outboxDo w op) v s.
Proof.
  intros Hm He. unfold told. set (F := (_ s).1).
  assert (s_head F = Some h) as HF. { unfold F. by rewrite !then_state, outbox_head. }
  clearbody F. rewrite !sync_then, sync_modify, sync_emit, (He F HF).
  destruct (sync_outbox p F w op (setHead h v) (put_head (Some h) s)) as [b ->]; [done|]. destruct Hm. mirrored.
Qed.

Lemma modify_told f a v s : told a v (f s) → told (modify f ;;; a) v s.
Proof. unfold told. by rewrite then_state, sync_then, sync_modify, modify_state. Qed.

Lemma accepted_told w m v s : mirror p v s → told (applyAccepted asCommand w m) v s.
Proof.
  intros Hm. unfold applyAccepted. apply reading_told.
  destruct (recordAccepted m (s_outbox s)) as [b local]. apply modify_told.
  assert (mirror p v (put_outbox b s)) as Hm' by (by destruct Hm).
  destruct (s_head s) as [h|]; [|by apply outbox_told]. repeat (case_bool_decide; [by first [apply outbox_told|done]|]).
  destruct (applyRoomCommandsToHead _ _ _) as [h'|]; [|by apply outbox_told].
  apply headed_told; [done|]. intros F HF. cbn. unfold readHead. by rewrite HF.
Qed.

Lemma rehydrate_told w raw v s : mirror p v s → told (applyRehydrate asHead w raw) v s.
Proof.
  intros Hm. unfold applyRehydrate. apply reading_told.
  pose proof (mi_head _ _ _ Hm) as Hh. destruct (s_head s) as [h|] eqn:E; [|by apply headed_told].
  destruct (shouldReplaceCollaborativeHead (Some h) (asHead raw)); [by apply headed_told|]. unfold told. rewrite sync_emit. cbn [heard].
  destruct v as [? ? ? ? vh ? ? ? ? ? ? ? ?]. cbn in Hh. by subst vh.
Qed.

Lemma ready_told w m v s :
  session_ok opts s → is_Some (s_socket s) → mirror p v s → told (applyReady opts asHead numberText w m) v s.
Proof.
  intros Hok [k Hk] Hm. pose proof (lv_terminal _ _ (socket_live opts s k Hok Hk)) as Ht. clear Hok. unfold applyReady.
  case_bool_decide; [by apply recover_told, mirror_shows|]. apply reading_told.
  set (h := match s_head s with Some h => _ | None => _ end). clearbody h. unfold told. set (F := (_ s).1).
  assert (s_head F = Some h) as HF. { unfold F. by rewrite !then_state, outbox_head, emitPresence_state, emitRuns_state, emit_state, setStatus_state, setFailure_state. }
  clearbody F. destruct Hm as [? ? ? ? ? ? ? ? ? ? ? ? ? Hw]. opened v s. stepped. unfold onReady. computed. quiet_outbox.
  case_bool_decide; mirrored; apply (keyed_of instanceKey).
Qed.

(** Presence, Runs and instances: the session and the view change alike. *)
Lemma upsert_told q v s : is_Some (s_socket s) → mirror p v s → told (upsertParticipant q) v s.
Proof.
  intros [k Hk] []. unfold told, upsertParticipant. generalize ((modify (λ s, put_participants (map_set (p_project_room_session_id q) q (s_participants s)) s) ;;; emitPresenceChange) s).1.
  intros F. opened v s. stepped. mirrored.
Qed.

Lemma remove_told i v s : is_Some (s_socket s) → mirror p v s → told (removeParticipant i) v s.
Proof.
  intros [k Hk] Hm. unfold removeParticipant. apply reading_told. destruct (map_has _ _); [|done]. unfold told. set (F := (_ s).1). clearbody F.
  destruct Hm. opened v s. stepped. mirrored.
Qed.

Lemma started_told r v s :
  mirror p v s → told (modify (λ s, put_activeRuns (map_set (r_run_id r) r (s_activeRuns s)) s) ;;; emitActiveRunsChange) v s.
Proof. intros []. unfold told. set (F := (_ s).1). clearbody F. opened v s. stepped. mirrored. intros Hr. split; [done|]. by apply mi_ready0. Qed.

Lemma finished_told m v s :
  mirror p v s → told (modify (λ s, put_activeRuns (map_delete (rf_run_id m) (s_activeRuns s)) s) ;;; emitActiveRunsChange ;;; emit (EvRunFinished m)) v s.
Proof.
  intros []. unfold told. set (F := (_ s).1). assert (getActiveRuns F = snd <$> map_delete (rf_run_id m) (s_activeRuns s)) as HF by done. clearbody F.
  opened v s. stepped. rewrite HF. mirrored. intros Hr. split; [done|]. by apply mi_ready0.
Qed.

Lemma changed_told m v s : mirror p v s → told (applyInstancesChanged m) v s.
Proof.
  intros Hm. unfold told, applyInstancesChanged. rewrite then_state, modify_state, emit_state, sync_then, sync_modify, sync_emit. cbv beta. cbn [heard].
  match goal with |- context [put_instances ?x s] => set (im := x) end.
  assert (keyed instanceKey im) as Hk.
  { apply keyed_foldl; [intros ? a; apply (keyed_set instanceKey)|]. apply keyed_foldl; [intros ? a; apply keyed_delete|apply Hm]. }
  change (instanceMap (getInstances (put_instances im s))) with (map_of instanceKey im.*2). rewrite (keyed_values instanceKey im Hk). clearbody im.
  destruct Hm. mirrored. intros Hr. split; [|done]. by apply mi_ready0.
Qed.

Lemma message_told w m v s :
  session_ok opts s → is_Some (s_socket s) → mirror p v s → (∀ x, m ≠ m_heartbeat x) →
  told (handleServerMessage opts asHead asCommand numberText w m) v s.
Proof.
  intros Hok Hk Hm Hh. destruct m; cbn [handleServerMessage]; try by apply outbox_told.
  - by apply ready_told.
  - by apply upsert_told.
  - by apply upsert_told.
  - by apply remove_told.
  - by apply started_told.
  - by apply finished_told.
  - by apply changed_told.
  - by apply accepted_told.
  - by apply rehydrate_told.
  - by destruct (Hh version).
Qed.

Lemma raw_told w raw v s :
  session_ok opts s → is_Some (s_socket s) → mirror p v s → told (handleRaw opts asHead asCommand numberText w raw) v s.
Proof.
  intros Hok Hk Hm. pose proof (mirror_shows _ _ _ Hm) as Hs. unfold handleRaw. case_bool_decide as Hh; [done|]. case_bool_decide; [by apply stop_told|].
  assert (∀ (b : bool) a, told a v s → told ((if b then emit (EvAgentRoom raw) else skip) ;;; a) v s) as Hthen.
  { intros [] a Ha; unfold told; rewrite then_state, sync_then; [rewrite sync_emit|rewrite sync_skip]; exact Ha. }
  apply Hthen. clear Hthen. set (agent := match messageTypeOf raw with Some t => _ | None => false end). destruct agent; [done|].
  set (unknown := match messageTypeOf raw with Some t => _ | None => false end). destruct unknown; [done|].
  destruct (parseServerRoomMessage raw) as [m|] eqn:Hp; [|by apply recover_told].
  apply message_told; try done. intros x ->. apply parsed_type in Hp. by destruct Hh.
Qed.

Lemma data_told w data v s :
  session_ok opts s → is_Some (s_socket s) → mirror p v s → told (handleMessage opts asHead asCommand JSON_parse numberText w data) v s.
Proof.
  intros Hok Hk Hm. destruct data as [text|raw]; cbn [handleMessage]; [|by apply raw_told].
  destruct (JSON_parse text); [by apply raw_told|by apply recover_told, mirror_shows].
Qed.

Lemma close_told w code reason v s :
  session_ok opts s → is_Some (s_socket s) → mirror p v s → told (modify (put_socket None) ;;; handleClose opts numberText w code reason) v s.
Proof.
  intros Hok [k Hk] Hm. pose proof (lv_open _ _ (socket_live opts s k Hok Hk)) as Ho.
  assert (shows p v (put_socket None s)) as Hs by (by destruct Hm).
  apply modify_told. unfold handleClose.
  destruct (terminalReasonFromClose code reason) as [[r|r]|]; [|by apply stop_told|]; apply reading_told; cbn [put_socket s_intentionallyClosed]; rewrite Ho; by apply recover_told.
Qed.

Lemma error_told v s :
  mirror p v s → told (reading (λ s, if bool_decide (s_status s = st_ready) then setStatus st_unsynchronized else skip)) v s.
Proof.
  intros Hm. apply reading_told. case_bool_decide as Hr; [|done]. unfold told. rewrite setStatus_state, sync_setStatus, Hr.
  rewrite bool_decide_false by done. destruct Hm. mirrored.
Qed.

Lemma current_told g k a v s : mirror p v s → (is_Some (s_socket s) → told a v s) → told (ifCurrent g k a) v s.
Proof. intros Hm Ha. unfold ifCurrent. apply reading_told. case_bool_decide as H; [|done]. apply Ha. destruct H as [_ ->]. eauto. Qed.

(** What a session does by itself or for its tab, the head it is given apart. *)
Definition ordinary (op : SessionOp) : Prop := match op with SoConnect | SoDisconnect | SoReplaceHead _ | SoReconcile _ _ => False | _ => True end.

Lemma ordinary_told w op v s :
  ordinary op → session_ok opts s → mirror p v s → told (run_session opts asHead asCommand JSON_parse numberText w op) v s.
Proof.
  intros Hop Hok Hm. destruct op; try done; cbn [run_session].
  - by apply retry_told.
  - by apply timer_told.
  - by apply submit_told.
  - by apply publish_told.
  - apply current_told; [done|]. intros Hk. by apply data_told.
  - apply current_told; [done|]. intros Hk. by apply close_told.
  - apply current_told; [done|]. intros _. by apply error_told.
Qed.
End ops.

(** ** A head that the tab gives the session *)

Lemma outbox_shape w op s : ∃ b, (outboxDo w op s).1 = put_outbox b s ∧ Forall of_outbox (outboxDo w op s).2.
Proof.
  unfold outboxDo, reading. rewrite then_state, then_events. cbn [fst snd].
  match goal with |- context [writeSends w ?l ?s'] => destruct (writeSends_sync w l s') as (b & -> & Hb) end. exists b. split; [done|].
  apply Forall_app. split; [|done]. apply Forall_fmap, Forall_forall. done.
Qed.

(** The events are the outbox's, the head is the one that won. *)
Lemma replace_shape w h s :
  ∃ b, (replaceHead w h s).1 = put_outbox b (put_head (if shouldReplaceCollaborativeHead (s_head s) h then Some h else s_head s) s) ∧
    Forall of_outbox (replaceHead w h s).2.
Proof.
  unfold replaceHead, reading. destruct (shouldReplaceCollaborativeHead _ _).
  - rewrite then_state, then_events. apply (outbox_shape w finishHeadRehydration (put_head (Some h) s)).
  - assert (∀ b, put_outbox b (put_head (s_head s) s) = put_outbox b s) as Hp by (by destruct s).
    destruct (pendingReceiptIsCovered _ _).
    + destruct (outbox_shape w finishHeadRehydration s) as (b & H1 & H2). exists b. by rewrite Hp.
    + exists (s_outbox s). rewrite Hp. split; [by destruct s|constructor].
Qed.

Lemma heard_read p F v es : Forall of_outbox es → readHead F (foldl (heard p F) v es) = readHead F v.
Proof.
  intros H. revert v. induction H as [|e es He _ IH]; intros v; [done|]. cbn [foldl]. rewrite IH. clear IH.
  assert (readHead F (readHead F v) = readHead F v) as Hid by (unfold readHead; by destruct (s_head F)).
  destruct e as [| | | | | | | | | | | |[]| | | | | |]; try done.
Qed.

Lemma headed_mirror p h b v s : mirror p v s → mirror p (setHead h v) (put_outbox b (put_head (Some h) s)).
Proof. intros []. by split. Qed.

Lemma replace_head h s : ∃ h', (if shouldReplaceCollaborativeHead (s_head s) h then Some h else s_head s) = Some h'.
Proof. destruct (s_head s) as [c|]; cbn [shouldReplaceCollaborativeHead]; [|eauto]. repeat case_bool_decide; eauto. Qed.

Lemma replace_mirror p w h v s :
  mirror p v s → let r := replaceHead w h s in mirror p (readHead r.1 (foldl (heard p r.1) v r.2)) r.1.
Proof.
  intros Hm. cbv zeta. destruct (replace_shape w h s) as (b & E & He). rewrite (heard_read _ _ _ _ He), E.
  destruct (replace_head h s) as [h' ->]. by apply headed_mirror.
Qed.

(** A reconciliation that throws changes nothing; another leaves the head it returns. *)
Lemma reconcile_shape w h e s :
  match (reconcileCheckpointHead w h e s).1 with
  | Throw _ => (reconcileCheckpointHead w h e s).2 = (s, [])
  | Ok h' => ∃ b, ((reconcileCheckpointHead w h e s).2).1 = put_outbox b (put_head (Some h') s) ∧ Forall of_outbox ((reconcileCheckpointHead w h e s).2).2
  end.
Proof.
  unfold reconcileCheckpointHead. destruct (s_head s) as [cur|] eqn:Ec; [|done]. case_bool_decide as He.
  { cbn. exists (s_outbox s). split; [|constructor]. destruct s. cbn in *. by subst. }
  case_bool_decide as He'; [done|].
  destruct (replace_shape w h s) as (b & E1 & V1). destruct (replaceHead w h s) as [s1 e1]. cbn [fst snd] in E1, V1. subst s1.
  destruct (replace_head h s) as [h1 Eh]. rewrite Eh. cbn [s_head put_outbox put_head].
  destruct (_ && _); cbn [fst snd]; [|by exists b]. set (merged := with_checkpoint _ _ h1).
  destruct (replace_shape w merged (put_outbox b (put_head (Some h1) s))) as (b2 & E2 & V2).
  destruct (replaceHead w merged _) as [s2 e2]. cbn [fst snd] in E2, V2 |- *. subst s2. exists b2.
  assert (shouldReplaceCollaborativeHead (Some h1) merged = true) as Hr by (apply should_replace_spec; cbn; lia).
  cbn [s_head put_outbox put_head]. rewrite Hr. split; [done|]. by apply Forall_app.
Qed.

Lemma reconcile_mirror p w h e v s :
  mirror p v s →
  match reconcileCheckpointHead w h e s with
  | (Ok h', (s', es)) => mirror p (setHead h' (foldl (heard p s') v es)) s'
  | (Throw _, (s', es)) => mirror p (foldl (heard p s') v es) s'
  end.
Proof.
  intros Hm. pose proof (reconcile_shape w h e s) as H. destruct (reconcileCheckpointHead w h e s) as [[h'|] [s' es]]; cbn [fst snd] in H.
  - destruct H as (b & -> & He). set (F := put_outbox b (put_head (Some h') s)).
    assert (∀ v, setHead h' v = readHead F v) as Hr by done. rewrite Hr, heard_read by done. rewrite <- Hr. by apply headed_mirror.
  - by injection H as -> ->.
Qed.

(** ** The hook *)

Section hook.
Context (workspace : string).
Context (asHead : jsval → CollaborativeHead) (asCommand : jsval → RoomProjectCommand).
Context (JSON_parse : string → res jsval) (numberText : jsnum → string).

Notation step := (hookStep workspace asHead asCommand JSON_parse numberText).
Notation doSession := (sessionDo workspace asHead asCommand JSON_parse numberText).
Notation runs := (runSession workspace asHead asCommand JSON_parse numberText).
Notation okay q := (session_ok (sessionOptions workspace q)).

Definition currentSession (h : RoomHook) : option (string * Session) := hk_session h ≫= λ i, hk_sessions h !! i.

Record hook_ok (h : RoomHook) : Prop := {
  ho_sessions : ∀ j q s, hk_sessions h !! j = Some (q, s) → okay q s;
  ho_left : ∀ j q s, hk_sessions h !! j = Some (q, s) → hk_session h ≠ Some j → s_intentionallyClosed s = true;
  ho_current : ∀ i, hk_session h = Some i → ∃ p s, hk_sessions h !! i = Some (p, s) ∧ hk_projectId h = Some p ∧ p ≠ "" ∧ mirror p (hk_view h) s;
  ho_none : hk_session h = None → hk_projectId h = None ∨ hk_projectId h = Some "";
  ho_view : vw_projectId (hk_view h) ≠ Some ""
}.

Lemma hook_start : hook_ok initialHook.
Proof. split; cbn; try done. by left. Qed.

(** A session that was left does nothing and says nothing. *)
Lemma left_quiet w op q s :
  okay q s → s_intentionallyClosed s = true → match op with SoTimer | SoSocketMessage _ _ _ | SoSocketClose _ _ _ _ | SoSocketError _ _ => True | _ => False end →
  runs q w op s = (s, []).
Proof.
  intros Hok Hc Hop. destruct (so_closed _ _ Hok Hc) as [Hs Ht]. unfold runSession.
  assert (∀ g k a, ifCurrent g k a s = (s, [])) as Hcur.
  { intros g k a. unfold ifCurrent, reading. rewrite bool_decide_false; [done|]. rewrite Hs. by intros []. }
  destruct op; try done; cbn [run_session]; try apply Hcur. unfold timerFired, reading. by rewrite Ht.
Qed.

Lemma session_step q w op s : okay q s → okay q (runs q w op s).1.
Proof. intros Hok. by apply run_good. Qed.

(** The current session moves, and the view with it. *)
Lemma current_ok h i p s v s' :
  hook_ok h → hk_session h = Some i → hk_sessions h !! i = Some (p, s) → okay p s' → mirror p v s' →
  hook_ok {| hk_projectId := hk_projectId h; hk_view := v; hk_sessions := <[i := (p, s')]> (hk_sessions h); hk_session := hk_session h |}.
Proof.
  intros [Hs Hl Hc Hn Hv] Hi Hlk Hok Hm. destruct (Hc i Hi) as (p' & s0 & E & Hp & Hne & _). rewrite Hlk in E. injection E as <- <-.
  assert (i < length (hk_sessions h)) as Hlt by (eapply lookup_lt_Some; exact Hlk). split; cbn.
  - intros j q x. rewrite list_lookup_insert. destruct (decide _) as [[<- _]|Hd]; [by intros [= <- <-]|apply Hs].
  - intros j q x. rewrite list_lookup_insert. destruct (decide _) as [[<- _]|Hd]; [|apply Hl]. intros _. by rewrite Hi.
  - intros j Hj. rewrite Hi in Hj. injection Hj as <-. exists p, s'. by rewrite list_lookup_insert_eq.
  - by rewrite Hi.
  - rewrite (mi_project _ _ _ Hm). congruence.
Qed.

Lemma view_ok h i p s v : hook_ok h → hk_session h = Some i → hk_sessions h !! i = Some (p, s) → mirror p v s → hook_ok (withView (λ _, v) h).
Proof.
  intros Hok Hi Hlk Hm. pose proof (current_ok h i p s v s Hok Hi Hlk (ho_sessions _ Hok _ _ _ Hlk) Hm) as H.
  by rewrite list_insert_id in H.
Qed.

Lemma ordinary_ok w i op h : ordinary op → hk_session h = Some i → hook_ok h → hook_ok (doSession w i op h).
Proof.
  intros Hop Hi Hok. destruct (ho_current _ Hok i Hi) as (p & s & Hlk & _ & _ & Hm). unfold sessionDo. rewrite Hlk.
  pose proof (session_step p w op s (ho_sessions _ Hok _ _ _ Hlk)) as Hok'.
  pose proof (ordinary_told p (sessionOptions workspace p) asHead asCommand JSON_parse numberText w op _ s Hop (ho_sessions _ Hok _ _ _ Hlk) Hm) as Ht.
  unfold told, sync, mirrors in Ht. cbn [fst snd] in Ht. unfold runSession in *. destruct (run_session _ _ _ _ _ w op s) as [s' es]. cbn [fst snd] in *.
  by apply (current_ok h i p s).
Qed.

(** A socket's or a timer's call, of whichever session. *)
Lemma callback_ok w j op h :
  match op with SoTimer | SoSocketMessage _ _ _ | SoSocketClose _ _ _ _ | SoSocketError _ _ => True | _ => False end → hook_ok h → hook_ok (doSession w j op h).
Proof.
  intros Hop Hok. destruct (decide (hk_session h = Some j)) as [Hj|Hj]; [apply ordinary_ok; [by destruct op|done..]|].
  unfold sessionDo. destruct (hk_sessions h !! j) as [[q s]|] eqn:Hlk; [|done].
  rewrite (left_quiet w op q s); [|by apply (ho_sessions _ Hok j)|by apply (ho_left _ Hok j q s)|done]. cbn [foldl]. rewrite list_insert_id by done. by destruct h.
Qed.

Lemma onSession_ok w op h : ordinary op → hook_ok h → hook_ok (onSession workspace asHead asCommand JSON_parse numberText w op h).
Proof. intros Hop Hok. unfold onSession. destruct (hk_session h) as [i|] eqn:Hi; [|done]. by apply ordinary_ok. Qed.

Lemma heard_project p F v es : vw_projectId (foldl (heard p F) v es) = vw_projectId v ∨ vw_projectId (foldl (heard p F) v es) = Some p.
Proof.
  revert v. induction es as [|e es IH]; intros v; [by left|]. cbn [foldl].
  assert (vw_projectId (heard p F v e) = vw_projectId v ∨ vw_projectId (heard p F v e) = Some p) as He.
  { unfold heard, readHead. destruct e as [[]| | | | | | | | |[]| | |[]| | | | | |]; cbn; try (by left); try (by right); destruct (s_head F); by left. }
  destruct (IH (heard p F v e)) as [->|H]; [done|by right].
Qed.

(** Between two Projects: no session is current, and all are over. *)
Record between (h : RoomHook) : Prop := {
  bt_none : hk_session h = None;
  bt_sessions : ∀ j q s, hk_sessions h !! j = Some (q, s) → okay q s ∧ s_intentionallyClosed s = true;
  bt_view : vw_projectId (hk_view h) ≠ Some ""
}.

Lemma disconnect_closes w s : s_intentionallyClosed (disconnect w s).1 = true.
Proof.
  unfold disconnect. rewrite !then_state. autorewrite with act. do 2 rewrite silent_outbox_state by reflexivity. reflexivity.
Qed.

Lemma leave_between w h : hook_ok h → between (leaveProject workspace asHead asCommand JSON_parse numberText w h).
Proof.
  intros Hok. unfold leaveProject, onSession. destruct (hk_session h) as [i|] eqn:Hi; cycle 1.
  { split; cbn; [done| |apply Hok]. intros j q s Hj. split; [by eapply ho_sessions|]. eapply ho_left; [done..|]. by rewrite Hi. }
  destruct (ho_current _ Hok i Hi) as (p & s & Hlk & _ & Hne & Hm). unfold sessionDo. rewrite Hlk.
  pose proof (session_step p w SoDisconnect s (ho_sessions _ Hok _ _ _ Hlk)) as Hs. pose proof (disconnect_closes w s) as Hc.
  unfold runSession in *. cbn [run_session] in *. destruct (disconnect w s) as [s' es]. cbn [fst snd] in *.
  split; cbn; [done| |].
  - intros j q x. rewrite list_lookup_insert. destruct (decide _) as [[<- _]|Hd]; [by intros [= <- <-]|]. intros Hj.
    split; [by eapply ho_sessions|]. eapply ho_left; [done..|]. rewrite Hi. intros [= ->]. apply Hd. split; [done|]. by eapply lookup_lt_Some.
  - destruct (heard_project p s' (hk_view h) es) as [ E | E ]; rewrite E; [apply Hok|congruence].
Qed.

Lemma enter_ok w p h : between h → hook_ok (enterProject workspace asHead asCommand JSON_parse numberText w p h).
Proof.
  intros [Hn Hs Hv]. unfold enterProject. destruct (truthy p) as [q|] eqn:Hp; cycle 1.
  { split; cbn; try done; [intros; by eapply Hs|intros; by eapply Hs|]. intros _. destruct p as [t|]; [right|by left].
    cbn in Hp. by case_bool_decide; subst. }
  assert (p = Some q ∧ q ≠ "") as [-> Hq].
  { destruct p as [t|]; [|done]. cbn in Hp. case_bool_decide; [done|]. by injection Hp as ->. }
  unfold sessionDo. cbn [hk_sessions]. rewrite list_lookup_middle by done.
  pose proof (session_step q w SoConnect newSession (newSession_ok _)) as Hok'.
  pose proof (connect_told q (sessionOptions workspace q) numberText w (hk_view h)) as Ht. unfold told, sync, mirrors in Ht. cbn [fst snd] in Ht.
  unfold runSession in *. cbn [run_session] in *. destruct (connect _ _ w newSession) as [s' es]. cbn [fst snd hk_view hk_projectId hk_sessions hk_session] in *.
  rewrite insert_app_r_alt, Nat.sub_diag by done. cbn [insert list_insert].
  assert (∀ j x, (hk_sessions h ++ [(q, s')]) !! j = Some x → hk_sessions h !! j = Some x ∨ j = length (hk_sessions h) ∧ x = (q, s')) as Hin.
  { intros j x Hj. apply lookup_app_Some in Hj as [Hj|[Hle Hj]]; [by left|right].
    apply list_lookup_singleton_Some in Hj as [Hj ->]. split; [lia|done]. }
  split; cbn.
  - intros j q' s Hj. destruct (Hin _ _ Hj) as [H|[_ E]]; [by eapply Hs|]. by injection E as -> ->.
  - intros j q' s Hj Hne. destruct (Hin _ _ Hj) as [H|[-> _]]; [by eapply Hs|done].
  - intros i [= <-]. exists q, s'. by rewrite list_lookup_middle.
  - done.
  - rewrite (mi_project _ _ _ Ht). congruence.
Qed.

Lemma replaceHead_ok_hook w head h :
  hook_ok h → hook_ok (readCurrentHead (onSession workspace asHead asCommand JSON_parse numberText w (SoReplaceHead head) h)).
Proof.
  intros Hok. unfold onSession. destruct (hk_session h) as [i|] eqn:Hi; cycle 1.
  { unfold readCurrentHead. by rewrite Hi. }
  destruct (ho_current _ Hok i Hi) as (p & s & Hlk & _ & _ & Hm). unfold sessionDo. rewrite Hlk. unfold runSession. cbn [run_session].
  pose proof (session_step p w (SoReplaceHead head) s (ho_sessions _ Hok _ _ _ Hlk)) as Hs. unfold runSession in Hs. cbn [run_session] in Hs.
  pose proof (replace_mirror p w head _ s Hm) as Hr. cbv zeta in Hr. destruct (replaceHead w head s) as [s' es]. cbn [fst snd] in *.
  unfold readCurrentHead. cbn [hk_session hk_sessions]. rewrite Hi. cbn [mbind option_bind].
  rewrite list_lookup_insert_eq by (by eapply lookup_lt_Some). unfold withView. cbn [hk_session hk_sessions hk_view hk_projectId].
  rewrite <- Hi. by apply (current_ok h i p s).
Qed.

Lemma reconcileHead_ok w head e h : hook_ok h → hook_ok (reconcileHead workspace asHead asCommand JSON_parse numberText w head e h).
Proof.
  intros Hok. unfold reconcileHead, onSession. destruct (hk_session h) as [i|] eqn:Hi; [|done]. cbn [mbind option_bind].
  destruct (ho_current _ Hok i Hi) as (p & s & Hlk & _ & _ & Hm). rewrite Hlk. unfold sessionDo. rewrite Hlk. unfold runSession. cbn [run_session].
  pose proof (session_step p w (SoReconcile head e) s (ho_sessions _ Hok _ _ _ Hlk)) as Hs. unfold runSession in Hs. cbn [run_session] in Hs.
  pose proof (reconcile_mirror p w head e _ s Hm) as Hr. destruct (reconcileCheckpointHead w head e s) as [[h'|] [s' es]]; cbn [fst snd] in *;
    unfold withView; cbn [hk_session hk_sessions hk_view hk_projectId]; by apply (current_ok h i p s).
Qed.

Lemma hookStep_ok w op h : hook_ok h → hook_ok (step w op h).
Proof.
  intros Hok. destruct op; cbn [hookStep]; try by apply callback_ok; try by apply onSession_ok.
  - case_bool_decide; [done|]. by apply enter_ok, leave_between.
  - by apply onSession_ok.
  - by apply replaceHead_ok_hook.
  - by apply reconcileHead_ok.
  - by apply onSession_ok.
  - by apply onSession_ok.
Qed.

(** Any sequence of renders, callbacks, socket events and timers, each in its world. *)
Definition hookRun (ops : list (World * HookOp)) : RoomHook := foldl (λ h wo, step wo.1 wo.2 h) initialHook ops.

Lemma hookRun_ok ops : hook_ok (hookRun ops).
Proof.
  unfold hookRun. generalize hook_start. generalize initialHook. induction ops as [|o ops IH]; intros h Hh; [done|]. cbn [foldl]. by apply IH, hookStep_ok.
Qed.

(** What a tab should show of a session. *)
Record presents (s : Session) (r : RoomResult) : Prop := {
  pr_status : rr_status r = s_status s;
  pr_terminalReason : rr_terminalReason r = s_terminalReason s;
  pr_failure : rr_failure r = None ∨ rr_failure r = s_lastFailure s;
  pr_head : rr_head r = s_head s;
  pr_capabilities : rr_capabilities r = s_capabilities s;
  pr_authorizationVersion : rr_authorizationVersion r = s_authorizationVersion s;
  pr_localSessionId : rr_localSessionId r = getProjectRoomSessionId s;
  pr_participants : rr_participants r = getParticipants s;
  pr_canSubmitCommands : rr_canSubmitCommands r = canSubmitCommands s;
  pr_canPublishPresence : rr_canPublishPresence r = canPublishPresence s;
  pr_runs : s_status s = st_ready → rr_activeRuns r = getActiveRuns s ∧ rr_instances r = s_instances s
}.

Lemma mirror_presents p h s : hk_projectId h = Some p → mirror p (hk_view h) s → presents s (roomResult h).
Proof.
  intros Hp Hm. unfold roomResult. rewrite Hp, (mi_project _ _ _ Hm). rewrite !bool_decide_true by eauto. cbn [andb].
  destruct Hm. split; cbn; try done; unfold canSubmitCommands, canPublishPresence; rewrite ?mi_status0, ?mi_capabilities0, ?mi_terminal0, ?mi_head0; [|done].
  destruct (bool_decide (s_status s = st_ready)), (bool_decide ("edit_project" ∈ s_capabilities s)), (bool_decide (s_terminalReason s = None)), (bool_decide (is_Some (s_head s))); done.
Qed.

(** C39: the room a tab shows is the room of the session of its Project.  After any sequence of
    Project changes, callbacks, socket events and timers, those of sessions that were left
    included: with a Project open the hook returns the status, the reason it ended, the head, the
    rights, the id and the participants of that Project's session, and, while the session is
    ready, its Runs and instances; and it lets the tab submit and publish exactly when the
    session does.  With none it returns what a session that never connected would show, without
    Runs or instances.  Nothing is claimed of the Runs and instances of a session that is not
    ready: when the connection is lost the hook drops them and the session keeps its own. *)
Theorem room_view_mirrors_the_session ops :
  match currentSession (hookRun ops) with
  | Some (p, s) => hk_projectId (hookRun ops) = Some p ∧ presents s (roomResult (hookRun ops))
  | None => truthy (hk_projectId (hookRun ops)) = None ∧ presents newSession (roomResult (hookRun ops)) ∧
      rr_activeRuns (roomResult (hookRun ops)) = [] ∧ rr_instances (roomResult (hookRun ops)) = []
  end.
Proof.
  pose proof (hookRun_ok ops) as [_ _ Hc Hn Hv]. unfold currentSession. destruct (hk_session (hookRun ops)) as [i|]; cbn [mbind option_bind].
  - destruct (Hc i eq_refl) as (p & s & -> & Hp & _ & Hm). split; [done|]. by eapply mirror_presents.
  - split; [by destruct (Hn eq_refl) as [E|E]; rewrite E|].
    assert (bool_decide (is_Some (hk_projectId (hookRun ops))) && bool_decide (vw_projectId (hk_view (hookRun ops)) = hk_projectId (hookRun ops)) = false) as Hno.
    { destruct (Hn eq_refl) as [E|E]; rewrite E; [done|]. rewrite (bool_decide_false (vw_projectId _ = _)) by done. apply andb_false_r. }
    unfold roomResult. rewrite Hno. split; [|done]. split; try done. by left.
Qed.
End hook.

(** ** A concrete room

    A tab opens a Project and becomes ready; it leaves the Project for another; the socket of
    the first session closes late. *)

Definition sample_hook (ops : list (World * HookOp)) : RoomHook :=
  hookRun "w" (λ _, sample_head) (λ _, P_remove_graph "x") (λ _, Throw "bad") (λ _, "n") ops.

Definition sample_opening : list (World * HookOp) :=
  [(sample_world, HkProject (Some "project-1")); (sample_world, HkMessage 0 1 7 (DataOther (enc_message (m_ready sample_ready))))].

Example sample_room_is_ready :
  rr_status (roomResult (sample_hook sample_opening)) = st_ready ∧ rr_head (roomResult (sample_hook sample_opening)) = Some sample_head ∧
  rr_localSessionId (roomResult (sample_hook sample_opening)) = Some (rm_project_room_session_id sample_ready).
Proof. vm_compute. auto. Qed.

Example late_close_of_a_left_room :
  let h := sample_hook (sample_opening ++ [(sample_world, HkProject (Some "project-2")); (sample_world, HkClose 0 1 7 4004 "")]) in
  rr_status (roomResult h) = st_connecting ∧ rr_terminalReason (roomResult h) = None ∧ length (hk_sessions h) = 2.
Proof. vm_compute. auto. Qed.

