(* ===== verification/RoomSync.v ===== *)
(** * The canvas and its room

    What ties the authored document of a tab to the room of its Project:
    [applyAuthoringCommands] of [ui/workbench-authoring-commands.ts], the guard of
    [ui/authoring-command-guard.ts], [room/graph-readiness.ts], and of [ui/Workbench.tsx] the
    listeners of the room, the refresh of the head, the submission of commands and of card
    layouts, the replacement of the document and what a render hands to them.

    An action changes the tab and leaves the calls it makes, in order: requests, batches for
    the room, and the calls of the lifecycle hook, which Lifecycle models.  React runs a
    reducer's actions in order, so the state is the one they leave; refs and closures hold what
    the last render gave them. *)

From S2P Require Import Prelude Js JsNum GraphModel GraphCommands RoomBridge AuthoringState Handles Canvas NodeLayout Viewers Feeds.
From S2P Require Import Protocol CommandOutbox RoomSession RoomView.
#[local] Open Scope nat_scope.

(** ** State *)

(** An edge that waits until the handles of a newly bound node are measured. *)
Record PendingBoundEdge := {
  pe_nodeId : string;
  pe_variable : string;
  pe_artifactType : ArtifactTypeIdentity;
  pe_edge : WorkflowEdge
}.

Record Tab := {
  tb_authoring : WorkbenchAuthoringState;
  (** [authoredDocumentRef] *)
  tb_documentRef : AuthoredGraphDocument;
  (** [authoredDocument] of the last render *)
  tb_rendered : AuthoredGraphDocument;
  tb_positionOverrides : gmap string GraphPoint;
  tb_selectedNodeIds : list string;
  tb_selectedEdgeIds : list string;
  tb_cards : ArtifactViewerCanvasState;
  (** the question a connection waits on *)
  tb_pendingRoute : option PendingConnectionRoute;
  tb_runError : option string;
  tb_enabledRef : bool;
  tb_blockedMessageRef : string;
  tb_unsyncedRoomEdits : bool;
  tb_projectId : option string;
  tb_openGraphIdRef : option string;
  tb_projectRoomHeadRef : option CollaborativeHead;
  (** [canSubmitRoomCommands] of the last render *)
  tb_canSubmit : bool;
  (** the timer of [headRefreshRetryRef], with the message it passes on *)
  tb_headRefreshRetry : option string;
  (** [pendingBoundEdgesRef] *)
  tb_pendingBoundEdges : list PendingBoundEdge
}.

Inductive TabCall :=
| SubmitBatch (commands : list RoomProjectCommand) (fallback : string)
| FetchHead (errorMessage : option string)
| RoomReplaceHead (head : CollaborativeHead)
| SyncFromHead (head : CollaborativeHead)
| PurgeLocalGraphState
| LeaveToWorkspace
| Uncaught (message : string).

Definition document (t : Tab) : AuthoredGraphDocument := st_document (tb_authoring t).

Definition set_authoring (a : WorkbenchAuthoringState) (t : Tab) : Tab :=
  {| tb_authoring := a; tb_documentRef := tb_documentRef t; tb_rendered := tb_rendered t; tb_positionOverrides := tb_positionOverrides t;
     tb_selectedNodeIds := tb_selectedNodeIds t; tb_selectedEdgeIds := tb_selectedEdgeIds t; tb_cards := tb_cards t; tb_pendingRoute := tb_pendingRoute t;
     tb_runError := tb_runError t; tb_enabledRef := tb_enabledRef t; tb_blockedMessageRef := tb_blockedMessageRef t;
     tb_unsyncedRoomEdits := tb_unsyncedRoomEdits t; tb_projectId := tb_projectId t; tb_openGraphIdRef := tb_openGraphIdRef t;
     tb_projectRoomHeadRef := tb_projectRoomHeadRef t; tb_canSubmit := tb_canSubmit t; tb_headRefreshRetry := tb_headRefreshRetry t; tb_pendingBoundEdges := tb_pendingBoundEdges t |}.

Definition set_documentRef (d : AuthoredGraphDocument) (t : Tab) : Tab :=
  {| tb_authoring := tb_authoring t; tb_documentRef := d; tb_rendered := tb_rendered t; tb_positionOverrides := tb_positionOverrides t;
     tb_selectedNodeIds := tb_selectedNodeIds t; tb_selectedEdgeIds := tb_selectedEdgeIds t; tb_cards := tb_cards t; tb_pendingRoute := tb_pendingRoute t;
     tb_runError := tb_runError t; tb_enabledRef := tb_enabledRef t; tb_blockedMessageRef := tb_blockedMessageRef t;
     tb_unsyncedRoomEdits := tb_unsyncedRoomEdits t; tb_projectId := tb_projectId t; tb_openGraphIdRef := tb_openGraphIdRef t;
     tb_projectRoomHeadRef := tb_projectRoomHeadRef t; tb_canSubmit := tb_canSubmit t; tb_headRefreshRetry := tb_headRefreshRetry t; tb_pendingBoundEdges := tb_pendingBoundEdges t |}.

Definition setPositionOverrides (m : gmap string GraphPoint) (t : Tab) : Tab :=
  {| tb_authoring := tb_authoring t; tb_documentRef := tb_documentRef t; tb_rendered := tb_rendered t; tb_positionOverrides := m;
     tb_selectedNodeIds := tb_selectedNodeIds t; tb_selectedEdgeIds := tb_selectedEdgeIds t; tb_cards := tb_cards t; tb_pendingRoute := tb_pendingRoute t;
     tb_runError := tb_runError t; tb_enabledRef := tb_enabledRef t; tb_blockedMessageRef := tb_blockedMessageRef t;
     tb_unsyncedRoomEdits := tb_unsyncedRoomEdits t; tb_projectId := tb_projectId t; tb_openGraphIdRef := tb_openGraphIdRef t;
     tb_projectRoomHeadRef := tb_projectRoomHeadRef t; tb_canSubmit := tb_canSubmit t; tb_headRefreshRetry := tb_headRefreshRetry t; tb_pendingBoundEdges := tb_pendingBoundEdges t |}.

Definition setSelected (ns es : list string) (t : Tab) : Tab :=
  {| tb_authoring := tb_authoring t; tb_documentRef := tb_documentRef t; tb_rendered := tb_rendered t; tb_positionOverrides := tb_positionOverrides t;
     tb_selectedNodeIds := ns; tb_selectedEdgeIds := es; tb_cards := tb_cards t; tb_pendingRoute := tb_pendingRoute t;
     tb_runError := tb_runError t; tb_enabledRef := tb_enabledRef t; tb_blockedMessageRef := tb_blockedMessageRef t;
     tb_unsyncedRoomEdits := tb_unsyncedRoomEdits t; tb_projectId := tb_projectId t; tb_openGraphIdRef := tb_openGraphIdRef t;
     tb_projectRoomHeadRef := tb_projectRoomHeadRef t; tb_canSubmit := tb_canSubmit t; tb_headRefreshRetry := tb_headRefreshRetry t; tb_pendingBoundEdges := tb_pendingBoundEdges t |}.

Definition setArtifactViewers (f : ArtifactViewerCanvasState → ArtifactViewerCanvasState) (t : Tab) : Tab :=
  {| tb_authoring := tb_authoring t; tb_documentRef := tb_documentRef t; tb_rendered := tb_rendered t; tb_positionOverrides := tb_positionOverrides t;
     tb_selectedNodeIds := tb_selectedNodeIds t; tb_selectedEdgeIds := tb_selectedEdgeIds t; tb_cards := f (tb_cards t); tb_pendingRoute := tb_pendingRoute t;
     tb_runError := tb_runError t; tb_enabledRef := tb_enabledRef t; tb_blockedMessageRef := tb_blockedMessageRef t;
     tb_unsyncedRoomEdits := tb_unsyncedRoomEdits t; tb_projectId := tb_projectId t; tb_openGraphIdRef := tb_openGraphIdRef t;
     tb_projectRoomHeadRef := tb_projectRoomHeadRef t; tb_canSubmit := tb_canSubmit t; tb_headRefreshRetry := tb_headRefreshRetry t; tb_pendingBoundEdges := tb_pendingBoundEdges t |}.

Definition setPendingRoute (r : option PendingConnectionRoute) (t : Tab) : Tab :=
  {| tb_authoring := tb_authoring t; tb_documentRef := tb_documentRef t; tb_rendered := tb_rendered t; tb_positionOverrides := tb_positionOverrides t;
     tb_selectedNodeIds := tb_selectedNodeIds t; tb_selectedEdgeIds := tb_selectedEdgeIds t; tb_cards := tb_cards t; tb_pendingRoute := r;
     tb_runError := tb_runError t; tb_enabledRef := tb_enabledRef t; tb_blockedMessageRef := tb_blockedMessageRef t;
     tb_unsyncedRoomEdits := tb_unsyncedRoomEdits t; tb_projectId := tb_projectId t; tb_openGraphIdRef := tb_openGraphIdRef t;
     tb_projectRoomHeadRef := tb_projectRoomHeadRef t; tb_canSubmit := tb_canSubmit t; tb_headRefreshRetry := tb_headRefreshRetry t; tb_pendingBoundEdges := tb_pendingBoundEdges t |}.

Definition setRunError (e : option string) (t : Tab) : Tab :=
  {| tb_authoring := tb_authoring t; tb_documentRef := tb_documentRef t; tb_rendered := tb_rendered t; tb_positionOverrides := tb_positionOverrides t;
     tb_selectedNodeIds := tb_selectedNodeIds t; tb_selectedEdgeIds := tb_selectedEdgeIds t; tb_cards := tb_cards t; tb_pendingRoute := tb_pendingRoute t;
     tb_runError := e; tb_enabledRef := tb_enabledRef t; tb_blockedMessageRef := tb_blockedMessageRef t;
     tb_unsyncedRoomEdits := tb_unsyncedRoomEdits t; tb_projectId := tb_projectId t; tb_openGraphIdRef := tb_openGraphIdRef t;
     tb_projectRoomHeadRef := tb_projectRoomHeadRef t; tb_canSubmit := tb_canSubmit t; tb_headRefreshRetry := tb_headRefreshRetry t; tb_pendingBoundEdges := tb_pendingBoundEdges t |}.

Definition setUnsyncedRoomEdits (b : bool) (t : Tab) : Tab :=
  {| tb_authoring := tb_authoring t; tb_documentRef := tb_documentRef t; tb_rendered := tb_rendered t; tb_positionOverrides := tb_positionOverrides t;
     tb_selectedNodeIds := tb_selectedNodeIds t; tb_selectedEdgeIds := tb_selectedEdgeIds t; tb_cards := tb_cards t; tb_pendingRoute := tb_pendingRoute t;
     tb_runError := tb_runError t; tb_enabledRef := tb_enabledRef t; tb_blockedMessageRef := tb_blockedMessageRef t;
     tb_unsyncedRoomEdits := b; tb_projectId := tb_projectId t; tb_openGraphIdRef := tb_openGraphIdRef t;
     tb_projectRoomHeadRef := tb_projectRoomHeadRef t; tb_canSubmit := tb_canSubmit t; tb_headRefreshRetry := tb_headRefreshRetry t; tb_pendingBoundEdges := tb_pendingBoundEdges t |}.

Definition setHeadRefreshRetry (r : option string) (t : Tab) : Tab :=
  {| tb_authoring := tb_authoring t; tb_documentRef := tb_documentRef t; tb_rendered := tb_rendered t; tb_positionOverrides := tb_positionOverrides t;
     tb_selectedNodeIds := tb_selectedNodeIds t; tb_selectedEdgeIds := tb_selectedEdgeIds t; tb_cards := tb_cards t; tb_pendingRoute := tb_pendingRoute t;
     tb_runError := tb_runError t; tb_enabledRef := tb_enabledRef t; tb_blockedMessageRef := tb_blockedMessageRef t;
     tb_unsyncedRoomEdits := tb_unsyncedRoomEdits t; tb_projectId := tb_projectId t; tb_openGraphIdRef := tb_openGraphIdRef t;
     tb_projectRoomHeadRef := tb_projectRoomHeadRef t; tb_canSubmit := tb_canSubmit t; tb_headRefreshRetry := r; tb_pendingBoundEdges := tb_pendingBoundEdges t |}.

Definition setPendingBoundEdges (l : list PendingBoundEdge) (t : Tab) : Tab :=
  {| tb_authoring := tb_authoring t; tb_documentRef := tb_documentRef t; tb_rendered := tb_rendered t; tb_positionOverrides := tb_positionOverrides t;
     tb_selectedNodeIds := tb_selectedNodeIds t; tb_selectedEdgeIds := tb_selectedEdgeIds t; tb_cards := tb_cards t; tb_pendingRoute := tb_pendingRoute t;
     tb_runError := tb_runError t; tb_enabledRef := tb_enabledRef t; tb_blockedMessageRef := tb_blockedMessageRef t;
     tb_unsyncedRoomEdits := tb_unsyncedRoomEdits t; tb_projectId := tb_projectId t; tb_openGraphIdRef := tb_openGraphIdRef t;
     tb_projectRoomHeadRef := tb_projectRoomHeadRef t; tb_canSubmit := tb_canSubmit t; tb_headRefreshRetry := tb_headRefreshRetry t;
     tb_pendingBoundEdges := l |}.

(** ** Actions *)

Definition TabM : Type := Tab → Tab * list TabCall.

Definition doNothing : TabM := λ t, (t, []).
Definition change (f : Tab → Tab) : TabM := λ t, (f t, []).
Definition call (c : TabCall) : TabM := λ t, (t, [c]).
Definition andAlso (a b : TabM) : TabM := λ t, let '(t1, c1) := a t in let '(t2, c2) := b t1 in (t2, c1 ++ c2).
Definition looking (k : Tab → TabM) : TabM := λ t, k t t.

Declare Scope tab_scope.
Notation "a ;>> b" := (andAlso a b) (at level 62, right associativity) : tab_scope.
#[local] Open Scope tab_scope.

(** ** What may be edited *)

Inductive GraphReadinessState := rd_current | rd_stale | rd_unavailable.

Definition graphReadiness (status : ProjectRoomStatus) (hasConfirmedHead : bool) : GraphReadinessState * bool :=
  if bool_decide (status = st_ready) && hasConfirmedHead then (rd_current, true)
  else if hasConfirmedHead then (rd_stale, false)
  else (rd_unavailable, false).

(** What a render knows besides the room. *)
Record EditRights := {
  er_projectId : option string;
  er_hasActiveGraph : bool;
  er_operationBusy : bool;
  er_canEditProject : bool;
  er_canCreateProject : bool
}.

Definition projectEditsTrusted (rights : EditRights) (room : RoomResult) : bool :=
  negb (er_hasActiveGraph rights) || snd (graphReadiness (rr_status room) (bool_decide (is_Some (rr_head room)))).

Definition openGraphId (room : RoomResult) : option string := rr_head room ≫= defaultGraphId.

Definition mayEdit (rights : EditRights) : bool :=
  match er_projectId rights with
  | Some p => if bool_decide (p = "") then er_canCreateProject rights else er_canEditProject rights
  | None => er_canCreateProject rights
  end.

Definition localAuthoringEnabled (rights : EditRights) (room : RoomResult) : bool :=
  negb (er_operationBusy rights) &&
  match er_projectId rights with
  | Some p => if bool_decide (p = "") then er_canCreateProject rights
              else er_canEditProject rights && projectEditsTrusted rights room && rr_canSubmitCommands room
  | None => er_canCreateProject rights
  end.

Definition localAuthoringBlockedMessage (rights : EditRights) : string :=
  if negb (mayEdit rights) then "You do not have permission to edit this Project."
  else if er_operationBusy rights then "Editing is paused while another Project operation is in progress."
  else "Editing is paused until the Project room is ready.".

(** The layout effects of a render. *)
Definition renderTab (rights : EditRights) (room : RoomResult) (t : Tab) : Tab :=
  {| tb_authoring := tb_authoring t; tb_documentRef := document t; tb_rendered := document t; tb_positionOverrides := tb_positionOverrides t;
     tb_selectedNodeIds := tb_selectedNodeIds t; tb_selectedEdgeIds := tb_selectedEdgeIds t; tb_cards := tb_cards t; tb_pendingRoute := tb_pendingRoute t;
     tb_runError := tb_runError t; tb_enabledRef := localAuthoringEnabled rights room; tb_blockedMessageRef := localAuthoringBlockedMessage rights;
     tb_unsyncedRoomEdits := tb_unsyncedRoomEdits t; tb_projectId := er_projectId rights; tb_openGraphIdRef := openGraphId room;
     tb_projectRoomHeadRef := rr_head room; tb_canSubmit := rr_canSubmitCommands room; tb_headRefreshRetry := tb_headRefreshRetry t; tb_pendingBoundEdges := tb_pendingBoundEdges t |}.

(** ** To the room *)

Definition submitRoomCommands (commands : list RoomProjectCommand) (fallback : string) : TabM :=
  looking (λ t, if tb_canSubmit t then call (SubmitBatch commands fallback) else change (setUnsyncedRoomEdits true)).

Definition reportCommandFailure (errorCode : option string) (message : string) (t : Tab) : Tab :=
  if bool_decide (errorCode = Some "superseded" ∨ errorCode = Some "head_conflict") then t else setRunError (Some message) t.

(** [commands.map(toRoomGraphCommand(command, before, graphId))] without the [null]s. *)
Definition roomBatch (graphId : string) (commands : list GraphCommand) (before : AuthoredGraphDocument) : res (list RoomProjectCommand) :=
  batch ← res_map (λ command, toRoomGraphCommand command before graphId) commands;
  Ok (omap (λ c : option RoomProjectCommand, c) (batch : list (option RoomProjectCommand))).

Definition submitLocal (commands : list GraphCommand) (before : AuthoredGraphDocument) : TabM :=
  looking (λ t,
    match tb_openGraphIdRef t with
    | None => change (setUnsyncedRoomEdits true)
    | Some graphId =>
        match roomBatch graphId commands before with
        | Throw message => call (Uncaught message)
        | Ok [] => doNothing
        | Ok batch => submitRoomCommands batch "Collaborative sync failed."
        end
    end).

Definition inOpenGraph (command : RoomGraphBodyCommand) (t : Tab) : option RoomProjectCommand :=
  option_map (λ graphId, P_in_graph graphId command) (tb_openGraphIdRef t).

Definition submitPresentationCommand (command : RoomGraphBodyCommand) : TabM :=
  looking (λ t, match inOpenGraph command t with
                | None => change (setUnsyncedRoomEdits true)
                | Some c => submitRoomCommands [c] "Presentation sync failed."
                end).

Definition submitReplace (state : ArtifactViewerCanvasState) : TabM :=
  submitPresentationCommand (R_replace_presentation (presentationFromArtifactViewers state)).

Definition submitMove (positions : list ViewerPosition) : TabM :=
  match positions with [] => doNothing | _ => submitPresentationCommand (R_move_artifact_viewers positions) end.

Definition submitMoveAnnotations (positions : list AnnotationPosition) : TabM :=
  match positions with [] => doNothing | _ => submitPresentationCommand (R_move_annotations positions) end.

(** The batch of a save: the name when it changed, and the document. *)
Definition saveBatch (draft : GraphDraft) (graphId savedName : string) : list RoomProjectCommand :=
  (if bool_decide (draft_name draft ≠ savedName) then [toRoomRenameGraphCommand graphId (draft_name draft) savedName] else []) ++
  [toRoomReplaceDocumentCommand draft graphId].

(** ** Authoring *)

Definition shouldBlockAuthoringCommand (localAuthoringEnabled syncRoom : bool) : bool := if syncRoom then negb localAuthoringEnabled else false.

(** [remove_nodes] takes the card links of the removed nodes along. *)
Definition pruneCards (commands : list GraphCommand) (cards : ArtifactViewerCanvasState) : ArtifactViewerCanvasState :=
  foldl (λ current command, match command with remove_nodes node_ids => withoutViewerEdgesFromNodes current node_ids | _ => current end) cards commands.

Definition dispatchCommands (commands : list GraphCommand) (t : Tab) : Tab :=
  set_authoring (reduceWorkbenchAuthoringState (tb_authoring t) (apply_commands commands)) t.

Definition applyAuthoringCommands (commands : list GraphCommand) (syncRoom : bool) : TabM :=
  match commands with
  | [] => doNothing
  | _ =>
      looking (λ t,
        if shouldBlockAuthoringCommand (tb_enabledRef t) syncRoom then change (setRunError (Some (tb_blockedMessageRef t)))
        else
          let before := tb_documentRef t in
          change (dispatchCommands commands) ;>> change (setPositionOverrides ∅) ;>>
          change (setSelected (filter (λ i, i ∈ ids (nodes (tb_rendered t))) (tb_selectedNodeIds t))
                              (filter (λ i, i ∈ ids (edges (tb_rendered t))) (tb_selectedEdgeIds t))) ;>>
          change (setArtifactViewers (pruneCards commands)) ;>> change (setPendingRoute None) ;>> change (setRunError None) ;>>
          if syncRoom then submitLocal commands before else doNothing)
  end.

(** ** From the room *)

Definition replacePresentation (presentation : GraphPresentation) (t : Tab) : Tab :=
  setArtifactViewers (λ _, artifactViewersFromPresentation (Some presentation)) t.

(** The overlays of the nodes that stay, or those of the nodes that come. *)
Definition replaceDocument (next : AuthoredGraphDocument) (overlays : option (gmap string NodeOverlay)) (t : Tab) : Tab :=
  let kept := filter (λ kv, kv.1 ∈ ids (nodes next)) (st_nodeOverlays (tb_authoring t)) in
  let t := set_documentRef next (setPendingBoundEdges [] t) in
  let t := set_authoring (reduceWorkbenchAuthoringState (tb_authoring t) (replace_state_document next (default kept overlays))) t in
  setPositionOverrides ∅ (setSelected [] [] t).

Definition applyRoomHead (head : CollaborativeHead) : TabM := call (SyncFromHead head) ;>> change (setUnsyncedRoomEdits false).

Definition refreshCollaborativeHead (errorMessage : option string) : TabM :=
  looking (λ t, match tb_projectId t with
                | Some p => if bool_decide (p = "") then doNothing else call (FetchHead errorMessage)
                | None => doNothing
                end).

(** The answer to a refresh; [Throw] also when the room is gone. *)
Definition headRefused (errorMessage : option string) (error : string) : TabM :=
  let message := default error errorMessage in
  change (setRunError (Some message)) ;>>
  looking (λ t, if tb_headRefreshRetry t then doNothing else change (setHeadRefreshRetry (Some message))).

Definition answerHead (roomConnected : bool) (errorMessage : option string) (answer : res CollaborativeHead) : TabM :=
  match answer with
  | Throw error => headRefused errorMessage error
  | Ok head =>
      change (setHeadRefreshRetry None) ;>>
      looking (λ t,
        if negb (shouldReplaceCollaborativeHead (tb_projectRoomHeadRef t) head) then
          match tb_projectRoomHeadRef t with
          | Some current => if roomConnected then call (RoomReplaceHead current) else headRefused errorMessage "Project room is not connected."
          | None => doNothing
          end
        else if roomConnected then call (RoomReplaceHead head) ;>> applyRoomHead head
        else headRefused errorMessage "Project room is not connected.")
  end.

Definition refreshRetryFired : TabM :=
  looking (λ t, match tb_headRefreshRetry t with
                | Some message => change (setHeadRefreshRetry None) ;>> refreshCollaborativeHead (Some message)
                | None => doNothing
                end).

Definition moveCard (ps : list ViewerPosition) (n : ArtifactViewerNode) : ArtifactViewerNode :=
  match viewerPositionFor (vn_id n) ps with Some p => Viewers.set_position p n | None => n end.

Definition moveNote (ps : list AnnotationPosition) (n : AnnotationNode) : AnnotationNode :=
  match annotationPositionFor (ax_id n) ps with
  | Some p => {| ax_id := ax_id n; ax_position := p; ax_selected := ax_selected n; ax_kind := ax_kind n; ax_layout := ax_layout n;
                 ax_text := ax_text n; ax_color := ax_color n |}
  | None => n
  end.

(** The cards of a [replace_document] come with it. *)
Definition replayedPresentation (body : RoomGraphBodyCommand) (t : Tab) : Tab :=
  match body with
  | R_replace_document document => match d_presentation document with Val p => replacePresentation p t | _ => t end
  | _ => t
  end.

(** One entry of an accepted batch: the tab, and a command to replay; or a refresh. *)
Definition replayEntry (graphId : option string) (entry : RoomProjectCommand) (t : Tab) : Tab * option (list GraphCommand) :=
  match entry with
  | P_rename_project _ _ => (t, Some [])
  | P_rename_graph graph_id nm _ => (t, Some (if bool_decide (Some graph_id = graphId) then [rename_graph nm] else []))
  | P_in_graph graph_id body =>
      if bool_decide (Some graph_id ≠ graphId) then (t, Some [])
      else
        match body with
        | R_replace_presentation presentation => (replacePresentation presentation t, Some [])
        | R_move_artifact_viewers positions => (setArtifactViewers (on_nodes (fmap (moveCard positions))) t, Some [])
        | R_move_annotations positions => (setArtifactViewers (on_annotations (fmap (moveNote positions))) t, Some [])
        | _ =>
            let t := replayedPresentation body t in
            (t, option_map (λ c, [c]) (toLocalGraphCommand entry (Some (tb_documentRef t)) graphId))
        end
  | _ => (t, None)
  end.

Fixpoint replayEntries (graphId : option string) (entries : list RoomProjectCommand) (t : Tab) : Tab * option (list GraphCommand) :=
  match entries with
  | [] => (t, Some [])
  | entry :: rest =>
      match replayEntry graphId entry t with
      | (t1, None) => (t1, None)
      | (t1, Some cs) => let '(t2, r) := replayEntries graphId rest t1 in (t2, option_map (app cs) r)
      end
  end.

Definition onCommandAccepted (entries : list RoomProjectCommand) (local : bool) : TabM :=
  if local then doNothing
  else λ t,
    match replayEntries (tb_openGraphIdRef t) entries t with
    | (t1, None) => refreshCollaborativeHead None t1
    | (t1, Some commands) => applyAuthoringCommands commands false t1
    end.

Definition onCommandRejected (errorCode detail : string) : TabM :=
  let message := if bool_decide (detail = "") then "A collaborative edit was rejected." else detail in
  if bool_decide (errorCode = "head_conflict") then refreshCollaborativeHead None
  else change (setRunError (Some message)) ;>> refreshCollaborativeHead (Some message).

Definition onTerminalClose (reason : ProjectRoomTerminalReason) : TabM :=
  match reason with
  | access_revoked | project_deleted => call PurgeLocalGraphState ;>> call LeaveToWorkspace
  | _ => doNothing
  end.

(** What the room's listeners hand on ([useProjectRoomSession] passes every event on). *)
Definition heardByTab (asCommand : jsval → RoomProjectCommand) (e : SessionEvent) : TabM :=
  match e with
  | EvReady ready => applyRoomHead (ry_head ready)
  | EvRehydrate head => applyRoomHead head
  | EvOutbox HeadRefreshRequired => refreshCollaborativeHead None
  | EvCommandAccepted m local => onCommandAccepted (asCommand <$> ca_commands m) local
  | EvOutbox (CommandRejectedNotice m) => onCommandRejected (cx_error_code m) (cx_detail m)
  | EvTerminalClose reason => onTerminalClose reason
  | _ => doNothing
  end.
