(* ===== verification/Connecting.v ===== *)
(** * Connecting on the canvas ([ui/Workbench.tsx])

    What a wire drawn on the canvas does: which connections are valid, what a valid one
    becomes (an edge, the origin of an input, a link of a card, a binding of two cards), the
    edges that wait until a newly bound node is measured, and the question which feed a new
    edge takes.  The actions work on the [Tab] of RoomSync; what a callback closes over from the
    last render is a [CanvasRender].  Ids drawn at random are arguments. *)

From stdpp Require Import numbers list.
From S2P Require Import Prelude Js JsNum JsText GraphModel GraphCommands RoomBridge AuthoringState Handles Routes RoutesTheory Canvas Connections InputPlugs NodeLayout ConfigSchema ExecutionPlan.
From S2P Require Import ArtifactCards ArtifactDrop Hydration Viewers Grouping Collections Feeds CardConnections RoomSync.
#[local] Open Scope nat_scope.
#[local] Open Scope tab_scope.

Record CanvasRender := {
  cr_nodes : list WorkflowNode;
  cr_edges : list WorkflowEdge;
  (** [activeArtifactViewers] *)
  cr_cards : ArtifactViewerCanvasState;
  (** null until it is read *)
  cr_registry : option NodeRegistry;
  (** the titles of its types *)
  cr_titles : ArtifactTypeCatalog
}.

(** [registry?.artifact_types ?? []] *)
Definition artifactTypesOf (r : CanvasRender) : list ArtifactTypeSpec := default [] (rg_artifact_types <$> cr_registry r).
Definition conversionsOf (r : CanvasRender) : list ArtifactConversionSpec := default [] (rg_artifact_conversions <$> cr_registry r).

Definition clearRunError : TabM :=
  change (setRunError None) ;>> change (λ t, set_authoring (reduceWorkbenchAuthoringState (tb_authoring t) clear_error) t).

(** ** Edges *)

Definition conversionInput (c : ConversionKey) : GraphConversion := {| conv_id := ck_id c; conv_version := num (ck_version c) |}.

(** The data of an edge that takes a route. *)
Definition routeEdgeData (collectionMode : CollectionMode) (route : ConnectionRoute) : WorkflowEdgeData :=
  let selection := connectionRouteSelection route in
  {| ed_enabled := true; ed_collectionMode := collectionMode;
     ed_projection := (λ p, {| GraphModel.path := p |}) <$> sel_projection selection;
     ed_conversionPath := Some (conversionInput <$> sel_conversionPath selection); ed_routeOffset := None;
     ed_sourcePortName := None; ed_targetPortName := None; ed_targetPlugId := None; ed_compatibilityIssues := None |}.

(** [encodeHandleId] of the handle with the type its variable is bound to. *)
Definition concreteHandle (handle : PortMeta) (t : ArtifactTypeIdentity) : string :=
  encodeHandleId {| portName := portName handle; portType := Concrete (ty_id t) (ty_schema_version t); Handles.shape := Handles.shape handle;
                    direction := direction handle; plugId := truthy (plugId handle); feed := None; alsoAccepts := None |}.

Definition handleVariable (handle : PortMeta) : option string := match portType handle with Generic v => Some v | Concrete _ _ => None end.

(** The connection with the bound handle, and the node that the binding is new to. *)
Definition bindConnection (nodes : list WorkflowNode) (connection : CanvasConnection) (binding : ConnectionArtifactTypeBinding)
    : option (CanvasConnection * option string) :=
  let handleId := match rb_endpoint binding with atSource => cn_sourceHandle connection | atTarget => cn_targetHandle connection end in
  let nodeId := match rb_endpoint binding with atSource => cn_source connection | atTarget => cn_target connection end in
  handle ← decodeHandleId handleId;
  node ← find_id nodeId nodes;
  let existingBinding := binding_get (rb_variable binding) (nd_artifactTypeBindings (wn_data node)) in
  if negb (bool_decide (handleVariable handle = Some (rb_variable binding))) ||
     match existingBinding with Some t => negb (bool_decide (t = rb_artifactType binding)) | None => false end
  then None
  else
    let bound := Some (concreteHandle handle (rb_artifactType binding)) in
    Some (match rb_endpoint binding with
          | atSource => {| cn_source := cn_source connection; cn_sourceHandle := bound; cn_target := cn_target connection; cn_targetHandle := cn_targetHandle connection |}
          | atTarget => {| cn_source := cn_source connection; cn_sourceHandle := cn_sourceHandle connection; cn_target := cn_target connection; cn_targetHandle := bound |}
          end,
          match existingBinding with Some _ => None | None => Some nodeId end).

Definition typeKeyOf (t : ArtifactTypeIdentity) : ArtifactTypeKey := {| at_id := ty_id t; at_schema_version := num (ty_schema_version t) |}.

Definition edgeOfConnection (connection : CanvasConnection) (data : WorkflowEdgeData) (edgeId : string) : WorkflowEdge :=
  {| we_id := edgeId; we_source := cn_source connection; we_target := cn_target connection; we_sourceHandle := cn_sourceHandle connection;
     we_targetHandle := cn_targetHandle connection; we_data := Some data |}.

(** What is authored at once: the edge, or the binding it waits for. *)
Inductive NewEdge :=
| edge_now (command : GraphCommand)
| edge_waits (pending : PendingBoundEdge).

(** [Ok None] is the returned null. *)
Definition newWorkflowEdge (nodes : list WorkflowNode) (connection : CanvasConnection) (collectionMode : CollectionMode) (route : ConnectionRoute) (edgeId : string)
    : res (option NewEdge) :=
  let data := routeEdgeData collectionMode route in
  let add connection := c ← addEdgeCommand connection (Some data) edgeId; Ok (Some (edge_now c)) in
  match routeBinding route with
  | None => add connection
  | Some binding =>
      match bindConnection nodes connection binding with
      | None => Ok None
      | Some (committedConnection, None) => add committedConnection
      | Some (committedConnection, Some nodeId) =>
          if bool_decide (nodeId = "") then add committedConnection
          else Ok (Some (edge_waits {| pe_nodeId := nodeId; pe_variable := rb_variable binding; pe_artifactType := rb_artifactType binding;
                                       pe_edge := edgeOfConnection committedConnection data edgeId |}))
      end
  end.

Definition authorNewEdge (e : NewEdge) : TabM :=
  match e with
  | edge_now c => applyAuthoringCommands [c] true
  | edge_waits p =>
      change (λ t, setPendingBoundEdges (tb_pendingBoundEdges t ++ [p]) t) ;>>
      applyAuthoringCommands [bind_artifact_type (pe_nodeId p) (pe_variable p) (typeKeyOf (pe_artifactType p))] true
  end ;>> clearRunError.

(** The id of the edge comes back when there is one; [k] is what follows then. *)
Definition addWorkflowEdge (r : CanvasRender) (connection : CanvasConnection) (collectionMode : CollectionMode) (route : ConnectionRoute) (uuid : string)
    (k : string → TabM) : TabM :=
  let edgeId := "edge-" +:+ uuid in
  match newWorkflowEdge (cr_nodes r) connection collectionMode route edgeId with
  | Throw message => call (Uncaught message)
  | Ok None => doNothing
  | Ok (Some e) => authorNewEdge e ;>> k edgeId
  end.

(** The pending edges of a node whose handles are now measured with these bindings. *)
Definition measuredFor (nodeId : string) (bindings : list (string * ArtifactTypeIdentity)) (p : PendingBoundEdge) : bool :=
  bool_decide (pe_nodeId p = nodeId) && bool_decide (binding_get (pe_variable p) bindings = Some (pe_artifactType p)).

Definition connectionOfEdge (e : WorkflowEdge) : CanvasConnection :=
  {| cn_source := we_source e; cn_sourceHandle := we_sourceHandle e; cn_target := we_target e; cn_targetHandle := we_targetHandle e |}.

Definition handleNodeHandlesMeasured (nodeId : string) (bindings : list (string * ArtifactTypeIdentity)) : TabM :=
  looking (λ t,
    let ready := filter (λ p, measuredFor nodeId bindings p = true) (tb_pendingBoundEdges t) in
    if is_nil ready then doNothing
    else
      change (setPendingBoundEdges (filter (λ p, measuredFor nodeId bindings p = false) (tb_pendingBoundEdges t))) ;>>
      match mapM (λ p, addEdgeCommand (connectionOfEdge (pe_edge p)) (we_data (pe_edge p)) (we_id (pe_edge p))) ready with
      | Throw message => call (Uncaught message)
      | Ok commands => applyAuthoringCommands commands true
      end).

(** [updateEdge]: what is not given stays; [route] is a projection and a path. *)
Record WorkflowEdgeUpdate := {
  wu_enabled : option bool;
  wu_collectionMode : option CollectionMode;
  wu_route : option (option GraphProjection * list GraphConversion)
}.

Definition updateEdge (r : CanvasRender) (edgeId : string) (update : WorkflowEdgeUpdate) : TabM :=
  match find_id edgeId (cr_edges r) with
  | None => doNothing
  | Some changedEdge =>
      let data := we_data changedEdge in
      applyAuthoringCommands
        [update_edge edgeId
           {| u_enabled := Some (default (default true (ed_enabled <$> data)) (wu_enabled update));
              u_collection_mode := Some (default (default MDirect (ed_collectionMode <$> data)) (wu_collectionMode update));
              u_projection := Some (orNull (match wu_route update with Some route => route.1 | None => data ≫= ed_projection end));
              u_conversion_path := Some (Val (match wu_route update with Some route => route.2 | None => default [] (data ≫= ed_conversionPath) end));
              u_route_offset := None; u_to_plug := None; u_from_port := None; u_to_port := None |}] true
  end.

Definition updateEdgeRoute (edgeId : string) (routeOffset : GraphPoint) : TabM :=
  applyAuthoringCommands
    [update_edge edgeId {| u_enabled := None; u_collection_mode := None; u_projection := None; u_conversion_path := None;
                           u_route_offset := Some (Val routeOffset); u_to_plug := None; u_from_port := None; u_to_port := None |}] true.

(** The dialog's [onSelect]. *)
Definition selectFeed (r : CanvasRender) (route : ConnectionRoute) (uuid : string) : TabM :=
  looking (λ t,
    match tb_pendingRoute t with
    | None => doNothing
    | Some pending =>
        match truthy (pr_refineEdgeId pending) with
        | Some edgeId =>
            let selection := connectionRouteSelection route in
            updateEdge r edgeId {| wu_enabled := None; wu_collectionMode := None;
              wu_route := Some ((λ p, {| GraphModel.path := p |}) <$> sel_projection selection, conversionInput <$> sel_conversionPath selection) |}
        | None => addWorkflowEdge r (pr_connection pending) (pr_collectionMode pending) route uuid (λ _, doNothing)
        end
    end).

(** ** Validity *)

Definition ARTIFACT_VIEWER_INTERACTION_INPUT_HANDLE : string := "artifact-viewer-interaction-input".
Definition ARTIFACT_VIEWER_INTERACTION_OUTPUT_HANDLE : string := "artifact-viewer-interaction-output".

Definition onCard (r : CanvasRender) (i : string) : bool := bool_decide (i ∈ ids (vs_nodes (cr_cards r))).

Definition repeatsCollectionMember (r : CanvasRender) (documentOrigins : list GraphOrigin) (nodeId : string) (refs : list jsval) : bool :=
  match find_id nodeId (cr_nodes r) with
  | Some node => isCollectionNode node && collectionHoldsArtifacts (collectionMembers node (cr_nodes r) (cr_edges r) documentOrigins) refs
  | None => false
  end.

Definition fromCard (c : CanvasConnection) : bool := bool_decide (cn_sourceHandle c = Some ARTIFACT_CARD_OUTPUT_HANDLE).

Definition bindsCards (c : CanvasConnection) : bool :=
  bool_decide (cn_sourceHandle c = Some ARTIFACT_VIEWER_INTERACTION_OUTPUT_HANDLE) && bool_decide (cn_targetHandle c = Some ARTIFACT_VIEWER_INTERACTION_INPUT_HANDLE).

Definition intoCard (c : CanvasConnection) : bool := bool_decide (cn_targetHandle c = Some ARTIFACT_VIEWER_INPUT_HANDLE).

Section connect.
Context (localeCompare : string → string → Z).

Definition resolvedCard (r : CanvasRender) (c : CanvasConnection) : option ArtifactCardConnection :=
  resolveArtifactCardConnection localeCompare c (vs_nodes (cr_cards r)) (vs_edges (cr_cards r)) (cr_nodes r) (conversionsOf r).

(** A card's wire that is resolved and adds something to a collection. *)
Definition usableCard (r : CanvasRender) (t : Tab) (c : CanvasConnection) : option ArtifactCardConnection :=
  resolved ← resolvedCard r c;
  if repeatsCollectionMember r (origins (tb_documentRef t)) (dt_nodeId (cc_target resolved)) (cardArtifactRefs (dp_value (cc_payload resolved)))
  then None else Some resolved.

(** [existing] is the id of an edge that is being reconnected. *)
Definition isValidConnection (r : CanvasRender) (t : Tab) (c : CanvasConnection) (existing : option string) : bool :=
  if fromCard c then bool_decide (is_Some (usableCard r t c))
  else if bool_decide (cn_sourceHandle c = Some ARTIFACT_VIEWER_INTERACTION_OUTPUT_HANDLE) || bool_decide (cn_targetHandle c = Some ARTIFACT_VIEWER_INTERACTION_INPUT_HANDLE)
  then
    bindsCards c && negb (bool_decide (cn_source c = cn_target c)) && onCard r (cn_source c) && onCard r (cn_target c) &&
    negb (existsb (λ b, bool_decide (vb_sourceViewerId b = cn_source c) && bool_decide (vb_targetViewerId b = cn_target c)) (vs_bindings (cr_cards r)))
  else if intoCard c && onCard r (cn_target c) then
    match decodeHandleId (cn_sourceHandle c), find_id (cn_source c) (cr_nodes r) with
    | Some source, Some sourceNode => bool_decide (direction source = output) && existsb (λ p, bool_decide (port_name p = portName source)) (wn_outputs sourceNode)
    | _, _ => false
    end
  else isConnectionAccepted localeCompare c (cr_nodes r) (cr_edges r) (artifactTypesOf r) (conversionsOf r) existing (origins (tb_rendered t)).

(** ** What a wire becomes *)

Definition bindCommand (c : ArtifactCardConnection) : list GraphCommand :=
  match cc_binding c with Some (v, t) => [bind_artifact_type (dt_nodeId (cc_target c)) v (typeKeyOf t)] | None => [] end.

(** Two ids: of a sequence and of an origin. *)
Definition connectCard (r : CanvasRender) (c : CanvasConnection) (uuid originUuid : string) : TabM :=
  looking (λ t,
    match usableCard r t c with
    | None => doNothing
    | Some resolved =>
        match artifactDropCommands localeCompare (cc_payload resolved) (cc_target resolved) (cc_port resolved) (cc_bindings resolved)
                {| ds_edges := cr_edges r; ds_origins := origins (tb_documentRef t); ds_conversions := conversionsOf r |} uuid originUuid with
        | None => doNothing
        | Some commands => applyAuthoringCommands (bindCommand resolved ++ commands) true ;>> clearRunError ;>> change (setPendingRoute None)
        end
    end).

(** [commitArtifactViewers]; the submission follows in a microtask. *)
Definition commitCards (updater : ArtifactViewerCanvasState → ArtifactViewerCanvasState) : TabM :=
  looking (λ t,
    if negb (tb_enabledRef t) then change (setRunError (Some (tb_blockedMessageRef t)))
    else change (setArtifactViewers updater) ;>> submitReplace (updater (tb_cards t))).

Definition newBindingOfCards (c : CanvasConnection) (uuid : string) : ArtifactViewerBinding :=
  {| vb_id := "artifact-viewer-binding-" +:+ uuid; vb_sourceViewerId := cn_source c; vb_targetViewerId := cn_target c;
     vb_mappings := [("", "")]; vb_effects := [EffHighlight; EffFocus] |}.

Definition connectCards (c : CanvasConnection) (uuid : string) : TabM :=
  commitCards (on_bindings (λ bs, bs ++ [newBindingOfCards c uuid])) ;>> change (setPendingRoute None).

Definition newFeedOfCard (c : CanvasConnection) (source : PortMeta) (uuid : string) : ArtifactViewerEdge :=
  {| vx_id := "artifact-viewer-edge-" +:+ uuid; vx_source := cn_source c; vx_target := cn_target c; vx_targetHandle := Some ARTIFACT_VIEWER_INPUT_HANDLE;
     vx_data := Some {| vx_sourcePortName := portName source; vx_projection := None; vx_routeOffset := None |} |}.

(** A card has one feed: the new one replaces the old. *)
Definition feedCard (c : CanvasConnection) (uuid : string) : TabM :=
  match decodeHandleId (cn_sourceHandle c) with
  | Some source =>
      if negb (bool_decide (direction source = output)) then doNothing
      else
        commitCards (on_edges (λ es, filter (λ e, vx_target e ≠ cn_target c) es ++ [newFeedOfCard c source uuid])) ;>> change (setPendingRoute None)
  | None => doNothing
  end.

Definition canonicalConnection (c : CanvasConnection) : CanvasConnection :=
  {| cn_source := cn_source c; cn_sourceHandle := canonicalHandleId (cn_sourceHandle c); cn_target := cn_target c;
     cn_targetHandle := canonicalHandleId (cn_targetHandle c) |}.

(** The feeds offered, in order. *)
Definition connectionCandidates (r : CanvasRender) (c : CanvasConnection) (source : PortMeta) : list ConnectionRoute :=
  orderFeedRoutes localeCompare
    (routesForHandleFeed (connectionRoutesFor localeCompare (cn_handles (canonicalConnection c)) (artifactTypesOf r) (conversionsOf r)) (feed source)).

Definition endpointOf (node : WorkflowNode) (port : option Port) (handle : PortMeta) (types : ArtifactTypeCatalog) : ConnectionEndpoint :=
  {| ce_nodeTitle := wn_title node; ce_portName := default (portName handle) (port ≫= port_title);
     ce_artifactType := match decodedHandleArtifactType handle with
                        | Some t => formatArtifactTypeLabel t types
                        | None => "Any artifact · " +:+ default "undefined" (handleVariable handle)
                        end |}.

(** The question, when the edge could take another feed. *)
Definition askForFeed (r : CanvasRender) (c : CanvasConnection) (mode : CollectionMode) (candidates : list ConnectionRoute) (source target : PortMeta) (edgeId : string) : TabM :=
  if length candidates <=? 1 then doNothing
  else
    match find_id (cn_source c) (cr_nodes r), find_id (cn_target c) (cr_nodes r) with
    | Some sourceNode, Some targetNode =>
        change (setPendingRoute (Some
          {| pr_connection := canonicalConnection c; pr_collectionMode := mode; pr_candidates := candidates;
             pr_source := endpointOf sourceNode (findPort (wn_outputs sourceNode) (Some source)) source (cr_titles r);
             pr_target := endpointOf targetNode (findPort (wn_inputs targetNode) (Some target)) target (cr_titles r);
             pr_preferredProjectionPath := match feed source with Some (projection p) => Some p | _ => None end;
             pr_refineEdgeId := Some edgeId |}))
    | _, _ => doNothing
    end.

Definition connectNodes (r : CanvasRender) (c : CanvasConnection) (uuid : string) : TabM :=
  looking (λ t,
    match collectionModeForConnection c (cr_nodes r) (cr_edges r) (origins (tb_rendered t)) with
    | None => doNothing
    | Some mode =>
        match decodeHandleId (cn_sourceHandle c), decodeHandleId (cn_targetHandle c) with
        | Some source, Some target =>
            let candidates := connectionCandidates r c source in
            match preferredWholeFeedRoute candidates with
            | None => doNothing
            | Some preferred =>
                addWorkflowEdge r (canonicalConnection c) mode preferred uuid (askForFeed r c mode candidates source target)
            end
        | _, _ => doNothing
        end
    end).

Definition onConnect (r : CanvasRender) (c : CanvasConnection) (uuid originUuid : string) : TabM :=
  looking (λ t,
    if negb (isValidConnection r t c None) then doNothing
    else if fromCard c then connectCard r c uuid originUuid
    else if bindsCards c then connectCards c uuid
    else if intoCard c then feedCard c uuid
    else connectNodes r c uuid).
End connect.
