(* ===== verification/CanvasChanges.v ===== *)
(** * Changes of the canvas ([ui/Workbench.tsx], [onNodesChange] and [onEdgesChange])

    The renderer reports what a person does on the canvas as a list of changes.  The
    handlers take it apart: drags in progress stay in an overlay, moves and removals become commands
    on the document or on the cards, selections and measured sizes stay in the tab.  Sets are lists
    of their members.

    [applyNodeChanges] and [applyEdgeChanges] belong to the renderer: they are the operations of
    a class, with what its documentation says of them. *)

From stdpp Require Import numbers list gmap strings.
From S2P Require Import Prelude Js JsNum JsText GraphModel GraphCommands RoomBridge AuthoringState Handles Routes RoutesTheory Canvas Connections InputPlugs NodeLayout ConfigSchema ExecutionPlan.
From S2P Require Import ArtifactCards ArtifactDrop Hydration Viewers Grouping GridLayout Collections Feeds CardConnections RoomSync Connecting.
#[local] Open Scope nat_scope.

(** ** Changes *)

Inductive NodeChange (A : Type) :=
| nc_add (item : A)
| nc_replace (id : string) (item : A)
| nc_remove (id : string)
| nc_select (id : string) (selected : bool)
| nc_position (id : string) (position : option GraphPoint) (dragging : option bool)
| nc_dimensions (id : string) (dimensions : option (jsnum * jsnum)).
Arguments nc_add {A}. Arguments nc_replace {A}. Arguments nc_remove {A}. Arguments nc_select {A}. Arguments nc_position {A}. Arguments nc_dimensions {A}.

Inductive EdgeChange (A : Type) :=
| ec_add (item : A)
| ec_replace (id : string) (item : A)
| ec_remove (id : string)
| ec_select (id : string) (selected : bool).
Arguments ec_add {A}. Arguments ec_replace {A}. Arguments ec_remove {A}. Arguments ec_select {A}.

(** What the tab keeps of a rendered node: the fields [setNodes] reads. *)
Record RenderedNode := { rn_id : string; rn_selected : bool; rn_position : GraphPoint; rn_overlay : NodeOverlay }.

Record RenderedEdge := { re_id : string; re_selected : bool }.

#[export] Instance RenderedNode_id : Identified RenderedNode := rn_id.
#[export] Instance RenderedEdge_id : Identified RenderedEdge := re_id.

(** [CanvasNode] and [CanvasEdge]: what a change may add, by its type. *)
Inductive CanvasItem :=
| ci_workflow (node : RenderedNode)
| ci_card (node : ArtifactViewerNode)
| ci_annotation (node : AnnotationNode)
| ci_agent (id : string).

Inductive CanvasEdgeItem :=
| cei_workflow (edge : RenderedEdge)
| cei_feed (edge : ArtifactViewerEdge)
| cei_interaction (id : string)
| cei_origin (id : string).

(** [change.id], which an added item does not have. *)
Definition changeId {A} (c : NodeChange A) : option string :=
  match c with
  | nc_add _ | nc_replace _ _ => None
  | nc_remove i | nc_select i _ | nc_position i _ _ | nc_dimensions i _ => Some i
  end.

Definition edgeChangeId {A} (c : EdgeChange A) : option string :=
  match c with ec_add _ | ec_replace _ _ => None | ec_remove i | ec_select i _ => Some i end.

(** The changes of one kind of node: added items by their type, the others by their id. *)
Definition changeOf {A} (item : CanvasItem → option A) (ids : list string) (c : NodeChange CanvasItem) : option (NodeChange A) :=
  let known i k := if bool_decide (i ∈ ids) then Some k else None in
  match c with
  | nc_add x => nc_add <$> item x
  | nc_replace i x => nc_replace i <$> item x
  | nc_remove i => known i (nc_remove i)
  | nc_select i s => known i (nc_select i s)
  | nc_position i p d => known i (nc_position i p d)
  | nc_dimensions i d => known i (nc_dimensions i d)
  end.

Definition edgeChangeOf {A} (item : CanvasEdgeItem → option A) (ids : list string) (c : EdgeChange CanvasEdgeItem) : option (EdgeChange A) :=
  let known i k := if bool_decide (i ∈ ids) then Some k else None in
  match c with
  | ec_add x => ec_add <$> item x
  | ec_replace i x => ec_replace i <$> item x
  | ec_remove i => known i (ec_remove i)
  | ec_select i s => known i (ec_select i s)
  end.

Definition workflowItem (x : CanvasItem) : option RenderedNode := match x with ci_workflow n => Some n | _ => None end.
Definition cardItem (x : CanvasItem) : option ArtifactViewerNode := match x with ci_card n => Some n | _ => None end.
Definition annotationItem (x : CanvasItem) : option AnnotationNode := match x with ci_annotation n => Some n | _ => None end.
Definition workflowEdgeItem (x : CanvasEdgeItem) : option RenderedEdge := match x with cei_workflow e => Some e | _ => None end.
Definition feedItem (x : CanvasEdgeItem) : option ArtifactViewerEdge := match x with cei_feed e => Some e | _ => None end.
Definition interactionItem (x : CanvasEdgeItem) : option string := match x with cei_interaction i => Some i | _ => None end.

(** What the document hears of a change. *)
Definition canvasChange {A} (c : NodeChange A) : CanvasChange :=
  match c with
  | nc_position i p d => change_position i (default false d) p
  | nc_remove i => change_remove i
  | nc_replace i _ | nc_select i _ | nc_dimensions i _ => change_other i
  | nc_add _ => change_other ""
  end.

Definition edgeCanvasChange {A} (c : EdgeChange A) : CanvasChange :=
  match c with ec_remove i => change_remove i | ec_replace i _ | ec_select i _ => change_other i | ec_add _ => change_other "" end.

(** ** The renderer *)

Class FlowItem (A : Type) := {
  fl_id : A → string;
  fl_select : bool → A → A;
  fl_move : GraphPoint → A → A
}.

#[export] Instance RenderedNode_flow : FlowItem RenderedNode := {|
  fl_id := rn_id;
  fl_select b n := {| rn_id := rn_id n; rn_selected := b; rn_position := rn_position n; rn_overlay := rn_overlay n |};
  fl_move p n := {| rn_id := rn_id n; rn_selected := rn_selected n; rn_position := p; rn_overlay := rn_overlay n |} |}.

#[export] Instance ArtifactViewerNode_flow : FlowItem ArtifactViewerNode := {|
  fl_id := vn_id; fl_select := Viewers.set_selected; fl_move := Viewers.set_position |}.

#[export] Instance AnnotationNode_flow : FlowItem AnnotationNode := {|
  fl_id := ax_id;
  fl_select := select_annotation;
  fl_move p n := {| ax_id := ax_id n; ax_position := p; ax_selected := ax_selected n; ax_kind := ax_kind n; ax_layout := ax_layout n;
                    ax_text := ax_text n; ax_color := ax_color n |} |}.

Definition isMove {A} (c : NodeChange A) : bool := match c with nc_position _ _ _ => true | _ => false end.

(** Where the changes put a node. *)
Definition movedTo {A} (i : string) (changes : list (NodeChange A)) : option GraphPoint :=
  head (omap (λ c, match c with nc_position j (Some p) _ => if bool_decide (j = i) then Some p else None | _ => None end) changes).

(** The renderer's helpers.  A batch of moves, one for each node, moves the nodes it names
    and leaves the others. *)
Class FlowLibrary := {
  applyNodeChanges : ∀ A, FlowItem A → list (NodeChange A) → list A → list A;
  applyEdgeChanges : ∀ A, list (EdgeChange A) → list A → list A;
  moves_are_applied : ∀ A (H : FlowItem A) changes items, Forall (λ c, isMove c = true) changes → NoDup (omap changeId changes) →
    applyNodeChanges A H changes items = map (λ n, match movedTo (fl_id n) changes with Some p => fl_move p n | None => n end) items
}.
Arguments applyNodeChanges {_ A _}.
Arguments applyEdgeChanges {_ A}.

(** ** State *)

Record CanvasTab := {
  cv_tab : Tab;
  (** [nodesRef] and [edgesRef] *)
  cv_nodesRef : list RenderedNode;
  cv_edgesRef : list RenderedEdge;
  cv_selectedAgentIds : list string;
  cv_transientNodePositions : gmap string GraphPoint;
  cv_nodeMeasurements : gmap string (jsnum * jsnum);
  cv_cardSelections : gmap string jsval;
  cv_cardFields : gmap string (list jsval);
  cv_cardActivities : gmap string (jsval * nat);
  (** [localDraggingNodeIdsRef] and the positions of [presenceDragRef] *)
  cv_localDragging : list string;
  cv_presenceDrag : option (list NodePosition)
}.

Inductive CanvasCall :=
| from_tab (c : TabCall)
| SchedulePresence.

Definition CanvasM : Type := CanvasTab → CanvasTab * list CanvasCall.

Definition skip : CanvasM := λ v, (v, []).
Definition update (f : CanvasTab → CanvasTab) : CanvasM := λ v, (f v, []).
Definition schedulePresence : CanvasM := λ v, (v, [SchedulePresence]).
Definition andThen (a b : CanvasM) : CanvasM := λ v, let '(v1, c1) := a v in let '(v2, c2) := b v1 in (v2, c1 ++ c2).
Definition seeing (k : CanvasTab → CanvasM) : CanvasM := λ v, k v v.
Definition when (b : bool) (m : CanvasM) : CanvasM := if b then m else skip.

Declare Scope canvas_scope.
Notation "a ;+ b" := (andThen a b) (at level 62, right associativity) : canvas_scope.
#[local] Open Scope canvas_scope.

Definition set_tab (t : Tab) (v : CanvasTab) : CanvasTab :=
  {| cv_tab := t; cv_nodesRef := cv_nodesRef v; cv_edgesRef := cv_edgesRef v; cv_selectedAgentIds := cv_selectedAgentIds v;
     cv_transientNodePositions := cv_transientNodePositions v; cv_nodeMeasurements := cv_nodeMeasurements v; cv_cardSelections := cv_cardSelections v;
     cv_cardFields := cv_cardFields v; cv_cardActivities := cv_cardActivities v; cv_localDragging := cv_localDragging v; cv_presenceDrag := cv_presenceDrag v |}.
Definition set_nodesRef (l : list RenderedNode) (v : CanvasTab) : CanvasTab :=
  {| cv_tab := cv_tab v; cv_nodesRef := l; cv_edgesRef := cv_edgesRef v; cv_selectedAgentIds := cv_selectedAgentIds v;
     cv_transientNodePositions := cv_transientNodePositions v; cv_nodeMeasurements := cv_nodeMeasurements v; cv_cardSelections := cv_cardSelections v;
     cv_cardFields := cv_cardFields v; cv_cardActivities := cv_cardActivities v; cv_localDragging := cv_localDragging v; cv_presenceDrag := cv_presenceDrag v |}.
Definition set_edgesRef (l : list RenderedEdge) (v : CanvasTab) : CanvasTab :=
  {| cv_tab := cv_tab v; cv_nodesRef := cv_nodesRef v; cv_edgesRef := l; cv_selectedAgentIds := cv_selectedAgentIds v;
     cv_transientNodePositions := cv_transientNodePositions v; cv_nodeMeasurements := cv_nodeMeasurements v; cv_cardSelections := cv_cardSelections v;
     cv_cardFields := cv_cardFields v; cv_cardActivities := cv_cardActivities v; cv_localDragging := cv_localDragging v; cv_presenceDrag := cv_presenceDrag v |}.
Definition setSelectedAgentIds (l : list string) (v : CanvasTab) : CanvasTab :=
  {| cv_tab := cv_tab v; cv_nodesRef := cv_nodesRef v; cv_edgesRef := cv_edgesRef v; cv_selectedAgentIds := l;
     cv_transientNodePositions := cv_transientNodePositions v; cv_nodeMeasurements := cv_nodeMeasurements v; cv_cardSelections := cv_cardSelections v;
     cv_cardFields := cv_cardFields v; cv_cardActivities := cv_cardActivities v; cv_localDragging := cv_localDragging v; cv_presenceDrag := cv_presenceDrag v |}.
Definition setNodeMeasurements (f : gmap string (jsnum * jsnum) → gmap string (jsnum * jsnum)) (v : CanvasTab) : CanvasTab :=
  {| cv_tab := cv_tab v; cv_nodesRef := cv_nodesRef v; cv_edgesRef := cv_edgesRef v; cv_selectedAgentIds := cv_selectedAgentIds v;
     cv_transientNodePositions := cv_transientNodePositions v; cv_nodeMeasurements := f (cv_nodeMeasurements v); cv_cardSelections := cv_cardSelections v;
     cv_cardFields := cv_cardFields v; cv_cardActivities := cv_cardActivities v; cv_localDragging := cv_localDragging v; cv_presenceDrag := cv_presenceDrag v |}.
(** What the tab keeps beside a card. *)
Definition forgetCards (removed : list string) (v : CanvasTab) : CanvasTab :=
  let without {A} (m : gmap string A) := foldr delete m removed in
  {| cv_tab := cv_tab v; cv_nodesRef := cv_nodesRef v; cv_edgesRef := cv_edgesRef v; cv_selectedAgentIds := cv_selectedAgentIds v;
     cv_transientNodePositions := cv_transientNodePositions v; cv_nodeMeasurements := cv_nodeMeasurements v; cv_cardSelections := without (cv_cardSelections v);
     cv_cardFields := without (cv_cardFields v); cv_cardActivities := without (cv_cardActivities v); cv_localDragging := cv_localDragging v; cv_presenceDrag := cv_presenceDrag v |}.
Definition setDrag (transient : gmap string GraphPoint) (local : list string) (presence : option (list NodePosition)) (v : CanvasTab) : CanvasTab :=
  {| cv_tab := cv_tab v; cv_nodesRef := cv_nodesRef v; cv_edgesRef := cv_edgesRef v; cv_selectedAgentIds := cv_selectedAgentIds v;
     cv_transientNodePositions := transient; cv_nodeMeasurements := cv_nodeMeasurements v; cv_cardSelections := cv_cardSelections v;
     cv_cardFields := cv_cardFields v; cv_cardActivities := cv_cardActivities v; cv_localDragging := local; cv_presenceDrag := presence |}.

Definition onTab (m : TabM) : CanvasM := λ v, let '(t, calls) := m (cv_tab v) in (set_tab t v, map from_tab calls).

(** ** [setNodes] and [setEdges] *)

Definition nodeOverlaysFromNodes (nodes : list RenderedNode) : gmap string NodeOverlay := foldl (λ m n, <[rn_id n := rn_overlay n]> m) ∅ nodes.

(** [===] on numbers. *)
Definition sameNumber (a b : jsnum) : bool := bool_decide (num_compare a b = Some Eq).
Definition samePoint (p q : GraphPoint) : bool := sameNumber (pt_x p) (pt_x q) && sameNumber (pt_y p) (pt_y q).

(** A rendered node that is not where the document has it. *)
Definition overriddenPosition (authored : list GraphNode) (n : RenderedNode) : option (string * GraphPoint) :=
  match find_id (rn_id n) authored with
  | Some a => if samePoint (n_position a) (rn_position n) then None else Some (rn_id n, rn_position n)
  | None => None
  end.

Definition setNodes (action : list RenderedNode → list RenderedNode) : CanvasM :=
  seeing (λ v,
    let nextNodes := action (cv_nodesRef v) in
    update (set_nodesRef nextNodes) ;+
    onTab (change (λ t, setSelected (map rn_id (filter (λ n, rn_selected n = true) nextNodes)) (tb_selectedEdgeIds t) t)) ;+
    onTab (change (λ t, setPositionOverrides
      (foldl (λ m kv, <[kv.1 := kv.2]> m) ∅ (omap (overriddenPosition (nodes (tb_documentRef t))) nextNodes)) t)) ;+
    onTab (change (λ t, set_authoring (reduceWorkbenchAuthoringState (tb_authoring t) (update_overlays (nodeOverlaysFromNodes nextNodes))) t))).

Definition setEdges (action : list RenderedEdge → list RenderedEdge) : CanvasM :=
  seeing (λ v,
    let nextEdges := action (cv_edgesRef v) in
    update (set_edgesRef nextEdges) ;+
    onTab (change (λ t, setSelected (tb_selectedNodeIds t) (map re_id (filter (λ e, re_selected e = true) nextEdges)) t))).

(** The nodes and edges of a render: the hydrated ones with what the tab lays over them. *)
Definition renderedNode (t : Tab) (n : WorkflowNode) : RenderedNode :=
  {| rn_id := wn_id n; rn_selected := bool_decide (wn_id n ∈ tb_selectedNodeIds t);
     rn_position := default (wn_position n) (tb_positionOverrides t !! wn_id n);
     rn_overlay := default idleOverlay (st_nodeOverlays (tb_authoring t) !! wn_id n) |}.

Definition renderedEdge (t : Tab) (e : WorkflowEdge) : RenderedEdge :=
  {| re_id := we_id e; re_selected := bool_decide (we_id e ∈ tb_selectedEdgeIds t) |}.

(** The layout effect that follows it. *)
Definition renderCanvas (r : CanvasRender) : CanvasM :=
  seeing (λ v, update (set_nodesRef (map (renderedNode (cv_tab v)) (cr_nodes r))) ;+ update (set_edgesRef (map (renderedEdge (cv_tab v)) (cr_edges r)))).

(** ** [onNodesChange] *)

(** What the handlers read from refs of the grid. *)
Record GridRefs := { gr_settings : CanvasGridSettings; gr_bypass : bool }.

(** A set with or without one member. *)
Definition toggled (selected : bool) (i : string) (l : list string) : list string :=
  let others := filter (λ j, j ≠ i) l in if selected then others ++ [i] else others.

Definition withPosition (p : GraphPoint) (a : GraphAgent) : GraphAgent :=
  {| a_id := a_id a; a_name := a_name a; a_instructions := a_instructions a; a_model := a_model a; a_position := Val p; a_width := a_width a; a_height := a_height a |}.

(** One round of the loop over the agents' changes. *)
Definition agentChange {A} (agents : list GraphAgent) (c : NodeChange A) : CanvasM :=
  match changeId c ≫= λ i, find_id i agents with
  | None => skip
  | Some agent =>
      match c with
      | nc_select _ selected => update (λ v, setSelectedAgentIds (toggled selected (a_id agent) (cv_selectedAgentIds v)) v)
      | nc_remove _ => onTab (applyAuthoringCommands [remove_agent (a_id agent)] true)
      | nc_position _ (Some p) d => if default false d then skip else onTab (applyAuthoringCommands [configure_agent (withPosition p agent)] true)
      | _ => skip
      end
  end.

Definition draggingPosition {A} (g : GridRefs) (c : NodeChange A) : option NodePosition :=
  match c with
  | nc_position i (Some p) (Some true) =>
      let p := if shouldSnapPosition (gr_settings g) true (gr_bypass g) then snapPosition p (gs_cellSize (gr_settings g)) else p in
      Some {| np_node_id := i; np_x := pt_x p; np_y := pt_y p |}
  | _ => None
  end.

Definition pointOf (p : NodePosition) : GraphPoint := {| pt_x := np_x p; pt_y := np_y p |}.

Definition transientPositions (ps : list NodePosition) : gmap string GraphPoint := foldl (λ m p, <[np_node_id p := pointOf p]> m) ∅ ps.

(** The map stays the same object when it says the same. *)
Definition nextTransient (ps : list NodePosition) (current : gmap string GraphPoint) : gmap string GraphPoint :=
  let next := transientPositions ps in
  if bool_decide (size current = length ps) &&
     forallb (λ p, match current !! np_node_id p, next !! np_node_id p with Some a, Some b => samePoint a b | None, None => true | _, _ => false end) ps
  then current else next.

Definition dragTo (ps : list NodePosition) : CanvasM :=
  update (λ v, setDrag (nextTransient ps (cv_transientNodePositions v)) (map np_node_id ps) (Some ps) v) ;+ schedulePresence.

Definition snapNodeChangePosition {A} (g : GridRefs) (c : NodeChange A) : NodeChange A :=
  match c with
  | nc_position i (Some p) d =>
      if shouldSnapPosition (gr_settings g) (bool_decide (d = Some true)) (gr_bypass g) then nc_position i (Some (snapPosition p (gs_cellSize (gr_settings g)))) d else c
  | _ => c
  end.

(** The changes of one layer, snapped. *)
Definition layerChanges {A} (g : GridRefs) (item : CanvasItem → option A) (ids : list string) (changes : list (NodeChange CanvasItem)) : list (NodeChange A) :=
  map (snapNodeChangePosition g) (omap (changeOf item ids) changes).

Definition removedId {A} (c : NodeChange A) : option string := match c with nc_remove i => Some i | _ => None end.
Definition isRenderer {A} (c : NodeChange A) : bool := match c with nc_add _ | nc_replace _ _ => true | _ => false end.
Definition isLocal {A} (c : NodeChange A) : bool := match c with nc_dimensions _ _ | nc_select _ _ => true | _ => false end.
Definition isDurable {A} (c : NodeChange A) : bool := match c with nc_remove _ | nc_add _ | nc_replace _ _ => true | _ => false end.
Definition isSelect {A} (c : NodeChange A) : bool := match c with nc_select _ _ => true | _ => false end.
(** [change.type === "position" && change.dragging !== true] *)
Definition isDrop {A} (c : NodeChange A) : bool := match c with nc_position _ _ d => negb (bool_decide (d = Some true)) | _ => false end.
(** ... and [dragging === false] *)
Definition endsDrag {A} (c : NodeChange A) : bool := match c with nc_position _ _ d => bool_decide (d = Some false) | _ => false end.

Definition droppedAt {A} (c : NodeChange A) : option (string * GraphPoint) :=
  match c with nc_position i (Some p) d => if default false d then None else Some (i, p) | _ => None end.

Definition viewerPosition (d : string * GraphPoint) : ViewerPosition := {| vp_viewer_id := d.1; vp_x := pt_x d.2; vp_y := pt_y d.2 |}.
Definition annotationPosition (d : string * GraphPoint) : AnnotationPosition := {| ap_annotation_id := d.1; ap_x := pt_x d.2; ap_y := pt_y d.2 |}.

Definition measuredUpdate {A} (known : list string) (c : NodeChange A) : option (string * (jsnum * jsnum)) :=
  match c with nc_dimensions i (Some d) => if bool_decide (i ∈ known) then Some (i, d) else None | _ => None end.

Definition withMeasurement (m : gmap string (jsnum * jsnum)) (u : string * (jsnum * jsnum)) : gmap string (jsnum * jsnum) :=
  match m !! u.1 with
  | Some previous => if sameNumber previous.1 u.2.1 && sameNumber previous.2 u.2.2 then m else <[u.1 := u.2]> m
  | None => <[u.1 := u.2]> m
  end.

(** The origins that the artifacts of these cards feed ([dropOriginsCarriedByCards]). *)
Definition carriedOrigins (cards : list (option ArtifactViewerNode)) (origins : list GraphOrigin) : list string :=
  map o_id (filter (λ o, existsb (λ card : option ArtifactViewerNode, match card with Some card => originCarriesCardArtifacts (o_value o) (vn_artifactRef card) | None => false end) cards = true) origins).

Definition dropOriginsOf (cards : list (option ArtifactViewerNode)) : TabM :=
  looking (λ t, let originIds := carriedOrigins cards (origins (tb_documentRef t)) in
                if is_nil originIds then doNothing else applyAuthoringCommands [remove_origins originIds] true).

Section flow.
Context `{FlowLibrary}.

Definition applyCards (changes : list (NodeChange ArtifactViewerNode)) : ArtifactViewerCanvasState → ArtifactViewerCanvasState := on_nodes (applyNodeChanges changes).
Definition applyAnnotations (changes : list (NodeChange AnnotationNode)) : ArtifactViewerCanvasState → ArtifactViewerCanvasState := on_annotations (applyNodeChanges changes).

(** The cards' changes. *)
Definition cardChanges (changes : list (NodeChange ArtifactViewerNode)) : TabM :=
  let removed := omap removedId changes in
  let localChanges := filter (λ c, isLocal c = true) changes in
  let moved := omap droppedAt changes in
  let durable := filter (λ c, isDurable c = true) changes in
  andAlso (if is_nil localChanges then doNothing else change (setArtifactViewers (applyCards localChanges))) (
  andAlso (if is_nil moved then doNothing
           else andAlso (change (setArtifactViewers (applyCards (filter (λ c, isDrop c = true) changes)))) (submitMove (map viewerPosition moved)))
          (if is_nil durable && is_nil removed then doNothing
           else commitCards (λ current,
             on_bindings (λ bs, if is_nil removed then bs else filter (λ b, vb_sourceViewerId b ∉ removed ∧ vb_targetViewerId b ∉ removed) bs)
               (applyCards durable current)))).

(** The annotations' changes. *)
Definition annotationChanges (changes : list (NodeChange AnnotationNode)) : TabM :=
  let removed := omap removedId changes in
  let localChanges := filter (λ c, isLocal c = true) changes in
  let moved := omap droppedAt changes in
  let durable := filter (λ c, isDurable c = true) changes in
  andAlso (if is_nil localChanges then doNothing else change (setArtifactViewers (applyAnnotations localChanges))) (
  andAlso (if is_nil moved then doNothing
           else andAlso (change (setArtifactViewers (applyAnnotations (filter (λ c, isDrop c = true) changes)))) (submitMoveAnnotations (map annotationPosition moved)))
          (if is_nil durable && is_nil removed then doNothing else commitCards (applyAnnotations durable))).

Definition removeCards (r : CanvasRender) (removed : list string) : CanvasM :=
  when (negb (is_nil removed))
    (onTab (dropOriginsOf (map (λ i, find_id i (vs_nodes (cr_cards r))) removed)) ;+ update (forgetCards removed)).

Definition removeWorkflowNodes (removed : list string) : CanvasM :=
  when (negb (is_nil removed))
    (onTab (commitCards (on_edges (filter (λ e, vx_source e ∉ removed)))) ;+ update (setNodeMeasurements (λ m, foldr delete m removed))).

(** What is left once drags in progress are out of the way. *)
Definition settledChanges (r : CanvasRender) (g : GridRefs) (agents : list GraphAgent) (changes : list (NodeChange CanvasItem)) : CanvasM :=
  let workflowNodeIds := ids (cr_nodes r) in
  let workflowChanges := layerChanges g workflowItem workflowNodeIds changes in
  let cardChangeList := layerChanges g cardItem (ids (vs_nodes (cr_cards r))) changes in
  let annotationChangeList := layerChanges g annotationItem (ids (vs_annotations (cr_cards r))) changes in
  let rendererChanges := filter (λ c, isRenderer c = true) workflowChanges in
  let measuredUpdates := omap (measuredUpdate (workflowNodeIds ++ ids agents)) changes in
  let semanticChanges := graphCommandsFromNodeChanges (map canvasChange workflowChanges) in
  let selectionChanges := filter (λ c, isSelect c = true) workflowChanges in
  when (negb (is_nil rendererChanges)) (setNodes (applyNodeChanges rendererChanges)) ;+
  onTab (cardChanges cardChangeList) ;+
  onTab (annotationChanges annotationChangeList) ;+
  removeCards r (omap removedId cardChangeList) ;+
  removeWorkflowNodes (omap removedId workflowChanges) ;+
  when (negb (is_nil measuredUpdates)) (update (setNodeMeasurements (λ m, foldl withMeasurement m measuredUpdates))) ;+
  when (negb (is_nil selectionChanges)) (setNodes (applyNodeChanges selectionChanges)) ;+
  when (negb (is_nil semanticChanges)) (onTab (applyAuthoringCommands semanticChanges true)) ;+
  seeing (λ v,
    when (existsb (λ c, endsDrag c && match changeId c with Some i => bool_decide (i ∈ ids (GraphModel.agents (tb_documentRef (cv_tab v)))) | None => false end) changes ||
          existsb endsDrag workflowChanges || existsb endsDrag cardChangeList || existsb endsDrag annotationChangeList)
      (update (setDrag ∅ [] None) ;+ schedulePresence)).

Definition onNodesChange (r : CanvasRender) (g : GridRefs) (changes : list (NodeChange CanvasItem)) : CanvasM :=
  seeing (λ v,
    let agents := GraphModel.agents (tb_documentRef (cv_tab v)) in
    let draggingPositions := omap (draggingPosition g) changes in
    foldr andThen skip (map (agentChange agents) changes) ;+
    when (negb (is_nil draggingPositions)) (dragTo draggingPositions) ;+
    when (is_nil draggingPositions || negb (bool_decide (length draggingPositions = length changes))) (settledChanges r g agents changes)).

(** ** [onEdgesChange] *)

Definition edgeRemovedId {A} (c : EdgeChange A) : option string := match c with ec_remove i => Some i | _ => None end.

Definition originRemoved (originEdges : list ArtifactOriginEdge) (c : EdgeChange CanvasEdgeItem) : option string :=
  match c with ec_remove i => oe_originId <$> last (filter (λ e, oe_id e = i) originEdges) | _ => None end.

Definition originSelected (originEdges : list ArtifactOriginEdge) (c : EdgeChange CanvasEdgeItem) : option (string * bool) :=
  match c with ec_select i s => if existsb (λ e, bool_decide (oe_id e = i)) originEdges then Some (i, s) else None | _ => None end.

Definition onEdgesChange (r : CanvasRender) (originEdges : list ArtifactOriginEdge) (changes : list (EdgeChange CanvasEdgeItem)) : CanvasM :=
  let workflowChanges := omap (edgeChangeOf workflowEdgeItem (ids (cr_edges r))) changes in
  let feedChanges := omap (edgeChangeOf feedItem (ids (vs_edges (cr_cards r)))) changes in
  let interactionChanges := omap (edgeChangeOf interactionItem (ids (vs_bindings (cr_cards r)))) changes in
  let semanticChanges := graphCommandsFromEdgeChanges (map edgeCanvasChange workflowChanges) in
  let transientChanges := filter (λ c, edgeRemovedId c = None) workflowChanges in
  let removedOrigins := omap (originRemoved originEdges) changes in
  let selectedOrigins := omap (originSelected originEdges) changes in
  let removedBindings := omap edgeRemovedId interactionChanges in
  when (negb (is_nil workflowChanges))
    (when (negb (is_nil transientChanges)) (setEdges (applyEdgeChanges transientChanges)) ;+
     onTab (if is_nil semanticChanges then clearRunError else applyAuthoringCommands semanticChanges true)) ;+
  when (negb (is_nil removedOrigins)) (onTab (applyAuthoringCommands [remove_origins (js_set removedOrigins)] true)) ;+
  when (negb (is_nil selectedOrigins))
    (onTab (change (λ t, setSelected (tb_selectedNodeIds t) (foldl (λ l s, toggled s.2 s.1 l) (tb_selectedEdgeIds t) selectedOrigins) t))) ;+
  when (negb (is_nil feedChanges)) (onTab (commitCards (on_edges (applyEdgeChanges feedChanges)))) ;+
  when (negb (is_nil removedBindings)) (onTab (commitCards (on_bindings (filter (λ b, vb_id b ∉ removedBindings))))).
End flow.
