(* ===== verification/RoomSyncTheory.v ===== *)
(** * A canvas follows its room

    A canvas that shows a Graph of the confirmed head shows it still after an accepted batch of
    another tab, or asks for the whole head; an edit of one tab reaches the others through the
    room; what a refused batch and a late render do. *)

From S2P Require Import Prelude Js JsNum GraphModel GraphCommands GraphTheory Samples AuthoringState RoomBridge RoomBridgeTheory.
From S2P Require Import NodeLayout Viewers Protocol CommandOutbox RoomSession RoomView RoomSync.
#[local] Open Scope nat_scope.
#[local] Open Scope tab_scope.

(** ** The head *)

(** What a replay does to the Graph it is addressed to. *)
Lemma mapGraph_inv h gid g f seq h' :
  (∀ g g', f g = Ok g' → g_id g' = g_id g) → NoDup (ids (h_graphs h)) → find_id gid (h_graphs h) = Some g →
  mapGraphDocument h gid f seq = Ok h' → ∃ g', f g = Ok g' ∧ find_id gid (h_graphs h') = Some g'.
Proof.
  intros Hid Hnd Hf Hm. pose proof (find_id_Some _ _ _ Hf) as [Hin Hi]. change (g_id g = gid) in Hi.
  assert (∃ g', f g = Ok g') as [g' Hg].
  { unfold mapGraphDocument in Hm. rewrite some_id_find, Hf in Hm. res_inv. apply res_map_Forall2 in E.
    apply list_elem_of_lookup in Hin as [k Hk]. destruct (Forall2_lookup_l _ _ _ _ _ E Hk) as (g' & _ & Hg).
    rewrite bool_decide_true in Hg by done. eauto. }
  exists g'. split; [done|]. destruct (mapGraph_find h gid g f seq g') as (h1 & H1 & Hf1); [done..|by rewrite (Hid _ _ Hg)|]. congruence.
Qed.

(** Commands whose local form is read off the document. *)
Definition reads_document (c : RoomProjectCommand) : bool :=
  match c with P_in_graph _ (R_set_node_input_plugs _ _ _) | P_in_graph _ (R_replace_document _) => true | _ => false end.

Lemma toLocal_any gid body d1 d2 :
  reads_document (P_in_graph gid body) = false →
  toLocalGraphCommand (P_in_graph gid body) (Some d1) (Some gid) = toLocalGraphCommand (P_in_graph gid body) (Some d2) (Some gid).
Proof. intros H. unfold toLocalGraphCommand. rewrite in_graph_body. by destruct body. Qed.

(** What the replay of one entry needs of the document its local form is read off. *)
Definition read_right (dref : AuthoredGraphDocument) (g : GraphDefinition) (c : RoomProjectCommand) : Prop :=
  reads_document c = true → same_graph dref (graph_view g) ∧ unique_ids (graph_view g) ∧
    match c with P_in_graph _ body => plugs_keep_ends (graph_view g) body | _ => True end.

(** A command that the head takes, the canvas takes with the same effect. *)
Definition tracks (cs : list GraphCommand) (g g' : GraphDefinition) : Prop :=
  ∀ d, normal d → same_graph d (graph_view g) →
    ∃ d', res_fold applyGraphCommandNormalized d cs = Ok d' ∧ normal d' ∧ same_graph d' (graph_view g').

Lemma tracks_nil g g' : same_graph (graph_view g) (graph_view g') → tracks [] g g'.
Proof. intros H d Hd Hs. exists d. split_and!; [done..|]. by transitivity (graph_view g). Qed.

Lemma tracks_app cs1 cs2 g1 g2 g3 : tracks cs1 g1 g2 → tracks cs2 g2 g3 → tracks (cs1 ++ cs2) g1 g3.
Proof.
  intros H1 H2 d Hd Hs. destruct (H1 d Hd Hs) as (d1 & E1 & Hd1 & Hs1). destruct (H2 d1 Hd1 Hs1) as (d2 & E2 & Hd2 & Hs2).
  exists d2. split_and!; [|done..]. by rewrite res_fold_app, E1.
Qed.

Lemma tracks_command c g g' d' :
  applyGraphCommand (graph_view g) c = Ok d' → same_graph (graph_view g') d' → tracks [c] g g'.
Proof.
  intros Happ Hg d Hd Hs. change (applyGraphCommandNormalized (normalize (graph_view g)) c = Ok d') in Happ.
  assert (same_graph d (normalize (graph_view g))) as Hs'.
  { transitivity (graph_view g); [done|]. symmetry. apply normalize_same, graph_view_normal. }
  pose proof (apply_proper d _ Hs' c c eq_refl) as Hrel. rewrite Happ in Hrel. inversion Hrel as [x y Hxy Hx Hy|]; subst.
  exists x. cbn [res_fold]. rewrite <- Hx. split; [done|]. split; [by eapply apply_normal|]. by transitivity d'.
Qed.

(** The presentation of a Graph is no part of what the canvas' document shows. *)
Lemma presentation_unseen g doc p : same_graph (graph_view (withGraphDocument g (with_presentation p doc))) (graph_view (withGraphDocument g doc)).
Proof. by split. Qed.

Lemma replace_tracks dref g doc p :
  same_graph dref (graph_view g) →
  tracks [replace_document (authoredGraphDocument {| draft_name := name dref; draft_document := doc |})] g (withGraphDocument g (with_presentation p doc)).
Proof.
  intros Hs d Hd Hsd. eexists. split; [reflexivity|]. split; [apply normal_normalize|].
  change (authoredGraphDocument (createGraphDraft (authoredGraphDocument {| draft_name := name dref; draft_document := doc |}) Undef)) with
    (normalize (authoredGraphDocument {| draft_name := name dref; draft_document := doc |})).
  transitivity (authoredGraphDocument {| draft_name := name dref; draft_document := doc |}).
  - apply normalize_same. apply (graph_view_normal {| g_id := g_id g; g_name := name dref; g_document := doc; g_refresh_generations := JNull |}).
  - split; cbn; [|done..]. apply Hs.
Qed.

Lemma plugs_track dref g gid i ps es c :
  same_graph dref (graph_view g) → unique_ids (graph_view g) → plugs_keep_ends (graph_view g) (R_set_node_input_plugs i ps es) →
  toLocalGraphCommand (P_in_graph gid (R_set_node_input_plugs i ps es)) (Some dref) (Some gid) = Some c →
  tracks [c] g (withGraphDocument g (with_doc_nodes (map_id i (set_plugs ps) (d_nodes (g_document g))) (g_document g))).
Proof.
  intros Hs Hu Hk Hl. unfold toLocalGraphCommand in Hl. rewrite in_graph_body in Hl. cbn [mbind option_bind] in Hl. rewrite (sg_nodes _ _ Hs) in Hl.
  destruct (find_id i (nodes (graph_view g))) as [n|] eqn:Hf; [|done]. injection Hl as <-.
  pose proof (graph_view_normal g) as Hv. pose proof (normalize_same _ Hv) as Hsn.
  assert (∃ d', applyGraphCommand (graph_view g) (update_node_configuration_and_input_plugs i (jsopt_or (n_config n) []) ps) = Ok d') as [d' Happ].
  { eexists. apply (plugs_read_back (normalize (graph_view g)) i n ps); [apply normal_normalize| |by rewrite (sg_nodes _ _ Hsn)].
    rewrite normalize_normal by done. destruct Hu. by split. }
  eapply tracks_command; [exact Happ|]. by eapply replay_plugs.
Qed.

Lemma local_tracks g gid body c g' :
  g_id g = gid → (∀ doc, body ≠ R_replace_document doc) →
  toLocalGraphCommand (P_in_graph gid body) (Some (graph_view g)) (Some gid) = Some c →
  applyLocalToGraph (P_in_graph gid body) g = Ok g' → tracks [c] g g'.
Proof.
  intros Hi Hb Hl Hg. pose proof Hg as Hg0. unfold applyLocalToGraph in Hg. fold (graph_view g) in Hg. rewrite Hi, Hl in Hg.
  destruct (applyGraphCommand (graph_view g) c) as [d'|] eqn:Happ; [|done].
  destruct (replay_local g gid body c d' Hi Hb Hl Happ) as (g1 & E & _ & Hs). rewrite Hg0 in E. injection E as ->.
  by eapply tracks_command.
Qed.

Lemma replayed_ref body t : tb_documentRef (replayedPresentation body t) = tb_documentRef t.
Proof. destruct body; try done. cbn. by destruct (d_presentation document). Qed.

(** The part of [replayEntry] for a command inside the open Graph. *)
Definition replayBody (gid : string) (body : RoomGraphBodyCommand) (t : Tab) : option (list GraphCommand) :=
  match body with
  | R_replace_presentation _ | R_move_artifact_viewers _ | R_move_annotations _ => Some []
  | _ => option_map (λ c, [c]) (toLocalGraphCommand (P_in_graph gid body) (Some (tb_documentRef t)) (Some gid))
  end.

Lemma replayEntry_body gid body t : (replayEntry (Some gid) (P_in_graph gid body) t).2 = replayBody gid body t.
Proof.
  cbn [replayEntry]. rewrite bool_decide_false by (intros H; by apply H). destruct body; try done.
  cbn [snd]. by rewrite replayed_ref.
Qed.

(** A command inside the open Graph. *)
Lemma body_tracks dref h gid g body seq h' t cs :
  NoDup (ids (h_graphs h)) → find_id gid (h_graphs h) = Some g → read_right dref g (P_in_graph gid body) → tb_documentRef t = dref →
  applyRoomCommandToHead h (P_in_graph gid body) seq = Ok h' → replayBody gid body t = Some cs →
  ∃ g', find_id gid (h_graphs h') = Some g' ∧ tracks cs g g'.
Proof.
  intros Hnd Hf Hr Ht Happ Hre. pose proof (find_id_Some _ _ _ Hf) as [_ Hi]. change (g_id g = gid) in Hi.
  assert (∀ u, (∀ g g', u g = Ok g' → g_id g' = g_id g) → mapGraphDocument h gid u seq = Ok h' → (∀ g', u g = Ok g' → tracks cs g g') →
    ∃ g', find_id gid (h_graphs h') = Some g' ∧ tracks cs g g') as Hmap.
  { intros u Hu Hm Htr. destruct (mapGraph_inv h gid g u seq h' Hu Hnd Hf Hm) as (g' & Hg & Hf'). eauto. }
  cbn [applyRoomCommandToHead applyInGraphToHead] in Happ. unfold replayBody in Hre. rewrite Ht in Hre.
  destruct (reads_document (P_in_graph gid body)) eqn:Hread.
  - destruct (Hr Hread) as (Hs & Hu & Hk). destruct body; try done; (eapply Hmap; [|exact Happ|]); try (by intros ? ? [= <-]); intros g' [= <-].
    + destruct (toLocalGraphCommand _ _ _) as [c|] eqn:Hl; [|done]. injection Hre as <-. by eapply plugs_track.
    + unfold toLocalGraphCommand in Hre. rewrite in_graph_body in Hre. injection Hre as <-. by apply replace_tracks.
  - rewrite (toLocal_any gid body dref (graph_view g) Hread) in Hre.
    assert (mapGraphDocument h gid (applyLocalToGraph (P_in_graph gid body)) seq = Ok h' →
      option_map (λ c, [c]) (toLocalGraphCommand (P_in_graph gid body) (Some (graph_view g)) (Some gid)) = Some cs →
      ∃ g', find_id gid (h_graphs h') = Some g' ∧ tracks cs g g') as Hlocal.
    { intros Hm Hl. destruct (toLocalGraphCommand _ _ _) as [c|] eqn:El; [|done]. injection Hl as <-.
      eapply Hmap; [|exact Hm|]; [intros ? ?; apply applyLocal_keeps_id|]. intros g' Hg. eapply local_tracks; try done. by intros doc ->. }
    destruct body; try done; try (by apply Hlocal); injection Hre as <-; (eapply Hmap; [|exact Happ|]); try (by intros ? ? [= <-]); intros g' [= <-];
      by apply tracks_nil.
Qed.

(** One entry of an accepted batch. *)
Lemma entry_tracks dref h gid g c seq h' t t' cs :
  NoDup (ids (h_graphs h)) → find_id gid (h_graphs h) = Some g → read_right dref g c → tb_documentRef t = dref →
  applyRoomCommandToHead h c seq = Ok h' → replayEntry (Some gid) c t = (t', Some cs) →
  ∃ g', find_id gid (h_graphs h') = Some g' ∧ tracks cs g g'.
Proof.
  intros Hnd Hf Hr Ht Happ Hre. pose proof (find_id_Some _ _ _ Hf) as [_ Hi]. change (g_id g = gid) in Hi.
  assert (command_graph c ≠ Some gid → cs = [] → ∃ g', find_id gid (h_graphs h') = Some g' ∧ tracks cs g g') as Hother.
  { intros Hc ->. destruct (replay_frame _ _ _ _ Happ) as (_ & _ & _ & Hk). exists g. rewrite Hk by done. split; [done|]. by apply tracks_nil. }
  pose proof Hre as Hre0. destruct c as [nm e|i nm doc|i nm e|i|i n k|i n k q|i body|k]; cbn [replayEntry] in Hre; try done.
  - injection Hre as <- <-. by apply Hother.
  - injection Hre as <- <-. destruct (decide (i = gid)) as [->|Hne]; [|rewrite bool_decide_false in * by congruence; apply Hother; cbn; congruence].
    rewrite bool_decide_true by done. cbn in Happ. injection Happ as <-. cbn [h_graphs with_sequence with_graphs].
    eexists. split; [by apply (find_id_map_id (A := GraphDefinition))|].
    intros d Hd Hs. eexists. split; [reflexivity|]. split; [by destruct Hd|]. split; cbn; [done|apply Hs..].
  - destruct (decide (i = gid)) as [->|Hne]; cycle 1.
    { rewrite bool_decide_true in Hre by congruence. injection Hre as <- <-. apply Hother; cbn; congruence. }
    eapply body_tracks; [done..|]. by rewrite <- replayEntry_body, Hre0.
Qed.

(** ** Batches *)

(** What the replay of entries leaves alone. *)
Record entries_frame (t t' : Tab) : Prop := {
  ef_authoring : tb_authoring t' = tb_authoring t;
  ef_documentRef : tb_documentRef t' = tb_documentRef t;
  ef_openGraph : tb_openGraphIdRef t' = tb_openGraphIdRef t;
  ef_project : tb_projectId t' = tb_projectId t
}.

#[export] Instance entries_frame_preorder : PreOrder entries_frame.
Proof. split; [by split|]. intros t1 t2 t3 [] []. split; congruence. Qed.

Lemma replayEntry_frame gid c t : entries_frame t (replayEntry gid c t).1.
Proof.
  destruct c as [| | | | | |i body|]; cbn [replayEntry]; try reflexivity. case_bool_decide; [reflexivity|]. destruct body; try (by split).
  cbn. destruct (d_presentation document); by split.
Qed.

Lemma replayEntries_frame gid cs t : entries_frame t (replayEntries gid cs t).1.
Proof.
  revert t. induction cs as [|c cs IH]; intros t; cbn [replayEntries]; [reflexivity|]. pose proof (replayEntry_frame gid c t) as Hf.
  destruct (replayEntry gid c t) as [t1 [l|]]; [|done]. specialize (IH t1). destruct (replayEntries gid cs t1) as [t2 r]. by transitivity t1.
Qed.

(** Only the first command of the batch is read off the document. *)
Definition steady (cs : list RoomProjectCommand) : Prop := Forall (λ c, reads_document c = false) (tail cs).

Lemma rest_tracks dref cs h gid g seq h' t t' l :
  Forall (λ c, reads_document c = false) cs → NoDup (ids (h_graphs h)) → find_id gid (h_graphs h) = Some g → tb_documentRef t = dref →
  applyRoomCommandsToHead h cs seq = Ok h' → replayEntries (Some gid) cs t = (t', Some l) →
  ∃ g', find_id gid (h_graphs h') = Some g' ∧ tracks l g g'.
Proof.
  intros Hs. revert h g t l. induction Hs as [|c cs Hc _ IH]; intros h g t l Hnd Hf Ht Happ Hre; cbn [replayEntries] in Hre.
  { injection Happ as <-. injection Hre as <- <-. exists g. split; [done|]. by apply tracks_nil. }
  unfold applyRoomCommandsToHead in Happ. cbn [res_fold] in Happ. destruct (applyRoomCommandToHead h c seq) as [h1|] eqn:E1; [|done]. cbn in Happ.
  pose proof (replayEntry_frame (Some gid) c t) as Hfr. destruct (replayEntry (Some gid) c t) as [t1 [l1|]] eqn:Er; [|done]. cbn [fst] in Hfr.
  destruct (replayEntries (Some gid) cs t1) as [t2 r] eqn:Ers. injection Hre as -> Hr. destruct r as [l2|]; [|done]. injection Hr as <-.
  destruct (entry_tracks dref h gid g c seq h1 t t1 l1) as (g1 & Hf1 & Ht1); try done. { by intros; congruence. }
  destruct (IH h1 g1 t1 l2) as (g2 & Hf2 & Ht2); try done.
  { destruct (replay_frame _ _ _ _ E1) as (_ & _ & Hn & _). auto. }
  { by rewrite (ef_documentRef _ _ Hfr). }
  exists g2. split; [done|]. by eapply tracks_app.
Qed.

Lemma batch_tracks cs h gid g seq h' t t' l :
  steady cs → (∀ c, head cs = Some c → read_right (tb_documentRef t) g c) → NoDup (ids (h_graphs h)) → find_id gid (h_graphs h) = Some g →
  applyRoomCommandsToHead h cs seq = Ok h' → replayEntries (Some gid) cs t = (t', Some l) →
  ∃ g', find_id gid (h_graphs h') = Some g' ∧ tracks l g g'.
Proof.
  intros Hst Hr Hnd Hf Happ Hre. destruct cs as [|c cs]; [by eapply rest_tracks|]. cbn [steady tail] in Hst. cbn [replayEntries] in Hre.
  unfold applyRoomCommandsToHead in Happ. cbn [res_fold] in Happ. destruct (applyRoomCommandToHead h c seq) as [h1|] eqn:E1; [|done]. cbn in Happ.
  destruct (replayEntry (Some gid) c t) as [t1 [l1|]] eqn:Er; [|done].
  destruct (replayEntries (Some gid) cs t1) as [t2 r] eqn:Ers. injection Hre as -> Hre. destruct r as [l2|]; [|done]. injection Hre as <-.
  destruct (entry_tracks (tb_documentRef t) h gid g c seq h1 t t1 l1) as (g1 & Hf1 & Ht1); try done. { by apply Hr. }
  destruct (rest_tracks (tb_documentRef t1) cs h1 gid g1 seq h' t1 t' l2) as (g2 & Hf2 & Ht2); try done.
  { destruct (replay_frame _ _ _ _ E1) as (_ & _ & Hn & _). auto. }
  exists g2. split; [done|]. by eapply tracks_app.
Qed.

(** The reducer applies a batch that every command of which applies. *)
Lemma reduce_ok a cs d' :
  res_fold applyGraphCommandNormalized (normalize (st_document a)) cs = Ok d' →
  st_document (reduceWorkbenchAuthoringState a (apply_commands cs)) = d' ∧ st_error (reduceWorkbenchAuthoringState a (apply_commands cs)) = None.
Proof.
  intros H. cbn [reduceWorkbenchAuthoringState]. fold (normalize (st_document a)).
  destruct (res_fold authoringStep (normalize (st_document a), []) cs) as [[d1 inv]|m] eqn:E.
  - apply authoringSteps_document in E. rewrite H in E. injection E as ->. done.
  - apply authoringSteps_throw in E. congruence.
Qed.

(** A replayed batch is not blocked and is not sent back. *)
Lemma replayed_batch cs t :
  document (applyAuthoringCommands cs false t).1 = (match cs with [] => document t | _ => st_document (reduceWorkbenchAuthoringState (tb_authoring t) (apply_commands cs)) end) ∧
  (applyAuthoringCommands cs false t).2 = [].
Proof. destruct cs; done. Qed.

(** ** A canvas and the confirmed head *)

(** A rendered tab whose canvas shows the Graph [gid] of the head [h]. *)
Record in_step (t : Tab) (h : CollaborativeHead) (gid : string) (g : GraphDefinition) : Prop := {
  is_project : ∃ p, tb_projectId t = Some p ∧ p ≠ "";
  is_open : tb_openGraphIdRef t = Some gid;
  is_rendered : tb_documentRef t = document t;
  is_normal : normal (document t);
  is_graphs : NoDup (ids (h_graphs h));
  is_found : find_id gid (h_graphs h) = Some g;
  is_shown : same_graph (document t) (graph_view g)
}.

(** The plugs that the batch's first command leaves serve every connection at their node. *)
Definition first_keeps_ends (g : GraphDefinition) (cs : list RoomProjectCommand) : Prop :=
  match cs with P_in_graph _ body :: _ => plugs_keep_ends (graph_view g) body | _ => True end.

(** C23: a canvas follows its room.  Where a canvas shows a Graph of the confirmed head and the
    head takes an accepted batch of another tab, the canvas replays the batch without an error
    and shows that Graph of the new head, or it leaves its document as it is and asks for the
    whole head.  Only the first command of the batch may be one whose local form is read off
    the document: see [rename_with_a_save_is_lost] and [late_render_reverts_a_change]; and it
    takes no plug away from a connection: see [plug_replay_leaves_dangling_ends]. *)
Theorem canvas_follows_the_room t h gid g cs seq h' :
  in_step t h gid g → unique_ids (graph_view g) → steady cs → first_keeps_ends g cs →
  applyRoomCommandsToHead h cs seq = Ok h' →
  let r := onCommandAccepted cs false t in
  (r.2 = [FetchHead None] ∧ document r.1 = document t) ∨
  (r.2 = [] ∧ ∃ g', find_id gid (h_graphs h') = Some g' ∧ normal (document r.1) ∧ same_graph (document r.1) (graph_view g')).
Proof.
  intros [(p & Hp & Hne) Hop Href Hn Hnd Hf Hs] Hu Hst Hk Happ. cbv zeta. unfold onCommandAccepted. rewrite Hop.
  pose proof (replayEntries_frame (Some gid) cs t) as [Ha Hr Ho Hpr].
  destruct (replayEntries (Some gid) cs t) as [t1 [l|]] eqn:Ere; cbn [fst] in *; cycle 1.
  { left. unfold refreshCollaborativeHead, looking. rewrite Hpr, Hp, bool_decide_false by done. split; [done|]. unfold document, call. cbn. by rewrite Ha. }
  right. destruct (batch_tracks cs h gid g seq h' t t1 l) as (g' & Hf' & Ht); try done.
  { intros c Hc Hread. rewrite Href. split_and!; [done..|]. destruct cs as [|c' cs]; [done|]. injection Hc as ->. by destruct c. }
  destruct (replayed_batch l t1) as [-> ->]. split; [done|]. exists g'. split; [done|]. destruct l as [|c l].
  - destruct (Ht (document t) Hn Hs) as (d' & [= <-] & ? & ?). unfold document. by rewrite Ha.
  - destruct (Ht (normalize (document t)) (normal_normalize _)) as (d' & Hd & Hn' & Hs'). { transitivity (document t); [by apply normalize_same|done]. }
    rewrite Ha. by rewrite (proj1 (reduce_ok (tb_authoring t) (c :: l) d' Hd)).
Qed.

(** ** From one tab to another *)

(** A tab that may edit the Graph [gid] of a room that takes commands. *)
Record may_author (t : Tab) (gid : string) : Prop := {
  ma_enabled : tb_enabledRef t = true;
  ma_submit : tb_canSubmit t = true;
  ma_open : tb_openGraphIdRef t = Some gid;
  ma_rendered : tb_documentRef t = document t
}.

Lemma gesture_calls t gid c r :
  may_author t gid → toRoomGraphCommand c (document t) gid = Ok r →
  (applyAuthoringCommands [c] true t).2 = match r with Some rc => [SubmitBatch [rc] "Collaborative sync failed."] | None => [] end.
Proof.
  intros [He Hsub Hop Href] Hr. unfold applyAuthoringCommands, looking, shouldBlockAuthoringCommand. rewrite He. cbn [negb].
  unfold andAlso, change. cbn. rewrite Href. unfold submitLocal, looking, roomBatch. cbn. rewrite Hop. cbn [res_map]. rewrite Hr. cbn.
  destruct r; [|done]. cbn. unfold submitRoomCommands, looking. cbn. by rewrite Hsub.
Qed.

Lemma submitLocal_frame cs before t :
  tb_authoring (submitLocal cs before t).1 = tb_authoring t ∧ tb_cards (submitLocal cs before t).1 = tb_cards t.
Proof.
  unfold submitLocal, looking. destruct (tb_openGraphIdRef t); [|done]. destruct (roomBatch _ _ _) as [[|]|]; try done.
  unfold submitRoomCommands, looking. by destruct (tb_canSubmit t).
Qed.

Lemma gesture_state t cs :
  cs ≠ [] → tb_enabledRef t = true →
  tb_authoring (applyAuthoringCommands cs true t).1 = reduceWorkbenchAuthoringState (tb_authoring t) (apply_commands cs) ∧
  tb_cards (applyAuthoringCommands cs true t).1 = pruneCards cs (tb_cards t).
Proof.
  intros Hcs He. destruct cs as [|c cs]; [done|]. unfold applyAuthoringCommands, looking, shouldBlockAuthoringCommand. rewrite He. cbn [negb].
  unfold andAlso, change. match goal with |- context [submitLocal ?a ?b ?x] => pose proof (submitLocal_frame a b x) as [Hs Hc]; destruct (submitLocal a b x) end.
  cbn [fst] in *. by rewrite Hs, Hc.
Qed.

Lemma gesture_document t gid cs d' :
  cs ≠ [] → may_author t gid → res_fold applyGraphCommandNormalized (normalize (document t)) cs = Ok d' →
  document (applyAuthoringCommands cs true t).1 = d'.
Proof.
  intros Hcs [He _ _ _] Hd. unfold document at 1. destruct (gesture_state t cs Hcs He) as [-> _]. apply (reduce_ok (tb_authoring t) cs d' Hd).
Qed.

(** A command of the open Graph that has a local form is replayed by it alone. *)
Lemma replayed_command t gid rc c d' :
  tb_openGraphIdRef t = Some gid → toLocalGraphCommand rc (Some (tb_documentRef t)) (Some gid) = Some c →
  applyGraphCommand (document t) c = Ok d' →
  (onCommandAccepted [rc] false t).2 = [] ∧ document (onCommandAccepted [rc] false t).1 = d'.
Proof.
  intros Hop Hl Happ. unfold onCommandAccepted. rewrite Hop. cbn [replayEntries].
  pose proof (replayEntry_frame (Some gid) rc t) as [Ha _ _ _].
  assert ((replayEntry (Some gid) rc t).2 = Some [c]) as Hre.
  { destruct rc as [| | | | | |i body|]; try done. assert (i = gid) as ->. { unfold toLocalGraphCommand, inGraphBody in Hl. by case_bool_decide. }
    rewrite replayEntry_body. unfold replayBody. rewrite Hl. unfold toLocalGraphCommand in Hl. rewrite in_graph_body in Hl. by destruct body. }
  destruct (replayEntry (Some gid) rc t) as [t1 o]. cbn [fst snd] in *. subst o. cbn [option_map app].
  destruct (replayed_batch [c] t1) as [Hd Hc]. rewrite Hd, Hc, Ha. split; [done|]. apply reduce_ok. cbn [res_fold].
  change (applyGraphCommandNormalized (normalize (st_document (tb_authoring t))) c) with (applyGraphCommand (document t) c). by rewrite Happ.
Qed.

Lemma replayed_rename t gid nm e :
  tb_openGraphIdRef t = Some gid →
  (onCommandAccepted [P_rename_graph gid nm e] false t).2 = [] ∧
  document (onCommandAccepted [P_rename_graph gid nm e] false t).1 = with_name nm (normalize (document t)).
Proof. intros Hop. unfold onCommandAccepted. rewrite Hop. cbn [replayEntries replayEntry]. rewrite bool_decide_true by done. done. Qed.

(** C16: an edit of one tab reaches the others.  Where two tabs show the same document of a
    Graph and one of them makes an edit that its document takes, the tab shows the result and
    either hands the room nothing, for the edit changed nothing, or hands it one command, and
    the other tab, when it hears that the room accepted the command, shows the same result
    without another call.  (Edge updates that rewire and replacements that rename are outside:
    see [edge_rewire_is_lost] and [rename_with_a_save_is_lost].) *)
Theorem edit_reaches_the_other_tabs a b gid c d' :
  normal (document a) → unique_ids (document a) → refs_ok (document a) → command_travels (document a) c → applyGraphCommand (document a) c = Ok d' →
  may_author a gid → tb_openGraphIdRef b = Some gid → tb_documentRef b = document b → document b = document a →
  let r := applyAuthoringCommands [c] true a in
  document r.1 = d' ∧
  ((r.2 = [] ∧ same_graph d' (document a)) ∨
   ∃ rc, r.2 = [SubmitBatch [rc] "Collaborative sync failed."] ∧
     (onCommandAccepted [rc] false b).2 = [] ∧ document (onCommandAccepted [rc] false b).1 = d').
Proof.
  intros Hn Hu Hr Hc Happ Ha Hop Href Hab. cbv zeta. split.
  { apply (gesture_document a gid [c] d'); [done..|]. cbn [res_fold].
    change (applyGraphCommandNormalized (normalize (document a)) c) with (applyGraphCommand (document a) c). by rewrite Happ. }
  destruct (wire_round_trip (document a) c d' gid Hn Hu Hr Hc Happ) as [(nm & -> & Hroom)|[(rc & c' & Hroom & Hl & Hc')|[Hroom ->]]];
    rewrite (gesture_calls a gid _ _ Ha Hroom).
  - right. eexists. split; [done|]. destruct (replayed_rename b gid nm (name (document a)) Hop) as [-> ->]. split; [done|]. rewrite Hab.
    by injection Happ.
  - right. exists rc. split; [done|]. apply (replayed_command b gid rc c'); [done|by rewrite Href, Hab|by rewrite Hab].
  - left. split; [done|]. by apply normalize_same.
Qed.

(** ** Card links *)

Definition removed_by (c : GraphCommand) : list string := match c with remove_nodes l => l | _ => [] end.

(** Only [remove_nodes] and [replace_document] take nodes away. *)
Lemma nodes_stay d c d' i :
  (∀ doc, c ≠ replace_document doc) → applyGraphCommandNormalized d c = Ok d' → i ∈ ids (nodes d) → i ∉ removed_by c → i ∈ ids (nodes d').
Proof.
  intros Hd H Hi Hr. destruct c; simpl in H;
    try (by apply updateNode_ids in H; [rewrite H|intros; res_inv]);
    try (destruct (some_id _ _) eqn:Hs; [discriminate|]); res_inv; try done.
  - cbn. unfold ids. rewrite fmap_app. apply elem_of_app. by left.
  - by apply (ids_remove_ids (A := GraphNode)).
  - unfold applyMoveNodes in H. res_inv. simpl. rewrite (ids_fmap_same (A := GraphNode)); [done|]. intros n. by case_match.
  - unfold applyRemoveInputPlug in H. res_inv. apply updateNode_ids in E; [|by intros; res_inv]. simpl. by rewrite E.
  - unfold applyConfigurationAndInputPlugs in H. res_inv. apply updateNode_ids in E; [|by intros; res_inv]. simpl. by rewrite E.
  - unfold applyUpdateEdge in H. by res_inv.
  - unfold applyUpdateOrigin in H. by res_inv.
  - unfold applyConfigureAgent in H. by res_inv.
  - by destruct (Hd document).
Qed.

(** Every link of the cards starts at a node of the document. *)
Definition links_rooted (cards : ArtifactViewerCanvasState) (d : AuthoredGraphDocument) : Prop := ∀ e, e ∈ vs_edges cards → vx_source e ∈ ids (nodes d).

Lemma prune_rooted cs cards d d' :
  (∀ doc, replace_document doc ∉ cs) → links_rooted cards d → res_fold applyGraphCommandNormalized d cs = Ok d' → links_rooted (pruneCards cs cards) d'.
Proof.
  revert cards d. induction cs as [|c cs IH]; intros cards d Hno Hl H; cbn [res_fold] in H; [by injection H as <-|].
  destruct (applyGraphCommandNormalized d c) as [d1|] eqn:E; [|done]. cbn in H. unfold pruneCards. cbn [foldl].
  eapply (IH _ d1); [intros doc Hin; apply (Hno doc); by right| |done]. intros e He.
  assert (e ∈ vs_edges cards ∧ vx_source e ∉ removed_by c) as [Hin Hr].
  { destruct c; cbn [removed_by]; try (split; [done|by apply not_elem_of_nil]). cbn in He. by apply list_elem_of_filter in He as [? ?]. }
  eapply nodes_stay; [|exact E|by apply Hl|done]. intros doc ->. apply (Hno doc). by left.
Qed.

(** A batch that the document takes leaves no card linked to a node that is gone, whichever
    gesture or other tab it comes from. *)
Theorem links_go_with_their_nodes t gid cs d' :
  may_author t gid → cs ≠ [] → (∀ doc, replace_document doc ∉ cs) → links_rooted (tb_cards t) (document t) →
  res_fold applyGraphCommandNormalized (normalize (document t)) cs = Ok d' →
  links_rooted (tb_cards (applyAuthoringCommands cs true t).1) (document (applyAuthoringCommands cs true t).1).
Proof.
  intros Ha Hcs Hno Hl Hd. rewrite (gesture_document t gid cs d' Hcs Ha Hd).
  destruct (gesture_state t cs Hcs (ma_enabled _ _ Ha)) as [_ ->].
  eapply prune_rooted; [done| |done]. intros e He. destruct (normalize_ids (document t)) as (-> & _). by apply Hl.
Qed.

(** ** A concrete tab *)

Definition sample_authoring : WorkbenchAuthoringState := {| st_document := graph_view sample_graph; st_nodeOverlays := ∅; st_error := None |}.

Definition sample_link : ArtifactViewerEdge :=
  {| vx_id := "l"; vx_source := "a"; vx_target := "v"; vx_targetHandle := None; vx_data := None |}.

Definition sample_tab : Tab :=
  {| tb_authoring := sample_authoring; tb_documentRef := graph_view sample_graph; tb_rendered := graph_view sample_graph; tb_positionOverrides := ∅;
     tb_selectedNodeIds := ["a"]; tb_selectedEdgeIds := []; tb_cards := {| vs_nodes := []; vs_edges := [sample_link]; vs_bindings := []; vs_annotations := [] |};
     tb_pendingRoute := None; tb_runError := None; tb_enabledRef := true; tb_blockedMessageRef := ""; tb_unsyncedRoomEdits := false;
     tb_projectId := Some "project-1"; tb_openGraphIdRef := Some "g"; tb_projectRoomHeadRef := Some sample_head; tb_canSubmit := true; tb_headRefreshRetry := None; tb_pendingBoundEdges := [] |}.

Lemma sample_view_normal : normal (graph_view sample_graph).
Proof. apply graph_view_normal. Qed.

Lemma sample_view : graph_view sample_graph = sample_doc.
Proof. reflexivity. Qed.

Lemma sample_in_step : in_step sample_tab sample_head "g" sample_graph.
Proof.
  split; try done; [by exists "project-1"|apply sample_view_normal|by_decide].
Qed.

Lemma canvas_follows_the_room_witness :
  ∃ h' g', applyRoomCommandsToHead sample_head [P_in_graph "g" (R_remove_nodes ["a"]); P_rename_graph "g" "other" "graph"] 5 = Ok h' ∧
    find_id "g" (h_graphs h') = Some g' ∧
    same_graph (document (onCommandAccepted [P_in_graph "g" (R_remove_nodes ["a"]); P_rename_graph "g" "other" "graph"] false sample_tab).1) (graph_view g').
Proof.
  eexists. destruct (canvas_follows_the_room sample_tab sample_head "g" sample_graph [P_in_graph "g" (R_remove_nodes ["a"]); P_rename_graph "g" "other" "graph"] 5
    (match applyRoomCommandsToHead sample_head [P_in_graph "g" (R_remove_nodes ["a"]); P_rename_graph "g" "other" "graph"] 5 with Ok h => h | Throw _ => sample_head end))
    as [[Hno _]|(_ & g' & Hf & _ & Hs)];
    [apply sample_in_step|rewrite sample_view; apply sample_unique|by repeat constructor|exact I|reflexivity|discriminate Hno|].
  exists g'. split_and!; [reflexivity|exact Hf|exact Hs].
Defined.

Lemma edit_reaches_the_other_tabs_witness :
  ∃ rc, (applyAuthoringCommands [remove_input_plug "b" "p"] true sample_tab).2 = [SubmitBatch [rc] "Collaborative sync failed."] ∧
    edges (document (onCommandAccepted [rc] false sample_tab).1) = [].
Proof.
  destruct (edit_reaches_the_other_tabs sample_tab sample_tab "g" (remove_input_plug "b" "p")
    (match applyGraphCommand sample_doc (remove_input_plug "b" "p") with Ok d => d | Throw _ => sample_doc end))
    as [_ [[Hno _]|(rc & Hc & _ & Hd)]];
    [exact sample_view_normal|exact sample_unique|exact sample_refs|exact I|reflexivity|by split|reflexivity..|discriminate Hno|].
  exists rc. split; [exact Hc|]. by rewrite Hd.
Defined.

(** ** What goes wrong *)

(** A save of a renamed Graph sends the name and the document in one batch.  The head takes
    both; another canvas reads the document's name off its own document, before the rename, and
    keeps the old name. *)
Definition renamed_draft : GraphDraft := createGraphDraft (with_name "renamed" sample_doc) Undef.

Theorem rename_with_a_save_is_lost :
  let batch := saveBatch renamed_draft "g" "graph" in
  ∃ h' g', applyRoomCommandsToHead sample_head batch 5 = Ok h' ∧ find_id "g" (h_graphs h') = Some g' ∧ name (graph_view g') = "renamed" ∧
    (onCommandAccepted batch false sample_tab).2 = [] ∧ name (document (onCommandAccepted batch false sample_tab).1) = "graph".
Proof. do 2 eexists. split_and!; reflexivity. Qed.

(** Two batches that arrive between two renders: the second reads the configuration of its node
    off the document before the first, and puts it back. *)
Definition change_configuration : RoomProjectCommand := P_in_graph "g" (R_update_node_configuration "b" "limit" (JBool true) JNull).
Definition change_plugs : RoomProjectCommand := P_in_graph "g" (R_set_node_input_plugs "b" [plug_p; plug_q] ["p"; "q"]).

Definition configuration_of (d : AuthoredGraphDocument) : option jsval :=
  n ← find_id "b" (nodes d); Some (obj_get "limit" (jsopt_or (n_config n) [])).

Theorem late_render_reverts_a_change :
  ∃ h1 h2 g2, applyRoomCommandsToHead sample_head [change_configuration] 5 = Ok h1 ∧ applyRoomCommandsToHead h1 [change_plugs] 6 = Ok h2 ∧
    find_id "g" (h_graphs h2) = Some g2 ∧ configuration_of (graph_view g2) = Some (JBool true) ∧
    configuration_of (document ((onCommandAccepted [change_configuration] false ;>> onCommandAccepted [change_plugs] false) sample_tab).1) = Some JUndefined.
Proof. do 3 eexists. split_and!; reflexivity. Qed.

(** A batch that the document refuses is still taken out of the cards and sent to the room. *)
Definition refused_batch : list GraphCommand := [remove_nodes ["a"]; update_node_layout "missing" Null].

Theorem refused_batch_still_leaves :
  let r := applyAuthoringCommands refused_batch true sample_tab in
  document r.1 = document sample_tab ∧ is_Some (st_error (tb_authoring r.1)) ∧ vs_edges (tb_cards r.1) = [] ∧
  r.2 = [SubmitBatch [P_in_graph "g" (R_remove_nodes ["a"])] "Collaborative sync failed."].
Proof. cbv zeta. split_and!; try reflexivity. by eexists. Qed.

(** The selection is filtered by the document before the batch: a removed node stays in it. *)
Theorem removed_node_stays_selected :
  let t := (applyAuthoringCommands [remove_nodes ["a"]] true sample_tab).1 in
  "a" ∉ ids (nodes (document t)) ∧ tb_selectedNodeIds t = ["a"].
Proof. cbv zeta. split; [by_decide|reflexivity]. Qed.
