(* ===== verification/ConnectingTheory.v ===== *)
(** * Theorems of Connecting

    A wire drawn between two nodes authors an edge that fits on the canvas; an edge that waits
    for a binding is authored once its node is measured; and what the canvas forgets on the way:
    the reason of a refusal and the question which feed to take. *)

From Stdlib Require Import Ascii.
From stdpp Require Import numbers list.
From S2P Require Import Prelude Js JsNum JsText GraphModel GraphCommands GraphTheory RoomBridge AuthoringState Handles Routes RoutesTheory Canvas Connections InputPlugs NodeLayout ConfigSchema.
From S2P Require Import ArtifactCards ArtifactDrop Hydration Viewers Grouping Collections Feeds CardConnections RoomSync RoomSyncTheory Connecting.
#[local] Open Scope nat_scope.
#[local] Open Scope tab_scope.

(** ** Handles of a wire *)

(** The handles the canvas writes; types that a handle can carry. *)
Definition handle_written (h : option string) : Prop := ∃ p, handle_ok p ∧ h = Some (encodeHandleId p).

Definition carried (t : ArtifactTypeIdentity) : Prop := lacks ":"%char (ty_id t) ∧ safe (ty_schema_version t).

(** The port and the plug that a handle names. *)
Definition handleEnd (h : option string) : option (string * option string) := (λ p, (portName p, plugId p)) <$> decodeHandleId h.

Lemma without_feed_ok p : handle_ok p → handle_ok (without_feed p).
Proof. intros [H1 H2 H3 H4 H5]. by split. Qed.

Lemma canonical_written h : handle_written h → handle_written (canonicalHandleId h) ∧ handleEnd (canonicalHandleId h) = handleEnd h.
Proof.
  intros (p & Hp & ->). unfold canonicalHandleId. rewrite decode_encoded by done. destruct (feed p); [|split; [by exists p|done]].
  split; [exists (without_feed p); split; [by apply without_feed_ok|done]|]. unfold handleEnd. by rewrite !decode_encoded by auto using without_feed_ok.
Qed.

Lemma concrete_end h p t : handle_written h → decodeHandleId h = Some p → carried t → handleEnd (Some (concreteHandle p t)) = handleEnd h.
Proof.
  intros (q & Hq & ->) Hd [Hi Hv]. rewrite decode_encoded in Hd by done. injection Hd as ->. unfold handleEnd, concreteHandle.
  assert (truthy (plugId p) = plugId p) as Hplug.
  { destruct (plugId p) as [k|] eqn:Hk; [|done]. cbn. destruct (ho_plug p Hq k Hk) as [Hne _]. by rewrite bool_decide_false. }
  rewrite Hplug, !decode_encoded; [done|done|]. destruct Hq. by split.
Qed.

(** ** What a new edge joins *)

(** The connection with its ends, whatever its handles say of types. *)
Definition wireEnds (c : CanvasConnection) : string * string * option (string * option string) := (cn_source c, cn_target c, handleEnd (cn_targetHandle c)).

Lemma bindConnection_ends nodes c b c' new :
  handle_written (cn_targetHandle c) → carried (rb_artifactType b) → bindConnection nodes c b = Some (c', new) → wireEnds c' = wireEnds c.
Proof.
  intros Ht Hc. unfold bindConnection. destruct (rb_endpoint b) eqn:He.
  - destruct (decodeHandleId _) as [h|]; cbn [mbind option_bind]; [|done]. destruct (find_id _ nodes); cbn [mbind option_bind]; [|done].
    destruct (_ || _); [done|]. by intros [= <- _].
  - destruct (decodeHandleId (cn_targetHandle c)) as [h|] eqn:Hd; cbn [mbind option_bind]; [|done]. destruct (find_id _ nodes); cbn [mbind option_bind]; [|done].
    destruct (_ || _); [done|]. intros [= <- _]. unfold wireEnds. cbn [cn_source cn_target cn_targetHandle]. by rewrite (concrete_end (cn_targetHandle c) h).
Qed.

Lemma addEdgeCommand_inv c data i cmd :
  addEdgeCommand c (Some data) i = Ok cmd →
  ∃ e, cmd = add_edge e ∧ e_id e = i ∧ e_from_node e = cn_source c ∧ e_to_node e = cn_target c ∧
    handleEnd (cn_targetHandle c) = Some (e_to_port e, jsopt_to_option (e_to_plug e)) ∧ e_collection_mode e = ed_collectionMode data.
Proof.
  unfold addEdgeCommand, handleEnd. destruct (decodeHandleId (cn_sourceHandle c)) as [s|]; [|done]. destruct (decodeHandleId (cn_targetHandle c)) as [p|]; [|done].
  destruct (_ || _); [done|]. intros [= <-]. eexists. split_and!; try done. cbn. by destruct (plugId p).
Qed.

Lemma newEdge_inv nodes c mode route i cmd :
  handle_written (cn_targetHandle c) → (∀ b, routeBinding route = Some b → carried (rb_artifactType b)) →
  newWorkflowEdge nodes c mode route i = Ok (Some (edge_now cmd)) →
  ∃ e, cmd = add_edge e ∧ e_id e = i ∧ wireEnds c = (e_from_node e, e_to_node e, Some (e_to_port e, jsopt_to_option (e_to_plug e))) ∧ e_collection_mode e = mode.
Proof.
  intros Ht Hb. assert (∀ c', wireEnds c' = wireEnds c → (x ← addEdgeCommand c' (Some (routeEdgeData mode route)) i; Ok (Some (edge_now x))) = Ok (Some (edge_now cmd)) →
    ∃ e, cmd = add_edge e ∧ e_id e = i ∧ wireEnds c = (e_from_node e, e_to_node e, Some (e_to_port e, jsopt_to_option (e_to_plug e))) ∧ e_collection_mode e = mode) as Hadd.
  { intros c' Hc'. destruct (addEdgeCommand _ _ _) as [x|] eqn:Hx; cbn; [|done]. intros [= ->].
    apply addEdgeCommand_inv in Hx as (e & -> & Hi & Hs & Hto & Hend & Hm). exists e. rewrite <- Hc'. unfold wireEnds. rewrite Hs, Hto, Hend. done. }
  unfold newWorkflowEdge. destruct (routeBinding route) as [b|] eqn:Eb; [|by apply Hadd].
  destruct (bindConnection nodes c b) as [[c' new]|] eqn:Ec; [|done].
  assert (wireEnds c' = wireEnds c) as Hc' by (eapply bindConnection_ends; eauto).
  destruct new as [n|]; [|by apply Hadd]. case_bool_decide; [by apply Hadd|done].
Qed.

(** ** A wire between nodes *)

Definition node_wire (c : CanvasConnection) : Prop := fromCard c = false ∧ bindsCards c = false ∧ intoCard c = false.

(** The canvas edge that shows an edge of the document. *)
Definition shows_edge (e : GraphEdge) (w : WorkflowEdge) : Prop :=
  we_id w = e_id e ∧ we_source w = e_from_node e ∧ we_target w = e_to_node e ∧ edgePort w = Some (e_to_port e) ∧
  edgePlug w = jsopt_to_option (e_to_plug e) ∧ we_collectionMode w = Some (e_collection_mode e).

Section wires.
Context (localeCompare : string → string → Z).
Notation accepted := (isConnectionAccepted localeCompare).
Notation onConnect := (onConnect localeCompare).

(** The types that a wire may bind can be written in a handle. *)
Definition binds_carried (r : CanvasRender) (c : CanvasConnection) : Prop :=
  ∀ route b, route ∈ connectionRoutesFor localeCompare (cn_handles (canonicalConnection c)) (artifactTypesOf r) (conversionsOf r) →
    routeBinding route = Some b → carried (rb_artifactType b).

Lemma preferred_in routes route : preferredWholeFeedRoute routes = Some route → route ∈ routes.
Proof.
  unfold preferredWholeFeedRoute. destruct (find isWholeFeedRoute routes) as [x|] eqn:Hf.
  - intros [= <-]. apply find_some in Hf as [Hin _]. by apply list_elem_of_In.
  - destruct routes; [done|]. intros [= <-]. by left.
Qed.

Lemma candidate_in r c source route :
  route ∈ connectionCandidates localeCompare r c source →
  route ∈ connectionRoutesFor localeCompare (cn_handles (canonicalConnection c)) (artifactTypesOf r) (conversionsOf r).
Proof. unfold connectionCandidates, orderFeedRoutes. rewrite elem_of_js_sort. apply a_handle_keeps_a_route. Qed.

(** A wire between nodes does nothing, or authors one new edge for an accepted connection and
    then asks. *)
Lemma onConnect_nodes r c t uuid originUuid :
  node_wire c →
  onConnect r c uuid originUuid t = doNothing t ∨
  ∃ mode route k, accepted c (cr_nodes r) (cr_edges r) (artifactTypesOf r) (conversionsOf r) None (origins (tb_rendered t)) = true ∧
    collectionModeForConnection c (cr_nodes r) (cr_edges r) (origins (tb_rendered t)) = Some mode ∧
    route ∈ connectionRoutesFor localeCompare (cn_handles (canonicalConnection c)) (artifactTypesOf r) (conversionsOf r) ∧
    (∀ i, k i = doNothing ∨ ∃ q, k i = change (setPendingRoute q)) ∧
    onConnect r c uuid originUuid t = addWorkflowEdge r (canonicalConnection c) mode route uuid k t.
Proof.
  intros (Hcard & Hbind & Hinto). unfold Connecting.onConnect, looking. rewrite Hcard, Hbind, Hinto. unfold isValidConnection. rewrite Hcard, Hbind, Hinto. cbn [andb].
  destruct (_ || _); [by left|]. destruct (accepted _ _ _ _ _ _ _) eqn:Hacc; [|by left]. cbn [negb]. unfold connectNodes, looking.
  destruct (collectionModeForConnection _ _ _ _) as [mode|] eqn:Hm; [|by left].
  destruct (decodeHandleId (cn_sourceHandle c)) as [s|]; [|by left]. destruct (decodeHandleId (cn_targetHandle c)) as [p|]; [|by left].
  destruct (preferredWholeFeedRoute _) as [route|] eqn:Hr; [|by left]. right.
  exists mode, route, (askForFeed r c mode (connectionCandidates localeCompare r c s) s p). split_and!; try done.
  - by eapply candidate_in, preferred_in.
  - intros i. unfold askForFeed. destruct (_ <=? _); [by left|]. destruct (find_id (cn_source c) (cr_nodes r)), (find_id (cn_target c) (cr_nodes r)); try (by left). right. by eexists.
Qed.

(** ** What an authored edge does to the document *)

Lemma clearRunError_document t : document (clearRunError t).1 = document t.
Proof. done. Qed.

Lemma then_document a b t : (∀ x, document (b x).1 = document x) → document ((a ;>> b) t).1 = document (a t).1.
Proof. intros Hb. unfold andAlso. destruct (a t) as [t1 c1]. specialize (Hb t1). destruct (b t1). done. Qed.

Lemma after_change f a t : ((change f ;>> a) t).1 = (a (f t)).1.
Proof. unfold andAlso, change. by destruct (a (f t)). Qed.

Lemma refused_document cs t : tb_enabledRef t = false → document (applyAuthoringCommands cs true t).1 = document t.
Proof. intros He. destruct cs; [done|]. unfold applyAuthoringCommands, looking, shouldBlockAuthoringCommand. by rewrite He. Qed.

(** The edges of the document after a batch that a gesture authors. *)
Lemma gesture_edges t cs e :
  e ∈ edges (document (applyAuthoringCommands cs true t).1) →
  e ∈ edges (document t) ∨ ∃ d', res_fold applyGraphCommandNormalized (normalize (document t)) cs = Ok d' ∧ e ∈ edges d'.
Proof.
  destruct (tb_enabledRef t) eqn:He; [|rewrite refused_document by done; by left].
  destruct cs as [|c cs]; [by left|]. unfold document at 1. destruct (gesture_state t (c :: cs) ltac:(done) He) as [-> _].
  destruct (res_fold applyGraphCommandNormalized (normalize (document t)) (c :: cs)) as [d'|m] eqn:Hf.
  - destruct (reduce_ok _ _ _ Hf) as [-> _]. right. by exists d'.
  - cbn [reduceWorkbenchAuthoringState]. fold (normalize (st_document (tb_authoring t))).
    destruct (res_fold authoringStep (normalize (st_document (tb_authoring t)), []) (c :: cs)) as [[d1 inv]|m'] eqn:E; [|by left].
    apply authoringSteps_document in E. unfold document in Hf. congruence.
Qed.

Lemma bind_edges d i v k d' : applyBindArtifactType d i v k = Ok d' → edges d' = edges d.
Proof. unfold applyBindArtifactType. intros H. apply updateNode_frame in H as (_ & ? & _). done. Qed.

(** The edges that authoring a new edge leaves: those that were there, and it. *)
Lemma authored_edges new k t e :
  normal (document t) → (∀ x, document (k x).1 = document x) →
  (∀ c, new = edge_now c → ∃ e0, c = add_edge e0) →
  e ∈ edges (document ((authorNewEdge new ;>> k) t).1) → e ∈ edges (document t) ∨ ∃ e0, new = edge_now (add_edge e0) ∧ e = projectSavedGraphEdge e0.
Proof.
  intros Hn Hk Hnew. rewrite then_document by done. unfold authorNewEdge.
  assert (edges (normalize (document t)) = edges (document t)) as Hnorm by (by rewrite normalize_normal).
  destruct new as [c|p]; (rewrite then_document; [|apply clearRunError_document]).
  - destruct (Hnew c eq_refl) as [e0 ->]. intros [He|(d' & Hd & He)]%gesture_edges; [by left|]. cbn [res_fold applyGraphCommandNormalized] in Hd.
    destruct (some_id (e_id e0) (edges (normalize (document t)))); [done|]. injection Hd as <-.
    change (e ∈ edges (normalize (document t)) ++ [projectSavedGraphEdge e0]) in He. rewrite Hnorm in He. apply elem_of_app in He as [He|He%list_elem_of_singleton]; [by left|]. right. by exists e0.
  - set (t0 := setPendingBoundEdges (tb_pendingBoundEdges t ++ [p]) t). rewrite after_change. fold t0.
    intros [He|(d' & Hd & He)]%gesture_edges; [by left|]. change (document t0) with (document t) in Hd. cbn [res_fold applyGraphCommandNormalized] in Hd.
    destruct (applyBindArtifactType (normalize (document t)) (pe_nodeId p) (pe_variable p) (typeKeyOf (pe_artifactType p))) as [d1|] eqn:Hb; [|done]. injection Hd as <-. apply bind_edges in Hb. rewrite Hb, Hnorm in He. by left.
Qed.

(** C11: every edge that a wire between nodes adds to the document fits on the canvas that the wire
    was drawn on: it joins two of its nodes, closes no cycle, and shares an input only where
    several edges may. *)
Theorem wired_edges_fit r c t uuid originUuid e w :
  node_wire c → handle_written (cn_targetHandle c) → binds_carried r c →
  Forall (λ n, wn_id n ≠ "") (cr_nodes r) → canvas_ok (cr_nodes r) (cr_edges r) → normal (document t) →
  e ∈ edges (document (onConnect r c uuid originUuid t).1) → e ∉ edges (document t) → shows_edge e w →
  canvas_ok (cr_nodes r) (cr_edges r ++ [w]) ∧ e_id e = "edge-" +:+ uuid ∧ e_from_node e = cn_source c ∧ e_to_node e = cn_target c.
Proof.
  intros Hwire Htarget Hcarried Hnamed Hok Hnormal Hin Hnew Hshows.
  destruct (onConnect_nodes r c t uuid originUuid Hwire) as [E|(mode & route & k & Hacc & Hmode & Hroute & Hk & E)]; rewrite E in Hin; [done|].
  assert (∀ i x, document (k i x).1 = document x) as Hkd by (intros i x; destruct (Hk i) as [Hki | [q Hki]]; by rewrite Hki).
  destruct (canonical_written _ Htarget) as [Hcw Hce]. change (canonicalHandleId (cn_targetHandle c)) with (cn_targetHandle (canonicalConnection c)) in Hcw.
  unfold addWorkflowEdge in Hin. destruct (newWorkflowEdge _ _ _ _ _) as [[new|]|] eqn:Hne; [|done..].
  assert (∀ cmd, new = edge_now cmd → ∃ e0, cmd = add_edge e0 ∧ e_id e0 = "edge-" +:+ uuid ∧
    wireEnds (canonicalConnection c) = (e_from_node e0, e_to_node e0, Some (e_to_port e0, jsopt_to_option (e_to_plug e0))) ∧ e_collection_mode e0 = mode) as Hinv.
  { intros cmd ->. eapply newEdge_inv; [exact Hcw| |exact Hne]. intros b Hb. by eapply Hcarried. }
  apply authored_edges in Hin as [?|(e0 & Hnew0 & ->)]; [done| |done|done|].
  - destruct (Hinv _ Hnew0) as (e1 & [= <-] & Hid & Hends & Hm). unfold wireEnds in Hends. injection Hends as Hs Ht Hend.
    change (handleEnd (canonicalHandleId (cn_targetHandle c)) = Some (e_to_port e0, jsopt_to_option (e_to_plug e0))) in Hend. rewrite Hce in Hend.
    destruct Hshows as (W1 & W2 & W3 & W4 & W5 & W6). cbn in W1, W2, W3, W4, W5, W6.
    split; [|done]. replace (cr_edges r) with (without_edge None (cr_edges r)) by (by apply filter_all).
    eapply canvas_ok_add; [done|done|exact Hacc|]. unfold handleEnd in Hend. destruct (decodeHandleId (cn_targetHandle c)) as [p|] eqn:Hp; [|done]. injection Hend as Hpp Hpl.
    unfold made_from. rewrite Hp. split_and!; cbn; [congruence..| |congruence]. rewrite W5, Hpl. by destruct (e_to_plug e0).
  - intros cmd Hc0. destruct (Hinv cmd Hc0) as (e1 & -> & _). by exists e1.
Qed.
End wires.

(** ** Edges that wait *)

Lemma submitLocal_keeps {A} (f : Tab → A) cs before t : (∀ b x, f (setUnsyncedRoomEdits b x) = f x) → f (submitLocal cs before t).1 = f t.
Proof.
  intros Hf. unfold submitLocal, looking. destruct (tb_openGraphIdRef t); [|apply Hf]. destruct (roomBatch _ _ _) as [[|]|]; try done.
  unfold submitRoomCommands, looking. destruct (tb_canSubmit t); [done|apply Hf].
Qed.

(** What a gesture leaves of the waiting edges and of the question. *)
Lemma gesture_waits cs t :
  tb_pendingBoundEdges (applyAuthoringCommands cs true t).1 = tb_pendingBoundEdges t ∧
  (cs ≠ [] → tb_enabledRef t = true → tb_pendingRoute (applyAuthoringCommands cs true t).1 = None).
Proof.
  destruct cs as [|c cs]; [done|]. unfold applyAuthoringCommands, looking, shouldBlockAuthoringCommand. destruct (tb_enabledRef t); [|done]. cbn [negb].
  rewrite !after_change. rewrite !submitLocal_keeps by done. done.
Qed.

(** Before its node is measured with the binding an edge waits; then it is authored, in the
    order of the waiting edges, and no longer waits. *)
Lemma measured_pending nodeId bindings t :
  tb_pendingBoundEdges (handleNodeHandlesMeasured nodeId bindings t).1 = filter (λ p, measuredFor nodeId bindings p = false) (tb_pendingBoundEdges t).
Proof.
  unfold handleNodeHandlesMeasured, looking. destruct (filter (λ p, measuredFor nodeId bindings p = true) (tb_pendingBoundEdges t)) as [|p ready] eqn:Hr; cbn [is_nil].
  - cbn. symmetry. apply filter_all. intros p Hp. destruct (measuredFor nodeId bindings p) eqn:Hm; [|done].
    assert (p ∈ @nil PendingBoundEdge); [|set_solver]. rewrite <- Hr. by apply list_elem_of_filter.
  - rewrite after_change. set (t0 := setPendingBoundEdges _ t). destruct (mapM _ _) as [cs|]; [|done]. destruct cs as [|c cs]; [done|].
    by rewrite (proj1 (gesture_waits _ t0)).
Qed.

(** A question that was asked about an edge that waits is withdrawn when the edge arrives. *)
Theorem arriving_edge_withdraws_the_question nodeId bindings t p commands :
  tb_enabledRef t = true → p ∈ tb_pendingBoundEdges t → measuredFor nodeId bindings p = true →
  mapM (λ p, addEdgeCommand (connectionOfEdge (pe_edge p)) (we_data (pe_edge p)) (we_id (pe_edge p)))
    (filter (λ p, measuredFor nodeId bindings p = true) (tb_pendingBoundEdges t)) = Ok commands →
  tb_pendingRoute (handleNodeHandlesMeasured nodeId bindings t).1 = None.
Proof.
  intros He Hp Hm Hc. unfold handleNodeHandlesMeasured, looking.
  assert (p ∈ filter (λ p, measuredFor nodeId bindings p = true) (tb_pendingBoundEdges t)) as Hin by by apply list_elem_of_filter.
  rewrite Hc. destruct (filter _ _) as [|p0 ready] eqn:Hr; [set_solver|]. cbn [is_nil]. rewrite after_change.
  set (t0 := setPendingBoundEdges _ t). destruct commands as [|c commands]; [apply mapM_res in Hc; by inversion Hc|].
  by apply gesture_waits.
Qed.

(** ** A refusal is not seen *)

(** Where editing is refused the document stays, the message of the refusal is cleared at once,
    and an edge that waits for the refused binding goes on waiting. *)
Theorem refusal_is_cleared_at_once new t :
  tb_enabledRef t = false →
  let t' := (authorNewEdge new t).1 in
  document t' = document t ∧ tb_runError t' = None ∧ st_error (tb_authoring t') = None ∧ (∀ p, new = edge_waits p → p ∈ tb_pendingBoundEdges t').
Proof.
  intros He. unfold authorNewEdge. destruct new as [c|p].
  - unfold andAlso, applyAuthoringCommands, looking, shouldBlockAuthoringCommand. rewrite He. cbn. done.
  - unfold andAlso, applyAuthoringCommands, looking, shouldBlockAuthoringCommand, change. cbn. rewrite He. cbn. split_and!; try done.
    intros p' [= ->]. apply elem_of_app. right. by left.
Qed.

(** It arrives when its node is bound by somebody else, without being looked at again. *)
Theorem refused_edge_arrives_later p t t' nodeId bindings e :
  tb_enabledRef t = false → tb_pendingBoundEdges t = [] →
  tb_pendingBoundEdges t' = tb_pendingBoundEdges (authorNewEdge (edge_waits p) t).1 → tb_enabledRef t' = true →
  measuredFor nodeId bindings p = true → addEdgeCommand (connectionOfEdge (pe_edge p)) (we_data (pe_edge p)) (we_id (pe_edge p)) = Ok (add_edge e) →
  e_id e ∉ ids (edges (normalize (document t'))) →
  projectSavedGraphEdge e ∈ edges (document (handleNodeHandlesMeasured nodeId bindings t').1).
Proof.
  intros He Hnone Hsame He' Hm Hc Hid. assert (tb_pendingBoundEdges t' = [p]) as Hp.
  { rewrite Hsame. unfold authorNewEdge, andAlso, applyAuthoringCommands, looking, shouldBlockAuthoringCommand, change. cbn. rewrite He. cbn. by rewrite Hnone. }
  unfold handleNodeHandlesMeasured, looking. rewrite Hp, filter_cons_True, filter_nil by done. cbn [is_nil mapM]. rewrite Hc. cbn [mbind res_bind mret res_ret].
  rewrite after_change. set (t0 := setPendingBoundEdges _ t').
  unfold document. destruct (gesture_state t0 [add_edge e] ltac:(done) He') as [-> _].
  assert (res_fold applyGraphCommandNormalized (normalize (st_document (tb_authoring t0))) [add_edge e] =
    Ok (with_edges (edges (normalize (document t')) ++ [projectSavedGraphEdge e]) (normalize (document t')))) as Hf.
  { cbn [res_fold applyGraphCommandNormalized]. change (st_document (tb_authoring t0)) with (document t').
    destruct (some_id (e_id e) (edges (normalize (document t')))) eqn:Hs; [|done]. by apply some_id_spec in Hs. }
  destruct (reduce_ok _ _ _ Hf) as [-> _]. apply elem_of_app. right. by left.
Qed.

(** ** Witness: a wire from one text node to another *)

Definition wiring_render : CanvasRender :=
  {| cr_nodes := text_nodes; cr_edges := []; cr_cards := {| vs_nodes := []; vs_edges := []; vs_bindings := []; vs_annotations := [] |};
     cr_registry := None; cr_titles := None |}.

Definition wiring_tab : Tab := set_authoring {| st_document := drop_document []; st_nodeOverlays := ∅; st_error := None |} sample_tab.

Definition wired_edge : GraphEdge :=
  {| e_id := "edge-u"; e_from_node := "a"; e_from_port := "text"; e_to_node := "b"; e_to_port := "text"; e_to_plug := Null; e_enabled := true;
     e_collection_mode := MDirect; e_projection := Null; e_conversion_path := []; e_route_offset := Null |}.

Lemma wired_edges_fit_witness :
  edges (document (onConnect one_by_one wiring_render (text_connection "a" "b") "u" "o" wiring_tab).1) = [wired_edge] ∧
  canvas_ok text_nodes [text_edge "edge-u" "a" "b"].
Proof.
  assert (edges (document (onConnect one_by_one wiring_render (text_connection "a" "b") "u" "o" wiring_tab).1) = [wired_edge]) as He by (vm_compute; reflexivity).
  split; [exact He|].
  destruct (wired_edges_fit one_by_one wiring_render (text_connection "a" "b") wiring_tab "u" "o" wired_edge (text_edge "edge-u" "a" "b")) as [H _]; [..|exact H].
  - by split_and!.
  - eexists {| portName := "text"; portType := Concrete "scalar.text" 1; Handles.shape := one; direction := input; plugId := None; feed := None; alsoAccepts := None |}.
    split; [by split|]. vm_compute. reflexivity.
  - intros route b Hr Hb. apply (list_elem_of_singleton route (exact_route [] None)) in Hr. by subst route.
  - by repeat constructor.
  - split; [by intros ? ?%not_elem_of_nil|intros x Hx|by intros ? ? ?%not_elem_of_nil].
    apply tc_rtc_l with (x := x) in Hx; [|done]. destruct Hx as [x y (e & ?%elem_of_nil & _)|x y z (e & ?%elem_of_nil & _)]; done.
  - split; by intros ? ?%not_elem_of_nil.
  - rewrite He. by left.
  - apply not_elem_of_nil.
  - split_and!; vm_compute; reflexivity.
Defined.
