(* ===== verification/CanvasChangesTheory.v ===== *)
(** * What the canvas handlers guarantee

    Drags in progress touch nothing but an overlay, blocked editing keeps the document whatever
    the canvas reports, nodes that are dropped land on the grid, and cards that are dropped stand in the
    other tabs where they stand in this one. *)

From stdpp Require Import numbers list gmap strings.
From S2P Require Import Prelude Js JsNum JsText GraphModel GraphCommands GraphTheory RoomBridge AuthoringState Handles Routes RoutesTheory Canvas Connections InputPlugs NodeLayout ConfigSchema ExecutionPlan.
From S2P Require Import ArtifactCards ArtifactDrop Hydration Viewers Grouping GridLayout Collections Feeds CardConnections RoomSync RoomSyncTheory Connecting ConnectingTheory CanvasChanges.
#[local] Open Scope nat_scope.
#[local] Open Scope canvas_scope.

(** ** Actions that keep a property of the tab *)

Definition keepsT (P : Tab → Prop) (m : TabM) : Prop := ∀ t, P t → P (m t).1.
Definition keeps (P : CanvasTab → Prop) (m : CanvasM) : Prop := ∀ v, P v → P (m v).1.

Section keeps.
Context (P : Tab → Prop).

Lemma keepsT_nothing : keepsT P doNothing.
Proof. by intros t. Qed.
Lemma keepsT_call c : keepsT P (call c).
Proof. by intros t. Qed.
Lemma keepsT_change f : (∀ t, P t → P (f t)) → keepsT P (change f).
Proof. auto. Qed.
Lemma keepsT_then a b : keepsT P a → keepsT P b → keepsT P (andAlso a b).
Proof. intros Ha Hb t Ht. unfold andAlso. specialize (Ha t Ht). destruct (a t) as [t1 c1]. specialize (Hb t1 Ha). by destruct (b t1). Qed.
Lemma keepsT_looking k : (∀ t, P t → P (k t t).1) → keepsT P (looking k).
Proof. auto. Qed.
Lemma keepsT_if (b : bool) x y : keepsT P x → keepsT P y → keepsT P (if b then x else y).
Proof. by destruct b. Qed.

Definition onTabOf (v : CanvasTab) : Prop := P (cv_tab v).

Lemma keeps_skip : keeps onTabOf skip.
Proof. by intros v. Qed.
Lemma keeps_presence : keeps onTabOf schedulePresence.
Proof. by intros v. Qed.
Lemma keeps_update f : (∀ v, cv_tab (f v) = cv_tab v) → keeps onTabOf (update f).
Proof. intros Hf v Hv. unfold onTabOf. cbn. by rewrite Hf. Qed.
Lemma canvas_keeps_then a b : keeps onTabOf a → keeps onTabOf b → keeps onTabOf (a ;+ b).
Proof. intros Ha Hb v Hv. unfold andThen. specialize (Ha v Hv). destruct (a v) as [v1 c1]. specialize (Hb v1 Ha). by destruct (b v1). Qed.
Lemma keeps_seeing k : (∀ v, keeps onTabOf (k v)) → keeps onTabOf (seeing k).
Proof. intros Hk v Hv. by apply Hk. Qed.
Lemma keeps_when b m : keeps onTabOf m → keeps onTabOf (when b m).
Proof. destruct b; [done|]. intros _. apply keeps_skip. Qed.
Lemma keeps_onTab m : keepsT P m → keeps onTabOf (onTab m).
Proof. intros Hm v Hv. unfold onTab. specialize (Hm _ Hv). by destruct (m (cv_tab v)). Qed.
Lemma keeps_all l : Forall (keeps onTabOf) l → keeps onTabOf (foldr andThen skip l).
Proof. induction 1; [apply keeps_skip|by apply canvas_keeps_then]. Qed.
End keeps.

Create HintDb canvas.
#[export] Hint Resolve keepsT_nothing keepsT_call keepsT_then keepsT_if keeps_skip keeps_presence canvas_keeps_then keeps_when keeps_onTab keeps_all : canvas.

(** ** Blocked editing *)

(** Editing is blocked and the document is [d]. *)
Definition blockedWith (d : AuthoredGraphDocument) (t : Tab) : Prop := tb_enabledRef t = false ∧ document t = d.

Section blocked.
Context (d : AuthoredGraphDocument).

Lemma blocked_cards f : keepsT (blockedWith d) (change (setArtifactViewers f)).
Proof. by apply keepsT_change. Qed.

Lemma blocked_commands cs : keepsT (blockedWith d) (applyAuthoringCommands cs true).
Proof. intros t [He Hd]. destruct cs; [done|]. unfold applyAuthoringCommands, looking, shouldBlockAuthoringCommand. by rewrite He. Qed.

Lemma blocked_commit f : keepsT (blockedWith d) (commitCards f).
Proof. intros t [He Hd]. unfold commitCards, looking. by rewrite He. Qed.

Lemma blocked_submit c : keepsT (blockedWith d) (submitPresentationCommand c).
Proof.
  intros t [He Hd]. unfold submitPresentationCommand, looking. destruct (inOpenGraph c t); [|done]. unfold submitRoomCommands, looking. by destruct (tb_canSubmit t).
Qed.

Lemma blocked_move ps : keepsT (blockedWith d) (submitMove ps).
Proof. destruct ps; [apply keepsT_nothing|]. apply blocked_submit. Qed.

Lemma blocked_move_annotations ps : keepsT (blockedWith d) (submitMoveAnnotations ps).
Proof. destruct ps; [apply keepsT_nothing|]. apply blocked_submit. Qed.

Lemma blocked_origins cards : keepsT (blockedWith d) (dropOriginsOf cards).
Proof. apply keepsT_looking. intros t Ht. unfold is_nil. destruct (carriedOrigins _ _); [done|]. by apply blocked_commands. Qed.

Lemma blocked_clear : keepsT (blockedWith d) clearRunError.
Proof. by intros t [He Hd]. Qed.

Lemma blocked_setNodes action : keeps (onTabOf (blockedWith d)) (setNodes action).
Proof.
  apply keeps_seeing. intros v. repeat apply canvas_keeps_then; [by apply keeps_update|..]; apply keeps_onTab, keepsT_change; by intros t [He Hd].
Qed.

Lemma blocked_setEdges action : keeps (onTabOf (blockedWith d)) (setEdges action).
Proof. apply keeps_seeing. intros v. apply canvas_keeps_then; [by apply keeps_update|]. apply keeps_onTab, keepsT_change; by intros t [He Hd]. Qed.
End blocked.

#[export] Hint Resolve blocked_cards blocked_commands blocked_commit blocked_submit blocked_move blocked_move_annotations blocked_origins blocked_clear blocked_setNodes blocked_setEdges : canvas.

Section library.
Context `{FlowLibrary}.

Lemma blocked_agent d {A} agents (c : NodeChange A) : keeps (onTabOf (blockedWith d)) (agentChange agents c).
Proof.
  unfold agentChange. destruct (_ ≫= _); [|apply keeps_skip]. destruct c as [| | | |i [p|] dr|]; try apply keeps_skip.
  { apply keeps_onTab, blocked_commands. }
  destruct (default false dr); eauto with canvas.
Qed.

Lemma blocked_settled d r g agents changes : keeps (onTabOf (blockedWith d)) (settledChanges r g agents changes).
Proof.
  unfold settledChanges, cardChanges, annotationChanges, removeCards, removeWorkflowNodes.
  repeat first [apply canvas_keeps_then|apply keeps_when|apply keeps_onTab|apply keepsT_then|apply keepsT_if]; try solve [eauto with canvas]; try by apply keeps_update.
  apply keeps_seeing. intros v. apply keeps_when, canvas_keeps_then; [by apply keeps_update|eauto with canvas].
Qed.

(** Where editing is blocked, no report of the canvas changes the document: not a move, not a
    removal, not a list of both. *)
Theorem blocked_canvas_keeps_the_document r g originEdges nodeChanges edgeChanges v :
  tb_enabledRef (cv_tab v) = false →
  document (cv_tab (onNodesChange r g nodeChanges v).1) = document (cv_tab v) ∧ document (cv_tab (onEdgesChange r originEdges edgeChanges v).1) = document (cv_tab v).
Proof.
  intros He. set (P := onTabOf (blockedWith (document (cv_tab v)))). assert (P v) as Hv by done.
  assert (keeps P (onNodesChange r g nodeChanges)) as Hn.
  { apply keeps_seeing. intros w. apply canvas_keeps_then; [apply keeps_all, Forall_map, Forall_forall; intros; apply blocked_agent|].
    apply canvas_keeps_then; [apply keeps_when, canvas_keeps_then; [by apply keeps_update|apply keeps_presence]|apply keeps_when, blocked_settled]. }
  assert (keeps P (onEdgesChange r originEdges edgeChanges)) as He'.
  { unfold onEdgesChange. repeat first [apply canvas_keeps_then|apply keeps_when|apply keeps_onTab|apply keepsT_if]; eauto with canvas. }
  split; [apply (Hn v Hv)|apply (He' v Hv)].
Qed.

(** ** The tab after an action *)

Lemma fst_then a b v : ((a ;+ b) v).1 = (b (a v).1).1.
Proof. unfold andThen. destruct (a v) as [v1 c1]. cbn. by destruct (b v1). Qed.

Lemma fst_onTab m v : (onTab m v).1 = set_tab (m (cv_tab v)).1 v.
Proof. unfold onTab. by destruct (m (cv_tab v)). Qed.

Lemma set_tab_same v : set_tab (cv_tab v) v = v.
Proof. by destruct v. Qed.

(** ** Dragging *)

Definition drag {A} (m : string * GraphPoint) : NodeChange A := nc_position m.1 (Some m.2) (Some true).
Definition drop {A} (m : string * GraphPoint) : NodeChange A := nc_position m.1 (Some m.2) (Some false).

(** Where the grid puts a point. *)
Definition onGrid (g : GridRefs) (dragging : bool) (p : GraphPoint) : GraphPoint :=
  if shouldSnapPosition (gr_settings g) dragging (gr_bypass g) then snapPosition p (gs_cellSize (gr_settings g)) else p.

Definition positionAt (m : string * GraphPoint) : NodePosition := {| np_node_id := m.1; np_x := pt_x m.2; np_y := pt_y m.2 |}.

Lemma agents_ignore_drags {A} agents (moves : list (string * GraphPoint)) :
  foldr andThen skip (map (agentChange agents) (map (drag (A:=A)) moves)) = foldr andThen skip (map (λ _, skip) moves).
Proof.
  rewrite map_map. f_equal. apply map_ext. intros m. unfold agentChange, drag. cbn. by destruct (find_id m.1 agents).
Qed.

Lemma skips (l : list (string * GraphPoint)) v : foldr andThen skip (map (λ _, skip) l) v = (v, []).
Proof. induction l as [|m l IH]; [done|]. cbn [map foldr]. unfold andThen at 1. change (skip v) with (v, @nil CanvasCall). cbv iota beta. by rewrite IH. Qed.

Lemma dragged_positions g moves :
  omap (draggingPosition g) (map (drag (A:=CanvasItem)) moves) = map (λ m, positionAt (m.1, onGrid g true m.2)) moves.
Proof. induction moves as [|m l IH]; [done|]. cbn. by rewrite IH. Qed.

(** While things are dragged the tab changes nothing but the overlay they are drawn from: not the
    document, not the cards, not the selection; nothing goes to the room but a snapshot of the
    drag. *)
Theorem drags_stay_in_the_overlay r g moves v :
  moves ≠ [] →
  let positions := map (λ m, positionAt (m.1, onGrid g true m.2)) moves in
  onNodesChange r g (map drag moves) v =
    (setDrag (nextTransient positions (cv_transientNodePositions v)) (map fst moves) (Some positions) v, [SchedulePresence]).
Proof.
  intros Hm positions. unfold onNodesChange, seeing. rewrite agents_ignore_drags, dragged_positions. fold positions.
  assert (is_nil positions = false) as Hp by by destruct moves. rewrite Hp. unfold andThen at 1. rewrite skips. cbn [negb orb].
  rewrite bool_decide_true by (unfold positions; by rewrite !length_map). cbn. unfold andThen, dragTo, update, schedulePresence. cbn.
  unfold positions. by rewrite map_map.
Qed.

(** ** Dropping *)

Lemma layer_of_drops {A} g (item : CanvasItem → option A) ids moves :
  layerChanges g item ids (map drop moves) = map (λ m, drop (m.1, onGrid g false m.2)) (filter (λ m, m.1 ∈ ids) moves).
Proof.
  unfold layerChanges. induction moves as [|m l IH]; [done|]. cbn [map omap list_omap]. unfold drop at 1, changeOf at 1. rewrite filter_cons.
  case_bool_decide as Hin; case_decide as Hin'; try done. cbn [map]. f_equal; [|apply IH]. unfold snapNodeChangePosition, drop, onGrid. cbn [fst snd].
  by destruct (shouldSnapPosition _ _ _).
Qed.

Lemma filter_drops {A} (f : NodeChange A → bool) (h : string * GraphPoint → string * GraphPoint) moves :
  (∀ m, f (drop m) = false) → filter (λ c, f c = true) (map (λ m, drop (h m)) moves) = [].
Proof. intros Hf. induction moves as [|m l IH]; [done|]. cbn [map]. rewrite filter_cons_False; [done|]. by rewrite Hf. Qed.

Lemma omap_drops {A B} (f : NodeChange A → option B) (h : string * GraphPoint → string * GraphPoint) moves :
  (∀ m, f (drop m) = None) → omap f (map (λ m, drop (h m)) moves) = [].
Proof. intros Hf. induction moves as [|m l IH]; [done|]. cbn [map omap list_omap]. by rewrite Hf. Qed.

Lemma drops_are_moves {A} (h : string * GraphPoint → string * GraphPoint) moves :
  moves ≠ [] → graphCommandsFromNodeChanges (map canvasChange (map (λ m, drop (A:=A) (h m)) moves)) = [move_nodes (map (λ m, positionAt (h m)) moves)].
Proof.
  intros Hm. unfold graphCommandsFromNodeChanges.
  assert (omap changePosition (map canvasChange (map (λ m, drop (A:=A) (h m)) moves)) = map (λ m, positionAt (h m)) moves) as ->.
  { clear. induction moves as [|m l IH]; [done|]. cbn. by rewrite <- IH. }
  assert (omap changeRemoved (map canvasChange (map (λ m, drop (A:=A) (h m)) moves)) = []) as ->.
  { clear. induction moves as [|m l IH]; [done|]. cbn. by rewrite <- IH. }
  by destruct moves.
Qed.

Lemma none_there (ids : list string) (moves : list (string * GraphPoint)) : Forall (λ m, m.1 ∉ ids) moves → filter (λ m, m.1 ∈ ids) moves = [].
Proof. induction 1 as [|m l Hm Hl IH]; [done|]. by rewrite filter_cons_False. Qed.

Lemma all_there (ids : list string) (moves : list (string * GraphPoint)) : Forall (λ m, m.1 ∈ ids) moves → filter (λ m, m.1 ∈ ids) moves = moves.
Proof. induction 1 as [|m l Hm Hl IH]; [done|]. by rewrite filter_cons_True, IH. Qed.

Lemma no_agents {A} agents (moves : list (string * GraphPoint)) v :
  Forall (λ m, m.1 ∉ ids agents) moves → foldr andThen skip (map (agentChange agents) (map (drop (A:=A)) moves)) v = (v, []).
Proof.
  intros Hm. assert (map (agentChange agents) (map (drop (A:=A)) moves) = map (λ _, skip) moves) as ->; [|apply skips].
  rewrite map_map. induction Hm as [|m l Hm Hl IH]; [done|]. cbn [map]. f_equal; [|done]. unfold agentChange, drop. cbn [changeId mbind option_bind]. by apply find_id_None in Hm as ->.
Qed.

Lemma no_drags {A} g (moves : list (string * GraphPoint)) : omap (draggingPosition g) (map (drop (A:=A)) moves) = [].
Proof. induction moves as [|m l IH]; [done|]. cbn. by rewrite <- IH. Qed.

(** The things a batch of drops may name. *)
Record workflow_drops (r : CanvasRender) (t : Tab) (moves : list (string * GraphPoint)) : Prop := {
  wd_nodes : Forall (λ m, m.1 ∈ ids (cr_nodes r)) moves;
  wd_cards : Forall (λ m, m.1 ∉ ids (vs_nodes (cr_cards r))) moves;
  wd_annotations : Forall (λ m, m.1 ∉ ids (vs_annotations (cr_cards r))) moves;
  wd_agents : Forall (λ m, m.1 ∉ ids (GraphModel.agents (tb_documentRef t))) moves
}.

Lemma drops_end {A} (h : string * GraphPoint → string * GraphPoint) moves : moves ≠ [] → existsb endsDrag (map (λ m, drop (A:=A) (h m)) moves) = true.
Proof. by destruct moves. Qed.

Lemma after_drops r g moves v :
  moves ≠ [] → workflow_drops r (cv_tab v) moves →
  (onNodesChange r g (map drop moves) v).1 =
    setDrag ∅ [] None (set_tab (applyAuthoringCommands [move_nodes (map (λ m, positionAt (m.1, onGrid g false m.2)) moves)] true (cv_tab v)).1 v).
Proof.
  intros Hm [Hn Hc Ha Hg]. unfold onNodesChange, seeing. rewrite fst_then, no_agents by done. rewrite no_drags. cbn [is_nil negb orb fst].
  change (when false (dragTo [])) with skip. change (when true ?m) with m. rewrite fst_then. change (skip v).1 with v.
  unfold settledChanges. rewrite !layer_of_drops, (all_there _ _ Hn), (none_there _ _ Hc), (none_there _ _ Ha). cbn [map].
  rewrite (filter_drops isRenderer), (filter_drops isSelect), (omap_drops removedId), drops_are_moves by done.
  assert (omap (measuredUpdate (ids (cr_nodes r) ++ ids (GraphModel.agents (tb_documentRef (cv_tab v))))) (map drop moves) = []) as ->.
  { clear. induction moves as [|m l IH]; [done|]. cbn. by rewrite <- IH. }
  cbn [is_nil negb]. rewrite !fst_then. change (when false ?m) with skip. change (when true ?m) with m. change (removeCards r (omap removedId [])) with skip. change (removeWorkflowNodes []) with skip.
  change (skip ?w).1 with w. rewrite !fst_onTab. change (cardChanges [] ?t).1 with t. change (annotationChanges [] ?t).1 with t. rewrite !set_tab_same.
  unfold seeing. rewrite drops_end by done. rewrite orb_true_r. cbn [orb]. change (when true ?m) with m. by rewrite fst_then.
Qed.

Lemma moved_document d ps : Forall (λ p, np_node_id p ∈ ids (nodes d)) ps →
  applyGraphCommandNormalized d (move_nodes ps) =
    Ok (with_nodes ((λ n, match positionFor (n_id n) ps with Some p => GraphModel.set_position {| pt_x := np_x p; pt_y := np_y p |} n | None => n end) <$> nodes d) d).
Proof.
  intros Hps. cbn [applyGraphCommandNormalized]. unfold applyMoveNodes.
  assert (is_ok (res_map (λ p, nodeOrThrow d (np_node_id p)) ps) = true) as Hok.
  { apply res_map_is_ok. intros p Hp. rewrite Forall_forall in Hps. specialize (Hps p Hp). apply find_id_is_Some in Hps as [n Hf]. unfold nodeOrThrow. by rewrite Hf. }
  by destruct (res_map _ _).
Qed.

Lemma positionFor_drop i (h : GraphPoint → GraphPoint) moves :
  match positionFor i (map (λ m, positionAt (m.1, h m.2)) moves) with
  | Some p => ∃ q, (i, q) ∈ moves ∧ p = positionAt (i, h q)
  | None => i ∉ map fst moves
  end.
Proof.
  unfold positionFor. destruct (list_find _ _) as [[k p]|] eqn:E; cbn.
  - apply list_find_Some in E as (Hk & Hi & _). apply list_elem_of_lookup_2 in Hk. rewrite elem_of_reverse in Hk. apply list_elem_of_fmap in Hk as ([j q] & -> & Hq).
    cbn in Hi. subst j. by exists q.
  - apply list_find_None in E. rewrite list_elem_of_fmap. intros ([j q] & -> & Hq). rewrite Forall_forall in E. apply (E (positionAt (j, h q))); [|done].
    rewrite elem_of_reverse. apply list_elem_of_fmap. by exists (j, q).
Qed.

(** Nodes that are dropped go where the grid puts them and the others stay: in the document each
    dropped node has the snapped position of one of its drops, and the overlay of the drag is
    gone.  Where positions snap, that is a whole number of cells both ways. *)
Theorem dropped_nodes_land_on_the_grid r g moves v :
  moves ≠ [] → workflow_drops r (cv_tab v) moves → tb_enabledRef (cv_tab v) = true → Forall (λ m, m.1 ∈ ids (nodes (document (cv_tab v)))) moves →
  let v' := (onNodesChange r g (map drop moves) v).1 in
  cv_transientNodePositions v' = ∅ ∧
  Forall2 (λ n n', n_id n' = n_id n ∧
      if decide (n_id n ∈ map fst moves) then ∃ p, (n_id n, p) ∈ moves ∧ n' = GraphModel.set_position (onGrid g false p) n else n' = n)
    (nodes (normalize (document (cv_tab v)))) (nodes (document (cv_tab v'))) ∧
  (shouldSnapPosition (gr_settings g) false (gr_bypass g) = true → ∀ x y, ∃ cell kx ky, clampCellSize (gs_cellSize (gr_settings g)) = num cell ∧
      onGrid g false {| pt_x := NFin x; pt_y := NFin y |} = {| pt_x := num (kx * cell); pt_y := num (ky * cell) |}).
Proof.
  intros Hm Hd He Hn v'. unfold v'. rewrite after_drops by done. cbn [cv_transientNodePositions setDrag cv_tab set_tab]. split_and!; [done|..].
  - set (ps := map (λ m, positionAt (m.1, onGrid g false m.2)) moves). unfold document at 2. destruct (gesture_state (cv_tab v) [move_nodes ps]) as [-> _]; [done..|].
    assert (Forall (λ p, np_node_id p ∈ ids (nodes (normalize (document (cv_tab v))))) ps) as Hps.
    { destruct (normalize_ids (document (cv_tab v))) as [-> _]. unfold ps. apply Forall_map. eapply Forall_impl; [exact Hn|]. done. }
    pose proof (moved_document _ _ Hps) as Happ.
    match type of Happ with _ = Ok ?d' => destruct (reduce_ok (tb_authoring (cv_tab v)) [move_nodes ps] d') as [-> _] end.
    { cbn [res_fold]. fold (document (cv_tab v)). by rewrite Happ. }
    cbn [with_nodes nodes]. apply Forall2_fmap_r, Forall_Forall2_diag, Forall_true. intros n. cbn beta.
    pose proof (positionFor_drop (n_id n) (onGrid g false) moves) as Hp. fold ps in Hp. unfold compose; cbn beta. destruct (positionFor (n_id n) ps) as [p|]; (split; [done|]).
    + destruct Hp as (q & Hq & ->). rewrite decide_True by (apply list_elem_of_fmap; by exists (n_id n, q)). exists q. split; [done|]. unfold positionAt. cbn. by destruct (onGrid g false q).
    + by rewrite decide_False.
  - intros Hs x y. destruct (clampCellSize_cell (gs_cellSize (gr_settings g))) as (cell & Hc & Hr).
    exists cell, (nearestCell x cell), (nearestCell y cell). split; [done|]. unfold onGrid. rewrite Hs. unfold snapPosition. cbn [pt_x pt_y].
    f_equal; apply snapToCell_nearest; (done || lia).
Qed.

(** ** Cards *)

Lemma movedTo_drops {A} i (moves : list (string * GraphPoint)) :
  match movedTo i (map (drop (A:=A)) moves) with Some p => (i, p) ∈ moves | None => i ∉ map fst moves end.
Proof.
  unfold movedTo. induction moves as [|[j p] l IH]; [apply not_elem_of_nil|]. cbn [map drop fst snd omap list_omap].
  case_bool_decide as Hj; [subst; cbn; left|]. destruct (head _); [by right|]. apply not_elem_of_cons. auto.
Qed.

Lemma viewerPositionFor_moves i (moves : list (string * GraphPoint)) :
  match viewerPositionFor i (map viewerPosition moves) with Some p => (i, p) ∈ moves | None => i ∉ map fst moves end.
Proof.
  unfold viewerPositionFor. destruct (list_find _ _) as [[k p]|] eqn:E; cbn.
  - apply list_find_Some in E as (Hk & Hi & _). apply list_elem_of_lookup_2 in Hk. rewrite elem_of_reverse in Hk. apply list_elem_of_fmap in Hk as ([j [x y]] & -> & Hq).
    cbn in *. by subst j.
  - apply list_find_None in E. rewrite list_elem_of_fmap. intros ([j q] & -> & Hq). rewrite Forall_forall in E. apply (E (viewerPosition (j, q))); [|done].
    rewrite elem_of_reverse. apply list_elem_of_fmap. by exists (j, q).
Qed.

Lemma one_place (i : string) (p q : GraphPoint) moves : NoDup (map fst moves) → (i, p) ∈ moves → (i, q) ∈ moves → p = q.
Proof.
  intros Hnd Hp Hq. apply (elem_of_list_to_map (M:=gmap string) moves) in Hp; [|done]. apply (elem_of_list_to_map (M:=gmap string) moves) in Hq; [|done]. congruence.
Qed.

(** The renderer moves cards the way the room's command does. *)
Lemma moved_alike moves (ns : list ArtifactViewerNode) : NoDup (map fst moves) →
  applyNodeChanges (map drop moves) ns = moveCard (map viewerPosition moves) <$> ns.
Proof.
  intros Hnd. rewrite (moves_are_applied _ _ (map drop moves)).
  - apply map_ext. intros n. cbn [fl_id ArtifactViewerNode_flow fl_move]. unfold moveCard.
    pose proof (movedTo_drops (A:=ArtifactViewerNode) (vn_id n) moves) as H1. pose proof (viewerPositionFor_moves (vn_id n) moves) as H2.
    destruct (movedTo _ _) as [p|], (viewerPositionFor _ _) as [q|]; [|destruct H2|destruct H1|done].
    + by rewrite (one_place _ _ _ _ Hnd H1 H2).
    + apply list_elem_of_fmap. by exists (vn_id n, p).
    + apply list_elem_of_fmap. by exists (vn_id n, q).
  - apply Forall_map, Forall_true. done.
  - assert (omap changeId (map (drop (A:=ArtifactViewerNode)) moves) = map fst moves) as ->; [|done]. clear. induction moves as [|m l IH]; [done|]. cbn. by rewrite <- IH.
Qed.

(** The cards a batch of drops may name. *)
Record card_drops (r : CanvasRender) (t : Tab) (moves : list (string * GraphPoint)) : Prop := {
  kd_nodes : Forall (λ m, m.1 ∉ ids (cr_nodes r)) moves;
  kd_cards : Forall (λ m, m.1 ∈ ids (vs_nodes (cr_cards r))) moves;
  kd_annotations : Forall (λ m, m.1 ∉ ids (vs_annotations (cr_cards r))) moves;
  kd_agents : Forall (λ m, m.1 ∉ ids (GraphModel.agents (tb_documentRef t))) moves
}.

Definition snapped (g : GridRefs) (moves : list (string * GraphPoint)) : list (string * GraphPoint) := map (λ m, (m.1, onGrid g false m.2)) moves.

Lemma snapped_drops {A} g moves : map (λ m, drop (A:=A) (m.1, onGrid g false m.2)) moves = map drop (snapped g moves).
Proof. unfold snapped. by rewrite map_map. Qed.

Lemma filter_all_drops {A} (moves : list (string * GraphPoint)) : filter (λ c, isDrop c = true) (map (drop (A:=A)) moves) = map drop moves.
Proof. induction moves as [|m l IH]; [done|]. cbn [map]. by rewrite filter_cons_True, IH. Qed.

Lemma dropped_all {A} (moves : list (string * GraphPoint)) : omap droppedAt (map (drop (A:=A)) moves) = moves.
Proof. induction moves as [|[i p] l IH]; [done|]. cbn. by rewrite <- IH at 2. Qed.

Lemma cardChanges_drops moves t : moves ≠ [] →
  cardChanges (map drop moves) t = andAlso (change (setArtifactViewers (applyCards (map drop moves)))) (submitMove (map viewerPosition moves)) t.
Proof.
  intros Hm. unfold cardChanges. rewrite filter_all_drops, dropped_all.
  assert (filter (λ c, isLocal c = true) (map (drop (A:=ArtifactViewerNode)) moves) = []) as -> by exact (filter_drops isLocal (λ x, x) moves (λ _, eq_refl)).
  assert (filter (λ c, isDurable c = true) (map (drop (A:=ArtifactViewerNode)) moves) = []) as -> by exact (filter_drops isDurable (λ x, x) moves (λ _, eq_refl)).
  assert (omap removedId (map (drop (A:=ArtifactViewerNode)) moves) = []) as -> by exact (omap_drops removedId (λ x, x) moves (λ _, eq_refl)).
  assert (is_nil moves = false) as -> by by destruct moves. cbn [is_nil andb].
  generalize (andAlso (change (setArtifactViewers (applyCards (map drop moves)))) (submitMove (map viewerPosition moves))). intros m.
  unfold andAlso, doNothing. destruct (m t) as [t1 c1]. cbn. by rewrite app_nil_r.
Qed.

Lemma after_card_drops r g moves v :
  moves ≠ [] → card_drops r (cv_tab v) moves →
  onNodesChange r g (map drop moves) v =
    (setDrag ∅ [] None (set_tab (cardChanges (map drop (snapped g moves)) (cv_tab v)).1 v), map from_tab (cardChanges (map drop (snapped g moves)) (cv_tab v)).2 ++ [SchedulePresence]).
Proof.
  intros Hm [Hn Hc Ha Hg]. unfold onNodesChange, seeing. rewrite no_drags. unfold andThen at 1. rewrite no_agents by done. cbn [is_nil negb orb].
  change (when false (dragTo [])) with skip. change (when true ?m) with m. unfold settledChanges. rewrite !layer_of_drops, (all_there _ _ Hc), (none_there _ _ Hn), (none_there _ _ Ha).
  cbn [map]. rewrite (omap_drops (A:=ArtifactViewerNode) removedId _ moves (λ _, eq_refl)). rewrite drops_end by done. rewrite !snapped_drops.
  assert (omap (measuredUpdate (ids (cr_nodes r) ++ ids (GraphModel.agents (tb_documentRef (cv_tab v))))) (map drop moves) = []) as ->.
  { clear. induction moves as [|m l IH]; [done|]. cbn. by rewrite <- IH. }
  unfold andThen, onTab, seeing, when, skip, update. cbn. destruct (cardChanges (map drop (snapped g moves)) (cv_tab v)) as [t1 c1]. cbn.
  rewrite ?orb_true_r. cbn. done.
Qed.
End library.

Section library2.
Context `{FlowLibrary}.

End library2.

(** ** A renderer *)

(** What is documented of the renderer, for its moves. *)
Definition move_all (A : Type) (H : FlowItem A) (changes : list (NodeChange A)) (items : list A) : list A :=
  map (λ n, match movedTo (fl_id n) changes with Some p => fl_move p n | None => n end) items.

Definition some_library : FlowLibrary := {|
  applyNodeChanges := move_all; applyEdgeChanges := λ A _ l, l; moves_are_applied := λ A H changes items _ _, eq_refl |}.

Definition plain_settings : GridRefs := {| gr_settings := DEFAULT_CANVAS_GRID_SETTINGS; gr_bypass := false |}.

Definition at_point (x y : Z) : GraphPoint := {| pt_x := num x; pt_y := num y |}.

Definition some_card : ArtifactViewerNode :=
  {| vn_id := "card"; vn_position := at_point 0 0; vn_selected := None; vn_measuredWidth := None; vn_measuredHeight := None; vn_layout := None; vn_mode := None; vn_artifactRef := JNull |}.

Definition some_cards : ArtifactViewerCanvasState := {| vs_nodes := [some_card]; vs_edges := []; vs_bindings := []; vs_annotations := [] |}.

Definition canvas_of (t : Tab) : CanvasTab :=
  {| cv_tab := t; cv_nodesRef := []; cv_edgesRef := []; cv_selectedAgentIds := []; cv_transientNodePositions := ∅; cv_nodeMeasurements := ∅;
     cv_cardSelections := {["card" := JStr "a selection"]}; cv_cardFields := ∅; cv_cardActivities := ∅; cv_localDragging := []; cv_presenceDrag := None |}.

Definition card_render : CanvasRender := {| cr_nodes := []; cr_edges := []; cr_cards := some_cards; cr_registry := None; cr_titles := None |}.

(** A tab with these cards and agents. *)
Definition card_tab (enabled : bool) (agents : list GraphAgent) : Tab :=
  let d := {| name := "g"; nodes := []; edges := []; origins := []; agents := agents |} in
  {| tb_authoring := {| st_document := d; st_nodeOverlays := ∅; st_error := None |}; tb_documentRef := d; tb_rendered := d; tb_positionOverrides := ∅;
     tb_selectedNodeIds := []; tb_selectedEdgeIds := []; tb_cards := some_cards; tb_pendingRoute := None; tb_runError := None; tb_enabledRef := enabled;
     tb_blockedMessageRef := "Editing is paused."; tb_unsyncedRoomEdits := false; tb_projectId := Some "project-1"; tb_openGraphIdRef := Some "g";
     tb_projectRoomHeadRef := None; tb_canSubmit := true; tb_headRefreshRetry := None; tb_pendingBoundEdges := [] |}.

Definition some_agent : GraphAgent :=
  {| a_id := "agent"; a_name := "Agent"; a_instructions := ""; a_model := Null; a_position := Val (at_point 0 0); a_width := num 320; a_height := num 240 |}.

(** An agent is stored where it was let go, though it is drawn on the grid; a node or a card is
    stored where it is drawn. *)
Theorem dropped_agent_is_not_snapped :
  let v := canvas_of (card_tab true [some_agent]) in
  let v' := (onNodesChange (H := some_library) card_render plain_settings [drop ("agent", at_point 7 7)] v).1 in
  map a_position (agents (document (cv_tab v'))) = [Val (at_point 7 7)] ∧ onGrid plain_settings false (at_point 7 7) = at_point 0 0.
Proof. split; [reflexivity|]. unfold onGrid. cbn [shouldSnapPosition]. unfold snapPosition, at_point. cbn [pt_x pt_y]. f_equal; unfold num; f_equal; by apply Qc_is_canon. Qed.

(** A card is moved, here and in the room, while editing is paused; every other edit of a card
    asks first. *)
Theorem paused_drop_of_a_card_is_sent :
  let v := canvas_of (card_tab false []) in
  let after := onNodesChange (H := some_library) card_render {| gr_settings := DEFAULT_CANVAS_GRID_SETTINGS; gr_bypass := true |} [drop ("card", at_point 7 7)] v in
  map vn_position (vs_nodes (tb_cards (cv_tab after.1))) = [at_point 7 7] ∧ tb_runError (cv_tab after.1) = None ∧
  after.2 = [from_tab (SubmitBatch [P_in_graph "g" (R_move_artifact_viewers [{| vp_viewer_id := "card"; vp_x := num 7; vp_y := num 7 |}])] "Presentation sync failed."); SchedulePresence].
Proof. split_and!; vm_compute; reflexivity. Qed.

(** A removal that is refused still forgets what the card had selected. *)
Theorem refused_removal_forgets_the_selection :
  let v := canvas_of (card_tab false []) in
  let after := onNodesChange (H := some_library) card_render plain_settings [nc_remove "card"] v in
  ids (vs_nodes (tb_cards (cv_tab after.1))) = ["card"] ∧ cv_cardSelections v !! "card" = Some (JStr "a selection") ∧ cv_cardSelections after.1 !! "card" = None.
Proof. split_and!; reflexivity. Qed.

(** ** Witnesses *)

Lemma blocked_canvas_keeps_the_document_witness :
  let v := canvas_of (card_tab false [some_agent]) in
  agents (document (cv_tab (onNodesChange (H := some_library) card_render plain_settings [nc_remove "agent"] v).1)) = [some_agent].
Proof.
  destruct (blocked_canvas_keeps_the_document (H := some_library) card_render plain_settings [] [nc_remove "agent"] [] (canvas_of (card_tab false [some_agent])) eq_refl) as [H _].
  cbv zeta. by rewrite H.
Defined.

Lemma drags_stay_in_the_overlay_witness :
  cv_tab (onNodesChange (H := some_library) card_render plain_settings [drag ("card", at_point 7 7)] (canvas_of sample_tab)).1 = sample_tab.
Proof. change [drag ("card", at_point 7 7)] with (map (drag (A:=CanvasItem)) [("card", at_point 7 7)]). by rewrite (drags_stay_in_the_overlay (H := some_library) card_render plain_settings [("card", at_point 7 7)] (canvas_of sample_tab)). Defined.

Lemma dropped_nodes_land_on_the_grid_witness :
  cv_transientNodePositions (onNodesChange (H := some_library) wiring_render plain_settings [drop ("a", at_point 7 7)] (canvas_of sample_tab)).1 = ∅ ∧
  length (nodes (document (cv_tab (onNodesChange (H := some_library) wiring_render plain_settings [drop ("a", at_point 7 7)] (canvas_of sample_tab)).1))) = 3.
Proof.
  destruct (dropped_nodes_land_on_the_grid (H := some_library) wiring_render plain_settings [("a", at_point 7 7)] (canvas_of sample_tab)) as (H1 & H2 & _).
  - done.
  - split; apply Forall_singleton; cbn; set_solver.
  - done.
  - apply Forall_singleton. cbn. set_solver.
  - split; [exact H1|]. apply Forall2_length in H2. exact (eq_sym H2).
Defined.

