(* ===== verification/CanvasEdits.v ===== *)
(** * Edits on the canvas ([ui/Workbench.tsx])

    What a person does to the canvas besides dragging and connecting: dropping artifacts on it
    or on an input, duplicating the selection, snapping it to the grid, adding a node or an
    annotation, and the effect that keeps a spare plug on each collection.

    What the pointer is over is found in the page: the row of an input and whether there is
    canvas are arguments, as are the ids drawn at random. *)

From stdpp Require Import numbers list gmap strings.
From S2P Require Import Prelude Js JsNum JsText JsJson GraphModel GraphCommands GraphTheory RoomBridge AuthoringState Handles Routes RoutesTheory Canvas Connections InputPlugs NodeLayout ConfigSchema ExecutionPlan.
From S2P Require Import ArtifactCards ArtifactDrop Hydration Viewers Grouping GridLayout Collections Feeds CardConnections CardCommands RoomSync Connecting CanvasChanges.
#[local] Open Scope nat_scope.
#[local] Open Scope canvas_scope.

(** ** Selection *)

(** [canvasSelection.selectOnly] and [clearWorkflowSelection] *)
Definition selectOnlyThese (nodeIds viewerIds : list string) : CanvasM :=
  update (setSelectedAgentIds []) ;+ onTab (change (setSelected nodeIds [])) ;+ onTab (change (setArtifactViewers (selectOnly viewerIds []))).

Definition clearSelection : CanvasM := update (setSelectedAgentIds []) ;+ onTab (change (setSelected [] [])).

(** A commit of cards; [k] follows when it is not refused. *)
Definition commitThen (updater : ArtifactViewerCanvasState → ArtifactViewerCanvasState) (k : CanvasM) : CanvasM :=
  seeing (λ v, onTab (commitCards updater) ;+ when (tb_enabledRef (cv_tab v)) k).

(** ** Artifacts that are dropped *)

(** The attributes of an input row. *)
Record InputRow := {
  ir_inputNodeId : option string;
  ir_inputPortName : option string;
  ir_inputPlugPort : option string;
  ir_inputPlugId : option string
}.

Definition artifactDropTargetFromRow (row : InputRow) : option ArtifactDropTarget :=
  nodeId ← truthy (ir_inputNodeId row);
  portName ← truthy (match ir_inputPortName row with Some p => Some p | None => ir_inputPlugPort row end);
  Some {| dt_nodeId := nodeId; dt_portName := portName; dt_plugId := ir_inputPlugId row |}.

Definition artifactDropTargetFitsNode (target : ArtifactDropTarget) (data : WorkflowNodeData) (port : Port) : bool :=
  if negb (portHasInstancePlugs port) then bool_decide (dt_plugId target = None)
  else match truthy (dt_plugId target) with
       | None => false
       | Some plug => existsb (λ p, bool_decide (wp_id p = plug) && bool_decide (wp_portName p = port_name port)) (nd_inputPlugs data)
       end.

Record PendingFolderDrop := { fd_folderName : string; fd_groups : list ArtifactDropPayload; fd_canPlaceAll : bool }.

Inductive DropDestination :=
| on_canvas (point : GraphPoint)
| on_input (target : ArtifactDropTarget).

Record PendingFolderDropState := { pf_drop : PendingFolderDrop; pf_destination : DropDestination }.

(** Where the pointer lets go: the row under it, whether there is canvas under it, and that
    point on the canvas. *)
Record DropPoint := { at_row : option InputRow; at_canvas : bool; at_flow : option GraphPoint }.

(** [addArtifactCards] on a tab. *)
Definition addCards (uuid : nat → string) (cards : list (jsval * GraphPoint)) : CanvasM :=
  if is_nil cards then skip
  else commitThen (λ current, on_nodes (λ nodes, nodes ++ addedCards uuid cards) (withoutPresentationSelection current)) clearSelection.

(** How much room the card of a group takes. *)
Definition groupExtent (group : ArtifactDropPayload) : Z * jsnum :=
  (Z.of_nat (length (cardArtifactRefs (dp_value group))),
   if negb (js_in "item_refs" (dp_value group)) && isTableArtifact (dp_value group) then DEFAULT_ARTIFACT_TABLE_CARD_WIDTH else DEFAULT_ARTIFACT_CARD_WIDTH).

Definition placeArtifactGroups (uuid : nat → string) (groups : list ArtifactDropPayload) (point : GraphPoint) : CanvasM :=
  let positions := artifactCardDropPositions point (map groupExtent groups) in
  addCards uuid (imap (λ i group, (dp_value group, default point (positions !! i))) groups).

Section drops.
Context (localeCompare : string → string → Z) (JSON_parse : string → res jsval).

Notation Pending := (option PendingFolderDropState).

Definition dropArtifactOnCanvas (uuid : nat → string) (d : DataTransfer) (at_ : DropPoint) (pending : Pending) : Pending * CanvasM :=
  let groups := readArtifactDropGroups JSON_parse d in
  if negb (at_canvas at_) || is_nil groups then (pending, skip)
  else
    let point := default {| pt_x := num 0; pt_y := num 0 |} (at_flow at_) in
    match readArtifactDropFolder d with
    | Some folder =>
        if bool_decide (1 < length groups)
        then (Some {| pf_drop := {| fd_folderName := folder; fd_groups := groups; fd_canPlaceAll := true |}; pf_destination := on_canvas point |}, skip)
        else (pending, placeArtifactGroups uuid groups point)
    | None => (pending, placeArtifactGroups uuid groups point)
    end.

(** What [nodesRef] and [edgesRef] hold is in the render [r]; the origins are those of
    [authoredDocumentRef]. *)
Definition artifactCardContract (value : jsval) (artifactTypes : ArtifactTypeCatalog) : string :=
  match artifactTypeForValue value with
  | Some t => formatArtifactTypeContract t artifactTypes (js_in "item_refs" value)
  | None => ""
  end.

Definition alreadyHeld (r : CanvasRender) (origins : list GraphOrigin) (node : WorkflowNode) (value : jsval) : bool :=
  isCollectionNode node && collectionHoldsArtifacts (collectionMembers node (cr_nodes r) (cr_edges r) origins) (cardArtifactRefs value).

Definition placeArtifactOnInput (r : CanvasRender) (payload : ArtifactDropPayload) (target : ArtifactDropTarget) (uuid originUuid : string) : TabM :=
  looking (λ t,
    match find_id (dt_nodeId target) (cr_nodes r) with
    | None => doNothing
    | Some node =>
        if negb (workflowNodeIsSupported node) then doNothing
        else match find (λ p, bool_decide (port_name p = dt_portName target)) (spec_inputs (nd_spec (wn_data node))) with
             | None => doNothing
             | Some port =>
                 if negb (artifactDropTargetFitsNode target (wn_data node) port) || alreadyHeld r (origins (tb_documentRef t)) node (dp_value payload) then doNothing
                 else match artifactDropCommands localeCompare payload target port (nd_artifactTypeBindings (wn_data node))
                              {| ds_edges := cr_edges r; ds_origins := origins (tb_documentRef t); ds_conversions := conversionsOf r |} uuid originUuid with
                      | Some (command :: commands) => applyAuthoringCommands (command :: commands) true
                      | _ => change (RoomSync.setRunError (Some ("That input will not take " +:+ artifactCardContract (dp_value payload) (cr_titles r) +:+
                               ": the port refuses the type, or two conversions tie.")))
                      end
             end
    end).

Definition tooManyTypes (numberText : jsnum → string) (n : nat) : string :=
  "Drop one artifact type at a time onto an input: this drag carries " +:+ numberText (num (Z.of_nat n)) +:+ " kinds of artifact.".

Definition dropArtifact (numberText : jsnum → string) (r : CanvasRender) (d : DataTransfer) (at_ : DropPoint) (cardUuid : nat → string) (uuid originUuid : string)
    (pending : Pending) : Pending * CanvasM :=
  if negb (isArtifactDrop d) then (pending, skip)
  else match at_row at_ with
       | None => dropArtifactOnCanvas cardUuid d at_ pending
       | Some row =>
           let groups := readArtifactDropGroups JSON_parse d in
           let target := artifactDropTargetFromRow row in
           if bool_decide (1 < length groups)
           then match readArtifactDropFolder d, target with
                | Some folder, Some target =>
                    (Some {| pf_drop := {| fd_folderName := folder; fd_groups := groups; fd_canPlaceAll := false |}; pf_destination := on_input target |}, skip)
                | _, _ => (pending, onTab (change (RoomSync.setRunError (Some (tooManyTypes numberText (length groups))))))
                end
           else match readArtifactDrop JSON_parse d, target with
                | Some payload, Some target => (pending, onTab (placeArtifactOnInput r payload target uuid originUuid))
                | _, _ => (pending, skip)
                end
       end.

Definition placeFolderDropGroups (r : CanvasRender) (groups : list ArtifactDropPayload) (cardUuid : nat → string) (uuid originUuid : string) (pending : Pending)
    : Pending * CanvasM :=
  (None,
   match pending with
   | None => skip
   | Some p =>
       match pf_destination p, groups with
       | on_canvas point, _ => placeArtifactGroups cardUuid groups point
       | on_input target, [only] => onTab (placeArtifactOnInput r only target uuid originUuid)
       | on_input _, _ => skip
       end
   end).
End drops.

(** ** A spare plug for each collection *)

Definition keepSparePlugs (r : CanvasRender) (enabled : bool) (origins : list GraphOrigin) (uuid : nat → string) : TabM :=
  if negb enabled then doNothing
  else
    let missing := collectionsWithoutSpare (cr_nodes r) (cr_edges r) origins in
    applyAuthoringCommands (imap (λ i nodeId, add_input_plug nodeId {| plug_id := uuid i; plug_port := COLLECTION_PORT |}) missing) true.

(** ** Duplicating *)

Definition DUPLICATE_OFFSET : jsnum := num 36.

Definition beside (p : GraphPoint) : GraphPoint := {| pt_x := num_add (pt_x p) DUPLICATE_OFFSET; pt_y := num_add (pt_y p) DUPLICATE_OFFSET |}.

Definition copyNode (id : string) (position : GraphPoint) (n : GraphNode) : GraphNode :=
  {| n_artifact_type_bindings := n_artifact_type_bindings n; n_config := n_config n; n_id := id; n_kind := n_kind n; n_input_plugs := n_input_plugs n;
     n_layout := n_layout n; n_operator_id := n_operator_id n; n_operator_version := n_operator_version n; n_position := position |}.

Definition copyEdge (id source target : string) (e : GraphEdge) : GraphEdge :=
  {| e_id := id; e_from_node := source; e_from_port := e_from_port e; e_to_node := target; e_to_port := e_to_port e; e_to_plug := e_to_plug e;
     e_enabled := e_enabled e; e_collection_mode := e_collection_mode e; e_projection := e_projection e; e_conversion_path := e_conversion_path e;
     e_route_offset := e_route_offset e |}.

(** [duplicatedNodeIds.get] *)
Definition copyIdOf (duplicates : list (WorkflowNode * string)) (i : string) : option string := snd <$> last (filter (λ d, wn_id d.1 = i) duplicates).

Definition duplicatesOf (nodeUuid : nat → string) (selected : list WorkflowNode) : list (WorkflowNode * string) :=
  imap (λ i n, (n, "node-" +:+ nodeUuid i)) selected.

Definition duplicatedNodes (d : AuthoredGraphDocument) (duplicates : list (WorkflowNode * string)) : list GraphNode :=
  omap (λ dup, copyNode dup.2 (beside (wn_position dup.1)) <$> find_id (wn_id dup.1) (nodes d)) duplicates.

(** The edges between duplicated nodes, with the ends of their copies. *)
Definition joinsDuplicates (duplicates : list (WorkflowNode * string)) (e : GraphEdge) : option (GraphEdge * string * string) :=
  source ← copyIdOf duplicates (e_from_node e); target ← copyIdOf duplicates (e_to_node e); Some (e, source, target).

Definition duplicatedEdges (edgeUuid : nat → string) (d : AuthoredGraphDocument) (duplicates : list (WorkflowNode * string)) : list GraphEdge :=
  imap (λ i '(e, source, target), copyEdge ("edge-" +:+ edgeUuid i) source target e) (omap (joinsDuplicates duplicates) (edges d)).

Definition copyCard (id : string) (n : ArtifactViewerNode) : ArtifactViewerNode :=
  {| vn_id := id; vn_position := beside (vn_position n); vn_selected := Some true; vn_measuredWidth := vn_measuredWidth n; vn_measuredHeight := vn_measuredHeight n;
     vn_layout := vn_layout n; vn_mode := vn_mode n; vn_artifactRef := vn_artifactRef n |}.

Definition duplicateSelectedNodes (r : CanvasRender) (running : bool) (nodeUuid edgeUuid cardUuid : nat → string) : CanvasM :=
  seeing (λ v,
    let d := tb_rendered (cv_tab v) in
    let selectedNodes := filter (λ n, wn_selected n = Some true) (cr_nodes r) in
    let selectedViewers := filter (λ n, vn_selected n = Some true) (vs_nodes (cr_cards r)) in
    if (is_nil selectedNodes && is_nil selectedViewers) || running then skip
    else
      let duplicates := duplicatesOf nodeUuid selectedNodes in
      let copies := duplicatedNodes d duplicates in
      let commands := map add_node copies ++ map add_edge (duplicatedEdges edgeUuid d duplicates) in
      let viewerIds := imap (λ i _, "artifact-viewer-" +:+ cardUuid i) selectedViewers in
      onTab (applyAuthoringCommands commands true) ;+
      when (negb (is_nil selectedViewers))
        (onTab (commitCards (λ current, on_nodes (λ ns, ns ++ imap (λ i n, copyCard ("artifact-viewer-" +:+ cardUuid i) n) selectedViewers) (withoutPresentationSelection current)))) ;+
      selectOnlyThese (ids copies) viewerIds ;+
      onTab (change (setPendingRoute None)) ;+ onTab (change (RoomSync.setRunError None))).

(** ** Adding *)

(** The data of a new node is made by a callback. *)
Definition addCatalogNode (data : WorkflowNodeData) (at_ place : option GraphPoint) (center : GraphPoint) (uuid : string) : CanvasM :=
  let id := "node-" +:+ uuid in
  let middle := {| pt_x := num_sub (pt_x center) (num 140); pt_y := num_sub (pt_y center) (num 110) |} in
  onTab (applyAuthoringCommands [addNodeCommand id data (match at_ with Some p => p | None => default middle place end)] true) ;+ selectOnlyThese [id] [].

Definition addAnnotation (kind : AnnotationKind) (at_ : option GraphPoint) (center : GraphPoint) (uuid : string) : CanvasM :=
  let middle := {| pt_x := num_sub (pt_x center) (num 80); pt_y := num_sub (pt_y center) (num 60) |} in
  let annotation := createAnnotationNode kind (default middle at_) uuid in
  commitThen (λ current, on_annotations (λ l, l ++ [annotation]) (withoutPresentationSelection current)) clearSelection.

(** ** What is drawn, and snapping the selection *)

Inductive DrawnKind :=
| dk_agent
| dk_annotation
| dk_workflow (layout : option WorkflowNodeLayout)
| dk_card (layout : option WorkflowNodeLayout).

Record DrawnNode := { dn_id : string; dn_kind : DrawnKind; dn_position : GraphPoint }.

(** Where a thing is drawn: where it is dragged here, where someone else drags it, or where it
    stands, on the grid. *)
Definition drawnPosition (transient previews : gmap string GraphPoint) (g : GridRefs) (i : string) (p : GraphPoint) : GraphPoint :=
  match transient !! i, previews !! i with
  | Some q, _ => q
  | None, Some q => q
  | None, None =>
      if shouldSnapPosition (gr_settings g) false (gr_bypass g)
      then let q := snapPosition p (gs_cellSize (gr_settings g)) in if samePoint q p then p else q
      else p
  end.

Definition allCanvasNodes (v : CanvasTab) (r : CanvasRender) (previews : gmap string GraphPoint) (g : GridRefs) : list DrawnNode :=
  let at_ i p := drawnPosition (cv_transientNodePositions v) previews g i p in
  map (λ a, {| dn_id := a_id a; dn_kind := dk_agent; dn_position := at_ (a_id a) (jsopt_or (a_position a) {| pt_x := num 0; pt_y := num 0 |}) |}) (agents (document (cv_tab v))) ++
  map (λ a, {| dn_id := ax_id a; dn_kind := dk_annotation; dn_position := at_ (ax_id a) (ax_position a) |}) (vs_annotations (cr_cards r)) ++
  map (λ n, {| dn_id := wn_id n; dn_kind := dk_workflow (nd_layout (wn_data n)); dn_position := at_ (wn_id n) (wn_position n) |}) (cr_nodes r) ++
  map (λ n, {| dn_id := vn_id n; dn_kind := dk_card (vn_layout n); dn_position := at_ (vn_id n) (vn_position n) |}) (vs_nodes (cr_cards r)).

(** [updateConfig] and [updateLayout] of a node.  The document's layout has the keys [width],
    [body_height] and [appendix_height]; the canvas hands its own layout over as it is, with the keys
    [width], [bodyHeight] and [appendixHeight], so that the last two are not there for the
    document. *)
Definition updateConfig (nodeId field : string) (value : jsval) : TabM := applyAuthoringCommands [update_node_configuration nodeId field value] true.

Definition layoutAsGiven (layout : WorkflowNodeLayout) : GraphNodeLayout :=
  {| appendix_height := Undef; body_height := Undef; GraphModel.width := match wl_width layout with Some w => Val w | None => Undef end |}.

Definition updateLayout (nodeId : string) (layout : option WorkflowNodeLayout) : TabM :=
  applyAuthoringCommands [update_node_layout nodeId (match layout with Some l => Val (layoutAsGiven l) | None => Null end)] true.

(** The layouts that snapping starts from. *)
Definition workflowSeed (current : option WorkflowNodeLayout) : WorkflowNodeLayout :=
  {| wl_width := Some (resolvedNodeWidth current); wl_bodyHeight := current ≫= wl_bodyHeight; wl_appendixHeight := current ≫= wl_appendixHeight |}.

Definition cardSeed (current : option WorkflowNodeLayout) : WorkflowNodeLayout :=
  {| wl_width := Some (resolvedNodeWidth current);
     wl_bodyHeight := Some (default (artifactCardMediaHeight DEFAULT_ARTIFACT_CARD_WIDTH) (current ≫= wl_bodyHeight));
     wl_appendixHeight := Some (resolvedAppendixHeight current) |}.

Definition snapSizeOf (cellSize : jsnum) (n : DrawnNode) : TabM :=
  match dn_kind n with
  | dk_workflow current =>
      let seed := workflowSeed current in
      updateLayout (dn_id n) (snapNodeLayout (Some seed) (layoutSnapAxes (Some seed) [ax_width]) cellSize)
  | dk_card current => commitCards (λ s, withViewerLayout s (dn_id n) (snapNodeLayout (Some (cardSeed current)) [ax_width; ax_bodyHeight; ax_appendixHeight] cellSize))
  | _ => doNothing
  end.

Definition snappedWorkflow (cellSize : jsnum) (n : DrawnNode) : option NodePosition :=
  match dn_kind n with
  | dk_workflow _ => let p := snapPosition (dn_position n) cellSize in Some {| np_node_id := dn_id n; np_x := pt_x p; np_y := pt_y p |}
  | _ => None
  end.

Definition snappedCard (cellSize : jsnum) (n : DrawnNode) : option ViewerPosition :=
  match dn_kind n with
  | dk_card _ => let p := snapPosition (dn_position n) cellSize in Some {| vp_viewer_id := dn_id n; vp_x := pt_x p; vp_y := pt_y p |}
  | _ => None
  end.

Definition snapSelectionToGrid (drawn : list DrawnNode) (selectedNodeIdSet : list string) (g : GridRefs) : TabM :=
  let settings := gr_settings g in
  let selected := filter (λ n, dn_id n ∈ selectedNodeIdSet) drawn in
  if negb (gs_enabled settings) || gr_bypass g || is_nil selected then doNothing
  else
    let cellSize := gs_cellSize settings in
    let workflowPositions := omap (snappedWorkflow cellSize) selected in
    let viewerPositions := omap (snappedCard cellSize) selected in
    andAlso
      (if gs_snapPosition settings
       then andAlso (if is_nil workflowPositions then doNothing else applyAuthoringCommands [move_nodes workflowPositions] true)
              (if is_nil viewerPositions then doNothing
               else andAlso (change (setArtifactViewers (on_nodes (map (moveCard viewerPositions))))) (submitMove viewerPositions))
       else doNothing)
      (if gs_snapSize settings then foldr andAlso doNothing (map (snapSizeOf cellSize) selected) else doNothing).
