(* ===== verification/CanvasEditsTheory.v ===== *)
(** * What edits on the canvas do

    Duplicates are copies with the edges between them, a mixed drag is never cut, one card lands for
    each group that is dropped, and what the canvas loses on the way to the document. *)

From stdpp Require Import numbers list gmap strings.
From S2P Require Import Prelude Js JsNum JsText JsJson GraphModel GraphCommands GraphTheory RoomBridge AuthoringState Handles Routes RoutesTheory Canvas Connections InputPlugs NodeLayout ConfigSchema ExecutionPlan.
From S2P Require Import ArtifactCards ArtifactDrop LibraryTree LibraryDrag Hydration Viewers Grouping GridLayout Collections Feeds CardConnections CardCommands RoomSync RoomSyncTheory Connecting ConnectingTheory CanvasChanges CanvasChangesTheory CanvasEdits.
#[local] Open Scope nat_scope.
#[local] Open Scope canvas_scope.

(** ** Duplicates *)

Lemma add_nodes_fold ns : ∀ d, NoDup (ids ns) → (∀ i, i ∈ ids ns → i ∉ ids (nodes d)) →
  res_fold applyGraphCommandNormalized d (map add_node ns) = Ok (with_nodes (nodes d ++ map projectSavedGraphNode ns) d).
Proof.
  induction ns as [|n ns IH]; intros d Hnd Hfresh; cbn [map res_fold].
  - rewrite app_nil_r. by destruct d.
  - apply NoDup_cons in Hnd as [Hn Hnd]. cbn [applyGraphCommandNormalized].
    destruct (some_id (n_id n) (nodes d)) eqn:E; [apply some_id_spec in E; exfalso; apply (Hfresh (n_id n)); [left|done]|].
    cbn. rewrite IH; [|done|].
    + cbn. by rewrite <- app_assoc.
    + intros i Hi. cbn. unfold ids. rewrite fmap_app, elem_of_app. intros [Hd|Hd]; [apply (Hfresh i); [by right|done]|].
      cbn in Hd. apply list_elem_of_singleton in Hd. subst i. by apply Hn.
Qed.

Lemma add_edges_fold es : ∀ d, NoDup (ids es) → (∀ i, i ∈ ids es → i ∉ ids (edges d)) →
  res_fold applyGraphCommandNormalized d (map add_edge es) = Ok (with_edges (edges d ++ map projectSavedGraphEdge es) d).
Proof.
  induction es as [|n es IH]; intros d Hnd Hfresh; cbn [map res_fold].
  - rewrite app_nil_r. by destruct d.
  - apply NoDup_cons in Hnd as [Hn Hnd]. cbn [applyGraphCommandNormalized].
    destruct (some_id (e_id n) (edges d)) eqn:E; [apply some_id_spec in E; exfalso; apply (Hfresh (e_id n)); [left|done]|].
    cbn. rewrite IH; [|done|].
    + cbn. by rewrite <- app_assoc.
    + intros i Hi. cbn. unfold ids. rewrite fmap_app, elem_of_app. intros [Hd|Hd]; [apply (Hfresh i); [by right|done]|].
      cbn in Hd. apply list_elem_of_singleton in Hd. subst i. by apply Hn.
Qed.

Lemma copyIdOf_Some duplicates i j : copyIdOf duplicates i = Some j → ∃ n, (n, j) ∈ duplicates ∧ wn_id n = i.
Proof.
  unfold copyIdOf. intros ([n j'] & Hl & ->)%fmap_Some. apply last_Some_elem_of in Hl. apply list_elem_of_filter in Hl as [Hi Hl]. by exists n.
Qed.

Lemma copyIdOf_in duplicates n j : (n, j) ∈ duplicates → is_Some (copyIdOf duplicates (wn_id n)).
Proof.
  intros Hin. unfold copyIdOf. destruct (last _) eqn:E; [by eexists|]. apply last_None in E.
  assert ((n, j) ∈ filter (λ d, wn_id d.1 = wn_id n) duplicates) as H by by apply list_elem_of_filter. rewrite E in H. by apply not_elem_of_nil in H.
Qed.

(** Each selected node is in the document. *)
Definition all_authored (d : AuthoredGraphDocument) (selected : list WorkflowNode) : Prop := Forall (λ n, wn_id n ∈ ids (nodes d)) selected.

Lemma duplicatesOf_fst nodeUuid selected : map fst (duplicatesOf nodeUuid selected) = selected.
Proof. unfold duplicatesOf. revert nodeUuid. induction selected as [|n l IH]; intros f; [done|]. cbn. f_equal. apply (IH (f ∘ S)). Qed.

Lemma copies_ids d duplicates : Forall (λ dup : WorkflowNode * string, wn_id dup.1 ∈ ids (nodes d)) duplicates → ids (duplicatedNodes d duplicates) = map snd duplicates.
Proof.
  induction 1 as [|dup l Hd Hl IH]; [done|]. unfold duplicatedNodes. cbn [omap list_omap]. apply find_id_is_Some in Hd as [n Hf]. rewrite Hf. cbn. f_equal. apply IH.
Qed.

Lemma joined_copies edgeUuid d duplicates e' : e' ∈ duplicatedEdges edgeUuid d duplicates →
  ∃ e k source target, e ∈ edges d ∧ copyIdOf duplicates (e_from_node e) = Some source ∧ copyIdOf duplicates (e_to_node e) = Some target ∧
    e' = copyEdge ("edge-" +:+ edgeUuid k) source target e.
Proof.
  unfold duplicatedEdges. intros (k & [[e source] target] & -> & Hk)%elem_of_lookup_imap_1. apply list_elem_of_lookup_2, list_elem_of_omap in Hk as (e0 & He & Hj).
  unfold joinsDuplicates in Hj. apply bind_Some in Hj as (s & Hs & Hj). apply bind_Some in Hj as (t & Ht & Hj). injection Hj as -> -> ->. by exists e, k, source, target.
Qed.

Lemma each_edge_is_copied edgeUuid d duplicates e source target : e ∈ edges d → copyIdOf duplicates (e_from_node e) = Some source → copyIdOf duplicates (e_to_node e) = Some target →
  ∃ k, copyEdge ("edge-" +:+ edgeUuid k) source target e ∈ duplicatedEdges edgeUuid d duplicates.
Proof.
  intros He Hs Ht. assert ((e, source, target) ∈ omap (joinsDuplicates duplicates) (edges d)) as Hin.
  { apply list_elem_of_omap. exists e. split; [done|]. unfold joinsDuplicates. by rewrite Hs, Ht. }
  apply list_elem_of_lookup_1 in Hin as [k Hk]. exists k. unfold duplicatedEdges. apply (elem_of_lookup_imap_2 (λ i '(e, s, t), copyEdge ("edge-" +:+ edgeUuid i) s t e) _ _ _ Hk).
Qed.

(** The document is [d]. *)
Definition shows_document (d : AuthoredGraphDocument) (t : Tab) : Prop := document t = d.

Lemma commit_keeps_document d f : keepsT (shows_document d) (commitCards f).
Proof.
  intros t Ht. unfold commitCards, looking. destruct (tb_enabledRef t); [|done]. cbn [negb]. rewrite after_change.
  unfold submitReplace, submitPresentationCommand, looking. destruct (inOpenGraph _ _); [|done]. unfold submitRoomCommands, looking. by destruct (tb_canSubmit _).
Qed.

Lemma select_keeps_document d ns vs : keeps (onTabOf (shows_document d)) (selectOnlyThese ns vs).
Proof. by intros v Hv. Qed.

Lemma commitThen_keeps_document d f k : keeps (onTabOf (shows_document d)) k → keeps (onTabOf (shows_document d)) (commitThen f k).
Proof. intros Hk. apply keeps_seeing. intros v. apply canvas_keeps_then; [apply keeps_onTab, commit_keeps_document|by apply keeps_when]. Qed.

#[export] Hint Resolve commit_keeps_document select_keeps_document commitThen_keeps_document : canvas.

Section duplicate.
Context (r : CanvasRender) (nodeUuid edgeUuid cardUuid : nat → string).

Definition selectedNodes : list WorkflowNode := filter (λ n, wn_selected n = Some true) (cr_nodes r).
Definition duplicates : list (WorkflowNode * string) := duplicatesOf nodeUuid selectedNodes.

(** The ids that are drawn are new to the document and to each other. *)
Record fresh_copies (d : AuthoredGraphDocument) : Prop := {
  fc_nodes : NoDup (ids (duplicatedNodes d duplicates));
  fc_edges : NoDup (ids (duplicatedEdges edgeUuid d duplicates));
  fc_new_nodes : ∀ i, i ∈ ids (duplicatedNodes d duplicates) → i ∉ ids (nodes d);
  fc_new_edges : ∀ i, i ∈ ids (duplicatedEdges edgeUuid d duplicates) → i ∉ ids (edges d)
}.

Lemma duplicated_document d : fresh_copies d →
  res_fold applyGraphCommandNormalized (normalize d) (map add_node (duplicatedNodes d duplicates) ++ map add_edge (duplicatedEdges edgeUuid d duplicates)) =
  Ok (with_edges (edges (normalize d) ++ map projectSavedGraphEdge (duplicatedEdges edgeUuid d duplicates))
        (with_nodes (nodes (normalize d) ++ map projectSavedGraphNode (duplicatedNodes d duplicates)) (normalize d))).
Proof.
  intros [Hn He Hn' He']. destruct (normalize_ids d) as (Ein & Eie & _). rewrite res_fold_app, add_nodes_fold; [|done|by rewrite Ein]. cbn [mbind res_bind].
  rewrite add_edges_fold; [done|done|]. change (edges (with_nodes ?x (normalize d))) with (edges (normalize d)). by rewrite Eie.
Qed.

Lemma duplicates_fst : duplicates.*1 = selectedNodes.
Proof. apply duplicatesOf_fst. Qed.

Lemma duplicates_authored d : all_authored d selectedNodes → Forall (λ dup : WorkflowNode * string, wn_id dup.1 ∈ ids (nodes d)) duplicates.
Proof.
  intros Hall. apply Forall_forall. intros dup Hin. unfold all_authored in Hall. rewrite Forall_forall in Hall. apply Hall.
  rewrite <- (duplicatesOf_fst nodeUuid selectedNodes). apply list_elem_of_fmap. by exists dup.
Qed.

(** The document after the gesture. *)
Lemma duplicated_canvas v :
  tb_enabledRef (cv_tab v) = true → tb_rendered (cv_tab v) = document (cv_tab v) → selectedNodes ≠ [] →
  all_authored (document (cv_tab v)) selectedNodes → fresh_copies (document (cv_tab v)) →
  let d := document (cv_tab v) in
  document (cv_tab (duplicateSelectedNodes r false nodeUuid edgeUuid cardUuid v).1) =
    with_edges (edges (normalize d) ++ map projectSavedGraphEdge (duplicatedEdges edgeUuid d duplicates))
      (with_nodes (nodes (normalize d) ++ map projectSavedGraphNode (duplicatedNodes d duplicates)) (normalize d)).
Proof.
  intros He Hr Hs Hall Hf d. pose proof (duplicates_authored d Hall) as Hdup.
  unfold duplicateSelectedNodes, seeing. fold selectedNodes. fold duplicates. rewrite Hr. fold d. assert (is_nil selectedNodes = false) as -> by by destruct selectedNodes. cbn [andb orb].
  rewrite fst_then, fst_onTab. set (cs := map add_node _ ++ map add_edge _).
  assert (cs ≠ []) as Hcs.
  { unfold cs. destruct (duplicatedNodes d duplicates) eqn:E; [|done]. exfalso. apply (f_equal ids) in E. rewrite copies_ids in E by done. unfold duplicates in E.
    apply (f_equal length) in E. cbn in E. rewrite length_map in E. unfold duplicatesOf in E. rewrite length_imap in E. by destruct selectedNodes. }
  assert (document (applyAuthoringCommands cs true (cv_tab v)).1 = with_edges (edges (normalize d) ++ map projectSavedGraphEdge (duplicatedEdges edgeUuid d duplicates))
      (with_nodes (nodes (normalize d) ++ map projectSavedGraphNode (duplicatedNodes d duplicates)) (normalize d))) as Hd.
  { unfold document at 1. destruct (gesture_state (cv_tab v) cs Hcs He) as [-> _]. apply reduce_ok. by apply duplicated_document. }
  rewrite <- Hd. match goal with |- document (cv_tab (?m ?w).1) = _ => apply (canvas_keeps_then (shows_document (document (cv_tab w))) _ _) end; [..|done].
  - apply keeps_when, keeps_onTab, commit_keeps_document.
  - apply canvas_keeps_then; [apply select_keeps_document|]. by apply canvas_keeps_then; apply keeps_onTab, keepsT_change.
Qed.

(** [n'] is a copy of the node [n] of the document, beside where the canvas shows it as [w]. *)
Record node_copied (w : WorkflowNode) (n n' : GraphNode) : Prop := {
  nc_shown : n_id n = wn_id w;
  nc_operator : n_operator_id n' = n_operator_id n;
  nc_version : n_operator_version n' = n_operator_version n;
  nc_kind : n_kind n' = n_kind n;
  nc_config : n_config n' = n_config n;
  nc_bindings : n_artifact_type_bindings n' = n_artifact_type_bindings n;
  nc_plugs : n_input_plugs n' = n_input_plugs n;
  nc_layout : n_layout n' = n_layout n;
  nc_x : pt_x (n_position n') = num_add (pt_x (wn_position w)) (num 36);
  nc_y : pt_y (n_position n') = num_add (pt_y (wn_position w)) (num 36)
}.

(** The copy of the selected node [i] has the id [j]. *)
Definition copied_as (copies : list GraphNode) (i j : string) : Prop :=
  ∃ k w n', selectedNodes !! k = Some w ∧ copies !! k = Some n' ∧ wn_id w = i ∧ n_id n' = j.

(** [e'] is a copy of the edge [e], between the copies of its ends. *)
Record edge_copied (copies : list GraphNode) (e e' : GraphEdge) : Prop := {
  ec_from : copied_as copies (e_from_node e) (e_from_node e');
  ec_to : copied_as copies (e_to_node e) (e_to_node e');
  ec_from_port : e_from_port e' = e_from_port e;
  ec_to_port : e_to_port e' = e_to_port e;
  ec_to_plug : e_to_plug e' = e_to_plug e;
  ec_enabled : e_enabled e' = e_enabled e;
  ec_mode : e_collection_mode e' = e_collection_mode e;
  ec_projection : e_projection e' = e_projection e;
  ec_path : e_conversion_path e' = e_conversion_path e;
  ec_offset : e_route_offset e' = e_route_offset e
}.

Lemma normalized_lists d :
  nodes (normalize d) = projectSavedGraphNode <$> nodes d ∧ edges (normalize d) = projectSavedGraphEdge <$> edges d.
Proof.
  split.
  - change (nodes (normalize d)) with (projectSavedGraphNode <$> (projectSavedGraphNode <$> nodes d)).
    rewrite <- list_fmap_compose. apply list_fmap_ext. intros i n _. apply projectNode_idem.
  - change (edges (normalize d)) with (projectSavedGraphEdge <$> (projectSavedGraphEdge <$> edges d)).
    rewrite <- list_fmap_compose. apply list_fmap_ext. intros i e _. apply projectEdge_idem.
Qed.

Lemma copies_of_nodes d dups : Forall (λ dup : WorkflowNode * string, wn_id dup.1 ∈ ids (nodes d)) dups →
  Forall2 (λ dup n', n_id n' = dup.2 ∧ ∃ n, n ∈ nodes (normalize d) ∧ node_copied dup.1 n n')
    dups (map projectSavedGraphNode (duplicatedNodes d dups)).
Proof.
  induction 1 as [|dup l Hd Hl IH]; [constructor|]. unfold duplicatedNodes. cbn [omap list_omap].
  apply find_id_is_Some in Hd as [n Hf]. rewrite Hf. cbn [fmap option_fmap option_map map]. constructor; [|exact IH]. split; [done|].
  exists (projectSavedGraphNode n). apply find_id_Some in Hf as [Hn Hi]. split; [rewrite (proj1 (normalized_lists d)); by apply (list_elem_of_fmap_2 projectSavedGraphNode)|]. by split.
Qed.

Lemma edges_joined dups l :
  Forall2 (λ e est, est.1.1 = e ∧ copyIdOf dups (e_from_node e) = Some est.1.2 ∧ copyIdOf dups (e_to_node e) = Some est.2)
    (filter (λ e, e_from_node e ∈ ids dups.*1 ∧ e_to_node e ∈ ids dups.*1) l) (omap (joinsDuplicates dups) l).
Proof.
  assert (∀ i, i ∈ ids dups.*1 ↔ is_Some (copyIdOf dups i)) as Hc.
  { intros i. split.
    - intros (n & ([m j] & -> & Hm)%list_elem_of_fmap & <-)%elem_of_ids. by eapply copyIdOf_in.
    - intros [j (n & Hn & <-)%copyIdOf_Some]. apply elem_of_ids. exists n. split; [|done]. apply list_elem_of_fmap. by exists (n, j). }
  induction l as [|e l IH]; [constructor|]. cbn [omap list_omap]. rewrite filter_cons. unfold joinsDuplicates at 1.
  destruct (copyIdOf dups (e_from_node e)) as [s|] eqn:Hs; cbn [mbind option_bind];
    [destruct (copyIdOf dups (e_to_node e)) as [t|] eqn:Ht; cbn [mbind option_bind]|].
  - rewrite decide_True by (rewrite !Hc, Hs, Ht; split; by eexists). by constructor.
  - rewrite decide_False; [done|]. rewrite !Hc, Ht. by intros [_ []].
  - rewrite decide_False; [done|]. rewrite !Hc, Hs. by intros [[] _].
Qed.

Lemma copied_as_Some d i j : all_authored d selectedNodes → copyIdOf duplicates i = Some j →
  copied_as (map projectSavedGraphNode (duplicatedNodes d duplicates)) i j.
Proof.
  intros Hall (n & [k Hk]%list_elem_of_lookup & Hn)%copyIdOf_Some.
  assert (Forall (λ dup : WorkflowNode * string, wn_id dup.1 ∈ ids (nodes d)) duplicates) as Hdup by by apply duplicates_authored.
  destruct (Forall2_lookup_l _ _ _ _ _ (copies_of_nodes d duplicates Hdup) Hk) as (n' & Hn' & Hj & _). exists k, n, n'.
  split_and!; [|done..]. rewrite <- duplicates_fst. by rewrite list_lookup_fmap, Hk.
Qed.

Lemma kept_projected (l : list GraphEdge) :
  filter (λ e, e_from_node e ∈ ids selectedNodes ∧ e_to_node e ∈ ids selectedNodes) (projectSavedGraphEdge <$> l) =
  projectSavedGraphEdge <$> filter (λ e, e_from_node e ∈ ids selectedNodes ∧ e_to_node e ∈ ids selectedNodes) l.
Proof. induction l as [|e l IH]; [done|]. rewrite fmap_cons, !filter_cons, IH. cbn [projectSavedGraphEdge e_from_node e_to_node]. by case_decide. Qed.

Lemma copies_of_edges d : all_authored d selectedNodes →
  Forall2 (edge_copied (map projectSavedGraphNode (duplicatedNodes d duplicates)))
    (filter (λ e, e_from_node e ∈ ids selectedNodes ∧ e_to_node e ∈ ids selectedNodes) (edges (normalize d)))
    (map projectSavedGraphEdge (duplicatedEdges edgeUuid d duplicates)).
Proof.
  intros Hall. rewrite (proj2 (normalized_lists d)). pose proof (edges_joined duplicates (edges d)) as Hj.
  unfold duplicatedEdges. rewrite duplicates_fst in Hj.
  rewrite kept_projected. apply Forall2_fmap. apply Forall2_same_length_lookup. rewrite length_imap. split; [by eapply Forall2_length|].
  intros k e e' Hk Hk'. rewrite list_lookup_imap in Hk'. destruct (Forall2_lookup_l _ _ _ _ _ Hj Hk) as ([[e0 s] t] & He0 & Heq & Hs & Ht).
  cbn [fst snd] in Heq, Hs, Ht. subst e0. rewrite He0 in Hk'. injection Hk' as <-. split; [by apply copied_as_Some|by apply copied_as_Some|done..].
Qed.

(** C14: duplicating a selection of nodes that are in the document, where editing is allowed and
    the canvas is up to date, under ids that are not taken: what was there stays, and after it come
    a copy of each selected node (its operator, version, kind, configuration, types, plugs and
    layout, 36 to the right of and below where it is shown) and a copy of each edge between two
    selected nodes, between the copies of its own two ends, with its ports, plug, state, mode,
    projection, conversions and route; and nothing else: no edge to or from another node, and no
    origin.  ``What was there'' is the document as a command leaves it, with its optional fields
    filled in. *)
Theorem duplicates_are_copies v :
  tb_enabledRef (cv_tab v) = true → tb_rendered (cv_tab v) = document (cv_tab v) → selectedNodes ≠ [] →
  all_authored (document (cv_tab v)) selectedNodes → fresh_copies (document (cv_tab v)) →
  let before := normalize (document (cv_tab v)) in
  let after := document (cv_tab (duplicateSelectedNodes r false nodeUuid edgeUuid cardUuid v).1) in
  ∃ copies joined,
    nodes after = nodes before ++ copies ∧ edges after = edges before ++ joined ∧
    origins after = origins before ∧ agents after = agents before ∧ name after = name before ∧
    Forall2 (λ w n', ∃ n, n ∈ nodes before ∧ node_copied w n n') selectedNodes copies ∧
    Forall2 (edge_copied copies) (filter (λ e, e_from_node e ∈ ids selectedNodes ∧ e_to_node e ∈ ids selectedNodes) (edges before)) joined.
Proof.
  intros He Hr Hs Hall Hf before after. set (d := document (cv_tab v)) in *.
  exists (map projectSavedGraphNode (duplicatedNodes d duplicates)), (map projectSavedGraphEdge (duplicatedEdges edgeUuid d duplicates)).
  unfold after. rewrite duplicated_canvas by done. fold d. fold before. split_and!; [done..| |by apply copies_of_edges].
  rewrite <- duplicates_fst at 1. apply Forall2_fmap_l. eapply Forall2_impl; [by apply copies_of_nodes, duplicates_authored|].
  by intros dup n' [_ ?].
Qed.
End duplicate.

(** ** Drops *)

Section drop_theory.
Context (localeCompare : string → string → Z) (JSON_parse : string → res jsval) (numberText : jsnum → string).

(** A drag of several types is never cut down to fit an input: the tab asks which group is meant,
    with all of them to choose from, or says that it takes one at a time; the document and the cards
    are left alone. *)
Theorem mixed_drop_is_never_cut r d at_ row cardUuid uuid originUuid pending v :
  isArtifactDrop d = true → at_row at_ = Some row → 1 < length (readArtifactDropGroups JSON_parse d) →
  let groups := readArtifactDropGroups JSON_parse d in
  let '(pending', action) := dropArtifact localeCompare JSON_parse numberText r d at_ cardUuid uuid originUuid pending in
  document (cv_tab (action v).1) = document (cv_tab v) ∧ tb_cards (cv_tab (action v).1) = tb_cards (cv_tab v) ∧ (action v).2 = [] ∧
  ((∃ p, pending' = Some p ∧ fd_groups (pf_drop p) = groups ∧ fd_canPlaceAll (pf_drop p) = false) ∨
   (pending' = pending ∧ tb_runError (cv_tab (action v).1) = Some (tooManyTypes numberText (length groups)))).
Proof.
  intros Hd Hrow Hlen groups. unfold dropArtifact. rewrite Hd, Hrow. cbn [negb]. rewrite bool_decide_true by done.
  destruct (readArtifactDropFolder d) as [folder|], (artifactDropTargetFromRow row) as [target|]; cbn; split_and!; try done; try (by right).
  left. by eexists.
Qed.

Lemma addedCards_values uuid cards : map vn_artifactRef (addedCards uuid cards) = map fst cards.
Proof. unfold addedCards. revert uuid. induction cards as [|[x p] l IH]; intros uuid; [done|]. cbn. f_equal. apply (IH (uuid ∘ S)). Qed.

(** On empty canvas one card lands for each group, in their order and with their values, after the
    cards that are there; the drop of one folder with several groups asks first. *)
Theorem each_group_becomes_a_card uuid groups point v :
  groups ≠ [] → tb_enabledRef (cv_tab v) = true →
  let after := cv_tab (placeArtifactGroups uuid groups point v).1 in
  ids (vs_nodes (tb_cards after)) = ids (vs_nodes (tb_cards (cv_tab v))) ++ imap (λ i _, "artifact-viewer-" +:+ uuid i) groups ∧
  map vn_artifactRef (vs_nodes (tb_cards after)) = map vn_artifactRef (vs_nodes (tb_cards (cv_tab v))) ++ map dp_value groups ∧
  document after = document (cv_tab v) ∧ tb_selectedNodeIds after = [].
Proof.
  intros Hg He after. unfold after, placeArtifactGroups, addCards. set (cards := imap _ groups).
  assert (is_nil cards = false) as -> by by destruct groups.
  assert (map fst cards = map dp_value groups) as Hv.
  { unfold cards. generalize (artifactCardDropPositions point (map groupExtent groups)). clear. intros ps. revert ps. induction groups as [|g l IH]; intros ps; [done|]. cbn. f_equal.
    rewrite <- (IH (tail ps)). f_equal. apply imap_ext. intros i x _. cbn. by destruct ps. }
  assert (ids (addedCards uuid cards) = imap (λ i _, "artifact-viewer-" +:+ uuid i) groups) as Hi.
  { apply list_eq. intros i. unfold ids, addedCards, cards. rewrite list_lookup_fmap, !list_lookup_imap. by destruct (groups !! i). }
  unfold commitThen, seeing. rewrite He. cbn [when]. rewrite fst_then, fst_onTab. unfold commitCards, looking. rewrite He. cbn [negb]. rewrite after_change.
  set (f := λ current, on_nodes _ _). set (t := setArtifactViewers f (cv_tab v)).
  assert (∀ s x, tb_cards (submitReplace s x).1 = tb_cards x ∧ document (submitReplace s x).1 = document x) as Hsub.
  { intros s x. unfold submitReplace, submitPresentationCommand, looking. destruct (inOpenGraph _ _); [|done]. unfold submitRoomCommands, looking. by destruct (tb_canSubmit x). }
  set (s := on_nodes _ _) in |- *. destruct (Hsub s t) as [Hc Hdoc]. destruct (submitReplace s t) as [t' cs]. cbn [fst] in *.
  unfold document in *. cbn -[ids map]. rewrite Hc, Hdoc. unfold t, f. cbn -[ids map].
  split_and!; try done.
  - unfold ids. rewrite fmap_app. f_equal; [|exact Hi]. unfold deselectNodes. by rewrite <- list_fmap_compose.
  - rewrite map_app. f_equal; [|by rewrite addedCards_values]. unfold deselectNodes. change (map vn_artifactRef ?l) with (vn_artifactRef <$> l). by rewrite <- list_fmap_compose.
Qed.

(** Artifacts dragged from the Library to empty canvas land as one card for each type among them:
    what the Library writes, the drag carries and the canvas places are the same values. *)
Theorem library_drag_lands_by_type r items dragUuid point cardUuid uuid originUuid pending v :
  items ≠ [] → tb_enabledRef (cv_tab v) = true →
  let payloads := map artifactDropPayload (artifactDropGroups dragUuid items) in
  (∀ x, x = JArr (map (λ item, JStr (it_id item)) items) ∨ x = JArr (map payloadValue payloads) ∨ x ∈ map payloadValue payloads → JSON_parse (text numberText x) = Ok x) →
  let d := writeLibraryArtifactDrag numberText dragUuid items ∅ in
  let '(pending', action) := dropArtifact localeCompare JSON_parse numberText r d {| at_row := None; at_canvas := true; at_flow := Some point |} cardUuid uuid originUuid pending in
  pending' = pending ∧
  map vn_artifactRef (vs_nodes (tb_cards (cv_tab (action v).1))) = map vn_artifactRef (vs_nodes (tb_cards (cv_tab v))) ++ artifactDropGroups dragUuid items.
Proof.
  intros Hne He payloads Hparse d. destruct (library_drag_is_read_back numberText JSON_parse dragUuid items [] Hne Hparse) as (_ & Hread & Hfolder & His). fold d payloads in Hread, Hfolder, His.
  unfold dropArtifact. rewrite His. cbn [negb at_row]. unfold dropArtifactOnCanvas. rewrite Hread, Hfolder. cbn [at_canvas negb orb at_flow default].
  assert (payloads ≠ []) as Hp by (unfold payloads; pose proof (groups_not_nil dragUuid items Hne); by destruct (artifactDropGroups dragUuid items)).
  assert (is_nil payloads = false) as -> by by destruct payloads. split; [done|].
  destruct (each_group_becomes_a_card cardUuid payloads point v Hp He) as (_ & H & _). etransitivity; [exact H|]. f_equal. unfold payloads. rewrite map_map. apply List.map_id.
Qed.
End drop_theory.

(** ** What gets lost *)

(** The heights of a resized node never reach the document: whatever layout the canvas gives a
    node, the document keeps its width and has no heights. *)
Theorem resized_heights_are_lost t nodeId layout :
  tb_enabledRef t = true → nodeId ∈ ids (nodes (document t)) →
  ∀ n, n ∈ nodes (document (updateLayout nodeId (Some layout) t).1) → n_id n = nodeId →
  ∃ l, n_layout n = Val l ∧ body_height l = Null ∧ appendix_height l = Null ∧ GraphModel.width l = orNull (wl_width layout).
Proof.
  intros He Hin n Hn Hid. destruct (normalize_ids (document t)) as (Hids & _). rewrite <- Hids in Hin.
  set (c := update_node_layout nodeId (Val (layoutAsGiven layout))). set (f := GraphModel.set_layout (GraphCommands.projectSavedGraphLayout (Val (layoutAsGiven layout)))).
  assert (applyGraphCommandNormalized (normalize (document t)) c = Ok (with_nodes (map_id nodeId f (nodes (normalize (document t)))) (normalize (document t)))) as Hd.
  { cbn [applyGraphCommandNormalized c]. rewrite (updateNode_pure _ _ f). destruct (some_id _ _) eqn:E; [done|]. exfalso. apply some_id_spec in Hin. congruence. }
  unfold updateLayout in Hn. fold c in Hn. unfold document at 1 in Hn. destruct (gesture_state t [c]) as [Ha _]; [done..|]. rewrite Ha in Hn.
  destruct (reduce_ok (tb_authoring t) [c] _ ltac:(cbn [res_fold]; fold (document t); rewrite Hd; reflexivity)) as [Hd' _].
  rewrite Hd' in Hn. cbn [nodes with_nodes] in Hn. apply list_elem_of_fmap in Hn as (m & -> & Hm). case_bool_decide as Hi; [|done].
  eexists. split; [done|]. cbn. by destruct (wl_width layout).
Qed.

(** Snapping the selection passes over the cards: the set it asks holds nodes only, so where no
    card's id is in it the cards stay as they are, selected or not. *)
Theorem snapping_passes_over_cards drawn selected g t :
  Forall (λ n, match dn_kind n with dk_card _ => dn_id n ∉ selected | _ => True end) drawn →
  tb_cards (snapSelectionToGrid drawn selected g t).1 = tb_cards t.
Proof.
  intros Hd. unfold snapSelectionToGrid. set (sel := filter _ drawn).
  assert (Forall (λ n, match dn_kind n with dk_card _ => False | _ => True end) sel) as Hsel.
  { apply Forall_forall. intros n Hn. unfold sel in Hn. apply list_elem_of_filter in Hn as [Hi Hn]. rewrite Forall_forall in Hd. specialize (Hd n Hn). by destruct (dn_kind n). }
  assert (omap (snappedCard (gs_cellSize (gr_settings g))) sel = []) as ->.
  { clear Hd. induction Hsel as [|n l Hn Hl IH]; [done|]. cbn. unfold snappedCard at 1. by destruct (dn_kind n). }
  set (P := λ x : Tab, tb_cards x = tb_cards t). assert (∀ cs, pruneCards cs = (λ s, s) → keepsT P (applyAuthoringCommands cs true)) as Hcs.
  { intros cs Hp x Hx. unfold P in *. destruct cs as [|c cs]; [done|]. destruct (tb_enabledRef x) eqn:E.
    - destruct (gesture_state x (c :: cs)) as [_ ->]; [done..|]. by rewrite Hp.
    - unfold applyAuthoringCommands, looking, shouldBlockAuthoringCommand. by rewrite E. }
  assert (keepsT P (if gs_snapSize (gr_settings g) then foldr andAlso doNothing (map (snapSizeOf (gs_cellSize (gr_settings g))) sel) else doNothing)) as Hsize.
  { apply keepsT_if; [|apply keepsT_nothing]. induction Hsel as [|n l Hn Hl IH]; [apply keepsT_nothing|]. cbn [map foldr]. apply keepsT_then; [|exact IH].
    unfold snapSizeOf. destruct (dn_kind n); try apply keepsT_nothing; [|done]. by apply Hcs. }
  destruct (negb _ || _ || _); [done|]. apply (keepsT_then P); [|exact Hsize|done]. apply keepsT_if; [|apply keepsT_nothing].
  apply keepsT_then; [|apply keepsT_nothing]. apply keepsT_if; [apply keepsT_nothing|by apply Hcs].
Qed.

(** Duplicating where editing is refused drops the selection and hides why. *)
Theorem refused_duplicate_hides_the_reason r nodeUuid edgeUuid cardUuid v :
  tb_enabledRef (cv_tab v) = false → selectedNodes r ≠ [] →
  let after := cv_tab (duplicateSelectedNodes r false nodeUuid edgeUuid cardUuid v).1 in
  document after = document (cv_tab v) ∧ tb_runError after = None ∧
  tb_selectedNodeIds after = ids (duplicatedNodes (tb_rendered (cv_tab v)) (duplicates r nodeUuid)).
Proof.
  intros He Hs after. unfold after, duplicateSelectedNodes, seeing. fold (selectedNodes r). fold (duplicates r nodeUuid).
  assert (is_nil (selectedNodes r) = false) as -> by by destruct (selectedNodes r). cbn [andb orb]. rewrite fst_then. set (cs := map add_node _ ++ _).
  assert (keepsT (blockedWith (document (cv_tab v))) (applyAuthoringCommands cs true)) as Hc by apply blocked_commands.
  rewrite fst_onTab. destruct (Hc (cv_tab v)) as [He1 Hd1]; [done|]. set (t1 := (applyAuthoringCommands cs true (cv_tab v)).1) in *. rewrite fst_then.
  set (v2 := (when _ _ _).1). assert (document (cv_tab v2) = document (cv_tab v)) as Hd2.
  { rewrite <- Hd1. apply (keeps_when (shows_document (document t1))); [apply keeps_onTab, commit_keeps_document|done]. }
  clearbody v2. rewrite !fst_then. rewrite !fst_onTab. unfold document in *. cbn. by rewrite Hd2.
Qed.

(** ** Witnesses *)

Definition edit_render : CanvasRender :=
  {| cr_nodes := map (λ n, {| wn_id := wn_id n; wn_selected := Some true; wn_position := wn_position n; wn_data := wn_data n |}) text_nodes;
     cr_edges := []; cr_cards := some_cards; cr_registry := None; cr_titles := None |}.

Definition counted (n : nat) : string := match n with 0 => "0" | 1 => "1" | _ => "2" end.

(** Both ends of the edge of the document are duplicated, at the plug that it ends at. *)
Lemma duplicates_are_copies_witness :
  let after := document (cv_tab (duplicateSelectedNodes edit_render false counted counted counted (canvas_of sample_tab)).1) in
  ids (nodes after) = ["a"; "b"; "c"; "node-0"; "node-1"] ∧
  map (λ e, (e_id e, e_from_node e, e_to_node e, e_to_plug e)) (edges after) = [("e", "a", "b", Val "p"); ("edge-0", "node-0", "node-1", Val "p")] ∧
  ∃ copies joined, nodes after = nodes (normalize (document sample_tab)) ++ copies ∧ edges after = edges (normalize (document sample_tab)) ++ joined ∧
    Forall2 (edge_copied edit_render copies) (edges (normalize (document sample_tab))) joined.
Proof.
  split; [vm_compute; reflexivity|]. split; [vm_compute; reflexivity|].
  destruct (duplicates_are_copies edit_render counted counted counted (canvas_of sample_tab)) as (copies & joined & H1 & H2 & _ & _ & _ & _ & H3); [done..| | |].
  - apply Forall_cons. split; [|apply Forall_singleton]; vm_compute; set_solver.
  - split.
    + vm_compute. repeat constructor; set_solver.
    + vm_compute. repeat constructor; set_solver.
    + intros i Hi. vm_compute in Hi |- *. set_solver.
    + intros i Hi. vm_compute in Hi |- *. set_solver.
  - exists copies, joined. split; [exact H1|]. split; [exact H2|exact H3].
Defined.
