(* ===== verification/Discovery.v ===== *)
(** * Releasing a wire on empty canvas ([ui/Workbench.tsx])

    A wire that is let go over nothing places a card that follows the output, or opens a menu
    of nodes that can take the output or feed the input; a choice of the menu adds the node
    and the edge at once.  An action also says which menu is open afterwards.  Selection of
    agents and the opening of the library are left out. *)

From stdpp Require Import numbers list.
From S2P Require Import Prelude Js JsNum JsText GraphModel GraphCommands RoomBridge AuthoringState Handles Routes RoutesTheory Canvas Connections InputPlugs NodeLayout ConfigSchema ExecutionPlan.
From S2P Require Import ArtifactCards ArtifactDrop Hydration Viewers Grouping Collections Feeds CardConnections NodeCatalog RoomSync RoomSyncTheory Connecting ConnectingTheory.
#[local] Open Scope nat_scope.
#[local] Open Scope tab_scope.

Record ContextualDiscoverySession := {
  dx_graphId : option string;
  dx_sourceNodeId : string;
  dx_sourceHandle : string;
  dx_sourcePortTitle : string;
  dx_upstream : bool;
  dx_clientAnchor : GraphPoint;
  dx_flowPosition : GraphPoint;
  dx_candidates : list ContextualCandidate
}.

(** What the callbacks close over besides the canvas. *)
Record DiscoveryContext := {
  dc_registry : option CatalogRegistry;
  dc_canEditProject : bool;
  dc_running : bool;
  dc_openGraphId : option string
}.

Definition mayDiscover (x : DiscoveryContext) : option CatalogRegistry :=
  if negb (dc_canEditProject x) || dc_running x then None else dc_registry x.

(** The end of a drag: where it started ([true] for an input handle), whether it ended on
    something, and the point, on the screen and in the canvas. *)
Record WireRelease := {
  wr_fromHandle : option (bool * option string);
  wr_onTarget : bool;
  wr_fromNode : option string;
  wr_clientPoint : GraphPoint;
  wr_flowPosition : GraphPoint;
  wr_onCanvas : bool
}.

(** [selectOnly] of one node. *)
Definition selectNode (id : string) : TabM := change (setSelected [id] []) ;>> change (setArtifactViewers (selectOnly [] [])).

Definition hasMaterialized (node : WorkflowNode) (port : Port) : bool :=
  match nd_run (wn_data node) with
  | Some run =>
      match rr_status run with
      | nr_succeeded => existsb (λ o, bool_decide (ro_port o = port_name port) && negb (is_nil (ro_artifacts o))) (rr_outputs run)
      | _ => false
      end
  | None => false
  end.

Section release.
Context (localeCompare : string → string → Z).

(** The card and its feed; nothing else stays selected when editing is allowed. *)
Definition placeFollowingCard (fromNode : WorkflowNode) (port : Port) (flowPosition : GraphPoint) (uuid linkUuid : string) : TabM :=
  let viewerId := "artifact-viewer-" +:+ uuid in
  let link := {| vx_id := "artifact-viewer-edge-" +:+ linkUuid; vx_source := wn_id fromNode; vx_target := viewerId; vx_targetHandle := Some ARTIFACT_VIEWER_INPUT_HANDLE;
                 vx_data := Some {| vx_sourcePortName := port_name port; vx_projection := None; vx_routeOffset := None |} |} in
  let placedCard := {| vn_id := viewerId; vn_position := flowPosition; vn_selected := Some true; vn_measuredWidth := None; vn_measuredHeight := None;
                       vn_layout := None; vn_mode := Some "artifact"; vn_artifactRef := JNull |} in
  looking (λ t,
    commitCards (λ current, on_edges (λ es, es ++ [link]) (on_nodes (λ ns, ns ++ [placedCard]) (withoutPresentationSelection current))) ;>>
    if tb_enabledRef t then change (setSelected [] []) else doNothing).

(** The handle a release started from, with its port. *)
Definition releasedPort (r : CanvasRender) (e : WireRelease) : option (bool * string * PortMeta * WorkflowNode * Port) :=
  from ← wr_fromHandle e;
  if wr_onTarget e then None
  else
    let upstream := from.1 in
    handleId ← truthy from.2;
    decoded ← decodeHandleId (Some handleId);
    if negb (bool_decide (direction decoded = if (upstream : bool) then input else output)) then None
    else
      fromNode ← wr_fromNode e ≫= λ i, find_id i (cr_nodes r);
      if negb (workflowNodeIsSupported fromNode) then None
      else
        port ← findPort (if (upstream : bool) then wn_inputs fromNode else wn_outputs fromNode) (Some decoded);
        Some (upstream, handleId, decoded, fromNode, port).

Definition onConnectEnd (x : DiscoveryContext) (r : CanvasRender) (e : WireRelease) (uuid linkUuid : string) : option ContextualDiscoverySession * TabM :=
  match mayDiscover x, releasedPort r e with
  | Some registry, Some (upstream, handleId, decoded, fromNode, port) =>
      if negb upstream && outputReleasePlacesArtifactCard (wr_onCanvas e) (effectivePortShape (wn_data fromNode) port) (hasMaterialized fromNode port)
      then (None, placeFollowingCard fromNode port (wr_flowPosition e) uuid linkUuid)
      else
        let nodes := catalogNodeSpecs registry in
        match (if upstream then upstreamCandidatesFromInput localeCompare port handleId registry nodes
               else downstreamCandidatesFromOutput localeCompare port handleId (feed decoded) registry nodes) with
        | Throw message => (None, call (Uncaught message))
        | Ok [] => (None, doNothing)
        | Ok candidates =>
            (Some {| dx_graphId := dc_openGraphId x; dx_sourceNodeId := wn_id fromNode; dx_sourceHandle := handleId; dx_sourcePortTitle := portText port;
                     dx_upstream := upstream; dx_clientAnchor := wr_clientPoint e; dx_flowPosition := wr_flowPosition e; dx_candidates := candidates |}, doNothing)
        end
  | _, _ => (None, doNothing)
  end.
End release.

(** ** A choice of the menu *)

Definition DEFAULT_NODE_PLACEMENT_HEIGHT : Z := 220.

(** The new node's data, with the binding that is at its end of the edge. *)
Definition boundNodeData (upstream : bool) (route : ConnectionRoute) (data : WorkflowNodeData) : WorkflowNodeData :=
  match routeBinding route with
  | Some b =>
      match rb_endpoint b, upstream with
      | atSource, true | atTarget, false => with_bindings (binding_set (rb_variable b) (rb_artifactType b) (nd_artifactTypeBindings data)) data
      | _, _ => data
      end
  | None => data
  end.

(** The commands of a choice; [Ok None] is the early return of an input without a plug. *)
Definition discoveredCommands (session : ContextualDiscoverySession) (choice : ContextualRouteChoice) (data : WorkflowNodeData) (id edgeId : string)
    : res (option (list GraphCommand)) :=
  let upstream := dx_upstream session in
  let plug := if negb upstream && cx_usesInstancePlug choice
              then wp_id <$> find (λ p, bool_decide (wp_portName p = port_name (cx_candidatePort choice))) (nd_inputPlugs data) else None in
  if negb upstream && cx_usesInstancePlug choice && bool_decide (truthy plug = None) then Ok None
  else
    match portMetaForPort (cx_candidatePort choice) (port_shape (cx_candidatePort choice)) (if upstream then None else plug) (nd_artifactTypeBindings data) with
    | None => Throw (untypedPort (cx_candidatePort choice))
    | Some meta =>
        let candidateHandle := Some (encodeHandleId meta) in
        let existingHandle := canonicalHandleId (Some (dx_sourceHandle session)) in
        let edgeConnection :=
          if upstream
          then {| cn_source := id; cn_sourceHandle := candidateHandle; cn_target := dx_sourceNodeId session; cn_targetHandle := existingHandle |}
          else {| cn_source := dx_sourceNodeId session; cn_sourceHandle := existingHandle; cn_target := id; cn_targetHandle := candidateHandle |} in
        let position := {| pt_x := pt_x (dx_flowPosition session); pt_y := num_sub (pt_y (dx_flowPosition session)) (num (DEFAULT_NODE_PLACEMENT_HEIGHT / 2)) |} in
        edgeCommand ← addEdgeCommand edgeConnection (Some (routeEdgeData (cx_collectionMode choice) (cx_route choice))) edgeId;
        Ok (Some [addNodeCommand id data position; edgeCommand])
    end.

(** [plugs] are the ids drawn for the plugs of the new node.  New node data is always made
    ([new_data_is_made]). *)
Definition confirmContextualDiscovery (x : DiscoveryContext) (session : option ContextualDiscoverySession) (candidate : ContextualCandidate) (choice : ContextualRouteChoice)
    (uuid edgeUuid : string) (plugs : nat → string) : option ContextualDiscoverySession * TabM :=
  match session, mayDiscover x, createWorkflowNodeData plugs (ct_spec (cx_spec candidate)) None with
  | Some s, Some _, Some data =>
      let id := "node-" +:+ uuid in
      match discoveredCommands s choice (boundNodeData (dx_upstream s) (cx_route choice) data) id ("edge-" +:+ edgeUuid) with
      | Throw message => (session, call (Uncaught message))
      | Ok None => (session, doNothing)
      | Ok (Some commands) => (None, applyAuthoringCommands commands true ;>> selectNode id ;>> clearRunError)
      end
  | _, _, _ => (session, doNothing)
  end.

(** [activeContextualDiscovery] *)
Definition activeContextualDiscovery (x : DiscoveryContext) (session : option ContextualDiscoverySession) : option ContextualDiscoverySession :=
  s ← session;
  if dc_canEditProject x && negb (dc_running x) && bool_decide (dx_graphId s = dc_openGraphId x) then Some s else None.

(** ** New nodes *)

(** A new node always has its data: the one relation a query starts with has a free name. *)
Lemma new_data_is_made plugs spec : is_Some (createWorkflowNodeData plugs spec None).
Proof. unfold createWorkflowNodeData. destruct (_ && _); [|by eexists]. cbn. by eexists. Qed.

(** A choice adds one node and one edge, which joins the new node to the node the wire started
    from; a plug that the edge names is one of the new node's. *)
Theorem discovered_edge_joins_the_new_node session choice data id edgeId commands :
  discoveredCommands session choice data id edgeId = Ok (Some commands) →
  ∃ n e, commands = [add_node n; add_edge e] ∧ n_id n = id ∧ e_id e = edgeId ∧ e_collection_mode e = cx_collectionMode choice ∧
    (e_from_node e, e_to_node e) = (if dx_upstream session then (id, dx_sourceNodeId session) else (dx_sourceNodeId session, id)) ∧
    (dx_upstream session = false → cx_usesInstancePlug choice = true → ∃ p, p ∈ n_input_plugs n ∧ plug_port p = port_name (cx_candidatePort choice)).
Proof.
  unfold discoveredCommands. set (plug := if negb (dx_upstream session) && cx_usesInstancePlug choice then _ else _).
  destruct (_ && bool_decide (truthy plug = None)) eqn:Hplug; [done|]. destruct (portMetaForPort _ _ _ _) as [meta|]; [|done].
  destruct (addEdgeCommand _ _ _) as [c|] eqn:Hc; cbn [mbind res_bind]; [|done]. intros [= <-]. apply addEdgeCommand_inv in Hc as (e & -> & Hid & Hs & Ht & _ & Hm).
  eexists _, e. split_and!; try done.
  - rewrite Hs, Ht. by destruct (dx_upstream session).
  - intros Hup Huse. unfold plug in Hplug. rewrite Hup, Huse in Hplug. cbn in Hplug. apply bool_decide_eq_false in Hplug.
    destruct (find _ (nd_inputPlugs data)) as [p|] eqn:Hp; [|done]. apply find_some in Hp as [Hin Hname]. apply bool_decide_eq_true in Hname.
    eexists. split; [apply list_elem_of_fmap; exists p; split; [reflexivity|by apply list_elem_of_In]|done].
Qed.

(** ** Samples *)

Definition discovery_context : DiscoveryContext :=
  {| dc_registry := Some sample_registry; dc_canEditProject := true; dc_running := false; dc_openGraphId := Some "g" |}.

Definition released_over_nothing (fromInput : bool) (handle : option string) (node : string) : WireRelease :=
  {| wr_fromHandle := Some (fromInput, handle); wr_onTarget := false; wr_fromNode := Some node; wr_clientPoint := {| pt_x := num 0; pt_y := num 0 |};
     wr_flowPosition := {| pt_x := num 0; pt_y := num 0 |}; wr_onCanvas := true |}.

Definition first_choice (session : option ContextualDiscoverySession) : option (ContextualCandidate * ContextualRouteChoice) :=
  s ← session; candidate ← head (dx_candidates s); pair candidate <$> head (cx_choices candidate).

(** The tab after the first choice of the menu that a release opens. *)
Definition after_first_choice (r : CanvasRender) (e : WireRelease) (t : Tab) : option Tab :=
  let session := (onConnectEnd one_by_one discovery_context r e "u" "l").1 in
  choice ← first_choice session;
  Some ((confirmContextualDiscovery discovery_context session choice.1 choice.2 "u" "v" (λ _, "p")).2 t).1.

Definition fed_document : AuthoredGraphDocument :=
  {| name := "g"; nodes := []; edges := [{| e_id := "e"; e_from_node := "a"; e_from_port := "text"; e_to_node := "b"; e_to_port := "text"; e_to_plug := Null;
     e_enabled := true; e_collection_mode := MDirect; e_projection := Null; e_conversion_path := []; e_route_offset := Null |}]; origins := []; agents := [] |}.

Definition tab_of (d : AuthoredGraphDocument) : Tab := set_authoring {| st_document := d; st_nodeOverlays := ∅; st_error := None |} sample_tab.

(** The menu does not look at what feeds the input already: a choice gives a plain input its
    second edge, which the canvas would refuse to connect. *)
Theorem menu_feeds_an_input_twice :
  let r := {| cr_nodes := text_nodes; cr_edges := [text_edge "e" "a" "b"]; cr_cards := cr_cards wiring_render; cr_registry := None; cr_titles := None |} in
  option_map (λ t, (λ e, (e_from_node e, e_to_node e, e_to_port e)) <$> edges (document t))
    (after_first_choice r (released_over_nothing true (text_handle input) "b") (tab_of fed_document)) = Some [("a", "b", "text"); ("node-u", "b", "text")] ∧
  isConnectionAccepted one_by_one (text_connection "c" "b") (text_node "c" :: text_nodes) (cr_edges r) [] [] None [] = false.
Proof.
  intros r. split; vm_compute; reflexivity.
Qed.

(** An input that takes any type. *)
Definition any_port : Port :=
  {| port_name := "value"; port_title := None; port_direction := input; port_shape := one; port_accepted_shapes := [one];
     port_variadic := false; port_required := true; port_instance_plugs := false; port_shape_field := None;
     port_artifact_type := None; port_artifact_type_variable := Some "T"; port_also_accepts := [] |}.

Definition any_node : WorkflowNode :=
  {| wn_id := "n"; wn_selected := None; wn_position := {| pt_x := num 0; pt_y := num 0 |}; wn_data := createSavedNodeData (plain_spec "any.show" [any_port] []) [] |}.

Definition any_handle : option string := encodeHandleId <$> portMetaForPort any_port one None [].

Definition any_document : AuthoredGraphDocument :=
  {| name := "g"; nodes := [{| n_artifact_type_bindings := []; n_config := Val []; n_id := "n"; n_kind := KBuiltin; n_input_plugs := []; n_layout := Null;
     n_operator_id := "any.show"; n_operator_version := num 1; n_position := {| pt_x := num 0; pt_y := num 0 |} |}]; edges := []; origins := []; agents := [] |}.

(** A choice binds the type variable of the new node only: fed from the menu, an input of any
    type stays unbound, where a wire from the same output binds it first. *)
Theorem menu_leaves_the_variable_unbound :
  let r := {| cr_nodes := [any_node; text_node "a"]; cr_edges := []; cr_cards := cr_cards wiring_render; cr_registry := None; cr_titles := None |} in
  option_map (λ t, (n_artifact_type_bindings <$> filter (λ n, n_id n = "n") (nodes (document t)), e_to_node <$> edges (document t)))
    (after_first_choice r (released_over_nothing true any_handle "n") (tab_of any_document)) = Some ([[]], ["n"]) ∧
  ((λ n, variable <$> n_artifact_type_bindings n) <$>
    nodes (document (onConnect one_by_one r {| cn_source := "a"; cn_sourceHandle := text_handle output; cn_target := "n"; cn_targetHandle := any_handle |} "u" "o" (tab_of any_document)).1)) = [["T"]].
Proof. intros r. split; vm_compute; reflexivity. Qed.
