(* ===== verification/Presence.v ===== *)
(** * Presence on the canvas

    What this tab tells the others of its pointer, selection and drags
    ([ui/Workbench.tsx], schedulePresenceSnapshot and its callers), and what it shows of theirs:
    selections ([room/remote-selection.ts]) and nodes that they drag
    ([room/remote-drag-preview.ts], [room/useRemoteDragPreviews.ts]).

    A record or a [Map] whose order nobody reads is a finite map.  Timers are the events of
    a trace; unmounting is not modelled. *)

From stdpp Require Import gmap strings.
From S2P Require Import Prelude Js JsText GraphModel Protocol RoomSession CanvasChanges.
#[local] Open Scope string_scope.
#[local] Open Scope list_scope.

(** ** Selections of others *)

Definition ACTOR_COLOR : list (string * string) :=
  [("indigo", "#4f46e5"); ("emerald", "#059669"); ("amber", "#d97706"); ("rose", "#e11d48");
   ("sky", "#0284c7"); ("violet", "#7c3aed"); ("teal", "#0d9488"); ("orange", "#ea580c")].

Definition colorOf (name : string) : option string := snd <$> find (λ kv, bool_decide (kv.1 = name)) ACTOR_COLOR.

Definition actorColor (name : string) : string := default (default "#4f46e5" (colorOf "indigo")) (colorOf name).

(** [participant.project_room_session_id !== localSessionId] *)
Definition isRemote (localSessionId : option string) (p : PresenceParticipant) : bool :=
  bool_decide (Some (p_project_room_session_id p) ≠ localSessionId).

Definition remoteSelectedNodeIds (participants : list PresenceParticipant) (localSessionId : option string) : list string :=
  js_set (concat (map p_selected_node_ids (filter (λ p, isRemote localSessionId p = true) participants))).

Fixpoint remoteSelectionColor (participants : list PresenceParticipant) (localSessionId : option string) (nodeId : string) : option string :=
  match participants with
  | [] => None
  | p :: rest =>
      if negb (isRemote localSessionId p) then remoteSelectionColor rest localSessionId nodeId
      else if bool_decide (nodeId ∈ p_selected_node_ids p) then Some (actorColor (color (p_actor p)))
      else remoteSelectionColor rest localSessionId nodeId
  end.

(** ** Drags of others *)

Definition addClaims (p : PresenceParticipant) (targets : gmap string TransientNodePosition) : gmap string TransientNodePosition :=
  foldl (λ m t, <[tp_node_id t := t]> m) targets (p_transient_node_positions p).

Definition remoteDragTargetsFromParticipants (participants : list PresenceParticipant) (localSessionId : option string) : gmap string TransientNodePosition :=
  foldl (λ m p, if isRemote localSessionId p then addClaims p m else m) ∅ participants.

Definition REMOTE_DRAG_RELEASE_HOLD_MS : Z := 320.

(** [positions], [heldRef] and the keys of [releaseTimersRef] *)
Record DragPreviews := {
  dp_positions : gmap string GraphPoint;
  dp_held : gmap string GraphPoint;
  dp_releaseTimers : gset string
}.

Definition noPreviews : DragPreviews := {| dp_positions := ∅; dp_held := ∅; dp_releaseTimers := ∅ |}.

Definition targetPoint (t : TransientNodePosition) : GraphPoint := {| pt_x := tp_x t; pt_y := tp_y t |}.

(** The three collections that the effect works on. *)
Record Previewing := { pv_live : gmap string GraphPoint; pv_held : gmap string GraphPoint; pv_timers : gset string }.

Definition previewTarget (localDragging : list string) (v : Previewing) (entry : string * TransientNodePosition) : Previewing :=
  let '(nodeId, position) := entry in
  if bool_decide (nodeId ∈ localDragging) then v
  else {| pv_live := <[nodeId := targetPoint position]> (pv_live v); pv_held := delete nodeId (pv_held v);
          pv_timers := pv_timers v ∖ {[nodeId]} |}.

Definition releasePreview (targets : gmap string TransientNodePosition) (localDragging : list string) (v : Previewing) (nodeId : string) : Previewing :=
  if bool_decide (is_Some (targets !! nodeId)) || bool_decide (nodeId ∈ localDragging) then v
  else if bool_decide (nodeId ∈ pv_timers v) then v
  else
    match pv_live v !! nodeId with
    | Some p => {| pv_live := pv_live v; pv_held := <[nodeId := p]> (pv_held v); pv_timers := {[nodeId]} ∪ pv_timers v |}
    | None => v
    end.

Definition dropLocal (v : Previewing) (nodeId : string) : Previewing :=
  {| pv_live := delete nodeId (pv_live v); pv_held := delete nodeId (pv_held v); pv_timers := pv_timers v ∖ {[nodeId]} |}.

(** [!==] on numbers: NaN differs from itself. *)
Definition sameNumber (a b : jsnum) : bool := bool_decide (a = b) && negb (bool_decide (a = NNaN)).

Definition samePositions (left right : gmap string GraphPoint) : bool :=
  bool_decide (size left = size right) &&
  forallb (λ kv, match right !! kv.1 with
                 | Some b => sameNumber (pt_x kv.2) (pt_x b) && sameNumber (pt_y kv.2) (pt_y b)
                 | None => false
                 end) (map_to_list left).

(** The effect of a render in which the participants or the session changed. *)
Definition syncPreviews (participants : list PresenceParticipant) (localSessionId : option string) (localDragging : list string) (s : DragPreviews) : DragPreviews :=
  let targets := remoteDragTargetsFromParticipants participants localSessionId in
  let v0 := {| pv_live := dp_held s; pv_held := dp_held s; pv_timers := dp_releaseTimers s |} in
  let v1 := foldl (previewTarget localDragging) v0 (map_to_list targets) in
  let v2 := foldl (releasePreview targets localDragging) v1 (map fst (map_to_list (pv_live v1))) in
  let v3 := foldl dropLocal v2 localDragging in
  {| dp_positions := if samePositions (dp_positions s) (pv_live v3) then dp_positions s else pv_live v3;
     dp_held := pv_held v3; dp_releaseTimers := pv_timers v3 |}.

(** The timer of a released node, [REMOTE_DRAG_RELEASE_HOLD_MS] later. *)
Definition releaseTimer (nodeId : string) (s : DragPreviews) : DragPreviews :=
  if bool_decide (nodeId ∈ dp_releaseTimers s) then
    {| dp_positions := delete nodeId (dp_positions s); dp_held := delete nodeId (dp_held s);
       dp_releaseTimers := dp_releaseTimers s ∖ {[nodeId]} |}
  else s.

Inductive PreviewEvent :=
| pe_presence (participants : list PresenceParticipant) (localSessionId : option string) (localDragging : list string)
| pe_timer (nodeId : string).

Definition previewStep (s : DragPreviews) (e : PreviewEvent) : DragPreviews :=
  match e with
  | pe_presence ps me local => syncPreviews ps me local s
  | pe_timer i => releaseTimer i s
  end.

Definition previewsAfter (events : list PreviewEvent) : DragPreviews := foldl previewStep noPreviews events.

(** ** What this tab tells *)

(** A pending snapshot: when it is due, and whether its closure has the renderer. *)
Record PendingSnapshot := { ps_due : Z; ps_flow : bool }.

Record PresenceTab := {
  pt_canPublish : bool;
  pt_flow : bool;
  pt_cursor : option PresencePoint;
  pt_clientPoint : option PresencePoint;
  pt_clientPointDirty : bool;
  pt_overCanvas : bool;
  pt_drag : option (list NodePosition);
  pt_selectedNodeIds : list string;
  pt_publishTimer : option PendingSnapshot;
  pt_lastPublishAt : Z
}.

Definition PresenceTab_start : PresenceTab :=
  {| pt_canPublish := false; pt_flow := false; pt_cursor := None; pt_clientPoint := None; pt_clientPointDirty := false; pt_overCanvas := false;
     pt_drag := None; pt_selectedNodeIds := []; pt_publishTimer := None; pt_lastPublishAt := 0 |}.

Definition set_publish (t : option PendingSnapshot) (at_ : Z) (p : PresenceTab) : PresenceTab :=
  {| pt_canPublish := pt_canPublish p; pt_flow := pt_flow p; pt_cursor := pt_cursor p; pt_clientPoint := pt_clientPoint p;
     pt_clientPointDirty := pt_clientPointDirty p; pt_overCanvas := pt_overCanvas p; pt_drag := pt_drag p;
     pt_selectedNodeIds := pt_selectedNodeIds p; pt_publishTimer := t; pt_lastPublishAt := at_ |}.
Definition set_pointer (over : bool) (client : option PresencePoint) (dirty : bool) (cursor : option PresencePoint) (p : PresenceTab) : PresenceTab :=
  {| pt_canPublish := pt_canPublish p; pt_flow := pt_flow p; pt_cursor := cursor; pt_clientPoint := client;
     pt_clientPointDirty := dirty; pt_overCanvas := over; pt_drag := pt_drag p;
     pt_selectedNodeIds := pt_selectedNodeIds p; pt_publishTimer := pt_publishTimer p; pt_lastPublishAt := pt_lastPublishAt p |}.
Definition set_drag (drag : option (list NodePosition)) (p : PresenceTab) : PresenceTab :=
  {| pt_canPublish := pt_canPublish p; pt_flow := pt_flow p; pt_cursor := pt_cursor p; pt_clientPoint := pt_clientPoint p;
     pt_clientPointDirty := pt_clientPointDirty p; pt_overCanvas := pt_overCanvas p; pt_drag := drag;
     pt_selectedNodeIds := pt_selectedNodeIds p; pt_publishTimer := pt_publishTimer p; pt_lastPublishAt := pt_lastPublishAt p |}.
Definition set_selectedNodeIds (l : list string) (p : PresenceTab) : PresenceTab :=
  {| pt_canPublish := pt_canPublish p; pt_flow := pt_flow p; pt_cursor := pt_cursor p; pt_clientPoint := pt_clientPoint p;
     pt_clientPointDirty := pt_clientPointDirty p; pt_overCanvas := pt_overCanvas p; pt_drag := pt_drag p;
     pt_selectedNodeIds := l; pt_publishTimer := pt_publishTimer p; pt_lastPublishAt := pt_lastPublishAt p |}.
Definition set_room (can flow : bool) (p : PresenceTab) : PresenceTab :=
  {| pt_canPublish := can; pt_flow := flow; pt_cursor := pt_cursor p; pt_clientPoint := pt_clientPoint p;
     pt_clientPointDirty := pt_clientPointDirty p; pt_overCanvas := pt_overCanvas p; pt_drag := pt_drag p;
     pt_selectedNodeIds := pt_selectedNodeIds p; pt_publishTimer := pt_publishTimer p; pt_lastPublishAt := pt_lastPublishAt p |}.

Definition schedulePresenceSnapshot (now : Z) (p : PresenceTab) : PresenceTab :=
  if negb (pt_canPublish p) then p
  else
    match pt_publishTimer p with
    | Some _ => p
    | None =>
        let elapsed := (now - pt_lastPublishAt p)%Z in
        let delay := Z.max 0 (PRESENCE_CLIENT_MIN_INTERVAL_MS - elapsed) in
        set_publish (Some {| ps_due := now + delay; ps_flow := pt_flow p |}) (pt_lastPublishAt p) p
    end.

(** The snapshot that is handed to the room. *)
Definition presenceSnapshot (p : PresenceTab) : PresenceUpdate :=
  {| pu_graph_id := Undef; pu_cursor := match pt_cursor p with Some c => Val c | None => Null end;
     pu_selected_node_ids := Val (pt_selectedNodeIds p); pu_selected_edge_ids := Undef;
     pu_activity := match pt_drag p with Some _ => Val moving_nodes_activity | None => Null end;
     pu_activity_target_ids := Val (match pt_drag p with Some l => map np_node_id l | None => [] end);
     pu_transient_node_positions := Val (match pt_drag p with
       | Some l => map (λ q, {| tp_node_id := np_node_id q; tp_x := np_x q; tp_y := np_y q |}) l | None => [] end) |}.

(** The timer: [toFlow] is [flow.screenToFlowPosition] under the view it finds. *)
Definition takeSnapshot (toFlow : PresencePoint → PresencePoint) (p : PresenceTab) : PresenceTab :=
  match pt_publishTimer p with
  | None => p
  | Some t =>
      let p := set_publish None (pt_lastPublishAt p) p in
      match pt_clientPoint p with
      | Some c => if pt_clientPointDirty p && ps_flow t then set_pointer (pt_overCanvas p) (Some c) false (Some (toFlow c)) p else p
      | None => p
      end
  end.

Definition published (accepted : bool) (now : Z) (p : PresenceTab) : PresenceTab :=
  if accepted then set_publish (pt_publishTimer p) now p else p.

Definition presenceSelectionKey (selectedNodeIds : list string) : string := Js.join (chr Ascii.zero) selectedNodeIds.

(** A change of [selectedNodeIds]: its key decides whether the effect runs again. *)
Definition selectNodes (now : Z) (l : list string) (p : PresenceTab) : PresenceTab :=
  let p' := set_selectedNodeIds l p in
  if bool_decide (presenceSelectionKey (pt_selectedNodeIds p) = presenceSelectionKey l) then p'
  else schedulePresenceSnapshot now p'.

(** A render in which [canPublishPresence] or the renderer changed: the effect that clears, and
    the one that schedules with a new callback. *)
Definition roomChanged (now : Z) (can flow : bool) (p : PresenceTab) : PresenceTab :=
  if bool_decide (can = pt_canPublish p ∧ flow = pt_flow p) then p
  else
    let p' := set_room can flow p in
    let p' := if can then p' else if bool_decide (can = pt_canPublish p) then p' else set_publish None 0 p' in
    schedulePresenceSnapshot now p'.

Definition pointerMove (now : Z) (c : PresencePoint) (p : PresenceTab) : PresenceTab :=
  if negb (pt_canPublish p) || negb (pt_flow p) then p
  else schedulePresenceSnapshot now (set_pointer true (Some c) true (pt_cursor p) p).

Definition pointerLeave (now : Z) (p : PresenceTab) : PresenceTab :=
  schedulePresenceSnapshot now (set_pointer false None false None p).

Definition keepalive (now : Z) (p : PresenceTab) : PresenceTab :=
  if negb (pt_canPublish p) then p
  else if negb (pt_overCanvas p) || bool_decide (pt_cursor p = None) then p else schedulePresenceSnapshot now p.

Inductive PresenceEvent :=
| pr_room (can flow : bool)
| pr_select (l : list string)
| pr_drag (drag : option (list NodePosition))
| pr_move (c : PresencePoint)
| pr_leave
| pr_keepalive
| pr_timer (toFlow : PresencePoint → PresencePoint) (accepted : bool).

(** One event at a time [now], and what was handed to the room with the room's answer. *)
Definition presenceStep (now : Z) (e : PresenceEvent) (p : PresenceTab) : PresenceTab * list (PresenceUpdate * bool) :=
  match e with
  | pr_room can flow => (roomChanged now can flow p, [])
  | pr_select l => (selectNodes now l p, [])
  | pr_drag d => (schedulePresenceSnapshot now (set_drag d p), [])
  | pr_move c => (pointerMove now c p, [])
  | pr_leave => (pointerLeave now p, [])
  | pr_keepalive => (keepalive now p, [])
  | pr_timer toFlow accepted =>
      match pt_publishTimer p with
      | Some t =>
          if bool_decide (ps_due t ≤ now)%Z then
            let p1 := takeSnapshot toFlow p in (published accepted now p1, [(presenceSnapshot p1, accepted)])
          else (p, [])
      | None => (p, [])
      end
  end.

Fixpoint presenceRun (p : PresenceTab) (events : list (Z * PresenceEvent)) : PresenceTab * list (PresenceUpdate * bool) :=
  match events with
  | [] => (p, [])
  | (now, e) :: rest =>
      let '(p1, out) := presenceStep now e p in
      let '(p2, outs) := presenceRun p1 rest in (p2, out ++ outs)
  end.
