(* ===== verification/PresenceTheory.v ===== *)
(** * Presence: what the others see of this tab, and this tab of them *)

From stdpp Require Import gmap strings.
From S2P Require Import Prelude Js JsNum JsText GraphModel Protocol RoomSession CanvasChanges Presence.
#[local] Open Scope string_scope.
#[local] Open Scope list_scope.

(** ** Selections of others *)

(** A node has the colour of a remote participant exactly when one selects it: the two
    readings of the participants agree. *)
Lemma remote_selection_has_a_color participants me nodeId :
  is_Some (remoteSelectionColor participants me nodeId) ↔ nodeId ∈ remoteSelectedNodeIds participants me.
Proof.
  unfold remoteSelectedNodeIds. rewrite js_set_spec.
  induction participants as [|p l IH]; cbn [remoteSelectionColor]; [split; [by intros []|by intros ?%elem_of_nil]|].
  rewrite filter_cons. destruct (isRemote me p) eqn:Hr; cbn [negb]; [rewrite decide_True by done|rewrite decide_False by done; exact IH].
  cbn [map concat]. rewrite elem_of_app, <- IH. case_bool_decide as Hin; [split; [by left|done]|]. split; [by right|by intros [?|?]].
Qed.

(** ** Drags of others *)

Definition remoteClaims (participants : list PresenceParticipant) (me : option string) : list TransientNodePosition :=
  concat (map p_transient_node_positions (filter (λ p, isRemote me p = true) participants)).

Definition claim (m : gmap string TransientNodePosition) (t : TransientNodePosition) : gmap string TransientNodePosition := <[tp_node_id t := t]> m.

Lemma targets_claims participants me m :
  foldl (λ m p, if isRemote me p then addClaims p m else m) m participants = foldl claim m (remoteClaims participants me).
Proof.
  unfold remoteClaims. revert m. induction participants as [|p l IH]; intros m; cbn [foldl]; [done|].
  rewrite filter_cons, IH. destruct (isRemote me p); [rewrite decide_True by done|by rewrite decide_False by done].
  cbn [map concat]. by rewrite foldl_app.
Qed.

Lemma claimed l m i : foldl claim m l !! i = match last (filter (λ t, tp_node_id t = i) l) with Some t => Some t | None => m !! i end.
Proof.
  induction l as [|t l IH] using rev_ind; [done|]. rewrite foldl_app, filter_app. cbn [foldl]. unfold claim at 1.
  rewrite filter_cons, filter_nil. destruct (decide (tp_node_id t = i)) as [<-|Hi].
  - rewrite lookup_insert_eq. by rewrite last_snoc.
  - rewrite lookup_insert_ne by done. by rewrite app_nil_r, IH.
Qed.

(** A node is previewed where the last remote participant that drags it, in the order of the
    list, puts it last; the drags of this session do not count. *)
Theorem target_is_the_last_claim participants me i :
  remoteDragTargetsFromParticipants participants me !! i = last (filter (λ t, tp_node_id t = i) (remoteClaims participants me)).
Proof. unfold remoteDragTargetsFromParticipants. rewrite targets_claims, claimed, lookup_empty. by destruct (last _). Qed.

Lemma preview_targets local l v : NoDup l.*1 →
  let v' := foldl (previewTarget local) v l in
  (∀ i, pv_live v' !! i = if bool_decide (i ∈ local) then pv_live v !! i
                          else match (list_to_map l : gmap string TransientNodePosition) !! i with Some t => Some (targetPoint t) | None => pv_live v !! i end) ∧
  pv_held v' ⊆ pv_held v ∧ pv_timers v' ⊆ pv_timers v.
Proof.
  cbn zeta. revert v. induction l as [|[k t] l IH]; intros v; cbn [fmap list_fmap foldl]; intros Hd.
  - split; [|done]. intros i. by case_bool_decide.
  - apply NoDup_cons in Hd as [Hk Hd]. destruct (IH (previewTarget local v (k, t)) Hd) as (Hl & Hh & Ht). clear IH. split.
    + intros i. rewrite Hl. cbn [list_to_map fst snd foldr]. unfold previewTarget.
      destruct (decide (i = k)) as [->|Hi].
      * rewrite lookup_insert_eq. rewrite not_elem_of_list_to_map_1 by done. case_bool_decide; cbn [pv_live]; [done|]. by rewrite lookup_insert_eq.
      * rewrite lookup_insert_ne by done. destruct (bool_decide (k ∈ local)); cbn [pv_live]; [done|]. by rewrite lookup_insert_ne by done.
    + assert (pv_held (previewTarget local v (k, t)) ⊆ pv_held v ∧ pv_timers (previewTarget local v (k, t)) ⊆ pv_timers v) as [Hh' Ht'].
      { unfold previewTarget. case_bool_decide; cbn [pv_held pv_timers]; [done|]. split; [apply delete_subseteq|set_solver]. }
      split; [by etrans|set_solver].
Qed.

Lemma releases_nothing targets local l v : (∀ i, i ∈ l → is_Some (targets !! i)) → foldl (releasePreview targets local) v l = v.
Proof.
  induction l as [|i l IH]; cbn [foldl]; intros Hl; [done|]. unfold releasePreview at 2. rewrite bool_decide_true by (apply Hl; set_solver).
  cbn [orb]. apply IH. set_solver.
Qed.

Lemma drops_local l v :
  let v' := foldl dropLocal v l in
  (∀ i, pv_live v' !! i = if bool_decide (i ∈ l) then None else pv_live v !! i) ∧ pv_held v' ⊆ pv_held v ∧ pv_timers v' ⊆ pv_timers v.
Proof.
  cbn zeta. revert v. induction l as [|k l IH]; intros v; cbn [foldl]; [split; [|done]; intros i; by rewrite bool_decide_false by apply not_elem_of_nil|].
  destruct (IH (dropLocal v k)) as (Hl & Hh & Ht). cbn [dropLocal pv_live pv_held pv_timers] in Hl, Hh, Ht. split; [|split].
  - intros i. rewrite Hl. destruct (decide (i = k)) as [->|Hi].
    + rewrite lookup_delete_eq. rewrite (bool_decide_true (k ∈ k :: l)) by set_solver. by case_bool_decide.
    + rewrite lookup_delete_ne by done. do 2 case_bool_decide; set_solver.
  - etrans; [exact Hh|apply delete_subseteq].
  - set_solver.
Qed.

Lemma same_positions_equal left right : samePositions left right = true → left = right.
Proof.
  unfold samePositions. intros [Hs%bool_decide_eq_true Hall]%andb_true_iff. apply map_subseteq_size_eq; [|lia].
  apply map_subseteq_spec. intros i p Hp. rewrite forallb_forall in Hall.
  specialize (Hall (i, p)). cbn [fst snd] in Hall. destruct (right !! i) as [q|]; [|exfalso; enough (false = true) by done; apply Hall, list_elem_of_In, elem_of_map_to_list; done].
  assert (sameNumber (pt_x p) (pt_x q) && sameNumber (pt_y p) (pt_y q) = true) as Hq by (apply Hall, list_elem_of_In, elem_of_map_to_list; done).
  unfold sameNumber in Hq. rewrite !andb_true_iff, !bool_decide_eq_true in Hq. destruct p, q; cbn in Hq. naive_solver.
Qed.

(** What the effect shows when nothing is held. *)
Definition nothing_held (s : DragPreviews) : Prop := dp_held s = ∅ ∧ dp_releaseTimers s = ∅.

Lemma synced_previews participants me local s : nothing_held s →
  nothing_held (syncPreviews participants me local s) ∧
  ∀ i, dp_positions (syncPreviews participants me local s) !! i =
       if bool_decide (i ∈ local) then None else targetPoint <$> remoteDragTargetsFromParticipants participants me !! i.
Proof.
  intros [Hh Ht]. unfold syncPreviews. rewrite Hh, Ht.
  set (targets := remoteDragTargetsFromParticipants participants me). set (v0 := {| pv_live := ∅; pv_held := ∅; pv_timers := ∅ |}).
  destruct (preview_targets local (map_to_list targets) v0 (NoDup_fst_map_to_list _)) as (Hl & Hh1 & Ht1).
  set (v1 := foldl (previewTarget local) v0 (map_to_list targets)) in *. rewrite list_to_map_to_list in Hl.
  rewrite (releases_nothing targets local).
  2: { intros i Hi. apply list_elem_of_fmap in Hi as ([j p] & -> & Hj%elem_of_map_to_list). cbn [fst]. rewrite Hl in Hj. cbn [v0 pv_live] in Hj.
       rewrite !lookup_empty in Hj. case_bool_decide; [done|]. by destruct (targets !! j). }
  destruct (drops_local local v1) as (Hl3 & Hh3 & Ht3). set (v3 := foldl dropLocal v1 local) in *. clearbody v3.
  assert (pv_held v3 = ∅) as -> by (apply (anti_symm (⊆)); [by etrans|apply map_empty_subseteq]).
  assert (pv_timers v3 = ∅) as -> by (cbn [v0 pv_timers] in Ht1; set_solver).
  split; [done|]. intros i. cbn [dp_positions].
  replace (if samePositions _ _ then _ else _) with (pv_live v3) by (destruct (samePositions _ _) eqn:Hs; [by apply same_positions_equal in Hs|done]).
  rewrite Hl3, Hl. cbn [v0 pv_live]. rewrite !lookup_empty. case_bool_decide; [done|]. by destruct (targets !! i).
Qed.

Lemma never_held events : nothing_held (previewsAfter events).
Proof.
  induction events as [|e l IH] using rev_ind; [done|]. unfold previewsAfter in *. rewrite foldl_app. cbn [foldl]. destruct e; cbn [previewStep].
  - by apply synced_previews.
  - unfold releaseTimer. destruct IH as [H1 H2]. rewrite H2, bool_decide_false by set_solver. done.
Qed.

(** After every change of the participants a node is shown exactly where the others drag it at
    that moment, whatever was shown before; a node that is dragged here is not previewed. *)
Theorem previews_are_the_targets events participants me local i :
  dp_positions (previewsAfter (events ++ [pe_presence participants me local])) !! i =
  if bool_decide (i ∈ local) then None else targetPoint <$> remoteDragTargetsFromParticipants participants me !! i.
Proof. unfold previewsAfter. rewrite foldl_app. cbn [foldl previewStep]. by apply synced_previews, never_held. Qed.

(** So the preview of a node that is let go disappears at once: it is not held for
    [REMOTE_DRAG_RELEASE_HOLD_MS], and no release timer is ever set. *)
Theorem released_preview_is_dropped_at_once events participants me local i :
  remoteDragTargetsFromParticipants participants me !! i = None →
  let s := previewsAfter (events ++ [pe_presence participants me local]) in
  dp_positions s !! i = None ∧ dp_held s = ∅ ∧ dp_releaseTimers s = ∅.
Proof.
  intros Hi s. destruct (never_held (events ++ [pe_presence participants me local])) as [H1 H2]. split; [|done].
  unfold s. unfold previewsAfter. rewrite foldl_app. cbn [foldl previewStep].
  rewrite (proj2 (synced_previews participants me local _ (never_held events))), Hi. by case_bool_decide.
Qed.

(** ** What this tab tells *)

(** The tab before the room is there, with the renderer loaded. *)
Definition PresenceTab_rendered : PresenceTab := set_room false true PresenceTab_start.

(** Node ids are not empty and hold no NUL, and the renderer stays. *)
Definition named (l : list string) : Prop := Forall (segment_ok Ascii.zero) l.

Definition usual (e : PresenceEvent) : Prop :=
  match e with pr_select l => named l | pr_room _ flow => flow = true | _ => True end.

Definition pending (p : PresenceTab) : Prop := pt_canPublish p = true → is_Some (pt_publishTimer p).

(** What the tab keeps by itself. *)
Record presence_ok (p : PresenceTab) : Prop := {
  po_flow : pt_flow p = true;
  po_named : named (pt_selectedNodeIds p);
  po_timer t : pt_publishTimer p = Some t → ps_flow t = true ∧ (pt_lastPublishAt p + PRESENCE_CLIENT_MIN_INTERVAL_MS ≤ ps_due t)%Z;
  po_dirty : pt_clientPointDirty p = true → is_Some (pt_clientPoint p)
}.

(** Whoever may publish has a snapshot pending, or the last one handed over is not behind. *)
Definition up_to_date (told : option (PresenceUpdate * bool)) (p : PresenceTab) : Prop :=
  pt_canPublish p = true → pt_publishTimer p = None →
  ∃ u accepted, told = Some (u, accepted) ∧ (accepted = true → u = presenceSnapshot p ∧ pt_clientPointDirty p = false).

Definition told_after {A} (told : option A) (out : list A) : option A := match last out with Some x => Some x | None => told end.

Lemma schedule_ok now p : presence_ok p → presence_ok (schedulePresenceSnapshot now p) ∧ pending (schedulePresenceSnapshot now p).
Proof.
  intros Hok. unfold schedulePresenceSnapshot, pending. destruct (pt_canPublish p) eqn:Hc; cbn [negb]; [|rewrite Hc; done].
  destruct (pt_publishTimer p) as [t|] eqn:Ht; [rewrite Ht; done|]. split; [|done]. destruct Hok as [Hf Hn _ Hd]. split; cbn; [done..| |done].
  intros t [= <-]. cbn. split; [done|]. lia.
Qed.

Lemma pending_up_to_date told p : pending p → up_to_date told p.
Proof. intros Hp Hc Ht. destruct (Hp Hc) as [? Hs]. congruence. Qed.

Lemma scheduled told now p : presence_ok p → presence_ok (schedulePresenceSnapshot now p) ∧ up_to_date told (schedulePresenceSnapshot now p).
Proof. intros Hok. destruct (schedule_ok now p Hok). split; [done|by apply pending_up_to_date]. Qed.

Lemma pointer_ok over client dirty cursor p : presence_ok p → (dirty = true → is_Some client) → presence_ok (set_pointer over client dirty cursor p).
Proof. intros [Hf Hn Ht _] Hd. by split. Qed.

Lemma select_ok told now l p : named l → presence_ok p → up_to_date told p →
  presence_ok (selectNodes now l p) ∧ up_to_date told (selectNodes now l p).
Proof.
  intros Hl Hok Hup. unfold selectNodes. assert (presence_ok (set_selectedNodeIds l p)) as Hok' by (destruct Hok; by split).
  case_bool_decide as Hk; [|by apply scheduled]. split; [done|].
  apply join_inj in Hk; [|apply Hok|done]. replace (set_selectedNodeIds l p) with p; [done|]. subst l. by destruct p.
Qed.

Lemma room_ok told now can p : presence_ok p → up_to_date told p →
  presence_ok (roomChanged now can true p) ∧ up_to_date told (roomChanged now can true p).
Proof.
  intros Hok Hup. unfold roomChanged. case_bool_decide; [done|]. apply scheduled. destruct Hok.
  destruct can; [|case_bool_decide]; by split.
Qed.

Lemma timer_ok told now toFlow accepted p : presence_ok p → up_to_date told p →
  let '(p', out) := presenceStep now (pr_timer toFlow accepted) p in presence_ok p' ∧ up_to_date (told_after told out) p'.
Proof.
  intros Hok Hup. cbn [presenceStep]. destruct (pt_publishTimer p) as [t|] eqn:Ht; [|done]. case_bool_decide; [|done].
  assert (pt_publishTimer (takeSnapshot toFlow p) = None ∧ pt_clientPointDirty (takeSnapshot toFlow p) = false ∧ presence_ok (takeSnapshot toFlow p)) as (Hn & Hd & Hok').
  { unfold takeSnapshot. rewrite Ht. destruct Hok as [Hf Hs Hto Hdi]. destruct (Hto t Ht) as [Hfl _]. cbn [set_publish pt_clientPoint pt_clientPointDirty]. rewrite Hfl, andb_true_r.
    destruct (pt_clientPointDirty p) eqn:Hdirty.
    - destruct (Hdi eq_refl) as [c Hc]. rewrite Hc. done.
    - assert (presence_ok (set_publish None (pt_lastPublishAt p) p)) by (split; cbn; [done..|]; congruence). by destruct (pt_clientPoint p). }
  set (q := takeSnapshot toFlow p) in *. clearbody q. split.
  - unfold published. destruct accepted; [|done]. destruct Hok' as [Hf Hs _ Hdi]. split; cbn; [done..| |done]. rewrite Hn. done.
  - intros _ _. exists (presenceSnapshot q), accepted. split; [done|]. intros ->. done.
Qed.

Lemma step_ok told now e p : usual e → presence_ok p → up_to_date told p →
  let '(p', out) := presenceStep now e p in presence_ok p' ∧ up_to_date (told_after told out) p'.
Proof.
  intros He Hok Hup. destruct e as [can flow|l|d|c| | |toFlow accepted]; try exact (timer_ok told now toFlow accepted p Hok Hup); cbn [presenceStep usual] in *; unfold told_after; cbn [last].
  - rewrite He. by apply room_ok.
  - by apply select_ok.
  - apply scheduled. destruct Hok; by split.
  - unfold pointerMove. destruct (negb (pt_canPublish p) || negb (pt_flow p)); [done|]. by apply scheduled, pointer_ok.
  - by apply scheduled, pointer_ok.
  - unfold keepalive. destruct (negb _); [done|]. destruct (negb _ || _); [done|]. by apply scheduled.
Qed.

Lemma presence_run_ok told p events : Forall (λ e, usual e.2) events → presence_ok p → up_to_date told p →
  let '(p', out) := presenceRun p events in presence_ok p' ∧ up_to_date (told_after told out) p'.
Proof.
  intros He. revert told p. induction He as [|[now e] l He _ IH]; intros told p Hok Hup; cbn [presenceRun]; [done|]. cbn [snd] in He.
  pose proof (step_ok told now e p He Hok Hup) as Hs. destruct (presenceStep now e p) as [p1 out]. destruct Hs as [Hok1 Hup1].
  pose proof (IH _ _ Hok1 Hup1) as Hr. destruct (presenceRun p1 l) as [p2 outs]. destruct Hr as [Hok2 Hup2]. split; [done|].
  unfold told_after in *. rewrite last_app. by destruct (last outs).
Qed.

(** What somebody who watches the tab knows of it, from the events alone: whether it may
    publish, where the pointer is on the screen and the views under which the timer rang since
    it got there, the selection and the drag. *)
Record Watched := {
  wa_can : bool;
  wa_pointer : option (PresencePoint * list (PresencePoint → PresencePoint));
  wa_selected : list string;
  wa_drag : option (list NodePosition)
}.

Definition nothing_watched : Watched := {| wa_can := false; wa_pointer := None; wa_selected := []; wa_drag := None |}.

Definition watch (g : Watched) (e : PresenceEvent) : Watched :=
  match e with
  | pr_room can _ => {| wa_can := can; wa_pointer := wa_pointer g; wa_selected := wa_selected g; wa_drag := wa_drag g |}
  | pr_select l => {| wa_can := wa_can g; wa_pointer := wa_pointer g; wa_selected := l; wa_drag := wa_drag g |}
  | pr_drag d => {| wa_can := wa_can g; wa_pointer := wa_pointer g; wa_selected := wa_selected g; wa_drag := d |}
  | pr_move c => {| wa_can := wa_can g; wa_pointer := if wa_can g then Some (c, []) else wa_pointer g;
                    wa_selected := wa_selected g; wa_drag := wa_drag g |}
  | pr_leave => {| wa_can := wa_can g; wa_pointer := None; wa_selected := wa_selected g; wa_drag := wa_drag g |}
  | pr_keepalive => g
  | pr_timer toFlow _ => {| wa_can := wa_can g; wa_pointer := (λ cv, (cv.1, toFlow :: cv.2)) <$> wa_pointer g;
                            wa_selected := wa_selected g; wa_drag := wa_drag g |}
  end.

Definition watched (events : list (Z * PresenceEvent)) : Watched := foldl watch nothing_watched events.*2.

(** The cursor that is told of a pointer: none when it is not on the canvas, else its place on
    the canvas under a view of the time since it got where it is. *)
Definition points_at (pointer : option (PresencePoint * list (PresencePoint → PresencePoint))) (cursor : option PresencePoint) : Prop :=
  match pointer with
  | None => cursor = None
  | Some (c, views) => ∃ toFlow, toFlow ∈ views ∧ cursor = Some (toFlow c)
  end.

(** A snapshot tells what was watched. *)
Record tells (g : Watched) (u : PresenceUpdate) : Prop := {
  te_cursor : pu_cursor u ≠ Undef ∧ points_at (wa_pointer g) (jsopt_to_option (pu_cursor u));
  te_selection : pu_selected_node_ids u = Val (wa_selected g);
  te_activity : pu_activity u = if wa_drag g then Val moving_nodes_activity else Null;
  te_targets : pu_activity_target_ids u = Val (np_node_id <$> default [] (wa_drag g));
  te_drag : ∃ ts, pu_transient_node_positions u = Val ts ∧
    Forall2 (λ q t, tp_node_id t = np_node_id q ∧ tp_x t = np_x q ∧ tp_y t = np_y q) (default [] (wa_drag g)) ts
}.

(** The tab keeps what is watched; a pointer that was not read yet may still show the old cursor. *)
Record keeps_watched (g : Watched) (p : PresenceTab) : Prop := {
  kw_can : pt_canPublish p = wa_can g;
  kw_client : pt_clientPoint p = fst <$> wa_pointer g;
  kw_cursor : pt_clientPointDirty p = false → points_at (wa_pointer g) (pt_cursor p);
  kw_selected : pt_selectedNodeIds p = wa_selected g;
  kw_drag : pt_drag p = wa_drag g
}.

Lemma schedule_keeps g now p : keeps_watched g p → keeps_watched g (schedulePresenceSnapshot now p).
Proof. intros []. unfold schedulePresenceSnapshot. destruct (negb _); [by split|]. destruct (pt_publishTimer p); by split. Qed.

Lemma timer_view toFlow pointer cursor :
  points_at pointer cursor → points_at ((λ cv, (cv.1, toFlow :: cv.2)) <$> pointer) cursor.
Proof. destruct pointer as [[c views]|]; [|done]. intros (f & Hf & Hc). exists f. split; [by right|done]. Qed.

Lemma snapshot_keeps g toFlow accepted p :
  presence_ok p → keeps_watched g p → keeps_watched (watch g (pr_timer toFlow accepted)) (takeSnapshot toFlow p).
Proof.
  intros Hok Hk. pose proof (kw_client g p Hk) as Hcl. unfold takeSnapshot.
  destruct (pt_publishTimer p) as [t|] eqn:Ht; [destruct (po_timer p Hok t Ht) as [Hfl _]|].
  2: { destruct Hk as [Hc _ Hcu Hs Hd]. split; cbn; [done| |intros H; by apply timer_view, Hcu|done|done]. rewrite Hcl. by destruct (wa_pointer g). }
  cbn [set_publish pt_clientPoint pt_clientPointDirty]. rewrite Hfl, andb_true_r.
  destruct Hk as [Hc _ Hcu Hs Hd]. destruct (wa_pointer g) as [[c views]|] eqn:Hg; cbn [fmap option_fmap option_map fst] in Hcl; rewrite Hcl.
  - destruct (pt_clientPointDirty p) eqn:Hdirty; (split; cbn; rewrite ?Hg; try done).
    + intros _. exists toFlow. split; [by left|done].
    + intros _. destruct (Hcu eq_refl) as (f & Hf & Hcur). exists f. split; [by right|done].
  - split; cbn; rewrite ?Hg; done.
Qed.

Lemma step_watched g now e p : usual e → presence_ok p → keeps_watched g p → keeps_watched (watch g e) (presenceStep now e p).1.
Proof.
  intros He Hok Hk. destruct e as [can flow|l|d|c| | |toFlow accepted]; cbn [presenceStep usual fst] in *.
  - subst flow. unfold roomChanged. case_bool_decide as Hsame; [|apply schedule_keeps]; destruct Hk.
    + destruct Hsame as [-> _]. by split.
    + destruct can; [|case_bool_decide]; by split.
  - unfold selectNodes. destruct (bool_decide _); [|apply schedule_keeps]; destruct Hk; by split.
  - apply schedule_keeps. destruct Hk; by split.
  - unfold pointerMove. rewrite (po_flow p Hok), orb_false_r, (kw_can g p Hk). destruct Hk as [Hc Hcl Hcu Hs Hd]. cbn [watch].
    destruct (wa_can g) eqn:Hg; cbn [negb].
    + apply schedule_keeps. by split.
    + split; cbn; [by rewrite Hc|done..].
  - apply schedule_keeps. destruct Hk; by split.
  - cbn [watch]. unfold keepalive. destruct (negb _); [done|]. destruct (negb _ || _); [done|]. by apply schedule_keeps.
  - pose proof (snapshot_keeps g toFlow accepted p Hok Hk) as Hks.
    assert (keeps_watched (watch g (pr_timer toFlow accepted)) p) as Hstay.
    { destruct Hk as [Hc Hcl Hcu Hs Hd]. split; cbn; [done| |intros H; by apply timer_view, Hcu|done|done]. rewrite Hcl. by destruct (wa_pointer g). }
    destruct (pt_publishTimer p) as [t|]; [|done]. case_bool_decide; [|done]. cbn [fst]. unfold published. destruct accepted; [|done].
    destruct Hks; by split.
Qed.

Lemma run_watched told g p events : Forall (λ e, usual e.2) events → presence_ok p → up_to_date told p → keeps_watched g p →
  keeps_watched (foldl watch g events.*2) (presenceRun p events).1.
Proof.
  intros He. revert told g p. induction He as [|[now e] l He _ IH]; intros told g p Hok Hup Hk; cbn [presenceRun]; [done|]. cbn [snd] in He.
  pose proof (step_watched g now e p He Hok Hk) as Hs. pose proof (step_ok told now e p He Hok Hup) as Hso.
  rewrite fmap_cons. cbn [foldl snd]. destruct (presenceStep now e p) as [p1 out]. cbn [fst] in Hs. destruct Hso as [Hok1 Hup1].
  specialize (IH _ (watch g e) p1 Hok1 Hup1 Hs). by destruct (presenceRun p1 l) as [p2 outs].
Qed.

Lemma snapshot_tells g p : keeps_watched g p → pt_clientPointDirty p = false → tells g (presenceSnapshot p).
Proof.
  intros [_ _ Hcu Hs Hd] Hdirty. specialize (Hcu Hdirty). split; cbn; rewrite <- ?Hs, <- ?Hd.
  - split; [by destruct (pt_cursor p)|]. by destruct (pt_cursor p).
  - done.
  - by destruct (pt_drag p).
  - by destruct (pt_drag p).
  - eexists. split; [done|]. destruct (pt_drag p) as [l|]; cbn [default]; [|constructor]. apply Forall2_fmap_r, Forall_Forall2_diag, Forall_forall. done.
Qed.

(** C13: whatever the pointer, the selection and the drags do in a tab whose renderer is loaded
    and whose node ids are not empty and hold no NUL: when no snapshot is pending in a room where
    this tab may publish, one was handed to the room, and if the room took the last one it tells
    the last selection, the last drag (its activity, its nodes and where each is) and the place on
    the canvas of the last point that the pointer moved to, or no cursor when it left.  The
    point on the screen is turned into one on the canvas under a view in which a snapshot
    was due after the pointer got there, which is not the present one when the canvas moved under
    a pointer at rest.  A pointer that moves while the tab may not publish is not read, and a
    snapshot that the room refused is not repeated by itself. *)
Theorem peers_are_told_the_latest events p outs :
  Forall (λ e, usual e.2) events → presenceRun PresenceTab_rendered events = (p, outs) →
  pt_canPublish p = true → pt_publishTimer p = None →
  ∃ u accepted, last outs = Some (u, accepted) ∧ (accepted = true → tells (watched events) u).
Proof.
  intros He Hr Hc Ht. assert (presence_ok PresenceTab_rendered) as Hok by (split; cbn; [done|constructor|done|done]).
  pose proof (presence_run_ok None _ events He Hok ltac:(done)) as H. rewrite Hr in H. destruct H as [_ Hu]. destruct (Hu Hc Ht) as (u & b & Hl & Hs).
  exists u, b. split; [unfold told_after in Hl; by destruct (last outs)|]. intros [-> Hd]%Hs. apply snapshot_tells; [|done].
  replace p with (presenceRun PresenceTab_rendered events).1 by by rewrite Hr. apply (run_watched None); [done..|]. by split.
Qed.

(** A snapshot is due no earlier than the session takes one: when the session's last frame is
    not later than the tab's last publication, a due snapshot is not refused for its rate, and an
    open socket that can be written gets it. *)
Theorem due_snapshots_reach_the_socket events p outs t w s k :
  Forall (λ e, usual e.2) events → presenceRun PresenceTab_rendered events = (p, outs) →
  pt_publishTimer p = Some t → (ps_due t ≤ w_now w)%Z → (s_lastPresenceSentAt s ≤ pt_lastPublishAt p)%Z →
  RoomSession.canPublishPresence s = true → s_socket s = Some k → w_readyState w k = WS_OPEN → w_send w = None →
  ∀ u, (publishPresence w u s).1 = true ∧
       (publishPresence w u s).2.2 = [EvWrotePresence (presenceFrame u (s_presenceSequence s + 1))].
Proof.
  intros He Hr Ht Hdue Hlast Hcan Hsock Hopen Hsend u.
  assert (presence_ok PresenceTab_rendered) as Hok by (split; cbn; [done|constructor|done|done]).
  pose proof (presence_run_ok None _ events He Hok ltac:(done)) as H. rewrite Hr in H. destruct H as [[_ _ Hto _] _]. destruct (Hto t Ht) as [_ Hd].
  unfold publishPresence. rewrite Hcan. cbn [negb]. rewrite (bool_decide_false (w_now w - _ < _)%Z) by lia. rewrite andb_false_r.
  rewrite Hsock, Hopen, Nat.eqb_refl. cbn [negb]. by rewrite Hsend.
Qed.

(** No frame of the workbench names the Graph that it is about, and what is shown of others does
    not ask for it: the drag of a participant is previewed here also when it says that it is about
    another Graph. *)
Theorem presence_names_no_graph :
  (∀ p sequence, pf_graph_id (presenceFrame (presenceSnapshot p) sequence) = None) ∧
  ∀ participants me about,
    let elsewhere p := {| p_project_room_session_id := p_project_room_session_id p; p_actor := p_actor p; p_graph_id := about (p_project_room_session_id p);
                          p_presence_sequence := p_presence_sequence p; p_cursor := p_cursor p; p_selected_node_ids := p_selected_node_ids p;
                          p_selected_edge_ids := p_selected_edge_ids p; p_activity := p_activity p; p_activity_target_ids := p_activity_target_ids p;
                          p_transient_node_positions := p_transient_node_positions p |} in
    remoteDragTargetsFromParticipants (map elsewhere participants) me = remoteDragTargetsFromParticipants participants me ∧
    ∀ i, remoteSelectionColor (map elsewhere participants) me i = remoteSelectionColor participants me i.
Proof.
  split; [done|]. intros participants me about elsewhere. split.
  - unfold remoteDragTargetsFromParticipants. generalize (∅ : gmap string TransientNodePosition).
    induction participants as [|p l IH]; intros m; cbn [map foldl]; [done|]. by rewrite IH.
  - intros i. induction participants as [|p l IH]; cbn [map remoteSelectionColor]; [done|]. rewrite IH. done.
Qed.

(** The room becomes ready, the first snapshot goes out, the pointer moves on a canvas that is
    moved by ten, nodes are selected and dragged, and the next one goes out 50 ms later. *)
Definition moved_view (c : PresencePoint) : PresencePoint := {| pp_x := num_add (pp_x c) (num 10); pp_y := num_add (pp_y c) (num 10) |}.

Definition sampleEvents : list (Z * PresenceEvent) :=
  [(1000%Z, pr_room true true); (1000%Z, pr_timer id true); (1010%Z, pr_move {| pp_x := num 3; pp_y := num 4 |});
   (1020%Z, pr_select ["n1"; "n2"]); (1025%Z, pr_drag (Some [{| np_node_id := "n1"; np_x := num 7; np_y := num 8 |}]));
   (1050%Z, pr_timer moved_view true)].

Lemma peers_are_told_the_latest_witness :
  ∃ u, last (presenceRun PresenceTab_rendered sampleEvents).2 = Some (u, true) ∧
    pu_cursor u = Val {| pp_x := num 13; pp_y := num 14 |} ∧ pu_selected_node_ids u = Val ["n1"; "n2"] ∧
    pu_activity_target_ids u = Val ["n1"] ∧ tells (watched sampleEvents) u.
Proof.
  destruct (peers_are_told_the_latest sampleEvents _ _ ltac:(repeat constructor; cbn; try done; discriminate) (surjective_pairing _) eq_refl eq_refl)
    as (u & accepted & Hl & Ht).
  exists u. vm_compute in Hl. injection Hl as <- <-. split; [reflexivity|]. split; [reflexivity|]. split; [reflexivity|].
  split; [reflexivity|]. exact (Ht eq_refl).
Defined.
