(* ===== verification/CursorMotion.v ===== *)
(** * Cursors of others

    The motion of a remote cursor ([room/remote-cursor-motion.ts]), the overlay that keeps one
    track for each session and animates it ([room/PresenceOverlay.tsx]), and the tracks of dragged
    nodes ([room/remote-drag-preview.ts], syncRemoteDragTracks and stepRemoteDragTracks).

    Numbers are not rounded.  [Math.exp] and [Math.hypot] are approximated as an implementation
    chooses; they are the class [MathLibrary].  The elements that show the cursors, and
    unmounting, are not modelled. *)

From stdpp Require Import gmap strings.
From Stdlib Require Import QArith.Qcanon Lqa.
From S2P Require Import Prelude Js JsNum GraphModel Protocol RoomSession SessionTheory RoomViewTheory Grouping GridLayout Presence.
#[local] Open Scope string_scope.
#[local] Open Scope list_scope.

(** What is used of the two functions: [exp] takes what is not positive to [0, 1], zero to one. *)
Class MathLibrary := {
  math_exp : jsnum → jsnum;
  math_hypot : jsnum → jsnum → jsnum;
  exp_decays : ∀ q : Qc, (q <= 0)%Qc → ∃ r : Qc, math_exp (NFin q) = NFin r ∧ (0 <= r)%Qc ∧ (r <= 1)%Qc;
  exp_zero : math_exp (num 0) = num 1
}.

(** ** One cursor *)

Definition REMOTE_CURSOR_SMOOTHING_TAU_MS : jsnum := num 55.
Definition REMOTE_CURSOR_PREDICT_MS : jsnum := num 90.
Definition REMOTE_CURSOR_MAX_PREDICT_MS : jsnum := num 45.
Definition REMOTE_CURSOR_STALE_MS : jsnum := num 220.
Definition REMOTE_CURSOR_FADE_MS : jsnum := num 180.
Definition REMOTE_CURSOR_TELEPORT_DISTANCE : jsnum := num 1400.

Record RemoteCursorSample := { sa_x : jsnum; sa_y : jsnum; sa_at : jsnum }.

Record RemoteCursorMotion := {
  mo_x : jsnum;
  mo_y : jsnum;
  mo_vx : jsnum;
  mo_vy : jsnum;
  mo_targetX : jsnum;
  mo_targetY : jsnum;
  mo_lastSampleAt : jsnum;
  mo_opacity : jsnum;
  mo_fadingOut : bool;
  mo_initialized : bool
}.

Definition createRemoteCursorMotion (sample : option RemoteCursorSample) : RemoteCursorMotion :=
  match sample with
  | None => {| mo_x := num 0; mo_y := num 0; mo_vx := num 0; mo_vy := num 0; mo_targetX := num 0; mo_targetY := num 0;
               mo_lastSampleAt := num 0; mo_opacity := num 0; mo_fadingOut := false; mo_initialized := false |}
  | Some s => {| mo_x := sa_x s; mo_y := sa_y s; mo_vx := num 0; mo_vy := num 0; mo_targetX := sa_x s; mo_targetY := sa_y s;
                 mo_lastSampleAt := sa_at s; mo_opacity := num 1; mo_fadingOut := false; mo_initialized := true |}
  end.

Definition thousandth : jsnum := NFin (Q2Qc (1 # 1000)).

Section motion.
Context `{MathLibrary}.

Definition applyRemoteCursorSample (m : RemoteCursorMotion) (s : RemoteCursorSample) : RemoteCursorMotion :=
  if negb (mo_initialized m) then createRemoteCursorMotion (Some s)
  else
    let dtSeconds := math_max thousandth (num_div (num_sub (sa_at s) (mo_lastSampleAt m)) (num 1000)) in
    let dx := num_sub (sa_x s) (mo_targetX m) in
    let dy := num_sub (sa_y s) (mo_targetY m) in
    if num_geb (math_hypot dx dy) REMOTE_CURSOR_TELEPORT_DISTANCE then
      {| mo_x := sa_x s; mo_y := sa_y s; mo_vx := num 0; mo_vy := num 0; mo_targetX := sa_x s; mo_targetY := sa_y s;
         mo_lastSampleAt := sa_at s; mo_opacity := num 1; mo_fadingOut := false; mo_initialized := mo_initialized m |}
    else
      {| mo_x := mo_x m; mo_y := mo_y m; mo_vx := num_div dx dtSeconds; mo_vy := num_div dy dtSeconds;
         mo_targetX := sa_x s; mo_targetY := sa_y s;
         mo_lastSampleAt := sa_at s; mo_opacity := num 1; mo_fadingOut := false; mo_initialized := mo_initialized m |}.

Definition beginRemoteCursorFade (m : RemoteCursorMotion) : RemoteCursorMotion :=
  if negb (mo_initialized m) then m
  else {| mo_x := mo_x m; mo_y := mo_y m; mo_vx := num 0; mo_vy := num 0; mo_targetX := mo_targetX m; mo_targetY := mo_targetY m;
          mo_lastSampleAt := mo_lastSampleAt m; mo_opacity := mo_opacity m; mo_fadingOut := true; mo_initialized := mo_initialized m |}.

Definition ageOf (m : RemoteCursorMotion) (now : jsnum) : jsnum := math_max (num 0) (num_sub now (mo_lastSampleAt m)).

(** Where a step is headed, on one axis: the target, ahead of it along the velocity while the
    sample is fresh. *)
Definition aimOf (m : RemoteCursorMotion) (now target v : jsnum) : jsnum :=
  if negb (mo_fadingOut m) && num_ltb (ageOf m now) REMOTE_CURSOR_PREDICT_MS
  then num_add target (num_mul v (num_div (math_min (ageOf m now) REMOTE_CURSOR_MAX_PREDICT_MS) (num 1000)))
  else target.

Definition eased (x aim alpha : jsnum) : jsnum := num_add x (num_mul (num_sub aim x) alpha).

Definition smoothing (dtMs : jsnum) : jsnum := num_sub (num 1) (math_exp (num_div (num_neg dtMs) REMOTE_CURSOR_SMOOTHING_TAU_MS)).

(** The velocity after a step. *)
Definition decayed (m : RemoteCursorMotion) (now dtMs v : jsnum) : jsnum :=
  let dtSeconds := num_div (math_max (num 0) (math_min dtMs (num 48))) (num 1000) in
  if num_gtb (ageOf m now) REMOTE_CURSOR_STALE_MS then num_mul v (math_exp (num_mul (num_neg dtSeconds) (num 8))) else v.

(** The place a step puts the cursor: on the aim once it is close to it. *)
Definition steppedPlace (m : RemoteCursorMotion) (now dtMs : jsnum) : jsnum * jsnum :=
  let aimX := aimOf m now (mo_targetX m) (mo_vx m) in
  let aimY := aimOf m now (mo_targetY m) (mo_vy m) in
  let nextX := eased (mo_x m) aimX (smoothing dtMs) in
  let nextY := eased (mo_y m) aimY (smoothing dtMs) in
  if num_ltb (math_hypot (num_sub aimX nextX) (num_sub aimY nextY)) (NFin (Q2Qc (15 # 100))) then (aimX, aimY) else (nextX, nextY).

Definition fadedOpacity (m : RemoteCursorMotion) (dtMs : jsnum) : jsnum :=
  if mo_fadingOut m then math_max (num 0) (num_sub (mo_opacity m) (num_div dtMs REMOTE_CURSOR_FADE_MS)) else num 1.

(** [None] when a fade has finished. *)
Definition stepRemoteCursorMotion (m : RemoteCursorMotion) (now dtMs : jsnum) : option RemoteCursorMotion :=
  if negb (mo_initialized m) then Some m
  else if mo_fadingOut m && num_leb (fadedOpacity m dtMs) (NFin (Q2Qc (1 # 100))) then None
  else
    let place := steppedPlace m now dtMs in
    Some {| mo_x := place.1; mo_y := place.2; mo_vx := decayed m now dtMs (mo_vx m); mo_vy := decayed m now dtMs (mo_vy m);
            mo_targetX := mo_targetX m; mo_targetY := mo_targetY m; mo_lastSampleAt := mo_lastSampleAt m;
            mo_opacity := fadedOpacity m dtMs; mo_fadingOut := mo_fadingOut m; mo_initialized := mo_initialized m |}.

(** ** The overlay *)

Record CursorTrack := { ct_sessionId : string; ct_displayName : string; ct_color : string; ct_motion : RemoteCursorMotion }.

Record CursorTrackView := { cw_sessionId : string; cw_displayName : string; cw_color : string; cw_x : jsnum; cw_y : jsnum; cw_opacity : jsnum }.

(** [tracksRef], [cursorTracks], whether [rafRef] is set, and [lastFrameRef] *)
Record Overlay := {
  ov_tracks : list (string * CursorTrack);
  ov_cursorTracks : list CursorTrackView;
  ov_raf : bool;
  ov_lastFrame : option jsnum
}.

Definition Overlay_start : Overlay := {| ov_tracks := []; ov_cursorTracks := []; ov_raf := false; ov_lastFrame := None |}.

Definition trackView (t : CursorTrack) : CursorTrackView :=
  {| cw_sessionId := ct_sessionId t; cw_displayName := ct_displayName t; cw_color := ct_color t; cw_x := mo_x (ct_motion t); cw_y := mo_y (ct_motion t); cw_opacity := mo_opacity (ct_motion t) |}.

(** Who a track is, which is all that makes the overlay render again. *)
Definition viewLabel (v : CursorTrackView) : string * string * string := (cw_sessionId v, cw_displayName v, cw_color v).

Definition publishCursorTracks (tracks : list (string * CursorTrack)) (current : list CursorTrackView) : list CursorTrackView :=
  let next := map (λ kv, trackView kv.2) tracks in
  if bool_decide (map viewLabel current = map viewLabel next) then current else next.

Definition ensureAnimationLoop (o : Overlay) : Overlay :=
  if ov_raf o || bool_decide (ov_tracks o = []) then o
  else {| ov_tracks := ov_tracks o; ov_cursorTracks := ov_cursorTracks o; ov_raf := true; ov_lastFrame := ov_lastFrame o |}.

Definition stepTrack (clock dtMs : jsnum) (kv : string * CursorTrack) : option (string * CursorTrack) :=
  (λ m, (kv.1, {| ct_sessionId := ct_sessionId kv.2; ct_displayName := ct_displayName kv.2; ct_color := ct_color kv.2; ct_motion := m |}))
  <$> stepRemoteCursorMotion (ct_motion kv.2) clock dtMs.

Definition frame (frameTime clock : jsnum) (o : Overlay) : Overlay :=
  let previous := default frameTime (ov_lastFrame o) in
  let dtMs := num_sub frameTime previous in
  let tracks := omap (stepTrack clock dtMs) (ov_tracks o) in
  let removed := existsb (λ kv, bool_decide (stepTrack clock dtMs kv = None)) (ov_tracks o) in
  {| ov_tracks := tracks;
     ov_cursorTracks := if removed then publishCursorTracks tracks (ov_cursorTracks o) else ov_cursorTracks o;
     ov_raf := negb (bool_decide (tracks = []));
     ov_lastFrame := if bool_decide (tracks = []) then None else Some frameTime |}.

(** One participant of the effect that merges presence into the tracks. *)
Definition mergeParticipant (sampleAt : jsnum) (tracks : list (string * CursorTrack)) (p : PresenceParticipant) : list (string * CursorTrack) :=
  let sessionId := p_project_room_session_id p in
  let label m := {| ct_sessionId := sessionId; ct_displayName := display_name (p_actor p); ct_color := actorColor (color (p_actor p)); ct_motion := m |} in
  match p_cursor p, map_get sessionId tracks with
  | None, Some t =>
      if mo_fadingOut (ct_motion t) then tracks
      else map_set sessionId {| ct_sessionId := ct_sessionId t; ct_displayName := display_name (p_actor p); ct_color := actorColor (color (p_actor p));
                                ct_motion := beginRemoteCursorFade (ct_motion t) |} tracks
  | None, None => tracks
  | Some c, None => map_set sessionId (label (createRemoteCursorMotion (Some {| sa_x := pp_x c; sa_y := pp_y c; sa_at := sampleAt |}))) tracks
  | Some c, Some t =>
      map_set sessionId {| ct_sessionId := ct_sessionId t; ct_displayName := display_name (p_actor p); ct_color := actorColor (color (p_actor p));
                           ct_motion := applyRemoteCursorSample (ct_motion t) {| sa_x := pp_x c; sa_y := pp_y c; sa_at := sampleAt |} |} tracks
  end.

Definition fadeUnseen (seen : list string) (kv : string * CursorTrack) : string * CursorTrack :=
  if bool_decide (kv.1 ∈ seen) || mo_fadingOut (ct_motion kv.2) then kv
  else (kv.1, {| ct_sessionId := ct_sessionId kv.2; ct_displayName := ct_displayName kv.2; ct_color := ct_color kv.2; ct_motion := beginRemoteCursorFade (ct_motion kv.2) |}).

Definition mergePresence (sampleAt : jsnum) (participants : list PresenceParticipant) (localSessionId : option string) (o : Overlay) : Overlay :=
  let remote := filter (λ p, isRemote localSessionId p = true) participants in
  let tracks := map (fadeUnseen (map p_project_room_session_id remote)) (foldl (mergeParticipant sampleAt) (ov_tracks o) remote) in
  ensureAnimationLoop {| ov_tracks := tracks; ov_cursorTracks := publishCursorTracks tracks (ov_cursorTracks o); ov_raf := ov_raf o; ov_lastFrame := ov_lastFrame o |}.

Inductive OverlayEvent :=
| oe_presence (at_ : jsnum) (participants : list PresenceParticipant) (localSessionId : option string)
| oe_frame (frameTime clock : jsnum).

(** A frame comes only when one was asked for. *)
Definition overlayStep (o : Overlay) (e : OverlayEvent) : Overlay :=
  match e with
  | oe_presence at_ ps me => mergePresence at_ ps me o
  | oe_frame t clock => if ov_raf o then frame t clock o else o
  end.

Definition overlayAfter (events : list OverlayEvent) : Overlay := foldl overlayStep Overlay_start events.

(** ** Tracks of dragged nodes *)

Record RemoteDragTrack := { rt_nodeId : string; rt_motion : RemoteCursorMotion; rt_releaseAt : option jsnum }.

Definition syncTarget (now : jsnum) (tracks : list (string * RemoteDragTrack)) (entry : string * TransientNodePosition) : list (string * RemoteDragTrack) :=
  let '(nodeId, position) := entry in
  let sample := {| sa_x := tp_x position; sa_y := tp_y position; sa_at := now |} in
  match map_get nodeId tracks with
  | None => map_set nodeId {| rt_nodeId := nodeId; rt_motion := createRemoteCursorMotion (Some sample); rt_releaseAt := None |} tracks
  | Some t => map_set nodeId {| rt_nodeId := rt_nodeId t; rt_motion := applyRemoteCursorSample (rt_motion t) sample; rt_releaseAt := None |} tracks
  end.

Definition releaseUnseen (targets : list (string * TransientNodePosition)) (now : jsnum) (kv : string * RemoteDragTrack) : string * RemoteDragTrack :=
  if bool_decide (kv.1 ∈ map fst targets) then kv
  else match rt_releaseAt kv.2 with
       | None => (kv.1, {| rt_nodeId := rt_nodeId kv.2; rt_motion := rt_motion kv.2; rt_releaseAt := Some now |})
       | Some _ => kv
       end.

Definition syncRemoteDragTracks (tracks : list (string * RemoteDragTrack)) (targets : list (string * TransientNodePosition)) (now : jsnum) : list (string * RemoteDragTrack) :=
  map (releaseUnseen targets now) (foldl (syncTarget now) tracks targets).

Definition stepDragTrack (now dtMs : jsnum) (kv : string * RemoteDragTrack) : option (string * RemoteDragTrack) :=
  if match rt_releaseAt kv.2 with Some at_ => num_geb (num_sub now at_) (num REMOTE_DRAG_RELEASE_HOLD_MS) | None => false end then None
  else (λ m, (kv.1, {| rt_nodeId := rt_nodeId kv.2; rt_motion := m; rt_releaseAt := rt_releaseAt kv.2 |})) <$> stepRemoteCursorMotion (rt_motion kv.2) now dtMs.

(** The tracks that are left, and the positions to show. *)
Definition stepRemoteDragTracks (tracks : list (string * RemoteDragTrack)) (now dtMs : jsnum) : list (string * RemoteDragTrack) * list (string * GraphPoint) :=
  let left := omap (stepDragTrack now dtMs) tracks in
  (left, map (λ kv, (kv.1, {| pt_x := mo_x (rt_motion kv.2); pt_y := mo_y (rt_motion kv.2) |})) left).

End motion.

(** ** Finite numbers *)

Definition fin (n : jsnum) : Prop := ∃ q, n = NFin q.

Lemma fin_num z : fin (num z). Proof. by eexists. Qed.
Lemma fin_add a b : fin a → fin b → fin (num_add a b). Proof. intros [? ->] [? ->]. by eexists. Qed.
Lemma fin_neg a : fin a → fin (num_neg a). Proof. intros [? ->]. by eexists. Qed.
Lemma fin_sub a b : fin a → fin b → fin (num_sub a b). Proof. intros Ha Hb. by apply fin_add, fin_neg. Qed.
Lemma fin_mul a b : fin a → fin b → fin (num_mul a b). Proof. intros [? ->] [? ->]. by eexists. Qed.
Lemma fin_div a z : (24 <= z)%Z → fin a → fin (num_div a (num z)). Proof. intros Hz [? ->]. rewrite num_div_cell by done. by eexists. Qed.
Lemma fin_max a b : fin a → fin b → fin (math_max a b). Proof. intros [? ->] [? ->]. unfold math_max, num_compare. destruct (Qcompare _ _); by eexists. Qed.
Lemma fin_min a b : fin a → fin b → fin (math_min a b). Proof. intros [? ->] [? ->]. unfold math_min, num_compare. destruct (Qcompare _ _); by eexists. Qed.

Create HintDb finite.
#[export] Hint Resolve fin_num fin_add fin_neg fin_sub fin_mul fin_max fin_min : finite.
#[export] Hint Extern 2 (fin (num_div _ _)) => (apply fin_div; [lia|]) : finite.

(** [b] lies between [a] and [c]. *)
Definition between (a b c : jsnum) : Prop :=
  (num_leb a b = true ∧ num_leb b c = true) ∨ (num_leb c b = true ∧ num_leb b a = true).

Lemma between_end a c : fin a → fin c → between a c c.
Proof.
  intros [a' ->] [c' ->]. unfold between. destruct (num_leb (NFin a') (NFin c')) eqn:He.
  - left. split; [done|]. by apply num_leb_refl.
  - right. split; [by apply num_leb_refl|]. by apply num_leb_total.
Qed.

Lemma eased_between (x aim r : Qc) : (0 <= this r)%Q → (this r <= 1)%Q →
  between (NFin x) (eased (NFin x) (NFin aim) (num_sub (num 1) (NFin r))) (NFin aim).
Proof.
  intros H0 H1. unfold eased, num_sub, num, num_mul, num_add, num_neg, between. rewrite !leb_finite.
  assert (∀ q : Qc, this (- q)%Qc == - this q)%Q as Hopp by (intros q; apply Qred_correct).
  rewrite !this_add, !this_mul, !this_add, !Hopp, !this_num. change (inject_Z 1) with 1%Q.
  destruct (Qlt_le_dec (this x) (this aim)); [left|right]; split; nra.
Qed.

(** ** One cursor *)

Section motion.
Context `{MathLibrary}.

Record finite_motion (m : RemoteCursorMotion) : Prop := {
  fm_x : fin (mo_x m); fm_y : fin (mo_y m); fm_vx : fin (mo_vx m); fm_vy : fin (mo_vy m);
  fm_targetX : fin (mo_targetX m); fm_targetY : fin (mo_targetY m); fm_at : fin (mo_lastSampleAt m)
}.

Lemma fin_aim m now target v : fin (mo_lastSampleAt m) → fin now → fin target → fin v → fin (aimOf m now target v).
Proof.
  intros. unfold aimOf, ageOf. destruct (negb _ && _); [|done].
  unfold REMOTE_CURSOR_MAX_PREDICT_MS. auto 12 with finite.
Qed.

Lemma smoothing_alpha (d : Qc) : (0 <= this d)%Q → ∃ r : Qc, smoothing (NFin d) = num_sub (num 1) (NFin r) ∧ (0 <= this r)%Q ∧ (this r <= 1)%Q.
Proof.
  intros Hd. unfold smoothing, REMOTE_CURSOR_SMOOTHING_TAU_MS. cbn [num_neg]. rewrite num_div_cell by lia.
  destruct (exp_decays (- d / Q2Qc (inject_Z 55))%Qc) as (r & Hr & H0 & H1).
  { unfold Qcle. rewrite this_div_cell by lia. assert (this (- d)%Qc == - this d)%Q as -> by apply Qred_correct. change (this 0%Qc) with 0%Q.
    change (inject_Z 55) with 55%Q. unfold Qdiv. change (/ 55)%Q with (1 # 55)%Q. lra. }
  exists r. by rewrite Hr.
Qed.

(** A frame moves a cursor towards where it is headed and never past it, on either axis,
    whatever [Math.exp] and [Math.hypot] are. *)
Theorem cursor_never_overshoots m now (dt : Qc) m' :
  finite_motion m → fin now → (0 <= this dt)%Q → mo_initialized m = true → stepRemoteCursorMotion m now (NFin dt) = Some m' →
  between (mo_x m) (mo_x m') (aimOf m now (mo_targetX m) (mo_vx m)) ∧ between (mo_y m) (mo_y m') (aimOf m now (mo_targetY m) (mo_vy m)).
Proof.
  intros [Hx Hy Hvx Hvy Htx Hty Hat] Hnow Hdt Hi. unfold stepRemoteCursorMotion. rewrite Hi. cbn [negb]. destruct (mo_fadingOut m && _); [done|].
  intros [= <-]. cbn [mo_x mo_y]. unfold steppedPlace.
  destruct (fin_aim m now _ _ Hat Hnow Htx Hvx) as [ax Hax]. destruct (fin_aim m now _ _ Hat Hnow Hty Hvy) as [ay Hay]. rewrite Hax, Hay.
  destruct Hx as [x ->], Hy as [y ->]. destruct (smoothing_alpha dt Hdt) as (r & -> & H0 & H1).
  destruct (num_ltb _ _); cbn [fst snd]; split; first [by apply eased_between | apply between_end; by eexists].
Qed.

(** A cursor that is not fading is never taken away by a frame, however old its last sample is,
    and is shown in full. *)
Theorem idle_cursor_stays m now dt : mo_initialized m = true → mo_fadingOut m = false →
  ∃ m', stepRemoteCursorMotion m now dt = Some m' ∧ mo_opacity m' = num 1 ∧ mo_fadingOut m' = false ∧ mo_targetX m' = mo_targetX m ∧ mo_targetY m' = mo_targetY m.
Proof. intros Hi Hf. unfold stepRemoteCursorMotion, fadedOpacity. rewrite Hi, Hf. cbn [negb andb]. by eexists. Qed.

Definition frames (m : RemoteCursorMotion) (l : list (jsnum * Qc)) : option RemoteCursorMotion :=
  foldl (λ om f, om ≫= λ m, stepRemoteCursorMotion m f.1 (NFin f.2)) (Some m) l.

Definition total (l : list (jsnum * Qc)) : Q := foldr (λ f t, (this f.2 + t)%Q) 0%Q l.

Lemma faded_by (q d : Qc) : ∃ q' : Qc, num_sub (NFin q) (num_div (NFin d) REMOTE_CURSOR_FADE_MS) = NFin q' ∧ (this q' == this q - this d / 180)%Q.
Proof.
  unfold REMOTE_CURSOR_FADE_MS. rewrite num_div_cell by lia. eexists. split; [done|].
  rewrite this_add. assert (∀ p : Qc, this (- p)%Qc == - this p)%Q as -> by (intros p; apply Qred_correct). by rewrite this_div_cell by lia.
Qed.

Lemma faded m now (q d : Qc) : mo_initialized m = true → mo_fadingOut m = true → mo_opacity m = NFin q →
  ((this q - this d / 180 <= 1 # 100)%Q ∧ stepRemoteCursorMotion m now (NFin d) = None) ∨
  ((1 # 100 < this q - this d / 180)%Q ∧
   ∃ m', stepRemoteCursorMotion m now (NFin d) = Some m' ∧ mo_initialized m' = true ∧ mo_fadingOut m' = true ∧
     ∃ q' : Qc, mo_opacity m' = NFin q' ∧ (this q' == this q - this d / 180)%Q).
Proof.
  intros Hi Hf Ho. unfold stepRemoteCursorMotion, fadedOpacity. rewrite Hi, Hf, Ho. cbn [negb andb]. destruct (faded_by q d) as (q' & -> & Hq').
  assert (num_leb (math_max (num 0) (NFin q')) (NFin (Q2Qc (1 # 100))) = true ↔ (this q' <= 1 # 100)%Q) as Hle.
  { destruct (math_max_cases (num 0) (NFin q')) as [[-> H0]|[-> H0]]; [done..| |]; unfold num in *; rewrite leb_finite in *.
    - change (this (Q2Qc (inject_Z 0))) with 0%Q in *. change (this (Q2Qc (1 # 100))) with (1 # 100)%Q. split; intros; lra.
    - done. }
  destruct (num_leb _ _) eqn:E.
  - left. split; [|done]. rewrite <- Hq'. by apply Hle.
  - right. assert (1 # 100 < this q')%Q as Hlt by (apply Qnot_le_lt; intros C%Hle; congruence). split; [by rewrite <- Hq'|].
    eexists. split; [done|]. cbn [mo_initialized mo_fadingOut mo_opacity]. split; [done|]. split; [done|]. exists q'. split; [|done].
    destruct (math_max_cases (num 0) (NFin q')) as [[-> H0]|[-> H0]]; [done..| |done]. unfold num in H0. rewrite leb_finite in H0.
    change (this (Q2Qc (inject_Z 0))) with 0%Q in H0. exfalso. lra.
Qed.

Lemma no_frames l : foldl (λ om f, om ≫= λ m, stepRemoteCursorMotion m f.1 (NFin f.2)) None l = None.
Proof. induction l; [done|]. exact IHl. Qed.

Lemma total_nonneg l : Forall (λ f, (0 <= this f.2)%Q) l → (0 <= total l)%Q.
Proof. induction 1 as [|f l Hf _ IH]; cbn [total foldr]; [lra|]. fold (total l). lra. Qed.

Lemma frames_cons m f l : frames m (f :: l) = match stepRemoteCursorMotion m f.1 (NFin f.2) with Some m' => frames m' l | None => None end.
Proof. unfold frames. cbn [foldl mbind option_bind]. destruct (stepRemoteCursorMotion _ _ _); [done|]. apply no_frames. Qed.

Lemma fade_length m l (q : Qc) : mo_initialized m = true → mo_fadingOut m = true → mo_opacity m = NFin q → (1 # 100 < this q)%Q →
  Forall (λ f, (0 <= this f.2)%Q) l → frames m l = None ↔ (this q - total l / 180 <= 1 # 100)%Q.
Proof.
  intros Hi Hf Ho Hq Hl. revert m q Hi Hf Ho Hq. induction Hl as [|f l Hd Hl IH]; intros m q Hi Hf Ho Hq.
  - cbn [frames total foldl foldr]. split; [done|]. unfold Qdiv. lra.
  - rewrite frames_cons. cbn [total foldr]. fold (total l). pose proof (total_nonneg l Hl) as Ht.
    destruct (faded m f.1 q f.2 Hi Hf Ho) as [[Hle ->]|(Hlt & m' & -> & Hi' & Hf' & q' & Ho' & Hq')].
    + split; [|done]. intros _. unfold Qdiv in *. change (/ 180)%Q with (1 # 180)%Q in *. lra.
    + rewrite (IH m' q') by (try done; by rewrite Hq'). rewrite Hq'. unfold Qdiv. change (/ 180)%Q with (1 # 180)%Q. split; intros; lra.
Qed.

(** A fade lasts 178.2 ms: a cursor that begins to fade is gone exactly when the frames since
    then add up to that much, however many they are. *)
Theorem fade_ends m l : mo_initialized m = true → mo_opacity m = num 1 → Forall (λ f, (0 <= this f.2)%Q) l →
  frames (beginRemoteCursorFade m) l = None ↔ (1782 # 10 <= total l)%Q.
Proof.
  intros Hi Ho Hl. assert (mo_initialized (beginRemoteCursorFade m) = true ∧ mo_fadingOut (beginRemoteCursorFade m) = true ∧
    mo_opacity (beginRemoteCursorFade m) = num 1) as (Hi' & Hf' & Ho') by (unfold beginRemoteCursorFade; rewrite Hi; done).
  rewrite (fade_length _ l _ Hi' Hf' Ho'); [|reflexivity|done].
  change (this (Q2Qc (inject_Z 1))) with 1%Q. unfold Qdiv. change (/ 180)%Q with (1 # 180)%Q. split; intros; lra.
Qed.

(** ** The overlay *)

Definition trackLabel (kv : string * CursorTrack) : string * string * string := viewLabel (trackView kv.2).

Definition track_ok (kv : string * CursorTrack) : Prop := kv.1 = ct_sessionId kv.2 ∧ mo_initialized (ct_motion kv.2) = true.

Definition tracks_ok (l : list (string * CursorTrack)) : Prop := NoDup l.*1 ∧ Forall track_ok l.

Lemma tracks_get l sid t : tracks_ok l → map_get sid l = Some t → ct_sessionId t = sid ∧ mo_initialized (ct_motion t) = true.
Proof.
  intros [_ Hl]. induction Hl as [|[k v] l [Hk Hi] _ IH]; cbn [map_get]; [done|]. case_bool_decide; [|exact IH].
  intros [= <-]. cbn [fst snd] in *. subst. done.
Qed.

Lemma tracks_set l sid t : tracks_ok l → ct_sessionId t = sid → mo_initialized (ct_motion t) = true → tracks_ok (map_set sid t l).
Proof.
  intros [Hn Hl] Hs Hi. split.
  - subst sid. apply (keyed_set ct_sessionId). split; [done|]. eapply Forall_impl; [exact Hl|]. by intros kv [? _].
  - clear Hn. induction Hl as [|[k v] l Hk Hl IH]; cbn [map_set]; [by repeat constructor|]. case_bool_decide; constructor; done.
Qed.

Lemma sample_initialized m s : mo_initialized (applyRemoteCursorSample m s) = true ∧ mo_fadingOut (applyRemoteCursorSample m s) = false ∧
  mo_targetX (applyRemoteCursorSample m s) = sa_x s ∧ mo_targetY (applyRemoteCursorSample m s) = sa_y s.
Proof. unfold applyRemoteCursorSample. destruct (mo_initialized m) eqn:Hi; cbn [negb]; [|done]. destruct (num_geb _ _); done. Qed.

Lemma fade_begun m : mo_initialized m = true → mo_initialized (beginRemoteCursorFade m) = true ∧ mo_fadingOut (beginRemoteCursorFade m) = true.
Proof. intros Hi. unfold beginRemoteCursorFade. rewrite Hi. cbn. done. Qed.

Lemma merge_ok at_ p l : tracks_ok l → tracks_ok (mergeParticipant at_ l p).
Proof.
  intros Hl. unfold mergeParticipant. destruct (p_cursor p) as [c|], (map_get (p_project_room_session_id p) l) as [t|] eqn:Ht; [..|done].
  1, 3: destruct (tracks_get _ _ _ Hl Ht) as [Hs Hi].
  - apply tracks_set; [done..|]. apply sample_initialized.
  - destruct (mo_fadingOut _); [done|]. apply tracks_set; [done..|]. by apply fade_begun.
  - by apply tracks_set.
Qed.

Lemma merges_ok at_ ps l : tracks_ok l → tracks_ok (foldl (mergeParticipant at_) l ps).
Proof. revert l. induction ps; intros l Hl; [done|]. by apply IHps, merge_ok. Qed.

Lemma fadeUnseen_key seen kv : (fadeUnseen seen kv).1 = kv.1.
Proof. unfold fadeUnseen. by destruct (_ || _). Qed.

Lemma fadeUnseen_ok seen l : tracks_ok l → tracks_ok (map (fadeUnseen seen) l).
Proof.
  intros [Hn Hl]. split.
  - change (NoDup (fst <$> (fadeUnseen seen <$> l))). rewrite <- list_fmap_compose. erewrite list_fmap_ext; [exact Hn|]. intros i kv _. apply fadeUnseen_key.
  - apply Forall_map. eapply Forall_impl; [exact Hl|]. intros kv [Hk Hi]. unfold fadeUnseen. destruct (_ || _); [done|]. split; [done|]. by apply fade_begun.
Qed.

(** What holds of the overlay between events. *)
Record overlay_ok (o : Overlay) : Prop := {
  oo_tracks : tracks_ok (ov_tracks o);
  oo_views : map viewLabel (ov_cursorTracks o) = map trackLabel (ov_tracks o);
  oo_loop : ov_raf o = negb (bool_decide (ov_tracks o = []));
  oo_rest : ov_tracks o = [] → ov_lastFrame o = None
}.

Lemma published_labels tracks current : map viewLabel (publishCursorTracks tracks current) = map trackLabel tracks.
Proof.
  unfold publishCursorTracks. assert (map viewLabel (map (λ kv, trackView kv.2) tracks) = map trackLabel tracks) as Hl by (rewrite map_map; done).
  case_bool_decide as Hv; [|done]. by rewrite Hv.
Qed.

Lemma step_track_kept clock dt kv kv' : track_ok kv → stepTrack clock dt kv = Some kv' → kv'.1 = kv.1 ∧ track_ok kv' ∧ trackLabel kv' = trackLabel kv.
Proof.
  intros [Hk Hi]. unfold stepTrack, stepRemoteCursorMotion. rewrite Hi. cbn [negb]. destruct (mo_fadingOut _ && _); [done|].
  cbn [fmap option_fmap option_map]. intros [= <-]. done.
Qed.

Lemma omap_kept clock dt l : tracks_ok l → tracks_ok (omap (stepTrack clock dt) l) ∧
  (existsb (λ kv, bool_decide (stepTrack clock dt kv = None)) l = false → map trackLabel (omap (stepTrack clock dt) l) = map trackLabel l).
Proof.
  intros [Hn Hl]. assert ((omap (stepTrack clock dt) l).*1 `sublist_of` l.*1) as Hsub.
  { clear Hn. induction Hl as [|kv l Hkv _ IH]; cbn; [done|]. destruct (stepTrack clock dt kv) as [kv'|] eqn:Hs; cbn; [|by apply sublist_cons].
    destruct (step_track_kept _ _ _ _ Hkv Hs) as [-> _]. by apply sublist_skip. }
  split; [split|].
  - by eapply sublist_NoDup.
  - apply Forall_forall. intros kv' (kv & Hin & Hs)%list_elem_of_omap. rewrite Forall_forall in Hl. by eapply step_track_kept; [apply Hl|].
  - clear Hn Hsub. induction Hl as [|kv l Hkv _ IH]; cbn; [done|]. intros [Hb He]%orb_false_iff. destruct (stepTrack clock dt kv) as [kv'|] eqn:Hs.
    + cbn. rewrite IH by done. f_equal. by eapply step_track_kept.
    + by rewrite bool_decide_true in Hb.
Qed.

Lemma overlay_step_ok o e : overlay_ok o → overlay_ok (overlayStep o e).
Proof.
  intros [Ht Hv Hl Hr]. destruct e as [at_ ps me|t clock]; cbn [overlayStep].
  - unfold mergePresence. set (tracks := map _ _). assert (tracks_ok tracks) as Hok by by apply fadeUnseen_ok, merges_ok.
    assert (ov_tracks o ≠ [] → tracks ≠ []) as Hne.
    { intros Hne [= Hnil]%(f_equal (length (A:=_))). unfold tracks in Hnil. rewrite length_map in Hnil. apply length_zero_iff_nil in Hnil. apply Hne.
      revert Hnil. clear. generalize (filter (λ p, isRemote me p = true) ps) as l. generalize (ov_tracks o) as m. intros m l. revert m. induction l as [|p l IH]; intros m; [done|].
      cbn [foldl]. intros Hm%IH. destruct m as [|[k v] m]; [done|]. exfalso. revert Hm. unfold mergeParticipant.
      assert (∀ k' v', map_set k' v' ((k, v) :: m) ≠ []) as Hset by (intros k' v'; cbn; by case_bool_decide).
      destruct (p_cursor p), (map_get _ _); try apply Hset; [|done]. destruct (mo_fadingOut _); [done|apply Hset]. }
    clearbody tracks. unfold ensureAnimationLoop. cbn [ov_raf ov_tracks ov_cursorTracks ov_lastFrame].
    rewrite Hl. destruct (decide (ov_tracks o = [])) as [E|E].
    + rewrite (bool_decide_true (ov_tracks o = [])) by done. cbn [negb orb]. clear Hl Hv. case_bool_decide; split; cbn; try done.
      * apply published_labels.
      * by rewrite bool_decide_true.
      * intros _. by apply Hr.
      * apply published_labels.
      * by rewrite bool_decide_false.
    + rewrite (bool_decide_false (ov_tracks o = [])) by done. cbn [negb orb]. specialize (Hne E). split; cbn; try done; [apply published_labels|by rewrite bool_decide_false].
  - destruct (ov_raf o) eqn:Er; [|split; [done|done|by rewrite Er|done]]. unfold frame. destruct (omap_kept clock (num_sub t (default t (ov_lastFrame o))) (ov_tracks o) Ht) as [Hok Hk].
    set (tracks := omap _ _) in *. split; cbn; [done| |done|intros ->; by rewrite bool_decide_true].
    destruct (existsb _ _); [apply published_labels|]. rewrite Hv. symmetry. by apply Hk.
Qed.

Lemma overlay_after_ok events : overlay_ok (overlayAfter events).
Proof.
  induction events as [|e l IH] using rev_ind; [by split; [split; constructor|..]|]. unfold overlayAfter in *. rewrite foldl_app. by apply overlay_step_ok.
Qed.

(** Whatever comes, in any order: what is rendered names the sessions that have a track, each
    once, in the order of the tracks; a frame is asked for exactly while there is one. *)
Theorem overlay_renders_its_tracks events :
  let o := overlayAfter events in
  map viewLabel (ov_cursorTracks o) = map trackLabel (ov_tracks o) ∧ NoDup (map cw_sessionId (ov_cursorTracks o)) ∧
  (ov_raf o = true ↔ ov_tracks o ≠ []).
Proof.
  cbn zeta. destruct (overlay_after_ok events) as [[Hn Ht] Hv Hl _]. split; [done|]. split.
  - replace (map cw_sessionId (ov_cursorTracks (overlayAfter events))) with (map (λ l : string * string * string, l.1.1) (map viewLabel (ov_cursorTracks (overlayAfter events)))) by (by rewrite map_map).
    rewrite Hv, map_map. replace (map _ _) with ((ov_tracks (overlayAfter events)).*1); [done|]. apply map_ext_in. intros kv Hin%list_elem_of_In. rewrite Forall_forall in Ht. by destruct (Ht kv Hin).
  - rewrite Hl, negb_true_iff, bool_decide_eq_false. done.
Qed.

(** ** Which cursors are shown *)

Lemma merge_other at_ p l sid : p_project_room_session_id p ≠ sid → map_get sid (mergeParticipant at_ l p) = map_get sid l.
Proof.
  intros Hne. unfold mergeParticipant. destruct (p_cursor p), (map_get (p_project_room_session_id p) l); rewrite ?map_get_set, ?bool_decide_false by done; try done.
  destruct (mo_fadingOut _); [done|]. rewrite map_get_set. by rewrite bool_decide_false.
Qed.

Lemma merges_other at_ ps l sid : sid ∉ map p_project_room_session_id ps → map_get sid (foldl (mergeParticipant at_) l ps) = map_get sid l.
Proof.
  revert l. induction ps as [|p ps IH]; intros l; cbn [map foldl]; [done|]. intros Hs. rewrite IH by set_solver. apply merge_other. set_solver.
Qed.

Lemma merges_one at_ ps l p : NoDup (map p_project_room_session_id ps) → p ∈ ps →
  ∃ l', map_get (p_project_room_session_id p) l' = map_get (p_project_room_session_id p) l ∧
        map_get (p_project_room_session_id p) (foldl (mergeParticipant at_) l ps) = map_get (p_project_room_session_id p) (mergeParticipant at_ l' p).
Proof.
  intros Hn (ps1 & ps2 & ->)%list_elem_of_split. rewrite map_app in Hn. apply NoDup_app in Hn as (_ & Hd & [Hp _]%NoDup_cons).
  rewrite foldl_app. cbn [foldl]. rewrite merges_other by done. exists (foldl (mergeParticipant at_) l ps1). split; [|done].
  apply merges_other. intros Hin. apply (Hd _ Hin). cbn. set_solver.
Qed.

Lemma faded_get seen l sid : map_get sid (map (fadeUnseen seen) l) = (λ t, (fadeUnseen seen (sid, t)).2) <$> map_get sid l.
Proof.
  induction l as [|[k v] l IH]; cbn [map map_get]; [done|]. destruct (fadeUnseen seen (k, v)) as [k' v'] eqn:E.
  assert (k' = k) as -> by (pose proof (fadeUnseen_key seen (k, v)) as Hk; by rewrite E in Hk).
  case_bool_decide; [|exact IH]. subst. cbn. by rewrite E.
Qed.

Lemma seen_track seen sid t : sid ∈ seen → (fadeUnseen seen (sid, t)).2 = t.
Proof. intros Hs. unfold fadeUnseen. cbn [fst]. by rewrite bool_decide_true. Qed.

Lemma merged_tracks at_ ps me o : ov_tracks (mergePresence at_ ps me o) =
  map (fadeUnseen (map p_project_room_session_id (filter (λ p, isRemote me p = true) ps))) (foldl (mergeParticipant at_) (ov_tracks o) (filter (λ p, isRemote me p = true) ps)).
Proof. unfold mergePresence, ensureAnimationLoop. by destruct (_ || _). Qed.

(** After every change of the participants, each remote one with a cursor has a track that is
    headed for it, under its name and colour, and does not fade; every other track fades. *)
Theorem present_cursors_are_shown events at_ participants me :
  NoDup (map p_project_room_session_id participants) →
  let tracks := ov_tracks (overlayAfter (events ++ [oe_presence at_ participants me])) in
  (∀ p c, p ∈ participants → isRemote me p = true → p_cursor p = Some c →
     ∃ t, map_get (p_project_room_session_id p) tracks = Some t ∧ mo_fadingOut (ct_motion t) = false ∧
          mo_targetX (ct_motion t) = pp_x c ∧ mo_targetY (ct_motion t) = pp_y c ∧
          ct_displayName t = display_name (p_actor p) ∧ ct_color t = actorColor (color (p_actor p))) ∧
  (∀ sid t, map_get sid tracks = Some t → mo_fadingOut (ct_motion t) = false →
     ∃ p, p ∈ participants ∧ isRemote me p = true ∧ p_project_room_session_id p = sid ∧ is_Some (p_cursor p)).
Proof.
  intros Hn. cbn zeta. unfold overlayAfter. rewrite foldl_app. cbn [foldl overlayStep]. rewrite merged_tracks. fold (overlayAfter events).
  pose proof (oo_tracks _ (overlay_after_ok events)) as Hok. set (l := ov_tracks (overlayAfter events)) in *. clearbody l.
  set (remote := filter (λ p, isRemote me p = true) participants).
  assert (NoDup (map p_project_room_session_id remote)) as Hn'.
  { eapply sublist_NoDup; [exact Hn|]. apply fmap_sublist, sublist_filter. }
  assert (∀ p, p ∈ remote ↔ isRemote me p = true ∧ p ∈ participants) as Hrem by (intros p; apply (list_elem_of_filter (λ p, isRemote me p = true))). clearbody remote. split.
  - intros p c Hp Hr Hc. rewrite faded_get. assert (p ∈ remote) as Hin by by apply Hrem.
    destruct (merges_one at_ remote l p Hn' Hin) as (l' & _ & ->). unfold mergeParticipant. rewrite Hc.
    assert (p_project_room_session_id p ∈ map p_project_room_session_id remote) as Hs by by apply list_elem_of_fmap_2.
    destruct (map_get _ l') as [t0|]; rewrite map_get_set, bool_decide_true by done; cbn [fmap option_fmap option_map]; (eexists; split; [done|]); rewrite seen_track by done; cbn; [|done].
    destruct (sample_initialized (ct_motion t0) {| sa_x := pp_x c; sa_y := pp_y c; sa_at := at_ |}) as (_ & -> & -> & ->). done.
  - intros sid t. rewrite faded_get. intros (t0 & Ht0 & ->)%fmap_Some Hf.
    assert (mo_initialized (ct_motion t0) = true) as Hi by (eapply tracks_get; [by apply merges_ok|done]).
    destruct (decide (sid ∈ map p_project_room_session_id remote)) as [Hs|Hs].
    + rewrite seen_track in Hf by done. apply list_elem_of_fmap in Hs as (p & -> & Hin). exists p. apply Hrem in Hin as [Hr Hp]. split_and!; [done..|].
      destruct (p_cursor p) as [c|] eqn:Hc; [done|]. exfalso. destruct (merges_one at_ remote l p Hn') as (l' & Hl' & Hm); [by apply Hrem|].
      rewrite Ht0 in Hm. unfold mergeParticipant in Hm. rewrite Hc in Hm. destruct (map_get _ l') as [t1|] eqn:Hg; [|congruence].
      destruct (mo_fadingOut (ct_motion t1)) eqn:Hf1; [congruence|]. rewrite map_get_set, bool_decide_true in Hm by done. injection Hm as ->. cbn in Hf.
      symmetry in Hl'. destruct (tracks_get l _ t1 Hok Hl') as [_ Hi1]. destruct (fade_begun (ct_motion t1) Hi1) as [_ Hb]. congruence.
    + exfalso. unfold fadeUnseen in Hf. cbn [fst snd] in Hf. rewrite bool_decide_false in Hf by done. cbn [orb] in Hf.
      destruct (mo_fadingOut (ct_motion t0)) eqn:Hf0; cbn in Hf; [congruence|]. destruct (fade_begun (ct_motion t0) Hi) as [_ Hb]. congruence.
Qed.

(** ** Tracks of dragged nodes *)

(** These hold a released node, as the tracks do not fade, exactly until
    [REMOTE_DRAG_RELEASE_HOLD_MS] after it was let go. *)
Lemma released_track_is_held now at_ dt kv : mo_initialized (rt_motion kv.2) = true → mo_fadingOut (rt_motion kv.2) = false → rt_releaseAt kv.2 = Some at_ →
  stepDragTrack now dt kv = None ↔ num_geb (num_sub now at_) (num REMOTE_DRAG_RELEASE_HOLD_MS) = true.
Proof.
  intros Hi Hf Hr. unfold stepDragTrack. rewrite Hr. destruct (num_geb _ _); [done|]. unfold stepRemoteCursorMotion. rewrite Hi, Hf. done.
Qed.

End motion.

(** ** A library that keeps the laws *)

Definition rationalExp (a : jsnum) : jsnum :=
  match a with
  | NFin q => if Qle_bool (this q) 0 then NFin (/ (1 - q))%Qc else NFin (1 + q)%Qc
  | NInf true => num 0
  | n => n
  end.

#[export] Program Instance rationalMath : MathLibrary := {|
  math_exp := rationalExp;
  math_hypot a b := num_add (math_abs a) (math_abs b) |}.
Next Obligation.
  unfold rationalExp. assert (Qle_bool (this q) 0 = true) as -> by (by apply Qle_bool_iff).
  eexists. split; [done|]. unfold Qcle, Qcinv in *. change (this 0%Qc) with 0%Q in *. change (this 1%Qc) with 1%Q.
  assert (this (Q2Qc (/ this (1 - q)%Qc)) == / (1 - this q))%Q as ->.
  { unfold Q2Qc. cbn [this]. rewrite Qred_correct. apply Qinv_comp. unfold Qcminus. rewrite this_add. assert (this (- q)%Qc == - this q)%Q as -> by apply Qred_correct. done. }
  assert (0 < 1 - this q)%Q as Hp by lra. pose proof (Qinv_lt_0_compat _ Hp) as Hi. split; [lra|].
  apply Qmult_le_l with (z := (1 - this q)%Q); [done|]. rewrite Qmult_inv_r by lra. lra.
Qed.

(** Somebody comes, moves, and leaves: the cursor fades and is gone. *)
Definition somebody (cursor : option PresencePoint) : PresenceParticipant :=
  {| p_project_room_session_id := "s2"; p_actor := {| actor_id := "a2"; display_name := "Ada"; color := "rose" |}; p_graph_id := None;
     p_presence_sequence := 1; p_cursor := cursor; p_selected_node_ids := []; p_selected_edge_ids := []; p_activity := None;
     p_activity_target_ids := []; p_transient_node_positions := [] |}.

Definition visit : list OverlayEvent :=
  [oe_presence (num 0) [somebody (Some {| pp_x := num 1; pp_y := num 2 |})] (Some "s1"); oe_frame (num 16) (num 16);
   oe_presence (num 50) [somebody (Some {| pp_x := num 9; pp_y := num 2 |})] (Some "s1"); oe_frame (num 66) (num 66)].

Lemma visitor_is_shown : map viewLabel (ov_cursorTracks (overlayAfter visit)) = [("s2", "Ada", "#e11d48")].
Proof. vm_compute. reflexivity. Qed.

Lemma visitor_is_gone : overlayAfter (visit ++ [oe_presence (num 100) [] (Some "s1"); oe_frame (num 180) (num 180); oe_frame (num 260) (num 260)]) = Overlay_start.
Proof. vm_compute. reflexivity. Qed.

Lemma present_cursors_are_shown_witness :
  let tracks := ov_tracks (overlayAfter (visit ++ [oe_presence (num 100) [somebody None] (Some "s1")])) in
  (∀ p c, p ∈ [somebody None] → isRemote (Some "s1") p = true → p_cursor p = Some c →
     ∃ t, map_get (p_project_room_session_id p) tracks = Some t ∧ mo_fadingOut (ct_motion t) = false ∧
          mo_targetX (ct_motion t) = pp_x c ∧ mo_targetY (ct_motion t) = pp_y c ∧
          ct_displayName t = display_name (p_actor p) ∧ ct_color t = actorColor (color (p_actor p))) ∧
  (∀ sid t, map_get sid tracks = Some t → mo_fadingOut (ct_motion t) = false →
     ∃ p, p ∈ [somebody None] ∧ isRemote (Some "s1") p = true ∧ p_project_room_session_id p = sid ∧ is_Some (p_cursor p)).
Proof. apply (present_cursors_are_shown visit (num 100) [somebody None] (Some "s1")). repeat constructor; set_solver. Defined.
