(* ===== verification/AgentStream.v ===== *)
(** * Streamed agent replies ([agents/stream.ts])

    A reply arrives as deltas, each with the offset of its text.  The partial reply
    is the text put together so far; it is marked with a gap as soon as a delta
    does not fit, and the snapshot is read again instead.  Lengths count code
    points, which for strings of this model are characters. *)

From S2P Require Import Prelude Js JsText.
From stdpp Require Import numbers list.

(** ** Data *)

Record AgentDelta := {
  de_graph_id : string;
  de_agent_id : string;
  de_conversation_id : string;
  de_turn_id : string;
  de_message_id : string;
  de_offset : Z;
  de_text : string
}.

Record PartialReply := { pr_turnId : string; pr_messageId : string; pr_text : string; pr_gap : bool }.

Record AgentNotice := { an_graphId : string; an_agentId : string; an_conversationId : string }.

(** ** Assembling *)

Definition with_gap (r : PartialReply) : PartialReply :=
  {| pr_turnId := pr_turnId r; pr_messageId := pr_messageId r; pr_text := pr_text r; pr_gap := true |}.

Definition appendDelta (current : option PartialReply) (delta : AgentDelta) : PartialReply :=
  let base := default {| pr_turnId := de_turn_id delta; pr_messageId := de_message_id delta; pr_text := ""; pr_gap := false |} current in
  if negb (bool_decide (pr_turnId base = de_turn_id delta)) || negb (bool_decide (pr_messageId base = de_message_id delta)) || pr_gap base
  then with_gap base
  else
    let length := Z.of_nat (String.length (pr_text base)) in
    if bool_decide (de_offset delta < length)%Z then base
    else if bool_decide (de_offset delta ≠ length) then with_gap base
    else {| pr_turnId := pr_turnId base; pr_messageId := pr_messageId base; pr_text := pr_text base +:+ de_text delta; pr_gap := pr_gap base |}.

(** ** Parsing *)

(** [k in v && typeof v[k] === "string"] *)
Definition string_at (k : string) (v : jsval) : option string := match js_get k v with JStr s => Some s | _ => None end.

Definition integer_at (k : string) (v : jsval) : option Z := match js_get k v with JNum n => num_integer n | _ => None end.

Definition is_type (t : string) (v : jsval) : bool := match js_get "type" v with JStr s => bool_decide (s = t) | _ => false end.

Definition parseDelta (raw : jsval) : option AgentDelta :=
  if negb (is_type "agent.delta" raw) then None
  else
    graph ← string_at "graph_id" raw;
    agent ← string_at "agent_id" raw;
    conversation ← string_at "conversation_id" raw;
    turn ← string_at "turn_id" raw;
    message ← string_at "message_id" raw;
    offset ← integer_at "offset" raw;
    if bool_decide (offset < 0)%Z then None
    else
      text ← string_at "text" raw;
      Some {| de_graph_id := graph; de_agent_id := agent; de_conversation_id := conversation; de_turn_id := turn;
              de_message_id := message; de_offset := offset; de_text := text |}.

Definition parseAgentNotice (raw : jsval) : option AgentNotice :=
  let started := is_type "agent.turn.started" raw in
  let appended := is_type "agent.event.appended" raw in
  if negb (started || is_type "agent.turn.finished" raw || appended) then None
  else
    let target := if started && js_in "turn" raw then js_get "turn" raw else raw in
    graph ← string_at "graph_id" target;
    agent ← string_at "agent_id" target;
    let entry := if appended && js_in "event" raw then js_get "event" raw else target in
    conversation ← string_at "conversation_id" entry;
    _ ← string_at "turn_id" entry;
    let sequenced := match integer_at "sequence" entry with Some n => bool_decide (1 ≤ n)%Z | None => false end in
    if appended && negb sequenced then None
    else Some {| an_graphId := graph; an_agentId := agent; an_conversationId := conversation |}.

(** ** Theorems *)

(** The delta is the piece of the whole reply at its offset. *)
Definition piece_of (turn message whole : string) (d : AgentDelta) : Prop :=
  de_turn_id d = turn ∧ de_message_id d = message ∧
  ∃ before after, whole = before +:+ de_text d +:+ after ∧ de_offset d = Z.of_nat (String.length before).

Definition is_prefix_of (a b : string) : Prop := ∃ c, b = a +:+ c.

Lemma str_length_app a b : String.length (a +:+ b) = String.length a + String.length b.
Proof.
  induction a as [|c a IH]; [done|]. change (S (String.length (a +:+ b)) = S (String.length a + String.length b)). by rewrite IH.
Qed.

Lemma str_app_same_length a b a' b' : String.length a = String.length a' → a +:+ b = a' +:+ b' → a = a' ∧ b = b'.
Proof.
  revert a'. induction a as [|c a IH]; intros [|c' a'] Hl; try done. intros [= -> H]. injection Hl as Hl.
  destruct (IH _ Hl H) as [-> ->]. done.
Qed.

(** A partial reply of the message, so far as it goes. *)
Definition reply_of (turn message whole : string) (r : PartialReply) : Prop :=
  pr_turnId r = turn ∧ pr_messageId r = message ∧ is_prefix_of (pr_text r) whole.

Lemma append_piece turn message whole current d :
  (∀ r, current = Some r → reply_of turn message whole r) → piece_of turn message whole d →
  reply_of turn message whole (appendDelta current d).
Proof.
  intros Hc (Ht & Hm & before & after & Hw & Ho). unfold appendDelta. set (base := default _ current).
  assert (reply_of turn message whole base) as (Hbt & Hbm & rest & Hbw).
  { unfold base. destruct current as [r|]; [by apply Hc|]. split_and!; [done|done|]. by exists whole. }
  rewrite Hbt, Hbm, Ht, Hm, !bool_decide_true by done. cbn [negb orb].
  destruct (pr_gap base); [split_and!; [done|done|by exists rest]|].
  case_bool_decide; [split_and!; [done|done|by exists rest]|].
  case_bool_decide as Heq; [split_and!; [done|done|by exists rest]|].
  split_and!; [done|done|]. cbn. exists after.
  rewrite Ho in Heq. assert (String.length before = String.length (pr_text base)) as Hlen by lia.
  rewrite Hw in Hbw. destruct (str_app_same_length _ _ _ _ Hlen Hbw) as [<- _]. by rewrite Hw, str_app_assoc.
Qed.

Definition receive (current : option PartialReply) (ds : list AgentDelta) : option PartialReply :=
  foldl (λ r d, Some (appendDelta r d)) current ds.

Lemma gap_stays r ds : pr_gap r = true → ∃ r', receive (Some r) ds = Some r' ∧ pr_gap r' = true ∧ pr_text r' = pr_text r.
Proof.
  revert r. induction ds as [|d ds IH]; intros r Hg; [by exists r|]. cbn [receive foldl].
  assert (appendDelta (Some r) d = with_gap r) as ->.
  { unfold appendDelta. change (default _ (Some r)) with r. by rewrite Hg, orb_true_r. }
  destruct (IH (with_gap r) eq_refl) as (r' & Hr' & Hg' & Ht'). by exists r'.
Qed.

(** The pieces of a reply in order. *)
Fixpoint deltas_at (template : AgentDelta) (offset : nat) (pieces : list string) : list AgentDelta :=
  match pieces with
  | [] => []
  | p :: rest =>
      {| de_graph_id := de_graph_id template; de_agent_id := de_agent_id template;
         de_conversation_id := de_conversation_id template; de_turn_id := de_turn_id template;
         de_message_id := de_message_id template; de_offset := Z.of_nat offset; de_text := p |} ::
      deltas_at template (offset + String.length p) rest
  end.

Fixpoint concat_text (pieces : list string) : string := match pieces with [] => "" | p :: rest => p +:+ concat_text rest end.

Lemma receive_in_order template pieces text :
  receive (Some {| pr_turnId := de_turn_id template; pr_messageId := de_message_id template; pr_text := text; pr_gap := false |})
    (deltas_at template (String.length text) pieces) =
  Some {| pr_turnId := de_turn_id template; pr_messageId := de_message_id template; pr_text := text +:+ concat_text pieces; pr_gap := false |}.
Proof.
  revert text. induction pieces as [|p pieces IH]; intros text; cbn [deltas_at concat_text receive foldl].
  { f_equal. f_equal. induction text as [|c text IH]; [done|]. change (String.String c text = String.String c (text +:+ "")). by rewrite <- IH. }
  assert (∀ r, foldl (λ r d, Some (appendDelta r d)) (Some r) (deltas_at template (String.length text + String.length p) pieces) =
               receive (Some r) (deltas_at template (String.length (text +:+ p)) pieces)) as Hfold.
  { intros r. by rewrite str_length_app. }
  unfold appendDelta at 2. cbn [default id pr_turnId pr_messageId pr_gap pr_text de_turn_id de_message_id de_offset de_text].
  rewrite !bool_decide_true by done. cbn [negb orb]. rewrite (bool_decide_false (_ < _)%Z) by lia.
  rewrite bool_decide_false by (intros H; by apply H). rewrite Hfold, IH. by rewrite str_app_assoc.
Qed.

(** However the deltas of a reply are repeated, reordered or lost, the text put
    together is a beginning of the reply, never a wrong text, and a gap, once marked,
    stays with the text unchanged; delivered in order, they give the whole reply
    without a gap. *)
Theorem streamed_text_is_a_prefix turn message whole ds :
  Forall (piece_of turn message whole) ds →
  (∀ r, receive None ds = Some r → reply_of turn message whole r) ∧
  (∀ r, pr_gap r = true → ∃ r', receive (Some r) ds = Some r' ∧ pr_gap r' = true ∧ pr_text r' = pr_text r) ∧
  (∀ template pieces, de_turn_id template = turn → de_message_id template = message →
     receive (Some {| pr_turnId := turn; pr_messageId := message; pr_text := ""; pr_gap := false |}) (deltas_at template 0 pieces) =
     Some {| pr_turnId := turn; pr_messageId := message; pr_text := concat_text pieces; pr_gap := false |}).
Proof.
  intros Hds. split_and!.
  - assert (∀ current, (∀ r, current = Some r → reply_of turn message whole r) →
            ∀ r, receive current ds = Some r → reply_of turn message whole r) as H; [|by apply H].
    induction Hds as [|d ds Hd _ IH]; intros current Hc r; cbn [receive foldl]; [apply Hc|].
    apply IH. intros r' [= <-]. by apply append_piece.
  - intros r. apply gap_stays.
  - intros template pieces <- <-. exact (receive_in_order template pieces "").
Qed.

(** *** Frames *)

Definition deltaJson (d : AgentDelta) : jsval :=
  JObj [("type", JStr "agent.delta"); ("graph_id", JStr (de_graph_id d)); ("agent_id", JStr (de_agent_id d));
        ("conversation_id", JStr (de_conversation_id d)); ("turn_id", JStr (de_turn_id d));
        ("message_id", JStr (de_message_id d)); ("offset", JNum (num (de_offset d))); ("text", JStr (de_text d))].

(** A delta frame is read back as it was sent; what is read at all has an offset
    from zero on; and a frame is never both a delta and a notice. *)
Theorem delta_frames_round_trip :
  (∀ d, (0 ≤ de_offset d)%Z → parseDelta (deltaJson d) = Some d) ∧
  (∀ raw d, parseDelta raw = Some d → (0 ≤ de_offset d)%Z ∧ parseAgentNotice raw = None).
Proof.
  split.
  - intros [g a c t m o x] Ho. unfold parseDelta, deltaJson.
    assert (∀ fs, integer_at "offset" (JObj (("type", JStr "agent.delta") :: ("graph_id", JStr g) :: ("agent_id", JStr a) ::
      ("conversation_id", JStr c) :: ("turn_id", JStr t) :: ("message_id", JStr m) :: ("offset", JNum (num o)) :: fs)) = Some o) as Hoff.
    { intros fs. unfold integer_at.
      change (js_get "offset" _) with (JNum (num o)). apply num_integer_num. }
    cbn [is_type js_get]. rewrite Hoff. cbn -[bool_decide num]. by rewrite (bool_decide_false (o < 0)%Z) by (cbn in Ho; lia).
  - intros raw d. unfold parseDelta. destruct (is_type "agent.delta" raw) eqn:Ht; [|done]. cbn [negb].
    intros H. repeat (apply bind_Some in H as (? & _ & H)). case_bool_decide; [done|].
    apply bind_Some in H as (? & _ & [= <-]). cbn. split; [lia|]. unfold parseAgentNotice, is_type in *.
    destruct (js_get "type" raw) as [| | | |s| |]; try done. apply bool_decide_eq_true in Ht as ->. done.
Qed.

(** ** Witness *)

Definition sample_delta (offset : Z) (text : string) : AgentDelta :=
  {| de_graph_id := "g"; de_agent_id := "a"; de_conversation_id := "c"; de_turn_id := "t"; de_message_id := "m";
     de_offset := offset; de_text := text |}.

Lemma streamed_text_is_a_prefix_witness :
  receive None [sample_delta 0 "Hel"; sample_delta 0 "Hel"; sample_delta 3 "lo"] =
    Some {| pr_turnId := "t"; pr_messageId := "m"; pr_text := "Hello"; pr_gap := false |} ∧
  ∀ r, receive None [sample_delta 3 "lo"] = Some r → is_prefix_of (pr_text r) "Hello".
Proof.
  split; [reflexivity|]. intros r Hr.
  refine (proj2 (proj2 (proj1 (streamed_text_is_a_prefix "t" "m" "Hello" [sample_delta 3 "lo"] _) r Hr))).
  constructor; [|constructor]. split_and!; [done..|]. by exists "Hel", "".
Defined.
