(* ===== verification/AgentChat.v ===== *)
(** * Conversations with an agent ([agents/useAgentChat.ts])

    The hook keeps one conversation on screen: its events, the reply that is streaming in and
    the turn that runs.  It reads them again ("sync") whenever the room says that something changed,
    and sends, stops, forks and creates.  Answers come back in any order; [generation] tells a
    sync that has been overtaken from the last one.

    A callback is an action on the hook's state that also emits requests; what is not answered
    yet is kept in [ch_waiting], and [answer] settles one of them.  An action includes the effects
    of the render that follows it.  Unmounting is not modelled. *)

From S2P Require Import Prelude Js JsText Handles Canvas AgentStream.
From stdpp Require Import numbers list.
#[local] Open Scope nat_scope.

(** ** Data *)

Record AgentEvent := { ev_turn_id : string; ev_sequence : Z; ev_kind : string }.

Record EventsPage := { pg_events : list AgentEvent; pg_next_sequence : Z; pg_last_sequence : Z }.

(** [ActiveAgentTurnResponse] *)
Record ActiveTurn := { ac_turn_id : string; ac_message_id : option string; ac_partial_text : string }.

Record SendRequest := { rq_client_turn_id : string; rq_text : string }.

Record AgentScope := { sc_workspaceId : string; sc_projectId : string; sc_graphId : string; sc_agentId : string }.

(** Who waits for a sync. *)
Inductive SyncOwner := by_effect | by_room | by_send | by_stop.

(** A sync between two answers. *)
Record Sync := { sy_conversation : string; sy_version : nat; sy_after : Z; sy_history : list AgentEvent; sy_owner : SyncOwner }.

Inductive Waiting :=
| w_list
| w_create
| w_fork
| w_send (conversation : string)
| w_cancel (conversation : string)
| w_page (s : Sync)
| w_active (s : Sync).

Inductive AgentRequest :=
| req_list
| req_create
| req_fork (conversation : string) (sequence : Z)
| req_events (conversation : string) (after : Z)
| req_active (conversation : string)
| req_send (conversation : string) (body : SendRequest)
| req_cancel (conversation turn : string).

Record Chat := {
  ch_conversations : list string;
  ch_conversationId : string;
  ch_events : list AgentEvent;
  (** the state and [partialRef], which are set together *)
  ch_partial : option PartialReply;
  ch_active : option ActiveTurn;
  ch_error : string;
  ch_loading : bool;
  ch_busy : bool;
  (** refs *)
  ch_sending : bool;
  ch_retry : option SendRequest;
  ch_generation : nat;
  (** what is not answered yet, oldest first *)
  ch_waiting : list Waiting
}.

Definition setConversations (x : list string) (s : Chat) : Chat :=
  {| ch_conversations := x; ch_conversationId := ch_conversationId s; ch_events := ch_events s; ch_partial := ch_partial s; ch_active := ch_active s; ch_error := ch_error s; ch_loading := ch_loading s; ch_busy := ch_busy s; ch_sending := ch_sending s; ch_retry := ch_retry s; ch_generation := ch_generation s; ch_waiting := ch_waiting s |}.
Definition setConversationId (x : string) (s : Chat) : Chat :=
  {| ch_conversations := ch_conversations s; ch_conversationId := x; ch_events := ch_events s; ch_partial := ch_partial s; ch_active := ch_active s; ch_error := ch_error s; ch_loading := ch_loading s; ch_busy := ch_busy s; ch_sending := ch_sending s; ch_retry := ch_retry s; ch_generation := ch_generation s; ch_waiting := ch_waiting s |}.
Definition setEvents (x : list AgentEvent) (s : Chat) : Chat :=
  {| ch_conversations := ch_conversations s; ch_conversationId := ch_conversationId s; ch_events := x; ch_partial := ch_partial s; ch_active := ch_active s; ch_error := ch_error s; ch_loading := ch_loading s; ch_busy := ch_busy s; ch_sending := ch_sending s; ch_retry := ch_retry s; ch_generation := ch_generation s; ch_waiting := ch_waiting s |}.
Definition setPartial (x : option PartialReply) (s : Chat) : Chat :=
  {| ch_conversations := ch_conversations s; ch_conversationId := ch_conversationId s; ch_events := ch_events s; ch_partial := x; ch_active := ch_active s; ch_error := ch_error s; ch_loading := ch_loading s; ch_busy := ch_busy s; ch_sending := ch_sending s; ch_retry := ch_retry s; ch_generation := ch_generation s; ch_waiting := ch_waiting s |}.
Definition setActive (x : option ActiveTurn) (s : Chat) : Chat :=
  {| ch_conversations := ch_conversations s; ch_conversationId := ch_conversationId s; ch_events := ch_events s; ch_partial := ch_partial s; ch_active := x; ch_error := ch_error s; ch_loading := ch_loading s; ch_busy := ch_busy s; ch_sending := ch_sending s; ch_retry := ch_retry s; ch_generation := ch_generation s; ch_waiting := ch_waiting s |}.
Definition setError (x : string) (s : Chat) : Chat :=
  {| ch_conversations := ch_conversations s; ch_conversationId := ch_conversationId s; ch_events := ch_events s; ch_partial := ch_partial s; ch_active := ch_active s; ch_error := x; ch_loading := ch_loading s; ch_busy := ch_busy s; ch_sending := ch_sending s; ch_retry := ch_retry s; ch_generation := ch_generation s; ch_waiting := ch_waiting s |}.
Definition setLoading (x : bool) (s : Chat) : Chat :=
  {| ch_conversations := ch_conversations s; ch_conversationId := ch_conversationId s; ch_events := ch_events s; ch_partial := ch_partial s; ch_active := ch_active s; ch_error := ch_error s; ch_loading := x; ch_busy := ch_busy s; ch_sending := ch_sending s; ch_retry := ch_retry s; ch_generation := ch_generation s; ch_waiting := ch_waiting s |}.
Definition setBusy (x : bool) (s : Chat) : Chat :=
  {| ch_conversations := ch_conversations s; ch_conversationId := ch_conversationId s; ch_events := ch_events s; ch_partial := ch_partial s; ch_active := ch_active s; ch_error := ch_error s; ch_loading := ch_loading s; ch_busy := x; ch_sending := ch_sending s; ch_retry := ch_retry s; ch_generation := ch_generation s; ch_waiting := ch_waiting s |}.
Definition setSending (x : bool) (s : Chat) : Chat :=
  {| ch_conversations := ch_conversations s; ch_conversationId := ch_conversationId s; ch_events := ch_events s; ch_partial := ch_partial s; ch_active := ch_active s; ch_error := ch_error s; ch_loading := ch_loading s; ch_busy := ch_busy s; ch_sending := x; ch_retry := ch_retry s; ch_generation := ch_generation s; ch_waiting := ch_waiting s |}.
Definition setRetry (x : option SendRequest) (s : Chat) : Chat :=
  {| ch_conversations := ch_conversations s; ch_conversationId := ch_conversationId s; ch_events := ch_events s; ch_partial := ch_partial s; ch_active := ch_active s; ch_error := ch_error s; ch_loading := ch_loading s; ch_busy := ch_busy s; ch_sending := ch_sending s; ch_retry := x; ch_generation := ch_generation s; ch_waiting := ch_waiting s |}.
Definition setGeneration (x : nat) (s : Chat) : Chat :=
  {| ch_conversations := ch_conversations s; ch_conversationId := ch_conversationId s; ch_events := ch_events s; ch_partial := ch_partial s; ch_active := ch_active s; ch_error := ch_error s; ch_loading := ch_loading s; ch_busy := ch_busy s; ch_sending := ch_sending s; ch_retry := ch_retry s; ch_generation := x; ch_waiting := ch_waiting s |}.
Definition setWaiting (x : list Waiting) (s : Chat) : Chat :=
  {| ch_conversations := ch_conversations s; ch_conversationId := ch_conversationId s; ch_events := ch_events s; ch_partial := ch_partial s; ch_active := ch_active s; ch_error := ch_error s; ch_loading := ch_loading s; ch_busy := ch_busy s; ch_sending := ch_sending s; ch_retry := ch_retry s; ch_generation := ch_generation s; ch_waiting := x |}.

(** ** Actions *)

Definition ChatM : Type := Chat → Chat * list AgentRequest.

Definition nothing : ChatM := λ s, (s, []).
Definition set (f : Chat → Chat) : ChatM := λ s, (f s, []).
Definition request (r : AgentRequest) (w : Waiting) : ChatM := λ s, (setWaiting (ch_waiting s ++ [w]) s, [r]).
Definition next (a b : ChatM) : ChatM := λ s, let '(s1, r1) := a s in let '(s2, r2) := b s1 in (s2, r1 ++ r2).
Definition reading (k : Chat → ChatM) : ChatM := λ s, k s s.

Declare Scope chat_scope.
Notation "a ;~ b" := (next a b) (at level 62, right associativity) : chat_scope.
#[local] Open Scope chat_scope.

Definition fail (message : string) : ChatM := set (setError message).

(** *** [sync] *)

(** What follows a sync where it was started. *)
Definition afterSync (owner : SyncOwner) (outcome : res unit) : ChatM :=
  match owner, outcome with
  | by_effect, Ok _ => set (setLoading false)
  | by_effect, Throw m => set (setLoading false) ;~ fail m
  | by_room, Ok _ => nothing
  | by_room, Throw m => fail m
  | by_send, Ok _ => set (setRetry None) ;~ set (setSending false) ;~ set (setBusy false)
  | by_send, Throw m => set (setSending false) ;~ fail m ;~ set (setBusy false)
  | by_stop, Ok _ => set (setBusy false)
  | by_stop, Throw m => fail m ;~ set (setBusy false)
  end.

Definition sync (owner : SyncOwner) (conversation : string) : ChatM :=
  if bool_decide (conversation = "") then afterSync owner (Ok tt)
  else
    set (λ s, setGeneration (S (ch_generation s)) s) ;~
    reading (λ s, request (req_events conversation 0)
      (w_page {| sy_conversation := conversation; sy_version := ch_generation s; sy_after := 0; sy_history := []; sy_owner := owner |})).

Definition syncPage (y : Sync) (page : EventsPage) : ChatM :=
  let history := sy_history y ++ pg_events page in
  if bool_decide (pg_last_sequence page ≤ pg_next_sequence page)%Z || bool_decide (pg_next_sequence page ≤ sy_after y)%Z
  then request (req_active (sy_conversation y))
         (w_active {| sy_conversation := sy_conversation y; sy_version := sy_version y; sy_after := sy_after y; sy_history := history; sy_owner := sy_owner y |})
  else request (req_events (sy_conversation y) (pg_next_sequence page))
         (w_page {| sy_conversation := sy_conversation y; sy_version := sy_version y; sy_after := pg_next_sequence page; sy_history := history; sy_owner := sy_owner y |}).

Definition isReplyTo (turn : string) (e : AgentEvent) : bool := bool_decide (ev_turn_id e = turn) && bool_decide (ev_kind e = "assistant_message").

(** The reply that the snapshot shows. *)
Definition snapshotReply (history : list AgentEvent) (snapshot : option ActiveTurn) : option PartialReply :=
  snapshot ← snapshot;
  messageId ← truthy (ac_message_id snapshot);
  if existsb (isReplyTo (ac_turn_id snapshot)) history then None
  else Some {| pr_turnId := ac_turn_id snapshot; pr_messageId := messageId; pr_text := ac_partial_text snapshot; pr_gap := false |}.

(** What streamed in meanwhile is kept where it goes on from the snapshot. *)
Definition keepProvisional (next provisional : option PartialReply) : option PartialReply :=
  match next, provisional with
  | Some n, Some p =>
      if negb (pr_gap p) && bool_decide (pr_turnId p = pr_turnId n) && bool_decide (pr_messageId p = pr_messageId n) && String.prefix (pr_text n) (pr_text p)
      then provisional else next
  | _, _ => next
  end.

Definition showSnapshot (y : Sync) (snapshot : option ActiveTurn) : ChatM :=
  reading (λ s,
    if negb (bool_decide (sy_version y = ch_generation s)) then nothing
    else set (setEvents (sy_history y)) ;~ set (setActive snapshot) ;~
         set (setPartial (keepProvisional (snapshotReply (sy_history y) snapshot) (ch_partial s)))).

(** *** Conversations *)

(** The effect of a render in which the conversation changed: the old one's cleanup, then a sync. *)
Definition conversationChanged (old new : string) : ChatM :=
  if bool_decide (old = new) then nothing
  else set (λ s, setGeneration (S (ch_generation s)) s) ;~ sync by_effect new.

Definition select (id : string) : ChatM :=
  reading (λ s,
    set (λ s, setGeneration (S (ch_generation s)) s) ;~ set (setLoading (negb (bool_decide (id = "")))) ;~ set (setEvents []) ;~ set (setPartial None) ;~
    set (setActive None) ;~ set (setRetry None) ;~ set (setConversationId id) ;~ conversationChanged (ch_conversationId s) id).

Definition listed (ids : list string) : ChatM :=
  reading (λ s,
    let id := default "" (head ids) in
    set (setConversations ids) ;~ set (setLoading (bool_decide (ids ≠ []))) ;~ set (setConversationId id) ;~ conversationChanged (ch_conversationId s) id).

(** The state before the first effects, and those. *)
Definition initialChat : Chat :=
  {| ch_conversations := []; ch_conversationId := ""; ch_events := []; ch_partial := None; ch_active := None; ch_error := ""; ch_loading := true;
     ch_busy := false; ch_sending := false; ch_retry := None; ch_generation := 0; ch_waiting := [] |}.

Definition mountChat : ChatM := request req_list w_list ;~ sync by_effect "".

(** *** What the card calls *)

Definition startAction : ChatM := set (setError "") ;~ set (setBusy true).

Definition create : ChatM := startAction ;~ request req_create w_create.

Definition fork (sequence : Z) : ChatM := startAction ;~ reading (λ s, request (req_fork (ch_conversationId s) sequence) w_fork).

Definition added (id : string) : ChatM := set (λ s, setConversations (ch_conversations s ++ [id]) s) ;~ select id ;~ set (setBusy false).

Definition send (text uuid : string) : ChatM :=
  reading (λ s,
    startAction ;~
    if ch_sending s || bool_decide (is_Some (ch_active s)) || ch_loading s || bool_decide (trim text = "") then set (setBusy false)
    else
      let body := default {| rq_client_turn_id := uuid; rq_text := text |} (ch_retry s) in
      set (setSending true) ;~ set (setRetry (Some body)) ;~ request (req_send (ch_conversationId s) body) (w_send (ch_conversationId s))).

Definition stop : ChatM :=
  reading (λ s,
    startAction ;~
    match ch_active s with
    | None => set (setBusy false)
    | Some active => request (req_cancel (ch_conversationId s) (ac_turn_id active)) (w_cancel (ch_conversationId s))
    end).

(** *** What the room says *)

Record RoomNotice := { rn_workspaceId : string; rn_projectId : string; rn_raw : jsval }.

Definition hearRoom (scope : AgentScope) (notice : RoomNotice) : ChatM :=
  reading (λ s,
    if negb (bool_decide (rn_workspaceId notice = sc_workspaceId scope)) || negb (bool_decide (rn_projectId notice = sc_projectId scope)) then nothing
    else if is_type "room.ready" (rn_raw notice) then sync by_room (ch_conversationId s)
    else match parseDelta (rn_raw notice) with
         | Some delta =>
             if negb (bool_decide (de_graph_id delta = sc_graphId scope)) || negb (bool_decide (de_agent_id delta = sc_agentId scope)) ||
                negb (bool_decide (de_conversation_id delta = ch_conversationId s)) || existsb (isReplyTo (de_turn_id delta)) (ch_events s)
             then nothing
             else
               let next := appendDelta (ch_partial s) delta in
               set (setPartial (Some next)) ;~ if pr_gap next then sync by_room (ch_conversationId s) else nothing
         | None =>
             match parseAgentNotice (rn_raw notice) with
             | Some target =>
                 if bool_decide (an_graphId target = sc_graphId scope) && bool_decide (an_agentId target = sc_agentId scope) &&
                    bool_decide (an_conversationId target = ch_conversationId s)
                 then sync by_room (ch_conversationId s) else nothing
             | None => nothing
             end
         end).

(** *** Answers *)

Inductive ChatAnswer :=
| a_list (r : res (list string))
| a_item (r : res string)
| a_done (r : res unit)
| a_page (r : res EventsPage)
| a_active (r : res (option ActiveTurn)).

(** What an answer does to the one that waits for it. *)
Definition settle (w : Waiting) (a : ChatAnswer) : option ChatM :=
  match w, a with
  | w_list, a_list (Ok ids) => Some (listed ids)
  | w_list, a_list (Throw m) => Some (set (setLoading false) ;~ fail m)
  | (w_create | w_fork), a_item (Ok id) => Some (added id)
  | (w_create | w_fork), a_item (Throw m) => Some (fail m ;~ set (setBusy false))
  | w_send c, a_done (Ok _) => Some (sync by_send c)
  | w_send _, a_done (Throw m) => Some (set (setSending false) ;~ fail m ;~ set (setBusy false))
  | w_cancel c, a_done (Ok _) => Some (sync by_stop c)
  | w_cancel _, a_done (Throw m) => Some (fail m ;~ set (setBusy false))
  | w_page y, a_page (Ok page) => Some (syncPage y page)
  | w_page y, a_page (Throw m) => Some (afterSync (sy_owner y) (Throw m))
  | w_active y, a_active (Ok snapshot) => Some (showSnapshot y snapshot ;~ afterSync (sy_owner y) (Ok tt))
  | w_active y, a_active (Throw m) => Some (afterSync (sy_owner y) (Throw m))
  | _, _ => None
  end.

Definition answer (k : nat) (a : ChatAnswer) : ChatM :=
  reading (λ s,
    match ch_waiting s !! k ≫= λ w, settle w a with
    | Some m => set (setWaiting (delete k (ch_waiting s))) ;~ m
    | None => nothing
    end).
