(* ===== verification/AgentChatTheory.v ===== *)
(** * What a conversation shows

    The events on screen are those of the selected conversation, however late the answers come; a
    message is sent under one id until it has arrived; and where the hook loses track. *)

From S2P Require Import Prelude Js JsText Handles Canvas AgentStream AgentChat.
From stdpp Require Import numbers list.
#[local] Open Scope nat_scope.
#[local] Open Scope chat_scope.

(** ** Steps *)

Inductive ChatEvent :=
| do_select (id : string)
| do_create
| do_fork (sequence : Z)
| do_send (text uuid : string)
| do_stop
| do_hear (scope : AgentScope) (notice : RoomNotice)
| do_answer (k : nat) (a : ChatAnswer).

Definition perform (e : ChatEvent) : ChatM :=
  match e with
  | do_select id => select id
  | do_create => create
  | do_fork n => fork n
  | do_send text uuid => send text uuid
  | do_stop => stop
  | do_hear scope notice => hearRoom scope notice
  | do_answer k a => answer k a
  end.

Section served.
(** The events that the server has of a conversation. *)
Context (served : string → AgentEvent → Prop).

(** The card lets nothing be started while an action runs, and a page holds events of the
    conversation it was asked for. *)
Definition allowed (s : Chat) (e : ChatEvent) : Prop :=
  match e with
  | do_select _ | do_create | do_fork _ | do_send _ _ | do_stop => ch_busy s = false
  | do_hear _ _ => True
  | do_answer k (a_page (Ok page)) => ∀ y, ch_waiting s !! k = Some (w_page y) → Forall (served (sy_conversation y)) (pg_events page)
  | do_answer _ _ => True
  end.

(** The hook once the conversations are listed. *)
Definition opened (ids : list string) : Chat := (answer 0 (a_list (Ok ids)) (mountChat initialChat).1).1.

Inductive chat_reachable (ids : list string) : Chat → Prop :=
| chat_opened : chat_reachable ids (opened ids)
| chat_stepped s e : chat_reachable ids s → allowed s e → chat_reachable ids (perform e s).1.

(** ** The invariant *)

(** An action of the card waits for it. *)
Definition busy_task (w : Waiting) : bool :=
  match w with
  | w_create | w_fork | w_send _ | w_cancel _ => true
  | w_page y | w_active y => match sy_owner y with by_send | by_stop => true | _ => false end
  | w_list => false
  end.

Definition task_conversation (w : Waiting) : option string :=
  match w with
  | w_send c | w_cancel c => Some c
  | w_page y | w_active y => Some (sy_conversation y)
  | _ => None
  end.

Definition sync_of (w : Waiting) : option Sync := match w with w_page y | w_active y => Some y | _ => None end.

Definition tasks (s : Chat) : list Waiting := filter (λ w, busy_task w = true) (ch_waiting s).

Definition sync_fits (s : Chat) (y : Sync) : Prop :=
  sy_version y ≤ ch_generation s ∧ (sy_version y = ch_generation s → sy_conversation y = ch_conversationId s) ∧ Forall (served (sy_conversation y)) (sy_history y).

Definition tasks_fit (s : Chat) : Prop :=
  match tasks s with
  | [] => True
  | [w] => ch_busy s = true ∧ ∀ c, task_conversation w = Some c → c = ch_conversationId s
  | _ => False
  end.

Record chat_inv (s : Chat) : Prop := {
  ci_shown : Forall (served (ch_conversationId s)) (ch_events s);
  ci_syncs : ∀ w y, w ∈ ch_waiting s → sync_of w = Some y → sync_fits s y;
  ci_tasks : tasks_fit s;
  ci_listed : w_list ∉ ch_waiting s
}.

Lemma fst_next a b s : ((a ;~ b) s).1 = (b (a s).1).1.
Proof. unfold next. destruct (a s) as [s1 r1]. cbn. by destruct (b s1). Qed.

(** What an action leaves alone. *)
Definition same_core (s s' : Chat) : Prop :=
  ch_conversationId s' = ch_conversationId s ∧ ch_generation s' = ch_generation s ∧ ch_waiting s' = ch_waiting s.

Lemma inv_core s s' : chat_inv s → same_core s s' → Forall (served (ch_conversationId s)) (ch_events s') → (ch_busy s' = ch_busy s ∨ tasks s = []) → chat_inv s'.
Proof.
  intros [Hs Hy Ht Hl] (Hc & Hg & Hw) Hev Hb. split.
  - by rewrite Hc.
  - intros w y Hin Hsy. rewrite Hw in Hin. unfold sync_fits. rewrite Hg, Hc. by eapply Hy.
  - unfold tasks_fit, tasks in *. rewrite Hw, Hc. destruct Hb as [Hb|Hb]; by rewrite Hb.
  - by rewrite Hw.
Qed.

Lemma idle_tasks s : chat_inv s → ch_busy s = false → tasks s = [].
Proof. intros [_ _ Ht _] Hb. unfold tasks_fit in Ht. destruct (tasks s) as [|w [|]]; [done| |done]. destruct Ht as [H _]. congruence. Qed.

(** One more is waited for. *)
Lemma inv_request s r w :
  chat_inv s → w ≠ w_list → (∀ y, sync_of w = Some y → sync_fits s y) →
  (busy_task w = true → tasks s = [] ∧ ch_busy s = true ∧ ∀ c, task_conversation w = Some c → c = ch_conversationId s) → chat_inv (request r w s).1.
Proof.
  intros [Hs Hy Ht Hl] Hw Hf Hb. split; cbn.
  - done.
  - intros w' y Hin Hsy. apply elem_of_app in Hin as [Hin|Hin]; [by eapply Hy|]. apply list_elem_of_singleton in Hin. subst. by apply Hf.
  - unfold tasks_fit, tasks in *. cbn. rewrite filter_app. destruct (busy_task w) eqn:E.
    + destruct (Hb eq_refl) as (-> & Hbusy & Hc). rewrite filter_cons_True, filter_nil by done. done.
    + rewrite filter_cons_False, filter_nil by congruence. by rewrite app_nil_r.
  - rewrite elem_of_app, list_elem_of_singleton. intros [?|?]; [by apply Hl|by subst].
Qed.

(** One is answered: what is left, and what is known of it. *)
Lemma filter_delete_task l k w : l !! k = Some w →
  filter (λ w, busy_task w = true) l =
    filter (λ w, busy_task w = true) (take k l) ++ filter (λ w, busy_task w = true) [w] ++ filter (λ w, busy_task w = true) (drop (S k) l) ∧
  filter (λ w, busy_task w = true) (delete k l) = filter (λ w, busy_task w = true) (take k l) ++ filter (λ w, busy_task w = true) (drop (S k) l).
Proof. intros Hk. rewrite delete_take_drop, <- !filter_app. split; [|done]. f_equal. cbn. by rewrite take_drop_middle. Qed.

Definition without (k : nat) (s : Chat) : Chat := setWaiting (delete k (ch_waiting s)) s.

Lemma inv_answered s k w : chat_inv s → ch_waiting s !! k = Some w →
  chat_inv (without k s) ∧ (busy_task w = true → tasks (without k s) = [] ∧ ch_busy s = true ∧ ∀ c, task_conversation w = Some c → c = ch_conversationId s).
Proof.
  intros [Hs Hy Ht Hl] Hk. destruct (filter_delete_task _ _ _ Hk) as [Hf Hd]. assert (∀ x, x ∈ delete k (ch_waiting s) → x ∈ ch_waiting s) as Hin.
  { intros x Hx. rewrite delete_take_drop in Hx. rewrite <- (take_drop_middle _ _ _ Hk). rewrite elem_of_app in Hx |- *. rewrite elem_of_cons. tauto. }
  unfold tasks_fit, tasks in Ht. rewrite Hf in Ht. destruct (busy_task w) eqn:E.
  - rewrite (filter_cons_True _ w), filter_nil in Ht by done. cbn [app] in Ht.
    destruct (filter _ (take k _)) as [|a l1] eqn:E1; [|by destruct l1]. destruct (filter _ (drop _ _)) as [|b l2] eqn:E2; [|done]. cbn in Ht, Hd. split.
    + split; cbn; [done|intros; eapply Hy; eauto|unfold tasks_fit, tasks; cbn; by rewrite Hd|auto].
    + intros _. split; [exact Hd|done].
  - rewrite (filter_cons_False _ w), filter_nil in Ht by congruence. cbn [app] in Ht. split; [|done].
    split; cbn; [done|intros; eapply Hy; eauto|unfold tasks_fit, tasks; cbn; by rewrite Hd|auto].
Qed.

(** ** Each action keeps it *)

Definition busy_owner (o : SyncOwner) : bool := match o with by_send | by_stop => true | _ => false end.

Lemma inv_afterSync owner o s : chat_inv s → (busy_owner owner = true → tasks s = []) → chat_inv (afterSync owner o s).1.
Proof.
  intros Hi Ht. assert (Hs := ci_shown _ Hi). apply (inv_core s); [done|..].
  - by destruct owner, o.
  - by destruct owner, o.
  - destruct owner; [left|left|right; by apply Ht|right; by apply Ht]; by destruct o.
Qed.

Definition bump (s : Chat) : Chat := setGeneration (S (ch_generation s)) s.

Lemma inv_bump s : chat_inv s → chat_inv (bump s).
Proof.
  intros [Hs Hy Ht Hl]. split; cbn; try done. intros w y Hin Hsy. destruct (Hy w y Hin Hsy) as (Hv & _ & Hh). split_and!; cbn; [lia|lia|done].
Qed.

Lemma inv_sync owner c s :
  chat_inv s → c = ch_conversationId s → (busy_owner owner = true → tasks s = [] ∧ ch_busy s = true) → chat_inv (sync owner c s).1.
Proof.
  intros Hi Hc Hb. unfold sync. case_bool_decide; [apply inv_afterSync; [done|]; intros Ho; by apply Hb|].
  rewrite fst_next. unfold reading. cbn [set fst]. fold (bump s). apply inv_request; [by apply inv_bump|done|..].
  - intros y [= <-]. split_and!; cbn; [lia|done|constructor].
  - cbn. intros Ho. destruct (Hb ltac:(by destruct owner)) as [Ht Hbusy]. split_and!; [exact Ht|done|]. intros x [= <-]. done.
Qed.

Lemma tasks_sync_effect c s : tasks (sync by_effect c s).1 = tasks s ∧ ch_busy (sync by_effect c s).1 = ch_busy s.
Proof.
  unfold sync. case_bool_decide; [done|]. rewrite fst_next. unfold tasks, reading. cbn. split; [|done].
  by rewrite filter_app, filter_cons_False, filter_nil, app_nil_r.
Qed.

Definition selected (id : string) (s : Chat) : Chat :=
  setConversationId id (setRetry None (setActive None (setPartial None (setEvents [] (setLoading (negb (bool_decide (id = ""))) (bump s)))))).

Lemma select_eq id s : (select id s).1 = (conversationChanged (ch_conversationId s) id (selected id s)).1.
Proof. unfold select, reading. by rewrite !fst_next. Qed.

Lemma inv_selected id s : chat_inv s → tasks s = [] → chat_inv (selected id s).
Proof.
  intros [Hs Hy Ht Hl] Hn. split; cbn; [constructor| |unfold tasks_fit, tasks in *; cbn; by rewrite Hn|done].
  intros w y Hin Hsy. destruct (Hy w y Hin Hsy) as (Hv & _ & Hh). split_and!; cbn; [lia|lia|done].
Qed.

Lemma inv_select id s : chat_inv s → tasks s = [] → chat_inv (select id s).1 ∧ tasks (select id s).1 = [] ∧ ch_busy (select id s).1 = ch_busy s.
Proof.
  intros Hi Ht. rewrite select_eq. pose proof (inv_selected id s Hi Ht) as Hs. assert (tasks (selected id s) = []) as Hn by exact Ht.
  unfold conversationChanged. case_bool_decide; [done|]. rewrite fst_next. cbn [set fst]. fold (bump (selected id s)).
  destruct (tasks_sync_effect id (bump (selected id s))) as [-> ->]. split; [|done]. apply inv_sync; [by apply inv_bump|done..].
Qed.

Lemma inv_startAction s : chat_inv s → tasks s = [] → chat_inv (startAction s).1 ∧ tasks (startAction s).1 = [] ∧ ch_busy (startAction s).1 = true.
Proof. intros Hi Ht. split; [|done]. apply (inv_core s); [done|done|apply (ci_shown _ Hi)|by right]. Qed.

Lemma inv_busy b s : chat_inv s → tasks s = [] → chat_inv (setBusy b s).
Proof. intros Hi Ht. apply (inv_core s); [done|done|apply (ci_shown _ Hi)|by right]. Qed.

Lemma inv_fail m s : chat_inv s → chat_inv (fail m s).1.
Proof. intros Hi. apply (inv_core s); [done|done|apply (ci_shown _ Hi)|by left]. Qed.

Lemma inv_hear scope notice s : chat_inv s → chat_inv (hearRoom scope notice s).1.
Proof.
  intros Hi. unfold hearRoom, reading. destruct (_ || _); [done|]. destruct (is_type _ _); [by apply inv_sync|].
  destruct (parseDelta _) as [delta|].
  - destruct (_ || _); [done|]. rewrite fst_next. cbn [set fst]. set (s1 := setPartial _ s).
    assert (chat_inv s1) as H1 by (apply (inv_core s); [done|done|apply (ci_shown _ Hi)|by left]). destruct (pr_gap _); [by apply inv_sync|done].
  - destruct (parseAgentNotice _); [|done]. destruct (_ && _); [by apply inv_sync|done].
Qed.

Lemma inv_send text uuid s : chat_inv s → ch_busy s = false → chat_inv (send text uuid s).1.
Proof.
  intros Hi Hb. pose proof (idle_tasks s Hi Hb) as Ht. destruct (inv_startAction s Hi Ht) as (H1 & Ht1 & Hb1). unfold send, reading. rewrite fst_next.
  destruct (_ || _); [by apply inv_busy|]. rewrite !fst_next. cbn [set fst]. set (s2 := setRetry _ _).
  assert (chat_inv s2) as H2 by (apply (inv_core (startAction s).1); [done|done|apply (ci_shown _ H1)|by left]).
  apply inv_request; [done|done|done|]. intros _. split_and!; [done|done|]. by intros c [= <-].
Qed.

Lemma inv_stop s : chat_inv s → ch_busy s = false → chat_inv (stop s).1.
Proof.
  intros Hi Hb. pose proof (idle_tasks s Hi Hb) as Ht. destruct (inv_startAction s Hi Ht) as (H1 & Ht1 & Hb1). unfold stop, reading. rewrite fst_next.
  destruct (ch_active s); [|by apply inv_busy]. apply inv_request; [done|done|done|]. intros _. split_and!; [done|done|]. by intros c [= <-].
Qed.

Lemma inv_added id s : chat_inv s → tasks s = [] → chat_inv (added id s).1.
Proof.
  intros Hi Ht. unfold added. rewrite !fst_next. cbn [set fst]. set (s1 := setConversations _ s).
  assert (chat_inv s1) as H1 by (apply (inv_core s); [done|done|apply (ci_shown _ Hi)|by left]). destruct (inv_select id s1 H1 Ht) as (H2 & Ht2 & _). by apply inv_busy.
Qed.

Lemma inv_showSnapshot y snapshot s : chat_inv s → sync_fits s y → chat_inv (showSnapshot y snapshot s).1.
Proof.
  intros Hi (Hv & Hc & Hh). unfold showSnapshot, reading. case_bool_decide as E; [|done]. cbn [negb]. apply (inv_core s); [done|done| |by left].
  rewrite <- (Hc E). exact Hh.
Qed.

Lemma tasks_showSnapshot y snapshot s : tasks (showSnapshot y snapshot s).1 = tasks s.
Proof. unfold showSnapshot, reading. by case_bool_decide. Qed.

Lemma inv_answer k a s : chat_inv s → allowed s (do_answer k a) → chat_inv (answer k a s).1.
Proof.
  intros Hi Ha. unfold answer, reading. destruct (ch_waiting s !! k) as [w|] eqn:Hk; [|done]. cbn [mbind option_bind].
  destruct (settle w a) as [m|] eqn:Hm; [|done]. rewrite fst_next. cbn [set fst]. fold (without k s). destruct (inv_answered s k w Hi Hk) as [H1 Ht].
  assert (∀ y, sync_of w = Some y → sync_fits s y) as Hf by (intros y; eapply (ci_syncs _ Hi), list_elem_of_lookup_2, Hk).
  assert (w ≠ w_list) as Hl by (intros ->; apply (ci_listed _ Hi); by eapply list_elem_of_lookup_2).
  destruct w as [| | |c|c|y|y]; try done; destruct a as [[]|[]|[]|[page|]|[snapshot|]]; try done; injection Hm as <-.
  - apply inv_added; [done|by apply Ht].
  - rewrite fst_next. apply inv_busy; [by apply inv_fail|by apply Ht].
  - apply inv_added; [done|by apply Ht].
  - rewrite fst_next. apply inv_busy; [by apply inv_fail|by apply Ht].
  - destruct (Ht eq_refl) as (Hn & Hb & Hc). apply inv_sync; [done|by apply Hc|done].
  - destruct (Ht eq_refl) as (Hn & _). rewrite !fst_next. apply inv_busy; [|done]. apply inv_fail. apply (inv_core (without k s)); [done|done|apply (ci_shown _ H1)|by left].
  - destruct (Ht eq_refl) as (Hn & Hb & Hc). apply inv_sync; [done|by apply Hc|done].
  - rewrite fst_next. apply inv_busy; [by apply inv_fail|by apply Ht].
  - destruct (Hf y eq_refl) as (Hv & Hc & Hh). assert (Forall (served (sy_conversation y)) (sy_history y ++ pg_events page)) as Hh' by (apply Forall_app; split; [done|by apply Ha]).
    unfold syncPage. destruct (_ || _); (apply inv_request; [done|done| |]); try (intros y' [= <-]; done); intros Hb; by apply Ht.
  - apply inv_afterSync; [done|]. intros Hb. apply Ht. cbn. by destruct (sy_owner y).
  - rewrite fst_next. apply inv_afterSync; [apply inv_showSnapshot; [done|by apply Hf]|]. intros Hb. rewrite tasks_showSnapshot. apply Ht. cbn. by destruct (sy_owner y).
  - apply inv_afterSync; [done|]. intros Hb. apply Ht. cbn. by destruct (sy_owner y).
Qed.

Lemma inv_opened ids : chat_inv (opened ids).
Proof.
  set (m0 := setWaiting [] (mountChat initialChat).1). assert (opened ids = (listed ids m0).1) as ->.
  { unfold opened, answer, reading. change (ch_waiting (mountChat initialChat).1 !! 0) with (Some w_list). cbn [mbind option_bind settle]. by rewrite fst_next. }
  unfold listed, reading. rewrite !fst_next. cbn [set fst].
  set (id := default "" (head ids)). set (s1 := setConversationId id _).
  assert (chat_inv s1) as H1 by (split; cbn; [constructor|by intros ? ? ?%not_elem_of_nil|done|apply not_elem_of_nil]).
  unfold conversationChanged. case_bool_decide; [done|]. rewrite fst_next. cbn [set fst]. fold (bump s1). by apply inv_sync; [apply inv_bump|..].
Qed.

Lemma reachable_inv ids s : chat_reachable ids s → chat_inv s.
Proof.
  induction 1 as [|s e _ IH Ha]; [apply inv_opened|]. destruct e as [id| |n|text uuid| |scope notice|k a]; cbn [perform] in *.
  - by apply inv_select; [|apply idle_tasks].
  - pose proof (idle_tasks s IH Ha) as Ht. destruct (inv_startAction s IH Ht) as (H1 & Ht1 & Hb1). unfold create. rewrite fst_next. by apply inv_request.
  - pose proof (idle_tasks s IH Ha) as Ht. destruct (inv_startAction s IH Ht) as (H1 & Ht1 & Hb1). unfold fork, reading. rewrite fst_next. by apply inv_request.
  - by apply inv_send.
  - by apply inv_stop.
  - by apply inv_hear.
  - by apply inv_answer.
Qed.

(** C15: once the list of conversations has answered, the events on screen are events of the
    selected conversation, in whatever order the later answers come, after anything that the card
    offers (it offers to select, create, fork, send and stop only while no such action is in
    flight) and anything that is heard from the stream; and at most one such action is in
    flight.  The server is taken to answer a page of a conversation with events of that
    conversation.  Before the list has answered this does not hold: a list that comes after a
    conversation was created replaces the selection and leaves the other's events on screen
    (late_list_replaces_the_conversation). *)
Theorem chat_shows_the_selected_conversation ids s :
  chat_reachable ids s → Forall (served (ch_conversationId s)) (ch_events s) ∧ length (filter (λ w, busy_task w = true) (ch_waiting s)) ≤ 1.
Proof.
  intros H%reachable_inv. split; [apply (ci_shown _ H)|]. pose proof (ci_tasks _ H) as Ht. unfold tasks_fit in Ht. fold (tasks s).
  destruct (tasks s) as [|w [|]]; cbn; [lia|lia|done].
Qed.
End served.

(** ** Sending *)

(** A message that did not get through is sent again as it was: the next send, whatever its text,
    carries the text and the id of the first, so that the server can tell it has seen it. *)
Theorem resending_repeats_the_message s text uuid text' uuid' m :
  ch_sending s = false → ch_active s = None → ch_loading s = false → ch_retry s = None → trim text ≠ "" → trim text' ≠ "" →
  let failed := (answer (length (ch_waiting s)) (a_done (Throw m)) (send text uuid s).1).1 in
  ch_busy failed = false ∧ ch_error failed = m ∧
  (send text' uuid' failed).2 = [req_send (ch_conversationId s) {| rq_client_turn_id := uuid; rq_text := text |}].
Proof.
  intros Hs Ha Hl Hr Ht Ht' failed. assert (failed = setBusy false (setError m (setSending false
    (setWaiting (ch_waiting s) (setRetry (Some {| rq_client_turn_id := uuid; rq_text := text |}) (setSending true (setBusy true (setError "" s)))))))) as ->.
  { unfold failed, send, reading. rewrite Hs, Ha, Hl, Hr, bool_decide_false, bool_decide_false by (done || by intros []). cbn [orb].
    unfold answer, reading, next, startAction, set, request. cbn. rewrite lookup_app_r, Nat.sub_diag by lia. cbn.
    rewrite delete_middle. by rewrite app_nil_r. }
  split_and!; [done|done|]. unfold send, reading. cbn. rewrite Ha, Hl, bool_decide_false, bool_decide_false by (done || by intros []). done.
Qed.

(** ** Where it loses track *)

Definition a_page_of (events : list AgentEvent) : ChatAnswer := a_page (Ok {| pg_events := events; pg_next_sequence := 0; pg_last_sequence := 0 |}).

Definition run (es : list ChatEvent) (s : Chat) : Chat := foldl (λ s e, (perform e s).1) s es.

(** A sync that has been overtaken still ends the loading of the conversation that is selected
    now: it looks empty and idle while its events are on their way. *)
Theorem stale_answer_ends_the_loading :
  let s := run [do_select "b"; do_answer 0 (a_page_of []); do_answer 1 (a_active (Ok None))] (opened ["a"; "b"]) in
  ch_conversationId s = "b" ∧ ch_loading s = false ∧ ch_events s = [] ∧ map task_conversation (ch_waiting s) = [Some "b"].
Proof. vm_compute. done. Qed.

(** Selecting the conversation that is selected clears it and reads nothing: it stays loading. *)
Theorem reselecting_never_loads s :
  ch_conversationId s ≠ "" →
  (select (ch_conversationId s) s).2 = [] ∧ ch_loading (select (ch_conversationId s) s).1 = true ∧ ch_events (select (ch_conversationId s) s).1 = [] ∧
  ch_waiting (select (ch_conversationId s) s).1 = ch_waiting s ∧ ch_generation s < ch_generation (select (ch_conversationId s) s).1.
Proof.
  intros Hn. unfold select, reading, conversationChanged. rewrite !(bool_decide_true (ch_conversationId s = ch_conversationId s)) by done. rewrite bool_decide_false by done.
  cbn. split_and!; try done. lia.
Qed.

(** The list of conversations is read while nothing says that it is loading. *)
Theorem mounted_is_not_loading : ch_loading (mountChat initialChat).1 = false ∧ ch_waiting (mountChat initialChat).1 = [w_list].
Proof. done. Qed.

(** A list that answers late takes the place of a conversation that was created meanwhile, and
    the events of that one stay on screen under the other. *)
Theorem late_list_replaces_the_conversation event :
  let s := run [do_create; do_answer 1 (a_item (Ok "new")); do_answer 1 (a_page_of [event]); do_answer 1 (a_active (Ok None)); do_answer 0 (a_list (Ok ["old"]))] (mountChat initialChat).1 in
  ch_conversationId s = "old" ∧ ch_conversations s = ["old"] ∧ ch_events s = [event].
Proof. vm_compute. done. Qed.

(** ** Witnesses *)

Definition of_b (c : string) (e : AgentEvent) : Prop := ev_turn_id e = c.

Definition seen_event : AgentEvent := {| ev_turn_id := "b"; ev_sequence := 1; ev_kind := "user_message" |}.
Definition seen_page : ChatEvent := do_answer 1 (a_page_of [seen_event]).
Definition seen_active : ChatEvent := do_answer 1 (a_active (Ok None)).

Lemma chat_shows_the_selected_conversation_witness :
  let s := (perform seen_active (perform seen_page (perform (do_select "b") (opened ["a"; "b"])).1).1).1 in
  ch_events s = [seen_event] ∧ ch_conversationId s = "b" ∧ Forall (of_b (ch_conversationId s)) (ch_events s).
Proof.
  cbv zeta. split; [vm_compute; reflexivity|]. split; [vm_compute; reflexivity|]. eapply chat_shows_the_selected_conversation.
  refine (chat_stepped of_b ["a"; "b"] _ seen_active (chat_stepped of_b ["a"; "b"] _ seen_page (chat_stepped of_b ["a"; "b"] _ (do_select "b") (chat_opened of_b ["a"; "b"]) _) _) _).
  - vm_compute. reflexivity.
  - intros y Hy. vm_compute in Hy. injection Hy as <-. repeat constructor.
  - exact I.
Defined.

Lemma resending_repeats_the_message_witness :
  let s := setLoading false (opened []) in
  (send "again" "u2" (answer 0 (a_done (Throw "offline")) (send "hello" "u1" s).1).1).2 = [req_send "" {| rq_client_turn_id := "u1"; rq_text := "hello" |}].
Proof. by apply (resending_repeats_the_message (setLoading false (opened [])) "hello" "u1" "again" "u2" "offline"). Defined.
